(* ===== verification/_CoqProject ===== *)
-Q . S2P
Prelude.v
Order.v
PyVal.v
PyString.v
OrderedMap.v
PyTime.v
FindingLifecycle.v
Cases.v
CaseStore.v
CaseApi.v
FinalizationLoop.v
AssetBindings.v
AssetFacts.v
WindowStore.v
ThreatIntel.v
YaraRegistry.v
SensorRegistry.v
ObjectKeys.v
CaptureBudget.v
PacketCapture.v
FileArtifact.v
Json.v
FindingsExport.v
SinkDelivery.v
IsoTime.v
EvidencePaging.v
IntelMatch.v
HuntWorker.v
Correlation.v
NdpiPolicy.v
PartitionKeys.v
EastWest.v
BehavioralScores.v
BehavioralConfig.v
Behavioral.v
FlowReplay.v
ProtocolScores.v
ProtocolDetectors.v
Ja4History.v
JsonSchema.v
CaptureGates.v
DetectionRegistry.v
FeedbackRouter.v
DispositionQuality.v
Scoreboard.v
Coverage.v
Investigation.v
InvestigationService.v
FeedRecords.v
FeedConnectors.v
FeedTransport.v
IntelProcess.v
AssetService.v
OutboundFeatures.v
OutboundModel.v
AnomalyService.v
AssetApi.v
BatchLoop.v
Normalizer.v
FileObserver.v
DetectorFleet.v
OtDetectors.v
HttpDetector.v
DnsDetector.v
DetectorReplicas.v
CoverageDetector.v
AlertPromotion.v
Cef.v
SinkPayloads.v
SoarPlaybook.v
SlipsAdapter.v
ZeekCentral.v
CaptureProcess.v
FindingEnrichment.v
YaraScan.v
ArtifactConsumer.v
YaraService.v
SensorAgent.v
NetboxConnector.v
Reconstruction.v
