(* ===== verification/Prelude.v ===== *)
(** * Verification of the Cernity NDR analytics services

    Cernity NDR is a network detection and response platform: sensors publish flow
    records, heartbeats and observations on a bus; detectors turn them into candidate
    findings; the services modelled here decide what happens to findings, evidence,
    assets, intelligence, rulesets and captured packets.  This library translates the
    logic of those Python services into Rocq functions and proves what makes them
    correct.  All paths below are under [src/].

    ** The program and its parts

    - Sensors: [services/sensor-agent] reports health, [services/sensor-registry] keeps the
      inventory; [services/capture-agent] with [shared/object_keys.py] and
      [shared/capture_v2.py] arms captures, keeps the packet ring and preserves packets under
      signed, budgeted requests; [services/zeek-central] analyses what was captured;
      [services/file-observer] tells of the files seen.
    - Ingress: [services/normalizer] turns bus records into typed rows and canonical
      observations; [services/eve-bridge] hands Suricata's records to another engine and
      [services/slips-adapter] takes that engine's alerts back.
    - Detectors: [services/behavioral-detectors], [services/east-west-detectors],
      [services/protocol-detectors] (with [shared/provenance.py]), [services/ot-detectors],
      [services/http-detector], [services/dns-detector], [services/anomaly-detector] and
      [services/coverage-detector] over the windowed store of [shared/store.py];
      [services/ids-alerts], [services/zeek-notice] and [services/file-threat] promote other
      engines' verdicts; [services/correlation-service] joins findings into incidents.
    - Findings: [services/finding-service] owns the life of a finding, its enrichment, the
      analyst cases and their dispositions; [services/capture-orchestrator] turns findings
      into captures; [services/findings-forwarder] and [services/soar-forwarder] deliver them.
    - Files: [services/file-artifact] is the gate between the carved files sensors upload and
      the ones analysts may download; [services/file-yara] scans them with governed rulesets.
    - Intelligence: [services/threat-intel] fetches, merges and matches indicators;
      [services/intel-hunt] replays stored evidence against them.
    - Evidence and people: [services/evidence-service] reads stored evidence in pages;
      [services/investigation-service] and [services/reconstruction] put a picture of an
      entity together; [services/asset-service] says who owned an address when and what is
      known of it; [services/connector-service] brings owners from a CMDB;
      [services/feedback-service], [services/detection-registry] and
      [services/coverage-service] keep what analysts said, what is deployed and what it covers.

    They interact through records: a finding document goes from the candidate to the
    pending map to the final topic; a case's dispositions go to the outbox; a preserve
    request goes through validation, authorization and the budget to the ring and the
    object store; a carved file goes through the artifact gate to the scanner and back as an
    observation.  Where two parts share a contract it is an interface or a lemma of
    the part that promises it: the store's operations ([WindowStore]), a replica's steps
    ([DetectorFleet]), the two consumer loops ([BatchLoop], [ArtifactConsumer.consumer]) and the key
    discipline ([ObjectKeys], used by [PacketCapture], [FileArtifact] and [YaraService]).

    ** The files

    Language and shared parts:
    - [Prelude] (this file): results of code that may raise ([res], with [inv_ok]),
      Boolean reflection ([to_prop]), deduplicating unions, constant tables, filters.
    - [Order]: total orders as a class, stable sorting and first minimum or maximum by a
      key, as Python's [sorted], [min] and [max] do.
    - [PyVal]: ASCII strings, JSON values and dictionaries that keep their order, [==]
      across number types, conversions, IEEE doubles.  [PyString]: substrings, prefixes,
      character classes, splitting.
    - [OrderedMap]: insertion-ordered dictionaries, the first-writer fold ([keep_min]), and
      the monad [M W A] of handlers that act on a world and may raise, with the frame rule
      for relations between worlds ([frames]).
    - [PyTime], [IsoTime]: timestamps as instants and instants as texts.
    - [Json], [JsonSchema]: documents as texts and lines of files; closed schemas.
    - [WindowStore] (shared/store.py): the store's interface as a class over any state, its
      in-memory instance, and the sharded router as an instance over any other.
    - [BatchLoop] (buffer, flush, commit) and the loop of [ArtifactConsumer] (process a poll,
      commit): consumers with crashes and restarts, over the class of what a service does
      with a record.

    Findings:
    - [FindingLifecycle] (state_machine.py), [FinalizationLoop] (app.py),
      [FindingEnrichment] (geoenrich.py, intel.py), [Cases] (cases.py), [CaseStore]
      (store.py), [CaseApi] (the HTTP side of app.py).
    - [FindingsExport] and [SinkDelivery] (obligations, retries, replay and commits of the
      forwarder), [SinkPayloads] (mappings.py and what each adapter sends), [Cef] (cef.py),
      [SoarPlaybook] (soar-forwarder).
    - [Correlation] (correlate.py, app.py): kill chain, risk, incidents, corroborations.

    Detectors:
    - [PartitionKeys]: keys and index sets of partitioned windows.
    - [EastWest] (ew.py, app.py), [BehavioralScores] (detectors.py), [BehavioralConfig]
      (config_source.py), [Behavioral] (app.py), [FlowReplay] (its per-flow fields under
      redelivery), [NdpiPolicy] (ndpi_policy.py).
    - [ProtocolScores] (proto.py, provenance.py), [ProtocolDetectors] (app.py), [Ja4History]
      (a reference for its fingerprints that keeps everything).
    - [OtDetectors], [HttpDetector] (with the regular expressions it searches),
      [DnsDetector]: the checks and the services;
      [DetectorFleet]: replicas over one store, [DetectorReplicas]: the three services in it.
    - [OutboundFeatures], [OutboundModel], [AnomalyService] (anomaly-detector),
      [CoverageDetector] (coverage-detector), [AlertPromotion] (ids-alerts, zeek-notice,
      file-threat), [SlipsAdapter] (slips-adapter, eve-bridge).

    Sensors, captures and files:
    - [SensorAgent] (sensor-agent), [SensorRegistry] (store.py, enrollment.py, app.py).
    - [ObjectKeys] (object_keys.py and the pure part of agent.py), [CaptureBudget]
      (capture_v2.py), [PacketCapture] (ring, preserve and download of agent.py),
      [CaptureProcess] (app.py, suricata_socket.py, retrieval.py), [CaptureGates]
      (capture-orchestrator), [ZeekCentral] (zeek-central).
    - [FileObserver] (file-observer), [FileArtifact] (file-artifact/store.py),
      [ArtifactConsumer] (its app.py).
    - [YaraRegistry] (registry.py), [YaraScan] (workers.py, scan.py, fileforensics.py),
      [YaraService] (app.py, rules_refresh.py).

    Evidence, assets, intelligence and feedback:
    - [Normalizer] (models.py, app.py), [EvidencePaging] (query.py, app.py, and the client
      of investigation-service/queries.py), [Investigation] (queries.py, engine.py, the
      playbook), [InvestigationService] (app.py, auth.py), [Reconstruction].
    - [AssetBindings], [AssetFacts] (resolution.py), [AssetService] (relationships.py,
      app.py), [AssetApi] (its read side), [NetboxConnector] (netbox.py).
    - [ThreatIntel] (lifecycle.py, store.py), [IntelMatch] (ti.py), [FeedRecords],
      [FeedConnectors], [FeedTransport] (feeds.py), [IntelProcess] (app.py), [HuntWorker]
      (intel-hunt: hunt.py, store.py).
    - [DetectionRegistry], [Scoreboard] (detection-registry), [FeedbackRouter],
      [DispositionQuality] (feedback-service), [Coverage] (coverage-service).

    ** How code becomes definitions

    A definition keeps the name of its function; a part of a function that is named on
    its own (a loop body, a guard, a comprehension) is a definition too.  A function
    that may raise returns [res]; only the class of the exception is kept.  A handler
    that has effects before it raises is an [M] computation: its effects stay.  A
    transaction is a function that returns the old state when it raises.  Classes are
    records with the object's fields; SQL tables with a primary key are finite maps,
    tables without one and audit trails are lists; Python dictionaries are association
    lists in insertion order where the order can be seen, finite maps where it cannot.
    Critical sections under one lock are atomic steps, and code that releases the lock
    in the middle ([CaseStore.drain_step]) is a small-step machine whose steps are the
    locked sections.  Threads and replicas are steps that interleave ([CaptureProcess],
    [DetectorFleet]); a process that stops and starts again is a step that forgets what is
    not stored.  What may fail (a send, an insert, a fetch) is an argument of the step.

    Integers are unbounded, as in Python.  Clock readings and timestamps are integers
    of a fixed unit (microseconds where a conversion happens), so differences smaller
    than the unit are not seen; where scores, rates and ages are computed in floating point
    they are IEEE doubles with the operations of the code in their order, and trust or score
    values that are only compared are integers.  Strings are sequences of 8-bit characters,
    so surrogates do not occur and lower-casing is ASCII.  JSON columns hold the document
    itself, so a round trip through [json.dumps] is the identity on them.

    Code that is not part of the repository is a parameter of the definitions that use
    it: SHA-1 and SHA-256 (only the length and the alphabet of the hexadecimal form are
    ever assumed), CRC-32, MACs, random identifiers, the address and URL parsers, decimal
    rounding, logarithms and square roots, ZIP and PE readers, the scan engine, the packet
    carver, the object store, audit sinks, bus and database calls.  The client of
    the database binds times with a rounding to whole seconds or a finer unit.  Theorems that
    assume something of a parameter say so and have a witness that instantiates it.

    ** What is proved

    - Findings: the state and route [build_finding] chooses on every branch; a quality
      discount changes neither; each accepted transition adds one revision; what was
      delivered stays delivered; no capture-bound finding is left dangling by any run of
      the service; timeouts finalize exactly the due ones; a result never crosses
      tenants and re-opens a finalized finding at most once; the caches stay bounded;
      recovery after a restart reads every page or reports the overflow.  Enrichment asks
      about external addresses only, at most once per lifetime of an answer.
    - Cases: replaying the audit trail gives back the case; statuses move along the
      table only; dispositions are attributed; the outbox delivers each disposition
      exactly once under any interleaving of drains, writers and interruptions, and a
      drain with a working consumer empties it; tenants are isolated; a mutation is
      committed with its dispositions or not at all; every request of the API is answered
      by its function and what it reads and changes is the session's own.
    - Delivery: every handled record ends delivered, dead-lettered or uncommitted, whatever
      the products answer and wherever the process stops, unless the disk cuts the rewrite
      of the dead-letter file in a replay; a batch settles each record
      once; a bulk answer is settled item by item; a CEF line is read back as it was
      written.
    - Detection: lateral movement is found exactly when the window has the targets; a
      candidate is sent once per content and bucket; packet-inspection findings depend only
      on the set of signals; redelivered flow records change no total; JA4 verdicts are those
      of the whole history; OT findings rest on what was learned; replicas of a detector
      never emit twice; outbound baselines of tenants do not mix; alerts of other engines are
      promoted exactly as their tables say, and the lines of the alert file are followed
      whole and all of them are read.
    - Correlation: one incident per entity, bucket and reason; a restart between rounds
      loses nothing of the window; when a chain is ordered; when a category corroborates.
    - Captures: keys stay in the tenant's namespace, segments of different tenants
      differ, staging keys round trip and are not servable; outstanding captures and the
      hourly budget are bounded over failed saves and restarts; the ring stays within its
      bytes and its age; uploads are carved, signed, bounded and labelled; downloads are
      authorized, audited and verified; while the process lives every arm is disarmed and
      every capture reported.
    - Files and rulesets: an accepted archive has no entry that leaves the extraction root,
      is too large or nests too deep; a download serves vetted bytes of the reader's own
      tenant; a stored artifact never loses its link and an announced one is scanned or
      refused; findings rest on clean matches of active rulesets; every served ruleset was
      put there by authorized actors; what is compiled was promoted or ships with the image
      ungoverned; remote rules stay drafts.
    - Ingress: what is committed is normalized or dropped for a reason, observations name
      their record and tenant; file observations carry hashes of whole files only.
    - Sensors: heartbeats never move a sensor between tenants nor touch enrollment
      columns; they never come in bursts; every line of the log is counted once.
    - Evidence and hunts: pages cover a window, and partition it in order where times are
      bound as they are, within the tenant and the caller's scope, and reading a window
      ends; live matching is exact with respect to the indicators; a hunt completes under
      any interleaving of failures once enough requests were answered, if the times of the
      rows are whole units of that binding or fewer rows than a page fall into one unit;
      timelines and graphs are about their tenant and asset.
    - Assets: the derived interval cache agrees with the ownership oracle at every
      instant; attribution does not depend on the order of arrival; flushed facts are those
      of the evidence; what is committed is durable; reads stay within the caller's tenants;
      CMDB facts are grounded and its token goes to its host only.
    - Intelligence: derivation follows the valid assertions; a match is live, unexpired,
      unsuppressed and of the caller's tenant; feed records conform to their contract and a
      feed's credentials stay with its host.
    - Feedback: a disposition is audited, owned by its tenant and expires; promotions of
      detections follow the table; quality is counted exactly.
    - The store: the sharded store answers any history like a single in-memory one.

    State invariants are proved by induction over reachable states ([rtc] of a step
    relation, or an inductive run that also collects a ledger).  Recursions are
    structural, except the reading of a capture stream, whose fuel is the number of
    bytes left: a round takes at least sixteen.  Archive validation recurses on the
    levels of nesting that may still be opened, the bound the code itself enforces.
    The client that reads a window takes its number of pages as fuel; twelve and one per
    day of the window are enough, because a page is full and counts against the bound on
    records, or moves the window on by a day.  The pages of a CMDB are read with fuel: as
    much as there are pages is enough ([NetboxConnector.fetch_pages_total]), and a list
    without an end is not finished by the code either.  A hunt has no fuel: its steps are
    the requests it makes, and enough answered ones complete it.

    ** What is not modelled

    Process start-up, bus and database clients, HTTP servers, sockets, logging and metrics
    ([shared/ndr_runtime.py], [shared/metrics.py]); the Redis-backed store, each method of
    which is one client call; consumer-group rebalances in the two generic loops (one
    partition, one group member); the threads that run tcpdump and fork scans as system
    calls; what reads chrony and [/proc] on a sensor; that the floating-point scores separate
    attacks from benign traffic (their definitions are executable, their statistics are not
    judged); deployment, the Flink jobs, benchmarks, contracts, tools and tests.  A storage
    failure in the sensor registry's loop ends the process and is not a step.  In
    [FinalizationLoop] enrichment is an arbitrary total function; [FindingEnrichment] shows
    the values on which the code raises instead. *)

From Stdlib Require Export ZArith Lia Bool String Ascii.
From Stdlib Require Export Sorting.Permutation Sorting.Sorted.
From stdpp Require Export base tactics decidable list gmap strings pretty.

Declare Scope cernity_scope.
Delimit Scope cernity_scope with cernity.
Create HintDb cernity.
Create Rewrite HintDb cernity.

#[global] Open Scope string_scope.
#[global] Open Scope Z_scope.
#[global] Open Scope list_scope.
#[global] Open Scope cernity_scope.

(** ** Exceptions and fallible results

    A Python function that may raise is modelled as a [res]: [Ok a] is a normal
    return, [Raise e] the exception that leaves the function.  Only the class of
    the exception is kept, not its message. *)

Inductive exn : Type :=
| ValueError | TypeError | KeyError | IndexError | AttributeError
| OverflowError | PermissionError | IllegalTransition | Unauthorized
| IntegrityError | PolicyError | ValidationError | FeedTrustError | FeedFetchIncomplete
| OSError | QuarantineError | OtherError.

#[global] Instance exn_eq_dec : EqDecision exn.
Proof. solve_decision. Defined.

Inductive res (A : Type) : Type :=
| Ok (a : A)
| Raise (e : exn).
Arguments Ok {A} a.
Arguments Raise {A} e.

#[global] Instance res_eq_dec {A} `{EqDecision A} : EqDecision (res A).
Proof. solve_decision. Defined.

#[global] Instance res_ret : MRet res := λ A a, Ok a.
#[global] Instance res_bind : MBind res := λ A B k m,
  match m with Ok a => k a | Raise e => Raise e end.
#[global] Instance res_fmap : FMap res := λ A B f m,
  match m with Ok a => Ok (f a) | Raise e => Raise e end.

Definition is_ok {A} (m : res A) : bool := match m with Ok _ => true | _ => false end.

(** [if not b: raise e]. *)
Definition check (b : bool) (e : exn) : res unit := if b then Ok tt else Raise e.

Lemma bind_ok {A B} (a : A) (k : A → res B) : (Ok a ≫= k) = k a.
Proof. reflexivity. Qed.
Lemma bind_raise {A B} e (k : A → res B) : (Raise e ≫= k) = Raise e.
Proof. reflexivity. Qed.
Lemma bind_ok_inv {A B} (m : res A) (k : A → res B) b :
  m ≫= k = Ok b → ∃ a, m = Ok a ∧ k a = Ok b.
Proof. destruct m; simpl; [eauto | discriminate]. Qed.
(** Unlike [injection], it leaves the values as they are. *)
Lemma Ok_inj {A} (a b : A) : Ok a = Ok b → a = b.
Proof. by intros [= ->]. Qed.
Lemma check_ok_inv b e u : check b e = Ok u → b = true.
Proof. destruct b; [done | discriminate]. Qed.
Lemma check_true e : check true e = Ok tt.
Proof. reflexivity. Qed.
#[export] Hint Rewrite @bind_ok @bind_raise check_true : cernity.

(** Invert a chain of monadic binds that returned normally. *)
Ltac inv_ok :=
  repeat match goal with
  | H : (_ ≫= _) = Ok _ |- _ =>
      let a := fresh "a" in let H1 := fresh "Hm" in let H2 := fresh "Hk" in
      apply bind_ok_inv in H as (a & H1 & H2)
  | H : check _ _ = Ok _ |- _ => apply check_ok_inv in H
  | H : Ok _ = Ok _ |- _ => injection H as H; subst
  | H : Raise _ = Ok _ |- _ => discriminate H
  | H : mret _ = Ok _ |- _ => injection H as H; subst
  end.

(** Turn boolean hypotheses into propositions. *)
Ltac to_prop :=
  repeat match goal with
  | H : (_ && _)%bool = true |- _ => apply andb_true_iff in H as [? ?]
  | H : (_ || _)%bool = false |- _ => apply orb_false_iff in H as [? ?]
  | H : negb _ = true |- _ => apply negb_true_iff in H
  | H : negb _ = false |- _ => apply negb_false_iff in H
  | H : (_ <? _) = true |- _ => apply Z.ltb_lt in H
  | H : (_ <? _) = false |- _ => apply Z.ltb_ge in H
  | H : (_ <=? _) = true |- _ => apply Z.leb_le in H
  | H : (_ <=? _) = false |- _ => apply Z.leb_gt in H
  | H : (_ =? _) = true |- _ => apply Z.eqb_eq in H
  | H : (_ =? _) = false |- _ => apply Z.eqb_neq in H
  | H : bool_decide _ = true |- _ => apply bool_decide_eq_true in H
  | H : bool_decide _ = false |- _ => apply bool_decide_eq_false in H
  end.

(** ** Truthiness and lists *)

(** Python's [x or y] on optional strings: [None] and the empty string are falsy. *)
Definition str_truthy (s : string) : bool := negb (String.eqb s "").
Definition ostr_truthy (o : option string) : bool :=
  match o with Some s => str_truthy s | None => false end.

(** [x in xs] for a list of comparable elements. *)
Definition mem {A} `{EqDecision A} (x : A) (xs : list A) : bool := bool_decide (x ∈ xs).

Lemma mem_true {A} `{EqDecision A} (x : A) xs : mem x xs = true ↔ x ∈ xs.
Proof. apply bool_decide_eq_true. Qed.
Lemma mem_false {A} `{EqDecision A} (x : A) xs : mem x xs = false ↔ x ∉ xs.
Proof. apply bool_decide_eq_false. Qed.

(** [list(dict.fromkeys(xs))]: distinct elements in order of first occurrence.
    [dedup_onto acc xs] appends to [acc] the elements of [xs] not seen yet. *)
Fixpoint dedup_onto {A} `{EqDecision A} (acc xs : list A) : list A :=
  match xs with
  | [] => acc
  | x :: xs => dedup_onto (if mem x acc then acc else acc ++ [x]) xs
  end.

Lemma elem_of_dedup_onto {A} `{EqDecision A} (acc xs : list A) y :
  y ∈ dedup_onto acc xs ↔ y ∈ acc ∨ y ∈ xs.
Proof.
  revert acc; induction xs as [|x xs IH]; intros acc; simpl; [set_solver|].
  rewrite IH. destruct (mem x acc) eqn:E.
  - apply mem_true in E. set_solver.
  - set_solver.
Qed.

Lemma NoDup_dedup_onto {A} `{EqDecision A} (acc xs : list A) :
  NoDup acc → NoDup (dedup_onto acc xs).
Proof.
  revert acc; induction xs as [|x xs IH]; intros acc Hacc; simpl; [done|].
  apply IH. destruct (mem x acc) eqn:E; [done|].
  apply mem_false in E. apply NoDup_app. split_and!; [done|set_solver|].
  apply NoDup_singleton.
Qed.

Lemma dedup_onto_subset {A} `{EqDecision A} (acc xs : list A) :
  xs ⊆ acc → dedup_onto acc xs = acc.
Proof.
  induction xs as [|x xs IH]; intros Hs; simpl; [done|].
  rewrite (proj2 (mem_true x acc)) by set_solver. apply IH; set_solver.
Qed.

Lemma dedup_onto_idemp {A} `{EqDecision A} (acc xs : list A) :
  dedup_onto (dedup_onto acc xs) xs = dedup_onto acc xs.
Proof.
  apply dedup_onto_subset. intros y Hy. apply elem_of_dedup_onto. by right.
Qed.

Lemma dedup_onto_prefix {A} `{EqDecision A} (acc xs : list A) :
  ∃ new, dedup_onto acc xs = acc ++ new.
Proof.
  revert acc; induction xs as [|x xs IH]; intros acc; simpl.
  - exists []. by rewrite app_nil_r.
  - destruct (IH (if mem x acc then acc else acc ++ [x])) as [new ->].
    destruct (mem x acc); [by eexists|]. rewrite <- app_assoc. by eexists.
Qed.

(** ** Constant tables keyed by strings *)

Fixpoint assoc {B} (k : string) (t : list (string * B)) : option B :=
  match t with
  | [] => None
  | (k', b) :: t => if String.eqb k k' then Some b else assoc k t
  end.

Lemma assoc_elem {B} k (t : list (string * B)) b : assoc k t = Some b → (k, b) ∈ t.
Proof.
  induction t as [|[k' b'] t IH]; simpl; [done|].
  destruct (String.eqb_spec k k') as [->|].
  - intros [= ->]. set_solver.
  - intros ?. apply elem_of_cons; auto.
Qed.

(** ** Filters *)

Lemma filter_ext_in {A} (P Q : A → Prop) `{!∀ x, Decision (P x), !∀ x, Decision (Q x)} (l : list A) :
  (∀ x, x ∈ l → P x ↔ Q x) → filter P l = filter Q l.
Proof.
  induction l as [|x l IH]; intros Hpq; [done|].
  rewrite !filter_cons, IH by (intros; apply Hpq; by right).
  destruct (Hpq x) as [H1 H2]; [by left|]. repeat case_decide; naive_solver.
Qed.

Lemma filter_imp {A} (f g : A → bool) l :
  (∀ x, g x = true → f x = true) → List.filter g (List.filter f l) = List.filter g l.
Proof.
  intros Hgf. induction l as [|x l IH]; simpl; [done|]. specialize (Hgf x).
  destruct (f x), (g x) eqn:E; simpl; rewrite ?E, ?IH; try done. by specialize (Hgf eq_refl).
Qed.

Lemma elem_filter {A} (f : A → bool) l x : x ∈ List.filter f l ↔ x ∈ l ∧ f x = true.
Proof. by rewrite !list_elem_of_In, filter_In. Qed.
Lemma filter_filter {A} (P Q : A → bool) l : List.filter Q (List.filter P l) = List.filter (λ x, P x && Q x) l.
Proof. induction l as [|x l IH]; simpl; [done|]. destruct (P x); simpl; [|done]. destruct (Q x); by rewrite IH. Qed.
Lemma filter_all {A} (P : A → bool) l : (∀ x, x ∈ l → P x = true) → List.filter P l = l.
Proof.
  induction l as [|x l IH]; intros H; simpl; [done|]. rewrite H by apply list_elem_of_here. f_equal. apply IH. intros y Hy. apply H. by right.
Qed.
Lemma elem_take {A} n (l : list A) x : x ∈ take n l → x ∈ l.
Proof. intros H. rewrite <- (take_drop n l). apply elem_of_app. by left. Qed.
Lemma elem_drop {A} n (l : list A) x : x ∈ drop n l → x ∈ l.
Proof. intros H. rewrite <- (take_drop n l). apply elem_of_app. by right. Qed.

Lemma filter_sublist {A} (f : A → bool) l : List.filter f l `sublist_of` l.
Proof. induction l as [|x l IH]; simpl; [constructor|]. destruct (f x); by constructor. Qed.

Lemma sublist_filter {A} (f : A → bool) (l k : list A) : l `sublist_of` k → List.filter f l `sublist_of` List.filter f k.
Proof.
  induction 1 as [|x l k _ IH|x l k _ IH]; simpl; [constructor| |].
  - destruct (f x); [by constructor|done].
  - destruct (f x); [by constructor|done].
Qed.

Lemma submseteq_filter {A} (f : A → bool) l k : l ⊆+ k → List.filter f l ⊆+ List.filter f k.
Proof.
  induction 1 as [|x l k _ IH|x y l|x l k _ IH|l1 l2 l3 _ IH1 _ IH2]; simpl; [done| | | |by etrans].
  - destruct (f x); [by constructor|done].
  - destruct (f x), (f y); try reflexivity. apply submseteq_swap.
  - destruct (f x); [by constructor|done].
Qed.
