(* ===== verification/Order.v ===== *)
(** * Python's orders: comparison keys, stable sorting, [min] and [max]

    [TotalCmp] is the interface the sorting and selection functions need from a
    key type; integers, strings, booleans, pairs (Python tuples) and options
    implement it.  [isort] is [sorted(xs, key=f)] (stable), [min_by] and [max_by]
    are [min(xs, key=f)] and [max(xs, key=f)] (the first extremal element). *)

From S2P Require Import Prelude.
Set Default Proof Using "Type".

Class TotalCmp (A : Type) := {
  cmp : A → A → comparison;
  cmp_eq_iff : ∀ x y, cmp x y = Eq ↔ x = y;
  cmp_opp : ∀ x y, cmp y x = CompOpp (cmp x y);
  cmp_lt_trans : ∀ x y z, cmp x y = Lt → cmp y z = Lt → cmp x z = Lt;
}.

Definition ltb {A} `{TotalCmp A} (x y : A) : bool :=
  match cmp x y with Lt => true | _ => false end.
Definition leb {A} `{TotalCmp A} (x y : A) : bool :=
  match cmp x y with Gt => false | _ => true end.

Lemma cmp_refl {A} `{TotalCmp A} (x : A) : cmp x x = Eq.
Proof. by apply cmp_eq_iff. Qed.

Lemma leb_refl {A} `{TotalCmp A} (x : A) : leb x x = true.
Proof. unfold leb. by rewrite cmp_refl. Qed.

Lemma leb_total {A} `{TotalCmp A} (x y : A) : leb x y = true ∨ leb y x = true.
Proof. unfold leb. rewrite (cmp_opp x y). destruct (cmp x y); simpl; auto. Qed.

Lemma leb_antisym {A} `{TotalCmp A} (x y : A) : leb x y = true → leb y x = true → x = y.
Proof.
  unfold leb. rewrite (cmp_opp x y). intros H1 H2. apply cmp_eq_iff.
  destruct (cmp x y); simpl in *; congruence.
Qed.

Lemma leb_trans {A} `{TotalCmp A} (x y z : A) :
  leb x y = true → leb y z = true → leb x z = true.
Proof.
  unfold leb. intros H1 H2. destruct (cmp x y) eqn:E1, (cmp y z) eqn:E2; try congruence.
  - apply cmp_eq_iff in E1 as ->. by rewrite E2.
  - apply cmp_eq_iff in E1 as ->. by rewrite E2.
  - apply cmp_eq_iff in E2 as ->. by rewrite E1.
  - by rewrite (cmp_lt_trans x y z).
Qed.

Lemma ltb_leb {A} `{TotalCmp A} (x y : A) : ltb x y = negb (leb y x).
Proof. unfold ltb, leb. rewrite (cmp_opp x y). by destruct (cmp x y). Qed.

Lemma ltb_false_leb {A} `{TotalCmp A} (x y : A) : ltb x y = false ↔ leb y x = true.
Proof. rewrite ltb_leb. by destruct (leb y x). Qed.

Lemma ltb_irrefl {A} `{TotalCmp A} (x : A) : ltb x x = false.
Proof. by rewrite ltb_leb, leb_refl. Qed.

Lemma ltb_trans {A} `{TotalCmp A} (x y z : A) :
  ltb x y = true → ltb y z = true → ltb x z = true.
Proof.
  unfold ltb. intros H1 H2. destruct (cmp x y) eqn:E1, (cmp y z) eqn:E2; try congruence.
  by rewrite (cmp_lt_trans x y z).
Qed.

Lemma ltb_weaken {A} `{TotalCmp A} (x y : A) : ltb x y = true → leb x y = true.
Proof. unfold ltb, leb. by destruct (cmp x y). Qed.

(** ** Instances *)

#[local] Obligation Tactic := idtac.

#[export] Program Instance cmp_Z : TotalCmp Z := {| cmp := Z.compare |}.
Next Obligation. apply Z.compare_eq_iff. Qed.
Next Obligation. apply Z.compare_antisym. Qed.
Next Obligation. intros x y z; rewrite !Z.compare_lt_iff; lia. Qed.

#[export] Program Instance cmp_bool : TotalCmp bool := {| cmp := Bool.compare |}.
Next Obligation. by intros [] []. Qed.
Next Obligation. by intros [] []. Qed.
Next Obligation. by intros [] [] []. Qed.

Lemma ascii_compare_N (a b : ascii) :
  Ascii.compare a b = N.compare (N_of_ascii a) (N_of_ascii b).
Proof. reflexivity. Qed.

Lemma string_compare_refl s : String.compare s s = Eq.
Proof.
  induction s as [|a s IH]; simpl; [done|].
  by rewrite ascii_compare_N, N.compare_refl.
Qed.

Lemma string_compare_lt_trans s t u :
  String.compare s t = Lt → String.compare t u = Lt → String.compare s u = Lt.
Proof.
  revert t u; induction s as [|a s IH]; intros [|b t] [|c u]; simpl; try done.
  rewrite !ascii_compare_N.
  destruct (N.compare_spec (N_of_ascii a) (N_of_ascii b)) as [E1|E1|E1],
    (N.compare_spec (N_of_ascii b) (N_of_ascii c)) as [E2|E2|E2],
    (N.compare_spec (N_of_ascii a) (N_of_ascii c)) as [E3|E3|E3];
    intros; try done; try lia; eauto.
Qed.

#[export] Program Instance cmp_string : TotalCmp string := {| cmp := String.compare |}.
Next Obligation.
  intros x y; split; [apply String.compare_eq_iff | intros ->; apply string_compare_refl].
Qed.
Next Obligation. intros x y. apply String.compare_antisym. Qed.
Next Obligation. apply string_compare_lt_trans. Qed.

(** Tuples compare lexicographically. *)
Definition pair_cmp {A B} `{TotalCmp A, TotalCmp B} (p q : A * B) : comparison :=
  match cmp p.1 q.1 with Eq => cmp p.2 q.2 | Lt => Lt | Gt => Gt end.

#[export] Program Instance cmp_pair {A B} `{TotalCmp A, TotalCmp B} : TotalCmp (A * B) :=
  {| cmp := pair_cmp |}.
Next Obligation.
  intros A B HA HB [a b] [a' b']; unfold pair_cmp; simpl. destruct (cmp a a') eqn:E.
  - apply cmp_eq_iff in E as ->. split; intros Hx.
    + apply cmp_eq_iff in Hx as ->. done.
    + injection Hx as ->. apply cmp_refl.
  - split; [done|]. intros [= -> ->]. by rewrite cmp_refl in E.
  - split; [done|]. intros [= -> ->]. by rewrite cmp_refl in E.
Qed.
Next Obligation.
  intros A B HA HB [a b] [a' b']; unfold pair_cmp; simpl. rewrite (cmp_opp a a').
  destruct (cmp a a'); simpl; [apply cmp_opp | done | done].
Qed.
Next Obligation.
  intros A B HA HB [a1 b1] [a2 b2] [a3 b3]; unfold pair_cmp; simpl.
  destruct (cmp a1 a2) eqn:E1, (cmp a2 a3) eqn:E2; try done.
  - apply cmp_eq_iff in E1 as ->, E2 as ->. rewrite cmp_refl. apply cmp_lt_trans.
  - apply cmp_eq_iff in E1 as ->. by rewrite E2.
  - apply cmp_eq_iff in E2 as ->. by rewrite E1.
  - by rewrite (cmp_lt_trans a1 a2 a3).
Qed.

(** ** Stable sorting *)

Section sort.
Context {A K : Type} `{TotalCmp K} (key : A → K).

Fixpoint insert_key (x : A) (l : list A) : list A :=
  match l with
  | [] => [x]
  | y :: l' => if leb (key x) (key y) then x :: l else y :: insert_key x l'
  end.

Definition isort (l : list A) : list A := foldr insert_key [] l.

Definition key_le (x y : A) : Prop := leb (key x) (key y) = true.

Lemma insert_key_perm x l : insert_key x l ≡ₚ x :: l.
Proof.
  induction l as [|y l IH]; simpl; [done|].
  destruct (leb _ _); [done|]. rewrite IH. constructor.
Qed.

Lemma isort_perm l : isort l ≡ₚ l.
Proof. induction l as [|x l IH]; simpl; [done|]. by rewrite insert_key_perm, IH. Qed.

Lemma elem_of_isort x l : x ∈ isort l ↔ x ∈ l.
Proof. by rewrite isort_perm. Qed.

Lemma insert_key_sorted x l :
  StronglySorted key_le l → StronglySorted key_le (insert_key x l).
Proof.
  induction l as [|y l IH]; simpl; intros Hs; [repeat constructor|].
  inversion Hs as [|?? Hs' Hall]; subst.
  destruct (leb (key x) (key y)) eqn:E.
  - constructor; [done|]. constructor; [done|].
    eapply Forall_impl; [done|]. intros z Hz. eapply leb_trans; eauto.
  - constructor; [auto|]. rewrite insert_key_perm. constructor; [|done].
    unfold key_le. destruct (leb_total (key x) (key y)); congruence.
Qed.

Lemma isort_sorted l : StronglySorted key_le (isort l).
Proof. induction l; simpl; [constructor | by apply insert_key_sorted]. Qed.

(** A list whose keys are distinct has one sorted arrangement. *)
Lemma sorted_perm_unique l1 l2 :
  NoDup (key <$> l1) → StronglySorted key_le l1 → StronglySorted key_le l2 →
  l1 ≡ₚ l2 → l1 = l2.
Proof.
  revert l2; induction l1 as [|x l1 IH]; intros l2 Hnd Hs1 Hs2 Hp.
  { symmetry. apply Permutation_nil. by symmetry. }
  destruct l2 as [|y l2]; [by apply Permutation_sym, Permutation_nil in Hp|].
  rewrite fmap_cons, NoDup_cons in Hnd. destruct Hnd as [Hx Hnd].
  inversion Hs1 as [|?? Hs1' Hall1]; inversion Hs2 as [|?? Hs2' Hall2]; subst.
  assert (x = y) as ->.
  { assert (x ∈ y :: l2) as Hx2 by (rewrite <- Hp; set_solver).
    assert (y ∈ x :: l1) as Hy1 by (rewrite Hp; set_solver).
    apply elem_of_cons in Hy1 as [->|Hy1]; [done|].
    apply elem_of_cons in Hx2 as [->|Hx2]; [done|].
    rewrite Forall_forall in Hall1, Hall2.
    exfalso. apply Hx.
    rewrite (leb_antisym (key x) (key y)); [|by apply Hall1|by apply Hall2].
    by apply list_elem_of_fmap_2. }
  f_equal. apply IH; try done. by apply Permutation_cons_inv in Hp.
Qed.

Lemma isort_perm_eq l1 l2 :
  NoDup (key <$> l1) → l1 ≡ₚ l2 → isort l1 = isort l2.
Proof.
  intros Hnd Hp. apply sorted_perm_unique.
  - by rewrite isort_perm.
  - apply isort_sorted.
  - apply isort_sorted.
  - by rewrite !isort_perm.
Qed.
End sort.

(** ** First minimum and first maximum *)

Section extremum.
Context {A K : Type} `{TotalCmp K} (key : A → K).

Fixpoint min_onto (cur : A) (l : list A) : A :=
  match l with
  | [] => cur
  | x :: l => min_onto (if ltb (key x) (key cur) then x else cur) l
  end.
Definition min_by (l : list A) : option A :=
  match l with [] => None | x :: l => Some (min_onto x l) end.

Fixpoint max_onto (cur : A) (l : list A) : A :=
  match l with
  | [] => cur
  | x :: l => max_onto (if ltb (key cur) (key x) then x else cur) l
  end.
Definition max_by (l : list A) : option A :=
  match l with [] => None | x :: l => Some (max_onto x l) end.

Lemma min_onto_elem cur l : min_onto cur l ∈ cur :: l.
Proof.
  revert cur; induction l as [|x l IH]; intros cur; simpl; [set_solver|].
  specialize (IH (if ltb (key x) (key cur) then x else cur)).
  destruct (ltb _ _); set_solver.
Qed.

Lemma min_onto_le cur l y : y ∈ cur :: l → leb (key (min_onto cur l)) (key y) = true.
Proof.
  revert cur y; induction l as [|x l IH]; intros cur y Hy; simpl.
  { apply list_elem_of_singleton in Hy as ->. apply leb_refl. }
  set (c := if ltb (key x) (key cur) then x else cur).
  assert (leb (key c) (key x) = true ∧ leb (key c) (key cur) = true) as [Hcx Hcc].
  { unfold c. destruct (ltb (key x) (key cur)) eqn:E.
    - split; [apply leb_refl | by apply ltb_weaken].
    - split; [by apply ltb_false_leb | apply leb_refl]. }
  apply elem_of_cons in Hy as [->|[->|Hy]%elem_of_cons].
  - eapply leb_trans; [|exact Hcc]. apply IH; set_solver.
  - eapply leb_trans; [|exact Hcx]. apply IH; set_solver.
  - apply IH; set_solver.
Qed.

Lemma max_onto_elem cur l : max_onto cur l ∈ cur :: l.
Proof.
  revert cur; induction l as [|x l IH]; intros cur; simpl; [set_solver|].
  specialize (IH (if ltb (key cur) (key x) then x else cur)).
  destruct (ltb _ _); set_solver.
Qed.

Lemma max_onto_ge cur l y : y ∈ cur :: l → leb (key y) (key (max_onto cur l)) = true.
Proof.
  revert cur y; induction l as [|x l IH]; intros cur y Hy; simpl.
  { apply list_elem_of_singleton in Hy as ->. apply leb_refl. }
  set (c := if ltb (key cur) (key x) then x else cur).
  assert (leb (key x) (key c) = true ∧ leb (key cur) (key c) = true) as [Hcx Hcc].
  { unfold c. destruct (ltb (key cur) (key x)) eqn:E.
    - split; [apply leb_refl | by apply ltb_weaken].
    - split; [by apply ltb_false_leb | apply leb_refl]. }
  apply elem_of_cons in Hy as [->|[->|Hy]%elem_of_cons].
  - eapply leb_trans; [exact Hcc|]. apply IH; set_solver.
  - eapply leb_trans; [exact Hcx|]. apply IH; set_solver.
  - apply IH; set_solver.
Qed.

Lemma min_by_spec l x :
  min_by l = Some x → x ∈ l ∧ ∀ y, y ∈ l → leb (key x) (key y) = true.
Proof.
  destruct l as [|a l]; simpl; [done|]. intros [= <-].
  split; [apply min_onto_elem | intros; by apply min_onto_le].
Qed.

Lemma max_by_spec l x :
  max_by l = Some x → x ∈ l ∧ ∀ y, y ∈ l → leb (key y) (key x) = true.
Proof.
  destruct l as [|a l]; simpl; [done|]. intros [= <-].
  split; [apply max_onto_elem | intros; by apply max_onto_ge].
Qed.

Lemma max_by_some l : l ≠ [] → ∃ x, max_by l = Some x.
Proof. destruct l; [done|]. simpl; eauto. Qed.
Lemma min_by_some l : l ≠ [] → ∃ x, min_by l = Some x.
Proof. destruct l; [done|]. simpl; eauto. Qed.
End extremum.
