(* ===== verification/PyVal.v ===== *)
(** * Python values: strings, binary64 floats, JSON documents and dicts

    The services pass findings, jobs and records around as [dict]s of JSON
    values.  [val] is that type, [dict] an insertion-ordered dictionary.  A [str]
    is a Rocq string (ASCII code points), an [int] a [Z], a [float] a binary64
    [spec_float] with IEEE operations (round to nearest even), all computable. *)

From Stdlib Require Export SpecFloat.
From S2P Require Import Prelude Order.

(** ** ASCII strings *)

Definition code (c : ascii) : Z := Z.of_N (N_of_ascii c).
Definition between (lo hi z : Z) : bool := (lo <=? z) && (z <=? hi).

Definition is_upper (c : ascii) : bool := between 65 90 (code c).
Definition is_lower (c : ascii) : bool := between 97 122 (code c).
Definition is_digit (c : ascii) : bool := between 48 57 (code c).
Definition is_alnum (c : ascii) : bool := is_upper c || is_lower c || is_digit c.
(** [str.isspace] on ASCII: tab .. carriage return, the four separators, space. *)
Definition is_space (c : ascii) : bool := between 9 13 (code c) || between 28 32 (code c).

Definition lower_char (c : ascii) : ascii :=
  if is_upper c then ascii_of_N (N_of_ascii c + 32)%N else c.

Fixpoint string_map (f : ascii → ascii) (s : string) : string :=
  match s with EmptyString => EmptyString | String c s => String (f c) (string_map f s) end.
Fixpoint string_forallb (p : ascii → bool) (s : string) : bool :=
  match s with EmptyString => true | String c s => p c && string_forallb p s end.
Fixpoint string_filter (p : ascii → bool) (s : string) : string :=
  match s with
  | EmptyString => EmptyString
  | String c s => if p c then String c (string_filter p s) else string_filter p s
  end.
Definition string_existsb (p : ascii → bool) (s : string) : bool :=
  negb (string_forallb (λ c, negb (p c)) s).

(** [s.lower()] *)
Definition lower (s : string) : string := string_map lower_char s.

(** [s.upper()] *)
Definition upper_char (c : ascii) : ascii := if is_lower c then ascii_of_N (N_of_ascii c - 32)%N else c.
Definition upper (s : string) : string := string_map upper_char s.
(** Membership of a character in a class such as [[._-]]. *)
Definition one_of (cs : string) (c : ascii) : bool := string_existsb (Ascii.eqb c) cs.

Fixpoint lstrip (p : ascii → bool) (s : string) : string :=
  match s with
  | EmptyString => EmptyString
  | String c s' => if p c then lstrip p s' else s
  end.
Definition rev_string (s : string) : string := String.rev s.
(** [s.strip(chars)], with the set of characters as a predicate. *)
Definition strip_by (p : ascii → bool) (s : string) : string :=
  rev_string (lstrip p (rev_string (lstrip p s))).
(** [s.strip()] *)
Definition strip (s : string) : string := strip_by is_space s.

(** [s.startswith(p)] *)
Definition starts_with (p s : string) : bool := String.prefix p s.

Fixpoint drop_chars (n : nat) (s : string) : string :=
  match n, s with
  | O, _ => s
  | S n, EmptyString => EmptyString
  | S n, String _ s => drop_chars n s
  end.
Fixpoint take_chars (n : nat) (s : string) : string :=
  match n, s with
  | O, _ | _, EmptyString => EmptyString
  | S n, String c s => String c (take_chars n s)
  end.

(** [sub in s] *)
Fixpoint contains (sub s : string) : bool :=
  String.prefix sub s ||
  match s with EmptyString => false | String _ s => contains sub s end.

(** [s.split(c)] for a one-character separator: never the empty list. *)
Fixpoint split_char (c : ascii) (s : string) : list string :=
  match s with
  | EmptyString => [""]
  | String d s =>
      if Ascii.eqb c d then "" :: split_char c s
      else match split_char c s with
           | [] => [String d ""]
           | w :: ws => String d w :: ws
           end
  end.

(** [sep.join(xs)] *)
Definition join (sep : string) (xs : list string) : string := String.concat sep xs.

(** [s.endswith(p)] *)
Definition ends_with (p s : string) : bool := String.prefix (rev_string p) (rev_string s).

Lemma append_cancel_l (a b c : string) : (a +:+ b = a +:+ c)%string → b = c.
Proof. induction a; simpl; [done|]. intros [= H]. auto. Qed.

(** ** Integers in strings *)

Definition digit_val (c : ascii) : option Z :=
  if is_digit c then Some (code c - 48) else None.

(** Decimal digits with single underscores allowed between two digits, as
    [int()] accepts; [seen] says a digit was just read. *)
Fixpoint parse_digits (seen : bool) (acc : Z) (s : string) : option Z :=
  match s with
  | EmptyString => if seen then Some acc else None
  | String c s' =>
      match digit_val c with
      | Some d => parse_digits true (acc * 10 + d) s'
      | None => if Ascii.eqb c "_" && seen then parse_digits false acc s' else None
      end
  end.

Definition parse_int (s : string) : option Z :=
  match strip s with
  | String "-" s' => Z.opp <$> parse_digits false 0 s'
  | String "+" s' => parse_digits false 0 s'
  | s' => parse_digits false 0 s'
  end.

(** ** binary64 floats *)

Abbreviation float := spec_float.
Definition fadd : float → float → float := SFadd 53 1024.
Definition fsub : float → float → float := SFsub 53 1024.
Definition fmul : float → float → float := SFmul 53 1024.
Definition fdiv : float → float → float := SFdiv 53 1024.

(** [min(a, b)] and [max(a, b)] as CPython evaluates them on floats. *)
Definition fmin (a b : float) : float := if SFltb b a then b else a.
Definition fmax (a b : float) : float := if SFltb a b then b else a.

(** The binary64 number nearest to [n / d] for [d > 0]: the quotient is taken with
    at least 65 significant bits and a sticky bit, then rounded once. *)
Definition ratio (n d : Z) : float :=
  let a := Z.abs n in
  let s := Z.max 0 (Z.log2 d - Z.log2 a + 66) in
  let q := Z.shiftl a s / d in
  let r := Z.shiftl a s mod d in
  let m := 2 * q + (if r =? 0 then 0 else 1) in
  binary_normalize 53 1024 (Z.sgn n * m) (- (s + 1)) false.

Definition is_finite (f : float) : bool :=
  match f with S754_zero _ | S754_finite _ _ _ => true | _ => false end.

(** [float(z)]: raises [OverflowError] beyond the binary64 range. *)
Definition float_of_Z (z : Z) : res float :=
  let f := binary_normalize 53 1024 z 0 false in
  if is_finite f then Ok f else Raise OverflowError.

(** [int(f)]: truncation towards zero. *)
Definition Z_of_float (f : float) : res Z :=
  match f with
  | S754_zero _ => Ok 0
  | S754_infinity _ => Raise OverflowError
  | S754_nan => Raise ValueError
  | S754_finite s m e =>
      let a := if e <? 0 then Z.pos m / 2 ^ (- e) else Z.pos m * 2 ^ e in
      Ok (if s then - a else a)
  end.

(** Exact comparison of an [int] with a [float]. *)
Definition cmp_Z_float (z : Z) (f : float) : option comparison :=
  match f with
  | S754_nan => None
  | S754_infinity s => Some (if s then Gt else Lt)
  | S754_zero _ => Some (Z.compare z 0)
  | S754_finite s m e =>
      let sm := if s then Z.neg m else Z.pos m in
      Some (if e <? 0 then Z.compare (z * 2 ^ (- e)) sm else Z.compare z (sm * 2 ^ e))
  end.

Lemma SFltb_leb a b : SFltb a b = true → SFleb a b = true.
Proof. unfold SFltb, SFleb. by destruct (SFcompare a b) as [[]|]. Qed.

Lemma pos_compare_cont_refl p : Pos.compare_cont Eq p p = Eq.
Proof. change (Pos.compare p p = Eq). apply Pos.compare_refl. Qed.

Lemma SFcompare_refl a : a ≠ S754_nan → SFcompare a a = Some Eq.
Proof.
  destruct a as [s|s| |s m e]; simpl; try done; [by destruct s|].
  intros _. rewrite Z.compare_refl, pos_compare_cont_refl. by destruct s.
Qed.

Lemma fmin_le_l a b : a ≠ S754_nan → SFleb (fmin a b) a = true.
Proof.
  intros Ha. unfold fmin. destruct (SFltb b a) eqn:E; [by apply SFltb_leb|].
  unfold SFleb. by rewrite SFcompare_refl.
Qed.

(** ** JSON values *)

Inductive val : Type :=
| VNone
| VBool (b : bool)
| VInt (z : Z)
| VFloat (f : float)
| VStr (s : string)
| VList (l : list val)
| VDict (d : list (string * val)).

Abbreviation dict := (list (string * val)).

(** [d.get(k)] *)
Fixpoint dget (k : string) (d : dict) : option val :=
  match d with
  | [] => None
  | (k', v) :: d => if String.eqb k k' then Some v else dget k d
  end.

(** [d[k] = v]: an existing key keeps its position, a new key goes last. *)
Fixpoint dset (k : string) (v : val) (d : dict) : dict :=
  match d with
  | [] => [(k, v)]
  | (k', v') :: d => if String.eqb k k' then (k', v) :: d else (k', v') :: dset k v d
  end.

(** [k in d] *)
Definition dhas (k : string) (d : dict) : bool :=
  match dget k d with Some _ => true | None => false end.

(** [d.get(k, v)] and [d.get(k)] with [None] for a missing key. *)
Definition dget_or (k : string) (v : val) (d : dict) : val := default v (dget k d).
Definition dgetN (k : string) (d : dict) : val := dget_or k VNone d.

(** [d[k]] *)
Definition dindex (k : string) (d : dict) : res val :=
  match dget k d with Some v => Ok v | None => Raise KeyError end.

(** [d.setdefault(k, v)], as an update. *)
Definition dsetdefault (k : string) (v : val) (d : dict) : dict :=
  if dhas k d then d else dset k v d.

Lemma dget_dset_eq k v d : dget k (dset k v d) = Some v.
Proof.
  induction d as [|[k' v'] d IH]; simpl.
  - by rewrite String.eqb_refl.
  - destruct (String.eqb k k') eqn:E; simpl; by rewrite E.
Qed.

Lemma dget_dset_ne k k' v d : k ≠ k' → dget k (dset k' v d) = dget k d.
Proof.
  intros Hne. induction d as [|[k2 v2] d IH]; simpl.
  - destruct (String.eqb_spec k k'); [done|reflexivity].
  - destruct (String.eqb_spec k' k2) as [->|]; simpl.
    + destruct (String.eqb_spec k k2); [done|reflexivity].
    + by rewrite IH.
Qed.

Lemma dgetN_dset_eq k v d : dgetN k (dset k v d) = v.
Proof. unfold dgetN, dget_or. by rewrite dget_dset_eq. Qed.
Lemma dgetN_dset_ne k k' v d : k ≠ k' → dgetN k (dset k' v d) = dgetN k d.
Proof. intros. unfold dgetN, dget_or. by rewrite dget_dset_ne. Qed.

Lemma dset_keys_cases k v d : dset k v d = d ++ [(k, v)] ∧ k ∉ d.*1 ∨ (dset k v d).*1 = d.*1 ∧ k ∈ d.*1.
Proof.
  induction d as [|[k' v'] d IH]; [left; split; [done|cbn; set_solver]|]. cbn [dset]. destruct (String.eqb_spec k k') as [->|Hk].
  - right. split; [done|]. cbn. left.
  - destruct IH as [[-> Hn]|[E Hin]]; [left; split; [done|]; cbn; set_solver|right; cbn; rewrite E; split; [done|]; by right].
Qed.
Lemma NoDup_dset k v d : NoDup d.*1 → NoDup (dset k v d).*1.
Proof.
  intros H. destruct (dset_keys_cases k v d) as [[-> Hk]|[-> _]]; [|done]. rewrite fmap_app. apply NoDup_app.
  split_and!; [done|set_solver|apply NoDup_singleton].
Qed.
(** [{**d, **e}] *)
Definition dupdate (d e : dict) : dict := foldl (λ d kv, dset kv.1 kv.2 d) d e.
Lemma dget_dupdate k d e : NoDup e.*1 → dget k (dupdate d e) = match dget k e with Some v => Some v | None => dget k d end.
Proof.
  unfold dupdate. revert d. induction e as [|[k' v] e IH]; intros d; cbn [foldl fmap list_fmap fst snd dget]; [done|].
  intros [Hk He]%NoDup_cons. rewrite IH by done. destruct (String.eqb_spec k k') as [->|Hne].
  - destruct (dget k' e) as [x|] eqn:E; [|by rewrite dget_dset_eq]. exfalso. apply Hk. clear -E.
    induction e as [|[j y] e IH]; [discriminate|]. cbn in *. destruct (String.eqb_spec k' j) as [->|]; [by left|right; by apply IH].
  - destruct (dget k e); [done|]. by rewrite dget_dset_ne by congruence.
Qed.
Lemma dget_dsetdefault_ne k k' v d : k ≠ k' → dget k (dsetdefault k' v d) = dget k d.
Proof. intros. unfold dsetdefault. destruct (dhas k' d); [done|]. by apply dget_dset_ne. Qed.
Lemma dgetN_dsetdefault_ne k k' v d : k ≠ k' → dgetN k (dsetdefault k' v d) = dgetN k d.
Proof. intros. unfold dgetN, dget_or. by rewrite dget_dsetdefault_ne. Qed.

(** Read back the fields a sequence of [dset]s wrote; the keys are literals. *)
Ltac simpl_dict :=
  repeat first
    [ rewrite dgetN_dset_eq | rewrite dget_dset_eq
    | rewrite dgetN_dset_ne by discriminate | rewrite dget_dset_ne by discriminate
    | rewrite dgetN_dsetdefault_ne by discriminate
    | rewrite dget_dsetdefault_ne by discriminate ].

(** Two dicts that agree on every key outside [ks]. *)
Definition agree_except (ks : list string) (d e : dict) : Prop :=
  ∀ k, k ∉ ks → dget k d = dget k e.

#[export] Instance agree_except_equiv ks : Equivalence (agree_except ks).
Proof.
  split; unfold agree_except.
  - by intros d k Hk.
  - intros d e H k Hk. by rewrite H.
  - intros d e g H1 H2 k Hk. by rewrite H1, H2.
Qed.

Lemma agree_dset ks k v d e :
  agree_except ks d e → agree_except ks (dset k v d) (dset k v e).
Proof.
  intros H k' Hk'. destruct (decide (k' = k)) as [->|].
  - by rewrite !dget_dset_eq.
  - rewrite !dget_dset_ne by done. by apply H.
Qed.

#[export] Instance dset_agree ks k v : Proper (agree_except ks ==> agree_except ks) (dset k v).
Proof. intros d e. apply agree_dset. Qed.
#[export] Hint Resolve agree_dset : cernity.

Lemma agree_dgetN ks d e k : agree_except ks d e → k ∉ ks → dgetN k d = dgetN k e.
Proof. intros H Hk. unfold dgetN, dget_or. by rewrite H. Qed.

(** [bool(v)] *)
Definition truthy (v : val) : bool :=
  match v with
  | VNone => false
  | VBool b => b
  | VInt z => negb (z =? 0)
  | VFloat (S754_zero _) => false
  | VFloat _ => true
  | VStr s => str_truthy s
  | VList l => match l with [] => false | _ => true end
  | VDict d => match d with [] => false | _ => true end
  end.

(** [a or b] *)
Definition py_or (a b : val) : val := if truthy a then a else b.

Definition as_num (v : val) : option (Z + float) :=
  match v with
  | VBool b => Some (inl (if b then 1 else 0))
  | VInt z => Some (inl z)
  | VFloat f => Some (inr f)
  | _ => None
  end.

Definition num_cmp (a b : Z + float) : option comparison :=
  match a, b with
  | inl x, inl y => Some (Z.compare x y)
  | inl x, inr g => cmp_Z_float x g
  | inr f, inl y => option_map CompOpp (cmp_Z_float y f)
  | inr f, inr g => SFcompare f g
  end.

(** [a == b]: numbers compare by value across types, dicts without their order. *)
Fixpoint py_eqb (a b : val) {struct a} : bool :=
  match a, b with
  | VNone, VNone => true
  | VStr s, VStr t => String.eqb s t
  | VList l, VList m =>
      (fix go (l m : list val) : bool :=
         match l, m with
         | [], [] => true
         | x :: l, y :: m => py_eqb x y && go l m
         | _, _ => false
         end) l m
  | VDict d, VDict e =>
      (length d =? length e)%nat &&
      (fix go (d : dict) : bool :=
         match d with
         | [] => true
         | (k, x) :: d =>
             match dget k e with Some y => py_eqb x y | None => false end && go d
         end) d
  | (VBool _ | VInt _ | VFloat _), (VBool _ | VInt _ | VFloat _) =>
      match as_num a, as_num b with
      | Some x, Some y => match num_cmp x y with Some Eq => true | _ => false end
      | _, _ => false
      end
  | _, _ => false
  end.

(** [v in xs] *)
Definition val_in (v : val) (xs : list val) : bool := existsb (py_eqb v) xs.

(** [v == "s"] and [v in ("s1", ...)] for string constants. *)
Definition val_eq_str (v : val) (s : string) : bool := py_eqb v (VStr s).
Definition val_in_strs (v : val) (ss : list string) : bool := existsb (val_eq_str v) ss.

Lemma val_eq_str_true v s : val_eq_str v s = true ↔ v = VStr s.
Proof.
  unfold val_eq_str. destruct v; simpl; try (split; [discriminate|congruence]).
  rewrite String.eqb_eq. split; congruence.
Qed.

Lemma val_in_strs_true v ss : val_in_strs v ss = true ↔ ∃ s, v = VStr s ∧ s ∈ ss.
Proof.
  unfold val_in_strs. rewrite existsb_exists. split.
  - intros (s & Hs & Hv). apply val_eq_str_true in Hv as ->.
    exists s. split; [done|]. by apply list_elem_of_In.
  - intros (s & -> & Hs). exists s. split; [by apply list_elem_of_In|].
    by apply val_eq_str_true.
Qed.

Lemma val_in_strs_spec (s : string) ss : val_in_strs (VStr s) ss = mem s ss.
Proof.
  apply eq_bool_prop_intro. rewrite !Is_true_true, val_in_strs_true, mem_true.
  split; [intros (? & [= ->] & ?); done | eauto].
Qed.

(** ** Conversions *)

(** The longest run of digits (single underscores between digits allowed) at the
    front of [s]: value accumulated onto [acc], number of digits, rest. *)
Fixpoint scan_digits (seen : bool) (acc n : Z) (s : string) : Z * Z * string :=
  match s with
  | EmptyString => (acc, n, s)
  | String c s' =>
      match digit_val c with
      | Some d => scan_digits true (acc * 10 + d) (n + 1) s'
      | None =>
          match s' with
          | String c' _ =>
              if Ascii.eqb c "_" && seen && is_digit c'
              then scan_digits false acc n s' else (acc, n, s)
          | EmptyString => (acc, n, s)
          end
      end
  end.

(** [m * 10^k] rounded to binary64. *)
Definition scale10 (m k : Z) : float :=
  if 0 <=? k then binary_normalize 53 1024 (m * 10 ^ k) 0 false
  else ratio m (10 ^ (- k)).

Definition parse_exponent (s : string) : option Z :=
  match s with
  | EmptyString => Some 0
  | String c s' =>
      if Ascii.eqb (lower_char c) "e" then
        match s' with
        | String "-" t => Z.opp <$> parse_digits false 0 t
        | String "+" t => parse_digits false 0 t
        | t => parse_digits false 0 t
        end
      else None
  end.

Definition parse_unsigned_float (s : string) : option float :=
  if mem (lower s) ["inf"; "infinity"] then Some (S754_infinity false)
  else if String.eqb (lower s) "nan" then Some S754_nan
  else
    let '(i, ni, rest) := scan_digits false 0 0 s in
    let '(m, nf, rest) :=
      match rest with
      | String "." t => let '(m, nf, r) := scan_digits false i 0 t in (m, nf, r)
      | _ => (i, 0, rest)
      end in
    if ni + nf =? 0 then None
    else (λ e, scale10 m (e - nf)) <$> parse_exponent rest.

Definition parse_float (s : string) : option float :=
  match strip s with
  | String "-" t => SFopp <$> parse_unsigned_float t
  | String "+" t => parse_unsigned_float t
  | t => parse_unsigned_float t
  end.

(** [float(v)] *)
Definition py_float (v : val) : res float :=
  match v with
  | VFloat f => Ok f
  | VInt z => float_of_Z z
  | VBool b => float_of_Z (if b then 1 else 0)
  | VStr s => match parse_float s with Some f => Ok f | None => Raise ValueError end
  | _ => Raise TypeError
  end.

(** [int(v)] *)
Definition py_int (v : val) : res Z :=
  match v with
  | VInt z => Ok z
  | VBool b => Ok (if b then 1 else 0)
  | VFloat f => Z_of_float f
  | VStr s => match parse_int s with Some z => Ok z | None => Raise ValueError end
  | _ => Raise TypeError
  end.

(** [str(v)]; the textual form of floats and containers is given by [repr]. *)
Definition py_str (repr : val → string) (v : val) : string :=
  match v with
  | VNone => "None"
  | VBool b => if b then "True" else "False"
  | VInt z => pretty z
  | VStr s => s
  | _ => repr v
  end.

Definition is_str (v : val) : bool := match v with VStr _ => true | _ => false end.
Definition is_dict (v : val) : bool := match v with VDict _ => true | _ => false end.
Definition is_list (v : val) : bool := match v with VList _ => true | _ => false end.

(** The receiver of a [dict] method. *)
Definition as_dict (v : val) : res dict := match v with VDict d => Ok d | _ => Raise AttributeError end.
Definition as_list (v : val) : res (list val) :=
  match v with
  | VList l => Ok l
  | VStr s => Ok ((λ c, VStr (String c "")) <$> list_ascii_of_string s)
  | VDict d => Ok ((λ kv, VStr kv.1) <$> d)
  | _ => Raise TypeError
  end.

(** String literals as floats, for constants of the sources. *)
Definition lit (s : string) : float := default S754_nan (parse_float s).

Example lit_90 : lit "0.9" = SFdiv 53 1024 (lit "9") (lit "10").
Proof. vm_compute. reflexivity. Qed.
Example lit_exp : lit "1.5e3" = lit "1500".
Proof. vm_compute. reflexivity. Qed.

(** Arithmetic on JSON numbers. *)
Definition as_float (n : Z + float) : res float := match n with inl z => float_of_Z z | inr f => Ok f end.
Definition num_op (opz : Z → Z → Z) (opf : float → float → float) (a b : val) : res val :=
  match as_num a, as_num b with
  | Some (inl x), Some (inl y) => Ok (VInt (opz x y))
  | Some x, Some y => f ← as_float x; g ← as_float y; Ok (VFloat (opf f g))
  | _, _ => Raise TypeError
  end.
Definition num_add : val → val → res val := num_op Z.add fadd.
Definition num_sub : val → val → res val := num_op Z.sub fsub.
Definition num_le (a b : val) : bool :=
  match as_num a, as_num b with
  | Some x, Some y => match num_cmp x y with Some (Lt | Eq) => true | _ => false end
  | _, _ => false
  end.
(** [min(a, b)]: the first unless the second is less. *)
Definition num_min (a b : val) : res val :=
  match as_num a, as_num b with
  | Some x, Some y => Ok (match num_cmp y x with Some Lt => b | _ => a end)
  | _, _ => Raise TypeError
  end.
