(* ===== verification/PyString.v ===== *)
(** * Lemmas about strings

    Concatenation, reversal, character classes, substrings and splitting, for the
    components that build and check names and keys.  [s.replace("..", "")] and the
    first characters [s[:n]] are here too. *)

From S2P Require Import Prelude PyVal.
Set Default Proof Using "Type".

Notation len s := (Z.of_nat (String.length s)).

Arguments String.append !_ _ / : simpl nomatch.

Lemma sapp_nil_r (s : string) : s +:+ "" = s.
Proof. induction s as [|c s IH]; simpl; congruence. Qed.
Lemma sapp_assoc (a b c : string) : (a +:+ b) +:+ c = a +:+ (b +:+ c).
Proof. induction a as [|x a IH]; simpl; congruence. Qed.
Lemma slength_app (a b : string) : String.length (a +:+ b) = (String.length a + String.length b)%nat.
Proof. induction a as [|x a IH]; simpl; congruence. Qed.

(** ** Reversal *)

Lemma rev_app_spec (s t : string) : String.rev_app s t = String.rev s +:+ t.
Proof.
  unfold String.rev. revert t. induction s as [|c s IH]; intros t; simpl; [done|].
  rewrite IH, (IH (String c "")). by rewrite sapp_assoc.
Qed.
Lemma rev_cons (c : ascii) (s : string) : String.rev (String c s) = String.rev s +:+ String c "".
Proof. unfold String.rev at 1. simpl. apply rev_app_spec. Qed.
Lemma rev_sapp (a b : string) : String.rev (a +:+ b) = String.rev b +:+ String.rev a.
Proof.
  induction a as [|c a IH]; simpl; [by rewrite sapp_nil_r|].
  rewrite !rev_cons, IH. apply sapp_assoc.
Qed.
Lemma rev_rev (s : string) : String.rev (String.rev s) = s.
Proof. induction s as [|c s IH]; [done|]. rewrite rev_cons, rev_sapp, IH. done. Qed.
Lemma slength_rev (s : string) : String.length (String.rev s) = String.length s.
Proof. induction s as [|c s IH]; [done|]. rewrite rev_cons, slength_app, IH. simpl. lia. Qed.

(** ** Parts of a string *)

Definition substring_of (t s : string) : Prop := ∃ a b, s = a +:+ t +:+ b.

#[export] Instance substring_preorder : PreOrder substring_of.
Proof.
  split.
  - intros s. exists "", "". by rewrite sapp_nil_r.
  - intros x y z (a & b & ->) (a' & b' & ->). exists (a' +:+ a), (b +:+ b'). by rewrite !sapp_assoc.
Qed.

Lemma lstrip_part p s : substring_of (lstrip p s) s.
Proof.
  induction s as [|c s IH]; simpl; [reflexivity|]. destruct (p c); [|reflexivity].
  destruct IH as (a & b & E). exists (String c a), b. simpl. by rewrite <- E.
Qed.
Lemma rev_part t s : substring_of t s → substring_of (String.rev t) (String.rev s).
Proof. intros (a & b & ->). exists (String.rev b), (String.rev a). by rewrite !rev_sapp, sapp_assoc. Qed.
Lemma strip_part p s : substring_of (strip_by p s) s.
Proof.
  etrans; [|apply (lstrip_part p)]. unfold strip_by, rev_string.
  rewrite <- (rev_rev (lstrip p s)) at 2. apply rev_part, lstrip_part.
Qed.
Lemma take_part n s : substring_of (take_chars n s) s.
Proof.
  exists "". simpl. revert s. induction n as [|n IH]; intros s; simpl; [by exists s|].
  destruct s as [|c s]; [by exists ""|]. destruct (IH s) as [b E]. exists b. simpl. by rewrite <- E.
Qed.
Lemma slength_take n s : (String.length (take_chars n s) <= n)%nat.
Proof. revert s; induction n as [|n IH]; intros [|c s]; simpl; [lia..|]. specialize (IH s). lia. Qed.

(** ** Character classes *)

Lemma forallb_sapp p (a b : string) : string_forallb p (a +:+ b) = string_forallb p a && string_forallb p b.
Proof. induction a as [|c a IH]; simpl; [done|]. by rewrite IH, andb_assoc. Qed.
Lemma forallb_part p t s : substring_of t s → string_forallb p s = true → string_forallb p t = true.
Proof. intros (a & b & ->). rewrite !forallb_sapp. intros H. by to_prop. Qed.
Lemma forallb_filter p s : string_forallb p (string_filter p s) = true.
Proof. induction s as [|c s IH]; simpl; [done|]. destruct (p c) eqn:E; simpl; [by rewrite E|done]. Qed.
Lemma forallb_weaken (p q : ascii → bool) s :
  (∀ c, p c = true → q c = true) → string_forallb p s = true → string_forallb q s = true.
Proof. intros Hpq. induction s as [|c s IH]; simpl; [done|]. intros H. to_prop. rewrite Hpq; auto. Qed.

(** ** Prefixes *)

Lemma starts_with_app p s : starts_with p (p +:+ s) = true.
Proof. unfold starts_with. induction p as [|c p IH]; simpl; [by destruct s|].
  destruct (ascii_dec c c) as [_|n]; [done|by destruct n].
Qed.
Lemma starts_with_inv p s : starts_with p s = true → ∃ t, s = p +:+ t.
Proof.
  unfold starts_with. revert s. induction p as [|c p IH]; intros s; simpl; [by exists s|].
  destruct s as [|d s]; simpl; [done|]. destruct (ascii_dec c d) as [->|]; [|done].
  intros H%IH. destruct H as (t & ->). by exists t.
Qed.

Lemma starts_with_inv_app p s : (∃ t, s = p +:+ t) → starts_with p s = true.
Proof. intros [t ->]. apply starts_with_app. Qed.

(** ** Two dots in a row *)

Definition no_dots (s : string) : Prop := contains ".." s = false.

Lemma starts_dot (c : ascii) s : starts_with "." (String c s) = Ascii.eqb "." c.
Proof.
  unfold starts_with. cbn [String.prefix]. destruct (Ascii.eqb_spec "." c), (ascii_dec "." c); try done.
  by destruct s.
Qed.
Lemma contains_cons (c : ascii) s :
  contains ".." (String c s) = (Ascii.eqb c "." && starts_with "." s) || contains ".." s.
Proof.
  change (contains ".." (String c s)) with (String.prefix ".." (String c s) || contains ".." s).
  unfold starts_with. cbn [String.prefix]. destruct (Ascii.eqb_spec c ".") as [->|Hn].
  - by destruct (ascii_dec "." ".") as [_|n]; [|destruct n].
  - by destruct (ascii_dec "." c) as [E|_]; [destruct Hn|].
Qed.

(** Concatenation around a character that is not a dot. *)
Lemma no_dots_sep (a : string) (c : ascii) b :
  c ≠ "."%char → no_dots a → no_dots b → no_dots (a +:+ String c b).
Proof.
  intros Hc Ha Hb. unfold no_dots in *. induction a as [|x a IH].
  - simpl append. rewrite contains_cons, Hb. by destruct (Ascii.eqb_spec c ".").
  - simpl append. rewrite contains_cons in Ha. apply orb_false_iff in Ha as [Hx Ha].
    rewrite contains_cons, IH by done. rewrite orb_false_r.
    destruct a as [|y a]; simpl append; rewrite starts_dot in *; [|exact Hx].
    destruct (Ascii.eqb_spec "." c) as [<-|]; [done|]. by rewrite andb_false_r.
Qed.
(** Without a dot there are no two of them. *)
Lemma no_dots_none s : string_forallb (λ c, negb (Ascii.eqb c ".")) s = true → no_dots s.
Proof.
  unfold no_dots. induction s as [|c s IH]; [done|]. rewrite contains_cons. simpl. intros H. to_prop.
  rewrite IH by done. by rewrite H.
Qed.
Lemma no_dots_part t s : substring_of t s → no_dots s → no_dots t.
Proof.
  unfold no_dots. intros (a & b & ->) H.
  assert (Hb : contains ".." (t +:+ b) = false).
  { induction a as [|c a IH]; [done|]. apply IH. simpl append in H. rewrite contains_cons in H. by to_prop. }
  clear H. induction t as [|c t IH]; [done|]. simpl append in Hb. rewrite contains_cons in Hb.
  apply orb_false_iff in Hb as [Hc Hb]. rewrite contains_cons, IH by done.
  destruct t as [|d t]; [by rewrite andb_false_r|]. simpl append in Hc. rewrite starts_dot in *.
  by rewrite Hc.
Qed.

(** [s.replace("..", "")] *)
Fixpoint drop_dots (s : string) : string :=
  match s with
  | String c s' =>
      if Ascii.eqb c "." then
        match s' with
        | String d s'' => if Ascii.eqb d "." then drop_dots s'' else String c (drop_dots s')
        | EmptyString => String c ""
        end
      else String c (drop_dots s')
  | EmptyString => ""
  end.

Lemma drop_dots_cons (c : ascii) s :
  drop_dots (String c s) =
  if Ascii.eqb c "." then
    match s with
    | String d s' => if Ascii.eqb d "." then drop_dots s' else String c (drop_dots s)
    | EmptyString => String c ""
    end
  else String c (drop_dots s).
Proof. by destruct s. Qed.

(** Removing pairs of dots leaves no pair, never moves a dot to the front, and keeps
    the characters within any class. *)
Lemma drop_dots_spec n s :
  (String.length s <= n)%nat →
  no_dots (drop_dots s) ∧ (starts_with "." s = false → starts_with "." (drop_dots s) = false) ∧
  ∀ p, string_forallb p s = true → string_forallb p (drop_dots s) = true.
Proof.
  revert s. induction n as [|n IH]; intros [|c s] Hn; simpl in Hn; try lia; [by repeat split..|].
  rewrite drop_dots_cons. unfold no_dots. rewrite starts_dot. destruct (Ascii.eqb_spec c ".") as [->|Hc].
  - destruct s as [|d s]; [by repeat split|]. simpl in Hn. destruct (Ascii.eqb_spec d ".") as [->|Hd].
    + destruct (IH s) as (H1 & _ & H3); [lia|]. split_and!; [done|done|]. intros p Hp. simpl in Hp.
      to_prop. by apply H3.
    + destruct (IH (String d s)) as (H1 & H2 & H3); [simpl; lia|]. split_and!; [|done|].
      * rewrite contains_cons, H1, H2, andb_false_r; [done|]. rewrite starts_dot.
        by destruct (Ascii.eqb_spec "." d) as [<-|].
      * intros p Hp. simpl in Hp. apply andb_true_iff in Hp as [Hp1 Hp]. simpl. rewrite Hp1. by apply H3.
  - destruct (IH s) as (H1 & H2 & H3); [lia|]. split_and!.
    + rewrite contains_cons, H1. by destruct (Ascii.eqb_spec c ".").
    + by rewrite starts_dot.
    + intros p Hp. simpl in Hp. apply andb_true_iff in Hp as [Hp1 Hp]. simpl. rewrite Hp1. by apply H3.
Qed.
Lemma drop_dots_clean s : no_dots (drop_dots s).
Proof. by apply (drop_dots_spec (String.length s)). Qed.
Lemma drop_dots_forallb p s : string_forallb p s = true → string_forallb p (drop_dots s) = true.
Proof. by apply (drop_dots_spec (String.length s)). Qed.

(** ** Splitting *)

Lemma split_none c s : string_forallb (λ d, negb (Ascii.eqb c d)) s = true → split_char c s = [s].
Proof. induction s as [|d s IH]; simpl; [done|]. intros H. to_prop. rewrite H, IH by done. done. Qed.
Lemma split_app c a s :
  string_forallb (λ d, negb (Ascii.eqb c d)) a = true → split_char c (a +:+ String c s) = a :: split_char c s.
Proof.
  induction a as [|d a IH]; simpl; [by rewrite Ascii.eqb_refl|]. intros H. to_prop.
  by rewrite H, IH by done.
Qed.

Lemma concat_cons (s : string) (l : list string) : String.concat "" (s :: l) = s +:+ String.concat "" l.
Proof. destruct l as [|t l]; simpl; [by rewrite sapp_nil_r|done]. Qed.

(** Sequences of single-character classes. *)
Fixpoint match_classes (cs : list (ascii → bool)) (s : string) : option string :=
  match cs, s with
  | [], _ => Some s
  | c :: cs, String x s => if c x then match_classes cs s else None
  | _, EmptyString => None
  end.
Fixpoint skip_digits (s : string) : string :=
  match s with String c s' => if is_digit c then skip_digits s' else s | EmptyString => s end.

(** ** Lines *)

Definition newline : string := String "010" "".
Lemma drop_app a b : drop_chars (String.length a) (a +:+ b) = b.
Proof. induction a as [|c a IH]; [by destruct b|done]. Qed.
