(* ===== verification/OrderedMap.v ===== *)
(** * Insertion-ordered dictionaries and effectful handlers

    [od_] functions: a Python dict (or [OrderedDict]) with keys of any decidable
    type, as the list of its items in insertion order.  [M W A] is the monad of the
    handlers: a computation on a world [W] that may raise and whose effects up to
    that point stay. *)

From S2P Require Import Prelude Order.
Set Default Proof Using "Type".

Section dict.
Context {K V : Type} `{EqDecision K}.
Implicit Types (m : list (K * V)) (k : K) (v : V).

(** [m.get(k)] *)
Fixpoint od_get k m : option V :=
  match m with
  | [] => None
  | (k', v) :: m => if decide (k = k') then Some v else od_get k m
  end.

(** [m[k] = v]: an existing key keeps its position. *)
Fixpoint od_set k v m : list (K * V) :=
  match m with
  | [] => [(k, v)]
  | (k', v') :: m => if decide (k = k') then (k', v) :: m else (k', v') :: od_set k v m
  end.

(** [m.pop(k, None)], as the remaining items. *)
Definition od_del k m : list (K * V) := filter (λ kv, kv.1 ≠ k) m.

(** [m.move_to_end(k)] *)
Definition od_to_end k m : list (K * V) :=
  match od_get k m with Some v => od_del k m ++ [(k, v)] | None => m end.

(** [while len(m) > n: m.popitem(last=False)] *)
Definition od_bound (n : nat) m : list (K * V) := drop (length m - n) m.

Definition od_keys m : list K := fst <$> m.
Definition od_wf m : Prop := NoDup (od_keys m).

Lemma od_get_set_eq k v m : od_get k (od_set k v m) = Some v.
Proof.
  induction m as [|[k' v'] m IH]; simpl; [by rewrite decide_True|].
  destruct (decide (k = k')) as [->|]; simpl; [by rewrite decide_True|].
  by rewrite decide_False.
Qed.

Lemma od_get_set_ne k k' v m : k ≠ k' → od_get k (od_set k' v m) = od_get k m.
Proof.
  intros Hne. induction m as [|[k2 v2] m IH]; simpl; [by rewrite decide_False|].
  destruct (decide (k' = k2)) as [->|]; simpl.
  - by rewrite !decide_False.
  - by rewrite IH.
Qed.

Lemma od_get_del_eq k m : od_get k (od_del k m) = None.
Proof.
  induction m as [|[k' v'] m IH]; simpl; [done|]. unfold od_del in *. rewrite filter_cons. simpl.
  destruct (decide (k' ≠ k)) as [Hn|]; simpl; [|done]. by rewrite decide_False.
Qed.

Lemma od_get_del_ne k k' m : k ≠ k' → od_get k (od_del k' m) = od_get k m.
Proof.
  intros Hne. induction m as [|[k2 v2] m IH]; simpl; [done|].
  unfold od_del in *. rewrite filter_cons. simpl.
  destruct (decide (k2 ≠ k')) as [Hn|Hn]; simpl; [by rewrite IH|].
  rewrite decide_False; [done|]. intros ->. apply Hn. naive_solver.
Qed.

Lemma od_get_del k k' m :
  od_get k (od_del k' m) = if decide (k = k') then None else od_get k m.
Proof. destruct (decide (k = k')) as [->|]; [apply od_get_del_eq|by apply od_get_del_ne]. Qed.

Lemma od_get_set k k' v m :
  od_get k (od_set k' v m) = if decide (k = k') then Some v else od_get k m.
Proof. destruct (decide (k = k')) as [->|]; [apply od_get_set_eq|by apply od_get_set_ne]. Qed.

Lemma od_get_elem k v m : od_get k m = Some v → (k, v) ∈ m.
Proof.
  induction m as [|[k' v'] m IH]; simpl; [done|]. case_decide as E.
  - intros [= ->]. subst. left.
  - intros H%IH. by right.
Qed.

Lemma od_get_none k m : od_get k m = None ↔ k ∉ od_keys m.
Proof.
  induction m as [|[k' v'] m IH]; simpl; [split; [set_solver|done]|].
  rewrite not_elem_of_cons, <- IH. case_decide; naive_solver.
Qed.

Lemma od_wf_get k v m : od_wf m → (k, v) ∈ m → od_get k m = Some v.
Proof.
  unfold od_wf, od_keys. induction m as [|[k' v'] m IH]; simpl; [set_solver|].
  intros [Hk Hm]%NoDup_cons [[= -> ->]|Hin]%elem_of_cons; [by rewrite decide_True|].
  rewrite decide_False; [by apply IH|]. intros ->. apply Hk. by apply (list_elem_of_fmap_2 fst) in Hin.
Qed.

Lemma od_keys_set k v m :
  od_keys (od_set k v m) = if decide (k ∈ od_keys m) then od_keys m else od_keys m ++ [k].
Proof.
  induction m as [|[k' v'] m IH]; simpl; [done|].
  destruct (decide (k = k')) as [->|Hne]; simpl.
  - rewrite decide_True by set_solver. done.
  - rewrite IH. repeat case_decide; set_solver.
Qed.

Lemma od_wf_nil : od_wf [].
Proof. constructor. Qed.

Lemma od_wf_set k v m : od_wf m → od_wf (od_set k v m).
Proof.
  unfold od_wf. intros Hm. rewrite od_keys_set. case_decide; [done|].
  apply NoDup_app. split_and!; [done|set_solver|apply NoDup_singleton].
Qed.

Lemma od_keys_del k m : od_keys (od_del k m) = filter (λ k', k' ≠ k) (od_keys m).
Proof.
  unfold od_keys, od_del. induction m as [|[k' v'] m IH]; [done|].
  rewrite fmap_cons, !filter_cons. simpl. case_decide; simpl; [f_equal|]; exact IH.
Qed.

Lemma od_wf_del k m : od_wf m → od_wf (od_del k m).
Proof. unfold od_wf. rewrite od_keys_del. apply NoDup_filter. Qed.

Lemma od_wf_to_end k m : od_wf m → od_wf (od_to_end k m).
Proof.
  intros Hm. unfold od_to_end. destruct (od_get k m) as [v|]; [|done].
  unfold od_wf, od_keys. rewrite fmap_app. apply NoDup_app. split_and!.
  - by apply od_wf_del.
  - intros x Hx. simpl. apply not_elem_of_cons. split; [|set_solver].
    intros ->. revert Hx. by apply od_get_none, od_get_del_eq.
  - apply NoDup_singleton.
Qed.

Lemma od_length_bound n m : (length (od_bound n m) <= n)%nat.
Proof. unfold od_bound. rewrite length_drop. lia. Qed.

Lemma od_wf_bound n m : od_wf m → od_wf (od_bound n m).
Proof.
  unfold od_wf, od_bound, od_keys. intros H.
  rewrite <- (take_drop (length m - n) m), fmap_app in H. by apply NoDup_app in H as (_ & _ & ?).
Qed.

Lemma od_get_bound k v n m : od_wf m → od_get k (od_bound n m) = Some v → od_get k m = Some v.
Proof.
  intros Hm H. apply od_wf_get; [done|]. apply od_get_elem in H.
  unfold od_bound in H. rewrite <- (take_drop (length m - n) m). set_solver.
Qed.

(** The most recently placed item survives the bound. *)
Lemma od_bound_last n m kv : (0 < n)%nat → kv ∈ od_bound n (m ++ [kv]).
Proof.
  intros Hn. unfold od_bound. rewrite drop_app_le; [set_solver|].
  rewrite length_app. simpl. lia.
Qed.
End dict.

(** ** The best element per key

    [keep_min key rank m c] takes [c] into account: it is kept for its key when the
    key is new or [c] ranks strictly below the element kept so far. *)
Section best.
Context {A K R : Type} `{EqDecision K} `{HTC : TotalCmp R} (key : A → K) (rank : A → R).

Definition keep_min (m : list (K * A)) (c : A) : list (K * A) :=
  match od_get (key c) m with
  | None => od_set (key c) c m
  | Some prev => if ltb (rank c) (rank prev) then od_set (key c) c m else m
  end.

(** [c] is of minimal rank among the elements of its key. *)
Definition wins_key (cs : list A) (c : A) : Prop :=
  c ∈ cs ∧ ∀ c', c' ∈ cs → key c' = key c → leb (rank c) (rank c') = true.

Lemma keep_min_spec cs :
  od_wf (foldl keep_min [] cs) ∧
  (∀ s c, od_get s (foldl keep_min [] cs) = Some c → key c = s ∧ wins_key cs c) ∧
  (∀ c, c ∈ cs → is_Some (od_get (key c) (foldl keep_min [] cs))).
Proof.
  induction cs as [|c cs IH] using rev_ind; simpl.
  { split_and!; [constructor|done|set_solver]. }
  rewrite foldl_app. simpl. set (w := foldl keep_min [] cs) in *.
  destruct IH as (Hwf & Hget & Hin). unfold keep_min.
  destruct (od_get (key c) w) as [prev|] eqn:E.
  - destruct (Hget _ _ E) as [Hpf [Hpin Hpmin]].
    destruct (ltb (rank c) (rank prev)) eqn:El.
    + split_and!; [by apply od_wf_set| |].
      * intros s c1. rewrite od_get_set. case_decide as Hs.
        -- intros [= <-]. split; [done|]. split; [set_solver|].
           intros c' [Hc'|Hc']%elem_of_app Hf.
           ++ apply ltb_weaken in El. eapply leb_trans; [exact El|]. apply Hpmin; [done|congruence].
           ++ apply list_elem_of_singleton in Hc' as ->. apply leb_refl.
        -- intros H. destruct (Hget _ _ H) as [Hf [H1 H2]]. split; [done|]. split; [set_solver|].
           intros c' [Hc'|Hc']%elem_of_app Hf'; [by apply H2|].
           apply list_elem_of_singleton in Hc' as ->. congruence.
      * intros c' Hc'. rewrite od_get_set. case_decide; [by eexists|].
        apply elem_of_app in Hc' as [Hc'|Hc']; [by apply Hin|].
        apply list_elem_of_singleton in Hc' as ->. done.
    + apply ltb_false_leb in El. split_and!; [done| |].
      * intros s c1 H. destruct (Hget _ _ H) as [Hf [H1 H2]]. split; [done|]. split; [set_solver|].
        intros c' [Hc'|Hc']%elem_of_app Hf'; [by apply H2|].
        apply list_elem_of_singleton in Hc' as ->. simplify_eq.
        rewrite <- Hf' in H. rewrite E in H. by injection H as <-.
      * intros c' [Hc'|Hc']%elem_of_app; [by apply Hin|].
        apply list_elem_of_singleton in Hc' as ->. by eexists.
  - split_and!; [by apply od_wf_set| |].
    + intros s c1. rewrite od_get_set. case_decide as Hs.
      * intros [= <-]. split; [done|]. split; [set_solver|].
        intros c' [Hc'|Hc']%elem_of_app Hf.
        -- destruct (Hin _ Hc') as [x Hx]. rewrite Hf in Hx. congruence.
        -- apply list_elem_of_singleton in Hc' as ->. apply leb_refl.
      * intros H. destruct (Hget _ _ H) as [Hf [H1 H2]]. split; [done|]. split; [set_solver|].
        intros c' [Hc'|Hc']%elem_of_app Hf'; [by apply H2|].
        apply list_elem_of_singleton in Hc' as ->. congruence.
    + intros c' Hc'. rewrite od_get_set. case_decide; [by eexists|].
      apply elem_of_app in Hc' as [Hc'|Hc']; [by apply Hin|].
      apply list_elem_of_singleton in Hc' as ->. done.
Qed.

(** Elements of one key and one rank are the same element. *)
Definition distinct_ranks (cs : list A) : Prop :=
  ∀ c c', c ∈ cs → c' ∈ cs → key c = key c' → rank c = rank c' → c = c'.

Lemma keep_min_perm cs cs' s :
  distinct_ranks cs → cs ≡ₚ cs' →
  od_get s (foldl keep_min [] cs) = od_get s (foldl keep_min [] cs').
Proof.
  intros Hd Hp. destruct (keep_min_spec cs) as (_ & Hg & Hi).
  destruct (keep_min_spec cs') as (_ & Hg' & Hi').
  assert (Hin : ∀ c, c ∈ cs ↔ c ∈ cs') by (intros c; by rewrite Hp).
  destruct (od_get s (foldl keep_min [] cs)) as [c|] eqn:E.
  - destruct (Hg _ _ E) as [Hf [Hc Hmin]].
    destruct (Hi' c) as [c' Hc']; [by apply Hin|]. rewrite Hf in Hc'.
    destruct (Hg' _ _ Hc') as [Hf' [Hin' Hmin']]. rewrite Hc'. f_equal.
    assert (Hc2 : c' ∈ cs) by by apply Hin.
    apply Hd; [done|done|congruence|]. apply leb_antisym.
    + apply Hmin; [done|congruence].
    + apply Hmin'; [by apply Hin|congruence].
  - destruct (od_get s (foldl keep_min [] cs')) as [c'|] eqn:E'; [|done].
    destruct (Hg' _ _ E') as [Hf' [Hin' _]]. destruct (Hi c') as [x Hx]; [by apply Hin|]. congruence.
Qed.

End best.

#[export] Hint Resolve @od_wf_nil @od_wf_set @od_wf_del @od_wf_to_end @od_wf_bound : cernity.
#[export] Hint Rewrite @od_get_set_eq @od_get_del_eq : cernity.

(** ** Computations that act on a world and may raise *)

Definition M (W A : Type) : Type := W → W * res A.

Section monad.
Context {W : Type}.

Definition ret {A} (a : A) : M W A := λ w, (w, Ok a).
Definition raise {A} (e : exn) : M W A := λ w, (w, Raise e).
Definition bind {A B} (m : M W A) (k : A → M W B) : M W B := λ w,
  match m w with
  | (w', Ok a) => k a w'
  | (w', Raise e) => (w', Raise e)
  end.
(** A pure expression that may raise. *)
Definition lift {A} (r : res A) : M W A := λ w, (w, r).
Definition read {A} (f : W → A) : M W A := λ w, (w, Ok (f w)).
Definition modify (f : W → W) : M W unit := λ w, (f w, Ok tt).

Fixpoint for_each {A} (body : A → M W unit) (xs : list A) : M W unit :=
  match xs with
  | [] => ret tt
  | x :: xs => bind (body x) (λ _, for_each body xs)
  end.

Lemma bind_inv {A B} (m : M W A) (k : A → M W B) w w' b :
  bind m k w = (w', Ok b) → ∃ a w1, m w = (w1, Ok a) ∧ k a w1 = (w', Ok b).
Proof. unfold bind. destruct (m w) as [w1 [a|e]]; [eauto|discriminate]. Qed.

Lemma lift_inv {A} (r : res A) w w' a : lift r w = (w', Ok a) → w' = w ∧ r = Ok a.
Proof. by intros [= <- <-]. Qed.

(** A relation between the worlds before and after that holds of every part of a
    computation, whether it returns or raises. *)
Definition frames (R : W → W → Prop) {A} (m : M W A) : Prop := ∀ w, R w (m w).1.

Context (R : W → W → Prop) `{!PreOrder R}.

Lemma frames_ret {A} (a : A) : frames R (ret a).
Proof using All. intros w. simpl. reflexivity. Qed.
Lemma frames_raise {A} e : frames R (@raise A e).
Proof using All. intros w. simpl. reflexivity. Qed.
Lemma frames_lift {A} (r : res A) : frames R (lift r).
Proof using All. intros w. simpl. reflexivity. Qed.
Lemma frames_read {A} (f : W → A) : frames R (read f).
Proof using All. intros w. simpl. reflexivity. Qed.
Lemma frames_modify f : (∀ w, R w (f w)) → frames R (modify f).
Proof using All. intros H w. apply H. Qed.
Lemma frames_bind {A B} (m : M W A) (k : A → M W B) :
  frames R m → (∀ a, frames R (k a)) → frames R (bind m k).
Proof using All.
  intros Hm Hk w. unfold bind. specialize (Hm w). destruct (m w) as [w1 [a|e]]; simpl in *; [|done].
  etrans; [exact Hm|apply Hk].
Qed.
Lemma frames_for_each {A} (body : A → M W unit) xs :
  (∀ x, frames R (body x)) → frames R (for_each body xs).
Proof using All.
  intros Hb. induction xs as [|x xs IH]; simpl; [apply frames_ret|].
  apply frames_bind; auto.
Qed.
End monad.

Notation "'let*' x := m 'in' k" := (bind m (λ x, k))
  (at level 200, x name, m at level 100, k at level 200, right associativity,
   format "'let*'  x  :=  m  'in' '//' k") : cernity_scope.
Notation "m ;* k" := (bind m (λ _, k))
  (at level 199, k at level 200, right associativity) : cernity_scope.

#[export] Hint Resolve frames_ret frames_raise frames_lift frames_read frames_modify
  frames_bind frames_for_each : cernity.

Lemma od_del_absent {K V} `{EqDecision K} (k : K) (m : list (K * V)) :
  od_get k m = None → od_del k m = m.
Proof.
  intros H%od_get_none. unfold od_del. 
  induction m as [|[k' v'] m IH]; [done|]. rewrite filter_cons. simpl.
  rewrite decide_True by (intros ->; apply H; set_solver). f_equal. apply IH. set_solver.
Qed.

Lemma od_set_same {K V} `{EqDecision K} (k : K) (v : V) (m : list (K * V)) :
  od_get k m = Some v → od_set k v m = m.
Proof.
  induction m as [|[k' v'] m IH]; simpl; [done|]. case_decide.
  - by intros [= ->].
  - intros E%IH. by rewrite E.
Qed.

(** Two well-formed dictionaries with the same content are permutations. *)
Lemma od_get_perm {K V} `{EqDecision K} (m m' : list (K * V)) :
  od_wf m → od_wf m' → (∀ k, od_get k m = od_get k m') → m ≡ₚ m'.
Proof.
  intros Hm Hm' Hg. apply NoDup_Permutation; [by eapply NoDup_fmap_1|by eapply NoDup_fmap_1|].
  intros [k v]. split; intros Hin.
  - apply od_get_elem. rewrite <- Hg. by apply od_wf_get.
  - apply od_get_elem. rewrite Hg. by apply od_wf_get.
Qed.

Lemma od_set_absent {K V} `{EqDecision K} (k : K) (v : V) m : od_get k m = None → od_set k v m = m ++ [(k, v)].
Proof.
  induction m as [|[k' v'] m IH]; simpl; [done|]. case_decide; [done|]. intros Hg. by rewrite IH.
Qed.

Lemma od_keys_set_elem {K V} `{EqDecision K} (k k' : K) (v : V) (m : list (K * V)) :
  k' ∈ od_keys (od_set k v m) ↔ k' = k ∨ k' ∈ od_keys m.
Proof.
  induction m as [|[k0 v0] m IH]; simpl; [by rewrite list_elem_of_singleton, elem_of_nil; naive_solver|].
  case_decide as E; simpl; rewrite !elem_of_cons; [naive_solver|]. unfold od_keys in IH. rewrite IH. naive_solver.
Qed.
