(* ===== verification/PyTime.v ===== *)
(** * Timestamps

    An instant is an integer number of microseconds since 1970-01-01T00:00:00Z.
    [fromisoformat] reads the extended ISO 8601 forms the services exchange
    ([YYYY-MM-DD], optionally a time with one to six or more fraction digits, and
    optionally an offset); basic and week-date forms are not read. *)

From S2P Require Import Prelude Order PyVal.

Definition is_leap (y : Z) : bool :=
  (y mod 4 =? 0) && (negb (y mod 100 =? 0) || (y mod 400 =? 0)).
Definition days_in_month (y m : Z) : Z :=
  if m =? 2 then (if is_leap y then 29 else 28)
  else if (m =? 4) || (m =? 6) || (m =? 9) || (m =? 11) then 30 else 31.

(** Days from 1970-01-01 to a proleptic Gregorian date. *)
Definition days_from_civil (y m d : Z) : Z :=
  let y := if m <=? 2 then y - 1 else y in
  let era := y / 400 in
  let yoe := y mod 400 in
  let doy := (153 * (if m <=? 2 then m + 9 else m - 3) + 2) / 5 + d - 1 in
  era * 146097 + (yoe * 365 + yoe / 4 - yoe / 100 + doy) - 719468.

(** The inverse: year, month and day of a day number. *)
Definition civil_from_days (z : Z) : Z * Z * Z :=
  let z := z + 719468 in
  let era := z / 146097 in
  let doe := z mod 146097 in
  let yoe := (doe - doe / 1460 + doe / 36524 - doe / 146096) / 365 in
  let doy := doe - (365 * yoe + yoe / 4 - yoe / 100) in
  let mp := (5 * doy + 2) / 153 in
  let d := doy - (153 * mp + 2) / 5 + 1 in
  let m := if mp <? 10 then mp + 3 else mp - 9 in
  (yoe + era * 400 + (if m <=? 2 then 1 else 0), m, d).

(** Exactly [n] digits, onto [acc]. *)
Fixpoint fixed_digits (n : nat) (acc : Z) (s : string) : option (Z * string) :=
  match n with
  | O => Some (acc, s)
  | S n =>
      match s with
      | String c s => d ← digit_val c; fixed_digits n (acc * 10 + d) s
      | EmptyString => None
      end
  end.

Definition expect (c : ascii) (s : string) : option string :=
  match s with
  | String d s => if Ascii.eqb c d then Some s else None
  | EmptyString => None
  end.

Definition guard_ (b : bool) : option unit := if b then Some tt else None.

(** Fraction digits after the point: microseconds, further digits are dropped. *)
Fixpoint fraction (scale acc n : Z) (s : string) : option (Z * string) :=
  match s with
  | String c s' =>
      match digit_val c with
      | Some d => fraction (scale / 10) (acc + d * scale) (n + 1) s'
      | None => guard_ (0 <? n);; Some (acc, s)
      end
  | EmptyString => guard_ (0 <? n);; Some (acc, s)
  end.

Definition parse_date (s : string) : option (Z * string) :=
  '(y, s) ← fixed_digits 4 0 s; s ← expect "-" s;
  '(m, s) ← fixed_digits 2 0 s; s ← expect "-" s;
  '(d, s) ← fixed_digits 2 0 s;
  guard_ ((1 <=? y) && between 1 12 m && between 1 (days_in_month y m) d);;
  Some (days_from_civil y m d, s).

(** [HH[:MM[:SS[.f+]]]] as microseconds. *)
Definition parse_clock (s : string) : option (Z * string) :=
  '(h, s) ← fixed_digits 2 0 s; guard_ (h <? 24);;
  match expect ":" s with
  | None => Some (h * 3600000000, s)
  | Some s =>
      '(mi, s) ← fixed_digits 2 0 s; guard_ (mi <? 60);;
      match expect ":" s with
      | None => Some (h * 3600000000 + mi * 60000000, s)
      | Some s =>
          '(sec, s) ← fixed_digits 2 0 s; guard_ (sec <? 60);;
          let t := h * 3600000000 + mi * 60000000 + sec * 1000000 in
          match expect "." s with
          | None => Some (t, s)
          | Some s => '(us, s) ← fraction 100000 0 0 s; Some (t + us, s)
          end
      end
  end.

(** The offset from UTC: absent, [Z] or [+HH:MM[:SS]]. *)
Definition parse_offset (s : string) : option (option Z) :=
  match s with
  | EmptyString => Some None
  | String c s' =>
      if Ascii.eqb c "Z" then (if String.eqb s' "" then Some (Some 0) else None)
      else if Ascii.eqb c "+" || Ascii.eqb c "-" then
        '(o, rest) ← parse_clock s';
        guard_ (String.eqb rest "" && (4 <? Z.of_nat (String.length s')));;
        Some (Some (if Ascii.eqb c "-" then - o else o))
      else None
  end.

(** [datetime.fromisoformat]: the local clock reading in microseconds and the
    offset, if the string has one. *)
Definition fromisoformat (s : string) : option (Z * option Z) :=
  '(days, s) ← parse_date s;
  match s with
  | EmptyString => Some (days * 86400000000, None)
  | String _ s =>
      '(clock, s) ← parse_clock s; o ← parse_offset s; Some (days * 86400000000 + clock, o)
  end.

(** [s.replace("Z", "+00:00")] *)
Fixpoint replace_zulu (s : string) : string :=
  match s with
  | EmptyString => EmptyString
  | String c s => if Ascii.eqb c "Z" then "+00:00" +:+ replace_zulu s else String c (replace_zulu s)
  end.

(** The instant a string denotes; a naive one is taken as UTC. *)
Definition parse_instant (s : string) : res Z :=
  match fromisoformat (replace_zulu s) with
  | Some (local, o) => Ok (local - default 0 o)
  | None => Raise ValueError
  end.

(** [float(v)] timestamps become whole microseconds; the canonical form keeps
    milliseconds, so its instant is the one rounded down. *)
Definition trunc_ms (t : Z) : Z := t / 1000 * 1000.

(** [isoformat(timespec="milliseconds")] of a UTC instant, with [Z]. *)
Definition pad (n : nat) (z : Z) : string :=
  let s := pretty (Z.to_N z) in
  Nat.iter (n - String.length s) (String "0") s.
Definition format_ms (t : Z) : string :=
  let days := t / 86400000000 in
  let r := t mod 86400000000 in
  let '(y, m, d) := civil_from_days days in
  pad 4 y +:+ "-" +:+ pad 2 m +:+ "-" +:+ pad 2 d +:+ "T" +:+
  pad 2 (r / 3600000000) +:+ ":" +:+ pad 2 (r / 60000000 mod 60) +:+ ":" +:+
  pad 2 (r / 1000000 mod 60) +:+ "." +:+ pad 3 (r / 1000 mod 1000) +:+ "Z".

Lemma trunc_ms_le t : trunc_ms t <= t < trunc_ms t + 1000.
Proof. unfold trunc_ms. pose proof (Z.mod_pos_bound t 1000 ltac:(lia)).
  pose proof (Z.div_mod t 1000 ltac:(lia)). lia. Qed.

Lemma trunc_ms_idemp t : trunc_ms (trunc_ms t) = trunc_ms t.
Proof. unfold trunc_ms. by rewrite Z.div_mul. Qed.

Lemma trunc_ms_mono s t : s <= t → trunc_ms s <= trunc_ms t.
Proof. unfold trunc_ms. intros H. pose proof (Z.div_le_mono s t 1000 ltac:(lia) H). lia. Qed.

#[export] Hint Rewrite trunc_ms_idemp : cernity.

Example parse_instant_z : parse_instant "2026-03-01T12:00:00.123456Z" = Ok 1772366400123456.
Proof. vm_compute. reflexivity. Qed.
Example parse_instant_offset :
  parse_instant "2026-03-01T14:00:00.5+02:00" = Ok 1772366400500000.
Proof. vm_compute. reflexivity. Qed.
Example format_ms_trunc : format_ms 1772366400123456 = "2026-03-01T12:00:00.123Z".
Proof. vm_compute. reflexivity. Qed.
