(* ===== verification/FindingLifecycle.v ===== *)
(** * The finding lifecycle (services/finding-service/state_machine.py)

    A candidate finding is a JSON object ([dict]); [build_finding] decides its
    enrichment policy and first state, [apply_enrichment_result] and
    [finalize_timeout] issue its later revisions.  Environment settings read at
    import time are the fields of [config]. *)

From S2P Require Import Prelude Order PyVal.
Set Default Proof Using "Type".

Record config := {
  SUPPRESS_MAX_SEVERITY : Z;
  NDPI_DELIVER_ALL : bool;
  QUALITY_DEGRADED_FACTOR : float;
  QUALITY_BLIND_FACTOR : float;
  QUALITY_CONFIDENCE_FLOOR : float;
}.

(** The values the module has when no environment variable is set. *)
Definition default_config : config := {|
  SUPPRESS_MAX_SEVERITY := 5;
  NDPI_DELIVER_ALL := false;
  QUALITY_DEGRADED_FACTOR := lit "0.7";
  QUALITY_BLIND_FACTOR := lit "0.4";
  QUALITY_CONFIDENCE_FLOOR := lit "0.05";
|}.

Definition CATEGORY_MITRE : list (string * list string) := [
  ("recon", ["T1046"]); ("discovery", ["T1046"]); ("c2", ["T1071"]);
  ("dns_tunnel", ["T1071.004"]); ("lateral", ["T1021"]); ("exfil", ["TA0010"]);
  ("bruteforce", ["T1110"]); ("credential_access", ["T1110"]);
  ("defense_evasion", ["T1571"]); ("impact", ["T1486"])].

(** ** The case status table *)

Definition CASE_STATUSES : list string := ["new"; "investigating"; "resolved"; "closed"].
Definition CASE_TRANSITIONS : list (string * list string) := [
  ("new", ["investigating"; "closed"]); ("investigating", ["resolved"; "closed"]);
  ("resolved", ["closed"; "investigating"]); ("closed", ["investigating"])].

(** [nxt in CASE_TRANSITIONS.get(current, ())] *)
Definition valid_case_transition (current nxt : string) : bool :=
  mem nxt (default [] (assoc current CASE_TRANSITIONS)).

(** ** Enrichment policy and delivery suppression *)

Definition CONFIRMED_THREAT_SOURCES : list string :=
  ["ids_signature"; "threat_intel"; "file_malware_hash"].
Definition NDPI_STRUCTURED_VERSION : string := "2.0".

Inductive policy := metadata_sufficient | packets_needed.
Inductive route := final | final_and_capture | capture.
#[export] Instance policy_eq_dec : EqDecision policy.
Proof. solve_decision. Defined.
#[export] Instance route_eq_dec : EqDecision route.
Proof. solve_decision. Defined.

Definition confirmed_threat (cand : dict) : bool :=
  val_in_strs (dgetN "detector_id" cand) CONFIRMED_THREAT_SOURCES.

Definition decide_enrichment (cand : dict) : res policy :=
  let cat := dgetN "category" cand in
  let det := dgetN "detector_id" cand in
  conf ← py_float (py_or (dget_or "confidence" (VInt 0) cand) (VInt 0));
  if val_in_strs det CONFIRMED_THREAT_SOURCES then Ok packets_needed
  else if val_in_strs cat ["recon"; "discovery"; "credential_access"; "lateral";
                           "impact"; "defense_evasion"] then Ok metadata_sufficient
  else if val_eq_str det "low_slow_exfil" then Ok metadata_sufficient
  else if val_eq_str det "ndpi_risk" then Ok metadata_sufficient
  else if SFleb (lit "0.9") conf then Ok metadata_sufficient
  else Ok packets_needed.

Section lifecycle.
Context (cfg : config) (repr : val → string).

Definition ndpi_deliver_exempt (cand : dict) : bool :=
  NDPI_DELIVER_ALL cfg && val_eq_str (dgetN "detector_id" cand) "ndpi_risk"
  && val_eq_str (dgetN "detector_version" cand) NDPI_STRUCTURED_VERSION
  && (is_str (dgetN "category" cand) && truthy (dgetN "category" cand)).

Definition suppress_delivery (cand : dict) : res bool :=
  if val_in_strs (dgetN "detector_id" cand) CONFIRMED_THREAT_SOURCES then Ok false
  else if ndpi_deliver_exempt cand then Ok false
  else
    sev ← py_int (py_or (dget_or "severity" (VInt 10) cand) (VInt 10));
    Ok (sev <=? SUPPRESS_MAX_SEVERITY cfg).

Definition low_severity_reason (f : dict) : string :=
  "low-severity (" +:+ py_str repr (dgetN "severity" f) +:+
  ") non-threat finding; kept for correlation and audit, not delivered".

Definition terminal_state (finding : dict) : res (string * val) :=
  if val_eq_str (dgetN "state" finding) "FINAL"
  then Ok ("FINAL", dget_or "suppression_reason" (VStr "") finding)
  else
    sup ← suppress_delivery finding;
    if (sup : bool) then Ok ("SUPPRESSED", VStr (low_severity_reason finding))
    else Ok ("FINAL", VStr "").

(** ** Observation quality *)

(** [0 < x <= 1] on floats. *)
Definition unit_interval (x : float) : bool :=
  SFltb (S754_zero false) x && SFleb x (lit "1.0").

(** [max(0.0, min(1.0, confidence))], which is a float for every number. *)
Definition clamp01 (confidence : val) : res float :=
  match as_num confidence with
  | None => Raise TypeError
  | Some (inl z) => Ok (if z <? 1 then S754_zero false else lit "1.0")
  | Some (inr f) => Ok (fmax (S754_zero false) (fmin (lit "1.0") f))
  end.

Definition quality_adjust (confidence : val) (quality : string) : res (val * float) :=
  if negb (mem quality ["degraded"; "blind"]) then Ok (confidence, lit "1.0")
  else
    let floor := QUALITY_CONFIDENCE_FLOOR cfg in
    check (unit_interval floor && unit_interval (QUALITY_DEGRADED_FACTOR cfg)
           && unit_interval (QUALITY_BLIND_FACTOR cfg)) ValueError;;
    let factor := if String.eqb quality "blind" then QUALITY_BLIND_FACTOR cfg
                  else QUALITY_DEGRADED_FACTOR cfg in
    base ← clamp01 confidence;
    let adjusted := fmin base (fmax floor (fmul base factor)) in
    Ok (VFloat adjusted,
        if truthy (VFloat base) then fdiv adjusted base else lit "1.0").

Definition nonblank (v : val) : option string :=
  match v with
  | VStr s => if str_truthy (strip s) then Some s else None
  | _ => None
  end.

(** The sensor of one source event: the first of [sensor_id], [host] that is a
    non-blank string. *)
Definition event_sensor (event : val) : option string :=
  match event with
  | VDict e =>
      match dgetN "record" e with
      | VDict record =>
          match nonblank (dgetN "sensor_id" record) with
          | Some s => Some s
          | None => nonblank (dgetN "host" record)
          end
      | _ => None
      end
  | _ => None
  end.

Definition list_or_nil (v : val) : list val := match v with VList l => l | _ => [] end.

Definition quality_sensors (cand : dict) : list string :=
  let ids := omap nonblank (list_or_nil (dgetN "sensor_ids" cand)) in
  match ids with
  | _ :: _ => dedup_onto [] ids
  | [] => dedup_onto [] (omap event_sensor (list_or_nil (dgetN "source_events" cand)))
  end.

(** A lookup answers a tenant and a sensor with a quality record or nothing. *)
Definition lookup_fn : Type := val → string → option dict.

Definition quality_rank (v : val) : res Z :=
  match v with
  | VList _ | VDict _ => Raise TypeError
  | VStr "good" => Ok 1
  | VStr "degraded" => Ok 2
  | VStr "blind" => Ok 3
  | _ => Ok 0
  end.

Definition record_rank (r : option dict) : res Z :=
  quality_rank (dgetN "quality" (default [] r)).

(** [max(records, key=rank, default=(None, None))]: the first record of the
    highest rank. *)
Fixpoint worst_record (cur : Z * (option string * option dict))
    (records : list (string * option dict)) : res (option string * option dict) :=
  match records with
  | [] => Ok cur.2
  | (s, r) :: records =>
      k ← record_rank r;
      worst_record (if cur.1 <? k then (k, (Some s, r)) else cur) records
  end.

Definition is_quality (v : val) : res bool :=
  match v with
  | VList _ | VDict _ => Raise TypeError
  | _ => Ok (val_in_strs v ["unknown"; "good"; "degraded"; "blind"])
  end.

Definition apply_quality (f : dict) (lookup : lookup_fn) : res dict :=
  let sensors := quality_sensors f in
  let f := dset "sensor_ids" (VList (VStr <$> sensors)) f in
  let records := (λ s, (s, lookup (dgetN "tenant_id" f) s)) <$> sensors in
  best ← worst_record (-1, (None, None)) records;
  let record := default [] best.2 in
  let verdict := dget_or "quality" (VStr "unknown") record in
  known ← is_quality verdict;
  let verdict := match verdict, (known : bool) with VStr s, true => s | _, _ => "unknown" end in
  original ← dindex "confidence" f;
  adj ← quality_adjust original verdict;
  let f := dset "confidence" adj.1 f in
  Ok (dset "observation_quality"
       (VDict [("quality", VStr verdict);
               ("reasons", dget_or "reasons" (VList []) record);
               ("sensor_id", match best.1 with Some s => VStr s | None => VNone end);
               ("factor", VFloat adj.2);
               ("original_confidence", original)]) f).

(** ** First version of a finding *)

(** [CATEGORY_MITRE.get(category, [])]; an unhashable category raises. *)
Definition category_mitre (category : val) : res val :=
  match category with
  | VList _ | VDict _ => Raise TypeError
  | VStr c => Ok (VList (VStr <$> default [] (assoc c CATEGORY_MITRE)))
  | _ => Ok (VList [])
  end.

Definition build_finding (cand : dict) (quality_lookup : option lookup_fn) :
    res (dict * route) :=
  pol ← decide_enrichment cand;
  let f := dsetdefault "evidence_refs" (VList []) (dsetdefault "sensor_ids" (VList []) cand) in
  f ← match quality_lookup with None => Ok f | Some lookup => apply_quality f lookup end;
  let f := dset "revision" (VInt 1) f in
  mitre ← (if truthy (dgetN "mitre" cand) then Ok (dgetN "mitre" cand)
           else category_mitre (dgetN "category" cand));
  let f := dset "suppression_reason" (VStr "")
             (dset "capture_job_ids" (VList []) (dset "mitre" mitre f)) in
  match pol with
  | metadata_sufficient =>
      let f := dset "enrichment_state" (VStr "NOT_REQUIRED") f in
      sup ← suppress_delivery cand;
      if (sup : bool)
      then Ok (dset "suppression_reason" (VStr (low_severity_reason f))
                 (dset "state" (VStr "SUPPRESSED") f), final)
      else Ok (dset "state" (VStr "FINAL") f, final)
  | packets_needed =>
      if confirmed_threat cand
      then Ok (dset "enrichment_state" (VStr "PENDING") (dset "state" (VStr "FINAL") f),
               final_and_capture)
      else Ok (dset "state" (VStr "CAPTURE_REQUESTED")
                 (dset "enrichment_state" (VStr "REQUIRED") f), capture)
  end.

(** ** Later revisions *)

(** [int(finding.get("revision") or 1) + 1] *)
Definition next_revision (finding : dict) : res Z :=
  r ← py_int (py_or (dgetN "revision" finding) (VInt 1)); Ok (r + 1).

(** [for r in refs: if r not in seen: seen.append(r)] *)
Definition union_refs (seen refs : list val) : list val :=
  foldl (λ seen r, if val_in r seen then seen else seen ++ [r]) seen refs.

Definition str_of_val (v : val) : res string :=
  match v with VStr s => Ok s | _ => Raise TypeError end.

(** [sorted(set(old) | set(new))] for lists of strings, which is what IOC lists
    hold; members of another type are outside the model and raise. *)
Definition sorted_union (old new : list val) : res val :=
  ss ← mapM str_of_val (old ++ new);
  Ok (VList (VStr <$> isort id (dedup_onto [] ss))).

Fixpoint merge_iocs (merged iocs : dict) : res dict :=
  match iocs with
  | [] => Ok merged
  | (k, v) :: iocs =>
      v' ← match v with
           | VList new =>
               old ← as_list (dget_or k (VList []) merged);
               sorted_union old new
           | _ => Ok v
           end;
      merge_iocs (dset k v' merged) iocs
  end.

Definition apply_enrichment_result (finding result : dict) : res dict :=
  f ← (if val_eq_str (dgetN "status" result) "ok" then
         let f := dset "enrichment_state" (VStr "ENRICHED") finding in
         seen ← as_list (dget_or "evidence_refs" (VList []) f);
         refs ← as_list (dget_or "evidence_refs" (VList []) result);
         let f := dset "evidence_refs" (VList (union_refs seen refs)) f in
         let f := match dgetN "summary" result with
                  | VDict s => dset "summary" (VDict s) f
                  | _ => f
                  end in
         match dgetN "iocs" result with
         | VDict iocs =>
             old ← match py_or (dgetN "iocs" f) (VDict []) with
                   | VDict d => Ok d
                   | _ => Raise TypeError
                   end;
             merged ← merge_iocs old iocs;
             Ok (dset "iocs" (VDict merged) f)
         | _ => Ok f
         end
       else Ok (dset "enrichment_state" (VStr "ENRICHMENT_FAILED") finding));
  st ← terminal_state finding;
  let f := dset "suppression_reason" st.2 (dset "state" (VStr st.1) f) in
  rev ← next_revision finding;
  Ok (dset "revision" (VInt rev) f).

Definition finalize_timeout (finding : dict) : res dict :=
  st ← terminal_state finding;
  let f := dset "suppression_reason" st.2 (dset "state" (VStr st.1) finding) in
  let f := dset "enrichment_state" (VStr "TIMEOUT") f in
  rev ← next_revision finding;
  Ok (dset "revision" (VInt rev) f).

(** ** The capture job *)

Definition ENTITY_PROFILE : list (string * string) := [
  ("ip", "ip"); ("domain", "sni"); ("sni", "sni"); ("dns", "dns");
  ("fingerprint", "ja4"); ("ja3", "ja4"); ("ja4", "ja4")].
Definition TARGET_ROLES : list string :=
  ["dst"; "peer"; "server"; "c2"; "destination"; "target"; "scanner"].

(** [json.loads] on the wire form of the entities; [None] is a parse failure. *)
Context (json_loads : string → option val).

Definition entities (finding : dict) : list val :=
  match dgetN "entities" finding with
  | VStr s => match json_loads s with Some (VList l) => l | _ => [] end
  | VList l => l
  | _ => []
  end.

Definition first_sensor (finding : dict) : res val :=
  match py_or (dgetN "sensor_ids" finding) (VList []) with
  | VList [] => Ok (py_or (dgetN "sensor_id" finding) (VStr "sensor-1"))
  | VList (x :: _) => Ok x
  | VStr s => Ok (VStr (take_chars 1 s))
  | VDict _ => Raise KeyError
  | _ => Raise TypeError
  end.

(** A usable entity: its profile, its role and its value. *)
Definition usable_entity (e : val) : res (option (string * val * val)) :=
  match e with
  | VDict d =>
      match dgetN "type" d with
      | VList _ | VDict _ => Raise TypeError
      | VStr t =>
          match assoc t ENTITY_PROFILE with
          | Some profile =>
              if truthy (dgetN "value" d)
              then Ok (Some (profile, dgetN "role" d, dgetN "value" d)) else Ok None
          | None => Ok None
          end
      | _ => Ok None
      end
  | _ => Ok None
  end.

Definition capture_target (finding : dict) : res (string * string) :=
  us ← mapM usable_entity (entities finding);
  let usable := omap id us in
  let is_target (u : string * val * val) := val_in_strs u.1.2 TARGET_ROLES in
  match filter (λ u, is_target u = true) usable, usable with
  | u :: _, _ => Ok (u.1.1, py_str repr u.2)
  | [], u :: _ => Ok (u.1.1, py_str repr u.2)
  | [], [] => Ok ("ip", "")
  end.

Definition capture_job (finding : dict) : res dict :=
  pv ← capture_target finding;
  sensor ← first_sensor finding;
  Ok [("finding_id", dgetN "finding_id" finding);
      ("tenant_id", dgetN "tenant_id" finding);
      ("sensor_id", sensor);
      ("capture_profile", VStr pv.1); ("value", VStr pv.2);
      ("entities", dgetN "entities" finding)].
End lifecycle.

(** ** Auxiliary facts *)

Section facts.
Context (cfg : config) (repr : val → string).

Definition quality_keys : list string := ["sensor_ids"; "confidence"; "observation_quality"].

Lemma apply_quality_frame f lookup f' :
  apply_quality cfg f lookup = Ok f' → agree_except quality_keys f' f.
Proof.
  clear repr. unfold apply_quality, agree_except, quality_keys. intros H k Hk. inv_ok.
  rewrite !dget_dset_ne by (intros ->; apply Hk; set_solver). done.
Qed.

(** What [build_finding] stores before the policy is applied. *)
Definition base_finding (cand : dict) : dict :=
  dsetdefault "evidence_refs" (VList []) (dsetdefault "sensor_ids" (VList []) cand).
Definition stamped (m : val) (f : dict) : dict :=
  dset "suppression_reason" (VStr "") (dset "capture_job_ids" (VList [])
    (dset "mitre" m (dset "revision" (VInt 1) f))).

Lemma build_finding_inv cand q f r :
  build_finding cfg repr cand q = Ok (f, r) →
  ∃ pol f0 m, decide_enrichment cand = Ok pol ∧
    match q with
    | None => f0 = base_finding cand
    | Some lookup => apply_quality cfg (base_finding cand) lookup = Ok f0
    end ∧
    (if truthy (dgetN "mitre" cand) then Ok (dgetN "mitre" cand)
     else category_mitre (dgetN "category" cand)) = Ok m ∧
    match pol with
    | metadata_sufficient =>
        let f2 := dset "enrichment_state" (VStr "NOT_REQUIRED") (stamped m f0) in
        r = final ∧ ∃ sup, suppress_delivery cfg cand = Ok sup ∧
        f = if sup then dset "suppression_reason" (VStr (low_severity_reason repr f2))
                          (dset "state" (VStr "SUPPRESSED") f2)
            else dset "state" (VStr "FINAL") f2
    | packets_needed =>
        if confirmed_threat cand
        then r = final_and_capture ∧
             f = dset "enrichment_state" (VStr "PENDING")
                   (dset "state" (VStr "FINAL") (stamped m f0))
        else r = capture ∧
             f = dset "state" (VStr "CAPTURE_REQUESTED")
                   (dset "enrichment_state" (VStr "REQUIRED") (stamped m f0))
    end.
Proof.
  unfold build_finding. intros H.
  apply bind_ok_inv in H as (pol & Hpol & H).
  apply bind_ok_inv in H as (f0 & Hf0 & H).
  apply bind_ok_inv in H as (m & Hm & H).
  exists pol, f0, m. split_and!; [done| |done|].
  { destruct q; [done|]. by injection Hf0 as <-. }
  destruct pol; simpl.
  - apply bind_ok_inv in H as (sup & Hsup & H).
    destruct sup; injection H as <- <-; eauto.
  - destruct (confirmed_threat cand); injection H as <- <-; eauto.
Qed.

Lemma decide_enrichment_confirmed cand pol :
  confirmed_threat cand = true → decide_enrichment cand = Ok pol → pol = packets_needed.
Proof.
  unfold confirmed_threat, decide_enrichment. intros Hc H.
  apply bind_ok_inv in H as (conf & _ & H). rewrite Hc in H. by injection H.
Qed.

Lemma terminal_state_final f st :
  dgetN "state" f = VStr "FINAL" → terminal_state cfg repr f = Ok st → st.1 = "FINAL".
Proof. unfold terminal_state. intros -> H. simpl in H. by injection H as <-. Qed.

Lemma terminal_state_cases f st :
  terminal_state cfg repr f = Ok st → st.1 = "FINAL" ∨ st.1 = "SUPPRESSED".
Proof.
  unfold terminal_state. destruct (val_eq_str _ _); [intros [= <-]; auto|].
  intros H. apply bind_ok_inv in H as (sup & _ & H).
  destruct sup; injection H as <-; auto.
Qed.

(** The fields a later revision writes last, read back. *)
Lemma apply_enrichment_result_inv f result f' :
  apply_enrichment_result cfg repr f result = Ok f' →
  ∃ st rev, terminal_state cfg repr f = Ok st ∧ next_revision f = Ok rev ∧
    dgetN "state" f' = VStr st.1 ∧ dgetN "suppression_reason" f' = st.2 ∧
    dgetN "revision" f' = VInt rev.
Proof.
  unfold apply_enrichment_result. intros H.
  apply bind_ok_inv in H as (g & _ & H).
  apply bind_ok_inv in H as (st & Hst & H).
  apply bind_ok_inv in H as (rev & Hrev & H). injection H as <-.
  exists st, rev. split_and!; try done; by simpl_dict.
Qed.

Lemma finalize_timeout_inv f f' :
  finalize_timeout cfg repr f = Ok f' →
  ∃ st rev, terminal_state cfg repr f = Ok st ∧ next_revision f = Ok rev ∧
    dgetN "state" f' = VStr st.1 ∧ dgetN "suppression_reason" f' = st.2 ∧
    dgetN "revision" f' = VInt rev ∧ dgetN "enrichment_state" f' = VStr "TIMEOUT".
Proof.
  unfold finalize_timeout. intros H.
  apply bind_ok_inv in H as (st & Hst & H).
  apply bind_ok_inv in H as (rev & Hrev & H). injection H as <-.
  exists st, rev. split_and!; try done; by simpl_dict.
Qed.

(** One later revision of a finding. *)
Inductive revise (f f' : dict) : Prop :=
| revise_result result : apply_enrichment_result cfg repr f result = Ok f' → revise f f'
| revise_timeout : finalize_timeout cfg repr f = Ok f' → revise f f'.

Lemma revise_inv f f' :
  revise f f' →
  ∃ st rev, terminal_state cfg repr f = Ok st ∧ next_revision f = Ok rev ∧
    dgetN "state" f' = VStr st.1 ∧ dgetN "suppression_reason" f' = st.2 ∧
    dgetN "revision" f' = VInt rev.
Proof.
  intros [result H|H]; [by apply apply_enrichment_result_inv in H|].
  apply finalize_timeout_inv in H as (st & rev & ?); exists st, rev; naive_solver.
Qed.

Lemma union_refs_acc seen refs x : val_in x seen = true → val_in x (union_refs seen refs) = true.
Proof.
  revert seen; induction refs as [|r refs IH]; intros seen Hx; simpl; [done|].
  apply IH. destruct (val_in r seen); [done|].
  unfold val_in in *. by rewrite existsb_app, Hx.
Qed.

Lemma union_refs_in seen refs s :
  VStr s ∈ refs → val_in (VStr s) (union_refs seen refs) = true.
Proof.
  revert seen; induction refs as [|r refs IH]; intros seen Hs; simpl; [set_solver|].
  apply elem_of_cons in Hs as [<-|Hs]; [|by apply IH].
  apply union_refs_acc. destruct (val_in (VStr s) seen) eqn:E; [done|].
  unfold val_in. rewrite existsb_app. apply orb_true_r || (simpl; by rewrite String.eqb_refl, orb_true_r).
Qed.

Lemma union_refs_prefix seen refs : ∃ new, union_refs seen refs = seen ++ new.
Proof.
  revert seen; induction refs as [|r refs IH]; intros seen; simpl.
  - exists []. by rewrite app_nil_r.
  - destruct (val_in r seen); [apply IH|].
    destruct (IH (seen ++ [r])) as [new ->]. rewrite <- app_assoc. by eexists.
Qed.

Lemma union_refs_absorb seen refs :
  Forall (λ r, val_in r seen = true) refs → union_refs seen refs = seen.
Proof. induction 1 as [|r refs Hr _ IH]; simpl; [done|]. by rewrite Hr. Qed.

Lemma clamp01_not_nan c base : clamp01 c = Ok base → base ≠ S754_nan.
Proof.
  unfold clamp01. destruct (as_num c) as [[z|f]|]; [| |done]; intros [= <-].
  - destruct (z <? 1); done.
  - unfold fmax, fmin. destruct (SFltb f (lit "1.0")) eqn:E1.
    + destruct (SFltb _ f) eqn:E2; [|done]. intros ->. done.
    + destruct (SFltb _ (lit "1.0")); done.
Qed.
End facts.

(** ** Properties *)

(** Every finding [build_finding] returns is a revision 1 in exactly one of
    three situations.  A metadata-sufficient candidate is routed to [final] and is
    FINAL or SUPPRESSED as the delivery policy says; a candidate from a confirmed
    threat source is FINAL at once and captured for evidence, whatever its
    confidence; any other candidate that needs packets waits as CAPTURE_REQUESTED. *)
Theorem build_finding_outcome cfg repr cand q f r :
  build_finding cfg repr cand q = Ok (f, r) →
  dgetN "revision" f = VInt 1 ∧ dgetN "capture_job_ids" f = VList [] ∧
  ( (r = final ∧ confirmed_threat cand = false ∧
     dgetN "enrichment_state" f = VStr "NOT_REQUIRED" ∧
     ∃ sup, suppress_delivery cfg cand = Ok sup ∧
       dgetN "state" f = VStr (if sup then "SUPPRESSED" else "FINAL"))
  ∨ (r = final_and_capture ∧ confirmed_threat cand = true ∧
     dgetN "enrichment_state" f = VStr "PENDING" ∧ dgetN "state" f = VStr "FINAL")
  ∨ (r = capture ∧ confirmed_threat cand = false ∧
     decide_enrichment cand = Ok packets_needed ∧
     dgetN "enrichment_state" f = VStr "REQUIRED" ∧
     dgetN "state" f = VStr "CAPTURE_REQUESTED")).
Proof.
  intros H. apply build_finding_inv in H as (pol & f0 & m & Hpol & _ & _ & H).
  destruct pol.
  - destruct (confirmed_threat cand) eqn:Hc.
    { by pose proof (decide_enrichment_confirmed _ _ Hc Hpol). }
    destruct H as (-> & sup & Hsup & ->).
    destruct sup; unfold stamped; simpl_dict; split_and!; try done;
      left; split_and!; try done; eexists; split; done.
  - destruct (confirmed_threat cand); destruct H as [-> ->];
      unfold stamped; simpl_dict; naive_solver.
Qed.

Definition sample_candidate : dict := [
  ("finding_id", VStr "f1"); ("tenant_id", VStr "t"); ("detector_id", VStr "beacon");
  ("category", VStr "c2"); ("severity", VInt 5); ("confidence", VFloat (lit "0.6"));
  ("sensor_ids", VList [VStr "s1"]); ("entities", VList [
     VDict [("type", VStr "ip"); ("role", VStr "src"); ("value", VStr "10.0.0.5")];
     VDict [("type", VStr "ip"); ("role", VStr "dst"); ("value", VStr "203.0.113.9")]])].
Definition degraded_lookup : lookup_fn := λ _ _, Some [("quality", VStr "degraded")].
Definition no_repr : val → string := λ _, "".
Definition sample_finding (q : option lookup_fn) : dict :=
  match build_finding default_config no_repr sample_candidate q with
  | Ok (f, _) => f | Raise _ => [] end.

Lemma build_finding_outcome_witness :
  dgetN "revision" (sample_finding None) = VInt 1.
Proof.
  apply (build_finding_outcome default_config no_repr sample_candidate None
           (sample_finding None) capture). vm_compute. reflexivity.
Defined.

(** Sensor quality never moves a finding: a build with a quality lookup takes
    the same route as the build without one, and every field of the finding is the
    same except the confidence, the sensor list and the quality report itself. *)
Theorem quality_preserves_routing cfg repr cand lookup f0 r0 f1 r1 :
  build_finding cfg repr cand None = Ok (f0, r0) →
  build_finding cfg repr cand (Some lookup) = Ok (f1, r1) →
  r1 = r0 ∧ agree_except quality_keys f1 f0.
Proof.
  intros H0 H1.
  apply build_finding_inv in H0 as (pol & g0 & m & Hpol & -> & Hm & H0).
  apply build_finding_inv in H1 as (pol' & g1 & m' & Hpol' & Hg1 & Hm' & H1).
  rewrite Hpol in Hpol'; injection Hpol' as <-. rewrite Hm in Hm'; injection Hm' as <-.
  apply apply_quality_frame in Hg1.
  destruct pol.
  - destruct H0 as (-> & sup & Hsup & ->), H1 as (-> & sup' & Hsup' & ->).
    rewrite Hsup in Hsup'; injection Hsup' as <-. split; [done|].
    assert (low_severity_reason repr (dset "enrichment_state" (VStr "NOT_REQUIRED") (stamped m g1))
            = low_severity_reason repr (dset "enrichment_state" (VStr "NOT_REQUIRED")
                (stamped m (base_finding cand)))) as ->.
    { unfold low_severity_reason, stamped. simpl_dict.
      by rewrite (agree_dgetN _ _ _ _ Hg1) by set_solver. }
    unfold stamped. destruct sup; auto 10 with cernity.
  - destruct (confirmed_threat cand); destruct H0 as [-> ->], H1 as [-> ->];
      (split; [done|]); unfold stamped; auto 10 with cernity.
Qed.

Lemma quality_preserves_routing_witness :
  dget "state" (sample_finding (Some degraded_lookup)) = dget "state" (sample_finding None).
Proof.
  refine (proj2 (quality_preserves_routing default_config no_repr sample_candidate
    degraded_lookup (sample_finding None) capture (sample_finding (Some degraded_lookup))
    capture _ _) "state" _);
    [vm_compute; reflexivity | vm_compute; reflexivity | unfold quality_keys; set_solver].
Defined.

(** The quality discount is a discount: the adjusted confidence never exceeds
    the original (clamped to [0, 1]), and it is either the original or at least the
    configured floor, so weak evidence is kept and never inflated. *)
Theorem quality_adjust_discounts cfg c q c' k :
  quality_adjust cfg c q = Ok (c', k) →
  (c' = c ∧ k = lit "1.0" ∧ q ∉ ["degraded"; "blind"]) ∨
  (q ∈ ["degraded"; "blind"] ∧ ∃ base a, clamp01 c = Ok base ∧ c' = VFloat a ∧
     SFleb a base = true ∧
     (a = base ∨ SFleb (QUALITY_CONFIDENCE_FLOOR cfg) a = true)).
Proof.
  unfold quality_adjust. destruct (mem q _) eqn:Hq; simpl.
  2:{ intros [= <- <-]. left. split_and!; try done. by apply mem_false in Hq. }
  intros H. apply bind_ok_inv in H as ([] & Hchk & H). apply check_ok_inv in Hchk.
  apply bind_ok_inv in H as (base & Hbase & H). injection H as <- _.
  right. apply mem_true in Hq. split; [done|]. eexists base, _. split_and!; [done..| |].
  - apply fmin_le_l. by eapply clamp01_not_nan.
  - set (fl := QUALITY_CONFIDENCE_FLOOR cfg) in *.
    assert (fl ≠ S754_nan) as Hfl.
    { intros E. rewrite E in Hchk. done. }
    unfold fmin. destruct (SFltb _ base) eqn:E; [|by left]. right.
    unfold fmax. destruct (SFltb fl _) eqn:E2; [by apply SFltb_leb|].
    unfold SFleb. by rewrite SFcompare_refl.
Qed.

Lemma quality_adjust_discounts_witness :
  SFleb (fmul (lit "0.6") (lit "0.7")) (lit "0.6") = true.
Proof.
  destruct (quality_adjust_discounts default_config (VFloat (lit "0.6")) "degraded"
              (VFloat (fmul (lit "0.6") (lit "0.7"))) (lit "0.7"))
    as [(E & _)|(_ & base & a & Hb & Ha & Hle & _)].
  - vm_compute. reflexivity.
  - exfalso. revert E. vm_compute. discriminate.
  - injection Ha as <-. injection Hb as <-. exact Hle.
Defined.

(** A delivered finding is never retracted: once FINAL, it is FINAL after any
    sequence of enrichment results (successful or failed) and timeouts. *)
Theorem delivered_stays_delivered cfg repr f f' :
  rtc (revise cfg repr) f f' → dgetN "state" f = VStr "FINAL" → dgetN "state" f' = VStr "FINAL".
Proof.
  induction 1 as [f|f g f' Hstep _ IH]; intros Hf; [done|]. apply IH.
  apply revise_inv in Hstep as (st & rev & Hst & _ & -> & _).
  by rewrite (terminal_state_final _ _ _ _ Hf Hst).
Qed.

Definition confirmed_candidate : dict :=
  [("finding_id", VStr "f2"); ("detector_id", VStr "ids_signature"); ("severity", VInt 3)].
Definition confirmed_finding : dict :=
  match build_finding default_config no_repr confirmed_candidate None with
  | Ok (f, _) => f | Raise _ => [] end.
Definition timed_out (f : dict) : dict :=
  match finalize_timeout default_config no_repr f with Ok g => g | Raise _ => [] end.

Lemma delivered_stays_delivered_witness :
  dgetN "state" (timed_out confirmed_finding) = VStr "FINAL".
Proof.
  apply (delivered_stays_delivered default_config no_repr confirmed_finding).
  - apply rtc_once. apply revise_timeout. vm_compute. reflexivity.
  - vm_compute. reflexivity.
Defined.

(** Revisions count the transitions: [n] later revisions of a finding at
    revision [r >= 1] bring it to exactly [r + n]. *)
Theorem revision_counts_transitions cfg repr n f f' r :
  nsteps (revise cfg repr) n f f' → dgetN "revision" f = VInt r → 1 ≤ r →
  dgetN "revision" f' = VInt (r + Z.of_nat n).
Proof.
  intros Hn. revert r. induction Hn as [f|n f g f' Hstep _ IH]; intros r Hr Hpos.
  - by rewrite Z.add_0_r.
  - apply revise_inv in Hstep as (st & rev & _ & Hrev & _ & _ & Hg).
    unfold next_revision in Hrev. rewrite Hr in Hrev. unfold py_or in Hrev. simpl in Hrev.
    replace (negb (r =? 0)) with true in Hrev by (symmetry; apply negb_true_iff; lia).
    simpl in Hrev. injection Hrev as <-.
    rewrite (IH (r + 1) Hg ltac:(lia)). f_equal. lia.
Qed.

Lemma revision_counts_transitions_witness :
  dgetN "revision" (timed_out confirmed_finding) = VInt 2.
Proof.
  apply (revision_counts_transitions default_config no_repr 1 confirmed_finding _ 1);
    [|vm_compute; reflexivity|lia].
  apply nsteps_once. apply revise_timeout. vm_compute. reflexivity.
Defined.

(** The outcome of the enrichment does not decide delivery: whatever the
    result (ok, failed) or the timeout, the finding ends in the same state, with
    the same suppression reason and the same revision number, and that state is
    FINAL or SUPPRESSED. *)
Theorem terminal_state_independent_of_enrichment cfg repr f result f1 f2 :
  apply_enrichment_result cfg repr f result = Ok f1 →
  finalize_timeout cfg repr f = Ok f2 →
  dgetN "state" f1 = dgetN "state" f2 ∧
  dgetN "suppression_reason" f1 = dgetN "suppression_reason" f2 ∧
  dgetN "revision" f1 = dgetN "revision" f2 ∧
  (dgetN "state" f1 = VStr "FINAL" ∨ dgetN "state" f1 = VStr "SUPPRESSED").
Proof.
  intros H1 H2.
  apply apply_enrichment_result_inv in H1 as (st & rev & Hst & Hrev & -> & -> & ->).
  apply finalize_timeout_inv in H2 as (st' & rev' & Hst' & Hrev' & -> & -> & -> & _).
  rewrite Hst in Hst'; injection Hst' as <-. rewrite Hrev in Hrev'; injection Hrev' as <-.
  split_and!; try done. apply terminal_state_cases in Hst as [-> | ->]; auto.
Qed.

Definition enriched (result f : dict) : dict :=
  match apply_enrichment_result default_config no_repr f result with
  | Ok g => g | Raise _ => [] end.
Definition sample_result : dict := [("status", VStr "ok");
  ("evidence_refs", VList [VStr "ndr-pcap/t/f1.pcap"]);
  ("iocs", VDict [("domains", VList [VStr "b.example"; VStr "a.example"])])].

Lemma terminal_state_independent_of_enrichment_witness :
  dgetN "state" (enriched sample_result (sample_finding None)) =
  dgetN "state" (timed_out (sample_finding None)).
Proof.
  apply (terminal_state_independent_of_enrichment default_config no_repr
           (sample_finding None) sample_result); vm_compute; reflexivity.
Defined.

(** Evidence is unioned and a duplicate result is absorbed: after a successful
    result the finding keeps its earlier evidence references as a prefix, contains
    every (string) reference of the result, and applying the same result again
    leaves the references unchanged. *)
Theorem enrichment_evidence_union cfg repr f result f1 f2 seen refs :
  dgetN "status" result = VStr "ok" →
  dgetN "evidence_refs" f = VList seen → dgetN "evidence_refs" result = VList refs →
  Forall (λ r, is_str r = true) refs →
  apply_enrichment_result cfg repr f result = Ok f1 →
  apply_enrichment_result cfg repr f1 result = Ok f2 →
  (∃ new, dgetN "evidence_refs" f1 = VList (seen ++ new)) ∧
  Forall (λ r, val_in r (union_refs seen refs) = true) refs ∧
  dgetN "evidence_refs" f1 = VList (union_refs seen refs) ∧
  dgetN "evidence_refs" f2 = dgetN "evidence_refs" f1.
Proof.
  intros Hok Hseen Hrefs Hstr H1 H2.
  assert (Hall : Forall (λ r, val_in r (union_refs seen refs) = true) refs).
  { rewrite Forall_forall in Hstr |- *. intros r Hr. specialize (Hstr r Hr).
    destruct r; try done. by apply union_refs_in. }
  assert (Happ : ∀ g g' old, dgetN "evidence_refs" g = VList old →
      apply_enrichment_result cfg repr g result = Ok g' →
      dgetN "evidence_refs" g' = VList (union_refs old refs)).
  { intros g g' old Hold H. unfold apply_enrichment_result in H.
    rewrite Hok in H. simpl in H.
    apply bind_ok_inv in H as (h & Hh & H).
    apply bind_ok_inv in H as (st & _ & H). apply bind_ok_inv in H as (rev & _ & H).
    injection H as <-. simpl_dict.
    assert (Hget : ∀ d l, dgetN "evidence_refs" d = VList l →
              dget_or "evidence_refs" (VList []) d = VList l).
    { unfold dgetN, dget_or. intros d l. by destruct (dget _ d). }
    rewrite (Hget (dset _ _ g) old) in Hh by (by simpl_dict).
    rewrite (Hget result refs Hrefs) in Hh. simpl in Hh.
    set (h0 := match dgetN "summary" result with VDict s => _ | _ => _ end) in Hh.
    assert (dgetN "evidence_refs" h0 = VList (union_refs old refs)) as Hh0.
    { unfold h0. destruct (dgetN "summary" result); by simpl_dict. }
    destruct (dgetN "iocs" result); try (by injection Hh as <-).
    apply bind_ok_inv in Hh as (o & _ & Hh). apply bind_ok_inv in Hh as (mg & _ & Hh).
    injection Hh as <-. by simpl_dict. }
  pose proof (Happ _ _ _ Hseen H1) as E1. pose proof (Happ _ _ _ E1 H2) as E2.
  split_and!; try done.
  - rewrite E1. destruct (union_refs_prefix seen refs) as [new ->]. by eexists.
  - rewrite E2, E1. f_equal. by apply union_refs_absorb.
Qed.

Lemma enrichment_evidence_union_witness :
  dgetN "evidence_refs" (enriched sample_result (enriched sample_result (sample_finding None)))
  = dgetN "evidence_refs" (enriched sample_result (sample_finding None)).
Proof.
  apply (enrichment_evidence_union default_config no_repr (sample_finding None) sample_result
    (enriched sample_result (sample_finding None))
    (enriched sample_result (enriched sample_result (sample_finding None)))
    [] [VStr "ndr-pcap/t/f1.pcap"]); try (vm_compute; reflexivity).
  repeat constructor.
Defined.
