(* ===== verification/Cases.v ===== *)
(** * The case model (services/finding-service/cases.py)

    A [case] is the case.v1 document [new_case] builds; every later operation is a
    function from a case to a case that appends at most one audit event.  Documents
    come from [new_case] only, so every field is present. *)

From S2P Require Import Prelude Order PyVal FindingLifecycle.

Definition _DISPOSITION_VERDICTS : list string :=
  ["true_positive"; "false_positive"; "benign"; "allowlist"].

Record audit_event := {
  ev_event : string; ev_actor : string; ev_ts : string; ev_detail : dict
}.
Record note := { note_author : string; note_text : string; note_ts : string }.
Record case := {
  case_id : string; tenant : string; title : string; owner : option string;
  assignees : list string; status : string; notes : list note;
  linked_findings : list string; linked_entities : list val;
  created : string; updated : string; audit : list audit_event
}.

Definition opt_val (o : option string) : val :=
  match o with Some s => VStr s | None => VNone end.

(** An absent [detail] key is the empty dict. *)
Definition _audit (event actor ts : string) (detail : dict) : audit_event :=
  {| ev_event := event; ev_actor := actor; ev_ts := ts; ev_detail := detail |}.

(** Field updates of the copy [_touch] makes. *)
Definition _touch (c : case) (e : audit_event) : case :=
  {| case_id := case_id c; tenant := tenant c; title := title c; owner := owner c;
     assignees := assignees c; status := status c; notes := notes c;
     linked_findings := linked_findings c; linked_entities := linked_entities c;
     created := created c; updated := ev_ts e; audit := audit c ++ [e] |}.
Definition set_owner (o : option string) (c : case) : case :=
  {| case_id := case_id c; tenant := tenant c; title := title c; owner := o;
     assignees := assignees c; status := status c; notes := notes c;
     linked_findings := linked_findings c; linked_entities := linked_entities c;
     created := created c; updated := updated c; audit := audit c |}.
Definition set_assignees (l : list string) (c : case) : case :=
  {| case_id := case_id c; tenant := tenant c; title := title c; owner := owner c;
     assignees := l; status := status c; notes := notes c;
     linked_findings := linked_findings c; linked_entities := linked_entities c;
     created := created c; updated := updated c; audit := audit c |}.
Definition set_status (s : string) (c : case) : case :=
  {| case_id := case_id c; tenant := tenant c; title := title c; owner := owner c;
     assignees := assignees c; status := s; notes := notes c;
     linked_findings := linked_findings c; linked_entities := linked_entities c;
     created := created c; updated := updated c; audit := audit c |}.
Definition set_notes (l : list note) (c : case) : case :=
  {| case_id := case_id c; tenant := tenant c; title := title c; owner := owner c;
     assignees := assignees c; status := status c; notes := l;
     linked_findings := linked_findings c; linked_entities := linked_entities c;
     created := created c; updated := updated c; audit := audit c |}.
Definition set_findings (l : list string) (c : case) : case :=
  {| case_id := case_id c; tenant := tenant c; title := title c; owner := owner c;
     assignees := assignees c; status := status c; notes := notes c;
     linked_findings := l; linked_entities := linked_entities c;
     created := created c; updated := updated c; audit := audit c |}.
Definition set_entities (l : list val) (c : case) : case :=
  {| case_id := case_id c; tenant := tenant c; title := title c; owner := owner c;
     assignees := assignees c; status := status c; notes := notes c;
     linked_findings := linked_findings c; linked_entities := l;
     created := created c; updated := updated c; audit := audit c |}.

Definition new_case (id ten ttl : string) (own : option string) (actor ts : string) : case :=
  {| case_id := id; tenant := ten; title := ttl; owner := own; assignees := [];
     status := "new"; notes := []; linked_findings := []; linked_entities := [];
     created := ts; updated := ts;
     audit := [_audit "created" actor ts [("owner", opt_val own); ("title", VStr ttl)]] |}.

Definition change_owner (c : case) (own : option string) (actor ts : string) : case :=
  set_owner own (_touch c (_audit "owner_changed" actor ts
    [("from", opt_val (owner c)); ("to", opt_val own)])).

Definition assign (c : case) (assignee actor ts : string) : case :=
  if mem assignee (assignees c) then c
  else set_assignees (assignees c ++ [assignee])
         (_touch c (_audit "assignee_added" actor ts [("assignee", VStr assignee)])).

Definition unassign (c : case) (assignee actor ts : string) : case :=
  if negb (mem assignee (assignees c)) then c
  else set_assignees (filter (λ a, a ≠ assignee) (assignees c))
         (_touch c (_audit "assignee_removed" actor ts [("assignee", VStr assignee)])).

Definition add_note (c : case) (author text ts : string) : case :=
  set_notes (notes c ++ [{| note_author := author; note_text := text; note_ts := ts |}])
    (_touch c (_audit "note_added" author ts [])).

Definition transition (c : case) (st actor ts : string) : res case :=
  check (valid_case_transition (status c) st) ValueError;;
  Ok (set_status st (_touch c (_audit "status_changed" actor ts
        [("from", VStr (status c)); ("to", VStr st)]))).

Definition link_finding (c : case) (fid actor ts : string) : case :=
  if mem fid (linked_findings c) then c
  else set_findings (linked_findings c ++ [fid])
         (_touch c (_audit "finding_linked" actor ts [("finding_id", VStr fid)])).

Definition unlink_finding (c : case) (fid actor ts : string) : case :=
  if negb (mem fid (linked_findings c)) then c
  else set_findings (filter (λ f, f ≠ fid) (linked_findings c))
         (_touch c (_audit "finding_unlinked" actor ts [("finding_id", VStr fid)])).

(** [[e for e in xs if e != entity]] *)
Definition without (entity : val) (xs : list val) : list val :=
  List.filter (λ e, negb (py_eqb e entity)) xs.

Definition link_entity (c : case) (entity : val) (actor ts : string) : case :=
  if val_in entity (linked_entities c) then c
  else set_entities (linked_entities c ++ [entity])
         (_touch c (_audit "entity_linked" actor ts [("entity", entity)])).

Definition unlink_entity (c : case) (entity : val) (actor ts : string) : case :=
  if negb (val_in entity (linked_entities c)) then c
  else set_entities (without entity (linked_entities c))
         (_touch c (_audit "entity_unlinked" actor ts [("entity", entity)])).

(** ** Dispositions of a resolved case *)

Record disposition := {
  d_finding_id : string; d_entity : val; d_verdict : string; d_reason : val;
  d_analyst : val; d_tenant : string; d_ts : val; d_scope : string
}.

(** [v in xs] for a set of strings: an unhashable [v] raises. *)
Definition in_str_set (v : val) (xs : list string) : res (option string) :=
  match v with
  | VList _ | VDict _ => Raise TypeError
  | VStr s => Ok (if mem s xs then Some s else None)
  | _ => Ok None
  end.

Definition required {A} (o : option A) : res A :=
  match o with Some a => Ok a | None => Raise ValueError end.

Definition shape_disposition (c : case) (v : dict) : res disposition :=
  fid ← dindex "finding_id" v;
  entity ← dindex "entity" v;
  verdict ← dindex "verdict" v;
  verdict ← (o ← in_str_set verdict _DISPOSITION_VERDICTS; required o);
  fid ← (o ← in_str_set fid (linked_findings c); required o);
  check (val_in entity (linked_entities c)) ValueError;;
  reason ← dindex "reason" v;
  analyst ← dindex "analyst" v;
  ts ← dindex "ts" v;
  Ok {| d_finding_id := fid; d_entity := entity; d_verdict := verdict;
        d_reason := reason; d_analyst := analyst; d_tenant := tenant c; d_ts := ts;
        d_scope := if String.eqb verdict "allowlist" then "entity" else "finding" |}.

(** The verdicts are shaped in order and the first bad one raises. *)
Definition case_dispositions (c : case) (verdicts : list dict) : res (list disposition) :=
  if mem (status c) ["resolved"; "closed"] then mapM (shape_disposition c) verdicts
  else Ok [].

(** ** Operations as data, and the state an audit trail describes *)

Inductive case_op :=
| op_change_owner (o : option string) | op_assign (a : string) | op_unassign (a : string)
| op_add_note (text : string) | op_transition (st : string)
| op_link_finding (f : string) | op_unlink_finding (f : string)
| op_link_entity (e : val) | op_unlink_entity (e : val).

Definition apply_op (c : case) (op : case_op) (actor ts : string) : res case :=
  match op with
  | op_change_owner o => Ok (change_owner c o actor ts)
  | op_assign a => Ok (assign c a actor ts)
  | op_unassign a => Ok (unassign c a actor ts)
  | op_add_note text => Ok (add_note c actor text ts)
  | op_transition st => transition c st actor ts
  | op_link_finding f => Ok (link_finding c f actor ts)
  | op_unlink_finding f => Ok (unlink_finding c f actor ts)
  | op_link_entity e => Ok (link_entity c e actor ts)
  | op_unlink_entity e => Ok (unlink_entity c e actor ts)
  end.

(** A successful operation, and any sequence of them. *)
Definition case_step (c c' : case) : Prop := ∃ op actor ts, apply_op c op actor ts = Ok c'.

(** What a reader of the trail alone knows of the case. *)
Record view := {
  vw_owner : val; vw_status : val; vw_assignees : list val; vw_findings : list val;
  vw_entities : list val; vw_notes : list (string * string)
}.

Definition view_of (c : case) : view :=
  {| vw_owner := opt_val (owner c); vw_status := VStr (status c);
     vw_assignees := VStr <$> assignees c; vw_findings := VStr <$> linked_findings c;
     vw_entities := linked_entities c;
     vw_notes := (λ n, (note_author n, note_ts n)) <$> notes c |}.

Definition blank_view : view :=
  {| vw_owner := VNone; vw_status := VStr "new"; vw_assignees := []; vw_findings := [];
     vw_entities := []; vw_notes := [] |}.

(** One audit event read back; an unknown event changes nothing. *)
Definition replay_event (w : view) (e : audit_event) : view :=
  let d := ev_detail e in
  let mk o s a f en n := {| vw_owner := o; vw_status := s; vw_assignees := a;
    vw_findings := f; vw_entities := en; vw_notes := n |} in
  let ev := ev_event e in
  if String.eqb ev "created" || String.eqb ev "owner_changed" then
    mk (dgetN (if String.eqb ev "created" then "owner" else "to") d) (vw_status w)
       (vw_assignees w) (vw_findings w) (vw_entities w) (vw_notes w)
  else if String.eqb ev "status_changed" then
    mk (vw_owner w) (dgetN "to" d) (vw_assignees w) (vw_findings w) (vw_entities w) (vw_notes w)
  else if String.eqb ev "assignee_added" then
    mk (vw_owner w) (vw_status w) (vw_assignees w ++ [dgetN "assignee" d])
       (vw_findings w) (vw_entities w) (vw_notes w)
  else if String.eqb ev "assignee_removed" then
    mk (vw_owner w) (vw_status w) (without (dgetN "assignee" d) (vw_assignees w))
       (vw_findings w) (vw_entities w) (vw_notes w)
  else if String.eqb ev "finding_linked" then
    mk (vw_owner w) (vw_status w) (vw_assignees w) (vw_findings w ++ [dgetN "finding_id" d])
       (vw_entities w) (vw_notes w)
  else if String.eqb ev "finding_unlinked" then
    mk (vw_owner w) (vw_status w) (vw_assignees w)
       (without (dgetN "finding_id" d) (vw_findings w)) (vw_entities w) (vw_notes w)
  else if String.eqb ev "entity_linked" then
    mk (vw_owner w) (vw_status w) (vw_assignees w) (vw_findings w)
       (vw_entities w ++ [dgetN "entity" d]) (vw_notes w)
  else if String.eqb ev "entity_unlinked" then
    mk (vw_owner w) (vw_status w) (vw_assignees w) (vw_findings w)
       (without (dgetN "entity" d) (vw_entities w)) (vw_notes w)
  else if String.eqb ev "note_added" then
    mk (vw_owner w) (vw_status w) (vw_assignees w) (vw_findings w) (vw_entities w)
       (vw_notes w ++ [(ev_actor e, ev_ts e)])
  else w.

Definition replay (events : list audit_event) : view := foldl replay_event blank_view events.

(** The identity of a case, which no operation may touch. *)
Definition identity_of (c : case) : string * string * string * string :=
  (case_id c, tenant c, title c, created c).

(** [e] is the event of [op], on the case it was applied to. *)
Definition logs (c c' : case) (actor ts : string) : Prop :=
  ∃ e, audit c' = audit c ++ [e] ∧ updated c' = ts ∧ ev_actor e = actor ∧ ev_ts e = ts ∧
       view_of c' = replay_event (view_of c) e.

Lemma without_str a l : without (VStr a) (VStr <$> l) = VStr <$> filter (λ x, x ≠ a) l.
Proof.
  unfold without. induction l as [|x l IH]; simpl; [done|].
  rewrite filter_cons. destruct (String.eqb_spec x a) as [->|Hne]; simpl.
  - rewrite decide_False by naive_solver. exact IH.
  - rewrite decide_True, fmap_cons by done. f_equal. exact IH.
Qed.

Lemma apply_op_logs c op actor ts c' :
  apply_op c op actor ts = Ok c' →
  identity_of c' = identity_of c ∧ (c' = c ∨ logs c c' actor ts).
Proof.
  destruct op; simpl; intros H; inv_ok;
    unfold assign, unassign, link_finding, unlink_finding, link_entity, unlink_entity, transition in *;
    inv_ok;
    repeat match goal with |- context [if ?b then _ else _] => destruct b end;
    (split; [reflexivity|]); auto; right; eexists; split_and!; try reflexivity;
    unfold replay_event, view_of; simpl; rewrite ?fmap_app; simpl; try reflexivity.
  all: f_equal; symmetry; apply without_str.
Qed.

Lemma replay_snoc es e : replay (es ++ [e]) = replay_event (replay es) e.
Proof. unfold replay. by rewrite foldl_app. Qed.

(** The status moves a list of audit events records. *)
Definition move_of (e : audit_event) : option (val * val) :=
  if String.eqb (ev_event e) "status_changed"
  then Some (dgetN "from" (ev_detail e), dgetN "to" (ev_detail e)) else None.

Lemma shape_disposition_ok c v d :
  shape_disposition c v = Ok d →
  d_finding_id d ∈ linked_findings c ∧ val_in (d_entity d) (linked_entities c) = true ∧
  d_verdict d ∈ _DISPOSITION_VERDICTS ∧ d_tenant d = tenant c ∧
  d_scope d = (if String.eqb (d_verdict d) "allowlist" then "entity" else "finding") ∧
  dgetN "finding_id" v = VStr (d_finding_id d) ∧ dgetN "entity" v = d_entity d ∧
  dgetN "verdict" v = VStr (d_verdict d).
Proof.
  assert (Hin : ∀ v xs o s, in_str_set v xs = Ok o → required o = Ok s → v = VStr s ∧ s ∈ xs).
  { intros w xs [t|] s H1 H2; [|done]. injection H2 as ->.
    destruct w as [| | | |u| |]; try done. simpl in H1. injection H1 as H1.
    destruct (mem u xs) eqn:E; [|done]. injection H1 as <-. split; [done|]. by apply mem_true. }
  assert (Hidx : ∀ k w, dindex k v = Ok w → dgetN k v = w).
  { unfold dindex, dgetN, dget_or. intros k w. by destruct (dget k v); intros [= ->]. }
  unfold shape_disposition. intros H. inv_ok. simpl.
  repeat match goal with
  | H1 : in_str_set ?w _ = Ok ?o, H2 : required ?o = Ok _ |- _ =>
      destruct (Hin _ _ _ _ H1 H2) as [-> ?]; clear H1 H2
  | H : dindex _ _ = Ok _ |- _ => apply Hidx in H
  end.
  split_and!; done.
Qed.

(** ** Properties *)

(** No case mutation is silent.  Every successful operation keeps the case's
    identity (id, tenant, title, creation time) and either changes nothing at all or
    appends exactly one audit event, stamped with the actor and the time, that
    [updated] is set to. *)
Theorem case_operation_audited c op actor ts c' :
  apply_op c op actor ts = Ok c' →
  identity_of c' = identity_of c ∧
  (c' = c ∨ ∃ e, audit c' = audit c ++ [e] ∧ ev_actor e = actor ∧ ev_ts e = ts ∧ updated c' = ts).
Proof.
  intros H. apply apply_op_logs in H as [Hid [->|(e & ?)]]; (split; [done|]); [by left|].
  right. exists e. naive_solver.
Qed.

Definition sample_case : case := new_case "c1" "acme" "beacon" (Some "ann") "ann" "t0".

Lemma case_operation_audited_witness :
  identity_of (assign sample_case "bob" "ann" "t1") = identity_of sample_case.
Proof. apply (case_operation_audited sample_case (op_assign "bob") "ann" "t1"). reflexivity. Defined.

(** The audit trail is complete: after any sequence of operations on a new case,
    replaying the trail alone gives back the owner, the status, the assignees, the
    linked findings and entities, and the authors and times of the notes. *)
Theorem audit_trail_replays id ten ttl own actor ts c :
  rtc case_step (new_case id ten ttl own actor ts) c → replay (audit c) = view_of c.
Proof.
  assert (Hstep : ∀ c c', rtc case_step c c' → replay (audit c) = view_of c →
                          replay (audit c') = view_of c').
  { induction 1 as [|c1 c2 c3 (op & a & t & H) _ IH]; [done|]. intros Hc. apply IH.
    apply apply_op_logs in H as [_ [->|(e & -> & _ & _ & _ & ->)]]; [done|].
    by rewrite replay_snoc, Hc. }
  intros H. apply (Hstep _ _ H). reflexivity.
Qed.

Lemma audit_trail_replays_witness :
  replay (audit (unassign (assign sample_case "bob" "ann" "t1") "bob" "ann" "t2"))
  = view_of sample_case.
Proof.
  apply (audit_trail_replays "c1" "acme" "beacon" (Some "ann") "ann" "t0"
    (unassign (assign sample_case "bob" "ann" "t1") "bob" "ann" "t2")).
  eapply rtc_l; [exists (op_assign "bob"), "ann", "t1"; reflexivity|].
  apply rtc_once. by exists (op_unassign "bob"), "ann", "t2".
Defined.

(** The status of a case only moves along the transition table: every status
    change the trail of a case records is one of the table's moves (in particular no
    case goes from [new] to [resolved] without an investigation), and an illegal move
    raises [ValueError] instead of changing the case. *)
Theorem case_status_moves_legal id ten ttl own actor ts c :
  rtc case_step (new_case id ten ttl own actor ts) c →
  (∀ fr to, (fr, to) ∈ omap move_of (audit c) →
     ∃ s t, fr = VStr s ∧ to = VStr t ∧ valid_case_transition s t = true) ∧
  (∀ st a t, valid_case_transition (status c) st = false → transition c st a t = Raise ValueError).
Proof.
  intros H. split; [|intros st a t Hv; unfold transition; by rewrite Hv].
  set (P c := ∀ fr to, (fr, to) ∈ omap move_of (audit c) →
     ∃ s t, fr = VStr s ∧ to = VStr t ∧ valid_case_transition s t = true).
  assert (Hstep : ∀ c c', rtc case_step c c' → P c → P c').
  { induction 1 as [|c1 c2 c3 (op & a & t & Hop) _ IH]; [done|]. intros Hc. apply IH.
    destruct op; simpl in Hop; try (injection Hop as <-);
      unfold P, transition, assign, unassign, link_finding, unlink_finding, link_entity,
        unlink_entity in *; inv_ok;
      repeat match goal with |- context [if ?b then _ else _] => destruct b end; try done;
      intros fr to; simpl; rewrite omap_app, elem_of_app; simpl;
      intros [Hin|Hin]; auto; try set_solver;
      apply list_elem_of_singleton in Hin; injection Hin as -> ->; eauto. }
  apply (Hstep _ _ H). intros fr to. simpl. set_solver.
Qed.

Lemma case_status_moves_legal_witness :
  transition sample_case "resolved" "ann" "t1" = Raise ValueError.
Proof.
  apply (case_status_moves_legal "c1" "acme" "beacon" (Some "ann") "ann" "t0" sample_case);
    [apply rtc_refl | reflexivity].
Defined.

(** A disposition is never invented nor misattributed: a case that is not
    resolved or closed yields none, and otherwise the records answer the verdicts one
    for one, each about a finding and an entity that are linked to the case, with a
    verdict of the contract, the case's tenant, and entity scope exactly for
    [allowlist]. *)
Theorem dispositions_attributed c verdicts ds :
  case_dispositions c verdicts = Ok ds →
  (status c ∉ ["resolved"; "closed"] ∧ ds = []) ∨
  (status c ∈ ["resolved"; "closed"] ∧
   Forall2 (λ v d, dgetN "finding_id" v = VStr (d_finding_id d) ∧
      d_finding_id d ∈ linked_findings c ∧
      dgetN "entity" v = d_entity d ∧ val_in (d_entity d) (linked_entities c) = true ∧
      dgetN "verdict" v = VStr (d_verdict d) ∧ d_verdict d ∈ _DISPOSITION_VERDICTS ∧
      d_tenant d = tenant c ∧
      (d_scope d = "entity" ↔ d_verdict d = "allowlist")) verdicts ds).
Proof.
  unfold case_dispositions. destruct (mem (status c) _) eqn:E.
  - intros H. right. split; [by apply mem_true|].
    revert ds H. induction verdicts as [|v vs IH]; simpl; intros ds H; inv_ok; constructor; auto.
    apply shape_disposition_ok in Hm as (? & ? & ? & ? & Hs & ? & ? & ?). split_and!; try done.
    rewrite Hs. destruct (String.eqb_spec (d_verdict a) "allowlist"); split; done || congruence.
  - intros [= <-]. left. split; [by apply mem_false|done].
Qed.

Definition resolved_case : case :=
  match transition (link_entity (link_finding sample_case "f1" "ann" "t1")
          (VDict [("type", VStr "ip"); ("value", VStr "10.0.0.5")]) "ann" "t2")
          "closed" "ann" "t3" with Ok c => c | Raise _ => sample_case end.
Definition sample_verdict : dict := [
  ("finding_id", VStr "f1"); ("verdict", VStr "true_positive"); ("reason", VStr "c2");
  ("entity", VDict [("value", VStr "10.0.0.5"); ("type", VStr "ip")]);
  ("analyst", VStr "ann"); ("ts", VStr "t4")].

Lemma dispositions_attributed_witness :
  match case_dispositions resolved_case [sample_verdict] with
  | Ok ds => length ds = 1%nat | Raise _ => False end.
Proof.
  destruct (case_dispositions resolved_case [sample_verdict]) as [ds|e] eqn:E.
  - destruct (dispositions_attributed _ _ _ E) as [[Hs _]|[_ HF]].
    + exfalso. apply Hs. vm_compute. set_solver.
    + symmetry. exact (Forall2_length _ _ _ HF).
  - vm_compute in E. discriminate.
Defined.
