(* ===== verification/CaseStore.v ===== *)
(** * The case store and the disposition outbox (services/finding-service/store.py)

    The two SQLite tables are maps keyed by their primary key, the in-memory claim
    set a [gset].  Each method body that runs under the store's lock is one atomic
    function; [drain_dispositions] releases the lock between its parts, so it is a
    small-step machine ([drain_step]) whose steps are the locked sections and the
    delivery attempts, and [sys_step] interleaves any number of them with writers. *)

From S2P Require Import Prelude Order PyVal FindingLifecycle Cases.
Set Default Proof Using "Type".

Record disp_row := {
  dr_case_id : string; dr_tenant : string; dr_record : disposition; dr_delivered : bool
}.
Record store := {
  st_cases : gmap string (string * case);       (* case_id -> tenant column, document *)
  st_disps : gmap string disp_row;
  st_claimed : gset string
}.
Definition empty_store : store := {| st_cases := ∅; st_disps := ∅; st_claimed := ∅ |}.

(** Rows of a table in the order of their key. *)
Definition sorted_rows {A} (m : gmap string A) : list (string * A) :=
  isort (K := string) fst (map_to_list m).

Section store.
(** [hashlib.sha1(...).hexdigest()] and [json.dumps(entity, sort_keys=True)]. *)
Context (sha1 : string → string) (dumps : val → string).

Definition nul : string := String zero EmptyString.

Definition disp_key (cid : string) (seq : nat) (r : disposition) : string :=
  join nul [cid; pretty (N.of_nat seq); d_finding_id r; dumps (d_entity r); d_verdict r].
Definition _disp_id (cid : string) (seq : nat) (r : disposition) : string :=
  sha1 (disp_key cid seq r).

(** A duplicate primary key is an [IntegrityError], answered with [False]. *)
Definition create (s : store) (c : case) : store * bool :=
  match st_cases s !! case_id c with
  | Some _ => (s, false)
  | None => ({| st_cases := <[case_id c := (tenant c, c)]> (st_cases s);
                st_disps := st_disps s; st_claimed := st_claimed s |}, true)
  end.

Definition get (s : store) (cid : string) (tenants : list string) : option case :=
  match st_cases s !! cid with
  | Some (t, c) => if mem t tenants then Some c else None
  | None => None
  end.

(** [INSERT OR IGNORE] of one record. *)
Definition enqueue (cid : string) (seq : nat) (ten : string)
    (m : gmap string disp_row) (r : disposition) : gmap string disp_row :=
  let id := _disp_id cid seq r in
  match m !! id with
  | Some _ => m
  | None => <[id := {| dr_case_id := cid; dr_tenant := ten; dr_record := r;
                       dr_delivered := false |}]> m
  end.

Definition mutate (s : store) (cid : string) (tenants : list string)
    (fn : case → res (case * list disposition)) : res (store * option case) :=
  match st_cases s !! cid with
  | None => Ok (s, None)
  | Some (t, c) =>
      if mem t tenants then
        new_records ← fn c;
        let '(new, records) := new_records in
        check (String.eqb (tenant new) t) ValueError;;
        Ok ({| st_cases := <[cid := (t, new)]> (st_cases s);
               st_disps := foldl (enqueue cid (length (audit new)) (tenant new))
                             (st_disps s) records;
               st_claimed := st_claimed s |}, Some new)
      else Ok (s, None)
  end.

Definition list_cases (s : store) (ten : string) (tenants : list string) : list case :=
  if mem ten tenants
  then omap (λ kv, if String.eqb kv.2.1 ten then Some kv.2.2 else None) (sorted_rows (st_cases s))
  else [].

(** Undelivered rows of a tenant, with their ids, as both readers select them. *)
Definition undelivered (s : store) (ten : string) : list (string * disposition) :=
  omap (λ kv, if String.eqb (dr_tenant kv.2) ten && negb (dr_delivered kv.2)
              then Some (kv.1, dr_record kv.2) else None) (sorted_rows (st_disps s)).

Definition pending_dispositions (s : store) (ten : string) (tenants : list string) :
    list disposition :=
  if mem ten tenants then snd <$> undelivered s ten else [].

(** ** Draining the outbox *)

(** What one call of [deliver] does: accepts, fails ([Exception] or a falsy
    result), or is interrupted ([BaseException]). *)
Inductive outcome := accepted | failed | interrupted.

(** Where a drain is between two of its atomic parts; [n] counts its accepts. *)
Inductive pc :=
| p_next (rows : list (string * disposition)) (n : Z)
| p_deliver (rid : string) (r : disposition) (attempts : nat)
    (rows : list (string * disposition)) (n : Z)
| p_mark (rid : string) (rows : list (string * disposition)) (n : Z)
| p_release (rid : string) (raised : bool) (rows : list (string * disposition)) (n : Z)
| p_done (n : Z)
| p_raised.

Definition claim (rid : string) (s : store) : store :=
  {| st_cases := st_cases s; st_disps := st_disps s; st_claimed := {[rid]} ∪ st_claimed s |}.
Definition unclaim (rid : string) (s : store) : store :=
  {| st_cases := st_cases s; st_disps := st_disps s; st_claimed := st_claimed s ∖ {[rid]} |}.
Definition mark_delivered (rid : string) (s : store) : store :=
  {| st_cases := st_cases s;
     st_disps := alter (λ r, {| dr_case_id := dr_case_id r; dr_tenant := dr_tenant r;
                                dr_record := dr_record r; dr_delivered := true |}) rid (st_disps s);
     st_claimed := st_claimed s |}.

Definition drain_begin (s : store) (ten : string) (tenants : list string) : pc :=
  if mem ten tenants then p_next (undelivered s ten) 0 else p_done 0.

(** One atomic part of a drain, with the outcome a delivery in it would have; the
    list is the ids the consumer accepted. *)
Definition drain_step (max_attempts : nat) (s : store) (p : pc) (o : outcome) :
    store * pc * list string :=
  match p with
  | p_next [] n => (s, p_done n, [])
  | p_next ((rid, r) :: rows) n =>
      if decide (rid ∈ st_claimed s) then (s, p_next rows n, [])
      else match st_disps s !! rid with
           | Some row =>
               if dr_delivered row then (s, p_next rows n, [])
               else (claim rid s, p_deliver rid r max_attempts rows n, [])
           | None => (s, p_next rows n, [])
           end
  | p_deliver rid r O rows n => (s, p_release rid false rows n, [])
  | p_deliver rid r (S k) rows n =>
      match o with
      | accepted => (s, p_mark rid rows n, [rid])
      | failed => (s, p_deliver rid r k rows n, [])
      | interrupted => (s, p_release rid true rows n, [])
      end
  | p_mark rid rows n => (mark_delivered rid s, p_release rid false rows (n + 1), [])
  | p_release rid raised rows n =>
      (unclaim rid s, if raised then p_raised else p_next rows n, [])
  | p_done _ | p_raised => (s, p, [])
  end.

(** A drain that runs alone; [oracle i] is the outcome offered to its step [i].
    The result is the final store, the value returned ([None] when the drain raised)
    and the accepted ids. *)
Fixpoint drain_run (max_attempts fuel : nat) (oracle : nat → outcome) (s : store) (p : pc)
    (log : list string) : option (store * option Z * list string) :=
  match p with
  | p_done n => Some (s, Some n, log)
  | p_raised => Some (s, None, log)
  | _ =>
      match fuel with
      | O => None
      | S fuel =>
          let '(s, p, acc) := drain_step max_attempts s p (oracle fuel) in
          drain_run max_attempts fuel oracle s p (log ++ acc)
      end
  end.

Definition drain_dispositions (max_attempts fuel : nat) (oracle : nat → outcome) (s : store)
    (ten : string) (tenants : list string) : option (store * option Z * list string) :=
  drain_run max_attempts fuel oracle s (drain_begin s ten tenants) [].

(** ** Concurrent drains and writers *)

Record sys := { sy_store : store; sy_threads : gmap nat pc; sy_log : list string }.

Definition with_store (y : sys) (s : store) : sys :=
  {| sy_store := s; sy_threads := sy_threads y; sy_log := sy_log y |}.

Inductive sys_step (max_attempts : nat) (y : sys) : sys → Prop :=
| sys_create c : sys_step max_attempts y (with_store y (create (sy_store y) c).1)
| sys_mutate cid tenants fn s o :
    mutate (sy_store y) cid tenants fn = Ok (s, o) → sys_step max_attempts y (with_store y s)
| sys_begin i ten tenants :
    sy_threads y !! i = None →
    sys_step max_attempts y
      {| sy_store := sy_store y;
         sy_threads := <[i := drain_begin (sy_store y) ten tenants]> (sy_threads y);
         sy_log := sy_log y |}
| sys_drain i p o s p' acc :
    sy_threads y !! i = Some p → drain_step max_attempts (sy_store y) p o = (s, p', acc) →
    sys_step max_attempts y
      {| sy_store := s; sy_threads := <[i := p']> (sy_threads y); sy_log := sy_log y ++ acc |}.

Definition sys_init (s : store) : sys := {| sy_store := s; sy_threads := ∅; sy_log := [] |}.

Definition finished (p : pc) : bool :=
  match p with p_done _ | p_raised => true | _ => false end.

(** The id a drain has claimed, and whether the consumer already accepted it. *)
Definition holds (p : pc) : option (string * bool) :=
  match p with
  | p_deliver rid _ _ _ _ => Some (rid, false)
  | p_mark rid _ _ => Some (rid, true)
  | _ => None
  end.
Definition claims (p : pc) : option string :=
  match p with
  | p_deliver rid _ _ _ _ | p_mark rid _ _ | p_release rid _ _ _ => Some rid
  | _ => None
  end.

(** ** Facts *)

Definition delivered (s : store) (rid : string) : Prop :=
  ∃ row, st_disps s !! rid = Some row ∧ dr_delivered row = true.

(** A writer keeps every outbox row and only adds undelivered ones. *)
Definition grows (s s' : store) : Prop :=
  st_claimed s' = st_claimed s ∧
  (∀ id r, st_disps s !! id = Some r → st_disps s' !! id = Some r) ∧
  (∀ id r, st_disps s' !! id = Some r → st_disps s !! id = Some r ∨ dr_delivered r = false).

Lemma enqueue_keeps cid seq ten m r id row :
  m !! id = Some row → enqueue cid seq ten m r !! id = Some row.
Proof.
  unfold enqueue. intros H. destruct (m !! _disp_id cid seq r) eqn:E; [done|].
  rewrite lookup_insert_ne; [done|]. intros <-. congruence.
Qed.

Lemma enqueue_all_keeps cid seq ten rs m id row :
  m !! id = Some row → foldl (enqueue cid seq ten) m rs !! id = Some row.
Proof. revert m; induction rs; intros m H; simpl; auto using enqueue_keeps. Qed.

Lemma enqueue_all_new cid seq ten rs m id row :
  foldl (enqueue cid seq ten) m rs !! id = Some row →
  m !! id = Some row ∨
  (m !! id = None ∧ dr_delivered row = false ∧ dr_case_id row = cid ∧ dr_tenant row = ten ∧
   dr_record row ∈ rs ∧ id = _disp_id cid seq (dr_record row)).
Proof.
  revert m; induction rs as [|r rs IH]; intros m H; simpl in H; [by left|].
  apply IH in H as [H|(H & ? & ? & ? & ? & ?)].
  - unfold enqueue in H. destruct (m !! _disp_id cid seq r) eqn:E; [by left|].
    apply lookup_insert_Some in H as [[<- <-]|[? H]]; [|by left].
    right. split_and!; try done; simpl. set_solver.
  - destruct (m !! id) eqn:E; [by apply (enqueue_keeps cid seq ten _ r) in E; congruence|].
    right. split_and!; try done. set_solver.
Qed.

Lemma enqueue_all_in cid seq ten rs m r :
  r ∈ rs → is_Some (foldl (enqueue cid seq ten) m rs !! _disp_id cid seq r).
Proof.
  revert m; induction rs as [|r' rs IH]; intros m Hr; simpl; [set_solver|].
  apply elem_of_cons in Hr as [<-|Hr]; [|by apply IH].
  assert (∃ row, enqueue cid seq ten m r !! _disp_id cid seq r = Some row) as [row Hrow].
  { unfold enqueue. destruct (m !! _disp_id cid seq r) eqn:E; [by eexists|].
    rewrite lookup_insert_eq. by eexists. }
  exists row. by apply enqueue_all_keeps.
Qed.

Lemma create_grows s c : grows s (create s c).1.
Proof. unfold create. destruct (st_cases s !! case_id c); split_and!; simpl; auto. Qed.

Lemma mutate_grows s cid tenants fn s' o : mutate s cid tenants fn = Ok (s', o) → grows s s'.
Proof.
  unfold mutate. destruct (st_cases s !! cid) as [[t c]|]; [destruct (mem t tenants)|].
  2,3: intros [= <- <-]; split_and!; auto.
  intros H. apply bind_ok_inv in H as ([new rs] & _ & H). inv_ok.
  split_and!; simpl; [done|by eauto using enqueue_all_keeps|].
  intros id r H. apply enqueue_all_new in H. naive_solver.
Qed.

Lemma grows_delivered s s' rid : grows s s' → delivered s' rid ↔ delivered s rid.
Proof.
  intros (_ & H1 & H2). split; intros (row & Hr & Hd); [|by exists row; auto].
  destruct (H2 _ _ Hr); [by exists row|congruence].
Qed.

Record inv (y : sys) : Prop := {
  inv_claims : ∀ i p rid, sy_threads y !! i = Some p → claims p = Some rid →
    rid ∈ st_claimed (sy_store y) ∧ is_Some (st_disps (sy_store y) !! rid);
  inv_claimed : ∀ rid, rid ∈ st_claimed (sy_store y) →
    ∃ i p, sy_threads y !! i = Some p ∧ claims p = Some rid;
  inv_excl : ∀ i j p q rid, sy_threads y !! i = Some p → sy_threads y !! j = Some q →
    claims p = Some rid → claims q = Some rid → i = j;
  inv_deliver : ∀ i p rid, sy_threads y !! i = Some p → holds p = Some (rid, false) →
    rid ∉ sy_log y;
  inv_log : ∀ rid, rid ∈ sy_log y ↔ delivered (sy_store y) rid ∨
    ∃ i p, sy_threads y !! i = Some p ∧ holds p = Some (rid, true);
  inv_nodup : NoDup (sy_log y)
}.

Lemma holds_claims p rid b : holds p = Some (rid, b) → claims p = Some rid.
Proof. destruct p; simpl; congruence. Qed.

Lemma inv_grows y s' : inv y → grows (sy_store y) s' → inv (with_store y s').
Proof.
  intros [H1 H2 H3 H4 H5 H6] Hg. pose proof Hg as (Hc & Hk & _).
  constructor; simpl; try done.
  - intros i p rid Hi Hp. destruct (H1 _ _ _ Hi Hp) as [? [row ?]].
    rewrite Hc. split; [done|]. exists row; auto.
  - by rewrite Hc.
  - intros rid. by rewrite (grows_delivered _ _ _ Hg).
Qed.

(** A new value of thread [i] in a lookup hypothesis. *)
Ltac thread_cases :=
  repeat match goal with
  | H : <[_:=_]> _ !! _ = Some _ |- _ =>
      apply lookup_insert_Some in H as [[<- <-]|[? H]]
  end.

(** The thread that has [holds q = Some (rid, true)] after thread [i] moved. *)
Lemma holder_after (th : gmap nat pc) i p p' rid b :
  th !! i = Some p → (holds p = Some (rid, b) ↔ holds p' = Some (rid, b)) →
  (∃ j q, th !! j = Some q ∧ holds q = Some (rid, b)) ↔
  (∃ j q, <[i:=p']> th !! j = Some q ∧ holds q = Some (rid, b)).
Proof. clear sha1 dumps.
  intros Hi Hh. split.
  - intros (j & q & Hj & Hq). destruct (decide (i = j)) as [<-|Hne].
    + exists i, p'. rewrite lookup_insert_eq. split; [done|]. naive_solver.
    + exists j, q. by rewrite lookup_insert_ne.
  - intros (j & q & Hj & Hq). thread_cases; [|by eauto]. exists i, p. naive_solver.
Qed.

(** A step of thread [i] that neither claims, accepts, marks nor releases. *)
Lemma inv_move y i p p' :
  inv y → sy_threads y !! i = Some p → claims p' = claims p →
  (holds p' = holds p ∨ (holds p' = None ∧ ∀ rid, holds p ≠ Some (rid, true))) →
  inv {| sy_store := sy_store y; sy_threads := <[i := p']> (sy_threads y);
         sy_log := sy_log y ++ [] |}.
Proof.
  intros [H1 H2 H3 H4 H5 H6] Hi Hc Hh. rewrite app_nil_r. constructor; simpl; try done.
  - intros j q rid Hj Hq. thread_cases; [rewrite Hc in Hq|]; eauto.
  - intros rid Hr. destruct (H2 _ Hr) as (j & q & Hj & Hq).
    destruct (decide (i = j)) as [<-|]; [|by exists j, q; rewrite lookup_insert_ne].
    exists i, p'. rewrite lookup_insert_eq. split; congruence.
  - intros j k q r rid Hj Hk Hq Hr. thread_cases; rewrite ?Hc in *; eauto.
  - intros j q rid Hj Hq. thread_cases; [|by eauto].
    destruct Hh as [Hh|[Hh _]]; rewrite Hh in Hq; [by eauto|done].
  - intros rid. rewrite H5, (holder_after _ i p p' rid true Hi); [done|].
    destruct Hh as [->|[-> Hn]]; [done|]. split; [by intros ?%Hn|done].
Qed.

Lemma inv_claim y i p rid r k rows n row :
  inv y → sy_threads y !! i = Some p → claims p = None →
  rid ∉ st_claimed (sy_store y) → st_disps (sy_store y) !! rid = Some row →
  dr_delivered row = false →
  inv {| sy_store := claim rid (sy_store y);
         sy_threads := <[i := p_deliver rid r k rows n]> (sy_threads y);
         sy_log := sy_log y ++ [] |}.
Proof. clear sha1.
  intros [H1 H2 H3 H4 H5 H6] Hi Hp Hr Hrow Hd. rewrite app_nil_r.
  assert (∀ b, holds p ≠ Some b) as Hnh.
  { intros [x b] E. apply holds_claims in E. congruence. }
  constructor; simpl; try done.
  - intros j q rid' Hj Hq. thread_cases; simpl in *.
    + injection Hq as <-. split; [set_solver|by exists row].
    + destruct (H1 _ _ _ Hj Hq). split; [set_solver|done].
  - intros rid' Hr'. apply elem_of_union in Hr' as [Hr'|Hr'].
    + apply elem_of_singleton in Hr' as ->. eexists i, _. by rewrite lookup_insert_eq.
    + destruct (H2 _ Hr') as (j & q & Hj & Hq). exists j, q.
      rewrite lookup_insert_ne; [done|]. intros <-. congruence.
  - intros j l q q' rid' Hj Hl Hq Hq'. thread_cases; simpl in *; try done; [..|by eauto].
    + injection Hq' as <-. by destruct (H1 _ _ _ Hj Hq).
    + injection Hq as <-. by destruct (H1 _ _ _ Hl Hq').
  - intros j q rid' Hj Hq. thread_cases; simpl in *; [|by eauto]. injection Hq as <-.
    rewrite H5. intros [(row' & Hrow' & ?)|(j & q & Hj & Hq)]; [congruence|].
    apply holds_claims in Hq. by destruct (H1 _ _ _ Hj Hq).
  - intros rid'. rewrite H5, (holder_after _ i p (p_deliver rid r k rows n) rid' true Hi); [done|].
    simpl. split; [by intros ?%Hnh|done].
Qed.

Lemma inv_accept y i rid r k rows n :
  inv y → sy_threads y !! i = Some (p_deliver rid r k rows n) →
  inv {| sy_store := sy_store y; sy_threads := <[i := p_mark rid rows n]> (sy_threads y);
         sy_log := sy_log y ++ [rid] |}.
Proof.
  intros [H1 H2 H3 H4 H5 H6] Hi. constructor; simpl.
  - intros j q rid' Hj Hq. thread_cases; [|by eauto]. by apply (H1 i _ rid' Hi).
  - intros rid' Hr. destruct (H2 _ Hr) as (j & q & Hj & Hq).
    destruct (decide (i = j)) as [<-|]; [|by exists j, q; rewrite lookup_insert_ne].
    eexists i, _. rewrite lookup_insert_eq. split; [done|]. simpl. rewrite Hi in Hj. by simplify_eq.
  - intros j l q q' rid' Hj Hl Hq Hq'. thread_cases; simpl in *; try done; [..|by eauto].
    + by apply (H3 _ _ _ _ rid' Hj Hi).
    + by apply (H3 _ _ _ _ rid' Hi Hl).
  - intros j q rid' Hj Hq. thread_cases; simpl in *; [done|].
    rewrite elem_of_app, list_elem_of_singleton. intros [?| ->]; [by eapply H4|].
    apply holds_claims in Hq. assert (j = i); [|done]. by apply (H3 _ _ _ _ rid Hj Hi).
  - intros rid'. rewrite elem_of_app, list_elem_of_singleton, H5. split.
    + intros [[?|(j & q & Hj & Hq)]| ->]; [by left| |].
      * right. exists j, q. rewrite lookup_insert_ne; [done|]. intros <-. rewrite Hi in Hj.
        by simplify_eq.
      * right. eexists i, _. by rewrite lookup_insert_eq.
    + intros [?|(j & q & Hj & Hq)]; [by auto|]. thread_cases; simpl in *; [|by eauto 7].
      injection Hq as ->. by right.
  - apply NoDup_app. split_and!; [done| |apply NoDup_singleton].
    intros x Hx ->%list_elem_of_singleton. by apply (H4 i _ rid Hi).
Qed.

Lemma mark_lookup rid s id :
  st_disps (mark_delivered rid s) !! id =
  (if decide (id = rid) then (λ r, {| dr_case_id := dr_case_id r; dr_tenant := dr_tenant r;
     dr_record := dr_record r; dr_delivered := true |}) <$> st_disps s !! id
   else st_disps s !! id).
Proof.
  simpl. destruct (decide (id = rid)) as [->|]; [apply lookup_alter_eq|by apply lookup_alter_ne].
Qed.

Lemma delivered_mark rid s id :
  is_Some (st_disps s !! rid) → delivered (mark_delivered rid s) id ↔ delivered s id ∨ id = rid.
Proof. clear sha1.
  intros [row0 Hrow0]. unfold delivered. rewrite mark_lookup.
  destruct (decide (id = rid)) as [->|Hne]; [|naive_solver].
  rewrite Hrow0. simpl. split; [by right|]. intros _. eexists. split; done.
Qed.

Lemma inv_mark y i rid rows n m :
  inv y → sy_threads y !! i = Some (p_mark rid rows n) →
  inv {| sy_store := mark_delivered rid (sy_store y);
         sy_threads := <[i := p_release rid false rows m]> (sy_threads y);
         sy_log := sy_log y ++ [] |}.
Proof.
  intros [H1 H2 H3 H4 H5 H6] Hi. rewrite app_nil_r.
  assert (Hrow : is_Some (st_disps (sy_store y) !! rid)) by (by apply (H1 i _ rid Hi)).
  constructor; simpl; try done.
  - intros j q rid' Hj Hq. change (alter _ rid _) with (st_disps (mark_delivered rid (sy_store y))).
    rewrite mark_lookup.
    assert (rid' ∈ st_claimed (sy_store y) ∧ is_Some (st_disps (sy_store y) !! rid')) as [? ?].
    { thread_cases; [by apply (H1 i _ rid' Hi)|by eauto]. }
    split; [done|]. destruct (decide _); [by rewrite fmap_is_Some|done].
  - intros rid' Hr. destruct (H2 _ Hr) as (j & q & Hj & Hq).
    destruct (decide (i = j)) as [<-|]; [|by exists j, q; rewrite lookup_insert_ne].
    eexists i, _. rewrite lookup_insert_eq. split; [done|]. simpl. rewrite Hi in Hj. by simplify_eq.
  - intros j l q q' rid' Hj Hl Hq Hq'. thread_cases; simpl in *; try done; [..|by eauto].
    + by apply (H3 _ _ _ _ rid' Hj Hi).
    + by apply (H3 _ _ _ _ rid' Hi Hl).
  - intros j q rid' Hj Hq. thread_cases; simpl in *; [done|by eauto].
  - intros rid'. rewrite (delivered_mark rid (sy_store y) rid' Hrow), H5. split.
    + intros [?|(j & q & Hj & Hq)]; [by auto|]. destruct (decide (i = j)) as [<-|].
      * rewrite Hi in Hj. injection Hj as <-. injection Hq as <-. by left; right.
      * right. exists j, q. by rewrite lookup_insert_ne.
    + intros [[?| ->]|(j & q & Hj & Hq)]; [by auto| |].
      * right. by eexists i, _.
      * thread_cases; [done|by eauto].
Qed.

Lemma inv_release y i rid b rows n p' :
  inv y → sy_threads y !! i = Some (p_release rid b rows n) → claims p' = None →
  inv {| sy_store := unclaim rid (sy_store y); sy_threads := <[i := p']> (sy_threads y);
         sy_log := sy_log y ++ [] |}.
Proof.
  intros [H1 H2 H3 H4 H5 H6] Hi Hp. rewrite app_nil_r.
  assert (∀ x, holds p' ≠ Some x) as Hnh.
  { intros [x c] E. apply holds_claims in E. congruence. }
  constructor; simpl; try done.
  - intros j q rid' Hj Hq. thread_cases; [congruence|]. destruct (H1 _ _ _ Hj Hq). split; [|done].
    apply elem_of_difference. split; [done|]. intros ->%elem_of_singleton.
    assert (j = i); [|done]. by apply (H3 _ _ _ _ rid Hj Hi).
  - intros rid' [Hr Hne]%elem_of_difference. destruct (H2 _ Hr) as (j & q & Hj & Hq).
    exists j, q. rewrite lookup_insert_ne; [done|]. intros <-. rewrite Hi in Hj. simplify_eq.
    simpl in Hq. set_solver.
  - intros j l q q' rid' Hj Hl Hq Hq'. thread_cases; try congruence. by eauto.
  - intros j q rid' Hj Hq. thread_cases; [by apply Hnh in Hq|by eauto].
  - intros rid'. rewrite H5, (holder_after _ i _ p' rid' true Hi); [done|].
    simpl. split; [done|by intros ?%Hnh].
Qed.

Lemma inv_begin y i ten tenants :
  inv y → sy_threads y !! i = None →
  inv {| sy_store := sy_store y;
         sy_threads := <[i := drain_begin (sy_store y) ten tenants]> (sy_threads y);
         sy_log := sy_log y |}.
Proof.
  intros [H1 H2 H3 H4 H5 H6] Hi.
  assert (claims (drain_begin (sy_store y) ten tenants) = None) as Hc.
  { unfold drain_begin. by destruct (mem _ _). }
  assert (∀ x, holds (drain_begin (sy_store y) ten tenants) ≠ Some x) as Hnh.
  { intros [x c] E. apply holds_claims in E. congruence. }
  constructor; simpl; try done.
  - intros j q rid Hj Hq. thread_cases; [congruence|by eauto].
  - intros rid Hr. destruct (H2 _ Hr) as (j & q & Hj & Hq). exists j, q.
    rewrite lookup_insert_ne; [done|]. intros <-. congruence.
  - intros j l q q' rid Hj Hl Hq Hq'. thread_cases; try congruence. by eauto.
  - intros j q rid Hj Hq. thread_cases; [by apply Hnh in Hq|by eauto].
  - intros rid. rewrite H5. split; (intros [?|(j & q & Hj & Hq)]; [by auto|right]).
    + exists j, q. rewrite lookup_insert_ne; [done|]. intros <-. congruence.
    + thread_cases; [by apply Hnh in Hq|by eauto].
Qed.

Lemma inv_step max_attempts y y' : inv y → sys_step max_attempts y y' → inv y'.
Proof.
  intros Hinv Hstep. destruct Hstep as [c|cid tenants fn s o Hm|i ten tenants Hi|i p o s p' acc Hi Hd].
  - apply inv_grows; [done|apply create_grows].
  - eapply inv_grows; [done|by eapply mutate_grows].
  - by apply inv_begin.
  - destruct p as [[|[rid r] rows] n|rid r [|k] rows n|rid rows n|rid b rows n|n|]; simpl in Hd.
    + injection Hd as <- <- <-. by eapply inv_move; eauto.
    + destruct (decide _) as [|Hr]; [injection Hd as <- <- <-; by eapply inv_move; eauto|].
      destruct (st_disps _ !! rid) as [row|] eqn:E; [|injection Hd as <- <- <-; by eapply inv_move; eauto].
      destruct (dr_delivered row) eqn:Ed; injection Hd as <- <- <-; [by eapply inv_move; eauto|].
      by eapply inv_claim; eauto.
    + injection Hd as <- <- <-. eapply inv_move; eauto.
    + destruct o; injection Hd as <- <- <-.
      * by eapply inv_accept.
      * by eapply inv_move; eauto.
      * eapply inv_move; eauto.
    + injection Hd as <- <- <-. by eapply inv_mark.
    + injection Hd as <- <- <-. eapply inv_release; eauto. by destruct b.
    + injection Hd as <- <- <-. by eapply inv_move; eauto.
    + injection Hd as <- <- <-. by eapply inv_move; eauto.
Qed.

Lemma inv_init s : st_claimed s = ∅ → (∀ rid, ¬ delivered s rid) → inv (sys_init s).
Proof.
  intros Hc Hd. constructor; simpl; try by (intros *; rewrite ?lookup_empty).
  - intros rid. rewrite Hc. set_solver.
  - intros rid. split; [set_solver|]. intros [H|(i & p & H & _)]; [by apply Hd in H|].
    by rewrite lookup_empty in H.
  - constructor.
Qed.

Lemma inv_reachable max_attempts s y :
  st_claimed s = ∅ → (∀ rid, ¬ delivered s rid) →
  rtc (sys_step max_attempts) (sys_init s) y → inv y.
Proof.
  intros Hc Hd H. assert (Hi : inv (sys_init s)) by by apply inv_init.
  induction H as [|x y z Hxy _ IH]; [done|]. apply IH. by eapply inv_step.
Qed.

(** *** A drain that runs alone *)

(** Steps a drain can still take when nobody interferes. *)
Definition budget (m : nat) (p : pc) : nat :=
  match p with
  | p_next rows _ => S (length rows * (m + 3))
  | p_deliver _ _ k rows _ => k + 3 + length rows * (m + 3)
  | p_mark _ rows _ => 3 + length rows * (m + 3)
  | p_release _ _ rows _ => 2 + length rows * (m + 3)
  | p_done _ | p_raised => 0
  end.

Lemma drain_step_budget m s p o s' p' acc :
  drain_step m s p o = (s', p', acc) → finished p = false → (budget m p' < budget m p)%nat.
Proof.
  destruct p as [[|[rid r] rows] n|rid r [|k] rows n|rid rows n|rid b rows n|n|]; simpl;
    intros H Hf; try done;
    repeat match goal with
    | H : (if ?b then _ else _) = _ |- _ => destruct b
    | H : match ?x with _ => _ end = _ |- _ => destruct x
    end; injection H as <- <- <-; try destruct b; simpl; lia.
Qed.

Lemma drain_run_finishes m fuel oracle s p log :
  (budget m p <= fuel)%nat → is_Some (drain_run m fuel oracle s p log).
Proof.
  revert s p log; induction fuel as [|fuel IH]; intros s p log Hb.
  - destruct p; simpl in Hb; try lia; eexists; reflexivity.
  - destruct (finished p) eqn:Hf; [destruct p; try done; eexists; reflexivity|].
    destruct (drain_step m s p (oracle fuel)) as [[s' p'] acc] eqn:E.
    pose proof (drain_step_budget _ _ _ _ _ _ _ E Hf) as Hlt.
    destruct p; simpl in Hf; try done; cbn [drain_run]; rewrite E; apply IH; lia.
Qed.

Definition mark_all (ids : list string) (s : store) : store :=
  foldl (λ s id, mark_delivered id s) s ids.

Lemma unclaim_mark_claim rid s :
  st_claimed s = ∅ → unclaim rid (mark_delivered rid (claim rid s)) = mark_delivered rid s.
Proof. clear sha1.
  intros Hc. unfold unclaim, mark_delivered, claim. simpl. rewrite Hc. f_equal. set_solver.
Qed.

Lemma drain_run_accepting m fuel oracle s rows n log :
  (∀ i, oracle i = accepted) → (0 < m)%nat → st_claimed s = ∅ →
  NoDup (fst <$> rows) →
  (∀ kv, kv ∈ rows → ∃ row, st_disps s !! kv.1 = Some row ∧ dr_delivered row = false) →
  (budget m (p_next rows n) <= fuel)%nat →
  drain_run m fuel oracle s (p_next rows n) log =
    Some (mark_all (fst <$> rows) s, Some (n + Z.of_nat (length rows)), log ++ (fst <$> rows)).
Proof. clear sha1.
  intros Ho Hm. revert fuel s n log.
  induction rows as [|[rid r] rows IH]; intros fuel s n log Hc Hnd Hrows Hb; simpl in Hb.
  - destruct fuel as [|fuel]; [lia|]. simpl. rewrite !app_nil_r.
    destruct fuel; simpl; rewrite Z.add_0_r; reflexivity.
  - pose proof (Nat.le_0_l (length rows * (m + 3))).
    do 4 (destruct fuel as [|fuel]; [lia|]). destruct m as [|m]; [lia|].
    destruct (Hrows (rid, r)) as (row & Hrow & Hd); [set_solver|]. simpl in Hrow.
    cbn [drain_run drain_step]. rewrite decide_False by set_solver.
    rewrite Hrow, Hd. cbn [drain_run drain_step]. rewrite Ho. cbn [drain_run drain_step].
    rewrite unclaim_mark_claim by done.
    apply NoDup_cons in Hnd as [Hnin Hnd]. rewrite !app_nil_r, IH.
    + simpl. rewrite <- app_assoc.
      replace (n + 1 + Z.of_nat (length rows)) with (n + Z.of_nat (S (length rows))) by lia. done.
    + done.
    + done.
    + intros kv Hkv. destruct (Hrows kv) as (row' & Hrow' & Hd'); [set_solver|].
      exists row'. rewrite mark_lookup, decide_False; [done|].
      intros E. apply Hnin. apply list_elem_of_fmap. by exists kv.
    + simpl. lia.
Qed.

Lemma sorted_rows_elem {A} (m : gmap string A) k v : (k, v) ∈ sorted_rows m ↔ m !! k = Some v.
Proof. unfold sorted_rows. by rewrite elem_of_isort, elem_of_map_to_list. Qed.

Lemma sorted_rows_NoDup {A} (m : gmap string A) : NoDup (fst <$> sorted_rows m).
Proof.
  unfold sorted_rows. rewrite isort_perm. apply NoDup_fst_map_to_list.
Qed.

Lemma undelivered_elem s ten id r :
  (id, r) ∈ undelivered s ten ↔
  ∃ row, st_disps s !! id = Some row ∧ dr_tenant row = ten ∧ dr_delivered row = false ∧
         dr_record row = r.
Proof.
  unfold undelivered. rewrite list_elem_of_omap. split.
  - intros ([k row] & Hin & H). simpl in H. apply sorted_rows_elem in Hin.
    destruct (String.eqb_spec (dr_tenant row) ten); [|done].
    destruct (dr_delivered row) eqn:Ed; [done|]. injection H as <- <-. eauto.
  - intros (row & Hrow & Ht & Hd & <-). exists (id, row). split; [by apply sorted_rows_elem|].
    simpl. rewrite Ht, String.eqb_refl, Hd. done.
Qed.

(** A selection that keeps the key of each row keeps the keys distinct. *)
Lemma NoDup_omap_key {A B} (g : string * A → option (string * B)) (l : list (string * A)) :
  (∀ kv kb, g kv = Some kb → kb.1 = kv.1) →
  NoDup (fst <$> l) → NoDup (fst <$> omap g l).
Proof.
  intros Hg. induction l as [|kv l IH]; simpl; [done|]. intros [Hk Hl]%NoDup_cons.
  destruct (g kv) as [kb|] eqn:E; simpl; [|by apply IH]. apply NoDup_cons. split; [|by apply IH].
  intros Hin. apply Hk. rewrite <- (Hg _ _ E).
  apply list_elem_of_fmap in Hin as (kb' & -> & Hin).
  apply list_elem_of_omap in Hin as (kv2 & Hin & H).
  rewrite (Hg _ _ H). by apply list_elem_of_fmap_2.
Qed.

Lemma undelivered_NoDup s ten : NoDup (fst <$> undelivered s ten).
Proof.
  unfold undelivered. apply NoDup_omap_key; [|apply sorted_rows_NoDup].
  intros [k row] kb. simpl. destruct (_ && _); [|done]. by intros [= <-].
Qed.

Lemma mark_all_lookup ids s id :
  st_disps (mark_all ids s) !! id =
  (if decide (id ∈ ids) then (λ r, {| dr_case_id := dr_case_id r; dr_tenant := dr_tenant r;
     dr_record := dr_record r; dr_delivered := true |}) <$> st_disps s !! id
   else st_disps s !! id).
Proof. clear sha1.
  revert s; induction ids as [|i ids IH]; intros s; simpl; [done|].
  rewrite IH, mark_lookup.
  destruct (decide (id = i)) as [->|]; repeat case_decide; try done; try set_solver.
  by destruct (st_disps s !! i).
Qed.

(** *** The tenant column *)

Definition tenant_column (s : store) : Prop :=
  ∀ cid t c, st_cases s !! cid = Some (t, c) → t = tenant c.

Inductive writes (s : store) : store → Prop :=
| writes_create c : writes s (create s c).1
| writes_mutate cid tenants fn s' o : mutate s cid tenants fn = Ok (s', o) → writes s s'.

Lemma mutate_inv s cid tenants fn s' o :
  mutate s cid tenants fn = Ok (s', o) →
  (s' = s ∧ o = None ∧ ∀ t c, st_cases s !! cid = Some (t, c) → t ∉ tenants) ∨
  ∃ t c new rs, st_cases s !! cid = Some (t, c) ∧ t ∈ tenants ∧ fn c = Ok (new, rs) ∧
    tenant new = t ∧ o = Some new ∧ st_cases s' = <[cid := (t, new)]> (st_cases s) ∧
    st_disps s' = foldl (enqueue cid (length (audit new)) t) (st_disps s) rs ∧
    st_claimed s' = st_claimed s.
Proof.
  unfold mutate. destruct (st_cases s !! cid) as [[t c]|]; [|intros [= <- <-]; naive_solver].
  destruct (mem t tenants) eqn:E.
  2:{ apply mem_false in E. intros [= <- <-]. naive_solver. }
  apply mem_true in E. intros H. apply bind_ok_inv in H as ([new rs] & Hfn & H). inv_ok.
  apply String.eqb_eq in Hm as <-. right. eauto 15.
Qed.

Lemma writes_tenant s s' : tenant_column s → writes s s' → tenant_column s'.
Proof.
  intros Hs [c|cid tenants fn s2 o H].
  - unfold create. destruct (st_cases s !! case_id c) eqn:E; [done|].
    intros cid t c'. simpl. intros [[_ [= <- <-]]|[_ H]]%lookup_insert_Some; [done|by eapply Hs].
  - apply mutate_inv in H as [(-> & _ & _)|(t & c & new & rs & _ & _ & _ & Ht & _ & Hc & _)]; [done|].
    intros k t' c'. rewrite Hc. intros [[_ [= <- <-]]|[_ H]]%lookup_insert_Some; [done|by eapply Hs].
Qed.
End store.

(** ** The identity of a disposition event *)

Fixpoint no_nul (s : string) : Prop :=
  match s with EmptyString => True | String c s => c ≠ zero ∧ no_nul s end.

Lemma app_nul_inj s t a b :
  no_nul s → no_nul t → (s +:+ nul +:+ a = t +:+ nul +:+ b)%string → s = t.
Proof.
  revert t; induction s as [|c s IH]; intros [|d t]; simpl; try done.
  - intros _ [Hd _] [= <- _]. done.
  - intros [Hc _] _ [= -> _]. done.
  - intros [_ Hs] [_ Ht] [= <- H]. f_equal. eauto.
Qed.

Lemma pretty_go_no_nul x s : no_nul s → no_nul (pretty_N_go x s).
Proof.
  revert s. induction (N.lt_wf_0 x) as [x _ IH]. intros s Hs.
  destruct (decide (x = 0)%N) as [->|Hx]; [by rewrite pretty_N_go_0|].
  rewrite pretty_N_go_step by lia. apply IH; [apply N.div_lt; lia|].
  split; [|done]. unfold pretty_N_char. destruct (x `mod` 10)%N as [|p]; [done|].
  repeat (destruct p as [p|p|]; try done).
Qed.

Lemma pretty_nat_no_nul (n : nat) : no_nul (pretty (N.of_nat n)).
Proof.
  unfold pretty, pretty_N. case_decide; [done|]. by apply pretty_go_no_nul.
Qed.


(** ** Properties *)

(** C3. Exactly once under concurrency: with any number of overlapping drains,
    creations and mutations, interleaved at the granularity of the store's lock, no
    disposition is ever accepted twice by the consumer.  When all drains are over
    (returned or interrupted), no claim is left, and the delivered rows are exactly
    the accepted ones, so an interrupted drain leaves its rows for the next one. *)
Theorem drain_exactly_once sha1 dumps m s y :
  st_claimed s = ∅ → (∀ rid, ¬ delivered s rid) →
  rtc (sys_step sha1 dumps m) (sys_init s) y →
  NoDup (sy_log y) ∧
  (map_Forall (λ _ p, finished p = true) (sy_threads y) →
   st_claimed (sy_store y) = ∅ ∧ ∀ rid, rid ∈ sy_log y ↔ delivered (sy_store y) rid).
Proof.
  intros Hc Hd H. apply inv_reachable in H as [H1 H2 H3 H4 H5 H6]; [|done..].
  split; [done|]. intros Hfin.
  assert (∀ i p, sy_threads y !! i = Some p → claims p = None) as Hnone.
  { intros i p Hi%Hfin. by destruct p. }
  split.
  - apply set_eq. intros rid. split; [|set_solver].
    intros (i & p & Hi & Hp)%H2. apply Hnone in Hi. congruence.
  - intros rid. rewrite H5. split; [|by left]. intros [?|(i & p & Hi & Hp)]; [done|].
    apply holds_claims in Hp. apply Hnone in Hi. congruence.
Qed.

Definition constant_hash : string → string := λ s, s.
Definition plain_dumps : val → string := py_str (λ _, "{}").
Definition record_for (fid : string) : disposition :=
  {| d_finding_id := fid; d_entity := VStr "10.0.0.5"; d_verdict := "benign";
     d_reason := VStr "scan"; d_analyst := VStr "ann"; d_tenant := "acme"; d_ts := VStr "t9";
     d_scope := "finding" |}.
Definition store_with (fids : list string) : store :=
  match mutate constant_hash plain_dumps (create empty_store resolved_case).1 "c1" ["acme"]
          (λ c, Ok (c, record_for <$> fids)) with
  | Ok (s, _) => s | Raise _ => empty_store end.
Definition begun (i : nat) (y : sys) : sys :=
  {| sy_store := sy_store y;
     sy_threads := <[i := drain_begin (sy_store y) "acme" ["acme"]]> (sy_threads y);
     sy_log := sy_log y |}.
Definition two_drains : sys := begun 1 (begun 0 (sys_init (store_with ["f1"]))).

Lemma drain_exactly_once_witness : NoDup (sy_log two_drains).
Proof.
  apply (drain_exactly_once constant_hash plain_dumps 3 (store_with ["f1"]) two_drains).
  - reflexivity.
  - assert (map_Forall (λ _ row, dr_delivered row = false) (st_disps (store_with ["f1"]))) as Hf
      by (apply (bool_decide_unpack _); vm_compute; exact I).
    intros rid (row & Hrow%Hf & Hd). congruence.
  - eapply rtc_l; [|apply rtc_once].
    + exact (sys_begin constant_hash plain_dumps 3 (sys_init (store_with ["f1"])) 0 "acme"
               ["acme"] eq_refl).
    + exact (sys_begin constant_hash plain_dumps 3 (begun 0 (sys_init (store_with ["f1"]))) 1
               "acme" ["acme"] eq_refl).
Defined.

(** A drain always ends, whatever the consumer does at each attempt: each row
    costs at most [max_attempts + 3] atomic parts. *)
Theorem drain_terminates m fuel oracle s ten tenants :
  (length (undelivered s ten) * (m + 3) < fuel)%nat →
  is_Some (drain_dispositions m fuel oracle s ten tenants).
Proof.
  intros Hf. unfold drain_dispositions, drain_begin. apply drain_run_finishes.
  destruct (mem ten tenants); simpl; lia.
Qed.

Lemma drain_terminates_witness :
  is_Some (drain_dispositions 3 20 (λ _, failed) (store_with ["f1"; "f2"]) "acme" ["acme"]).
Proof. apply drain_terminates. vm_compute. lia. Defined.

(** A drain alone with a consumer that accepts delivers the whole outbox of the
    tenant: it offers each undelivered record once, in the order of the ids, returns
    their number, and leaves nothing pending; other rows keep their content. *)
Theorem drain_empties_outbox m fuel oracle s ten tenants :
  st_claimed s = ∅ → (0 < m)%nat → (∀ i, oracle i = accepted) → ten ∈ tenants →
  (length (undelivered s ten) * (m + 3) < fuel)%nat →
  ∃ s', drain_dispositions m fuel oracle s ten tenants =
      Some (s', Some (Z.of_nat (length (undelivered s ten))), fst <$> undelivered s ten) ∧
    pending_dispositions s' ten tenants = [] ∧
    (∀ id, id ∉ fst <$> undelivered s ten → st_disps s' !! id = st_disps s !! id).
Proof.
  intros Hc Hm Ho Ht Hf. apply mem_true in Ht.
  exists (mark_all (fst <$> undelivered s ten) s). split_and!.
  - unfold drain_dispositions, drain_begin. rewrite Ht.
    rewrite drain_run_accepting; try done; simpl; [apply undelivered_NoDup|].
    intros [id r] (row & ? & _ & ? & _)%undelivered_elem. by exists row.
  - unfold pending_dispositions. rewrite Ht.
    destruct (undelivered (mark_all _ s) ten) as [|[id r] l] eqn:E; [done|].
    assert (Hin : (id, r) ∈ undelivered (mark_all (fst <$> undelivered s ten) s) ten)
      by (rewrite E; set_solver).
    apply undelivered_elem in Hin as (row & Hrow & Hten & Hd & _).
    rewrite mark_all_lookup in Hrow. case_decide as Hid.
    + apply fmap_Some in Hrow as (row0 & _ & ->). done.
    + exfalso. apply Hid. apply list_elem_of_fmap. exists (id, dr_record row).
      split; [done|]. apply undelivered_elem. by exists row.
  - intros id Hid. by rewrite mark_all_lookup, decide_False.
Qed.

Lemma drain_empties_outbox_witness :
  ∃ s', drain_dispositions 3 20 (λ _, accepted) (store_with ["f1"; "f2"]) "acme" ["acme"] =
    Some (s', Some 2, fst <$> undelivered (store_with ["f1"; "f2"]) "acme").
Proof.
  destruct (drain_empties_outbox 3 20 (λ _, accepted) (store_with ["f1"; "f2"]) "acme" ["acme"])
    as (s' & Hs' & _); [reflexivity|lia|reflexivity|set_solver|vm_compute; lia|].
  exists s'. exact Hs'.
Defined.

(** Tenant isolation: in every store that creations and mutations can build, a
    read returns only cases of a granted tenant, a listing only cases of the one
    selected and granted tenant, and a mutation outside the grants (or that would
    move the case to another tenant) changes nothing. *)
Theorem case_store_isolation sha1 dumps s :
  rtc (writes sha1 dumps) empty_store s →
  (∀ cid tenants c, get s cid tenants = Some c → tenant c ∈ tenants) ∧
  (∀ ten tenants c, c ∈ list_cases s ten tenants → tenant c = ten ∧ ten ∈ tenants) ∧
  (∀ cid tenants fn s' o t c, st_cases s !! cid = Some (t, c) → tenant c ∉ tenants →
     mutate sha1 dumps s cid tenants fn = Ok (s', o) → s' = s ∧ o = None) ∧
  (∀ cid tenants fn s' c new, get s cid tenants = Some c →
     mutate sha1 dumps s cid tenants fn = Ok (s', Some new) → tenant new = tenant c).
Proof.
  intros H. assert (Hcol : tenant_column s).
  { assert (H0 : tenant_column empty_store) by (intros cid t c; simpl; by rewrite lookup_empty).
    clear -H H0. induction H as [|x y z Hxy _ IH]; [done|]. apply IH. by eapply writes_tenant. }
  split_and!.
  - unfold get. intros cid tenants c. destruct (st_cases s !! cid) as [[t c']|] eqn:E; [|done].
    destruct (mem t tenants) eqn:Em; [|done]. intros [= <-].
    rewrite <- (Hcol _ _ _ E). by apply mem_true.
  - unfold list_cases. intros ten tenants c. destruct (mem ten tenants) eqn:Em; [|set_solver].
    apply mem_true in Em. intros ([k [t c']] & Hin & Hg)%list_elem_of_omap.
    apply sorted_rows_elem, Hcol in Hin. simpl in Hg.
    destruct (String.eqb_spec t ten) as [<-|]; [|done]. injection Hg as <-. done.
  - intros cid tenants fn s' o t c Hc Hn Hm. pose proof (Hcol _ _ _ Hc) as ->.
    apply mutate_inv in Hm as [(-> & -> & _)|(t & c' & new & rs & Hc' & Ht & _)]; [done|].
    rewrite Hc in Hc'. by injection Hc' as <- <-.
  - intros cid tenants fn s' c new Hg Hm.
    apply mutate_inv in Hm as [(_ & ? & _)|(t & c' & new' & rs & Hc & _ & _ & Ht & Hn & _)]; [done|].
    injection Hn as <-. unfold get in Hg. rewrite Hc in Hg. pose proof (Hcol _ _ _ Hc) as Ht'.
    destruct (mem t tenants); [|done]. injection Hg as <-. congruence.
Qed.

Lemma case_store_isolation_witness :
  tenant resolved_case ∈ ["acme"].
Proof.
  apply (case_store_isolation constant_hash plain_dumps (create empty_store resolved_case).1)
    with (cid := "c1"); [apply rtc_once, writes_create|]. vm_compute. reflexivity.
Defined.

(** A mutation commits the case and its dispositions together: it stores exactly
    what the change returned, touches no other case, gives every record a row in the
    outbox, never rewrites a row that is already there (a delivered one stays
    delivered), and every row it adds is undelivered and of the case's tenant. *)
Theorem mutate_commits sha1 dumps s cid tenants fn s' new :
  mutate sha1 dumps s cid tenants fn = Ok (s', Some new) →
  ∃ c rs, st_cases s !! cid = Some (tenant new, c) ∧ fn c = Ok (new, rs) ∧
    st_cases s' = <[cid := (tenant new, new)]> (st_cases s) ∧
    (∀ r, r ∈ rs → is_Some (st_disps s' !! _disp_id sha1 dumps cid (length (audit new)) r)) ∧
    (∀ id row, st_disps s !! id = Some row → st_disps s' !! id = Some row) ∧
    (∀ id row, st_disps s' !! id = Some row → st_disps s !! id = None →
       dr_delivered row = false ∧ dr_tenant row = tenant new ∧ dr_record row ∈ rs).
Proof.
  intros Hm. apply mutate_inv in Hm
    as [(_ & ? & _)|(t & c & new' & rs & Hc & _ & Hfn & <- & Hn & Hcs & Hds & _)]; [done|].
  injection Hn as ->. exists c, rs. rewrite Hds. split_and!; try done.
  - intros r Hr. by apply enqueue_all_in.
  - intros id row. apply enqueue_all_keeps.
  - intros id row Hrow Hno. apply enqueue_all_new in Hrow. naive_solver.
Qed.

Lemma mutate_commits_witness :
  is_Some (st_disps (store_with ["f1"]) !!
           _disp_id constant_hash plain_dumps "c1" (length (audit resolved_case)) (record_for "f1")).
Proof.
  destruct (mutate_commits constant_hash plain_dumps (create empty_store resolved_case).1 "c1"
    ["acme"] (λ c, Ok (c, [record_for "f1"])) (store_with ["f1"]) resolved_case)
    as (c & rs & _ & Hfn & _ & Hin & _); [vm_compute; reflexivity|].
  injection Hfn as _ <-. apply Hin. set_solver.
Defined.

(** Two dispositions of one case that land at different audit sequences have
    different keys, whatever their payload: a re-resolution is never mistaken for a
    replay of an earlier one (up to a collision of the hash). *)
Theorem disposition_event_identity dumps cid seq1 seq2 r1 r2 :
  disp_key dumps cid seq1 r1 = disp_key dumps cid seq2 r2 → seq1 = seq2.
Proof.
  unfold disp_key, join. cbn [String.concat]. intros H%append_cancel_l%append_cancel_l.
  apply app_nul_inj in H; [|apply pretty_nat_no_nul..].
  apply (inj pretty) in H. lia.
Qed.

Lemma disposition_event_identity_witness :
  length (audit resolved_case) = length (audit resolved_case).
Proof.
  exact (disposition_event_identity plain_dumps "c1" _ _ (record_for "f1") (record_for "f1")
           eq_refl).
Defined.
