(* ===== verification/CaseApi.v ===== *)
(** * The case API (services/finding-service/app.py)

    The HTTP handler over the case store: the bearer token selects one server-owned session,
    which fixes the tenant and the actor; each request is one function of the store, its
    outcome a response.  A mutation's last audit event carries the hashes of the case before
    and after it.  The clock, the ids, the body and whether the database answers are fields
    of the request. *)

From S2P Require Import Prelude Order PyVal FindingLifecycle Cases CaseStore.
Set Default Proof Using "Type".

Inductive command := GET | POST | DELETE.
#[global] Instance command_eq_dec : EqDecision command.
Proof. solve_decision. Defined.
Record request := {
  rq_command : command; rq_auth : option string; rq_path : string;
  rq_lengths : list string; rq_transfer : option string; rq_read : Z → res string;
  rq_now : float; rq_ts : string; rq_uuid : nat → string; rq_ip : string;
  rq_reads : bool; rq_writes : bool
}.
Inductive response :=
| failure (code : Z) (message : string)
| page (cases : list case) (limit offset : Z) (next_offset : option Z)
| document (code : Z) (c : case).

(** [string(value, maximum)], and with [nullable]. *)
Definition string_arg (value : val) (maximum : nat) : res string :=
  match value with
  | VStr s => check (str_truthy (strip s) && (String.length s <=? maximum)%nat) ValueError;; Ok s
  | _ => Raise ValueError
  end.
Definition nullable_arg (value : val) (maximum : nat) : res (option string) :=
  match value with VNone => Ok None | _ => s ← string_arg value maximum; Ok (Some s) end.

(** ** Documents and their hashes *)

Definition note_val (n : note) : val :=
  VDict [("author", VStr (note_author n)); ("text", VStr (note_text n)); ("ts", VStr (note_ts n))].
Definition audit_val (e : audit_event) : val :=
  VDict ([("event", VStr (ev_event e)); ("actor", VStr (ev_actor e)); ("ts", VStr (ev_ts e))] ++
         match ev_detail e with [] => [] | d => [("detail", VDict d)] end).
Definition case_doc (c : case) : dict :=
  [("case_id", VStr (case_id c)); ("tenant", VStr (tenant c)); ("title", VStr (title c)); ("owner", opt_val (owner c));
   ("assignees", VList (VStr <$> assignees c)); ("status", VStr (status c)); ("notes", VList (note_val <$> notes c));
   ("linked_findings", VList (VStr <$> linked_findings c)); ("linked_entities", VList (linked_entities c));
   ("created", VStr (created c)); ("updated", VStr (updated c)); ("audit", VList (audit_val <$> audit c))].

Section api.
Context (sha1 sha256 : string → string) (dumps : val → string) (loads : string → res val)
  (urlsplit : string → res (string * string)) (parse_qs : string → list (string * list string)).

Definition digest (doc : dict) : string :=
  sha256 (dumps (match doc with
                 | [] => VNone
                 | _ => VDict (List.filter (λ kv, negb (String.eqb kv.1 "audit")) doc)
                 end)).
Definition set_audit (es : list audit_event) (c : case) : case :=
  {| case_id := case_id c; tenant := tenant c; title := title c; owner := owner c;
     assignees := assignees c; status := status c; notes := notes c;
     linked_findings := linked_findings c; linked_entities := linked_entities c;
     created := created c; updated := updated c; audit := es |}.

(** ** Sessions *)

Definition reached (now : float) (expiry : Z + float) : bool :=
  match num_cmp (inr now) expiry with Some Gt | Some Eq => true | _ => false end.
(** A finite number the clock has not reached; an integer no float can hold raises. *)
Definition live (expiry : val) (now : float) : res bool :=
  match expiry with
  | VInt z => float_of_Z z;; Ok (negb (reached now (inl z)))
  | VFloat f => Ok (is_finite f && negb (reached now (inr f)))
  | _ => Ok false
  end.
Record identity := { id_tenant : string; id_actor : string; id_write : bool }.
Definition authenticate (sessions : dict) (rq : request) : res (option identity) :=
  let auth := default "" (rq_auth rq) in
  match (if starts_with "Bearer " auth then dgetN (drop_chars 7 auth) sessions else VNone) with
  | VDict session =>
      ok ← live (dgetN "expires_at" session) (rq_now rq);
      Ok (if ok : bool then
            match string_arg (dgetN "tenant" session) 256, string_arg (dgetN "analyst" session) 256 with
            | Ok t, Ok a => Some {| id_tenant := t; id_actor := a;
                                    id_write := match dget "case_write" session with Some (VBool true) => true | _ => false end |}
            | _, _ => None
            end
          else None)
  | _ => Ok None
  end.

(** ** Reads *)

(** [json_extract(doc, '$.field')] of the two fields a listing filters on. *)
Definition case_field (field : string) (c : case) : option string :=
  if String.eqb field "owner" then owner c else Some (status c).
Definition matches (clauses : list (string * string)) (c : case) : bool :=
  forallb (λ fv, bool_decide (case_field fv.1 c = Some fv.2)) clauses.
Definition select (s : store) (ten : string) (clauses : list (string * string)) : list case :=
  List.filter (matches clauses)
    (omap (λ kv, if String.eqb kv.2.1 ten then Some kv.2.2 else None) (sorted_rows (st_cases s))).
Definition int_param (name : string) (preset : Z) (query : list (string * list string)) : res Z :=
  match assoc name query with Some (x :: _) => required (parse_int x) | _ => Ok preset end.
Definition clause (field : string) (query : list (string * list string)) : res (list (string * string)) :=
  match assoc field query with
  | Some (x :: _) =>
      value ← string_arg (VStr x) 256;
      check (negb (String.eqb field "status" && negb (mem value CASE_TRANSITIONS.*1))) ValueError;;
      Ok [(field, value)]
  | _ => Ok []
  end.
Definition list_page (s : store) (rq : request) (who : identity) (query : list (string * list string)) : res response :=
  limit ← int_param "limit" 50 query;
  offset ← int_param "offset" 0 query;
  check ((1 <=? limit) && (limit <=? 200) && ((0 <=? offset) && (offset <=? 1000000))) ValueError;;
  owners ← clause "owner" query;
  states ← clause "status" query;
  check (rq_reads rq) OtherError;;
  let rows := take (Z.to_nat (limit + 1)) (drop (Z.to_nat offset) (select s (id_tenant who) (owners ++ states))) in
  Ok (page (take (Z.to_nat limit) rows) limit offset
        (if limit <? Z.of_nat (length rows) then Some (offset + limit) else None)).
Definition found (code : Z) (o : option case) : response :=
  match o with Some c => document code c | None => failure 404 "not found" end.
Definition read_cases (s : store) (rq : request) (who : identity) (parts : list string)
    (query : list (string * list string)) : res response :=
  match parts with
  | [_] => list_page s rq who query
  | [_; cid] => check (rq_reads rq) OtherError;; Ok (found 200 (get s cid [id_tenant who]))
  | _ => Ok (failure 404 "not found")
  end.

(** ** Writes *)

Definition payload (rq : request) : res dict :=
  length ← (match rq_lengths rq with
            | [l] => if ostr_truthy (rq_transfer rq) then Raise ValueError else required (parse_int l)
            | _ => Raise ValueError
            end);
  check ((0 <? length) && (length <=? 65536)) ValueError;;
  text ← rq_read rq length;
  body ← loads text;
  match body with VDict d => Ok d | _ => Raise ValueError end.

(** [[None]] stands for the document a case has before it exists. *)
Definition before_doc (before : option case) : dict :=
  match before with Some c => case_doc c | None => [("audit", VList [])] end.
Definition before_audit (before : option case) : list audit_event :=
  match before with Some c => audit c | None => [] end.
Definition stamp (rq : request) (k : nat) (who : identity) (before : option case) (after : case) (e : audit_event) : audit_event :=
  _audit (ev_event e) (ev_actor e) (ev_ts e)
    (foldl (λ d kv, dset kv.1 kv.2 d) (ev_detail e)
       [("audit_id", VStr (rq_uuid rq k)); ("tenant", VStr (id_tenant who)); ("resource_type", VStr "case");
        ("resource_id", VStr (case_id after)); ("before_hash", VStr (digest (before_doc before)));
        ("after_hash", VStr (digest (case_doc after))); ("request_id", VStr (rq_uuid rq (S k)));
        ("source_ip", VStr (rq_ip rq)); ("outcome", VStr "success")]).
Fixpoint on_last {A} (f : A → A) (l : list A) : list A :=
  match l with [] => [] | [x] => [f x] | x :: l => x :: on_last f l end.
(** A request that changed nothing is recorded too; [k] ids are taken. *)
Definition audited (rq : request) (k : nat) (who : identity) (before : option case) (after : case) (event : string) : case :=
  let after :=
    if (length (audit after) =? length (before_audit before))%nat
    then _touch after (_audit event (id_actor who) (rq_ts rq) [("noop", VBool true)]) else after in
  set_audit (on_last (stamp rq k who before after) (audit after)) after.

Definition create_case (s : store) (rq : request) (who : identity) (body : dict) : res (store * response) :=
  check (forallb (λ kv, mem kv.1 ["title"; "owner"]) body && dhas "title" body) ValueError;;
  title ← string_arg (dgetN "title" body) 1024;
  owner ← nullable_arg (dget_or "owner" (VStr (id_actor who)) body) 256;
  let doc := audited rq 1 who None
    (new_case (rq_uuid rq 0) (id_tenant who) title owner (id_actor who) (rq_ts rq)) "created" in
  check (rq_writes rq) OtherError;;
  let '(s, made) := create s doc in
  Ok (s, if made : bool then document 201 doc else failure 409 "case already exists").

Definition text_of (v : val) : string := match v with VStr s => s | _ => "" end.
Definition owner_of (v : val) : option string := match v with VStr s => Some s | _ => None end.
Definition routes : list ((command * string) * (string * (val → case_op) * string)) := [
  ((POST, "owner"), ("owner", λ v, op_change_owner (owner_of v), "owner_changed"));
  ((POST, "assign"), ("assignee", λ v, op_assign (text_of v), "assignee_added"));
  ((DELETE, "assign"), ("assignee", λ v, op_unassign (text_of v), "assignee_removed"));
  ((POST, "notes"), ("text", λ v, op_add_note (text_of v), "note_added"));
  ((POST, "status"), ("status", λ v, op_transition (text_of v), "status_changed"));
  ((POST, "findings"), ("finding_id", λ v, op_link_finding (text_of v), "finding_linked"));
  ((DELETE, "findings"), ("finding_id", λ v, op_unlink_finding (text_of v), "finding_unlinked"));
  ((POST, "entities"), ("entity", op_link_entity, "entity_linked"));
  ((DELETE, "entities"), ("entity", op_unlink_entity, "entity_unlinked"))].
Definition route_of (parts : list string) (cmd : command) : option (string * (val → case_op) * string) :=
  match parts with
  | [_; _; action] => snd <$> find (λ r, bool_decide (r.1 = (cmd, action))) routes
  | _ => None
  end.
Definition check_value (field : string) (value : val) : res unit :=
  if String.eqb field "entity" then
    match value with
    | VDict d =>
        check (forallb (λ kv, mem kv.1 ["type"; "value"]) d && dhas "type" d && dhas "value" d &&
               val_in_strs (dgetN "type" d) ["ip"; "hostname"; "domain"; "asset"]) ValueError;;
        string_arg (dgetN "value" d) 512;; Ok tt
    | _ => Raise ValueError
    end
  else if String.eqb field "owner" then nullable_arg value 256;; Ok tt
  else string_arg value (if String.eqb field "text" then 8192 else 256);; Ok tt.
Definition mutate_case (s : store) (rq : request) (who : identity) (cid : string)
    (route : string * (val → case_op) * string) (body : dict) : res (store * response) :=
  let '(field, op, event) := route in
  check (forallb (λ kv, String.eqb kv.1 field) body) ValueError;;
  value ← (match dget field body with Some v => Ok v | None => Raise ValueError end);
  check_value field value;;
  check (rq_reads rq) OtherError;;
  done ← mutate sha1 dumps s cid [id_tenant who] (λ doc,
    changed ← apply_op doc (op value) (id_actor who) (rq_ts rq);
    Ok (audited rq 0 who (Some doc) changed event, []));
  check (rq_writes rq || bool_decide (done.2 = None)) OtherError;;
  Ok (done.1, found 200 done.2).

(** ** The handler *)

Definition path_parts (path : string) : list string := split_char "/" (strip_by (Ascii.eqb "/") path).
Definition serve (sessions : dict) (s : store) (rq : request) : res (store * response) :=
  session ← authenticate sessions rq;
  match session with
  | None => Ok (s, failure 401 "unauthorized")
  | Some who =>
      let write := negb (bool_decide (rq_command rq = GET)) in
      if write && negb (id_write who) then Ok (s, failure 403 "read only")
      else
        url ← urlsplit (rq_path rq);
        let parts := path_parts url.1 in
        let query := parse_qs url.2 in
        let allowed := if bool_decide (parts = ["cases"]) && negb write
                       then ["owner"; "status"; "limit"; "offset"] else [] in
        check (forallb (λ kv, mem kv.1 allowed && (length kv.2 =? 1)%nat) query) ValueError;;
        if negb (bool_decide (head parts = Some "cases")) || (3 <? length parts)%nat
        then Ok (s, failure 404 "not found")
        else if negb write then r ← read_cases s rq who parts query; Ok (s, r)
        else
          body ← payload rq;
          if (length parts =? 1)%nat && bool_decide (rq_command rq = POST) then create_case s rq who body
          else match route_of parts (rq_command rq), parts with
               | Some route, _ :: cid :: _ => mutate_case s rq who cid route body
               | _, _ => Ok (s, failure 404 "not found")
               end
  end.
Definition handle_case (sessions : dict) (s : store) (rq : request) : store * response :=
  match serve sessions s rq with
  | Ok r => r
  | Raise ValueError => (s, failure 400 "invalid case request")
  | Raise _ => (s, failure 503 "case API unavailable")
  end.
End api.

(** ** What a committed write looks like *)

Section facts.
Context (sha1 sha256 : string → string) (dumps : val → string) (loads : string → res val)
  (urlsplit : string → res (string * string)) (parse_qs : string → list (string * list string)).
Abbreviation hash := (digest sha256 dumps).
Abbreviation serves := (serve sha1 sha256 dumps loads urlsplit parse_qs).
Abbreviation handle := (handle_case sha1 sha256 dumps loads urlsplit parse_qs).
Abbreviation finish := (audited sha256 dumps).

Definition put_case (s : store) (cid ten : string) (c : case) : store :=
  {| st_cases := <[cid := (ten, c)]> (st_cases s); st_disps := st_disps s; st_claimed := st_claimed s |}.
Definition detail (k : string) (e : audit_event) : val := dgetN k (ev_detail e).
Definition effective (e : audit_event) : bool := negb (dhas "noop" (ev_detail e)).
Definition before_view (before : option case) : view :=
  match before with Some c => view_of c | None => blank_view end.
(** The event of one request: who, when, and the hashes around the change. *)
Record recorded (rq : request) (who : identity) (before : option case) (c : case) (e : audit_event) : Prop := {
  rc_actor : ev_actor e = id_actor who;
  rc_ts : ev_ts e = rq_ts rq;
  rc_tenant : detail "tenant" e = VStr (id_tenant who);
  rc_resource : detail "resource_id" e = VStr (case_id c);
  rc_before : detail "before_hash" e = VStr (hash (before_doc before));
  rc_after : detail "after_hash" e = VStr (hash (case_doc c));
  rc_outcome : detail "outcome" e = VStr "success";
  rc_view : view_of c = if effective e then replay_event (before_view before) e else before_view before
}.
Record written (s s' : store) (rq : request) (who : identity) (cid : string) (before : option case) (c : case) : Prop := {
  wr_store : s' = put_case s cid (id_tenant who) c;
  wr_before : st_cases s !! cid = pair (id_tenant who) <$> before;
  wr_tenant : tenant c = id_tenant who;
  wr_updated : updated c = rq_ts rq;
  wr_identity : match before with Some b => identity_of c = identity_of b | None => case_id c = cid end;
  wr_audit : ∃ e, audit c = before_audit before ++ [e] ∧ recorded rq who before c e
}.

Lemma hash_set_audit es c : hash (case_doc (set_audit es c)) = hash (case_doc c).
Proof. reflexivity. Qed.
Lemma on_last_snoc {A} (f : A → A) l x : on_last f (l ++ [x]) = l ++ [f x].
Proof. induction l as [|y l IH]; [done|]. cbn. rewrite IH. by destruct l. Qed.

(** A stamped event replays as the event it was. *)
Lemma stamp_detail rq k who before after e key :
  key ∉ ["audit_id"; "tenant"; "resource_type"; "resource_id"; "before_hash"; "after_hash"; "request_id"; "source_ip"; "outcome"] →
  dget key (ev_detail (stamp sha256 dumps rq k who before after e)) = dget key (ev_detail e).
Proof. intros Hk. cbn. rewrite !dget_dset_ne; [done|..]; intros ->; apply Hk; set_solver. Qed.
Lemma stamp_replay rq k who before after e w : replay_event w (stamp sha256 dumps rq k who before after e) = replay_event w e.
Proof.
  unfold replay_event, stamp. cbn [ev_event ev_actor ev_ts ev_detail _audit].
  assert (H : ∀ key, key ∈ ["owner"; "to"; "assignee"; "finding_id"; "entity"] →
    dgetN key (ev_detail (stamp sha256 dumps rq k who before after e)) = dgetN key (ev_detail e)).
  { intros key Hk. unfold dgetN, dget_or. rewrite stamp_detail; [done|].
    repeat (apply elem_of_cons in Hk as [->|Hk]; [apply (bool_decide_unpack _); vm_compute; exact I|]). by apply elem_of_nil in Hk. }
  cbn [stamp ev_detail _audit] in H. rewrite !H by (destruct (String.eqb (ev_event e) "created"); apply (bool_decide_unpack _); vm_compute; exact I). done.
Qed.
Lemma stamp_effective rq k who before after e : effective (stamp sha256 dumps rq k who before after e) = effective e.
Proof.
  unfold effective, dhas. rewrite stamp_detail; [done|]. apply (bool_decide_unpack _); vm_compute; exact I.
Qed.

(** What [audited] makes of a change: nothing at all, or one new effective event. *)
Definition changes (rq : request) (who : identity) (before : option case) (after : case) : Prop :=
  (∃ b, before = Some b ∧ after = b) ∨
  ∃ e, audit after = before_audit before ++ [e] ∧ ev_actor e = id_actor who ∧ ev_ts e = rq_ts rq ∧
       updated after = rq_ts rq ∧ effective e = true ∧ view_of after = replay_event (before_view before) e.
Lemma audited_spec rq k who before after event : changes rq who before after →
  let c := finish rq k who before after event in
  identity_of c = identity_of after ∧ updated c = rq_ts rq ∧ view_of c = view_of after ∧
  ∃ e, audit c = before_audit before ++ [e] ∧ recorded rq who before c e.
Proof.
  intros H. assert (∃ after' e, (if (length (audit after) =? length (before_audit before))%nat
      then _touch after (_audit event (id_actor who) (rq_ts rq) [("noop", VBool true)]) else after) = after' ∧
    identity_of after' = identity_of after ∧ updated after' = rq_ts rq ∧ view_of after' = view_of after ∧ audit after' = before_audit before ++ [e] ∧
    ev_actor e = id_actor who ∧ ev_ts e = rq_ts rq ∧ view_of after' = if effective e then replay_event (before_view before) e else before_view before)
    as (after' & e & Ea & Hid & Hup & Hv & Hau & Hac & Hts & Hre).
  { destruct H as [(b & -> & ->)|(e & Hau & Hac & Hts & Hup & Hef & Hv)].
    - cbn [before_audit]. rewrite Nat.eqb_refl. eexists _, _. split_and!; reflexivity.
    - rewrite Hau, length_app. cbn [length]. rewrite (proj2 (Nat.eqb_neq _ _)) by lia. exists after, e. by rewrite Hef. }
  cbn zeta. unfold audited. rewrite Ea, Hau, on_last_snoc. split_and!; [done|done|done|].
  eexists. split; [reflexivity|]. split; try done; [..|by rewrite stamp_effective, stamp_replay].
  all: unfold detail, stamp; cbn [ev_detail _audit foldl fst snd]; simpl_dict; reflexivity.
Qed.

Lemma op_effective c op actor ts c' : apply_op c op actor ts = Ok c' → c' = c ∨
  ∃ e, audit c' = audit c ++ [e] ∧ ev_actor e = actor ∧ ev_ts e = ts ∧ updated c' = ts ∧ effective e = true ∧ view_of c' = replay_event (view_of c) e.
Proof.
  intros H. destruct (apply_op_logs c op actor ts c' H) as [_ [->|(e & He & Hu & Ha & Ht & Hv)]]; [by left|].
  right. exists e. split_and!; try done. assert (Hd : ∃ ev d, audit c' = audit c ++ [_audit ev actor ts d] ∧ dhas "noop" d = false).
  { clear -H He. assert (Hne : c' ≠ c). { intros ->. apply (f_equal length) in He. rewrite length_app in He. cbn in He. lia. }
    destruct op; cbn in H; inv_ok;
      unfold change_owner, assign, unassign, link_finding, unlink_finding, link_entity, unlink_entity, transition in *; inv_ok;
      repeat match goal with H : context [if ?b then _ else _] |- _ => destruct b; try done end; by eexists _, _. }
  destruct Hd as (ev & d & Hd & Hn). rewrite Hd in He. apply app_inj_2 in He as [_ [= <-]]; [|done]. unfold effective. cbn. by rewrite Hn.
Qed.

(** ** Each handler commits one write, or none *)

Lemma create_case_written s rq who body s' r : create_case sha256 dumps s rq who body = Ok (s', r) →
  (s' = s ∧ r = failure 409 "case already exists") ∨ ∃ c, r = document 201 c ∧ written s s' rq who (rq_uuid rq 0) None c.
Proof.
  unfold create_case. intros H. inv_ok. set (doc := new_case _ _ _ _ _ _) in Hk0.
  destruct (audited_spec rq 1 who None doc "created") as (Hid & Hup & _ & Hau).
  { right. eexists. split_and!; reflexivity. }
  assert (Hi : case_id (finish rq 1 who None doc "created") = rq_uuid rq 0) by reflexivity.
  assert (Ht : tenant (finish rq 1 who None doc "created") = id_tenant who) by reflexivity. unfold create in Hk0. rewrite Hi in Hk0. destruct (st_cases s !! rq_uuid rq 0) eqn:E; injection Hk0 as <- <-; [by left|].
  right. eexists. split; [done|]. split; try done.
Qed.
Lemma mutate_case_written s rq who cid route body s' r : mutate_case sha1 sha256 dumps s rq who cid route body = Ok (s', r) →
  (s' = s ∧ r = failure 404 "not found") ∨ ∃ c b, r = document 200 c ∧ written s s' rq who cid (Some b) c.
Proof.
  unfold mutate_case. destruct route as [[field op] event]. intros H. inv_ok. clear Hm0 Hm1 Hm2 Hm4. destruct a3 as [s1 o]. cbn [fst snd].
  apply mutate_inv in Hm3 as [(-> & -> & _)|(t & b & new & rs & Hb & Hin & Hfn & Ht & -> & Hc & Hd & Hcl)]; [by left|].
  right. apply list_elem_of_singleton in Hin as ->. inv_ok. pose proof (apply_op_logs _ _ _ _ _ Hm0) as [Hidop _].
  destruct (audited_spec rq 0 who (Some b) a3 event) as (Hid & Hup & _ & Hau).
  { apply op_effective in Hm0 as [->|?]; [left; by eexists|by right]. }
  eexists _, b. split; [done|]. split; try done; [|by rewrite <- Hidop].
  destruct s1. cbn in *. by subst.
Qed.
Lemma select_elem s ten clauses c : c ∈ select s ten clauses ↔ (∃ cid, st_cases s !! cid = Some (ten, c)) ∧ matches clauses c = true.
Proof.
  unfold select. rewrite elem_filter, list_elem_of_omap. apply and_iff_compat_r. split.
  - intros ([cid [t c']] & Hin & H). cbn in H. destruct (String.eqb_spec t ten) as [->|]; [|done]. injection H as ->. exists cid.
    unfold sorted_rows in Hin. by apply elem_of_isort, elem_of_map_to_list in Hin.
  - intros (cid & H). exists (cid, (ten, c)). cbn. rewrite String.eqb_refl. split; [|done]. by apply elem_of_isort, elem_of_map_to_list.
Qed.

(** ** What each answer means *)

Definition page_ok (s : store) (who : identity) (cases : list case) (limit offset : Z) (next_offset : option Z) : Prop :=
  1 <= limit <= 200 ∧ 0 <= offset <= 1000000 ∧ (∀ c, c ∈ cases → ∃ cid, st_cases s !! cid = Some (id_tenant who, c)) ∧
  ∃ clauses, let all := select s (id_tenant who) clauses in
    cases = take (Z.to_nat limit) (drop (Z.to_nat offset) all) ∧
    next_offset = if offset + limit <? Z.of_nat (length all) then Some (offset + limit) else None.
Definition outcome (sessions : dict) (s : store) (rq : request) (s' : store) (r : response) : Prop :=
  match r with
  | failure code _ => s' = s ∧
      (code = 401 ↔ authenticate sessions rq = Ok None) ∧
      (code = 403 ↔ ∃ who, authenticate sessions rq = Ok (Some who) ∧ rq_command rq ≠ GET ∧ id_write who = false)
  | page cases limit offset next_offset => s' = s ∧ rq_command rq = GET ∧
      ∃ who, authenticate sessions rq = Ok (Some who) ∧ page_ok s who cases limit offset next_offset
  | document code c => ∃ who cid, authenticate sessions rq = Ok (Some who) ∧
      if bool_decide (rq_command rq = GET) then code = 200 ∧ s' = s ∧ st_cases s !! cid = Some (id_tenant who, c)
      else id_write who = true ∧ ∃ before : option case, code = (if before then 200 else 201) ∧ written s s' rq who cid before c
  end.
Lemma list_page_ok s rq who query r : list_page s rq who query = Ok r →
  ∃ cases limit offset next_offset, r = page cases limit offset next_offset ∧ page_ok s who cases limit offset next_offset.
Proof.
  unfold list_page. intros H. inv_ok. to_prop. set (all := select _ _ _). eexists _, _, _, _. split; [done|]. split_and!; try done.
  - intros c Hc. by apply elem_take, elem_take, elem_drop, select_elem in Hc as [? _].
  - eexists. fold all. split.
    + rewrite take_take. f_equal. lia.
    + rewrite length_take, length_drop. fold all. repeat match goal with |- context [?x <? ?y] => destruct (Z.ltb_spec x y) end; try done; lia.
Qed.
Lemma serve_ok sessions s rq s' r : serves sessions s rq = Ok (s', r) → outcome sessions s rq s' r.
Proof.
  unfold serve. intros H. inv_ok. rename a into session. destruct session as [who|]; [|injection Hk as <- <-; cbn; rewrite Hm; naive_solver].
  destruct (decide (rq_command rq = GET)) as [Eg|Eg].
  - rewrite (bool_decide_true (rq_command rq = GET)) in Hk by done. cbn [negb andb] in Hk. inv_ok.
    assert (Hfail : ∀ msg, outcome sessions s rq s (failure 404 msg)) by (intros; cbn; rewrite Hm; naive_solver).
    destruct (_ || _) in Hk; [injection Hk as <- <-; apply Hfail|]. inv_ok. unfold read_cases in Hm2.
    destruct (path_parts _) as [|p0 [|cid [|p1 ps]]]; inv_ok; try apply Hfail.
    + apply list_page_ok in Hm2 as (cases & limit & offset & nx & -> & Hp). cbn. eauto.
    + unfold found, get. destruct (st_cases _ !! cid) as [[t c]|] eqn:E; [|apply Hfail]. destruct (mem t _) eqn:Et; [|apply Hfail].
      apply mem_true, list_elem_of_singleton in Et as ->. cbn. exists who, cid. rewrite bool_decide_true by done. done.
  - rewrite (bool_decide_false (rq_command rq = GET)) in Hk by done. cbn [negb andb] in Hk. destruct (id_write who) eqn:Ew; cbn [negb] in Hk.
    2:{ injection Hk as <- <-. cbn. rewrite Hm. naive_solver. }
    inv_ok. assert (Hfail : ∀ code msg, code = 404 ∨ code = 409 → outcome sessions s rq s (failure code msg)).
    { intros code msg Hc. cbn. rewrite Hm. split; [done|]. split; (split; [lia|]); [done|]. intros (w & [= <-] & _ & Hf). congruence. }
    assert (Hdoc : ∀ cid (before : option case) c, written s s' rq who cid before c → outcome sessions s rq s' (document (if before then 200 else 201) c)).
    { intros cid before c Hw. cbn. exists who, cid. rewrite bool_decide_false by done. eauto. }
    destruct (_ || _) in Hk; [injection Hk as <- <-; apply Hfail; by left|]. inv_ok. destruct (_ && _) in Hk0.
    + apply create_case_written in Hk0 as [(-> & ->)|(c & -> & Hw)]; [apply Hfail; by right|exact (Hdoc _ _ _ Hw)].
    + destruct (route_of _ _) as [route|]; [|injection Hk0 as <- <-; apply Hfail; by left].
      destruct (path_parts _) as [|p0 [|cid l]]; [injection Hk0 as <- <-; apply Hfail; by left..|].
      apply mutate_case_written in Hk0 as [(-> & ->)|(c & b & -> & Hw)]; [apply Hfail; by left|exact (Hdoc _ _ _ Hw)].
Qed.
Lemma handle_accounted sessions s rq : outcome sessions s rq (handle sessions s rq).1 (handle sessions s rq).2.
Proof.
  unfold handle_case. destruct (serves sessions s rq) as [[s' r]|e] eqn:E; [by apply serve_ok|].
  assert (Hc : ∀ code msg, code = 400 ∨ code = 503 → outcome sessions s rq s (failure code msg)).
  { intros code msg Hc. cbn. split; [done|]. unfold serve in E. destruct (authenticate sessions rq) as [[who|]|e'] eqn:Ea; cbn in E.
    - destruct (bool_decide_reflect (rq_command rq = GET)), (id_write who) eqn:Ew; cbn in E; try done;
        (split; (split; [lia|]); [done|]); intros (w & [= <-] & Hn & Hf); congruence.
    - done.
    - split; (split; [lia|]); [done|]. by intros (w & ? & _). }
  destruct e; apply Hc; auto.
Qed.

(** ** The audit chain *)

(** Each event's hash before is the hash after of the one before it; the last hash. *)
Fixpoint chain (h : string) (es : list audit_event) : option string :=
  match es with
  | [] => Some h
  | e :: es =>
      match detail "before_hash" e, detail "after_hash" e with
      | VStr b, VStr a => if String.eqb b h then chain a es else None
      | _, _ => None
      end
  end.
Definition genesis : string := hash (before_doc None).
(** Some session writes cases of the tenant for the analyst. *)
Definition granted (sessions : dict) (t a : string) : Prop :=
  ∃ token session, dget token sessions = Some (VDict session) ∧ dgetN "tenant" session = VStr t ∧
    dgetN "analyst" session = VStr a ∧ dget "case_write" session = Some (VBool true).
Record vouched (sessions : dict) (cid t : string) (c : case) : Prop := {
  vo_id : case_id c = cid;
  vo_tenant : tenant c = t;
  vo_chain : chain genesis (audit c) = Some (hash (case_doc c));
  vo_events : ∀ e, e ∈ audit c → detail "resource_id" e = VStr cid ∧ detail "tenant" e = VStr t ∧ granted sessions t (ev_actor e);
  vo_replay : view_of c = replay (List.filter effective (audit c))
}.
(** The stores that API requests alone lead to. *)
Inductive reachable (sessions : dict) : store → Prop :=
| reach_empty : reachable sessions empty_store
| reach_request s rq : reachable sessions s → reachable sessions (handle sessions s rq).1.

Lemma chain_app h es es' : chain h (es ++ es') = h' ← chain h es; chain h' es'.
Proof. revert h. induction es as [|e es IH]; intros h; [done|]. cbn. destruct (detail "before_hash" e), (detail "after_hash" e); try done. by case_match. Qed.
Lemma string_arg_inv v n s : string_arg v n = Ok s → v = VStr s.
Proof. destruct v; try done. cbn. intros H. inv_ok. done. Qed.
Lemma authenticate_granted sessions rq who : authenticate sessions rq = Ok (Some who) → id_write who = true →
  granted sessions (id_tenant who) (id_actor who).
Proof.
  unfold authenticate. destruct (starts_with _ _); [|done]. unfold dgetN at 1, dget_or at 1. destruct (dget _ sessions) as [v|] eqn:E; [|done]. cbn [default from_option id].
  destruct v; try done. intros H Hw. inv_ok. destruct a; [|done]. destruct (string_arg (dgetN "tenant" d) 256) eqn:Et; [|done]. destruct (string_arg (dgetN "analyst" d) 256) eqn:Ea; [|done].
  injection Hk as <-. cbn in *. eexists _, d. split_and!; [exact E|by eapply string_arg_inv|by eapply string_arg_inv|].
  destruct (dget "case_write" d) as [[|[]| | | | |]|]; done.
Qed.
Lemma written_vouched sessions s s' rq who cid before c : written s s' rq who cid before c →
  granted sessions (id_tenant who) (id_actor who) →
  (∀ b, before = Some b → vouched sessions cid (id_tenant who) b) → vouched sessions cid (id_tenant who) c.
Proof.
  intros [_ _ Ht _ Hid (e & Hau & [Hac _ Hte Hre Hbe Haf _ Hv])] Hg Hb.
  assert (Hcid : case_id c = cid).
  { destruct before as [b|]; [|done]. injection Hid as -> _ _ _. by destruct (Hb b eq_refl). }
  split; [done|done|..].
  - rewrite Hau, chain_app. assert (Hh : chain genesis (before_audit before) = Some (hash (before_doc before))).
    { destruct before as [b|]; [|done]. by destruct (Hb b eq_refl). }
    rewrite Hh. cbn. rewrite Hbe, Haf, String.eqb_refl. done.
  - rewrite Hau. intros x [Hx|Hx]%elem_of_app.
    + destruct before as [b|]; [by apply (vo_events _ _ _ _ (Hb b eq_refl))|by apply elem_of_nil in Hx].
    + apply list_elem_of_singleton in Hx as ->. rewrite Hre, Hte, Hac, Hcid. done.
  - rewrite Hau, List.filter_app, Hv. assert (Hr : before_view before = replay (List.filter effective (before_audit before))).
    { destruct before as [b|]; [|done]. by destruct (Hb b eq_refl). }
    cbn [List.filter]. rewrite Hr. destruct (effective e); [by rewrite replay_snoc|by rewrite app_nil_r].
Qed.
Lemma reachable_vouched sessions s : reachable sessions s → ∀ cid t c, st_cases s !! cid = Some (t, c) → vouched sessions cid t c.
Proof.
  induction 1 as [|s rq _ IH]; [done|]. pose proof (handle_accounted sessions s rq) as H. destruct (handle sessions s rq) as [s' r]. cbn in *.
  destruct r as [code msg|cs l o nx|code c']; [by destruct H as [-> _]|by destruct H as [-> _]|].
  destruct H as (who & cid & Ha & H). destruct (bool_decide _); [by destruct H as (_ & -> & _)|]. destruct H as (Hw & before & _ & Hwr).
  pose proof (authenticate_granted _ _ _ Ha Hw) as Hg. intros cid' t c. rewrite (wr_store _ _ _ _ _ _ _ Hwr). cbn.
  intros [[<- [= <- <-]]|[_ ?]]%lookup_insert_Some; [|by apply IH].
  eapply written_vouched; [done..|]. intros b ->. apply IH. by rewrite (wr_before _ _ _ _ _ _ _ Hwr).
Qed.

(** Every request to the case API is answered, and what it did is what the answer says:
    401 exactly without a live session and 403 exactly for a write by a read-only one; every
    error leaves the store as it was; a page holds the requested slice of the tenant's
    matching cases in id order, and names the next offset exactly when more remain; a
    document is the tenant's case, or after a write the one case written: created under a
    fresh id or changed in place with its identity kept, with exactly one audit event, by
    the session's analyst, that carries the hashes of the case before and after. *)
Theorem case_requests_accounted sessions s rq :
  outcome sessions s rq (handle sessions s rq).1 (handle sessions s rq).2.
Proof. apply handle_accounted. Qed.

(** C16. The audit trail of a case vouches for it.  In every store that requests to the API
    lead to, every event of a case names it, its tenant and an analyst some session lets
    write that tenant's cases; the hashes form a chain from the empty document to the case
    as it is stored; and replaying the events, less those marked as changing nothing, gives
    the owner, status, assignees and links the case has, and the author and time of each
    of its notes. *)
Theorem case_audit_chained sessions s cid t c :
  reachable sessions s → st_cases s !! cid = Some (t, c) → vouched sessions cid t c.
Proof. intros Hs. by apply reachable_vouched. Qed.
End facts.

(** A case is opened, assigned twice (the second time to no effect) and listed. *)
Definition plain_loads (s : string) : res val :=
  if String.eqb s "new" then Ok (VDict [("title", VStr "beacon")]) else Ok (VDict [("assignee", VStr "bob")]).
Definition demo_sessions : dict :=
  [("tok", VDict [("tenant", VStr "acme"); ("analyst", VStr "ann"); ("expires_at", VInt 100); ("case_write", VBool true)])].
Definition demo_request (cmd : command) (path body : string) : request := {|
  rq_command := cmd; rq_auth := Some "Bearer tok"; rq_path := path; rq_lengths := ["9"]; rq_transfer := None; rq_read := λ _, Ok body;
  rq_now := S754_zero false; rq_ts := "t1"; rq_uuid := λ n, "u" +:+ pretty (N.of_nat n); rq_ip := "10.0.0.1"; rq_reads := true; rq_writes := true |}.
Definition demo_handle : dict → store → request → store * response :=
  handle_case id id (λ _, "{}") plain_loads (λ p, Ok (p, "")) (λ _, []).
Definition demo_run (rqs : list request) : store :=
  foldl (λ s rq, (demo_handle demo_sessions s rq).1) empty_store rqs.
Definition demo_requests : list request :=
  [demo_request POST "/cases" "new"; demo_request POST "/cases/u0/assign" "x"; demo_request POST "/cases/u0/assign" "x"].
Example demo_listing : (λ r, match r with page cs _ _ n => Some ((λ c, (assignees c, ev_event <$> audit c)) <$> cs, n) | _ => None end)
    (demo_handle demo_sessions (demo_run demo_requests) (demo_request GET "/cases" "")).2 =
  Some ([(["bob"], ["created"; "assignee_added"; "assignee_added"])], None).
Proof. vm_compute. reflexivity. Qed.
Definition demo_case : case :=
  match st_cases (demo_run demo_requests) !! "u0" with Some (_, c) => c | None => sample_case end.
Lemma case_audit_chained_witness :
  vouched id (λ _, "{}") demo_sessions "u0" "acme" demo_case.
Proof.
  apply (case_audit_chained id id (λ _, "{}") plain_loads (λ p, Ok (p, "")) (λ _, []) demo_sessions (demo_run demo_requests)).
  - unfold demo_run, demo_requests, demo_handle. cbn [foldl]. repeat apply reach_request. apply reach_empty.
  - vm_compute. reflexivity.
Defined.
