(* ===== verification/FinalizationLoop.v ===== *)
(** * The finalization loop (services/finding-service/app.py)

    The world of the service is the map of capture-bound findings that wait for an
    outcome ([pending]), the bounded cache of those finalized early ([finalized]) and
    the effects it has had: rows persisted and messages sent, in order.  Handlers are
    [M world] computations: an exception keeps the effects already had, as it does in
    the code.  Times are integers of any fixed unit. *)

From S2P Require Import Prelude Order PyVal PyTime OrderedMap FindingLifecycle.
Set Default Proof Using "Type".

(** ** The quality cache *)

Record quality_entry := { qe_record : dict; qe_observed : Z; qe_received : Z }.
Record quality_cache := {
  qc_ttl : Z; qc_maximum : nat; qc_records : list (string * string * quality_entry)
}.

Definition quality_cache_new (ttl : Z) (maximum : Z) : res quality_cache :=
  check (negb ((ttl <=? 0) || (maximum <? 1))) ValueError;;
  Ok {| qc_ttl := ttl; qc_maximum := Z.to_nat maximum; qc_records := [] |}.

(** The sample a record carries: tenant, sensor and observation instant; [None] for
    a record the cache ignores. *)
Definition quality_sample (record : val) : option (string * string * Z * dict) :=
  match record with
  | VDict r =>
      guard_ (val_eq_str (dgetN "schema_version" r) "sensor-quality.v1");;
      tenant ← nonblank (dgetN "tenant_id" r);
      sensor ← nonblank (dgetN "sensor_id" r);
      guard_ (val_in_strs (dgetN "quality" r) ["good"; "degraded"; "blind"; "unknown"]);;
      match dgetN "reasons" r, dgetN "observed_at" r with
      | VList reasons, VStr at_ =>
          guard_ (forallb is_str reasons);;
          '(local, o) ← fromisoformat (replace_zulu at_);
          off ← o;
          Some (tenant, sensor, local - off, r)
      | _, _ => None
      end
  | _ => None
  end.

Definition quality_put (c : quality_cache) (record : val) (now : Z) : quality_cache :=
  match quality_sample record with
  | None => c
  | Some (tenant, sensor, observed, r) =>
      let key := (tenant, sensor) in
      let store :=
        {| qc_ttl := qc_ttl c; qc_maximum := qc_maximum c;
           qc_records := od_bound (qc_maximum c) (od_to_end key (od_set key
             {| qe_record := r; qe_observed := observed; qe_received := now |}
             (qc_records c))) |} in
      match od_get key (qc_records c) with
      | Some prior => if observed <=? qe_observed prior then c else store
      | None => store
      end
  end.

Definition quality_lookup (c : quality_cache) (tenant : val) (sensor : string) (now : Z) : dict :=
  match tenant with
  | VStr t =>
      match od_get (t, sensor) (qc_records c) with
      | None => [("quality", VStr "unknown"); ("reasons", VList [])]
      | Some e =>
          if (qc_ttl c <=? now - qe_received e) || (qc_ttl c <=? now - qe_observed e)
          then [("quality", VStr "unknown"); ("reasons", VList [VStr "STALE_QUALITY"])]
          else qe_record e
      end
  | _ => [("quality", VStr "unknown"); ("reasons", VList [])]
  end.

(** ** Pending findings *)

(** Tenant and finding id.  Ids are strings or missing; an id of another type is
    outside the model and raises. *)
Definition pkey : Type := string * option string.
Definition _pk (tenant fid : val) : res pkey :=
  t ← match tenant with
      | VNone => Ok "default"
      | VStr s => Ok (if str_truthy s then s else "default")
      | _ => Raise TypeError
      end;
  f ← match fid with VNone => Ok None | VStr s => Ok (Some s) | _ => Raise TypeError end;
  Ok (t, f).

Record entry := { e_finding : dict; e_delivered : bool; e_deadline : Z }.

Inductive effect :=
| Persist (f : dict)
| SendFinal (f : dict) (key : string)
| SendCapture (job : dict).

Record world := {
  pending : list (pkey * entry);
  finalized : list (pkey * (dict * bool));
  effects : list effect
}.
Definition set_pending (p : list (pkey * entry)) (w : world) : world :=
  {| pending := p; finalized := finalized w; effects := effects w |}.
Definition set_finalized (p : list (pkey * (dict * bool))) (w : world) : world :=
  {| pending := pending w; finalized := p; effects := effects w |}.
Definition emit (e : effect) (w : world) : world :=
  {| pending := pending w; finalized := finalized w; effects := effects w ++ [e] |}.

Section loop.
(** The two enrichers update a finding in place before its first delivery. *)
Context (cfg : config) (repr : val → string) (json_loads : string → option val)
  (enrich : dict → dict) (ch_enabled : bool) (MAX_FINALIZED : nat).

Definition _persist (f : dict) : M world unit :=
  if ch_enabled then modify (emit (Persist f)) else ret tt.

(** The partition key of a finding: its subject address, or its id. *)
Definition ip_value (any_role : bool) (e : val) : option val :=
  match e with
  | VDict d =>
      if val_eq_str (dgetN "type" d) "ip"
         && (any_role || val_in_strs (dgetN "role" d) ["src"; "subject"; "client"])
      then Some (dgetN "value" d) else None
  | _ => None
  end.
Definition _pkey (f : dict) : string :=
  let tenant := py_or (dgetN "tenant_id" f) (VStr "default") in
  let items := entities json_loads f in
  let ip := match default VNone (head (omap (ip_value false) items)) with
            | VNone => default VNone (head (omap (ip_value true) items))
            | v => v
            end in
  let base := if truthy ip then "ip:" +:+ py_str repr ip
              else py_str repr (py_or (dgetN "finding_id" f) (VStr "unkeyed")) in
  py_str repr tenant +:+ "|" +:+ base.

Definition send_final (f : dict) : M world unit := modify (emit (SendFinal f (_pkey f))).

(** Enriches the finding in place: the result is the finding every holder sees. *)
Definition _deliver_now (f : dict) : M world dict :=
  let f := enrich f in send_final f;* ret f.

Definition _emit_finalized (delivered : bool) (done : dict) : M world unit :=
  let done := if delivered then done else enrich done in
  _persist done;* send_final done.

(** [_pop_pending]: without a tenant the id must be unambiguous. *)
Definition _pop_pending (tenant fid : val) : M world (option entry) := λ w,
  match tenant with
  | VNone =>
      match _pk VNone fid with
      | Raise e => (w, Raise e)
      | Ok (_, f) =>
          match filter (λ kv : pkey * entry, kv.1.2 = f) (pending w) with
          | [(k, e)] => (set_pending (od_del k (pending w)) w, Ok (Some e))
          | _ => (w, Ok None)
          end
      end
  | _ =>
      match _pk tenant fid with
      | Raise e => (w, Raise e)
      | Ok k => (set_pending (od_del k (pending w)) w, Ok (od_get k (pending w)))
      end
  end.

Definition _remember_finalized (f : dict) (delivered : bool) : M world unit :=
  let* k := lift (_pk (dgetN "tenant_id" f) (dgetN "finding_id" f)) in
  modify (λ w, set_finalized
    (od_bound MAX_FINALIZED (od_to_end k (od_set k (f, delivered) (finalized w)))) w).

Definition captures (r : route) : bool := match r with final => false | _ => true end.
Definition delivers (r : route) : bool := match r with capture => false | _ => true end.

Definition _handle_candidate (lookup : lookup_fn) (cand : dict) (deadline_secs now : Z) :
    M world (dict * route) :=
  let* built := lift (build_finding cfg repr cand (Some lookup)) in
  let '(finding, r) := built in
  _persist finding;*
  let* finding := if delivers r then _deliver_now finding else ret finding in
  (if captures r then
     let* job := lift (capture_job repr json_loads finding) in
     modify (emit (SendCapture job));*
     let* fid := lift (dindex "finding_id" finding) in
     let* k := lift (_pk (dgetN "tenant_id" finding) fid) in
     modify (λ w, set_pending (od_set k
       {| e_finding := finding; e_delivered := delivers r; e_deadline := now + deadline_secs |}
       (pending w)) w)
   else ret tt);*
  ret (finding, r).

Definition _handle_result (result : dict) : M world unit :=
  let* entry := _pop_pending (dgetN "tenant_id" result) (dgetN "finding_id" result) in
  match entry with
  | Some e =>
      let* done := lift (apply_enrichment_result cfg repr (e_finding e) result) in
      _emit_finalized (e_delivered e) done
  | None =>
      let* k := lift (_pk (dgetN "tenant_id" result) (dgetN "finding_id" result)) in
      let* prev := read (λ w, od_get k (finalized w)) in
      modify (λ w, set_finalized (od_del k (finalized w)) w);*
      match prev with
      | None => ret tt
      | Some (f, _) =>
          let* done := lift (apply_enrichment_result cfg repr f result) in
          _emit_finalized true done
      end
  end.

(** What a timeout, a refusal or a failure does to a popped entry. *)
Definition finalize_early (e : entry) : M world unit :=
  let* done := lift (finalize_timeout cfg repr (e_finding e)) in
  _emit_finalized (e_delivered e) done;*
  _remember_finalized (if e_delivered e then done else enrich done) (e_delivered e).

Definition terminal_status (status : dict) : bool :=
  let state := dgetN "state" status in
  negb (val_eq_str state "completed") &&
  (match dgetN "armed" status with VBool false => true | _ => false end
   || val_in_strs state ["failed"; "rejected"; "refused"; "no_data"]).

Definition _handle_status (status : dict) : M world unit :=
  if terminal_status status then
    let* entry := _pop_pending (dgetN "tenant_id" status) (dgetN "finding_id" status) in
    match entry with Some e => finalize_early e | None => ret tt end
  else ret tt.

Definition due (now : Z) (p : list (pkey * entry)) : list pkey :=
  fst <$> filter (λ kv : pkey * entry, e_deadline kv.2 <= now) p.

Definition sweep_one (k : pkey) : M world unit :=
  let* e := read (λ w, od_get k (pending w)) in
  modify (λ w, set_pending (od_del k (pending w)) w);*
  match e with Some e => finalize_early e | None => raise KeyError end.

Definition _sweep_timeouts (now : Z) : M world unit :=
  let* keys := read (λ w, due now (pending w)) in
  for_each sweep_one keys.

(** ** Recovery after a restart *)

Definition _UNFINALIZED : list string := ["PENDING"; "REQUIRED"].

(** One JSON column of a row, decoded or dropped when empty. *)
Definition decode_column (f : dict) (k : string) : dict :=
  match dgetN k f with
  | VStr s =>
      if str_truthy s then match json_loads s with Some v => dset k v f | None => f end
      else List.filter (λ kv, negb (String.eqb kv.1 k)) f
  | VNone => List.filter (λ kv, negb (String.eqb kv.1 k)) f
  | _ => f
  end.

Definition recover_row (now : Z) (p : list (pkey * entry)) (r : dict) : res (list (pkey * entry)) :=
  let f := foldl decode_column r ["summary"; "iocs"; "source_events"; "observation_quality"] in
  let fid := dgetN "finding_id" f in
  if negb (truthy fid) || negb (val_in_strs (dgetN "enrichment_state" f) _UNFINALIZED) then Ok p
  else
    k ← _pk (dgetN "tenant_id" f) fid;
    Ok (od_set k {| e_finding := f; e_delivered := val_eq_str (dgetN "state" f) "FINAL";
                    e_deadline := now |} p).

Fixpoint pending_from_rows (now : Z) (p : list (pkey * entry)) (rows : list dict) :
    res (list (pkey * entry)) :=
  match rows with
  | [] => Ok p
  | r :: rows => p ← recover_row now p r; pending_from_rows now p rows
  end.

(** The paging loop; [query offset] is the answer of the database to the page at
    [offset], [None] for a failed query.  The result is the recovered map and whether
    recovery was complete; [None] means that the fuel ran out. *)
Context (query : nat → option (list dict)) (RECOVERY_PAGE RECOVERY_MAX : nat).

Fixpoint recovery_pages (fuel : nat) (now : Z) (p : list (pkey * entry)) (offset : nat) :
    option (list (pkey * entry) * bool) :=
  match fuel with
  | O => None
  | S fuel =>
      match query offset with
      | None => Some ([], false)
      | Some [] => Some (p, true)
      | Some rows =>
          match pending_from_rows now p rows with
          | Raise _ => Some ([], false)
          | Ok p =>
              let offset := (offset + length rows)%nat in
              if (length rows <? RECOVERY_PAGE)%nat then Some (p, true)
              else if (RECOVERY_MAX <=? offset)%nat then Some (p, false)
              else recovery_pages fuel now p offset
          end
      end
  end.

Definition _load_pending_from_ch (fuel : nat) (now : Z) : option (list (pkey * entry) * bool) :=
  if ch_enabled then recovery_pages fuel now [] 0 else Some ([], true).
End loop.

Lemma pop_pending_raises tenant fid w w' e : _pop_pending tenant fid w = (w', Raise e) → w' = w.
Proof.
  assert (tenant = VNone ∨ tenant ≠ VNone) as [->|Hne] by (destruct tenant; auto);
    unfold _pop_pending.
  - destruct (_pk VNone fid) as [[t f]|]; [|by intros [= <- _]].
    by destruct (filter _ _) as [|[? ?] [|]].
  - destruct tenant; try done; destruct (_pk _ fid); by intros [= <- _].
Qed.

(** ** Messages and runs *)

Section runs.
Context (cfg : config) (repr : val → string) (json_loads : string → option val)
  (enrich : dict → dict) (ch_enabled : bool) (MAX_FINALIZED : nat).

Inductive message :=
| m_candidate (lookup : lookup_fn) (cand : dict) (deadline_secs now : Z)
| m_result (result : dict)
| m_status (status : dict)
| m_sweep (now : Z).

Definition handle (m : message) : M world unit :=
  match m with
  | m_candidate lookup cand d now =>
      _handle_candidate cfg repr json_loads enrich ch_enabled lookup cand d now;* ret tt
  | m_result r => _handle_result cfg repr json_loads enrich ch_enabled r
  | m_status s => _handle_status cfg repr json_loads enrich ch_enabled MAX_FINALIZED s
  | m_sweep now => _sweep_timeouts cfg repr json_loads enrich ch_enabled MAX_FINALIZED now
  end.

(** A message whose handler returned. *)
Definition handled (w w' : world) : Prop := ∃ m, handle m w = (w', Ok tt).

Definition key_of (f : dict) : res pkey := _pk (dgetN "tenant_id" f) (dgetN "finding_id" f).

(** The effects of finalizing [f] as [done]. *)
Definition finalizing (delivered : bool) (done : dict) : list effect :=
  let d := if delivered then done else enrich done in
  (if ch_enabled then [Persist d] else []) ++ [SendFinal d (_pkey repr json_loads d)].

(** The finding of key [k] was finalized and its final version sent. *)
Definition answered (k : pkey) (es : list effect) : Prop :=
  ∃ f done delivered, key_of f = Ok k ∧ revise cfg repr f done ∧
    finalizing delivered done ⊆ es.

Definition world_ok (w : world) : Prop :=
  od_wf (pending w) ∧ od_wf (finalized w) ∧ (length (finalized w) <= MAX_FINALIZED)%nat ∧
  (∀ k e, od_get k (pending w) = Some e → key_of (e_finding e) = Ok k).

(** The effects had between two worlds. *)
Definition since (w w' : world) (es : list effect) : Prop := effects w' = effects w ++ es.

Lemma emit_finalized_run delivered done w :
  _emit_finalized repr json_loads enrich ch_enabled delivered done w =
  ({| pending := pending w; finalized := finalized w;
      effects := effects w ++ finalizing delivered done |}, Ok tt).
Proof.
  clear cfg MAX_FINALIZED. unfold _emit_finalized, _persist, send_final, finalizing, bind, modify, emit, ret.
  destruct ch_enabled; simpl; by rewrite <- ?app_assoc.
Qed.

(** Where an early finalization leaves the world. *)
Definition after_early (e : entry) (done : dict) (k : pkey) (w : world) : world :=
  let d := if e_delivered e then done else enrich done in
  {| pending := pending w;
     finalized := od_bound MAX_FINALIZED (od_to_end k (od_set k (d, e_delivered e) (finalized w)));
     effects := effects w ++ finalizing (e_delivered e) done |}.

Lemma finalize_early_run e w w' :
  finalize_early cfg repr json_loads enrich ch_enabled MAX_FINALIZED e w = (w', Ok tt) →
  ∃ done k, finalize_timeout cfg repr (e_finding e) = Ok done ∧
    key_of (if e_delivered e then done else enrich done) = Ok k ∧ w' = after_early e done k w.
Proof.
  unfold finalize_early. intros H.
  apply bind_inv in H as (done & w1 & [-> Hd]%lift_inv & H).
  apply bind_inv in H as ([] & w2 & H2 & H). rewrite emit_finalized_run in H2. injection H2 as <-.
  unfold _remember_finalized in H.
  apply bind_inv in H as (k & w3 & [-> Hk]%lift_inv & H). injection H as <-.
  by exists done, k.
Qed.

Lemma pop_pending_run tenant fid w w' o :
  _pop_pending tenant fid w = (w', Ok o) →
  match o with
  | Some e => ∃ k, k.2 = match fid with VStr s => Some s | _ => None end ∧
      (k, e) ∈ pending w ∧ (od_wf (pending w) → od_get k (pending w) = Some e) ∧
      w' = set_pending (od_del k (pending w)) w
  | None => w' = w
  end.
Proof.
  clear. assert (Hw : ∀ w, w = set_pending (pending w) w) by by intros [].
  assert (Hpk : ∀ t f k, _pk t f = Ok k → k.2 = match f with VStr s => Some s | _ => None end).
  { unfold _pk. intros t f k H. inv_ok. simpl. destruct f; by inv_ok. }
  assert (tenant = VNone ∨ tenant ≠ VNone) as [->|Hne] by (destruct tenant; auto).
  - unfold _pop_pending. destruct (_pk VNone fid) as [[t f]|] eqn:Ek; [|done].
    pose proof (Hpk VNone fid (t, f) Ek) as Hf. simpl in Hf. intros H.
    destruct (filter _ (pending w)) as [|[k e] [|]] eqn:E; injection H as <- <-; try done.
    assert (Hin : (k, e) ∈ filter (λ kv : pkey * entry, kv.1.2 = f) (pending w)) by (rewrite E; set_solver).
    apply list_elem_of_filter in Hin as [Hk Hin]. simpl in Hk.
    exists k. split_and!; [congruence|done|by intros; apply od_wf_get|done].
  - intros H. assert (∃ k, _pk tenant fid = Ok k ∧ w' = set_pending (od_del k (pending w)) w ∧
                           o = od_get k (pending w)) as (k & Hk & -> & ->).
    { unfold _pop_pending in H.
      destruct tenant; try done; destruct (_pk _ fid) as [k|]; try done; injection H as <- <-; eauto. }
    apply Hpk in Hk. destruct (od_get k (pending w)) as [e|] eqn:E.
    + exists k. split_and!; [done|by apply od_get_elem|done|done].
    + rewrite od_del_absent by done. by destruct w.
Qed.

Lemma candidate_run lookup cand d now w w' f r :
  _handle_candidate cfg repr json_loads enrich ch_enabled lookup cand d now w = (w', Ok (f, r)) →
  ∃ f0, build_finding cfg repr cand (Some lookup) = Ok (f0, r) ∧
    f = (if delivers r then enrich f0 else f0) ∧ finalized w' = finalized w ∧
    (captures r = false ∧ pending w' = pending w ∧
       effects w' = effects w ++ (if ch_enabled then [Persist f0] else []) ++
                    [SendFinal f (_pkey repr json_loads f)]
     ∨ captures r = true ∧ ∃ k job, key_of f = Ok k ∧ capture_job repr json_loads f = Ok job ∧
       pending w' = od_set k {| e_finding := f; e_delivered := delivers r;
                                e_deadline := now + d |} (pending w) ∧
       effects w' = effects w ++ (if ch_enabled then [Persist f0] else []) ++
                    (if delivers r then [SendFinal f (_pkey repr json_loads f)] else []) ++
                    [SendCapture job]).
Proof.
  clear MAX_FINALIZED. unfold _handle_candidate. intros H.
  apply bind_inv in H as ([f0 r0] & w1 & [-> Hb]%lift_inv & H).
  assert (Hp : ∀ f w, _persist ch_enabled f w =
    ({| pending := pending w; finalized := finalized w;
        effects := effects w ++ (if ch_enabled then [Persist f] else []) |}, Ok tt)).
  { intros g v. unfold _persist. destruct ch_enabled; [done|]. rewrite app_nil_r. by destruct v. }
  apply bind_inv in H as ([] & w2 & H2 & H). rewrite Hp in H2. injection H2 as <-.
  apply bind_inv in H as (f1 & w3 & H3 & H).
  assert (f1 = (if delivers r0 then enrich f0 else f0) ∧ w3 =
    {| pending := pending w; finalized := finalized w; effects := effects w ++
         (if ch_enabled then [Persist f0] else []) ++
         (if delivers r0 then [SendFinal f1 (_pkey repr json_loads f1)] else []) |}) as [Hf1 Hw3].
  { destruct (delivers r0).
    - cbn in H3. injection H3 as <- <-. split; [done|]. unfold emit. simpl. by rewrite <- app_assoc.
    - injection H3 as <- <-. rewrite app_nil_r. done. }
  apply bind_inv in H as ([] & w4 & H4 & H). injection H as <- <- <-. subst w3.
  exists f0. split; [done|]. split; [done|]. destruct (captures r0) eqn:Ec.
  - apply bind_inv in H4 as (job & w5 & [-> Hj]%lift_inv & H4).
    apply bind_inv in H4 as ([] & w6 & H6 & H4). injection H6 as <-.
    apply bind_inv in H4 as (fid & w7 & [-> Hfid]%lift_inv & H4).
    apply bind_inv in H4 as (k & w8 & [-> Hk]%lift_inv & H4). injection H4 as <-. simpl.
    split; [done|]. right. split; [done|]. exists k, job. split_and!; try done.
    + unfold key_of, dgetN at 2, dget_or. unfold dindex in Hfid.
      destruct (dget "finding_id" f1); [|done]. by injection Hfid as <-.
    + by rewrite <- !app_assoc.
  - injection H4 as <-. split; [done|]. left. split_and!; try done. by destruct r0.
Qed.

Lemma sweep_one_run k e w w' :
  od_get k (pending w) = Some e →
  sweep_one cfg repr json_loads enrich ch_enabled MAX_FINALIZED k w = (w', Ok tt) →
  ∃ done k', finalize_timeout cfg repr (e_finding e) = Ok done ∧
    key_of (if e_delivered e then done else enrich done) = Ok k' ∧
    w' = after_early e done k' (set_pending (od_del k (pending w)) w).
Proof.
  unfold sweep_one. intros He H.
  apply bind_inv in H as (o & w1 & [= <- <-] & H).
  apply bind_inv in H as ([] & w2 & [= <-] & H). rewrite He in H.
  by apply finalize_early_run in H.
Qed.

Lemma sweep_all_run kvs w w' :
  NoDup (fst <$> kvs) → (∀ kv, kv ∈ kvs → od_get kv.1 (pending w) = Some kv.2) →
  for_each (sweep_one cfg repr json_loads enrich ch_enabled MAX_FINALIZED) (fst <$> kvs) w
    = (w', Ok tt) →
  ∃ dones, Forall2 (λ kv done, finalize_timeout cfg repr (e_finding kv.2) = Ok done) kvs dones ∧
    pending w' = filter (λ kv, kv.1 ∉ fst <$> kvs) (pending w) ∧
    effects w' = effects w ++
      concat (zip_with (λ kv done, finalizing (e_delivered kv.2) done) kvs dones).
Proof.
  revert w; induction kvs as [|[k e] kvs IH]; intros w Hnd Hin H; simpl in H.
  - injection H as <-. exists []. split; [constructor|]. simpl. rewrite app_nil_r. split; [|done].
    clear Hin. induction (pending w) as [|kv p IHp]; [done|].
    rewrite filter_cons, decide_True by set_solver. f_equal. exact IHp.
  - apply NoDup_cons in Hnd as [Hk Hnd].
    apply bind_inv in H as ([] & w1 & H1 & H).
    apply (sweep_one_run k e) in H1 as (done & k' & Hd & _ & ->); [|by apply (Hin (k, e)); left].
    apply IH in H as (dones & HF & Hp & He); [|done|].
    + exists (done :: dones). split_and!; [by constructor| |].
      * rewrite Hp. simpl. unfold od_del. rewrite list_filter_filter.
        apply list_filter_iff. intros [k2 e2]. simpl. rewrite not_elem_of_cons. tauto.
      * rewrite He. simpl. by rewrite <- app_assoc.
    + intros [k2 e2] Hin2. simpl. rewrite od_get_del_ne.
      * apply (Hin (k2, e2)). by right.
      * intros ->. apply Hk. by apply (list_elem_of_fmap_2 fst) in Hin2.
Qed.

(** Every finding that waited is still owed an answer or has got one. *)
Definition owed (k : pkey) (w : world) : Prop :=
  is_Some (od_get k (pending w)) ∨ answered k (effects w).
Definition sound (w w' : world) : Prop := world_ok w' ∧ ∀ k, owed k w → owed k w'.

Lemma answered_mono k es es' : answered k es → answered k (es ++ es').
Proof. intros (f & done & b & ? & ? & ?). exists f, done, b. set_solver. Qed.

Lemma sound_trans w1 w2 w3 : sound w1 w2 → sound w2 w3 → sound w1 w3.
Proof. unfold sound. naive_solver. Qed.

Lemma sound_finalize k e done w w' :
  world_ok w → od_get k (pending w) = Some e → revise cfg repr (e_finding e) done →
  pending w' = od_del k (pending w) → od_wf (finalized w') →
  (length (finalized w') <= MAX_FINALIZED)%nat →
  effects w' = effects w ++ finalizing (e_delivered e) done → sound w w'.
Proof.
  intros (Hwf & _ & _ & Hkeys) He Hr Hp Hf Hl Heff. split.
  - unfold world_ok. rewrite Hp. split_and!; auto using od_wf_del.
    intros k' e'. rewrite od_get_del. case_decide; [done|]. apply Hkeys.
  - intros k' [Hk'|Ha]; [|right; rewrite Heff; by apply answered_mono].
    destruct (decide (k' = k)) as [->|Hne].
    + right. exists (e_finding e), done, (e_delivered e). rewrite Heff.
      split_and!; [by apply Hkeys|done|set_solver].
    + left. by rewrite Hp, od_get_del_ne.
Qed.

(** Nothing leaves [pending], and the findings put there are filed under their key. *)
Lemma sound_keep w w' es :
  od_wf (pending w') → (∀ k e, od_get k (pending w') = Some e → key_of (e_finding e) = Ok k) →
  (∀ k, is_Some (od_get k (pending w)) → is_Some (od_get k (pending w'))) →
  od_wf (finalized w') → (length (finalized w') <= MAX_FINALIZED)%nat → since w w' es →
  sound w w'.
Proof.
  intros Hwf Hkeys Hp Hf Hl Heff. split; [done|].
  intros k [Hk|Ha]; [left; auto|right]. rewrite Heff. by apply answered_mono.
Qed.

Lemma sound_refl w : world_ok w → sound w w.
Proof. done. Qed.

Lemma length_od_del k (m : list (pkey * (dict * bool))) : (length (od_del k m) <= length m)%nat.
Proof. apply length_filter. Qed.

Lemma sound_early k e done k' w :
  world_ok w → od_get k (pending w) = Some e → finalize_timeout cfg repr (e_finding e) = Ok done →
  sound w (after_early e done k' (set_pending (od_del k (pending w)) w)).
Proof.
  intros Hok He Hd. pose proof Hok as (Hwf & Hf & Hl & Hkeys).
  eapply sound_finalize; try done; [by apply revise_timeout| |apply od_length_bound].
  simpl. auto using od_wf_bound, od_wf_to_end, od_wf_set.
Qed.

Lemma handled_sound w w' : world_ok w → handled w w' → sound w w'.
Proof.
  intros Hok [m H]. pose proof Hok as (Hwf & Hf & Hl & Hkeys).
  destruct m as [lookup cand d now|result|status|now]; simpl in H.
  - apply bind_inv in H as ([f r] & w1 & H & [= <-]).
    apply candidate_run in H as (f0 & _ & -> & Hfin & [(_ & Hp & He)|(_ & k & job & Hk & _ & Hp & He)]).
    + eapply sound_keep; rewrite ?Hp, ?Hfin; eauto.
    + eapply sound_keep; rewrite ?Hp, ?Hfin; eauto using od_wf_set.
      * intros k' e'. rewrite od_get_set. case_decide; [intros [= <-]; subst; done|apply Hkeys].
      * intros k' Hk'. rewrite od_get_set. case_decide; [by eexists|done].
  - unfold _handle_result in H. apply bind_inv in H as (o & w1 & H1 & H).
    apply pop_pending_run in H1. destruct o as [e|].
    + destruct H1 as (k & _ & _ & He & ->). apply bind_inv in H as (done & w2 & [-> Hd]%lift_inv & H).
      rewrite emit_finalized_run in H. injection H as <-.
      eapply sound_finalize; eauto. by eapply revise_result.
    + subst w1. apply bind_inv in H as (k & w2 & [-> _]%lift_inv & H).
      apply bind_inv in H as (prev & w3 & [= <- <-] & H).
      apply bind_inv in H as ([] & w4 & [= <-] & H).
      pose proof (length_od_del k (finalized w)).
      destruct (od_get k (finalized w)) as [[f b]|].
      * apply bind_inv in H as (done & w5 & [-> _]%lift_inv & H).
        rewrite emit_finalized_run in H. injection H as <-.
        eapply sound_keep; simpl; eauto using od_wf_del; [lia|reflexivity].
      * injection H as <-. eapply (sound_keep _ _ []); simpl; eauto using od_wf_del; [lia|].
        unfold since. simpl. by rewrite app_nil_r.
  - unfold _handle_status in H. destruct (terminal_status status); [|injection H as <-; by apply sound_refl].
    apply bind_inv in H as (o & w1 & H1 & H). apply pop_pending_run in H1. destruct o as [e|].
    + destruct H1 as (k & _ & _ & He & ->). apply finalize_early_run in H as (done & k' & Hd & _ & ->).
      eapply sound_early; eauto.
    + subst w1. injection H as <-. by apply sound_refl.
  - unfold _sweep_timeouts in H. apply bind_inv in H as (ks & w1 & [= <- <-] & H).
    revert H. generalize (due now (pending w)). intros ks H.
    revert w Hok H Hwf Hf Hl Hkeys.
    induction ks as [|k ks IH]; intros v Hok H Hwf Hf Hl Hkeys; simpl in H.
    { injection H as <-. by apply sound_refl. }
    apply bind_inv in H as ([] & v1 & H1 & H).
    destruct (od_get k (pending v)) as [e|] eqn:Ek.
    + apply (sweep_one_run _ _ _ _ Ek) in H1 as (done & k' & Hd & _ & ->).
      assert (Hs : sound v (after_early e done k' (set_pending (od_del k (pending v)) v)))
        by by eapply sound_early.
      apply (sound_trans _ _ _ Hs). pose proof Hs as [Hok' _].
      apply (IH _ Hok' H); apply Hok'.
    + unfold sweep_one in H1. apply bind_inv in H1 as (o & w2 & [= <- <-] & H1).
      apply bind_inv in H1 as ([] & w3 & [= <-] & H1). by rewrite Ek in H1.
Qed.

Lemma runs_sound w w' : world_ok w → rtc handled w w' → sound w w'.
Proof.
  intros Hok H. revert Hok. induction H as [|w1 w2 w3 H _ IH]; intros Hok; [done|].
  pose proof (handled_sound _ _ Hok H) as Hs. apply (sound_trans _ _ _ Hs). apply IH, Hs.
Qed.
End runs.

(** ** Facts about the quality cache and the recovery *)

Definition put_all (c : quality_cache) (puts : list (val * Z)) : quality_cache :=
  foldl (λ c rn, quality_put c rn.1 rn.2) c puts.

(** What is stored came from one of the [puts]. *)
Definition cache_ok (maximum : nat) (ttl : Z) (puts : list (val * Z)) (c : quality_cache) : Prop :=
  qc_ttl c = ttl ∧ qc_maximum c = maximum ∧ od_wf (qc_records c) ∧
  (length (qc_records c) <= maximum)%nat ∧
  ∀ t s e, od_get (t, s) (qc_records c) = Some e →
    ∃ rec, (rec, qe_received e) ∈ puts ∧
           quality_sample rec = Some (t, s, qe_observed e, qe_record e).

Lemma quality_put_ok maximum ttl puts c r now :
  cache_ok maximum ttl puts c → cache_ok maximum ttl (puts ++ [(r, now)]) (quality_put c r now).
Proof.
  intros (Ht & Hm & Hwf & Hl & Hsrc).
  assert (Hsame : cache_ok maximum ttl (puts ++ [(r, now)]) c).
  { split_and!; try done. intros t s e He. destruct (Hsrc _ _ _ He) as (rec & ? & ?).
    exists rec. split; [set_solver|done]. }
  unfold quality_put. destruct (quality_sample r) as [[[[t s] obs] rec]|] eqn:Er; [|done].
  set (e := {| qe_record := rec; qe_observed := obs; qe_received := now |}).
  set (m := od_to_end (t, s) (od_set (t, s) e (qc_records c))).
  assert (Hm' : od_wf m) by (unfold m; auto using od_wf_to_end, od_wf_set).
  match goal with |- context [match ?x with Some _ => if _ then _ else ?st | None => _ end] =>
    assert (Hst : cache_ok maximum ttl (puts ++ [(r, now)]) st) end.
  { split_and!; simpl; try done; [by apply od_wf_bound|rewrite Hm; apply od_length_bound|].
    intros t' s' e' He. apply od_get_bound in He; [|done].
    assert (Hm2 : od_get (t', s') m = od_get (t', s') (od_set (t, s) e (qc_records c))).
    { unfold m, od_to_end. rewrite od_get_set_eq.
      destruct (decide ((t', s') = (t, s))) as [E|Hne].
      - rewrite E, od_get_set_eq. apply od_wf_get; [|set_solver].
        unfold m, od_to_end in Hm'. by rewrite od_get_set_eq in Hm'.
      - rewrite od_get_set_ne by done.
        destruct (od_get (t', s') (qc_records c)) as [e2|] eqn:E2.
        + apply od_wf_get; [unfold m, od_to_end in Hm'; by rewrite od_get_set_eq in Hm'|].
          apply elem_of_app. left. apply od_get_elem. by rewrite od_get_del_ne, od_get_set_ne.
        + apply od_get_none. intros Hin. unfold od_keys in Hin.
          rewrite fmap_app in Hin. apply elem_of_app in Hin as [Hin|Hin]; [|set_solver].
          revert Hin. apply od_get_none. by rewrite od_get_del_ne, od_get_set_ne. }
    rewrite Hm2, od_get_set in He. case_decide as E.
    - injection He as <-. injection E as -> ->. exists r. split; [set_solver|done].
    - destruct (Hsrc _ _ _ He) as (rec' & ? & ?). exists rec'. split; [set_solver|done]. }
  destruct (od_get _ (qc_records c)) as [prior|]; [|done]. by destruct (_ <=? _).
Qed.

Lemma put_all_ok maximum ttl puts puts' c :
  cache_ok maximum ttl puts c → cache_ok maximum ttl (puts ++ puts') (put_all c puts').
Proof.
  revert puts c; induction puts' as [|[r now] puts' IH]; intros puts c Hc; simpl.
  - by rewrite app_nil_r.
  - replace (puts ++ (r, now) :: puts') with ((puts ++ [(r, now)]) ++ puts')
      by by rewrite <- app_assoc.
    apply IH. by apply quality_put_ok.
Qed.

Section recovery.
Context (json_loads : string → option val) (RECOVERY_PAGE RECOVERY_MAX : nat).

Lemma pending_from_rows_app now p a b :
  pending_from_rows json_loads now p (a ++ b) =
  (p' ← pending_from_rows json_loads now p a; pending_from_rows json_loads now p' b).
Proof.
  revert p; induction a as [|r a IH]; intros p; simpl; [done|].
  destruct (recover_row json_loads now p r); simpl; [apply IH|done].
Qed.

(** A database that answers a page with the rows it holds. *)
Definition paged (rows : list dict) (offset : nat) : option (list dict) :=
  Some (take RECOVERY_PAGE (drop offset rows)).

Lemma recovery_pages_spec rows now fuel p offset :
  (0 < RECOVERY_PAGE)%nat → (offset <= length rows)%nat → (length rows - offset < fuel)%nat →
  pending_from_rows json_loads now [] (take offset rows) = Ok p →
  ∃ r, recovery_pages json_loads (paged rows) RECOVERY_PAGE RECOVERY_MAX fuel now p offset = Some r ∧
    (∀ q, r = (q, true) → pending_from_rows json_loads now [] rows = Ok q) ∧
    (∀ q, pending_from_rows json_loads now [] rows = Ok q → (length rows < RECOVERY_MAX)%nat →
       r = (q, true)).
Proof.
  intros Hpage. revert p offset. induction fuel as [|fuel IH]; intros p offset Ho Hf Hp; [lia|].
  cbn [recovery_pages]. unfold paged at 1.
  destruct (take RECOVERY_PAGE (drop offset rows)) as [|x xs] eqn:E.
  { assert (length rows <= offset)%nat.
    { apply (f_equal length) in E. rewrite length_take, length_drop in E. simpl in E. lia. }
    rewrite take_ge in Hp by done. eexists. split; [done|]. split; congruence. }
  set (ys := x :: xs) in *.
  assert (Hlen : length ys = Nat.min RECOVERY_PAGE (length rows - offset)).
  { rewrite <- E, length_take, length_drop. done. }
  assert (Hys : (0 < length ys)%nat) by (simpl; lia).
  assert (Htk : take (offset + length ys) rows = take offset rows ++ ys).
  { assert (Hself : ∀ n (l : list dict), take (length (take n l)) l = take n l).
    { intros n l. revert n. induction l; intros [|n]; simpl; f_equal; auto. }
    rewrite <- take_take_drop. f_equal. rewrite <- E. apply Hself. }
  cbn [recovery_pages] in *. change (length (x :: xs)) with (length ys).
  change (pending_from_rows json_loads now p (x :: xs)) with (pending_from_rows json_loads now p ys).
  clearbody ys. pose proof (pending_from_rows_app now [] (take offset rows) ys) as Happ.
  rewrite Hp, <- Htk, bind_ok in Happ.
  destruct (pending_from_rows json_loads now p ys) as [q|e] eqn:Eq.
  - destruct (length ys <? RECOVERY_PAGE)%nat eqn:El.
    + apply Nat.ltb_lt in El. rewrite take_ge in Happ by lia.
      eexists. split; [done|]. split; congruence.
    + apply Nat.ltb_ge in El. destruct (RECOVERY_MAX <=? offset + length ys)%nat eqn:Em.
      * apply Nat.leb_le in Em. eexists. split; [done|]. split; [congruence|lia].
      * apply IH; [lia|lia|done].
  - eexists. split; [done|]. split; [congruence|]. intros q Hq.
    rewrite <- (take_drop (offset + length ys) rows), pending_from_rows_app, Happ in Hq. done.
Qed.
End recovery.

Definition empty_world : world := {| pending := []; finalized := []; effects := [] |}.

(** ** Properties *)

Section properties.
Context (cfg : config) (repr : val → string) (json_loads : string → option val)
  (enrich : dict → dict) (ch_enabled : bool) (MAX_FINALIZED : nat).

Notation handled := (handled cfg repr json_loads enrich ch_enabled MAX_FINALIZED).
Notation answered := (answered cfg repr json_loads enrich ch_enabled).
Notation finalizing := (finalizing repr json_loads enrich ch_enabled).

Lemma empty_world_ok : world_ok MAX_FINALIZED empty_world.
Proof. split_and!; simpl; try done; [constructor..|lia]. Qed.

(** C1. No capture-bound finding is left dangling.  Take any run of the service from
    its empty state, a candidate that is sent for capture, and any run after that:
    the finding is still pending, or a later revision of a finding with its key was
    persisted and sent to the final topic.  The cache of finalized findings stays
    within its bound throughout. *)
Theorem no_finding_dangles w lookup cand d now w1 f r k w2 :
  rtc handled empty_world w →
  _handle_candidate cfg repr json_loads enrich ch_enabled lookup cand d now w = (w1, Ok (f, r)) →
  captures r = true → key_of f = Ok k → rtc handled w1 w2 →
  (is_Some (od_get k (pending w2)) ∨ answered k (effects w2)) ∧
  (length (finalized w2) <= MAX_FINALIZED)%nat.
Proof.
  intros H0 Hc Hcap Hk H2.
  pose proof (runs_sound _ _ _ _ _ _ _ _ empty_world_ok H0) as [Hok _].
  assert (Hh : handled w w1).
  { exists (m_candidate lookup cand d now). simpl. unfold bind. by rewrite Hc. }
  pose proof (handled_sound _ _ _ _ _ _ _ _ Hok Hh) as [Hok1 _].
  pose proof (runs_sound _ _ _ _ _ _ _ _ Hok1 H2) as [(_ & _ & Hl & _) Howed].
  split; [|done]. apply (Howed k). left.
  apply candidate_run in Hc as (f0 & _ & _ & _ & [[? _]|(_ & k' & job & Hk' & _ & -> & _)]); [congruence|].
  rewrite Hk in Hk'. injection Hk' as <-. rewrite od_get_set_eq. by eexists.
Qed.

(** The timeout sweep does exactly its work: the entries whose deadline has come
    leave [pending], in order, each finalized by [finalize_timeout] and sent once;
    every other entry stays, and nothing else is emitted. *)
Theorem sweep_finalizes_due now w w' :
  od_wf (pending w) →
  _sweep_timeouts cfg repr json_loads enrich ch_enabled MAX_FINALIZED now w = (w', Ok tt) →
  pending w' = filter (λ kv, now < e_deadline kv.2) (pending w) ∧
  ∃ dones,
    Forall2 (λ kv done, finalize_timeout cfg repr (e_finding kv.2) = Ok done)
      (filter (λ kv : pkey * entry, e_deadline kv.2 <= now) (pending w)) dones ∧
    effects w' = effects w ++ concat (zip_with (λ kv done, finalizing (e_delivered kv.2) done)
      (filter (λ kv : pkey * entry, e_deadline kv.2 <= now) (pending w)) dones).
Proof.
  intros Hwf H. unfold _sweep_timeouts in H. apply bind_inv in H as (ks & w1 & [= <- <-] & H).
  unfold due in H. apply sweep_all_run in H as (dones & HF & Hp & He).
  - split; [|by exists dones]. rewrite Hp. clear HF He.
    apply filter_ext_in. intros [k e] Hin. simpl. split.
    + intros Hn. destruct (decide (e_deadline e <= now)); [|lia]. exfalso. apply Hn.
      apply list_elem_of_fmap. exists (k, e). split; [done|]. by apply list_elem_of_filter.
    + intros Hlt ([k' e'] & -> & [Hd Hin']%list_elem_of_filter)%list_elem_of_fmap.
      simpl in *. pose proof (od_wf_get _ _ _ Hwf Hin). pose proof (od_wf_get _ _ _ Hwf Hin').
      simplify_eq. lia.
  - unfold od_wf, od_keys in Hwf. revert Hwf. clear. generalize (pending w). intros p.
    induction p as [|kv p IH]; [done|]. rewrite fmap_cons, filter_cons. intros [Hk Hp]%NoDup_cons.
    destruct (decide _); [|by apply IH]. apply NoDup_cons. split; [|by apply IH].
    intros (kv' & E & [_ Hin]%list_elem_of_filter)%list_elem_of_fmap. apply Hk. rewrite E.
    by apply list_elem_of_fmap_2.
  - intros [k e] [_ Hin]%list_elem_of_filter. by apply od_wf_get.
Qed.

(** Handling a result changes [pending] only by popping an entry. *)
Lemma handle_result_pending result w w' o :
  _handle_result cfg repr json_loads enrich ch_enabled result w = (w', o) →
  pending w' = pending (_pop_pending (dgetN "tenant_id" result) (dgetN "finding_id" result) w).1.
Proof.
  unfold _handle_result, bind. intros H.
  destruct (_pop_pending _ _ w) as [w1 [[e|]|x]]; simpl; [| |by injection H as <- _].
  - destruct (apply_enrichment_result cfg repr (e_finding e) result); simpl in H;
      [rewrite emit_finalized_run in H|]; by injection H as <- _.
  - unfold lift, read, modify, ret in H. simpl in H.
    destruct (_pk _ _); [|by injection H as <- _].
    destruct (od_get _ (finalized w1)) as [[f b]|]; [|by injection H as <- _].
    destruct (apply_enrichment_result cfg repr f result);
      [rewrite emit_finalized_run in H|]; by injection H as <- _.
Qed.

(** A named tenant confines the pop to its own key. *)
Lemma pop_pending_named ten fid w k :
  ten ≠ VNone → od_get k (pending (_pop_pending ten fid w).1) ≠ od_get k (pending w) → _pk ten fid = Ok k.
Proof.
  clear. intros Ht Hk.
  assert (H : (∃ k2, _pk ten fid = Ok k2 ∧ pending (_pop_pending ten fid w).1 = od_del k2 (pending w)) ∨
              pending (_pop_pending ten fid w).1 = pending w).
  { unfold _pop_pending. destruct ten; try done; destruct (_pk _ _) as [k2|]; simpl; eauto. }
  destruct H as [(k2 & Hk2 & Hw)|Hw]; [|by rewrite Hw in Hk]. rewrite Hk2. f_equal.
  destruct (decide (k = k2)) as [|Hne]; [done|]. exfalso. apply Hk. rewrite Hw. by rewrite od_get_del_ne.
Qed.

(** Without a tenant, an id that two tenants share pops nothing. *)
Lemma pop_pending_ambiguous fid w k1 k2 :
  k1 ∈ od_keys (pending w) → k2 ∈ od_keys (pending w) → k1 ≠ k2 → k1.2 = k2.2 →
  k1.2 = match fid with VStr s => Some s | _ => None end → pending (_pop_pending VNone fid w).1 = pending w.
Proof.
  clear. intros H1 H2 Hne Heq Hf. unfold _pop_pending.
  destruct (_pk VNone fid) as [[t f]|x] eqn:Ek; [|done].
  assert (Hf' : f = k1.2).
  { rewrite Hf. unfold _pk in Ek. simpl in Ek. destruct fid; try done; by injection Ek as _ <-. }
  subst f. destruct (filter _ (pending w)) as [|[k e'] [|]] eqn:E; try done.
  exfalso. apply Hne. apply list_elem_of_fmap in H1 as ([k1' e1] & -> & H1).
  apply list_elem_of_fmap in H2 as ([k2' e2] & -> & H2). simpl in *.
  assert (∀ x, x ∈ pending w → x.1.2 = k1'.2 → x = (k, e')) as Hone.
  { intros x Hx Hx2.
    assert (Hin : x ∈ filter (λ kv : pkey * entry, kv.1.2 = k1'.2) (pending w)) by by apply list_elem_of_filter.
    rewrite E in Hin. by apply list_elem_of_singleton in Hin. }
  pose proof (Hone _ H1 eq_refl). pose proof (Hone _ H2 (eq_sym Heq)). congruence.
Qed.

(** An outcome is never applied to another tenant's finding: whatever a result
    message says and even if handling it raises, [pending] changes at most at one
    entry of the named finding id, at the named tenant if there is one; and when no
    tenant is named and two tenants share the id, [pending] does not change at all. *)
Theorem result_stays_in_tenant result w w' o :
  od_wf (pending w) → 
  _handle_result cfg repr json_loads enrich ch_enabled result w = (w', o) →
  (∀ k, od_get k (pending w') ≠ od_get k (pending w) →
     k.2 = match dgetN "finding_id" result with VStr s => Some s | _ => None end ∧
     (dgetN "tenant_id" result ≠ VNone →
      _pk (dgetN "tenant_id" result) (dgetN "finding_id" result) = Ok k)) ∧
  (∀ k1 k2, k1 ∈ od_keys (pending w) → k2 ∈ od_keys (pending w) → k1 ≠ k2 → k1.2 = k2.2 →
     k1.2 = match dgetN "finding_id" result with VStr s => Some s | _ => None end →
     dgetN "tenant_id" result = VNone → pending w' = pending w).
Proof.
  intros Hwf H. apply handle_result_pending in H. rewrite H. clear H. split.
  - intros k Hk. split; [|intros Ht; by eapply pop_pending_named].
    destruct (_pop_pending _ _ w) as [w1 [e|x]] eqn:Hpop; simpl in Hk.
    2:{ rewrite (pop_pending_raises _ _ _ _ _ Hpop) in Hk. by contradict Hk. }
    apply pop_pending_run in Hpop. destruct e as [e|]; [|by subst].
    destruct Hpop as (k' & Hf & _ & _ & ->). destruct (decide (k = k')) as [->|Hne]; [done|].
    exfalso. apply Hk. simpl. by rewrite od_get_del_ne.
  - intros k1 k2 H1 H2 Hne Heq Hf Ht. rewrite Ht. exact (pop_pending_ambiguous _ w k1 k2 H1 H2 Hne Heq Hf).
Qed.

(** A late result re-opens a finding that was finalized early, once: it is
    finalized again from its cached version as the next revision and leaves the
    cache, and a duplicate of that result (like any unknown one) changes nothing. *)
Theorem late_result_reopens_once result w k f b done :
  dgetN "tenant_id" result ≠ VNone → od_get k (pending w) = None →
  _pk (dgetN "tenant_id" result) (dgetN "finding_id" result) = Ok k →
  od_get k (finalized w) = Some (f, b) →
  apply_enrichment_result cfg repr f result = Ok done →
  let w1 := {| pending := pending w; finalized := od_del k (finalized w);
               effects := effects w ++ finalizing true done |} in
  _handle_result cfg repr json_loads enrich ch_enabled result w = (w1, Ok tt) ∧
  _handle_result cfg repr json_loads enrich ch_enabled result w1 = (w1, Ok tt).
Proof.
  intros Ht Hnone Hk Hf Hd w1.
  assert (Hpop : ∀ v, od_get k (pending v) = None →
    _pop_pending (dgetN "tenant_id" result) (dgetN "finding_id" result) v = (v, Ok None)).
  { intros v Hv. unfold _pop_pending. destruct (dgetN "tenant_id" result); try done;
      rewrite Hk, Hv, od_del_absent by done; by destruct v. }
  assert (Hdel : od_del k (od_del k (finalized w)) = od_del k (finalized w))
    by (apply od_del_absent, od_get_del_eq).
  unfold _handle_result, bind. rewrite !Hpop by done. unfold lift, read, modify. rewrite Hk, Hf, Hd.
  rewrite emit_finalized_run. split; [done|]. simpl. by rewrite od_get_del_eq, Hdel.
Qed.
End properties.

Definition no_json : string → option val := λ _, None.
Definition same : dict → dict := λ f, f.
Definition unknown_lookup : lookup_fn := λ _ _, None.
Definition run_candidate (cand : dict) (w : world) : world * res (dict * route) :=
  _handle_candidate default_config no_repr no_json same true unknown_lookup cand 120 1000 w.
Definition captured_world : world := (run_candidate sample_candidate empty_world).1.
Definition captured_finding : dict :=
  match (run_candidate sample_candidate empty_world).2 with Ok (f, _) => f | Raise _ => [] end.
Definition sweep_at (now : Z) (w : world) : world :=
  (_sweep_timeouts default_config no_repr no_json same true 10 now w).1.
Definition sample_key : pkey := ("t", Some "f1").

Lemma no_finding_dangles_witness :
  is_Some (od_get sample_key (pending (sweep_at 1120 captured_world))) ∨
  answered default_config no_repr no_json same true sample_key
    (effects (sweep_at 1120 captured_world)).
Proof.
  apply (no_finding_dangles default_config no_repr no_json same true 10 empty_world
    unknown_lookup sample_candidate 120 1000 captured_world captured_finding capture sample_key).
  - apply rtc_refl.
  - vm_compute. reflexivity.
  - reflexivity.
  - vm_compute. reflexivity.
  - apply rtc_once. exists (m_sweep 1120). vm_compute. reflexivity.
Defined.

Lemma sweep_finalizes_due_witness : pending (sweep_at 1120 captured_world) = [].
Proof.
  destruct (sweep_finalizes_due default_config no_repr no_json same true 10 1120 captured_world
    (sweep_at 1120 captured_world)) as [Hp _].
  - vm_compute. repeat constructor; set_solver.
  - vm_compute. reflexivity.
  - rewrite Hp. vm_compute. reflexivity.
Defined.

Definition other_result : dict :=
  [("tenant_id", VStr "u"); ("finding_id", VStr "f1"); ("status", VStr "ok")].
Definition result_on (result : dict) (w : world) : world * res unit :=
  _handle_result default_config no_repr no_json same true result w.

Lemma result_stays_in_tenant_witness :
  od_get sample_key (pending (result_on other_result captured_world).1)
  = od_get sample_key (pending captured_world).
Proof.
  destruct (result_stays_in_tenant default_config no_repr no_json same true other_result
    captured_world (result_on other_result captured_world).1
    (result_on other_result captured_world).2) as [H _].
  - vm_compute. repeat constructor; set_solver.
  - reflexivity.
  - vm_compute. reflexivity.
Defined.

Definition late_result : dict :=
  [("tenant_id", VStr "t"); ("finding_id", VStr "f1"); ("status", VStr "ok")].
Definition timed_finding : dict :=
  match od_get sample_key (finalized (sweep_at 1120 captured_world)) with
  | Some (f, _) => f | None => [] end.

Lemma late_result_reopens_once_witness :
  finalized (result_on late_result (sweep_at 1120 captured_world)).1 = [].
Proof.
  pose proof (proj1 (late_result_reopens_once default_config no_repr no_json same true late_result
    (sweep_at 1120 captured_world) sample_key timed_finding false
    (enriched late_result timed_finding) ltac:(discriminate) ltac:(vm_compute; reflexivity)
    ltac:(vm_compute; reflexivity) ltac:(vm_compute; reflexivity)
    ltac:(vm_compute; reflexivity))) as H.
  unfold result_on. rewrite H. vm_compute. reflexivity.
Defined.

(** The quality cache is bounded and never serves a stale or invented verdict: it
    holds at most [maximum] sensors, and an answer other than [unknown] is the record
    of a well-formed sample that was put for that tenant and sensor, whose receipt
    and observation are both younger than the time to live. *)
Theorem quality_cache_bounded_fresh ttl maximum c0 puts tenant sensor now :
  quality_cache_new ttl maximum = Ok c0 →
  let c := put_all c0 puts in
  Z.of_nat (length (qc_records c)) <= maximum ∧
  (dgetN "quality" (quality_lookup c tenant sensor now) = VStr "unknown" ∨
   ∃ record received t observed,
     (record, received) ∈ puts ∧ tenant = VStr t ∧
     quality_sample record = Some (t, sensor, observed, quality_lookup c tenant sensor now) ∧
     now - received < ttl ∧ now - observed < ttl).
Proof.
  intros H c. unfold quality_cache_new in H.
  apply bind_ok_inv in H as ([] & Hc & [= <-]). apply check_ok_inv in Hc. to_prop.
  assert (Hok : cache_ok (Z.to_nat maximum) ttl puts c).
  { apply (put_all_ok _ _ []). split_and!; simpl; try done; [constructor|lia]. }
  destruct Hok as (Httl & _ & _ & Hl & Hsrc). split; [lia|].
  unfold quality_lookup. destruct tenant as [| | | |t| |]; auto.
  destruct (od_get (t, sensor) (qc_records c)) as [e|] eqn:E; [|auto].
  destruct (_ || _) eqn:Est; [auto|]. right. rewrite Httl in Est. to_prop.
  destruct (Hsrc _ _ _ E) as (rec & Hin & Hs).
  exists rec, (qe_received e), t, (qe_observed e). split_and!; try done; lia.
Qed.

Definition degraded_sample : val := VDict [
  ("schema_version", VStr "sensor-quality.v1"); ("tenant_id", VStr "t");
  ("sensor_id", VStr "s1"); ("quality", VStr "degraded"); ("reasons", VList []);
  ("observed_at", VStr "1970-01-01T00:00:01Z")].
Definition small_cache : quality_cache :=
  {| qc_ttl := 300000000; qc_maximum := 1; qc_records := [] |}.

Lemma quality_cache_bounded_fresh_witness :
  Z.of_nat (length (qc_records (put_all small_cache [(degraded_sample, 2000000)]))) <= 1.
Proof.
  apply (quality_cache_bounded_fresh 300000000 1 small_cache [(degraded_sample, 2000000)]
           (VStr "t") "s1" 3000000). reflexivity.
Defined.

(** Recovery after a restart is complete or says so.  Against a database that
    pages the unfinished rows, the paging loop ends; when it reports success the
    recovered map is the one of all the rows, and it does report success whenever
    the rows are readable and fewer than the ceiling. *)
Theorem recovery_complete_or_reported json_loads page maximum rows now fuel :
  (0 < page)%nat → (length rows < fuel)%nat →
  ∃ r, _load_pending_from_ch json_loads true (paged page rows) page maximum fuel now = Some r ∧
    (∀ p, r = (p, true) → pending_from_rows json_loads now [] rows = Ok p) ∧
    (∀ p, pending_from_rows json_loads now [] rows = Ok p → (length rows < maximum)%nat →
       r = (p, true)).
Proof. intros Hp Hf. apply recovery_pages_spec; [done|lia|lia|done]. Qed.

Definition pending_row (fid : string) : dict := [("finding_id", VStr fid);
  ("tenant_id", VStr "t"); ("state", VStr "FINAL"); ("enrichment_state", VStr "PENDING")].

Lemma recovery_complete_or_reported_witness :
  ∃ r, _load_pending_from_ch no_json true (paged 2 (pending_row <$> ["a"; "b"; "c"])) 2 10 4 7
       = Some r ∧ length r.1 = 3%nat.
Proof.
  destruct (recovery_complete_or_reported no_json 2 10 (pending_row <$> ["a"; "b"; "c"]) 7 4)
    as (r & Hr & _ & Hok); [lia|simpl; lia|].
  exists r. split; [exact Hr|]. erewrite Hok; [| |simpl; lia]; [|vm_compute; reflexivity].
  vm_compute. reflexivity.
Defined.
