(* ===== verification/AssetBindings.v ===== *)
(** * Time-bounded identity bindings (services/asset-service/resolution.py)

    Who owns an address at an instant.  Stored timestamps are canonical (whole
    milliseconds) and are represented by their instant, so [_iso] is [trunc_ms] and
    reading a stored timestamp back is the identity. *)

From stdpp Require Import sorting.
From S2P Require Import Prelude Order PyVal PyTime OrderedMap.
Set Default Proof Using "Type".

Record lease := {
  l_mac : string; l_from : Z; l_expires : option Z; l_obs : string; l_src : string
}.
#[export] Instance lease_eq_dec : EqDecision lease.
Proof. solve_decision. Defined.

Definition bindings := list (string * list lease).

(** [None] for a missing or zero lease time. *)
Definition lease_expiry (ts : Z) (lease_secs : option Z) : option Z :=
  match lease_secs with
  | Some n => if n =? 0 then None else Some (trunc_ms (ts + n * 1000000))
  | None => None
  end.

(** The identity of a record: MAC, start and evidence. *)
Definition lease_key (c : lease) : string * Z * string := (l_mac c, l_from c, l_obs c).

Definition record_binding (bs : bindings) (ip mac : string) (valid_from : Z) (expires : option Z)
    (obs_id src : string) : bindings :=
  let lst := default [] (od_get ip bs) in
  let b := {| l_mac := lower mac; l_from := trunc_ms valid_from;
              l_expires := trunc_ms <$> expires; l_obs := obs_id; l_src := src |} in
  if mem (lease_key b) (lease_key <$> lst) then od_set ip lst bs else od_set ip (lst ++ [b]) bs.

Definition _lease_id (c : lease) : string * string := (l_obs c, l_mac c).

(** One lease taken into account: it replaces a winner of a larger lease id. *)
Definition claim_start (by_start : list (Z * lease)) (c : lease) : list (Z * lease) :=
  match od_get (l_from c) by_start with
  | None => od_set (l_from c) c by_start
  | Some prev =>
      if ltb (_lease_id c) (_lease_id prev) then od_set (l_from c) c by_start else by_start
  end.
Definition _winning_by_start (leases : list lease) : list (Z * lease) := foldl claim_start [] leases.

Definition opt_min (a b : option Z) : option Z :=
  match a, b with
  | Some x, Some y => Some (Z.min x y)
  | Some x, None | None, Some x => Some x
  | None, None => None
  end.

(** The end of a winning claim; [next] is the next distinct start. *)
Definition _lease_end (c : lease) (next : option Z) : option Z := opt_min next (l_expires c).

Definition before (t : Z) (e : option Z) : bool :=
  match e with Some e => t <? e | None => true end.

Fixpoint owner_scan (win : list (Z * lease)) (t : Z) (starts : list Z) : option lease :=
  match starts with
  | [] => None
  | s :: rest =>
      match od_get s win with
      | Some c => if (s <=? t) && before t (_lease_end c (head rest)) then Some c
                  else owner_scan win t rest
      | None => owner_scan win t rest
      end
  end.

Definition sorted_starts (win : list (Z * lease)) : list Z := isort id (od_keys win).

(** The lease that owns the address at [t]; [owner_at] is its MAC. *)
Definition owner_lease (leases : list lease) (t : Z) : option lease :=
  let win := _winning_by_start leases in owner_scan win t (sorted_starts win).
Definition owner_at (leases : list lease) (t : Z) : option string := l_mac <$> owner_lease leases t.

Definition resolve_mac (bs : bindings) (ip : string) (ts : Z) : option string :=
  owner_at (default [] (od_get ip bs)) ts.

(** ** The derived interval cache *)

Record ip_interval := {
  ii_mac : string; ii_ip : string; ii_from : Z; ii_to : option Z; ii_src : string; ii_obs : string
}.

Definition bounds_of (leases : list lease) : list Z :=
  isort id (dedup_onto [] (od_keys (_winning_by_start leases) ++ omap l_expires leases)).

(** One boundary: extend the last interval, open one at a winning start, or leave a
    gap.  Opening where no lease starts would be a [KeyError]. *)
Definition interval_step (ip : string) (leases : list lease) (acc : list ip_interval)
    (b : Z) (next : option Z) : res (list ip_interval) :=
  match owner_at leases b with
  | None => Ok acc
  | Some mac =>
      let open_ :=
        match od_get b (_winning_by_start leases) with
        | Some c => Ok (acc ++ [{| ii_mac := mac; ii_ip := ip; ii_from := trunc_ms b;
                                   ii_to := trunc_ms <$> next; ii_src := l_src c;
                                   ii_obs := l_obs c |}])
        | None => Raise KeyError
        end in
      match last acc with
      | Some iv =>
          if String.eqb (ii_mac iv) mac && bool_decide (ii_to iv = Some (trunc_ms b))
          then Ok (removelast acc ++ [{| ii_mac := ii_mac iv; ii_ip := ii_ip iv;
                     ii_from := ii_from iv; ii_to := trunc_ms <$> next; ii_src := ii_src iv;
                     ii_obs := ii_obs iv |}])
          else open_
      | None => open_
      end
  end.

Fixpoint intervals_over (ip : string) (leases : list lease) (acc : list ip_interval)
    (bounds : list Z) : res (list ip_interval) :=
  match bounds with
  | [] => Ok acc
  | b :: rest =>
      acc ← interval_step ip leases acc b (head rest);
      intervals_over ip leases acc rest
  end.

Definition ownership_intervals (ip : string) (leases : list lease) : res (list ip_interval) :=
  intervals_over ip leases [] (bounds_of leases).

(** Every MAC subject that ever claimed an address, with its intervals by start. *)
Definition add_owned (owned : list (string * list ip_interval)) (iv : ip_interval) :=
  let k := "mac:" +:+ ii_mac iv in od_set k (default [] (od_get k owned) ++ [iv]) owned.

Fixpoint own_all (bs : bindings) (owned : list (string * list ip_interval)) :
    res (list (string * list ip_interval)) :=
  match bs with
  | [] => Ok owned
  | (ip, leases) :: bs =>
      ivs ← ownership_intervals ip leases;
      own_all bs (foldl add_owned owned ivs)
  end.

Definition rebuild_ip_ownership (bs : bindings) : res (list (string * list ip_interval)) :=
  let subjects := foldl (λ (o : list (string * list ip_interval)) (c : lease), od_set ("mac:" +:+ l_mac c) [] o) [] (concat (map snd bs)) in
  owned ← own_all bs subjects;
  Ok (map (λ kv : string * list ip_interval, (kv.1, isort ii_from kv.2)) owned).

(** ** Facts *)

(** [c] wins its start: no lease of the same start has a smaller lease id. *)
Definition wins (leases : list lease) (c : lease) : Prop :=
  c ∈ leases ∧ ∀ c', c' ∈ leases → l_from c' = l_from c → leb (_lease_id c) (_lease_id c') = true.

Lemma winning_spec leases :
  od_wf (_winning_by_start leases) ∧
  (∀ s c, od_get s (_winning_by_start leases) = Some c → l_from c = s ∧ wins leases c) ∧
  (∀ c, c ∈ leases → is_Some (od_get (l_from c) (_winning_by_start leases))).
Proof. exact (keep_min_spec l_from _lease_id leases). Qed.

(** Sorting integers without repetition gives a strictly increasing list. *)
Lemma isort_strict (l : list Z) : NoDup l → StronglySorted Z.lt (isort id l).
Proof.
  intros Hnd. pose proof (isort_sorted (id : Z → Z) l) as Hs.
  assert (NoDup (isort id l)) as Hnd' by by rewrite isort_perm.
  revert Hs Hnd'. generalize (isort id l). induction 1 as [|x m Hm IH Hx]; [constructor|].
  intros [Hn Hnd']%NoDup_cons. constructor; [by apply IH|].
  rewrite Forall_forall in Hx |- *. intros y Hy. specialize (Hx y Hy).
  unfold key_le, leb in Hx. simpl in Hx. destruct (Z.compare_spec x y); [|done|done].
  subst. done.
Qed.

Lemma sorted_starts_strict leases : StronglySorted Z.lt (sorted_starts (_winning_by_start leases)).
Proof. apply isort_strict, winning_spec. Qed.

Lemma sorted_starts_elem leases s :
  s ∈ sorted_starts (_winning_by_start leases) ↔ ∃ c, c ∈ leases ∧ l_from c = s.
Proof.
  unfold sorted_starts. rewrite elem_of_isort.
  destruct (winning_spec leases) as (Hwf & Hget & Hin). split.
  - intros Hs. destruct (od_get s (_winning_by_start leases)) as [c|] eqn:E.
    + destruct (Hget _ _ E) as [? [? _]]. by exists c.
    + by apply od_get_none in E.
  - intros (c & Hc & <-). destruct (Hin _ Hc) as [c' Hc'].
    destruct (decide (l_from c ∈ od_keys (_winning_by_start leases))) as [|Hn]; [done|].
    apply od_get_none in Hn. congruence.
Qed.

(** What owning an address at [t] means, without the scan. *)
Definition owns (leases : list lease) (t : Z) (c : lease) : Prop :=
  od_get (l_from c) (_winning_by_start leases) = Some c ∧ l_from c <= t ∧
  (∀ c', c' ∈ leases → l_from c' <= t → l_from c' <= l_from c) ∧
  before t (l_expires c) = true.

Lemma head_le (s : Z) rest t :
  StronglySorted Z.lt (s :: rest) → before t (head rest) = true → ∀ s', s' ∈ rest → t < s'.
Proof.
  intros Hs Hb s' Hin. destruct rest as [|r rest]; [set_solver|]. simpl in Hb. to_prop.
  apply StronglySorted_inv in Hs as [Hs _]. apply StronglySorted_inv in Hs as [_ Hf].
  rewrite Forall_forall in Hf. apply elem_of_cons in Hin as [->|Hin]; [done|].
  specialize (Hf _ Hin). lia.
Qed.

Lemma before_min t a b : before t (opt_min a b) = before t a && before t b.
Proof.
  destruct a as [x|], b as [y|]; simpl; rewrite ?andb_true_r; try done.
  destruct (Z.ltb_spec t (Z.min x y)), (Z.ltb_spec t x), (Z.ltb_spec t y); simpl; lia.
Qed.

Lemma owner_scan_spec win t ss c :
  StronglySorted Z.lt ss →
  (∀ s, s ∈ ss → ∃ c, od_get s win = Some c ∧ l_from c = s) →
  owner_scan win t ss = Some c ↔
  l_from c ∈ ss ∧ od_get (l_from c) win = Some c ∧ l_from c <= t ∧
  (∀ s, s ∈ ss → s <= t → s <= l_from c) ∧ before t (l_expires c) = true.
Proof.
  induction ss as [|s ss IH]; intros Hs Hw; simpl; [set_solver|].
  destruct (Hw s) as (cs & Hcs & Hfs); [set_solver|]. rewrite Hcs.
  pose proof Hs as Hs'. apply StronglySorted_inv in Hs' as [Hs' Hlt]. rewrite Forall_forall in Hlt.
  assert (IH' := IH Hs' ltac:(intros; apply Hw; by right)). clear IH.
  unfold _lease_end. rewrite before_min.
  destruct (s <=? t) eqn:E1; simpl; to_prop.
  2:{ rewrite IH'. split; intros (Hin & H1 & H2 & H3 & H4).
      - exfalso. specialize (Hlt _ Hin). lia.
      - exfalso. apply elem_of_cons in Hin as [?|Hin]; [lia|]. specialize (Hlt _ Hin). lia. }
  destruct (before t (head ss)) eqn:E2; simpl.
  - pose proof (head_le _ _ _ Hs E2) as Hgt.
    destruct (before t (l_expires cs)) eqn:E3.
    + split.
      * intros [= <-]. subst s. split_and!; [set_solver|done|lia| |done].
        intros s' [->|Hin]%elem_of_cons ?; [lia|]. specialize (Hgt _ Hin). lia.
      * intros (Hin & H1 & H2 & H3 & H4). apply elem_of_cons in Hin as [Hin|Hin]; [congruence|].
        specialize (Hgt _ Hin). lia.
    + rewrite IH'. split; intros (Hin & H1 & H2 & H3 & H4).
      * specialize (Hgt _ Hin). lia.
      * apply elem_of_cons in Hin as [Hin|Hin]; [|specialize (Hgt _ Hin); lia].
        rewrite Hin, Hcs in H1. injection H1 as ->. congruence.
  - rewrite IH'. destruct ss as [|r ss]; [done|]. simpl in E2. to_prop.
    assert (s < r) by (apply Hlt; set_solver). split; intros (Hin & H1 & H2 & H3 & H4).
    + split_and!; try done; [by right|]. intros s' [->|Hin']%elem_of_cons ?; [|by apply H3].
      specialize (Hlt _ Hin). lia.
    + assert (r <= l_from c) by (apply H3; [set_solver|done]).
      apply elem_of_cons in Hin as [Hin|Hin]; [lia|].
      split_and!; try done. intros s' Hs'' ?. apply H3; [by right|done].
Qed.

Lemma owner_lease_spec leases t c : owner_lease leases t = Some c ↔ owns leases t c.
Proof.
  unfold owner_lease. destruct (winning_spec leases) as (Hwf & Hget & Hin).
  rewrite owner_scan_spec; [|apply sorted_starts_strict|].
  - unfold owns. rewrite sorted_starts_elem. split.
    + intros ((c' & Hc' & Hf) & H1 & H2 & H3 & H4). split_and!; try done.
      intros c2 Hc2 ?. apply H3; [|done]. apply sorted_starts_elem. by exists c2.
    + intros (H1 & H2 & H3 & H4). split_and!; try done.
      * destruct (Hget _ _ H1) as [_ [? _]]. by exists c.
      * intros s (c2 & Hc2 & <-)%sorted_starts_elem ?. by apply H3.
  - intros s (c' & Hc' & <-)%sorted_starts_elem. destruct (Hin _ Hc') as [c2 Hc2].
    exists c2. split; [done|]. by apply Hget in Hc2 as [? _].
Qed.

(** *** Arrival order *)

(** No two leases have the same start and the same lease id. *)
Definition distinct_leases (leases : list lease) : Prop :=
  ∀ c c', c ∈ leases → c' ∈ leases → l_from c = l_from c' → _lease_id c = _lease_id c' → c = c'.

Lemma winner_perm leases leases' s :
  distinct_leases leases → leases ≡ₚ leases' →
  od_get s (_winning_by_start leases) = od_get s (_winning_by_start leases').
Proof. exact (keep_min_perm l_from _lease_id leases leases' s). Qed.

Lemma owns_perm leases leases' t c :
  distinct_leases leases → leases ≡ₚ leases' → owns leases t c ↔ owns leases' t c.
Proof.
  intros Hd Hp. unfold owns. rewrite (winner_perm leases leases') by done.
  assert (Hin : ∀ c, c ∈ leases ↔ c ∈ leases') by (intros x; by rewrite Hp).
  split; intros (? & ? & H & ?); split_and!; try done; intros c' Hc'; apply H; by apply Hin.
Qed.

Lemma owner_lease_perm leases leases' t :
  distinct_leases leases → leases ≡ₚ leases' → owner_lease leases t = owner_lease leases' t.
Proof.
  intros Hd Hp. destruct (owner_lease leases t) as [c|] eqn:E.
  - symmetry. apply owner_lease_spec. apply owner_lease_spec in E. by apply (owns_perm leases).
  - destruct (owner_lease leases' t) as [c'|] eqn:E'; [|done].
    apply owner_lease_spec in E'. apply (owns_perm leases) in E'; [|done..].
    apply owner_lease_spec in E'. congruence.
Qed.

(** *** The bounds *)

Lemma bounds_strict leases : StronglySorted Z.lt (bounds_of leases).
Proof. apply isort_strict, NoDup_dedup_onto. constructor. Qed.

Lemma bounds_elem leases b :
  b ∈ bounds_of leases ↔ (∃ c, c ∈ leases ∧ l_from c = b) ∨ (∃ c, c ∈ leases ∧ l_expires c = Some b).
Proof.
  unfold bounds_of. rewrite elem_of_isort, elem_of_dedup_onto, elem_of_app, list_elem_of_omap.
  rewrite <- sorted_starts_elem. unfold sorted_starts. rewrite elem_of_isort. set_solver.
Qed.

(** Ownership is constant from one bound to the next. *)
Lemma owns_const leases b t c :
  b <= t → (∀ b', b' ∈ bounds_of leases → b' <= t → b' <= b) → owns leases t c ↔ owns leases b c.
Proof.
  intros Hbt Hb.
  assert (Hle : ∀ x, x ∈ bounds_of leases → x <= t ↔ x <= b).
  { intros x Hx. split; [by apply Hb|lia]. }
  assert (Hst : ∀ c', c' ∈ leases → l_from c' <= t ↔ l_from c' <= b).
  { intros c' Hc'. apply Hle. apply bounds_elem. left. by exists c'. }
  destruct (winning_spec leases) as (_ & Hg & _). unfold owns.
  assert (Hkey : od_get (l_from c) (_winning_by_start leases) = Some c →
    (l_from c <= t ↔ l_from c <= b) ∧ (before t (l_expires c) = true ↔ before b (l_expires c) = true)).
  { intros H. destruct (Hg _ _ H) as [_ [Hc _]]. split; [by apply Hst|].
    destruct (l_expires c) as [e|] eqn:Ee; [|done]. simpl. rewrite !Z.ltb_lt.
    assert (e ∈ bounds_of leases) by (apply bounds_elem; right; by exists c).
    pose proof (Hle e ltac:(done)). lia. }
  split; intros (H1 & H2 & H3 & H4); destruct (Hkey H1) as [K1 K2];
    split_and!; try tauto; intros c' Hc' ?; apply H3; try done; by apply Hst.
Qed.

Definition covers (iv : ip_interval) (t : Z) : Prop := ii_from iv <= t ∧ before t (ii_to iv) = true.

(** Stored lease times are canonical. *)
Definition canonical (leases : list lease) : Prop :=
  ∀ c, c ∈ leases → trunc_ms (l_from c) = l_from c ∧ trunc_ms <$> l_expires c = l_expires c.

Lemma bounds_canonical leases b : canonical leases → b ∈ bounds_of leases → trunc_ms b = b.
Proof.
  intros Hc. rewrite bounds_elem. intros [(c & Hin & <-)|(c & Hin & He)]; destruct (Hc _ Hin) as [? Hx].
  - done.
  - rewrite He in Hx. simpl in Hx. congruence.
Qed.

(** What the loop has established when [done_] are the bounds it has seen. *)
Definition built (leases : list lease) (acc : list ip_interval) (seen rest : list Z) : Prop :=
  (∀ t m, before t (head rest) = true →
     owner_at leases t = Some m ↔ ∃ iv, iv ∈ acc ∧ ii_mac iv = m ∧ covers iv t) ∧
  (∀ iv b, iv ∈ acc → head rest = Some b → ∃ e, ii_to iv = Some e ∧ e <= b) ∧
  (∀ b m, last seen = Some b → owner_at leases b = Some m →
     ∃ iv, last acc = Some iv ∧ ii_mac iv = m ∧ ii_to iv = head rest) ∧
  (∀ iv b, iv ∈ acc → b ∈ rest → ii_from iv < b).

Lemma owner_at_const leases b t :
  b <= t → (∀ b', b' ∈ bounds_of leases → b' <= t → b' <= b) → owner_at leases t = owner_at leases b.
Proof.
  intros Hbt Hb. unfold owner_at. f_equal.
  destruct (owner_lease leases t) as [c|] eqn:E; symmetry.
  - apply owner_lease_spec in E. apply owner_lease_spec. by apply (owns_const leases b t).
  - destruct (owner_lease leases b) as [c|] eqn:E'; [|done].
    apply owner_lease_spec in E'. apply (owns_const leases b t) in E'; [|done..].
    apply owner_lease_spec in E'. congruence.
Qed.

Lemma owner_before_bounds leases t :
  (∀ b, b ∈ bounds_of leases → t < b) → owner_at leases t = None.
Proof.
  intros Hb. unfold owner_at. destruct (owner_lease leases t) as [c|] eqn:E; [|done].
  apply owner_lease_spec in E as (H1 & H2 & _). destruct (winning_spec leases) as (_ & Hg & _).
  destruct (Hg _ _ H1) as [_ [Hc _]].
  assert (t < l_from c) by (apply Hb, bounds_elem; left; by exists c). lia.
Qed.

(** The positions of a strictly sorted split. *)
Lemma sorted_split_lt (seen rest : list Z) b :
  StronglySorted Z.lt (seen ++ b :: rest) →
  (∀ x, x ∈ seen → x < b) ∧ (∀ x, x ∈ rest → b < x).
Proof.
  rewrite StronglySorted_app. intros (H1 & _ & [_ H2]%StronglySorted_inv).
  rewrite Forall_forall in H2. set_solver.
Qed.

Lemma sorted_snoc_max (l : list Z) x b :
  StronglySorted Z.lt (l ++ [x]) → b ∈ l ++ [x] → b <= x.
Proof.
  intros H [Hb|Hb]%elem_of_app; [|set_solver].
  destruct (sorted_split_lt l [] x H) as [Hl _]. specialize (Hl _ Hb). lia.
Qed.

Lemma before_next t b rest :
  StronglySorted Z.lt (b :: rest) → before t (head rest) = true → ∀ x, x ∈ b :: rest → x <= t → x <= b.
Proof.
  intros Hs Hb x [->|Hx]%elem_of_cons Hle; [lia|].
  pose proof (head_le _ _ _ Hs Hb x Hx). lia.
Qed.

Section step.
Context (ip : string) (leases : list lease) (acc : list ip_interval) (seen rest : list Z) (b : Z).
Context (Hcan : canonical leases) (Hsplit : bounds_of leases = seen ++ b :: rest)
  (Hbuilt : built leases acc seen (b :: rest)).

Lemma step_strict : StronglySorted Z.lt (seen ++ b :: rest).
Proof using All. rewrite <- Hsplit. apply bounds_strict. Qed.

Lemma step_const t : b <= t → before t (head rest) = true → owner_at leases t = owner_at leases b.
Proof using All.
  intros Hbt Hn. apply owner_at_const; [done|]. rewrite Hsplit. intros x Hx Hxt.
  pose proof step_strict as Hs. destruct (sorted_split_lt _ _ _ Hs) as [Hl Hr].
  apply elem_of_app in Hx as [Hx|Hx]; [specialize (Hl _ Hx); lia|].
  apply elem_of_cons in Hx as [->|Hx]; [lia|].
  apply StronglySorted_app_1_r in Hs as Hss.
  pose proof (head_le _ _ _ Hss Hn x Hx). lia.
Qed.

Lemma step_canonical : trunc_ms b = b ∧ trunc_ms <$> head rest = head rest.
Proof using All.
  assert (Hb : ∀ x, x ∈ b :: rest → trunc_ms x = x).
  { intros x Hx. apply (bounds_canonical leases); [done|]. rewrite Hsplit. set_solver. }
  split; [apply Hb; set_solver|]. destruct rest as [|r l]; [done|]. simpl. f_equal. apply Hb. set_solver.
Qed.

(** No interval built so far reaches past [b]. *)
Lemma step_old_ends iv t : iv ∈ acc → b <= t → ¬ covers iv t.
Proof using All.
  destruct Hbuilt as (_ & H2 & _ & _). intros Hin Hbt [_ Hc].
  destruct (H2 iv b Hin eq_refl) as (e & He & ?). rewrite He in Hc. simpl in Hc. to_prop. lia.
Qed.

Lemma step_next_gt b2 : head rest = Some b2 → b < b2.
Proof using All.
  intros Hh. destruct (sorted_split_lt _ _ _ step_strict) as [_ Hr]. apply Hr.
  destruct rest; [done|]. injection Hh as ->. set_solver.
Qed.

Lemma step_gap : owner_at leases b = None → built leases acc (seen ++ [b]) rest.
Proof using All.
  intros Ho. destruct Hbuilt as (H1 & H2 & H3 & H4). split_and!.
  - intros t m Hn. destruct (decide (t < b)) as [Hlt|Hge].
    + apply H1. simpl. by apply Z.ltb_lt.
    + rewrite step_const by (done || lia). rewrite Ho. split; [done|].
      intros (iv & Hin & _ & Hc). exfalso. apply (step_old_ends iv t); [done|lia|done].
  - intros iv b2 Hin Hh. destruct (H2 iv b Hin eq_refl) as (e & -> & ?). exists e.
    apply step_next_gt in Hh. split; [done|lia].
  - intros b2 m. rewrite last_snoc. intros [= <-]. congruence.
  - intros iv b2 Hin Hb2. apply H4; [done|by right].
Qed.

Lemma step_put pre iv m :
  owner_at leases b = Some m → ii_mac iv = m → ii_to iv = head rest → ii_from iv <= b →
  (∀ iv', iv' ∈ pre → iv' ∈ acc) →
  (∀ t m', t < b → (∃ i, i ∈ acc ∧ ii_mac i = m' ∧ covers i t) ↔
                   (∃ i, i ∈ pre ++ [iv] ∧ ii_mac i = m' ∧ covers i t)) →
  built leases (pre ++ [iv]) (seen ++ [b]) rest.
Proof using All.
  intros Ho Hm Hto Hfrom Hpre Hlt. destruct Hbuilt as (H1 & H2 & H3 & H4). split_and!.
  - intros t m' Hn. destruct (decide (t < b)) as [Htb|Hge].
    + rewrite <- Hlt by done. apply H1. simpl. by apply Z.ltb_lt.
    + rewrite step_const by (done || lia). rewrite Ho. split.
      * intros [= <-]. exists iv. split_and!; [set_solver|done|split; [lia|by rewrite Hto]].
      * intros (i & Hin & <- & Hc). apply elem_of_app in Hin as [Hin|Hin].
        -- exfalso. apply (step_old_ends i t); [by apply Hpre|lia|done].
        -- apply list_elem_of_singleton in Hin as ->. congruence.
  - intros i b2 Hin Hh. apply elem_of_app in Hin as [Hin|Hin].
    + destruct (H2 i b ltac:(by apply Hpre) eq_refl) as (e & -> & ?). exists e.
      apply step_next_gt in Hh. split; [done|lia].
    + apply list_elem_of_singleton in Hin as ->. exists b2. rewrite Hto. split; [done|lia].
  - intros b2 m'. rewrite !last_snoc. intros [= <-] Ho'. exists iv. split_and!; congruence.
  - intros i b2 Hin Hb2. destruct (sorted_split_lt _ _ _ step_strict) as [_ Hr].
    apply elem_of_app in Hin as [Hin|Hin].
    + apply H4; [by apply Hpre|by right].
    + apply list_elem_of_singleton in Hin as ->. specialize (Hr _ Hb2). lia.
Qed.

(** When the last interval does not continue at [b], a winning lease starts there. *)
Lemma step_opens m :
  owner_at leases b = Some m →
  (∀ iv, last acc = Some iv → ii_mac iv = m → ii_to iv = Some b → False) →
  is_Some (od_get b (_winning_by_start leases)).
Proof using All.
  intros Ho Hno. unfold owner_at in Ho. apply fmap_Some in Ho as (c & Hc & ->).
  apply owner_lease_spec in Hc as (H1 & H2 & H3 & H4).
  destruct (decide (l_from c = b)) as [<-|Hne]; [by eexists|]. exfalso.
  destruct (winning_spec leases) as (_ & Hg & _). destruct (Hg _ _ H1) as [_ [Hcin _]].
  assert (Hfin : l_from c ∈ bounds_of leases) by (apply bounds_elem; left; by exists c).
  rewrite Hsplit in Hfin. pose proof step_strict as Hs.
  destruct (sorted_split_lt _ _ _ Hs) as [Hl Hr].
  apply elem_of_app in Hfin as [Hfin|Hfin].
  2:{ apply elem_of_cons in Hfin as [?|Hfin]; [done|]. specialize (Hr _ Hfin). lia. }
  destruct (last seen) as [b'|] eqn:Elast; [|apply last_None in Elast; subst; set_solver].
  pose proof Elast as Elast'. apply last_Some in Elast' as [pre Hseen].
  assert (Hle : l_from c <= b').
  { rewrite Hseen in Hs, Hfin. apply (sorted_snoc_max pre); [|done].
    by apply StronglySorted_app_1_l in Hs. }
  assert (Hb' : b' < b) by (apply Hl; rewrite Hseen; set_solver).
  assert (Ho' : owner_at leases b' = Some (l_mac c)).
  { unfold owner_at. rewrite (proj2 (owner_lease_spec leases b' c)); [done|].
    split_and!; try done.
    - intros c' Hc' ?. apply H3; [done|lia].
    - destruct (l_expires c); [|done]. simpl in *. to_prop. apply Z.ltb_lt. lia. }
  destruct Hbuilt as (_ & _ & B3 & _). destruct (B3 b' _ Elast Ho') as (iv & Hiv & Hm & Hto).
  by apply (Hno iv).
Qed.

Lemma interval_step_built :
  ∃ acc', interval_step ip leases acc b (head rest) = Ok acc' ∧
          built leases acc' (seen ++ [b]) rest.
Proof using All.
  destruct step_canonical as [Hb Hn]. unfold interval_step.
  destruct (owner_at leases b) as [m|] eqn:Ho; [|exists acc; split; [done|by apply step_gap]].
  assert (Hopen : (∀ iv, last acc = Some iv → ii_mac iv = m → ii_to iv = Some b → False) →
    ∃ acc', match od_get b (_winning_by_start leases) with
            | Some c => Ok (acc ++ [{| ii_mac := m; ii_ip := ip; ii_from := trunc_ms b;
                  ii_to := trunc_ms <$> head rest; ii_src := l_src c; ii_obs := l_obs c |}])
            | None => Raise KeyError
            end = Ok acc' ∧ built leases acc' (seen ++ [b]) rest).
  { intros Hno. destruct (step_opens m Ho Hno) as [c ->]. eexists. split; [done|].
    rewrite Hb, Hn. apply (step_put acc _ m); simpl; try done.
    intros t m' Hlt. split; intros (i & Hin & ? & Hc).
    - exists i. set_solver.
    - apply elem_of_app in Hin as [Hin|Hin]; [by exists i|].
      apply list_elem_of_singleton in Hin as ->. destruct Hc as [Hc _]. simpl in Hc. lia. }
  destruct (last acc) as [iv|] eqn:El; [|apply Hopen; done].
  destruct (String.eqb_spec (ii_mac iv) m) as [Hm|Hm]; simpl; [|by apply Hopen; intros ? [= <-]].
  case_bool_decide as Hto; [|by apply Hopen; intros ? [= <-]; rewrite <- Hb at 1; auto].
  rewrite Hb in Hto.
  apply last_Some in El as [pre Hacc]. eexists. split; [done|].
  rewrite Hn, Hacc, removelast_last. apply (step_put pre _ m); simpl; try done.
  - destruct Hbuilt as (_ & _ & _ & H4).
    assert (ii_from iv < b) by (apply H4; [rewrite Hacc; set_solver|by left]). lia.
  - rewrite Hacc. set_solver.
  - intros t m' Hlt. rewrite Hacc.
    assert (Hcov : ∀ iv', ii_from iv' = ii_from iv → ii_to iv' = head rest →
                          covers iv' t ↔ covers iv t).
    { intros iv' Hf Ht. unfold covers. rewrite Hf, Ht, Hto. simpl.
      assert (before t (head rest) = true) as ->.
      { destruct (head rest) as [b2|] eqn:Eh; [|done]. apply step_next_gt in Eh.
        simpl. apply Z.ltb_lt. lia. }
      rewrite Z.ltb_lt. naive_solver. }
    split; intros (i & Hin & Hmi & Hc); apply elem_of_app in Hin as [Hin|Hin].
    + exists i. split; [apply elem_of_app; by left|done].
    + apply list_elem_of_singleton in Hin as ->. eexists.
      split; [apply elem_of_app; right; by left|]. simpl. split; [done|]. by apply Hcov.
    + exists i. split; [apply elem_of_app; by left|done].
    + apply list_elem_of_singleton in Hin as ->. exists iv.
      split; [apply elem_of_app; right; by left|]. simpl in Hmi. split; [done|].
      by apply Hcov in Hc.
Qed.
End step.

Lemma intervals_over_built ip leases acc seen rest :
  canonical leases → bounds_of leases = seen ++ rest → built leases acc seen rest →
  ∃ acc', intervals_over ip leases acc rest = Ok acc' ∧ built leases acc' (bounds_of leases) [].
Proof.
  intros Hcan. revert acc seen. induction rest as [|b rest IH]; intros acc seen Hs Hb; simpl.
  - exists acc. split; [done|]. rewrite Hs, app_nil_r. done.
  - destruct (interval_step_built ip leases acc seen rest b Hcan Hs Hb) as (acc' & -> & Hb').
    simpl. apply (IH acc' (seen ++ [b])); [by rewrite <- app_assoc|done].
Qed.

(** The cache of one address says exactly what the oracle says. *)
Lemma ownership_intervals_agree ip leases :
  canonical leases →
  ∃ ivs, ownership_intervals ip leases = Ok ivs ∧
    ∀ t m, owner_at leases t = Some m ↔ ∃ iv, iv ∈ ivs ∧ ii_mac iv = m ∧ covers iv t.
Proof.
  intros Hcan. unfold ownership_intervals.
  destruct (intervals_over_built ip leases [] [] (bounds_of leases) Hcan eq_refl)
    as (ivs & Hivs & H1 & _).
  - split_and!; try done; try set_solver. intros t m Hn. rewrite owner_before_bounds.
    + split; [done|]. set_solver.
    + intros b Hb. pose proof (bounds_strict leases) as Hs.
      destruct (bounds_of leases) as [|b0 bs]; [set_solver|]. simpl in Hn. to_prop.
      apply StronglySorted_inv in Hs as [_ Hf]. rewrite Forall_forall in Hf.
      apply elem_of_cons in Hb as [->|Hb]; [done|]. specialize (Hf _ Hb). lia.
  - exists ivs. split; [done|]. intros t m. by apply H1.
Qed.

Lemma interval_step_ip ip leases acc b n acc' :
  interval_step ip leases acc b n = Ok acc' → Forall (λ iv, ii_ip iv = ip) acc →
  Forall (λ iv, ii_ip iv = ip) acc'.
Proof.
  unfold interval_step. intros H Hacc. destruct (owner_at leases b) as [m|]; [|by injection H as <-].
  assert (Hopen : ∀ x y, ii_ip x = ip → Ok (acc ++ [x]) = Ok y → Forall (λ iv, ii_ip iv = ip) y).
  { intros x y Hx [= <-]. apply Forall_app. split; [done|]. by repeat constructor. }
  destruct (last acc) as [iv|] eqn:El.
  - destruct (_ && _).
    + injection H as <-. apply last_Some in El as [pre ->]. rewrite removelast_last.
      apply Forall_app in Hacc as [Hp Hl]. apply Forall_app. split; [done|].
      inversion Hl; subst. repeat constructor; done.
    + destruct (od_get b _); [|done]. by eapply Hopen; [|exact H].
  - destruct (od_get b _); [|done]. by eapply Hopen; [|exact H].
Qed.

Lemma ownership_intervals_ip ip leases ivs :
  ownership_intervals ip leases = Ok ivs → Forall (λ iv, ii_ip iv = ip) ivs.
Proof.
  unfold ownership_intervals. assert (H0 : Forall (λ iv, ii_ip iv = ip) []) by constructor.
  revert H0. generalize (@nil ip_interval). generalize (bounds_of leases).
  intros bs. induction bs as [|b bs IH]; intros acc Hacc H; simpl in H; [by injection H as <-|].
  apply bind_ok_inv in H as (acc' & H1 & H). apply (IH acc'); [|done].
  by eapply interval_step_ip.
Qed.

(** *** All addresses together *)

Definition listed (owned : list (string * list ip_interval)) (m : string) (iv : ip_interval) : Prop :=
  ∃ l, od_get ("mac:" +:+ m) owned = Some l ∧ iv ∈ l.

Lemma mac_prefix_inj a b : ("mac:" +:+ a)%string = ("mac:" +:+ b)%string → a = b.
Proof. apply append_cancel_l. Qed.

Lemma add_owned_listed owned iv m x :
  listed (add_owned owned iv) m x ↔ listed owned m x ∨ (m = ii_mac iv ∧ x = iv).
Proof.
  unfold listed, add_owned. rewrite od_get_set. case_decide as E.
  - apply mac_prefix_inj in E as ->. split.
    + intros (l & [= <-] & Hx). apply elem_of_app in Hx as [Hx|Hx]; [|set_solver].
      destruct (od_get _ owned) as [l|]; [|set_solver]. left. by exists l.
    + intros [(l & -> & Hx)|[_ ->]]; eexists; (split; [done|]); simpl; set_solver.
  - split; [by left|]. intros [?|[-> _]]; [done|congruence].
Qed.

Lemma foldl_add_owned ivs owned m x :
  listed (foldl add_owned owned ivs) m x ↔ listed owned m x ∨ (x ∈ ivs ∧ m = ii_mac x).
Proof.
  revert owned; induction ivs as [|iv ivs IH]; intros owned; simpl; [set_solver|].
  rewrite IH, add_owned_listed, elem_of_cons. naive_solver.
Qed.

Definition all_canonical (bs : bindings) : Prop :=
  ∀ ip leases, (ip, leases) ∈ bs → canonical leases.

Lemma own_all_spec bs owned :
  all_canonical bs →
  ∃ owned', own_all bs owned = Ok owned' ∧
    ∀ m x, listed owned' m x ↔ listed owned m x ∨
      ∃ ip leases ivs, (ip, leases) ∈ bs ∧ ownership_intervals ip leases = Ok ivs ∧ x ∈ ivs ∧
                       m = ii_mac x.
Proof.
  revert owned; induction bs as [|[ip leases] bs IH]; intros owned Hcan; simpl.
  - exists owned. split; [done|]. set_solver.
  - destruct (ownership_intervals_agree ip leases) as (ivs & Hivs & _); [by eapply Hcan; left|].
    rewrite Hivs. simpl. destruct (IH (foldl add_owned owned ivs)) as (o & Ho & Hspec).
    { intros ip' l' Hin. eapply Hcan. by right. }
    exists o. split; [done|]. intros m x. rewrite Hspec, foldl_add_owned. split.
    + intros [[?|[? ?]]|(ip' & l' & ivs' & ? & ?)]; [by left| |].
      * right. exists ip, leases, ivs. split_and!; try done. by left.
      * right. exists ip', l', ivs'. split; [by right|done].
    + intros [?|(ip' & l' & ivs' & Hin & Hi & ? & ?)]; [by auto|].
      apply elem_of_cons in Hin as [[= -> ->]|Hin]; [|right; by exists ip', l', ivs'].
      left. right. split; [congruence|done].
Qed.

(** *** Recorded bindings *)

Record binding_record := {
  br_ip : string; br_mac : string; br_from : Z; br_expires : option Z; br_obs : string; br_src : string
}.
Definition record_one (bs : bindings) (r : binding_record) : bindings :=
  record_binding bs (br_ip r) (br_mac r) (br_from r) (br_expires r) (br_obs r) (br_src r).
Definition record_all (rs : list binding_record) : bindings := foldl record_one [] rs.
Definition lease_of (r : binding_record) : lease :=
  {| l_mac := lower (br_mac r); l_from := trunc_ms (br_from r);
     l_expires := trunc_ms <$> br_expires r; l_obs := br_obs r; l_src := br_src r |}.
Definition leases_for (bs : bindings) (ip : string) : list lease := default [] (od_get ip bs).

Lemma record_one_leases bs r ip :
  leases_for (record_one bs r) ip =
  if decide (ip = br_ip r) then
    if mem (lease_key (lease_of r)) (lease_key <$> leases_for bs ip) then leases_for bs ip
    else leases_for bs ip ++ [lease_of r]
  else leases_for bs ip.
Proof.
  unfold leases_for, record_one, record_binding. fold (lease_of r).
  destruct (decide (ip = br_ip r)) as [->|Hne]; destruct (mem _ _);
    rewrite ?od_get_set_eq, ?od_get_set_ne by done; done.
Qed.

(** The leases of an address: one per recorded identity. *)
Lemma record_all_spec rs ip :
  NoDup (lease_key <$> leases_for (record_all rs) ip) ∧
  (∀ c, c ∈ leases_for (record_all rs) ip → ∃ r, r ∈ rs ∧ br_ip r = ip ∧ c = lease_of r) ∧
  (∀ r, r ∈ rs → br_ip r = ip →
     lease_key (lease_of r) ∈ lease_key <$> leases_for (record_all rs) ip).
Proof.
  unfold record_all. induction rs as [|r rs IH] using rev_ind; simpl.
  { split_and!; [constructor|set_solver|set_solver]. }
  rewrite foldl_app. simpl. destruct IH as (Hnd & Hsrc & Hall). rewrite record_one_leases.
  destruct (decide (ip = br_ip r)) as [->|Hne].
  2:{ split_and!; [done| |]; [intros c (r' & ? & ?)%Hsrc; exists r'; set_solver|].
      intros r' [Hr|Hr]%elem_of_app ?; [by apply Hall|].
      apply list_elem_of_singleton in Hr as ->. congruence. }
  destruct (mem _ _) eqn:Em.
  - apply mem_true in Em. split_and!; [done| |].
    + intros c (r' & ? & ?)%Hsrc. exists r'. set_solver.
    + intros r' [Hr|Hr]%elem_of_app ?; [by apply Hall|].
      by apply list_elem_of_singleton in Hr as ->.
  - apply mem_false in Em. rewrite fmap_app. split_and!.
    + apply NoDup_app. split_and!; [done| |apply NoDup_singleton].
      intros x Hx Hx2. apply list_elem_of_singleton in Hx2 as ->. done.
    + intros c [(r' & ? & ?)%Hsrc|Hc]%elem_of_app; [exists r'; set_solver|].
      apply list_elem_of_singleton in Hc as ->. exists r. set_solver.
    + intros r' [Hr|Hr]%elem_of_app Hip; apply elem_of_app; [left; by apply Hall|right].
      apply list_elem_of_singleton in Hr as ->. by left.
Qed.

Lemma lease_of_canonical r : trunc_ms (l_from (lease_of r)) = l_from (lease_of r) ∧
  trunc_ms <$> l_expires (lease_of r) = l_expires (lease_of r).
Proof.
  simpl. rewrite trunc_ms_idemp. split; [done|].
  destruct (br_expires r); simpl; [by rewrite trunc_ms_idemp|done].
Qed.

Lemma record_all_canonical rs ip : canonical (leases_for (record_all rs) ip).
Proof.
  intros c Hc. destruct (record_all_spec rs ip) as (_ & Hsrc & _).
  destruct (Hsrc _ Hc) as (r & _ & _ & ->). apply lease_of_canonical.
Qed.

Lemma record_all_wf rs : od_wf (record_all rs).
Proof.
  unfold record_all. induction rs as [|r rs IH] using rev_ind; [constructor|].
  rewrite foldl_app. simpl. unfold record_one, record_binding.
  destruct (mem _ _); by apply od_wf_set.
Qed.

Lemma key_inj_leases leases : NoDup (lease_key <$> leases) → distinct_leases leases.
Proof.
  intros Hnd c c' Hc Hc' Hf Hid. unfold _lease_id in Hid. injection Hid as Ho Hm.
  assert (Hk : lease_key c = lease_key c') by (unfold lease_key; congruence).
  apply list_elem_of_lookup in Hc as [i Hi]. apply list_elem_of_lookup in Hc' as [j Hj].
  assert (i = j); [|congruence]. eapply NoDup_lookup; [exact Hnd| |].
  - by rewrite list_lookup_fmap, Hi.
  - by rewrite list_lookup_fmap, Hj, Hk.
Qed.

Lemma record_all_elem rs ip c :
  (∀ r1 r2, r1 ∈ rs → r2 ∈ rs → br_ip r1 = br_ip r2 →
     lease_key (lease_of r1) = lease_key (lease_of r2) → lease_of r1 = lease_of r2) →
  c ∈ leases_for (record_all rs) ip ↔ ∃ r, r ∈ rs ∧ br_ip r = ip ∧ c = lease_of r.
Proof.
  intros Hdet. destruct (record_all_spec rs ip) as (_ & Hsrc & Hall). split; [apply Hsrc|].
  intros (r & Hr & Hip & ->). pose proof (Hall _ Hr Hip) as Hk.
  apply list_elem_of_fmap in Hk as (c & Hk & Hc). destruct (Hsrc _ Hc) as (r' & Hr' & Hip' & ->).
  rewrite (Hdet r r'); congruence || done.
Qed.

Lemma od_get_map {A B} (f : A → B) k (m : list (string * A)) :
  od_get k (map (λ kv, (kv.1, f kv.2)) m) = f <$> od_get k m.
Proof. induction m as [|[k' v] m IH]; simpl; [done|]. by case_decide. Qed.

(** The subjects of [rebuild_ip_ownership] start without intervals. *)
Lemma subjects_empty (cs : list lease) m x :
  ¬ listed (foldl (λ o c, od_set ("mac:" +:+ l_mac c) [] o) [] cs) m x.
Proof.
  assert (H : ∀ o, (∀ k l, od_get k o = Some l → l = []) →
    ∀ k l, od_get k (foldl (λ o c, od_set ("mac:" +:+ l_mac c) [] o) o cs) = Some l →
           l = ([] : list ip_interval)).
  { induction cs as [|c cs IH]; intros o Ho; simpl; [done|]. apply IH. intros k l.
    rewrite od_get_set. case_decide; [by intros [= <-]|apply Ho]. }
  intros (l & Hl & Hx). apply H in Hl as ->; [set_solver|]. intros k l'. done.
Qed.

(** ** Properties *)

(** The ownership cache and the oracle never disagree.  For bindings recorded in
    any order, rebuilding the intervals of every MAC succeeds (no interval is opened
    at an instant where no lease starts), and at every instant an address resolves
    to a MAC exactly when an interval of that MAC and address covers the instant. *)
Theorem ownership_cache_agrees rs :
  ∃ owned, rebuild_ip_ownership (record_all rs) = Ok owned ∧
    ∀ ip t m, resolve_mac (record_all rs) ip t = Some m ↔
      ∃ iv, listed owned m iv ∧ ii_ip iv = ip ∧ covers iv t.
Proof.
  set (bs := record_all rs).
  assert (Hget : ∀ ip leases, (ip, leases) ∈ bs ↔ od_get ip bs = Some leases).
  { intros ip leases. split; [apply od_wf_get, record_all_wf|apply od_get_elem]. }
  assert (Hcan : all_canonical bs).
  { intros ip leases Hin%Hget. pose proof (record_all_canonical rs ip) as H.
    unfold leases_for in H. fold bs in H. by rewrite Hin in H. }
  set (subjects := foldl (λ (o : list (string * list ip_interval)) (c : lease),
         od_set ("mac:" +:+ l_mac c) [] o) [] (concat (map snd bs))).
  destruct (own_all_spec bs subjects Hcan) as (o & Ho & Hspec).
  exists (map (λ kv, (kv.1, isort ii_from kv.2)) o). unfold rebuild_ip_ownership. fold bs subjects.
  rewrite Ho. split; [done|]. intros ip t m.
  assert (Hl : ∀ iv, listed (map (λ kv, (kv.1, isort ii_from kv.2)) o) m iv ↔ listed o m iv).
  { intros iv. unfold listed. rewrite od_get_map. split.
    - intros (l & (l0 & -> & ->)%fmap_Some & Hx%elem_of_isort). by exists l0.
    - intros (l & -> & Hx). eexists. split; [done|]. by apply elem_of_isort. }
  setoid_rewrite Hl. setoid_rewrite Hspec. unfold resolve_mac. split.
  - intros Hown. destruct (od_get ip bs) as [leases|] eqn:E; [|done]. simpl in Hown.
    apply Hget in E. destruct (ownership_intervals_agree ip leases) as (ivs & Hivs & Hag);
      [by eapply Hcan|].
    destruct (proj1 (Hag t m) Hown) as (iv & Hin & Hm & Hc). exists iv. split; [right; eauto 10|]. split; [|done].
    pose proof (ownership_intervals_ip ip leases ivs Hivs) as HF. rewrite Forall_forall in HF.
    by apply HF.
  - intros (iv & [Hs|(ip' & leases & ivs & Hin & Hivs & Hx & ->)] & Hip & Hc).
    { by apply subjects_empty in Hs. }
    pose proof (ownership_intervals_ip ip' leases ivs Hivs) as HF. rewrite Forall_forall in HF.
    rewrite (HF _ Hx) in Hip. rewrite Hip in Hin, Hivs.
    destruct (ownership_intervals_agree ip leases) as (ivs' & Hivs' & Hag); [by eapply Hcan|].
    rewrite Hivs in Hivs'. injection Hivs' as Heq. apply Hget in Hin as ->. simpl.
    apply Hag. exists iv. by rewrite <- Heq.
Qed.

(** Attribution does not depend on the order in which evidence arrives: recording
    the same lease records in any order resolves every address at every instant to
    the same owner (records of one identity carry the same lease, as one observation
    does). *)
Theorem attribution_order_independent rs rs' ip t :
  rs ≡ₚ rs' →
  (∀ r1 r2, r1 ∈ rs → r2 ∈ rs → br_ip r1 = br_ip r2 →
     lease_key (lease_of r1) = lease_key (lease_of r2) → lease_of r1 = lease_of r2) →
  resolve_mac (record_all rs) ip t = resolve_mac (record_all rs') ip t.
Proof.
  intros Hp Hdet. unfold resolve_mac, owner_at. f_equal.
  change (default [] (od_get ip (record_all ?x))) with (leases_for (record_all x) ip).
  destruct (record_all_spec rs ip) as (Hnd & _). destruct (record_all_spec rs' ip) as (Hnd' & _).
  apply (owner_lease_perm (leases_for _ ip) (leases_for _ ip)); [by apply key_inj_leases|].
  apply NoDup_Permutation; [by eapply NoDup_fmap_1|by eapply NoDup_fmap_1|].
  intros c. rewrite !record_all_elem.
  - by setoid_rewrite Hp.
  - intros r1 r2. rewrite <- Hp. apply Hdet.
  - done.
Qed.

Definition lease_a : binding_record := {| br_ip := "10.0.0.9"; br_mac := "AA:01"; br_from := 1000000;
  br_expires := Some 61000000; br_obs := "o1"; br_src := "dhcp" |}.
Definition lease_b : binding_record := {| br_ip := "10.0.0.9"; br_mac := "BB:02"; br_from := 31000000;
  br_expires := Some 41000000; br_obs := "o2"; br_src := "dhcp" |}.

Lemma attribution_order_independent_witness :
  resolve_mac (record_all [lease_a; lease_b]) "10.0.0.9" 45000000 =
  resolve_mac (record_all [lease_b; lease_a]) "10.0.0.9" 45000000.
Proof.
  apply attribution_order_independent; [apply perm_swap|].
  intros r1 r2 H1 H2 _ Hk. repeat apply elem_of_cons in H1 as [->|H1]; [..|set_solver];
    repeat apply elem_of_cons in H2 as [->|H2]; try done; try set_solver.
Defined.

(** An address is attributed only to the holder of a live lease: the owner at an
    instant has a recorded lease that has started and has not expired by then, and
    nobody's later lease of that address has started, so an expired or reassigned
    address is never attributed to its previous holder. *)
Theorem attribution_needs_live_lease rs ip t m :
  resolve_mac (record_all rs) ip t = Some m →
  ∃ r, r ∈ rs ∧ br_ip r = ip ∧ lower (br_mac r) = m ∧ trunc_ms (br_from r) <= t ∧
    before t (trunc_ms <$> br_expires r) = true ∧
    ∀ r', r' ∈ rs → br_ip r' = ip → trunc_ms (br_from r') <= t →
          trunc_ms (br_from r') <= trunc_ms (br_from r).
Proof.
  unfold resolve_mac, owner_at. intros (c & Hc & ->)%fmap_Some.
  change (default [] (od_get ip (record_all rs))) with (leases_for (record_all rs) ip) in Hc.
  apply owner_lease_spec in Hc as (H1 & H2 & H3 & H4).
  destruct (winning_spec (leases_for (record_all rs) ip)) as (_ & Hg & _).
  destruct (Hg _ _ H1) as [_ [Hin _]].
  destruct (record_all_spec rs ip) as (_ & Hsrc & Hall).
  destruct (Hsrc _ Hin) as (r & Hr & Hip & ->). exists r. split_and!; try done.
  intros r' Hr' Hip' Ht. pose proof (Hall _ Hr' Hip') as Hk.
  apply list_elem_of_fmap in Hk as (c' & Hk & Hc'). unfold lease_key in Hk. simpl in Hk.
  injection Hk as _ Hf _. specialize (H3 c' Hc'). simpl in H3. lia.
Qed.

Lemma attribution_needs_live_lease_witness : lower "AA:01" = "aa:01".
Proof.
  destruct (attribution_needs_live_lease [lease_a; lease_b] "10.0.0.9" 5000000 "aa:01")
    as (r & Hr & _ & Hm & Hf & _); [vm_compute; reflexivity|].
  apply elem_of_cons in Hr as [->|Hr]; [exact Hm|].
  apply elem_of_cons in Hr as [->|Hr]; [vm_compute in Hf; by contradict Hf|set_solver].
Defined.
