(* ===== verification/AssetFacts.v ===== *)
(** * Assets, facts and timelines (services/asset-service/resolution.py)

    Evidence rows and asset records are JSON objects; fact candidates and intervals
    are records.  Stored timestamps are canonical and represented by their instant.
    Confidences of facts are the table's constants in hundredths, which are only
    compared. *)

From stdpp Require Import sorting.
From S2P Require Import Prelude Order PyVal PyTime OrderedMap FindingLifecycle AssetBindings.
Set Default Proof Using "Type".

(** ** Evidence extraction *)

Definition identity_row (ip mac hostname lease_secs : val) (src : string) : dict :=
  [("ip", ip); ("mac", mac); ("hostname", hostname); ("lease_secs", lease_secs); ("src", VStr src)].

Definition _attr_obs (ip : val) (src : string) (hostname : val) (attrs : list (string * list val)) :
    dict :=
  foldl (λ o kv, match kv.2 with [] => o | vs => dset kv.1 (VList vs) o end)
    (identity_row ip VNone hostname VNone src) attrs.

(** [[t[k]] if t.get(k) else []] *)
Definition some_of (k : string) (t : dict) : list val :=
  if truthy (dgetN k t) then [dgetN k t] else [].

Definition nonempty {A} (l : list A) : bool := match l with [] => false | _ => true end.

Definition extract_evidence (eve : dict) : res (list dict) :=
  let et := dgetN "event_type" eve in
  let src := dgetN "src_ip" eve in
  let dst := dgetN "dest_ip" eve in
  if val_eq_str et "flow" then
    Ok ((λ ip, identity_row ip VNone VNone VNone "flow") <$> List.filter truthy [src; dst])
  else if val_eq_str et "arp" then
    a ← as_dict (py_or (dget_or "arp" (VDict []) eve) (VDict []));
    Ok (if truthy (dgetN "src_ip" a)
        then [identity_row (dgetN "src_ip" a) (dgetN "src_mac" a) VNone VNone "arp"] else [])
  else if val_eq_str et "dhcp" then
    d ← as_dict (py_or (dget_or "dhcp" (VDict []) eve) (VDict []));
    let ip := py_or (dgetN "assigned_ip" d) (dgetN "client_ip" d) in
    if truthy ip then
      let lease := dgetN "lease_time" d in
      secs ← (if truthy lease then VInt <$> py_int lease else Ok VNone);
      Ok [identity_row ip (dgetN "client_mac" d) (dgetN "hostname" d) secs "dhcp"]
    else Ok []
  else if val_eq_str et "tls" then
    t ← as_dict (py_or (dget_or "tls" (VDict []) eve) (VDict []));
    let client_ja4 := some_of "ja4" t in
    let server_ja4 := some_of "ja4s" t in
    let certs := List.filter truthy [dgetN "subject" t; dgetN "issuerdn" t; dgetN "fingerprint" t] in
    Ok ((if truthy src && nonempty client_ja4 then [_attr_obs src "tls" VNone [("ja4", client_ja4)]] else [])
        ++ (if truthy dst && (nonempty server_ja4 || nonempty certs)
            then [_attr_obs dst "tls" VNone [("ja4", server_ja4); ("certificates", certs)]] else []))
  else if val_eq_str et "http" then
    h ← as_dict (py_or (dget_or "http" (VDict []) eve) (VDict []));
    let ua := dgetN "http_user_agent" h in
    let host := dgetN "hostname" h in
    Ok ((if truthy src && truthy ua then [_attr_obs src "http" VNone [("applications", [ua])]] else [])
        ++ (if truthy dst && truthy host then [_attr_obs dst "http" host []] else []))
  else Ok [].

(** ** Asset keys and the merge of observations *)

Definition lower_val (v : val) : res string :=
  match v with VStr s => Ok (lower s) | _ => Raise AttributeError end.

Definition asset_key (obs : dict) (bs : bindings) (ts : Z) : res string :=
  let mac := dgetN "mac" obs in
  if truthy mac then m ← lower_val mac; Ok ("mac:" +:+ m)
  else
    let ip := dgetN "ip" obs in
    if truthy ip then
      s ← str_of_val ip;
      Ok (match resolve_mac bs s ts with
          | Some m => if str_truthy m then "mac:" +:+ m else "ip:" +:+ s
          | None => "ip:" +:+ s
          end)
    else Ok "ip:unknown".

Definition _ATTR_SCALARS : list string := ["username"; "role"; "os_hint"; "criticality"; "owner"].
Definition _ATTR_LISTS : list string := ["applications"; "listening_services"; "certificates"; "ja4"].

Definition _note_provenance (a : dict) (attr : string) (obs : dict) (ts : string) : res dict :=
  prov ← (match dgetN "attribute_provenance" a with
          | VNone => Ok []
          | VDict p => Ok p
          | _ => Raise TypeError
          end);
  Ok (dset "attribute_provenance" (VDict (dset attr
        (VDict [("source", dget_or "src" (VStr "") obs); ("observed_at", VStr ts)]) prov)) a).

Definition merge_set (a : res dict) (fv : string * val) : res dict :=
  a ← a;
  v ← (if String.eqb fv.1 "mac_set" && truthy fv.2 then VStr <$> lower_val fv.2 else Ok fv.2);
  if truthy v then
    xs ← (l ← dindex fv.1 a; as_list l);
    Ok (if val_in v xs then a else dset fv.1 (VList (xs ++ [v])) a)
  else Ok a.

Definition merge_scalar (obs : dict) (ts : string) (a : res dict) (attr : string) : res dict :=
  a ← a;
  match dgetN attr obs with
  | VNone => Ok a
  | v => _note_provenance (dset attr v a) attr obs ts
  end.

Definition merge_list (obs : dict) (ts : string) (a : res dict) (attr : string) : res dict :=
  a ← a;
  if truthy (dgetN attr obs) then
    vals ← as_list (dgetN attr obs);
    existing ← as_list (py_or (dgetN attr a) (VList []));
    let added := List.filter (λ v, negb (val_in v existing)) vals in
    if negb (dhas attr a) || nonempty added
    then _note_provenance (dset attr (VList (existing ++ added)) a) attr obs ts
    else Ok a
  else Ok a.

Definition blank_asset (ts : string) : dict := [
  ("ip_set", VList []); ("mac_set", VList []); ("hostname_set", VList []);
  ("evidence_sources", VList []); ("first_seen", VStr ts); ("confidence", VFloat (lit "0.5"));
  ("role_if_known", VStr "")].

Definition merge (asset : option dict) (obs : dict) (ts : string) : res dict :=
  let a := match asset with Some (_ :: _ as a) => a | _ => blank_asset ts end in
  a ← foldl merge_set (Ok a) [("ip_set", dgetN "ip" obs); ("mac_set", dgetN "mac" obs);
        ("hostname_set", dgetN "hostname" obs); ("evidence_sources", dgetN "src" obs)];
  let a := dset "last_seen" (VStr ts) a in
  sources ← (l ← dindex "evidence_sources" a; as_list l);
  n ← float_of_Z (Z.of_nat (length (union_refs [] sources)));
  let a := dset "confidence" (VFloat (fmin (lit "1.0") (fadd (lit "0.5") (fmul (lit "0.1") n)))) a in
  a ← foldl (merge_scalar obs ts) (Ok a) _ATTR_SCALARS;
  foldl (merge_list obs ts) (Ok a) _ATTR_LISTS.

(** ** Facts *)

Record fact := {
  f_pred : string; f_value : string; f_conf : Z; f_from : Z; f_expires : option Z;
  f_type : string; f_obs : string
}.
Record interval := {
  iv_value : string; iv_from : Z; iv_to : option Z; iv_conf : Z; iv_type : string;
  iv_obs : string; iv_expires : option Z
}.

Definition SOURCE_RANK (src : string) : Z :=
  default 0 (assoc src [("dhcp", 3); ("arp", 2); ("flow", 1)]).
Definition SOURCE_CONFIDENCE : list (string * Z) := [("dhcp", 90); ("arp", 80); ("flow", 40)].

Definition derive_fact (obs : dict) (obs_id : string) (ts : Z) (pred : string) : res (list fact) :=
  let val := dgetN pred obs in
  if truthy val then
    s ← str_of_val val;
    src ← str_of_val (dget_or "src" (VStr "") obs);
    Ok [{| f_pred := pred; f_value := if String.eqb pred "mac" then lower s else s;
           f_conf := default 40 (assoc src SOURCE_CONFIDENCE); f_from := trunc_ms ts;
           f_expires := None; f_type := src; f_obs := obs_id |}]
  else Ok [].

Definition derive_facts (obs : dict) (obs_id : string) (ts : Z) : res (list fact) :=
  @concat fact <$> mapM (derive_fact obs obs_id ts) ["hostname"; "mac"].

(** The order of [resolve_conflict]: strongest source, highest confidence, then
    value, source type and observation. *)
Definition conflict_key (c : fact) : Z * (Z * (string * (string * string))) :=
  (- SOURCE_RANK (f_type c), (- f_conf c, (f_value c, (f_type c, f_obs c)))).

Definition resolve_conflict (c : fact) (cs : list fact) : fact := min_onto conflict_key c cs.

(** *** Interval histories *)

Definition within (cur : interval) (ts : Z) : bool := before ts (iv_expires cur).

(** A renewal of the value that is open: the confidence and the lease end rise. *)
Definition renew (cur : interval) (c : fact) : interval :=
  {| iv_value := iv_value cur; iv_from := iv_from cur; iv_to := iv_to cur;
     iv_conf := Z.max (iv_conf cur) (f_conf c); iv_type := iv_type cur; iv_obs := iv_obs cur;
     iv_expires := match f_expires c, iv_expires cur with
                   | Some e, None => Some e
                   | Some e, Some x => if x <? e then Some e else Some x
                   | None, x => x
                   end |}.

Definition close_at (cur : interval) (ts : Z) : interval :=
  match iv_to cur with
  | Some _ => cur
  | None =>
      {| iv_value := iv_value cur; iv_from := iv_from cur;
         iv_to := Some (trunc_ms (match iv_expires cur with
                                  | Some e => if e <? ts then e else ts
                                  | None => ts
                                  end));
         iv_conf := iv_conf cur; iv_type := iv_type cur; iv_obs := iv_obs cur;
         iv_expires := iv_expires cur |}
  end.

Definition open_interval (ts : Z) (c : fact) : interval :=
  {| iv_value := f_value c; iv_from := trunc_ms ts; iv_to := None; iv_conf := f_conf c;
     iv_type := f_type c; iv_obs := f_obs c; iv_expires := f_expires c |}.

(** The intervals so far, with the last one apart. *)
Definition rebuild_step (acc : list interval * option interval) (kv : Z * fact) :
    list interval * option interval :=
  let '(ts, c) := kv in
  match acc.2 with
  | None => (acc.1, Some (open_interval ts c))
  | Some cur =>
      if String.eqb (iv_value cur) (f_value c) && bool_decide (iv_to cur = None) && within cur ts
      then (acc.1, Some (renew cur c))
      else (acc.1 ++ [close_at cur ts], Some (open_interval ts c))
  end.

(** The trailing open interval ends with its lease. *)
Definition close_trailing (cur : interval) : interval :=
  match iv_to cur, iv_expires cur with
  | None, Some e => {| iv_value := iv_value cur; iv_from := iv_from cur; iv_to := Some e;
                       iv_conf := iv_conf cur; iv_type := iv_type cur; iv_obs := iv_obs cur;
                       iv_expires := iv_expires cur |}
  | _, _ => cur
  end.

Definition rebuild_items (items : list (Z * fact)) : list interval :=
  let acc := foldl rebuild_step ([], None) items in
  acc.1 ++ match acc.2 with Some cur => [close_trailing cur] | None => [] end.

Definition _rebuild (by_ts : list (Z * fact)) : list interval :=
  rebuild_items (isort fst by_ts).

(** *** Folding candidates into the state *)

Definition by_ts := list (Z * fact).
Definition facts_of := list (string * by_ts).

Definition fold_one (m : by_ts) (c : fact) : by_ts :=
  let ts := trunc_ms (f_from c) in
  od_set ts (match od_get ts m with None => c | Some e => resolve_conflict e [c] end) m.

(** Group the candidates by predicate, in order of first appearance. *)
Definition group_by_pred (cands : list fact) : list (string * list fact) :=
  foldl (λ g c, od_set (f_pred c) (default [] (od_get (f_pred c) g) ++ [c]) g) [] cands.

Definition fold_group (st : facts_of * list (string * list interval)) (g : string * list fact) :=
  let m := foldl fold_one (default [] (od_get g.1 st.1)) g.2 in
  (od_set g.1 m st.1, od_set g.1 (_rebuild m) st.2).

Definition fold_facts (state : list (string * facts_of)) (subject : string) (cands : list fact) :
    list (string * facts_of) * list (string * list interval) :=
  let facts := default [] (od_get subject state) in
  let r := foldl fold_group (facts, []) (group_by_pred cands) in
  (od_set subject r.1 state, r.2).

(** ** Identity observations, stored and replayed *)

Definition entity (type : string) (value : val) : val := VDict [("type", VStr type); ("value", value)].

(** The document of the row; [observation] stores its JSON text. *)
Definition identity_doc (obs : dict) (obs_id tenant : string) (ts : Z) : res dict :=
  mac ← (if truthy (dgetN "mac" obs)
         then m ← lower_val (dgetN "mac" obs); Ok [entity "mac" (VStr m)] else Ok []);
  let ip := if truthy (dgetN "ip" obs) then [entity "ip" (dgetN "ip" obs)] else [] in
  let host := if truthy (dgetN "hostname" obs)
              then [entity "hostname" (dgetN "hostname" obs)] else [] in
  Ok [("schema", VStr "cernity.observation.v1"); ("obs_id", VStr obs_id);
      ("tenant", VStr tenant); ("type", dget_or "src" (VStr "") obs);
      ("ts", VDict [("normalized", VStr (format_ms ts))]);
      ("entities", VList (ip ++ mac ++ host)); ("capabilities", VList [VStr "identity"]);
      ("lease_secs", dgetN "lease_secs" obs);
      ("source_ref", VDict [("kind", VStr "identity"); ("obs_id", VStr obs_id)])].

Definition identity_observation (obs : dict) (obs_id tenant : string) (ts : Z) : res dict :=
  doc ← identity_doc obs obs_id tenant ts;
  ents ← as_list (dgetN "entities" doc);
  Ok [("tenant_id", VStr tenant); ("obs_id", VStr obs_id); ("normalized_time", VStr (format_ms ts));
      ("entity_values", VList (omap (λ e, match e with VDict d => dget "value" d | _ => None end) ents));
      ("observation", VDict doc)].

(** First value of each entity type. *)
Definition first_entities (entities : list val) : dict :=
  foldl (λ m e, match e with
                | VDict d => match dgetN "type" d with
                             | VStr t => dsetdefault t (dgetN "value" d) m
                             | _ => m
                             end
                | _ => m
                end) [] entities.

Definition reconstruct_obs (doc : dict) : res dict :=
  entities ← as_list (dget_or "entities" (VList []) doc);
  let ents := first_entities entities in
  Ok [("ip", dgetN "ip" ents); ("mac", dgetN "mac" ents); ("hostname", dgetN "hostname" ents);
      ("lease_secs", dgetN "lease_secs" doc); ("src", dget_or "type" (VStr "") doc)].

(** ** Reading back: authoritative rows, windows and the timeline *)

Record fact_row := {
  r_tenant : string; r_subject : string; r_pred : string; r_value : string; r_from : Z;
  r_obs : string; r_updated : option Z; r_to : option Z; r_deleted : bool
}.
Definition row_key (r : fact_row) : string * string * string * string * Z * string :=
  (r_tenant r, r_subject r, r_pred r, r_value r, trunc_ms (r_from r), r_obs r).
Definition row_final (r : fact_row) : bool :=
  match r_to r with Some _ => true | None => false end || r_deleted r.

Definition supersedes (r cur : fact_row) : bool :=
  match r_updated r, r_updated cur with
  | Some ru, Some cu => (cu <? ru) || ((ru =? cu) && row_final r && negb (row_final cur))
  | _, _ => row_final r && negb (row_final cur)
  end.
Definition best_row m (r : fact_row) :=
  match od_get (row_key r) m with
  | None => od_set (row_key r) r m
  | Some cur => if supersedes r cur then od_set (row_key r) r m else m
  end.
Definition _authoritative (rows : list fact_row) : list fact_row :=
  List.filter (λ r, negb (r_deleted r)) (snd <$> foldl best_row [] rows).

Definition window : Type := string * option Z * option Z.

Definition _ip_windows (ent : string) (facts : list fact_row) : list window * string :=
  if starts_with "mac:" ent then
    ((λ f, (r_value f, Some (r_from f), r_to f)) <$>
       List.filter (λ f, String.eqb (r_pred f) "ip") facts, "mac-bound")
  else if starts_with "ip:" ent then ([(drop_chars 3 ent, None, None)], "ip-only")
  else ([(ent, None, None)], "ip-only").

Definition in_one (ts : Z) (values : list string) (w : window) : bool :=
  let '(ip, vf, vt) := w in
  mem ip values && (match vf with Some f => f <=? ts | None => true end) && before ts vt.
Definition _in_window (ts : Z) (values : list string) (windows : list window) : bool :=
  existsb (in_one ts values) windows.

Inductive event :=
| observation (ts : Z) (obs_id : string) (type : string)
| fact_change (ts : Z) (f : fact_row).
Definition event_key (e : event) : Z * (Z * (string * string)) :=
  match e with
  | observation ts o _ => (trunc_ms ts, (0, ("", o)))
  | fact_change ts f => (trunc_ms ts, (1, (r_pred f, "")))
  end.

Definition build_timeline (observations : list (Z * string * string)) (changes : list fact_row) :
    list event * list (string * list fact_row) :=
  (isort event_key (map (λ o : Z * string * string, observation o.1.1 o.1.2 o.2) observations
                    ++ map (λ f, fact_change (r_from f) f) changes),
   foldl (λ m f, od_set (r_pred f) (default [] (od_get (r_pred f) m) ++ [f]) m) []
     (isort r_from changes)).

(** ** Facts about the histories *)

Lemma fold_one_keep_min m c : fold_one m c = keep_min (λ c, trunc_ms (f_from c)) conflict_key m c.
Proof.
  unfold fold_one, keep_min, resolve_conflict. simpl.
  destruct (od_get _ m) as [e|] eqn:E; [|done].
  destruct (ltb _ _); [done|]. by apply od_set_same.
Qed.

Lemma fold_winners cands :
  foldl fold_one [] cands = foldl (keep_min (λ c, trunc_ms (f_from c)) conflict_key) [] cands.
Proof.
  generalize (@nil (Z * fact)). induction cands as [|c cands IH]; intros m; simpl; [done|].
  by rewrite fold_one_keep_min, IH.
Qed.

(** [c] is the candidate [resolve_conflict] picks at its instant. *)
Definition wins_instant (cands : list fact) (c : fact) : Prop :=
  od_get (trunc_ms (f_from c)) (foldl fold_one [] cands) = Some c.

(** One interval is over before the other starts. *)
Definition over_before (a b : interval) : Prop := ∃ e, iv_to a = Some e ∧ e <= iv_from b.

(** A claimed lease outlives its start, and its end is canonical. *)
Definition lease_ok (ts : Z) (c : fact) : Prop :=
  before ts (f_expires c) = true ∧ trunc_ms <$> f_expires c = f_expires c.

Definition item_ok (kv : Z * fact) : Prop := trunc_ms kv.1 = kv.1 ∧ lease_ok kv.1 kv.2.

Definition shown (ivs : list interval) (kv : Z * fact) : Prop :=
  ∃ iv, iv ∈ ivs ∧ iv_value iv = f_value kv.2 ∧ iv_from iv <= kv.1 ∧ before kv.1 (iv_to iv) = true.

(** The state of [_rebuild] after the items [seen], the last of them at [ts]. *)
Record rebuilt (seen : list (Z * fact)) (ts : Z) (closed : list interval) (cur : interval) : Prop := {
  rb_open : iv_to cur = None;
  rb_from : iv_from cur <= ts;
  rb_lease : before ts (iv_expires cur) = true ∧ trunc_ms <$> iv_expires cur = iv_expires cur;
  rb_last : ∀ kv, kv ∈ seen → kv.1 <= ts;
  rb_chain : StronglySorted over_before (closed ++ [cur]);
  rb_shown : ∀ kv, kv ∈ seen → shown (closed ++ [cur]) kv;
  rb_starts : ∀ iv, iv ∈ closed ++ [cur] → ∃ c, (iv_from iv, c) ∈ seen ∧ f_value c = iv_value iv
}.

Lemma chain_replace closed cur cur' :
  StronglySorted over_before (closed ++ [cur]) → iv_from cur' = iv_from cur →
  StronglySorted over_before (closed ++ [cur']).
Proof.
  rewrite !StronglySorted_app. intros (H1 & H2 & _) Hf. split_and!; [|done|repeat constructor].
  intros x1 x2 Hx1 ->%list_elem_of_singleton.
  destruct (H1 x1 cur Hx1) as (e & ? & ?); [set_solver|]. exists e. by rewrite Hf.
Qed.

Lemma rebuilt_open seen ts c :
  item_ok (ts, c) → (∀ kv, kv ∈ seen → kv.1 <= ts) →
  (∀ kv, kv ∈ seen → shown [] kv) → rebuilt (seen ++ [(ts, c)]) ts [] (open_interval ts c).
Proof.
  intros [Ht [Hl Hc]] Hle Hsh. simpl in *. constructor; simpl; try done.
  - rewrite Ht. lia.
  - intros kv [?| ->%list_elem_of_singleton]%elem_of_app; [by apply Hle|simpl; lia].
  - repeat constructor.
  - intros kv [Hin| ->%list_elem_of_singleton]%elem_of_app.
    + destruct (Hsh _ Hin) as (? & ? & _). set_solver.
    + exists (open_interval ts c). simpl. rewrite Ht. split_and!; [by left|done|lia|done].
  - intros iv ->%list_elem_of_singleton. exists c. simpl. rewrite Ht. split; [set_solver|done].
Qed.

Lemma rebuilt_renew seen ts closed cur ts' c :
  rebuilt seen ts closed cur → ts < ts' → item_ok (ts', c) → iv_value cur = f_value c →
  within cur ts' = true → rebuilt (seen ++ [(ts', c)]) ts' closed (renew cur c).
Proof.
  intros [Ho Hf [Hl Hlc] Hla Hch Hsh Hst] Hlt [Ht [Hc Hcc]] Hv Hw. simpl in *. unfold within in Hw.
  assert (Hren : before ts' (iv_expires (renew cur c)) = true ∧
                 trunc_ms <$> iv_expires (renew cur c) = iv_expires (renew cur c)).
  { simpl. destruct (f_expires c) as [e|]; [|done]. destruct (iv_expires cur) as [x|]; [|done].
    by destruct (x <? e). }
  constructor; simpl; try done; try lia.
  - intros kv [Hin| ->%list_elem_of_singleton]%elem_of_app; [|simpl; lia].
    specialize (Hla _ Hin). lia.
  - by eapply chain_replace.
  - intros kv [Hin| ->%list_elem_of_singleton]%elem_of_app.
    + destruct (Hsh _ Hin) as (iv & Hiv & ? & ? & ?).
      apply elem_of_app in Hiv as [Hiv| ->%list_elem_of_singleton].
      * exists iv. split; [set_solver|done].
      * exists (renew cur c). split; [set_solver|]. done.
    + exists (renew cur c). simpl. rewrite Ho. split_and!; [set_solver|done|lia|done].
  - intros iv [Hin| ->%list_elem_of_singleton]%elem_of_app.
    + destruct (Hst iv) as (c' & ? & ?); [set_solver|]. exists c'. split; [set_solver|done].
    + destruct (Hst cur) as (c' & ? & ?); [set_solver|]. exists c'. split; [set_solver|done].
Qed.

(** The instant an open interval is closed at. *)
Lemma close_at_end cur ts ts' :
  iv_to cur = None → before ts (iv_expires cur) = true → trunc_ms <$> iv_expires cur = iv_expires cur →
  ts < ts' → trunc_ms ts' = ts' →
  ∃ e, iv_to (close_at cur ts') = Some e ∧ ts < e <= ts'.
Proof.
  intros Ho Hl Hlc Hlt Ht. unfold close_at. rewrite Ho. simpl. eexists. split; [done|].
  destruct (iv_expires cur) as [x|]; simpl in *; [|rewrite Ht; lia].
  injection Hlc as Hx. to_prop. destruct (x <? ts') eqn:E; to_prop; rewrite ?Hx, ?Ht; lia.
Qed.

Lemma rebuilt_change seen ts closed cur ts' c :
  rebuilt seen ts closed cur → ts < ts' → item_ok (ts', c) →
  rebuilt (seen ++ [(ts', c)]) ts' (closed ++ [close_at cur ts']) (open_interval ts' c).
Proof.
  intros [Ho Hf [Hl Hlc] Hla Hch Hsh Hst] Hlt [Ht [Hc Hcc]]. simpl in *.
  destruct (close_at_end cur ts ts' Ho Hl Hlc Hlt Ht) as (e & He & Hlo & Hhi).
  assert (Hcf : iv_from (close_at cur ts') = iv_from cur) by (unfold close_at; by rewrite Ho).
  assert (Hcv : iv_value (close_at cur ts') = iv_value cur) by (unfold close_at; by rewrite Ho).
  constructor; simpl; try done.
  - rewrite Ht. lia.
  - intros kv [Hin| ->%list_elem_of_singleton]%elem_of_app; [|simpl; lia].
    specialize (Hla _ Hin). lia.
  - rewrite StronglySorted_app. split_and!; [|by eapply chain_replace|repeat constructor].
    intros x1 x2 Hx1 ->%list_elem_of_singleton. simpl. unfold over_before. simpl. rewrite Ht.
    apply elem_of_app in Hx1 as [Hx1| ->%list_elem_of_singleton]; [|exists e; split; [done|lia]].
    apply StronglySorted_app in Hch as (H1 & _ & _).
    destruct (H1 x1 cur Hx1) as (e1 & ? & ?); [set_solver|]. exists e1. split; [done|lia].
  - intros kv [Hin| ->%list_elem_of_singleton]%elem_of_app.
    + destruct (Hsh _ Hin) as (iv & Hiv & Hv & Hfr & Hto). specialize (Hla _ Hin).
      apply elem_of_app in Hiv as [Hiv| ->%list_elem_of_singleton].
      * exists iv. split; [set_solver|done].
      * exists (close_at cur ts'). rewrite Hcf, Hcv, He. simpl.
        split_and!; [set_solver|done|done|apply Z.ltb_lt; lia].
    + exists (open_interval ts' c). simpl. rewrite Ht. split_and!; [set_solver|done|lia|done].
  - intros iv Hin. rewrite <- app_assoc in Hin. apply elem_of_app in Hin as [Hin|Hin].
    + destruct (Hst iv) as (c' & ? & ?); [set_solver|]. exists c'. split; [set_solver|done].
    + simpl in Hin. apply elem_of_cons in Hin as [->| ->%list_elem_of_singleton].
      * destruct (Hst cur) as (c' & ? & ?); [set_solver|]. rewrite Hcf, Hcv.
        exists c'. split; [set_solver|done].
      * exists c. simpl. rewrite Ht. split; [set_solver|done].
Qed.

Lemma rebuilt_all seen ts closed cur items :
  rebuilt seen ts closed cur → StronglySorted Z.lt (ts :: (fst <$> items)) → Forall item_ok items →
  ∃ ts' closed' cur', foldl rebuild_step (closed, Some cur) items = (closed', Some cur') ∧
    rebuilt (seen ++ items) ts' closed' cur'.
Proof.
  revert seen ts closed cur. induction items as [|[ts' c] items IH]; intros seen ts closed cur Hr Hs Hok.
  - exists ts, closed, cur. by rewrite app_nil_r.
  - simpl in Hs. apply StronglySorted_inv in Hs as [Hs Hf]. rewrite Forall_forall in Hf.
    assert (Hlt : ts < ts') by (apply Hf; set_solver).
    apply Forall_cons in Hok as [Hc Hok]. simpl.
    replace (seen ++ (ts', c) :: items) with ((seen ++ [(ts', c)]) ++ items) by by rewrite <- app_assoc.
    destruct (_ && _) eqn:E.
    + to_prop. apply String.eqb_eq in H. eapply (IH _ ts'); [|done|done].
      by apply (rebuilt_renew seen ts).
    + eapply (IH _ ts'); [|done|done]. by apply (rebuilt_change seen ts).
Qed.

Lemma rebuild_items_spec items :
  StronglySorted Z.lt (fst <$> items) → Forall item_ok items →
  StronglySorted over_before (rebuild_items items) ∧
  (∀ kv, kv ∈ items → shown (rebuild_items items) kv) ∧
  (∀ iv, iv ∈ rebuild_items items → ∃ c, (iv_from iv, c) ∈ items ∧ f_value c = iv_value iv).
Proof.
  destruct items as [|[ts c] items]; intros Hs Hok.
  { split_and!; [constructor|set_solver|set_solver]. }
  apply Forall_cons in Hok as [Hc Hok]. unfold rebuild_items. simpl.
  pose proof (rebuilt_open [] ts c Hc ltac:(set_solver) ltac:(set_solver)) as H0. simpl in H0.
  destruct (rebuilt_all _ _ _ _ items H0 Hs Hok) as (ts' & closed & cur & -> & Hr). simpl in *.
  destruct Hr as [Ho Hf [Hl _] Hla Hch Hsh Hst].
  assert (Hcf : iv_from (close_trailing cur) = iv_from cur ∧
                iv_value (close_trailing cur) = iv_value cur ∧
                iv_to (close_trailing cur) = iv_expires cur).
  { unfold close_trailing. rewrite Ho. by destruct (iv_expires cur) eqn:E; rewrite ?Ho, ?E. }
  destruct Hcf as (Hcf & Hcv & Hct). split_and!.
  - by eapply chain_replace.
  - intros kv Hin. destruct (Hsh _ Hin) as (iv & Hiv & Hv & Hfr & Hto). specialize (Hla _ Hin).
    apply elem_of_app in Hiv as [Hiv| ->%list_elem_of_singleton].
    + exists iv. split; [set_solver|done].
    + exists (close_trailing cur). rewrite Hcf, Hcv, Hct. split_and!; [set_solver|done|done|].
      destruct (iv_expires cur); [|done]. simpl in *. to_prop. apply Z.ltb_lt. lia.
  - intros iv [Hin| ->%list_elem_of_singleton]%elem_of_app.
    + apply Hst. set_solver.
    + destruct (Hst cur) as (c' & ? & ?); [set_solver|]. exists c'. by rewrite Hcf, Hcv.
Qed.

Lemma fold_one_spec cands :
  od_wf (foldl fold_one [] cands) ∧
  ∀ kv, kv ∈ foldl fold_one [] cands → kv.2 ∈ cands ∧ trunc_ms (f_from kv.2) = kv.1.
Proof.
  rewrite fold_winners. destruct (keep_min_spec (λ c, trunc_ms (f_from c)) conflict_key cands)
    as (Hwf & Hg & _). split; [done|]. intros [ts c] Hin. apply od_wf_get in Hin; [|done].
  destruct (Hg _ _ Hin) as [? [? _]]. done.
Qed.

(** [_rebuild] walks the instants in increasing order. *)
Lemma items_strict (m : by_ts) : od_wf m → StronglySorted Z.lt (fst <$> isort fst m).
Proof.
  intros Hwf. pose proof (isort_sorted fst m) as Hs.
  assert (Hnd : NoDup (fst <$> isort fst m)) by by rewrite isort_perm.
  revert Hs Hnd. generalize (isort fst m). intros l. induction 1 as [|x l Hs IH Hf]; [constructor|].
  rewrite fmap_cons. intros [Hx Hnd]%NoDup_cons. constructor; [by apply IH|].
  apply Forall_forall. intros y (kv & -> & Hin)%list_elem_of_fmap.
  pose proof (proj1 (List.Forall_forall _ _) Hf kv (proj1 (list_elem_of_In _ _) Hin)) as Hk. clear Hf. rename Hk into Hf. unfold key_le, leb in Hf. simpl in Hf.
  destruct (Z.compare_spec x.1 kv.1) as [E|E|E]; [|done|done].
  exfalso. apply Hx. rewrite E. by apply list_elem_of_fmap_2.
Qed.

Lemma first_entities_dedup ip mac host :
  let l := (if truthy ip then [entity "ip" ip] else []) ++ (if truthy mac then [entity "mac" mac] else [])
           ++ (if truthy host then [entity "hostname" host] else []) in
  (truthy ip = true → dgetN "ip" (first_entities l) = ip) ∧
  (truthy ip = false → dgetN "ip" (first_entities l) = VNone) ∧
  (truthy mac = true → dgetN "mac" (first_entities l) = mac) ∧
  (truthy mac = false → dgetN "mac" (first_entities l) = VNone) ∧
  (truthy host = true → dgetN "hostname" (first_entities l) = host) ∧
  (truthy host = false → dgetN "hostname" (first_entities l) = VNone).
Proof.
  destruct (truthy ip), (truthy mac), (truthy host); cbn; split_and!; done.
Qed.

(** ** Properties *)

(** A fact history never overwrites and never overlaps.  Fold any candidates of
    one predicate and rebuild: the intervals follow one another in time, each over
    before the next starts; the candidate that wins an instant is shown by an
    interval of its value that covers the instant; and every interval starts at a
    candidate of its value.  (A lease outlives its start and its end is canonical.) *)
Theorem fact_history_sound cands :
  (∀ c, c ∈ cands → lease_ok (trunc_ms (f_from c)) c) →
  let ivs := _rebuild (foldl fold_one [] cands) in
  StronglySorted over_before ivs ∧
  (∀ c, wins_instant cands c → shown ivs (trunc_ms (f_from c), c)) ∧
  (∀ iv, iv ∈ ivs → ∃ c, c ∈ cands ∧ trunc_ms (f_from c) = iv_from iv ∧ f_value c = iv_value iv).
Proof.
  intros Hl ivs. destruct (fold_one_spec cands) as [Hwf Hin].
  destruct (rebuild_items_spec (isort fst (foldl fold_one [] cands))) as (H1 & H2 & H3).
  - by apply items_strict.
  - apply Forall_forall. intros [ts c] Hkv%elem_of_isort. destruct (Hin _ Hkv) as [Hc Ht].
    simpl in Hc, Ht. split; simpl; [rewrite <- Ht; apply trunc_ms_idemp|]. rewrite <- Ht. by apply Hl.
  - split_and!; [done| |].
    + intros c Hw. apply H2. apply elem_of_isort. by apply od_get_elem.
    + intros iv Hiv. destruct (H3 _ Hiv) as (c & Hc%elem_of_isort & Hv).
      destruct (Hin _ Hc) as [? ?]. by exists c.
Qed.

Definition name_fact (name : string) (from : Z) (obs : string) : fact :=
  {| f_pred := "hostname"; f_value := name; f_conf := 90; f_from := from; f_expires := None;
     f_type := "dhcp"; f_obs := obs |}.

Lemma fact_history_sound_witness :
  StronglySorted over_before (_rebuild (foldl fold_one []
    [name_fact "b" 3000000 "o2"; name_fact "a" 1000000 "o1"])).
Proof.
  apply (fact_history_sound [name_fact "b" 3000000 "o2"; name_fact "a" 1000000 "o1"]).
  intros c Hc. repeat (apply elem_of_cons in Hc as [->|Hc]; [split; reflexivity|]). set_solver.
Defined.

(** A fact history does not depend on the order in which candidates arrive: a late
    or replayed event leads to the intervals a chronological delivery gives, conflicts
    at one instant included (candidates of one instant with equal conflict keys, down
    to the observation, are the same candidate). *)
Theorem fact_history_order_independent cands cands' :
  cands ≡ₚ cands' →
  (∀ c c', c ∈ cands → c' ∈ cands → trunc_ms (f_from c) = trunc_ms (f_from c') →
     conflict_key c = conflict_key c' → c = c') →
  _rebuild (foldl fold_one [] cands) = _rebuild (foldl fold_one [] cands').
Proof.
  intros Hp Hd. destruct (fold_one_spec cands) as [Hwf _], (fold_one_spec cands') as [Hwf' _].
  unfold _rebuild. f_equal. apply isort_perm_eq; [done|].
  apply od_get_perm; [done|done|]. intros k. rewrite !fold_winners. by apply keep_min_perm.
Qed.

Lemma fact_history_order_independent_witness :
  _rebuild (foldl fold_one [] [name_fact "b" 3000000 "o2"; name_fact "a" 1000000 "o1"]) =
  _rebuild (foldl fold_one [] [name_fact "a" 1000000 "o1"; name_fact "b" 3000000 "o2"]).
Proof.
  apply fact_history_order_independent; [apply perm_swap|].
  intros c c' H H' Ht _. apply elem_of_cons in H as [->|H]; apply elem_of_cons in H' as [->|H'];
    try done; try (apply list_elem_of_singleton in H as ->);
    try (apply list_elem_of_singleton in H' as ->); try done; by vm_compute in Ht.
Defined.

(** Stored identity evidence replays to the observation it came from: rebuilding a
    row from the persisted document gives back the address, the MAC in lower case,
    the host name, the source and the original lease time (not a derived expiry). *)
Theorem identity_evidence_roundtrip ip mac host secs src obs_id ten ts :
  truthy (VStr ip) = true →
  let obs := identity_row (VStr ip) mac host secs src in
  (mac = VNone ∨ ∃ m, mac = VStr m ∧ str_truthy m = true) →
  (host = VNone ∨ ∃ h, host = VStr h ∧ str_truthy h = true) →
  ∃ row doc, identity_observation obs obs_id ten ts = Ok row ∧ dget "observation" row = Some (VDict doc) ∧
    reconstruct_obs doc = Ok (identity_row (VStr ip)
      match mac with VStr m => VStr (lower m) | v => v end host secs src).
Proof.
  intros Hip obs Hmac Hhost. subst obs. unfold identity_observation, identity_doc.
  cbn [dgetN dget_or dget identity_row String.eqb Ascii.eqb Bool.eqb default].
  assert (Hlow : ∀ m, str_truthy m = true → str_truthy (lower m) = true) by by intros [|].
  destruct Hmac as [-> |(m & -> & Hm)], Hhost as [-> |(h & -> & Hh)];
    cbn; simpl in Hip; rewrite ?Hip, ?Hm, ?Hh; cbn; rewrite ?Hip, ?Hh; cbn;
    do 2 eexists; (split; [reflexivity|]); (split; [reflexivity|]); cbn; reflexivity.
Qed.

Lemma identity_evidence_roundtrip_witness :
  ∃ row doc, identity_observation (identity_row (VStr "10.0.0.9") (VStr "AA:01") VNone (VInt 60) "dhcp")
    "obs:1" "t" 1000000 = Ok row ∧ dget "observation" row = Some (VDict doc) ∧
    reconstruct_obs doc = Ok (identity_row (VStr "10.0.0.9") (VStr "aa:01") VNone (VInt 60) "dhcp").
Proof.
  apply (identity_evidence_roundtrip "10.0.0.9" (VStr "AA:01") VNone (VInt 60) "dhcp" "obs:1" "t" 1000000).
  - reflexivity.
  - right. by exists "AA:01".
  - by left.
Defined.
