(* ===== verification/WindowStore.v ===== *)
(** * The window store (shared/store.py)

    [InMemoryStore] keeps seven tables keyed by the same string; [cell] gathers the
    entries of the tables at one key, so each method is a function on cells lifted to
    the store.  Times, scores and amounts are integers (time in microseconds).
    [WindowStore] is the interface; [ShardedRedisStore] routes the interface over
    several stores. *)

From S2P Require Import Prelude Order PyVal OrderedMap.
Set Default Proof Using "Type".

Definition REFUSED_FIELD : string := "#refused".

(** ** Operations and answers *)

(** The writes a batch buffers. *)
Inductive batch_op :=
| b_win (key : string) (idx : option string) (score : Z) (value : string) (ttl : Z)
| b_cnt (key field : string) (delta ttl : Z) (idx : option string)
| b_fset (key field : string) (value ttl : Z) (idx : option string) (cap : option Z)
| b_znx (key member : string) (score ttl : Z) (idx : option string)
| b_kv (key : string) (value : string) (ttl : Z)
| b_sadd (key member : string) (ttl : Z).

Definition window_item : Type := string * string * Z * string * Z.

Inductive op :=
| o_window_add (key : string) (score : Z) (value : string) (ttl : Z)
| o_window_range (key : string) (min_score : Z)
| o_window_add_indexed (key idx : string) (score : Z) (value : string) (ttl : Z)
| o_window_add_indexed_batch (items : list window_item)
| o_pipeline_ops (ops : list batch_op)
| o_zset_since (key : string) (min_score : Z)
| o_zset_rank (key member : string)
| o_counter_add (key field : string) (delta ttl : Z)
| o_counter_get (key field : string)
| o_counter_clear (key : string)
| o_field_set (key field : string) (value ttl : Z) (cap : option Z)
| o_fields_get (key : string)
| o_set_add (key member : string) (ttl : Z) (cap : option Z)
| o_set_len (key : string)
| o_set_contains (key member : string)
| o_set_members (key : string)
| o_set_remove (key member : string)
| o_kv_set (key value : string) (ttl : Z)
| o_kv_set_once (key value : string) (ttl : Z)
| o_kv_get (key : string)
| o_kv_prune
| o_dedup_seen (key : string) (ttl : Z)
| o_keys_matching (prefix : string).

Inductive answer :=
| a_none
| a_bool (b : bool)
| a_int (z : Z)
| a_opt_int (z : option Z)
| a_str (s : option string)
| a_strs (l : list string)
| a_window (l : list (Z * string))
| a_fields (l : list (string * Z)) (refused : Z).

Class WindowStore (S : Type) := ws_step : Z → S → op → S * answer.

(** ** One key of the in-memory store *)

Record cell := {
  c_z : option (list (Z * string * Z));       (* score, value, expiry *)
  c_zs : option (list (string * Z));          (* member -> first score *)
  c_h : option (list (string * Z));           (* field -> value *)
  c_s : option (list (string * Z));           (* member -> expiry *)
  c_kv : option (string * Z);                 (* value, expiry *)
  c_exp : option Z;
  c_dedup : option Z
}.
Definition empty_cell : cell :=
  {| c_z := None; c_zs := None; c_h := None; c_s := None; c_kv := None; c_exp := None;
     c_dedup := None |}.

Definition set_z x c := {| c_z := x; c_zs := c_zs c; c_h := c_h c; c_s := c_s c; c_kv := c_kv c;
  c_exp := c_exp c; c_dedup := c_dedup c |}.
Definition set_zs x c := {| c_z := c_z c; c_zs := x; c_h := c_h c; c_s := c_s c; c_kv := c_kv c;
  c_exp := c_exp c; c_dedup := c_dedup c |}.
Definition set_h x c := {| c_z := c_z c; c_zs := c_zs c; c_h := x; c_s := c_s c; c_kv := c_kv c;
  c_exp := c_exp c; c_dedup := c_dedup c |}.
Definition set_s x c := {| c_z := c_z c; c_zs := c_zs c; c_h := c_h c; c_s := x; c_kv := c_kv c;
  c_exp := c_exp c; c_dedup := c_dedup c |}.
Definition set_kv x c := {| c_z := c_z c; c_zs := c_zs c; c_h := c_h c; c_s := c_s c; c_kv := x;
  c_exp := c_exp c; c_dedup := c_dedup c |}.
Definition set_exp x c := {| c_z := c_z c; c_zs := c_zs c; c_h := c_h c; c_s := c_s c; c_kv := c_kv c;
  c_exp := x; c_dedup := c_dedup c |}.
Definition set_dedup x c := {| c_z := c_z c; c_zs := c_zs c; c_h := c_h c; c_s := c_s c;
  c_kv := c_kv c; c_exp := c_exp c; c_dedup := x |}.

Section cells.
Context (now : Z).

Definition _alive (c : cell) : bool :=
  match c_exp c with None => true | Some e => now <? e end.

Definition window_add (score : Z) (value : string) (ttl : Z) (c : cell) : cell :=
  set_exp (Some (now + ttl)) (set_z (Some (default [] (c_z c) ++ [(score, value, now + ttl)])) c).

Definition window_range (min_score : Z) (c : cell) : cell * list (Z * string) :=
  let z := List.filter (λ t : Z * string * Z, (now <? t.2) && (min_score <=? t.1.1))
             (default [] (c_z c)) in
  (set_z (Some z) c, isort (K := Z * string) id (map fst z)).

(** First-seen member: an expired key starts over, an existing member is kept. *)
Definition zset_nx (member : string) (score ttl : Z) (c : cell) : cell :=
  let z := if _alive c then default [] (c_zs c) else [] in
  let z := match od_get member z with Some _ => z | None => z ++ [(member, score)] end in
  set_exp (Some (now + ttl)) (set_zs (Some z) c).

Definition zset_since (min_score : Z) (c : cell) : cell * list string :=
  if _alive c then
    (c, map snd (isort (K := Z * string) id (map (λ ms : string * Z, (ms.2, ms.1))
          (List.filter (λ ms : string * Z, min_score <? ms.2) (default [] (c_zs c))))))
  else (set_zs None c, []).

Definition zset_rank (member : string) (c : cell) : option Z :=
  if _alive c then
    let z := default [] (c_zs c) in
    match od_get member z with
    | None => None
    | Some ms => Some (Z.of_nat (length (List.filter
                   (λ m : string * Z, ltb (m.2, m.1) (ms, member)) z)))
    end
  else None.

(** An expired counter hash starts a fresh window. *)
Definition fresh_h (c : cell) : cell :=
  if _alive c then c else set_exp None (set_h None c).

Definition counter_add (field : string) (delta ttl : Z) (c : cell) : cell * Z :=
  let c := fresh_h c in
  let h := default [] (c_h c) in
  let v := default 0 (od_get field h) + delta in
  (set_exp (Some (default (now + ttl) (c_exp c))) (set_h (Some (od_set field v h)) c), v).

Definition counter_get (field : string) (c : cell) : Z :=
  if _alive c then default 0 (od_get field (default [] (c_h c))) else 0.

Definition counter_clear (c : cell) : cell := set_exp None (set_h None c).

(** Identities a capped hash holds, without the refusal counter. *)
Definition identities (h : list (string * Z)) : Z :=
  Z.of_nat (length h) - (match od_get REFUSED_FIELD h with Some _ => 1 | None => 0 end).

Definition field_set (field : string) (value ttl : Z) (cap : option Z) (c : cell) : cell :=
  let c := fresh_h c in
  let h := default [] (c_h c) in
  let full := match cap, od_get field h with
              | Some n, None => n <=? identities h
              | _, _ => false
              end in
  let h := if full then od_set REFUSED_FIELD (default 0 (od_get REFUSED_FIELD h) + 1) h
           else od_set field value h in
  set_exp (Some (default (now + ttl) (c_exp c))) (set_h (Some h) c).

Definition fields_get (c : cell) : list (string * Z) * Z :=
  if _alive c then
    let h := default [] (c_h c) in
    (List.filter (λ fv : string * Z, negb (String.eqb fv.1 REFUSED_FIELD)) h,
     default 0 (od_get REFUSED_FIELD h))
  else ([], 0).

(** Members past their own expiry are pruned; an empty set leaves the table. *)
Definition _live_set (c : cell) : cell * list (string * Z) :=
  match c_s c with
  | None => (c, [])
  | Some s =>
      let s := List.filter (λ me : string * Z, now <? me.2) s in
      (set_s (match s with [] => None | _ => Some s end) c, s)
  end.

Definition set_add (member : string) (ttl : Z) (cap : option Z) (c : cell) : cell :=
  let '(c, s) := _live_set c in
  let room := match cap with
              | None => true
              | Some n => (Z.of_nat (length s) <=? n)
                          || match od_get member s with Some _ => true | None => false end
              end in
  set_exp (Some (now + ttl)) (set_s (Some (if room then od_set member (now + ttl) s else s)) c).

Definition set_remove (member : string) (c : cell) : cell :=
  match c_s c with None => c | Some s => set_s (Some (od_del member s)) c end.

Definition kv_set (value : string) (ttl : Z) (c : cell) : cell := set_kv (Some (value, now + ttl)) c.

Definition kv_live (c : cell) : option string :=
  match c_kv c with Some (v, e) => if now <? e then Some v else None | None => None end.

(** A time to live rounded up to whole milliseconds. *)
Definition ceil_ms (ttl : Z) : Z := - ((- ttl) / 1000) * 1000.

Definition kv_set_once (value : string) (ttl : Z) (c : cell) : cell * bool :=
  if ttl <=? 0 then (c, false)
  else match kv_live c with
       | Some _ => (c, false)
       | None => (set_kv (Some (value, now + ceil_ms ttl)) c, true)
       end.

Definition kv_get (c : cell) : cell * option string :=
  match kv_live c with Some v => (c, Some v) | None => (set_kv None c, None) end.

Definition kv_prune_cell (c : cell) : cell :=
  match c_kv c with Some (_, e) => if e <=? now then set_kv None c else c | None => c end.

Definition dedup_seen (ttl : Z) (c : cell) : cell * bool :=
  match c_dedup c with
  | Some e => if negb (e =? 0) && (now <? e) then (c, false) else (set_dedup (Some (now + ttl)) c, true)
  | None => (set_dedup (Some (now + ttl)) c, true)
  end.

(** Does a listing of keys show this one? *)
Definition listed_cell (c : cell) : bool :=
  ((bool_decide (is_Some (c_z c)) || bool_decide (is_Some (c_zs c)) || bool_decide (is_Some (c_h c))
    || bool_decide (is_Some (c_s c))) && _alive c)
  || match c_kv c with Some (_, e) => now <? e | None => false end.
End cells.

(** ** The in-memory store *)

Abbreviation mem_store := (gmap string cell).
Definition cell_at (m : mem_store) (k : string) : cell := default empty_cell (m !! k).
Definition put_cell (k : string) (c : cell) (m : mem_store) : mem_store := <[k := c]> m.
Definition on_cell (k : string) (f : cell → cell) (m : mem_store) : mem_store :=
  put_cell k (f (cell_at m k)) m.

Definition index_add (now : Z) (idx : option string) (key : string) (ttl : Z) (m : mem_store) :
    mem_store :=
  match idx with Some i => on_cell i (set_add now key ttl None) m | None => m end.

Definition run_batch_op (now : Z) (m : mem_store) (o : batch_op) : mem_store :=
  match o with
  | b_win key idx score value ttl =>
      index_add now idx key ttl (on_cell key (window_add now score value ttl) m)
  | b_cnt key field delta ttl idx =>
      index_add now idx key ttl (on_cell key (λ c, (counter_add now field delta ttl c).1) m)
  | b_fset key field value ttl idx cap =>
      index_add now idx key ttl (on_cell key (field_set now field value ttl cap) m)
  | b_znx key member score ttl idx =>
      index_add now idx key ttl (on_cell key (zset_nx now member score ttl) m)
  | b_kv key value ttl => on_cell key (kv_set now value ttl) m
  | b_sadd key member ttl => on_cell key (set_add now member ttl None) m
  end.
Definition pipeline_ops (now : Z) (m : mem_store) (ops : list batch_op) : mem_store :=
  foldl (run_batch_op now) m ops.

Definition win_of (it : window_item) : batch_op :=
  let '(k, idx, sc, v, ttl) := it in b_win k (Some idx) sc v ttl.

Definition keys_matching (now : Z) (prefix : string) (m : mem_store) : list string :=
  isort (K := string) id (omap (λ kc : string * cell,
    if starts_with prefix kc.1 && listed_cell now kc.2 then Some kc.1 else None) (map_to_list m)).

Definition kv_prune (now : Z) (m : mem_store) : mem_store := kv_prune_cell now <$> m.

(** An operation on one key: its cell afterwards and the answer. *)
Definition cell_op (now : Z) (o : op) (c : cell) : cell * answer :=
  match o with
  | o_window_add _ score value ttl => (window_add now score value ttl c, a_none)
  | o_window_range _ m => let '(c, l) := window_range now m c in (c, a_window l)
  | o_zset_since _ m => let '(c, l) := zset_since now m c in (c, a_strs l)
  | o_zset_rank _ m => (c, a_opt_int (zset_rank now m c))
  | o_counter_add _ f d ttl => let '(c, v) := counter_add now f d ttl c in (c, a_int v)
  | o_counter_get _ f => (c, a_int (counter_get now f c))
  | o_counter_clear _ => (counter_clear c, a_none)
  | o_field_set _ f v ttl cap => (field_set now f v ttl cap c, a_none)
  | o_fields_get _ => let '(l, n) := fields_get now c in (c, a_fields l n)
  | o_set_add _ m ttl cap => (set_add now m ttl cap c, a_none)
  | o_set_len _ => let '(c, s) := _live_set now c in (c, a_int (Z.of_nat (length s)))
  | o_set_contains _ m =>
      let '(c, s) := _live_set now c in (c, a_bool (bool_decide (is_Some (od_get m s))))
  | o_set_members _ => let '(c, s) := _live_set now c in (c, a_strs (od_keys s))
  | o_set_remove _ m => (set_remove m c, a_none)
  | o_kv_set _ v ttl => (kv_set now v ttl c, a_none)
  | o_kv_set_once _ v ttl => let '(c, b) := kv_set_once now v ttl c in (c, a_bool b)
  | o_kv_get _ => let '(c, v) := kv_get now c in (c, a_str v)
  | o_dedup_seen _ ttl => let '(c, b) := dedup_seen now ttl c in (c, a_bool b)
  | _ => (c, a_none)
  end.

(** The key of a single-key operation. *)
Definition op_key (o : op) : option string :=
  match o with
  | o_window_add k _ _ _ | o_window_range k _ | o_zset_since k _ | o_zset_rank k _
  | o_counter_add k _ _ _ | o_counter_get k _ | o_counter_clear k | o_field_set k _ _ _ _
  | o_fields_get k | o_set_add k _ _ _ | o_set_len k | o_set_contains k _ | o_set_members k
  | o_set_remove k _ | o_kv_set k _ _ | o_kv_set_once k _ _ | o_kv_get k | o_dedup_seen k _ => Some k
  | _ => None
  end.

#[export] Instance in_memory : WindowStore mem_store := λ now m o,
  match o with
  | o_window_add_indexed k idx score value ttl =>
      (on_cell idx (set_add now k ttl None) (on_cell k (window_add now score value ttl) m), a_none)
  | o_window_add_indexed_batch items => (pipeline_ops now m (win_of <$> items), a_none)
  | o_pipeline_ops ops => (pipeline_ops now m ops, a_none)
  | o_kv_prune => (kv_prune now m, a_none)
  | o_keys_matching p => (m, a_strs (keys_matching now p m))
  | _ =>
      match op_key o with
      | Some k => let '(c, a) := cell_op now o (cell_at m k) in (put_cell k c m, a)
      | None => (m, a_none)
      end
  end.

(** ** Sharding *)

Section sharding.
Context (crc32 : string → Z) (n : Z).

(** The shard of a key: its partition segment, or a stable hash. *)
Definition _shard_of (key : string) : Z :=
  let parts := split_char ":" key in
  let seg := if starts_with "idx:" key then default "" (last parts)
             else default "" (parts !! 1%nat) in
  match (if str_truthy seg && string_forallb is_digit seg then parse_int seg else None) with
  | Some p => p mod n
  | None => crc32 key mod n
  end.
Definition shard (key : string) : nat := Z.to_nat (_shard_of key).

Definition batch_key (o : batch_op) : string :=
  match o with
  | b_win k _ _ _ _ | b_cnt k _ _ _ _ | b_fset k _ _ _ _ _ | b_znx k _ _ _ _ | b_kv k _ _
  | b_sadd k _ _ => k
  end.

(** [by_shard.setdefault(shard, []).append(x)], in order of first appearance. *)
Definition group_by_shard {A} (key : A → string) (xs : list A) : list (nat * list A) :=
  foldl (λ g x, od_set (shard (key x)) (default [] (od_get (shard (key x)) g) ++ [x]) g) [] xs.

Context {S : Type} `{WindowStore S}.

Definition on_shard (now : Z) (shards : list S) (i : nat) (o : op) : list S * answer :=
  match shards !! i with
  | Some s => let '(s, a) := ws_step now s o in (<[i := s]> shards, a)
  | None => (shards, a_none)
  end.

#[export] Instance sharded : WindowStore (list S) := λ now shards o,
  match o with
  | o_window_add_indexed k _ _ _ _ => on_shard now shards (shard k) o
  | o_window_add_indexed_batch items =>
      (foldl (λ ss g, (on_shard now ss g.1 (o_window_add_indexed_batch g.2)).1) shards
         (group_by_shard (λ it : window_item, it.1.1.1.1) items), a_none)
  | o_pipeline_ops ops =>
      (foldl (λ ss g, (on_shard now ss g.1 (o_pipeline_ops g.2)).1) shards
         (group_by_shard batch_key ops), a_none)
  | o_kv_prune => ((λ s, (ws_step now s o_kv_prune).1) <$> shards, a_none)
  | o_keys_matching p =>
      (shards, a_strs (concat (map (λ s, match (ws_step now s (o_keys_matching p)).2 with
                                         | a_strs l => l | _ => [] end) shards)))
  | _ => match op_key o with Some k => on_shard now shards (shard k) o | None => (shards, a_none) end
  end.
End sharding.

(** ** Facts *)

Lemma cell_at_on k k' f m : cell_at (on_cell k f m) k' = if decide (k' = k) then f (cell_at m k) else cell_at m k'.
Proof.
  unfold on_cell, put_cell, cell_at. destruct (decide (k' = k)) as [->|].
  - by rewrite lookup_insert_eq.
  - by rewrite lookup_insert_ne.
Qed.

Lemma cell_at_put k k' c m : cell_at (put_cell k c m) k' = if decide (k' = k) then c else cell_at m k'.
Proof. apply (cell_at_on k k' (λ _, c)). Qed.

(** The effect of a batch write on one key. *)
Definition batch_idx (o : batch_op) : option (string * Z) :=
  match o with
  | b_win _ (Some i) _ _ ttl | b_cnt _ _ _ ttl (Some i) | b_fset _ _ _ ttl (Some i) _
  | b_znx _ _ _ ttl (Some i) => Some (i, ttl)
  | _ => None
  end.
Definition batch_main (now : Z) (o : batch_op) : cell → cell :=
  match o with
  | b_win _ _ score value ttl => window_add now score value ttl
  | b_cnt _ field delta ttl _ => λ c, (counter_add now field delta ttl c).1
  | b_fset _ field value ttl _ cap => field_set now field value ttl cap
  | b_znx _ member score ttl _ => zset_nx now member score ttl
  | b_kv _ value ttl => kv_set now value ttl
  | b_sadd _ member ttl => set_add now member ttl None
  end.
Definition touch (now : Z) (k : string) (o : batch_op) (c : cell) : cell :=
  let c := if decide (k = batch_key o) then batch_main now o c else c in
  match batch_idx o with
  | Some (i, ttl) => if decide (k = i) then set_add now (batch_key o) ttl None c else c
  | None => c
  end.

Lemma run_batch_op_touch now m o k : cell_at (run_batch_op now m o) k = touch now k o (cell_at m k).
Proof.
  unfold touch. destruct o as [k1 [i|] s v t|k1 f d t [i|]|k1 f v t [i|] cap|k1 mm s t [i|]|k1 v t|k1 mm t];
    simpl; rewrite ?cell_at_on; repeat case_decide; subst; try done; congruence.
Qed.

Lemma pipeline_touch now ops m k :
  cell_at (pipeline_ops now m ops) k = foldl (λ c o, touch now k o c) (cell_at m k) ops.
Proof.
  unfold pipeline_ops. revert m. induction ops as [|o ops IH]; intros m; simpl; [done|].
  by rewrite IH, run_batch_op_touch.
Qed.

Lemma prune_empty now : kv_prune_cell now empty_cell = empty_cell.
Proof. done. Qed.

Lemma cell_at_prune now m k : cell_at (kv_prune now m) k = kv_prune_cell now (cell_at m k).
Proof. unfold cell_at, kv_prune. rewrite lookup_fmap. by destruct (m !! k). Qed.

Lemma keys_matching_elem now p m k :
  k ∈ keys_matching now p m ↔ starts_with p k = true ∧ listed_cell now (cell_at m k) = true.
Proof.
  unfold keys_matching. rewrite elem_of_isort, list_elem_of_omap. split.
  - intros ([k' c] & Hin%elem_of_map_to_list & H). simpl in H.
    destruct (starts_with p k') eqn:E1; [|done]. destruct (listed_cell now c) eqn:E2; [|done].
    injection H as <-. unfold cell_at. by rewrite Hin.
  - intros [Hp Hl]. unfold cell_at in Hl. destruct (m !! k) as [c|] eqn:E; [|done].
    exists (k, c). split; [by apply elem_of_map_to_list|]. simpl in *. by rewrite Hp, Hl.
Qed.

Lemma NoDup_omap_key_self (f : string * cell → option string) (l : list (string * cell)) :
  (∀ kc k, f kc = Some k → k = kc.1) → NoDup (fst <$> l) → NoDup (omap f l).
Proof.
  intros Hf. induction l as [|kc l IH]; simpl; [constructor|]. intros [Hk Hl]%NoDup_cons.
  destruct (f kc) as [k|] eqn:E; [|by apply IH]. apply NoDup_cons. split; [|by apply IH].
  intros (kc' & Hin & H)%list_elem_of_omap. apply Hk. rewrite <- (Hf _ _ E), (Hf _ _ H).
  by apply list_elem_of_fmap_2.
Qed.

Lemma keys_matching_NoDup now p m : NoDup (keys_matching now p m).
Proof.
  unfold keys_matching. rewrite isort_perm. apply NoDup_omap_key_self.
  - intros kc k. destruct (_ && _); [|done]. by intros [= <-].
  - apply NoDup_fst_map_to_list.
Qed.

Section refinement.
Context (crc32 : string → Z) (n : Z).
Notation shard := (shard crc32 n).

(** The single store is the union of the shards, each holding its own keys only. *)
Definition shards_of (m : mem_store) (ss : list mem_store) : Prop :=
  Z.of_nat (length ss) = n ∧
  (∀ k s, ss !! shard k = Some s → cell_at s k = cell_at m k) ∧
  (∀ i s k, ss !! i = Some s → shard k ≠ i → cell_at s k = empty_cell).

(** Index keys live on the shard of the key they index. *)
Definition colocated (o : op) : Prop :=
  match o with
  | o_window_add_indexed k idx _ _ _ => shard k = shard idx
  | o_window_add_indexed_batch items =>
      Forall (λ it : window_item, shard it.1.1.1.1 = shard it.1.1.1.2) items
  | o_pipeline_ops ops =>
      Forall (λ o, ∀ i ttl, batch_idx o = Some (i, ttl) → shard (batch_key o) = shard i) ops
  | _ => True
  end.

Definition same_answer (a b : answer) : Prop :=
  match a, b with
  | a_strs l, a_strs l' => l ≡ₚ l'
  | _, _ => a = b
  end.

Lemma same_answer_refl a : same_answer a a.
Proof. destruct a; simpl; reflexivity. Qed.

Lemma shard_lookup (ss : list mem_store) k :
  0 < n → Z.of_nat (length ss) = n → is_Some (ss !! shard k).
Proof.
  intros Hn Hl. apply lookup_lt_is_Some. unfold WindowStore.shard, _shard_of.
  match goal with |- context [match ?x with Some _ => _ | None => _ end] => destruct x as [p|] end.
  - pose proof (Z.mod_pos_bound p n). lia.
  - pose proof (Z.mod_pos_bound (crc32 k) n). lia.
Qed.

(** Updating the shard of [k] and the single store alike. *)
Lemma shards_of_update m ss s m' s' k0 :
  shards_of m ss → ss !! shard k0 = Some s →
  (∀ k, shard k = shard k0 → cell_at s' k = cell_at m' k) →
  (∀ k, shard k ≠ shard k0 → cell_at s' k = cell_at s k ∧ cell_at m' k = cell_at m k) →
  shards_of m' (<[shard k0 := s']> ss).
Proof.
  intros (Hl & Hown & Hfor) Hs Hsame Hother. split_and!; [by rewrite length_insert| |].
  - intros k s1. destruct (decide (shard k = shard k0)) as [E|Hne].
    + rewrite E, list_lookup_insert_eq by by eapply lookup_lt_Some. intros [= <-]. by apply Hsame.
    + rewrite list_lookup_insert_ne by done. intros Hs1.
      destruct (Hother k Hne) as [_ ->]. by apply Hown.
  - intros i s1 k Hi Hk. destruct (decide (i = shard k0)) as [->|Hne].
    + rewrite list_lookup_insert_eq in Hi by by eapply lookup_lt_Some. injection Hi as <-.
      destruct (Hother k Hk) as [-> _]. by apply (Hfor (shard k0)).
    + rewrite list_lookup_insert_ne in Hi by done. by apply (Hfor i).
Qed.

(** *** Batches *)

Lemma group_spec {A} (key : A → string) (xs : list A) i :
  od_get i (group_by_shard crc32 n key xs) =
  match filter (λ x, shard (key x) = i) xs with [] => None | l => Some l end.
Proof.
  unfold group_by_shard. induction xs as [|x xs IH] using rev_ind; [done|].
  rewrite foldl_app, filter_app. simpl. rewrite od_get_set, filter_cons, filter_nil.
  destruct (decide (i = shard (key x))) as [->|Hne].
  - rewrite decide_True by done. rewrite IH.
    by destruct (filter (λ x0, shard (key x0) = shard (key x)) xs).
  - rewrite decide_False by congruence. by rewrite app_nil_r.
Qed.

Lemma group_wf {A} (key : A → string) (xs : list A) : od_wf (group_by_shard crc32 n key xs).
Proof.
  unfold group_by_shard. induction xs as [|x xs IH] using rev_ind; [constructor|].
  rewrite foldl_app. simpl. by apply od_wf_set.
Qed.

(** Running a grouped batch: each shard runs its own group. *)
Lemma run_groups {A} (f : mem_store → list A → mem_store) (g : list (nat * list A))
    (ss : list mem_store) i :
  od_wf g →
  foldl (λ ss g, match ss !! g.1 with Some s => <[g.1 := f s g.2]> ss | None => ss end) ss g !! i =
  (λ s, match od_get i g with Some xs => f s xs | None => s end) <$> ss !! i.
Proof.
  revert ss. induction g as [|[j xs] g IH]; intros ss Hwf; simpl.
  - by destruct (ss !! i).
  - apply NoDup_cons in Hwf as [Hj Hwf]. rewrite IH by done.
    destruct (decide (i = j)) as [->|Hne].
    + assert (od_get j g = None) as -> by by apply od_get_none.
      destruct (ss !! j) as [s|] eqn:E; [|by rewrite E].
      rewrite list_lookup_insert_eq by by eapply lookup_lt_Some. done.
    + destruct (ss !! j) as [s|]; [|done]. by rewrite list_lookup_insert_ne.
Qed.

Lemma touch_foreign now k o c :
  shard (batch_key o) ≠ shard k →
  (∀ i ttl, batch_idx o = Some (i, ttl) → shard (batch_key o) = shard i) → touch now k o c = c.
Proof.
  intros Hk Hi. unfold touch. rewrite decide_False by congruence.
  destruct (batch_idx o) as [[i ttl]|] eqn:E; [|done].
  rewrite decide_False; [done|]. intros ->. apply Hk. by eapply Hi.
Qed.

Lemma foldl_touch_filter now k ops c :
  Forall (λ o, ∀ i ttl, batch_idx o = Some (i, ttl) → shard (batch_key o) = shard i) ops →
  foldl (λ c o, touch now k o c) c (filter (λ o, shard (batch_key o) = shard k) ops) =
  foldl (λ c o, touch now k o c) c ops.
Proof.
  intros HF. revert c. induction HF as [|o ops Ho _ IH]; intros c; [done|].
  rewrite filter_cons. simpl. case_decide as E; simpl; [apply IH|].
  rewrite (touch_foreign now k o c); [apply IH|done|done].
Qed.

Lemma foldl_touch_other now k i ops c :
  Forall (λ o, ∀ i ttl, batch_idx o = Some (i, ttl) → shard (batch_key o) = shard i) ops →
  shard k ≠ i →
  foldl (λ c o, touch now k o c) c (filter (λ o, shard (batch_key o) = i) ops) = c.
Proof.
  intros HF Hne. revert c. induction HF as [|o ops Ho _ IH]; intros c; [done|].
  rewrite filter_cons. case_decide as E; simpl; [|apply IH].
  rewrite touch_foreign; [apply IH|congruence|done].
Qed.

(** The shards after a batch, each having run its own writes. *)
Lemma shards_of_batch now m ss ss' ops :
  shards_of m ss → length ss' = length ss →
  Forall (λ o, ∀ i ttl, batch_idx o = Some (i, ttl) → shard (batch_key o) = shard i) ops →
  (∀ i s, ss !! i = Some s →
     ss' !! i = Some (pipeline_ops now s (filter (λ o, shard (batch_key o) = i) ops))) →
  shards_of (pipeline_ops now m ops) ss'.
Proof.
  intros (Hl & Hown & Hfor) Hlen HF Hss'. split_and!; [lia| |].
  - intros k s' Hs'. destruct (ss !! shard k) as [s|] eqn:E.
    + rewrite (Hss' _ _ E) in Hs'. injection Hs' as <-. rewrite !pipeline_touch, (Hown _ _ E).
      by apply foldl_touch_filter.
    + apply lookup_ge_None in E. apply lookup_lt_Some in Hs'. lia.
  - intros i s' k Hs' Hne. destruct (ss !! i) as [s|] eqn:E.
    + rewrite (Hss' _ _ E) in Hs'. injection Hs' as <-. rewrite pipeline_touch.
      rewrite foldl_touch_other by done. by apply (Hfor i).
    + apply lookup_ge_None in E. apply lookup_lt_Some in Hs'. lia.
Qed.
End refinement.

(** *** One step of the sharded store *)

Section step.
Context (crc32 : string → Z) (n : Z) (Hn : 0 < n).
Notation shard := (shard crc32 n).
Notation shards_of := (shards_of crc32 n).
#[local] Instance shards_store : WindowStore (list mem_store) := sharded crc32 n.

Definition agrees (r : mem_store * answer) (r' : list mem_store * answer) : Prop :=
  shards_of r.1 r'.1 ∧ same_answer r.2 r'.2.

Lemma step_key now m ss o k :
  shards_of m ss → op_key o = Some k →
  agrees (in_memory now m o) (on_shard now ss (shard k) o).
Proof using Hn.
  intros Hs Ho. pose proof Hs as (Hl & Hown & _).
  destruct (shard_lookup crc32 n ss k Hn Hl) as [s Hk].
  assert (Hmem : ∀ v, in_memory now v o =
    (put_cell k (cell_op now o (cell_at v k)).1 v, (cell_op now o (cell_at v k)).2)).
  { intros v. destruct o; simpl in Ho; try done; injection Ho as ->; simpl;
      repeat match goal with |- context [let '(_, _) := ?x in _] => destruct x end; done. }
  unfold on_shard. rewrite Hk. change (ws_step now s o) with (in_memory now s o). rewrite !Hmem.
  rewrite (Hown _ _ Hk). split; simpl; [|apply same_answer_refl].
  apply (shards_of_update crc32 n m ss s); [done|done| |].
  - intros k' Hk'. rewrite !cell_at_put. case_decide; [done|]. apply Hown. by rewrite Hk'.
  - intros k' Hk'. rewrite !cell_at_put. split; (rewrite decide_False; [done|congruence]).
Qed.

Lemma step_indexed now m ss k idx score value ttl :
  shards_of m ss → shard k = shard idx →
  let o := o_window_add_indexed k idx score value ttl in
  agrees (in_memory now m o) (on_shard now ss (shard k) o).
Proof using Hn.
  intros Hs Hk o. pose proof Hs as (Hl & Hown & _).
  destruct (shard_lookup crc32 n ss k Hn Hl) as [s Hsk].
  unfold on_shard. rewrite Hsk. split; simpl; [|done].
  apply (shards_of_update crc32 n m ss s); [done|done| |]; intros k' Hk'; rewrite !cell_at_on.
  - rewrite (Hown k') by (by rewrite Hk'). rewrite (Hown k) by done.
    assert (cell_at s idx = cell_at m idx) as -> by (apply Hown; by rewrite <- Hk). done.
  - split; (rewrite decide_False by congruence); (rewrite decide_False by congruence); done.
Qed.

Lemma on_shard_groups {A} (mk : list A → op) (f : mem_store → list A → mem_store) now ss g :
  (∀ s xs, in_memory now s (mk xs) = (f s xs, a_none)) →
  foldl (λ ss g, (on_shard now ss g.1 (mk g.2)).1) ss g =
  foldl (λ ss g, match ss !! g.1 with Some s => <[g.1 := f s g.2]> ss | None => ss end) ss g.
Proof.
  intros Hmk. revert ss. induction g as [|[i xs] g IH]; intros ss; simpl; [done|].
  rewrite IH. f_equal. unfold on_shard. simpl. destruct (ss !! i) as [m|]; [|done].
  change (ws_step now m (mk xs)) with (in_memory now m (mk xs)). by rewrite Hmk.
Qed.

Lemma length_groups {A} (f : mem_store → list A → mem_store) (g : list (nat * list A)) ss :
  length (foldl (λ ss g, match ss !! g.1 with Some s => <[g.1 := f s g.2]> ss | None => ss end) ss g)
  = length ss.
Proof.
  revert ss; induction g as [|[i xs] g IH]; intros ss; simpl; [done|].
  rewrite IH. destruct (ss !! i); [|done]. apply length_insert.
Qed.

Lemma step_batch {A} (key : A → string) (to_op : A → batch_op) (mk : list A → op) now m ss xs :
  (∀ s ys, in_memory now s (mk ys) = (pipeline_ops now s (to_op <$> ys), a_none)) →
  (∀ x, batch_key (to_op x) = key x) → shards_of m ss →
  Forall (λ o, ∀ i ttl, batch_idx o = Some (i, ttl) → shard (batch_key o) = shard i) (to_op <$> xs) →
  shards_of (pipeline_ops now m (to_op <$> xs))
    (foldl (λ ss g, (on_shard now ss g.1 (mk g.2)).1) ss (group_by_shard crc32 n key xs)).
Proof using Hn.
  intros Hmk Hkey Hs HF. rewrite (on_shard_groups mk (λ s ys, pipeline_ops now s (to_op <$> ys))) by done.
  apply (shards_of_batch crc32 n now m ss); [done|by rewrite (length_groups (λ s ys, pipeline_ops now s (to_op <$> ys)))|done|].
  intros i s Hi.
  rewrite (run_groups (λ s ys, pipeline_ops now s (to_op <$> ys))) by apply group_wf. rewrite Hi, group_spec. simpl. f_equal.
  assert (Hfil : filter (λ o, shard (batch_key o) = i) (to_op <$> xs) =
                 to_op <$> filter (λ x, shard (key x) = i) xs).
  { clear -Hkey. induction xs as [|x xs IH]; [done|]. rewrite fmap_cons, !filter_cons.
    rewrite Hkey, IH. by case_decide. }
  rewrite Hfil. by destruct (filter (λ x, shard (key x) = i) xs).
Qed.

Lemma step_prune now m ss :
  shards_of m ss → shards_of (kv_prune now m) (kv_prune now <$> ss).
Proof.
  intros (Hl & Hown & Hfor). split_and!; [by rewrite length_fmap| |].
  - intros k s' Hs'. rewrite list_lookup_fmap in Hs'. apply fmap_Some in Hs' as (s & Hs & ->).
    rewrite !cell_at_prune. by rewrite (Hown _ _ Hs).
  - intros i s' k Hs' Hne. rewrite list_lookup_fmap in Hs'. apply fmap_Some in Hs' as (s & Hs & ->).
    rewrite cell_at_prune. by rewrite (Hfor _ _ _ Hs Hne).
Qed.

Lemma step_keys now m ss p :
  shards_of m ss → keys_matching now p m ≡ₚ concat (map (keys_matching now p) ss).
Proof using Hn.
  intros (Hl & Hown & Hfor). apply NoDup_Permutation; [apply keys_matching_NoDup| |].
  - assert (Hsub : ∀ i s k, ss !! i = Some s → k ∈ keys_matching now p s → shard k = i).
    { intros i s k Hi Hk. destruct (decide (shard k = i)) as [|Hne]; [done|].
      apply keys_matching_elem in Hk as [_ Hk]. by rewrite (Hfor _ _ _ Hi Hne) in Hk. }
    clear -Hsub. assert (H : ∀ j, (∀ i s k, ss !! i = Some s → k ∈ keys_matching now p s → shard k = (j + i)%nat) →
      NoDup (concat (map (keys_matching now p) ss))).
    { clear Hsub. induction ss as [|s l IH]; intros j Hj; simpl; [constructor|].
      apply NoDup_app. split_and!; [apply keys_matching_NoDup| |].
      - intros k Hk Hin. apply list_elem_of_In, in_concat in Hin as (ks & Hks & Hin).
        apply in_map_iff in Hks as (s' & <- & Hs'). apply list_elem_of_In in Hs', Hin.
        apply list_elem_of_lookup in Hs' as [i Hi].
        pose proof (Hj 0%nat s k eq_refl Hk). pose proof (Hj (S i) s' k Hi Hin). lia.
      - apply (IH (S j)). intros i s' k Hi Hk. rewrite (Hj (S i) s' k Hi Hk). lia. }
    by apply (H 0%nat).
  - intros k. rewrite keys_matching_elem. rewrite list_elem_of_In, in_concat. split.
    + intros [Hp Hk]. destruct (shard_lookup crc32 n ss k Hn Hl) as [s Hs].
      exists (keys_matching now p s). split.
      * apply in_map_iff. exists s. split; [done|]. apply list_elem_of_In. by eapply list_elem_of_lookup_2.
      * apply list_elem_of_In, keys_matching_elem. by rewrite (Hown _ _ Hs).
    + intros (ks & Hks & Hk). apply in_map_iff in Hks as (s & <- & Hs).
      apply list_elem_of_In, keys_matching_elem in Hk as [Hp Hk]. split; [done|].
      apply list_elem_of_In, list_elem_of_lookup in Hs as [i Hi].
      destruct (decide (shard k = i)) as [<-|Hne]; [by rewrite (Hown _ _ Hi) in Hk|].
      by rewrite (Hfor _ _ _ Hi Hne) in Hk.
Qed.

Lemma sharded_step_agrees now m ss o :
  shards_of m ss → colocated crc32 n o → agrees (in_memory now m o) (shards_store now ss o).
Proof using Hn.
  intros Hs Hc. destruct o; try (eapply step_key; [done|reflexivity]).
  - by apply step_indexed.
  - split; [|done]. apply (step_batch (λ it : window_item, it.1.1.1.1) win_of); try done.
    + by intros [[[[k i] sc] v] ttl].
    + simpl in Hc. apply Forall_fmap. eapply Forall_impl; [exact Hc|].
      intros [[[[k i] sc] v] ttl] H i' ttl'. simpl in *. by intros [= <- <-].
  - split; [|done].
    pose proof (step_batch batch_key id o_pipeline_ops now m ss ops) as H.
    rewrite list_fmap_id in H. apply H; try done.
    intros s ys. simpl. by rewrite list_fmap_id.
  - split; [|done]. by apply step_prune.
  - split; [done|]. simpl. by apply step_keys.
Qed.
End step.

(** A history of operations, each at its time, and the answers. *)
Fixpoint run_ops {S} `{WindowStore S} (s : S) (ops : list (Z * op)) : S * list answer :=
  match ops with
  | [] => (s, [])
  | (now, o) :: ops =>
      let '(s, a) := ws_step now s o in
      let '(s, l) := run_ops s ops in (s, a :: l)
  end.

Lemma empty_shards crc32 n : 0 <= n → shards_of crc32 n ∅ (replicate (Z.to_nat n) ∅).
Proof.
  intros Hn. split_and!; [rewrite length_replicate; lia| |].
  - intros k s Hs. by apply lookup_replicate in Hs as [-> _].
  - intros i s k Hs _. by apply lookup_replicate in Hs as [-> _].
Qed.

(** ** Properties *)

(** C6. The sharded store is contract-identical to a single store: on any history of
    operations whose index keys live on the shard of the key they index, [n] shards
    give the answers one in-memory store gives (listings of members and keys up to
    their order), batches regrouped by shard included. *)
Theorem sharded_store_refines crc32 n ops :
  0 < n → Forall (λ no, colocated crc32 n no.2) ops →
  Forall2 same_answer (run_ops (∅ : mem_store) ops).2
    (run_ops (H := sharded crc32 n) (replicate (Z.to_nat n) (∅ : mem_store)) ops).2.
Proof.
  intros Hn HF. assert (Hs := empty_shards crc32 n ltac:(lia)). revert Hs.
  generalize (∅ : mem_store) at 1 3. generalize (replicate (Z.to_nat n) (∅ : mem_store)).
  induction HF as [|[now o] ops Ho _ IH]; intros ss m Hs; [constructor|]. simpl.
  pose proof (sharded_step_agrees crc32 n Hn now m ss o Hs Ho) as [Hst Ha].
  unfold ws_step. change (shards_store crc32 n now ss o) with (sharded crc32 n now ss o) in *.
  destruct (in_memory now m o) as [m1 a1]. destruct (sharded crc32 n now ss o) as [ss1 a1'].
  simpl in *. specialize (IH ss1 m1 Hst).
  destruct (run_ops m1 ops) as [m2 l2]. destruct (run_ops ss1 ops) as [ss2 l2']. simpl in *.
  by constructor.
Qed.

Definition no_hash : string → Z := λ _, 0.
Definition sample_ops : list (Z * op) := [
  (10, o_window_add_indexed "beacon:3:h1" "idx:beacon:3" 10 "a" 100);
  (11, o_pipeline_ops [b_cnt "ssh:1:h2" "n" 1 100 (Some "idx:ssh:1"); b_kv "ctx" "v" 100]);
  (12, o_set_members "idx:beacon:3"); (13, o_keys_matching "")].

Lemma sharded_store_refines_witness :
  Forall2 same_answer (run_ops (∅ : mem_store) sample_ops).2
    (run_ops (H := sharded no_hash 2) (replicate 2 (∅ : mem_store)) sample_ops).2.
Proof.
  apply (sharded_store_refines no_hash 2); [lia|].
  repeat constructor; simpl; try reflexivity; intros i ttl H; vm_compute in H; try discriminate H;
    injection H as <- _; reflexivity.
Defined.

(** A run of increments of one counter field. *)
Definition counter_run (field : string) (ttl : Z) (adds : list (Z * Z)) (c : cell) : cell :=
  foldl (λ c td, (counter_add td.1 field td.2 ttl c).1) c adds.
Definition total (adds : list (Z * Z)) : Z := foldr (λ td s, td.2 + s) 0 adds.

(** A cell whose counter window is [t0, e), holding [v] in [field]. *)
Definition in_window (field : string) (e v : Z) (c : cell) : Prop :=
  c_exp c = Some e ∧ ∃ h, c_h c = Some h ∧ od_get field h = Some v.

Lemma counter_add_in_window field e v t d ttl c :
  in_window field e v c → t < e → in_window field e (v + d) (counter_add t field d ttl c).1.
Proof.
  intros (He & h & Hh & Hv) Ht. unfold counter_add, fresh_h, _alive. rewrite He.
  rewrite (proj2 (Z.ltb_lt t e) Ht). rewrite Hh. simpl. rewrite Hv. simpl. unfold in_window. simpl.
  rewrite He. split; [done|]. eexists. split; [done|]. by rewrite od_get_set_eq.
Qed.

Lemma counter_run_in_window field e v ttl adds c :
  in_window field e v c → Forall (λ td, td.1 < e) adds →
  in_window field e (v + total adds) (counter_run field ttl adds c).
Proof.
  intros Hc HF. revert v c Hc. induction HF as [|[t d] adds Ht _ IH]; intros v c Hc; simpl.
  - by rewrite Z.add_0_r.
  - rewrite Z.add_assoc. apply IH. by apply counter_add_in_window.
Qed.

(** Rate counters tumble: the first increment after an empty or expired window
    fixes its end, later increments inside it neither lose nor refresh it, so every
    read before the end sees exactly the sum of the increments, every read from the
    end on sees 0, and the next increment starts a new sum. *)
Theorem counter_window_tumbles c field ttl t0 d0 adds t d :
  (_alive t0 c = false ∨ c_h c = None ∧ c_exp c = None) → 0 < ttl →
  Forall (λ td, td.1 < t0 + ttl) adds →
  let c' := counter_run field ttl ((t0, d0) :: adds) c in
  (t < t0 + ttl → counter_get t field c' = d0 + total adds) ∧
  (t0 + ttl <= t → counter_get t field c' = 0 ∧ (counter_add t field d ttl c').2 = d).
Proof.
  intros Hc Httl HF c'.
  assert (Hw : in_window field (t0 + ttl) (d0 + total adds) c').
  { unfold c'. simpl. apply counter_run_in_window; [|done]. unfold counter_add, fresh_h.
    destruct Hc as [->|[Hh He]].
    - simpl. split; [done|]. eexists. split; [done|]. exact (od_get_set_eq field d0 []).
    - unfold _alive. rewrite He, Hh. simpl. unfold in_window. simpl. rewrite He.
      split; [done|]. eexists. split; [done|]. exact (od_get_set_eq field d0 []). }
  destruct Hw as (He & h & Hh & Hv). unfold counter_get, counter_add, fresh_h, _alive. rewrite He.
  split; intros Ht.
  - rewrite (proj2 (Z.ltb_lt t _) Ht), Hh. simpl. by rewrite Hv.
  - rewrite (proj2 (Z.ltb_ge t _) Ht). done.
Qed.

Lemma counter_window_tumbles_witness :
  counter_get 50 "n" (counter_run "n" 100 [(0, 1); (40, 2)] empty_cell) = 1 + total [(40, 2)].
Proof.
  apply (counter_window_tumbles empty_cell "n" 100 0 1 [(40, 2)] 50 0); [by right|lia| |lia].
  repeat constructor; simpl; lia.
Defined.

(** [kv_set_once] is first-writer-wins for its whole lifetime: after a winning
    write every later attempt before the expiry loses and changes nothing, and every
    read gives the winner's value; from the expiry (the time to live rounded up to a
    millisecond) on, the key is free again. *)
Theorem kv_first_writer_wins c c' t v ttl t1 v1 ttl1 :
  kv_set_once t v ttl c = (c', true) →
  (t1 < t + ttl → kv_set_once t1 v1 ttl1 c' = (c', false) ∧ kv_get t1 c' = (c', Some v)) ∧
  (t + ceil_ms ttl <= t1 → (kv_get t1 c').2 = None ∧ (0 < ttl1 → (kv_set_once t1 v1 ttl1 c').2 = true)) ∧
  ttl <= ceil_ms ttl < ttl + 1000.
Proof.
  unfold kv_set_once. destruct (ttl <=? 0) eqn:E; [done|]. to_prop.
  destruct (kv_live t c); [done|]. intros [= <-].
  assert (Hc : ttl <= ceil_ms ttl < ttl + 1000).
  { unfold ceil_ms. pose proof (Z.div_mod (- ttl) 1000 ltac:(lia)).
    pose proof (Z.mod_pos_bound (- ttl) 1000 ltac:(lia)). lia. }
  split_and!; try lia; intros Ht; unfold kv_get, kv_live; simpl.
  - rewrite (proj2 (Z.ltb_lt t1 _)) by lia. split; [by destruct (ttl1 <=? 0)|done].
  - rewrite (proj2 (Z.ltb_ge t1 _)) by lia. split; [done|]. intros H1.
    by rewrite (proj2 (Z.leb_gt ttl1 0)) by lia.
Qed.

Lemma kv_first_writer_wins_witness :
  kv_get 5 (kv_set_once 0 "a" 1500 empty_cell).1 = ((kv_set_once 0 "a" 1500 empty_cell).1, Some "a").
Proof.
  apply (kv_first_writer_wins empty_cell (kv_set_once 0 "a" 1500 empty_cell).1 0 "a" 1500 5 "b" 10);
    [reflexivity|lia].
Defined.
