(* ===== verification/ThreatIntel.v ===== *)
(** * Threat-intelligence lifecycle and store (services/threat-intel)

    lifecycle.py merges what several feeds assert about an indicator and derives its
    effective score, marking and validity at a given time; store.py keeps the merged
    records per tenant, with expiring suppressions and an audit trail.  Trust and
    score are numbers that are only compared and are integers here; dates are the
    strings of the records, parsed where the code parses them. *)

From S2P Require Import Prelude Order PyVal PyTime OrderedMap.
Set Default Proof Using "Type".

Definition TLP_LEVELS : list string := ["clear"; "green"; "amber"; "amber+strict"; "red"].
Fixpoint index_of (s : string) (l : list string) : option Z :=
  match l with
  | [] => None
  | x :: l => if String.eqb s x then Some 0 else Z.succ <$> index_of s l
  end.
Definition tlp_rank (t : string) : option Z := index_of t TLP_LEVELS.
Definition NON_EXPORTABLE_TLP : list string := ["red"].

Record prov := {
  p_source : string; p_feed : string; p_trust : Z; p_score : Z; p_tlp : option string;
  p_expiry : option string
}.
Record intel := {
  i_tenant : string; i_type : string; i_indicator : string; i_prov : list prov;
  i_first_seen : string; i_last_seen : string; i_expiry : string; i_score : Z; i_trust : Z;
  i_source : string; i_feed : string; i_tlp : option string; i_disposition : string
}.

Definition with_prov (ps : list prov) (r : intel) : intel :=
  {| i_tenant := i_tenant r; i_type := i_type r; i_indicator := i_indicator r; i_prov := ps;
     i_first_seen := i_first_seen r; i_last_seen := i_last_seen r; i_expiry := i_expiry r;
     i_score := i_score r; i_trust := i_trust r; i_source := i_source r; i_feed := i_feed r;
     i_tlp := i_tlp r; i_disposition := i_disposition r |}.

(** ** Dates and markings *)

Definition epoch (ts : string) : res Z := parse_instant (upper (strip ts)).

(** The most restrictive of the known markings. *)
Definition most_restrictive_tlp (tlps : list (option string)) : option string :=
  let known := omap (λ t, t ← t; r ← tlp_rank t; Some (r, t)) tlps in
  snd <$> max_by fst known.

Definition _earlier (a b : string) : res string :=
  x ← epoch a; y ← epoch b; Ok (if x <=? y then a else b).
Definition _later (a b : string) : res string :=
  x ← epoch a; y ← epoch b; Ok (if y <=? x then a else b).

(** ** The effective fields of a record *)

Definition _rank (p : prov) : Z * Z := (p_trust p, p_score p).
Definition _prov_expiry (p : prov) (record_expiry : string) : string :=
  match p_expiry p with
  | Some e => if str_truthy e then e else record_expiry
  | None => record_expiry
  end.

Fixpoint _valid_provs (ps : list prov) (record_expiry : string) (now : Z) : res (list prov) :=
  match ps with
  | [] => Ok []
  | p :: ps =>
      e ← epoch (_prov_expiry p record_expiry);
      l ← _valid_provs ps record_expiry now;
      Ok (if now <? e then p :: l else l)
  end.

Definition best_provenance (ps : list prov) (record_expiry : string) (now : Z) : res prov :=
  valid ← _valid_provs ps record_expiry now;
  match max_by _rank (match valid with [] => ps | _ => valid end) with
  | Some p => Ok p
  | None => Raise ValueError
  end.

Definition is_exportable (r : intel) : bool :=
  match i_tlp r with Some t => negb (mem t NON_EXPORTABLE_TLP) | None => true end.
Definition is_expired (r : intel) (now : Z) : res bool := e ← epoch (i_expiry r); Ok (e <=? now).
Definition is_active (r : intel) (now : Z) : res bool :=
  if String.eqb (i_disposition r) "active" then negb <$> is_expired r now else Ok false.

(** The last expiry among the assertions. *)
Definition latest_expiry (r : intel) : res string :=
  es ← mapM (λ p, let e := _prov_expiry p (i_expiry r) in t ← epoch e; Ok (t, e)) (i_prov r);
  match max_by fst es with Some te => Ok te.2 | None => Raise ValueError end.

Definition derive (r : intel) (now : Z) : res intel :=
  expiry ← latest_expiry r;
  winner ← best_provenance (i_prov r) expiry now;
  valid ← _valid_provs (i_prov r) expiry now;
  Ok {| i_tenant := i_tenant r; i_type := i_type r; i_indicator := i_indicator r;
        i_prov := i_prov r; i_first_seen := i_first_seen r; i_last_seen := i_last_seen r;
        i_expiry := expiry; i_score := p_score winner; i_trust := p_trust winner;
        i_source := p_source winner; i_feed := p_feed winner;
        i_tlp := match most_restrictive_tlp (p_tlp <$> i_prov r) with
                 | Some t => Some t
                 | None => i_tlp r
                 end;
        i_disposition := match valid with [] => "expired" | _ => "active" end |}.

(** ** Merging, revoking and ingesting *)

Definition contributor (p : prov) : string * string := (p_source p, p_feed p).

Definition merge (existing : option intel) (incoming : intel) : res intel :=
  match existing with
  | None => Ok incoming
  | Some e =>
      let refreshed := contributor <$> i_prov incoming in
      first ← _earlier (i_first_seen e) (i_first_seen incoming);
      last ← _later (i_last_seen e) (i_last_seen incoming);
      Ok {| i_tenant := i_tenant e; i_type := i_type e; i_indicator := i_indicator e;
            i_prov := List.filter (λ p, negb (mem (contributor p) refreshed)) (i_prov e)
                      ++ i_prov incoming;
            i_first_seen := first; i_last_seen := last; i_expiry := i_expiry e;
            i_score := i_score e; i_trust := i_trust e; i_source := i_source e;
            i_feed := i_feed e; i_tlp := i_tlp e; i_disposition := i_disposition e |}
  end.

Definition ikey : Type := string * string * string.
Definition key_of (r : intel) : ikey := (i_tenant r, i_type r, i_indicator r).

Record revocation := { rv_key : ikey; rv_source : string; rv_feed : string }.

(** The record without the named assertion; [None] when it was the last one. *)
Definition _apply_revocation (base : intel) (rv : revocation) (now : Z) : res (option intel) :=
  match List.filter (λ p, negb (bool_decide (contributor p = (rv_source rv, rv_feed rv)))) (i_prov base) with
  | [] => Ok None
  | remaining => Some <$> derive (with_prov remaining base) now
  end.

Record suppression := {
  s_id : string; s_key : ikey; s_owner : string; s_justification : string; s_created : Z; s_expires : Z
}.
(** The two audit events: a suppression with its owner, justification and expiry, and
    a match with the matched record and the kept fields of the observation. *)
Inductive audit_event :=
| intel_suppress (resource : ikey) (actor justification : string) (expires_at timestamp : Z)
| intel_match (hit : intel) (observation : dict) (timestamp : Z).
Record audit_entry := { au_id : string; au_tenant : string; au_event : audit_event }.
Record intel_store := {
  st_indicators : gmap ikey intel; st_suppressions : list suppression; st_audit : list audit_entry
}.
Definition empty_store : intel_store :=
  {| st_indicators := ∅; st_suppressions := []; st_audit := [] |}.

Definition get (s : intel_store) (k : ikey) : option intel := st_indicators s !! k.

(** One transaction: the upserts, then the deletes; rolled back when a record violates
    a column constraint (the marking may be absent from a record, not from its row). *)
Definition upsert_many (s : intel_store) (records : list intel) (deletes : list ikey) : res intel_store :=
  check (forallb (λ r, bool_decide (is_Some (i_tlp r))) records) IntegrityError;;
  Ok {| st_indicators := foldl (λ m k, delete k m)
          (foldl (λ m r, <[key_of r := r]> m) (st_indicators s) records) deletes;
        st_suppressions := st_suppressions s; st_audit := st_audit s |}.
Definition upsert (s : intel_store) (r : intel) : res intel_store := upsert_many s [r] [].

Definition working_get (s : intel_store) (w : list (ikey * intel)) (k : ikey) : option intel :=
  match od_get k w with Some r => Some r | None => get s k end.

Fixpoint ingest_records (s : intel_store) (w : list (ikey * intel)) (now : Z) (records : list intel) :
    res (list (ikey * intel)) :=
  match records with
  | [] => Ok w
  | r :: records =>
      m ← merge (working_get s w (key_of r)) r;
      d ← derive m now;
      ingest_records s (od_set (key_of r) d w) now records
  end.

Fixpoint ingest_revocations (s : intel_store) (w : list (ikey * intel)) (deletes : list ikey)
    (now : Z) (rvs : list revocation) : res (list (ikey * intel) * list ikey) :=
  match rvs with
  | [] => Ok (w, deletes)
  | rv :: rvs =>
      match working_get s w (rv_key rv) with
      | None => ingest_revocations s w deletes now rvs
      | Some base =>
          updated ← _apply_revocation base rv now;
          match updated with
          | None => ingest_revocations s (od_del (rv_key rv) w) (deletes ++ [rv_key rv]) now rvs
          | Some r => ingest_revocations s (od_set (rv_key rv) r w) deletes now rvs
          end
      end
  end.

(** The new store and the batch; a raise leaves the store as it was. *)
Definition ingest (s : intel_store) (records : list intel) (now : Z) (rvs : list revocation) :
    res (intel_store * list intel) :=
  w ← ingest_records s [] now records;
  wd ← ingest_revocations s w [] now rvs;
  let out := snd <$> wd.1 in
  s' ← upsert_many s out wd.2;
  Ok (s', out).

(** ** Suppression, listing and matching *)

(** [None] is an expiry that is not finite; the row ids are the fresh random ones. *)
Definition suppress (s : intel_store) (sid aid : string) (k : ikey) (owner justification : string)
    (expires_at : option Z) (now : Z) : res intel_store :=
  check (str_truthy (strip owner) && str_truthy (strip justification)) ValueError;;
  match expires_at with
  | None => Raise ValueError
  | Some e =>
      check (now <? e) ValueError;;
      Ok {| st_indicators := st_indicators s;
            st_suppressions := st_suppressions s ++
              [{| s_id := sid; s_key := k; s_owner := owner; s_justification := justification;
                  s_created := now; s_expires := e |}];
            st_audit := st_audit s ++ [{| au_id := aid; au_tenant := k.1.1;
                                          au_event := intel_suppress k owner justification e now |}] |}
  end.

Definition is_suppressed (s : intel_store) (k : ikey) (now : Z) : bool :=
  existsb (λ x, bool_decide (s_key x = k) && (now <? s_expires x)) (st_suppressions s).

Definition list_indicators (s : intel_store) (tenants : list string) : list intel :=
  map snd (isort (K := string * string * string) fst
    (List.filter (λ kv : ikey * intel, mem kv.1.1.1 tenants) (map_to_list (st_indicators s)))).
Definition suppressions (s : intel_store) (tenants : list string) : list suppression :=
  isort s_created (List.filter (λ x, mem (s_key x).1.1 tenants) (st_suppressions s)).
Definition audit_log (s : intel_store) (tenants : list string) : list audit_entry :=
  isort au_id (List.filter (λ a, mem (au_tenant a) tenants) (st_audit s)).

Definition kept_fields : list string :=
  ["src_ip"; "dest_ip"; "timestamp"; "community_id"; "flow_id"; "tx_id"].
Definition record_match (s : intel_store) (aid tenant : string) (hit : intel) (observation : dict) (now : Z) :
    res intel_store :=
  check (String.eqb (i_tenant hit) tenant) ValueError;;
  Ok {| st_indicators := st_indicators s; st_suppressions := st_suppressions s;
        st_audit := st_audit s ++ [{| au_id := aid; au_tenant := tenant;
                                      au_event := intel_match hit
                                        (omap (λ k, pair k <$> dget k observation) kept_fields) now |}] |}.

(** CIDR indicators of a tenant. *)
Definition networks (s : intel_store) (tenant : string) : list intel :=
  omap (λ kv : ikey * intel,
    if String.eqb kv.1.1.1 tenant && String.eqb kv.1.1.2 "ip" && contains "/" kv.1.2
    then Some kv.2 else None) (map_to_list (st_indicators s)).

Section normalize.
(** The standard library's address and URL parsers: version and compressed form of an
    address, and the components of a URL (splitting, and reading the port, may raise). *)
Record url := {
  u_scheme : string; u_host : option string; u_port : res (option Z); u_user : option string;
  u_password : option string; u_rest : string
}.
Context (ip_address : string → option (Z * string)) (urlsplit : string → res url)
  (urlunsplit : string → string → string → string).

Definition _canon_host (host : string) : string :=
  let host := lower host in
  match ip_address host with
  | None => host
  | Some (v, c) => if v =? 6 then "[" +:+ c +:+ "]" else c
  end.

Definition norm_indicator (itype value : string) : res string :=
  let v := strip value in
  if String.eqb itype "ip" then Ok (match ip_address v with Some (_, c) => c | None => v end)
  else if negb (String.eqb itype "url") then Ok (lower v)
  else
    p ← urlsplit v;
    let host := default "" (u_host p) in
    if negb (str_truthy (u_scheme p)) || negb (str_truthy host) then Ok v
    else
      port ← u_port p;
      let netloc := _canon_host host +:+
        match port with Some n => if n =? 0 then "" else ":" +:+ pretty n | None => "" end in
      let user := default "" (u_user p) in
      let password := default "" (u_password p) in
      let netloc :=
        if str_truthy user
        then user +:+ (if str_truthy password then ":" +:+ password else "") +:+ "@" +:+ netloc
        else netloc in
      Ok (urlunsplit (lower (u_scheme p)) netloc (u_rest p)).

Definition match_ (s : intel_store) (tenant itype value : string) (now : Z) : res (option intel) :=
  ind ← norm_indicator itype value;
  let k := (tenant, itype, ind) in
  match get s k with
  | None => Ok None
  | Some r =>
      r ← derive r now;
      active ← is_active r now;
      Ok (if negb active then None else if is_suppressed s k now then None else Some r)
  end.
End normalize.

Definition exportable (rs : list intel) : list intel := List.filter is_exportable rs.

(** ** Facts *)

(** [p] asserts the indicator at [now]. *)
Definition valid_at (p : prov) (record_expiry : string) (now : Z) : Prop :=
  ∃ e, epoch (_prov_expiry p record_expiry) = Ok e ∧ now < e.

Lemma valid_provs_spec ps e now l :
  _valid_provs ps e now = Ok l → ∀ p, p ∈ l ↔ p ∈ ps ∧ valid_at p e now.
Proof.
  revert l; induction ps as [|p ps IH]; intros l H; simpl in H; inv_ok; [set_solver|].
  specialize (IH _ Hm0). intros q. unfold valid_at.
  destruct (now <? a) eqn:E; to_prop; rewrite ?elem_of_cons, ?IH; unfold valid_at; split.
  - intros [->|[? ?]]; split; eauto.
  - intros [[->|?] ?]; auto.
  - intros [? ?]; auto.
  - intros [[->|?] (t & Ht & ?)]; [|by eauto]. rewrite Hm in Ht. injection Ht as <-. lia.
Qed.

Lemma best_provenance_spec ps e now w :
  best_provenance ps e now = Ok w →
  w ∈ ps ∧ (∀ p, p ∈ ps → valid_at p e now → valid_at w e now ∧ leb (_rank p) (_rank w) = true).
Proof.
  unfold best_provenance. intros H. apply bind_ok_inv in H as (valid & Hv & H).
  pose proof (valid_provs_spec _ _ _ _ Hv) as Hspec.
  destruct (max_by _rank _) as [p|] eqn:E; [|done]. injection H as <-.
  apply max_by_spec in E as [Hin Hmax]. destruct valid as [|v valid].
  - split; [done|]. intros q Hq Hqv. exfalso. by apply (not_elem_of_nil q), Hspec.
  - pose proof (proj1 (Hspec p) Hin) as [Hp Hpv]. split; [done|].
    intros q Hq Hqv. split; [done|]. apply Hmax. by apply Hspec.
Qed.

Lemma most_restrictive_spec tlps t :
  most_restrictive_tlp tlps = Some t →
  ∃ r, tlp_rank t = Some r ∧ ∀ t' r', Some t' ∈ tlps → tlp_rank t' = Some r' → r' <= r.
Proof.
  unfold most_restrictive_tlp. intros H. apply fmap_Some in H as ([r t0] & H & ->).
  apply max_by_spec in H as [Hin Hmax]. apply list_elem_of_omap in Hin as ([t1|] & Hin & Ht1); [|done].
  simpl in Ht1. destruct (tlp_rank t1) as [r1|] eqn:E1; [|done]. injection Ht1 as <- <-.
  exists r1. split; [done|]. intros t' r' Hin' Hr'.
  assert (Hk : (r', t') ∈ omap (λ t, t ← t; r ← tlp_rank t; Some (r, t)) tlps).
  { apply list_elem_of_omap. exists (Some t'). split; [done|]. simpl. by rewrite Hr'. }
  specialize (Hmax _ Hk). unfold leb in Hmax. simpl in Hmax.
  destruct (Z.compare_spec r' r1); [lia|lia|done].
Qed.

Lemma most_restrictive_none tlps t r :
  most_restrictive_tlp tlps = None → Some t ∈ tlps → tlp_rank t = Some r → False.
Proof.
  unfold most_restrictive_tlp. intros H%fmap_None Hin Hr.
  destruct (omap (λ t, t ← t; r ← tlp_rank t; Some (r, t)) tlps) as [|x l] eqn:E.
  - apply (not_elem_of_nil (r, t)). rewrite <- E. apply list_elem_of_omap.
    exists (Some t). split; [done|]. simpl. by rewrite Hr.
  - destruct (max_by_some fst (x :: l)) as [y Hy]; [done|]. congruence.
Qed.

Lemma derive_inv r now d :
  derive r now = Ok d →
  i_prov d = i_prov r ∧ key_of d = key_of r ∧
  ∃ w valid, best_provenance (i_prov d) (i_expiry d) now = Ok w ∧
    _valid_provs (i_prov d) (i_expiry d) now = Ok valid ∧
    (i_trust d, i_score d) = _rank w ∧ (i_source d, i_feed d) = contributor w ∧
    i_tlp d = match most_restrictive_tlp (p_tlp <$> i_prov d) with Some t => Some t | None => i_tlp r end ∧
    i_disposition d = match valid with [] => "expired" | _ => "active" end.
Proof.
  unfold derive. intros H. inv_ok. simpl. split_and!; [done..|]. do 2 eexists. split_and!; done.
Qed.

(** Records are filed under their own key. *)
Definition keyed (s : intel_store) : Prop := ∀ k r, st_indicators s !! k = Some r → key_of r = k.
Definition keyed_work (w : list (ikey * intel)) : Prop :=
  od_wf w ∧ ∀ k r, od_get k w = Some r → key_of r = k.

Lemma keyed_work_set k r w : keyed_work w → key_of r = k → keyed_work (od_set k r w).
Proof.
  intros [Hwf Hk] Hr. split; [by apply od_wf_set|]. intros k' r'. rewrite od_get_set.
  case_decide; [intros [= <-]; congruence|apply Hk].
Qed.
Lemma keyed_work_del k w : keyed_work w → keyed_work (od_del k w).
Proof.
  intros [Hwf Hk]. split; [by apply od_wf_del|]. intros k' r'. rewrite od_get_del.
  case_decide; [done|apply Hk].
Qed.

Lemma working_get_key s w k r : keyed s → keyed_work w → working_get s w k = Some r → key_of r = k.
Proof. unfold working_get. intros Hs [_ Hw]. destruct (od_get k w) eqn:E; [|apply Hs]. intros [= <-]. by apply Hw. Qed.

Lemma merge_key o r m : merge o r = Ok m → (∀ e, o = Some e → key_of e = key_of r) → key_of m = key_of r.
Proof. destruct o as [e|]; simpl; intros H He; inv_ok; [|done]. exact (He e eq_refl). Qed.

Lemma ingest_records_keyed s w now rs w' :
  keyed s → keyed_work w → ingest_records s w now rs = Ok w' → keyed_work w'.
Proof.
  intros Hs. revert w. induction rs as [|r rs IH]; intros w Hw H; simpl in H; inv_ok; [done|].
  apply (IH _) in Hk0; [done|]. apply keyed_work_set; [done|].
  apply derive_inv in Hm0 as (_ & -> & _). apply (merge_key _ _ _ Hm).
  intros e He. by eapply working_get_key.
Qed.

Definition withdrawn (rv : revocation) (r : intel) : Prop :=
  ∀ p, p ∈ i_prov r → contributor p ≠ (rv_source rv, rv_feed rv).

(** A revocation that was applied: deleted, absent, or gone from the record. *)
Definition applied (s : intel_store) (w : list (ikey * intel)) (dels : list ikey) (rv : revocation) : Prop :=
  rv_key rv ∈ dels ∨ (od_get (rv_key rv) w = None ∧ get s (rv_key rv) = None) ∨
  ∃ r, od_get (rv_key rv) w = Some r ∧ withdrawn rv r.

Lemma apply_revocation_spec base rv now o :
  _apply_revocation base rv now = Ok o →
  match o with
  | Some r => key_of r = key_of base ∧ withdrawn rv r ∧
      (∀ p, p ∈ i_prov r ↔ p ∈ i_prov base ∧ contributor p ≠ (rv_source rv, rv_feed rv))
  | None => ∀ p, p ∈ i_prov base → contributor p = (rv_source rv, rv_feed rv)
  end.
Proof.
  unfold _apply_revocation.
  set (kp := List.filter _ (i_prov base)).
  assert (Hkeep : ∀ p, p ∈ kp ↔ p ∈ i_prov base ∧ contributor p ≠ (rv_source rv, rv_feed rv)).
  { intros p. unfold kp. rewrite list_elem_of_In, List.filter_In, <- list_elem_of_In.
    rewrite negb_true_iff, bool_decide_eq_false. done. }
  destruct kp as [|k0 kp'] eqn:E.
  - intros [= <-] p Hp. destruct (decide (contributor p = (rv_source rv, rv_feed rv))) as [|Hn]; [done|].
    exfalso. by apply (not_elem_of_nil p), Hkeep.
  - destruct (derive (with_prov (k0 :: kp') base) now) as [d|] eqn:Ed; [|done].
    intros [= <-]. apply derive_inv in Ed as (Hp & Hk & _). simpl in Hp. split; [done|].
    unfold withdrawn. rewrite Hp. split; [|done]. intros p Hin. by apply Hkeep in Hin as [_ ?].
Qed.

Lemma ingest_revocations_spec s w dels now rvs done_ w' dels' :
  keyed s → keyed_work w → (∀ rv, rv ∈ done_ → applied s w dels rv) →
  ingest_revocations s w dels now rvs = Ok (w', dels') →
  keyed_work w' ∧ ∀ rv, rv ∈ done_ ++ rvs → applied s w' dels' rv.
Proof.
  intros Hs. revert w dels done_. induction rvs as [|rv rvs IH]; intros w dels dn Hw Hd H; simpl in H.
  { injection H as <- <-. by rewrite app_nil_r. }
  replace (dn ++ rv :: rvs) with ((dn ++ [rv]) ++ rvs) by by rewrite <- app_assoc.
  destruct (working_get s w (rv_key rv)) as [base|] eqn:Eb.
  - apply bind_ok_inv in H as (o & Ho & H). apply apply_revocation_spec in Ho.
    pose proof (working_get_key _ _ _ _ Hs Hw Eb) as Hkb. destruct o as [r|].
    + destruct Ho as (Hk & Hwd & Hp). eapply IH; [|  |exact H].
      * apply keyed_work_set; [done|congruence].
      * intros rv' [Hin| ->%list_elem_of_singleton]%elem_of_app.
        -- destruct (Hd _ Hin) as [?|[[Hn Hg]|(r' & Hr' & Hwd')]]; [by left|right|right].
           ++ left. split; [|done]. rewrite od_get_set. case_decide as E; [|done].
              exfalso. unfold working_get in Eb. rewrite <- E, Hn in Eb. congruence.
           ++ right. rewrite od_get_set. case_decide as E; [|by exists r'].
              exists r. split; [done|]. intros p Hpr. apply Hp in Hpr as [Hpb _].
              unfold working_get in Eb. rewrite <- E, Hr' in Eb. injection Eb as <-. by apply Hwd'.
        -- right. right. exists r. by rewrite od_get_set_eq.
    + eapply IH; [by apply keyed_work_del| |exact H].
      intros rv' [Hin| ->%list_elem_of_singleton]%elem_of_app; [|left; set_solver].
      destruct (Hd _ Hin) as [?|[[Hn Hg]|(r' & Hr' & Hwd')]]; [left; set_solver| |].
      * right. left. rewrite od_get_del. by case_decide.
      * destruct (decide (rv_key rv' = rv_key rv)) as [E|Hne]; [left; rewrite E; set_solver|].
        right. right. exists r'. by rewrite od_get_del_ne.
  - eapply IH; [done| |exact H].
    intros rv' [Hin| ->%list_elem_of_singleton]%elem_of_app; [by apply Hd|].
    right. left. unfold working_get in Eb. by destruct (od_get (rv_key rv) w).
Qed.

Lemma upserts_lookup (w : list (ikey * intel)) (m : gmap ikey intel) k :
  keyed_work w →
  foldl (λ m r, <[key_of r := r]> m) m (snd <$> w) !! k =
  match od_get k w with Some r => Some r | None => m !! k end.
Proof.
  intros [Hwf Hk]. revert m Hwf Hk. induction w as [|[k' r] w IH]; intros m Hwf Hk; [done|].
  assert (Hkr : key_of r = k') by (apply Hk; simpl; by rewrite decide_True).
  apply NoDup_cons in Hwf as [Hn Hwf]. simpl. rewrite IH; [|done|].
  - destruct (decide (k = k')) as [->|Hne].
    + assert (od_get k' w = None) as -> by by apply od_get_none.
      rewrite Hkr. by rewrite lookup_insert_eq.
    + destruct (od_get k w); [done|]. rewrite lookup_insert_ne; [done|congruence].
  - intros k2 r2 H2. apply Hk. simpl. rewrite decide_False; [done|].
    intros ->. apply (proj2 (od_get_none k' w)) in Hn. by rewrite H2 in Hn.
Qed.

Lemma deletes_lookup (ks : list ikey) (m : gmap ikey intel) k :
  foldl (λ m k, delete k m) m ks !! k = if decide (k ∈ ks) then None else m !! k.
Proof.
  revert m. induction ks as [|k' ks IH]; intros m; simpl; [done|]. rewrite IH.
  destruct (decide (k = k')) as [->|Hne].
  - rewrite (decide_True (P := k' ∈ k' :: ks)) by by left. case_decide; [done|]. apply lookup_delete_eq.
  - rewrite lookup_delete_ne by done. repeat case_decide; set_solver.
Qed.

Lemma ingest_inv s records now rvs s' out :
  keyed s → ingest s records now rvs = Ok (s', out) →
  ∃ w dels, keyed_work w ∧ (∀ rv, rv ∈ rvs → applied s w dels rv) ∧
    (∀ k, st_indicators s' !! k = if decide (k ∈ dels) then None
       else match od_get k w with Some r => Some r | None => st_indicators s !! k end) ∧
    st_suppressions s' = st_suppressions s.
Proof.
  intros Hs H. unfold ingest in H. apply bind_ok_inv in H as (w0 & Hw0 & H).
  apply bind_ok_inv in H as ([w dels] & Hw & H).
  apply bind_ok_inv in H as (s1 & Hs1 & H). injection H as <- _.
  unfold upsert_many in Hs1. apply bind_ok_inv in Hs1 as (u & _ & Hs1). injection Hs1 as <-.
  apply ingest_records_keyed in Hw0; [|done|split; [apply od_wf_nil|done]].
  destruct (ingest_revocations_spec s w0 [] now rvs [] w dels Hs Hw0) as [Hkw Happ]; [set_solver|done|].
  exists w, dels. split_and!; [done|done| |done].
  intros k. simpl. rewrite deletes_lookup. by rewrite upserts_lookup.
Qed.

(** ** The operations of the store, and its reachable states *)

Inductive store_step (s : intel_store) : intel_store → Prop :=
| step_ingest records now rvs s' out :
    ingest s records now rvs = Ok (s', out) → store_step s s'
| step_suppress sid aid k owner just e now s' :
    suppress s sid aid k owner just e now = Ok s' → store_step s s'
| step_match aid tenant hit obs now s' :
    record_match s aid tenant hit obs now = Ok s' → store_step s s'.

Lemma store_step_keyed s s' : keyed s → store_step s s' → keyed s'.
Proof.
  intros Hs [records now rvs s2 out H|sid aid k owner just e now s2 H|aid tenant hit obs now s2 H].
  - apply ingest_inv in H as (w & dels & [_ Hkw] & _ & Hl & _); [|done]. intros k r.
    rewrite Hl. case_decide; [done|]. destruct (od_get k w) eqn:E; [|apply Hs].
    intros [= <-]. by apply Hkw.
  - unfold suppress in H. apply bind_ok_inv in H as ([] & _ & H). destruct e; [|done].
    apply bind_ok_inv in H as ([] & _ & H). by injection H as <-.
  - unfold record_match in H. apply bind_ok_inv in H as ([] & _ & H). by injection H as <-.
Qed.

Lemma reachable_keyed s : rtc store_step empty_store s → keyed s.
Proof.
  intros H. assert (H0 : keyed empty_store) by by intros k r.
  induction H as [|x y z Hxy _ IH]; [done|]. apply IH. by eapply store_step_keyed.
Qed.

(** ** Properties *)

(** Trust and sharing are decided by the valid assertions alone.  After [derive]
    the score and trust are those of one assertion that no currently valid assertion
    outranks, and which is itself valid if any is (so an expired high-trust feed or a
    low-trust feed never overrides a valid better one); the record is active exactly
    when some assertion is valid; and its marking is at least as restrictive as every
    known marking of every contributor, valid or not. *)
Theorem derive_follows_valid_assertions r now d :
  derive r now = Ok d →
  (∃ w, w ∈ i_prov r ∧ (i_trust d, i_score d) = (p_trust w, p_score w) ∧
     ∀ p, p ∈ i_prov r → valid_at p (i_expiry d) now →
       valid_at w (i_expiry d) now ∧ leb (p_trust p, p_score p) (i_trust d, i_score d) = true) ∧
  (i_disposition d = "active" ↔ ∃ p, p ∈ i_prov r ∧ valid_at p (i_expiry d) now) ∧
  (∀ p t n, p ∈ i_prov r → p_tlp p = Some t → tlp_rank t = Some n →
     ∃ t' n', i_tlp d = Some t' ∧ tlp_rank t' = Some n' ∧ n <= n').
Proof.
  intros H. apply derive_inv in H as (Hp & _ & w & valid & Hw & Hv & Hts & _ & Ht & Hd).
  rewrite Hp in *. apply best_provenance_spec in Hw as [Hin Hbest].
  pose proof (valid_provs_spec _ _ _ _ Hv) as Hspec. split; [|split].
  - exists w. by rewrite Hts.
  - rewrite Hd. destruct valid as [|v valid].
    + split; [done|]. intros (p & ? & ?). exfalso. by apply (not_elem_of_nil p), Hspec.
    + split; [|done]. intros _. exists v. apply Hspec. by left.
  - intros p t n Hpin Hpt Hn.
    assert (Hmark : Some t ∈ p_tlp <$> i_prov r) by (apply list_elem_of_fmap; by exists p).
    destruct (most_restrictive_tlp _) as [t'|] eqn:E.
    + apply most_restrictive_spec in E as (n' & Hn' & Hmax). exists t', n'. split_and!; eauto.
    + exfalso. by eapply most_restrictive_none.
Qed.

Definition assertion (feed : string) (trust score : Z) (tlp expiry : string) : prov :=
  {| p_source := "feed"; p_feed := feed; p_trust := trust; p_score := score; p_tlp := Some tlp;
     p_expiry := Some expiry |}.
Definition sample_intel (ps : list prov) : intel :=
  {| i_tenant := "t"; i_type := "domain"; i_indicator := "bad.example"; i_prov := ps;
     i_first_seen := "1970-01-01T00:00:01Z"; i_last_seen := "1970-01-01T00:00:01Z";
     i_expiry := "1970-01-01T00:00:09Z"; i_score := 0; i_trust := 0; i_source := ""; i_feed := "";
     i_tlp := None; i_disposition := "active" |}.
Definition expired_and_live : intel := sample_intel
  [assertion "gold" 90 99 "red" "1970-01-01T00:00:02Z"; assertion "tin" 20 10 "green" "1970-01-01T00:00:09Z"].
Definition derived_at (now : Z) (r : intel) : intel :=
  match derive r now with Ok d => d | Raise _ => r end.

Lemma derive_follows_valid_assertions_witness :
  i_disposition (derived_at 5000000 expired_and_live) = "active" ↔
  ∃ p, p ∈ i_prov expired_and_live ∧ valid_at p (i_expiry (derived_at 5000000 expired_and_live)) 5000000.
Proof.
  apply (derive_follows_valid_assertions expired_and_live 5000000 (derived_at 5000000 expired_and_live)).
  vm_compute. reflexivity.
Defined.

(** A match is always live: in every store the operations can build, a matched
    record is the caller's own tenant's record of the normalized indicator, at least
    one of its assertions is valid at that very moment, the record has not expired,
    and no live suppression covers it. *)
Theorem match_only_live ip_address urlsplit urlunsplit s tenant itype value now r :
  rtc store_step empty_store s →
  match_ ip_address urlsplit urlunsplit s tenant itype value now = Ok (Some r) →
  ∃ ind, norm_indicator ip_address urlsplit urlunsplit itype value = Ok ind ∧
  let k := (tenant, itype, ind) in
  key_of r = k ∧ (∃ p, p ∈ i_prov r ∧ valid_at p (i_expiry r) now) ∧ is_expired r now = Ok false ∧
  ∀ x, x ∈ st_suppressions s → s_key x = k → s_expires x <= now.
Proof.
  intros Hs%reachable_keyed H. unfold match_ in H. apply bind_ok_inv in H as (ind & Hind & H).
  exists ind. split; [exact Hind|]. intros k. fold k in H.
  destruct (get s k) as [r0|] eqn:Eg; [|done].
  apply bind_ok_inv in H as (d & Hd & H). apply bind_ok_inv in H as (act & Hact & H).
  destruct act; [|done]. simpl in H. destruct (is_suppressed s k now) eqn:Es; [done|].
  injection H as ->. apply derive_inv in Hd as (Hp & Hk & w & valid & _ & Hv & _ & _ & _ & Hdisp).
  unfold is_active in Hact. destruct (String.eqb_spec (i_disposition r) "active") as [Ha|]; [|done].
  split_and!.
  - rewrite Hk. by apply Hs.
  - rewrite Ha in Hdisp. destruct valid as [|v valid]; [done|]. exists v.
    apply (valid_provs_spec _ _ _ _ Hv). by left.
  - destruct (is_expired r now) as [b|]; [|done]. simpl in Hact. injection Hact as Hact.
    by destruct b.
  - intros x Hx Hxk. unfold is_suppressed in Es. destruct (decide (s_expires x <= now)) as [|Hlt]; [done|].
    exfalso. rewrite <- not_true_iff_false in Es. apply Es. apply existsb_exists. exists x.
    split; [by apply list_elem_of_In|]. apply andb_true_iff. split; [by apply bool_decide_eq_true|].
    apply Z.ltb_lt. lia.
Qed.

Definition no_ip : string → option (Z * string) := λ _, None.
Definition no_url : string → res url := λ s,
  Ok {| u_scheme := ""; u_host := None; u_port := Ok None; u_user := None; u_password := None; u_rest := s |}.
Definition join_url : string → string → string → string := λ a b c, a +:+ b +:+ c.
Definition ingested (rvs : list revocation) : intel_store :=
  match ingest empty_store [expired_and_live] 5000000 rvs with Ok (s, _) => s | Raise _ => empty_store end.

Lemma match_only_live_witness :
  ∃ ind, norm_indicator no_ip no_url join_url "domain" " BAD.example " = Ok ind ∧
  let k := ("t", "domain", ind) in
  key_of (derived_at 5000000 expired_and_live) = k ∧
  (∃ p, p ∈ i_prov (derived_at 5000000 expired_and_live) ∧
        valid_at p (i_expiry (derived_at 5000000 expired_and_live)) 5000000) ∧
  is_expired (derived_at 5000000 expired_and_live) 5000000 = Ok false ∧
  ∀ x, x ∈ st_suppressions (ingested []) → s_key x = k → s_expires x <= 5000000.
Proof.
  apply (match_only_live no_ip no_url join_url (ingested []) "t" "domain" " BAD.example " 5000000).
  - apply rtc_once. apply (step_ingest _ [expired_and_live] 5000000 [] _ [derived_at 5000000 expired_and_live]).
    vm_compute. reflexivity.
  - vm_compute. reflexivity.
Defined.

(** A withdrawn assertion does not survive the refresh that withdraws it: after an
    ingest with revocations, in any order and with repetitions, the stored record of
    each revoked key (if one is left) has no assertion of the revoked source and
    feed. *)
Theorem revoked_assertions_gone s records now rvs s' out rv r p :
  rtc store_step empty_store s → ingest s records now rvs = Ok (s', out) → rv ∈ rvs →
  get s' (rv_key rv) = Some r → p ∈ i_prov r → contributor p ≠ (rv_source rv, rv_feed rv).
Proof.
  intros Hs%reachable_keyed H Hrv Hr Hp. apply ingest_inv in H as (w & dels & _ & Happ & Hl & _); [|done].
  unfold get in Hr. rewrite Hl in Hr. case_decide; [done|].
  destruct (Happ _ Hrv) as [?|[[Hn Hg]|(r' & Hr' & Hwd)]]; [done| |].
  - rewrite Hn in Hr. unfold get in Hg. congruence.
  - rewrite Hr' in Hr. injection Hr as <-. by apply Hwd.
Qed.

Definition revoke (feed : string) : revocation :=
  {| rv_key := ("t", "domain", "bad.example"); rv_source := "feed"; rv_feed := feed |}.

Definition refreshed_store : intel_store := ingested [revoke "gold"].
Definition live_assertion : prov := assertion "tin" 20 10 "green" "1970-01-01T00:00:09Z".

Lemma revoked_assertions_gone_witness :
  get refreshed_store (rv_key (revoke "gold")) = Some (derived_at 5000000 (sample_intel [live_assertion])) ∧
  contributor live_assertion ≠ ("feed", "gold").
Proof.
  assert (Hg : get refreshed_store (rv_key (revoke "gold")) =
    Some (derived_at 5000000 (sample_intel [live_assertion]))) by (vm_compute; reflexivity).
  split; [exact Hg|].
  apply (revoked_assertions_gone empty_store [expired_and_live] 5000000 [revoke "gold"] refreshed_store
    [derived_at 5000000 (sample_intel [live_assertion])] (revoke "gold")
    (derived_at 5000000 (sample_intel [live_assertion])) live_assertion).
  - apply rtc_refl.
  - vm_compute. reflexivity.
  - by left.
  - exact Hg.
  - by left.
Defined.
