(* ===== verification/YaraRegistry.v ===== *)
(** * YARA ruleset registry (services/file-yara/registry.py)

    Versioned rulesets with a staged, authorization-gated lifecycle, an append-only
    audit trail and content-addressed bytes that are verified on load.  Every write is
    one transaction under the write lock, so the operations are atomic steps; the two
    tables keyed by a primary key are finite maps and the audit table is a list.
    SHA-256 is a parameter; the random ruleset id and the clock reading an operation
    takes when the caller supplies none are its arguments. *)

From S2P Require Import Prelude Order PyVal PyString PyTime OrderedMap.
Set Default Proof Using "Type".

Definition STATUSES : list string := ["draft"; "shadow"; "active"; "retired"].
Definition TRANSITIONS : list (string * list string) :=
  [("draft", ["shadow"; "retired"]); ("shadow", ["active"; "retired"]);
   ("active", ["shadow"; "retired"]); ("retired", [])].
Definition _SERVED_STATUSES : list string := ["active"; "shadow"].

(** ** Validation of a registration *)

Definition _req_str (v : val) (max_len : Z) (nonblank : bool) : res string :=
  match v with
  | VStr s =>
      let len := Z.of_nat (String.length s) in
      check (between 1 max_len len && (negb nonblank || str_truthy (strip s))) ValueError;;
      Ok s
  | _ => Raise ValueError
  end.

Definition two_digits (lo hi : Z) (s : string) : option string :=
  match s with
  | String a (String b s) =>
      if is_digit a && is_digit b && between lo hi (10 * (code a - 48) + (code b - 48)) then Some s else None
  | _ => None
  end.
Definition clock_hm (s : string) : option string :=
  s ← two_digits 0 23 s; s ← match_classes [one_of ":"] s; two_digits 0 59 s.
(** [_DATETIME_RE.fullmatch]. *)
Definition _DATETIME_RE (s : string) : bool :=
  match
    s ← match_classes [is_digit; is_digit; is_digit; is_digit; one_of "-"; is_digit; is_digit;
                       one_of "-"; is_digit; is_digit; one_of "Tt"] s;
    s ← clock_hm s; s ← match_classes [one_of ":"] s; s ← two_digits 0 59 s;
    s ← match s with
        | String "." s' => match match_classes [is_digit] s' with Some s' => Some (skip_digits s') | None => None end
        | _ => Some s
        end;
    match s with
    | String c s' => if one_of "Zz" c then Some s' else if one_of "+-" c then clock_hm s' else None
    | EmptyString => None
    end
  with Some rest => String.eqb rest "" | None => false end.

Definition _req_datetime (v : val) : res string :=
  match v with
  | VStr s =>
      check (_DATETIME_RE s) ValueError;;
      check (bool_decide (is_Some (fromisoformat (replace_zulu (upper s))))) ValueError;;
      Ok s
  | _ => Raise ValueError
  end.

(** [_SAFE_ID_RE.fullmatch]. *)
Definition _SAFE_ID_RE (s : string) : bool :=
  match s with
  | String c rest =>
      is_alnum c && string_forallb (λ x, is_alnum x || one_of "._-" x) rest
      && (Z.of_nat (String.length rest) <=? 255)
  | EmptyString => false
  end.
Definition _safe_id (v : val) : res string :=
  s ← _req_str v 256 true;
  check (negb (contains ".." s) && _SAFE_ID_RE s) ValueError;;
  Ok s.

(** [_MIME_RE.fullmatch]: two non-empty tokens around one slash. *)
Definition mime_char (c : ascii) : bool := is_alnum c || one_of "!#$%&'+.^_`|~-" c.
Definition mime_token (s : string) : bool := str_truthy s && string_forallb mime_char s.
Definition _MIME_RE (s : string) : bool :=
  match split_char "/" s with [a; b] => mime_token a && mime_token b | _ => false end.

Record registration := {
  g_name : string; g_version : string; g_source : string; g_mimes : list string; g_max_size : Z;
  g_notes : option string; g_corpus : option string
}.

Definition req_mime (v : val) : res string :=
  s ← _req_str v 256 true; check (_MIME_RE s) ValueError;; Ok s.
Definition req_mimes (v : val) : res (list string) :=
  match v with
  | VNone => Ok []
  | VList l => mapM req_mime l
  | _ => Raise ValueError
  end.
Definition req_notes (v : val) : res (option string) :=
  match v with
  | VNone => Ok None
  | VStr s => check (Z.of_nat (String.length s) <=? 8192) ValueError;; Ok (Some s)
  | _ => Raise ValueError
  end.
Definition req_corpus (v : val) : res (option string) :=
  match v with VNone => Ok None | _ => Some <$> _req_str v 512 true end.
Definition req_size (v : val) : res Z :=
  match v with
  | VInt n => check (between 1 4294967296 n) ValueError;; Ok n
  | _ => Raise ValueError
  end.

Definition _validate_registration (name version source mimes max_size notes corpus : val) : res registration :=
  name ← _req_str name 256 true;
  version ← _req_str version 128 true;
  source ← _req_str source 256 false;
  size ← req_size max_size;
  mimes ← req_mimes mimes;
  notes ← req_notes notes;
  corpus ← req_corpus corpus;
  Ok {| g_name := name; g_version := version; g_source := source; g_mimes := mimes;
        g_max_size := size; g_notes := notes; g_corpus := corpus |}.

(** ** The registry *)

Record ruleset := {
  r_id : string; r_reg : registration; r_sha256 : string; r_created_at : string;
  r_promoted_by : option string; r_promoted_at : option string; r_status : string; r_tenant : string
}.
Record audit_row := {
  a_ruleset : string; a_ts : string; a_actor : option string; a_event : string;
  a_from : option string; a_to : string
}.
Record registry := {
  rulesets : gmap string ruleset; ruleset_bytes : gmap string string; ruleset_audit : list audit_row
}.
Definition empty_registry : registry :=
  {| rulesets := ∅; ruleset_bytes := ∅; ruleset_audit := [] |}.

Definition with_rulesets (m : gmap string ruleset) (g : registry) : registry :=
  {| rulesets := m; ruleset_bytes := ruleset_bytes g; ruleset_audit := ruleset_audit g |}.
Definition _audit (a : audit_row) (g : registry) : registry :=
  {| rulesets := rulesets g; ruleset_bytes := ruleset_bytes g; ruleset_audit := ruleset_audit g ++ [a] |}.
(** [INSERT OR IGNORE]: bytes already stored under the digest stay. *)
Definition insert_bytes (sha data : string) (g : registry) : registry :=
  {| rulesets := rulesets g;
     ruleset_bytes := match ruleset_bytes g !! sha with
                      | Some _ => ruleset_bytes g
                      | None => <[sha := data]> (ruleset_bytes g)
                      end;
     ruleset_audit := ruleset_audit g |}.

Definition get (g : registry) (id : string) : option ruleset := rulesets g !! id.

(** [BEGIN IMMEDIATE .. COMMIT]: an exception rolls back, except the denial, whose
    audit row was committed before it was raised. *)
Definition transaction {A} (m : M registry A) : M registry A := λ g,
  match m g with
  | (g', Raise Unauthorized) => (g', Raise Unauthorized)
  | (_, Raise e) => (g, Raise e)
  | (g', Ok a) => (g', Ok a)
  end.

Definition insert_row (r : ruleset) : M registry unit :=
  let* old := read (λ g, get g (r_id r)) in
  match old with
  | Some _ => raise OtherError  (* UNIQUE constraint *)
  | None => modify (λ g, with_rulesets (<[r_id r := r]> (rulesets g)) g)
  end.

Definition served_event (to : string) : string := if mem to _SERVED_STATUSES then "promoted" else to.
Definition moved (to : string) (actor ts : string) (r : ruleset) : ruleset :=
  {| r_id := r_id r; r_reg := r_reg r; r_sha256 := r_sha256 r; r_created_at := r_created_at r;
     r_promoted_by := Some actor; r_promoted_at := Some ts; r_status := to; r_tenant := r_tenant r |}.
(** [UPDATE .. WHERE id=? AND status=?], with the number of rows changed. *)
Definition cas_status (id current to actor ts : string) : M registry Z := λ g,
  match get g id with
  | Some r =>
      if String.eqb (r_status r) current
      then (with_rulesets (<[id := moved to actor ts r]> (rulesets g)) g, Ok 1) else (g, Ok 0)
  | None => (g, Ok 0)
  end.

Section registry_ops.
Context (sha256 : string → string).

(** [data] is [None] when it is not bytes; [fresh] and [now] are the generated id and
    the clock reading. *)
Definition register_draft (name version : val) (data : option string) (source mimes max_size notes corpus : val)
    (tenant : string) (ruleset_id ts : val) (fresh now : string) : M registry ruleset :=
  let* data := lift (match data with Some d => Ok d | None => Raise TypeError end) in
  let* reg := lift (_validate_registration name version source mimes max_size notes corpus) in
  let* rid := lift (match ruleset_id with VNone => Ok fresh | v => _safe_id v end) in
  let* ts := lift (match ts with VNone => Ok now | v => _req_datetime v end) in
  let sha := sha256 data in
  transaction
    (modify (insert_bytes sha data) ;*
     insert_row {| r_id := rid; r_reg := reg; r_sha256 := sha; r_created_at := ts;
                   r_promoted_by := None; r_promoted_at := None; r_status := "draft"; r_tenant := tenant |} ;*
     modify (_audit {| a_ruleset := rid; a_ts := ts; a_actor := None; a_event := "registered";
                       a_from := None; a_to := "draft" |})) ;*
  let* r := read (λ g, get g rid) in
  match r with Some r => ret r | None => raise KeyError end.

Definition transitions_from (current : string) : list string := default [] (assoc current TRANSITIONS).

Definition promote_body (id to actor ts : string) (authorize : string → string → string → bool) :
    M registry unit :=
  let* row := read (λ g, get g id) in
  match row with
  | None => raise KeyError
  | Some row =>
      let current := r_status row in
      if negb (mem to STATUSES) then raise IllegalTransition
      else if negb (mem to (transitions_from current)) then raise IllegalTransition
      else if negb (authorize actor (r_tenant row) to) then
        modify (_audit {| a_ruleset := id; a_ts := ts; a_actor := Some actor; a_event := "promotion_denied";
                          a_from := Some current; a_to := to |}) ;*
        raise Unauthorized
      else
        let* n := cas_status id current to actor ts in
        if negb (n =? 1) then raise IllegalTransition
        else modify (_audit {| a_ruleset := id; a_ts := ts; a_actor := Some actor;
                               a_event := served_event to; a_from := Some current; a_to := to |})
  end.

Definition promote (id to : string) (actor : val) (authorize : string → string → string → bool) (ts : val)
    (now : string) : M registry ruleset :=
  let* actor := lift (_req_str actor 256 true) in
  let* ts := lift (match ts with VNone => Ok now | v => _req_datetime v end) in
  transaction (promote_body id to actor ts authorize) ;*
  let* r := read (λ g, get g id) in
  match r with Some r => ret r | None => raise KeyError end.

(** ** Reads *)

Definition rows_by_id (g : registry) : list ruleset := isort r_id (map snd (map_to_list (rulesets g))).
Definition list_rulesets (g : registry) (status : option string) : list ruleset :=
  match status with
  | None => rows_by_id g
  | Some s => List.filter (λ r, String.eqb (r_status r) s) (rows_by_id g)
  end.
Definition applies_to (mime : option string) (r : ruleset) : bool :=
  match mime with
  | None => true
  | Some m => match g_mimes (r_reg r) with [] => true | l => mem m l end
  end.
Definition active_for_scan (g : registry) (mime : option string) : list ruleset :=
  List.filter (applies_to mime) (List.filter (λ r, mem (r_status r) _SERVED_STATUSES) (rows_by_id g)).
Definition load_bytes (g : registry) (id : string) : res string :=
  match get g id with
  | None => Raise KeyError
  | Some r =>
      match ruleset_bytes g !! r_sha256 r with
      | None => Raise KeyError
      | Some data => if String.eqb (sha256 data) (r_sha256 r) then Ok data else Raise IntegrityError
      end
  end.
Definition audit (g : registry) (id : string) : list audit_row :=
  List.filter (λ a, String.eqb (a_ruleset a) id) (ruleset_audit g).
Definition allow_actors (actors : list string) (actor tenant to : string) : bool := mem actor actors.
End registry_ops.

(** ** Facts *)

Section facts.
Context (sha256 : string → string).

(** The audit rows of one ruleset, replayed: a registration followed by moves of the
    table made by authorized actors, and by denials of unauthorized ones. *)
Record standing := { s_status : string; s_by : option string; s_at : option string }.
Definition standing_of (r : ruleset) : standing :=
  {| s_status := r_status r; s_by := r_promoted_by r; s_at := r_promoted_at r |}.

Definition replay_move (authorize : string → string → string → bool) (tenant : string)
    (o : option standing) (a : audit_row) : option standing :=
  s ← o; actor ← a_actor a; from ← a_from a;
  if negb (String.eqb (s_status s) from && mem (a_to a) (transitions_from from)) then None
  else if String.eqb (a_event a) "promotion_denied"
  then if authorize actor tenant (a_to a) then None else Some s
  else if authorize actor tenant (a_to a) && String.eqb (a_event a) (served_event (a_to a))
  then Some {| s_status := a_to a; s_by := Some actor; s_at := Some (a_ts a) |} else None.
Definition replay (authorize : string → string → string → bool) (tenant : string) (l : list audit_row) :
    option standing :=
  match l with
  | a :: l =>
      if String.eqb (a_event a) "registered" && String.eqb (a_to a) "draft"
      then foldl (replay_move authorize tenant) (Some {| s_status := "draft"; s_by := None; s_at := None |}) l
      else None
  | [] => None
  end.

Lemma trail_snoc authorize tenant l a :
  l ≠ [] → replay authorize tenant (l ++ [a]) = replay_move authorize tenant (replay authorize tenant l) a.
Proof.
  clear sha256. destruct l as [|x l]; [done|]. intros _. simpl.
  destruct (_ && _); [by rewrite foldl_app|done].
Qed.

Lemma audit_audit a g id :
  audit (_audit a g) id = audit g id ++ if String.eqb (a_ruleset a) id then [a] else [].
Proof. clear sha256. unfold audit, _audit. simpl. by rewrite List.filter_app. Qed.

Definition registered (r : ruleset) (data ts : string) (g : registry) : registry :=
  _audit {| a_ruleset := r_id r; a_ts := ts; a_actor := None; a_event := "registered";
            a_from := None; a_to := "draft" |}
    (with_rulesets (<[r_id r := r]> (rulesets g)) (insert_bytes (r_sha256 r) data g)).

Lemma register_draft_inv name version data source mimes size notes corpus tenant rid ts fresh now g g' o :
  register_draft sha256 name version data source mimes size notes corpus tenant rid ts fresh now g = (g', o) →
  g' = g ∧ (∃ e, o = Raise e) ∨
  ∃ r d t, o = Ok r ∧ data = Some d ∧ get g (r_id r) = None ∧ g' = registered r d t g ∧
    standing_of r = {| s_status := "draft"; s_by := None; s_at := None |} ∧ r_sha256 r = sha256 d.
Proof.
  unfold register_draft, bind at 1, lift at 1.
  destruct data as [d|]; [|intros [= <- <-]; left; eauto].
  unfold bind at 1, lift at 1. destruct (_validate_registration _ _ _ _ _ _ _) as [reg|e];
    [|intros [= <- <-]; left; eauto].
  unfold bind at 1, lift at 1. destruct (match rid with VNone => _ | _ => _ end) as [i|e];
    [|intros [= <- <-]; left; eauto].
  unfold bind at 1, lift at 1. destruct (match ts with VNone => _ | _ => _ end) as [t|e];
    [|intros [= <- <-]; left; eauto].
  cbv [bind transaction insert_row modify read ret raise get]; simpl.
  destruct (rulesets g !! i) as [old|] eqn:Eg; simpl; [intros [= <- <-]; left; eauto|].
  rewrite lookup_insert_eq. intros [= <- <-]. right.
  by do 3 eexists.
Qed.

Definition denied (id to actor ts current : string) (g : registry) : registry :=
  _audit {| a_ruleset := id; a_ts := ts; a_actor := Some actor; a_event := "promotion_denied";
            a_from := Some current; a_to := to |} g.
Definition promoted (r : ruleset) (id to actor ts : string) (g : registry) : registry :=
  _audit {| a_ruleset := id; a_ts := ts; a_actor := Some actor; a_event := served_event to;
            a_from := Some (r_status r); a_to := to |}
    (with_rulesets (<[id := moved to actor ts r]> (rulesets g)) g).

Lemma transitions_known c to : mem to (transitions_from c) = true → mem to STATUSES = true.
Proof.
  clear sha256. intros H%mem_true. unfold transitions_from in H. destruct (assoc c TRANSITIONS) as [l|] eqn:E;
    [|by apply elem_of_nil in H].
  apply assoc_elem in E. unfold TRANSITIONS in E. rewrite !elem_of_cons, elem_of_nil in E.
  destruct_or! E; try done; injection E as -> ->; simpl in H; rewrite ?elem_of_cons, elem_of_nil in H;
    destruct_or! H; subst; done.
Qed.

Lemma promote_body_eq id to actor ts authorize g :
  promote_body id to actor ts authorize g =
  match get g id with
  | None => (g, Raise KeyError)
  | Some r =>
      if negb (mem to STATUSES && mem to (transitions_from (r_status r))) then (g, Raise IllegalTransition)
      else if authorize actor (r_tenant r) to then (promoted r id to actor ts g, Ok tt)
      else (denied id to actor ts (r_status r) g, Raise Unauthorized)
  end.
Proof.
  unfold promote_body, bind at 1, read. destruct (get g id) as [r|] eqn:E; [|done].
  destruct (mem to STATUSES); [|done]. destruct (mem to (transitions_from _)); [|done]. simpl.
  destruct (authorize _ _ _); [|done]. simpl. unfold bind, cas_status. rewrite E.
  by rewrite String.eqb_refl.
Qed.

Lemma promote_inv id to actor authorize ts now g g' o :
  promote id to actor authorize ts now g = (g', o) →
  g' = g ∧ (∃ e, o = Raise e) ∨
  ∃ r a t, get g id = Some r ∧ mem to (transitions_from (r_status r)) = true ∧
    (authorize a (r_tenant r) to = false ∧ g' = denied id to a t (r_status r) g ∧ o = Raise Unauthorized ∨
     authorize a (r_tenant r) to = true ∧ g' = promoted r id to a t g ∧ o = Ok (moved to a t r)).
Proof.
  unfold promote, bind at 1, lift at 1. destruct (_req_str _ _ _) as [a|e]; [|intros [= <- <-]; left; eauto].
  unfold bind at 1, lift at 1. destruct (match ts with VNone => _ | _ => _ end) as [t|e];
    [|intros [= <- <-]; left; eauto].
  unfold bind, transaction, read. rewrite promote_body_eq.
  destruct (get g id) as [r|] eqn:E; [|intros [= <- <-]; left; eauto].
  destruct (mem to STATUSES); [|intros [= <- <-]; left; eauto].
  destruct (mem to (transitions_from _)) eqn:Et; [|intros [= <- <-]; left; eauto]. simpl.
  destruct (authorize a _ to) eqn:Ea.
  - unfold get, promoted. simpl. rewrite lookup_insert_eq. intros [= <- <-]. right.
    exists r, a, t. split_and!; auto.
  - intros [= <- <-]. right. exists r, a, t. split_and!; auto.
Qed.

Lemma served_event_not_denial c to :
  mem to (transitions_from c) = true → String.eqb (served_event to) "promotion_denied" = false.
Proof.
  clear sha256. intros H%transitions_known%mem_true. unfold STATUSES in H.
  rewrite !elem_of_cons, elem_of_nil in H. by destruct_or! H; subst.
Qed.

(** The operations of the registry under one authorization policy. *)
Inductive registry_step (authorize : string → string → string → bool) (g : registry) : registry → Prop :=
| step_register name version data source mimes size notes corpus tenant rid ts fresh now g' o :
    register_draft sha256 name version data source mimes size notes corpus tenant rid ts fresh now g = (g', o) →
    registry_step authorize g g'
| step_promote id to actor ts now g' o :
    promote id to actor authorize ts now g = (g', o) → registry_step authorize g g'.

(** Someone replaces the stored bytes behind the registry's back. *)
Definition tampered (m : gmap string string) (g : registry) : registry :=
  {| rulesets := rulesets g; ruleset_bytes := m; ruleset_audit := ruleset_audit g |}.

Definition trail_ok (authorize : string → string → string → bool) (g : registry) : Prop :=
  ∀ id, match get g id with
        | Some r => r_id r = id ∧ replay authorize (r_tenant r) (audit g id) = Some (standing_of r)
        | None => audit g id = []
        end.

Lemma step_trail_ok authorize g g' : registry_step authorize g g' → trail_ok authorize g → trail_ok authorize g'.
Proof.
  intros [name version data source mimes size notes corpus tenant rid ts fresh now g2 o H
         |id to actor ts now g2 o H] Hg.
  - apply register_draft_inv in H as [[-> _]|(r & d & t & -> & _ & Hn & -> & Hs & _)]; [done|].
    intros id. specialize (Hg id). unfold registered. rewrite audit_audit. simpl.
    unfold get in *. simpl. destruct (String.eqb_spec (r_id r) id) as [<-|Hne].
    + rewrite lookup_insert_eq. rewrite Hn in Hg. unfold audit in *. simpl. rewrite Hg, Hs. done.
    + rewrite lookup_insert_ne by done. by rewrite app_nil_r.
  - apply promote_inv in H as [[-> _]|(r & a & t & Hr & Ht & H)]; [done|].
    intros i. pose proof (Hg id) as Hid. rewrite Hr in Hid. destruct Hid as [Hi Hrep].
    assert (Hne : audit g id ≠ []) by (intros E; by rewrite E in Hrep).
    specialize (Hg i). destruct H as [(Ha & -> & _)|(Ha & -> & _)].
    + unfold denied. rewrite audit_audit. simpl. destruct (String.eqb_spec id i) as [<-|];
        [|by rewrite app_nil_r].
      unfold get in *. simpl in *. rewrite Hr. split; [done|]. rewrite trail_snoc by done.
      rewrite Hrep. unfold replay_move, standing_of. simpl. by rewrite String.eqb_refl, Ht, Ha.
    + unfold promoted. rewrite audit_audit. simpl. unfold get in *. simpl.
      destruct (String.eqb_spec id i) as [<-|Hii].
      * rewrite lookup_insert_eq. split; [done|]. simpl. unfold audit in *. simpl.
        rewrite trail_snoc by done. rewrite Hrep. unfold replay_move, standing_of. simpl.
        rewrite String.eqb_refl, Ht, Ha. simpl.
        by rewrite (served_event_not_denial _ _ Ht), String.eqb_refl.
      * rewrite lookup_insert_ne by done. by rewrite app_nil_r.
Qed.

(** Every row's digest is the digest of the bytes stored under it. *)
Definition bytes_ok (g : registry) : Prop :=
  ∀ id r, get g id = Some r → ∃ d, ruleset_bytes g !! r_sha256 r = Some d ∧ sha256 d = r_sha256 r.
Definition addressed (g : registry) : Prop := ∀ k d, ruleset_bytes g !! k = Some d → sha256 d = k.
(** Rows keep their digest and stored bytes stay. *)
Definition grows (g g' : registry) : Prop :=
  (∀ id r, get g id = Some r → ∃ r', get g' id = Some r' ∧ r_sha256 r' = r_sha256 r) ∧
  (∀ k d, ruleset_bytes g !! k = Some d → ruleset_bytes g' !! k = Some d).

#[local] Instance grows_preorder : PreOrder grows.
Proof.
  clear sha256. split; [split; eauto|]. intros x y z [H1 H2] [H3 H4]. split; [|eauto].
  intros id r Hr. destruct (H1 _ _ Hr) as (r' & Hr' & E). destruct (H3 _ _ Hr') as (r2 & H & E2).
  exists r2. split; [done|congruence].
Qed.

Lemma insert_bytes_lookup sha d g :
  ∃ d', ruleset_bytes (insert_bytes sha d g) !! sha = Some d' ∧
        (ruleset_bytes g !! sha = Some d' ∨ ruleset_bytes g !! sha = None ∧ d' = d) ∧
        ∀ k, k ≠ sha → ruleset_bytes (insert_bytes sha d g) !! k = ruleset_bytes g !! k.
Proof.
  clear sha256. unfold insert_bytes. simpl. destruct (ruleset_bytes g !! sha) as [d'|] eqn:E.
  - exists d'. split; [done|]. eauto.
  - exists d. rewrite lookup_insert_eq. split_and!; [done|by right|].
    intros k Hk. by rewrite lookup_insert_ne.
Qed.

Lemma registered_bytes r d t g :
  ruleset_bytes (registered r d t g) = ruleset_bytes (insert_bytes (r_sha256 r) d g).
Proof. clear sha256. reflexivity. Qed.

Lemma step_bytes authorize g g' :
  registry_step authorize g g' → addressed g → bytes_ok g → addressed g' ∧ bytes_ok g' ∧ grows g g'.
Proof.
  intros [name version data source mimes size notes corpus tenant rid ts fresh now g2 o H
         |id to actor ts now g2 o H] Had Hok.
  - apply register_draft_inv in H as [[-> _]|(r & d & t & -> & _ & Hn & -> & Hs & Hsha)]; [done|].
    destruct (insert_bytes_lookup (r_sha256 r) d g) as (d' & Hd' & Hold & Hne).
    assert (Hg : ∀ k x, ruleset_bytes g !! k = Some x → ruleset_bytes (registered r d t g) !! k = Some x).
    { intros k x Hk. rewrite registered_bytes. destruct (decide (k = r_sha256 r)) as [->|Hkr];
        [|by rewrite Hne]. rewrite Hd'. destruct Hold as [?|[? _]]; congruence. }
    assert (Hd : sha256 d' = r_sha256 r) by (destruct Hold as [Ho|[_ ->]]; [by apply Had|done]).
    split; [|split; [|split; [|done]]].
    + intros k x Hk. rewrite registered_bytes in Hk. destruct (decide (k = r_sha256 r)) as [->|Hkr];
        [congruence|]. rewrite Hne in Hk by done. by apply Had.
    + intros i x. unfold get, registered. simpl. rewrite lookup_insert_Some.
      intros [[_ <-]|[_ Hx]]; [exists d'; by rewrite <- Hd'|]. destruct (Hok _ _ Hx) as (y & Hy & E).
      exists y. split; [by apply Hg|done].
    + intros i x Hx. exists x. split; [|done]. unfold get, registered in *. simpl.
      rewrite lookup_insert_ne; [done|congruence].
  - apply promote_inv in H as [[-> _]|(r & a & t & Hr & _ & [(_ & -> & _)|(_ & -> & _)])];
      [done|exact (conj Had (conj Hok (reflexivity (R := grows) g)))|].
    split; [done|]. split; [|split; [|done]].
    + intros i x. unfold get, promoted. simpl. rewrite lookup_insert_Some.
      intros [[_ <-]|[_ Hx]]; [exact (Hok id r Hr)|exact (Hok i x Hx)].
    + intros i x Hx. unfold get, promoted in *. simpl. destruct (decide (id = i)) as [<-|].
      * rewrite lookup_insert_eq. eexists; split; [done|]. simpl. congruence.
      * rewrite lookup_insert_ne by done. eauto.
Qed.

Lemma steps_bytes authorize g g' :
  rtc (registry_step authorize) g g' → addressed g → bytes_ok g → addressed g' ∧ bytes_ok g' ∧ grows g g'.
Proof.
  induction 1 as [|x y z Hxy _ IH]; intros Had Hok; [done|].
  destruct (step_bytes _ _ _ Hxy Had Hok) as (H1 & H2 & H3). destruct (IH H1 H2) as (? & ? & ?).
  split_and!; [done..|]. by etrans.
Qed.

Lemma served_stored g mime r :
  r ∈ active_for_scan g mime → r_status r ≠ "draft" ∧ ∃ id, get g id = Some r.
Proof.
  clear sha256. unfold active_for_scan, rows_by_id.
  rewrite list_elem_of_In, !List.filter_In, <- list_elem_of_In, elem_of_isort.
  intros [[Hin Hs] _]. split.
  - intros E. by rewrite E in Hs.
  - rewrite list_elem_of_In, in_map_iff in Hin. destruct Hin as ([id r'] & E & Hin). simpl in E. subst.
    exists id. unfold get. by apply elem_of_map_to_list, list_elem_of_In.
Qed.

(** A standing reached by replay is either the initial one or an authorized one. *)
Lemma replay_authorized authorize tenant l s :
  replay authorize tenant l = Some s → s_status s ≠ "draft" →
  ∃ actor, s_by s = Some actor ∧ authorize actor tenant (s_status s) = true.
Proof.
  clear sha256. destruct l as [|a l]; [done|]. simpl. destruct (_ && _); [|done]. intros H Hs.
  assert (Hgen : ∀ o, (∀ s0, o = Some s0 → s_status s0 = "draft" ∨
            ∃ actor, s_by s0 = Some actor ∧ authorize actor tenant (s_status s0) = true) →
          ∀ s0, foldl (replay_move authorize tenant) o l = Some s0 → s_status s0 = "draft" ∨
            ∃ actor, s_by s0 = Some actor ∧ authorize actor tenant (s_status s0) = true).
  { clear. induction l as [|x l IH]; intros o Ho s0; simpl; [apply Ho|]. apply IH.
    intros s1. unfold replay_move. destruct o as [s2|]; [|done]. simpl.
    destruct (a_actor x) as [actor|]; [|done]. destruct (a_from x) as [from|]; [|done]. simpl.
    destruct (negb _); [done|]. destruct (String.eqb _ _).
    - destruct (authorize _ _ _); [done|]. intros [= <-]. by apply Ho.
    - destruct (authorize _ _ _) eqn:Ea; [|done]. simpl. destruct (String.eqb _ _); [|done].
      intros [= <-]. right. by exists actor. }
  destruct (Hgen (Some {| s_status := "draft"; s_by := None; s_at := None |})) with (s0 := s); [|done..].
  intros s0 [= <-]. by left.
Qed.

Lemma load_bytes_sound g id d :
  load_bytes sha256 g id = Ok d → ∃ r, get g id = Some r ∧ sha256 d = r_sha256 r.
Proof.
  unfold load_bytes. destruct (get g id) as [r|]; [|done]. destruct (_ !! _) as [x|]; [|done].
  destruct (String.eqb_spec (sha256 x) (r_sha256 r)) as [E|]; [|done]. intros [= <-]. by exists r.
Qed.
End facts.

(** ** Properties *)

(** C7. Every ruleset a scan worker is served was put there by an authorized actor, and
    the audit trail proves it: whatever operations ran, and even if the stored bytes
    were replaced behind the registry's back, replaying the trail of a ruleset from
    its registration (moves of the transition table only, each by an actor the policy
    allows, with denials changing nothing) gives its current status, promoter and
    promotion time; a served one carries an authorized promoter. *)
Theorem served_rulesets_authorized sha256 authorize g :
  rtc (λ g g', registry_step sha256 authorize g g' ∨ ∃ m, g' = tampered m g) empty_registry g →
  (∀ id r, get g id = Some r → replay authorize (r_tenant r) (audit g id) = Some (standing_of r)) ∧
  ∀ mime r, r ∈ active_for_scan g mime →
    ∃ actor, r_promoted_by r = Some actor ∧ authorize actor (r_tenant r) (r_status r) = true.
Proof.
  intros H. assert (Hok : trail_ok authorize g).
  { assert (H0 : trail_ok authorize empty_registry) by done.
    induction H as [|x y z [Hxy|[m ->]] _ IH]; [done|..]; apply IH; [|done]. by eapply step_trail_ok. }
  assert (Hall : ∀ id r, get g id = Some r → replay authorize (r_tenant r) (audit g id) = Some (standing_of r)).
  { intros id r Hr. specialize (Hok id). rewrite Hr in Hok. apply Hok. }
  split; [done|]. intros mime r Hr. apply served_stored in Hr as [Hst Hr].
  destruct Hr as [id Hr]. exact (replay_authorized _ _ _ _ (Hall _ _ Hr) Hst).
Qed.

Definition plain_digest (s : string) : string := "#" +:+ s.
Definition secops (actor tenant to : string) : bool := allow_actors ["secops"] actor tenant to.
Definition drafted : registry :=
  (register_draft plain_digest (VStr "base") (VStr "1") (Some "rule a") (VStr "unit") VNone (VInt 64) VNone VNone
     "*" (VStr "r-1") VNone "f00" "2026-01-01T00:00:00Z" empty_registry).1.
Definition promote_now (to actor : string) (g : registry) : registry :=
  (promote "r-1" to (VStr actor) secops VNone "2026-01-02T00:00:00Z" g).1.
Definition shadowed : registry := promote_now "active" "mallory" (promote_now "shadow" "secops" drafted).

Lemma drafted_step : registry_step plain_digest secops empty_registry drafted.
Proof. eapply step_register. apply surjective_pairing. Qed.
Lemma promote_now_step to actor g : registry_step plain_digest secops g (promote_now to actor g).
Proof. eapply step_promote. apply surjective_pairing. Qed.

Lemma served_rulesets_authorized_witness :
  map r_status (active_for_scan (tampered ∅ shadowed) None) = ["shadow"] ∧
  ∀ mime r, r ∈ active_for_scan (tampered ∅ shadowed) mime →
    ∃ actor, r_promoted_by r = Some actor ∧ secops actor (r_tenant r) (r_status r) = true.
Proof.
  split; [vm_compute; reflexivity|].
  apply (served_rulesets_authorized plain_digest secops (tampered ∅ shadowed)).
  eapply rtc_l; [left; apply drafted_step|]. eapply rtc_l; [left; apply (promote_now_step "shadow" "secops")|].
  eapply rtc_l; [left; apply (promote_now_step "active" "mallory")|].
  apply rtc_once. right. by exists ∅.
Defined.

(** What a promotion does is decided in order: an unknown ruleset raises
    [KeyError]; a move the table does not list (any move out of [retired] among them)
    raises [IllegalTransition], both leaving the registry as it was; an unauthorized
    move raises [Unauthorized], changes no ruleset and leaves exactly one
    [promotion_denied] row naming the actor; otherwise the row is moved, attributed to
    the actor, and exactly one row is added to the trail. *)
Theorem promote_outcome id to actor ts authorize now g :
  _req_str (VStr actor) 256 true = Ok actor → _req_datetime (VStr ts) = Ok ts →
  promote id to (VStr actor) authorize (VStr ts) now g =
  match get g id with
  | None => (g, Raise KeyError)
  | Some r =>
      if negb (mem to (transitions_from (r_status r))) then (g, Raise IllegalTransition)
      else if authorize actor (r_tenant r) to
           then (promoted r id to actor ts g, Ok (moved to actor ts r))
           else (denied id to actor ts (r_status r) g, Raise Unauthorized)
  end ∧ transitions_from "retired" = [].
Proof.
  intros Ha Ht. split; [|done]. unfold promote, bind at 1, lift at 1. rewrite Ha.
  unfold bind at 1, lift at 1. rewrite Ht. unfold bind, transaction, read. rewrite promote_body_eq.
  destruct (get g id) as [r|] eqn:E; [|done].
  destruct (mem to (transitions_from (r_status r))) eqn:Em.
  - rewrite (transitions_known _ _ Em). simpl. destruct (authorize _ _ _); [|done].
    unfold get, promoted. simpl. by rewrite lookup_insert_eq.
  - by rewrite andb_false_r.
Qed.

Lemma promote_outcome_witness :
  promote "r-1" "active" (VStr "mallory") secops (VStr "2026-01-03T00:00:00Z") "" shadowed
  = (denied "r-1" "active" "mallory" "2026-01-03T00:00:00Z" "shadow" shadowed, Raise Unauthorized).
Proof.
  rewrite (proj1 (promote_outcome "r-1" "active" "mallory" "2026-01-03T00:00:00Z" secops "" shadowed
    eq_refl eq_refl)). vm_compute. reflexivity.
Defined.

(** The bytes of a registered ruleset can always be loaded and are the registered
    ones up to the digest, after any further operations; and if the stored bytes are
    replaced by anything, a load that succeeds still returns bytes with the digest of
    the registered data. *)
Theorem registered_bytes_roundtrip sha256 authorize g0 name version data source mimes size notes corpus tenant
    rid ts fresh now g1 r g :
  rtc (registry_step sha256 authorize) empty_registry g0 →
  register_draft sha256 name version (Some data) source mimes size notes corpus tenant rid ts fresh now g0
    = (g1, Ok r) →
  rtc (registry_step sha256 authorize) g1 g →
  (∃ d, load_bytes sha256 g (r_id r) = Ok d ∧ sha256 d = sha256 data) ∧
  (∀ m d, load_bytes sha256 (tampered m g) (r_id r) = Ok d → sha256 d = sha256 data).
Proof.
  intros H0 H1 H. apply steps_bytes in H0 as (Had & Hok & _); [|done|done].
  pose proof (step_register sha256 authorize _ _ _ _ _ _ _ _ _ _ _ _ _ _ _ _ H1) as Hstep.
  destruct (step_bytes _ _ _ _ Hstep Had Hok) as (Had1 & Hok1 & _).
  apply register_draft_inv in H1 as [[_ [e ?]]|(r' & d & t & [= <-] & [= <-] & _ & -> & _ & Hsha)]; [done|].
  apply steps_bytes in H as (_ & Hok2 & [Hrows _]); [|done|done].
  destruct (Hrows (r_id r) r) as (r2 & Hr2 & E); [by apply lookup_insert_eq|].
  split.
  - destruct (Hok2 _ _ Hr2) as (d & Hd & Ed). exists d. unfold load_bytes. rewrite Hr2, Hd, Ed, String.eqb_refl.
    split; [done|congruence].
  - intros m d Hl. apply load_bytes_sound in Hl as (r3 & Hr3 & E3). unfold get, tampered in *. simpl in *.
    congruence.
Qed.

Lemma registered_bytes_roundtrip_witness :
  (∃ d, load_bytes plain_digest shadowed "r-1" = Ok d ∧ plain_digest d = "#rule a") ∧
  load_bytes plain_digest (tampered {[ "#rule a" := "defanged" ]} shadowed) "r-1" = Raise IntegrityError.
Proof.
  split; [|vm_compute; reflexivity].
  destruct (get drafted "r-1") as [r|] eqn:E; [|vm_compute in E; discriminate].
  assert (Hid : r_id r = "r-1") by (vm_compute in E; by injection E as <-).
  rewrite <- Hid.
  refine (proj1 (registered_bytes_roundtrip plain_digest secops empty_registry (VStr "base") (VStr "1") "rule a"
    (VStr "unit") VNone (VInt 64) VNone VNone "*" (VStr "r-1") VNone "f00" "2026-01-01T00:00:00Z" drafted r shadowed
    (rtc_refl _ _) _ _)).
  - rewrite (surjective_pairing (register_draft _ _ _ _ _ _ _ _ _ _ _ _ _ _ _)). f_equal.
    vm_compute in E. injection E as <-. vm_compute. reflexivity.
  - eapply rtc_l; [apply (promote_now_step "shadow" "secops")|].
    apply rtc_once. apply (promote_now_step "active" "mallory").
Defined.
