(* ===== verification/SensorRegistry.v ===== *)
(** * Sensor registry (services/sensor-registry)

    store.py keeps one inventory row per sensor, fed by heartbeats; enrollment.py binds
    transport principals to sensors; app.py is the consumer loop that checks the second
    before writing the first, and the tenant-scoped reader API.  Tables keyed by a
    primary key are finite maps.  Receipt times are integers taken from the server
    clock, clock offsets are doubles; JSON columns hold the documents themselves. *)

From S2P Require Import Prelude Order PyVal OrderedMap.
Set Default Proof Using "Type".

(** ** Heartbeats *)

(** UTF-8 encodes every code point but a surrogate. *)
Definition _utf8_safe (s : string) : bool := string_forallb (λ c, negb (between 55296 57343 (code c))) s.

Definition required_str (d : dict) (k : string) : option string :=
  match dgetN k d with
  | VStr s => if str_truthy s && _utf8_safe s then Some s else None
  | _ => None
  end.

(** A measurement that a finite double holds; [Some None] is no measurement. *)
Definition offset_of (d : dict) : option (option float) :=
  match dgetN "clock_offset_ms" d with
  | VNone => Some None
  | VInt z => match float_of_Z z with
              | Ok f => if is_finite f then Some (Some f) else None
              | Raise _ => None
              end
  | VFloat f => if is_finite f then Some (Some f) else None
  | _ => None
  end.
Definition clock_status_of (d : dict) : option (option string) :=
  match dgetN "clock_status" d with
  | VNone => Some None
  | VStr s => if _utf8_safe s then Some (Some s) else None
  | _ => None
  end.

Record heartbeat := {
  h_uuid : string; h_tenant : string; h_site : string; h_observed_at : string; h_versions : dict;
  h_offset : option float; h_clock_status : option string
}.

(** The checks, keeping the fields they validate; [None] is a record to drop. *)
Definition _well_formed (record : val) : option heartbeat :=
  match record with
  | VDict d =>
      if negb (val_eq_str (dgetN "schema_version" d) "sensor-health.v1") then None
      else
        uuid ← required_str d "sensor_uuid"; tenant ← required_str d "tenant";
        site ← required_str d "site"; observed ← required_str d "observed_at";
        versions ← match dgetN "versions" d with VDict v => Some v | _ => None end;
        off ← offset_of d; status ← clock_status_of d;
        Some {| h_uuid := uuid; h_tenant := tenant; h_site := site; h_observed_at := observed;
                h_versions := versions; h_offset := off; h_clock_status := status |}
  | _ => None
  end.

(** ** The inventory *)

Record sensor := {
  sensor_uuid : string; tenant : string; site : string; tags : list string; groups : list string;
  capabilities : list string; versions : dict; last_seen : string; received_at : option Z;
  cert_fingerprint : option string; clock_offset_ms : option float; clock_status : option string;
  producer_verified : bool
}.
Abbreviation inventory := (gmap string sensor).

(** The upsert: a new row has the schema's empty enrollment columns, an existing row
    keeps its own. *)
Definition heartbeat_row (old : option sensor) (h : heartbeat) (verified : bool) (now : Z) : sensor :=
  {| sensor_uuid := h_uuid h; tenant := h_tenant h; site := h_site h;
     tags := match old with Some r => tags r | None => [] end;
     groups := match old with Some r => groups r | None => [] end;
     capabilities := match old with Some r => capabilities r | None => [] end;
     versions := h_versions h; last_seen := h_observed_at h; received_at := Some now;
     cert_fingerprint := match old with Some r => cert_fingerprint r | None => None end;
     clock_offset_ms := h_offset h; clock_status := h_clock_status h; producer_verified := verified |}.

Definition upsert_heartbeat (m : inventory) (record : val) (verified : bool) (now : Z) : inventory * bool :=
  match _well_formed record with
  | None => (m, false)
  | Some h =>
      let owner := m !! h_uuid h in
      if match owner with Some r => negb (String.eqb (tenant r) (h_tenant h)) | None => false end
      then (m, false)
      else (<[h_uuid h := heartbeat_row owner h verified now]> m, true)
  end.

Definition get (m : inventory) (uuid : string) (tenants : list string) : option sensor :=
  match m !! uuid with
  | Some r => if mem (tenant r) tenants then Some r else None
  | None => None
  end.
Definition list_sensors (m : inventory) (tenants : list string) : list sensor :=
  isort sensor_uuid (List.filter (λ r, mem (tenant r) tenants) (map snd (map_to_list m))).
Definition add_member (uuid : string) (gs : list (string * list string)) (g : string) : list (string * list string) :=
  od_set g (default [] (od_get g gs) ++ [uuid]) gs.
Definition list_groups (m : inventory) (tenants : list string) : list (string * list string) :=
  foldl (λ gs s, foldl (add_member (sensor_uuid s)) gs (groups s)) [] (list_sensors m tenants).

(** ** Enrollment *)

Abbreviation enrollments := (gmap string (string * string)).
Definition enroll (e : enrollments) (principal uuid tenant : string) : enrollments :=
  <[principal := (uuid, tenant)]> e.
Definition verifies (e : enrollments) (principal : string) (uuid tenant : val) : bool :=
  str_truthy principal &&
  match e !! principal with
  | Some (u, t) => val_eq_str uuid u && val_eq_str tenant t
  | None => false
  end.

(** ** The ingest loop *)

(** A message: the decoded payload ([VNone] for undecodable bytes), the principal the
    transport authenticated, and the server's clock when it is handled. *)
Record message := { m_value : val; m_principal : option string; m_now : Z }.

(** [None] rejects the message. *)
Definition _verify_producer (e : option enrollments) (principal : option string) (record : val) : option bool :=
  match e with
  | None => Some false
  | Some e =>
      match principal with
      | Some p =>
          if negb (str_truthy p) then None
          else
            let claim k := match record with VDict d => dgetN k d | _ => VNone end in
            if verifies e p (claim "sensor_uuid") (claim "tenant") then Some true else None
      | None => None
      end
  end.

Inductive verdict := accepted | dropped (reason : string).
Definition ingest_one (e : option enrollments) (m : inventory) (msg : message) : inventory * verdict :=
  let v := m_value msg in
  if match v with VNone => true | _ => false end then (m, dropped "undeserializable")
  else
    match _verify_producer e (m_principal msg) v with
    | None => (m, dropped "producer_identity")
    | Some verified =>
        let '(m', ok) := upsert_heartbeat m v verified (m_now msg) in
        (m', if ok then accepted else dropped "malformed")
    end.
Definition ingest_loop (e : option enrollments) (m : inventory) (msgs : list message) : inventory :=
  foldl (λ m msg, (ingest_one e m msg).1) m msgs.

(** ** The reader API *)

Record view := {
  v_row : sensor; v_skew_flag : bool; v_online : bool
}.
Definition sensor_view (r : sensor) (now : Z) (skew_threshold : float) (stale_after : Z) : view :=
  {| v_row := r;
     v_skew_flag := match clock_offset_ms r with
                    | Some off => SFltb skew_threshold (SFabs off)
                    | None => false
                    end;
     v_online := match received_at r with
                 | Some t => now - t <=? stale_after
                 | None => false
                 end |}.

Definition _grants (tokens : list (string * list string)) (authorization : string) : option (list string) :=
  if starts_with "Bearer " authorization then
    let token := drop_chars 7 authorization in
    if str_truthy token then assoc token tokens else None
  else None.

Inductive response :=
| resp_ok
| resp_unauthorized
| resp_not_found
| resp_sensors (l : list view)
| resp_groups (l : list (string * list string))
| resp_sensor (v : view).

(** [path] is the path of the parsed URL; the query string is not an input. *)
Definition do_GET (tokens : list (string * list string)) (skew_ms : float) (stale_s : Z) (m : inventory)
    (path authorization : string) (now : Z) : response :=
  let _view r := sensor_view r now skew_ms stale_s in
  if String.eqb path "/healthz" then resp_ok
  else
    match _grants tokens authorization with
    | None => resp_unauthorized
    | Some grants =>
        if String.eqb path "/sensors" then resp_sensors (map _view (list_sensors m grants))
        else if String.eqb path "/groups" then resp_groups (list_groups m grants)
        else if starts_with "/sensors/" path then
          match get m (drop_chars 9 path) grants with
          | None => resp_not_found
          | Some r => resp_sensor (_view r)
          end
        else resp_not_found
    end.

(** ** Facts *)

(** Rows are filed under their own uuid. *)
Definition inventory_ok (m : inventory) : Prop := ∀ u r, m !! u = Some r → sensor_uuid r = u.

(** The columns only an enrollment sets, and the owner. *)
Definition enrollment_of (r : sensor) := (tenant r, tags r, groups r, capabilities r, cert_fingerprint r).

Lemma upsert_heartbeat_inv m v b now m' ok :
  upsert_heartbeat m v b now = (m', ok) →
  m' = m ∧ ok = false ∨
  ∃ h, _well_formed v = Some h ∧ m' = <[h_uuid h := heartbeat_row (m !! h_uuid h) h b now]> m ∧ ok = true ∧
    ∀ r, m !! h_uuid h = Some r → tenant r = h_tenant h.
Proof.
  unfold upsert_heartbeat. destruct (_well_formed v) as [h|]; [|intros [= <- <-]; by left].
  destruct (m !! h_uuid h) as [r|] eqn:E.
  - destruct (String.eqb_spec (tenant r) (h_tenant h)) as [Ht|]; intros [= <- <-]; [right|by left].
    exists h. rewrite E. split_and!; [done..|]. congruence.
  - intros [= <- <-]. right. exists h. by rewrite E.
Qed.

Lemma well_formed_claims v h :
  _well_formed v = Some h →
  ∃ d, v = VDict d ∧ dgetN "sensor_uuid" d = VStr (h_uuid h) ∧ dgetN "tenant" d = VStr (h_tenant h).
Proof.
  assert (Hr : ∀ d k s, required_str d k = Some s → dgetN k d = VStr s).
  { intros d k s. unfold required_str. destruct (dgetN k d); try done. by case_match; intros [= ->]. }
  destruct v as [| | | | | |d]; try done. simpl. destruct (negb _); [done|].
  destruct (required_str d "sensor_uuid") as [u|] eqn:Eu; [|done].
  destruct (required_str d "tenant") as [t|] eqn:Et; [|done]. simpl.
  destruct (required_str d "site"); [|done]. destruct (required_str d "observed_at"); [|done]. simpl.
  destruct (dgetN "versions" d); try done. simpl. destruct (offset_of d); [|done].
  destruct (clock_status_of d); [|done]. intros [= <-]. exists d. simpl. split_and!; [done|by apply Hr..].
Qed.

Lemma ingest_one_spec e m msg m' v :
  ingest_one e m msg = (m', v) →
  m' = m ∨
  ∃ h verified, _verify_producer e (m_principal msg) (m_value msg) = Some verified ∧
    _well_formed (m_value msg) = Some h ∧
    m' = <[h_uuid h := heartbeat_row (m !! h_uuid h) h verified (m_now msg)]> m ∧
    ∀ r, m !! h_uuid h = Some r → tenant r = h_tenant h.
Proof.
  unfold ingest_one. cbv zeta. intros H. destruct (match m_value msg with VNone => true | _ => false end);
    [injection H as <- _; by left|].
  destruct (_verify_producer e (m_principal msg) (m_value msg)) as [b|] eqn:Eb; [|injection H as <- _; by left].
  destruct (upsert_heartbeat m (m_value msg) b (m_now msg)) as [m2 ok] eqn:Eu. injection H as -> _.
  apply upsert_heartbeat_inv in Eu as [[-> _]|(h & Hh & -> & _ & Ht)]; [by left|right; eauto 10].
Qed.

(** The producer behind an accepted heartbeat. *)
Definition vouched (e : option enrollments) (msg : message) (r : sensor) : Prop :=
  match e with
  | None => producer_verified r = false
  | Some e => producer_verified r = true ∧
      ∃ p, m_principal msg = Some p ∧ e !! p = Some (sensor_uuid r, tenant r)
  end.

Lemma verify_producer_spec e p v h b :
  _verify_producer e p v = Some b → _well_formed v = Some h →
  match e with
  | None => b = false
  | Some e => b = true ∧ ∃ q, p = Some q ∧ e !! q = Some (h_uuid h, h_tenant h)
  end.
Proof.
  unfold _verify_producer. destruct e as [e|]; [|by intros [= <-]].
  destruct p as [q|]; [|done]. destruct (negb _); [done|]. intros H Hw.
  apply well_formed_claims in Hw as (d & -> & Hu & Ht). rewrite Hu, Ht in H.
  unfold verifies in H. destruct (str_truthy q); [|done]. simpl in H.
  destruct (e !! q) as [[u t]|] eqn:Eq; [|done].
  destruct (val_eq_str (VStr (h_uuid h)) u) eqn:E1; [|done].
  destruct (val_eq_str (VStr (h_tenant h)) t) eqn:E2; [|done]. simpl in H. injection H as <-.
  apply val_eq_str_true in E1 as [= ->], E2 as [= ->]. split; [done|]. by exists q.
Qed.

Lemma ingest_one_rows e m msg :
  let m' := (ingest_one e m msg).1 in
  (∀ u r, m !! u = Some r → ∃ r', m' !! u = Some r' ∧ enrollment_of r' = enrollment_of r) ∧
  (∀ u r, m' !! u = Some r → m !! u = Some r ∨ sensor_uuid r = u ∧ received_at r = Some (m_now msg) ∧ vouched e msg r).
Proof.
  intros m'. destruct (ingest_one e m msg) as [m2 v] eqn:E. subst m'. simpl.
  apply ingest_one_spec in E as [->|(h & b & Hb & Hh & -> & Ht)]; [by eauto|].
  pose proof (verify_producer_spec _ _ _ _ _ Hb Hh) as Hv. split.
  - intros u r Hr. destruct (decide (h_uuid h = u)) as [<-|Hne].
    + rewrite lookup_insert_eq. eexists; split; [done|]. rewrite Hr. unfold enrollment_of. simpl.
      by rewrite (Ht _ Hr).
    + rewrite lookup_insert_ne by done. eauto.
  - intros u r. rewrite lookup_insert_Some. intros [[<- <-]|[_ Hr]]; [right|by left].
    split; [done|]. split; [done|]. unfold vouched. by destruct e.
Qed.

Lemma elem_of_list_sensors m tenants r :
  r ∈ list_sensors m tenants ↔ tenant r ∈ tenants ∧ ∃ u, m !! u = Some r.
Proof.
  unfold list_sensors. rewrite elem_of_isort, list_elem_of_In, List.filter_In, in_map_iff, mem_true.
  split.
  - intros [([u r'] & <- & Hin) Ht]. split; [done|]. exists u. by apply elem_of_map_to_list, list_elem_of_In.
  - intros [Ht [u Hu]]. split; [|done]. exists (u, r). split; [done|].
    by apply list_elem_of_In, elem_of_map_to_list.
Qed.

Lemma ingested_rows e msgs m :
  (∀ u r, m !! u = Some r → ∃ r', ingest_loop e m msgs !! u = Some r' ∧ enrollment_of r' = enrollment_of r) ∧
  (∀ u r, ingest_loop e m msgs !! u = Some r → m !! u = Some r ∨
     sensor_uuid r = u ∧ ∃ msg, msg ∈ msgs ∧ received_at r = Some (m_now msg) ∧ vouched e msg r).
Proof.
  unfold ingest_loop. revert m. induction msgs as [|msg msgs IH]; intros m; simpl; [by eauto|].
  destruct (ingest_one_rows e m msg) as [H1 H2]. destruct (IH (ingest_one e m msg).1) as [H3 H4]. split.
  - intros u r Hr. destruct (H1 _ _ Hr) as (r1 & Hr1 & E1). destruct (H3 _ _ Hr1) as (r2 & Hr2 & E2).
    exists r2. split; [done|congruence].
  - intros u r Hr. destruct (H4 _ _ Hr) as [Hm|(Hu & x & Hin & Ht & Hv)].
    + destruct (H2 _ _ Hm) as [?|(Hu & Ht & Hv)]; [by left|]. right. split; [done|].
      exists msg. split_and!; [by left|done..].
    + right. split; [done|]. exists x. split_and!; [by right|done..].
Qed.

(** ** Properties *)

(** A heartbeat is a claim, not proof.  Whatever messages are consumed, no known
    sensor disappears, changes tenant, or loses a column that only an enrollment sets;
    and every row that is new or different afterwards comes from one of the messages,
    carries the server's receipt time of that message, and, when enrollment is wired,
    was sent by a principal enrolled for exactly that sensor and tenant (without
    enrollment the row is marked unverified). *)
Theorem heartbeats_are_claims e m msgs :
  (∀ u r, m !! u = Some r → ∃ r', ingest_loop e m msgs !! u = Some r' ∧ enrollment_of r' = enrollment_of r) ∧
  (∀ u r, ingest_loop e m msgs !! u = Some r → m !! u = Some r ∨
     sensor_uuid r = u ∧ ∃ msg, msg ∈ msgs ∧ received_at r = Some (m_now msg) ∧ vouched e msg r).
Proof. apply ingested_rows. Qed.

(** The rows a response shows. *)
Definition shown (resp : response) : list sensor :=
  match resp with
  | resp_sensors l => map v_row l
  | resp_sensor v => [v_row v]
  | _ => []
  end.
Definition shown_members (resp : response) : list string :=
  match resp with resp_groups l => concat (map snd l) | _ => [] end.

Lemma list_groups_members m tenants u :
  u ∈ concat (map snd (list_groups m tenants)) → ∃ r, r ∈ list_sensors m tenants ∧ sensor_uuid r = u.
Proof.
  unfold list_groups. set (P (gs : list (string * list string)) := ∀ u, u ∈ concat (map snd gs) → ∃ r, r ∈ list_sensors m tenants ∧ sensor_uuid r = u).
  assert (Hset : ∀ (g : string) us (gs : list (string * list string)) x,
    x ∈ concat (map snd (od_set g us gs)) → x ∈ us ∨ x ∈ concat (map snd gs)).
  { intros g us gs x. induction gs as [|[g' us'] gs IH]; simpl; [by rewrite app_nil_r; left|].
    case_decide; simpl; rewrite !elem_of_app; [tauto|]. intros [?|Hx]; [tauto|].
    destruct (IH Hx); tauto. }
  assert (Hget : ∀ (g : string) (gs : list (string * list string)) x,
    x ∈ default [] (od_get g gs) → x ∈ concat (map snd gs)).
  { intros g gs x. induction gs as [|[g' us'] gs IH]; simpl; [done|].
    rewrite elem_of_app. case_decide; simpl; [by left|]. intros ?. right. by apply IH. }
  assert (Hadd : ∀ r gs gl, r ∈ list_sensors m tenants → P gs → P (foldl (add_member (sensor_uuid r)) gs gl)).
  { intros r gs gl Hr. revert gs. induction gl as [|g gl IH]; intros gs Hgs; simpl; [done|]. apply IH.
    intros x Hx. apply Hset in Hx as [[Hx| ->%list_elem_of_singleton]%elem_of_app|Hx]; [|by exists r|by apply Hgs].
    apply Hgs. by eapply Hget. }
  intros Hu. cut (P (foldl (λ gs s, foldl (add_member (sensor_uuid s)) gs (groups s)) [] (list_sensors m tenants)));
    [intros Hp; by apply Hp|].
  assert (Hall : ∀ l gs, (∀ r, r ∈ l → r ∈ list_sensors m tenants) → P gs →
    P (foldl (λ gs s, foldl (add_member (sensor_uuid s)) gs (groups s)) gs l)).
  { intros l. induction l as [|r l IH]; intros gs Hl Hgs; simpl; [done|]. apply IH.
    - intros x Hx. apply Hl. by right.
    - apply Hadd; [apply Hl; by left|done]. }
  apply Hall; [done|]. intros x Hx. by apply elem_of_nil in Hx.
Qed.

(** The reader API never crosses tenants: whatever the path, every sensor and group
    member in a response is a stored sensor of a tenant granted to the bearer token
    that was presented; without a known token the only answers are the health check
    and the refusal. *)
Theorem reader_sees_granted_tenants tokens skew stale m path authorization now :
  inventory_ok m →
  let resp := do_GET tokens skew stale m path authorization now in
  match _grants tokens authorization with
  | None => resp = resp_ok ∨ resp = resp_unauthorized
  | Some grants =>
      (∀ r, r ∈ shown resp → m !! sensor_uuid r = Some r ∧ tenant r ∈ grants) ∧
      (∀ u, u ∈ shown_members resp → ∃ r, m !! u = Some r ∧ tenant r ∈ grants)
  end.
Proof.
  intros Hm resp. subst resp. unfold do_GET.
  destruct (_grants tokens authorization) as [grants|]; [|case_match; auto].
  assert (Hl : ∀ r, r ∈ list_sensors m grants → m !! sensor_uuid r = Some r ∧ tenant r ∈ grants).
  { intros r [Ht [u Hu]]%elem_of_list_sensors. by rewrite (Hm _ _ Hu). }
  repeat case_match; simpl; split; try by intros ? ?%elem_of_nil.
  - intros r. rewrite List.map_map. simpl. rewrite List.map_id. apply Hl.
  - intros u Hu. apply list_groups_members in Hu as (r & Hr & <-). exists r. by apply Hl.
  - intros r ->%list_elem_of_singleton. simpl. unfold get in *.
    destruct (m !! _) as [r0|] eqn:Er; [|done]. destruct (mem _ _) eqn:Em; simplify_eq.
    apply mem_true in Em. by rewrite (Hm _ _ Er).
Qed.

Definition heartbeat_doc (uuid ten : string) (off : Z) : val :=
  VDict [("schema_version", VStr "sensor-health.v1"); ("sensor_uuid", VStr uuid); ("tenant", VStr ten);
         ("site", VStr "s"); ("observed_at", VStr "t"); ("versions", VDict []); ("clock_offset_ms", VInt off)].
Definition two_tenants : inventory := ingest_loop None ∅
  [ {| m_value := heartbeat_doc "u1" "acme" 5; m_principal := None; m_now := 10 |};
    {| m_value := heartbeat_doc "u2" "umbra" 5000; m_principal := None; m_now := 11 |} ].

Lemma reader_sees_granted_tenants_witness :
  let resp := do_GET [("tok", ["acme"])] (lit "100") 90 two_tenants "/sensors" "Bearer tok" 20 in
  map sensor_uuid (shown resp) = ["u1"] ∧
  ∀ r, r ∈ shown resp → two_tenants !! sensor_uuid r = Some r ∧ tenant r ∈ ["acme"].
Proof.
  intros resp. split; [vm_compute; reflexivity|].
  apply (reader_sees_granted_tenants [("tok", ["acme"])] (lit "100") 90 two_tenants "/sensors" "Bearer tok" 20).
  intros u r H. destruct (proj2 (ingested_rows None _ ∅) u r H) as [H0|H0]; [by rewrite lookup_empty in H0|].
  apply H0.
Defined.
