(* ===== verification/ObjectKeys.v ===== *)
(** * Tenant-safe object keys (shared/object_keys.py, services/capture-agent/agent.py)

    The key discipline shared by the packet-capture and the carved-file planes, and the
    capture agent's use of it: validation of arm directives, the keys captures are
    uploaded to, the choice of ring files, local budgets, and the announcement of
    carved files.  The SHA-256 of a string as 64 hexadecimal digits is a parameter;
    file modification times are integers. *)

From S2P Require Import Prelude Order PyVal PyString.
Set Default Proof Using "Type".

(** ** shared/object_keys.py *)

Definition seg_char (c : ascii) : bool := is_alnum c || one_of "._-" c.
Definition key_char (c : ascii) : bool := seg_char c || Ascii.eqb c "/".
Definition newline : ascii := "010".

(** [_SAFE_KEY.match]: the anchor [$] also matches before a final line feed. *)
Definition safe_body (s : string) : bool := string_forallb key_char s && between 1 256 (len s).
Definition _SAFE_KEY (s : string) : bool :=
  safe_body s ||
  match String.rev s with
  | String c r => Ascii.eqb c newline && safe_body (String.rev r)
  | EmptyString => false
  end.

Definition DEFAULT_TENANT_SEGMENT : string := "_no-tenant".
Definition STAGING_PREFIX : string := "incoming".
Definition ARTIFACT_PREFIX : string := "artifacts".

Definition valid_key (ref : val) : bool :=
  match ref with
  | VStr s => _SAFE_KEY s && negb (contains ".." s) && negb (starts_with "/" s)
  | _ => false
  end.

Definition in_namespace (prefix : string) (ref : val) : bool :=
  match ref with VStr s => starts_with prefix s | _ => false end.
Definition in_tenant_namespace (ref : val) (tseg bucket : string) : bool :=
  in_namespace (bucket +:+ "/" +:+ tseg +:+ "/") ref.
Definition segment_key (tseg name bucket : string) : string := bucket +:+ "/" +:+ tseg +:+ "/" +:+ name.
Definition accepted_key (tseg name bucket : string) : string :=
  bucket +:+ "/" +:+ tseg +:+ "/" +:+ ARTIFACT_PREFIX +:+ "/" +:+ name.
Definition in_accepted_namespace (ref : val) (tseg bucket : string) : bool :=
  in_namespace (bucket +:+ "/" +:+ tseg +:+ "/" +:+ ARTIFACT_PREFIX +:+ "/") ref.

Definition key_tenant_segment (ref : val) (bucket : string) : option string :=
  if negb (valid_key ref) then None
  else match ref with
       | VStr s =>
           match split_char "/" s with
           | b :: t :: _ :: _ => if String.eqb b bucket && str_truthy t then Some t else None
           | _ => None
           end
       | _ => None
       end.

Definition is_hex (c : ascii) : bool := is_digit c || between 97 102 (code c).
(** [_SHA256.fullmatch] *)
Definition _SHA256 (s : string) : bool := string_forallb is_hex s && (len s =? 64).
Definition staging_sha (ref : val) (bucket : string) : option string :=
  if negb (valid_key ref) then None
  else match ref with
       | VStr s =>
           match split_char "/" s with
           | [b; t; p; sha] =>
               if String.eqb b bucket && str_truthy t && String.eqb p STAGING_PREFIX && _SHA256 sha
               then Some sha else None
           | _ => None
           end
       | _ => None
       end.

(** [re.sub(..., "", s).replace("..", "").strip(".")[:n]] *)
Definition clean_part (n : nat) (s : string) : string :=
  take_chars n (strip_by (Ascii.eqb ".") (drop_dots (string_filter seg_char s))).

Section keys.
Context (sha256 : string → string) (repr : val → string).

Definition tenant_segment (tenant : val) : string :=
  let raw := py_str repr tenant in
  if match tenant with VNone => true | _ => false end || negb (str_truthy (strip raw))
  then DEFAULT_TENANT_SEGMENT
  else
    let safe := clean_part 32 raw in
    (if str_truthy safe then safe else "t") +:+ "-" +:+ sha256 raw.

Definition file_key (tenant : val) (name bucket : string) : string :=
  segment_key (tenant_segment tenant) name bucket.
Definition staging_key (tenant : val) (name bucket : string) : string :=
  bucket +:+ "/" +:+ tenant_segment tenant +:+ "/" +:+ STAGING_PREFIX +:+ "/" +:+ name.
End keys.

(** ** Directives of the capture agent *)

Definition PROFILE_DATASET : list (string * (string * string)) :=
  [("ip", ("ndr-capture-ip", "ip")); ("ja4", ("ndr-capture-ja4", "string"));
   ("sni", ("ndr-capture-sni", "string")); ("dns", ("ndr-capture-dns", "string"))].

(** The agent's environment; durations in seconds, instants in microseconds. *)
Record agent_env := {
  LOCAL_MAX_CONCURRENT : Z; DEFAULT_TTL_SECS : Z; DEFAULT_MAX_BYTES : Z;
  LOOKBACK_FORWARD_BUFFER : Z; MIN_FILE_BYTES : Z; MAX_FILE_BYTES : Z; FILES_BUCKET : string
}.
Definition default_env : agent_env :=
  {| LOCAL_MAX_CONCURRENT := 2; DEFAULT_TTL_SECS := 120; DEFAULT_MAX_BYTES := 104857600;
     LOOKBACK_FORWARD_BUFFER := 60; MIN_FILE_BYTES := 1; MAX_FILE_BYTES := 67108864;
     FILES_BUCKET := "ndr-files" |}.

Definition for_this_sensor (d : dict) (my_sensor : string) : bool :=
  val_eq_str (dgetN "sensor_id" d) my_sensor.

(** [(d.get(k) or "").strip()] *)
Definition stripped (k : string) (d : dict) : res string :=
  match py_or (dgetN k d) (VStr "") with
  | VStr s => Ok (strip s)
  | _ => Raise AttributeError
  end.
Definition profile_of (d : dict) : val := dget_or "capture_profile" (VStr "ip") d.
Definition hashable (v : val) : bool := match v with VList _ | VDict _ => false | _ => true end.

Definition validate (d : dict) : res (bool * string) :=
  let profile := profile_of d in
  value ← stripped "value" d;
  check (hashable profile) TypeError;;
  if negb (val_in_strs profile (map fst PROFILE_DATASET)) then Ok (false, "unknown profile")
  else if negb (str_truthy value) then Ok (false, "empty value")
  else if string_existsb is_space value then Ok (false, "value has whitespace")
  else Ok (true, "ok").
Definition dataset_for (profile : string) : res (string * string) :=
  match assoc profile PROFILE_DATASET with Some d => Ok d | None => Raise KeyError end.

Section agent.
Context (sha256 : string → string) (repr : val → string).

Definition _sanitize (v : val) : string :=
  let s := clean_part 128 (py_str repr v) in if str_truthy s then s else "cap".

Definition fallback_key (d : dict) : string :=
  "ndr-pcap/" +:+ tenant_segment sha256 repr (dgetN "tenant_id" d) +:+ "/"
  +:+ _sanitize (py_or (dgetN "finding_id" d) (dgetN "value" d)) +:+ "-" +:+ _sanitize (profile_of d) +:+ ".pcap".
Definition pcap_key (d : dict) : string :=
  let tseg := tenant_segment sha256 repr (dgetN "tenant_id" d) in
  match dgetN "pcap_ref" d with
  | VStr ref =>
      if valid_key (VStr ref) && in_tenant_namespace (VStr ref) tseg "ndr-pcap" then ref else fallback_key d
  | _ => fallback_key d
  end.

(** [s.rpartition(c)], without the separator; [None] when it does not occur. *)
Fixpoint rpartition (c : ascii) (s : string) : option (string * string) :=
  match s with
  | EmptyString => None
  | String d s' =>
      match rpartition c s' with
      | Some (a, b) => Some (String d a, b)
      | None => if Ascii.eqb c d then Some ("", s') else None
      end
  end.
Definition marked_key (base : string) : string :=
  match rpartition "." base with
  | Some (root, ext) => if str_truthy root then root +:+ "-lookback." +:+ ext else base +:+ "-lookback"
  | None => base +:+ "-lookback"
  end.
Definition lookback_key (d : dict) : string := marked_key (pcap_key d).
End agent.

Definition pcaps_between (lo : Z) (hi : option Z) (entries : list (string * Z)) : list string :=
  map fst (List.filter (λ e : string * Z, (lo <=? e.2) && match hi with Some h => e.2 <=? h | None => true end)
    (isort snd entries)).
Definition window_pcaps (entries : list (string * Z)) (start_ts : Z) : list string :=
  pcaps_between (start_ts - 1000000) None entries.
Definition lookback_pcaps (env : agent_env) (entries : list (string * Z)) (trigger lookback : Z) : list string :=
  pcaps_between (trigger - lookback) (Some (trigger + LOOKBACK_FORWARD_BUFFER env * 1000000)) entries.

(** [int(x)] with the two exceptions the callers catch turned into [None]. *)
Definition try_int (v : val) : res (option Z) :=
  match py_int v with
  | Ok z => Ok (Some z)
  | Raise TypeError | Raise ValueError => Ok None
  | Raise e => Raise e
  end.
Definition wants_lookback (d : dict) : res bool :=
  n ← try_int (py_or (dgetN "lookback_secs" d) (VInt 0));
  Ok (match n with Some z => 0 <? z | None => false end || val_eq_str (dgetN "mode" d) "lookback").
Definition ttl_secs (env : agent_env) (d : dict) : res Z :=
  default (DEFAULT_TTL_SECS env) <$> try_int (py_or (dgetN "ttl_secs" d) (VInt (DEFAULT_TTL_SECS env))).
Definition max_bytes (env : agent_env) (d : dict) : res Z :=
  default (DEFAULT_MAX_BYTES env) <$> try_int (py_or (dgetN "max_bytes" d) (VInt (DEFAULT_MAX_BYTES env))).

Definition capture_bpf (d : dict) : res (option string) :=
  if val_eq_str (profile_of d) "ip" then
    value ← stripped "value" d;
    Ok (if str_truthy value && negb (string_existsb is_space value) then Some ("host " +:+ value) else None)
  else Ok None.

Definition budget_ok (env : agent_env) (active_jobs : Z) : bool * string :=
  if LOCAL_MAX_CONCURRENT env <=? active_jobs then (false, "agent_max_concurrent") else (true, "ok").
Definition uploader_healthy (active_jobs since_progress stale : Z) : bool :=
  if active_jobs <=? 0 then true else since_progress <? stale.

(** ** Carved files *)

Definition basename (s : string) : string :=
  match rpartition "/" s with Some (_, b) => b | None => s end.
Definition sha_from_name (name : string) : option string :=
  let base := basename name in
  if contains "." base then None
  else
    let base := lower base in
    if (len base =? 64) && string_forallb is_hex base then Some base else None.
Definition should_ship_file (env : agent_env) (size : Z) (sha : option string) (seen : list string) : bool :=
  match sha with
  | Some s =>
      if negb (str_truthy s) || mem s seen then false
      else (MIN_FILE_BYTES env <=? size) && (size <=? MAX_FILE_BYTES env)
  | None => false
  end.
Definition file_object_key sha256 repr (env : agent_env) (tenant : val) (sha : string) : string :=
  staging_key sha256 repr tenant sha (FILES_BUCKET env).
Definition file_extracted_event sha256 repr (env : agent_env) (sensor_id sha : string) (size : Z) (tenant : val)
    (mime : string) : dict :=
  [("sensor_id", VStr sensor_id); ("sha256", VStr sha); ("size", VInt size); ("mime", VStr mime);
   ("tenant_id", tenant); ("state", VStr "bytes_available");
   ("object_ref", VStr (file_object_key sha256 repr env tenant sha))].

(** ** Facts *)

Definition not_dot (c : ascii) : bool := negb (Ascii.eqb c ".").

Lemma clean_part_spec n s :
  string_forallb seg_char (clean_part n s) = true ∧ no_dots (clean_part n s) ∧
  (String.length (clean_part n s) <= n)%nat.
Proof.
  unfold clean_part. set (f := string_filter seg_char s).
  assert (Hp : substring_of (take_chars n (strip_by (Ascii.eqb ".") (drop_dots f))) (drop_dots f)).
  { etrans; [apply take_part|apply strip_part]. }
  split_and!.
  - eapply forallb_part; [exact Hp|]. apply drop_dots_forallb, forallb_filter.
  - eapply no_dots_part; [exact Hp|]. apply drop_dots_clean.
  - apply slength_take.
Qed.

Lemma is_hex_seg c : is_hex c = true → seg_char c = true ∧ not_dot c = true.
Proof.
  destruct c as [[] [] [] [] [] [] [] []]; vm_compute; intros H; first [discriminate H | by split].
Qed.
Lemma seg_char_key c : seg_char c = true → key_char c = true.
Proof. unfold key_char. by intros ->. Qed.

Section facts.
Context (sha256 : string → string) (repr : val → string).
Context (sha_length : ∀ s, String.length (sha256 s) = 64%nat).
Context (sha_hex : ∀ s, string_forallb is_hex (sha256 s) = true).

Lemma sha_plain s : string_forallb seg_char (sha256 s) = true ∧ no_dots (sha256 s).
Proof using sha_hex.
  split; [|apply no_dots_none]; (eapply forallb_weaken; [|apply sha_hex]); intros c; apply is_hex_seg.
Qed.

(** A tenant segment: safe characters, no pair of dots, at most 97 characters. *)
Lemma tenant_segment_spec tenant :
  let t := tenant_segment sha256 repr tenant in
  string_forallb seg_char t = true ∧ no_dots t ∧ (1 <= String.length t <= 97)%nat.
Proof using sha_length sha_hex.
  intros t. subst t. unfold tenant_segment. destruct (_ || _); [repeat split; simpl; lia|].
  destruct (clean_part_spec 32 (py_str repr tenant)) as (H1 & H2 & H3).
  destruct (sha_plain (py_str repr tenant)) as [H4 H5].
  assert (Hgen : ∀ a, string_forallb seg_char a = true → no_dots a → (String.length a <= 32)%nat →
    string_forallb seg_char (a +:+ "-" +:+ sha256 (py_str repr tenant)) = true ∧
    no_dots (a +:+ "-" +:+ sha256 (py_str repr tenant)) ∧
    (1 <= String.length (a +:+ "-" +:+ sha256 (py_str repr tenant)) <= 97)%nat).
  { intros a Ha Hd Hl. split_and!.
    - rewrite forallb_sapp, Ha. simpl. by rewrite H4.
    - by apply no_dots_sep.
    - rewrite slength_app. simpl. rewrite sha_length. lia.
    - rewrite slength_app. simpl. rewrite sha_length. lia. }
  destruct (str_truthy _); [by apply Hgen|]. apply Hgen; [done|done|simpl; lia].
Qed.

Lemma sanitize_spec v :
  string_forallb seg_char (_sanitize repr v) = true ∧ no_dots (_sanitize repr v) ∧
  (String.length (_sanitize repr v) <= 128)%nat.
Proof.
  clear sha256 sha_length sha_hex. unfold _sanitize.
  destruct (clean_part_spec 128 (py_str repr v)) as (H1 & H2 & H3).
  destruct (str_truthy _); [done|]. split_and!; [done|done|simpl; lia].
Qed.

(** A profile the directive validation lets through. *)
Lemma valid_profile d m :
  validate d = Ok (true, m) → ∃ p, profile_of d = VStr p ∧ p ∈ ["ip"; "ja4"; "sni"; "dns"].
Proof.
  clear sha256 repr sha_length sha_hex. unfold validate. intros H. apply bind_ok_inv in H as (v & _ & H).
  apply bind_ok_inv in H as (u & _ & H). destruct (val_in_strs _ _) eqn:E; [|done].
  apply val_in_strs_true in E as (p & -> & Hp). by exists p.
Qed.

Lemma fallback_in_namespace d :
  in_tenant_namespace (VStr (fallback_key sha256 repr d)) (tenant_segment sha256 repr (dgetN "tenant_id" d))
    "ndr-pcap" = true.
Proof.
  clear sha_length sha_hex. unfold fallback_key, in_tenant_namespace, in_namespace.
  apply starts_with_inv_app. eexists. simpl. rewrite !sapp_assoc. reflexivity.
Qed.

Lemma pcap_key_in_namespace d :
  in_tenant_namespace (VStr (pcap_key sha256 repr d)) (tenant_segment sha256 repr (dgetN "tenant_id" d))
    "ndr-pcap" = true.
Proof.
  clear sha_length sha_hex. unfold pcap_key.
  destruct (dgetN "pcap_ref" d); try apply fallback_in_namespace.
  destruct (_ && _) eqn:E; [|apply fallback_in_namespace]. by apply andb_true_iff in E as [_ E].
Qed.

Lemma fallback_valid d m : validate d = Ok (true, m) → valid_key (VStr (fallback_key sha256 repr d)) = true.
Proof using sha_length sha_hex.
  intros H%valid_profile. destruct H as (p & Hp & Hin). unfold fallback_key. rewrite Hp.
  set (t := tenant_segment sha256 repr (dgetN "tenant_id" d)).
  destruct (tenant_segment_spec (dgetN "tenant_id" d)) as (T1 & T2 & T3). fold t in T1, T2, T3.
  set (f := _sanitize repr (py_or (dgetN "finding_id" d) (dgetN "value" d))).
  destruct (sanitize_spec (py_or (dgetN "finding_id" d) (dgetN "value" d))) as (F1 & F2 & F3).
  fold f in F1, F2, F3.
  assert (Hpr : ∃ q, _sanitize repr (VStr p) = q ∧ q ∈ ["ip"; "ja4"; "sni"; "dns"]).
  { exists p. split; [|done]. rewrite !elem_of_cons, elem_of_nil in Hin. by destruct_or! Hin; subst. }
  destruct Hpr as (q & -> & Hq).
  assert (Hq3 : string_forallb key_char q = true ∧ no_dots (q +:+ ".pcap") ∧ (String.length q <= 3)%nat).
  { rewrite !elem_of_cons, elem_of_nil in Hq. destruct_or! Hq; subst; split_and!; done || (simpl; lia). }
  destruct Hq3 as (Q1 & Q2 & Q3).
  assert (Hseg : ∀ s, string_forallb seg_char s = true → string_forallb key_char s = true).
  { intros s. apply forallb_weaken, seg_char_key. }
  unfold valid_key. rewrite !andb_true_iff, !negb_true_iff. split_and!.
  - unfold _SAFE_KEY, safe_body. apply orb_true_iff. left. apply andb_true_iff. split.
    + do 3 (rewrite ?forallb_sapp; simpl). by rewrite (Hseg t), (Hseg f), Q1.
    + apply andb_true_iff. do 4 (rewrite ?slength_app; simpl). split; apply Z.leb_le; lia.
  - apply (no_dots_sep "ndr-pcap" "/"); [done|done|]. apply (no_dots_sep t "/"); [done|done|].
    by apply (no_dots_sep f "-").
  - reflexivity.
Qed.

Lemma rpartition_spec c s :
  match rpartition c s with
  | Some (a, b) => s = a +:+ String c b
  | None => string_forallb (λ d, negb (Ascii.eqb c d)) s = true
  end.
Proof.
  clear. induction s as [|d s IH]; simpl; [done|]. destruct (rpartition c s) as [[a b]|].
  - simpl. by rewrite IH at 1.
  - destruct (Ascii.eqb_spec c d) as [->|]; [done|]. by rewrite IH.
Qed.

(** A part without the separator stays in front of the last one. *)
Lemma rpartition_app c p s :
  string_forallb (λ d, negb (Ascii.eqb c d)) p = true →
  rpartition c (p +:+ s) = (λ ab : string * string, (p +:+ ab.1, ab.2)) <$> rpartition c s.
Proof.
  clear. induction p as [|d p IH]; simpl; [by destruct (rpartition c s) as [[]|]|].
  intros H. to_prop. rewrite IH by done. by destruct (rpartition c s) as [[]|]; simpl; [|rewrite H].
Qed.

Lemma marked_longer s : (String.length s < String.length (marked_key s))%nat.
Proof.
  clear. unfold marked_key. pose proof (rpartition_spec "." s) as H.
  destruct (rpartition "." s) as [[a b]|]; [|rewrite slength_app; simpl; lia].
  destruct (str_truthy a); rewrite !slength_app; simpl; [|lia]. subst. rewrite slength_app. simpl. lia.
Qed.

Lemma marked_prefix p s :
  string_forallb (λ d, negb (Ascii.eqb "." d)) p = true → str_truthy p = true →
  starts_with p s = true → starts_with p (marked_key s) = true.
Proof.
  clear. intros Hp Hne (t & ->)%starts_with_inv. unfold marked_key. rewrite rpartition_app by done.
  destruct (rpartition "." t) as [[a b]|]; simpl.
  - assert (str_truthy (p +:+ a) = true) as -> by by destruct p.
    apply starts_with_inv_app. eexists. by rewrite !sapp_assoc.
  - apply starts_with_inv_app. eexists. by rewrite !sapp_assoc.
Qed.
End facts.

Lemma split_of_key sha256 repr (Hlen : ∀ s, String.length (sha256 s) = 64%nat)
    (Hhex : ∀ s, string_forallb is_hex (sha256 s) = true) tenant (p rest : string) :
  string_forallb (λ d, negb (Ascii.eqb "/" d)) p = true →
  split_char "/" ("ndr-files/" +:+ tenant_segment sha256 repr tenant +:+ "/" +:+ p +:+ "/" +:+ rest)
  = "ndr-files" :: tenant_segment sha256 repr tenant :: p :: split_char "/" rest.
Proof.
  intros Hp. change (split_char "/" ("ndr-files" +:+ String "/" (tenant_segment sha256 repr tenant +:+
    String "/" (p +:+ String "/" rest))) = "ndr-files" :: tenant_segment sha256 repr tenant :: p :: split_char "/" rest).
  rewrite (split_app "/" "ndr-files") by done. f_equal.
  destruct (tenant_segment_spec sha256 repr Hlen Hhex tenant) as (H1 & _ & _).
  rewrite (split_app "/" (tenant_segment _ _ _)).
  - f_equal. by apply (split_app "/" p).
  - eapply forallb_weaken; [|exact H1]. intros [[] [] [] [] [] [] [] []]; vm_compute; intros H; done.
Qed.

Lemma sha_chars sha : _SHA256 sha = true → string_forallb is_hex sha = true ∧ String.length sha = 64%nat.
Proof. unfold _SHA256. intros H. to_prop. split; [done|lia]. Qed.

(** Where a look-back upload of an extensionless advertised key goes when the tenant's
    segment has a dot: the marker lands inside the segment, outside the namespace. *)
Definition zeros : string := "0000000000000000000000000000000000000000000000000000000000000000".
Definition no_repr (v : val) : string := "?".
Definition dotted_directive : dict :=
  [("tenant_id", VStr "acme.corp"); ("value", VStr "10.0.0.1");
   ("pcap_ref", VStr ("ndr-pcap/acme.corp-" +:+ zeros +:+ "/capture"))].
Lemma lookback_key_can_leave_namespace :
  let seg := tenant_segment (λ _, zeros) no_repr (VStr "acme.corp") in
  validate dotted_directive = Ok (true, "ok") ∧
  in_tenant_namespace (VStr (pcap_key (λ _, zeros) no_repr dotted_directive)) seg "ndr-pcap" = true ∧
  in_tenant_namespace (VStr (lookback_key (λ _, zeros) no_repr dotted_directive)) seg "ndr-pcap" = false.
Proof. vm_compute. auto. Qed.

(** A key that ends in a line feed passes the charset check. *)
Lemma valid_key_accepts_newline : valid_key (VStr ("ndr-pcap/t/x.pcap" +:+ String newline "")) = true.
Proof. vm_compute. reflexivity. Qed.

(** ** Properties *)

(** Captures are filed under the directive's own tenant: the upload key is always
    inside the namespace of the directive's tenant, whatever reference the directive
    advertises; for a directive that passes validation it is a safe key (bounded
    length, safe characters, no traversal); and the look-back key never overwrites it
    and stays in the namespace when the tenant's segment has no dot. *)
Theorem capture_keys_stay_in_tenant sha256 repr d :
  (∀ s, String.length (sha256 s) = 64%nat) → (∀ s, string_forallb is_hex (sha256 s) = true) →
  let seg := tenant_segment sha256 repr (dgetN "tenant_id" d) in
  let key := pcap_key sha256 repr d in
  in_tenant_namespace (VStr key) seg "ndr-pcap" = true ∧
  (∀ m, validate d = Ok (true, m) → valid_key (VStr key) = true) ∧
  lookback_key sha256 repr d ≠ key ∧
  (string_forallb not_dot seg = true →
     in_tenant_namespace (VStr (lookback_key sha256 repr d)) seg "ndr-pcap" = true).
Proof.
  intros Hlen Hhex seg key. pose proof (pcap_key_in_namespace sha256 repr d) as Hns. split_and!.
  - exact Hns.
  - intros m Hm. subst key. unfold pcap_key. pose proof (fallback_valid sha256 repr Hlen Hhex d m Hm) as Hf.
    destruct (dgetN "pcap_ref" d); try exact Hf. destruct (valid_key _ && _) eqn:E; [|exact Hf].
    by apply andb_true_iff in E as [E _].
  - intros E. pose proof (marked_longer key) as H. unfold lookback_key in E. fold key in E. rewrite E in H. lia.
  - intros Hdot. unfold lookback_key. fold key.
    apply (marked_prefix ("ndr-pcap" +:+ "/" +:+ seg +:+ "/") key); [|done|exact Hns].
    do 2 (rewrite ?forallb_sapp; simpl). rewrite andb_true_r.
    eapply forallb_weaken; [|exact Hdot]. intros c. unfold not_dot. by rewrite Ascii.eqb_sym.
Qed.

Definition forged_directive : dict :=
  [("tenant_id", VStr "acme"); ("value", VStr "10.0.0.1"); ("finding_id", VStr "../../f1");
   ("pcap_ref", VStr "ndr-pcap/other/x.pcap")].
Lemma capture_keys_stay_in_tenant_witness :
  pcap_key (λ _, zeros) no_repr forged_directive = "ndr-pcap/acme-" +:+ zeros +:+ "/f1-ip.pcap" ∧
  in_tenant_namespace (VStr (pcap_key (λ _, zeros) no_repr forged_directive))
    (tenant_segment (λ _, zeros) no_repr (VStr "acme")) "ndr-pcap" = true.
Proof.
  split; [vm_compute; reflexivity|].
  apply (capture_keys_stay_in_tenant (λ _, zeros) no_repr forged_directive); reflexivity.
Defined.

(** Tenants do not share a key namespace unless their digests collide: two tenant
    ids get the same segment only if both are absent or blank, or their texts have the
    same SHA-256 (the readable label in front never decides it). *)
Theorem tenant_segments_distinct sha256 repr a b :
  (∀ s, String.length (sha256 s) = 64%nat) → tenant_segment sha256 repr a = tenant_segment sha256 repr b →
  (tenant_segment sha256 repr a = DEFAULT_TENANT_SEGMENT) ∨ sha256 (py_str repr a) = sha256 (py_str repr b).
Proof.
  intros Hlen. unfold tenant_segment.
  destruct (_ || negb (str_truthy (strip (py_str repr a)))); [by left|].
  destruct (_ || negb (str_truthy (strip (py_str repr b)))); intros H.
  - left. apply (f_equal String.length) in H. rewrite slength_app in H. simpl in H. rewrite Hlen in H. lia.
  - right. apply (f_equal String.rev) in H. rewrite !rev_sapp in H.
    assert (Hr : ∀ x y u v, String.length x = String.length y → x +:+ u = y +:+ v → x = y).
    { intros x. induction x as [|c x IH]; intros [|c' y] u v Hl E; try done. simpl in *.
      injection E as -> E. f_equal. apply (IH y u v); [lia|done]. }
    rewrite !sapp_assoc in H. apply Hr in H; [|by rewrite !slength_rev, !Hlen].
    by rewrite <- (rev_rev (sha256 (py_str repr a))), H, rev_rev.
Qed.

Lemma tenant_segments_distinct_witness :
  tenant_segment (λ _, zeros) no_repr (VStr "a b") = tenant_segment (λ _, zeros) no_repr (VStr "ab") ∧
  (tenant_segment (λ _, zeros) no_repr (VStr "a b") = DEFAULT_TENANT_SEGMENT ∨ zeros = zeros).
Proof.
  split; [vm_compute; reflexivity|].
  apply (tenant_segments_distinct (λ _, zeros) no_repr (VStr "a b") (VStr "ab")); [reflexivity|].
  vm_compute. reflexivity.
Defined.

(** Producer and consumer of carved files agree on the key, and an upload is not
    servable: the staging key of a digest is read back as exactly that digest and as
    exactly the tenant segment it was made for, and it is in nobody's accepted
    namespace. *)
Theorem staging_key_roundtrip sha256 repr tenant sha :
  (∀ s, String.length (sha256 s) = 64%nat) → (∀ s, string_forallb is_hex (sha256 s) = true) →
  _SHA256 sha = true →
  let key := VStr (file_object_key sha256 repr default_env tenant sha) in
  staging_sha key "ndr-files" = Some sha ∧
  key_tenant_segment key "ndr-files" = Some (tenant_segment sha256 repr tenant) ∧
  ∀ other, in_accepted_namespace key (tenant_segment sha256 repr other) "ndr-files" = false.
Proof.
  intros Hlen Hhex Hsha key. pose proof (sha_chars _ Hsha) as [Hc Hl].
  set (t := tenant_segment sha256 repr tenant).
  assert (Ekey : key = VStr ("ndr-files/" +:+ t +:+ "/" +:+ "incoming" +:+ "/" +:+ sha)) by reflexivity.
  assert (Hns : string_forallb (λ d, negb (Ascii.eqb "/" d)) sha = true).
  { eapply forallb_weaken; [|exact Hc]. intros [[] [] [] [] [] [] [] []]; vm_compute; intros H; done. }
  assert (Hsplit : split_char "/" ("ndr-files/" +:+ t +:+ "/" +:+ "incoming" +:+ "/" +:+ sha)
            = ["ndr-files"; t; "incoming"; sha]).
  { unfold t. rewrite (split_of_key sha256 repr Hlen Hhex) by done. by rewrite split_none. }
  destruct (tenant_segment_spec sha256 repr Hlen Hhex tenant) as (T1 & T2 & T3). fold t in T1, T2, T3.
  assert (Hvalid : valid_key key = true).
  { rewrite Ekey. unfold valid_key. rewrite !andb_true_iff, !negb_true_iff. split_and!; [| |done].
    - unfold _SAFE_KEY, safe_body. apply orb_true_iff. left. apply andb_true_iff. split.
      + assert (Hk : ∀ s, string_forallb seg_char s = true → string_forallb key_char s = true)
          by (intros s; apply forallb_weaken, seg_char_key).
        do 3 (rewrite ?forallb_sapp; simpl). rewrite (Hk t), (Hk sha); [done| |done].
        eapply forallb_weaken; [|exact Hc]. intros c Hx. by apply is_hex_seg.
      + apply andb_true_iff. do 3 (rewrite ?slength_app; simpl). split; apply Z.leb_le; lia.
    - apply (no_dots_sep "ndr-files" "/"); [done|done|]. apply (no_dots_sep t "/"); [done|done|].
      apply (no_dots_sep "incoming" "/"); [done|done|]. apply no_dots_none.
      eapply forallb_weaken; [|exact Hc]. intros c Hx. by apply is_hex_seg. }
  assert (Ht : str_truthy t = true) by (destruct t; [simpl in T3; lia|done]).
  split_and!.
  - unfold staging_sha. rewrite Hvalid, Ekey. simpl negb. cbv iota. by rewrite Hsplit, Ht, Hsha.
  - unfold key_tenant_segment. rewrite Hvalid, Ekey. simpl negb. cbv iota. by rewrite Hsplit, Ht.
  - intros other. apply not_true_iff_false. rewrite Ekey. unfold in_accepted_namespace, in_namespace.
    intros (rest & E)%starts_with_inv. apply (f_equal (split_char "/")) in E. rewrite Hsplit in E.
    replace (("ndr-files" +:+ "/" +:+ tenant_segment sha256 repr other +:+ "/" +:+ ARTIFACT_PREFIX +:+ "/") +:+ rest)
      with ("ndr-files/" +:+ tenant_segment sha256 repr other +:+ "/" +:+ "artifacts" +:+ "/" +:+ rest) in E
      by (rewrite !sapp_assoc; reflexivity).
    rewrite (split_of_key sha256 repr Hlen Hhex) in E by done. by injection E.
Qed.

Lemma staging_key_roundtrip_witness :
  staging_sha (VStr (file_object_key (λ _, zeros) no_repr default_env (VStr "acme") zeros)) "ndr-files" = Some zeros.
Proof. apply (staging_key_roundtrip (λ _, zeros) no_repr (VStr "acme") zeros); reflexivity. Defined.
