(* ===== verification/CaptureBudget.v ===== *)
(** * Bounded preserve requests and their budget (shared/capture_v2.py)

    The signed preserve request, the policy it is checked against, and the rolling-hour
    reservations that bound what a sensor and a tenant may capture, with their state
    file.  Clock readings and JSON timestamps are microseconds; the address parser and
    the request MAC are parameters; a save of the state file succeeds or raises. *)

From S2P Require Import Prelude Order PyVal PyString OrderedMap.
Set Default Proof Using "Type".

Definition second : Z := 1000000.
(** A JSON number of seconds, in microseconds. *)
Definition ticks (v : val) : Z :=
  match v with
  | VInt z => z * second
  | VFloat f => match Z_of_float (fmul f (lit "1000000")) with Ok z => z | Raise _ => 0 end
  | _ => 0
  end.

(** [type(v) in (int, float)] and [math.isfinite(v)]; a huge integer raises. *)
Definition finite_number (v : val) : res bool :=
  match v with
  | VInt z => f ← float_of_Z z; Ok (is_finite f)
  | VFloat f => Ok (is_finite f)
  | _ => Ok false
  end.
Definition positive_int (v : val) : bool := match v with VInt z => 0 <? z | _ => false end.
Definition the_int (v : val) : Z := match v with VInt z => z | _ => 0 end.
Definition is_true (v : val) : bool := match v with VBool true => true | _ => false end.
Definition is_false (v : val) : bool := match v with VBool false => true | _ => false end.
Definition short_text (v : val) : bool :=
  match v with VStr s => str_truthy (strip s) && (len s <=? 128) | _ => false end.
Definition all_ok {A} (p : A → res bool) (l : list A) : res bool :=
  foldr (λ x (k : res bool), b ← p x; if (b : bool) then k else Ok false) (Ok true) l.

(** ** Requests and policies *)

Definition allowed_fields : list string :=
  ["schema_version"; "mode"; "request_id"; "tenant_id"; "sensor_id"; "finding_id"; "reason"; "policy_id";
   "capture_profile"; "value"; "window"; "limits"; "expires_at"; "authorization"].
Definition identity_fields : list string :=
  ["request_id"; "tenant_id"; "sensor_id"; "finding_id"; "reason"; "policy_id"].
Definition limit_fields : list string := ["max_bytes"; "max_duration_s"; "retention_s"].
Definition budget_fields : list string :=
  limit_fields ++ ["max_jobs"; "requests_per_hour"; "bytes_per_hour"; "tenant_bytes_per_hour"].

(** [set(d) == names] for a dict; anything else fails, if only on the next access. *)
Definition has_exactly (names : list string) (v : val) : res dict :=
  match v with
  | VDict d =>
      check (forallb (λ k, mem k names) (map fst d) && forallb (λ k, dhas k d) names) ValueError;; Ok d
  | _ => Raise TypeError
  end.

Section capture.
Context (is_address : val → bool) (mac : dict → string → res string).

Definition validate_body (doc : val) (now : Z) : res unit :=
  match doc with
  | VDict doc =>
      check (forallb (λ k, mem k allowed_fields) (map fst doc)) ValueError;;
      window ← dindex "window" doc; window ← has_exactly ["start"; "end"] window;
      limits ← dindex "limits" doc; limits ← has_exactly limit_fields limits;
      texts ← mapM (λ k, dindex k doc) identity_fields;
      check (forallb short_text texts) ValueError;;
      version ← dindex "schema_version" doc; mode ← dindex "mode" doc;
      check (val_eq_str version "capture-request.v2" && val_eq_str mode "preserve") ValueError;;
      profile ← dindex "capture_profile" doc;
      check (val_eq_str profile "ip") ValueError;;
      value ← dindex "value" doc;
      check (is_address value) ValueError;;
      start ← dindex "start" window; stop ← dindex "end" window; expires ← dindex "expires_at" doc;
      times ← all_ok (λ v, b ← finite_number v; Ok (b && (0 <=? ticks v))) [start; stop; expires];
      check times ValueError;;
      bounds ← mapM (λ k, dindex k limits) limit_fields;
      check (forallb positive_int bounds) ValueError;;
      let limit k := the_int (dgetN k limits) in
      check ((ticks start <? ticks stop) && (ticks stop <=? now)
             && (ticks stop - ticks start <=? limit "max_duration_s" * second)) ValueError;;
      check ((now <? ticks expires) && (ticks expires <=? ticks stop + 300 * second)) ValueError;;
      check (40 <=? limit "max_bytes") ValueError
  | _ => Raise ValueError
  end.
Definition validate (doc : val) (now : Z) : res unit :=
  match validate_body doc now with
  | Raise KeyError | Raise TypeError | Raise ValueError | Raise OverflowError => Raise ValueError
  | r => r
  end.

Definition policy_text (v : val) : bool := match v with VStr s => str_truthy (strip s) | _ => false end.
Definition validate_policy (policy : dict) (now : Z) : res unit :=
  check (is_true (dgetN "enabled" policy) && is_false (dgetN "sensitive" policy)) PermissionError;;
  check (forallb (λ k, policy_text (dgetN k policy)) ["tenant_id"; "sensor_id"; "policy_id"]) PermissionError;;
  durations ← all_ok (λ k, let v := dgetN k policy in b ← finite_number v; Ok (b && (0 <? ticks v)))
    ["expires_at"; "ring_seconds"];
  check durations PermissionError;;
  check (now <? ticks (dgetN "expires_at" policy)) PermissionError;;
  check (forallb (λ k, positive_int (dgetN k policy)) budget_fields) PermissionError;;
  check (match dgetN "signing_key" policy with VStr s => 32 <=? len s | _ => false end) PermissionError.

Definition sign (doc : dict) (key : val) : res string :=
  match key with
  | VStr k => check (32 <=? len k) ValueError;; mac doc k
  | _ => Raise ValueError
  end.

Definition sub_dict (k : string) (d : dict) : dict := match dgetN k d with VDict x => x | _ => [] end.
Definition limit_of (k : string) (doc : dict) : Z := the_int (dgetN k (sub_dict "limits" doc)).
Definition window_at (k : string) (doc : dict) : Z := ticks (dgetN k (sub_dict "window" doc)).

Definition authorize (doc policy : dict) (now : Z) (verify : bool) : res unit :=
  validate (VDict doc) now;;
  validate_policy policy now;;
  check (forallb (λ k, py_eqb (dgetN k doc) (dgetN k policy)) ["tenant_id"; "sensor_id"; "policy_id"]
         && (now <? ticks (dgetN "expires_at" policy))) PermissionError;;
  check (forallb (λ k, limit_of k doc <=? the_int (dgetN k policy)) limit_fields) PermissionError;;
  check (now - ticks (dgetN "ring_seconds" policy) <=? window_at "start" doc) PermissionError;;
  if verify then
    expected ← sign (List.filter (λ kv, negb (String.eqb kv.1 "authorization")) doc) (dgetN "signing_key" policy);
    check (val_eq_str (dget_or "authorization" (VStr "") doc) expected) PermissionError
  else Ok tt.

(** ** The rolling-hour budget *)

Record reservation := {
  e_ts : Z; e_active : bool; e_sensor : string; e_tenant : string; e_request : string; e_bytes : Z
}.
(** The entries, and what the last save that replaced the file wrote. *)
Record budget := { entries : list ((string * string) * reservation); saved : list reservation }.
Definition entry_key (e : reservation) : string * string := (e_tenant e, e_request e).
Definition budget_load (rows : list reservation) : budget :=
  {| entries := foldl (λ m e, od_set (entry_key e) e m) [] rows; saved := rows |}.

(** How a save ends: in full, in an error that leaves the old state file, or in one after
    the file was replaced (the directory could not be synced). *)
Inductive saving := s_done | s_lost | s_unsynced.
Definition _save (disk : saving) : M budget unit := λ b,
  let written := {| entries := entries b; saved := map snd (entries b) |} in
  match disk with
  | s_done => (written, Ok tt)
  | s_lost => (b, Raise OtherError)
  | s_unsynced => (written, Raise OtherError)
  end.

Definition bytes_reserved (l : list reservation) : Z := foldr (λ e n, e_bytes e + n) 0 l.
Definition active_jobs (l : list reservation) : Z := Z.of_nat (length (List.filter e_active l)).
Definition of_sensor (s : string) (b : list ((string * string) * reservation)) : list reservation :=
  List.filter (λ e, String.eqb (e_sensor e) s) (map snd b).
Definition of_tenant (t : string) (b : list ((string * string) * reservation)) : list reservation :=
  List.filter (λ e, String.eqb (e_tenant e) t) (map snd b).
Definition live (now : Z) (b : list ((string * string) * reservation)) : list ((string * string) * reservation) :=
  List.filter (λ kv : (string * string) * reservation,
    e_active kv.2 || (now - e_ts kv.2 <? 3600 * second)) b.
Definition with_entries (m : list ((string * string) * reservation)) (b : budget) : budget :=
  {| entries := m; saved := saved b |}.

Record quota := { max_jobs : Z; requests_per_hour : Z; bytes_per_hour : Z; tenant_bytes_per_hour : Z }.
Definition quota_of (policy : dict) : quota :=
  let n k := the_int (dgetN k policy) in
  {| max_jobs := n "max_jobs"; requests_per_hour := n "requests_per_hour";
     bytes_per_hour := n "bytes_per_hour"; tenant_bytes_per_hour := n "tenant_bytes_per_hour" |}.

Definition exhausted (q : quota) (es : list ((string * string) * reservation)) (sensor tenant : string)
    (size : Z) : bool :=
  let s := of_sensor sensor es in
  (max_jobs q <=? active_jobs s) || (requests_per_hour q <=? Z.of_nat (length s))
  || (bytes_per_hour q <? bytes_reserved s + size)
  || (tenant_bytes_per_hour q <? bytes_reserved (of_tenant tenant es) + size).

Definition reserve (tenant request sensor : string) (size : Z) (q : quota) (now : Z) (disk : saving) :
    M budget unit :=
  modify (λ b, with_entries (live now (entries b)) b) ;*
  let* es := read entries in
  match od_get (tenant, request) es with
  | Some _ => raise ValueError
  | None =>
      if exhausted q es sensor tenant size then raise ValueError
      else
        modify (with_entries (od_set (tenant, request)
          {| e_ts := now; e_active := true; e_sensor := sensor; e_tenant := tenant; e_request := request;
             e_bytes := size |} es)) ;*
        _save disk
  end.

Definition finished (e : reservation) : reservation :=
  {| e_ts := e_ts e; e_active := false; e_sensor := e_sensor e; e_tenant := e_tenant e;
     e_request := e_request e; e_bytes := e_bytes e |}.
Definition finish (tenant request sensor : string) (disk : saving) : M budget unit :=
  let* es := read entries in
  match od_get (tenant, request) es with
  | Some e =>
      if String.eqb (e_sensor e) sensor
      then modify (with_entries (od_set (tenant, request) (finished e) es)) ;* _save disk
      else ret tt
  | None => ret tt
  end.
End capture.

(** ** Facts: the budget *)

Section budget_facts.
Abbreviation slots := (list ((string * string) * reservation)).

Definition within (now : Z) (e : reservation) : bool := now - e_ts e <? 3600 * second.
Definition recent (now : Z) (led : list reservation) : list reservation := List.filter (within now) led.
Definition by_sensor (s : string) (l : list reservation) : list reservation :=
  List.filter (λ e, String.eqb (e_sensor e) s) l.
Definition by_tenant (t : string) (l : list reservation) : list reservation :=
  List.filter (λ e, String.eqb (e_tenant e) t) l.

(** The per-sensor and per-tenant bounds on a list of reservations. *)
Definition bounded (q : quota) (l : list reservation) : Prop :=
  (∀ s, active_jobs (by_sensor s l) <= max_jobs q ∧ Z.of_nat (length (by_sensor s l)) <= requests_per_hour q ∧
        bytes_reserved (by_sensor s l) <= bytes_per_hour q) ∧
  ∀ t, bytes_reserved (by_tenant t l) <= tenant_bytes_per_hour q.
Definition positive (l : list reservation) : Prop := ∀ e, e ∈ l → 0 < e_bytes e.

Lemma bytes_reserved_app l1 l2 : bytes_reserved (l1 ++ l2) = bytes_reserved l1 + bytes_reserved l2.
Proof. induction l1 as [|e l IH]; simpl; [lia|]. rewrite IH. lia. Qed.
Lemma active_jobs_app l1 l2 : active_jobs (l1 ++ l2) = active_jobs l1 + active_jobs l2.
Proof. unfold active_jobs. rewrite List.filter_app, length_app. lia. Qed.
Lemma active_jobs_le l : 0 <= active_jobs l.
Proof. unfold active_jobs. lia. Qed.
Lemma positive_bytes l : positive l → 0 <= bytes_reserved l.
Proof.
  induction l as [|e l IH]; intros H; simpl; [lia|].
  assert (0 < e_bytes e) by (apply H; by left). assert (positive l) by (intros x Hx; apply H; by right).
  specialize (IH ltac:(done)). lia.
Qed.

(** Dropping reservations keeps the bounds. *)
Lemma sublist_bytes l k : l `sublist_of` k → positive k → bytes_reserved l <= bytes_reserved k.
Proof.
  induction 1 as [|x l k _ IH|x l k _ IH]; intros Hp; simpl; [lia| |].
  - assert (positive k) by (intros y Hy; apply Hp; by right). specialize (IH ltac:(done)). lia.
  - assert (positive k) by (intros y Hy; apply Hp; by right). assert (0 < e_bytes x) by (apply Hp; by left).
    specialize (IH ltac:(done)). lia.
Qed.
Lemma sublist_active l k : l `sublist_of` k → active_jobs l <= active_jobs k.
Proof. intros H. unfold active_jobs. apply Nat2Z.inj_le, sublist_length, sublist_filter, H. Qed.
Lemma positive_filter f l : positive l → positive (List.filter f l).
Proof. intros Hp e. rewrite list_elem_of_In, List.filter_In, <- list_elem_of_In. intros [? _]. by apply Hp. Qed.

Lemma bounded_sublist q l k : l `sublist_of` k → positive k → bounded q k → bounded q l.
Proof.
  intros Hs Hp [H1 H2]. split.
  - intros s. destruct (H1 s) as (Ha & Hn & Hb). pose proof (sublist_filter (λ e, String.eqb (e_sensor e) s) _ _ Hs) as Hf.
    split_and!.
    + etrans; [|exact Ha]. by apply sublist_active.
    + etrans; [|exact Hn]. by apply Nat2Z.inj_le, sublist_length.
    + etrans; [|exact Hb]. apply sublist_bytes; [done|by apply positive_filter].
  - intros t. etrans; [|exact (H2 t)]. apply sublist_bytes; [by apply sublist_filter|by apply positive_filter].
Qed.

(** A reservation that passes the check keeps the bounds. *)
Lemma bounded_snoc q (es : slots) e :
  bounded q (map snd es) → exhausted q es (e_sensor e) (e_tenant e) (e_bytes e) = false →
  bounded q (map snd es ++ [e]).
Proof.
  intros [H1 H2] He. unfold exhausted in He. rewrite !orb_false_iff in He.
  destruct He as [[[E1 E2] E3] E4]. to_prop. unfold of_sensor, of_tenant in *.
  split.
  - intros s. unfold by_sensor. rewrite List.filter_app. simpl. destruct (H1 s) as (Ha & Hn & Hb).
    destruct (String.eqb_spec (e_sensor e) s) as [<-|]; [|by rewrite app_nil_r].
    rewrite active_jobs_app, length_app, bytes_reserved_app. unfold by_sensor in *. simpl.
    assert (active_jobs [e] <= 1) by (unfold active_jobs; simpl; destruct (e_active e); simpl; lia).
    split_and!; lia.
  - intros t. unfold by_tenant. rewrite List.filter_app. simpl. specialize (H2 t).
    destruct (String.eqb_spec (e_tenant e) t) as [<-|]; [|by rewrite app_nil_r].
    rewrite bytes_reserved_app. unfold by_tenant in *. simpl. lia.
Qed.

Lemma live_sublist now (es : slots) : map snd (live now es) `sublist_of` map snd es.
Proof.
  induction es as [|x es IH]; simpl; [constructor|]. destruct (_ || _); simpl; by constructor.
Qed.

(** Finishing one entry keeps everything but its activity. *)
Lemma bytes_finished l : bytes_reserved (map finished l) = bytes_reserved l.
Proof. induction l as [|e l IH]; simpl; [done|]. by rewrite IH. Qed.
Lemma filter_finished (f : reservation → bool) l :
  (∀ e, f (finished e) = f e) → map finished (List.filter f l) = List.filter f (map finished l).
Proof.
  intros Hf. induction l as [|e l IH]; simpl; [done|]. rewrite Hf. destruct (f e); simpl; by rewrite IH.
Qed.

(** What a list of entries guarantees for the ledger of granted reservations. *)
Record good (q : quota) (led : list reservation) (now : Z) (l : list reservation) : Prop := {
  good_bounded : bounded q l;
  good_positive : positive l;
  good_keys : NoDup (map entry_key l);
  good_ledger : map finished (recent now led) ⊆+ map finished l
}.


Lemma within_finished now e : within now (finished e) = within now e.
Proof. reflexivity. Qed.


Lemma good_later q led c now l : good q led c l → c <= now → good q led now l.
Proof.
  intros [H1 H2 H3 H4] Hc. split; [done..|]. etrans; [|exact H4].
  unfold recent. rewrite !(filter_finished _ _ (within_finished _)).
  rewrite <- (filter_imp (within c) (within now)).
  - apply sublist_submseteq, filter_sublist.
  - intros e. unfold within. intros H. to_prop. apply Z.ltb_lt. lia.
Qed.

Lemma good_prune q led now (es : slots) : good q led now (map snd es) → good q led now (map snd (live now es)).
Proof.
  intros [H1 H2 H3 H4]. pose proof (live_sublist now es) as Hs. split.
  - by eapply bounded_sublist.
  - intros e He. apply H2. by eapply elem_of_sublist.
  - eapply sublist_NoDup; [exact H3|]. clear -Hs. induction Hs; simpl; by constructor.
  - assert (Hf : map finished (recent now led) ⊆+ map finished (List.filter (within now) (map snd es))).
    { unfold recent in *. rewrite !(filter_finished _ _ (within_finished _)) in *.
      apply (submseteq_filter (within now)) in H4.
      by rewrite (filter_imp (within now) (within now)) in H4. }
    etrans; [exact Hf|]. apply sublist_submseteq. clear. induction es as [|x es IH]; simpl; [constructor|].
    fold (within now x.2). destruct (within now x.2); [rewrite orb_true_r; simpl; by constructor|].
    destruct (e_active x.2); simpl; [by constructor|done].
Qed.

Lemma good_add q led now (es : slots) e :
  good q led now (map snd es) → exhausted q es (e_sensor e) (e_tenant e) (e_bytes e) = false →
  entry_key e ∉ map entry_key (map snd es) → 0 < e_bytes e →
  good q (e :: led) now (map snd es ++ [e]).
Proof.
  intros [H1 H2 H3 H4] He Hk Hb. split.
  - by apply bounded_snoc.
  - intros x [Hx| ->%list_elem_of_singleton]%elem_of_app; [by apply H2|done].
  - rewrite map_app. apply NoDup_app. split_and!; [done| |apply NoDup_singleton].
    intros x Hx ->%list_elem_of_singleton. done.
  - rewrite map_app. simpl. rewrite Permutation_app_comm. simpl. destruct (within now e); simpl.
    + by constructor.
    + etrans; [exact H4|]. apply submseteq_cons. reflexivity.
Qed.
Lemma good_forget q e led now l : good q (e :: led) now l → good q led now l.
Proof.
  intros [H1 H2 H3 H4]. split; [done..|]. etrans; [|exact H4]. simpl.
  destruct (within now e); [apply submseteq_cons|]; reflexivity.
Qed.

Definition may_finish (a b : reservation) : Prop := b = a ∨ b = finished a.
Lemma finish_filter (f : reservation → bool) l l' :
  (∀ e, f (finished e) = f e) → Forall2 may_finish l l' → Forall2 may_finish (List.filter f l) (List.filter f l').
Proof.
  intros Hf. induction 1 as [|a b l l' [-> | ->] _ IH]; simpl; [constructor|..].
  - destruct (f a); [by constructor; [left|]|done].
  - rewrite Hf. destruct (f a); [by constructor; [right|]|done].
Qed.
Lemma finish_counts l l' :
  Forall2 may_finish l l' → length l' = length l ∧ bytes_reserved l' = bytes_reserved l ∧
  active_jobs l' <= active_jobs l ∧ map finished l' = map finished l ∧ map entry_key l' = map entry_key l.
Proof.
  unfold active_jobs. induction 1 as [|a b l l' [-> | ->] _ IH]; simpl; [done|..];
    destruct IH as (-> & -> & Ha & -> & ->); (split_and!; [done|done| |done|done]);
    destruct (e_active a); simpl; lia.
Qed.

Lemma good_finish q led now l l' : Forall2 may_finish l l' → good q led now l → good q led now l'.
Proof.
  intros HF [H1 H2 H3 H4]. destruct (finish_counts _ _ HF) as (_ & _ & _ & Hf & Hk). split.
  - destruct H1 as [Hs Ht]. split.
    + intros s. destruct (finish_counts _ _ (finish_filter (λ e, String.eqb (e_sensor e) s) _ _ (λ _, eq_refl) HF))
        as (Hl & Hb & Ha & _). destruct (Hs s) as (S1 & S2 & S3). unfold by_sensor in *.
      rewrite Hl, Hb. split_and!; [lia|done|done].
    + intros t. destruct (finish_counts _ _ (finish_filter (λ e, String.eqb (e_tenant e) t) _ _ (λ _, eq_refl) HF))
        as (_ & Hb & _). unfold by_tenant in *. rewrite Hb. apply Ht.
  - intros e He. apply list_elem_of_lookup in He as [i Hi].
    destruct (Forall2_lookup_r _ _ _ _ _ HF Hi) as (a & Ha & [-> | ->]);
      [apply H2|apply (H2 a)]; apply list_elem_of_lookup; eauto.
  - by rewrite Hk.
  - by rewrite Hf.
Qed.

(** The entries are filed under their own key. *)
Definition filed (es : slots) : Prop := ∀ kv, kv ∈ es → kv.1 = entry_key kv.2.

Lemma filed_keys es : filed es → map entry_key (map snd es) = od_keys es.
Proof.
  unfold od_keys. induction es as [|kv es IH]; intros Hf; [done|]. simpl. rewrite IH.
  - f_equal. symmetry. apply Hf. by left.
  - intros x Hx. apply Hf. by right.
Qed.
Lemma filed_live now es : filed es → filed (live now es).
Proof. intros Hf kv. unfold live. rewrite list_elem_of_In, List.filter_In, <- list_elem_of_In. intros [? _]. by apply Hf. Qed.

(** The invariant: what is in memory and what is on disk both guarantee the ledger. *)
Record budget_inv (q : quota) (led : list reservation) (now : Z) (b : budget) : Prop := {
  inv_filed : filed (entries b);
  inv_memory : good q led now (map snd (entries b));
  inv_disk : good q led now (saved b)
}.

Lemma budget_load_entries rows :
  NoDup (map entry_key rows) → entries (budget_load rows) = map (λ e, (entry_key e, e)) rows.
Proof.
  intros Hn. unfold budget_load. simpl.
  assert (H : ∀ m : slots, NoDup (od_keys m ++ map entry_key rows) →
    foldl (λ m e, od_set (entry_key e) e m) m rows = m ++ map (λ e, (entry_key e, e)) rows).
  { clear Hn. induction rows as [|e rows IH]; intros m Hm; simpl; [by rewrite app_nil_r|].
    simpl in Hm. rewrite od_set_absent.
    - rewrite IH; [by rewrite <- app_assoc|]. unfold od_keys in *. rewrite fmap_app. simpl.
      by rewrite <- app_assoc.
    - apply od_get_none. apply NoDup_app in Hm as (_ & Hm & _). intros Hin. apply (Hm _ Hin). by left. }
  by rewrite H.
Qed.

Lemma restart_inv q led now b : budget_inv q led now b → budget_inv q led now (budget_load (saved b)).
Proof.
  intros [_ _ H]. pose proof (budget_load_entries _ (good_keys _ _ _ _ H)) as He.
  assert (Hs : map snd (entries (budget_load (saved b))) = saved b).
  { rewrite He, List.map_map. simpl. apply List.map_id. }
  split; [|by rewrite Hs|done]. rewrite He. intros kv (e & -> & _)%list_elem_of_fmap. done.
Qed.

Lemma reserve_inv q led c now tenant request sensor size disk b b' o :
  budget_inv q led c b → c <= now → 0 < size → reserve tenant request sensor size q now disk b = (b', o) →
  budget_inv q (match o with
                | Ok _ => {| e_ts := now; e_active := true; e_sensor := sensor; e_tenant := tenant;
                             e_request := request; e_bytes := size |} :: led
                | Raise _ => led
                end) now b'.
Proof.
  intros [Hf Hm Hd] Hc Hsz. apply (good_later _ _ _ now) in Hm, Hd; [|done|done].
  apply good_prune in Hm. apply (filed_live now) in Hf.
  unfold reserve, modify, read, bind. simpl. set (es := live now (entries b)) in *.
  destruct (od_get (tenant, request) es) as [e0|] eqn:Eg; [by intros [= <- <-]|].
  destruct (exhausted q es sensor tenant size) eqn:Ee; [by intros [= <- <-]|].
  set (e := {| e_ts := now; e_active := true; e_sensor := sensor; e_tenant := tenant; e_request := request;
               e_bytes := size |}).
  rewrite od_set_absent by done.
  assert (Hk : entry_key e ∉ map entry_key (map snd es)).
  { rewrite filed_keys by done. by apply od_get_none. }
  pose proof (good_add q led now es e Hm Ee Hk Hsz) as Hnew.
  assert (Hsnd : map snd (es ++ [((tenant, request), e)]) = map snd es ++ [e]) by by rewrite map_app.
  assert (Hfn : filed (es ++ [((tenant, request), e)])).
  { intros kv [Hx| ->%list_elem_of_singleton]%elem_of_app; [by apply Hf|done]. }
  unfold _save. destruct disk; intros [= <- <-]; split; simpl; rewrite ?Hsnd; try done; by apply good_forget in Hnew.
Qed.

Lemma od_set_finished k e (es : slots) :
  od_get k es = Some e → Forall2 may_finish (map snd es) (map snd (od_set k (finished e) es)).
Proof.
  assert (Hrefl : ∀ l, Forall2 may_finish l l) by (intros l; induction l; constructor; [by left|done]).
  induction es as [|[k' e'] es IH]; simpl; [done|]. case_decide; simpl.
  - intros [= ->]. constructor; [by right|apply Hrefl].
  - intros Hg. constructor; [by left|by apply IH].
Qed.
Lemma filed_finished k e (es : slots) :
  filed es → od_get k es = Some e → filed (od_set k (finished e) es).
Proof.
  unfold filed. induction es as [|[k' e'] es IH]; simpl; [done|]. intros Hf. case_decide as Hk; intros Hg kv.
  - injection Hg as ->. rewrite elem_of_cons. intros [->|Hin]; [|apply Hf; by right].
    subst. apply (Hf (k', e)). by left.
  - rewrite elem_of_cons. intros [->|Hin]; [apply Hf; by left|].
    apply IH; [|done|done]. intros x Hx. apply Hf. by right.
Qed.

Lemma finish_inv q led now tenant request sensor disk b b' o :
  budget_inv q led now b → finish tenant request sensor disk b = (b', o) → budget_inv q led now b'.
Proof.
  intros [Hf Hm Hd]. unfold finish, bind, read, modify, ret. destruct (od_get _ (entries b)) as [e|] eqn:Eg;
    [|by intros [= <- <-]].
  destruct (String.eqb _ _); [|by intros [= <- <-]].
  pose proof (good_finish q led now _ _ (od_set_finished _ _ _ Eg) Hm) as Hn.
  pose proof (filed_finished _ _ _ Hf Eg). unfold _save.
  destruct disk; intros [= <- <-]; by split.
Qed.

(** Histories: calls with a clock that does not go back, saves that may fail, and
    restarts that reload the state file.  The first index collects the reservations
    that were granted, that is, whose call returned. *)
Inductive budget_run (q : quota) : list reservation → Z → budget → Prop :=
| run_start c : budget_run q [] c (budget_load [])
| run_reserve led c b now tenant request sensor size disk b' o :
    budget_run q led c b → c <= now → 0 < size → reserve tenant request sensor size q now disk b = (b', o) →
    budget_run q (match o with
                  | Ok _ => {| e_ts := now; e_active := true; e_sensor := sensor; e_tenant := tenant;
                               e_request := request; e_bytes := size |} :: led
                  | Raise _ => led
                  end) now b'
| run_finish led c b tenant request sensor disk b' o :
    budget_run q led c b → finish tenant request sensor disk b = (b', o) → budget_run q led c b'
| run_restart led c b : budget_run q led c b → budget_run q led c (budget_load (saved b)).

Definition quota_ok (q : quota) : Prop :=
  0 <= max_jobs q ∧ 0 <= requests_per_hour q ∧ 0 <= bytes_per_hour q ∧ 0 <= tenant_bytes_per_hour q.

Lemma budget_run_inv q led c b : quota_ok q → budget_run q led c b → budget_inv q led c b.
Proof.
  intros (Q1 & Q2 & Q3 & Q4). induction 1 as [c|led c b now tn rq sn size disk b' o _ IH Hc Hs H|led c b tn rq sn disk b' o _ IH H|].
  - assert (Hg : good q [] c []).
    { split; [|intros e He; by apply elem_of_nil in He|constructor|reflexivity].
      split; [intros s|intros t]; unfold active_jobs; simpl; lia. }
    split; simpl; [intros kv Hkv; by apply elem_of_nil in Hkv|done|done].
  - by eapply reserve_inv.
  - by eapply finish_inv.
  - by apply restart_inv.
Qed.

(** The ledger's own totals are bounded by any list that guarantees it. *)
Lemma submseteq_bytes l k : l ⊆+ k → positive k → bytes_reserved l <= bytes_reserved k.
Proof.
  intros Hs Hp. destruct (submseteq_Permutation _ _ Hs) as [r Hr].
  assert (Hperm : ∀ x y : list reservation, x ≡ₚ y → bytes_reserved x = bytes_reserved y).
  { induction 1; simpl; lia. }
  rewrite (Hperm _ _ Hr), bytes_reserved_app.
  assert (positive r) by (intros e He; apply Hp; rewrite Hr; set_solver).
  pose proof (positive_bytes r ltac:(done)). lia.
Qed.
Lemma ledger_bounded (f : reservation → bool) q led now l :
  (∀ e, f (finished e) = f e) → good q led now l →
  (length (List.filter f (recent now led)) <= length (List.filter f l))%nat ∧
  bytes_reserved (List.filter f (recent now led)) <= bytes_reserved (List.filter f l).
Proof.
  intros Hf [_ Hp _ Hs]. apply (submseteq_filter f) in Hs. rewrite <- !filter_finished in Hs by done. split.
  - apply submseteq_length in Hs. rewrite !length_map in Hs. lia.
  - apply submseteq_bytes in Hs; [by rewrite !bytes_finished in Hs|].
    intros e (x & -> & Hx)%list_elem_of_fmap. simpl.
    rewrite list_elem_of_In, List.filter_In, <- list_elem_of_In in Hx. destruct Hx as [Hx _]. by apply Hp.
Qed.
End budget_facts.

(** ** Properties *)

(** C22. The rolling-hour budget is never exceeded, not even across crashes: after any calls
    with a clock that does not go back, any saves that fail before or after the file is
    replaced and any restarts from the state file, under one quota for all calls, the
    reservations granted within the last hour respect every sensor's request and byte quota
    and every tenant's byte quota, and no sensor has more active jobs than allowed. *)
Theorem hourly_budget_never_exceeded q led c b now :
  quota_ok q → budget_run q led c b → c <= now →
  (∀ s, Z.of_nat (length (by_sensor s (recent now led))) <= requests_per_hour q ∧
        bytes_reserved (by_sensor s (recent now led)) <= bytes_per_hour q ∧
        active_jobs (by_sensor s (map snd (entries b))) <= max_jobs q) ∧
  ∀ t, bytes_reserved (by_tenant t (recent now led)) <= tenant_bytes_per_hour q.
Proof.
  intros Hq Hrun Hc. apply budget_run_inv in Hrun as [_ Hm _]; [|done].
  apply (good_later _ _ _ now) in Hm; [|done]. pose proof (good_bounded _ _ _ _ Hm) as [Hs Ht]. split.
  - intros s. destruct (Hs s) as (H1 & H2 & H3).
    destruct (ledger_bounded (λ e, String.eqb (e_sensor e) s) q led now _ (λ _, eq_refl) Hm).
    unfold by_sensor in *. split_and!; [lia|lia|done].
  - intros t. destruct (ledger_bounded (λ e, String.eqb (e_tenant e) t) q led now _ (λ _, eq_refl) Hm).
    etrans; [|exact (Ht t)]. done.
Qed.

Definition small_quota : quota :=
  {| max_jobs := 2; requests_per_hour := 2; bytes_per_hour := 100; tenant_bytes_per_hour := 100 |}.
Definition after_restart : budget :=
  budget_load (saved (reserve "t" "r1" "s" 60 small_quota 5 s_done (budget_load [])).1).

Lemma hourly_budget_never_exceeded_witness :
  (reserve "t" "r2" "s" 60 small_quota 9 s_done after_restart).2 = Raise ValueError ∧
  bytes_reserved (by_tenant "t" (recent 9 [ {| e_ts := 5; e_active := true; e_sensor := "s"; e_tenant := "t";
                                               e_request := "r1"; e_bytes := 60 |} ])) <= 100.
Proof.
  split; [vm_compute; reflexivity|].
  apply (hourly_budget_never_exceeded small_quota _ 5 after_restart 9); [repeat split; vm_compute; done| |lia].
  apply run_restart. eapply (run_reserve small_quota [] 0 (budget_load []) 5 "t" "r1" "s" 60 s_done _ (Ok tt));
    [apply run_start|lia|lia|]. vm_compute. reflexivity.
Defined.
