(* ===== verification/PacketCapture.v ===== *)
(** * Bounded packet preservation (services/capture-agent/agent.py)

    The in-memory packet ring fed by a capture stream, the preserve operation that cuts
    a window out of it, and the audited download of a preserved object.  Clock readings
    are microseconds; packets and objects are byte strings.  The address parser, the
    request MAC, SHA-256, the audit sink, the object store and the packet carver are
    parameters. *)

From S2P Require Import Prelude Order PyVal PyString OrderedMap ObjectKeys CaptureBudget.
Set Default Proof Using "Type".

Section ring.
Context (is_address : val → bool) (mac : dict → string → res string) (sha256 : string → string)
  (repr : val → string).

(** ** The packet ring *)

Record packet := { p_at : Z; p_ts : Z; p_data : string }.
Definition charge (record : string) : Z := len record + 192.

Record ring := {
  rg_policy : dict; rg_records : list packet; rg_size : Z; rg_dropped : Z; rg_header : option string;
  rg_closed : bool
}.
Definition with_records (l : list packet) (size dropped : Z) (r : ring) : ring :=
  {| rg_policy := rg_policy r; rg_records := l; rg_size := size; rg_dropped := dropped;
     rg_header := rg_header r; rg_closed := rg_closed r |}.
Definition ring_bytes (policy : dict) : res Z := py_int (dget_or "ring_bytes" (VInt 0) policy).

Definition PacketRing (policy : dict) (wall : Z) : res ring :=
  validate_policy policy wall;;
  bytes ← ring_bytes policy;
  check (negb (ticks (dgetN "expires_at" policy) <=? wall) && (65536 <=? bytes)
         && (0 <? ticks (dgetN "ring_seconds" policy))) PermissionError;;
  Ok {| rg_policy := policy; rg_records := []; rg_size := 0; rg_dropped := 0; rg_header := None;
        rg_closed := false |}.

(** [while records and drop(...): popleft], with the size and the drop counter. *)
Fixpoint pop_while (out : Z → packet → bool) (l : list packet) (size dropped : Z) : list packet * Z * Z :=
  match l with
  | [] => ([], size, dropped)
  | p :: l' =>
      if out size p then pop_while out l' (size - charge (p_data p)) (dropped + 1) else (l, size, dropped)
  end.
Definition popped (out : Z → packet → bool) (r : ring) : ring :=
  let '(l, size, dropped) := pop_while out (rg_records r) (rg_size r) (rg_dropped r) in
  with_records l size dropped r.

(** The monotonic and the wall clock, as read by the operation. *)
Definition expire (r : ring) (clock wall : Z) : ring * bool :=
  let cutoff := clock - ticks (dgetN "ring_seconds" (rg_policy r)) in
  let expired := rg_closed r || (ticks (dgetN "expires_at" (rg_policy r)) <=? wall) in
  (popped (λ _ p, expired || (p_at p <=? cutoff)) r, negb expired).
Definition close (r : ring) (clock wall : Z) : ring :=
  (expire {| rg_policy := rg_policy r; rg_records := rg_records r; rg_size := rg_size r;
             rg_dropped := rg_dropped r; rg_header := rg_header r; rg_closed := true |} clock wall).1.

Definition append (r : ring) (clock wall ts : Z) (record : string) : res (ring * bool) :=
  let '(r, live) := expire r clock wall in
  if negb live then Ok (r, false)
  else
    limit ← ring_bytes (rg_policy r);
    if limit <? charge record + 24
    then Ok (with_records (rg_records r) (rg_size r) (rg_dropped r + 1) r, false)
    else
      let r := popped (λ size _, limit <? size + charge record + 24) r in
      Ok (with_records (rg_records r ++ [{| p_at := clock; p_ts := ts; p_data := record |}])
            (rg_size r + charge record) (rg_dropped r) r, true).

(** The records of the window, up to the first that does not fit. *)
Fixpoint select (start stop limit : Z) (l : list packet) (out : string) (n : Z) : string * Z * bool :=
  match l with
  | [] => (out, n, false)
  | p :: l =>
      if (start <=? p_ts p) && (p_ts p <? stop) then
        if limit <? len out + len (p_data p) then (out, n, true)
        else select start stop limit l (out +:+ p_data p) (n + 1)
      else select start stop limit l out n
  end.
Record coverage := { selected_packets : Z; truncated : bool; ring_drops_total : Z }.
Definition slice (r : ring) (clock wall start stop limit : Z) : ring * (string * coverage) :=
  let r := (expire r clock wall).1 in
  let '(out, n, t) := select start stop limit (rg_records r) (default "" (rg_header r)) 0 in
  (r, (out, {| selected_packets := n; truncated := t; ring_drops_total := rg_dropped r |})).

(** Unsigned integers of a classic PCAP stream. *)
Fixpoint uint_le (s : string) : Z :=
  match s with EmptyString => 0 | String c s => code c + 256 * uint_le s end.
Definition unpack (little : bool) (s : string) : Z := uint_le (if little then s else String.rev s).
Definition field (little : bool) (off n : nat) (s : string) : Z := unpack little (take_chars n (drop_chars off s)).
(** [read_exact]: the bytes and the rest; [""] at the end of the stream. *)
Definition read_exact (n : nat) (s : string) : res (string * string) :=
  if String.eqb s "" then Ok ("", "")
  else if (String.length s <? n)%nat then Raise ValueError
  else Ok (take_chars n s, drop_chars n s).

Definition magic_le : string := String "212" (String "195" (String "178" (String "161" ""))).
Definition magic_be : string := String "161" (String "178" (String "195" (String "212" ""))).

(** One round of the loop per fuel; the clocks are read once per round. *)
Fixpoint ingest_loop (fuel : nat) (clocks : nat → Z * Z) (little : bool) (snaplen : Z) (r : ring) (s : string) :
    ring * res unit :=
  let '(clock, wall) := clocks fuel in
  let '(r, live) := expire r clock wall in
  if negb live then (r, Ok tt)
  else
    match read_exact 16 s with
    | Raise e => (r, Raise e)
    | Ok (rec_, s) =>
        if String.eqb rec_ "" then (r, Ok tt)
        else
          let sec := field little 0 4 rec_ in let usec := field little 4 4 rec_ in
          let size := field little 8 4 rec_ in let original := field little 12 4 rec_ in
          if (snaplen <? size) || (original <? size) || (1000000 <=? usec) then (r, Raise ValueError)
          else
            match read_exact (Z.to_nat size) s with
            | Raise e => (r, Raise e)
            | Ok (data, s) =>
                if negb (len data =? size) then (r, Raise ValueError)
                else
                  match append r clock wall (sec * second + usec) (rec_ +:+ data), fuel with
                  | Raise e, _ => (r, Raise e)
                  | Ok (r, _), S fuel => ingest_loop fuel clocks little snaplen r s
                  | Ok (r, _), O => (r, Raise OtherError)  (* out of fuel *)
                  end
            end
    end.

Definition ingest (clocks : nat → Z * Z) (r : ring) (stream : string) : ring * res unit :=
  match read_exact 24 stream with
  | Raise e => (r, Raise e)
  | Ok (header, s) =>
      let magic := take_chars 4 header in
      let little := String.eqb magic magic_le in
      if negb (len header =? 24) || negb (little || String.eqb magic magic_be) then (r, Raise ValueError)
      else
        let snaplen := field little 16 4 header in
        if negb ((field little 4 2 header =? 2) && (field little 6 2 header =? 4)
                 && between 1 65535 snaplen) then (r, Raise ValueError)
        else if match rg_header r with Some h => negb (String.eqb h header) | None => false end
        then (r, Raise ValueError)
        else
          let r := {| rg_policy := rg_policy r; rg_records := rg_records r; rg_size := rg_size r;
                      rg_dropped := rg_dropped r; rg_header := Some header; rg_closed := rg_closed r |} in
          ingest_loop (String.length s) clocks little snaplen r s
  end.

(** ** Preserving and downloading *)

(** What happens outside, in order: audit records written and object-store calls. *)
Inductive event :=
| audited (entry : dict)
| got (bucket key : string)
| put (bucket key data : string) (metadata : list (string * val)).
Record world := { w_ring : ring; w_budget : budget; w_trace : list event }.
Definition emit (e : event) : M world unit :=
  modify (λ w, {| w_ring := w_ring w; w_budget := w_budget w; w_trace := w_trace w ++ [e] |}).

(** The audit sink, which may refuse; a refused record is not written. *)
Context (sink : dict → bool).
Definition audit (entry : dict) : M world unit :=
  if sink entry then emit (audited entry) else raise OtherError.
Definition on_budget {A} (m : M budget A) : M world A := λ w,
  let '(b, r) := m (w_budget w) in
  ({| w_ring := w_ring w; w_budget := b; w_trace := w_trace w |}, r).
Definition on_ring {A} (f : ring → ring * A) : M world A := λ w,
  let '(g, a) := f (w_ring w) in
  ({| w_ring := g; w_budget := w_budget w; w_trace := w_trace w |}, Ok a).
(** [try: m except Exception: h; raise] and [try: m finally: h]. *)
Definition on_exception {A} (m : M world A) (h : M world unit) : M world A := λ w,
  match m w with
  | (w', Raise e) => (h ;* raise e) w'
  | r => r
  end.
Definition finally {A} (m : M world A) (h : M world unit) : M world A := λ w,
  match m w with
  | (w', Ok a) => (h ;* ret a) w'
  | (w', Raise e) => (h ;* raise e) w'
  end.

(** The object store: bucket settings, free disk, uploads that may fail, objects. *)
Record object := { o_metadata : dict; o_length : Z; o_body : string }.
Record object_store := {
  versioning : val; lifecycle_rules : list dict; free_disk : Z;
  put_object : string → string → bool; get_object : string → string → option object
}.
Definition lifecycle_ok (retention : Z) (rule : dict) : bool :=
  val_eq_str (dgetN "Status" rule) "Enabled"
  && py_eqb (dgetN "Filter" rule) (VDict [("Tag", VDict [("Key", VStr "cernity-pcap"); ("Value", VStr "v2")])])
  && match dgetN "Days" (sub_dict "Expiration" rule) with
     | VInt days => (0 <? days * 86400) && (days * 86400 <=? retention)
     | _ => false
     end.

Definition text_of (k : string) (d : dict) : string := match dgetN k d with VStr s => s | _ => "" end.
Definition partition_slash (s : string) : string * string :=
  match split_char "/" s with
  | b :: rest => (b, join "/" rest)
  | [] => (s, "")
  end.

Context (carve : string → val → res string) (show_seconds : Z → string).

Definition preserve_event (d : dict) : dict :=
  map (λ k, (k, dgetN k d)) ["request_id"; "tenant_id"; "sensor_id"; "finding_id"].
Definition action (name : string) (d : dict) : dict := dset "action" (VStr name) d.

(** The checks before anything is reserved. *)
Definition preserve_checks (s3 : object_store) (d policy : dict) (now : Z) : res unit :=
  authorize is_address mac d policy now true;;
  check (negb (val_in_strs (versioning s3) ["Enabled"; "Suspended"])) PermissionError;;
  check (existsb (lifecycle_ok (limit_of "retention_s" d)) (lifecycle_rules s3)) PermissionError;;
  min_free ← dindex "min_free_bytes" policy; min_free ← py_int min_free;
  check (min_free + limit_of "max_bytes" d <=? free_disk s3) ValueError.

(** The coverage of the reply; times are microseconds. *)
Definition coverage_doc (d : dict) (cov : coverage) (now : Z) (policy : dict) : dict :=
  [("selected_packets", VInt (selected_packets cov)); ("truncated", VBool (truncated cov));
   ("ring_drops_total", VInt (ring_drops_total cov)); ("capture_loss", VStr "unknown");
   ("complete", VBool false); ("window", dgetN "window" d);
   ("request_latency_s", VInt (now - window_at "end" d)); ("interface", dgetN "interface" policy)].

Definition preserve_upload (s3 : object_store) (d policy : dict) (clock now : Z) : M world dict :=
  let event := preserve_event d in
  let* cut := on_ring (λ g, slice g clock now (window_at "start" d) (window_at "end" d) (limit_of "max_bytes" d)) in
  let '(data, cov) := cut in
  lift (check (negb (selected_packets cov =? 0)) ValueError) ;*
  let* data := lift (carve data (dgetN "value" d)) in
  lift (check ((24 <? len data) && (len data <=? limit_of "max_bytes" d)) ValueError) ;*
  let key := pcap_key sha256 repr
    [("tenant_id", dgetN "tenant_id" d); ("capture_profile", VStr "preserve");
     ("finding_id", VStr (sha256 (text_of "request_id" d)))] in
  let '(bucket, obj) := partition_slash key in
  let expires := now + limit_of "retention_s" d * second in
  let sized := dset "bytes" (VInt (len data)) (dset "resource_id" (VStr key) event) in
  audit (action "pcap.upload.attempt" sized) ;*
  emit (put bucket obj data [("tenant-id", VStr (sha256 (text_of "tenant_id" d)));
                             ("expires-at", VStr (show_seconds expires)); ("sha256", VStr (sha256 data))]) ;*
  lift (if put_object s3 bucket obj then Ok tt else Raise OtherError) ;*
  audit (action "pcap.upload.success" sized) ;*
  ret (event ++ [("state", VStr "completed"); ("armed", VBool false); ("kind", VStr "preserve");
                 ("pcap_ref", VStr key); ("bytes", VInt (len data)); ("sha256", VStr (sha256 data));
                 ("coverage", VDict (coverage_doc d cov now policy)); ("expires_at", VInt expires)]).

(** [bnow] is the budget's clock; [disk] and [disk'] tell how its saves end. *)
Definition preserve (s3 : object_store) (d : dict) (clock now bnow : Z) (disk disk' : saving) : M world dict :=
  let event := preserve_event d in
  let tenant := text_of "tenant_id" d in
  let request := text_of "request_id" d in
  let sensor := text_of "sensor_id" d in
  audit (action "pcap.preserve.request" event) ;*
  let failed := audit (action "pcap.preserve.failed" event) in
  let* policy := read (λ w, rg_policy (w_ring w)) in
  on_exception
    (lift (preserve_checks s3 d policy now) ;*
     on_budget (reserve tenant request sensor (limit_of "max_bytes" d) (quota_of policy) bnow disk))
    failed ;*
  finally (on_exception (preserve_upload s3 d policy clock now) failed)
    (on_budget (finish tenant request sensor disk')).

(** A reader's grant: the server's table, keyed by the bearer token. *)
Definition grant_of (auth : val) (tokens : list (string * val)) : option dict :=
  match auth with
  | VStr h =>
      if starts_with "Bearer " h
      then match assoc (drop_chars 7 h) tokens with Some (VDict g) => Some g | _ => None end
      else None
  | _ => None
  end.
Definition may_read (ref : val) (g : dict) : bool :=
  is_true (dgetN "pcap_read" g) && truthy (dgetN "tenant_id" g) && truthy (dgetN "actor" g)
  && valid_key ref && in_tenant_namespace ref (tenant_segment sha256 repr (dgetN "tenant_id" g)) "ndr-pcap".

Definition read_up_to (n : Z) (s : string) : string := if len s <=? n then s else take_chars (Z.to_nat n) s.

Definition check_object (o : object) (g : dict) (now max_size : Z) : res string :=
  raw ← dindex "expires-at" (o_metadata o); f ← py_float raw;
  owner ← (if negb (is_finite f) || (ticks (VFloat f) <=? now) then Raise PermissionError
           else dindex "tenant-id" (o_metadata o));
  tenant ← match dgetN "tenant_id" g with VStr t => Ok t | _ => Raise AttributeError end;
  check (val_eq_str owner (sha256 tenant)) PermissionError;;
  check (o_length o <=? max_size) ValueError;;
  let data := read_up_to (max_size + 1) (o_body o) in
  check ((len data <=? max_size) && (len data =? o_length o)) ValueError;;
  digest ← dindex "sha256" (o_metadata o);
  check (val_eq_str digest (sha256 data)) ValueError;;
  Ok data.

Definition retrieve_pcap (s3 : object_store) (ref auth : val) (tokens : list (string * val)) (now max_size : Z) :
    M world string :=
  let grant := grant_of auth tokens in
  let event := [("action", VStr "pcap.download"); ("resource_id", VStr (take_chars 256 (py_str repr ref)));
    ("actor", match grant with Some g => if truthy (VDict g) then dgetN "actor" g else VStr "anonymous"
              | None => VStr "anonymous" end);
    ("tenant_id", match grant with Some g => dgetN "tenant_id" g | None => VNone end)] in
  match grant, ref with
  | Some g, VStr key =>
      if may_read ref g then
        audit (dset "outcome" (VStr "attempt") event) ;*
        let* data := on_exception
          (let '(bucket, obj) := partition_slash key in
           emit (got bucket obj) ;*
           let* data := lift (match get_object s3 bucket obj with
                              | Some o => check_object o g now max_size
                              | None => Raise OtherError
                              end) in
           audit (dset "bytes" (VInt (len data)) (dset "outcome" (VStr "success") event)) ;*
           ret data)
          (audit (dset "outcome" (VStr "failed") event)) in
        ret data
      else audit (dset "outcome" (VStr "denied") event) ;* raise PermissionError
  | _, _ => audit (dset "outcome" (VStr "denied") event) ;* raise PermissionError
  end.
End ring.

(** ** Facts: the ring *)

Section ring_facts.
Definition total (l : list packet) : Z := foldr (λ p n, charge (p_data p) + n) 0 l.

Lemma total_app l1 l2 : total (l1 ++ l2) = total l1 + total l2.
Proof. induction l1 as [|p l IH]; simpl; [lia|]. rewrite IH. lia. Qed.
Lemma total_nonneg l : 0 <= total l.
Proof. induction l as [|p l IH]; simpl; [lia|]. unfold charge. lia. Qed.

Lemma pop_while_spec out l size dropped l' size' dropped' :
  pop_while out l size dropped = (l', size', dropped') →
  (∃ gone, l = gone ++ l' ∧ size' = size - total gone ∧ dropped' = dropped + Z.of_nat (length gone)) ∧
  (∀ p rest, l' = p :: rest → out size' p = false).
Proof.
  revert size dropped. induction l as [|p l IH]; intros size dropped; simpl.
  - intros [= <- <- <-]. split; [|done]. exists []. simpl. split_and!; [done|lia|lia].
  - destruct (out size p) eqn:E.
    + intros H. apply IH in H as [(gone & -> & -> & ->) Hh]. split; [|done].
      exists (p :: gone). simpl. split_and!; [done|lia|lia].
    + intros [= <- <- <-]. split; [|by intros ? ? [= <- <-]]. exists []. simpl. split_and!; [done|lia|lia].
Qed.

(** Ages of the records: in arrival order, none newer than [c]. *)
Definition aged (c : Z) (l : list packet) : Prop := StronglySorted (λ p q, p_at p <= p_at q) l ∧ ∀ p, p ∈ l → p_at p <= c.

Lemma aged_suffix c c' gone l : aged c (gone ++ l) → c <= c' → aged c' l.
Proof.
  intros [Hs Hc] Hle. split.
  - clear Hc. induction gone as [|p gone IH]; [done|]. simpl in Hs. inversion Hs; subst. by apply IH.
  - intros p Hp. etrans; [apply Hc, elem_of_app; by right|done].
Qed.
Lemma aged_snoc c l p : aged c l → p_at p = c → aged c (l ++ [p]).
Proof.
  intros [Hs Hc] Hp. split.
  - induction l as [|x l IH]; simpl; [repeat constructor|]. inversion Hs as [|? ? Hs' Hall]; subst.
    constructor.
    + apply IH; [done|]. intros y Hy. apply Hc. by right.
    + apply Forall_app. split; [done|]. constructor; [|constructor]. apply Hc. by left.
  - intros y [Hy| ->%list_elem_of_singleton]%elem_of_app; [by apply Hc|lia].
Qed.

(** What holds of a ring: its size is what it holds, within the policy's bytes. *)
Record ring_ok (bytes : Z) (c : Z) (r : ring) : Prop := {
  ok_bytes : ring_bytes (rg_policy r) = Ok bytes;
  ok_size : rg_size r = total (rg_records r);
  ok_bound : rg_size r + 24 <= bytes;
  ok_aged : aged c (rg_records r)
}.

Definition horizon (r : ring) (clock : Z) : Z := clock - ticks (dgetN "ring_seconds" (rg_policy r)).

Lemma popped_ok out bytes c c' r :
  ring_ok bytes c r → c <= c' →
  ring_ok bytes c' (popped out r) ∧ rg_policy (popped out r) = rg_policy r ∧ rg_closed (popped out r) = rg_closed r ∧
  (∃ gone, rg_records r = gone ++ rg_records (popped out r)) ∧
  ∀ p rest, rg_records (popped out r) = p :: rest → out (rg_size (popped out r)) p = false.
Proof.
  intros [H1 H2 H3 H4] Hc. unfold popped. destruct (pop_while _ _ _ _) as [[l size] dropped] eqn:E. simpl.
  apply pop_while_spec in E as [(gone & Hl & -> & _) Hh]. pose proof (total_nonneg gone).
  split; [|by eauto]. rewrite Hl, total_app in H2. split; simpl; [done|lia|lia|].
  rewrite Hl in H4. by eapply aged_suffix.
Qed.

Lemma expire_ok bytes c c' wall r :
  ring_ok bytes c r → c <= c' →
  let '(r', live) := expire r c' wall in
  ring_ok bytes c' r' ∧ rg_policy r' = rg_policy r ∧
  (∀ p, p ∈ rg_records r' → horizon r c' < p_at p) ∧ (live = false → rg_records r' = []).
Proof.
  intros Hr Hc. unfold expire. set (out := λ (_ : Z) (p : packet), _).
  destruct (popped_ok out bytes c c' r Hr Hc) as (H1 & H2 & _ & _ & H4). split_and!; [done|done| |].
  - intros p Hp. destruct (rg_records (popped out r)) as [|q rest] eqn:E; [by apply elem_of_nil in Hp|].
    specialize (H4 _ _ eq_refl). unfold out in H4. to_prop.
    pose proof (ok_aged _ _ _ H1) as [Hs _]. rewrite E in Hs. inversion Hs as [|? ? _ Hall]; subst.
    unfold horizon. apply elem_of_cons in Hp as [->|Hp]; [lia|].
    rewrite Forall_forall in Hall. specialize (Hall p Hp). lia.
  - intros Hl. destruct (rg_records (popped out r)) as [|q rest] eqn:E; [done|].
    specialize (H4 _ _ eq_refl). unfold out in H4. apply negb_false_iff in Hl. by rewrite Hl in H4.
Qed.

Lemma append_ok bytes c c' wall ts record r r' b :
  ring_ok bytes c r → c <= c' → append r c' wall ts record = Ok (r', b) →
  ring_ok bytes c' r' ∧ rg_policy r' = rg_policy r ∧ ∀ p, p ∈ rg_records r' → horizon r c' < p_at p ∨ p_at p = c'.
Proof.
  intros Hr Hc. unfold append. pose proof (expire_ok bytes c c' wall r Hr Hc) as He.
  destruct (expire r c' wall) as [r1 live]. destruct He as (H1 & H2 & H3 & H4).
  destruct live; simpl; [|intros [= <- <-]; split_and!; auto].
  rewrite (ok_bytes _ _ _ H1). simpl. destruct (bytes <? _) eqn:E.
  - intros [= <- <-]. split_and!; [|done|auto]. destruct H1. by split.
  - set (out := λ (size : Z) (_ : packet), _).
    destruct (popped_ok out bytes c' c' r1 H1 ltac:(lia)) as (P1 & P2 & _ & (gone & Hg) & P4).
    intros [= <- <-]. to_prop. split_and!; simpl; [|congruence|].
    + destruct P1 as [A1 A2 A3 A4]. split; simpl; [done| | |].
      * rewrite total_app. simpl. lia.
      * destruct (rg_records (popped out r1)) as [|q rest] eqn:Eq; [simpl in A2; lia|].
        specialize (P4 _ _ eq_refl). unfold out in P4. cbv beta in P4. apply Z.ltb_ge in P4. exact P4.
      * by apply aged_snoc.
    + intros p [Hp| ->%list_elem_of_singleton]%elem_of_app; [|by right]. left. apply H3.
      rewrite Hg. apply elem_of_app. by right.
Qed.

(** Rings built by the operations, with the last reading of a clock that does not go
    back. *)
Inductive ring_run : Z → ring → Prop :=
| run_open policy wall c r : PacketRing policy wall = Ok r → ring_run c r
| run_expire c c' wall r : ring_run c r → c <= c' → ring_run c' (expire r c' wall).1
| run_close c c' wall r : ring_run c r → c <= c' → ring_run c' (close r c' wall)
| run_append c c' wall ts record r r' b :
    ring_run c r → c <= c' → append r c' wall ts record = Ok (r', b) → ring_run c' r'
| run_slice c c' wall start stop limit r :
    ring_run c r → c <= c' → ring_run c' (slice r c' wall start stop limit).1
| run_ingest c c' clocks r s :
    ring_run c r → (∀ n, c <= (clocks n).1 <= c') → (∀ n m, (n <= m)%nat → (clocks m).1 <= (clocks n).1) →
    ring_run c' (ingest clocks r s).1.

Lemma with_header_ok bytes c r h :
  ring_ok bytes c r →
  ring_ok bytes c {| rg_policy := rg_policy r; rg_records := rg_records r; rg_size := rg_size r;
                     rg_dropped := rg_dropped r; rg_header := h; rg_closed := rg_closed r |}.
Proof. intros []. by split. Qed.
Lemma ring_ok_later bytes c c' r : ring_ok bytes c r → c <= c' → ring_ok bytes c' r.
Proof. intros [H1 H2 H3 H4] Hc. split; [done..|]. by apply (aged_suffix c c' []). Qed.

Lemma ingest_loop_ok bytes c c' clocks little snaplen fuel r s :
  ring_ok bytes c r → (∀ n, (n <= fuel)%nat → c <= (clocks n).1 <= c') →
  (∀ n m, (n <= m)%nat → (clocks m).1 <= (clocks n).1) →
  ring_ok bytes c' (ingest_loop fuel clocks little snaplen r s).1 ∧
  rg_policy (ingest_loop fuel clocks little snaplen r s).1 = rg_policy r.
Proof.
  revert c r s. induction fuel as [|fuel IH]; intros c r s Hr Hb Hm.
  all: cbn [ingest_loop]; pose proof (Hb _ (le_n _)) as Hn; destruct (clocks _) as [clock wall] eqn:Ec; simpl in Hn;
    pose proof (expire_ok bytes c clock wall r Hr ltac:(lia)) as He;
    destruct (expire r clock wall) as [r1 live]; destruct He as (H1 & H2 & _);
    pose proof (ring_ok_later _ _ c' _ H1 ltac:(lia)) as H1';
    destruct live; cbn [negb]; [|by split]; destruct (read_exact 16 s) as [[rec_ s1]|]; [|by split];
    destruct (String.eqb rec_ ""); [by split|]; destruct (_ || _); [by split|];
    destruct (read_exact _ s1) as [[data s2]|]; [|by split]; destruct (negb _); [by split|];
    destruct (append r1 clock wall _ _) as [[r2 b]|] eqn:Ea; [|by split];
    pose proof (append_ok _ _ _ _ _ _ _ _ _ H1 (Z.le_refl _) Ea) as (H3 & H4 & _).
  - split; [|simpl; congruence]. apply (ring_ok_later _ clock); [done|lia].
  - destruct (IH clock r2 s2 H3) as [A B]; [|done|split; [done|congruence]].
    intros n Hle. split; [|apply Hb; lia]. specialize (Hm n (S fuel) ltac:(lia)). rewrite Ec in Hm. done.
Qed.

Lemma ingest_ok bytes c c' clocks r s :
  ring_ok bytes c r → (∀ n, c <= (clocks n).1 <= c') → (∀ n m, (n <= m)%nat → (clocks m).1 <= (clocks n).1) →
  ring_ok bytes c' (ingest clocks r s).1 ∧ rg_policy (ingest clocks r s).1 = rg_policy r.
Proof.
  intros Hr Hb Hm. assert (Hr' : ring_ok bytes c' r) by (apply (ring_ok_later _ c); [done|specialize (Hb 0%nat); lia]).
  unfold ingest. destruct (read_exact 24 s) as [[header s1]|]; [|by split].
  destruct (_ || _); [by split|]. destruct (negb _); [by split|].
  destruct (match rg_header r with Some h => _ | None => _ end); [by split|].
  destruct (ingest_loop_ok bytes c c' clocks (String.eqb (take_chars 4 header) magic_le)
    (field (String.eqb (take_chars 4 header) magic_le) 16 4 header) (String.length s1)
    _ s1 (with_header_ok _ _ _ (Some header) Hr)) as [A B]; auto.
Qed.

Lemma ring_run_ok c r : ring_run c r → ∃ bytes, ring_ok bytes c r.
Proof.
  induction 1 as [policy wall c r H|c c' wall r _ [bytes IH] Hc|c c' wall r _ [bytes IH] Hc
    |c c' wall ts record r r' b _ [bytes IH] Hc H|c c' wall start stop limit r _ [bytes IH] Hc
    |c c' clocks r s _ [bytes IH] Hb Hm].
  - unfold PacketRing in H. inv_ok. apply andb_true_iff in Hm1 as [Hm1 _]. apply andb_true_iff in Hm1 as [_ Hm1].
    apply Z.leb_le in Hm1. eexists. split; simpl; [exact Hm0|done|lia|].
    split; [constructor|]. intros p Hp. by apply elem_of_nil in Hp.
  - exists bytes. pose proof (expire_ok _ _ c' wall _ IH Hc) as He. by destruct (expire r c' wall), He.
  - exists bytes. unfold close. set (r0 := {| rg_policy := _ |}).
    assert (H0 : ring_ok bytes c r0) by (destruct IH; by split).
    pose proof (expire_ok _ _ c' wall _ H0 Hc) as He. by destruct (expire r0 c' wall), He.
  - exists bytes. by destruct (append_ok _ _ _ _ _ _ _ _ _ IH Hc H).
  - exists bytes. unfold slice. pose proof (expire_ok _ _ c' wall _ IH Hc) as He.
    destruct (expire r c' wall) as [r1 live], He. simpl. by destruct (select _ _ _ _ _ _) as [[? ?] ?].
  - exists bytes. by destruct (ingest_ok _ _ _ _ _ s IH Hb Hm).
Qed.

(** ** Facts: the fuel of the ingestion *)

Lemma read_exact_rest n s a b :
  read_exact n s = Ok (a, b) → (String.length b + String.length a = String.length s)%nat.
Proof.
  clear. unfold read_exact. destruct (String.eqb_spec s "") as [->|]; [by intros [= <- <-]|].
  destruct (_ <? _)%nat; [done|]. intros [= <- <-]. revert s n0. induction n as [|n IH]; intros s Hs; simpl; [lia|].
  destruct s as [|c s]; [done|]. simpl. destruct s as [|d s]; [by destruct n|]. specialize (IH (String d s) ltac:(done)). lia.
Qed.

Lemma read_exact_exn n s e : read_exact n s = Raise e → e = ValueError.
Proof. unfold read_exact. destruct (String.eqb s ""); [done|]. destruct (_ <? _)%nat; [|done]. by intros [= <-]. Qed.

Lemma ring_bytes_exn policy : ring_bytes policy ≠ Raise OtherError.
Proof.
  unfold ring_bytes, py_int. destruct (dget_or _ _ _) as [| | |f|s| |]; try done.
  - by destruct f.
  - by destruct (parse_int s).
Qed.
Lemma append_exn r clock wall ts record : append r clock wall ts record ≠ Raise OtherError.
Proof.
  unfold append. destruct (expire r clock wall) as [r1 []]; simpl; [|done].
  pose proof (ring_bytes_exn (rg_policy r1)) as H. destruct (ring_bytes _) as [b|e]; simpl; [|congruence].
  by destruct (_ <? _).
Qed.

(** The loop never runs out of fuel: each round reads at least one byte. *)
Lemma ingest_loop_terminates fuel clocks little snaplen r s :
  (String.length s <= fuel)%nat → (ingest_loop fuel clocks little snaplen r s).2 ≠ Raise OtherError.
Proof.
  revert r s. induction fuel as [|fuel IH]; intros r s Hs; cbn [ingest_loop]; destruct (clocks _) as [clock wall];
    destruct (expire r clock wall) as [r1 live]; destruct live; cbn [negb]; try done.
  - destruct s; [|simpl in Hs; lia]. done.
  - destruct (read_exact 16 s) as [[rec_ s1]|e] eqn:E1; [|by rewrite (read_exact_exn _ _ _ E1)].
    destruct (String.eqb_spec rec_ "") as [|Hne]; [done|]. destruct (_ || _); [done|].
    destruct (read_exact _ s1) as [[data s2]|e] eqn:E2; [|by rewrite (read_exact_exn _ _ _ E2)].
    destruct (negb _); [done|].
    pose proof (append_exn r1 clock wall (field little 0 4 rec_ * second + field little 4 4 rec_) (rec_ +:+ data)) as Ha.
    destruct (append r1 clock wall _ _) as [[r2 b]|]; [|simpl; intros [= ->]; by destruct Ha]. apply IH.
    apply read_exact_rest in E1, E2. destruct rec_; [done|]. simpl in E1. lia.
Qed.

(** ** Facts: the slice *)

Lemma select_spec start stop limit l out n out' n' t :
  select start stop limit l out n = (out', n', t) →
  ∃ taken, out' = out +:+ String.concat "" (map p_data taken) ∧ n' = n + Z.of_nat (length taken) ∧
    taken `sublist_of` l ∧ (∀ p, p ∈ taken → start <= p_ts p < stop) ∧
    (len out <= limit → len out' <= limit) ∧
    (t = false → ∀ p, p ∈ l → start <= p_ts p < stop → p ∈ taken).
Proof.
  revert out n. induction l as [|p l IH]; intros out n; simpl.
  - intros [= <- <- <-]. exists []. simpl. rewrite sapp_nil_r. split_and!; [done|lia|constructor| |done|].
    + intros p Hp. by apply elem_of_nil in Hp.
    + intros _ p Hp. by apply elem_of_nil in Hp.
  - destruct (_ && _) eqn:Ew.
    + to_prop. destruct (limit <? _) eqn:El.
      * intros [= <- <- <-]. exists []. simpl. rewrite sapp_nil_r.
        split_and!; [done|lia|apply sublist_nil_l| |done|done]. intros q Hq. by apply elem_of_nil in Hq.
      * to_prop. intros (taken & -> & -> & H3 & H4 & H5 & H6)%IH. exists (p :: taken). split_and!.
        -- cbn [map]. by rewrite concat_cons, sapp_assoc.
        -- simpl. lia.
        -- by constructor.
        -- intros q [->|Hq]%elem_of_cons; [lia|by apply H4].
        -- intros Hl. apply H5. rewrite slength_app. lia.
        -- intros Ht q [->|Hq]%elem_of_cons Hw; [by left|right; by apply H6].
    + intros (taken & -> & -> & H3 & H4 & H5 & H6)%IH. exists taken. split_and!; try done; [by constructor|].
      intros Ht q [->|Hq]%elem_of_cons Hw; [|by apply H6]. exfalso.
      apply andb_false_iff in Ew as [Ew|Ew]; to_prop; lia.
Qed.
End ring_facts.

(** ** Facts: the trace *)

Section trace_facts.
Context (P : event → Prop).

(** Only events that satisfy [P] are added. *)
Definition adds (w w' : world) : Prop := ∃ evs, w_trace w' = w_trace w ++ evs ∧ Forall P evs.

#[local] Instance adds_preorder : PreOrder adds.
Proof.
  split.
  - intros w. exists []. by rewrite app_nil_r.
  - intros x y z (l & E & Hl) (l' & E' & Hl'). exists (l ++ l'). rewrite E', E, app_assoc. split; [done|].
    by apply Forall_app.
Qed.

Lemma adds_emit e : P e → frames adds (emit e).
Proof. intros He w. exists [e]. split; [done|by repeat constructor]. Qed.
Lemma adds_audit sink entry : P (audited entry) → frames adds (audit sink entry).
Proof using Type. intros He. unfold audit. destruct (sink entry); [by apply adds_emit|apply frames_raise; tc_solve]. Qed.
Lemma adds_lift_bind {A B} (r : res A) (k : A → M world B) :
  (∀ a, r = Ok a → frames adds (k a)) → frames adds (bind (lift r) k).
Proof. intros Hk w. unfold bind, lift. destruct r as [a|e]; [by apply Hk|reflexivity]. Qed.
Lemma adds_ring {A} (f : ring → ring * A) : frames adds (on_ring f).
Proof. intros w. unfold on_ring. destruct (f (w_ring w)) as [g a]. exists []. simpl. by rewrite app_nil_r. Qed.
Lemma adds_budget {A} (m : M budget A) : frames adds (on_budget m).
Proof. intros w. unfold on_budget. destruct (m (w_budget w)) as [b r]. exists []. simpl. by rewrite app_nil_r. Qed.
Lemma adds_handler {A} (m : M world A) (h : M world unit) :
  frames adds m → frames adds h → frames adds (on_exception m h) ∧ frames adds (finally m h).
Proof.
  intros Hm Hh. split; intros w; unfold on_exception, finally, bind, raise, ret; specialize (Hm w);
    destruct (m w) as [w' [a|e]]; simpl in *; try done; specialize (Hh w');
    destruct (h w') as [w2 [u|e2]]; simpl in *; by etrans.
Qed.
End trace_facts.

#[local] Hint Resolve adds_preorder : typeclass_instances.

Section preserve_facts.
Context (is_address : val → bool) (mac : dict → string → res string) (sha256 : string → string)
  (repr : val → string) (sink : dict → bool) (carve : string → val → res string) (show_seconds : Z → string).

(** The directive carries the MAC of its other fields under the policy's key, and names
    the policy's tenant, sensor and identity. *)
Definition signed_for (d policy : dict) : Prop :=
  (∃ key tag, dgetN "signing_key" policy = VStr key ∧
     mac (List.filter (λ kv, negb (String.eqb kv.1 "authorization")) d) key = Ok tag ∧
     dget_or "authorization" (VStr "") d = VStr tag) ∧
  ∀ k, k ∈ ["tenant_id"; "sensor_id"; "policy_id"] → py_eqb (dgetN k d) (dgetN k policy) = true.

(** An acceptable upload for a directive under a policy. *)
Definition upload_ok (s3 : object_store) (d policy : dict) (now : Z) (e : event) : Prop :=
  match e with
  | put bucket obj data meta =>
      signed_for d policy ∧ now < ticks (dgetN "expires_at" policy) ∧
      existsb (lifecycle_ok (limit_of "retention_s" d)) (lifecycle_rules s3) = true ∧
      24 < len data <= the_int (dgetN "max_bytes" policy) ∧
      (∃ cut, carve cut (dgetN "value" d) = Ok data) ∧
      in_tenant_namespace (VStr (bucket +:+ "/" +:+ obj)) (tenant_segment sha256 repr (dgetN "tenant_id" d))
        "ndr-pcap" = true ∧
      dget "tenant-id" meta = Some (VStr (sha256 (text_of "tenant_id" d)))
  | _ => True
  end.

Lemma partition_join key : starts_with "ndr-pcap/" key = true →
  (partition_slash key).1 +:+ "/" +:+ (partition_slash key).2 = key.
Proof.
  clear. intros (s & ->)%starts_with_inv. unfold partition_slash.
  change ("ndr-pcap/" +:+ s) with ("ndr-pcap" +:+ String "/" s).
  rewrite (split_app "/" "ndr-pcap") by done. simpl fst. simpl snd.
  assert (H : join "/" (split_char "/" s) = s).
  { assert (Hne : ∀ t, split_char "/" t ≠ []).
    { intros t. destruct t as [|c t]; cbn [split_char]; [done|]. destruct (Ascii.eqb "/" c); [done|].
      by destruct (split_char "/" t). }
    induction s as [|c s IH]; [done|]. cbn [split_char]. specialize (Hne s).
    destruct (Ascii.eqb_spec "/" c) as [<-|].
    - destruct (split_char "/" s) as [|w ws]; [done|]. cbn in *. by rewrite IH.
    - destruct (split_char "/" s) as [|w ws]; [done|]. unfold join in *. destruct ws; cbn in *; congruence. }
  by rewrite H.
Qed.

Lemma authorize_inv d policy now :
  authorize is_address mac d policy now true = Ok tt →
  signed_for d policy ∧ now < ticks (dgetN "expires_at" policy) ∧
  limit_of "max_bytes" d <= the_int (dgetN "max_bytes" policy).
Proof.
  clear sha256 repr sink carve show_seconds. unfold authorize. intros H.
  apply bind_ok_inv in H as (u1 & _ & H). apply bind_ok_inv in H as (u2 & _ & H).
  apply bind_ok_inv in H as (u3 & H3 & H). apply bind_ok_inv in H as (u4 & H4 & H).
  apply bind_ok_inv in H as (u5 & _ & H). cbv iota in H. apply bind_ok_inv in H as (tag & Htag & H).
  apply check_ok_inv in H3, H4, H. apply val_eq_str_true in H.
  apply andb_true_iff in H3 as [H3 Hexp]. rewrite forallb_forall in H3, H4.
  unfold sign in Htag. destruct (dgetN "signing_key" policy) as [| | | |key| |] eqn:Ek; try done.
  apply bind_ok_inv in Htag as (u6 & _ & Htag). split; [split|split].
  - by exists key, tag.
  - intros k Hk. by apply H3, list_elem_of_In.
  - by apply Z.ltb_lt.
  - apply Z.leb_le, H4. by left.
Qed.

Lemma preserve_upload_adds s3 d policy clock now :
  preserve_checks is_address mac s3 d policy now = Ok tt →
  frames (adds (upload_ok s3 d policy now))
    (preserve_upload sha256 repr sink carve show_seconds s3 d policy clock now).
Proof.
  intros Hchk. unfold preserve_checks in Hchk. inv_ok. destruct a.
  apply authorize_inv in Hm as (Hsig & Hexp & Hlim).
  unfold preserve_upload. apply frames_bind; [tc_solve|apply adds_ring|]. intros [data cov].
  apply adds_lift_bind. intros _ _. apply adds_lift_bind. intros cut Hcut.
  apply adds_lift_bind. intros u Hlen. apply check_ok_inv in Hlen. to_prop.
  set (key := pcap_key sha256 repr _).
  assert (Hns : in_tenant_namespace (VStr key) (tenant_segment sha256 repr (dgetN "tenant_id" d)) "ndr-pcap" = true).
  { apply (pcap_key_in_namespace sha256 repr
      [("tenant_id", dgetN "tenant_id" d); ("capture_profile", VStr "preserve");
       ("finding_id", VStr (sha256 (text_of "request_id" d)))]). }
  assert (Hpre : starts_with "ndr-pcap/" key = true).
  { unfold in_tenant_namespace, in_namespace in Hns. apply starts_with_inv in Hns as [rest ->].
    apply starts_with_inv_app. eexists. by rewrite !sapp_assoc. }
  pose proof (partition_join key Hpre) as Hj. destruct (partition_slash key) as [bucket obj]. simpl in Hj.
  apply frames_bind; [tc_solve|by apply adds_audit|intros _].
  apply frames_bind; [tc_solve|apply adds_emit|intros _].
  { simpl. rewrite Hj. split; [exact Hsig|]. split_and!; [done|done|lia|lia|by eexists|done|done]. }
  apply adds_lift_bind. intros _ _.
  apply frames_bind; [tc_solve|by apply adds_audit|intros _]. apply frames_ret. tc_solve.
Qed.
End preserve_facts.

(** ** Properties *)

(** The ring holds only what the policy allows.  Whatever is captured, closed or
    sliced, the bytes held (with the overhead charged per record) and the header fit
    the policy's ring size; after any expiry check every record left is younger than
    the policy's horizon, and nothing at all is left once the policy has expired or
    the ring was closed. *)
Theorem ring_stays_bounded c r c' wall :
  ring_run c r → c <= c' →
  ∃ bytes, ring_bytes (rg_policy r) = Ok bytes ∧ total (rg_records r) + 24 <= bytes ∧
    let '(r', live) := expire r c' wall in
    (∀ p, p ∈ rg_records r' → horizon r c' < p_at p) ∧
    (rg_closed r = true ∨ ticks (dgetN "expires_at" (rg_policy r)) <= wall → live = false ∧ rg_records r' = []).
Proof.
  intros H Hc. apply ring_run_ok in H as [bytes Hr]. exists bytes.
  pose proof Hr as [H1 H2 H3 _]. split; [done|]. split; [lia|].
  pose proof (expire_ok bytes c c' wall r Hr Hc) as He. destruct (expire r c' wall) as [r' live] eqn:E.
  destruct He as (_ & _ & Ha & Hd). split; [done|]. intros Hx.
  assert (live = false) as ->; [|by auto]. unfold expire in E. injection E as _ <-.
  apply negb_false_iff, orb_true_iff. destruct Hx as [->|Hx]; [by left|right]. by apply Z.leb_le.
Qed.

Definition sample_policy : dict :=
  [("enabled", VBool true); ("sensitive", VBool false); ("tenant_id", VStr "acme"); ("sensor_id", VStr "s1");
   ("policy_id", VStr "p1"); ("expires_at", VInt 1000); ("ring_seconds", VInt 60); ("ring_bytes", VInt 65536);
   ("min_free_bytes", VInt 0); ("max_bytes", VInt 4096); ("max_duration_s", VInt 60); ("retention_s", VInt 86400);
   ("max_jobs", VInt 1); ("requests_per_hour", VInt 2); ("bytes_per_hour", VInt 8192);
   ("tenant_bytes_per_hour", VInt 8192); ("signing_key", VStr "0123456789abcdef0123456789abcdef")].
Definition opened : ring :=
  {| rg_policy := sample_policy; rg_records := []; rg_size := 0; rg_dropped := 0; rg_header := None;
     rg_closed := false |}.
Definition one_packet : ring :=
  match append opened (5 * second) 0 (5 * second) "0123456789abcdef-packet-bytes" with Ok (r, _) => r | Raise _ => opened end.

Lemma ring_stays_bounded_witness :
  ∃ bytes, ring_bytes (rg_policy one_packet) = Ok bytes ∧ total (rg_records one_packet) + 24 <= bytes ∧
    let '(r', live) := expire one_packet (6 * second) 0 in
    (∀ p, p ∈ rg_records r' → horizon one_packet (6 * second) < p_at p) ∧
    (rg_closed one_packet = true ∨ ticks (dgetN "expires_at" (rg_policy one_packet)) <= 0 →
     live = false ∧ rg_records r' = []).
Proof.
  apply (ring_stays_bounded (5 * second) one_packet (6 * second) 0); [|vm_compute; discriminate].
  apply (run_append 0 (5 * second) 0 (5 * second) "0123456789abcdef-packet-bytes" opened one_packet true);
    [apply (run_open sample_policy 0); vm_compute; reflexivity|vm_compute; discriminate|vm_compute; reflexivity].
Defined.

(** C23. Nothing is preserved without authority.  Whatever happens during a preserve
    (refusals, failed saves, uploads or audit records), any object it uploads is the
    carver's output, never raw ring bytes; its size is within the policy's limit; it
    lies in the namespace of the directive's tenant and is labelled with that tenant;
    and the upload happened only because the directive is signed and within the ring's
    own policy, and the bucket has an enabled expiration rule within the requested
    retention.  Before anything else the request is audited: if that record is refused,
    the preserve does nothing. *)
Theorem preserve_uploads_authorized is_address mac sha256 repr sink carve show_seconds s3 d clock now bnow
    disk disk' w :
  let preserved := preserve is_address mac sha256 repr sink carve show_seconds s3 d clock now bnow disk disk' w in
  (∃ evs, w_trace preserved.1 = w_trace w ++ evs ∧
     Forall (upload_ok mac sha256 repr carve s3 d (rg_policy (w_ring w)) now) evs) ∧
  (sink (action "pcap.preserve.request" (preserve_event d)) = false → preserved = (w, Raise OtherError)).
Proof.
  intros preserved. subst preserved. set (policy := rg_policy (w_ring w)).
  set (P := upload_ok mac sha256 repr carve s3 d policy now). split.
  - unfold preserve, bind at 1. unfold audit at 1. destruct (sink _); [|exists []; by rewrite app_nil_r].
    unfold bind at 1, read. simpl. fold policy. set (w1 := {| w_trace := _ |}).
    assert (Hf : adds P w1 ((on_exception
        (lift (preserve_checks is_address mac s3 d policy now) ;*
         on_budget (reserve (text_of "tenant_id" d) (text_of "request_id" d) (text_of "sensor_id" d)
           (limit_of "max_bytes" d) (quota_of policy) bnow disk))
        (audit sink (action "pcap.preserve.failed" (preserve_event d))) ;*
      finally (on_exception (preserve_upload sha256 repr sink carve show_seconds s3 d policy clock now)
                 (audit sink (action "pcap.preserve.failed" (preserve_event d))))
        (on_budget (finish (text_of "tenant_id" d) (text_of "request_id" d) (text_of "sensor_id" d) disk'))) w1).1).
    { destruct (preserve_checks is_address mac s3 d policy now) as [[]|e] eqn:Ec.
      - apply (frames_bind (adds P)).
        + apply adds_handler; [|by apply adds_audit]. apply adds_lift_bind. intros _ _. apply adds_budget.
        + intros _. apply adds_handler; [|apply adds_budget]. apply adds_handler; [|by apply adds_audit].
          by apply (preserve_upload_adds is_address).
      - unfold bind at 1, on_exception at 1. unfold bind at 1, lift. simpl.
        pose proof (adds_audit P sink (action "pcap.preserve.failed" (preserve_event d)) I w1) as Ha.
        unfold bind, raise. destruct (audit sink _ w1) as [w2 [u|e2]]; exact Ha. }
    destruct Hf as (evs & E & Hevs).
    exists (audited (action "pcap.preserve.request" (preserve_event d)) :: evs). split; [|by constructor].
    unfold bind in E. unfold bind. rewrite E. simpl. by rewrite <- app_assoc.
  - intros Hs. unfold preserve, bind at 1. unfold audit at 1. by rewrite Hs.
Qed.

(** A complete preserve: signed, reserved, cut, carved, uploaded and finished. *)
Definition all_zeros : string → string := λ _, zeros.
Definition plain_mac (d : dict) (k : string) : res string := Ok "signed".
Definition sample_request : dict :=
  [("schema_version", VStr "capture-request.v2"); ("mode", VStr "preserve"); ("request_id", VStr "r1");
   ("tenant_id", VStr "acme"); ("sensor_id", VStr "s1"); ("finding_id", VStr "f1"); ("reason", VStr "beacon");
   ("policy_id", VStr "p1"); ("capture_profile", VStr "ip"); ("value", VStr "10.0.0.1");
   ("window", VDict [("start", VInt 4); ("end", VInt 8)]);
   ("limits", VDict [("max_bytes", VInt 1024); ("max_duration_s", VInt 60); ("retention_s", VInt 86400)]);
   ("expires_at", VInt 100); ("authorization", VStr "signed")].
Definition sample_store : object_store :=
  {| versioning := VNone; free_disk := 1000000; put_object := λ _ _, true; get_object := λ _ _, None;
     lifecycle_rules := [[("Status", VStr "Enabled");
       ("Filter", VDict [("Tag", VDict [("Key", VStr "cernity-pcap"); ("Value", VStr "v2")])]);
       ("Expiration", VDict [("Days", VInt 1)])]] |}.
Definition sample_world : world := {| w_ring := one_packet; w_budget := budget_load []; w_trace := [] |}.
Example preserve_completes :
  let '(w, r) := preserve (λ _, true) plain_mac all_zeros no_repr (λ _, true) (λ s _, Ok s) pretty
    sample_store sample_request (9 * second) (9 * second) (9 * second) s_done s_done sample_world in
  length (w_trace w) = 4%nat ∧ is_ok r = true ∧ active_jobs (map snd (entries (w_budget w))) = 0.
Proof. vm_compute. auto. Qed.

Lemma check_object_inv sha256 o g now max_size data :
  check_object sha256 o g now max_size = Ok data →
  ∃ t, dgetN "tenant_id" g = VStr t ∧ dget "tenant-id" (o_metadata o) = Some (VStr (sha256 t)) ∧
    dget "sha256" (o_metadata o) = Some (VStr (sha256 data)) ∧ len data = o_length o ∧ len data <= max_size.
Proof.
  assert (Hidx : ∀ k v, dindex k (o_metadata o) = Ok v → dget k (o_metadata o) = Some v).
  { intros k v. unfold dindex. destruct (dget k _); [by intros [= ->]|done]. }
  unfold check_object. intros H. apply bind_ok_inv in H as (raw & _ & H). apply bind_ok_inv in H as (f & _ & H).
  apply bind_ok_inv in H as (owner & Ho & H). destruct (_ || _) in Ho; [done|]. apply Hidx in Ho.
  apply bind_ok_inv in H as (t & Ht & H). destruct (dgetN "tenant_id" g) as [| | | |t'| |]; try done.
  injection Ht as ->. apply bind_ok_inv in H as (u1 & H1 & H). apply bind_ok_inv in H as (u2 & H2 & H).
  apply bind_ok_inv in H as (u3 & H3 & H). apply bind_ok_inv in H as (digest & Hd & H). apply Hidx in Hd.
  apply bind_ok_inv in H as (u4 & H4 & H). injection H as <-.
  apply check_ok_inv in H1, H2, H3, H4. apply val_eq_str_true in H1 as ->, H4 as ->. to_prop.
  exists t. by split_and!.
Qed.

(** The right to read a key: the packet-read right of a named actor and tenant, and a
    safe key inside that tenant's namespace. *)
Definition readable (sha256 : string → string) (repr : val → string) (ref : val) (g : dict) : Prop :=
  dgetN "pcap_read" g = VBool true ∧ truthy (dgetN "tenant_id" g) = true ∧ truthy (dgetN "actor" g) = true ∧
  valid_key ref = true ∧ in_tenant_namespace ref (tenant_segment sha256 repr (dgetN "tenant_id" g)) "ndr-pcap" = true.
Lemma may_read_readable sha256 repr ref g : may_read sha256 repr ref g = true → readable sha256 repr ref g.
Proof.
  unfold may_read. rewrite !andb_true_iff. intros [[[[H1 H2] H3] H4] H5]. split_and!; try done.
  by destruct (dgetN "pcap_read" g) as [|[]| | | | |].
Qed.

Lemma fetch_spec sink s3 bucket obj (chk : object → res string) (entry : string → dict) failed w :
  let body := on_exception
    (emit (got bucket obj) ;*
     let* data := lift (match get_object s3 bucket obj with Some o => chk o | None => Raise OtherError end) in
     audit sink (entry data) ;* ret data) (audit sink failed) in
  (∃ evs, w_trace (body w).1 = w_trace w ++ got bucket obj :: evs ∧ ∀ b k, got b k ∉ evs) ∧
  ∀ data, (body w).2 = Ok data → ∃ o, get_object s3 bucket obj = Some o ∧ chk o = Ok data.
Proof.
  intros body. subst body. unfold on_exception, bind, emit, modify, lift, audit, ret, raise. simpl.
  assert (Hs : ∀ e b k, got b k ∉ [audited e]) by (intros e b k H; by apply list_elem_of_singleton in H).
  assert (Hn : ∀ b k, got b k ∉ []) by (intros b k H; by apply elem_of_nil in H).
  destruct (get_object s3 bucket obj) as [o|]; [destruct (chk o) as [data|] eqn:Ec|]; simpl;
    repeat match goal with |- context[if ?b then _ else _] => destruct b; simpl end;
    (split; [|intros x Hx; simplify_eq; by eauto]); eexists; rewrite <- ?app_assoc; simpl; split; eauto.
Qed.

Definition noted (e : event) (w : world) : world :=
  {| w_ring := w_ring w; w_budget := w_budget w; w_trace := w_trace w ++ [e] |}.

(** The two courses of a download: refused, or one audited fetch. *)
Lemma retrieve_cases sha256 repr sink s3 ref auth tokens now max_size w :
  let result := retrieve_pcap sha256 repr sink s3 ref auth tokens now max_size w in
  (∃ entry e, result = (noted (audited entry) w, Raise e) ∨ result = (w, Raise e)) ∨
  ∃ g key attempt entry failed, grant_of auth tokens = Some g ∧ ref = VStr key ∧
    may_read sha256 repr ref g = true ∧
    result = on_exception
      (emit (got (partition_slash key).1 (partition_slash key).2) ;*
       let* data := lift (match get_object s3 (partition_slash key).1 (partition_slash key).2 with
                          | Some o => check_object sha256 o g now max_size
                          | None => Raise OtherError
                          end) in
       audit sink (entry data) ;* ret data) (audit sink failed) (noted (audited attempt) w).
Proof.
  intros result. subst result. unfold retrieve_pcap. cbv zeta.
  assert (Hdeny : ∀ x, ∃ entry e, (audit sink x ;* @raise world string PermissionError) w = (noted (audited entry) w, Raise e) ∨
      (audit sink x ;* @raise world string PermissionError) w = (w, Raise e)).
  { intros x. unfold bind, audit, raise, emit, modify. destruct (sink x); [exists x, PermissionError; by left|exists x, OtherError; by right]. }
  destruct (grant_of auth tokens) as [g|]; [|left; apply Hdeny].
  destruct ref as [| | | |key| |]; try (left; apply Hdeny).
  destruct (may_read sha256 repr (VStr key) g) eqn:Em; [|left; apply Hdeny].
  set (ev := [_; _; _; _]). destruct (sink (dset "outcome" (VStr "attempt") ev)) eqn:Es;
    [right|left; exists [], OtherError; right; unfold bind at 1, audit at 1; by rewrite Es].
  exists g, key, (dset "outcome" (VStr "attempt") ev),
    (λ data, dset "bytes" (VInt (len data)) (dset "outcome" (VStr "success") ev)),
    (dset "outcome" (VStr "failed") ev). split_and!; [done|done|done|].
  destruct (partition_slash key) as [bucket obj]. cbn [fst snd]. unfold bind at 1, audit at 1. rewrite Es.
  match goal with |- _ = ?m ?x => change (bind m ret x = m x); unfold bind at 1; by destruct (m x) as [? []] end.
Qed.

(** Downloads are authorized, audited and verified.  The object store is touched
    only for a bearer token of the server's table that grants the packet-read right, and
    only at a safe key inside that grant's own tenant namespace, after the attempt was
    audited; data is returned only from an object labelled with that tenant, within the
    size budget, of the announced length and with the recorded digest. *)
Theorem download_authorized sha256 repr sink s3 ref auth tokens now max_size w :
  let result := retrieve_pcap sha256 repr sink s3 ref auth tokens now max_size w in
  (∃ evs, w_trace result.1 = w_trace w ++ evs ∧ ∀ bucket obj, got bucket obj ∈ evs →
     ∃ g key attempt rest, grant_of auth tokens = Some g ∧ ref = VStr key ∧ readable sha256 repr ref g ∧
       partition_slash key = (bucket, obj) ∧ evs = audited attempt :: rest) ∧
  (∀ data, result.2 = Ok data → ∃ g t key o, grant_of auth tokens = Some g ∧ ref = VStr key ∧
     readable sha256 repr ref g ∧ get_object s3 (partition_slash key).1 (partition_slash key).2 = Some o ∧
     dgetN "tenant_id" g = VStr t ∧ dget "tenant-id" (o_metadata o) = Some (VStr (sha256 t)) ∧
     dget "sha256" (o_metadata o) = Some (VStr (sha256 data)) ∧ len data = o_length o ∧ len data <= max_size).
Proof.
  intros result. destruct (retrieve_cases sha256 repr sink s3 ref auth tokens now max_size w)
    as [(entry & e & H)|(g & key & attempt & entry & failed & Hg & -> & Hm%may_read_readable & H)]; fold result in H.
  - split; [|intros data Hdata; by destruct H as [H|H]; rewrite H in Hdata].
    destruct H as [H|H]; rewrite H.
    + exists [audited entry]. split; [done|]. intros b k Hin. by apply list_elem_of_singleton in Hin.
    + exists []. split; [by rewrite app_nil_r|]. intros b k Hin. by apply elem_of_nil in Hin.
  - destruct (fetch_spec sink s3 (partition_slash key).1 (partition_slash key).2
      (λ o, check_object sha256 o g now max_size) entry failed (noted (audited attempt) w)) as [(evs & He & Hn) Hok].
    rewrite H. split.
    + exists (audited attempt :: got (partition_slash key).1 (partition_slash key).2 :: evs).
      split; [rewrite He; simpl; by rewrite <- app_assoc|].
      intros b k [Hin|[Hin|Hin]%elem_of_cons]%elem_of_cons; [done| |by apply Hn in Hin].
      injection Hin as -> ->. exists g, key, attempt. eexists. split_and!; try done. by destruct (partition_slash key).
    + intros data Hd. destruct (Hok data Hd) as (o & Ho & (t & Hc)%check_object_inv). exists g, t, key, o. tauto.
Qed.

(** A download that succeeds, with its three external events. *)
Definition sample_ref : string := "ndr-pcap/acme-" +:+ zeros +:+ "/x.pcap".
Definition stocked : object_store :=
  {| versioning := VNone; lifecycle_rules := []; free_disk := 0; put_object := λ _ _, true;
     get_object := λ _ _, Some {| o_metadata := [("tenant-id", VStr zeros); ("expires-at", VStr "100"); ("sha256", VStr zeros)];
                                  o_length := 5; o_body := "bytes" |} |}.
Example download_succeeds :
  let '(w, r) := retrieve_pcap all_zeros no_repr (λ _, true) stocked (VStr sample_ref) (VStr "Bearer tok")
    [("tok", VDict [("actor", VStr "ann"); ("tenant_id", VStr "acme"); ("pcap_read", VBool true)])]
    (9 * second) 100 sample_world in
  r = Ok "bytes" ∧ length (w_trace w) = 3%nat.
Proof. vm_compute. auto. Qed.
