(* ===== verification/FileArtifact.v ===== *)
(** * Carved-file artifacts (services/file-artifact/store.py)

    The gate between the untrusted staging uploads and the servable artifacts: archive
    validation, promotion into the accepted namespace, the retention check at start-up
    and the audited download.  The ZIP reader, SHA-256, the fetch of staged bytes and
    the audit sink are parameters; the bucket is a finite map.  Times are integers of
    one unit per second. *)

From S2P Require Import Prelude Order PyVal PyString OrderedMap ObjectKeys.
Set Default Proof Using "Type".

Definition EXTRACT_ROOT : string := "artifacts".

(** The service's environment. *)
Record artifact_env := { BUCKET : string; MAX_FILE_SIZE : Z; MAX_ARCHIVE_DEPTH : nat; RETENTION_DAYS : Z }.
Definition artifact_defaults : artifact_env :=
  {| BUCKET := "ndr-files"; MAX_FILE_SIZE := 67108864; MAX_ARCHIVE_DEPTH := 4; RETENTION_DAYS := 7 |}.

(** ** Archives *)

(** What the ZIP reader lists: [Raise] is any of the errors the code turns into a
    policy error, or another one. *)
Record member := { m_filename : string; m_is_dir : bool; m_size : Z; m_read : res string }.

Definition pk_magic (c d : ascii) : string := String "P" (String "K" (String c (String d ""))).
Definition zip_magics : list string := [pk_magic "003" "004"; pk_magic "005" "006"; pk_magic "007" "008"].

(** [os.path.normpath] of a relative path, as the list of its components. *)
Definition norm_step (acc : list string) (comp : string) : list string :=
  if mem comp [""; "."] then acc
  else if String.eqb comp ".." then
    match last acc with
    | None => acc ++ [comp]
    | Some l => if String.eqb l ".." then acc ++ [comp] else removelast acc
    end
  else acc ++ [comp].
Definition norm_parts (path : string) : list string := foldl norm_step [] (split_char "/" path).
Definition normpath (path : string) : string :=
  match norm_parts path with [] => "." | l => join "/" l end.

Definition backslash : ascii := "092".
Definition _escapes_root (name root : string) : bool :=
  if negb (str_truthy name) || starts_with "/" name || string_existsb (Ascii.eqb backslash) name then true
  else
    let dest := normpath (root +:+ "/" +:+ name) in
    negb (String.eqb dest root) && negb (starts_with (root +:+ "/") dest).

Section artifacts.
Context (is_zipfile : string → bool) (infolist : string → res (list member)) (sha256 : string → string)
  (repr : val → string) (sink : dict → bool).

Definition is_zip (data : string) : bool := mem (take_chars 4 data) zip_magics || is_zipfile data.

(** The entries of one archive; [nested] validates a member that is an archive. *)
Fixpoint check_members (max_size : Z) (nested : string → res unit) (l : list member) : res unit :=
  match l with
  | [] => Ok tt
  | m :: l =>
      check (negb (_escapes_root (m_filename m) EXTRACT_ROOT)) PolicyError;;
      if m_is_dir m then check_members max_size nested l
      else
        check (m_size m <=? max_size) PolicyError;;
        data ← m_read m;
        (if is_zip data then nested data else Ok tt);;
        check_members max_size nested l
  end.
(** [depth] levels may still be opened: the code's [max_depth - _depth + 1]. *)
Fixpoint validate_archive (depth : nat) (max_size : Z) (data : string) : res unit :=
  if negb (is_zip data) then Ok tt
  else
    match depth with
    | O => Raise PolicyError
    | S depth => l ← infolist data; check_members max_size (validate_archive depth max_size) l
    end.

(** ** The bucket and the gate *)

Record artifact := { f_data : string; f_modified : option Z; f_metadata : dict }.
Record fworld := { f_objects : gmap (string * string) artifact; f_log : list dict }.

Definition fnote (entry : dict) : M fworld unit :=
  if sink entry then modify (λ w, {| f_objects := f_objects w; f_log := f_log w ++ [entry] |})
  else raise OtherError.
Definition fput (k : string * string) (o : artifact) (w : fworld) : fworld :=
  {| f_objects := <[k := o]> (f_objects w); f_log := f_log w |}.
Definition try_audit {A} (m : M fworld A) (entry : dict) : M fworld A := λ w,
  match m w with
  | (w', Raise e) => (fnote entry ;* raise e) w'
  | r => r
  end.

(** [s.partition("/")] *)
Fixpoint partition_at (c : ascii) (s : string) : string * string :=
  match s with
  | EmptyString => ("", "")
  | String d s' => if Ascii.eqb c d then ("", s') else let '(a, b) := partition_at c s' in (String d a, b)
  end.

Definition creates_object (ev : dict) : bool :=
  truthy (dgetN "object_ref" ev) && val_eq_str (dget_or "state" (VStr "bytes_available") ev) "bytes_available".

Definition artifact_id (data : string) : string := sha256 data.
Definition outcome (name : string) (extra base : dict) : dict := dset "outcome" (VStr name) base ++ extra.

(** The announced digest, normalized. *)
Definition announced (ev : dict) : res string :=
  match py_or (dgetN "sha256" ev) (VStr "") with
  | VStr s => Ok (lower (strip s))
  | _ => Raise AttributeError
  end.

Definition store_base (ev : dict) : dict :=
  [("action", VStr "file.artifact.store"); ("source_ref", VStr (take_chars 256 (py_str repr (dgetN "object_ref" ev))));
   ("sensor_id", dgetN "sensor_id" ev); ("sha256", dgetN "sha256" ev)].

(** From the fetched bytes to the stored object; [heads] and [uploads] tell whether the
    head and put calls succeed (a failed head counts as absent), [now] is the time the
    bucket stamps on the object. *)
Definition promote_bytes (env : artifact_env) (ev : dict) (tseg : string) (fetched : res string) (heads uploads : bool)
    (now : Z) : M fworld dict :=
  let base := store_base ev in
  let* data := lift fetched in
  lift (check (len data <=? MAX_FILE_SIZE env) PolicyError) ;*
  lift (validate_archive (MAX_ARCHIVE_DEPTH env) (MAX_FILE_SIZE env) data) ;*
  let aid := artifact_id data in
  let* claim := lift (announced ev) in
  lift (check (negb (str_truthy claim && negb (String.eqb claim aid))) PolicyError) ;*
  let key := accepted_key tseg aid (BUCKET env) in
  let '(bucket, okey) := partition_at "/" key in
  let record := [("artifact_id", VStr aid); ("object_ref", VStr key); ("size", VInt (len data));
    ("mime", py_or (dgetN "mime" ev) VNone); ("tenant_segment", VStr tseg); ("sha256", VStr aid);
    ("sensor_id", dgetN "sensor_id" ev)] in
  let* old := read (λ w, if heads then f_objects w !! (bucket, okey) else None) in
  match old with
  | Some _ => fnote (outcome "idempotent" [("artifact_id", VStr aid); ("resource_id", VStr key)] base) ;* ret record
  | None =>
      (if uploads then
         modify (fput (bucket, okey) {| f_data := data; f_modified := Some now;
                                        f_metadata := [("tenant-segment", VStr tseg); ("sha256", VStr aid)] |})
       else raise OtherError) ;*
      fnote (outcome "stored" [("artifact_id", VStr aid); ("resource_id", VStr key); ("bytes", VInt (len data))] base) ;*
      ret record
  end.

Definition store (env : artifact_env) (ev : dict) (fetch : val → res string) (heads uploads : bool) (now : Z) :
    M fworld (option dict) :=
  let base := store_base ev in
  let src := dgetN "object_ref" ev in
  if negb (creates_object ev) then fnote (outcome "skipped" [("reason", VStr "no bytes (metadata_only/hashes_only)")] base) ;* ret None
  else
    match key_tenant_segment src (BUCKET env) with
    | None => fnote (outcome "rejected" [("reason", VStr "source key not tenant-scoped")] base) ;* raise PolicyError
    | Some tseg =>
        fnote (outcome "attempt" [("tenant_segment", VStr tseg)] base) ;*
        let* record := try_audit (promote_bytes env ev tseg (fetch src) heads uploads now)
          (outcome "failed" [("tenant_segment", VStr tseg)] base) in
        ret (Some record)
    end.

(** ** Retention and retrieval *)

Definition sub (k : string) (d : dict) : option dict := match dgetN k d with VDict x => Some x | _ => None end.
Definition _rule_covers_artifacts (rule : dict) : bool :=
  let prefix := dget_or "Prefix" (VStr "") rule in
  match sub "Filter" rule with
  | None => negb (truthy prefix)
  | Some flt =>
      match sub "And" flt with
      | Some both => negb (truthy (dgetN "Tags" both)) && negb (truthy (dget_or "Prefix" prefix both))
      | None => negb (truthy (dgetN "Tag" flt)) && negb (truthy (dget_or "Prefix" prefix flt))
      end
  end.
Definition verify_retention (rules : option (list dict)) (env : artifact_env) : res Z :=
  match rules with
  | None => Raise PolicyError
  | Some rules =>
      check (existsb (λ r, val_eq_str (dgetN "Status" r) "Enabled"
        && match dgetN "Days" (default [] (sub "Expiration" r)) with
           | VInt n => (0 <? n) && (n <=? RETENTION_DAYS env)
           | _ => false
           end
        && _rule_covers_artifacts r) rules) PolicyError;;
      Ok (RETENTION_DAYS env)
  end.

Definition _expired (modified : option Z) (now : Z) (env : artifact_env) : bool :=
  match modified with
  | None => true
  | Some t => RETENTION_DAYS env * 86400 <? now - t
  end.

Definition last_segment (s : string) : string := default "" (last (split_char "/" s)).

Definition reader_of (auth : val) (tokens : list (string * val)) : option dict :=
  match auth with
  | VStr h =>
      if starts_with "Bearer " h
      then match assoc (drop_chars 7 h) tokens with Some (VDict g) => Some g | _ => None end
      else None
  | _ => None
  end.
Definition may_download (env : artifact_env) (ref : val) (g : dict) : bool :=
  match dgetN "file_read" g with VBool true => true | _ => false end
  && truthy (dgetN "tenant_id" g) && truthy (dgetN "actor" g) && valid_key ref
  && in_accepted_namespace ref (tenant_segment sha256 repr (dgetN "tenant_id" g)) (BUCKET env).

Definition read_artifact (env : artifact_env) (o : artifact) (key : string) (now : Z) : res string :=
  check (negb (_expired (f_modified o) now env)) ValueError;;
  let data := f_data o in
  check (len data <=? MAX_FILE_SIZE env) ValueError;;
  check (String.eqb (sha256 data) (last_segment key)) ValueError;;
  Ok data.

Definition retrieve (env : artifact_env) (ref auth : val) (tokens : list (string * val)) (now : Z) : M fworld string :=
  let grant := match reader_of auth tokens with Some [] | None => None | Some g => Some g end in
  let event := [("action", VStr "file.artifact.download"); ("resource_id", VStr (take_chars 256 (py_str repr ref)));
    ("actor", match grant with Some g => dgetN "actor" g | None => VStr "anonymous" end);
    ("tenant_id", match grant with Some g => dgetN "tenant_id" g | None => VNone end);
    ("why", match grant with Some g => dgetN "reason" g | None => VNone end)] in
  match grant, ref with
  | Some g, VStr full =>
      if may_download env ref g then
        fnote (outcome "attempt" [] event) ;*
        try_audit
          (let '(bucket, key) := partition_at "/" full in
           let* o := read (λ w, f_objects w !! (bucket, key)) in
           let* data := lift (match o with Some o => read_artifact env o key now | None => Raise OtherError end) in
           fnote (outcome "success" [("bytes", VInt (len data))] event) ;*
           ret data)
          (outcome "failed" [] event)
      else fnote (outcome "denied" [] event) ;* raise PermissionError
  | _, _ => fnote (outcome "denied" [] event) ;* raise PermissionError
  end.
End artifacts.

(** ** Facts: paths *)

Definition no_slash (s : string) : bool := string_forallb (λ d, negb (Ascii.eqb "/" d)) s.

Lemma partition_at_app c a b :
  string_forallb (λ d, negb (Ascii.eqb c d)) a = true → partition_at c (a +:+ String c b) = (a, b).
Proof.
  induction a as [|d a IH]; simpl; [by rewrite Ascii.eqb_refl|]. intros H. to_prop. by rewrite H, IH.
Qed.
Lemma split_parts c s : ∀ p, p ∈ split_char c s → string_forallb (λ d, negb (Ascii.eqb c d)) p = true.
Proof.
  induction s as [|d s IH]; intros p; cbn [split_char]; [by intros ->%list_elem_of_singleton|].
  destruct (Ascii.eqb c d) eqn:E.
  - intros [->|Hp]%elem_of_cons; [done|by apply IH].
  - destruct (split_char c s) as [|w ws].
    + intros ->%list_elem_of_singleton. simpl. by rewrite E.
    + intros [->|Hp]%elem_of_cons; [|apply IH; by right]. simpl. rewrite E. apply IH. by left.
Qed.

(** Normalized components: leading parent references, then plain names. *)
Definition plain (p : string) : Prop := p ≠ "" ∧ p ≠ "." ∧ p ≠ ".." ∧ no_slash p = true.
Definition normal (l : list string) : Prop :=
  ∃ k names, l = replicate k ".." ++ names ∧ Forall plain names.

Lemma norm_step_normal acc comp : normal acc → no_slash comp = true → normal (norm_step acc comp).
Proof.
  intros (k & names & -> & Hn) Hc. unfold norm_step.
  destruct (mem comp [""; "."]) eqn:Em; [by exists k, names|]. apply mem_false in Em.
  destruct (String.eqb_spec comp "..") as [->|Hd].
  - destruct names as [|x names _] using rev_ind.
    + rewrite app_nil_r. assert (Hk : normal (replicate k ".." ++ [".."])).
      { exists (S k), []. rewrite app_nil_r. split; [|done]. by rewrite replicate_S_end. }
      destruct k as [|k]; [done|]. rewrite replicate_S_end, last_snoc. simpl. by rewrite <- replicate_S_end.
    + apply Forall_app in Hn as [Hn Hx]. inversion Hx as [|? ? (_ & _ & Hxx & _) _]; subst.
      rewrite app_assoc, last_snoc. destruct (String.eqb_spec x ".."); [done|].
      rewrite removelast_last. by exists k, names.
  - exists k, (names ++ [comp]). rewrite app_assoc. split; [done|]. apply Forall_app. split; [done|].
    constructor; [|done]. split_and!; [set_solver..|done].
Qed.
Lemma norm_parts_normal path : normal (norm_parts path).
Proof.
  unfold norm_parts. pose proof (split_parts "/" path) as Hp.
  assert (H0 : normal []) by (exists 0%nat, []; by split).
  revert H0 Hp. generalize (@nil string). induction (split_char "/" path) as [|p l IH]; intros acc Ha Hp; [done|].
  simpl. apply IH; [|intros q Hq; apply Hp; by right]. apply norm_step_normal; [done|apply Hp; by left].
Qed.

(** A path the guard lets through stays below the root, component by component. *)
Lemma escapes_root_inside name :
  _escapes_root name EXTRACT_ROOT = false →
  ∃ rest, norm_parts (EXTRACT_ROOT +:+ "/" +:+ name) = EXTRACT_ROOT :: rest ∧ Forall plain rest.
Proof.
  unfold _escapes_root. destruct (_ || _); [done|]. cbv zeta. unfold normpath.
  set (path := EXTRACT_ROOT +:+ "/" +:+ name). destruct (norm_parts_normal path) as (k & names & E & Hn).
  rewrite E. intros H.
  assert (Hone : ∀ p, no_slash p = true → starts_with (EXTRACT_ROOT +:+ "/") p = false).
  { intros p Hp. apply not_true_iff_false. intros (y & ->)%starts_with_inv. unfold no_slash in Hp.
    rewrite forallb_sapp in Hp. simpl in Hp. done. }
  assert (Hhead : ∀ p l, no_slash p = true →
    negb (String.eqb (join "/" (p :: l)) EXTRACT_ROOT)
      && negb (starts_with (EXTRACT_ROOT +:+ "/") (join "/" (p :: l))) = false → p = EXTRACT_ROOT).
  { intros p l Hp. destruct l as [|q l].
    - change (join "/" [p]) with p. destruct (String.eqb_spec p EXTRACT_ROOT); [done|]. by rewrite Hone.
    - change (join "/" (p :: q :: l)) with (p +:+ String "/" (join "/" (q :: l))). intros Hg. apply andb_false_iff in Hg as [Hg|Hg]; apply negb_false_iff in Hg.
      + apply String.eqb_eq, (f_equal (partition_at "/")) in Hg. rewrite partition_at_app in Hg by done.
        by apply (f_equal fst) in Hg.
      + apply starts_with_inv in Hg as (y & Hy). apply (f_equal (partition_at "/")) in Hy.
        rewrite partition_at_app in Hy by done.
        change ((EXTRACT_ROOT +:+ "/") +:+ y) with (EXTRACT_ROOT +:+ String "/" y) in Hy.
        rewrite partition_at_app in Hy by done. by injection Hy. }
  destruct k as [|k].
  - destruct names as [|p names]; [done|]. simpl in *. inversion Hn as [|? ? (_ & _ & _ & Hp) Hn']; subst.
    apply Hhead in H as ->; [|done]. by exists names.
  - simpl in H. by apply Hhead in H.
Qed.

(** ** Facts: archives and the bucket *)

Section gate.
Context (is_zipfile : string → bool) (infolist : string → res (list member)) (sha256 : string → string)
  (repr : val → string) (sink : dict → bool).

(** [m] is an entry of [data], [n] archives deep. *)
Inductive entry_at : nat → string → member → Prop :=
| entry_direct data l m : is_zip is_zipfile data = true → infolist data = Ok l → m ∈ l → entry_at 1 data m
| entry_nested n data l m0 inner m :
    is_zip is_zipfile data = true → infolist data = Ok l → m0 ∈ l → m_is_dir m0 = false → m_read m0 = Ok inner →
    entry_at n inner m → entry_at (S n) data m.

Lemma check_members_spec max_size nested l :
  check_members is_zipfile max_size nested l = Ok tt →
  ∀ m, m ∈ l → _escapes_root (m_filename m) EXTRACT_ROOT = false ∧
    (m_is_dir m = false → m_size m <= max_size ∧
       ∃ data, m_read m = Ok data ∧ (is_zip is_zipfile data = true → nested data = Ok tt)).
Proof.
  clear. induction l as [|x l IH]; simpl; intros H m; [by intros Hm%elem_of_nil|].
  apply bind_ok_inv in H as (u & Hu & H). apply check_ok_inv in Hu. apply negb_true_iff in Hu.
  destruct (m_is_dir x) eqn:Ed.
  - intros [->|Hm]%elem_of_cons; [|by apply IH]. split; [done|]. congruence.
  - apply bind_ok_inv in H as (u1 & H1 & H). apply check_ok_inv in H1. apply Z.leb_le in H1.
    apply bind_ok_inv in H as (data & Hd & H). apply bind_ok_inv in H as ([] & Hn & H).
    intros [->|Hm]%elem_of_cons; [|by apply IH]. split; [done|]. intros _. split; [done|].
    exists data. split; [done|]. intros Hz. by rewrite Hz in Hn.
Qed.

Lemma validate_archive_spec depth max_size data n m :
  validate_archive is_zipfile infolist depth max_size data = Ok tt → entry_at n data m →
  (n <= depth)%nat ∧ _escapes_root (m_filename m) EXTRACT_ROOT = false ∧ (m_is_dir m = false → m_size m <= max_size).
Proof.
  clear. intros H He. revert depth H.
  induction He as [data l m Hz Hl Hm|n data l m0 inner m Hz Hl Hm0 Hd Hr He IH]; intros depth H;
    destruct depth as [|depth]; simpl in H; rewrite Hz in H; try done; simpl in H; rewrite Hl in H; simpl in H;
    pose proof (check_members_spec _ _ _ H) as Hs.
  - destruct (Hs m Hm) as [H1 H2]. split_and!; [lia|done|]. intros Hd. by apply H2.
  - destruct (Hs m0 Hm0) as [_ H2]. destruct (H2 Hd) as (_ & x & Hx & Hnest). rewrite Hr in Hx.
    injection Hx as <-. destruct (is_zip is_zipfile inner) eqn:Ez.
    + destruct (IH depth (Hnest eq_refl)) as (A & B & C). split_and!; [lia|done|done].
    + exfalso. inversion He; congruence.
Qed.

Context (env : artifact_env).
Context (sha_length : ∀ s, String.length (sha256 s) = 64%nat) (sha_hex : ∀ s, string_forallb is_hex (sha256 s) = true).
Context (bucket_ok : no_slash (BUCKET env) = true).

(** Bytes the gate accepted. *)
Definition vetted (data : string) : Prop :=
  validate_archive is_zipfile infolist (MAX_ARCHIVE_DEPTH env) (MAX_FILE_SIZE env) data = Ok tt ∧
  len data <= MAX_FILE_SIZE env.

(** Everything under an accepted prefix was vetted and is filed under its digest. *)
Definition bucket_inv (w : fworld) : Prop :=
  ∀ t rest o, no_slash t = true →
    f_objects w !! (BUCKET env, t +:+ String "/" (ARTIFACT_PREFIX +:+ String "/" rest)) = Some o → vetted (f_data o).

Lemma same_objects_inv w w' : f_objects w' = f_objects w → bucket_inv w → bucket_inv w'.
Proof. intros E H t rest o Ht. rewrite E. by apply H. Qed.

Lemma fnote_objects entry (w : fworld) : f_objects (fnote sink entry w).1 = f_objects w.
Proof. clear. unfold fnote, modify, raise. by destruct (sink entry). Qed.

Lemma fnote_then_objects {A} entry (k : M fworld A) w :
  (∀ w1, f_objects (k w1).1 = f_objects w1) → f_objects ((fnote sink entry ;* k) w).1 = f_objects w.
Proof.
  clear. intros Hk. unfold bind. pose proof (fnote_objects entry w) as H.
  destruct (fnote sink entry w) as [w1 [u|e]]; simpl in *; [by rewrite Hk|done].
Qed.

Lemma bind_lift {A B} (r : res A) (k : A → M fworld B) w :
  bind (lift r) k w = match r with Ok a => k a w | Raise e => (w, Raise e) end.
Proof. reflexivity. Qed.
Lemma bind_read {A B} (f : fworld → A) (k : A → M fworld B) w : bind (read f) k w = k (f w) w.
Proof. reflexivity. Qed.
Lemma bind_modify {B} f (k : unit → M fworld B) w : bind (modify f) k w = k tt (f w).
Proof. reflexivity. Qed.

Lemma try_audit_objects {A} (m : M fworld A) entry w :
  f_objects (try_audit sink m entry w).1 = f_objects (m w).1.
Proof.
  clear. unfold try_audit, bind, raise. destruct (m w) as [w' [a|e]]; [done|].
  pose proof (fnote_objects entry w') as H. by destruct (fnote sink entry w') as [w2 [u|e2]].
Qed.

Lemma accepted_key_partition t aid :
  partition_at "/" (accepted_key t aid (BUCKET env)) =
  (BUCKET env, t +:+ String "/" (ARTIFACT_PREFIX +:+ String "/" aid)).
Proof using bucket_ok.
  change (accepted_key t aid (BUCKET env)) with
    (BUCKET env +:+ String "/" (t +:+ String "/" (ARTIFACT_PREFIX +:+ String "/" aid))).
  by apply partition_at_app.
Qed.

(** Promotion adds at most one object, under the accepted prefix, and only if vetted. *)
Lemma promote_bytes_objects ev tseg fetched heads uploads now w :
  let w' := (promote_bytes is_zipfile infolist sha256 repr sink env ev tseg fetched heads uploads now w).1 in
  f_objects w' = f_objects w ∨
  ∃ o aid, vetted (f_data o) ∧ f_objects w' =
    <[(BUCKET env, tseg +:+ String "/" (ARTIFACT_PREFIX +:+ String "/" aid)) := o]> (f_objects w).
Proof using bucket_ok.
  intros w'. subst w'. unfold promote_bytes. cbv zeta. rewrite !bind_lift.
  destruct fetched as [data|]; [|by left].
  rewrite bind_lift. destruct (check _ _) eqn:Elen; [|by left]. apply check_ok_inv in Elen.
  rewrite bind_lift. destruct (validate_archive _ _ _ _ _) as [[]|] eqn:Ev; [|by left].
  rewrite bind_lift. destruct (announced ev) as [claim|]; [|by left].
  rewrite bind_lift. destruct (check _ _); [|by left].
  rewrite accepted_key_partition, bind_read.
  destruct (if heads then _ else _) as [old|]; [left; by apply fnote_then_objects|].
  destruct uploads; [|by left]. right. rewrite bind_modify, fnote_then_objects by done.
  eexists _, (artifact_id sha256 data). split; [|reflexivity]. split; [exact Ev|by apply Z.leb_le].
Qed.

Lemma key_segment_no_slash ref bucket t : key_tenant_segment ref bucket = Some t → no_slash t = true.
Proof.
  clear. unfold key_tenant_segment. destruct (negb _); [done|]. destruct ref as [| | | |s| |]; try done.
  pose proof (split_parts "/" s) as Hp. destruct (split_char "/" s) as [|b [|t' [|x l]]]; try done.
  destruct (_ && _); [|done]. intros [= <-]. apply Hp. by right; left.
Qed.

Lemma store_inv ev fetch heads uploads now w :
  bucket_inv w → bucket_inv (store is_zipfile infolist sha256 repr sink env ev fetch heads uploads now w).1.
Proof using bucket_ok.
  intros Hw. unfold store. destruct (negb (creates_object ev)).
  { eapply same_objects_inv; [by apply fnote_then_objects|exact Hw]. }
  destruct (key_tenant_segment _ _) as [tseg|] eqn:Et.
  2:{ eapply same_objects_inv; [by apply fnote_then_objects|exact Hw]. }
  apply key_segment_no_slash in Et. unfold bind.
  set (e1 := outcome "attempt" _ _). pose proof (fnote_objects e1 w) as H1.
  destruct (fnote sink e1 w) as [w1 [u|x]]; simpl in *; [|by eapply same_objects_inv].
  set (m := promote_bytes _ _ _ _ _ _ _ _ _ _ _ _). set (e2 := outcome "failed" _ _).
  pose proof (try_audit_objects m e2 w1) as H2.
  assert (Hm : bucket_inv (m w1).1).
  { destruct (promote_bytes_objects ev tseg (fetch (dgetN "object_ref" ev)) heads uploads now w1)
      as [E|(o & aid & Hv & E)].
    - eapply same_objects_inv; [exact E|]. by eapply same_objects_inv.
    - intros t rest o' Ht. unfold m. rewrite E. rewrite lookup_insert_Some. intros [[_ <-]|[_ Ho]]; [done|].
      rewrite H1 in Ho. by eapply Hw. }
  destruct (try_audit sink m e2 w1) as [w2 [r|x]]; simpl in *; by eapply same_objects_inv.
Qed.

Lemma retrieve_objects ref auth tokens now w :
  f_objects (retrieve sha256 repr sink env ref auth tokens now w).1 = f_objects w.
Proof.
  clear. unfold retrieve. cbv zeta.
  destruct (match reader_of auth tokens with Some [] | None => None | Some g => Some g end) as [g|];
    [|by apply fnote_then_objects].
  destruct ref as [| | | |full| |]; try by apply fnote_then_objects.
  destruct (may_download _ _ _ _ _); [|by apply fnote_then_objects].
  apply fnote_then_objects. intros w1. rewrite try_audit_objects.
  destruct (partition_at "/" full) as [bucket key]. rewrite bind_read, bind_lift.
  destruct (match f_objects w1 !! (bucket, key) with Some o => _ | None => _ end) as [data|]; [|done].
  by apply fnote_then_objects.
Qed.

(** The life of the bucket: the gate, readers, the expiry sweep, and producers that
    upload anything under the staging keys of any tenant. *)
Inductive bucket_step (w : fworld) : fworld → Prop :=
| step_store ev fetch heads uploads now :
    bucket_step w (store is_zipfile infolist sha256 repr sink env ev fetch heads uploads now w).1
| step_retrieve ref auth tokens now : bucket_step w (retrieve sha256 repr sink env ref auth tokens now w).1
| step_upload tenant name o :
    bucket_step w (fput (partition_at "/" (staging_key sha256 repr tenant name (BUCKET env))) o w)
| step_sweep k : bucket_step w {| f_objects := delete k (f_objects w); f_log := f_log w |}.

Lemma tenant_no_slash tenant : no_slash (tenant_segment sha256 repr tenant) = true.
Proof using sha_length sha_hex.
  destruct (tenant_segment_spec sha256 repr sha_length sha_hex tenant) as (H & _ & _).
  eapply forallb_weaken; [|exact H]. intros [[] [] [] [] [] [] [] []]; vm_compute; intros Hc; done.
Qed.

Lemma bucket_step_inv w w' : bucket_step w w' → bucket_inv w → bucket_inv w'.
Proof using bucket_ok sha_length sha_hex.
  intros [ev fetch heads uploads now|ref auth tokens now|tenant name o|k] Hw.
  - by apply store_inv.
  - eapply same_objects_inv; [apply retrieve_objects|done].
  - change (staging_key sha256 repr tenant name (BUCKET env)) with
      (BUCKET env +:+ String "/" (tenant_segment sha256 repr tenant +:+ String "/" (STAGING_PREFIX +:+ String "/" name))).
    rewrite partition_at_app by done. intros t rest o' Ht. simpl. rewrite lookup_insert_Some.
    intros [[E _]|[_ Ho]]; [|by apply (Hw t rest)]. exfalso. injection E as E.
    apply (f_equal (partition_at "/")) in E. rewrite !partition_at_app in E by (done || apply tenant_no_slash).
    discriminate E.
  - intros t rest o Ht. simpl. rewrite lookup_delete_Some. intros [_ Ho]. by apply (Hw t rest).
Qed.

Lemma bucket_reachable w : rtc bucket_step {| f_objects := ∅; f_log := [] |} w → bucket_inv w.
Proof using bucket_ok sha_length sha_hex.
  intros H. assert (H0 : bucket_inv {| f_objects := ∅; f_log := [] |}) by (intros t rest o _; simpl; by intros ?%lookup_empty_Some).
  induction H as [|x y z Hxy _ IH]; [done|]. apply IH. by eapply bucket_step_inv.
Qed.

Lemma retrieve_ok ref auth tokens now w w' data :
  retrieve sha256 repr sink env ref auth tokens now w = (w', Ok data) →
  ∃ g full o, reader_of auth tokens = Some g ∧ ref = VStr full ∧ may_download sha256 repr env ref g = true ∧
    f_objects w !! partition_at "/" full = Some o ∧
    read_artifact sha256 env o (partition_at "/" full).2 now = Ok data.
Proof.
  clear. unfold retrieve. cbv zeta.
  assert (Hd : ∀ e, (fnote sink e ;* @raise fworld string PermissionError) w ≠ (w', Ok data)).
  { intros e. unfold bind, raise. by destruct (fnote sink e w) as [w2 [u|x]]. }
  destruct (reader_of auth tokens) as [[|kv g]|]; [by intros ?%Hd| |by intros ?%Hd].
  destruct ref as [| | | |full| |]; try by intros ?%Hd. destruct (may_download _ _ _ _ _) eqn:Em; [|by intros ?%Hd].
  clear Hd. unfold bind at 1. set (e1 := outcome "attempt" _ _). pose proof (fnote_objects e1 w) as H1.
  destruct (fnote sink e1 w) as [w1 [u|x]]; simpl in H1; [|done]. unfold try_audit.
  destruct (partition_at "/" full) as [bucket key] eqn:Ep. rewrite bind_read, bind_lift, H1.
  destruct (f_objects w !! (bucket, key)) as [o|] eqn:Eo.
  2:{ unfold bind, raise. by destruct (fnote sink _ w1) as [w2 [u2|x]]. }
  destruct (read_artifact _ _ _ _ _) as [data'|] eqn:Er.
  2:{ unfold bind, raise. by destruct (fnote sink _ w1) as [w2 [u2|x]]. }
  intros H. exists (kv :: g), full, o. rewrite Ep. split_and!; try done. simpl. rewrite Er. revert H.
  unfold bind, ret, raise. set (e2 := outcome "success" _ _). set (e3 := outcome "failed" _ _).
  destruct (fnote sink e2 w1) as [w2 [u2|x]]; [by intros [= _ ->]|]. by destruct (fnote sink e3 w2) as [w3 [u3|x3]].
Qed.

Lemma may_download_inv full g :
  may_download sha256 repr env (VStr full) g = true →
  dgetN "file_read" g = VBool true ∧ truthy (dgetN "actor" g) = true ∧
  ∃ rest, full = accepted_key (tenant_segment sha256 repr (dgetN "tenant_id" g)) rest (BUCKET env).
Proof.
  clear. unfold may_download. rewrite !andb_true_iff. intros ((((H1 & _) & H2) & _) & H3). split_and!; [|done|].
  - by destruct (dgetN "file_read" g) as [|[]| | | | |].
  - apply starts_with_inv in H3 as (rest & ->). exists rest. unfold accepted_key. by rewrite !sapp_assoc.
Qed.

(** C8. What a download serves: whatever sequence of gate runs, downloads, sweeps and
    uploads of arbitrary bytes to staging keys came before, the bytes are handed only to
    a token configured as a file reader, under the accepted prefix of that token's own
    tenant, and they are the bytes of the object stored there, which was last modified
    within the retention window, passed the archive and size checks, and hash to the name
    they are filed under. *)
Theorem served_artifacts_vetted ref auth tokens now w w' data :
  rtc bucket_step {| f_objects := ∅; f_log := [] |} w →
  retrieve sha256 repr sink env ref auth tokens now w = (w', Ok data) →
  ∃ g name o t, reader_of auth tokens = Some g ∧ dgetN "file_read" g = VBool true ∧
    let key := accepted_key (tenant_segment sha256 repr (dgetN "tenant_id" g)) name (BUCKET env) in
    ref = VStr key ∧
    vetted data ∧
    artifact_id sha256 data = last_segment (tenant_segment sha256 repr (dgetN "tenant_id" g) +:+ "/artifacts/" +:+ name) ∧
    f_objects w !! partition_at "/" key = Some o ∧ f_data o = data ∧
    f_modified o = Some t ∧ now - t <= RETENTION_DAYS env * 86400.
Proof using bucket_ok sha_length sha_hex.
  intros Hw%bucket_reachable (g & full & o & Hg & -> & Hm & Ho & Hr)%retrieve_ok.
  apply may_download_inv in Hm as (Hread & _ & rest & ->). set (seg := tenant_segment _ _ _) in *.
  pose proof Ho as Hstored. rewrite accepted_key_partition in *. unfold read_artifact in Hr.
  apply bind_ok_inv in Hr as (u1 & H1 & Hr). apply check_ok_inv in H1.
  apply bind_ok_inv in Hr as (u2 & H2 & Hr). apply bind_ok_inv in Hr as (u3 & H3 & [= <-]). apply check_ok_inv in H3.
  apply String.eqb_eq in H3. apply Hw in Ho; [|apply tenant_no_slash].
  unfold _expired in H1. destruct (f_modified o) as [t|] eqn:Et; [|done].
  exists g, rest, o, t. cbv zeta. rewrite accepted_key_partition. split_and!; try done.
  apply negb_true_iff, Z.ltb_ge in H1. lia.
Qed.

(** What the archive check promises: in bytes it accepts, at whatever nesting
    depth, every entry is nested at most [depth] archives deep, every entry's path,
    directories included, normalizes to the extraction root followed by plain names, and
    every file's declared size is within the limit. *)
Theorem validated_archive_safe depth max_size data n m :
  validate_archive is_zipfile infolist depth max_size data = Ok tt → entry_at n data m →
  (n <= depth)%nat ∧ (m_is_dir m = false → m_size m <= max_size) ∧
  ∃ rest, norm_parts (EXTRACT_ROOT +:+ "/" +:+ m_filename m) = EXTRACT_ROOT :: rest ∧ Forall plain rest.
Proof.
  clear. intros H He. destruct (validate_archive_spec _ _ _ _ _ H He) as (H1 & H2 & H3).
  split_and!; [done|done|]. by apply escapes_root_inside.
Qed.
End gate.

(** ** Witnesses *)

(** A reader that knows one archive, [PKzip], holding a nested one and a directory. *)
Definition demo_zip (inner : bool) : string := String "P" (String "K" (String "003" (String "004" (if inner then "i" else "o")))).
Definition demo_list (data : string) : res (list member) :=
  let file name read := {| m_filename := name; m_is_dir := false; m_size := 12; m_read := Ok read |} in
  if String.eqb data (demo_zip false) then
    Ok [{| m_filename := "docs/"; m_is_dir := true; m_size := 0; m_read := Raise OtherError |};
        file "docs/./inner.zip" (demo_zip true)]
  else Ok [file "a/../b.txt" "text"].
Definition demo_segment : string := tenant_segment (λ _, zeros) no_repr (VStr "acme").
Definition demo_upload : dict :=
  [("object_ref", VStr ("ndr-files/" +:+ demo_segment +:+ "/incoming/" +:+ zeros)); ("sensor_id", VStr "s1")].
Definition demo_grants : list (string * val) :=
  [("tok", VDict [("actor", VStr "ana"); ("tenant_id", VStr "acme"); ("file_read", VBool true)])].
Definition demo_bucket : fworld :=
  (store (λ _, false) demo_list (λ _, zeros) no_repr (λ _, true) artifact_defaults demo_upload (λ _, Ok (demo_zip false))
     true true 1000 {| f_objects := ∅; f_log := [] |}).1.
Definition demo_retrieve : fworld * res string :=
  retrieve (λ _, zeros) no_repr (λ _, true) artifact_defaults
    (VStr ("ndr-files/" +:+ demo_segment +:+ "/artifacts/" +:+ zeros)) (VStr "Bearer tok") demo_grants 1060 demo_bucket.

Lemma served_artifacts_vetted_witness :
  demo_retrieve.2 = Ok (demo_zip false) ∧
  validate_archive (λ _, false) demo_list 4 67108864 (demo_zip false) = Ok tt.
Proof.
  split; [vm_compute; reflexivity|].
  refine (match served_artifacts_vetted (λ _, false) demo_list (λ _, zeros) no_repr (λ _, true) artifact_defaults
    (λ _, eq_refl) (λ _, eq_refl) eq_refl _ _ demo_grants 1060 demo_bucket demo_retrieve.1 (demo_zip false) _ _ with
    ex_intro _ _ (ex_intro _ _ (ex_intro _ _ (ex_intro _ _ H))) => proj1 (proj1 (proj2 (proj2 (proj2 H)))) end).
  - apply rtc_once. exact (step_store _ _ _ _ _ _ _ demo_upload (λ _, Ok (demo_zip false)) true true 1000).
  - exact (surjective_pairing demo_retrieve).
Defined.

Lemma validated_archive_safe_witness :
  validate_archive (λ _, false) demo_list 4 64 (demo_zip false) = Ok tt ∧
  validate_archive (λ _, false) demo_list 1 64 (demo_zip false) = Raise PolicyError ∧
  validate_archive (λ _, false) demo_list 4 11 (demo_zip false) = Raise PolicyError ∧
  _escapes_root "../x/" EXTRACT_ROOT = true ∧ (2 <= 4)%nat.
Proof.
  split_and!; try (vm_compute; reflexivity).
  refine (proj1 (validated_archive_safe (λ _, false) demo_list 4 64 (demo_zip false) 2
    {| m_filename := "a/../b.txt"; m_is_dir := false; m_size := 12; m_read := Ok "text" |} eq_refl _)).
  eapply (entry_nested _ _ 1); [reflexivity|reflexivity|right; left|reflexivity|reflexivity|].
  eapply entry_direct; [reflexivity|reflexivity|left].
Defined.
