(* ===== verification/Json.v ===== *)
(** * JSON documents as keys and lines of a file

    Decidable equality of JSON values, the canonical form that stands for the text of
    [json.dumps(v, sort_keys=True)], and append-only files of one JSON document per
    line, torn last lines included. *)

From S2P Require Import Prelude Order PyVal.
Set Default Proof Using "Type".

#[export] Instance float_eq_dec : EqDecision float.
Proof. solve_decision. Defined.
#[export] Instance val_eq_dec : EqDecision val.
Proof.
  refine (fix go (x y : val) {struct x} : {x = y} + {x ≠ y} :=
    match x, y with
    | VNone, VNone => left eq_refl
    | VBool a, VBool b => match decide (a = b) with left e => left (f_equal VBool e) | right n => right _ end
    | VInt a, VInt b => match decide (a = b) with left e => left (f_equal VInt e) | right n => right _ end
    | VFloat a, VFloat b => match decide (a = b) with left e => left (f_equal VFloat e) | right n => right _ end
    | VStr a, VStr b => match decide (a = b) with left e => left (f_equal VStr e) | right n => right _ end
    | VList l, VList m => match @list_eq_dec val go l m with left e => left (f_equal VList e) | right n => right _ end
    | VDict d, VDict e =>
        match (fix dict_dec (d e : dict) {struct d} : {d = e} + {d ≠ e} :=
          match d, e with
          | [], [] => left eq_refl
          | (k, v) :: d, (k', v') :: e =>
              match decide (k = k'), go v v', dict_dec d e with
              | left e1, left e2, left e3 => left _
              | _, _, _ => right _
              end
          | _, _ => right _
          end) d e with left e => left (f_equal VDict e) | right n => right _ end
    | _, _ => right _
    end); try congruence; try discriminate.
Defined.

(** The text of a document: two documents have the same [json.dumps] with sorted keys
    exactly when they have the same canonical form. *)
Fixpoint canon (v : val) : val :=
  match v with
  | VList l => VList (List.map canon l)
  | VDict d => VDict (isort (K := string) fst (List.map (λ kv : string * val, (kv.1, canon kv.2)) d))
  | _ => v
  end.

(** ** Files of JSON lines

    A line either parses to a document or not.  A write that was cut short may leave a
    last line without its newline: [jf_tail] is [Some None] for a fragment that does not
    parse, and [Some (Some d)] when only the newline of [d] is missing. *)
Record jfile := { jf_lines : list (option dict); jf_tail : option (option dict) }.
Definition empty_file : jfile := {| jf_lines := []; jf_tail := None |}.

(** A line written after an unterminated one continues it, and the whole no longer parses. *)
Definition put_line (f : jfile) (d : dict) : jfile :=
  {| jf_lines := jf_lines f ++ [match jf_tail f with None => Some d | Some _ => None end]; jf_tail := None |}.
Definition put_lines (f : jfile) (ds : list dict) : jfile := foldl put_line f ds.

(** The documents a reader finds that skips the lines it cannot parse. *)
Definition good_lines (f : jfile) : list dict :=
  omap id (jf_lines f) ++ match jf_tail f with Some (Some d) => [d] | _ => [] end.
(** Does a reader that does not skip get through? *)
Definition all_parse (f : jfile) : bool :=
  forallb (λ l : option dict, match l with Some _ => true | None => false end)
    (jf_lines f ++ match jf_tail f with Some t => [t] | None => [] end).
Definition rewritten (ds : list dict) : jfile := {| jf_lines := Some <$> ds; jf_tail := None |}.

(** What an interrupted append leaves: the first [c_done] lines, and of the next one
    nothing, a fragment, or everything but the newline. *)
Inductive torn := torn_none | torn_fragment | torn_newline.
#[export] Instance torn_eq_dec : EqDecision torn.
Proof. solve_decision. Defined.
Definition cut_lines (f : jfile) (ds : list dict) (n : nat) (t : torn) : jfile :=
  let f' := put_lines f (take n ds) in
  match ds !! n, t with
  | Some d, torn_fragment => {| jf_lines := jf_lines f'; jf_tail := Some None |}
  | Some d, torn_newline =>
      {| jf_lines := jf_lines f'; jf_tail := Some (match jf_tail f' with None => Some d | Some _ => None end) |}
  | _, _ => f'
  end.

Lemma put_lines_whole f ds : jf_tail f = None → put_lines f ds = {| jf_lines := jf_lines f ++ (Some <$> ds); jf_tail := None |}.
Proof.
  revert f. induction ds as [|d ds IH]; intros [l t] Ht; simpl in *; subst; [by rewrite app_nil_r|].
  unfold put_line. simpl. rewrite IH by done. simpl. by rewrite <- app_assoc.
Qed.
Lemma good_put_lines f ds : jf_tail f = None → good_lines (put_lines f ds) = good_lines f ++ ds.
Proof.
  intros Ht. rewrite put_lines_whole by done. unfold good_lines. rewrite Ht. simpl. rewrite !app_nil_r, omap_app.
  f_equal. induction ds as [|d ds IH]; [done|]. simpl. by f_equal.
Qed.
Lemma whole_put_lines f ds : jf_tail f = None → jf_tail (put_lines f ds) = None.
Proof. intros Ht. by rewrite put_lines_whole. Qed.
Lemma good_rewritten ds : good_lines (rewritten ds) = ds.
Proof. unfold good_lines. simpl. rewrite app_nil_r. induction ds as [|d ds IH]; [done|]. simpl. by f_equal. Qed.
Lemma all_parse_put_lines f ds : jf_tail f = None → all_parse f = true → all_parse (put_lines f ds) = true.
Proof.
  intros Ht Hf. rewrite put_lines_whole by done. unfold all_parse in *. rewrite Ht in Hf. simpl in *.
  rewrite !app_nil_r in *. rewrite forallb_app, Hf. simpl. by induction ds.
Qed.
Lemma cut_lines_whole f ds n : cut_lines f ds n torn_none = put_lines f (take n ds).
Proof. unfold cut_lines. by destruct (ds !! n). Qed.
Lemma all_parse_rewritten ds : all_parse (rewritten ds) = true.
Proof. unfold all_parse, rewritten. simpl. rewrite app_nil_r. by induction ds. Qed.
