(* ===== verification/FindingsExport.v ===== *)
(** * Export records and the obligation ledger (services/findings-forwarder/adapters.py)

    What identifies a record that leaves for a sink, and the append-only file that
    remembers, per obligation (tenant, kind, identity, revision, destination), its latest
    outcome.  A file write consults a [fault]: the disk may fail, or the process die,
    after any number of lines. *)

From S2P Require Import Prelude Order PyVal PyString OrderedMap PyTime Json.
Set Default Proof Using "Type".

(** ** Records *)

Definition KINDS : list string := ["finding"; "investigation"; "verdict"].
Definition record_kind (record : dict) : res string :=
  match dgetN "record_kind" record with
  | VNone =>
      if val_eq_str (dgetN "schema" record) "investigation.v1" then Ok "investigation"
      else if dhas "case_id" record && (dhas "verdict" record || negb (dhas "finding_id" record)) then Ok "verdict"
      else Ok "finding"
  | VStr s => if mem s KINDS then Ok s else Raise ValueError
  | VList _ | VDict _ => Raise TypeError
  | _ => Raise ValueError
  end.

(** [not isinstance(v, str) or not v.strip()] *)
Definition blank (v : val) : bool := match v with VStr s => negb (str_truthy (strip s)) | _ => true end.

Definition finding_links (kind : string) (record : dict) : res val :=
  if String.eqb kind "investigation" then
    match dget_or "trigger" (VDict []) record with
    | VDict t => Ok (dget_or "finding_ids" (VList []) t)
    | _ => Raise AttributeError
    end
  else
    check (match dgetN "verdict_revision" record with VInt n => 0 <=? n | _ => false end
           && truthy (dgetN "verdict" record)) ValueError;;
    Ok (dget_or "linked_findings" (VList []) record).

Definition id_field (kind : string) : string := if String.eqb kind "investigation" then "investigation_id" else "case_id".
Definition export_record (record : dict) : res dict :=
  kind ← record_kind record;
  if String.eqb kind "finding" then Ok record
  else
    let tenant := py_or (dgetN "tenant" record) (dgetN "tenant_id" record) in
    check (negb (blank tenant)) ValueError;;
    check (negb (truthy (dgetN "tenant_id" record)) || py_eqb (dgetN "tenant_id" record) tenant) ValueError;;
    let out := dset "tenant_id" tenant (dset "record_kind" (VStr kind) record) in
    check (negb (blank (dgetN (id_field kind) out))) ValueError;;
    links ← finding_links kind record;
    match links with
    | VList l =>
        check (forallb (λ v, negb (blank v)) l) ValueError;;
        Ok (match l with [] => out | _ => dset "finding_id" (VList l) out end)
    | _ => Raise ValueError
    end.

Definition record_identity (record : dict) : res (string * val * val) :=
  out ← export_record record;
  kind ← record_kind out;
  if String.eqb kind "investigation" then
    id ← dindex "investigation_id" out; Ok (kind, id, VNone)
  else if String.eqb kind "verdict" then
    id ← dindex "case_id" out; rev ← dindex "verdict_revision" out; Ok (kind, VList [id; rev], VNone)
  else Ok (kind, dgetN "finding_id" out, dgetN "revision" out).

(** ** Obligations *)

(** The text of the key, as the canonical form of its parts. *)
Abbreviation obl_key := (list val).
Definition _obl_key (tenant record_id revision dest kind : val) : obl_key :=
  let tenant := py_or tenant (VStr "default") in
  canon <$> (if val_eq_str kind "finding" then [tenant; record_id; revision; dest]
             else [tenant; kind; record_id; revision; dest]).

Definition _record_key (record : dict) (dest : string) : res obl_key :=
  '(kind, identity, revision) ← record_identity record;
  tenant ← (if String.eqb kind "finding" then Ok (dgetN "tenant_id" record)
            else out ← export_record record; dindex "tenant_id" out);
  Ok (_obl_key tenant identity revision (VStr dest) (VStr kind)).

Definition _ledger_key (row : dict) : obl_key :=
  _obl_key (dgetN "tenant_id" row) (dget_or "record_id" (dgetN "finding_id" row) row) (dgetN "revision" row)
    (dgetN "dest" row) (dget_or "record_kind" (VStr "finding") row).

Definition _ledger_fields (record : dict) : res dict :=
  '(kind, identity, revision) ← record_identity record;
  out ← export_record record;
  Ok ([("tenant_id", dgetN "tenant_id" out); ("record_kind", VStr kind); ("record_id", identity); ("revision", revision)]
      ++ if String.eqb kind "finding" then [("finding_id", identity)] else []).

(** [entry.get("record", entry.get("finding"))] *)
Definition _dlq_record (entry : dict) : val := dget_or "record" (dgetN "finding" entry) entry.

(** Times in microseconds; the process runs in UTC. *)
Definition _ts_epoch (ts : val) : Z :=
  match ts with VStr s => match parse_instant s with Ok t => t | Raise _ => 0 end | _ => 0 end.

(** ** The ledger *)

Record ledger := { l_file : jfile; l_outcome : list (obl_key * val) }.

Definition load_row (m : list (obl_key * val)) (r : dict) : list (obl_key * val) :=
  if truthy (dgetN "outcome" r) then od_set (_ledger_key r) (dgetN "outcome" r) m else m.
Definition load_outcomes (rows : list dict) : list (obl_key * val) := foldl load_row [] rows.
Definition open_ledger (f : jfile) : ledger := {| l_file := f; l_outcome := load_outcomes (good_lines f) |}.

Definition terminal (l : ledger) (finding : dict) (dest : string) : res (option val) :=
  k ← _record_key finding dest; Ok (od_get k (l_outcome l)).

(** What the disk does to one write: how many entries the process had handled in memory
    when it failed, how many lines are on disk, and what is left of the next one. *)
Record fault := { in_memory : nat; on_disk : nat; tear : torn }.

Definition ledger_row (f : dict) (dest outcome worker ts : string) (note : list (string * val)) : res dict :=
  fields ← _ledger_fields f;
  Ok (fields ++ [("dest", VStr dest); ("outcome", VStr outcome); ("worker", VStr worker)] ++ note ++ [("ts", VStr ts)]).

(** The lines a call writes, with their keys, up to the first record that raises. *)
Fixpoint record_rows (m : list (obl_key * val)) (findings : list dict) (dest outcome worker ts : string) :
    list (obl_key * dict) * option exn :=
  match findings with
  | [] => ([], None)
  | f :: fs =>
      match (k ← _record_key f dest; row ← ledger_row f dest outcome worker ts []; Ok (k, row)) with
      | Raise e => ([], Some e)
      | Ok (k, row) =>
          match od_get k m with
          | Some _ => record_rows m fs dest outcome worker ts
          | None =>
              let '(l, e) := record_rows (od_set k (VStr outcome) m) fs dest outcome worker ts in ((k, row) :: l, e)
          end
      end
  end.
Fixpoint transition_rows (findings : list dict) (dest outcome worker ts note : string) :
    list (obl_key * dict) * option exn :=
  match findings with
  | [] => ([], None)
  | f :: fs =>
      match (k ← _record_key f dest; row ← ledger_row f dest outcome worker ts [("note", VStr note)]; Ok (k, row)) with
      | Raise e => ([], Some e)
      | Ok kr => let '(l, e) := transition_rows fs dest outcome worker ts note in (kr :: l, e)
      end
  end.

Definition set_outcomes (outcome : string) (m : list (obl_key * val)) (entries : list (obl_key * dict)) :
    list (obl_key * val) := foldl (λ m kr, od_set kr.1 (VStr outcome) m) m entries.
Definition write_rows (io : option fault) (outcome : string) (rows : list (obl_key * dict) * option exn) (l : ledger) :
    ledger * res unit :=
  let '(entries, err) := rows in
  match io with
  | Some f =>
      ({| l_file := cut_lines (l_file l) (snd <$> entries) (on_disk f) (tear f);
          l_outcome := set_outcomes outcome (l_outcome l) (take (in_memory f) entries) |}, Raise OtherError)
  | None =>
      ({| l_file := put_lines (l_file l) (snd <$> entries); l_outcome := set_outcomes outcome (l_outcome l) entries |},
       match err with Some e => Raise e | None => Ok tt end)
  end.

Definition record (io : option fault) (findings : list dict) (dest outcome worker ts : string) (l : ledger) :
    ledger * res unit :=
  match findings with
  | [] => (l, Ok tt)
  | _ => write_rows io outcome (record_rows (l_outcome l) findings dest outcome worker ts) l
  end.
Definition transition (io : option fault) (findings : list dict) (dest outcome worker ts note : string) (l : ledger) :
    ledger * res unit :=
  match findings with
  | [] => (l, Ok tt)
  | _ => write_rows io outcome (transition_rows findings dest outcome worker ts note) l
  end.

Definition unresolved_count (l : ledger) : Z :=
  Z.of_nat (length (List.filter (λ kv : obl_key * val, val_eq_str kv.2 "dead_lettered") (l_outcome l))).

Definition latest_rows (rows : list dict) : list (obl_key * dict) :=
  foldl (λ m r, od_set (_ledger_key r) r m) [] rows.
Definition outcome_of (kr : obl_key * dict) : option (obl_key * val) :=
  if truthy (dgetN "outcome" kr.2) then Some (kr.1, dgetN "outcome" kr.2) else None.
(** [os.replace] is atomic: a failed rewrite leaves the file as it was. *)
Definition compact (io : bool) (retain : option Z) (now : Z) (l : ledger) : ledger * res Z :=
  if io then
    let latest := latest_rows (good_lines (l_file l)) in
    let latest := match retain with
                  | None => latest
                  | Some r => List.filter (λ kr : obl_key * dict, now - r <=? _ts_epoch (dgetN "ts" kr.2)) latest
                  end in
    ({| l_file := rewritten (snd <$> latest); l_outcome := omap outcome_of latest |}, Ok (Z.of_nat (length latest)))
  else (l, Raise OtherError).

(** ** Facts: records *)

Lemma dset_same k v d : dget k d = Some v → dset k v d = d.
Proof.
  induction d as [|[k' v'] d IH]; simpl; [done|]. destruct (String.eqb k k'); [by intros [= ->]|].
  intros H. by rewrite IH.
Qed.
Lemma record_kind_known r kind : record_kind r = Ok kind → kind ∈ KINDS.
Proof.
  unfold record_kind, KINDS. destruct (dgetN "record_kind" r); try done.
  - repeat case_match; intros [= <-]; set_solver.
  - destruct (mem s _) eqn:E; [|done]. intros [= <-]. by apply mem_true in E.
Qed.
Lemma record_kind_set k v r kind :
  k ∉ ["record_kind"] → dgetN "record_kind" r = VStr kind → record_kind r = Ok kind → record_kind (dset k v r) = Ok kind.
Proof.
  intros Hk Hs Hr. unfold record_kind in *. rewrite dgetN_dset_ne by set_solver. by rewrite Hs in *.
Qed.

(** What an exported record that is not a finding looks like. *)
Lemma export_inv r e kind :
  record_kind r = Ok kind → kind ≠ "finding" → export_record r = Ok e →
  ∃ t l, py_or (dgetN "tenant" r) (dgetN "tenant_id" r) = VStr t ∧ blank (VStr t) = false ∧
    finding_links kind r = Ok (VList l) ∧ forallb (λ v, negb (blank v)) l = true ∧
    blank (dgetN (id_field kind) r) = false ∧
    e = (match l with [] => λ d, d | _ => dset "finding_id" (VList l) end)
          (dset "tenant_id" (VStr t) (dset "record_kind" (VStr kind) r)).
Proof.
  intros Hk Hne. unfold export_record. rewrite Hk. cbn [mbind res_bind]. apply String.eqb_neq in Hne. rewrite Hne.
  set (tenant := py_or _ _). intros H. inv_ok.
  destruct tenant as [| | | |t| |] eqn:Et; try done.
  destruct a2 as [| | | | |l|]; try done. inv_ok. exists t, l. split_and!; try done.
  - by apply negb_true_iff.
  - apply negb_true_iff in Hm1. assert (Hidk : id_field kind ∉ ["tenant_id"; "record_kind"])
      by (unfold id_field; destruct (String.eqb kind "investigation"); set_solver).
    rewrite !dgetN_dset_ne in Hm1 by set_solver. done.
  - by destruct l.
Qed.

Definition pivots (kind t : string) (l : list val) (r : dict) : dict :=
  (match l with [] => λ d, d | _ => dset "finding_id" (VList l) end)
    (dset "tenant_id" (VStr t) (dset "record_kind" (VStr kind) r)).
Lemma pivots_get kind t l r k :
  k ∉ ["finding_id"; "tenant_id"; "record_kind"] → dget k (pivots kind t l r) = dget k r.
Proof. intros Hk. unfold pivots. destruct l; rewrite ?dget_dset_ne by set_solver; done. Qed.
Lemma pivots_getN kind t l r k :
  k ∉ ["finding_id"; "tenant_id"; "record_kind"] → dgetN k (pivots kind t l r) = dgetN k r.
Proof. intros Hk. unfold dgetN, dget_or. by rewrite pivots_get. Qed.
Lemma pivots_tenant kind t l r : dget "tenant_id" (pivots kind t l r) = Some (VStr t).
Proof. unfold pivots. destruct l; simpl_dict; done. Qed.
Lemma pivots_kind kind t l r : dget "record_kind" (pivots kind t l r) = Some (VStr kind).
Proof. unfold pivots. destruct l; simpl_dict; done. Qed.
Lemma pivots_again kind t l r : pivots kind t l (pivots kind t l r) = pivots kind t l r.
Proof.
  unfold pivots at 1. rewrite (dset_same "record_kind"), (dset_same "tenant_id") by (apply pivots_kind || apply pivots_tenant).
  destruct l as [|x l]; [done|]. apply dset_same. unfold pivots. by simpl_dict.
Qed.

Lemma export_record_spec r e :
  export_record r = Ok e →
  ∃ kind, record_kind r = Ok kind ∧ record_kind e = Ok kind ∧ export_record e = Ok e ∧
    (kind = "finding" ∧ e = r ∨
     kind ≠ "finding" ∧ (∃ t l, e = pivots kind t l r) ∧ (∃ v, dget (id_field kind) e = Some v) ∧
       (kind = "verdict" → ∃ v, dget "verdict_revision" e = Some v)).
Proof.
  intros H. pose proof H as H'. unfold export_record in H'. apply bind_ok_inv in H' as (kind & Hk & _).
  exists kind. destruct (decide (kind = "finding")) as [->|Hne].
  { unfold export_record in H. rewrite Hk in H. injection H as <-. split_and!; try done; [|by left].
    unfold export_record. by rewrite Hk. }
  destruct (export_inv r e kind Hk Hne H) as (t & l & Ht & Hb & Hl & Hf & Hid & ->).
  change (_ (dset _ _ _)) with (pivots kind t l r) in *.
  assert (Hidk : id_field kind ∉ ["finding_id"; "tenant_id"; "record_kind"])
    by (unfold id_field; destruct (String.eqb _ _); set_solver).
  assert (Hke : record_kind (pivots kind t l r) = Ok kind).
  { unfold record_kind, dgetN, dget_or. rewrite pivots_kind. simpl.
    apply record_kind_known, mem_true in Hk. by rewrite Hk. }
  split_and!; [done|done| |].
  - unfold export_record. rewrite Hke. cbn [mbind res_bind]. apply String.eqb_neq in Hne as Hne'. rewrite Hne'.
    assert (Htid : dgetN "tenant_id" (pivots kind t l r) = VStr t) by (unfold dgetN, dget_or; by rewrite pivots_tenant).
    rewrite (pivots_getN _ _ _ _ "tenant") by set_solver. rewrite Htid.
    assert (Et : py_or (dgetN "tenant" r) (VStr t) = VStr t).
    { unfold py_or in *. by destruct (truthy (dgetN "tenant" r)). }
    rewrite Et, Hb. cbn [negb check mbind res_bind]. simpl (py_eqb _ _). rewrite String.eqb_refl, orb_true_r.
    cbn [check mbind res_bind].
    rewrite (dset_same "record_kind"), (dset_same "tenant_id") by (apply pivots_kind || apply pivots_tenant).
    rewrite (pivots_getN _ _ _ _ (id_field kind)) by done. rewrite Hid. cbn [negb check mbind res_bind].
    assert (Hl' : finding_links kind (pivots kind t l r) = Ok (VList l)).
    { rewrite <- Hl. unfold finding_links, dget_or. rewrite !pivots_get, !pivots_getN by set_solver. done. }
    rewrite Hl'. cbn [mbind res_bind]. rewrite Hf. cbn [check mbind res_bind]. f_equal.
    destruct l as [|x l]; [done|]. apply dset_same. unfold pivots. by simpl_dict.
  - right. split_and!; [done|by eexists _, _| |].
    + rewrite pivots_get by done. unfold dgetN, dget_or in Hid. destruct (dget (id_field kind) r); [by eexists|done].
    + intros ->. rewrite pivots_get by set_solver. unfold finding_links in Hl. simpl in Hl. inv_ok. to_prop.
      unfold dgetN, dget_or in *. destruct (dget "verdict_revision" r); [by eexists|done].
Qed.
Lemma export_idem r e : export_record r = Ok e → export_record e = Ok e.
Proof. intros H. by destruct (export_record_spec r e H) as (? & _ & _ & ? & _). Qed.

(** The identity and the key do not change under export, and exist for what exports. *)
Lemma record_identity_export r e : export_record r = Ok e → record_identity e = record_identity r.
Proof. intros H. unfold record_identity. by rewrite H, (export_idem r e). Qed.
Lemma record_key_export r e dest : export_record r = Ok e → _record_key e dest = _record_key r dest.
Proof.
  intros H. unfold _record_key. rewrite (record_identity_export r e) by done.
  destruct (record_identity r) as [[[kind id] rev]|] eqn:Ei; [|done]. cbn [mbind res_bind].
  destruct (String.eqb_spec kind "finding") as [->|Hne].
  - destruct (export_record_spec r e H) as (kind & Hk & Hk' & _ & [[-> ->]|(Hne & _)]); [done|].
    unfold record_identity in Ei. rewrite H in Ei. cbn [mbind res_bind] in Ei. rewrite Hk' in Ei.
    cbn [mbind res_bind] in Ei. repeat case_match; inv_ok; simplify_eq.
  - by rewrite H, (export_idem r e).
Qed.
Lemma record_identity_total r e : export_record r = Ok e → ∃ kind id rev, record_identity r = Ok (kind, id, rev) ∧ record_kind e = Ok kind.
Proof.
  intros H. destruct (export_record_spec r e H) as (kind & Hk & Hk' & _ & Hcase).
  unfold record_identity. rewrite H. cbn [mbind res_bind]. rewrite Hk'. cbn [mbind res_bind].
  destruct Hcase as [[-> ->]|(Hne & _ & (v & Hv) & Hrev)]; [by eexists _, _, _|].
  unfold dindex, id_field in *. pose proof (record_kind_known _ _ Hk) as Hin.
  destruct (String.eqb_spec kind "investigation") as [->|]; [rewrite Hv; by eexists _, _, _|].
  assert (kind = "verdict") as -> by (unfold KINDS in Hin; set_solver).
  destruct (Hrev eq_refl) as (v' & Hv'). rewrite Hv, Hv'. by eexists _, _, _.
Qed.
Lemma record_key_total r e dest : export_record r = Ok e → ∃ k, _record_key r dest = Ok k.
Proof.
  intros H. destruct (record_identity_total r e H) as (kind & id & rev & Hi & Hk). unfold _record_key. rewrite Hi.
  cbn [mbind res_bind]. destruct (String.eqb_spec kind "finding"); [by eexists|]. rewrite H. cbn [mbind res_bind].
  destruct (export_record_spec r e H) as (kind' & _ & Hk' & _ & [[-> ->]|(_ & (t & l & ->) & _)]); [congruence|].
  unfold dindex. rewrite pivots_tenant. by eexists.
Qed.

(** A ledger line reads back as the key of the record it was written for. *)
Lemma ledger_row_key r e dest outcome worker ts note :
  export_record r = Ok e →
  ∃ row k, ledger_row r dest outcome worker ts note = Ok row ∧ _record_key r dest = Ok k ∧
    _ledger_key row = k ∧ dgetN "outcome" row = VStr outcome.
Proof.
  intros H. destruct (record_identity_total r e H) as (kind & id & rev & Hi & Hk).
  unfold ledger_row, _ledger_fields, _record_key. rewrite Hi. cbn [mbind res_bind]. rewrite H. cbn [mbind res_bind].
  destruct (export_record_spec r e H) as (kind' & _ & Hk' & _ & Hcase). assert (kind' = kind) as -> by congruence.
  destruct (String.eqb_spec kind "finding") as [->|Hne].
  - eexists _, _. split_and!; [reflexivity|reflexivity| |reflexivity].
    destruct Hcase as [[_ ->]|(Hx & _)]; [|done]. reflexivity.
  - destruct Hcase as [[-> _]|(_ & (t & l & ->) & _)]; [done|]. unfold dindex. rewrite pivots_tenant.
    eexists _, _. split_and!; [reflexivity|reflexivity| |reflexivity].
    assert (Ht : dgetN "tenant_id" (pivots kind t l r) = VStr t) by (unfold dgetN, dget_or; by rewrite pivots_tenant).
    rewrite Ht. reflexivity.
Qed.
Lemma entry_of r e dest outcome worker ts note :
  export_record r = Ok e →
  ∃ row k, (k ← _record_key r dest; row ← ledger_row r dest outcome worker ts note; Ok (k, row)) = Ok (k, row) ∧
    _record_key r dest = Ok k ∧ _ledger_key row = k ∧ dgetN "outcome" row = VStr outcome.
Proof.
  intros H. destruct (ledger_row_key r e dest outcome worker ts note H) as (row & k & Hr & Hk & E1 & E2).
  exists row, k. by rewrite Hk, Hr.
Qed.

(** ** Facts: lines and the index *)

Definition same_map (m m' : list (obl_key * val)) : Prop := ∀ k, od_get k m = od_get k m'.
#[export] Instance same_map_equiv : Equivalence same_map.
Proof.
  split; unfold same_map; [done|by intros m m' H k|]. intros m1 m2 m3 H1 H2 k. by rewrite H1.
Qed.
#[export] Instance od_set_same_map k v : Proper (same_map ==> same_map) (od_set k v).
Proof. intros m m' H k'. rewrite !od_get_set. by case_decide. Qed.

(** Entries as [record] and [transition] make them: keyed by their line, with the outcome. *)
Definition entry_ok (outcome : string) (kr : obl_key * dict) : Prop :=
  _ledger_key kr.2 = kr.1 ∧ dgetN "outcome" kr.2 = VStr outcome.

Lemma set_outcomes_get o m entries k :
  od_get k (set_outcomes o m entries) = if decide (k ∈ entries.*1) then Some (VStr o) else od_get k m.
Proof.
  unfold set_outcomes. revert m. induction entries as [|[k' r] entries IH]; intros m; simpl; [done|].
  rewrite IH, od_get_set. repeat case_decide; set_solver.
Qed.
#[export] Instance set_outcomes_same_map o : Proper (same_map ==> eq ==> same_map) (set_outcomes o).
Proof. intros m m' H e e' <- k. rewrite !set_outcomes_get. by case_decide. Qed.

Lemma load_entries o rows entries :
  str_truthy o = true → Forall (entry_ok o) entries →
  load_outcomes (rows ++ entries.*2) = set_outcomes o (load_outcomes rows) entries.
Proof.
  intros Ho Hf. unfold load_outcomes, set_outcomes. rewrite foldl_app. generalize (foldl load_row [] rows).
  induction Hf as [|[k r] entries [Hk Hr] Hf IH]; intros m; simpl in *; [done|].
  rewrite <- IH. f_equal. unfold load_row. rewrite Hr, Hk. simpl. by rewrite Ho.
Qed.

(** What [record] writes. *)
Definition exports (f : dict) : Prop := ∃ e, export_record f = Ok e.
Lemma record_key_exports f dest k : _record_key f dest = Ok k → exports f.
Proof.
  unfold _record_key, record_identity. intros H. apply bind_ok_inv in H as (x & Hx & _).
  apply bind_ok_inv in Hx as (e & He & _). by exists e.
Qed.
Lemma record_rows_spec m fs dest o worker ts :
  ∃ entries err, record_rows m fs dest o worker ts = (entries, err) ∧ Forall (entry_ok o) entries ∧
    (∀ k, k ∈ entries.*1 → ∃ f, f ∈ fs ∧ _record_key f dest = Ok k) ∧
    (Forall exports fs → err = None ∧
       ∀ k f, f ∈ fs → _record_key f dest = Ok k → is_Some (od_get k m) ∨ k ∈ entries.*1).
Proof.
  revert m. induction fs as [|f fs IH]; intros m; simpl.
  { exists [], None. split_and!; [done|constructor|set_solver|]. intros _. split; [done|set_solver]. }
  destruct (k ← _record_key f dest; _) as [[k row]|e] eqn:E.
  2:{ exists [], (Some e). split_and!; [done|constructor|set_solver|]. intros Hf. exfalso.
      inversion Hf as [|? ? [x Hx] _]; subst. destruct (entry_of f x dest o worker ts [] Hx) as (row & k & H & _).
      congruence. }
  assert (Hf : exports f) by (apply bind_ok_inv in E as (k' & Hk' & _); by eapply record_key_exports).
  destruct Hf as [x Hx]. destruct (entry_of f x dest o worker ts [] Hx) as (row' & k' & H & Hk & E1 & E2).
  rewrite H in E. injection E as -> ->. clear H.
  destruct (od_get k m) as [v|] eqn:Ek.
  - destruct (IH m) as (entries & err & -> & H1 & H2 & H3). exists entries, err. split_and!; [done|done| |].
    + intros k' Hk'. destruct (H2 k' Hk') as (f' & Hf' & Hkf). exists f'. split; [by right|done].
    + intros Hf. inversion Hf as [|? ? _ Hf']; subst. destruct (H3 Hf') as [-> H4]. split; [done|].
      intros k' f' [->|Hin]%elem_of_cons Hkf; [|by eapply H4]. left. rewrite Hk in Hkf. injection Hkf as <-. by eexists.
  - destruct (IH (od_set k (VStr o) m)) as (entries & err & -> & H1 & H2 & H3). exists ((k, row) :: entries), err.
    split_and!; [done|by constructor| |].
    + simpl. intros k' [->|Hk']%elem_of_cons; [exists f; split; [by left|done]|].
      destruct (H2 k' Hk') as (f' & Hf' & Hkf). exists f'. split; [by right|done].
    + intros Hf. inversion Hf as [|? ? _ Hf']; subst. destruct (H3 Hf') as [-> H4]. split; [done|].
      simpl. intros k' f' [->|Hin]%elem_of_cons Hkf; [right; rewrite Hk in Hkf; injection Hkf as <-; by left|].
      destruct (H4 k' f' Hin Hkf) as [[v Hv]|Hkin]; [|right; by right].
      rewrite od_get_set in Hv. case_decide as Ec; [right; subst; by left|left; by eexists].
Qed.
Lemma transition_rows_spec fs dest o worker ts note :
  Forall exports fs →
  ∃ entries, transition_rows fs dest o worker ts note = (entries, None) ∧ Forall (entry_ok o) entries ∧
    (∀ k, k ∈ entries.*1 ↔ ∃ f, f ∈ fs ∧ _record_key f dest = Ok k).
Proof.
  intros Hf. induction Hf as [|f fs [e He] Hf (entries & E & H1 & H2)]; simpl.
  { exists []. split_and!; [done|constructor|]. set_solver. }
  destruct (entry_of f e dest o worker ts [("note", VStr note)] He) as (row & k & -> & Hk & E1 & E2).
  rewrite E. exists ((k, row) :: entries). split_and!; [done|by constructor|]. intros k'. simpl. rewrite elem_of_cons, H2.
  split.
  - intros [->|(f' & Hf' & Hkf)]; [exists f|exists f']; split; try done; [by left|by right].
  - intros (f' & [->|Hf']%elem_of_cons & Hkf); [left; congruence|right; by exists f'].
Qed.

(** The index agrees with what a restart would load. *)
Definition synced (l : ledger) : Prop := same_map (l_outcome l) (load_outcomes (good_lines (l_file l))).
Definition rows_ok (rows : list dict) : Prop := Forall (λ r, truthy (dgetN "outcome" r) = true) rows.

Lemma latest_rows_spec rows :
  od_wf (latest_rows rows) ∧
  (∀ k r, od_get k (latest_rows rows) = Some r → _ledger_key r = k ∧ r ∈ rows) ∧
  (rows_ok rows → ∀ k, od_get k (load_outcomes rows) = (λ r, dgetN "outcome" r) <$> od_get k (latest_rows rows)).
Proof.
  unfold latest_rows, load_outcomes. induction rows as [|r rows (IH1 & IH2 & IH3)] using rev_ind.
  { split_and!; [constructor|done|done]. }
  rewrite !foldl_app. simpl. split_and!; [by apply od_wf_set| |].
  - intros k r'. rewrite od_get_set. case_decide as E.
    + intros [= <-]. split; [done|]. apply elem_of_app. right. by left.
    + intros H. destruct (IH2 k r' H) as [? ?]. split; [done|]. apply elem_of_app. by left.
  - intros [Hr Hx]%Forall_app k. inversion Hx as [|? ? Hx' _]; subst. unfold load_row at 1. rewrite Hx'.
    rewrite !od_get_set. case_decide; [done|]. by apply IH3.
Qed.

Lemma load_latest m :
  od_wf m → (∀ k r, (k, r) ∈ m → _ledger_key r = k ∧ truthy (dgetN "outcome" r) = true) →
  same_map (load_outcomes m.*2) (omap outcome_of m) ∧
  ∀ k, od_get k (omap outcome_of m) = (λ r, dgetN "outcome" r) <$> od_get k m.
Proof.
  intros Hwf Hm.
  assert (Ho : ∀ k, od_get k (omap outcome_of m) = (λ r, dgetN "outcome" r) <$> od_get k m).
  { clear Hwf. intros k. induction m as [|[k' r] m IH]; simpl; [done|]. unfold outcome_of at 1.
    destruct (Hm k' r) as [_ Hr]; [by left|]. simpl. rewrite Hr. simpl. case_decide; [done|].
    apply IH. intros k2 r2 H2. apply Hm. by right. }
  split; [|done]. intros k. rewrite Ho. clear Ho.
  induction m as [|[k' r] m IH] using rev_ind; [done|].
  rewrite fmap_app. unfold load_outcomes. rewrite foldl_app. fold (load_outcomes m.*2). cbn [foldl fmap list_fmap].
  destruct (Hm k' r) as [Hk Hr]; [set_solver|]. unfold load_row. simpl. rewrite Hr, od_get_set, Hk.
  assert (Hwf' : od_wf m ∧ od_get k' m = None).
  { unfold od_wf, od_keys in Hwf. rewrite fmap_app in Hwf. apply NoDup_app in Hwf as (H1 & H2 & _).
    split; [done|]. apply od_get_none. intros Hin. apply (H2 _ Hin). set_solver. }
  destruct Hwf' as [Hw Hnone]. rewrite IH; [|done|intros; apply Hm; set_solver].
  rewrite <- (od_set_absent k' r m Hnone), od_get_set. by case_decide.
Qed.

Lemma od_filter_get {V} (P : obl_key * V → bool) (m : list (obl_key * V)) k v :
  od_wf m → od_get k (List.filter P m) = Some v ↔ od_get k m = Some v ∧ P (k, v) = true.
Proof.
  intros Hwf. induction m as [|[k' v'] m IH]; simpl; [naive_solver|].
  unfold od_wf, od_keys in Hwf. rewrite fmap_cons, NoDup_cons in Hwf. destruct Hwf as [Hk Hwf]. specialize (IH Hwf).
  assert (Hno : od_get k' m = None) by by apply od_get_none.
  destruct (P (k', v')) eqn:E; simpl; case_decide as Ec.
  - subst. naive_solver.
  - done.
  - subst. rewrite IH, Hno. split; [by intros [? _]|]. intros [[= ->] ?]. congruence.
  - done.
Qed.

Lemma compact_spec l retain now :
  synced l → rows_ok (good_lines (l_file l)) →
  ∃ m, compact true retain now l = ({| l_file := rewritten m.*2; l_outcome := omap outcome_of m |}, Ok (Z.of_nat (length m))) ∧
    od_wf m ∧ (∀ k r, (k, r) ∈ m → _ledger_key r = k ∧ r ∈ good_lines (l_file l)) ∧
    ∀ k, od_get k (omap outcome_of m) = od_get k (l_outcome l) ∨
      od_get k (omap outcome_of m) = None ∧ ∃ age r, retain = Some age ∧ r ∈ good_lines (l_file l) ∧
        _ledger_key r = k ∧ _ts_epoch (dgetN "ts" r) < now - age.
Proof.
  intros Hs Hok. unfold compact. destruct (latest_rows_spec (good_lines (l_file l))) as (Hwf & Hin & Hload).
  specialize (Hload Hok). set (latest := latest_rows _) in *.
  set (m := match retain with None => latest | Some r => List.filter _ latest end).
  assert (Hsub : ∀ k r, (k, r) ∈ m → (k, r) ∈ latest).
  { intros k r. unfold m. destruct retain; [|done]. intros Hkr%list_elem_of_In%filter_In. apply list_elem_of_In. tauto. }
  assert (Hm : ∀ k r, (k, r) ∈ m → _ledger_key r = k ∧ r ∈ good_lines (l_file l)).
  { intros k r Hkr%Hsub. apply Hin. by apply od_wf_get. }
  assert (Hwfm : od_wf m).
  { unfold m. destruct retain; [|done]. unfold od_wf, od_keys. eapply sublist_NoDup; [exact Hwf|apply fmap_sublist, filter_sublist]. }
  exists m. split_and!; [done|done|done|]. intros k.
  destruct (load_latest m Hwfm) as [_ Hget].
  { intros k' r Hkr. destruct (Hm _ _ Hkr) as [? Hr]. split; [done|]. unfold rows_ok in Hok.
    rewrite Forall_forall in Hok. by apply Hok. }
  rewrite Hget, (Hs k), Hload. destruct (od_get k latest) as [r|] eqn:Er.
  - assert (Hx : od_get k m = Some r ∨ od_get k m = None ∧ ∃ age, retain = Some age ∧ _ts_epoch (dgetN "ts" r) < now - age).
    { unfold m. destruct retain as [age|]; [|by left].
      destruct (od_get k (List.filter _ latest)) as [r'|] eqn:Ef.
      - apply od_filter_get in Ef as [Ef _]; [|done]. left. congruence.
      - right. split; [done|]. exists age. split; [done|]. apply Z.nle_gt. intros Hle.
        assert (Hno := proj2 (od_filter_get (λ kr : obl_key * dict, now - age <=? _ts_epoch (dgetN "ts" kr.2)) latest k r Hwf)).
        rewrite Ef in Hno. discriminate Hno. split; [done|]. by apply Z.leb_le. }
    destruct Hx as [->|[-> (age & -> & Hage)]]; [by left|]. right. split; [done|]. exists age, r.
    destruct (Hin _ _ Er). by split_and!.
  - left. replace (od_get k m) with (@None dict); [done|]. symmetry. apply od_get_none. intros Hk.
    apply list_elem_of_fmap in Hk as ([k' r] & -> & Hkr%Hsub). apply (od_wf_get _ _ _ Hwf) in Hkr. simpl in Er. congruence.
Qed.

(** Compaction keeps exactly the latest outcomes: the new file holds at most one line
    per obligation, each of them a line of the old file, all of them readable; a restart
    from it loads the index the process keeps; and every obligation has the outcome it
    had before, except those whose latest line is older than the retention asked for. *)
Theorem compaction_keeps_latest l retain now l' n :
  synced l → rows_ok (good_lines (l_file l)) →
  compact true retain now l = (l', Ok n) →
  let rows := good_lines (l_file l) in
  let rows' := good_lines (l_file l') in
  synced l' ∧ all_parse (l_file l') = true ∧ n = Z.of_nat (length rows') ∧
  NoDup (_ledger_key <$> rows') ∧ (∀ r, r ∈ rows' → r ∈ rows) ∧
  ∀ k, od_get k (l_outcome l') = od_get k (l_outcome l) ∨
    od_get k (l_outcome l') = None ∧ ∃ age r, retain = Some age ∧ r ∈ rows ∧ _ledger_key r = k ∧
      _ts_epoch (dgetN "ts" r) < now - age.
Proof.
  intros Hs Hok H. destruct (compact_spec l retain now Hs Hok) as (m & E & Hwf & Hm & Hget).
  rewrite E in H. injection H as <- <-. cbv zeta. simpl. rewrite good_rewritten.
  assert (Hok' : ∀ k r, (k, r) ∈ m → _ledger_key r = k ∧ truthy (dgetN "outcome" r) = true).
  { intros k r Hkr. destruct (Hm _ _ Hkr) as [? Hr]. split; [done|]. unfold rows_ok in Hok. rewrite Forall_forall in Hok. by apply Hok. }
  split_and!; [| |by rewrite length_fmap| | |done].
  - unfold synced. simpl. rewrite good_rewritten. symmetry. by apply load_latest.
  - apply all_parse_rewritten.
  - replace (_ledger_key <$> m.*2) with (m.*1); [exact Hwf|].
    clear -Hm. induction m as [|[k r] m IH]; [done|]. simpl. destruct (Hm k r) as [-> _]; [by left|]. f_equal.
    apply IH. intros k' r' H'. apply Hm. by right.
  - intros r ([k r'] & -> & Hkr)%list_elem_of_fmap. by eapply Hm.
Qed.

(** ** An index and a file that only make true claims *)

Lemma load_get_inv rows k v :
  od_get k (load_outcomes rows) = Some v → ∃ r, r ∈ rows ∧ _ledger_key r = k ∧ dgetN "outcome" r = v ∧ truthy v = true.
Proof.
  unfold load_outcomes. induction rows as [|r rows IH] using rev_ind; [done|]. rewrite foldl_app. simpl.
  unfold load_row at 1. destruct (truthy (dgetN "outcome" r)) eqn:Et.
  - rewrite od_get_set. case_decide as E.
    + intros [= <-]. exists r. split_and!; [set_solver|done..].
    + intros H. destruct (IH H) as (r' & ? & ? & ? & ?). exists r'. split_and!; [set_solver|done..].
  - intros H. destruct (IH H) as (r' & ? & ? & ? & ?). exists r'. split_and!; [set_solver|done..].
Qed.

Definition claims (C : obl_key → val → Prop) (l : ledger) : Prop :=
  jf_tail (l_file l) = None ∧ (∀ k v, od_get k (l_outcome l) = Some v → C k v) ∧
  ∀ r, r ∈ good_lines (l_file l) → truthy (dgetN "outcome" r) = true → C (_ledger_key r) (dgetN "outcome" r).

Lemma claims_mono (C D : obl_key → val → Prop) l : (∀ k v, C k v → D k v) → claims C l → claims D l.
Proof. intros H (H1 & H2 & H3). split_and!; auto. Qed.
Lemma claims_open C f : jf_tail f = None → (∀ r, r ∈ good_lines f → truthy (dgetN "outcome" r) = true → C (_ledger_key r) (dgetN "outcome" r)) →
  claims C (open_ledger f).
Proof.
  intros Ht Hf. split_and!; [done| |done]. intros k v H. destruct (load_get_inv _ _ _ H) as (r & Hr & <- & <- & ?). by apply Hf.
Qed.
Lemma claims_reopen C l : claims C l → claims C (open_ledger (l_file l)).
Proof. intros (H1 & H2 & H3). by apply claims_open. Qed.
Lemma claims_write C l io o entries err :
  (∀ f, io = Some f → tear f = torn_none) → Forall (entry_ok o) entries → (∀ k, k ∈ entries.*1 → C k (VStr o)) →
  claims C l → claims C (write_rows io o (entries, err) l).1.
Proof.
  intros Hc Hok Hk (H1 & H2 & H3).
  assert (Hpart : ∀ n f m, (∀ k, k ∈ m.*1 → C k (VStr o)) → f = put_lines (l_file l) (take n entries.*2) →
    claims C {| l_file := f; l_outcome := set_outcomes o (l_outcome l) m |}).
  { intros n f m Hm ->. split_and!; simpl; [by apply whole_put_lines| |].
    - intros k v. rewrite set_outcomes_get. case_decide; [intros [= <-]; by apply Hm|apply H2].
    - intros r. rewrite good_put_lines by done. intros [Hr|Hr]%elem_of_app; [by apply H3|]. intros _.
      rewrite <- fmap_take in Hr. apply list_elem_of_fmap in Hr as ([k r'] & -> & Hr).
      assert (Hr' : (k, r') ∈ entries) by (eapply elem_of_sublist; [exact Hr|apply sublist_take]).
      rewrite Forall_forall in Hok. destruct (Hok _ Hr') as [-> ->]. apply Hk. by apply (list_elem_of_fmap_2 fst) in Hr'. }
  unfold write_rows. destruct io as [x|].
  - specialize (Hc x eq_refl). simpl. eapply (Hpart (on_disk x)); [|by rewrite Hc, cut_lines_whole].
    intros k Hin. apply Hk. apply list_elem_of_fmap in Hin as (kr & -> & Hkr). apply list_elem_of_fmap_2.
    eapply elem_of_sublist; [exact Hkr|apply sublist_take].
  - simpl. eapply (Hpart (length entries)); [exact Hk|]. f_equal. rewrite take_ge; [done|]. rewrite length_fmap. lia.
Qed.
Lemma latest_subset rows k r : (k, r) ∈ latest_rows rows → _ledger_key r = k ∧ r ∈ rows.
Proof. destruct (latest_rows_spec rows) as (Hwf & Hin & _). intros H. apply Hin. by apply od_wf_get. Qed.
Lemma claims_compact C io retain now l : claims C l → claims C (compact io retain now l).1.
Proof.
  intros (H1 & H2 & H3). unfold compact. destruct io; [|done]. cbv zeta. simpl.
  set (m := match retain with None => _ | Some r => List.filter _ _ end).
  assert (Hm : ∀ k r, (k, r) ∈ m → _ledger_key r = k ∧ r ∈ good_lines (l_file l)).
  { intros k r. unfold m. destruct retain; [|apply latest_subset].
    intros Hkr%list_elem_of_In%filter_In. apply latest_subset, list_elem_of_In. tauto. }
  split_and!; [done| |].
  - simpl. intros k v (kr & Hkr & Ho)%od_get_elem%list_elem_of_omap. unfold outcome_of in Ho. destruct kr as [k' r]; simpl in Ho.
    destruct (truthy _) eqn:Et; [|done]. injection Ho as <- <-. destruct (Hm _ _ Hkr) as [<- ?]. by apply H3.
  - simpl. rewrite good_rewritten. intros r ([k r'] & -> & Hkr)%list_elem_of_fmap Ht. simpl in *.
    destruct (Hm _ _ Hkr) as [_ Hin]. by apply H3.
Qed.

(** Two obligations, one settled twice: compaction with a retention drops the old one. *)
Definition example_row (id dest outcome ts : string) : dict :=
  [("tenant_id", VStr "acme"); ("record_kind", VStr "finding"); ("record_id", VStr id); ("revision", VInt 1);
   ("dest", VStr dest); ("outcome", VStr outcome); ("ts", VStr ts)].
Definition example_ledger : ledger :=
  open_ledger (rewritten
    [example_row "f1" "siem" "delivered" "2026-01-01T00:00:00Z";
     example_row "f2" "siem" "dead_lettered" "2026-03-01T00:00:00Z";
     example_row "f2" "siem" "delivered" "2026-03-02T00:00:00Z"]).
Lemma compaction_keeps_latest_witness :
  let r := compact true (Some 864000000000) 1772500000000000 example_ledger in
  r.2 = Ok 1 ∧ synced r.1 ∧ NoDup (_ledger_key <$> good_lines (l_file r.1)).
Proof.
  cbv zeta. assert (E : compact true (Some 864000000000) 1772500000000000 example_ledger =
    ((compact true (Some 864000000000) 1772500000000000 example_ledger).1, Ok 1)) by (vm_compute; reflexivity).
  rewrite E. split; [reflexivity|].
  assert (Hs : synced example_ledger) by (intros k; unfold example_ledger, open_ledger; reflexivity).
  assert (Hok : rows_ok (good_lines (l_file example_ledger))) by (vm_compute; repeat constructor).
  destruct (compaction_keeps_latest example_ledger (Some 864000000000) 1772500000000000 _ _ Hs Hok E) as (H1 & _ & _ & H2 & _).
  by split.
Defined.
