(* ===== verification/SinkDelivery.v ===== *)
(** * Delivery to sinks (services/findings-forwarder: DurableSink and MultiAdapter of
    adapters.py, forwarder.py, the poll loop of app.py)

    A sink submits records to its receiver with retries, records every outcome in the
    obligation ledger and dead-letters what the receiver keeps rejecting.  The receiver
    ([inner]) and the disk ([disk]) answer the n-th call as they like: the receiver with
    a flag per submitted record ([true] for rejected) or an exception, the disk with an
    optional [fault].  [k_received] and [k_dropped] are not state of the program: the one
    collects what the receiver acknowledged, the other the dead letters that a replay had
    still to write back when the rewrite of the dead-letter file was cut. *)

From S2P Require Import Prelude Order PyVal PyString OrderedMap PyTime Json FindingsExport.
Set Default Proof Using "Type".

Record sink := {
  k_ledger : ledger; k_dlq : jfile;
  k_calls : nat; k_writes : nat;
  k_delivered : Z; k_dead : Z; k_healthy : option bool;
  k_received : list dict; k_dropped : list dict
}.

(** Records by the flag at their position; a missing flag means accepted. *)
Fixpoint flagged (want : bool) (flags : list bool) (fs : list dict) : list dict :=
  match fs with
  | [] => []
  | f :: fs => (if Bool.eqb (default false (head flags)) want then [f] else []) ++ flagged want (tail flags) fs
  end.

(** The reply of a bulk request, reconciled item by item ([ElasticsearchAdapter]). *)
Definition item_failed (item : val) : bool :=
  match item with
  | VDict d =>
      match py_or (py_or (dgetN "index" d) (dgetN "create" d)) (dgetN "update" d) with
      | VDict o =>
          match dgetN "status" o with
          | VInt n => negb ((200 <=? n) && (n <? 300)) || truthy (dgetN "error" o)
          | _ => true
          end
      | _ => true
      end
  | _ => true
  end.
Definition _failed_items (n : nat) (reply : val) : list bool :=
  match reply with
  | VDict d =>
      match dgetN "items" d with
      | VList items => if (length items =? n)%nat then item_failed <$> items else replicate n true
      | _ => replicate n true
      end
  | _ => replicate n true
  end.
(** [_live]: suppressed findings are not sent, and count as accepted. *)
Definition is_live (f : dict) : res bool :=
  kind ← record_kind f; Ok (negb (String.eqb kind "finding") || negb (val_eq_str (dgetN "state" f) "SUPPRESSED")).

Section sink.
Context (name : string) (retries : nat) (worker : string).
Context (inner : nat → list dict → res (list bool)) (disk : nat → option fault) (clock : nat → string)
  (errtext : exn → string).

Definition on_ledger (f : option fault → string → ledger → ledger * res unit) : M sink unit := λ w,
  let '(l, r) := f (disk (k_writes w)) (clock (k_writes w)) (k_ledger w) in
  ({| k_ledger := l; k_dlq := k_dlq w; k_calls := k_calls w; k_writes := S (k_writes w);
      k_delivered := k_delivered w; k_dead := k_dead w; k_healthy := k_healthy w; k_received := k_received w; k_dropped := k_dropped w |}, r).
Definition ledger_record (fs : list dict) (dest outcome : string) : M sink unit :=
  on_ledger (λ io ts l, record io fs dest outcome worker ts l).
Definition ledger_transition (fs : list dict) (outcome note : string) : M sink unit :=
  on_ledger (λ io ts l, transition io fs name outcome worker ts note l).
Definition count_delivered (n : nat) (w : sink) : sink :=
  {| k_ledger := k_ledger w; k_dlq := k_dlq w; k_calls := k_calls w; k_writes := k_writes w;
     k_delivered := k_delivered w + Z.of_nat n; k_dead := k_dead w; k_healthy := k_healthy w; k_received := k_received w; k_dropped := k_dropped w |}.
Definition count_dead (n : nat) (w : sink) : sink :=
  {| k_ledger := k_ledger w; k_dlq := k_dlq w; k_calls := k_calls w; k_writes := k_writes w;
     k_delivered := k_delivered w; k_dead := k_dead w + Z.of_nat n; k_healthy := k_healthy w; k_received := k_received w; k_dropped := k_dropped w |}.
Definition on_health (b : bool) (w : sink) : sink :=
  {| k_ledger := k_ledger w; k_dlq := k_dlq w; k_calls := k_calls w; k_writes := k_writes w;
     k_delivered := k_delivered w; k_dead := k_dead w; k_healthy := Some b; k_received := k_received w; k_dropped := k_dropped w |}.
Definition set_dlq (f : jfile) (w : sink) : sink :=
  {| k_ledger := k_ledger w; k_dlq := f; k_calls := k_calls w; k_writes := S (k_writes w);
     k_delivered := k_delivered w; k_dead := k_dead w; k_healthy := k_healthy w; k_received := k_received w; k_dropped := k_dropped w |}.

Definition drop_letters (lost : list dict) (w : sink) : sink :=
  {| k_ledger := k_ledger w; k_dlq := k_dlq w; k_calls := k_calls w; k_writes := k_writes w;
     k_delivered := k_delivered w; k_dead := k_dead w; k_healthy := k_healthy w; k_received := k_received w;
     k_dropped := k_dropped w ++ lost |}.

(** One attempt: what failed, what was accepted, and the reason. *)
Definition submit (pending : list dict) : M sink (list dict * list dict * string) := λ w,
  let '(failed, accepted, err) :=
    match inner (k_calls w) pending with
    | Ok flags => (flagged true flags pending, flagged false flags pending, "per-item rejection")
    | Raise e => (pending, [], errtext e)
    end in
  ({| k_ledger := k_ledger w; k_dlq := k_dlq w; k_calls := S (k_calls w); k_writes := k_writes w;
      k_delivered := k_delivered w; k_dead := k_dead w; k_healthy := k_healthy w;
      k_received := k_received w ++ accepted; k_dropped := k_dropped w |}, Ok (failed, accepted, err)).

(** Dead letters, up to the first record that raises. *)
Fixpoint dlq_rows (fs : list dict) (err : string) : list dict * option exn :=
  match fs with
  | [] => ([], None)
  | f :: fs =>
      match record_kind f with
      | Raise e => ([], Some e)
      | Ok kind =>
          let '(l, e) := dlq_rows fs err in
          ([("sink", VStr name); ("error", VStr err); ("record_kind", VStr kind);
            (if String.eqb kind "finding" then "finding" else "record", VDict f)] :: l, e)
      end
  end.
Definition _dlq (fs : list dict) (err : string) : M sink unit := λ w,
  let '(rows, e) := dlq_rows fs err in
  match disk (k_writes w) with
  | Some x => (set_dlq (cut_lines (k_dlq w) rows (on_disk x) (tear x)) w, Raise OtherError)
  | None => (set_dlq (put_lines (k_dlq w) rows) w, match e with Some e => Raise e | None => Ok tt end)
  end.

(** The records of a batch that are not settled, one per obligation. *)
Fixpoint fresh_records (m : list (obl_key * val)) (seen : list obl_key) (fs : list dict) : res (list dict) :=
  match fs with
  | [] => Ok []
  | r :: fs =>
      f ← export_record r;
      key ← _record_key f name;
      if mem key seen || match od_get key m with Some v => truthy v | None => false end
      then fresh_records m seen fs
      else rest ← fresh_records m (key :: seen) fs; Ok (f :: rest)
  end.

Fixpoint attempts (more : nat) (pending : list dict) : M sink unit :=
  let* r := submit pending in
  let '(failed, accepted, err) := r in
  (match accepted with
   | [] => ret tt
   | _ => ledger_record accepted name "delivered" ;* modify (count_delivered (length accepted))
   end) ;*
  match failed, more with
  | [], _ => modify (on_health true)
  | _, O =>
      _dlq failed err ;*
      ledger_record failed name "dead_lettered" ;*
      modify (count_dead (length failed)) ;*
      modify (on_health false)
  | _, S more => attempts more failed
  end.

Definition emit_batch (findings : list dict) : M sink unit :=
  let* m := read (λ w, l_outcome (k_ledger w)) in
  let* fresh := lift (fresh_records m [] findings) in
  match fresh with
  | [] => ret tt
  | _ => attempts retries fresh
  end.

(** Dead-letter replay.  [rewrite] is what the disk does to the rewriting of the file,
    which is truncated first. *)
Definition delivered_already (v : val) : M sink bool :=
  let* l := read k_ledger in
  match v with
  | VDict f => let* o := lift (terminal l f name) in ret (bool_decide (o = Some (VStr "delivered")))
  | _ => raise AttributeError
  end.
Fixpoint replay_entries (entries : list dict) (replayed failing : nat) : M sink (nat * nat) :=
  match entries with
  | [] => ret (replayed, failing)
  | e :: entries =>
      let v := _dlq_record e in
      if negb (truthy v) then replay_entries entries replayed failing
      else
        let* b := delivered_already v in
        if b then replay_entries entries replayed failing
        else
          match v with
          | VDict f =>
              let* r := submit [f] in
              match r.1.1 with
              | _ :: _ => replay_entries entries replayed (S failing)
              | [] =>
                  ledger_transition [f] "delivered" "replay" ;*
                  modify (count_delivered 1) ;*
                  replay_entries entries (S replayed) failing
              end
          | _ => raise AttributeError
          end
  end.
Fixpoint kept_entries (entries : list dict) : M sink (list dict) :=
  match entries with
  | [] => ret []
  | e :: entries =>
      let* b := delivered_already (py_or (_dlq_record e) (VDict [])) in
      let* rest := kept_entries entries in
      ret (if b then rest else e :: rest)
  end.
Definition rewrite_dlq (rewrite : option fault) (kept : list dict) : M sink unit := λ w,
  match rewrite with
  | Some x => (drop_letters (drop (on_disk x) kept) (set_dlq (cut_lines empty_file kept (on_disk x) (tear x)) w), Raise OtherError)
  | None => (set_dlq (rewritten kept) w, Ok tt)
  end.
Definition replay (rewrite : option fault) : M sink (nat * nat) :=
  let* f := read k_dlq in
  lift (check (all_parse f) ValueError) ;*
  let entries := good_lines f in
  let* r := replay_entries entries 0 0 in
  let '(replayed, failing) := r in
  (if (0 <? replayed)%nat then
     let* kept := kept_entries entries in
     rewrite_dlq rewrite kept ;*
     modify (on_health true)
   else ret tt) ;*
  ret (replayed, failing).

Definition compact_ledger (io : bool) (retain : option Z) (now : Z) : M sink Z := λ w,
  let '(l, r) := compact io retain now (k_ledger w) in
  ({| k_ledger := l; k_dlq := k_dlq w; k_calls := k_calls w; k_writes := k_writes w;
      k_delivered := k_delivered w; k_dead := k_dead w; k_healthy := k_healthy w; k_received := k_received w; k_dropped := k_dropped w |}, r).
Definition record_suppressed (findings : list dict) : M sink unit := ledger_record findings "(withheld)" "suppressed".
Definition dlq_gauge (w : sink) : Z := unresolved_count (k_ledger w).
Definition receipt (w : sink) : Z * Z := (k_delivered w, k_dead w).

(** A new process over the same files. *)
Definition restart (w : sink) : sink :=
  {| k_ledger := open_ledger (l_file (k_ledger w)); k_dlq := k_dlq w; k_calls := k_calls w; k_writes := k_writes w;
     k_delivered := 0; k_dead := 0; k_healthy := None; k_received := k_received w; k_dropped := k_dropped w |}.

(** ** The forwarder *)

Fixpoint export_all (fs : list dict) : res (list dict) :=
  match fs with [] => Ok [] | f :: fs => e ← export_record f; es ← export_all fs; Ok (e :: es) end.
Definition handle_batch (findings : list dict) : M sink unit :=
  match findings with
  | [] => ret tt
  | _ => let* fs := lift (export_all findings) in emit_batch fs
  end.

(** One partition of the findings topic and its consumer. *)
Record forwarder := {
  fw_sink : sink; fw_topic : list dict;
  fw_position : nat; fw_committed : nat;
  fw_total : Z; fw_suppressed : Z; fw_up : bool
}.
Definition withheld (f : dict) : bool := val_eq_str (dgetN "state" f) "SUPPRESSED".
Definition process (findings : list dict) : M sink unit :=
  let held := List.filter withheld findings in
  (match held with [] => ret tt | _ => record_suppressed held end) ;*
  handle_batch (List.filter (λ f, negb (withheld f)) findings).

(** One round of the loop: [n] records polled.  A failed durable write ([OtherError])
    leaves the offset uncommitted and the loop goes on; another exception ends the
    process. *)
Definition poll (n : nat) (s : forwarder) : forwarder :=
  let findings := take n (drop (fw_position s) (fw_topic s)) in
  let position := (fw_position s + length findings)%nat in
  match findings with
  | [] => s
  | _ =>
      match process findings (fw_sink s) with
      | (w, Ok _) =>
          {| fw_sink := w; fw_topic := fw_topic s; fw_position := position; fw_committed := position;
             fw_total := fw_total s + Z.of_nat (length findings);
             fw_suppressed := fw_suppressed s + Z.of_nat (length (List.filter withheld findings)); fw_up := fw_up s |}
      | (w, Raise e) =>
          {| fw_sink := w; fw_topic := fw_topic s; fw_position := position; fw_committed := fw_committed s;
             fw_total := fw_total s; fw_suppressed := fw_suppressed s; fw_up := bool_decide (e = OtherError) && fw_up s |}
      end
  end.
Definition reboot (s : forwarder) : forwarder :=
  {| fw_sink := restart (fw_sink s); fw_topic := fw_topic s; fw_position := fw_committed s; fw_committed := fw_committed s;
     fw_total := 0; fw_suppressed := 0; fw_up := true |}.
End sink.

(** Fan-out: every sink gets the batch, and the failures are reported together. *)
Definition multi_emit (emits : list (M sink unit)) (ws : list sink) : list sink * res unit :=
  let rs := zip_with (λ (e : M sink unit) w, e w) emits ws in
  (fst <$> rs, if forallb (λ r : sink * res unit, is_ok r.2) rs then Ok tt else Raise OtherError).

(** What the loop calls from time to time: only the fan-out offers [compact_ledgers]. *)
Inductive adapter := single_sink (s : sink) | multi_sinks (ws : list sink).
Fixpoint compact_all (io : nat → bool) (retain : option Z) (now : Z) (i : nat) (ws : list sink) : list sink :=
  match ws with
  | [] => []
  | w :: ws =>
      match compact_ledger (io i) retain now w with
      | (w', Ok _) => w' :: compact_all io retain now (S i) ws
      | (w', Raise _) => w' :: ws
      end
  end.
Definition compact_ledgers (io : nat → bool) (retain : option Z) (now : Z) (a : adapter) : adapter :=
  match a with
  | single_sink s => single_sink s
  | multi_sinks ws => multi_sinks (compact_all io retain now 0 ws)
  end.

(** ** Facts *)

Section facts.
Context (name : string) (retries : nat) (worker : string).
Context (inner : nat → list dict → res (list bool)) (disk : nat → option fault) (clock : nat → string)
  (errtext : exn → string).

(** An obligation is accounted for when the receiver acknowledged its record, or the
    record is a readable dead letter, or, where rewrites of the dead-letter file may be
    cut ([cuts]), its dead letter is one that such a rewrite dropped. *)
Context (cuts : bool).
Definition received (k : obl_key) (w : sink) : Prop := ∃ r, r ∈ k_received w ∧ _record_key r name = Ok k.
Definition in_dlq (k : obl_key) (w : sink) : Prop :=
  ∃ e f, e ∈ good_lines (k_dlq w) ∧ _dlq_record e = VDict f ∧ _record_key f name = Ok k.
Definition dropped (k : obl_key) (w : sink) : Prop :=
  ∃ e f, e ∈ k_dropped w ∧ _dlq_record e = VDict f ∧ _record_key f name = Ok k.
Definition accounted (k : obl_key) (w : sink) : Prop := received k w ∨ in_dlq k w ∨ cuts = true ∧ dropped k w.

(** What an outcome says. *)
Definition claim (w : sink) (k : obl_key) (v : val) : Prop :=
  v = VStr "delivered" ∧ received k w ∨ v = VStr "dead_lettered" ∧ accounted k w ∨
  v = VStr "suppressed" ∧ last k = Some (VStr "(withheld)").

Definition sink_inv (w : sink) : Prop :=
  jf_tail (k_dlq w) = None ∧ all_parse (k_dlq w) = true ∧ claims (claim w) (k_ledger w).

Definition keeps (w w' : sink) : Prop := ∀ k, (received k w → received k w') ∧ (accounted k w → accounted k w').
Definition step_ok (w w' : sink) : Prop := sink_inv w → sink_inv w' ∧ keeps w w'.
#[local] Instance keeps_preorder : PreOrder keeps.
Proof. clear. split; [by intros w k|]. intros x y z H1 H2 k. destruct (H1 k), (H2 k). auto. Qed.
#[local] Instance step_ok_preorder : PreOrder step_ok.
Proof.
  clear. split; [by intros w H|]. intros x y z H1 H2 Hx. destruct (H1 Hx) as [Hy K1]. destruct (H2 Hy) as [Hz K2].
  split; [done|by etrans].
Qed.

Lemma claim_keeps w w' k v : keeps w w' → claim w k v → claim w' k v.
Proof. intros H. destruct (H k). unfold claim. intros [[? ?]|[[? ?]|?]]; auto. Qed.
Lemma claims_keeps w w' l : keeps w w' → claims (claim w) l → claims (claim w') l.
Proof. intros H. apply claims_mono. intros k v. by apply claim_keeps. Qed.
Lemma keeps_same w w' :
  k_received w' = k_received w → k_dlq w' = k_dlq w → k_dropped w' = k_dropped w → keeps w w'.
Proof. intros E1 E2 E3 k. unfold accounted, received, in_dlq, dropped. by rewrite E1, E2, E3. Qed.
(** Changes that leave both the files and the ghost alone. *)
Lemma step_same w w' :
  k_received w' = k_received w → k_dlq w' = k_dlq w → k_dropped w' = k_dropped w → k_ledger w' = k_ledger w → step_ok w w'.
Proof.
  intros E1 E2 E4 E3 (H1 & H2 & H3). pose proof (keeps_same w w' E1 E2 E4) as K. split; [|done].
  unfold sink_inv. rewrite E2, E3. split_and!; [done..|]. by eapply claims_keeps.
Qed.

Context (clean : ∀ n f, disk n = Some f → tear f = torn_none).

Lemma last_obl_key t i r d k : last (_obl_key t i r (VStr d) k) = Some (VStr d).
Proof. clear. unfold _obl_key. by destruct (val_eq_str k "finding"). Qed.
Lemma record_key_dest f d k : _record_key f d = Ok k → last k = Some (VStr d).
Proof. clear. unfold _record_key. intros H. inv_ok. destruct a as [[kind id] rev]. inv_ok. apply last_obl_key. Qed.

(** Writing true claims. *)
Lemma on_ledger_ok w o (f : option fault → string → ledger → ledger * res unit) entries err :
  (∀ io ts, f io ts (k_ledger w) = write_rows io o (entries ts, err ts) (k_ledger w)) →
  (∀ ts, Forall (entry_ok o) (entries ts)) → (∀ ts k, k ∈ (entries ts).*1 → claim w k (VStr o)) →
  step_ok w (on_ledger disk clock f w).1.
Proof using clean.
  intros Hf Hok Hk (H1 & H2 & H3). unfold on_ledger. rewrite Hf.
  pose proof (claims_write (claim w) (k_ledger w) (disk (k_writes w)) o _ (err (clock (k_writes w)))
    (clean _) (Hok (clock (k_writes w))) (Hk (clock (k_writes w))) H3) as Hc.
  destruct (write_rows _ _ _ _) as [l r]. simpl in *. split; [|by apply keeps_same].
  split_and!; [done..|]. simpl. by apply (claims_keeps w); [apply keeps_same|].
Qed.
Lemma ledger_record_ok w fs dest o :
  (∀ f k, f ∈ fs → _record_key f dest = Ok k → claim w k (VStr o)) →
  step_ok w (ledger_record worker disk clock fs dest o w).1.
Proof using clean.
  intros Hk. unfold ledger_record. destruct fs as [|f0 fs]; [by apply step_same|].
  assert (Hall : ∃ entries err, ∀ ts, record_rows (l_outcome (k_ledger w)) (f0 :: fs) dest o worker ts = (entries ts, err ts) ∧
    Forall (entry_ok o) (entries ts) ∧ ∀ k, k ∈ (entries ts).*1 → claim w k (VStr o)).
  { exists (λ ts, (record_rows (l_outcome (k_ledger w)) (f0 :: fs) dest o worker ts).1),
           (λ ts, (record_rows (l_outcome (k_ledger w)) (f0 :: fs) dest o worker ts).2). intros ts.
    destruct (record_rows_spec (l_outcome (k_ledger w)) (f0 :: fs) dest o worker ts) as (en & er & E & H1 & H2 & _).
    rewrite E. split_and!; [done..|]. intros k Hin. destruct (H2 k Hin) as (f & Hf & Hkf). by eapply Hk. }
  destruct Hall as (entries & err & Hall). eapply (on_ledger_ok w o _ entries err); [|apply Hall|apply Hall].
  intros io ts. unfold record. by destruct (Hall ts) as [-> _].
Qed.

(** What a normal return of [record] establishes. *)
Definition settled (k : obl_key) (w : sink) : Prop := ∃ v, od_get k (l_outcome (k_ledger w)) = Some v.
Lemma ledger_record_settles w fs dest o w' :
  Forall exports fs → ledger_record worker disk clock fs dest o w = (w', Ok tt) →
  (∀ f k, f ∈ fs → _record_key f dest = Ok k → settled k w') ∧ (∀ k, settled k w → settled k w') ∧
  disk (k_writes w) = None ∨ fs = [].
Proof.
  clear clean. intros Hf. unfold ledger_record, on_ledger, record. destruct fs as [|f0 fs]; [by right|]. intros H. left.
  destruct (record_rows_spec (l_outcome (k_ledger w)) (f0 :: fs) dest o worker (clock (k_writes w)))
    as (en & er & E & H1 & H2 & H3). destruct (H3 Hf) as [-> H4]. rewrite E in H. unfold write_rows in H.
  destruct (disk (k_writes w)) as [x|]; [done|]. injection H as <-. unfold settled. simpl. split_and!; [| |done].
  - intros f k Hin Hkf. rewrite set_outcomes_get. case_decide; [by eexists|]. by destruct (H4 k f Hin Hkf).
  - intros k [v Hv]. rewrite set_outcomes_get. case_decide; [by eexists|]. by exists v.
Qed.

Lemma bind_step {A B} (m : M sink A) (k : A → M sink B) w :
  step_ok w (m w).1 → (∀ a w1, sink_inv w → sink_inv w1 → m w = (w1, Ok a) → step_ok w1 (k a w1).1) →
  step_ok w (bind m k w).1.
Proof.
  clear. intros Hm Hk Hw. revert Hw. unfold bind. destruct (m w) as [w1 [a|e]]; simpl in *; [|done]. intros Hw.
  destruct (Hm Hw) as [Hw1 K1]. destruct (Hk a w1 Hw Hw1 eq_refl Hw1) as [Hw2 K2]. split; [done|by etrans].
Qed.

Lemma flagged_elem b flags fs f : f ∈ flagged b flags fs → f ∈ fs.
Proof.
  clear. revert flags. induction fs as [|g fs IH]; intros flags; simpl; [done|].
  intros [H|H]%elem_of_app; [|right; by eapply IH]. destruct (Bool.eqb _ _); [|by apply elem_of_nil in H].
  apply list_elem_of_singleton in H as ->. by left.
Qed.
Lemma flagged_cover flags fs f : f ∈ fs → f ∈ flagged true flags fs ∨ f ∈ flagged false flags fs.
Proof.
  clear. revert flags. induction fs as [|g fs IH]; intros flags; simpl; [set_solver|].
  intros [->|H]%elem_of_cons; [|destruct (IH (tail flags) H); [left|right]; set_solver].
  destruct (default false (head flags)); simpl; [left|right]; left.
Qed.
Lemma submit_spec w pending :
  ∃ w' failed accepted err, submit inner errtext pending w = (w', Ok (failed, accepted, err)) ∧
    k_ledger w' = k_ledger w ∧ k_dlq w' = k_dlq w ∧ k_received w' = k_received w ++ accepted ∧
    k_dropped w' = k_dropped w ∧
    failed ⊆ pending ∧ accepted ⊆ pending ∧ (∀ f, f ∈ pending → f ∈ failed ∨ f ∈ accepted).
Proof.
  clear. unfold submit. destruct (inner (k_calls w) pending) as [flags|e].
  - eexists _, _, _, _. split_and!; [reflexivity|done..| | |].
    + intros f. apply flagged_elem.
    + intros f. apply flagged_elem.
    + intros f. apply flagged_cover.
  - eexists _, _, _, _. split_and!; [reflexivity|done..| |by left]. set_solver.
Qed.
Lemma keeps_grow w w' accepted :
  k_received w' = k_received w ++ accepted → k_dlq w' = k_dlq w → k_dropped w' = k_dropped w → keeps w w'.
Proof.
  clear. intros E1 E2 E3 k. unfold accounted, received, in_dlq, dropped. rewrite E1, E2, E3.
  assert (H : (∃ r, r ∈ k_received w ∧ _record_key r name = Ok k) → ∃ r, r ∈ k_received w ++ accepted ∧ _record_key r name = Ok k).
  { intros (r & Hr & Hk). exists r. split; [|done]. apply elem_of_app. by left. }
  split; [done|]. intros [Hx|Hx]; [left; by apply H|by right].
Qed.
Lemma submit_ok w pending : step_ok w (submit inner errtext pending w).1.
Proof.
  clear. destruct (submit_spec w pending) as (w' & fa & ac & er & -> & E1 & E2 & E3 & E4 & _). simpl.
  intros (H1 & H2 & H3). pose proof (keeps_grow w w' ac E3 E2 E4) as K. split; [|done].
  unfold sink_inv. rewrite E1, E2. split_and!; [done..|]. by eapply claims_keeps.
Qed.

Lemma dlq_rows_spec fs err :
  Forall exports fs →
  ∃ rows, dlq_rows name fs err = (rows, None) ∧ ∀ f, f ∈ fs → ∃ e, e ∈ rows ∧ _dlq_record e = VDict f.
Proof.
  clear. induction 1 as [|f fs [x Hx] Hf (rows & E & IH)]; simpl; [exists []; split; [done|set_solver]|].
  destruct (export_record_spec f x Hx) as (kind & -> & _). rewrite E. eexists. split; [reflexivity|].
  intros g [->|Hg]%elem_of_cons.
  - eexists. split; [by left|]. by destruct (String.eqb kind "finding").
  - destruct (IH g Hg) as (e & He & Hr). exists e. split; [by right|done].
Qed.
(** Dead letters only add to the file, and all of them are there when it returns. *)
Lemma dlq_spec w fs err :
  Forall exports fs → jf_tail (k_dlq w) = None →
  ∃ rows n w' r, _dlq name disk fs err w = (w', r) ∧ k_dlq w' = put_lines (k_dlq w) (take n rows) ∧
    k_ledger w' = k_ledger w ∧ k_received w' = k_received w ∧ k_dropped w' = k_dropped w ∧
    (r = Ok tt → k_dlq w' = put_lines (k_dlq w) rows ∧ ∀ f, f ∈ fs → ∃ e, e ∈ rows ∧ _dlq_record e = VDict f).
Proof using clean.
  intros Hf Ht. destruct (dlq_rows_spec fs err Hf) as (rows & E & H). unfold _dlq. rewrite E.
  destruct (disk (k_writes w)) as [x|] eqn:Ex.
  - exists rows, (on_disk x). eexists _, _. split_and!; [reflexivity| |done..]. simpl.
    by rewrite (clean _ _ Ex), cut_lines_whole.
  - exists rows, (length rows). eexists _, _. split_and!; [reflexivity| |done..]. simpl. by rewrite take_ge.
Qed.
Lemma dlq_ok w fs err : Forall exports fs → step_ok w (_dlq name disk fs err w).1.
Proof using clean.
  intros Hf (H1 & H2 & H3). destruct (dlq_spec w fs err Hf H1) as (rows & n & w' & r & -> & E1 & E2 & E3 & E4 & _). simpl.
  assert (K : keeps w w').
  { intros k. unfold accounted, received, in_dlq, dropped. rewrite E1, E3, E4, good_put_lines by done. split; [done|].
    intros [Hx|[(e & f & He & Hef)|Hx]]; [by left| |by right; right]. right; left. exists e, f. split; [|done].
    apply elem_of_app. by left. }
  split; [|done]. unfold sink_inv. rewrite E1, E2. split_and!; [by apply whole_put_lines|by apply all_parse_put_lines|].
  by eapply claims_keeps.
Qed.
Lemma dlq_accounts w fs err w' :
  Forall exports fs → jf_tail (k_dlq w) = None → _dlq name disk fs err w = (w', Ok tt) →
  ∀ f k, f ∈ fs → _record_key f name = Ok k → accounted k w'.
Proof using clean.
  intros Hf Ht E. destruct (dlq_spec w fs err Hf Ht) as (rows & n & w2 & r & E' & _ & _ & _ & _ & H).
  rewrite E in E'. injection E' as <- <-. destruct (H eq_refl) as [E1 H2]. intros f k Hin Hk. right; left.
  destruct (H2 f Hin) as (e & He & Hr). exists e, f. rewrite E1, good_put_lines by done. split_and!; [|done..].
  apply elem_of_app. by right.
Qed.

Lemma modify_same f w :
  (∀ w, k_received (f w) = k_received w ∧ k_dlq (f w) = k_dlq w ∧ k_dropped (f w) = k_dropped w ∧ k_ledger (f w) = k_ledger w) →
  step_ok w (modify f w).1.
Proof. clear. intros H. destruct (H w) as (? & ? & ? & ?). by apply step_same. Qed.
Lemma exports_subset fs gs : fs ⊆ gs → Forall exports gs → Forall exports fs.
Proof. clear. rewrite !Forall_forall. auto. Qed.

Abbreviation attempts' := (attempts name worker inner disk clock errtext).
Abbreviation record' := (ledger_record worker disk clock).

(** The tail of a round: acknowledge, then give up, retry or finish. *)
Lemma accepted_ok w accepted :
  (∀ f, f ∈ accepted → f ∈ k_received w) →
  step_ok w ((match accepted with
              | [] => ret tt
              | _ => record' accepted name "delivered" ;* modify (count_delivered (length accepted))
              end) w).1.
Proof using clean.
  intros Hr. destruct accepted as [|f0 fs]; [by apply step_same|]. apply bind_step.
  - apply ledger_record_ok. intros f k Hf Hk. left. split; [done|]. exists f. auto.
  - intros [] w1 _ _ _. by apply modify_same.
Qed.
Lemma attempts_ok more pending w : Forall exports pending → step_ok w (attempts' more pending w).1.
Proof using clean.
  revert pending w. induction more as [|more IH]; intros pending w Hp; cbn [attempts].
  all: apply bind_step; [apply submit_ok|]; intros [[failed accepted] err] w1 _ _ E1.
  all: destruct (submit_spec w pending) as (w1' & fa & ac & er & E1' & _ & _ & Hrec & _ & Hfa & Hac & _).
  all: rewrite E1' in E1; injection E1 as <- <- <- <-.
  all: apply bind_step; [apply accepted_ok; intros f Hf; rewrite Hrec; apply elem_of_app; by right|].
  all: intros [] w2 _ Hw2 _; destruct fa as [|f0 fs]; [by apply modify_same|].
  all: assert (Hx : Forall exports (f0 :: fs)) by by eapply exports_subset.
  - apply bind_step; [by apply dlq_ok|]. intros [] w3 _ _ E3. apply bind_step.
    + apply ledger_record_ok. intros f k Hf Hk. right; left. split; [done|].
      eapply dlq_accounts; [exact Hx|apply Hw2|exact E3|exact Hf|done].
    + intros [] w4 _ _ _. apply bind_step; [by apply modify_same|]. intros [] w5 _ _ _. by apply modify_same.
  - by apply IH.
Qed.

Lemma accepted_settles w accepted w' :
  Forall exports accepted →
  (match accepted with
   | [] => ret tt
   | _ => record' accepted name "delivered" ;* modify (count_delivered (length accepted))
   end) w = (w', Ok tt) →
  (∀ f k, f ∈ accepted → _record_key f name = Ok k → settled k w') ∧ (∀ k, settled k w → settled k w').
Proof.
  clear clean. intros Hf H. destruct accepted as [|a0 acs].
  - injection H as <-. split; [|done]. intros f k Hin. by apply elem_of_nil in Hin.
  - apply bind_inv in H as ([] & w3 & E3 & H). injection H as <-.
    by apply ledger_record_settles in E3 as [(H3 & H4 & _)|].
Qed.
Lemma dlq_ledger fs err w w' : _dlq name disk fs err w = (w', Ok tt) → k_ledger w' = k_ledger w.
Proof.
  clear. unfold _dlq. destruct (dlq_rows name _ _) as [rows e]. destruct (disk _); [done|]. destruct e; [done|]. by intros [= <-].
Qed.
Lemma attempts_settle more pending w w' :
  Forall exports pending → attempts' more pending w = (w', Ok tt) →
  (∀ f k, f ∈ pending → _record_key f name = Ok k → settled k w') ∧ (∀ k, settled k w → settled k w').
Proof.
  clear clean. revert pending w. induction more as [|more IH]; intros pending w Hp H; cbn [attempts] in H.
  all: apply bind_inv in H as ([[failed accepted] err] & w1 & E1 & H).
  all: destruct (submit_spec w pending) as (w1' & fa & ac & er & E1' & El & _ & _ & _ & Hfa & Hac & Hcover).
  all: rewrite E1' in E1; injection E1 as <- <- <- <-.
  all: apply bind_inv in H as ([] & w2 & E2 & H).
  all: apply accepted_settles in E2 as [H2 H2']; [|by eapply exports_subset].
  all: assert (Hs : ∀ k, settled k w → settled k w2) by (intros k Hk; apply H2'; unfold settled in *; by rewrite El).
  all: assert (Hfx : Forall exports fa) by (by eapply exports_subset).
  all: destruct fa as [|f0 fs].
  - injection H as <-. split; [|exact Hs]. intros f k Hf Hk. destruct (Hcover f Hf) as [Hx|Hx]; [by apply elem_of_nil in Hx|by eapply H2].
  - apply bind_inv in H as ([] & w3 & E3 & H). apply bind_inv in H as ([] & w4 & E4 & H).
    apply bind_inv in H as ([] & w5 & E5 & H). injection E5 as <-. injection H as <-.
    apply ledger_record_settles in E4 as [(H4 & H5 & _)|]; [|done|done].
    assert (Hm : ∀ k, settled k w2 → settled k w4)
      by (intros k Hk; apply H5; unfold settled in *; by rewrite (dlq_ledger _ _ _ _ E3)).
    split; [|intros k Hk; by apply Hm, Hs]. intros f k Hf Hk.
    destruct (Hcover f Hf) as [Hx|Hx]; [by eapply H4|]. apply Hm. by eapply H2.
  - injection H as <-. split; [|exact Hs]. intros f k Hf Hk. destruct (Hcover f Hf) as [Hx|Hx]; [by apply elem_of_nil in Hx|by eapply H2].
  - destruct (IH (f0 :: fs) w2) as [H3 H4]; [done|done|].
    split; [|intros k Hk; by apply H4, Hs]. intros f k Hf Hk.
    destruct (Hcover f Hf) as [Hx|Hx]; [by eapply H3|]. apply H4. by eapply H2.
Qed.

(** The records a batch submits: each unsettled obligation of the batch, once. *)
Lemma fresh_records_spec m seen fs fresh :
  fresh_records name m seen fs = Ok fresh →
  Forall exports fs ∧ Forall exports fresh ∧
  (∀ f k, f ∈ fs → _record_key f name = Ok k →
     k ∈ seen ∨ is_Some (od_get k m) ∨ ∃ g, g ∈ fresh ∧ _record_key g name = Ok k) ∧
  (∀ g k, g ∈ fresh → _record_key g name = Ok k → k ∉ seen ∧ ∀ v, od_get k m = Some v → truthy v = false) ∧
  NoDup ((λ g, _record_key g name) <$> fresh).
Proof.
  clear. revert seen fresh. induction fs as [|r fs IH]; intros seen fresh; simpl.
  { intros [= <-]. split_and!; [by apply Forall_nil|by apply Forall_nil| | |apply NoDup_nil; done];
      intros ? ? Hx; by apply elem_of_nil in Hx. }
  intros H. apply bind_ok_inv in H as (f & Hf & H). apply bind_ok_inv in H as (key & Hk & H).
  assert (Hkr : _record_key r name = Ok key) by (rewrite <- Hk; symmetry; by apply record_key_export).
  assert (Hxf : exports f) by (exists f; by eapply export_idem).
  assert (Hxr : exports r) by by exists f.
  destruct (mem key seen || _) eqn:Ec.
  - destruct (IH _ _ H) as (H0 & H1 & H2 & H3 & H4). split_and!; [by constructor|done| |done|done].
    intros g k [->|Hg]%elem_of_cons Hgk; [|by eapply H2].
    rewrite Hkr in Hgk. injection Hgk as <-. apply orb_true_iff in Ec as [Ec|Ec]; [left; by apply mem_true|].
    right; left. by destruct (od_get key m).
  - apply bind_ok_inv in H as (rest & H & [= <-]). destruct (IH _ _ H) as (H0 & H1 & H2 & H3 & H4).
    apply orb_false_iff in Ec as [Ec1 Ec2]. apply mem_false in Ec1.
    split_and!; [by constructor|by constructor| | |].
    + intros g k [->|Hg]%elem_of_cons Hgk.
      * right; right. exists f. split; [by left|congruence].
      * destruct (H2 g k Hg Hgk) as [[->|Hs]%elem_of_cons|[Hs|(g' & Hg' & Hk')]]; auto.
        -- right; right. exists f. split; [by left|done].
        -- right; right. exists g'. split; [by right|done].
    + intros g k [->|Hg]%elem_of_cons Hgk.
      * assert (k = key) as -> by congruence. split; [done|]. intros v Hv. by rewrite Hv in Ec2.
      * destruct (H3 g k Hg Hgk) as [Hs Hv]. split; [set_solver|done].
    + simpl. apply NoDup_cons. split; [|done]. intros (g & Hgk & Hg)%list_elem_of_fmap.
      destruct (H3 g key Hg) as [Hs _]; [congruence|]. set_solver.
Qed.

Abbreviation emit' := (emit_batch name retries worker inner disk clock errtext).
Lemma emit_ok w fs : step_ok w (emit' fs w).1.
Proof using clean.
  unfold emit_batch. apply bind_step; [by apply step_same|]. intros m w1 _ _ E. injection E as <- <-.
  apply bind_step; [by apply step_same|]. intros fresh w1 _ _ E. injection E as <- E.
  apply fresh_records_spec in E as (_ & Hx & _). destruct fresh as [|g gs]; [by apply step_same|]. by apply attempts_ok.
Qed.
(** A batch that is handled leaves each of its obligations settled. *)
Lemma emit_settles w fs w' :
  emit' fs w = (w', Ok tt) →
  Forall exports fs ∧ (∀ f k, f ∈ fs → _record_key f name = Ok k → settled k w') ∧ (∀ k, settled k w → settled k w').
Proof.
  clear clean. unfold emit_batch. intros H. apply bind_inv in H as (m & w1 & E & H). injection E as <- <-.
  apply bind_inv in H as (fresh & w1 & E & H). injection E as <- E.
  apply fresh_records_spec in E as (Hxf & Hx & Hc & _). split; [done|].
  assert (Hcase : ∀ f k, f ∈ fs → _record_key f name = Ok k → settled k w ∨ ∃ g, g ∈ fresh ∧ _record_key g name = Ok k).
  { intros f k Hf Hk. destruct (Hc f k Hf Hk) as [Hs|[[v Hv]|Hg]]; [by apply elem_of_nil in Hs|left; by exists v|by right]. }
  destruct fresh as [|g gs].
  - injection H as <-. split; [|done]. intros f k Hf Hk. destruct (Hcase f k Hf Hk) as [|(g & Hg & _)]; [done|].
    by apply elem_of_nil in Hg.
  - apply attempts_settle in H as [H1 H2]; [|done]. split; [|done]. intros f k Hf Hk.
    destruct (Hcase f k Hf Hk) as [Hs|(g' & Hg & Hgk)]; [by apply H2|by eapply H1].
Qed.

Context (name_ok : name ≠ "(withheld)").
Lemma settled_accounted w f k : sink_inv w → _record_key f name = Ok k → settled k w → accounted k w.
Proof using name_ok.
  intros (_ & _ & _ & Hc & _) Hk [v Hv]. apply Hc in Hv as [[_ H]|[[_ H]|[_ H]]]; [by left|done|].
  apply record_key_dest in Hk. rewrite Hk in H. congruence.
Qed.

Lemma export_all_spec fs es :
  export_all fs = Ok es → ∀ f, f ∈ fs → ∃ e, e ∈ es ∧ ∀ d, _record_key e d = _record_key f d.
Proof.
  clear. revert es. induction fs as [|f fs IH]; intros es; simpl; [intros _ f Hf; by apply elem_of_nil in Hf|].
  intros H. apply bind_ok_inv in H as (e & He & H). apply bind_ok_inv in H as (rest & Hr & [= <-]).
  intros g [->|Hg]%elem_of_cons.
  - exists e. split; [by left|]. intros d. by apply record_key_export.
  - destruct (IH rest Hr g Hg) as (e' & He' & Hk). exists e'. split; [by right|done].
Qed.

(** ** Facts: replay, compaction, restart *)

Lemma ledger_transition_ok w f o note :
  exports f → (∀ k, _record_key f name = Ok k → claim w k (VStr o)) →
  step_ok w (ledger_transition name worker disk clock [f] o note w).1.
Proof using clean.
  intros Hx Hk. unfold ledger_transition. destruct Hx as [x Hx].
  assert (Hall : ∃ entries, ∀ ts, transition_rows [f] name o worker ts note = (entries ts, None) ∧
    Forall (entry_ok o) (entries ts) ∧ ∀ k, k ∈ (entries ts).*1 → claim w k (VStr o)).
  { exists (λ ts, (transition_rows [f] name o worker ts note).1). intros ts.
    destruct (transition_rows_spec [f] name o worker ts note) as (en & E & H1 & H2).
    { constructor; [by exists x|constructor]. }
    rewrite E. split_and!; [done..|]. intros k (g & ->%list_elem_of_singleton & Hg)%H2. by apply Hk. }
  destruct Hall as (entries & Hall). eapply (on_ledger_ok w o _ entries (λ _, None)); [|apply Hall|apply Hall].
  intros io ts. unfold transition. by destruct (Hall ts) as [-> _].
Qed.
Lemma delivered_already_same v w : (delivered_already name v w).1 = w.
Proof.
  clear. unfold delivered_already, bind, read. destruct v; try done. unfold lift. by destruct (terminal _ _ _).
Qed.
Lemma step_delivered v w : step_ok w (delivered_already name v w).1.
Proof. rewrite delivered_already_same. reflexivity. Qed.
Lemma delivered_already_inv v w w' b :
  delivered_already name v w = (w', Ok b) → ∃ f k, v = VDict f ∧ w' = w ∧ _record_key f name = Ok k ∧
    b = bool_decide (od_get k (l_outcome (k_ledger w)) = Some (VStr "delivered")).
Proof.
  clear. intros H. pose proof (delivered_already_same v w) as E. rewrite H in E. simpl in E. subst w'.
  unfold delivered_already, bind, read in H. destruct v as [| | | | | |f]; try done. unfold lift, terminal in H.
  destruct (_record_key f name) as [k|] eqn:Ek; [|done]. exists f, k. split_and!; try done. by injection H as <-.
Qed.

Lemma replay_entries_ok entries n m w : step_ok w (replay_entries name worker inner disk clock errtext entries n m w).1.
Proof using clean.
  revert n m w. induction entries as [|e entries IH]; intros n m w; cbn [replay_entries]; [by apply step_same|].
  destruct (negb (truthy (_dlq_record e))); [apply IH|]. apply bind_step; [apply step_delivered|].
  intros b w1 _ _ E. destruct b; [apply IH|].
  destruct (delivered_already_inv _ _ _ _ E) as (f & k & Ef & -> & Hk & _). rewrite Ef.
  apply bind_step; [apply submit_ok|]. intros r w1 _ _ Es.
  destruct (submit_spec w [f]) as (w1' & fa & ac & er & E' & _ & _ & Hrec & _ & _ & _ & Hcov). rewrite E' in Es.
  injection Es as <- <-. simpl. destruct fa as [|f0 fa]; [|apply IH].
  apply bind_step.
  - apply ledger_transition_ok; [by eapply record_key_exports|]. intros k' Hk'. left. split; [done|].
    exists f. rewrite Hrec. split; [|done]. apply elem_of_app. right.
    destruct (Hcov f) as [Hx|Hx]; [by left|by apply elem_of_nil in Hx|done].
  - intros [] w2 _ _ _. apply bind_step; [by apply modify_same|]. intros [] w3 _ _ _. apply IH.
Qed.
Lemma replay_entries_dlq entries n m w : k_dlq (replay_entries name worker inner disk clock errtext entries n m w).1 = k_dlq w.
Proof.
  clear. revert n m w. induction entries as [|e entries IH]; intros n m w; cbn [replay_entries]; [done|].
  destruct (negb (truthy (_dlq_record e))); [apply IH|]. unfold bind at 1.
  pose proof (delivered_already_same (_dlq_record e) w) as Hd. destruct (delivered_already _ _ _) as [w1 [b|]]; simpl in *; subst; [|done].
  destruct b; [apply IH|]. destruct (_dlq_record e) as [| | | | | |f]; try done. unfold bind at 1.
  destruct (submit_spec w [f]) as (w1 & fa & ac & er & -> & _ & Ed & _). simpl. destruct fa; [|by rewrite IH].
  unfold bind at 1, ledger_transition, on_ledger. destruct (transition _ _ _ _ _ _ _ _) as [l [u|]]; simpl; [|done].
  unfold bind at 1, modify. by rewrite IH.
Qed.
Lemma kept_entries_spec entries w w' kept :
  kept_entries name entries w = (w', Ok kept) →
  w' = w ∧ kept ⊆ entries ∧
  ∀ e f k, e ∈ entries → _dlq_record e = VDict f → _record_key f name = Ok k →
    e ∈ kept ∨ od_get k (l_outcome (k_ledger w)) = Some (VStr "delivered").
Proof.
  clear. revert kept w'. induction entries as [|e entries IH]; intros kept w'; cbn [kept_entries].
  { intros [= <- <-]. split_and!; [done|done|]. intros e f k He. by apply elem_of_nil in He. }
  intros H. apply bind_inv in H as (b & w1 & E1 & H).
  destruct (delivered_already_inv _ _ _ _ E1) as (f0 & k0 & Ef0 & -> & Hk0 & Eb).
  apply bind_inv in H as (rest & w2 & E2 & H). destruct (IH _ _ E2) as (-> & Hsub & Hin). injection H as <- <-.
  split_and!; [done|destruct b; set_solver|]. intros e' f k [->|He]%elem_of_cons Hf Hk.
  - assert (f0 = f) as ->.
    { rewrite Hf in Ef0. unfold py_or in Ef0. destruct f; simpl in Ef0; congruence. }
    rewrite Hk in Hk0. injection Hk0 as <-. destruct b; [right|left; by left]. symmetry in Eb. by apply bool_decide_eq_true in Eb.
  - destruct (Hin e' f k He Hf Hk) as [Hr|Hr]; [|by right]. left. destruct b; [done|by right].
Qed.

Abbreviation replay' := (replay name worker inner disk clock errtext).
(** What a rewrite leaves: the entries it wrote are in the file, those it had still to
    write are dropped. *)
Lemma rewrite_files rewrite kept w :
  (∀ x, rewrite = Some x → cuts = true ∧ tear x = torn_none) → let w' := (rewrite_dlq rewrite kept w).1 in
  jf_tail (k_dlq w') = None ∧ all_parse (k_dlq w') = true ∧ k_received w' = k_received w ∧
  ((∀ e, e ∈ k_dropped w → e ∈ k_dropped w') ∧ ∀ e, e ∈ kept → e ∈ good_lines (k_dlq w') ∨ cuts = true ∧ e ∈ k_dropped w') ∧
  k_ledger w' = k_ledger w.
Proof.
  clear. intros Hx. destruct rewrite as [x|]; simpl.
  - destruct (Hx x eq_refl) as [Hc Ht]. rewrite Ht, cut_lines_whole, good_put_lines by done. split_and!; [by apply whole_put_lines|by apply all_parse_put_lines|done| | |done].
    + intros e He. apply elem_of_app. by left.
    + intros e He. rewrite <- (take_drop (on_disk x) kept) in He. apply elem_of_app in He as [He|He];
        [left|right; split; [done|]]; apply elem_of_app; by right.
  - rewrite good_rewritten. split_and!; [done|apply all_parse_rewritten|done|done|by left|done].
Qed.
Lemma rewrite_ok w kept rewrite :
  (∀ x, rewrite = Some x → cuts = true ∧ tear x = torn_none) → kept ⊆ good_lines (k_dlq w) →
  (∀ e f k, e ∈ good_lines (k_dlq w) → _dlq_record e = VDict f → _record_key f name = Ok k →
     e ∈ kept ∨ od_get k (l_outcome (k_ledger w)) = Some (VStr "delivered")) →
  step_ok w (rewrite_dlq rewrite kept w).1.
Proof.
  clear. intros Hx Hsub Hk (H1 & H2 & H3). destruct (rewrite_files rewrite kept w Hx) as (Et & Ep & Er & Ed & El).
  set (w' := (rewrite_dlq rewrite kept w).1) in *.
  assert (K : keeps w w').
  { intros k. unfold accounted, received. rewrite Er. split; [done|]. intros [Hr|[(e & f & He & Hf & Hkf)|(Hcut & e & f & He & Hf)]]; [by left| |].
    - destruct (Hk e f k He Hf Hkf) as [[Hin|[Hcut Hin]]%(proj2 Ed)|Hd].
      + right; left. by exists e, f.
      + right; right. split; [done|]. by exists e, f.
      + destruct H3 as (_ & Hc & _). left. destruct (Hc _ _ Hd) as [[_ Hr]|[[? _]|[? _]]]; [exact Hr|discriminate..].
    - right; right. split; [done|]. exists e, f. split; [by apply Ed|done]. }
  split; [|done]. split_and!; [done..|]. rewrite El. by eapply claims_keeps.
Qed.
Lemma replay_ok w rewrite : (∀ x, rewrite = Some x → cuts = true ∧ tear x = torn_none) → step_ok w (replay' rewrite w).1.
Proof using clean.
  intros Hx. unfold replay. apply bind_step; [by apply step_same|]. intros f w1 _ _ E. injection E as <- <-.
  apply bind_step; [by apply step_same|]. intros [] w1 _ _ E. injection E as <- _.
  apply bind_step; [apply replay_entries_ok|]. intros [n m] w1 _ _ E1.
  pose proof (replay_entries_dlq (good_lines (k_dlq w)) 0 0 w) as Ed. rewrite E1 in Ed. simpl in Ed.
  apply bind_step; [|intros; by apply step_same]. destruct (0 <? n)%nat; [|by apply step_same].
  unfold step_ok. apply bind_step.
  - intros Hw. destruct (kept_entries name (good_lines (k_dlq w)) w1) as [w2 [kept|e]] eqn:Ek.
    + apply kept_entries_spec in Ek as (-> & _). by split.
    + assert (w2 = w1) as ->; [|by split]. clear -Ek. revert w2 Ek. induction (good_lines (k_dlq w)) as [|e0 l IH]; intros w2; [done|].
      cbn [kept_entries]. unfold bind at 1. pose proof (delivered_already_same (py_or (_dlq_record e0) (VDict [])) w1) as Hd.
      destruct (delivered_already _ _ _) as [w3 [b|]]; simpl in Hd; subst; [|congruence]. unfold bind at 1.
      destruct (kept_entries name l w1) as [w4 [r|e1]] eqn:Er; [done|]. intros [= <- ->]. by apply IH.
  - intros kept w2 _ _ Ek. apply kept_entries_spec in Ek as (-> & Hsub & Hin). rewrite <- Ed in Hsub, Hin.
    apply bind_step; [by apply rewrite_ok|]. intros [] w3 _ _ _. by apply modify_same.
Qed.
Lemma compact_ok w io retain now : step_ok w (compact_ledger io retain now w).1.
Proof.
  clear. intros (H1 & H2 & H3). unfold compact_ledger. pose proof (claims_compact (claim w) io retain now _ H3) as Hc.
  destruct (compact _ _ _ _) as [l r]. simpl in *. split; [|by apply keeps_same].
  split_and!; [done..|]. simpl. by apply (claims_keeps w); [apply keeps_same|].
Qed.
Lemma restart_ok w : step_ok w (restart w).
Proof.
  clear. intros (H1 & H2 & H3). split; [|by apply keeps_same]. split_and!; [done..|]. simpl.
  apply (claims_keeps w); [by apply keeps_same|]. by apply claims_reopen.
Qed.
Lemma suppressed_ok w fs : step_ok w (record_suppressed worker disk clock fs w).1.
Proof using clean.
  apply ledger_record_ok. intros f k _ Hk. right; right. split; [done|]. by eapply record_key_dest.
Qed.

(** The life of a sink: batches, suppressions, replays, compactions, and restarts at any
    point (a process that dies inside a write is a write that fails, then a restart).
    The rewrite of the dead-letter file that ends a replay fails only where [cuts]. *)
Inductive sink_step (w : sink) : sink → Prop :=
| step_emit fs : sink_step w (emit' fs w).1
| step_suppress fs : sink_step w (record_suppressed worker disk clock fs w).1
| step_replay rewrite :
    (∀ x, rewrite = Some x → cuts = true ∧ tear x = torn_none) → sink_step w (replay' rewrite w).1
| step_compact io retain now : sink_step w (compact_ledger io retain now w).1
| step_restart : sink_step w (restart w).

Definition new_sink : sink :=
  {| k_ledger := open_ledger empty_file; k_dlq := empty_file; k_calls := 0; k_writes := 0; k_delivered := 0;
     k_dead := 0; k_healthy := None; k_received := []; k_dropped := [] |}.
Lemma new_sink_inv : sink_inv new_sink.
Proof. clear. split_and!; [done..|]. simpl. apply claims_open; [done|]. intros r Hr. by apply elem_of_nil in Hr. Qed.
Lemma sink_step_ok w w' : sink_step w w' → step_ok w w'.
Proof using clean.
  intros [fs|fs|rewrite Hx|io retain now|].
  - apply emit_ok.
  - apply suppressed_ok.
  - by apply replay_ok.
  - apply compact_ok.
  - apply restart_ok.
Qed.
Lemma sink_run_ok w w' : rtc sink_step w w' → step_ok w w'.
Proof using clean.
  induction 1 as [w|x y z Hxy _ IH]; [reflexivity|]. etrans; [by apply sink_step_ok|exact IH].
Qed.

Abbreviation handle' := (handle_batch name retries worker inner disk clock errtext).
Lemma handle_ok w fs : step_ok w (handle' fs w).1.
Proof using clean.
  unfold handle_batch. destruct fs as [|f fs]; [by apply step_same|]. apply bind_step; [by apply step_same|].
  intros es w1 _ _ _. apply emit_ok.
Qed.
Lemma handle_accounts w fs w' :
  sink_inv w → handle' fs w = (w', Ok tt) → ∀ f, f ∈ fs → ∃ k, _record_key f name = Ok k ∧ accounted k w'.
Proof using clean name_ok.
  intros Hw H f Hf. assert (Hw' : sink_inv w') by (destruct (handle_ok w fs Hw) as [Hx _]; by rewrite H in Hx).
  unfold handle_batch in H. destruct fs as [|f0 fs]; [by apply elem_of_nil in Hf|].
  apply bind_inv in H as (es & w1 & E & H). injection E as <- E.
  destruct (export_all_spec (f0 :: fs) es E f Hf) as (e & He & Hkey).
  apply emit_settles in H as (Hx & H & _). rewrite Forall_forall in Hx. destruct (Hx e He) as [x Hex].
  destruct (record_key_total e x name Hex) as [k Hk]. exists k. rewrite <- Hkey. split; [done|].
  eapply settled_accounted; [done|exact Hk|]. by eapply H.
Qed.

(** C4. No record is lost between the bus and a sink.  The disk may cut any write between
    two lines (no line is left half written) and the receiver may answer anything.  Once a
    batch of a sink (not named (withheld)) was handled, every record of it has been
    acknowledged by the receiver or is a readable dead letter, and stays so through later
    batches, suppressions, replays, compactions with any retention and restarts; the one
    exception is a replay whose rewrite of the dead-letter file is cut: a record may then
    be among the dead letters that this rewrite had still to write back. *)
Theorem handled_records_never_lost w0 fs w1 w2 f :
  rtc sink_step new_sink w0 → handle' fs w0 = (w1, Ok tt) → rtc sink_step w1 w2 → f ∈ fs →
  ∃ k, _record_key f name = Ok k ∧
    ((∃ r, r ∈ k_received w2 ∧ _record_key r name = Ok k) ∨
     (∃ e r, e ∈ good_lines (k_dlq w2) ∧ _dlq_record e = VDict r ∧ _record_key r name = Ok k) ∨
     cuts = true ∧ ∃ e r, e ∈ k_dropped w2 ∧ _dlq_record e = VDict r ∧ _record_key r name = Ok k).
Proof using clean name_ok.
  intros H0 H1 H2 Hf. apply sink_run_ok in H0. destruct (H0 new_sink_inv) as [Hw0 _].
  destruct (handle_accounts w0 fs w1 Hw0 H1 f Hf) as (k & Hk & Ha).
  assert (Hw1 : sink_inv w1) by (destruct (handle_ok w0 fs Hw0) as [Hx _]; by rewrite H1 in Hx).
  apply sink_run_ok in H2. destruct (H2 Hw1) as [_ K]. exists k. split; [done|]. by apply K.
Qed.

(** ** Facts: one batch, exactly once *)

(** A ledger whose index is what a restart would load, over a file without a torn line. *)
Definition in_step (w : sink) : Prop := jf_tail (l_file (k_ledger w)) = None ∧ synced (k_ledger w).

Lemma write_rows_in_step o entries err l l' r :
  str_truthy o = true → Forall (entry_ok o) entries → jf_tail (l_file l) = None → synced l →
  write_rows None o (entries, err) l = (l', r) → jf_tail (l_file l') = None ∧ synced l'.
Proof.
  clear. intros Ho He Ht Hs. unfold write_rows. intros [= <- _]. split; [by apply whole_put_lines|].
  unfold synced. simpl. rewrite good_put_lines, (load_entries o) by done. by apply set_outcomes_same_map.
Qed.
Lemma ledger_record_in_step w fs dest o w' :
  str_truthy o = true → in_step w → ledger_record worker disk clock fs dest o w = (w', Ok tt) →
  in_step w' ∧ k_delivered w' = k_delivered w ∧ k_dead w' = k_dead w.
Proof.
  clear clean. intros Ho [Ht Hs]. unfold ledger_record, on_ledger, record. destruct fs as [|f0 fs]; [by intros [= <-]|].
  destruct (record_rows_spec (l_outcome (k_ledger w)) (f0 :: fs) dest o worker (clock (k_writes w))) as (en & er & -> & H1 & _).
  destruct (disk (k_writes w)) as [x|]; [done|]. destruct (write_rows None o (en, er) (k_ledger w)) as [l r] eqn:E.
  intros [= <- ->]. split; [|done]. by eapply write_rows_in_step.
Qed.
Lemma flagged_length flags fs : (length (flagged true flags fs) + length (flagged false flags fs) = length fs)%nat.
Proof.
  clear. revert flags. induction fs as [|f fs IH]; intros flags; simpl; [done|]. rewrite !length_app.
  specialize (IH (tail flags)). destruct (default false (head flags)); simpl; lia.
Qed.
Lemma submit_counts w pending :
  ∃ w' failed accepted err, submit inner errtext pending w = (w', Ok (failed, accepted, err)) ∧
    k_ledger w' = k_ledger w ∧ k_delivered w' = k_delivered w ∧ k_dead w' = k_dead w ∧
    (length failed + length accepted = length pending)%nat.
Proof.
  clear. unfold submit. destruct (inner (k_calls w) pending) as [flags|e]; eexists _, _, _, _.
  - split_and!; [reflexivity|done..|]. apply flagged_length.
  - split_and!; [reflexivity|done..|]. simpl. lia.
Qed.
Lemma accepted_counts w accepted w' :
  in_step w →
  (match accepted with
   | [] => ret tt
   | _ => record' accepted name "delivered" ;* modify (count_delivered (length accepted))
   end) w = (w', Ok tt) →
  in_step w' ∧ k_delivered w' = k_delivered w + Z.of_nat (length accepted) ∧ k_dead w' = k_dead w.
Proof.
  clear clean. intros Hw H. destruct accepted as [|a0 acs]; [injection H as <-; split_and!; [done|simpl; lia|done]|].
  apply bind_inv in H as ([] & w3 & E3 & H). injection H as <-.
  apply ledger_record_in_step in E3 as (Hw3 & Ed & Ek); [|done|done]. split_and!; [done| |done].
  cbn [k_delivered count_delivered]. by rewrite Ed.
Qed.
Lemma dlq_counts fs err w w' :
  _dlq name disk fs err w = (w', Ok tt) →
  k_ledger w' = k_ledger w ∧ k_delivered w' = k_delivered w ∧ k_dead w' = k_dead w.
Proof.
  clear. unfold _dlq. destruct (dlq_rows name _ _) as [rows e]. destruct (disk _); [done|]. destruct e; [done|]. by intros [= <-].
Qed.
Lemma attempts_count more pending w w' :
  in_step w → attempts' more pending w = (w', Ok tt) →
  in_step w' ∧ k_delivered w' + k_dead w' = k_delivered w + k_dead w + Z.of_nat (length pending).
Proof.
  clear clean. revert pending w. induction more as [|more IH]; intros pending w Hw H; cbn [attempts] in H.
  all: apply bind_inv in H as ([[failed accepted] err] & w1 & E1 & H).
  all: destruct (submit_counts w pending) as (w1' & fa & ac & er & E1' & El & Ed & Ek & Hlen).
  all: rewrite E1' in E1; injection E1 as <- <- <- <-.
  all: apply bind_inv in H as ([] & w2 & E2 & H).
  all: apply accepted_counts in E2 as (Hw2 & Ed2 & Ek2); [|by unfold in_step; rewrite El].
  all: destruct fa as [|f0 fs].
  - injection H as <-. split; [done|]. cbn [k_delivered k_dead on_health]. simpl length in *. lia.
  - apply bind_inv in H as ([] & w3 & E3 & H). apply bind_inv in H as ([] & w4 & E4 & H).
    apply bind_inv in H as ([] & w5 & E5 & H). injection E5 as <-. injection H as <-.
    apply dlq_counts in E3 as (El3 & Ed3 & Ek3).
    apply ledger_record_in_step in E4 as (Hw4 & Ed4 & Ek4); [|done|by unfold in_step; rewrite El3].
    split; [done|]. cbn [k_delivered k_dead on_health count_dead]. simpl length in *. lia.
  - injection H as <-. split; [done|]. cbn [k_delivered k_dead on_health]. simpl length in *. lia.
  - destruct (IH (f0 :: fs) w2 Hw2 H) as [Hw' Hsum]. split; [done|]. simpl length in *. lia.
Qed.
Lemma fresh_records_settled m seen fs :
  Forall exports fs →
  (∀ f k, f ∈ fs → _record_key f name = Ok k → ∃ v, od_get k m = Some v ∧ truthy v = true) →
  fresh_records name m seen fs = Ok [].
Proof.
  clear. intros Hx. revert seen. induction Hx as [|f fs [e He] Hx IH]; intros seen Hk; cbn [fresh_records]; [done|].
  rewrite He. cbn [mbind res_bind]. destruct (record_key_total f e name He) as [k Hkf].
  rewrite (record_key_export f e name He), Hkf. cbn [mbind res_bind].
  destruct (Hk f k) as (v & -> & ->); [by left|done|]. rewrite orb_true_r. apply IH. intros g k' Hg. apply Hk. by right.
Qed.
Lemma settled_reopened k w :
  synced (k_ledger w) → settled k w →
  ∃ v, od_get k (l_outcome (k_ledger (restart w))) = Some v ∧ truthy v = true.
Proof.
  clear. intros Hs [v Hv]. rewrite (Hs k) in Hv. exists v. split; [done|]. by destruct (load_get_inv _ _ _ Hv) as (? & _ & _ & _ & ?).
Qed.

(** A batch settles each of its obligations once: what was not settled before is counted
    once, as delivered or as dead, however the receiver splits it over the attempts, no
    obligation is submitted twice in a batch, and redelivering the batch to the process
    that restarts over the files neither submits nor writes anything. *)
Theorem batch_settles_once w fs w' :
  in_step w → emit' fs w = (w', Ok tt) →
  (∃ fresh, fresh_records name (l_outcome (k_ledger w)) [] fs = Ok fresh ∧
     NoDup ((λ g, _record_key g name) <$> fresh) ∧
     k_delivered w' + k_dead w' = k_delivered w + k_dead w + Z.of_nat (length fresh)) ∧
  emit' fs (restart w') = (restart w', Ok tt).
Proof.
  clear clean name_ok. intros Hw H. pose proof (emit_settles w fs w' H) as (Hx & Hset & _).
  unfold emit_batch in H. apply bind_inv in H as (m & w1 & E & H). injection E as <- <-.
  apply bind_inv in H as (fresh & w1 & E & H). injection E as <- E.
  pose proof (fresh_records_spec _ _ _ _ E) as (_ & _ & _ & _ & Hnd).
  assert (Hw' : in_step w' ∧ k_delivered w' + k_dead w' = k_delivered w + k_dead w + Z.of_nat (length fresh)).
  { destruct fresh as [|g gs]; [injection H as <-; split; [done|simpl; lia]|by eapply attempts_count]. }
  destruct Hw' as [[_ Hs'] Hsum]. split; [by exists fresh|].
  unfold emit_batch, bind at 1, read, bind at 1, lift.
  rewrite fresh_records_settled; [done|done|]. intros f k Hf Hk. apply settled_reopened; [done|]. by eapply Hset.
Qed.

(** ** Facts: the forwarder's offsets *)

(** The life of the forwarder: records arrive, batches are polled by a process that has
    had no failed batch, and the process is restarted at any point. *)
Abbreviation poll' := (poll name retries worker inner disk clock errtext).
Inductive forwarder_step (s : forwarder) : forwarder → Prop :=
| step_arrive fs : forwarder_step s
    {| fw_sink := fw_sink s; fw_topic := fw_topic s ++ fs; fw_position := fw_position s; fw_committed := fw_committed s;
       fw_total := fw_total s; fw_suppressed := fw_suppressed s; fw_up := fw_up s |}
| step_poll n : fw_up s = true → fw_position s = fw_committed s → forwarder_step s (poll' n s)
| step_reboot : forwarder_step s (reboot s).

Definition new_forwarder : forwarder :=
  {| fw_sink := new_sink; fw_topic := []; fw_position := 0; fw_committed := 0; fw_total := 0; fw_suppressed := 0; fw_up := true |}.
Definition carried (s : forwarder) (f : dict) : Prop :=
  withheld f = true ∨ ∃ k, _record_key f name = Ok k ∧ accounted k (fw_sink s).
Definition forwarder_inv (s : forwarder) : Prop :=
  sink_inv (fw_sink s) ∧ (fw_committed s ≤ length (fw_topic s))%nat ∧
  ∀ f, f ∈ take (fw_committed s) (fw_topic s) → carried s f.

Lemma process_accounts w fs w' r :
  sink_inv w → process name retries worker inner disk clock errtext fs w = (w', r) →
  sink_inv w' ∧ keeps w w' ∧
  (r = Ok tt → ∀ f, f ∈ fs → withheld f = true ∨ ∃ k, _record_key f name = Ok k ∧ accounted k w').
Proof using clean name_ok.
  intros Hw H. assert (Hstep : step_ok w w').
  { replace w' with (w', r).1 by done. rewrite <- H. unfold process. apply bind_step.
    - destruct (List.filter withheld fs); [by apply step_same|apply suppressed_ok].
    - intros [] w1 _ _ _. apply handle_ok. }
  destruct (Hstep Hw) as [Hw' K]. split_and!; [done|done|]. intros ->. unfold process in H.
  apply bind_inv in H as ([] & w1 & E & H).
  assert (Hw1 : sink_inv w1).
  { destruct (List.filter withheld fs) as [|h hs]; [by injection E as <-|].
    destruct (suppressed_ok w (h :: hs) Hw) as [Hx _]. by rewrite E in Hx. }
  intros f Hf. destruct (withheld f) eqn:Ew; [by left|right]. eapply handle_accounts; [exact Hw1|exact H|].
  apply list_elem_of_In, filter_In. split; [by apply list_elem_of_In|by rewrite Ew].
Qed.
Lemma carried_keeps s s' f : keeps (fw_sink s) (fw_sink s') → carried s f → carried s' f.
Proof. clear. intros K [H|(k & Hk & Ha)]; [by left|right]. exists k. split; [done|]. by apply K. Qed.
Lemma poll_inv n s : fw_position s = fw_committed s → forwarder_inv s → forwarder_inv (poll' n s).
Proof using clean name_ok.
  intros Hpos (Hw & Hle & Hc). unfold poll. rewrite Hpos. set (fs := take n _).
  assert (Hfs : take (fw_committed s + length fs) (fw_topic s) = take (fw_committed s) (fw_topic s) ++ fs).
  { rewrite <- take_take_drop. f_equal. unfold fs. rewrite length_take, length_drop.
    destruct (decide (n ≤ length (fw_topic s) - fw_committed s)%nat); [by rewrite Nat.min_l|].
    rewrite !take_ge; [done|rewrite length_drop; lia..]. }
  assert (Hlen : (fw_committed s + length fs ≤ length (fw_topic s))%nat).
  { unfold fs. rewrite length_take, length_drop. lia. }
  clearbody fs. destruct fs as [|f0 fs]; [done|].
  destruct (process _ _ _ _ _ _ _ (f0 :: fs) (fw_sink s)) as [w r] eqn:E.
  destruct (process_accounts _ _ _ _ Hw E) as (Hw' & K & Hall). destruct r as [[]|e].
  - split_and!; [done|done|]. cbn [fw_committed fw_topic]. rewrite Hfs. intros f [Hf|Hf]%elem_of_app; [|by apply Hall].
    eapply carried_keeps; [|by apply Hc]. exact K.
  - split_and!; [done|done|]. intros f Hf. eapply carried_keeps; [|by apply Hc]. exact K.
Qed.
Lemma forwarder_step_inv s s' : forwarder_step s s' → forwarder_inv s → forwarder_inv s'.
Proof using clean name_ok.
  intros [fs|n Hup Hpos|]; [|by apply poll_inv|].
  - intros (Hw & Hle & Hc). split_and!; [done|cbn; rewrite length_app; lia|]. cbn. by rewrite take_app_le.
  - intros (Hw & Hle & Hc). destruct (restart_ok (fw_sink s) Hw) as [Hw' K]. split_and!; [done|done|].
    intros f Hf. eapply carried_keeps; [|by apply Hc]. exact K.
Qed.

(** Offsets are committed only past records that are safe: as long as a process that saw
    a batch fail is restarted before it polls again, every record below the committed
    offset is withheld, acknowledged by the receiver, or a readable dead letter.  (The
    forwarder never replays, so nothing is dropped: this is the case [cuts = false].) *)
Theorem committed_records_accounted s f :
  rtc forwarder_step new_forwarder s → f ∈ take (fw_committed s) (fw_topic s) → carried s f.
Proof using clean name_ok.
  intros H. enough (forwarder_inv s) as (_ & _ & Hc) by apply Hc.
  assert (H0 : forwarder_inv new_forwarder).
  { split_and!; [apply new_sink_inv|done|]. intros g Hg. by apply elem_of_nil in Hg. }
  revert H0. induction H as [|x y z Hxy _ IH]; [done|]. intros Hx. apply IH. by eapply forwarder_step_inv.
Qed.
End facts.

(** ** Fan-out *)

(** One sink's failure never keeps a batch from another: every sink ends in the state its
    own delivery leaves, and the fan-out reports a failure exactly when some sink failed. *)
Theorem fan_out_isolates emits ws :
  length emits = length ws →
  let r := multi_emit emits ws in
  length r.1 = length ws ∧
  (∀ i e w, emits !! i = Some e → ws !! i = Some w → r.1 !! i = Some (e w).1) ∧
  (r.2 = Ok tt ↔ ∀ i e w, emits !! i = Some e → ws !! i = Some w → is_ok (e w).2 = true).
Proof.
  intros Hlen. unfold multi_emit. cbv zeta. simpl.
  assert (Hl : ∀ i e w, emits !! i = Some e → ws !! i = Some w → zip_with (λ (e : M sink unit) w, e w) emits ws !! i = Some (e w)).
  { intros i e w He Hw. apply lookup_zip_with_Some. by exists e, w. }
  split_and!.
  - rewrite length_fmap, length_zip_with. lia.
  - intros i e w He Hw. by rewrite list_lookup_fmap, (Hl i e w).
  - destruct (forallb _ _) eqn:E.
    + split; [|done]. intros _ i e w He Hw. rewrite forallb_forall in E. apply E, list_elem_of_In.
      eapply list_elem_of_lookup_2, Hl; done.
    + split; [done|]. intros H. exfalso. apply not_true_iff_false in E. apply E, forallb_forall. intros r Hr%list_elem_of_In.
      apply list_elem_of_lookup in Hr as [i Hi]. apply lookup_zip_with_Some in Hi as (e & w & -> & He & Hw).
      by eapply H.
Qed.

(** ** Worked examples *)

Definition a_finding (id : string) : dict :=
  [("finding_id", VStr id); ("revision", VInt 1); ("tenant_id", VStr "acme"); ("state", VStr "FINAL")].
Definition a_key (id dest : string) : obl_key := [VStr "acme"; VStr id; VInt 1; VStr dest].
Definition accepting (n : nat) (fs : list dict) : res (list bool) := Ok (const false <$> fs).
Definition refusing (n : nat) (fs : list dict) : res (list bool) := Raise OtherError.
(** The first call refuses one record, the second all. *)
Definition choosy (n : nat) (fs : list dict) : res (list bool) := Ok (match n with O => [false; true] | _ => [true] end).
Definition good_disk (n : nat) : option fault := None.
Definition some_time (n : nat) : string := "2026-03-01T00:00:00Z".
Definition some_text (e : exn) : string := "error".
Definition two : list dict := [a_finding "f1"; a_finding "f2"].

Lemma handled_records_never_lost_witness :
  let s := handle_batch "siem" 1 "w1" choosy good_disk some_time some_text two new_sink in
  s.2 = Ok tt ∧ k_received s.1 = [a_finding "f1"] ∧ k_dead s.1 = 1 ∧
  ∃ k, _record_key (a_finding "f2") "siem" = Ok k ∧
    ((∃ r, r ∈ k_received (restart s.1) ∧ _record_key r "siem" = Ok k) ∨
     (∃ e r, e ∈ good_lines (k_dlq (restart s.1)) ∧ _dlq_record e = VDict r ∧ _record_key r "siem" = Ok k) ∨
     false = true ∧ ∃ e r, e ∈ k_dropped (restart s.1) ∧ _dlq_record e = VDict r ∧ _record_key r "siem" = Ok k).
Proof.
  cbv zeta. set (s := handle_batch _ _ _ _ _ _ _ _ _).
  assert (E : s = (s.1, Ok tt)) by (vm_compute; reflexivity).
  split; [by rewrite E|]. split; [vm_compute; reflexivity|]. split; [vm_compute; reflexivity|].
  eapply (handled_records_never_lost "siem" 1 "w1" choosy good_disk some_time some_text
            false ltac:(discriminate) ltac:(discriminate) new_sink two s.1 (restart s.1)).
  - apply rtc_refl.
  - exact E.
  - apply rtc_once, step_restart.
  - right; left.
Defined.

Lemma batch_settles_once_witness :
  let s := emit_batch "siem" 1 "w1" choosy good_disk some_time some_text (two ++ two) new_sink in
  s.2 = Ok tt ∧ k_delivered s.1 + k_dead s.1 = 2 ∧
  emit_batch "siem" 1 "w1" choosy good_disk some_time some_text (two ++ two) (restart s.1) = (restart s.1, Ok tt).
Proof.
  cbv zeta. set (s := emit_batch _ _ _ _ _ _ _ _ _).
  assert (E : s = (s.1, Ok tt)) by (vm_compute; reflexivity).
  split; [by rewrite E|]. split; [vm_compute; reflexivity|].
  eapply (batch_settles_once "siem" 1 "w1" choosy good_disk some_time some_text new_sink (two ++ two) s.1).
  - split; [reflexivity|]. intros k. reflexivity.
  - exact E.
Defined.

Lemma committed_records_accounted_witness :
  let s0 := {| fw_sink := new_sink; fw_topic := two; fw_position := 0; fw_committed := 0;
               fw_total := 0; fw_suppressed := 0; fw_up := true |} in
  let s := poll "siem" 1 "w1" refusing good_disk some_time some_text 5 s0 in
  fw_committed s = 2%nat ∧ carried "siem" false s (a_finding "f2").
Proof.
  cbv zeta. split; [vm_compute; reflexivity|].
  eapply (committed_records_accounted "siem" 1 "w1" refusing good_disk some_time some_text
            false ltac:(discriminate) ltac:(discriminate)).
  - eapply rtc_l; [exact (step_arrive _ _ _ _ _ _ _ new_forwarder two)|].
    eapply rtc_once. apply step_poll; reflexivity.
  - vm_compute. right; left.
Defined.

Lemma fan_out_isolates_witness :
  let emit inner := emit_batch "siem" 0 "w1" inner good_disk some_time some_text two in
  let failing := emit_batch "siem" 0 "w1" refusing (λ _, Some {| in_memory := 0; on_disk := 0; tear := torn_none |})
                   some_time some_text two in
  let emits := [failing; emit accepting] in
  let r := multi_emit emits [new_sink; new_sink] in
  r.2 = Raise OtherError ∧ r.1 !! 1%nat = Some (emit accepting new_sink).1 ∧ k_delivered (emit accepting new_sink).1 = 2.
Proof.
  cbv zeta. split; [vm_compute; reflexivity|]. split; [|vm_compute; reflexivity].
  set (emits := [_; _]).
  assert (Hl : length emits = length [new_sink; new_sink]) by reflexivity.
  exact (proj1 (proj2 (fan_out_isolates emits [new_sink; new_sink] Hl)) 1%nat _ _ eq_refl eq_refl).
Defined.

(** A process that polls on after a failed batch commits past it: the first record below
    the committed offset was neither acknowledged nor dead-lettered. *)
Example failed_batch_committed_past :
  let disk n := if (n =? 0)%nat then Some {| in_memory := 0; on_disk := 0; tear := torn_none |} else None in
  let inner n (fs : list dict) : res (list bool) := if (n =? 0)%nat then Raise OtherError else Ok (const false <$> fs) in
  let s0 := {| fw_sink := new_sink; fw_topic := two; fw_position := 0; fw_committed := 0;
               fw_total := 0; fw_suppressed := 0; fw_up := true |} in
  let poll1 := poll "siem" 0 "w1" inner disk some_time some_text 1 in
  let s1 := poll1 s0 in let s2 := poll1 s1 in
  fw_committed s1 = 0%nat ∧ fw_up s1 = true ∧ fw_committed s2 = 2%nat ∧
  k_received (fw_sink s2) = [a_finding "f2"] ∧ good_lines (k_dlq (fw_sink s2)) = [].
Proof. vm_compute. done. Qed.

(** A last line torn by a crash swallows the next line: the outcome is in memory, and gone
    after a restart. *)
Example torn_line_swallows_next :
  let l0 := open_ledger {| jf_lines := []; jf_tail := Some None |} in
  let r := record None [a_finding "f1"] "siem" "delivered" "w1" "2026-03-01T00:00:00Z" l0 in
  r.2 = Ok tt ∧ od_get (a_key "f1" "siem") (l_outcome r.1) = Some (VStr "delivered") ∧
  od_get (a_key "f1" "siem") (l_outcome (open_ledger (l_file r.1))) = None.
Proof. vm_compute. done. Qed.

(** A replay that dies while it rewrites the dead letters loses those still undelivered. *)
Example interrupted_replay_drops_dead_letters :
  let inner n (fs : list dict) : res (list bool) := Ok (match n with O => [true; true] | 1%nat => [false] | _ => [true] end) in
  let s := (emit_batch "siem" 0 "w1" inner good_disk some_time some_text two new_sink).1 in
  let s' := (replay "siem" "w1" inner good_disk some_time some_text
               (Some {| in_memory := 0; on_disk := 0; tear := torn_none |}) s).1 in
  length (good_lines (k_dlq s)) = 2%nat ∧ good_lines (k_dlq s') = [] ∧ k_received s' = [a_finding "f1"] ∧ length (k_dropped s') = 1%nat.
Proof. vm_compute. done. Qed.
