(* ===== verification/IsoTime.v ===== *)
(** * ISO text of an instant, and back

    [_iso] is the text the services give a UTC datetime
    ([dt.isoformat().replace("+00:00", "Z")]): no fraction on a whole second, six digits
    otherwise.  Reading it back gives the instant, over the years a [datetime] has.  The
    times of sensors' events and of findings, as the detectors read and write them, follow. *)

From S2P Require Import Prelude Order PyVal PyString PyTime.
Set Default Proof Using "Type".

(** [f"{z:0{n}d}"] for [0 <= z < 10 ^ n]. *)
Definition digit_char (d : Z) : ascii := ascii_of_N (Z.to_N (48 + d)).
Fixpoint digits (n : nat) (z : Z) : string :=
  match n with
  | O => ""
  | S n => digits n (z / 10) +:+ String (digit_char (z mod 10)) ""
  end.

Definition _iso (t : Z) : string :=
  let days := t / 86400000000 in
  let r := t mod 86400000000 in
  let '(y, m, d) := civil_from_days days in
  digits 4 y +:+ "-" +:+ digits 2 m +:+ "-" +:+ digits 2 d +:+ "T" +:+
  digits 2 (r / 3600000000) +:+ ":" +:+ digits 2 (r / 60000000 mod 60) +:+ ":" +:+
  digits 2 (r / 1000000 mod 60) +:+ (if r mod 1000000 =? 0 then "" else "." +:+ digits 6 (r mod 1000000)) +:+ "Z".

(** Instants a [datetime] can hold: years 1 to 9999. *)
Definition datetime_min : Z := -62135596800000000.
Definition datetime_max : Z := 253402300799999999.
Definition is_datetime (t : Z) : bool := (datetime_min <=? t) && (t <=? datetime_max).

Example iso_whole : _iso 1772366400000000 = "2026-03-01T12:00:00Z".
Proof. vm_compute. reflexivity. Qed.
Example iso_fraction : _iso 1772366400123000 = "2026-03-01T12:00:00.123000Z".
Proof. vm_compute. reflexivity. Qed.

(** ** Digits *)

Lemma digit_val_char d : 0 <= d < 10 → digit_val (digit_char d) = Some d.
Proof.
  intros H. assert (d ∈ [0;1;2;3;4;5;6;7;8;9]) as Hd by (rewrite !elem_of_cons; lia).
  repeat (apply elem_of_cons in Hd as [->|Hd]; [reflexivity|]). by apply elem_of_nil in Hd.
Qed.
Lemma str_app_assoc (a b c : string) : (a +:+ b) +:+ c = a +:+ (b +:+ c).
Proof. induction a as [|x a IH]; [done|]. cbn. f_equal. exact IH. Qed.
Lemma digits_read n z acc s :
  0 <= z < 10 ^ Z.of_nat n → fixed_digits n acc (digits n z +:+ s) = Some (acc * 10 ^ Z.of_nat n + z, s).
Proof.
  assert (Hcat : ∀ n k a s, fixed_digits (n + k) a s = ('(b, s') ← fixed_digits n a s; fixed_digits k b s')).
  { clear. intros n k. induction n as [|n IH]; intros a s; [done|]. simpl. destruct s as [|c s]; [done|].
    destruct (digit_val c); simpl; [apply IH|done]. }
  revert z acc s. induction n as [|n IH]; intros z acc s Hz.
  { simpl in *. f_equal. f_equal. lia. }
  rewrite Nat2Z.inj_succ, Z.pow_succ_r in * by lia. replace (fixed_digits (S n)) with (fixed_digits (n + 1)) by (f_equal; lia). rewrite Hcat. cbn [digits].
  rewrite str_app_assoc, IH by (split; [apply Z.div_pos; lia|apply Z.div_lt_upper_bound; lia]).
  cbn [mbind option_bind]. cbn [fixed_digits]. change (String (digit_char (z mod 10)) "" +:+ s) with (String (digit_char (z mod 10)) s).
  cbn [fixed_digits]. rewrite digit_val_char by (apply Z.mod_pos_bound; lia). cbn. f_equal. f_equal.
  pose proof (Z.div_mod z 10 ltac:(lia)). lia.
Qed.

(** ** The calendar *)

(** The first day of year [y] of an era, years starting in March. *)
Definition year_start (y : Z) : Z := 365 * y + y / 4 - y / 100.
Definition year_of (doe : Z) : Z := (doe - doe / 1460 + doe / 36524 - doe / 146096) / 365.

Lemma year_of_step x : 0 <= x < 146096 → year_of x <= year_of (x + 1).
Proof.
  intros H. unfold year_of. apply Z.div_le_mono; [lia|].
  assert (H1 : (x + 1) / 1460 <= x / 1460 + 1) by (Z.to_euclidean_division_equations; lia).
  assert (H2 : x / 36524 <= (x + 1) / 36524) by (apply Z.div_le_mono; lia).
  destruct (decide (x = 146095)) as [->|Hx]; [vm_compute; discriminate|].
  rewrite (Z.div_small x 146096), (Z.div_small (x + 1) 146096) by lia. lia.
Qed.
Lemma year_of_mono x y : 0 <= x → x <= y → y <= 146096 → year_of x <= year_of y.
Proof.
  intros Hx Hxy Hy. replace y with (x + Z.of_nat (Z.to_nat (y - x))) by lia.
  assert (Hn : x + Z.of_nat (Z.to_nat (y - x)) <= 146096) by lia. revert Hn.
  induction (Z.to_nat (y - x)) as [|n IH]; intros Hn; [rewrite Z.add_0_r; lia|].
  rewrite Nat2Z.inj_succ in *. etrans; [apply IH; lia|]. unfold Z.succ. rewrite Z.add_assoc. apply year_of_step. lia.
Qed.

Lemma years_of_era :
  forallb (λ n, let y := Z.of_nat n in (year_of (year_start y) =? y) && (year_start y <? year_start (y + 1)) &&
    ((y =? 399) || (year_of (year_start (y + 1)) =? y + 1)) && ((y =? 0) || (year_of (year_start y - 1) =? y - 1)))
    (seq 0 400) = true.
Proof. vm_compute. reflexivity. Qed.
Lemma era_year y :
  0 <= y < 400 → year_of (year_start y) = y ∧ (y < 399 → year_of (year_start (y + 1)) = y + 1) ∧
    (0 < y → year_of (year_start y - 1) = y - 1).
Proof.
  intros H. pose proof years_of_era as Hall. rewrite forallb_forall in Hall.
  specialize (Hall (Z.to_nat y)). rewrite in_seq in Hall. cbv zeta in Hall. rewrite Z2Nat.id in Hall by lia.
  specialize (Hall ltac:(lia)). rewrite !andb_true_iff, !orb_true_iff, !Z.eqb_eq in Hall. lia.
Qed.
(** Every day of an era lies in the year [year_of] gives it. *)
Lemma era_day doe :
  0 <= doe < 146097 → 0 <= year_of doe < 400 ∧ year_start (year_of doe) <= doe ∧
    (doe < year_start (year_of doe + 1) ∨ year_of doe = 399).
Proof.
  intros H. pose proof (year_of_mono 0 doe ltac:(lia) ltac:(lia) ltac:(lia)) as H0.
  pose proof (year_of_mono doe 146096 ltac:(lia) ltac:(lia) ltac:(lia)) as H1.
  change (year_of 0) with 0 in H0. change (year_of 146096) with 399 in H1. set (y := year_of doe) in *.
  destruct (era_year y ltac:(lia)) as (E1 & E2 & E3). split; [lia|].
  assert (Hs : 0 <= year_start y) by (unfold year_start; Z.to_euclidean_division_equations; lia).
  split.
  - apply Z.nlt_ge. intros Hlt. assert (0 < y) by (destruct (decide (y = 0)) as [E|]; [rewrite E in Hlt; change (year_start 0) with 0 in Hlt|]; lia).
    specialize (E3 ltac:(lia)).
    pose proof (year_of_mono doe (year_start y - 1) ltac:(lia) ltac:(lia)) as Hm. fold y in Hm.
    assert (year_start y - 1 <= 146096) by (unfold year_start; Z.to_euclidean_division_equations; lia). lia.
  - destruct (decide (y = 399)) as [->|Hy]; [by right|left]. apply Z.nle_gt. intros Hle. specialize (E2 ltac:(lia)).
    pose proof (year_of_mono (year_start (y + 1)) doe) as Hm. fold y in Hm.
    assert (0 <= year_start (y + 1)) by (unfold year_start; Z.to_euclidean_division_equations; lia). lia.
Qed.

(** Month and day of a day of the year. *)
Definition month_index (doy : Z) : Z := (5 * doy + 2) / 153.
Lemma months_of_year :
  forallb (λ n, let doy := Z.of_nat n in let mp := month_index doy in let d := doy - (153 * mp + 2) / 5 + 1 in
    let m := if mp <? 10 then mp + 3 else mp - 9 in
    between 0 11 mp && between 1 12 m && (1 <=? d) &&
    (d <=? (if m =? 2 then (if doy =? 365 then 29 else 28) else days_in_month 2001 m)) &&
    ((if m <=? 2 then m + 9 else m - 3) =? mp)) (seq 0 366) = true.
Proof. vm_compute. reflexivity. Qed.
Lemma month_day doy :
  0 <= doy < 366 → let mp := month_index doy in let d := doy - (153 * mp + 2) / 5 + 1 in
    let m := if mp <? 10 then mp + 3 else mp - 9 in
    1 <= m <= 12 ∧ 1 <= d ∧ d <= (if m =? 2 then (if doy =? 365 then 29 else 28) else days_in_month 2001 m) ∧
    (if m <=? 2 then m + 9 else m - 3) = mp ∧ (306 <= doy ↔ m <= 2).
Proof.
  intros H. cbv zeta. pose proof months_of_year as Hall. rewrite forallb_forall in Hall.
  specialize (Hall (Z.to_nat doy)). rewrite in_seq in Hall. cbv zeta in Hall. rewrite Z2Nat.id in Hall by lia.
  specialize (Hall ltac:(lia)). unfold between in Hall. rewrite !andb_true_iff, !Z.leb_le, Z.eqb_eq in Hall.
  assert (Hlo : 306 <= doy → 10 <= month_index doy) by (intros; apply Z.div_le_lower_bound; lia).
  assert (Hhi : doy < 306 → month_index doy < 10) by (intros; apply Z.div_lt_upper_bound; lia).
  set (mp := month_index doy) in *. clearbody mp. destruct Hall as ((((Hmp & Hm) & Hd) & Hd2) & Hback).
  destruct (Z.ltb_spec mp 10); split_and!; try done; lia.
Qed.

Lemma leap_day y era :
  0 <= y < 400 → (year_start y + 365 < year_start (y + 1) ∨ y = 399) → is_leap (y + era * 400 + 1) = true.
Proof.
  intros Hy H. unfold is_leap. apply andb_true_iff. rewrite orb_true_iff, negb_true_iff, !Z.eqb_eq, Z.eqb_neq.
  unfold year_start in H. destruct H as [H| ->].
  - split; [Z.to_euclidean_division_equations; lia|]. left. Z.to_euclidean_division_equations; lia.
  - split; [|right]; Z.to_euclidean_division_equations; lia.
Qed.

Lemma civil_days z :
  let '(y, m, d) := civil_from_days z in
  days_from_civil y m d = z ∧ 1 <= m <= 12 ∧ 1 <= d <= days_in_month y m ∧
  (306 <= z + 719468 < 3652365 → 1 <= y <= 9999).
Proof.
  unfold civil_from_days. cbv zeta. set (z' := z + 719468). set (era := z' / 146097). set (doe := z' mod 146097).
  assert (Hz : z' = 146097 * era + doe) by (apply Z.div_mod; lia).
  assert (Hdoe : 0 <= doe < 146097) by (apply Z.mod_pos_bound; lia). clearbody era doe.
  fold (year_of doe). destruct (era_day doe Hdoe) as (Hy & Hlo & Hhi). set (yoe := year_of doe) in *. clearbody yoe.
  fold (year_start yoe). set (doy := doe - year_start yoe).
  assert (Hdoy0 : doe = year_start yoe + doy) by (unfold doy; lia). clearbody doy.
  assert (Hdoy : 0 <= doy < 366).
  { destruct Hhi as [Hhi| ->]; [|change (year_start 399) with 145731 in *; lia].
    unfold year_start in *. Z.to_euclidean_division_equations; lia. }
  pose proof (month_day doy Hdoy) as Hm. cbv zeta in Hm. unfold month_index in Hm.
  set (mp := (5 * doy + 2) / 153) in *. set (m := if mp <? 10 then mp + 3 else mp - 9) in *.
  destruct Hm as (Hm & Hd1 & Hd2 & Hmp & Hm2). split_and!; try lia.
  - unfold days_from_civil. cbv zeta. rewrite Hmp.
    assert (Ey : (if m <=? 2 then yoe + era * 400 + (if m <=? 2 then 1 else 0) - 1
                  else yoe + era * 400 + (if m <=? 2 then 1 else 0)) = yoe + era * 400) by (destruct (m <=? 2); lia).
    rewrite Ey, Z.div_add, Z.mod_add, (Z.div_small yoe), (Z.mod_small yoe) by lia. unfold year_start in Hdoy0. lia.
  - etrans; [exact Hd2|]. unfold days_in_month. destruct (Z.eqb_spec m 2) as [E|E].
    + assert (Hle : (m <=? 2) = true) by (apply Z.leb_le; lia). rewrite Hle.
      destruct (Z.eqb_spec doy 365) as [Ed|Ed]; [|by destruct (is_leap _)].
      rewrite leap_day; [lia|lia|]. destruct Hhi as [Hhi|Hhi]; [left; lia|by right].
    + apply Z.eqb_neq in E. done.
  - intros Hr. assert (0 <= era <= 24) by lia. change (year_start yoe) with (365 * yoe + yoe / 4 - yoe / 100) in *.
    destruct (Z.leb_spec m 2) as [E|E].
    + split; [lia|]. destruct (decide (yoe = 399)) as [->|]; [|lia]. change (399 / 4) with 99 in *. change (399 / 100) with 3 in *. lia.
    + split; [|lia]. destruct (decide (yoe = 0)) as [->|]; [|lia]. change (0 / 4) with 0 in *. change (0 / 100) with 0 in *. lia.
Qed.

(** ** Reading back *)

Lemma replace_zulu_app a b : replace_zulu (a +:+ b) = replace_zulu a +:+ replace_zulu b.
Proof.
  induction a as [|c a IH]; [done|]. cbn [replace_zulu]. change (String c a +:+ b) with (String c (a +:+ b)).
  cbn [replace_zulu]. rewrite IH. by destruct (Ascii.eqb c "Z").
Qed.
Lemma digit_char_zulu d : 0 <= d < 10 → Ascii.eqb (digit_char d) "Z" = false.
Proof.
  intros H. assert (d ∈ [0;1;2;3;4;5;6;7;8;9]) as Hd by (rewrite !elem_of_cons; lia).
  repeat (apply elem_of_cons in Hd as [->|Hd]; [reflexivity|]). by apply elem_of_nil in Hd.
Qed.
Lemma replace_zulu_digits n z : replace_zulu (digits n z) = digits n z.
Proof.
  revert z. induction n as [|n IH]; intros z; [done|]. cbn [digits]. rewrite replace_zulu_app, IH. f_equal.
  cbn [replace_zulu]. by rewrite digit_char_zulu by (apply Z.mod_pos_bound; lia).
Qed.

(** The fraction's six digits are its microseconds. *)
Lemma fraction_digits n acc k z s :
  0 <= z < 10 ^ Z.of_nat n → 0 < k + Z.of_nat n → 0 <= k →
  (∀ c s', s = String c s' → digit_val c = None) →
  fraction (10 ^ (Z.of_nat n - 1)) acc k (digits n z +:+ s) = Some (acc + z, s).
Proof.
  assert (Hgen : ∀ n m z acc k s, (0 < n)%nat → 0 <= z < 10 ^ Z.of_nat n → 0 <= k →
    fraction (10 ^ (Z.of_nat n + Z.of_nat m - 1)) acc k (digits n z +:+ s) =
    fraction (10 ^ (Z.of_nat m) / 10) (acc + z * 10 ^ Z.of_nat m) (k + Z.of_nat n) s).
  { clear. induction n as [|n IH]; intros m z acc k s Hn Hz Hk; [lia|].
    cbn [digits]. rewrite str_app_assoc.
    assert (Hq : 0 <= z / 10 < 10 ^ Z.of_nat n).
    { rewrite Nat2Z.inj_succ, Z.pow_succ_r in Hz by lia. split; [apply Z.div_pos; lia|apply Z.div_lt_upper_bound; lia]. }
    pose proof (Z.mod_pos_bound z 10 ltac:(lia)) as Hd. pose proof (Z.div_mod z 10 ltac:(lia)) as Hdm.
    change (String (digit_char (z mod 10)) "" +:+ s) with (String (digit_char (z mod 10)) s).
    assert (Hlast : ∀ acc k, 0 <= k → fraction (10 ^ Z.of_nat m) acc k (String (digit_char (z mod 10)) s) =
      fraction (10 ^ Z.of_nat m / 10) (acc + (z mod 10) * 10 ^ Z.of_nat m) (k + 1) s).
    { intros a k' _. cbn [fraction]. by rewrite digit_val_char. }
    destruct n as [|n].
    - cbn [digits]. change ("" +:+ String (digit_char (z mod 10)) s) with (String (digit_char (z mod 10)) s).
      replace (Z.of_nat 1 + Z.of_nat m - 1) with (Z.of_nat m) by lia. rewrite Hlast by done.
      change (10 ^ Z.of_nat 0) with 1 in Hq. f_equal; lia.
    - replace (Z.of_nat (S (S n)) + Z.of_nat m - 1) with (Z.of_nat (S n) + Z.of_nat (S m) - 1) by lia.
      rewrite IH by lia. rewrite (Nat2Z.inj_succ m), Z.pow_succ_r by lia.
      rewrite (Z.mul_comm 10 (10 ^ Z.of_nat m)), Z.div_mul by lia. rewrite Hlast by lia. f_equal; lia. }
  intros Hz Hk0 Hk Hs. destruct n as [|n].
  { change (10 ^ Z.of_nat 0) with 1 in Hz. assert (z = 0) as -> by lia. rewrite Z.add_0_r. cbn [digits].
    change ("" +:+ s) with s. destruct s as [|c s]; cbn [fraction].
    - by rewrite (proj2 (Z.ltb_lt 0 k)) by lia.
    - rewrite (Hs c s eq_refl). by rewrite (proj2 (Z.ltb_lt 0 k)) by lia. }
  replace (Z.of_nat (S n) - 1) with (Z.of_nat (S n) + Z.of_nat 0 - 1) by lia. rewrite Hgen by lia.
  change (10 ^ Z.of_nat 0) with 1. rewrite Z.mul_1_r. destruct s as [|c s]; cbn [fraction].
  - by rewrite (proj2 (Z.ltb_lt 0 (k + Z.of_nat (S n)))) by lia.
  - rewrite (Hs c s eq_refl). by rewrite (proj2 (Z.ltb_lt 0 (k + Z.of_nat (S n)))) by lia.
Qed.

Lemma expect_char c s : expect c (String c s) = Some s.
Proof. cbn [expect]. by rewrite Ascii.eqb_refl. Qed.
Lemma digits_read' n z s : 0 <= z < 10 ^ Z.of_nat n → fixed_digits n 0 (digits n z +:+ s) = Some (z, s).
Proof. intros H. by rewrite digits_read. Qed.

Lemma read_date y m d s :
  1 <= y <= 9999 → 1 <= m <= 12 → 1 <= d <= days_in_month y m →
  parse_date (digits 4 y +:+ "-" +:+ digits 2 m +:+ "-" +:+ digits 2 d +:+ s) = Some (days_from_civil y m d, s).
Proof.
  intros Hy Hm Hd. assert (days_in_month y m <= 31) by (unfold days_in_month; repeat case_match; lia).
  unfold parse_date. rewrite digits_read' by lia. cbn [mbind option_bind].
  change ("-" +:+ ?x) with (String "-" x). rewrite expect_char. cbn [mbind option_bind].
  rewrite digits_read' by lia. cbn [mbind option_bind]. change ("-" +:+ ?x) with (String "-" x). rewrite expect_char.
  cbn [mbind option_bind]. rewrite digits_read' by lia. cbn [mbind option_bind]. unfold between.
  rewrite !(proj2 (Z.leb_le _ _)) by lia. done.
Qed.
Lemma read_clock h mi sec us s :
  0 <= h < 24 → 0 <= mi < 60 → 0 <= sec < 60 → 0 <= us < 1000000 →
  (∀ c s', s = String c s' → digit_val c = None) → expect "." s = None →
  parse_clock (digits 2 h +:+ ":" +:+ digits 2 mi +:+ ":" +:+ digits 2 sec +:+
    (if us =? 0 then "" else "." +:+ digits 6 us) +:+ s) =
  Some (h * 3600000000 + mi * 60000000 + sec * 1000000 + us, s).
Proof.
  intros Hh Hmi Hsec Hus Hs Hdot. unfold parse_clock. rewrite digits_read' by lia. cbn [mbind option_bind].
  rewrite (proj2 (Z.ltb_lt h 24)) by lia. cbn [guard_ mbind option_bind]. change (":" +:+ ?x) with (String ":" x).
  rewrite expect_char. rewrite digits_read' by lia. cbn [mbind option_bind].
  rewrite (proj2 (Z.ltb_lt mi 60)) by lia. cbn [guard_ mbind option_bind]. change (":" +:+ ?x) with (String ":" x).
  rewrite expect_char. rewrite digits_read' by lia. cbn [mbind option_bind].
  rewrite (proj2 (Z.ltb_lt sec 60)) by lia. cbn [guard_ mbind option_bind].
  destruct (Z.eqb_spec us 0) as [->|Hne].
  - change ("" +:+ s) with s. rewrite Hdot. f_equal. f_equal. lia.
  - change (("." +:+ digits 6 us) +:+ s) with (String "." (digits 6 us +:+ s)). rewrite expect_char.
    change 100000 with (10 ^ (Z.of_nat 6 - 1)). rewrite fraction_digits by (done || lia). cbn [mbind option_bind].
    f_equal.
Qed.

(** Reading the text of an instant: its clock reading and the zero offset. *)
Lemma read_iso t : is_datetime t = true → fromisoformat (replace_zulu (_iso t)) = Some (t, Some 0).
Proof.
  unfold is_datetime, datetime_min, datetime_max. rewrite andb_true_iff, !Z.leb_le. intros Ht.
  unfold _iso. set (days := t / 86400000000). set (r := t mod 86400000000). cbv zeta.
  assert (Ert : t = 86400000000 * days + r) by (apply Z.div_mod; lia).
  assert (Hr : 0 <= r < 86400000000) by (apply Z.mod_pos_bound; lia). clearbody days r.
  pose proof (civil_days days) as Hc. destruct (civil_from_days days) as [[y m] d]. destruct Hc as (Hdays & Hm & Hd & Hy).
  specialize (Hy ltac:(lia)).
  assert (Eus : r mod 1000000 = r - 1000000 * (r / 1000000)) by (pose proof (Z.div_mod r 1000000 ltac:(lia)); lia).
  set (h := r / 3600000000). set (mi := r / 60000000 mod 60). set (sec := r / 1000000 mod 60). set (us := r mod 1000000).
  assert (Hclock : 0 <= h < 24 ∧ 0 <= mi < 60 ∧ 0 <= sec < 60 ∧ 0 <= us < 1000000 ∧
    h * 3600000000 + mi * 60000000 + sec * 1000000 + us = r).
  { unfold h, mi, sec, us. clear -Hr. Z.to_euclidean_division_equations; lia. }
  clearbody h mi sec us. destruct Hclock as (Hh & Hmi & Hsec & Hus & Er).
  rewrite !replace_zulu_app, !replace_zulu_digits.
  change (replace_zulu "-") with "-". change (replace_zulu "T") with "T". change (replace_zulu ":") with ":".
  change (replace_zulu "Z") with "+00:00".
  replace (replace_zulu (if us =? 0 then "" else "." +:+ digits 6 us)) with (if us =? 0 then "" else "." +:+ digits 6 us)
    by (destruct (us =? 0); [done|]; by rewrite replace_zulu_app, replace_zulu_digits).
  unfold fromisoformat. rewrite read_date by done. cbn [mbind option_bind]. change ("T" +:+ ?x) with (String "T" x).
  cbv iota beta. rewrite read_clock by (done || by intros c s' [= <- _]). cbn [mbind option_bind].
  change (parse_offset "+00:00") with (Some (Some 0)). cbn [mbind option_bind]. rewrite Hdays. repeat f_equal. lia.
Qed.

(** The text of an instant denotes that instant: reading [_iso t] gives [t] back, for
    every instant of the years 1 to 9999, leap days and fractions included. *)
Theorem iso_roundtrip t : is_datetime t = true → parse_instant (_iso t) = Ok t.
Proof. intros H. unfold parse_instant. rewrite read_iso by done. simpl. f_equal. lia. Qed.
Lemma iso_truthy t : str_truthy (_iso t) = true.
Proof.
  unfold _iso. cbv zeta. destruct (civil_from_days _) as [[y m] d]. cbn [digits].
  change ("" +:+ ?x) with x. reflexivity.
Qed.
Lemma iso_roundtrip_witness :
  let t := 951782400123000 in is_datetime t = true ∧ _iso t = "2000-02-29T00:00:00.123000Z" ∧ parse_instant (_iso t) = Ok t.
Proof. cbv zeta. split; [reflexivity|]. split; [reflexivity|]. apply (iso_roundtrip 951782400123000). reflexivity. Defined.

(** ** Times of events (east-west-detectors/app.py, behavioral-detectors/app.py)

    Sensor timestamps as instants in microseconds, and the texts of instants in
    findings. *)

(** [+0000] at the end of a text becomes [+00:00]. *)
Definition fix_offset (s : string) : string :=
  match rev_string s with
  | String d (String c (String b (String a (String sgn r)))) =>
      if is_digit d && is_digit c && is_digit b && is_digit a && one_of "+-" sgn
      then rev_string r +:+ String sgn (String a (String b ":")) +:+ String c (String d "")
      else s
  | _ => s
  end.
Definition iso_epoch (s : string) : option Z :=
  '(local, o) ← fromisoformat (fix_offset (replace_zulu s)); Some (local - default 0 o).
(** [v.get(k)] *)
Definition get_of (k : string) (v : val) : res val :=
  match v with VDict d => Ok (dgetN k d) | _ => Raise AttributeError end.
Definition civil_clock (t : Z) : string :=
  let '(y, m, d) := civil_from_days (t / 86400000000) in
  let r := t mod 86400000000 in
  digits 4 y +:+ "-" +:+ digits 2 m +:+ "-" +:+ digits 2 d +:+ "T" +:+ digits 2 (r / 3600000000) +:+ ":" +:+
  digits 2 (r / 60000000 mod 60) +:+ ":" +:+ digits 2 (r / 1000000 mod 60).
Definition _rfc3339 (t : Z) : string := civil_clock t +:+ "." +:+ digits 6 (t mod 1000000) +:+ "Z".
Definition emitted_text (t : Z) : string := civil_clock t +:+ "Z".
(** [datetime.isoformat()] of a UTC datetime. *)
Definition isoformat (t : Z) : string :=
  civil_clock t +:+ (if t mod 1000000 =? 0 then "" else "." +:+ digits 6 (t mod 1000000)) +:+ "+00:00".
Lemma isoformat_zulu t : isoformat t = replace_zulu (_iso t).
Proof.
  unfold isoformat, civil_clock, _iso. cbv zeta. destruct (civil_from_days _) as [[y m] d].
  assert (E : (t mod 86400000000) mod 1000000 = t mod 1000000) by (clear; Z.to_euclidean_division_equations; lia).
  rewrite E. clear E. rewrite !replace_zulu_app, !replace_zulu_digits, !sapp_assoc. do 11 f_equal.
  destruct (t mod 1000000 =? 0); [done|]. by rewrite replace_zulu_app, replace_zulu_digits.
Qed.
Lemma replace_zulu_idemp s : replace_zulu (replace_zulu s) = replace_zulu s.
Proof.
  induction s as [|c s IH]; [done|]. cbn [replace_zulu]. destruct (Ascii.eqb c "Z") eqn:E; [by rewrite replace_zulu_app, IH|].
  cbn [replace_zulu]. by rewrite E, IH.
Qed.
(** The text of an instant is read back, its zero offset included. *)
Lemma read_isoformat t : is_datetime t = true → fromisoformat (fix_offset (replace_zulu (isoformat t))) = Some (t, Some 0).
Proof.
  intros H. rewrite isoformat_zulu, replace_zulu_idemp, <- (read_iso t H). f_equal. rewrite <- isoformat_zulu. unfold isoformat, fix_offset.
  rewrite <- sapp_assoc. unfold rev_string. rewrite rev_sapp. change (String.rev "+00:00") with "00:00+". reflexivity.
Qed.
