(* ===== verification/EvidencePaging.v ===== *)
(** * The evidence query and its paging (services/evidence-service/query.py,
    [Sources.observations] of services/investigation-service/queries.py)

    A query is the conjunction of conditions the SQL text carries, ordered by
    (normalized_time, obs_id) and limited.  The database answers it ([client]); what is
    relied on is that an answer is the start of the sorted matching rows of the view.
    Times are instants in microseconds.  A datetime is a parameter of the query: [dt64] is
    what the database client binds for it.  What is relied on is that it rounds down to
    whole units, the unit being a second or a part of one: the client documents seconds for
    a datetime that is given as it is, and milliseconds or microseconds for its own
    DateTime64 parameters, which the code does not use. *)

From S2P Require Import Prelude Order PyVal PyString PyTime IsoTime Json.
Set Default Proof Using "Type".

(** A row of [ndr.evidence_observations]. *)
Record erow := {
  e_tenant : string; e_obs_id : string; e_time : Z; e_entities : list string; e_type : string;
  e_observation : dict
}.
Definition row_key (r : erow) : Z * string := (e_time r, e_obs_id r).

Definition OBS_TYPES : list string := ["conn"; "dns"; "tls"; "http"; "file"].
Definition MAX_PAGE_SIZE : Z := 1000.
Definition DEFAULT_PAGE_SIZE : Z := 500.
Definition MAX_WINDOW : Z := 86400000000.

(** ** Parameters of a request *)

Definition grants_for_token (tokens : list (string * list string)) (auth_header : option string) : option (list string) :=
  match auth_header with
  | Some h => if starts_with "Bearer " h
              then let token := drop_chars 7 h in if str_truthy token then assoc token tokens else None
              else None
  | None => None
  end.

(** [_parse_ts]; an instant out of a datetime's range overflows. *)
Definition _parse_ts (s : string) : res Z :=
  t ← parse_instant s; check (is_datetime t) OverflowError;; Ok t.
Definition parse_window (frm to : string) : res (Z * Z) :=
  check (str_truthy frm && str_truthy to) ValueError;;
  a ← _parse_ts frm;
  b ← _parse_ts to;
  check (a <? b) ValueError;;
  Ok (a, b).
Definition clamp_page_size (raw : val) : res Z :=
  match raw with
  | VNone => Ok DEFAULT_PAGE_SIZE
  | VStr "" => Ok DEFAULT_PAGE_SIZE
  | _ =>
      n ← match py_int raw with Ok n => Ok n | Raise TypeError => Raise ValueError | Raise e => Raise e end;
      check (1 <=? n) ValueError;;
      Ok (Z.min n MAX_PAGE_SIZE)
  end.
Definition entity_char (c : ascii) : bool := is_alnum c || one_of "_.:%-[]" c.
(** The pattern's [$] also matches before a final newline. *)
Definition validate_entity (entity : string) : res string :=
  let body := if ends_with (String "010" "") entity then take_chars (String.length entity - 1) entity else entity in
  let n := Z.of_nat (String.length body) in
  check ((1 <=? n) && (n <=? 255) && string_forallb entity_char body) ValueError;;
  Ok entity.
Definition validate_type (obs_type : option string) : res (option string) :=
  match obs_type with
  | None | Some "" => Ok None
  | Some t => check (mem t OBS_TYPES) ValueError;; Ok (Some t)
  end.
Definition hex_lower (c : ascii) : bool := is_digit c || between 97 102 (code c).
Definition hash_text (s : string) : bool :=
  mem (Z.of_nat (String.length s)) [32; 40; 64] && string_forallb hex_lower s.
Definition validate_hash (file_hash : option string) : res (option string) :=
  match file_hash with
  | None | Some "" => Ok None
  | Some h =>
      let h := lower h in
      let body := if ends_with (String "010" "") h then take_chars (String.length h - 1) h else h in
      check (hash_text body) ValueError;;
      Ok (Some h)
  end.

(** ** The query *)

Inductive cond :=
| tenant_in (tenants : list string)
| before (until : Z)
| after_key (frm : Z) (after : string)
| has_entity (entity : string)
| type_is (t : string)
| has_hash (h : string).
Record equery := { q_where : list cond; q_limit : Z }.

Definition build_query (grants : list string) (entity : option string) (frm until : Z) (obs_type : option string)
    (page_size : Z) (after : string) (file_hash : option string) : equery :=
  {| q_where :=
       [tenant_in grants; before until; after_key frm after]
       ++ match entity with Some e => [has_entity e] | None => [] end
       ++ (if ostr_truthy obs_type then match obs_type with Some t => [type_is t] | None => [] end else [])
       ++ match file_hash with Some h => [has_hash h] | None => [] end;
     q_limit := page_size + 1 |}.

(** [JSONExtractString(observation, 'fields', 'file', k)] *)
Definition file_slot (o : dict) (k : string) : string :=
  match dgetN "fields" o with
  | VDict f => match dgetN "file" f with VDict g => match dgetN k g with VStr s => s | _ => "" end | _ => "" end
  | _ => ""
  end.
Section client.
Context (dt64 : Z → Z).

Definition holds (r : erow) (c : cond) : bool :=
  match c with
  | tenant_in ts => mem (e_tenant r) ts
  | before t => e_time r <? dt64 t
  | after_key t a => (dt64 t <? e_time r) || ((e_time r =? dt64 t) && ltb a (e_obs_id r))
  | has_entity e => mem e (e_entities r)
  | type_is t => String.eqb (e_type r) t
  | has_hash h => mem h (file_slot (e_observation r) <$> ["sha256"; "sha1"; "md5"])
  end.
Definition matching (q : equery) (view : list erow) : list erow :=
  List.filter (λ r, forallb (holds r) (q_where q)) view.
(** ORDER BY normalized_time, obs_id LIMIT n: any sorted arrangement, cut. *)
Definition answers (view : list erow) (q : equery) (rows : list erow) : Prop :=
  ∃ sorted, sorted ≡ₚ matching q view ∧ StronglySorted (key_le row_key) sorted ∧
    rows = take (Z.to_nat (q_limit q)) sorted.

Context (client : equery → res (list erow)).

(** ** One page *)

Record page := { p_observations : list dict; p_capabilities : list string; p_next : option (string * string) }.

Definition string_of (v : val) : res string := match v with VStr s => Ok s | _ => Raise TypeError end.
Fixpoint mapM_res {A B} (f : A → res B) (l : list A) : res (list B) :=
  match l with [] => Ok [] | x :: l => y ← f x; ys ← mapM_res f l; Ok (y :: ys) end.
Definition capabilities_of (o : dict) : res (list string) :=
  l ← as_list (dget_or "capabilities" (VList []) o); mapM_res string_of l.
(** [sorted({...})] *)
Definition capability_union (os : list dict) : res (list string) :=
  ls ← mapM_res capabilities_of os; Ok (isort id (remove_dups (mjoin ls))).

Definition fetch_observations (grants : list string) (entity : option string) (frm to : Z) (obs_type : option string)
    (page_size : Z) (after : string) (file_hash : option string) : res page :=
  check (is_datetime (frm + MAX_WINDOW)) OverflowError;;
  let capped := Z.min to (frm + MAX_WINDOW) in
  rows ← client (build_query grants entity frm capped obs_type page_size after file_hash);
  let full := page_size <? Z.of_nat (length rows) in
  let rows := if full then take (Z.to_nat page_size) rows else rows in
  next ← (if full then
            match last rows with
            | Some r => Ok (Some (e_time r, e_obs_id r))
            | None => Raise IndexError
            end
          else Ok (if capped <? to then Some (capped, "") else None));
  let observations := e_observation <$> rows in
  caps ← capability_union observations;
  Ok {| p_observations := observations; p_capabilities := caps;
        p_next := match next with Some (t, a) => Some (_iso t, a) | None => None end |}.

Definition fetch_hunt_page (tenant frm to : string) (page_size : Z) (after : string) : res page :=
  check (str_truthy tenant) ValueError;;
  '(frm, to) ← parse_window frm to;
  page_size ← clamp_page_size (VInt page_size);
  fetch_observations [tenant] None frm to None page_size after None.

(** ** Reading a whole window (the investigation's snapshot) *)

Definition MAX_RECORDS : Z := 10000.
Definition observations_query (tenant entity : string) (frm to : Z) (after : string) : res page :=
  fetch_observations [tenant] (Some entity) frm to (Some "dns") 1000 after None.
Fixpoint observations_loop (fuel : nat) (tenant entity : string) (frm to : Z) (after : string) (rows : list dict) :
    option (res (list dict)) :=
  match fuel with
  | O => None
  | S fuel =>
      match observations_query tenant entity frm to after with
      | Raise e => Some (Raise e)
      | Ok p =>
          let rows := rows ++ p_observations p in
          if MAX_RECORDS <? Z.of_nat (length rows) then Some (Raise ValueError)
          else
            match p_next p with
            | None => Some (Ok rows)
            | Some (nxt, cursor) =>
                match _parse_ts nxt with
                | Raise e => Some (Raise e)
                | Ok nxt =>
                    if leb (nxt, cursor) (frm, after) then Some (Raise OtherError)
                    else observations_loop fuel tenant entity nxt to cursor rows
                end
            end
      end
  end.
Definition observations (fuel : nat) (tenant entity : string) (window : string * string) : option (res (list dict)) :=
  match parse_window window.1 window.2 with
  | Raise e => Some (Raise e)
  | Ok (frm, to) => observations_loop fuel tenant entity frm to "" []
  end.

(** ** The HTTP handler (services/evidence-service/app.py)

    [q] holds the first value of each query parameter.  The audit event names the actor
    by a digest of the token. *)
Inductive response :=
| healthy | not_found | unauthorized | bad_request (why : exn) | unavailable | served (p : page) | crashed (e : exn).
Record audit_event := {
  au_actor : string; au_tenants : list string; au_outcome : string; au_returned : option nat
}.
Context (sha256 : string → string).
Definition _actor (auth_header : string) : option string :=
  if starts_with "Bearer " auth_header
  then let token := drop_chars 7 auth_header in
       if str_truthy token then Some ("token:" +:+ take_chars 12 (sha256 token)) else None
  else None.
Definition _audit (actor : option string) (tenants : list string) (outcome : string) (returned : option nat) : audit_event :=
  {| au_actor := default "anonymous" actor; au_tenants := tenants; au_outcome := outcome; au_returned := returned |}.

Record request := {
  rq_entity : string; rq_window : Z * Z; rq_type : option string; rq_hash : option string; rq_size : Z; rq_after : string
}.
Definition param (q : list (string * string)) (k : string) : string := default "" (assoc k q).
Definition read_params (q : list (string * string)) : res request :=
  entity ← validate_entity (param q "entity");
  w ← parse_window (param q "from") (param q "to");
  t ← validate_type (assoc "type" q);
  h ← validate_hash (assoc "hash" q);
  n ← clamp_page_size (match assoc "page_size" q with Some s => VStr s | None => VNone end);
  Ok {| rq_entity := entity; rq_window := w; rq_type := t; rq_hash := h; rq_size := n; rq_after := param q "after" |}.

Definition do_GET (tokens : list (string * list string)) (path auth : string) (q : list (string * string)) :
    response * list audit_event :=
  if String.eqb path "/healthz" then (healthy, [])
  else
    let actor := _actor auth in
    match grants_for_token tokens (Some auth) with
    | None => (unauthorized, [_audit actor [] "denied" None])
    | Some grants =>
        if negb (String.eqb path "/observations") then (not_found, [])
        else
          match read_params q with
          | Raise ValueError => (bad_request ValueError, [_audit actor grants "bad_request" None])
          | Raise e => (crashed e, [])
          | Ok rq =>
              match fetch_observations grants (Some (rq_entity rq)) (rq_window rq).1 (rq_window rq).2 (rq_type rq)
                      (rq_size rq) (rq_after rq) (rq_hash rq) with
              | Raise e => (unavailable, [_audit actor grants "error" None])
              | Ok p => (served p, [_audit actor grants "success" (Some (length (p_observations p)))])
              end
          end
    end.
End client.

(** ** Facts *)

Lemma filter_split {A} (R : A → A → Prop) (B : A → bool) (l : list A) :
  StronglySorted R l → (∀ x y, R x y → B y = true → B x = true) →
  List.filter B l ++ List.filter (λ x, negb (B x)) l = l.
Proof.
  induction 1 as [|x l Hs IH Hall]; intros HB; simpl; [done|]. specialize (IH HB). destruct (B x) eqn:E; simpl.
  - by rewrite IH.
  - assert (List.filter B l = []) as E'.
    { clear IH. induction Hall as [|y l Hy Hall IH]; [done|]. inversion Hs as [|? ? Hs' _]; subst. simpl.
      destruct (B y) eqn:Ey; [by rewrite (HB x y) in E|]. auto. }
    rewrite E' in IH |- *. simpl in *. by rewrite IH.
Qed.
Lemma filter_ext_in' {A} (P Q : A → bool) l : (∀ x, x ∈ l → P x = Q x) → List.filter P l = List.filter Q l.
Proof. intros H. apply List.filter_ext_in. intros x Hx. by apply H, list_elem_of_In. Qed.
Lemma filter_sorted {A} (R : A → A → Prop) (P : A → bool) l : StronglySorted R l → StronglySorted R (List.filter P l).
Proof.
  induction 1 as [|x l Hs IH Hall]; simpl; [constructor|]. destruct (P x); [|done]. constructor; [done|].
  apply Forall_forall. intros y [Hy _]%list_elem_of_In%filter_In. rewrite Forall_forall in Hall. by apply Hall, list_elem_of_In.
Qed.
Lemma filter_perm {A} (P : A → bool) l l' : l ≡ₚ l' → List.filter P l ≡ₚ List.filter P l'.
Proof.
  induction 1 as [|x l l' _ IH|x y l|l1 l2 l3 _ IH1 _ IH2]; simpl; [done| | |by rewrite IH1].
  - destruct (P x); [by rewrite IH|done].
  - destruct (P x), (P y); try done. apply Permutation_swap.
Qed.
Lemma filter_keys_nodup {A K} (key : A → K) (P : A → bool) l : NoDup (key <$> l) → NoDup (key <$> List.filter P l).
Proof. intros H. eapply sublist_NoDup; [exact H|]. apply fmap_sublist, filter_sublist. Qed.

(** In a strictly sorted list, what is above an element is what follows it. *)
Lemma strict_after (l l' : list erow) r :
  StronglySorted (λ x y, ltb (row_key x) (row_key y) = true) (l ++ r :: l') →
  List.filter (λ x, ltb (row_key r) (row_key x)) (l ++ r :: l') = l'.
Proof.
  induction l as [|x l IH]; simpl; intros Hs; inversion Hs as [|? ? Hs' Hall]; subst.
  - rewrite ltb_irrefl. clear Hs Hs'. induction Hall as [|y l' Hy Hall IH]; simpl; [done|]. by rewrite Hy, IH.
  - rewrite Forall_forall in Hall. assert (Hx : ltb (row_key x) (row_key r) = true) by (apply Hall; set_solver).
    rewrite ltb_leb, (ltb_weaken _ _ Hx). simpl. by apply IH.
Qed.

Section facts.
Context (dt64 : Z → Z) (client : equery → res (list erow)) (view : list erow).
Context (grants : list string) (entity : option string) (obs_type : option string) (file_hash : option string).

Definition scope : list cond :=
  tenant_in grants :: match entity with Some e => [has_entity e] | None => [] end
  ++ (if ostr_truthy obs_type then match obs_type with Some t => [type_is t] | None => [] end else [])
  ++ match file_hash with Some h => [has_hash h] | None => [] end.
Definition scoped (r : erow) : bool := forallb (holds dt64 r) scope.
(** The rows a reader asks for, in the order it gets them. *)
Definition in_scope : list erow := isort row_key (List.filter scoped view).
Definition range (frm : Z) (after : string) (to : Z) (r : erow) : bool :=
  ltb (frm, after) (row_key r) && (e_time r <? to).
Definition upcoming (frm : Z) (after : string) (to : Z) : list erow := List.filter (range frm after to) in_scope.

(** What is relied on: times are bound rounded down to whole units, answers answer, rows
    have distinct (time, identifier) pairs, identifiers, and list their capabilities. *)
Definition wf_view : Prop :=
  NoDup (row_key <$> List.filter scoped view) ∧
  ∀ r, r ∈ view → e_obs_id r ≠ "" ∧ is_ok (capabilities_of (e_observation r)) = true.
(** A time that is bound as it is. *)
Definition exact (t : Z) : Prop := dt64 t = t.
Context (unit_ : Z) (unit_pos : 0 < unit_) (unit_second : (unit_ | 1000000)).
Context (dt64_floor : ∀ t, dt64 t = t - t mod unit_).
Context (client_answers : ∀ q rows, client q = Ok rows → answers dt64 view q rows).
Context (view_ok : wf_view).

Lemma dt_le t : dt64 t <= t.
Proof using unit_pos dt64_floor. rewrite dt64_floor. pose proof (Z.mod_pos_bound t unit_ unit_pos). lia. Qed.
Lemma dt_mono a b : a <= b → dt64 a <= dt64 b.
Proof using unit_pos dt64_floor.
  intros H. rewrite !dt64_floor. pose proof (Z.div_le_mono a b unit_ unit_pos H).
  pose proof (Z.div_mod a unit_ ltac:(lia)). pose proof (Z.div_mod b unit_ ltac:(lia)). nia.
Qed.
Lemma dt_exact t : exact (dt64 t).
Proof using unit_pos dt64_floor.
  unfold exact. rewrite !dt64_floor. rewrite Zminus_mod_idemp_r, Z.sub_diag, Z.mod_0_l by lia. lia.
Qed.
Lemma dt_day t : dt64 (t + MAX_WINDOW) = dt64 t + MAX_WINDOW.
Proof using unit_pos unit_second dt64_floor.
  rewrite !dt64_floor. destruct unit_second as [k Hk]. replace MAX_WINDOW with (86400 * k * unit_) by (unfold MAX_WINDOW; lia).
  rewrite Z.mod_add by lia. lia.
Qed.

Lemma ltb_pair (a b : Z) (s t : string) : ltb (a, s) (b, t) = (a <? b) || ((b =? a) && ltb s t).
Proof.
  clear. unfold ltb at 1. cbn [cmp cmp_pair]. unfold pair_cmp. cbn [fst snd cmp cmp_Z].
  destruct (Z.compare_spec a b) as [->|H|H].
  - rewrite Z.ltb_irrefl, Z.eqb_refl. unfold ltb. simpl. by destruct (String.compare s t).
  - by rewrite (proj2 (Z.ltb_lt a b) H).
  - assert ((a <? b) = false) as -> by (apply Z.ltb_ge; lia). assert ((b =? a) = false) as -> by (apply Z.eqb_neq; lia). done.
Qed.
Lemma in_scope_elem r : r ∈ in_scope → r ∈ view ∧ scoped r = true.
Proof. clear. unfold in_scope. rewrite elem_of_isort. intros [H1 H2]%list_elem_of_In%filter_In. by rewrite list_elem_of_In. Qed.
Lemma in_scope_nodup : NoDup (row_key <$> in_scope).
Proof using view_ok. unfold in_scope. rewrite isort_perm. apply view_ok. Qed.
Lemma in_scope_strict : StronglySorted (λ x y, ltb (row_key x) (row_key y) = true) in_scope.
Proof using view_ok.
  pose proof in_scope_nodup as Hnd. pose proof (isort_sorted row_key (List.filter scoped view)) as Hs.
  fold in_scope in Hs. induction Hs as [|x l Hs IH Hall]; [constructor|].
  rewrite fmap_cons, NoDup_cons in Hnd. destruct Hnd as [Hx Hnd]. constructor; [by apply IH|].
  apply Forall_forall. intros y Hy. rewrite Forall_forall in Hall. specialize (Hall y Hy). unfold key_le in Hall.
  rewrite ltb_leb. apply negb_true_iff, not_true_iff_false. intros Hle. apply Hx.
  rewrite (leb_antisym _ _ Hall Hle). by apply list_elem_of_fmap_2.
Qed.

(** The conditions of a query are the scope and the range of what is bound. *)
Lemma matching_build frm to ps after :
  matching dt64 (build_query grants entity frm to obs_type ps after file_hash) view =
  List.filter (λ r, scoped r && range (dt64 frm) after (dt64 to) r) view.
Proof.
  clear. apply filter_ext_in'. intros r _. cbn [build_query q_where]. unfold scoped, scope, range, row_key.
  rewrite ltb_pair. rewrite !forallb_app. cbn [forallb]. cbn [holds]. rewrite !forallb_app.
  destruct (mem _ _), (e_time r <? dt64 to), (dt64 frm <? e_time r), ((e_time r =? dt64 frm) && _); cbn [andb orb];
    rewrite ?andb_true_r, ?andb_false_r; done.
Qed.
Lemma answer_rows frm to ps after rows :
  0 <= ps → client (build_query grants entity frm to obs_type ps after file_hash) = Ok rows →
  rows = take (S (Z.to_nat ps)) (upcoming (dt64 frm) after (dt64 to)).
Proof using client_answers view_ok.
  intros Hps H. apply client_answers in H as (sorted & Hp & Hs & ->). cbn [build_query q_limit].
  replace (Z.to_nat (ps + 1)) with (S (Z.to_nat ps)) by lia. f_equal. rewrite matching_build in Hp.
  assert (Hu : upcoming (dt64 frm) after (dt64 to) ≡ₚ List.filter (λ r, scoped r && range (dt64 frm) after (dt64 to) r) view).
  { unfold upcoming, in_scope. rewrite (filter_perm _ _ _ (isort_perm row_key _)). by rewrite filter_filter. }
  apply (sorted_perm_unique row_key).
  - rewrite Hp, <- Hu. apply filter_keys_nodup, in_scope_nodup.
  - done.
  - apply filter_sorted, isort_sorted.
  - by rewrite Hp, Hu.
Qed.
Lemma upcoming_elem frm after to r :
  r ∈ upcoming frm after to ↔ r ∈ in_scope ∧ ltb (frm, after) (row_key r) = true ∧ e_time r < to.
Proof.
  clear. unfold upcoming, range. rewrite list_elem_of_In, filter_In, <- list_elem_of_In, andb_true_iff. by rewrite Z.ltb_lt.
Qed.
(** What comes after a position comes after what is bound for it. *)
Lemma bound_before t a r : ltb (t, a) (row_key r) = true → ltb (dt64 t, a) (row_key r) = true.
Proof using unit_pos dt64_floor.
  unfold row_key. rewrite !ltb_pair. pose proof (dt_le t) as Hle. destruct (Z.ltb_spec (dt64 t) (e_time r)) as [|Hge]; [done|].
  destruct (Z.ltb_spec t (e_time r)); [lia|]. cbn [orb]. intros [E%Z.eqb_eq ->]%andb_true_iff. rewrite (proj2 (Z.eqb_eq _ _)) by lia. done.
Qed.

(** A window splits at any boundary in it. *)
Lemma upcoming_split frm after mid to :
  frm < mid → mid <= to → upcoming frm after to = upcoming frm after mid ++ upcoming mid "" to.
Proof using view_ok.
  intros H1 H2. unfold upcoming at 1. set (U := List.filter (range frm after to) in_scope).
  rewrite <- (filter_split (λ x y, ltb (row_key x) (row_key y) = true) (λ r, e_time r <? mid) U).
  - unfold U. rewrite !filter_filter. f_equal; apply filter_ext_in'; intros r Hr; unfold range, row_key; rewrite !ltb_pair.
    + destruct (Z.ltb_spec (e_time r) mid), (Z.ltb_spec (e_time r) to); rewrite ?andb_true_r, ?andb_false_r; try done; lia.
    + apply in_scope_elem in Hr as [Hr _]. apply view_ok in Hr as (Hid & _).
      assert (Hpos : ltb "" (e_obs_id r) = true) by (unfold ltb; simpl; by destruct (e_obs_id r)).
      rewrite Hpos. destruct (Z.ltb_spec (e_time r) mid), (Z.ltb_spec (e_time r) to), (Z.ltb_spec mid (e_time r)),
        (Z.ltb_spec frm (e_time r)), (Z.eqb_spec (e_time r) mid), (Z.eqb_spec (e_time r) frm); simpl;
        rewrite ?andb_true_r, ?andb_false_r; try done; lia.
  - apply filter_sorted, in_scope_strict.
  - intros x y Hxy. unfold row_key in Hxy. rewrite ltb_pair in Hxy. rewrite !Z.ltb_lt. intros Hy.
    destruct (Z.ltb_spec (e_time x) (e_time y)); [lia|]. simpl in Hxy. apply andb_true_iff in Hxy as [Hxy%Z.eqb_eq _]. lia.
Qed.
(** Resuming after the row at which a page ends gives what the page left. *)
Lemma upcoming_resume frm after to n r :
  last (take n (upcoming frm after to)) = Some r →
  upcoming (e_time r) (e_obs_id r) to = drop n (upcoming frm after to) ∧
  ltb (frm, after) (row_key r) = true ∧ e_time r < to ∧ r ∈ view.
Proof using view_ok.
  intros Hl. set (U := upcoming frm after to) in *.
  assert (Hr : r ∈ take n U) by by apply last_Some_elem_of.
  assert (Hin : r ∈ U) by (eapply elem_of_sublist; [exact Hr|apply sublist_take]).
  pose proof Hin as Hin'. unfold U, upcoming in Hin'. apply list_elem_of_In, filter_In in Hin' as [HinS Hrng].
  apply list_elem_of_In, in_scope_elem in HinS as [Hv _]. unfold range in Hrng. apply andb_true_iff in Hrng as [Hgt Hlt%Z.ltb_lt].
  split; [|by split_and!].
  assert (HsU : StronglySorted (λ x y, ltb (row_key x) (row_key y) = true) U) by apply filter_sorted, in_scope_strict.
  transitivity (List.filter (λ x, ltb (row_key r) (row_key x)) U).
  { unfold U, upcoming. rewrite filter_filter. apply filter_ext_in'. intros x _. unfold range.
    change (e_time r, e_obs_id r) with (row_key r). destruct (ltb (row_key r) (row_key x)) eqn:E; [|by rewrite !andb_false_r].
    by rewrite (ltb_trans _ _ _ Hgt E), !andb_true_r. }
  apply last_Some in Hl as [l' Hl]. rewrite <- (take_drop n U), Hl in HsU. rewrite <- (take_drop n U) at 1.
  rewrite Hl, <- app_assoc in *. by apply strict_after.
Qed.

(** One page, against all that comes after the bound position: a full page ends at the row
    that the next position names; another leaves what comes after the bound end of its day. *)
Lemma page_spec frm after to ps p :
  exact to → frm < to → 1 <= ps →
  fetch_observations client grants entity frm to obs_type ps after file_hash = Ok p →
  let V := upcoming (dt64 frm) after to in
  ∃ n, p_observations p = e_observation <$> take n V ∧
    match p_next p with
    | None => drop n V = []
    | Some (s, a) => ∃ t, s = _iso t ∧ t < to ∧
        ((∃ r, n = Z.to_nat ps ∧ (n < length V)%nat ∧ last (take n V) = Some r ∧ (t, a) = row_key r ∧ upcoming t a to = drop n V) ∨
         a = "" ∧ t = frm + MAX_WINDOW ∧ upcoming (dt64 t) "" to = drop n V)
    end.
Proof using unit_pos unit_second dt64_floor client_answers view_ok.
  intros Ht Hlt Hps H. cbv zeta. unfold fetch_observations in H. apply bind_ok_inv in H as ([] & _ & H).
  set (capped := Z.min to (frm + MAX_WINDOW)) in *. pose proof (dt_le frm) as Hdf. pose proof (dt_le capped) as Hdc.
  assert (Hfc : dt64 frm < dt64 capped ∧ dt64 capped <= to ∧ (capped < to → capped = frm + MAX_WINDOW) ∧ (to <= capped → capped = to)).
  { unfold capped in *. destruct (Z.min_spec to (frm + MAX_WINDOW)) as [[Hm ->]|[Hm ->]].
    - unfold exact in Ht. lia.
    - rewrite dt_day in *. unfold MAX_WINDOW in *. lia. }
  destruct Hfc as (Hfc & Hct & Hcase & Hcase').
  apply bind_ok_inv in H as (rows & Hrows & H). apply answer_rows in Hrows; [|lia].
  assert (Hsplit : upcoming (dt64 frm) after to =
    upcoming (dt64 frm) after (dt64 capped) ++ (if capped <? to then upcoming (dt64 capped) "" to else [])).
  { destruct (Z.ltb_spec capped to) as [Hc|Hc]; [by apply upcoming_split|]. rewrite (Hcase' Hc), Ht. by rewrite app_nil_r. }
  set (U := upcoming (dt64 frm) after (dt64 capped)) in *. set (full := ps <? Z.of_nat (length rows)) in *. cbv zeta in H.
  apply bind_ok_inv in H as (next & Hnext & H). apply bind_ok_inv in H as (caps & _ & [= <-]). cbn [p_observations p_next].
  destruct full eqn:Efull; unfold full in Efull.
  - apply Z.ltb_lt in Efull. assert (HU : (Z.to_nat ps < length U)%nat) by (rewrite Hrows, length_take in Efull; lia).
    assert (Htake : take (Z.to_nat ps) rows = take (Z.to_nat ps) U) by (rewrite Hrows, take_take; f_equal; lia).
    rewrite Htake in *. exists (Z.to_nat ps). rewrite Hsplit, take_app_le, drop_app_le by lia. split; [done|].
    destruct (last (take (Z.to_nat ps) U)) as [r|] eqn:El; [|done]. injection Hnext as <-.
    exists (e_time r). pose proof (upcoming_resume (dt64 frm) after (dt64 capped) (Z.to_nat ps) r El) as (Hres & Hgt & Hlt' & Hv).
    split; [done|]. split; [lia|]. left. exists r. split_and!; [done|rewrite length_app; lia|done|done|].
    fold U in Hres. rewrite <- Hres. destruct (Z.ltb_spec capped to) as [Hc|Hc].
    + by apply upcoming_split.
    + rewrite (Hcase' Hc), Ht. by rewrite app_nil_r.
  - apply Z.ltb_ge in Efull. assert (HU : rows = U).
    { rewrite Hrows. apply take_ge. rewrite Hrows, length_take in Efull. lia. }
    subst rows. exists (length U). rewrite Hsplit, take_app_length, drop_app_length. split; [by rewrite HU|].
    destruct (Z.ltb_spec capped to) as [Hc|Hc]; injection Hnext as <-; [|done].
    exists capped. split; [done|]. split; [done|]. right. split; [done|]. split; [by apply Hcase|done].
Qed.

(** A page is returned whenever the database answers. *)
Lemma mapM_res_ok {A B} (f : A → res B) l : (∀ x, x ∈ l → is_ok (f x) = true) → is_ok (mapM_res f l) = true.
Proof.
  clear. induction l as [|x l IH]; intros H; [done|]. cbn [mapM_res].
  assert (Hx : is_ok (f x) = true) by (apply H; left). destruct (f x); [|done]. cbn [mbind res_bind].
  assert (Hl : is_ok (mapM_res f l) = true) by (apply IH; intros; apply H; by right). by destruct (mapM_res f l).
Qed.
Lemma page_total frm after to ps :
  frm < to → 1 <= ps → is_datetime frm = true → to + MAX_WINDOW <= datetime_max →
  (∀ q, is_ok (client q) = true) →
  is_ok (fetch_observations client grants entity frm to obs_type ps after file_hash) = true.
Proof using client_answers view_ok.
  intros Hlt Hps Hd Hmax Hc. unfold fetch_observations. set (capped := Z.min to (frm + MAX_WINDOW)).
  assert (Hdt : is_datetime (frm + MAX_WINDOW) = true).
  { unfold is_datetime, MAX_WINDOW in *. rewrite andb_true_iff, !Z.leb_le in *. lia. }
  rewrite Hdt. cbn [check mbind res_bind]. specialize (Hc (build_query grants entity frm capped obs_type ps after file_hash)).
  destruct (client _) as [rows|e] eqn:Erows; [|done]. cbn [mbind res_bind].
  apply answer_rows in Erows; [|lia].
  assert (Hsub : ∀ r, r ∈ rows → r ∈ view).
  { intros r Hr. rewrite Erows in Hr. eapply elem_of_sublist in Hr; [|apply sublist_take].
    unfold upcoming in Hr. apply list_elem_of_In, filter_In in Hr as [Hr _]. by apply list_elem_of_In, in_scope_elem in Hr as [? _]. }
  assert (Hcaps : ∀ l, l ⊆ rows → is_ok (capability_union (e_observation <$> l)) = true).
  { intros l Hl. unfold capability_union. assert (Hm : is_ok (mapM_res capabilities_of (e_observation <$> l)) = true).
    { apply mapM_res_ok. intros o (r & -> & Hr)%list_elem_of_fmap. apply view_ok. by apply Hsub, Hl. }
    by destruct (mapM_res _ _). }
  destruct (Z.ltb_spec ps (Z.of_nat (length rows))) as [Hfull|Hfull].
  - destruct (last (take (Z.to_nat ps) rows)) as [r|] eqn:El.
    + cbn [mbind res_bind]. specialize (Hcaps (take (Z.to_nat ps) rows)). destruct (capability_union _); [done|].
      apply Hcaps. intros x Hx. eapply elem_of_sublist; [exact Hx|apply sublist_take].
    + apply last_None in El. apply (f_equal length) in El. rewrite length_take in El. simpl in El. lia.
  - cbn [mbind res_bind]. specialize (Hcaps rows). destruct (capability_union _); [done|]. by apply Hcaps.
Qed.
Lemma datetime_between a b t : is_datetime a = true → is_datetime b = true → a <= t <= b → is_datetime t = true.
Proof. clear. unfold is_datetime. rewrite !andb_true_iff, !Z.leb_le. lia. Qed.
Lemma parse_iso t : is_datetime t = true → _parse_ts (_iso t) = Ok t.
Proof. clear. intros H. unfold _parse_ts. rewrite iso_roundtrip by done. cbn. by rewrite H. Qed.
End facts.

(** ** The investigation's read of a window *)

Section window.
Context (client : equery → res (list erow)) (tenant entity : string).
Abbreviation loop := (observations_loop client).

(** How many more pages a read can take. *)
Definition pages_left (frm to : Z) (rows : nat) : Z :=
  (MAX_RECORDS - Z.of_nat rows) / 1000 + Z.max 0 ((to - frm) / MAX_WINDOW).
Lemma fetch_next frm after to p s a :
  observations_query client tenant entity frm to after = Ok p → p_next p = Some (s, a) →
  length (p_observations p) = 1000%nat ∨ s = _iso (frm + MAX_WINDOW) ∧ a = "" ∧ frm + MAX_WINDOW < to ∧
    is_datetime (frm + MAX_WINDOW) = true.
Proof.
  unfold observations_query, fetch_observations. intros H Hn. apply bind_ok_inv in H as ([] & Hd & H).
  apply bind_ok_inv in H as (rows & _ & H). cbv zeta in H. apply bind_ok_inv in H as (next & Hnext & H).
  apply bind_ok_inv in H as (caps & _ & [= <-]). cbn [p_observations p_next] in *.
  destruct (Z.ltb_spec 1000 (Z.of_nat (length rows))) as [Hl|Hl].
  - left. rewrite length_fmap, length_take. lia.
  - right. destruct (Z.ltb_spec (Z.min to (frm + MAX_WINDOW)) to) as [Hc|Hc]; injection Hnext as <-; [|done].
    injection Hn as <- <-. rewrite Z.min_r in * by lia. split_and!; try done.
    by destruct (is_datetime (frm + MAX_WINDOW)).
Qed.
Lemma loop_returns fuel frm after to rows :
  Z.of_nat (length rows) <= MAX_RECORDS → pages_left frm to (length rows) < Z.of_nat fuel →
  ∃ r, loop fuel tenant entity frm to after rows = Some r.
Proof.
  revert frm after rows. induction fuel as [|fuel IH]; intros frm after rows Hr Hfuel.
  { unfold pages_left, MAX_RECORDS, MAX_WINDOW in *.
    assert (0 <= (10000 - Z.of_nat (length rows)) / 1000) by (apply Z.div_pos; lia). lia. }
  cbn [observations_loop]. destruct (observations_query _ _ _ _ _ _) as [p|e] eqn:Ep; [|by eexists].
  destruct (Z.ltb_spec MAX_RECORDS (Z.of_nat (length (rows ++ p_observations p)))) as [Hm|Hm]; [by eexists|].
  destruct (p_next p) as [[s a]|] eqn:En; [|by eexists].
  destruct (_parse_ts s) as [nxt|e] eqn:Es; [|by eexists].
  destruct (leb (nxt, a) (frm, after)) eqn:Ele; [by eexists|]. apply IH; [done|].
  assert (Hge : frm <= nxt).
  { apply Z.nlt_ge. intros Hlt. assert (Hx : ltb (frm, after) (nxt, a) = true) by by rewrite ltb_leb, Ele.
    rewrite ltb_pair in Hx. apply orb_true_iff in Hx as [Hx%Z.ltb_lt|[Hx%Z.eqb_eq _]%andb_true_iff]; lia. }
  rewrite length_app in *. unfold pages_left in *.
  destruct (fetch_next _ _ _ _ _ _ Ep En) as [Hlen|(-> & -> & Hlt & Hd)].
  - assert ((to - nxt) / MAX_WINDOW <= (to - frm) / MAX_WINDOW) by (apply Z.div_le_mono; unfold MAX_WINDOW; lia).
    replace (MAX_RECORDS - Z.of_nat (length rows + length (p_observations p)))
      with (MAX_RECORDS - Z.of_nat (length rows) + (-1) * 1000) by lia. rewrite Z.div_add by lia. lia.
  - rewrite parse_iso in Es by done. injection Es as <-.
    replace (to - (frm + MAX_WINDOW)) with (to - frm + (-1) * MAX_WINDOW) by lia. rewrite Z.div_add by done.
    assert ((MAX_RECORDS - Z.of_nat (length rows + length (p_observations p))) / 1000 <=
      (MAX_RECORDS - Z.of_nat (length rows)) / 1000) by (apply Z.div_le_mono; lia).
    assert (1 <= (to - frm) / MAX_WINDOW) by (apply Z.div_le_lower_bound; unfold MAX_WINDOW in *; lia). lia.
Qed.

Lemma parse_window_inv a b frm to : parse_window a b = Ok (frm, to) → frm < to ∧ is_datetime frm = true ∧ is_datetime to = true.
Proof.
  clear. unfold parse_window, _parse_ts. intros Hw. apply bind_ok_inv in Hw as ([] & _ & Hw).
  apply bind_ok_inv in Hw as (x & Ha & Hw). apply bind_ok_inv in Ha as (t & _ & Ha).
  apply bind_ok_inv in Ha as ([] & Hx & [= ->]). apply bind_ok_inv in Hw as (y & Hb & Hw).
  apply bind_ok_inv in Hb as (t' & _ & Hb). apply bind_ok_inv in Hb as ([] & Hy & [= ->]).
  apply bind_ok_inv in Hw as ([] & Hlt & [= -> ->]).
  split_and!; [by destruct (Z.ltb_spec frm to)|by destruct (is_datetime frm)|by destruct (is_datetime to)].
Qed.

(** C40. Reading a window ends, whatever the database answers: each page either is full and
    counts against the bound on records or moves the window on by a day, so twelve
    pages and one per day of the window are enough. *)
Theorem window_read_terminates window frm to fuel :
  parse_window window.1 window.2 = Ok (frm, to) → 12 + (to - frm) / MAX_WINDOW <= Z.of_nat fuel →
  ∃ r, observations client fuel tenant entity window = Some r.
Proof.
  intros Hw Hfuel. unfold observations. rewrite Hw. apply loop_returns; [done|]. unfold pages_left. simpl length.
  change ((MAX_RECORDS - Z.of_nat 0) / 1000) with 10. apply parse_window_inv in Hw as [Hlt _].
  assert (0 <= (to - frm) / MAX_WINDOW) by (apply Z.div_pos; unfold MAX_WINDOW; lia). lia.
Qed.

(** What is read, when the database answers. *)
Context (dt64 : Z → Z) (view : list erow) (unit_ : Z) (unit_pos : 0 < unit_) (unit_second : (unit_ | 1000000)).
Abbreviation scope' := (in_scope dt64 view [tenant] (Some entity) (Some "dns") None).
Abbreviation upcoming' := (upcoming dt64 view [tenant] (Some entity) (Some "dns") None).
Abbreviation exact' := (exact dt64).
Context (dt64_floor : ∀ t, dt64 t = t - t mod unit_).
Context (client_answers : ∀ q rows, client q = Ok rows → answers dt64 view q rows).
Context (view_ok : wf_view dt64 view [tenant] (Some entity) (Some "dns") None).
Abbreviation page_spec' := (page_spec dt64 client view [tenant] (Some entity) (Some "dns") None unit_ unit_pos unit_second
  dt64_floor client_answers view_ok).

(** Whatever is read is upcoming, and whatever is upcoming is read. *)
Lemma loop_covers fuel start frm after to rows all :
  exact' to → exact' start → start <= frm → is_datetime start = true → is_datetime to = true → frm < to →
  loop fuel tenant entity frm to after rows = Some (Ok all) →
  ∃ new, all = rows ++ new ∧ (∀ o, o ∈ new → ∃ r, r ∈ scope' ∧ start <= e_time r < to ∧ o = e_observation r) ∧
    ∀ r, r ∈ upcoming' (dt64 frm) after to → e_observation r ∈ new.
Proof using unit_pos unit_second dt64_floor client_answers view_ok.
  intros Ht Hs0 Hsf Hds Hdt. revert frm after rows Hsf. induction fuel as [|fuel IH]; intros frm after rows Hsf Hlt H; [done|].
  cbn [observations_loop] in H. destruct (observations_query client tenant entity frm to after) as [p|e] eqn:Ep; [|done].
  destruct (page_spec' frm after to 1000 p Ht Hlt ltac:(lia) Ep) as (n & Hobs & Hnext). set (V := upcoming' (dt64 frm) after to) in *.
  assert (Hdf : start <= dt64 frm) by (rewrite <- Hs0; by eapply dt_mono).
  assert (Hin : ∀ r, r ∈ V → r ∈ scope' ∧ start <= e_time r < to).
  { intros r (Hr & Hgt & Hr')%upcoming_elem. split; [done|]. split; [|done]. unfold row_key in Hgt. rewrite ltb_pair in Hgt.
    apply orb_true_iff in Hgt as [Hgt%Z.ltb_lt|[Hgt%Z.eqb_eq _]%andb_true_iff]; lia. }
  assert (Hpage : ∀ o, o ∈ p_observations p → ∃ r, r ∈ scope' ∧ start <= e_time r < to ∧ o = e_observation r).
  { intros o Ho. rewrite Hobs in Ho. apply list_elem_of_fmap in Ho as (r & -> & Hr). exists r.
    destruct (Hin r) as [H1 H2]; [eapply elem_of_sublist; [exact Hr|apply sublist_take]|auto]. }
  destruct (MAX_RECORDS <? Z.of_nat (length (rows ++ p_observations p))); [done|]. destruct (p_next p) as [[s a]|].
  - destruct Hnext as (t & -> & Htt & Hcase). assert (Hst : start <= t).
    { destruct Hcase as [(r & _ & _ & El & Ek & _)|(_ & -> & _)]; [|unfold MAX_WINDOW; lia]. injection Ek as -> _.
      destruct (Hin r) as [_ ?]; [|lia]. eapply elem_of_sublist; [by apply last_Some_elem_of|apply sublist_take]. }
    rewrite parse_iso in H by (eapply datetime_between; [exact Hds|exact Hdt|lia]). destruct (leb (t, a) (frm, after)); [done|].
    destruct (IH t a (rows ++ p_observations p) Hst Htt H) as (new & -> & Hn1 & Hn2). exists (p_observations p ++ new).
    rewrite app_assoc. split_and!; [done| |].
    + intros o [Ho|Ho]%elem_of_app; auto.
    + intros r Hr. rewrite <- (take_drop n V) in Hr. apply elem_of_app in Hr as [Hr|Hr]; apply elem_of_app.
      * left. rewrite Hobs. by apply list_elem_of_fmap_2.
      * right. apply Hn2. destruct Hcase as [(r0 & _ & _ & _ & _ & E)|(-> & _ & E)]; [|by rewrite E].
        rewrite <- E in Hr. apply upcoming_elem in Hr as (H1 & H2 & H3). apply upcoming_elem. split_and!; try done. by eapply bound_before.
  - injection H as <-. exists (p_observations p). split_and!; [done|done|]. intros r Hr. rewrite <- (take_drop n V), Hnext, app_nil_r in Hr.
    rewrite Hobs. by apply list_elem_of_fmap_2.
Qed.
(** Where every time is bound as it is, each row is read once. *)
Lemma loop_reads fuel start frm after to rows :
  exact' to → (∀ r, r ∈ scope' → start <= e_time r < to → exact' (e_time r)) →
  start <= frm → exact' frm → frm < to → is_datetime frm = true → to + MAX_WINDOW <= datetime_max →
  (∀ q, is_ok (client q) = true) → Z.of_nat (length rows) <= MAX_RECORDS →
  pages_left frm to (length rows) < Z.of_nat fuel →
  let all := rows ++ (e_observation <$> upcoming' frm after to) in
  loop fuel tenant entity frm to after rows =
    Some (if MAX_RECORDS <? Z.of_nat (length all) then Raise ValueError else Ok all).
Proof using unit_pos unit_second dt64_floor client_answers view_ok.
  intros Ht Hex Hsf Hf Hlt Hd Hmax Hc Hr Hfuel. cbv zeta. revert frm after rows Hsf Hf Hlt Hd Hr Hfuel.
  induction fuel as [|fuel IH]; intros frm after rows Hsf Hf Hlt Hd Hr Hfuel.
  { by destruct (loop_returns 0 frm after to rows Hr Hfuel) as [r Hx]. }
  cbn [observations_loop].
  pose proof (page_total dt64 client view [tenant] (Some entity) (Some "dns") None client_answers view_ok
    frm after to 1000 Hlt ltac:(lia) Hd Hmax Hc) as Htot.
  fold (observations_query client tenant entity frm to after) in Htot.
  destruct (observations_query client tenant entity frm to after) as [p|e] eqn:Ep; [|done].
  destruct (page_spec' frm after to 1000 p Ht Hlt ltac:(lia) Ep) as (n & Hobs & Hnext). rewrite Hf in Hobs, Hnext.
  set (U := upcoming' frm after to) in *.
  assert (HU : e_observation <$> U = p_observations p ++ (e_observation <$> drop n U))
    by (rewrite Hobs, <- fmap_app; by rewrite take_drop).
  rewrite HU, app_assoc. destruct (Z.ltb_spec MAX_RECORDS (Z.of_nat (length (rows ++ p_observations p)))) as [Hm|Hm].
  { rewrite (proj2 (Z.ltb_lt _ _)); [done|]. rewrite length_app. lia. }
  destruct (p_next p) as [[s a]|] eqn:En.
  - destruct Hnext as (t & -> & Htt & Hcase).
    assert (Hx : exact' t ∧ ltb (frm, after) (t, a) = true ∧ frm <= t ∧ upcoming' t a to = drop n U).
    { destruct Hcase as [(r & _ & _ & El & Ek & E)|(-> & -> & E)].
      - assert (Hin : r ∈ U) by (eapply elem_of_sublist; [by apply last_Some_elem_of|apply sublist_take]).
        apply upcoming_elem in Hin as (H1 & H2 & H3). rewrite Ek. injection Ek as -> _.
        assert (Hge : frm <= e_time r).
        { unfold row_key in H2. rewrite ltb_pair in H2. apply orb_true_iff in H2 as [H2%Z.ltb_lt|[H2%Z.eqb_eq _]%andb_true_iff]; lia. }
        split_and!; [apply Hex; [done|lia]|done|done|done].
      - assert (He : exact' (frm + MAX_WINDOW)) by (unfold exact in *; erewrite dt_day by done; by rewrite Hf).
        rewrite He in E. split_and!; [done| |unfold MAX_WINDOW; lia|done]. rewrite ltb_pair. rewrite (proj2 (Z.ltb_lt _ _)); [done|unfold MAX_WINDOW; lia]. }
    destruct Hx as (Htx & Hgt & Hft & Hres). rewrite <- Hres.
    assert (Hdt : is_datetime t = true).
    { unfold is_datetime in Hd |- *. rewrite andb_true_iff, !Z.leb_le in Hd |- *. unfold MAX_WINDOW in *. lia. }
    rewrite parse_iso by done. rewrite ltb_leb in Hgt. apply negb_true_iff in Hgt. rewrite Hgt.
    apply IH; [lia|done..|]. destruct (fetch_next _ _ _ _ _ _ Ep En) as [Hlen|(Eiso & -> & Hw & Hdw)].
    + unfold pages_left in *. rewrite length_app.
      assert ((to - t) / MAX_WINDOW <= (to - frm) / MAX_WINDOW) by (apply Z.div_le_mono; unfold MAX_WINDOW; lia).
      replace (MAX_RECORDS - Z.of_nat (length rows + length (p_observations p)))
        with (MAX_RECORDS - Z.of_nat (length rows) + (-1) * 1000) by lia. rewrite Z.div_add by lia. lia.
    + assert (t = frm + MAX_WINDOW) as ->.
      { pose proof (parse_iso t Hdt) as E1. rewrite Eiso, parse_iso in E1 by done. by injection E1. }
      unfold pages_left in *. rewrite length_app.
      replace (to - (frm + MAX_WINDOW)) with (to - frm + (-1) * MAX_WINDOW) by lia. rewrite Z.div_add by done.
      assert ((MAX_RECORDS - Z.of_nat (length rows + length (p_observations p))) / 1000 <=
        (MAX_RECORDS - Z.of_nat (length rows)) / 1000) by (apply Z.div_le_mono; lia).
      assert (1 <= (to - frm) / MAX_WINDOW) by (apply Z.div_le_lower_bound; unfold MAX_WINDOW in *; lia). lia.
  - rewrite Hnext. cbn [fmap list_fmap]. rewrite app_nil_r. by rewrite (proj2 (Z.ltb_ge _ _)).
Qed.
Lemma whole_window frm to : upcoming' frm "" to = List.filter (λ r, (frm <=? e_time r) && (e_time r <? to)) scope'.
Proof using view_ok.
  unfold upcoming. apply filter_ext_in'. intros r [Hr _]%in_scope_elem. apply view_ok in Hr as (Hid & _).
  unfold range, row_key. rewrite ltb_pair. assert (Hpos : ltb "" (e_obs_id r) = true) by (unfold ltb; simpl; by destruct (e_obs_id r)).
  rewrite Hpos, andb_true_r. f_equal. destruct (Z.ltb_spec frm (e_time r)), (Z.eqb_spec (e_time r) frm), (Z.leb_spec frm (e_time r)); done || lia.
Qed.

(** C10. Paging drops no evidence, and repeats none where times are bound as they are.  For a
    window whose bounds are whole units (seconds, or the finer unit) of the rounding with
    which the client binds times, a view that does not change during the read and whose
    rows have distinct (time, identifier) pairs, identifiers and readable capabilities:
    what the investigation reads, if the read is not refused, is the observations of the
    matching rows of the half-open window, all of them and nothing else; and when the times
    of these rows are whole units too, the database answers and the window ends at least a
    day before the last time a datetime can hold, walking the pages returns each of them
    once, in order of time and identifier, rows that share a timestamp included, and with
    more than ten thousand of them the read is refused as a whole. *)
Theorem window_read_exactly window frm to fuel :
  parse_window window.1 window.2 = Ok (frm, to) → exact' frm → exact' to →
  let rows := List.filter (λ r, (frm <=? e_time r) && (e_time r <? to)) scope' in
  (∀ os, observations client fuel tenant entity window = Some (Ok os) → ∀ o, o ∈ os ↔ ∃ r, r ∈ rows ∧ o = e_observation r) ∧
  ((∀ r, r ∈ rows → exact' (e_time r)) → to + MAX_WINDOW <= datetime_max → (∀ q, is_ok (client q) = true) →
   12 + (to - frm) / MAX_WINDOW <= Z.of_nat fuel →
   observations client fuel tenant entity window =
     Some (if MAX_RECORDS <? Z.of_nat (length rows) then Raise ValueError else Ok (e_observation <$> rows))).
Proof using unit_pos unit_second dt64_floor client_answers view_ok.
  intros Hw Hf Ht. cbv zeta. unfold observations. rewrite Hw. apply parse_window_inv in Hw as (Hlt & Hd & Hdt).
  rewrite <- whole_window. split.
  - intros os H o. destruct (loop_covers fuel frm frm "" to [] os Ht Hf ltac:(lia) Hd Hdt Hlt H) as (new & -> & H1 & H2).
    rewrite Hf in H2. split; [|by intros (r & Hr & ->); apply H2].
    intros (r & Hr & Hrange & ->)%H1. exists r. split; [|done]. rewrite whole_window, list_elem_of_In, filter_In, <- list_elem_of_In.
    split; [done|]. rewrite andb_true_iff, Z.leb_le, Z.ltb_lt. lia.
  - intros Hex Hmax Hc Hfuel. rewrite (loop_reads fuel frm); try done.
    + cbn [app]. by rewrite length_fmap.
    + intros r Hr Hrt. apply Hex. rewrite whole_window, list_elem_of_In, filter_In, <- list_elem_of_In. split; [done|].
      rewrite andb_true_iff, Z.leb_le, Z.ltb_lt. lia.
    + unfold pages_left. simpl length. change ((MAX_RECORDS - Z.of_nat 0) / 1000) with 10.
      assert (0 <= (to - frm) / MAX_WINDOW) by (apply Z.div_pos; unfold MAX_WINDOW; lia). lia.
Qed.
End window.

(** ** What a reader may see *)

Section reader.
Context (dt64 : Z → Z) (view : list erow) (client : equery → res (list erow)) (sha256 : string → string).
Context (client_answers : ∀ q rows, client q = Ok rows → answers dt64 view q rows).

Lemma answer_holds q rows r : client q = Ok rows → r ∈ rows → r ∈ view ∧ ∀ c, c ∈ q_where q → holds dt64 r c = true.
Proof using client_answers.
  intros H Hr. apply client_answers in H as (sorted & Hp & _ & ->).
  eapply elem_of_sublist in Hr; [|apply sublist_take]. rewrite Hp in Hr. unfold matching in Hr.
  apply list_elem_of_In, filter_In in Hr as [Hv Hall]. split; [by apply list_elem_of_In|].
  rewrite forallb_forall in Hall. intros c Hc. by apply Hall, list_elem_of_In.
Qed.

(** A reader sees only evidence of the tenants its token was granted: what the endpoint
    serves are observations of rows of those tenants that carry the entity asked for
    and lie in the window asked for, of the type asked for; a request without a known
    token is refused, whatever it asks for; and each of these outcomes is audited once,
    under the granted tenants. *)
Theorem evidence_confined tokens auth q :
  match do_GET client sha256 tokens "/observations" auth q with
  | (served p, events) => ∃ grants rq rows,
      grants_for_token tokens (Some auth) = Some grants ∧ read_params q = Ok rq ∧
      p_observations p = e_observation <$> rows ∧ (length rows <= Z.to_nat MAX_PAGE_SIZE)%nat ∧
      (∀ r, r ∈ rows → r ∈ view ∧ e_tenant r ∈ grants ∧ rq_entity rq ∈ e_entities r ∧
         dt64 (rq_window rq).1 <= e_time r < dt64 (Z.min (rq_window rq).2 ((rq_window rq).1 + MAX_WINDOW)) ∧
         (∀ t, rq_type rq = Some t → e_type r = t)) ∧
      events = [_audit (_actor sha256 auth) grants "success" (Some (length rows))]
  | (unauthorized, events) => grants_for_token tokens (Some auth) = None ∧ events = [_audit (_actor sha256 auth) [] "denied" None]
  | (bad_request e, events) => ∃ grants, grants_for_token tokens (Some auth) = Some grants ∧
      events = [_audit (_actor sha256 auth) grants "bad_request" None]
  | (unavailable, events) => ∃ grants, grants_for_token tokens (Some auth) = Some grants ∧
      events = [_audit (_actor sha256 auth) grants "error" None]
  | (crashed e, _) => read_params q = Raise e ∧ e ≠ ValueError
  | _ => False
  end.
Proof using client_answers.
  unfold do_GET. change (String.eqb "/observations" "/healthz") with false. cbv iota.
  destruct (grants_for_token tokens (Some auth)) as [grants|]; [|done]. rewrite String.eqb_refl. cbv iota beta. simpl negb. cbv iota.
  destruct (read_params q) as [rq|e] eqn:Eq; [|destruct e; try done; by exists grants].
  destruct (fetch_observations _ _ _ _ _ _ _ _ _) as [p|e] eqn:Ef; [|by exists grants].
  unfold fetch_observations in Ef. apply bind_ok_inv in Ef as ([] & _ & Ef). apply bind_ok_inv in Ef as (rows & Hrows & Ef).
  cbv zeta in Ef. apply bind_ok_inv in Ef as (next & _ & Ef). apply bind_ok_inv in Ef as (caps & _ & [= <-]). simpl p_observations.
  set (shown := if rq_size rq <? Z.of_nat (length rows) then take (Z.to_nat (rq_size rq)) rows else rows).
  assert (Hsize : 1 <= rq_size rq <= MAX_PAGE_SIZE).
  { unfold read_params in Eq. do 4 (apply bind_ok_inv in Eq as (? & _ & Eq)). apply bind_ok_inv in Eq as (n & Hn & [= <-]). simpl.
    unfold clamp_page_size in Hn. assert (Hc : ∀ m : res Z, (m' ← m; check (1 <=? m') ValueError;; Ok (Z.min m' MAX_PAGE_SIZE)) = Ok n → 1 <= n <= MAX_PAGE_SIZE).
    { intros m Hm. apply bind_ok_inv in Hm as (m' & _ & Hm). destruct (Z.leb_spec 1 m'); [|done]. injection Hm as <-. unfold MAX_PAGE_SIZE. lia. }
    destruct (assoc "page_size" q) as [[|c s]|]; [injection Hn as <-; done| |injection Hn as <-; done]. by apply Hc in Hn. }
  assert (Hsub : shown ⊆ rows) by (unfold shown; destruct (rq_size rq <? _); [|done]; intros x Hx; eapply elem_of_sublist; [exact Hx|apply sublist_take]).
  exists grants, rq, shown. split_and!; [done..| | |by rewrite length_fmap].
  - unfold shown. destruct (Z.ltb_spec (rq_size rq) (Z.of_nat (length rows))); [rewrite length_take|]; lia.
  - intros r Hr%Hsub. destruct (answer_holds _ _ r Hrows Hr) as [Hv Hh]. simpl in Hh.
    pose proof (Hh (tenant_in grants) ltac:(left)) as H1. pose proof (Hh (before _) ltac:(right; left)) as H2.
    pose proof (Hh (after_key _ _) ltac:(right; right; left)) as H3. pose proof (Hh (has_entity _) ltac:(right; right; right; left)) as H4.
    simpl in H1, H2, H3, H4. apply mem_true in H1, H4. apply Z.ltb_lt in H2.
    apply orb_true_iff in H3. rewrite Z.ltb_lt, andb_true_iff, Z.eqb_eq in H3. split_and!; try done; [lia|].
    intros t Ht. rewrite Ht in Hh. assert (Htt : str_truthy t = true).
    { unfold read_params in Eq. do 2 (apply bind_ok_inv in Eq as (? & _ & Eq)). apply bind_ok_inv in Eq as (ty & Hty & Eq).
      do 2 (apply bind_ok_inv in Eq as (? & _ & Eq)). injection Eq as <-. simpl in Ht. subst ty. unfold validate_type in Hty.
      destruct (assoc "type" q) as [[|c s]|]; try done. destruct (mem _ _); [|done]. by injection Hty as <-. }
    simpl in Hh. rewrite Htt in Hh. apply String.eqb_eq. apply (Hh (type_is t)). do 4 right. left.
Qed.
End reader.

(** ** Worked examples *)

Definition a_row (tenant id : string) (t : Z) (entity ty : string) : erow :=
  {| e_tenant := tenant; e_obs_id := id; e_time := t; e_entities := [entity]; e_type := ty;
     e_observation := [("obs_id", VStr id); ("capabilities", VList [VStr "l4"; VStr "dns"])] |}.
(** Two rows share a timestamp, one lies on the second day, one is another tenant's. *)
Definition a_view : list erow :=
  [a_row "acme" "obs:3" 1772409600000000 "host1" "dns"; a_row "acme" "obs:2" 1772323200500000 "host1" "dns";
   a_row "acme" "obs:1" 1772323200500000 "host1" "dns"; a_row "evil" "obs:4" 1772323200500000 "host1" "dns"].
Definition a_client (q : equery) : res (list erow) :=
  Ok (take (Z.to_nat (q_limit q)) (isort row_key (matching id q a_view))).
Lemma a_client_answers q rows : a_client q = Ok rows → answers id a_view q rows.
Proof. intros [= <-]. exists (isort row_key (matching id q a_view)). split_and!; [apply isort_perm|apply isort_sorted|done]. Qed.
Lemma binds_all t : id t = t - t mod 1.
Proof. rewrite Z.mod_1_r. unfold id. lia. Qed.
Definition a_window : string * string := ("2026-03-01T00:00:00Z", "2026-03-03T00:00:00Z").

Lemma window_read_terminates_witness :
  parse_window a_window.1 a_window.2 = Ok (1772323200000000, 1772496000000000) ∧
  ∃ r, observations (λ _, Raise OtherError) 14 "acme" "host1" a_window = Some r.
Proof.
  assert (E : parse_window a_window.1 a_window.2 = Ok (1772323200000000, 1772496000000000)) by (vm_compute; reflexivity).
  split; [exact E|]. apply (window_read_terminates (λ _, Raise OtherError) "acme" "host1" a_window _ _ 14 E). vm_compute. discriminate.
Defined.
Lemma window_read_exactly_witness :
  observations a_client 14 "acme" "host1" a_window =
    Some (Ok (e_observation <$> [a_row "acme" "obs:1" 1772323200500000 "host1" "dns";
                                 a_row "acme" "obs:2" 1772323200500000 "host1" "dns";
                                 a_row "acme" "obs:3" 1772409600000000 "host1" "dns"])).
Proof.
  assert (E : parse_window a_window.1 a_window.2 = Ok (1772323200000000, 1772496000000000)) by (vm_compute; reflexivity).
  assert (Hwf : wf_view id a_view ["acme"] (Some "host1") (Some "dns") None).
  { split; [by apply (bool_decide_eq_true_1 _); vm_compute|]. apply Forall_forall. unfold a_view. repeat constructor; vm_compute; done. }
  rewrite (proj2 (window_read_exactly a_client "acme" "host1" id a_view 1 eq_refl (Z.divide_1_l _) binds_all a_client_answers Hwf a_window _ _ 14
    E eq_refl eq_refl)); [vm_compute; reflexivity|done|vm_compute; discriminate|done|vm_compute; discriminate].
Defined.
Lemma evidence_confined_witness :
  let q := [("entity", "host1"); ("from", "2026-03-01T00:00:00Z"); ("to", "2026-03-02T00:00:00Z"); ("tenant", "evil")] in
  let r := do_GET a_client id [("tok", ["acme"])] "/observations" "Bearer tok" q in
  match r.1 with
  | served p => length (p_observations p) = 2%nat ∧
      ∃ rows : list erow, p_observations p = e_observation <$> rows ∧ ∀ x, x ∈ rows → e_tenant x ∈ ["acme"]
  | _ => False
  end.
Proof.
  cbv zeta. set (q := [_; _; _; _]).
  pose proof (evidence_confined id a_view a_client id a_client_answers [("tok", ["acme"])] "Bearer tok" q) as H.
  assert (E : match (do_GET a_client id [("tok", ["acme"])] "/observations" "Bearer tok" q).1 with
              | served p => length (p_observations p) = 2%nat | _ => False end) by (vm_compute; reflexivity).
  destruct (do_GET _ _ _ _ _ _) as [[] ev]; simpl in *; try done. split; [done|].
  destruct H as (grants & rq & rows & Hg & _ & Ho & _ & Hr & _). exists rows. split; [done|]. intros x Hx.
  injection Hg as <-. by apply Hr.
Defined.

(** Pages of one row walk through rows that share a timestamp, then to the next day. *)
Example small_pages :
  let next frm after := p ← fetch_observations a_client ["acme"] (Some "host1") frm 1772496000000000 None 1 after None;
                        Ok (p_observations p, p_next p) in
  next 1772323200000000 "" = Ok ([e_observation (a_row "acme" "obs:1" 1772323200500000 "host1" "dns")],
                                 Some ("2026-03-01T00:00:00.500000Z", "obs:1")) ∧
  next 1772323200500000 "obs:1" = Ok ([e_observation (a_row "acme" "obs:2" 1772323200500000 "host1" "dns")],
                                 Some ("2026-03-01T00:00:00.500000Z", "obs:2")) ∧
  next 1772323200500000 "obs:2" = Ok ([e_observation (a_row "acme" "obs:3" 1772409600000000 "host1" "dns")],
                                 Some ("2026-03-02T00:00:00.500000Z", "")) ∧
  next 1772409600500000 "" = Ok ([], None).
Proof. vm_compute. done. Qed.
(** With datetimes bound in whole seconds, a page of one row that ends within a second is
    followed by the same page: the position it names is bound as the start of its second. *)
Definition in_seconds (t : Z) : Z := t - t mod 1000000.
Definition seconds_client (q : equery) : res (list erow) :=
  Ok (take (Z.to_nat (q_limit q)) (isort row_key (matching in_seconds q a_view))).
Example bound_seconds_repeat_page :
  let next frm after := p ← fetch_observations seconds_client ["acme"] (Some "host1") frm 1772496000000000 None 1 after None;
                        Ok (p_observations p, p_next p) in
  let page := ([e_observation (a_row "acme" "obs:1" 1772323200500000 "host1" "dns")], Some ("2026-03-01T00:00:00.500000Z", "obs:1")) in
  next 1772323200000000 "" = Ok page ∧ next 1772323200500000 "obs:1" = Ok page.
Proof. vm_compute. done. Qed.
