(* ===== verification/IntelMatch.v ===== *)
(** * Matching events against threat intelligence (services/threat-intel/ti.py,
    hash_is_complete of services/file-threat/filematch.py)

    What an event offers to match on ([dimensions]), the match against the live
    indicator store, and the static feed lists with their parsers. *)

From stdpp Require Import gmap strings pretty.
From S2P Require Import Prelude Order PyVal PyString OrderedMap PyTime ThreatIntel.
Set Default Proof Using "Type".

(** ** Hashes of whole files *)

Definition hash_is_complete (fi : dict) : res bool :=
  if negb (truthy (dgetN "sha256" fi)) then Ok false
  else if negb (match dget_or "state" (VStr "") fi with VStr s => String.eqb (upper s) "CLOSED" | _ => false end) then Ok false
  else if negb (match dgetN "gaps" fi with VBool false => true | _ => false end) then Ok false
  else
    match dgetN "start" fi with
    | VNone => Ok true
    | v => match py_int v with
           | Ok n => Ok (n =? 0)
           | Raise TypeError | Raise ValueError => Ok false
           | Raise e => Raise e
           end
    end.

Definition hex_digit (c : ascii) : bool := is_digit c || between 97 102 (code c) || between 65 70 (code c).
Definition hex_of_length (n : Z) (s : string) : bool := (Z.of_nat (String.length s) =? n) && string_forallb hex_digit s.
(** A dimension: kind, field and value. *)
Abbreviation dim := (string * string * string)%type.
Definition hash_values (prefix : string) (fi : dict) : list dim :=
  omap (λ an : string * Z,
    match dgetN an.1 fi with
    | VStr raw => if hex_of_length an.2 raw then Some ("hash", prefix +:+ an.1, raw) else None
    | _ => None
    end) [("sha256", 64); ("sha1", 40); ("md5", 32)].
Definition hash_dimensions (event : dict) : res (list dim) :=
  if val_eq_str (dgetN "type" event) "file" then
    match dget_or "fields" (VDict []) event with
    | VDict f =>
        match dget_or "file" (VDict []) f with
        | VDict fi => Ok (if val_in_strs (dgetN "state" fi) ["hashes_only"; "bytes_available"]
                          then hash_values "file." fi else [])
        | _ => Raise AttributeError
        end
    | _ => Raise AttributeError
    end
  else
    match dgetN "fileinfo" event with
    | VDict fi => b ← hash_is_complete fi; Ok (if b : bool then hash_values "fileinfo." fi else [])
    | _ => Ok []
    end.

(** ** Everything an event can be matched on *)

Definition obj (v : val) : dict := match v with VDict d => d | _ => [] end.
Definition value (kind field : string) (raw : val) : list dim :=
  let raw := match raw with VDict d => dgetN "hash" d | _ => raw end in
  match raw with VStr s => if str_truthy (strip s) then [(kind, field, s)] else [] | _ => [] end.
Fixpoint entry_values (group : string) (i : nat) (entries : list val) : list dim :=
  match entries with
  | [] => []
  | e :: entries =>
      value "domain" ("dns." +:+ group +:+ "." +:+ pretty (Z.of_nat i) +:+ ".rrname") (dgetN "rrname" (obj e))
      ++ entry_values group (S i) entries
  end.

Abbreviation hit_key := (string * string * option (string * string))%type.

Section match_.
Context (ip_address : string → option (Z * string)) (urlsplit : string → res url)
  (urlunsplit : string → string → string → string) (in_network : string → string → bool).

Definition url_values (field : string) (raw : val) : res (list dim) :=
  match raw with
  | VStr s =>
      match urlsplit s with
      | Ok p => Ok (if str_truthy (u_scheme p) && ostr_truthy (u_host p) then [("url", field, s)] else [])
      | Raise ValueError => Ok []
      | Raise e => Raise e
      end
  | _ => Ok []
  end.
Definition dimensions (eve : dict) : res (list dim) :=
  hashes ← hash_dimensions eve;
  let tls := obj (dgetN "tls" eve) in
  let dns := obj (dgetN "dns" eve) in
  let http := obj (dgetN "http" eve) in
  let group g := match dgetN g dns with VList l => entry_values g 0 l | _ => [] end in
  u1 ← url_values "http.url" (dgetN "url" http);
  u2 ← url_values "url" (dgetN "url" eve);
  Ok (hashes
      ++ value "ip" "src_ip" (dgetN "src_ip" eve) ++ value "ip" "dest_ip" (dgetN "dest_ip" eve)
      ++ value "domain" "tls.sni" (dgetN "sni" tls)
      ++ value "ja3" "tls.ja3" (dgetN "ja3" tls) ++ value "ja3" "tls.ja3s" (dgetN "ja3s" tls)
      ++ value "ja4" "tls.ja4" (dgetN "ja4" tls) ++ value "ja4" "tls.ja4s" (dgetN "ja4s" tls)
      ++ value "cert" "tls.fingerprint" (dgetN "fingerprint" tls)
      ++ value "domain" "dns.rrname" (dgetN "rrname" dns) ++ group "queries" ++ group "answers"
      ++ value "domain" "http.hostname" (dgetN "hostname" http) ++ u1 ++ u2).

(** A hit: the indicator as derived at read time, and what it was found in. *)
Record hit := { m_record : intel; m_suppressed : bool; m_field : string; m_value : string }.
Definition key_of_hit (kind field normalized : string) (r : intel) : hit_key :=
  (kind, i_indicator r, if String.eqb kind "hash" then None else Some (field, normalized)).
Definition candidates (s : intel_store) (tenant kind normalized : string) : list intel :=
  match get s (tenant, kind, normalized) with Some r => [r] | None => [] end
  ++ (if String.eqb kind "ip" then
        match ip_address normalized with
        | Some _ => List.filter (λ r, in_network normalized (i_indicator r)) (networks s tenant)
        | None => []
        end
      else []).
Fixpoint match_records (s : intel_store) (tenant : string) (now : Z) (d : dim) (normalized : string)
    (records : list intel) (seen : list hit_key) : res (list hit * list hit_key) :=
  match records with
  | [] => Ok ([], seen)
  | r :: records =>
      let key := key_of_hit d.1.1 d.1.2 normalized r in
      if mem key seen then match_records s tenant now d normalized records seen
      else
        r' ← derive r now;
        active ← is_active r' now;
        '(hits, seen') ← match_records s tenant now d normalized records (key :: seen);
        Ok ((if active : bool
             then [{| m_record := r'; m_suppressed := is_suppressed s (tenant, d.1.1, i_indicator r) now;
                      m_field := d.1.2; m_value := d.2 |}]
             else []) ++ hits, seen')
  end.
Fixpoint match_dimensions (s : intel_store) (tenant : string) (now : Z) (ds : list dim) (seen : list hit_key) :
    res (list hit) :=
  match ds with
  | [] => Ok []
  | d :: ds =>
      match norm_indicator ip_address urlsplit urlunsplit d.1.1 d.2 with
      | Raise ValueError => match_dimensions s tenant now ds seen
      | Raise e => Raise e
      | Ok normalized =>
          '(hits, seen') ← match_records s tenant now d normalized (candidates s tenant d.1.1 normalized) seen;
          rest ← match_dimensions s tenant now ds seen';
          Ok (hits ++ rest)
      end
  end.
Definition other_tenant (v : val) (tenant : string) : bool :=
  match v with VNone => false | _ => negb (val_eq_str v tenant) end.
Definition match_event (eve : dict) (s : intel_store) (tenant : string) (now : Z) : res (list hit) :=
  if negb (str_truthy tenant) || other_tenant (dgetN "tenant_id" eve) tenant then Ok []
  else if other_tenant (dgetN "tenant" eve) tenant then Ok []
  else ds ← dimensions eve; match_dimensions s tenant now ds [].
End match_.

(** ** Static feeds *)

(** The boundaries of [str.splitlines]. *)
Definition line_end (c : ascii) : bool := between 10 13 (code c) || between 28 30 (code c).
Fixpoint splitlines_onto (cur s : string) : list string :=
  match s with
  | EmptyString => if str_truthy cur then [cur] else []
  | String c s =>
      if line_end c
      then cur :: splitlines_onto "" (match s with String d s' => if Ascii.eqb c "013" && Ascii.eqb d "010" then s' else s | _ => s end)
      else splitlines_onto (cur +:+ String c "") s
  end.
Definition splitlines (s : string) : list string := splitlines_onto "" s.
(** Lines that carry data: stripped, not empty, not comments. *)
Definition data_lines (text : string) : list string :=
  List.filter (λ l, str_truthy l && negb (starts_with "#" l)) (strip <$> splitlines text).
Definition first_column (line : string) : string := hd "" (split_char "," line).

Definition octet_like (s : string) : bool := mem (Z.of_nat (String.length s)) [1; 2; 3] && string_forallb is_digit s.
Definition _IP (s : string) : bool :=
  let parts := split_char "." s in (length parts =? 4)%nat && forallb octet_like parts.
Definition _HEX (s : string) : bool :=
  between 32 64 (Z.of_nat (String.length s)) && string_forallb (λ c, is_digit c || between 97 102 (code c)) s.

Definition parse_feodo (text : string) : gset string :=
  list_to_set (List.filter _IP ((λ l, strip (first_column l)) <$> data_lines text)).
Definition parse_hash_csv (text : string) : gset string :=
  list_to_set (omap (λ l, head (List.filter _HEX ((λ t, lower (strip t)) <$> split_char "," l))) (data_lines text)).
Definition norm (v : string) : string := lower (strip v).
Definition parse_fp_list (text : string) : gset string :=
  list_to_set (List.filter str_truthy ((λ l, norm (first_column l)) <$> data_lines text)).

Definition match_static (dst_ip ja3 cert_sha1 : string) (feodo ja3_bl cert_bl : gset string) : bool * string * string :=
  if str_truthy dst_ip && bool_decide (dst_ip ∈ feodo) then (true, "feodo_c2", dst_ip)
  else if str_truthy (norm ja3) && bool_decide (norm ja3 ∈ ja3_bl) then (true, "sslbl_ja3", norm ja3)
  else if str_truthy (norm cert_sha1) && bool_decide (norm cert_sha1 ∈ cert_bl) then (true, "sslbl_cert", norm cert_sha1)
  else (false, "", "").
Fixpoint first_fp (vs : list (string * string)) (fp_bl : gset string) : bool * string * string :=
  match vs with
  | [] => (false, "", "")
  | (typ, val) :: vs =>
      if str_truthy (norm val) && bool_decide (norm val ∈ fp_bl) then (true, "c2fp_" +:+ typ, norm val) else first_fp vs fp_bl
  end.
Definition match_server_fp (ja3s ja4s jarm : string) (fp_bl : gset string) : bool * string * string :=
  first_fp [("ja3s", ja3s); ("ja4s", ja4s); ("jarm", jarm)] fp_bl.

(** ** Facts *)

Section facts.
Context (ip_address : string → option (Z * string)) (urlsplit : string → res url)
  (urlunsplit : string → string → string → string) (in_network : string → string → bool).
Context (s : intel_store) (tenant : string) (now : Z).
Abbreviation cands := (candidates ip_address in_network s tenant).
Abbreviation norm_ind := (norm_indicator ip_address urlsplit urlunsplit).

(** An indicator of the store a dimension's normalized value names. *)
Definition names (kind n : string) (r : intel) : Prop :=
  get s (tenant, kind, i_indicator r) = Some r ∧
  (i_indicator r = n ∨ kind = "ip" ∧ in_network n (i_indicator r) = true).

Lemma networks_elem r : r ∈ networks s tenant → keyed s → get s (tenant, "ip", i_indicator r) = Some r ∧ contains "/" (i_indicator r) = true.
Proof.
  clear. unfold networks. intros H Hk. apply list_elem_of_omap in H as ([[[t ty] i] r'] & Hin%elem_of_map_to_list & H). simpl in H.
  destruct (String.eqb_spec t tenant) as [->|]; [|done]. destruct (String.eqb_spec ty "ip") as [->|]; [|done]. simpl in H.
  destruct (contains "/" i) eqn:Ec; [|done]. injection H as ->. pose proof (Hk _ _ Hin) as Hkey. unfold key_of in Hkey.
  injection Hkey as _ _ Ei. by rewrite Ei.
Qed.
Lemma candidates_names kind n r : keyed s → r ∈ cands kind n → names kind n r.
Proof.
  intros Hk. unfold candidates. intros [H|H]%elem_of_app.
  - destruct (get s (tenant, kind, n)) as [r'|] eqn:Eg; [|by apply elem_of_nil in H].
    apply list_elem_of_singleton in H as ->. pose proof (Hk _ _ Eg) as Hkey. unfold key_of in Hkey.
    injection Hkey as _ _ Ei. split; [by rewrite Ei|by left].
  - destruct (String.eqb_spec kind "ip") as [->|]; [|by apply elem_of_nil in H].
    destruct (ip_address n); [|by apply elem_of_nil in H]. apply list_elem_of_In, filter_In in H as [H%list_elem_of_In Hin].
    destruct (networks_elem r H Hk) as [? _]. split; [done|by right].
Qed.

(** A record that was handled: derived, and reported when it is active. *)
Definition handled (hits : list hit) (r : intel) : Prop :=
  ∃ r' a, derive r now = Ok r' ∧ is_active r' now = Ok a ∧ (a = true → ∃ h, h ∈ hits ∧ m_record h = r').
Definition true_hit (ds : list dim) (h : hit) : Prop :=
  ∃ kind n r, (kind, m_field h, m_value h) ∈ ds ∧ norm_ind kind (m_value h) = Ok n ∧ names kind n r ∧
    derive r now = Ok (m_record h) ∧ is_active (m_record h) now = Ok true ∧
    m_suppressed h = is_suppressed s (tenant, kind, i_indicator r) now.

Lemma match_records_spec d n records seen hits seen' :
  match_records s tenant now d n records seen = Ok (hits, seen') →
  (∀ k, k ∈ seen → k ∈ seen') ∧
  (∀ r, r ∈ records → key_of_hit d.1.1 d.1.2 n r ∈ seen') ∧
  (∀ k, k ∈ seen' → k ∈ seen ∨ ∃ r, r ∈ records ∧ key_of_hit d.1.1 d.1.2 n r = k ∧ handled hits r) ∧
  (∀ h, h ∈ hits → ∃ r, r ∈ records ∧ derive r now = Ok (m_record h) ∧ is_active (m_record h) now = Ok true ∧
     m_field h = d.1.2 ∧ m_value h = d.2 ∧ m_suppressed h = is_suppressed s (tenant, d.1.1, i_indicator r) now).
Proof.
  revert seen hits seen'. induction records as [|r records IH]; intros seen hits seen'; cbn [match_records].
  { intros [= <- <-]. split_and!; [done|intros r Hr; by apply elem_of_nil in Hr|intros k Hk; by left|intros h Hh; by apply elem_of_nil in Hh]. }
  destruct (mem (key_of_hit _ _ _ r) seen) eqn:Em.
  - intros H. destruct (IH _ _ _ H) as (H1 & H2 & H3 & H4). apply mem_true in Em. split_and!; [done| | |].
    + intros r' [->|Hr]%elem_of_cons; auto.
    + intros k Hk. destruct (H3 k Hk) as [|(r' & ? & ? & ?)]; [by left|right; exists r'; split_and!; [by right|done..]].
    + intros h Hh. destruct (H4 h Hh) as (r' & ? & ?). exists r'. split; [by right|done].
  - intros H. apply bind_ok_inv in H as (r' & Hd & H). apply bind_ok_inv in H as (a & Ha & H).
    apply bind_ok_inv in H as ([hs sn] & Hrec & H). destruct (IH _ _ _ Hrec) as (H1 & H2 & H3 & H4). injection H as <- <-.
    assert (Hsub : ∀ r0, handled hs r0 → handled ((if a then [{| m_record := r'; m_suppressed := is_suppressed s (tenant, d.1.1, i_indicator r) now;
                      m_field := d.1.2; m_value := d.2 |}] else []) ++ hs) r0).
    { intros r0 (x & b & ? & ? & Hb). exists x, b. split_and!; [done..|]. intros Hbt. destruct (Hb Hbt) as (h & Hh & ?).
      exists h. split; [|done]. apply elem_of_app. by right. }
    split_and!.
    + intros k Hk. apply H1. by right.
    + intros r0 [->|Hr]%elem_of_cons; [apply H1; by left|auto].
    + intros k Hk. destruct (H3 k Hk) as [[->|Hs]%elem_of_cons|(r0 & ? & ? & ?)]; [right|by left|right].
      * exists r. split_and!; [by left|done|]. exists r', a. split_and!; [done..|]. intros ->. eexists. split; [by left|done].
      * exists r0. split_and!; [by right|done|by apply Hsub].
    + intros h [Hh|Hh]%elem_of_app; [|destruct (H4 h Hh) as (r0 & ? & ?); exists r0; split; [by right|done]].
      destruct a; [|by apply elem_of_nil in Hh]. apply list_elem_of_singleton in Hh as ->. exists r. split_and!; done || by left.
Qed.

Lemma handled_mono hits hits' r : hits ⊆ hits' → handled hits r → handled hits' r.
Proof. intros Hs (x & a & ? & ? & Ha). exists x, a. split_and!; [done..|]. intros Hat. destruct (Ha Hat) as (h & ? & ?). exists h. auto. Qed.

(** A key that was seen stands for a record that was handled. *)
Definition covered (hits : list hit) (k : hit_key) : Prop :=
  ∀ r, get s (tenant, k.1.1, i_indicator r) = Some r → i_indicator r = k.1.2 → handled hits r.
Lemma match_dimensions_spec ds seen hits0 hits :
  keyed s → (∀ k, k ∈ seen → covered hits0 k) →
  match_dimensions ip_address urlsplit urlunsplit in_network s tenant now ds seen = Ok hits →
  (∀ h, h ∈ hits → true_hit ds h) ∧
  (∀ kind field v n r, (kind, field, v) ∈ ds → norm_ind kind v = Ok n → r ∈ cands kind n → handled (hits0 ++ hits) r).
Proof.
  intros Hk. revert seen hits0 hits. induction ds as [|d ds IH]; intros seen hits0 hits Hseen; cbn [match_dimensions].
  { intros [= <-]. split; [intros h Hh; by apply elem_of_nil in Hh|]. intros kind field v n r Hin. by apply elem_of_nil in Hin. }
  destruct (norm_ind d.1.1 d.2) as [n|e] eqn:En.
  - intros H. apply bind_ok_inv in H as ([hs sn] & Hrec & H). apply bind_ok_inv in H as (rest & Hrest & [= <-]).
    apply match_records_spec in Hrec as (H1 & H2 & H3 & H4).
    assert (Hsn : ∀ k, k ∈ sn → covered (hits0 ++ hs) k).
    { intros k Hks r Hr Hi. destruct (H3 k Hks) as [Hold|(r' & Hr' & <- & Hh)].
      - eapply handled_mono; [|by eapply Hseen]. set_solver.
      - apply candidates_names in Hr' as [Hr' _]; [|done]. simpl in Hr, Hi. rewrite <- Hi in Hr'. rewrite Hr in Hr'. injection Hr' as <-.
        eapply handled_mono; [|exact Hh]. set_solver. }
    destruct (IH sn (hits0 ++ hs) rest Hsn Hrest) as [Ht Hc]. split.
    + intros h [Hh|Hh]%elem_of_app.
      * destruct (H4 h Hh) as (r & Hr & Hd & Ha & Ef & Ev & Es). exists d.1.1, n, r.
        rewrite Ef, Ev. split_and!; [clear; destruct d as [[? ?] ?]; left|done|by apply candidates_names|done..].
      * destruct (Ht h Hh) as (kind & n' & r & Hin & ?). exists kind, n', r. split; [by right|done].
    + intros kind field v n' r [<-|Hin]%elem_of_cons Hn Hr; simpl in *.
      * rewrite En in Hn. injection Hn as <-. specialize (H2 r Hr). apply candidates_names in Hr as [Hr _]; [|done].
        rewrite app_assoc. eapply handled_mono; [|apply (Hsn _ H2 r Hr eq_refl)]. set_solver.
      * rewrite app_assoc. by eapply Hc.
  - destruct e; try done. intros H. destruct (IH _ _ _ Hseen H) as [Ht Hc]. split.
    + intros h Hh. destruct (Ht h Hh) as (kind & n' & r & Hin & ?). exists kind, n', r. split; [by right|done].
    + intros kind field v n' r [<-|Hin]%elem_of_cons Hn Hr; [simpl in *; congruence|by eapply Hc].
Qed.
End facts.

(** An event is matched against exactly the live intelligence of its tenant.  In every
    store the operations can build, each hit is a record of that tenant, derived at this
    moment and active, named by a value the event carries (exactly, or as a network the
    address lies in), and says whether a suppression covers it; and every active record
    of the tenant that a value of the event names is among the hits.  An event that
    claims another tenant matches nothing. *)
Theorem live_matches_exact ip_address urlsplit urlunsplit in_network s tenant now eve hits :
  rtc store_step empty_store s →
  match_event ip_address urlsplit urlunsplit in_network eve s tenant now = Ok hits →
  hits = [] ∧ (other_tenant (dgetN "tenant_id" eve) tenant || other_tenant (dgetN "tenant" eve) tenant || negb (str_truthy tenant)) = true ∨
  ∃ ds, dimensions urlsplit eve = Ok ds ∧
    (∀ h, h ∈ hits → true_hit ip_address urlsplit urlunsplit in_network s tenant now ds h) ∧
    (∀ kind field v n r r', (kind, field, v) ∈ ds → norm_indicator ip_address urlsplit urlunsplit kind v = Ok n →
       get s (tenant, kind, i_indicator r) = Some r →
       (i_indicator r = n ∨ kind = "ip" ∧ is_Some (ip_address n) ∧ contains "/" (i_indicator r) = true ∧ in_network n (i_indicator r) = true) →
       derive r now = Ok r' → is_active r' now = Ok true → ∃ h, h ∈ hits ∧ m_record h = r').
Proof.
  intros Hs%reachable_keyed H. unfold match_event in H.
  destruct (negb (str_truthy tenant)) eqn:E1; [injection H as <-; left; by rewrite orb_true_r|].
  destruct (other_tenant (dgetN "tenant_id" eve) tenant) eqn:E2; [injection H as <-; by left|].
  destruct (other_tenant (dgetN "tenant" eve) tenant) eqn:E3; [injection H as <-; by left|]. simpl in H. right.
  apply bind_ok_inv in H as (ds & Hds & H). exists ds. split; [done|].
  apply (match_dimensions_spec _ _ _ _ _ _ _ _ _ []) in H as [Ht Hc]; [|done|intros k Hk; by apply elem_of_nil in Hk].
  split; [done|]. intros kind field v n r r' Hin Hn Hr Hnames Hd Ha.
  assert (Hcand : r ∈ candidates ip_address in_network s tenant kind n).
  { unfold candidates. apply elem_of_app. destruct Hnames as [<-|(-> & [x Hx] & Hslash & Hin')].
    - left. rewrite Hr. by left.
    - right. simpl. rewrite Hx. apply list_elem_of_In, filter_In. split; [|done]. apply list_elem_of_In.
      unfold networks. apply list_elem_of_omap. exists (tenant, "ip", i_indicator r, r). split; [by apply elem_of_map_to_list|].
      simpl. by rewrite String.eqb_refl, Hslash. }
  destruct (Hc kind field v n r Hin Hn Hcand) as (x & a & Hx & Hxa & Hh). rewrite Hd in Hx. injection Hx as <-.
  rewrite Ha in Hxa. injection Hxa as <-. by apply Hh.
Qed.

Definition dns_event : dict :=
  [("tenant_id", VStr "t"); ("src_ip", VStr "10.0.0.5"); ("dns", VDict [("rrname", VStr "BAD.example")])].
Lemma live_matches_exact_witness :
  match match_event no_ip no_url join_url (λ _ _, false) dns_event (ingested []) "t" 5000000 with
  | Ok hits => (m_field <$> hits) = ["dns.rrname"] ∧ (m_suppressed <$> hits) = [false] ∧
      ∃ ds, dimensions no_url dns_event = Ok ds ∧
        ∀ h, h ∈ hits → true_hit no_ip no_url join_url (λ _ _, false) (ingested []) "t" 5000000 ds h
  | Raise _ => False
  end.
Proof.
  assert (E : ∃ hits, match_event no_ip no_url join_url (λ _ _, false) dns_event (ingested []) "t" 5000000 = Ok hits ∧
    (m_field <$> hits) = ["dns.rrname"] ∧ (m_suppressed <$> hits) = [false]).
  { eexists. split; [vm_compute; reflexivity|]. split; reflexivity. }
  destruct E as (hits & E & Hf & Hsup). rewrite E. split; [exact Hf|]. split; [exact Hsup|].
  destruct (live_matches_exact no_ip no_url join_url (λ _ _, false) (ingested []) "t" 5000000 dns_event hits) as [[-> _]|(ds & Hds & Ht & _)].
  - apply rtc_once. apply (step_ingest _ [expired_and_live] 5000000 [] _ [derived_at 5000000 expired_and_live]).
    vm_compute. reflexivity.
  - exact E.
  - discriminate.
  - by exists ds.
Defined.
Example feeds_parsed :
  parse_feodo ("# c2" +:+ String "010" ("1.2.3.4,x" +:+ String "013" (String "010" "nope"))) = {["1.2.3.4"]} ∧
  match_server_fp "" "AbC " "" {["abc"]} = (true, "c2fp_ja4s", "abc").
Proof. split; vm_compute; reflexivity. Qed.
