(* ===== verification/HuntWorker.v ===== *)
(** * Retroactive hunts (services/intel-hunt: hunt.py, store.py)

    A hunt walks the evidence of a window page by page, one page per request, and keeps
    its position and its hits in a store whose updates are atomic.  A request is a typed
    record: it stands for a document the contract (contracts/hunt.schema.json) admits,
    and [valid] is the rest of that contract.  Each step is given the answers the
    database has for it ([client]), which may be failures. *)

From stdpp Require Import gmap strings.
From S2P Require Import Prelude Order PyVal PyString OrderedMap PyTime IsoTime Json ThreatIntel IntelMatch EvidencePaging.
Set Default Proof Using "Type".

Definition SUPPORTED : list string := ["ip"; "domain"; "ja3"; "ja4"; "cert"; "hash"].

Record indicator := { in_type : string; in_value : string; in_known : string }.
Record job := {
  j_tenant : string; j_hunt_id : string; j_from : string; j_to : string;
  j_indicators : option (list indicator); j_intel_set : string; j_page_size : option Z
}.
#[export] Instance indicator_eq_dec : EqDecision indicator.
Proof. solve_decision. Defined.
#[export] Instance job_eq_dec : EqDecision job.
Proof. solve_decision. Defined.

(** A saved set: records of the intelligence store with their acquisition times. *)
Record saved_intel := { sv_tenant : string; sv_type : string; sv_indicator : string; sv_observed : list string }.

Record state := {
  s_complete : bool; s_from : string; s_after : string;
  s_indicators : list indicator; s_unsupported : list indicator
}.
Record hit := {
  h_id : string; h_tenant : string; h_obs_id : val; h_indicator : indicator; h_observed : string;
  h_ts : val; h_source : val; h_fields : list string; h_learned : bool
}.

(** ** The store *)

Record store := { jobs : gmap (string * string) (job * state); hits : gmap (string * string * string) hit }.
Definition empty_store : store := {| jobs := ∅; hits := ∅ |}.
Definition load (s : store) (tenant id : string) : option (job * state) := jobs s !! (tenant, id).
(** One transaction: the job is replaced, hits already there are kept. *)
Definition insert_or_ignore (tenant id : string) (m : gmap (string * string * string) hit) (h : hit) :
    gmap (string * string * string) hit :=
  match m !! (tenant, id, h_id h) with Some _ => m | None => <[(tenant, id, h_id h) := h]> m end.
Definition save (s : store) (tenant id : string) (request : job) (st : state) (hs : list hit) : store :=
  {| jobs := <[(tenant, id) := (request, st)]> (jobs s); hits := foldl (insert_or_ignore tenant id) (hits s) hs |}.

Record results := {
  r_id : string; r_tenant : string; r_complete : bool; r_unsupported : list indicator;
  r_hits : list hit; r_next_after : option string
}.
Definition hits_of (s : store) (tenant id : string) : list (string * hit) :=
  isort fst (omap (λ kh : string * string * string * hit,
    if bool_decide (kh.1.1 = (tenant, id)) then Some (kh.1.2, kh.2) else None) (map_to_list (hits s))).
Definition results_of (s : store) (tenant id after : string) (limit : Z) : res results :=
  check ((1 <=? limit) && (limit <=? 1000)) ValueError;;
  match load s tenant id with
  | None => Raise KeyError
  | Some (_, st) =>
      let rows := take (S (Z.to_nat limit)) (List.filter (λ r : string * hit, ltb after r.1) (hits_of s tenant id)) in
      Ok {| r_id := id; r_tenant := tenant; r_complete := s_complete st; r_unsupported := s_unsupported st;
            r_hits := snd <$> take (Z.to_nat limit) rows;
            r_next_after := if limit <? Z.of_nat (length rows) then fst <$> rows !! Z.to_nat (limit - 1) else None |}
  end.

Section worker.
Context (valid : job → bool) (saved_sets : list (string * list (string * list saved_intel))).
Context (ip_address : string → option (Z * string)) (urlsplit : string → res url)
  (urlunsplit : string → string → string → string) (is_network : string → bool) (in_network : string → string → bool)
  (digest : val → string).
Abbreviation norm_ind := (norm_indicator ip_address urlsplit urlunsplit).

(** ** Preparing a hunt *)

Fixpoint saved_indicators_onto (records : list saved_intel) (tenant : string) : res (list indicator) :=
  match records with
  | [] => Ok []
  | r :: records =>
      check (String.eqb (sv_tenant r) tenant) ValueError;;
      let dates := List.filter str_truthy (sv_observed r) in
      check (match dates with [] => false | _ => true end) ValueError;;
      known ← mapM_res (λ d, t ← _parse_ts d; Ok (t, d)) dates;
      rest ← saved_indicators_onto records tenant;
      Ok ({| in_type := sv_type r; in_value := sv_indicator r;
             in_known := match min_by fst known with Some td => td.2 | None => "" end |} :: rest)
  end.
Definition saved_indicators (records : list saved_intel) (tenant : string) : res (list indicator) :=
  check ((1 <=? length records)%nat && (length records <=? 100)%nat) ValueError;;
  saved_indicators_onto records tenant.

Definition normalized (i : indicator) : res indicator :=
  _parse_ts (in_known i);;
  v ← norm_ind (in_type i) (in_value i);
  check (str_truthy v) ValueError;;
  check (negb (String.eqb (in_type i) "ip") || is_network v) ValueError;;
  Ok {| in_type := in_type i; in_value := v; in_known := in_known i |}.
Definition with_indicators (j : job) (inds : list indicator) : job :=
  {| j_tenant := j_tenant j; j_hunt_id := j_hunt_id j; j_from := j_from j; j_to := j_to j;
     j_indicators := Some inds; j_intel_set := ""; j_page_size := j_page_size j |}.
Definition MAX_HUNT : Z := 31 * MAX_WINDOW.
Definition prepare (j : job) (tenant : string) : res (list indicator) :=
  check (valid j) ValueError;;
  check (String.eqb (j_tenant j) tenant) PermissionError;;
  '(frm, to) ← parse_window (j_from j) (j_to j);
  check (to - frm <=? MAX_HUNT) ValueError;;
  inds ← match j_indicators j with
       | Some inds => Ok inds
       | None =>
           match assoc (j_intel_set j) (default [] (assoc tenant saved_sets)) with
           | None => Raise ValueError
           | Some records => saved_indicators records tenant
           end
       end;
  check (valid (with_indicators j inds)) ValueError;;
  mapM_res normalized inds.

(** ** Matching an observation *)

Definition matches (i : indicator) (kind value : string) : res bool :=
  if negb (String.eqb (in_type i) kind) then Ok false
  else if String.eqb kind "ip" then
    Ok (match ip_address value with Some _ => is_network (in_value i) && in_network value (in_value i) | None => false end)
  else v ← norm_ind kind value; Ok (String.eqb v (in_value i)).
Fixpoint matched_fields (i : indicator) (ds : list dim) : res (list string) :=
  match ds with
  | [] => Ok []
  | (kind, field, value) :: ds =>
      b ← (if mem kind SUPPORTED then matches i kind value else Ok false);
      rest ← matched_fields i ds;
      Ok (if b : bool then field :: rest else rest)
  end.
Definition as_dict (v : val) : res dict := match v with VDict d => Ok d | _ => Raise TypeError end.
Definition ts_field (k : string) (obs : dict) : res string :=
  ts ← dindex "ts" obs; ts ← as_dict ts; v ← dindex k ts;
  match v with VStr s => Ok s | _ => Raise ValueError end.
Definition indicator_val (i : indicator) : val :=
  VDict [("type", VStr (in_type i)); ("indicator", VStr (in_value i)); ("intel_known_at", VStr (in_known i))].
Definition hit_id (tenant id : string) (obs_id : val) (i : indicator) : string :=
  digest (canon (VList [VStr tenant; VStr id; obs_id; indicator_val i])).

Definition indicator_hit (tenant hunt : string) (obs : dict) (i : indicator) : res (option hit) :=
  ty ← dindex "type" obs;
  ds ← (if val_eq_str ty "file" then dimensions urlsplit obs
        else fields ← dindex "fields" obs; f ← as_dict fields; dimensions urlsplit f);
  fields ← matched_fields i ds;
  match fields with
  | [] => Ok None
  | _ =>
      obs_id ← dindex "obs_id" obs;
      observed ← ts_field "sensor" obs;
      ts ← dindex "ts" obs;
      source ← dindex "source_ref" obs;
      known ← _parse_ts (in_known i);
      seen ← _parse_ts observed;
      Ok (Some {| h_id := hit_id tenant hunt obs_id i; h_tenant := tenant;
                  h_obs_id := obs_id; h_indicator := i; h_observed := observed;
                  h_ts := ts; h_source := source; h_fields := isort Datatypes.id (remove_dups fields);
                  h_learned := seen <? known |})
  end.

(** The hits of one observation, which must be the tenant's and lie in the window. *)
Fixpoint indicator_hits (tenant hunt : string) (obs : dict) (inds : list indicator) : res (list hit) :=
  match inds with
  | [] => Ok []
  | i :: inds => h ← indicator_hit tenant hunt obs i; rest ← indicator_hits tenant hunt obs inds; Ok (option_list h ++ rest)
  end.
Definition observation_hits (tenant hunt : string) (frm to : Z) (inds : list indicator) (obs : dict) : res (list hit) :=
  t ← dindex "tenant" obs;
  check (val_eq_str t tenant) ValueError;;
  normalized ← ts_field "normalized" obs;
  at_ ← _parse_ts normalized;
  check ((frm <=? at_) && (at_ <? to)) ValueError;;
  ty ← dindex "type" obs;
  if val_in_strs ty OBS_TYPES then indicator_hits tenant hunt obs inds else Ok [].
Fixpoint page_hits (tenant hunt : string) (frm to : Z) (inds : list indicator) (os : list dict) : res (list hit) :=
  match os with
  | [] => Ok []
  | o :: os => hs ← observation_hits tenant hunt frm to inds o; rest ← page_hits tenant hunt frm to inds os; Ok (hs ++ rest)
  end.

(** ** One step *)

Definition new_state (j : job) (inds : list indicator) : state :=
  {| s_complete := false; s_from := j_from j; s_after := "";
     s_indicators := List.filter (λ i, mem (in_type i) SUPPORTED) inds;
     s_unsupported := List.filter (λ i, negb (mem (in_type i) SUPPORTED)) inds |}.
Definition completed (st : state) : state :=
  {| s_complete := true; s_from := s_from st; s_after := s_after st; s_indicators := s_indicators st; s_unsupported := s_unsupported st |}.
Definition moved (st : state) (frm after : string) : state :=
  {| s_complete := s_complete st; s_from := frm; s_after := after; s_indicators := s_indicators st; s_unsupported := s_unsupported st |}.

(** What a page does to the state, and the hits it gives. *)
Definition read_page (client : equery → res (list erow)) (j : job) (tenant : string) (st : state) : res (state * list hit) :=
  match s_indicators st with
  | [] => Ok (completed st, [])
  | inds =>
      p ← fetch_hunt_page client tenant (s_from st) (j_to j) (default 500 (j_page_size j)) (s_after st);
      '(frm, to) ← parse_window (j_from j) (j_to j);
      hs ← page_hits tenant (j_hunt_id j) frm to inds (p_observations p);
      match p_next p with
      | None => Ok (completed st, hs)
      | Some (nxt, after) =>
          t ← _parse_ts nxt;
          here ← _parse_ts (s_from st);
          check (ltb (here, s_after st) (t, after) && ltb (t, after) (to, "")) ValueError;;
          Ok (moved st nxt after, hs)
      end
  end.
Definition begin_or_resume (j : job) (tenant : string) : M store state :=
  let* prev := read (λ s, load s tenant (j_hunt_id j)) in
  match prev with
  | Some (original, st) => lift (check (bool_decide (original = j)) ValueError) ;* ret st
  | None =>
      let* inds := lift (prepare j tenant) in
      modify (λ s, save s tenant (j_hunt_id j) j (new_state j inds) []) ;*
      ret (new_state j inds)
  end.
Definition step (client : equery → res (list erow)) (j : job) (tenant : string) : M store results :=
  lift (check (valid j) ValueError) ;*
  lift (check (String.eqb (j_tenant j) tenant) PermissionError) ;*
  let* st := begin_or_resume j tenant in
  (if s_complete st then ret tt
   else
     let* r := lift (read_page client j tenant st) in
     modify (λ s, save s tenant (j_hunt_id j) j r.1 r.2)) ;*
  let* s := read Datatypes.id in
  lift (results_of s tenant (j_hunt_id j) "" 500).
End worker.

(** ** Facts *)

Section facts.
Context (valid : job → bool) (saved_sets : list (string * list (string * list saved_intel))).
Context (ip_address : string → option (Z * string)) (urlsplit : string → res url)
  (urlunsplit : string → string → string → string) (is_network : string → bool) (in_network : string → string → bool)
  (digest : val → string).
Context (dt64 : Z → Z) (view : list erow) (j : job) (tenant : string) (inds : list indicator) (frm to : Z).

Abbreviation obs_hits := (observation_hits ip_address urlsplit urlunsplit is_network in_network digest tenant (j_hunt_id j) frm to).
Abbreviation step' := (step valid saved_sets ip_address urlsplit urlunsplit is_network in_network digest).
Abbreviation prepare' := (prepare valid saved_sets ip_address urlsplit urlunsplit is_network).
Definition searched : list indicator := List.filter (λ i, mem (in_type i) SUPPORTED) inds.
Definition row_hits (r : erow) : list hit := match obs_hits searched (e_observation r) with Ok l => l | Raise _ => [] end.
(** The evidence of the hunt's window, in reading order. *)
Definition window_rows : list erow := upcoming dt64 view [tenant] None None None frm "" to.
Abbreviation upcoming' := (upcoming dt64 view [tenant] None None None).

(** The stored hits are those of the rows read so far. *)
Definition hits_for (m : gmap (string * string * string) hit) (rows : list erow) : Prop :=
  (∀ x h, m !! (tenant, j_hunt_id j, x) = Some h → h_id h = x ∧ ∃ r, r ∈ rows ∧ h ∈ row_hits r) ∧
  (∀ r h, r ∈ rows → h ∈ row_hits r → is_Some (m !! (tenant, j_hunt_id j, h_id h))).

Lemma insert_hits m hs x :
  (∀ h, foldl (insert_or_ignore tenant (j_hunt_id j)) m hs !! (tenant, j_hunt_id j, x) = Some h →
     m !! (tenant, j_hunt_id j, x) = Some h ∨ h ∈ hs ∧ h_id h = x) ∧
  (is_Some (m !! (tenant, j_hunt_id j, x)) ∨ (∃ h, h ∈ hs ∧ h_id h = x) →
     is_Some (foldl (insert_or_ignore tenant (j_hunt_id j)) m hs !! (tenant, j_hunt_id j, x))).
Proof.
  clear. revert m. induction hs as [|h0 hs IH]; intros m; cbn [foldl].
  { split; [by left|]. intros [H|(h & Hh & _)]; [done|]. by apply elem_of_nil in Hh. }
  destruct (IH (insert_or_ignore tenant (j_hunt_id j) m h0)) as [H1 H2].
  split.
  - intros h Hh. destruct (H1 h Hh) as [Hx|[Hx E]]; [|right; split; [by right|done]].
    unfold insert_or_ignore in Hx. destruct (m !! (tenant, j_hunt_id j, h_id h0)) as [h'|] eqn:E; [by left|].
    apply lookup_insert_Some in Hx as [[[= E1] <-]|[_ Hx]]; [|by left]. right. split; [by left|done].
  - intros Hx. apply H2. unfold insert_or_ignore. destruct (m !! (tenant, j_hunt_id j, h_id h0)) as [h'|] eqn:E.
    + destruct Hx as [Hx|(h & Hh & <-)]; [by left|]. apply elem_of_cons in Hh as [->|Hh]; [left; by exists h'|right; by exists h].
    + destruct Hx as [[h Hx]|(h & Hh & <-)]; [left|apply elem_of_cons in Hh as [->|Hh]; [left|right; by exists h]].
      * destruct (decide (x = h_id h0)) as [->|Hne]; [congruence|]. exists h. rewrite lookup_insert_ne; [done|congruence].
      * exists h0. by rewrite lookup_insert_eq.
Qed.
Lemma hits_for_more m rows more :
  hits_for m rows → hits_for (foldl (insert_or_ignore tenant (j_hunt_id j)) m (mjoin (row_hits <$> more))) (rows ++ more).
Proof.
  intros [H1 H2]. split.
  - intros x h Hx. apply insert_hits in Hx as [Hx|[Hx Hid]].
    + destruct (H1 x h Hx) as (? & r & ? & ?). split; [done|]. exists r. split; [|done]. apply elem_of_app. by left.
    + split; [done|]. apply list_elem_of_join in Hx as (l & Hh & (r & -> & Hr)%list_elem_of_fmap). exists r. split; [|done]. apply elem_of_app. by right.
  - intros r h [Hr|Hr]%elem_of_app Hh; apply insert_hits; [left; by eapply H2|right]. exists h. split; [|done].
    apply list_elem_of_join. exists (row_hits r). split; [done|]. by apply list_elem_of_fmap_2.
Qed.

Context (unit_ : Z) (unit_pos : 0 < unit_) (unit_second : (unit_ | 1000000)) (dt64_floor : ∀ t, dt64 t = t - t mod unit_).
Context (view_ok : wf_view dt64 view [tenant] None None None).
(** The observations of the window can be read: fields, times and tenant are as the view has them. *)
Context (readable : ∀ r, r ∈ window_rows → is_ok (obs_hits searched (e_observation r)) = true).
Context (j_valid : valid j = true) (j_mine : j_tenant j = tenant) (tenant_ok : str_truthy tenant = true).
Context (j_prepared : prepare' j tenant = Ok inds) (j_window : parse_window (j_from j) (j_to j) = Ok (frm, to)).
Context (j_pages : 1 <= default 500 (j_page_size j)).
Context (frm_bound : exact dt64 frm) (to_bound : exact dt64 to) (to_max : to + MAX_WINDOW <= datetime_max).

Lemma page_hits_rows rows :
  rows ⊆ window_rows →
  page_hits ip_address urlsplit urlunsplit is_network in_network digest tenant (j_hunt_id j) frm to searched (e_observation <$> rows) =
  Ok (mjoin (row_hits <$> rows)).
Proof using readable.
  induction rows as [|r rows IH]; intros Hs; [done|]. cbn [fmap list_fmap page_hits].
  assert (Hr : is_ok (obs_hits searched (e_observation r)) = true) by (apply readable, Hs; left).
  destruct (obs_hits searched (e_observation r)) as [l|] eqn:E; [|done]. cbn [mbind res_bind].
  rewrite IH by (intros x Hx; apply Hs; by right). cbn [mbind res_bind]. f_equal. cbn [mjoin list_join]. f_equal.
  unfold row_hits. by rewrite E.
Qed.

(** The size of a page of the hunt, and what keeps paging from standing still: the rows'
    times are bound as they are, or fewer of them than a page fall into any one unit. *)
Definition page_size : nat := Z.to_nat (Z.min (default 500 (j_page_size j)) MAX_PAGE_SIZE).
Definition paced : Prop :=
  (∀ r, r ∈ window_rows → exact dt64 (e_time r)) ∨
  ∀ t, (length (List.filter (λ r, (dt64 (e_time r) =? dt64 t)%Z) window_rows) < page_size)%nat.
Context (pace : paced).

(** Where a hunt stands: the rows [seen] have been read, and every other one comes after the
    bound position. *)
Definition stands (s : store) (st : state) : Prop :=
  load s tenant (j_hunt_id j) = Some (j, st) ∧ s_indicators st = searched ∧
  if s_complete st then hits_for (hits s) window_rows
  else ∃ t seen, _parse_ts (s_from st) = Ok t ∧ str_truthy (s_from st) = true ∧ frm <= t < to ∧
    ((∀ r, r ∈ window_rows → exact dt64 (e_time r)) → exact dt64 t) ∧
    seen ⊆ window_rows ∧ (∀ r, r ∈ window_rows → r ∈ seen ∨ r ∈ upcoming' (dt64 t) (s_after st) to) ∧ hits_for (hits s) seen.
Definition todo (st : state) : nat :=
  if s_complete st then 0%nat
  else S (match _parse_ts (s_from st) with
          | Ok t => length (upcoming' t (s_after st) to) + Z.to_nat ((to - t) / MAX_WINDOW)
          | Raise _ => 0
          end).

Lemma todo_pos s st : stands s st → s_complete st = false → (0 < todo st)%nat.
Proof. clear. intros _ H. unfold todo. rewrite H. lia. Qed.
Lemma window_inv : frm < to ∧ is_datetime frm = true ∧ is_datetime to = true.
Proof using j_window. by eapply parse_window_inv. Qed.
Lemma between_datetime t : frm <= t < to → is_datetime t = true.
Proof using j_window. intros Ht. destruct window_inv as (_ & H1 & H2). eapply datetime_between; [exact H1|exact H2|lia]. Qed.
Lemma parse_from t s : _parse_ts s = Ok t → str_truthy s = true → frm <= t < to → parse_window s (j_to j) = Ok (t, to).
Proof using j_window.
  intros Hs Ht Hlt. pose proof j_window as Hw. unfold parse_window in *. apply bind_ok_inv in Hw as ([] & Hn & Hw).
  destruct (str_truthy (j_to j)) eqn:Eto; [|by rewrite andb_false_r in Hn]. rewrite Ht. cbn [andb check mbind res_bind]. rewrite Hs.
  cbn [mbind res_bind]. apply bind_ok_inv in Hw as (a & _ & Hw). apply bind_ok_inv in Hw as (b & Hb & Hw). rewrite Hb. cbn [mbind res_bind].
  apply bind_ok_inv in Hw as ([] & _ & [= _ ->]). by rewrite (proj2 (Z.ltb_lt t to)) by lia.
Qed.

(** What is read from a position in the window is in the window. *)
Lemma upcoming_window t a r : frm <= t → r ∈ upcoming' (dt64 t) a to → r ∈ window_rows.
Proof using unit_pos dt64_floor view_ok frm_bound.
  intros Ht (H1 & H2 & H3)%upcoming_elem. apply upcoming_elem. split_and!; [done| |done].
  pose proof (dt_mono dt64 unit_ unit_pos dt64_floor frm t Ht) as Hm. rewrite frm_bound in Hm.
  apply in_scope_elem in H1 as [Hv _]. apply view_ok in Hv as (Hid & _). unfold row_key in *. rewrite ltb_pair in *.
  assert (Hpos : ltb "" (e_obs_id r) = true) by (unfold ltb; simpl; by destruct (e_obs_id r)). rewrite Hpos, andb_true_r.
  apply orb_true_iff in H2 as [H2%Z.ltb_lt|[H2%Z.eqb_eq _]%andb_true_iff]; rewrite orb_true_iff, Z.ltb_lt, Z.eqb_eq; lia.
Qed.
(** A full page passes the position it was read from: fewer rows than a page lie between
    the bound position and the position. *)
Lemma page_passes t a r n :
  frm <= t → ((∀ r, r ∈ window_rows → exact dt64 (e_time r)) → exact dt64 t) →
  n = page_size → (n < length (upcoming' (dt64 t) a to))%nat → last (take n (upcoming' (dt64 t) a to)) = Some r →
  ltb (t, a) (row_key r) = true ∧ (length (upcoming' (dt64 t) a to) - n < length (upcoming' t a to))%nat.
Proof using unit_pos dt64_floor view_ok frm_bound j_pages pace.
  intros Ht Hex -> Hn Hl. set (V := upcoming' (dt64 t) a to) in *. set (B := λ x, leb (row_key x) (t, a)).
  assert (HsV : StronglySorted (λ x y, ltb (row_key x) (row_key y) = true) V) by (apply filter_sorted; by eapply in_scope_strict).
  assert (Hsplit : List.filter B V ++ upcoming' t a to = V).
  { rewrite <- (filter_split _ B V HsV) at 2.
    - f_equal. unfold V, upcoming. rewrite filter_filter. apply filter_ext_in'. intros x _. unfold range, B.
      rewrite <- ltb_leb. destruct (ltb (t, a) (row_key x)) eqn:E; [|by rewrite andb_false_r].
      by rewrite (bound_before dt64 unit_ unit_pos dt64_floor t a x E), andb_true_r.
    - unfold B. intros x y Hxy Hy. eapply leb_trans; [|exact Hy]. by apply ltb_weaken. }
  assert (Hpage : (0 < page_size)%nat) by (unfold page_size, MAX_PAGE_SIZE; lia).
  assert (Hfew : (length (List.filter B V) < page_size)%nat).
  { destruct pace as [Hrows|Hrows].
    - assert (E : List.filter B V = []); [|rewrite E; simpl; lia]. destruct (List.filter B V) as [|x l] eqn:E; [done|].
      assert (Hx : In x (List.filter B V)) by (rewrite E; by left). apply filter_In in Hx as [Hx HB].
      apply list_elem_of_In, upcoming_elem in Hx as (_ & Hx & _). rewrite (Hex Hrows) in Hx. unfold B in HB. rewrite ltb_leb in Hx. by rewrite HB in Hx.
    - eapply Nat.le_lt_trans; [|exact (Hrows t)].
      apply submseteq_length, NoDup_submseteq.
      + eapply (NoDup_fmap_1 row_key), filter_keys_nodup, filter_keys_nodup, in_scope_nodup. done.
      + intros x Hx. apply list_elem_of_In, filter_In in Hx as [Hx HB]. apply list_elem_of_In in Hx.
        apply list_elem_of_In, filter_In. rewrite <- list_elem_of_In. split; [by eapply upcoming_window|].
        apply upcoming_elem in Hx as (_ & Hx & _). assert (HB' : ltb (t, a) (row_key x) = false) by (unfold B in HB; by rewrite ltb_leb, HB).
        unfold row_key in Hx, HB'. rewrite ltb_pair in Hx, HB'. apply orb_false_iff in HB' as [HB'%Z.ltb_ge _].
        assert (Hge : dt64 t <= e_time x) by (apply orb_true_iff in Hx as [Hx%Z.ltb_lt|[Hx%Z.eqb_eq _]%andb_true_iff]; lia).
        pose proof (dt_mono dt64 unit_ unit_pos dt64_floor _ _ Hge) as H1. rewrite (dt_exact dt64 unit_ unit_pos dt64_floor) in H1.
        pose proof (dt_mono dt64 unit_ unit_pos dt64_floor _ _ HB'). apply Z.eqb_eq. lia. }
  assert (Hlen : (length (List.filter B V) + length (upcoming' t a to))%nat = length V) by (by rewrite <- length_app, Hsplit).
  split; [|lia]. rewrite <- Hsplit, take_app_ge, last_app in Hl by lia.
  destruct (last (take _ (upcoming' t a to))) as [r'|] eqn:El.
  - injection Hl as ->. apply last_Some_elem_of in El. eapply elem_of_sublist in El; [|apply sublist_take]. by apply upcoming_elem in El as (_ & ? & _).
  - apply last_None in El. apply (f_equal length) in El. rewrite length_take in El. simpl in El. lia.
Qed.
Lemma hits_for_same m rows rows' : (∀ r, r ∈ rows ↔ r ∈ rows') → hits_for m rows → hits_for m rows'.
Proof. clear. intros E [H1 H2]. split; [intros x h Hx; destruct (H1 x h Hx) as (? & r & ?%E & ?); eauto|intros r h Hr; by apply H2, E]. Qed.

(** What one page gives: rows of the window, and a position that passes the last. *)
Abbreviation read_page' := (read_page ip_address urlsplit urlunsplit is_network in_network digest).
Lemma hunt_page client t a p :
  (∀ q rows, client q = Ok rows → answers dt64 view q rows) → frm <= t < to →
  ((∀ r, r ∈ window_rows → exact dt64 (e_time r)) → exact dt64 t) →
  fetch_observations client [tenant] None t to None (Z.min (default 500 (j_page_size j)) MAX_PAGE_SIZE) a None = Ok p →
  ∃ rows, rows ⊆ window_rows ∧ p_observations p = e_observation <$> rows ∧
    match p_next p with
    | None => ∀ r, r ∈ upcoming' (dt64 t) a to → r ∈ rows
    | Some (s, a') => ∃ t', s = _iso t' ∧ t <= t' < to ∧ ltb (t, a) (t', a') = true ∧
        ((∀ r, r ∈ window_rows → exact dt64 (e_time r)) → exact dt64 t') ∧
        (∀ r, r ∈ upcoming' (dt64 t) a to → r ∈ rows ∨ r ∈ upcoming' (dt64 t') a' to) ∧
        (length (upcoming' t' a' to) + Z.to_nat ((to - t') / MAX_WINDOW) < length (upcoming' t a to) + Z.to_nat ((to - t) / MAX_WINDOW))%nat
    end.
Proof using unit_pos unit_second dt64_floor view_ok frm_bound to_bound j_pages pace.
  intros Hans Hrange Hex Hp. set (V := upcoming' (dt64 t) a to).
  destruct (page_spec dt64 client view [tenant] None None None unit_ unit_pos unit_second dt64_floor Hans view_ok t a to
    (Z.min (default 500 (j_page_size j)) MAX_PAGE_SIZE) p to_bound
    ltac:(lia) ltac:(unfold MAX_PAGE_SIZE; lia) Hp) as (n & Hobs & Hnext). fold V in Hobs, Hnext.
  assert (Htake : ∀ r, r ∈ take n V → r ∈ V) by (intros r Hr; eapply elem_of_sublist; [exact Hr|apply sublist_take]).
  assert (Hall : ∀ r, r ∈ V → r ∈ take n V ∨ r ∈ drop n V) by (intros r Hr; rewrite <- (take_drop n V) in Hr; by apply elem_of_app in Hr).
  assert (Hwin : take n V ⊆ window_rows) by (intros r Hr%Htake; eapply upcoming_window; [|exact Hr]; lia).
  exists (take n V). split; [exact Hwin|]. split; [exact Hobs|]. destruct (p_next p) as [[s a']|].
  - destruct Hnext as (t' & -> & Htt & Hcase). exists t'. split; [done|].
    assert (0 <= (to - t') / MAX_WINDOW) by (apply Z.div_pos; unfold MAX_WINDOW; lia).
    destruct Hcase as [(r & En & Hn & Hl & Ek & E)|(-> & -> & E)].
    + destruct (page_passes t a r n ltac:(lia) Hex En Hn Hl) as [Hgt Hlen]. rewrite <- Ek in Hgt.
      assert (Hle : t <= t') by (rewrite ltb_pair in Hgt; apply orb_true_iff in Hgt as [Hx%Z.ltb_lt|[Hx%Z.eqb_eq _]%andb_true_iff]; lia).
      assert ((to - t') / MAX_WINDOW <= (to - t) / MAX_WINDOW) by (apply Z.div_le_mono; unfold MAX_WINDOW; lia).
      split_and!; [done|done|done| | |].
      * intros Hrows. injection Ek as -> _. by apply Hrows, Hwin, last_Some_elem_of.
      * intros x [Hx|Hx]%Hall; [by left|right]. rewrite <- E in Hx. apply upcoming_elem in Hx as (H1 & H2 & H3).
        apply upcoming_elem. split_and!; [done| |done]. by eapply bound_before.
      * fold V in Hlen. rewrite E, length_drop. lia.
    + assert (Hd : (to - t) / MAX_WINDOW = (to - (t + MAX_WINDOW)) / MAX_WINDOW + 1) by (rewrite <- Z.div_add by done; f_equal; lia).
      split_and!; [unfold MAX_WINDOW; lia|done| | | |].
      * rewrite ltb_pair. rewrite (proj2 (Z.ltb_lt _ _)); [done|unfold MAX_WINDOW; lia].
      * intros Hrows. unfold exact. erewrite dt_day by done. by rewrite (Hex Hrows).
      * intros x [Hx|Hx]%Hall; [by left|right]. by rewrite E.
      * assert (length (upcoming' (t + MAX_WINDOW) "" to) <= length (upcoming' t a to))%nat; [|lia].
        replace (upcoming' (t + MAX_WINDOW) "" to) with (List.filter (range (t + MAX_WINDOW) "" to) (upcoming' t a to)); [apply sublist_length, filter_sublist|].
        unfold upcoming. rewrite filter_filter. apply filter_ext_in'. intros x _. unfold range, row_key. rewrite !ltb_pair.
        destruct (Z.ltb_spec t (e_time x)); [cbn [orb andb]; destruct (e_time x <? to); by rewrite ?andb_true_r, ?andb_false_r|].
        rewrite (proj2 (Z.ltb_ge (t + MAX_WINDOW) _)), (proj2 (Z.eqb_neq _ (t + MAX_WINDOW))) by (unfold MAX_WINDOW; lia). by rewrite andb_false_r.
  - intros r [Hr|Hr]%Hall; [done|]. rewrite Hnext in Hr. by apply elem_of_nil in Hr.
Qed.

(** A page that is read moves the hunt on or completes it. *)
Lemma read_page_moves client s st st' hs :
  (∀ q rows, client q = Ok rows → answers dt64 view q rows) →
  stands s st → s_complete st = false → read_page' client j tenant st = Ok (st', hs) →
  stands (save s tenant (j_hunt_id j) j st' hs) st' ∧ (todo st' < todo st)%nat.
Proof using unit_pos unit_second dt64_floor view_ok readable j_window frm_bound to_bound j_pages pace.
  intros Hans (Hload & Hind & Hst) Hc. rewrite Hc in Hst. destruct Hst as (t & seen & Ht & Htt & Hrange & Hex & Hseen & Hcover & Hhits).
  unfold read_page. rewrite Hind. case_eq searched; [intros Es|intros i0 is0 Es].
  - intros [= <- <-]. split; [|unfold todo; cbn; rewrite Hc; lia]. split_and!; [by unfold load; cbn; rewrite lookup_insert_eq|cbn; congruence|].
    cbn. assert (Hnil : ∀ r, row_hits r = []).
    { intros r. unfold row_hits. destruct (obs_hits searched (e_observation r)) as [l|] eqn:E; [|done]. rewrite Es in E.
      unfold observation_hits in E. do 5 (apply bind_ok_inv in E as (? & _ & E)). apply bind_ok_inv in E as (ty & _ & E).
      destruct (val_in_strs ty OBS_TYPES); by injection E as <-. }
    destruct Hhits as [H1 _]. split.
    + intros x h Hx. destruct (H1 x h Hx) as (_ & r & _ & Hr). rewrite Hnil in Hr. by apply elem_of_nil in Hr.
    + intros r h _ Hr. rewrite Hnil in Hr. by apply elem_of_nil in Hr.
  - rewrite <- Es. unfold fetch_hunt_page. intros H. apply bind_ok_inv in H as (p & Hp & H).
    apply bind_ok_inv in Hp as ([] & _ & Hp). rewrite (parse_from t _ Ht Htt Hrange) in Hp. cbn [mbind res_bind] in Hp.
    unfold clamp_page_size in Hp. cbn [py_int mbind res_bind] in Hp. rewrite (proj2 (Z.leb_le 1 _)) in Hp by done. cbn [check mbind res_bind] in Hp.
    destruct (hunt_page client t _ p Hans Hrange Hex Hp) as (rows & Hwin & Hobs & Hnext).
    rewrite j_window in H. cbn [mbind res_bind] in H. apply bind_ok_inv in H as (hs' & Hhs & H).
    rewrite Hobs, page_hits_rows in Hhs by done. injection Hhs as <-. pose proof (hits_for_more (hits s) seen rows Hhits) as Hmore.
    assert (Hsub : seen ++ rows ⊆ window_rows) by (intros x [Hx|Hx]%elem_of_app; auto).
    destruct (p_next p) as [[nxt after]|] eqn:En.
    + destruct Hnext as (t' & -> & Hrange' & Hgt & Hex' & Hcov & Hlen).
      assert (Hp' : _parse_ts (_iso t') = Ok t') by (apply parse_iso; apply between_datetime; lia).
      rewrite Hp' in H. cbn [mbind res_bind] in H. rewrite Ht in H. cbn [mbind res_bind] in H.
      apply bind_ok_inv in H as ([] & _ & [= <- <-]). split.
      * split_and!; [by unfold load; cbn; rewrite lookup_insert_eq|done|]. cbn. rewrite Hc. exists t', (seen ++ rows).
        split_and!; [done|exact (iso_truthy t')|lia|lia|exact Hex'|exact Hsub| |exact Hmore].
        intros r [Hr|[Hr|Hr]%Hcov]%Hcover; [left; apply elem_of_app; by left|left; apply elem_of_app; by right|by right].
      * unfold todo. cbn [s_complete s_from s_after moved]. rewrite Hc, Hp', Ht. lia.
    + injection H as <- <-. split; [|unfold todo; cbn; rewrite Hc; lia].
      split_and!; [by unfold load; cbn; rewrite lookup_insert_eq|done|]. cbn. eapply hits_for_same; [|exact Hmore]. intros r. split; [apply Hsub|].
      intros [Hr|Hr%Hnext]%Hcover; apply elem_of_app; auto.
Qed.

(** A page that can be fetched is read. *)
Lemma read_page_total client s st :
  (∀ q rows, client q = Ok rows → answers dt64 view q rows) → (∀ q, is_ok (client q) = true) →
  stands s st → s_complete st = false → is_ok (read_page' client j tenant st) = true.
Proof using unit_pos unit_second dt64_floor view_ok readable j_window frm_bound to_bound to_max j_pages tenant_ok pace.
  intros Hans Hok (Hload & Hind & Hst) Hc. rewrite Hc in Hst. destruct Hst as (t & seen & Ht & Htt & Hrange & Hex & _).
  unfold read_page. rewrite Hind. case_eq searched; [done|intros i0 is0 Es]. rewrite <- Es.
  unfold fetch_hunt_page. rewrite tenant_ok. cbn [check mbind res_bind]. rewrite (parse_from t _ Ht Htt Hrange).
  cbn [mbind res_bind]. unfold clamp_page_size. cbn [py_int mbind res_bind].
  rewrite (proj2 (Z.leb_le 1 _)) by done. cbn [check mbind res_bind]. set (ps := Z.min _ MAX_PAGE_SIZE).
  assert (Hps : 1 <= ps) by (unfold ps, MAX_PAGE_SIZE; lia).
  pose proof (page_total dt64 client view [tenant] None None None Hans view_ok t (s_after st) to ps
    ltac:(lia) Hps ltac:(by apply between_datetime) to_max Hok) as Htot.
  destruct (fetch_observations client [tenant] None t to None ps (s_after st) None) as [p|] eqn:Ep; [|done].
  cbn [mbind res_bind]. rewrite j_window. cbn [mbind res_bind].
  destruct (hunt_page client t _ p Hans Hrange Hex Ep) as (rows & Hwin & Hobs & Hnext).
  rewrite Hobs, page_hits_rows by done. cbn [mbind res_bind]. destruct (p_next p) as [[nxt after]|]; [|done].
  destruct Hnext as (t' & -> & Hrange' & Hgt & _).
  rewrite parse_iso by (apply between_datetime; lia). cbn [mbind res_bind]. rewrite Ht. cbn [mbind res_bind]. rewrite Hgt.
  rewrite ltb_pair. by rewrite (proj2 (Z.ltb_lt t' to)) by lia.
Qed.

(** ** Whole hunts *)

(** A hunt that was never asked for. *)
Definition untouched (s : store) : Prop := load s tenant (j_hunt_id j) = None ∧ ∀ x, hits s !! (tenant, j_hunt_id j, x) = None.
Definition run (clients : list (equery → res (list erow))) (s : store) : store :=
  foldl (λ s client, (step' client j tenant s).1) s clients.
Definition on_track (s : store) (n : nat) : Prop := ∃ st, stands s st ∧ (todo st <= n)%nat.
Definition truthful (client : equery → res (list erow)) : Prop := ∀ q rows, client q = Ok rows → answers dt64 view q rows.
Definition available (client : equery → res (list erow)) : Prop := ∀ q, is_ok (client q) = true.

Lemma begin_stands s : untouched s → stands (save s tenant (j_hunt_id j) j (new_state j inds) []) (new_state j inds).
Proof using unit_pos dt64_floor view_ok j_window frm_bound.
  intros [Hl Hh]. split_and!; [by unfold load; cbn; rewrite lookup_insert_eq|done|]. cbn. exists frm, [].
  destruct window_inv as (Hlt & _). pose proof j_window as Hw. unfold parse_window in Hw. apply bind_ok_inv in Hw as ([] & Hn & Hw).
  apply bind_ok_inv in Hw as (a & Ha & Hw). apply bind_ok_inv in Hw as (b & _ & Hw). apply bind_ok_inv in Hw as ([] & _ & [= -> _]).
  split_and!.
  - exact Ha.
  - by destruct (str_truthy (j_from j)).
  - lia.
  - lia.
  - done.
  - intros r Hr. by apply elem_of_nil in Hr.
  - intros r Hr. right. by rewrite frm_bound.
  - split; [intros x h Hx; by rewrite Hh in Hx|intros r h Hr; by apply elem_of_nil in Hr].
Qed.
Lemma step_begins client s :
  step' client j tenant s =
  match begin_or_resume valid saved_sets ip_address urlsplit urlunsplit is_network j tenant s with
  | (s1, Ok st) =>
      ((if s_complete st then ret tt
        else let* r := lift (read_page' client j tenant st) in
             modify (λ s, save s tenant (j_hunt_id j) j r.1 r.2)) ;*
       let* s := read Datatypes.id in lift (results_of s tenant (j_hunt_id j) "" 500)) s1
  | (s1, Raise e) => (s1, Raise e)
  end.
Proof using j_valid j_mine. unfold step. rewrite j_valid, j_mine, String.eqb_refl. reflexivity. Qed.
Lemma resumes s st :
  load s tenant (j_hunt_id j) = Some (j, st) →
  begin_or_resume valid saved_sets ip_address urlsplit urlunsplit is_network j tenant s = (s, Ok st).
Proof. clear. intros H. unfold begin_or_resume, bind, read, lift. rewrite H. by rewrite bool_decide_true. Qed.
Lemma begins s :
  load s tenant (j_hunt_id j) = None →
  begin_or_resume valid saved_sets ip_address urlsplit urlunsplit is_network j tenant s =
    (save s tenant (j_hunt_id j) j (new_state j inds) [], Ok (new_state j inds)).
Proof using j_prepared. intros H. unfold begin_or_resume, bind, read, lift. rewrite H. by rewrite j_prepared. Qed.

Lemma step_track client s st :
  truthful client → stands s st →
  ∃ st', stands (step' client j tenant s).1 st' ∧ (todo st' <= todo st)%nat ∧
    (available client → todo st ≠ 0%nat → (todo st' < todo st)%nat).
Proof using unit_pos unit_second dt64_floor view_ok readable j_window frm_bound to_bound pace to_max j_pages tenant_ok j_valid j_mine.
  intros Hans Hst. pose proof Hst as (Hload & _). rewrite step_begins, (resumes s st Hload).
  unfold bind at 1. destruct (s_complete st) eqn:Ec.
  - exists st. split_and!; [done|lia|]. intros _ Hne. unfold todo in Hne. by rewrite Ec in Hne.
  - unfold bind at 1, lift at 1. destruct (read_page' client j tenant st) as [[st' hs]|e] eqn:Er.
    + destruct (read_page_moves client s st st' hs Hans Hst Ec Er) as [H1 H2]. exists st'. split_and!; [exact H1|lia|lia].
    + exists st. split_and!; [done|lia|]. intros Hok _.
      pose proof (read_page_total client s st Hans Hok Hst Ec) as Hx. by rewrite Er in Hx.
Qed.
Lemma first_step client s :
  untouched s → step' client j tenant s = step' client j tenant (save s tenant (j_hunt_id j) j (new_state j inds) []).
Proof using unit_pos dt64_floor view_ok j_window frm_bound j_valid j_mine j_prepared.
  intros Hs. pose proof (begin_stands s Hs) as [Hload _]. rewrite !step_begins, (begins s (proj1 Hs)).
  by rewrite (resumes _ _ Hload).
Qed.
Lemma run_track clients s st :
  Forall truthful clients → stands s st →
  ∃ st', stands (run clients s) st' ∧ (todo st' <= todo st)%nat ∧
    (∀ good, good ⊆+ clients → Forall available good → (todo st' <= todo st - length good)%nat).
Proof using unit_pos unit_second dt64_floor view_ok readable j_window frm_bound to_bound pace to_max j_pages tenant_ok j_valid j_mine.
  intros Hall. revert s st. induction Hall as [|c clients Hc Hall IH]; intros s st Hst.
  { exists st. split_and!; [done|lia|]. intros good Hg _. apply submseteq_nil_r in Hg as ->. simpl. lia. }
  destruct (step_track c s st Hc Hst) as (st1 & H1 & H2 & H3). destruct (IH _ _ H1) as (st2 & H4 & H5 & H6).
  exists st2. split_and!; [exact H4|lia|]. intros good Hg Hgood.
  apply submseteq_cons_r in Hg as [Hg|(good' & Hp & Hg)].
  - specialize (H6 good Hg Hgood). lia.
  - rewrite Hp in Hgood |- *. inversion Hgood as [|? ? Hok Hgood']; subst. specialize (H6 good' Hg Hgood'). simpl.
    destruct (decide (todo st = 0%nat)); [lia|]. specialize (H3 Hok ltac:(done)). lia.
Qed.

Lemma todo_new : todo (new_state j inds) = S (length window_rows + Z.to_nat ((to - frm) / MAX_WINDOW)).
Proof using j_window.
  unfold todo. cbn [s_complete s_from s_after new_state]. pose proof j_window as Hw. unfold parse_window in Hw.
  apply bind_ok_inv in Hw as ([] & _ & Hw). apply bind_ok_inv in Hw as (a & Ha & Hw). apply bind_ok_inv in Hw as (b & _ & Hw).
  apply bind_ok_inv in Hw as ([] & _ & [= -> _]). by rewrite Ha.
Qed.
Lemma run_from_start clients s :
  untouched s → Forall truthful clients → clients ≠ [] →
  ∃ st, stands (run clients s) st ∧
    (∀ good, good ⊆+ clients → Forall available good → (todo st <= todo (new_state j inds) - length good)%nat).
Proof using unit_pos unit_second dt64_floor view_ok readable j_window frm_bound to_bound pace to_max j_pages tenant_ok j_valid j_mine j_prepared.
  intros Hs Hall Hne. destruct clients as [|c clients]; [done|].
  assert (E : run (c :: clients) s = run (c :: clients) (save s tenant (j_hunt_id j) j (new_state j inds) [])).
  { unfold run. cbn [foldl]. by rewrite (first_step c s Hs). }
  rewrite E. destruct (run_track (c :: clients) _ _ Hall (begin_stands s Hs)) as (st & H1 & _ & H2). by exists st.
Qed.

(** C9. A hunt finishes and misses nothing.  Conditions: the hunt was not asked for
    before, its job is admitted by the contract and can be prepared, its tenant is the caller's, and the bounds of its window are whole
    units of the rounding with which the client binds times (seconds, or a finer unit that
    divides one) and end at least a day before the last time a datetime can hold; the
    evidence does not change during the hunt, its rows have distinct (time, identifier)
    pairs, and the observations of the window can be read; and either
    the times of these rows are whole units as well, or fewer rows than a page fall into
    any one unit.  Then, however requests that the database fails are interleaved with
    answered ones, as soon as as many answered requests as there are rows in the window,
    days in it, and one more have been made, the hunt is complete, and its stored hits are
    exactly those of the observations of its window, one per identifier. *)
Theorem hunt_completes clients good s :
  untouched s → Forall truthful clients → good ⊆+ clients → Forall available good →
  (S (length window_rows + Z.to_nat ((to - frm) / MAX_WINDOW)) <= length good)%nat →
  (∃ st, load (run clients s) tenant (j_hunt_id j) = Some (j, st) ∧ s_complete st = true) ∧
  hits_for (hits (run clients s)) window_rows.
Proof using unit_pos unit_second dt64_floor view_ok readable j_window frm_bound to_bound pace to_max j_pages tenant_ok j_valid j_mine j_prepared.
  intros Hs Hall Hg Hgood Hlen. rewrite <- todo_new in Hlen.
  destruct (run_from_start clients s Hs Hall) as (st & (Hload & Hind & Hst) & H).
  { intros ->. apply submseteq_nil_r in Hg as ->. simpl in Hlen. unfold todo in Hlen. cbn in Hlen. lia. }
  specialize (H good Hg Hgood). assert (Hz : todo st = 0%nat) by lia. unfold todo in Hz.
  destruct (s_complete st) eqn:Ec; [|done]. split; [by exists st|done].
Qed.

(** A hunt reports only what it found: at every moment of a run, interrupted or not,
    each stored hit is the hit of an observation of the hunt's tenant and window. *)
Theorem hunt_hits_are_evidence clients s x h :
  untouched s → Forall truthful clients → hits (run clients s) !! (tenant, j_hunt_id j, x) = Some h →
  h_id h = x ∧ ∃ r, r ∈ view ∧ e_tenant r = tenant ∧ frm <= e_time r < to ∧ h ∈ row_hits r.
Proof using unit_pos unit_second dt64_floor view_ok readable j_window frm_bound to_bound pace to_max j_pages tenant_ok j_valid j_mine j_prepared.
  intros Hs Hall Hx.
  assert (Hin : h_id h = x ∧ ∃ r, r ∈ window_rows ∧ h ∈ row_hits r).
  { destruct (decide (clients = [])) as [->|Hne]; [by rewrite (proj2 Hs) in Hx|].
    destruct (run_from_start clients s Hs Hall Hne) as (st & (_ & _ & Hst) & _). destruct (s_complete st).
    - by apply Hst.
    - destruct Hst as (t & seen & _ & _ & _ & _ & Hsub & _ & [H1 _]). destruct (H1 x h Hx) as (? & r & Hr & ?).
      split; [done|]. exists r. split; [by apply Hsub|done]. }
  destruct Hin as (Hid & r & Hr & Hh). split; [done|]. exists r. unfold window_rows, upcoming in Hr.
  apply list_elem_of_In, filter_In in Hr as [Hr Hrng]. apply list_elem_of_In, in_scope_elem in Hr as [Hv Hsc].
  unfold range, row_key in Hrng. rewrite ltb_pair in Hrng. apply andb_true_iff in Hrng as [Hlo Hhi%Z.ltb_lt].
  split_and!; try done.
  - unfold scoped, scope in Hsc. simpl in Hsc. rewrite andb_true_r in Hsc. apply mem_true in Hsc. set_solver.
  - apply orb_true_iff in Hlo as [Hlo%Z.ltb_lt|[Hlo%Z.eqb_eq _]%andb_true_iff]; lia.
Qed.
End facts.

(** ** A worked hunt *)

Definition dns_observation (id name at_ : string) : dict :=
  [("obs_id", VStr id); ("tenant", VStr "acme"); ("type", VStr "dns"); ("source_ref", VStr ("pcap:" +:+ id));
   ("ts", VDict [("normalized", VStr at_); ("sensor", VStr at_)]);
   ("fields", VDict [("src_ip", VStr "10.0.0.5"); ("dns", VDict [("rrname", VStr name)])])].
Definition dns_row (id name : string) (t : Z) : erow :=
  {| e_tenant := "acme"; e_obs_id := id; e_time := t; e_entities := ["10.0.0.5"]; e_type := "dns";
     e_observation := dns_observation id name (_iso t) |}.
Definition hunt_view : list erow :=
  [dns_row "obs:2" "good.example" 1772323200500000; dns_row "obs:1" "BAD.example" 1772323200500000;
   dns_row "obs:3" "bad.example " 1772409600000000].
Definition hunt_client (q : equery) : res (list erow) :=
  Ok (take (Z.to_nat (q_limit q)) (isort row_key (matching Datatypes.id q hunt_view))).
Definition down (q : equery) : res (list erow) := Raise OtherError.
Definition a_hunt : job :=
  {| j_tenant := "acme"; j_hunt_id := "h1"; j_from := "2026-03-01T00:00:00Z"; j_to := "2026-03-03T00:00:00Z";
     j_indicators := Some [{| in_type := "domain"; in_value := "Bad.Example"; in_known := "2026-03-05T00:00:00Z" |};
                           {| in_type := "url"; in_value := "http://bad/"; in_known := "2026-03-05T00:00:00Z" |}];
     j_intel_set := ""; j_page_size := Some 1 |}.
Definition obs_of (v : val) : string := match v with VList [_; _; VStr o; _] => o | _ => "" end.
Definition hunt_indicators : list indicator :=
  [{| in_type := "domain"; in_value := "bad.example"; in_known := "2026-03-05T00:00:00Z" |};
   {| in_type := "url"; in_value := "http://bad/"; in_known := "2026-03-05T00:00:00Z" |}].
Definition any_job (j : job) : bool := true.
Definition no_network (s : string) : bool := false.
Definition no_member (a n : string) : bool := false.
Definition hunt_clients : list (equery → res (list erow)) :=
  [hunt_client; down; hunt_client; hunt_client; down; hunt_client; hunt_client; hunt_client].
Definition good_clients : list (equery → res (list erow)) := replicate 6 hunt_client.
Definition hunt_run : store :=
  run any_job [] no_ip no_url join_url no_network no_member obs_of a_hunt "acme" hunt_clients empty_store.

Lemma hunt_client_truthful : truthful Datatypes.id hunt_view hunt_client.
Proof. intros q rows [= <-]. exists (isort row_key (matching Datatypes.id q hunt_view)). split_and!; [apply isort_perm|apply isort_sorted|done]. Qed.
Lemma down_truthful : truthful Datatypes.id hunt_view down.
Proof. intros q rows H. discriminate H. Qed.
Lemma hunt_clients_truthful : Forall (truthful Datatypes.id hunt_view) hunt_clients.
Proof. repeat constructor; apply hunt_client_truthful || apply down_truthful. Qed.
Lemma good_clients_available : Forall available good_clients.
Proof. repeat constructor. Qed.
Lemma good_among : good_clients ⊆+ hunt_clients.
Proof. repeat first [apply submseteq_nil_l|apply submseteq_skip|apply submseteq_cons]. Qed.
Lemma hunt_view_ok : wf_view Datatypes.id hunt_view ["acme"] None None None.
Proof.
  split; [by apply (bool_decide_eq_true_1 _); vm_compute|]. apply Forall_forall. unfold hunt_view. repeat constructor; vm_compute; done.
Qed.
Lemma hunt_readable r :
  r ∈ window_rows Datatypes.id hunt_view "acme" 1772323200000000 1772496000000000 →
  is_ok (observation_hits no_ip no_url join_url no_network no_member obs_of "acme" "h1" 1772323200000000 1772496000000000
           (searched hunt_indicators) (e_observation r)) = true.
Proof.
  revert r. apply Forall_forall.
  assert (E : forallb (λ r, is_ok (observation_hits no_ip no_url join_url no_network no_member obs_of "acme" "h1" 1772323200000000
    1772496000000000 (searched hunt_indicators) (e_observation r)))
    (window_rows Datatypes.id hunt_view "acme" 1772323200000000 1772496000000000) = true) by (vm_compute; reflexivity).
  apply Forall_forall. intros r Hr. rewrite forallb_forall in E. by apply E, list_elem_of_In.
Qed.

Lemma hunt_paced : paced Datatypes.id hunt_view a_hunt "acme" 1772323200000000 1772496000000000.
Proof. by left. Qed.

Lemma hunt_completes_witness :
  (∃ st, load hunt_run "acme" "h1" = Some (a_hunt, st) ∧ s_complete st = true) ∧
  map_to_list (hits hunt_run) ≠ [] ∧
  hits_for no_ip no_url join_url no_network no_member obs_of a_hunt "acme" hunt_indicators 1772323200000000 1772496000000000
    (hits hunt_run) (window_rows Datatypes.id hunt_view "acme" 1772323200000000 1772496000000000).
Proof.
  assert (Hprep : prepare any_job [] no_ip no_url join_url no_network a_hunt "acme" = Ok hunt_indicators) by (vm_compute; reflexivity).
  assert (Hwin : parse_window (j_from a_hunt) (j_to a_hunt) = Ok (1772323200000000, 1772496000000000)) by (vm_compute; reflexivity).
  destruct (hunt_completes any_job [] no_ip no_url join_url no_network no_member obs_of Datatypes.id hunt_view a_hunt "acme"
    hunt_indicators 1772323200000000 1772496000000000 1 eq_refl (Z.divide_1_l _) binds_all hunt_view_ok hunt_readable eq_refl eq_refl eq_refl Hprep Hwin
    ltac:(vm_compute; discriminate) eq_refl eq_refl ltac:(vm_compute; discriminate) hunt_paced hunt_clients good_clients empty_store
    (conj eq_refl (λ x, eq_refl)) hunt_clients_truthful good_among good_clients_available ltac:(vm_compute; lia)) as [H1 H2].
  split; [exact H1|]. split; [vm_compute; discriminate|exact H2].
Defined.
Lemma hunt_hits_are_evidence_witness :
  match hits hunt_run !! ("acme", "h1", "obs:3") with
  | Some h => h_learned h = true ∧ h_fields h = ["dns.rrname"] ∧ h_id h = "obs:3" ∧
      ∃ r : erow, r ∈ hunt_view ∧ e_tenant r = "acme" ∧ 1772323200000000 <= e_time r < 1772496000000000
  | None => False
  end.
Proof.
  assert (Hprep : prepare any_job [] no_ip no_url join_url no_network a_hunt "acme" = Ok hunt_indicators) by (vm_compute; reflexivity).
  assert (Hwin : parse_window (j_from a_hunt) (j_to a_hunt) = Ok (1772323200000000, 1772496000000000)) by (vm_compute; reflexivity).
  assert (E : ∃ h, hits hunt_run !! ("acme", "h1", "obs:3") = Some h ∧ h_learned h = true ∧ h_fields h = ["dns.rrname"]).
  { eexists. split; [vm_compute; reflexivity|]. split; reflexivity. }
  destruct E as (h & E & E1 & E2). rewrite E. split; [exact E1|]. split; [exact E2|].
  destruct (hunt_hits_are_evidence any_job [] no_ip no_url join_url no_network no_member obs_of Datatypes.id hunt_view a_hunt "acme"
    hunt_indicators 1772323200000000 1772496000000000 1 eq_refl (Z.divide_1_l _) binds_all hunt_view_ok hunt_readable eq_refl eq_refl eq_refl Hprep Hwin
    ltac:(vm_compute; discriminate) eq_refl eq_refl ltac:(vm_compute; discriminate) hunt_paced hunt_clients empty_store "obs:3" h
    (conj eq_refl (λ x, eq_refl)) hunt_clients_truthful E) as (Hid & r & H1 & H2 & H3 & _).
  split; [exact Hid|]. exact (ex_intro _ r (conj H1 (conj H2 H3))).
Defined.

(** Without the last condition a hunt can stand still: with times bound in whole seconds,
    two rows in the second of the position and pages of one row, every further request is
    given the same page again and refuses it, and the hunt never completes. *)
Definition hunt_in_seconds (q : equery) : res (list erow) :=
  Ok (take (Z.to_nat (q_limit q)) (isort row_key (matching in_seconds q hunt_view))).
Example stuck_within_a_second :
  let step' := step any_job [] no_ip no_url join_url no_network no_member obs_of hunt_in_seconds a_hunt "acme" in
  let s := (step' empty_store).1 in
  step' s = (s, Raise ValueError) ∧ ((λ js, s_complete js.2) <$> load s "acme" "h1") = Some false.
Proof. vm_compute. done. Qed.
