(* ===== verification/Correlation.v ===== *)
(** * Correlation of findings (services/correlation-service: correlate.py, app.py)

    Findings of an entity within a rolling window make an incident when they advance
    through the kill chain, touch several tactics or accumulate risk, and a corroboration
    when a learned and a heuristic detector agree.  Findings have the field types of
    their contract; times are microseconds.  [decay] is [0.5 ** (age / half_life)],
    [round3] is [round(x, 3)], [fsum] is [sum] on floats, [dumps] is [json.dumps]. *)

From S2P Require Import Prelude Order PyVal PyString OrderedMap PyTime IsoTime Json.
Set Default Proof Using "Type".

Definition INCIDENT_DETECTOR : string := "correlation_incident".
Definition CORROBORATION_DETECTOR : string := "correlation_corroboration".
Definition CORRELATION_SOURCES : list string := [INCIDENT_DETECTOR; CORROBORATION_DETECTOR].
Definition STAGE : list (string * (Z * string)) :=
  [("recon", (0, "reconnaissance")); ("malware", (1, "initial-access")); ("bruteforce", (1, "credential-access"));
   ("anomaly", (1, "execution")); ("c2", (2, "command-and-control")); ("dns_tunnel", (2, "command-and-control"));
   ("lateral", (3, "lateral-movement")); ("exfil", (4, "exfiltration"))].
Definition FAMILY : list (string * string) :=
  [("ja4_novelty", "fingerprint"); ("ja4_transition_burst", "fingerprint"); ("ja4_rarity", "fingerprint");
   ("server_fp_rarity", "fingerprint"); ("beacon", "temporal"); ("beacon_fqdn", "temporal"); ("strobe", "temporal");
   ("long_connection", "temporal"); ("long_connection_cumulative", "temporal"); ("exfil", "volume");
   ("low_slow_exfil", "volume"); ("icmp_exfil", "volume"); ("dns_tunnel", "dns"); ("dns_exploded", "dns");
   ("dga_domain", "dns"); ("nxdomain_burst", "dns"); ("rare_destination", "destination");
   ("ids_signature", "signature"); ("threat_intel", "signature"); ("feodo", "signature"); ("zeek_notice", "signature")].
Definition FAMILY_CAP : list (string * float) :=
  [("fingerprint", lit "6.67"); ("temporal", lit "10.0"); ("destination", lit "5.0"); ("volume", lit "5.0");
   ("dns", lit "6.67"); ("signature", lit "10.0")].
Definition FAMILY_CAP_DEFAULT : float := lit "100.0".

(** A finding as the service keeps it ([_normalize]). *)
Record finding := {
  f_id : option string; f_detector : string; f_version : string; f_category : string; f_severity : val;
  f_mitre : list string; f_ts : Z
}.
Record params := { risk_threshold : float; min_tactics : Z; half_life : Z; family_caps : list (string * float) }.

Definition entity_key (tenant base : string) : string := tenant +:+ "|" +:+ base.
Definition is_incident (f : finding) : bool := String.eqb (f_detector f) INCIDENT_DETECTOR.
Definition is_correlation (f : finding) : bool := mem (f_detector f) CORRELATION_SOURCES.
Definition is_structured_ndpi (f : finding) : bool :=
  String.eqb (f_detector f) "ndpi_risk" && String.eqb (f_version f) "2.0".
Definition _severity (f : finding) : res float :=
  match py_float (py_or (f_severity f) (VInt 0)) with
  | Ok x => Ok x
  | Raise TypeError | Raise ValueError => Ok (lit "0.0")
  | Raise e => Raise e
  end.

(** ** Kill chain *)

Definition stage_of (f : finding) : option (Z * string) := assoc (f_category f) STAGE.
Definition tactic_stages (fs : list finding) : list (Z * Z * string) :=
  omap (λ f, st ← stage_of f; Some (st.1, f_ts f, st.2)) fs.
Fixpoint advances (peak : Z) (stages : list (Z * Z)) : nat :=
  match stages with
  | [] => 0
  | (_, idx) :: stages => if peak <? idx then S (advances idx stages) else advances peak stages
  end.
Definition sorted_stages (fs : list finding) : list (Z * Z) :=
  isort id ((λ s : Z * Z * string, (s.1.2, s.1.1)) <$> tactic_stages fs).
Definition is_ordered_chain (fs : list finding) : bool :=
  let stages := sorted_stages fs in
  if (length (remove_dups (snd <$> stages)) <? 2)%nat then false else (2 <=? advances (-1) stages)%nat.

(** ** Risk *)

Section risk.
Context (decay : Z → Z → float) (round3 : float → float) (fsum : list float → float).

(** Per detector its strongest finding, the most recent of equals. *)
Definition stronger (a b : float * Z) : bool := SFltb b.1 a.1 || (SFeqb a.1 b.1 && (b.2 <? a.2)).
Fixpoint strongest_onto (m : list (string * (float * Z))) (fs : list finding) : res (list (string * (float * Z))) :=
  match fs with
  | [] => Ok m
  | f :: fs =>
      sev ← _severity f;
      let c := (sev, f_ts f) in
      let m := match od_get (f_detector f) m with
               | Some cur => if stronger c cur then od_set (f_detector f) c m else m
               | None => od_set (f_detector f) c m
               end in
      strongest_onto m fs
  end.
Record family := { fam_raw : float; fam_cap : float; fam_detectors : list string }.
Definition add_to_family (now hl : Z) (caps : list (string * float)) (fams : list (string * family))
    (d : string * (float * Z)) : list (string * family) :=
  let age := Z.max 0 (now - d.2.2) in
  let fam := default d.1 (assoc d.1 FAMILY) in
  let g := default {| fam_raw := lit "0.0"; fam_cap := default FAMILY_CAP_DEFAULT (od_get fam caps); fam_detectors := [] |}
             (od_get fam fams) in
  od_set fam {| fam_raw := fadd (fam_raw g) (fmul d.2.1 (decay age hl)); fam_cap := fam_cap g;
                fam_detectors := fam_detectors g ++ [d.1] |} fams.
Definition _family_totals (fs : list finding) (now hl : Z) (caps : list (string * float)) : res (list (string * family)) :=
  strongest ← strongest_onto [] fs;
  let caps := foldl (λ m kv, od_set kv.1 kv.2 m) FAMILY_CAP caps in
  Ok (foldl (add_to_family now hl caps) [] strongest).
Definition capped (g : family) : float := fmin (fam_raw g) (fam_cap g).
Definition entity_risk (fs : list finding) (now hl : Z) (caps : list (string * float)) : res float :=
  fams ← _family_totals fs now hl caps; Ok (round3 (fsum (capped ∘ snd <$> fams))).
Definition risk_families (fs : list finding) (now hl : Z) (caps : list (string * float)) : res val :=
  fams ← _family_totals fs now hl caps;
  Ok (VList ((λ fg : string * family, VDict [("family", VStr fg.1); ("raw", VFloat (round3 (fam_raw fg.2)));
        ("capped", VFloat (round3 (capped fg.2))); ("cap", VFloat (fam_cap fg.2));
        ("detectors", VList (VStr <$> isort id (fam_detectors fg.2)))]) <$> isort fst fams)).

(** ** Incidents *)

Definition active_findings (fs : list finding) : list finding := List.filter (λ f, negb (is_correlation f)) fs.
Definition distinct_stages (fs : list finding) : list Z := remove_dups (omap (λ f, fst <$> stage_of f) fs).
Definition should_incident (fs : list finding) (now : Z) (p : params) : res (bool * string) :=
  let active := active_findings fs in
  match active with
  | [] => Ok (false, "no findings")
  | _ =>
      let distinct := Z.of_nat (length (distinct_stages active)) in
      if is_ordered_chain active && (min_tactics p <=? distinct) then Ok (true, "kill-chain")
      else if (min_tactics p <=? distinct) && (2 <=? length active)%nat then Ok (true, "multi-tactic")
      else
        risk ← entity_risk active now (half_life p) (family_caps p);
        Ok (if SFleb (risk_threshold p) risk then (true, "risk-threshold") else (false, "below threshold"))
  end.

Context (dumps : val → string).
Definition _fmt (t : Z) : string := _iso (t / 1000000 * 1000000).
Definition by_stage (fs : list finding) : list (Z * string) :=
  foldl (λ m (s : Z * Z * string), match od_get s.1.1 m with Some _ => m | None => od_set s.1.1 s.2 m end) [] (tactic_stages fs).
Definition arrow_join (xs : list string) : string := join " -> " xs.
Fixpoint severities (fs : list finding) : res (list Z) :=
  match fs with [] => Ok [] | f :: fs => x ← _severity f; z ← Z_of_float x; zs ← severities fs; Ok (z :: zs) end.
Definition max_of (d : Z) (zs : list Z) : Z := match zs with [] => d | z :: zs => foldl Z.max z zs end.
Definition min_of (d : Z) (zs : list Z) : Z := match zs with [] => d | z :: zs => foldl Z.min z zs end.
Definition build_incident (entity : string) (fs : list finding) (now : Z) (tenant reason : string) (p : params) : res dict :=
  let active := active_findings fs in
  risk ← entity_risk active now (half_life p) (family_caps p);
  families ← risk_families active now (half_life p) (family_caps p);
  let chain := snd <$> isort fst (by_stage active) in
  sevs ← severities active;
  let severity := Z.max 1 (Z.min 10 (max_of 1 sevs + (if is_ordered_chain active then 2 else 1))) in
  let ids := List.filter str_truthy (omap f_id active) in
  let mitre := isort id (remove_dups (mjoin (f_mitre <$> active))) in
  let narrative := match chain with [] => entity +:+ ": elevated risk" | _ => entity +:+ ": " +:+ arrow_join chain end in
  let entities := VList [
    VDict [("type", VStr "entity"); ("role", VStr "subject"); ("value", VStr entity)];
    VDict [("type", VStr "narrative"); ("value", VStr narrative)];
    VDict [("type", VStr "tactic_chain"); ("value", VList (VStr <$> chain))];
    VDict [("type", VStr "risk_score"); ("value", VFloat risk)];
    VDict [("type", VStr "trigger"); ("value", VStr reason)];
    VDict [("type", VStr "risk_families"); ("value", families)]] in
  Ok [("finding_id", VStr ("incident-" +:+ entity +:+ "-" +:+ pretty (now / 1000000))); ("tenant_id", VStr tenant);
      ("detector_id", VStr INCIDENT_DETECTOR); ("detector_version", VStr "1.0"); ("category", VStr "incident");
      ("severity", VInt severity); ("confidence", VFloat (lit "0.95"));
      ("first_seen", VStr (_fmt (min_of now (f_ts <$> active)))); ("last_seen", VStr (_fmt now));
      ("entities", VStr (dumps entities)); ("evidence_refs", VList (VStr <$> ids)); ("mitre", VList (VStr <$> mitre));
      ("state", VStr "CANDIDATE")].
End risk.

(** ** Corroborations *)

Record group := { g_dets : list (string * (float * Z * option string)); g_mitre : list string }.
Record corroboration := {
  cr_category : string; cr_detectors : list string; cr_ids : list string; cr_severity : Z; cr_mitre : list string
}.
Definition add_to_group (f : finding) (sev : float) (g : group) : group :=
  let c := (sev, f_ts f, f_id f) in
  {| g_dets := match od_get (f_detector f) (g_dets g) with
               | Some cur => if stronger c.1 cur.1 then od_set (f_detector f) c (g_dets g) else g_dets g
               | None => od_set (f_detector f) c (g_dets g)
               end;
     g_mitre := g_mitre g ++ f_mitre f |}.
Fixpoint group_by_category (m : list (string * group)) (fs : list finding) : res (list (string * group)) :=
  match fs with
  | [] => Ok m
  | f :: fs =>
      if is_correlation f || negb (str_truthy (f_category f)) || negb (str_truthy (f_detector f)) then group_by_category m fs
      else
        sev ← _severity f;
        let g := default {| g_dets := []; g_mitre := [] |} (od_get (f_category f) m) in
        group_by_category (od_set (f_category f) (add_to_group f sev g) m) fs
  end.
Definition fmax_of (xs : list float) : float := match xs with [] => lit "0.0" | x :: xs => foldl fmax x xs end.
Definition agreement (ml : list string) (cat : string) (g : group) : res (option corroboration) :=
  let dets := od_keys (g_dets g) in
  if existsb (λ d, mem d ml) dets && existsb (λ d, negb (mem d ml)) dets then
    z ← Z_of_float (fmax_of ((λ kv, kv.2.1.1) <$> g_dets g));
    Ok (Some {| cr_category := cat; cr_detectors := isort id dets;
                cr_ids := omap (λ kv : string * (float * Z * option string),
                            match kv.2.2 with Some i => if str_truthy i then Some i else None | None => None end)
                            (isort fst (g_dets g));
                cr_severity := z; cr_mitre := isort id (remove_dups (g_mitre g)) |})
  else Ok None.
Fixpoint agreements (ml : list string) (gs : list (string * group)) : res (list corroboration) :=
  match gs with [] => Ok [] | (cat, g) :: gs => o ← agreement ml cat g; rest ← agreements ml gs; Ok (option_list o ++ rest) end.
Definition find_corroborations (fs : list finding) (ml : list string) : res (list corroboration) :=
  by_cat ← group_by_category [] fs; agreements ml (isort fst by_cat).
Definition build_corroboration (dumps : val → string) (entity : string) (g : corroboration) (now : Z) (tenant : string) : dict :=
  let narrative := entity +:+ ": " +:+ cr_category g +:+ " corroborated by " +:+ join " + " (cr_detectors g) in
  let entities := VList [
    VDict [("type", VStr "entity"); ("role", VStr "subject"); ("value", VStr entity)];
    VDict [("type", VStr "narrative"); ("value", VStr narrative)];
    VDict [("type", VStr "agreement"); ("value", VList (VStr <$> cr_detectors g)); ("category", VStr (cr_category g))]] in
  [("finding_id", VStr ("corrob-" +:+ entity +:+ "-" +:+ pretty (now / 1000000) +:+ "-" +:+ cr_category g));
   ("tenant_id", VStr tenant); ("detector_id", VStr CORROBORATION_DETECTOR); ("detector_version", VStr "1.0");
   ("category", VStr (cr_category g)); ("severity", VInt (Z.max 1 (Z.min 10 (cr_severity g + 2))));
   ("confidence", VFloat (lit "0.9")); ("first_seen", VStr (_fmt now)); ("last_seen", VStr (_fmt now));
   ("entities", VStr (dumps entities)); ("evidence_refs", VList (VStr <$> cr_ids g));
   ("mitre", VList (VStr <$> cr_mitre g)); ("state", VStr "CANDIDATE")].

(** ** The service

    [sv_sent] collects what was produced; [sv_db] is the table of persisted windows,
    latest row per entity. *)

Abbreviation emission := (string * Z * string)%type.
Record service := {
  sv_state : list (string * list finding); sv_emitted : list emission; sv_sent : list (emission * dict);
  sv_db : list (string * list finding); sv_last_eval : Z; sv_last_persist : Z
}.
Definition set_state (m : list (string * list finding)) (s : service) : service :=
  {| sv_state := m; sv_emitted := sv_emitted s; sv_sent := sv_sent s; sv_db := sv_db s; sv_last_eval := sv_last_eval s;
     sv_last_persist := sv_last_persist s |}.
Definition set_emitted (es : list emission) (s : service) : service :=
  {| sv_state := sv_state s; sv_emitted := es; sv_sent := sv_sent s; sv_db := sv_db s; sv_last_eval := sv_last_eval s;
     sv_last_persist := sv_last_persist s |}.
Definition send (k : emission) (d : dict) (s : service) : service :=
  {| sv_state := sv_state s; sv_emitted := k :: sv_emitted s; sv_sent := sv_sent s ++ [(k, d)]; sv_db := sv_db s;
     sv_last_eval := sv_last_eval s; sv_last_persist := sv_last_persist s |}.

(** A record of the final topic: the fields kept, and its entities. *)
Record message := { ms_finding : finding; ms_entities : val }.

Section app.
Context (tenant : string) (window eval_every persist_every : Z) (p : params) (ml : list string).
Context (json_loads : string → res val) (repr : val → string) (asset_of : string → res (option string)).
Context (decay : Z → Z → float) (round3 : float → float) (fsum : list float → float) (dumps : val → string).

(** The first address with one of the roles, or of any role; [None] when an element is no
    dictionary. *)
Fixpoint first_ip (any_role : bool) (es : list val) : option (option val) :=
  match es with
  | [] => Some None
  | VDict e :: es =>
      if val_eq_str (dgetN "type" e) "ip" && (any_role || val_in_strs (dgetN "role" e) ["src"; "subject"; "client"])
      then Some (Some (dgetN "value" e)) else first_ip any_role es
  | _ :: _ => None
  end.
Definition _src_ip (ents : val) : val :=
  match (e ← match ents with VStr s => json_loads s | _ => Ok (py_or ents (VList [])) end; as_list e) with
  | Raise _ => VNone
  | Ok es =>
      match first_ip false es with
      | None => VNone
      | Some (Some v) => v
      | Some None => match first_ip true es with Some (Some v) => v | _ => VNone end
      end
  end.
Definition _entity_of (m : message) : option string :=
  let ip := _src_ip (ms_entities m) in
  if negb (truthy ip) then None
  else
    match (match ip with VStr s => asset_of s | _ => Ok None end) with
    | Ok (Some k) => Some (entity_key tenant k)
    | _ => Some (entity_key tenant ("ip:" +:+ py_str repr ip))
    end.
Definition _normalize (f : finding) (now : Z) : finding :=
  {| f_id := f_id f; f_detector := f_detector f; f_version := f_version f; f_category := f_category f;
     f_severity := f_severity f; f_mitre := f_mitre f; f_ts := now |}.
Definition consume (now : Z) (s : service) (m : message) : service :=
  let f := ms_finding m in
  if is_correlation f || is_structured_ndpi f then s
  else
    match _entity_of m with
    | None => s
    | Some ent => set_state (od_set ent (default [] (od_get ent (sv_state s)) ++ [_normalize f now]) (sv_state s)) s
    end.

Definition in_window (now : Z) (f : finding) : bool := now - f_ts f <=? window.
Definition prune_entity (now : Z) (ei : string * list finding) : option (string * list finding) :=
  match List.filter (in_window now) ei.2 with [] => None | items => Some (ei.1, items) end.
Definition bucket_of (now : Z) : Z := now / window.
Definition _prune (now : Z) (s : service) : service :=
  set_emitted (List.filter (λ k : emission, bucket_of now <=? k.1.2) (sv_emitted s))
    (set_state (omap (prune_entity now) (sv_state s)) s).

Definition emit_once (k : emission) (build : res dict) : M service unit :=
  let* done_ := read (λ s, mem k (sv_emitted s)) in
  if done_ : bool then ret tt else (let* d := lift build in modify (send k d)).
Definition with_id (id : string) (d : dict) : dict := dset "finding_id" (VStr id) d.
Definition emit_incident (now : Z) (ent : string) (items : list finding) : M service unit :=
  let* r := lift (should_incident decay round3 fsum items now p) in
  if r.1 : bool then
    emit_once (ent, bucket_of now, r.2)
      (d ← build_incident decay round3 fsum dumps ent items now tenant r.2 p;
       Ok (with_id ("incident-" +:+ ent +:+ "-" +:+ pretty (bucket_of now) +:+ "-" +:+ r.2) d))
  else ret tt.
Definition emit_corroboration (now : Z) (ent : string) (g : corroboration) : M service unit :=
  emit_once (ent, bucket_of now, "corrob:" +:+ cr_category g)
    (Ok (with_id ("corrob-" +:+ ent +:+ "-" +:+ pretty (bucket_of now) +:+ "-" +:+ cr_category g)
           (build_corroboration dumps ent g now tenant))).
Definition evaluate_entity (now : Z) (ei : string * list finding) : M service unit :=
  emit_incident now ei.1 ei.2 ;*
  let* gs := lift (find_corroborations ei.2 ml) in
  for_each (emit_corroboration now ei.1) gs.
Definition evaluate (now : Z) : M service unit :=
  let* items := read sv_state in for_each (evaluate_entity now) items.

Definition _persist (s : service) : service :=
  {| sv_state := sv_state s; sv_emitted := sv_emitted s; sv_sent := sv_sent s;
     sv_db := foldl (λ m kv, od_set kv.1 kv.2 m) (sv_db s) (sv_state s);
     sv_last_eval := sv_last_eval s; sv_last_persist := sv_last_persist s |}.
Definition _reload (s : service) : service :=
  set_state ((λ kv : string * list finding, (kv.1, List.filter (λ f, negb (is_structured_ndpi f)) kv.2)) <$> sv_db s) s.
(** A new process over the same table. *)
Definition boot (now : Z) (db : list (string * list finding)) : service :=
  _reload {| sv_state := []; sv_emitted := []; sv_sent := []; sv_db := db; sv_last_eval := now; sv_last_persist := now |}.
Definition mark_eval (now : Z) (s : service) : service :=
  {| sv_state := sv_state s; sv_emitted := sv_emitted s; sv_sent := sv_sent s; sv_db := sv_db s; sv_last_eval := now;
     sv_last_persist := sv_last_persist s |}.
Definition mark_persist (now : Z) (s : service) : service :=
  {| sv_state := sv_state s; sv_emitted := sv_emitted s; sv_sent := sv_sent s; sv_db := sv_db s; sv_last_eval := sv_last_eval s;
     sv_last_persist := now |}.
(** One round of the main loop. *)
Definition round (now : Z) (ms : list message) : M service unit :=
  modify (λ s, foldl (consume now) s ms) ;*
  let* last_eval := read sv_last_eval in
  (if eval_every <=? now - last_eval
   then modify (_prune now) ;* evaluate now ;* modify (mark_eval now) else ret tt) ;*
  let* last_persist := read sv_last_persist in
  (if persist_every <=? now - last_persist then modify (λ s, mark_persist now (_persist s)) else ret tt).
End app.

(** ** Facts: kill chain *)

Lemma advances_mono peak peak' l : peak <= peak' → (advances peak' l <= advances peak l)%nat.
Proof.
  revert peak peak'. induction l as [|[t i] l IH]; intros peak peak' H; simpl; [lia|].
  destruct (Z.ltb_spec peak' i) as [H1|H1], (Z.ltb_spec peak i) as [H2|H2]; [done|lia| |by apply IH].
  specialize (IH i peak' H1). lia.
Qed.
Lemma advances_zero peak l : advances peak l = 0%nat ↔ ∀ t i, (t, i) ∈ l → i <= peak.
Proof.
  induction l as [|[t i] l IH]; simpl; [split; [intros _ t i H; by apply elem_of_nil in H|done]|].
  destruct (Z.ltb_spec peak i) as [H|H].
  - split; [done|]. intros Hall. specialize (Hall t i ltac:(left)). lia.
  - rewrite IH. split; intros Hall t' i'.
    + intros [[= -> ->]|Hin]%elem_of_cons; [lia|by eapply Hall].
    + intros Hin. eapply Hall. by right.
Qed.

Definition staged (f : finding) (t i : Z) : Prop := f_ts f = t ∧ ∃ label, stage_of f = Some (i, label).
Lemma sorted_stages_elem fs t i : (t, i) ∈ sorted_stages fs ↔ ∃ f, f ∈ fs ∧ staged f t i.
Proof.
  unfold sorted_stages. rewrite elem_of_isort, list_elem_of_fmap. unfold staged, tactic_stages. split.
  - intros ([[i' t'] lb] & [= -> ->] & (f & Hf & Hs)%list_elem_of_omap). exists f. split; [done|].
    destruct (stage_of f) as [[j l]|] eqn:E; [|done]. simpl in Hs. injection Hs as <- <- <-. split; [done|]. by exists l.
  - intros (f & Hf & <- & lb & Hs). exists (i, f_ts f, lb). split; [done|]. apply list_elem_of_omap. exists f. split; [done|].
    by rewrite Hs.
Qed.
Lemma stage_nonneg f i label : stage_of f = Some (i, label) → 0 <= i.
Proof. unfold stage_of. cbn [assoc STAGE]. repeat case_match; intros [= <- _]; lia. Qed.
Lemma remove_dups_two (l : list Z) x y : x ∈ l → y ∈ l → x ≠ y → (2 <= length (remove_dups l))%nat.
Proof.
  intros Hx Hy Hne. assert (Hs : [x; y] ⊆+ remove_dups l).
  { apply NoDup_submseteq.
    - apply NoDup_cons. split; [|apply NoDup_singleton]. by rewrite list_elem_of_singleton.
    - intros z. rewrite elem_of_remove_dups. set_solver. }
  apply submseteq_length in Hs. simpl in Hs. lia.
Qed.

(** What counts as a kill chain: some finding lies in a later stage than the earliest
    one does, where findings of one instant are taken in stage order.  So the verdict
    does not depend on the order the findings are kept in, findings without a stage do
    not matter, and a single stage is never a chain. *)
Theorem ordered_chain_iff fs :
  is_ordered_chain fs = true ↔
  ∃ f g t1 i1 t2 i2, f ∈ fs ∧ g ∈ fs ∧ staged f t1 i1 ∧ staged g t2 i2 ∧ i1 < i2 ∧
    ∀ h t i, h ∈ fs → staged h t i → t1 < t ∨ t1 = t ∧ i1 <= i.
Proof.
  unfold is_ordered_chain. pose proof (sorted_stages_elem fs) as Hel.
  assert (Hs : StronglySorted (key_le id) (sorted_stages fs)) by apply isort_sorted.
  destruct (sorted_stages fs) as [|[t0 i0] l] eqn:El.
  { split; [done|]. intros (f & _ & t1 & i1 & _ & _ & Hf & _ & Hst & _). exfalso.
    apply (not_elem_of_nil (t1, i1)), Hel. by exists f. }
  destruct (proj1 (Hel t0 i0) ltac:(left)) as (f0 & Hf0 & Hst0).
  assert (Hi0 : 0 <= i0) by (destruct Hst0 as (_ & lb & Hlb); by eapply stage_nonneg).
  assert (Hmin : ∀ t i, (t, i) ∈ (t0, i0) :: l → t0 < t ∨ t0 = t ∧ i0 <= i).
  { intros t i [[= -> ->]|Hin]%elem_of_cons; [right; lia|]. inversion Hs as [|? ? _ Hall]; subst.
    rewrite Forall_forall in Hall. specialize (Hall _ Hin). unfold key_le, leb in Hall. simpl in Hall. unfold pair_cmp in Hall.
    simpl in Hall. destruct (Z.compare_spec t0 t) as [->|Hlt|]; [right; split; [done|]|by left|done].
    destruct (Z.compare_spec i0 i); done || lia. }
  assert (Hadv : (2 <= advances (-1) ((t0, i0) :: l))%nat ↔ ∃ t i, (t, i) ∈ l ∧ i0 < i).
  { simpl. rewrite (proj2 (Z.ltb_lt (-1) i0)) by lia. split.
    - intros H. assert (Hne : advances i0 l ≠ 0%nat) by lia. destruct (decide (Exists (λ ti : Z * Z, i0 < ti.2) l)) as [Hex|Hno].
      + apply Exists_exists in Hex as ([t i] & Hin & Hlt). by exists t, i.
      + exfalso. apply Hne, advances_zero. intros t i Hin. apply Z.nlt_ge. intros Hlt. apply Hno, Exists_exists. by exists (t, i).
    - intros (t & i & Hin & Hlt). assert (advances i0 l ≠ 0%nat); [|lia]. intros Hz. rewrite advances_zero in Hz.
      specialize (Hz _ _ Hin). lia. }
  split.
  - intros H. destruct (_ <? 2)%nat; [done|]. apply Nat.leb_le, Hadv in H as (t & i & Hin & Hlt).
    destruct (proj1 (Hel t i) ltac:(by right)) as (g & Hg & Hstg). exists f0, g, t0, i0, t, i. split_and!; try done.
    intros h t' i' Hh Hsth. apply Hmin, Hel. by exists h.
  - intros (f & g & t1 & i1 & t2 & i2 & Hf & Hg & Hstf & Hstg & Hlt & Hall).
    assert (Hin1 : (t1, i1) ∈ (t0, i0) :: l) by (apply Hel; by exists f).
    assert (Hin2 : (t2, i2) ∈ (t0, i0) :: l) by (apply Hel; by exists g).
    assert (i1 = i0) as -> by (destruct (Hmin _ _ Hin1), (Hall f0 t0 i0 Hf0 Hst0); lia).
    rewrite (proj2 (Nat.ltb_ge _ 2)).
    2:{ apply (remove_dups_two _ i0 i2); [apply list_elem_of_fmap; by exists (t1, i0)|apply list_elem_of_fmap; by exists (t2, i2)|lia]. }
    apply Nat.leb_le, Hadv. exists t2, i2. split; [|done]. apply elem_of_cons in Hin2 as [[= -> ->]|Hin2]; [lia|done].
Qed.

(** ** Facts: the service *)

Section service_facts.
Context (tenant : string) (window eval_every persist_every : Z) (p : params) (ml : list string).
Context (json_loads : string → res val) (repr : val → string) (asset_of : string → res (option string)).
Context (decay : Z → Z → float) (round3 : float → float) (fsum : list float → float) (dumps : val → string).
Abbreviation round' := (round tenant window eval_every persist_every p ml json_loads repr asset_of decay round3 fsum dumps).
Abbreviation evaluate' := (evaluate tenant window p ml decay round3 fsum dumps).
Abbreviation consume' := (consume tenant json_loads repr asset_of).

(** What an evaluation may do: produce new emissions of the current bucket. *)
Definition emits (cur : Z) (w w' : service) : Prop :=
  sv_state w' = sv_state w ∧ sv_db w' = sv_db w ∧
  ∃ new, sv_sent w' = sv_sent w ++ new ∧ (∀ k, k ∈ sv_emitted w' ↔ k ∈ new.*1 ∨ k ∈ sv_emitted w) ∧ NoDup new.*1 ∧
    ∀ k, k ∈ new.*1 → k.1.2 = cur ∧ k ∉ sv_emitted w.
#[local] Instance emits_preorder cur : PreOrder (emits cur).
Proof.
  clear. split.
  - intros w. split_and!; [done..|]. exists []. split_and!; [by rewrite app_nil_r| |apply NoDup_nil; done|]; intros k; rewrite ?elem_of_nil; tauto.
  - intros x y z (E1 & E2 & n1 & S1 & M1 & D1 & K1) (E3 & E4 & n2 & S2 & M2 & D2 & K2). split_and!; [congruence..|].
    exists (n1 ++ n2). rewrite fmap_app. split_and!.
    + by rewrite S2, S1, app_assoc.
    + intros k. rewrite M2, M1, elem_of_app. tauto.
    + apply NoDup_app. split_and!; [done| |done]. intros k Hk1 Hk2. apply K2 in Hk2 as [_ Hn]. apply Hn, M1. by left.
    + intros k [Hk|Hk]%elem_of_app; [by apply K1|]. apply K2 in Hk as [Hc Hn]. split; [done|]. intros Hin. apply Hn, M1. by right.
Qed.
Lemma emit_once_emits cur k build : k.1.2 = cur → frames (emits cur) (emit_once k build).
Proof.
  clear. intros Hk w. unfold emit_once, bind, read. destruct (mem k (sv_emitted w)) eqn:Em; [reflexivity|]. apply mem_false in Em.
  unfold lift. destruct build as [d|e]; [|reflexivity]. simpl. split_and!; [done..|]. exists [(k, d)]. split_and!; [done| | |].
  - intros k'. simpl. rewrite elem_of_cons, list_elem_of_singleton. tauto.
  - apply NoDup_singleton.
  - intros k' Hk'%list_elem_of_singleton. by subst.
Qed.
Lemma evaluate_emits now : frames (emits (bucket_of window now)) (evaluate' now).
Proof.
  clear. unfold evaluate. apply frames_bind; [apply _|apply frames_read, _|]. intros items. apply frames_for_each; [apply _|].
  intros [ent fs]. unfold evaluate_entity. apply frames_bind; [apply _| |].
  - unfold emit_incident. apply frames_bind; [apply _|apply frames_lift, _|]. intros [[] reason]; [|apply frames_ret, _].
    by apply emit_once_emits.
  - intros []. apply frames_bind; [apply _|apply frames_lift, _|]. intros gs. apply frames_for_each; [apply _|]. intros g.
    by apply emit_once_emits.
Qed.

Context (window_pos : 0 < window).
Definition sent_ok (t : Z) (s : service) : Prop :=
  NoDup (sv_sent s).*1 ∧ ∀ k, k ∈ (sv_sent s).*1 → k ∈ sv_emitted s ∨ k.1.2 < bucket_of window t.
Lemma bucket_mono t t' : t <= t' → bucket_of window t <= bucket_of window t'.
Proof using window_pos. intros H. by apply Z.div_le_mono. Qed.
Lemma prune_evaluate_sent t now s :
  t <= now → sent_ok t s → sent_ok now (evaluate' now (_prune window now s)).1.
Proof using window_pos.
  intros Ht [Hnd Hin]. pose proof (bucket_mono t now Ht) as Hb.
  destruct (evaluate_emits now (_prune window now s)) as (_ & _ & new & Hs & Hm & Hnew & Hk).
  assert (Hp : ∀ k, k ∈ sv_emitted (_prune window now s) ↔ k ∈ sv_emitted s ∧ bucket_of window now <= k.1.2).
  { intros k. simpl. rewrite list_elem_of_In, filter_In, <- list_elem_of_In, Z.leb_le. done. }
  unfold sent_ok. rewrite Hs. simpl sv_sent. rewrite fmap_app. split.
  - apply NoDup_app. split_and!; [done| |done]. intros k Hks Hkn. apply Hk in Hkn as [Hc Hn]. apply Hn, Hp.
    destruct (Hin k Hks) as [|Hlt]; [split; [done|lia]|lia].
  - intros k [Hks|Hkn]%elem_of_app; [|left; apply Hm; by left].
    destruct (decide (bucket_of window now <= k.1.2)) as [Hle|Hgt]; [left|right; lia].
    apply Hm. right. apply Hp. split; [|done]. destruct (Hin k Hks) as [|Hlt]; [done|lia].
Qed.

(** ** The windows *)

(** A finding that may count: no correlation output, no structured nDPI finding. *)
Definition eligible (f : finding) : Prop := is_correlation f = false ∧ is_structured_ndpi f = false.
Definition windows_ok (t : Z) (s : service) : Prop :=
  od_wf (sv_state s) ∧ od_wf (sv_db s) ∧
  (∀ e items, od_get e (sv_state s) = Some items → (∃ base, e = entity_key tenant base) ∧
     ∀ f, f ∈ items → eligible f ∧ f_ts f <= t) ∧
  (∀ e items, od_get e (sv_db s) = Some items → (∃ base, e = entity_key tenant base) ∧
     ∀ f, f ∈ items → eligible f ∧ f_ts f <= t ∧ (f ∈ default [] (od_get e (sv_state s)) ∨ window < t - f_ts f)).

Lemma od_get_prune now (m : list (string * list finding)) e :
  od_wf m → od_get e (omap (prune_entity window now) m) =
  (items ← od_get e m; match List.filter (in_window window now) items with [] => None | l => Some l end).
Proof.
  clear. induction m as [|[k items] m IH]; intros Hwf; [done|]. unfold od_wf, od_keys in Hwf.
  rewrite fmap_cons, NoDup_cons in Hwf. destruct Hwf as [Hk Hwf]. specialize (IH Hwf).
  cbn [omap list_omap od_get]. unfold prune_entity at 1. cbn [fst snd].
  destruct (List.filter (in_window window now) items) as [|f l] eqn:Ef; cbn [od_get]; case_decide as E.
  - subst k. cbn [mbind option_bind]. rewrite Ef. etrans; [exact IH|]. assert (Hno : od_get e m = None) by (by apply od_get_none). by rewrite Hno.
  - exact IH.
  - cbn [mbind option_bind]. by rewrite Ef.
  - exact IH.
Qed.
Lemma od_wf_omap {V W} (g : string * V → option (string * W)) (m : list (string * V)) :
  (∀ kv kw, g kv = Some kw → kw.1 = kv.1) → od_wf m → od_wf (omap g m).
Proof.
  clear. intros Hg. unfold od_wf, od_keys. induction m as [|kv m IH]; simpl; [done|]. rewrite NoDup_cons. intros [Hk Hm].
  destruct (g kv) as [kw|] eqn:E; [|by apply IH]. simpl. rewrite NoDup_cons. split; [|by apply IH].
  rewrite (Hg _ _ E). intros (kw' & Ek & (kv' & Hin & E')%list_elem_of_omap)%list_elem_of_fmap. apply Hk.
  rewrite Ek, (Hg _ _ E'). by apply list_elem_of_fmap_2.
Qed.

Lemma windows_later t now s : t <= now → windows_ok t s → windows_ok now s.
Proof.
  clear. intros Ht (H1 & H2 & H3 & H4). split_and!; [done..| |].
  - intros e items He. destruct (H3 e items He) as [Hb Hf]. split; [done|]. intros f Hin. destruct (Hf f Hin). split; [done|lia].
  - intros e items He. destruct (H4 e items He) as [Hb Hf]. split; [done|]. intros f Hin. destruct (Hf f Hin) as (? & ? & Hx).
    split_and!; [done|lia|]. destruct Hx; [by left|right; lia].
Qed.
Lemma entity_of_key m ent : _entity_of tenant json_loads repr asset_of m = Some ent → ∃ base, ent = entity_key tenant base.
Proof.
  clear. unfold _entity_of. destruct (negb _); [done|].
  destruct (match _src_ip _ _ with VStr s => _ | _ => _ end) as [[k|]|]; intros [= <-]; by eexists.
Qed.
Lemma consume_windows now s m : windows_ok now s → windows_ok now (consume' now s m).
Proof.
  clear. intros (H1 & H2 & H3 & H4). unfold consume.
  destruct (is_correlation (ms_finding m)) eqn:Ec; [by split_and!|]. destruct (is_structured_ndpi (ms_finding m)) eqn:En; [by split_and!|].
  simpl. destruct (_entity_of _ _ _ _ m) as [ent|] eqn:Ee; [|by split_and!]. apply entity_of_key in Ee.
  set (f := _normalize (ms_finding m) now).
  assert (Hf : eligible f ∧ f_ts f <= now) by (split; [by split|simpl; lia]).
  split_and!; simpl; [by apply od_wf_set|done| |].
  - intros e items. rewrite od_get_set. case_decide as E; [intros [= <-]|apply H3]. subst e. split; [done|].
    intros g [Hg|Hg]%elem_of_app; [|by apply list_elem_of_singleton in Hg as ->].
    destruct (od_get ent (sv_state s)) as [l|] eqn:El; [by eapply H3|by apply elem_of_nil in Hg].
  - intros e items He. destruct (H4 e items He) as [Hb Hall]. split; [done|]. intros g Hg. destruct (Hall g Hg) as (? & ? & Hx).
    split_and!; [done..|]. destruct Hx as [Hx|Hx]; [left|by right]. rewrite od_get_set. case_decide; [|done]. subst.
    apply elem_of_app. by left.
Qed.
Lemma prune_windows now s : windows_ok now s → windows_ok now (_prune window now s).
Proof.
  clear. intros (H1 & H2 & H3 & H4). split_and!; simpl; [|done| |].
  - apply od_wf_omap; [|done]. intros [k l] kw. unfold prune_entity. simpl. destruct (List.filter _ _); [done|]. by intros [= <-].
  - intros e items. rewrite od_get_prune by done. destruct (od_get e (sv_state s)) as [l|] eqn:El; [|done]. simpl.
    destruct (H3 e l El) as [Hb Hall]. destruct (List.filter _ l) as [|g gs] eqn:Ef; [done|]. intros [= <-]. split; [done|].
    intros f Hf. apply Hall. rewrite <- Ef in Hf. apply list_elem_of_In, filter_In in Hf as [Hf _]. by apply list_elem_of_In.
  - intros e items He. destruct (H4 e items He) as [Hb Hall]. split; [done|]. intros f Hf. destruct (Hall f Hf) as (? & ? & Hx).
    split_and!; [done..|]. destruct Hx as [Hx|Hx]; [|by right].
    destruct (decide (now - f_ts f <= window)) as [Hw|Hw]; [left|right; lia].
    rewrite od_get_prune by done. destruct (od_get e (sv_state s)) as [l|]; [|by apply elem_of_nil in Hx]. simpl in *.
    assert (Hin : f ∈ List.filter (in_window window now) l).
    { apply list_elem_of_In, filter_In. split; [by apply list_elem_of_In|]. by apply Z.leb_le. }
    destruct (List.filter _ l); [by apply elem_of_nil in Hin|done].
Qed.
Lemma upserts_get (m st : list (string * list finding)) e :
  od_get e (foldl (λ m kv, od_set kv.1 kv.2 m) m st) = match od_get e (reverse st) with Some v => Some v | None => od_get e m end.
Proof.
  clear. revert m. induction st as [|[k v] st IH] using rev_ind; intros m; [done|]. rewrite foldl_app, reverse_snoc. simpl.
  rewrite od_get_set. case_decide as E; [done|apply IH].
Qed.
Lemma od_get_reverse (m : list (string * list finding)) e : od_wf m → od_get e (reverse m) = od_get e m.
Proof.
  clear. intros Hwf. assert (Hp : reverse m ≡ₚ m) by apply reverse_Permutation.
  assert (Hwf' : od_wf (reverse m)) by (unfold od_wf, od_keys; by rewrite Hp).
  destruct (od_get e m) as [v|] eqn:E.
  - apply od_wf_get; [done|]. rewrite Hp. by apply od_get_elem.
  - apply od_get_none. apply od_get_none in E. unfold od_keys in *. by rewrite Hp.
Qed.
Lemma persist_get s e :
  od_wf (sv_state s) →
  od_get e (sv_db (_persist s)) = match od_get e (sv_state s) with Some v => Some v | None => od_get e (sv_db s) end.
Proof. clear. intros Hwf. simpl. by rewrite upserts_get, od_get_reverse. Qed.
Lemma persist_windows now s : windows_ok now s → windows_ok now (_persist s).
Proof.
  clear. intros (H1 & H2 & H3 & H4). split_and!; simpl; [done| |done|].
  - clear -H2. revert H2. generalize (sv_db s). induction (sv_state s) as [|kv st IH]; intros m Hm; [done|]. simpl. apply IH. by apply od_wf_set.
  - intros e items. change (foldl _ _ _) with (sv_db (_persist s)). rewrite persist_get by done.
    destruct (od_get e (sv_state s)) as [l|] eqn:El.
    + intros [= <-]. destruct (H3 e l El) as [Hb Hall]. split; [done|]. intros f Hf. destruct (Hall f Hf). split_and!; [done..|by left].
    + intros He. destruct (H4 e items He) as [Hb Hall]. split; [done|]. intros f Hf. destruct (Hall f Hf) as (? & ? & Hx). by rewrite El in Hx.
Qed.
Lemma reload_same now db :
  (∀ e items, (e, items) ∈ db → ∀ f, f ∈ items → eligible f) → sv_state (boot now db) = db.
Proof.
  clear. intros H. simpl. induction db as [|[e items] db IH]; [done|]. cbn [fmap list_fmap fst snd]. f_equal.
  - f_equal. apply filter_all. intros f Hf. destruct (H e items ltac:(left) f Hf) as [_ Hn]. by rewrite Hn.
  - apply IH. intros e' items' Hin. apply (H e' items'). by right.
Qed.
Lemma boot_windows t now s : t <= now → windows_ok t s → windows_ok now (boot now (sv_db s)).
Proof.
  clear. intros Ht Hw. apply (windows_later t now _ Ht) in Hw. destruct Hw as (H1 & H2 & H3 & H4).
  assert (E : sv_state (boot now (sv_db s)) = sv_db s).
  { apply reload_same. intros e items Hin f Hf. apply (od_wf_get _ _ _ H2) in Hin. by eapply H4. }
  split_and!; rewrite ?E; simpl; [done|done| |].
  - intros e items He. destruct (H4 e items He) as [Hb Hall]. split; [done|]. intros f Hf. by destruct (Hall f Hf) as (? & ? & _).
  - intros e items He. destruct (H4 e items He) as [Hb Hall]. split; [done|]. intros f Hf. destruct (Hall f Hf) as (? & ? & _).
    split_and!; [done..|]. left. by rewrite He.
Qed.

(** ** The life of the service *)

(** Processes started over the table, rounds at times that do not go back, a process that
    ends in any of them (by raising, too), and its successor. *)
Inductive life : Z → service → Prop :=
| life_first now : life now (boot now [])
| life_round t s now ms : life t s → t <= now → life now (round' now ms s).1
| life_restart t s now : life t s → t <= now → life now (boot now (sv_db s)).

Lemma consume_all_windows now ms s : windows_ok now s → windows_ok now (foldl (consume' now) s ms).
Proof. clear. revert s. induction ms as [|m ms IH]; intros s Hs; [done|]. simpl. by apply IH, consume_windows. Qed.
Lemma consume_sent now s m : sv_sent (consume' now s m) = sv_sent s ∧ sv_emitted (consume' now s m) = sv_emitted s.
Proof. clear. unfold consume. destruct (_ || _); [done|]. by destruct (_entity_of _ _ _ _ m). Qed.
Lemma consume_all_sent now ms s :
  sv_sent (foldl (consume' now) s ms) = sv_sent s ∧ sv_emitted (foldl (consume' now) s ms) = sv_emitted s.
Proof.
  clear. revert s. induction ms as [|m ms IH]; intros s; [done|]. simpl. destruct (IH (consume' now s m)) as [-> ->]. apply consume_sent.
Qed.
Lemma round_inv t now ms s :
  t <= now → windows_ok t s → sent_ok t s → windows_ok now (round' now ms s).1 ∧ sent_ok now (round' now ms s).1.
Proof using window_pos.
  intros Ht Hw Hs. set (s1 := foldl (consume' now) s ms).
  assert (Hw1 : windows_ok now s1) by (apply consume_all_windows; by eapply windows_later).
  assert (Hs1 : sent_ok t s1) by (unfold sent_ok, s1; destruct (consume_all_sent now ms s) as [-> ->]; exact Hs).
  assert (Hs1' : sent_ok now s1).
  { destruct Hs1 as [Hn Hk]. split; [done|]. intros k Hin. pose proof (bucket_mono t now Ht). destruct (Hk k Hin); [by left|right; lia]. }
  set (persisting := λ s2, if persist_every <=? now - sv_last_persist s2 then (mark_persist now (_persist s2), Ok ()) else (s2, Ok ())).
  assert (Hper : ∀ s2, windows_ok now s2 ∧ sent_ok now s2 → windows_ok now (persisting s2).1 ∧ sent_ok now (persisting s2).1).
  { intros s2 [H1 H2]. unfold persisting. destruct (_ <=? _); [|by split]. split; [|done]. by apply persist_windows. }
  assert (E : round' now ms s =
    if eval_every <=? now - sv_last_eval s1
    then match evaluate' now (_prune window now s1) with
         | (s2, Ok _) => persisting (mark_eval now s2)
         | (s2, Raise e) => (s2, Raise e)
         end
    else persisting s1).
  { unfold round, bind, modify, read, persisting. fold s1. destruct (eval_every <=? _); [|simpl; by destruct (_ <=? _)].
    destruct (evaluate' now _) as [s2 [[]|e]]; [|done]. simpl. by destruct (_ <=? _). }
  rewrite E. destruct (eval_every <=? now - sv_last_eval s1); [|by apply Hper].
  pose proof (prune_evaluate_sent t now s1 Ht Hs1) as Hs2. pose proof (evaluate_emits now (_prune window now s1)) as (Est & Edb & _).
  pose proof (prune_windows now s1 Hw1) as Hw2.
  assert (Hw3 : windows_ok now (evaluate' now (_prune window now s1)).1) by (unfold windows_ok; rewrite Est, Edb; exact Hw2).
  destruct (evaluate' now (_prune window now s1)) as [s2 [[]|e]]; [|by split]. by apply Hper.
Qed.
Lemma life_ok t s : life t s → windows_ok t s ∧ sent_ok t s.
Proof using window_pos.
  induction 1 as [now|t s now ms _ [Hw Hs] Ht|t s now _ [Hw _] Ht].
  - split; [|split; [apply NoDup_nil; done|intros k Hk; by apply elem_of_nil in Hk]].
    split_and!; simpl; try done; apply NoDup_nil; done.
  - by eapply round_inv.
  - split; [by eapply boot_windows|]. split; [apply NoDup_nil; done|intros k Hk; by apply elem_of_nil in Hk].
Qed.

(** C11. An incident or corroboration is produced once: over the life of a process no two
    produced findings are for the same entity, window bucket and reason, although the
    set that remembers them is pruned; and what it keeps and evaluates is only findings of
    its own tenant's entities that are neither its own output nor of the structured nDPI
    classifier. *)
Theorem incidents_emitted_once t s :
  life t s →
  NoDup (sv_sent s).*1 ∧
  ∀ e items f, od_get e (sv_state s) = Some items → f ∈ items →
    (∃ base, e = entity_key tenant base) ∧ is_correlation f = false ∧ is_structured_ndpi f = false ∧ f_ts f <= t.
Proof using window_pos.
  intros H. apply life_ok in H as [(_ & _ & Hst & _) [Hnd _]]. split; [done|]. intros e items f He Hf.
  destruct (Hst e items He) as [Hb Hall]. destruct (Hall f Hf) as [[? ?] ?]. by split_and!.
Qed.

(** A restart keeps the window: after the state was persisted, a process started over the
    table evaluates, at any later time, exactly the findings per entity the old one would
    have; rows of entities that were pruned before, which are never deleted from the table,
    do not come back. *)
Theorem restart_keeps_window t s now e :
  life t s → t <= now →
  od_get e (sv_state (_prune window now (boot now (sv_db (_persist s))))) = od_get e (sv_state (_prune window now s)).
Proof using window_pos.
  intros H Ht. apply life_ok in H as [Hw _]. pose proof (persist_windows t s Hw) as Hp.
  assert (E : sv_state (boot now (sv_db (_persist s))) = sv_db (_persist s)).
  { apply reload_same. intros e' items Hin f Hf. destruct Hp as (_ & Hwf & _ & H4). apply (od_wf_get _ _ _ Hwf) in Hin. by eapply H4. }
  destruct Hw as (H1 & _ & _ & H4). unfold _prune. cbn [sv_state set_state set_emitted]. rewrite E.
  rewrite !od_get_prune by (done || apply Hp). rewrite persist_get by done.
  destruct (od_get e (sv_state s)) as [items|] eqn:Es; [done|]. destruct (od_get e (sv_db s)) as [items|] eqn:Ed; [|done]. simpl.
  destruct (H4 e items Ed) as [_ Hall].
  assert (Hnil : List.filter (in_window window now) items = []).
  { destruct (List.filter _ items) as [|f l] eqn:Ef; [done|]. exfalso.
    assert (Hin : f ∈ List.filter (in_window window now) items) by (rewrite Ef; left).
    apply list_elem_of_In, filter_In in Hin as [Hin Hw%Z.leb_le]. apply list_elem_of_In in Hin.
    destruct (Hall f Hin) as (_ & _ & [Hx|Hx]); [|lia]. rewrite Es in Hx. by apply elem_of_nil in Hx. }
  by rewrite Hnil.
Qed.
End service_facts.

(** ** Facts: corroborations *)

Definition usable (f : finding) : bool := negb (is_correlation f) && str_truthy (f_category f) && str_truthy (f_detector f).
Definition detects (m : list (string * group)) (cat d : string) : Prop := ∃ g, od_get cat m = Some g ∧ d ∈ od_keys (g_dets g).
Lemma add_to_group_keys f sev g d : d ∈ od_keys (g_dets (add_to_group f sev g)) ↔ d = f_detector f ∨ d ∈ od_keys (g_dets g).
Proof.
  unfold add_to_group. simpl. destruct (od_get (f_detector f) (g_dets g)) as [cur|] eqn:E.
  - assert (Hin : f_detector f ∈ od_keys (g_dets g)).
    { destruct (decide (f_detector f ∈ od_keys (g_dets g))) as [|Hn]; [done|]. apply od_get_none in Hn. congruence. }
    destruct (stronger _ _); [rewrite od_keys_set_elem|]; naive_solver.
  - rewrite od_keys_set_elem. naive_solver.
Qed.
Lemma group_by_category_spec m fs m' :
  od_wf m → group_by_category m fs = Ok m' →
  od_wf m' ∧ ∀ cat d, detects m' cat d ↔ detects m cat d ∨ ∃ f, f ∈ fs ∧ usable f = true ∧ f_category f = cat ∧ f_detector f = d.
Proof.
  revert m. induction fs as [|f fs IH]; intros m Hm; cbn [group_by_category].
  { intros [= <-]. split; [done|]. intros cat d. split; [by left|]. intros [?|(f & Hf & _)]; [done|by apply elem_of_nil in Hf]. }
  assert (Eu : is_correlation f || negb (str_truthy (f_category f)) || negb (str_truthy (f_detector f)) = negb (usable f)).
  { unfold usable. by destruct (is_correlation f), (str_truthy (f_category f)), (str_truthy (f_detector f)). }
  rewrite Eu. destruct (usable f) eqn:Hu; simpl.
  - intros H. apply bind_ok_inv in H as (sev & _ & H). apply IH in H as [Hwf H]; [|by apply od_wf_set]. split; [done|].
    intros cat d. rewrite H. unfold detects. rewrite od_get_set. case_decide as E.
    + subst cat. split.
      * intros [(g & [= <-] & Hd)|(h & Hh & ?)]; [|right; exists h; split; [by right|done]].
        apply add_to_group_keys in Hd as [->|Hd]; [right; exists f; split_and!; [by left|done..]|left].
        destruct (od_get (f_category f) m) as [g|]; [by exists g|by apply elem_of_nil in Hd].
      * intros [(g & Hg & Hd)|(h & Hh & Huh & Hc & Hdh)].
        -- left. eexists. split; [reflexivity|]. apply add_to_group_keys. right. by rewrite Hg.
        -- apply elem_of_cons in Hh as [->|Hh]; [left|right; by exists h]. eexists. split; [reflexivity|].
           apply add_to_group_keys. by left.
    + split.
      * intros [?|(h & Hh & ?)]; [by left|right; exists h; split; [by right|done]].
      * intros [?|(h & Hh & Huh & Hc & Hdh)]; [by left|right]. apply elem_of_cons in Hh as [->|Hh]; [done|by exists h].
  - intros H. apply IH in H as [Hwf H]; [|done]. split; [done|]. intros cat d. rewrite H. split.
    + intros [?|(h & Hh & ?)]; [by left|right; exists h; split; [by right|done]].
    + intros [?|(h & Hh & Huh & ?)]; [by left|right]. apply elem_of_cons in Hh as [->|Hh]; [congruence|by exists h].
Qed.
Lemma agreements_elem ml gs out c :
  agreements ml gs = Ok out → c ∈ out ↔ ∃ cat g, (cat, g) ∈ gs ∧ agreement ml cat g = Ok (Some c).
Proof.
  revert out. induction gs as [|[cat g] gs IH]; intros out; cbn [agreements].
  { intros [= <-]. split; [intros H; by apply elem_of_nil in H|intros (? & ? & H & _); by apply elem_of_nil in H]. }
  intros H. apply bind_ok_inv in H as (o & Ho & H). apply bind_ok_inv in H as (rest & Hr & [= <-]). rewrite elem_of_app, (IH _ Hr).
  split.
  - intros [Hc|(cat' & g' & Hin & Ha)]; [|exists cat', g'; split; [by right|done]]. exists cat, g. split; [by left|].
    destruct o as [c'|]; [|by apply elem_of_nil in Hc]. by apply list_elem_of_singleton in Hc as ->.
  - intros (cat' & g' & [[= -> ->]|Hin]%elem_of_cons & Ha); [left|right; by exists cat', g']. rewrite Ho in Ha. injection Ha as ->. by left.
Qed.

(** A behaviour is corroborated exactly when a learned and a heuristic detector agree on
    it: there is a group for a category if and only if some finding of the category comes
    from a learning detector and some from another, and the group names exactly the
    detectors that reported the category; the service's own outputs never count. *)
Theorem corroboration_iff fs ml out cat :
  find_corroborations fs ml = Ok out →
  let reported d := ∃ f, f ∈ fs ∧ usable f = true ∧ f_category f = cat ∧ f_detector f = d in
  ((∃ c, c ∈ out ∧ cr_category c = cat) ↔ ∃ d e, reported d ∧ reported e ∧ d ∈ ml ∧ e ∉ ml) ∧
  ∀ c, c ∈ out → cr_category c = cat → ∀ d, d ∈ cr_detectors c ↔ reported d.
Proof.
  intros H. cbv zeta. unfold find_corroborations in H. apply bind_ok_inv in H as (m & Hm & H).
  apply group_by_category_spec in Hm as [Hwf Hdet]; [|apply NoDup_nil; done].
  assert (Hrep : ∀ d, detects m cat d ↔ ∃ f, f ∈ fs ∧ usable f = true ∧ f_category f = cat ∧ f_detector f = d).
  { intros d. rewrite Hdet. split; [|by right]. intros [(g & Hg & _)|?]; done. }
  assert (Hag : ∀ g c, agreement ml cat g = Ok (Some c) → cr_category c = cat ∧
    (∃ d e, d ∈ od_keys (g_dets g) ∧ e ∈ od_keys (g_dets g) ∧ d ∈ ml ∧ e ∉ ml) ∧ ∀ d, d ∈ cr_detectors c ↔ d ∈ od_keys (g_dets g)).
  { intros g c Ha. unfold agreement in Ha. destruct (existsb (λ d, mem d ml) _) eqn:E1; [|done].
    destruct (existsb (λ d, negb (mem d ml)) _) eqn:E2; [|done]. simpl in Ha. apply bind_ok_inv in Ha as (z & _ & [= <-]).
    apply existsb_exists in E1 as (d & Hd & Hdm), E2 as (e & He & Hem). split_and!; [done| |intros x; apply elem_of_isort].
    exists d, e. split_and!; [by apply list_elem_of_In|by apply list_elem_of_In|by apply mem_true|]. apply mem_false. by destruct (mem e ml). }
  assert (Hcat : ∀ c, c ∈ out → cr_category c = cat → ∃ g, od_get cat m = Some g ∧ agreement ml cat g = Ok (Some c)).
  { intros c Hc Ec. apply (agreements_elem _ _ _ _ H) in Hc as (cat' & g & Hin & Ha). rewrite elem_of_isort in Hin.
    assert (cr_category c = cat') as E by (unfold agreement in Ha; destruct (_ && _); [|done]; by apply bind_ok_inv in Ha as (? & _ & [= <-])).
    rewrite E in Ec. subst cat'. exists g. split; [by apply od_wf_get|done]. }
  split; [split|].
  - intros (c & Hc & Ec). destruct (Hcat c Hc Ec) as (g & Hg & Ha). destruct (Hag g c Ha) as (_ & (d & e & Hd & He & ? & ?) & _).
    exists d, e. split_and!; [apply Hrep; by exists g|apply Hrep; by exists g|done..].
  - intros (d & e & Hd%Hrep & He%Hrep & Hdm & Hem). destruct Hd as (g & Hg & Hd). destruct He as (g' & Hg' & He).
    assert (g' = g) as -> by congruence.
    assert (Hin : (cat, g) ∈ isort fst m) by (rewrite elem_of_isort; by apply od_get_elem).
    assert (Hgo : ∃ c, agreement ml cat g = Ok (Some c)).
    { assert (Hok : is_ok (agreement ml cat g) = true).
      { clear -H Hin. revert out H. induction (isort fst m) as [|[k x] l IH]; intros out H; [by apply elem_of_nil in Hin|].
        cbn [agreements] in H. apply bind_ok_inv in H as (o & Ho & H). apply bind_ok_inv in H as (rest & Hr & _).
        apply elem_of_cons in Hin as [[= <- <-]|Hin]; [by rewrite Ho|by eapply IH]. }
      destruct (agreement ml cat g) as [o|] eqn:Ea; [|done]. destruct o as [c|]; [by exists c|]. exfalso. unfold agreement in Ea.
      rewrite (proj2 (existsb_exists (λ d, mem d ml) (od_keys (g_dets g)))) in Ea
        by (exists d; split; [by apply list_elem_of_In|by apply mem_true]).
      rewrite (proj2 (existsb_exists (λ d, negb (mem d ml)) (od_keys (g_dets g)))) in Ea
        by (exists e; split; [by apply list_elem_of_In|apply mem_false in Hem; by rewrite Hem]).
      simpl in Ea. by apply bind_ok_inv in Ea as (? & _ & ?). }
    destruct Hgo as [c Ha]. exists c. split; [|by eapply Hag]. apply (agreements_elem _ _ _ _ H). by exists cat, g.
  - intros c Hc Ec d. destruct (Hcat c Hc Ec) as (g & Hg & Ha). destruct (Hag g c Ha) as (_ & _ & Hdet'). rewrite Hdet', <- Hrep.
    split; [by exists g|]. intros (g' & Hg' & Hd). congruence.
Qed.

(** ** A worked day *)

Definition plain_finding (id det cat : string) (sev ts : Z) : finding :=
  {| f_id := Some id; f_detector := det; f_version := "1.0"; f_category := cat; f_severity := VInt sev; f_mitre := ["T1071"]; f_ts := ts |}.
Definition host_entities : val := VList [VDict [("type", VStr "ip"); ("role", VStr "src"); ("value", VStr "10.0.0.50")]].
Definition a_message (id det cat : string) (sev : Z) : message :=
  {| ms_finding := plain_finding id det cat sev 0; ms_entities := host_entities |}.
Definition day : Z := 86400000000.
Definition some_params : params := {| risk_threshold := lit "12.0"; min_tactics := 2; half_life := 3600000000; family_caps := [] |}.
Definition no_decay (age hl : Z) : float := lit "1.0".
Definition plain_sum (xs : list float) : float := foldl fadd (lit "0.0") xs.
Definition no_text (v : val) : string := "".
Definition no_json (s : string) : res val := Raise ValueError.
Definition no_asset (ip : string) : res (option string) := Ok None.
Definition day_round (now : Z) (ms : list message) (s : service) : service :=
  (round "acme" day 30000000 60000000 some_params ["slips_ml"] no_json no_text no_asset no_decay Datatypes.id plain_sum no_text now ms s).1.
Definition first_message : list message := [a_message "f1" "horizontal_scan" "recon" 5].
Definition next_messages : list message :=
  [a_message "f2" "slips_ml" "c2" 7; a_message "f3" "beacon" "c2" 7; a_message "f4" "correlation_incident" "incident" 9].
Definition after_three : service :=
  day_round 1772323390000000 [] (day_round 1772323320000000 next_messages (day_round 1772323260000000 first_message (boot 1772323200000000 []))).
Lemma after_three_lives :
  life "acme" day 30000000 60000000 some_params ["slips_ml"] no_json no_text no_asset no_decay Datatypes.id plain_sum no_text 1772323390000000 after_three.
Proof.
  unfold after_three, day_round.
  apply (life_round _ _ _ _ _ _ _ _ _ _ _ _ _ 1772323320000000); [|discriminate].
  apply (life_round _ _ _ _ _ _ _ _ _ _ _ _ _ 1772323260000000); [|discriminate].
  apply (life_round _ _ _ _ _ _ _ _ _ _ _ _ _ 1772323200000000); [|discriminate]. apply life_first.
Qed.

Lemma incidents_emitted_once_witness :
  (sv_sent after_three).*1 = [("acme|ip:10.0.0.50", 20513, "kill-chain"); ("acme|ip:10.0.0.50", 20513, "corrob:c2")] ∧
  NoDup (sv_sent after_three).*1.
Proof.
  split; [vm_compute; reflexivity|].
  exact (proj1 (incidents_emitted_once "acme" day 30000000 60000000 some_params ["slips_ml"] no_json no_text no_asset no_decay
    Datatypes.id plain_sum no_text eq_refl 1772323390000000 after_three after_three_lives)).
Defined.
Lemma restart_keeps_window_witness :
  let s' := _prune day 1772323390000000 (boot 1772323390000000 (sv_db (_persist after_three))) in
  od_get "acme|ip:10.0.0.50" (sv_state s') = od_get "acme|ip:10.0.0.50" (sv_state (_prune day 1772323390000000 after_three)) ∧
  (length <$> od_get "acme|ip:10.0.0.50" (sv_state s')) = Some 3%nat.
Proof.
  cbv zeta. split; [|vm_compute; reflexivity].
  exact (restart_keeps_window "acme" day 30000000 60000000 some_params ["slips_ml"] no_json no_text no_asset no_decay
    Datatypes.id plain_sum no_text eq_refl 1772323390000000 after_three 1772323390000000 "acme|ip:10.0.0.50" after_three_lives (Z.le_refl _)).
Defined.
Lemma corroboration_iff_witness :
  let fs := [plain_finding "f2" "slips_ml" "c2" 7 1; plain_finding "f3" "beacon" "c2" 7 2] in
  match find_corroborations fs ["slips_ml"] with
  | Ok out => ∃ c, c ∈ out ∧ cr_category c = "c2"
  | Raise _ => False
  end.
Proof.
  cbv zeta. set (fs := [_; _]).
  assert (E : ∃ out, find_corroborations fs ["slips_ml"] = Ok out) by (eexists; vm_compute; reflexivity). destruct E as [out E]. rewrite E.
  apply (corroboration_iff fs ["slips_ml"] out "c2" E). exists "slips_ml", "beacon".
  split; [exists (plain_finding "f2" "slips_ml" "c2" 7 1); split_and!; [left|reflexivity..]|].
  split; [exists (plain_finding "f3" "beacon" "c2" 7 2); split_and!; [right; left|reflexivity..]|].
  split; [left|]. by apply (bool_decide_eq_true_1 _); vm_compute.
Defined.
