(* ===== verification/NdpiPolicy.v ===== *)
(** * Structured nDPI risks (services/behavioral-detectors/ndpi_policy.py)

    The risks a deep packet inspection engine attached to a flow, parsed from any of the
    shapes producers emit, classified by an exact rule table and grouped into one
    finding per category.  [repr] is Python's [repr] of a value.  Addresses, tenant and
    sensor are strings, as the flow contract has them. *)

From S2P Require Import Prelude Order PyVal PyString OrderedMap.
Set Default Proof Using "Type".

(** ** Parsing *)

Definition MAX_RISKS : nat := 64.
Definition MAX_NAME : nat := 200.
Definition TIERS : list string := ["Low"; "Medium"; "High"; "Severe"; "Critical"; "Emergency"].

(** One risk entry; its [score_scope] is always "unverified". *)
Record risk_entry := {
  e_id : option string; e_name : option string; e_severity : option string; e_known : bool; e_score : dict;
  e_source : string; e_malformed : option string
}.
Definition SCORE_SCOPE : string := "unverified".

Definition type_name (v : val) : string :=
  match v with
  | VNone => "NoneType" | VBool _ => "bool" | VInt _ => "int" | VFloat _ => "float" | VStr _ => "str"
  | VList _ => "list" | VDict _ => "dict"
  end.

Definition _num (v : val) : option val :=
  match v with
  | VInt z =>
      match float_of_Z z with
      | Ok f => if SFltb f (S754_zero false) then None else Some v
      | Raise _ => None
      end
  | VFloat f => if is_finite f && negb (SFltb f (S754_zero false)) then Some v else None
  | _ => None
  end.

Definition _score (rs : val) : dict :=
  match rs with
  | VDict d => omap (λ k, n ← _num (dgetN k d); Some (k, n)) ["total"; "client"; "server"]
  | _ => []
  end.

Section parse.
Context (repr : val → string).

(** [max_name = None] leaves the name whole; so does 0. *)
Definition cut_name (max_name : option nat) (name : string) : string :=
  match max_name with Some (S n) => take_chars (S n) name | _ => name end.
Definition _entry (rid name : option string) (severity score : val) (source : string) (malformed : option string)
    (max_name : option nat) : risk_entry :=
  let sev := match severity with VStr s => Some s | _ => None end in
  {| e_id := rid; e_name := cut_name max_name <$> name; e_severity := sev;
     e_known := match sev with Some s => mem s TIERS | None => false end; e_score := _score score;
     e_source := source;
     e_malformed := match malformed, sev with
                    | None, Some s => if mem s TIERS then None else Some ("unknown severity tier " +:+ repr (VStr s))
                    | _, _ => malformed
                    end |}.

Definition no_name : option string := Some "risk name missing or not a string".
Definition mapping_entry (source : string) (max_name : option nat) (kv : string * val) : option risk_entry :=
  match kv.2 with
  | VDict v =>
      Some (match dgetN "risk" v with
            | VStr name => _entry (Some kv.1) (Some name) (dgetN "severity" v) (dgetN "risk_score" v) source None max_name
            | _ => _entry (Some kv.1) None VNone VNone source no_name (Some MAX_NAME)
            end)
  | VBool b => if b then Some (_entry None (Some kv.1) VNone VNone source None max_name) else None
  | VStr s => Some (_entry (Some kv.1) (Some s) VNone VNone source None max_name)
  | v => Some (_entry (Some kv.1) None VNone VNone source (Some ("unsupported risk value " +:+ type_name v)) (Some MAX_NAME))
  end.
Definition _from_mapping (m : dict) (source : string) (max_name : option nat) : list risk_entry :=
  omap (mapping_entry source max_name) (take MAX_RISKS m).

Definition list_entry (source : string) (max_name : option nat) (v : val) : option risk_entry :=
  match v with
  | VDict d =>
      let rid := match dgetN "id" d with VNone => None | i => Some (py_str repr i) end in
      Some (match dgetN "risk" d with
            | VStr name => _entry rid (Some name) (dgetN "severity" d) (dgetN "risk_score" d) source None max_name
            | _ => _entry rid None (dgetN "severity" d) (dgetN "risk_score" d) source no_name max_name
            end)
  | VBool _ => None
  | VStr s => Some (_entry None (Some s) VNone VNone source None max_name)
  | v => Some (_entry None None VNone VNone source (Some ("unsupported risk value " +:+ type_name v)) (Some MAX_NAME))
  end.
Definition _from_list (l : list val) (source : string) (max_name : option nat) : list risk_entry :=
  omap (list_entry source max_name) (take MAX_RISKS l).

Definition parse_risk_value (raw : val) (source : string) (max_name : option nat) : list risk_entry :=
  match raw with
  | VDict m => _from_mapping m source max_name
  | VList l => _from_list l source max_name
  | VBool _ | VNone => []
  | VStr s => [_entry None (Some s) VNone VNone source None max_name]
  | _ => [_entry None None VNone VNone source
            (Some ("unsupported " +:+ source +:+ " container " +:+ type_name raw)) (Some MAX_NAME)]
  end.

Definition parse_ndpi_risks (ndpi : val) : list risk_entry :=
  match ndpi with
  | VDict d =>
      if dhas "flow_risk" d then parse_risk_value (dgetN "flow_risk" d) "flow_risk" (Some MAX_NAME)
      else if dhas "risk" d then parse_risk_value (dgetN "risk" d) "risk" (Some MAX_NAME)
      else []
  | _ => []
  end.

(** ** Classification *)

Definition POLICY_VERSION : string := "ndpi-classification-v1".
Definition DETECTOR_VERSION : string := "2.0".
Definition _TIER_SEV : list (string * Z) :=
  [("Low", 2); ("Medium", 4); ("High", 6); ("Severe", 7); ("Critical", 8); ("Emergency", 9)].
Definition _CONF : list (string * float) :=
  [("policy", lit "0.80"); ("anomaly", lit "0.50"); ("exploit", lit "0.50"); ("observation", lit "0.20");
   ("unclassified", lit "0.20")].

Inductive mode := fixed (sev : Z) | band (lo hi : Z).
Record rule := { r_category : string; r_mode : mode; r_disposition : string; r_verified : bool }.
Definition low_observation (verified : bool) : rule :=
  {| r_category := "observation"; r_mode := fixed 2; r_disposition := "emit_low"; r_verified := verified |}.
Definition emit_rule (category : string) (m : mode) : rule :=
  {| r_category := category; r_mode := m; r_disposition := "emit"; r_verified := false |}.
Definition _RULES : list (string * rule) :=
  [("known proto on non std port", low_observation true); ("http susp user-agent", low_observation true);
   ("tls (probably) not carrying https", low_observation true); ("missing sni tls extn", low_observation true);
   ("tls fatal alert", low_observation true); ("susp entropy", low_observation true);
   ("unidirectional traffic", low_observation true); ("minor issues", low_observation true);
   ("smb insecure version", emit_rule "policy" (fixed 3)); ("clear-text credentials", emit_rule "policy" (band 2 5));
   ("obsolete tls version (1.1 or older)", emit_rule "policy" (band 2 5));
   ("weak tls cipher", emit_rule "policy" (band 2 5)); ("tls certificate expired", emit_rule "policy" (band 2 5));
   ("self-signed certificate", low_observation false); ("punycode idn", low_observation false);
   ("malicious ja3 fingerprint", emit_rule "anomaly" (band 3 7));
   ("malicious sha1 certificate", emit_rule "anomaly" (band 3 7));
   ("suspicious dga domain", emit_rule "anomaly" (band 3 7)); ("possible exploit", emit_rule "exploit" (band 4 8))].
Definition RISKY_BREEDS : list string := ["dangerous"; "potentially dangerous"; "unsafe"].

(** [s.split()] *)
Fixpoint words (s : string) : list string :=
  match s with
  | EmptyString => []
  | String c s' =>
      if is_space c then words s'
      else match s' with
           | String d _ =>
               if is_space d then String c "" :: words s'
               else match words s' with w :: ws => String c w :: ws | [] => [String c ""] end
           | EmptyString => [String c ""]
           end
  end.
Definition norm_str (s : string) : string := join " " (words (lower s)).
Definition _norm (name : val) : string :=
  match name with VStr _ | VInt _ | VBool _ => norm_str (py_str repr name) | _ => "" end.

Definition _severity (m : mode) (tier : option string) : Z :=
  match m with
  | fixed z => z
  | band lo hi => Z.max lo (Z.min hi (default lo (t ← tier; assoc t _TIER_SEV)))
  end.

(** A verdict; it is never [calibrated], its [confidence_basis] is its category and its
    [policy_version] the one above. *)
Record verdict := {
  v_category : string; v_severity : Z; v_confidence : float; v_disposition : string; v_rule : string;
  v_basis : string; v_verified : bool
}.
Definition confidence_of (category : string) : float := default S754_nan (assoc category _CONF).
Definition _verdict (category : string) (severity : Z) (disposition rule basis : string) (verified : bool) : verdict :=
  {| v_category := category; v_severity := severity; v_confidence := confidence_of category;
     v_disposition := disposition; v_rule := rule; v_basis := basis; v_verified := verified |}.

(** What of an entry classification reads: its normalized name and its known tier. *)
Definition signal : Type := string * option string.
Definition signal_of (e : risk_entry) : signal :=
  (match e_name e with Some n => norm_str n | None => "" end, if e_known e then e_severity e else None).
Definition classify_signal (s : signal) : verdict :=
  match assoc s.1 _RULES with
  | None => _verdict "unclassified" 1 "emit_low" "unclassified" "fallback" false
  | Some r =>
      let basis := match r_mode r with
                   | fixed _ => "fixed"
                   | band _ _ => if ostr_truthy s.2 then "native_tier" else "band_floor"
                   end in
      _verdict (r_category r) (_severity (r_mode r) s.2) (r_disposition r) s.1 basis (r_verified r)
  end.
Definition classify_ndpi_risk (e : risk_entry) : verdict := classify_signal (signal_of e).

Definition classify_breed (breed proto : val) : option verdict :=
  if negb (truthy breed) || negb (mem (_norm breed) RISKY_BREEDS) then None
  else if contains "smbv1" (_norm proto) then Some (_verdict "policy" 3 "emit" "breed:smbv1" "fixed" true)
  else Some (_verdict "observation" 2 "emit_low" ("breed:" +:+ _norm breed) "fixed" true).

(** ** Findings *)

Definition MAX_EVIDENCE : nat := 16.
Definition str_or_none (s : option string) : val := match s with Some s => VStr s | None => VNone end.
Record evidence := {
  ev_rule : string; ev_name : option string; ev_id : option string; ev_native : option string; ev_score : dict;
  ev_category : string; ev_severity : Z; ev_basis : string
}.
Definition _evidence (e : risk_entry) (v : verdict) : evidence :=
  {| ev_rule := v_rule v; ev_name := e_name e; ev_id := e_id e; ev_native := e_severity e; ev_score := e_score e;
     ev_category := v_category v; ev_severity := v_severity v; ev_basis := v_basis v |}.
Definition evidence_val (ev : evidence) : val :=
  VDict [("rule", VStr (ev_rule ev)); ("name", str_or_none (ev_name ev)); ("id", str_or_none (ev_id ev));
         ("native_severity", str_or_none (ev_native ev)); ("score", VDict (ev_score ev));
         ("score_scope", VStr SCORE_SCOPE); ("category", VStr (ev_category ev));
         ("severity", VInt (ev_severity ev)); ("severity_basis", VStr (ev_basis ev))].

(** The entry that stands for a risky breed. *)
Definition breed_entry (v : verdict) : risk_entry :=
  {| e_id := None; e_name := Some (v_rule v); e_severity := None; e_known := false; e_score := [];
     e_source := ""; e_malformed := None |}.
Definition breed_of (ndpi : val) : option verdict :=
  match ndpi with
  | VDict d => classify_breed (py_or (dgetN "breed" d) (VStr "")) (py_or (dgetN "proto" d) (VStr ""))
  | _ => None
  end.
Definition named (ndpi : val) : list risk_entry := List.filter (λ e, ostr_truthy (e_name e)) (parse_ndpi_risks ndpi).
Definition verdicts (ndpi : val) : list (verdict * risk_entry) :=
  ((λ e, (classify_ndpi_risk e, e)) <$> named ndpi)
  ++ match breed_of ndpi with Some v => [(v, breed_entry v)] | None => [] end.

Record group := {
  g_sev : Z; g_conf : float; g_disp : string; g_rules : list string; g_ev : list evidence; g_verified : bool
}.
Definition new_group (v : verdict) : group :=
  {| g_sev := 0; g_conf := lit "0.0"; g_disp := v_disposition v; g_rules := []; g_ev := []; g_verified := true |}.
Definition extend (g : group) (ve : verdict * risk_entry) : group :=
  let v := ve.1 in
  let top := g_sev g <? v_severity v in
  {| g_sev := if top then v_severity v else g_sev g; g_conf := if top then v_confidence v else g_conf g;
     g_disp := if top then v_disposition v else g_disp g; g_rules := g_rules g ++ [v_rule v];
     g_ev := if (length (g_ev g) <? MAX_EVIDENCE)%nat then g_ev g ++ [_evidence ve.2 v] else g_ev g;
     g_verified := g_verified g && v_verified v |}.
Definition add_verdict (by_cat : list (string * group)) (ve : verdict * risk_entry) : list (string * group) :=
  let c := v_category ve.1 in
  od_set c (extend (default (new_group ve.1) (od_get c by_cat)) ve) by_cat.

(** [sorted({...})] of strings. *)
Definition sorted_set (l : list string) : list string := isort id (remove_dups l).

Record finding := {
  n_category : string; n_severity : Z; n_confidence : float; n_disposition : string; n_entities : list val;
  n_identity : string; n_rules : list string; n_verified : bool
}.
Section findings.
Context (src dst tenant : string) (sensor transport : option string) (dport : option Z).

Definition dport_str : string :=
  match dport with Some p => if p =? 0 then "" else pretty p | None => "" end.
Definition identity_of (cat : string) (rules : list string) (sev : Z) : string :=
  join "|" [tenant; default "" sensor; src; dst; default "" transport; dport_str; cat; join "," rules;
            POLICY_VERSION; pretty sev].
Definition entities_of (cat : string) (g : group) : list val :=
  [VDict [("type", VStr "ip"); ("role", VStr "src"); ("value", VStr src)];
   VDict [("type", VStr "ip"); ("role", VStr "dst"); ("value", VStr dst)];
   VDict [("type", VStr "ndpi_risk");
          ("value", VList (VStr <$> sorted_set (List.filter str_truthy (omap ev_name (g_ev g)))))];
   VDict [("type", VStr "ndpi_evidence");
          ("value", VDict [("evidence_version", VInt 1); ("policy_version", VStr POLICY_VERSION);
             ("detector_version", VStr DETECTOR_VERSION); ("category", VStr cat); ("confidence_basis", VStr cat);
             ("calibrated", VBool false); ("risks", VList (evidence_val <$> g_ev g))])]].
Definition finding_of (cg : string * group) : finding :=
  let '(cat, g) := cg in
  let rules := sorted_set (List.filter str_truthy (g_rules g)) in
  {| n_category := cat; n_severity := g_sev g; n_confidence := g_conf g; n_disposition := g_disp g;
     n_entities := entities_of cat g; n_identity := identity_of cat rules (g_sev g); n_rules := rules;
     n_verified := g_verified g |}.
Definition ndpi_findings (ndpi : val) : list finding :=
  finding_of <$> isort fst (foldl add_verdict [] (verdicts ndpi)).
End findings.
End parse.

(** ** Facts on sets of strings and maxima *)

Lemma sorted_set_ext l l' : (∀ x, x ∈ l ↔ x ∈ l') → sorted_set l = sorted_set l'.
Proof.
  intros H. apply isort_perm_eq.
  - rewrite list_fmap_id. apply NoDup_remove_dups.
  - apply NoDup_Permutation; [apply NoDup_remove_dups..|]. intros x. by rewrite !elem_of_remove_dups.
Qed.

Lemma elem_of_sorted_set x l : x ∈ sorted_set l ↔ x ∈ l.
Proof. unfold sorted_set. by rewrite elem_of_isort, elem_of_remove_dups. Qed.

Lemma NoDup_sorted_set l : NoDup (sorted_set l).
Proof. unfold sorted_set. rewrite isort_perm. apply NoDup_remove_dups. Qed.

Definition max_of (l : list Z) : Z := foldr Z.max 0 l.
Lemma max_of_ge x l : x ∈ l → x <= max_of l.
Proof. unfold max_of. induction 1 as [|x y l _ IH]; simpl; lia. Qed.
Lemma max_of_elem l : max_of l = 0 ∨ max_of l ∈ l.
Proof.
  unfold max_of. induction l as [|x l IH]; simpl; [by left|].
  destruct (Z.max_spec x (foldr Z.max 0 l)) as [[_ ->]|[_ ->]]; [|right; by left].
  destruct IH as [->|IH]; [by left|right; by right].
Qed.
Lemma max_of_nonneg l : 0 <= max_of l.
Proof. unfold max_of. induction l; simpl; lia. Qed.
Lemma max_of_ext l l' : (∀ x, x ∈ l ↔ x ∈ l') → max_of l = max_of l'.
Proof.
  intros H. apply Z.le_antisymm.
  - destruct (max_of_elem l) as [->|E]; [apply max_of_nonneg|]. apply max_of_ge. by apply H.
  - destruct (max_of_elem l') as [->|E]; [apply max_of_nonneg|]. apply max_of_ge. by apply H.
Qed.
Lemma max_of_snoc l x : max_of (l ++ [x]) = Z.max (max_of l) x.
Proof. unfold max_of. induction l as [|y l IH]; simpl; [|rewrite IH]; lia. Qed.

Lemma forallb_ext_set {A} (p : A → bool) l l' : (∀ x, x ∈ l ↔ x ∈ l') → forallb p l = forallb p l'.
Proof.
  intros H. apply eq_bool_prop_intro. rewrite !Is_true_true, !forallb_forall.
  split; intros Hp x Hx; apply Hp, list_elem_of_In, H, list_elem_of_In, Hx.
Qed.

Lemma forallb_fmap {A B} (f : A → B) (p : B → bool) l : forallb p (f <$> l) = forallb (p ∘ f) l.
Proof. induction l as [|x l IH]; [done|]. simpl. by rewrite <- IH. Qed.

(** ** Verdicts keep to their category *)

(** Per category the least and greatest severity and the disposition. *)
Definition BANDS : list (string * (Z * Z * string)) :=
  [("observation", (2, 2, "emit_low")); ("policy", (2, 5, "emit")); ("anomaly", (3, 7, "emit"));
   ("exploit", (4, 8, "emit")); ("unclassified", (1, 1, "emit_low"))].
Definition within (c : string) (sev : Z) (disp : string) (conf : float) : Prop :=
  ∃ lo hi, assoc c BANDS = Some (lo, hi, disp) ∧ lo <= sev <= hi ∧ 0 < lo ∧ conf = confidence_of c.
Definition verdict_ok (v : verdict) : Prop :=
  within (v_category v) (v_severity v) (v_disposition v) (v_confidence v).

Definition rule_ok (r : rule) : bool :=
  match assoc (r_category r) BANDS with
  | Some (lo, hi, d) =>
      String.eqb d (r_disposition r) && (0 <? lo) &&
      match r_mode r with fixed z => between lo hi z | band l h => (lo <=? l) && (l <=? h) && (h <=? hi) end
  | None => false
  end.

Lemma rules_ok : forallb (λ nr, rule_ok nr.2) _RULES = true.
Proof. vm_compute. reflexivity. Qed.

Lemma severity_band m t lo hi :
  match m with fixed z => between lo hi z | band l h => (lo <=? l) && (l <=? h) && (h <=? hi) end = true →
  lo <= _severity m t <= hi.
Proof. destruct m as [z|l h]; unfold between; intros H; to_prop; simpl; lia. Qed.

Lemma classify_ok s : verdict_ok (classify_signal s).
Proof.
  unfold classify_signal. destruct (assoc s.1 _RULES) as [r|] eqn:E.
  - assert (Hr : rule_ok r = true).
    { apply assoc_elem, list_elem_of_In in E. pose proof rules_ok as H. rewrite forallb_forall in H. by apply (H _ E). }
    unfold rule_ok in Hr. destruct (assoc (r_category r) BANDS) as [[[lo hi] d]|] eqn:EB; [|done]. to_prop.
    match goal with H : String.eqb _ _ = true |- _ => apply String.eqb_eq in H as -> end.
    exists lo, hi. split; [exact EB|]. split; [by apply severity_band|done].
  - exists 1, 1. split_and!; done.
Qed.

Section theorems.
Context (repr : val → string).

Lemma breed_ok ndpi v : breed_of repr ndpi = Some v → verdict_ok v.
Proof.
  unfold breed_of, classify_breed. destruct ndpi; try done.
  destruct (negb _ || negb _); [done|]. destruct (contains _ _); intros [= <-].
  - exists 2, 5. split_and!; done.
  - exists 2, 2. split_and!; done.
Qed.

Lemma verdicts_ok ndpi : Forall (λ ve, verdict_ok ve.1) (verdicts repr ndpi).
Proof.
  unfold verdicts. apply Forall_app_2.
  - apply Forall_fmap, Forall_true. intros e. apply classify_ok.
  - destruct (breed_of repr ndpi) eqn:E; [|done]. constructor; [by eapply breed_ok|done].
Qed.

(** ** Grouping *)

Definition of_cat (c : string) (vs : list (verdict * risk_entry)) : list (verdict * risk_entry) :=
  List.filter (λ ve, String.eqb (v_category ve.1) c) vs.

Lemma of_cat_cons c ve vs :
  of_cat c (ve :: vs) = if String.eqb (v_category ve.1) c then ve :: of_cat c vs else of_cat c vs.
Proof. reflexivity. Qed.

Lemma od_get_grouped c vs m :
  od_get c (foldl add_verdict m vs)
  = match of_cat c vs with
    | [] => od_get c m
    | ve :: l => Some (foldl extend (default (new_group ve.1) (od_get c m)) (ve :: l))
    end.
Proof.
  revert m. induction vs as [|ve vs IH]; intros m; [done|]. cbn [foldl]. rewrite IH, of_cat_cons. unfold add_verdict.
  destruct (String.eqb_spec (v_category ve.1) c) as [->|Hne].
  - rewrite od_get_set_eq. by destruct (of_cat c vs).
  - by rewrite od_get_set_ne.
Qed.

Lemma grouped_wf vs m : od_wf m → od_wf (foldl add_verdict m vs).
Proof. revert m. induction vs as [|ve vs IH]; intros m Hm; simpl; [done|]. by apply IH, od_wf_set. Qed.

Lemma extend_rules g vs : g_rules (foldl extend g vs) = g_rules g ++ (v_rule ∘ fst <$> vs).
Proof.
  revert g. induction vs as [|ve vs IH]; intros g; simpl; [by rewrite app_nil_r|]. rewrite IH. simpl.
  by rewrite <- app_assoc.
Qed.
Lemma extend_verified g vs : g_verified (foldl extend g vs) = g_verified g && forallb (v_verified ∘ fst) vs.
Proof.
  revert g. induction vs as [|ve vs IH]; intros g; simpl; [by rewrite andb_true_r|]. rewrite IH. simpl.
  by rewrite andb_assoc.
Qed.
Lemma extend_sev g vs : g_sev (foldl extend g vs) = Z.max (g_sev g) (max_of (v_severity ∘ fst <$> vs)) ∨ g_sev g < 0.
Proof.
  destruct (decide (g_sev g < 0)) as [|Hg]; [by right|left]. revert g Hg.
  induction vs as [|ve vs IH]; intros g Hg; [simpl; lia|]. cbn [foldl].
  assert (E : g_sev (extend g ve) = Z.max (g_sev g) (v_severity ve.1)).
  { unfold extend; simpl. destruct (Z.ltb_spec (g_sev g) (v_severity ve.1)); lia. }
  rewrite IH by (rewrite E; lia). rewrite E. unfold max_of. cbn. lia.
Qed.
Lemma extend_ev g vs :
  g_ev (foldl extend g vs)
  = g_ev g ++ take (MAX_EVIDENCE - length (g_ev g)) ((λ ve : verdict * risk_entry, _evidence ve.2 ve.1) <$> vs).
Proof.
  revert g. induction vs as [|ve vs IH]; intros g; [by rewrite fmap_nil, take_nil, app_nil_r|].
  cbn [foldl]. rewrite IH. unfold extend at 1 2. cbn [g_ev]. rewrite fmap_cons.
  destruct (Nat.ltb_spec (length (g_ev g)) MAX_EVIDENCE) as [Hl|Hl].
  - rewrite length_app. simpl length. replace (MAX_EVIDENCE - length (g_ev g))%nat
      with (S (MAX_EVIDENCE - (length (g_ev g) + 1))) by lia. simpl. by rewrite <- app_assoc.
  - by replace (MAX_EVIDENCE - length (g_ev g))%nat with 0%nat by lia.
Qed.

Lemma extend_class c g vs :
  Forall (λ ve : verdict * risk_entry, v_category ve.1 = c ∧ verdict_ok ve.1) vs →
  (g_sev g = 0 ∧ vs ≠ []) ∨ (∃ s, within c s (g_disp g) (g_conf g)) →
  ∃ s, within c s (g_disp (foldl extend g vs)) (g_conf (foldl extend g vs)).
Proof.
  revert g. induction vs as [|ve vs IH]; intros g Hall [[Hs Hne]|Hg]; [done|done| |];
    inversion Hall as [|? ? [Hc Hv] Hall']; subst; cbn [foldl]; apply IH; try done; right.
  - unfold extend. simpl. rewrite Hs. destruct Hv as (lo & hi & Ha & Hb & Hlo & Hf).
    destruct (Z.ltb_spec 0 (v_severity ve.1)); [|lia]. simpl. exists (v_severity ve.1), lo, hi. done.
  - unfold extend. simpl. destruct (_ <? _); [|done]. simpl. by exists (v_severity ve.1).
Qed.

Lemma of_cat_nil c vs : of_cat c vs = [] ↔ c ∉ (v_category ∘ fst <$> vs).
Proof.
  induction vs as [|ve vs IH]; [split; [intros _; apply not_elem_of_nil|done]|].
  rewrite of_cat_cons, fmap_cons, not_elem_of_cons. simpl.
  destruct (String.eqb_spec (v_category ve.1) c); [split; [done|naive_solver]|]. naive_solver.
Qed.

Lemma elem_of_of_cat c ve vs : ve ∈ of_cat c vs ↔ ve ∈ vs ∧ v_category ve.1 = c.
Proof.
  unfold of_cat. rewrite !list_elem_of_In, filter_In. by rewrite String.eqb_eq.
Qed.

Lemma grouped_entry c g vs :
  (c, g) ∈ foldl add_verdict [] vs →
  ∃ ve, ve ∈ of_cat c vs ∧ g = foldl extend (new_group ve.1) (of_cat c vs).
Proof.
  intros H. apply od_wf_get in H; [|apply grouped_wf, od_wf_nil]. rewrite od_get_grouped in H.
  destruct (of_cat c vs) as [|ve l]; [done|]. injection H as <-. exists ve. split; [left|done].
Qed.

Lemma grouped_keys vs : od_keys (foldl add_verdict [] vs) ≡ₚ remove_dups (v_category ∘ fst <$> vs).
Proof.
  apply NoDup_Permutation; [apply (grouped_wf vs []), od_wf_nil|apply NoDup_remove_dups|].
  intros c. rewrite elem_of_remove_dups. destruct (decide (c ∈ (v_category ∘ fst <$> vs))) as [Hc|Hc].
  - split; [done|intros _]. apply dec_stable. intros Hn. apply od_get_none in Hn. rewrite od_get_grouped in Hn.
    destruct (of_cat c vs) eqn:E; [|done]. by apply of_cat_nil in E.
  - split; [|done]. intros Hin. exfalso. apply (proj1 (od_get_none c _)) in Hin; [done|].
    rewrite od_get_grouped. by rewrite (proj2 (of_cat_nil c vs) Hc).
Qed.

Lemma sorted_keys {V} (m : list (string * V)) : od_wf m → (isort fst m).*1 = isort id (od_keys m).
Proof.
  intros Hm. apply (sorted_perm_unique id).
  - rewrite list_fmap_id, isort_perm. exact Hm.
  - pose proof (isort_sorted fst m) as Hs. induction Hs as [|x l _ IH Hall]; [constructor|].
    simpl. constructor; [done|]. by apply Forall_fmap.
  - apply isort_sorted.
  - by rewrite !isort_perm.
Qed.

(** ** What a finding says *)

Section outline.
Context (src dst tenant : string) (sensor transport : option string) (dport : option Z).

(** A finding without its evidence, and the one that a list of verdicts determines for a
    category. *)
Definition outline (f : finding) : finding :=
  {| n_category := n_category f; n_severity := n_severity f; n_confidence := n_confidence f;
     n_disposition := n_disposition f; n_entities := []; n_identity := n_identity f; n_rules := n_rules f;
     n_verified := n_verified f |}.
Definition expected (vs : list verdict) (c : string) : finding :=
  let l := List.filter (λ v, String.eqb (v_category v) c) vs in
  let rules := sorted_set (List.filter str_truthy (v_rule <$> l)) in
  let sev := max_of (v_severity <$> l) in
  {| n_category := c; n_severity := sev; n_confidence := confidence_of c;
     n_disposition := match assoc c BANDS with Some b => b.2 | None => "" end; n_entities := [];
     n_identity := identity_of src dst tenant sensor transport dport c rules sev; n_rules := rules;
     n_verified := forallb v_verified l |}.

Lemma of_cat_fst c vs : (of_cat c vs).*1 = List.filter (λ v, String.eqb (v_category v) c) vs.*1.
Proof.
  induction vs as [|ve vs IH]; [done|]. rewrite of_cat_cons.
  change ((ve :: vs).*1) with (ve.1 :: vs.*1). cbn [List.filter]. rewrite <- IH.
  by destruct (String.eqb _ _).
Qed.

Lemma of_cat_class ndpi c vs :
  vs = verdicts repr ndpi →
  Forall (λ ve : verdict * risk_entry, v_category ve.1 = c ∧ verdict_ok ve.1) (of_cat c vs).
Proof.
  intros ->. apply Forall_forall. intros ve Hve. apply elem_of_of_cat in Hve as [Hve Hc]. split; [done|].
  pose proof (verdicts_ok ndpi) as H. rewrite Forall_forall in H. by apply H.
Qed.

Lemma group_outline ndpi c g :
  (c, g) ∈ foldl add_verdict [] (verdicts repr ndpi) →
  outline (finding_of src dst tenant sensor transport dport (c, g)) = expected (verdicts repr ndpi).*1 c.
Proof.
  intros Hin. apply grouped_entry in Hin as (ve & Hve & ->).
  assert (Hcl := of_cat_class ndpi c _ eq_refl).
  destruct (extend_class c (new_group ve.1) (of_cat c (verdicts repr ndpi)) Hcl) as (s & lo & hi & Hb & _ & _ & Hc).
  { left. split; [done|]. intros E. rewrite E in Hve. by apply elem_of_nil in Hve. }
  destruct (extend_sev (new_group ve.1) (of_cat c (verdicts repr ndpi))) as [Hs|]; [|simpl in *; lia].
  unfold outline, expected, finding_of. cbn [n_category n_severity n_confidence n_disposition n_identity n_rules n_verified].
  rewrite extend_rules, extend_verified, Hs, Hc, <- of_cat_fst, <- !list_fmap_compose. cbn [g_rules g_sev g_verified new_group].
  rewrite Z.max_r by apply max_of_nonneg. simpl app. rewrite andb_true_l.
  replace (forallb v_verified (of_cat c (verdicts repr ndpi)).*1)
    with (forallb (v_verified ∘ fst) (of_cat c (verdicts repr ndpi))) by (by rewrite forallb_fmap).
  by rewrite Hb.
Qed.

Lemma findings_outline ndpi :
  outline <$> ndpi_findings repr src dst tenant sensor transport dport ndpi
  = expected (verdicts repr ndpi).*1 <$> sorted_set (v_category <$> (verdicts repr ndpi).*1).
Proof.
  unfold ndpi_findings. rewrite <- list_fmap_compose.
  transitivity (expected (verdicts repr ndpi).*1 <$> (isort fst (foldl add_verdict [] (verdicts repr ndpi))).*1).
  - rewrite <- list_fmap_compose. apply list_fmap_ext. intros i [c g] Hi. apply group_outline.
    apply list_elem_of_lookup_2 in Hi. by apply elem_of_isort in Hi.
  - f_equal. rewrite sorted_keys by apply grouped_wf, od_wf_nil. unfold sorted_set. apply isort_perm_eq.
    + rewrite list_fmap_id. apply grouped_wf, od_wf_nil.
    + rewrite grouped_keys. by rewrite <- list_fmap_compose.
Qed.

Lemma expected_ext vs vs' c : (∀ v, v ∈ vs ↔ v ∈ vs') → expected vs c = expected vs' c.
Proof.
  intros H. set (l := List.filter (λ v, String.eqb (v_category v) c) vs).
  set (l' := List.filter (λ v, String.eqb (v_category v) c) vs').
  assert (Hl : ∀ v, v ∈ l ↔ v ∈ l').
  { intros v. unfold l, l'. rewrite !list_elem_of_In, !filter_In, <- !list_elem_of_In. by rewrite H. }
  assert (Hm : ∀ B (f : verdict → B) x, x ∈ f <$> l ↔ x ∈ f <$> l').
  { intros B f x. rewrite !list_elem_of_fmap. by setoid_rewrite Hl. }
  unfold expected. fold l l'. rewrite (max_of_ext _ _ (Hm Z v_severity)), (forallb_ext_set _ _ _ Hl).
  rewrite (sorted_set_ext _ (List.filter str_truthy (v_rule <$> l'))); [done|].
  intros x. rewrite !list_elem_of_In, !filter_In, <- !list_elem_of_In. by rewrite Hm.
Qed.

(** The signals of a flow: normalized name and known tier of each named risk. *)
Definition signals (ndpi : val) : list signal := signal_of <$> named repr ndpi.

Lemma verdicts_signals ndpi :
  (verdicts repr ndpi).*1
  = (classify_signal <$> signals ndpi) ++ match breed_of repr ndpi with Some v => [v] | None => [] end.
Proof.
  unfold verdicts, signals. rewrite fmap_app, <- !list_fmap_compose. f_equal.
  by destruct (breed_of repr ndpi).
Qed.

(** The findings of a flow are decided by the set of its signals: the order of the
    risks, repetitions, risk identifiers and scores change neither which findings there
    are nor their severity, confidence, disposition, rules and identity, so repeats of
    a flow do not multiply findings. *)
Theorem ndpi_findings_by_signals ndpi ndpi' :
  (∀ s, s ∈ signals ndpi ↔ s ∈ signals ndpi') → breed_of repr ndpi = breed_of repr ndpi' →
  outline <$> ndpi_findings repr src dst tenant sensor transport dport ndpi
  = outline <$> ndpi_findings repr src dst tenant sensor transport dport ndpi'.
Proof.
  intros Hs Hb.
  assert (Hv : ∀ v, v ∈ (verdicts repr ndpi).*1 ↔ v ∈ (verdicts repr ndpi').*1).
  { intros v. rewrite !verdicts_signals, Hb, !elem_of_app, !list_elem_of_fmap. by setoid_rewrite Hs. }
  rewrite !findings_outline.
  rewrite (sorted_set_ext (v_category <$> (verdicts repr ndpi).*1) (v_category <$> (verdicts repr ndpi').*1)).
  - apply list_fmap_ext. intros i c _. by apply expected_ext.
  - intros c. rewrite !list_elem_of_fmap. by setoid_rewrite Hv.
Qed.

(** Where a rule named by a finding comes from. *)
Definition rule_source (ndpi : val) (f : finding) (r : string) : Prop :=
  (∃ e rl, e ∈ parse_ndpi_risks repr ndpi ∧ assoc (signal_of e).1 _RULES = Some rl ∧ r = (signal_of e).1 ∧
           r_category rl = n_category f) ∨
  (r = "unclassified" ∧ n_category f = "unclassified") ∨
  (∃ v, breed_of repr ndpi = Some v ∧ v_rule v = r ∧ v_category v = n_category f).

Lemma verdict_source ndpi f v :
  v ∈ (verdicts repr ndpi).*1 → v_category v = n_category f → rule_source ndpi f (v_rule v).
Proof.
  rewrite verdicts_signals, elem_of_app, list_elem_of_fmap. intros [(s & -> & Hs)|Hb] Hc.
  - unfold signals, named in Hs. apply list_elem_of_fmap in Hs as (e & -> & He).
    apply list_elem_of_In, filter_In in He as [He _]. apply list_elem_of_In in He.
    unfold classify_signal in *. destruct (assoc (signal_of e).1 _RULES) as [rl|] eqn:E.
    + left. exists e, rl. done.
    + right; left. done.
  - right; right. destruct (breed_of repr ndpi) as [v'|]; [|by apply elem_of_nil in Hb].
    apply list_elem_of_singleton in Hb as ->. by exists v'.
Qed.

Lemma in_findings ndpi f :
  f ∈ ndpi_findings repr src dst tenant sensor transport dport ndpi →
  ∃ g, (n_category f, g) ∈ foldl add_verdict [] (verdicts repr ndpi) ∧
       f = finding_of src dst tenant sensor transport dport (n_category f, g).
Proof.
  unfold ndpi_findings. intros H. apply list_elem_of_fmap in H as ([c g] & -> & H). exists g.
  apply elem_of_isort in H. done.
Qed.

Lemma within_le8 c s d q : within c s d q → s <= 8.
Proof.
  intros (lo & hi & Hb & Hs & _). apply assoc_elem in Hb. unfold BANDS in Hb.
  repeat (apply elem_of_cons in Hb as [Hb|Hb]; [simplify_eq; lia|]). by apply elem_of_nil in Hb.
Qed.

Lemma expected_within ndpi f ve :
  ve ∈ of_cat (n_category f) (verdicts repr ndpi) → outline f = expected (verdicts repr ndpi).*1 (n_category f) →
  within (n_category f) (n_severity f) (n_disposition f) (n_confidence f).
Proof.
  intros Hve Ho. assert (Hcl := of_cat_class ndpi (n_category f) _ eq_refl). rewrite Forall_forall in Hcl.
  assert (E := f_equal n_severity Ho). assert (E2 := f_equal n_disposition Ho). assert (E3 := f_equal n_confidence Ho).
  cbn [n_severity n_disposition n_confidence outline expected] in E, E2, E3.
  rewrite <- of_cat_fst, <- list_fmap_compose in E.
  destruct (Hcl ve Hve) as [Hc (lo & hi & Hb & Hs & Hlo & Hf)]. rewrite Hc in Hb.
  destruct (max_of_elem ((v_severity ∘ fst) <$> of_cat (n_category f) (verdicts repr ndpi))) as [Hz|Hel].
  - assert (v_severity ve.1 <= 0); [|lia]. rewrite <- Hz. apply max_of_ge. apply list_elem_of_fmap. by exists ve.
  - apply list_elem_of_fmap in Hel as (ve' & Hel & Hve'). destruct (Hcl ve' Hve') as [Hc' (lo' & hi' & Hb' & Hs' & Hlo' & Hf')].
    rewrite Hc' in Hb'. exists lo', hi'. split; [|split; [|split]].
    + rewrite E2, Hb'. reflexivity.
    + rewrite E, Hel. exact Hs'.
    + done.
    + exact E3.
Qed.

Lemma finding_within ndpi f :
  f ∈ ndpi_findings repr src dst tenant sensor transport dport ndpi →
  within (n_category f) (n_severity f) (n_disposition f) (n_confidence f).
Proof.
  intros (g & Hin & Hf)%in_findings. assert (Ho := group_outline ndpi _ _ Hin). rewrite <- Hf in Ho.
  apply grouped_entry in Hin as (ve & Hve & _). by apply (expected_within ndpi f ve).
Qed.

Lemma length_omap_le {A B} (f : A → option B) l : (length (omap f l) <= length l)%nat.
Proof.
  induction l as [|x l IH]; [done|]. change (omap f (x :: l)) with (match f x with Some y => y :: omap f l | None => omap f l end).
  destruct (f x); cbn [length]; lia.
Qed.

Lemma parse_bounded ndpi : (length (parse_ndpi_risks repr ndpi) <= 64)%nat.
Proof.
  assert (H : ∀ A B (f : A → option B) l, (length (omap f (take MAX_RISKS l)) <= 64)%nat).
  { intros A B f l. etrans; [apply length_omap_le|]. rewrite length_take. unfold MAX_RISKS. lia. }
  assert (Hp : ∀ raw source mx, (length (parse_risk_value repr raw source mx) <= 64)%nat).
  { intros raw source mx. destruct raw; simpl; try lia; apply H. }
  unfold parse_ndpi_risks. destruct ndpi; simpl; try lia. repeat case_match; simpl; try lia; apply Hp.
Qed.

(** Every finding keeps to its category: its severity lies in the band of the
    category (never above 8) and is the greatest of the verdicts it joins, its confidence
    and disposition are those of the category, it names distinct rules each of which the
    exact table, the unclassified fallback or the protocol's breed gave to that category,
    and it carries at least one and at most sixteen pieces of evidence.  There is one
    finding per category, and at most 64 risks are looked at. *)
Theorem ndpi_findings_contract ndpi :
  Forall (λ f, within (n_category f) (n_severity f) (n_disposition f) (n_confidence f) ∧
    n_severity f <= 8 ∧
    (∀ v, v ∈ (verdicts repr ndpi).*1 → v_category v = n_category f → v_severity v <= n_severity f) ∧
    NoDup (n_rules f) ∧ Forall (rule_source ndpi f) (n_rules f) ∧
    ∃ g, n_entities f = entities_of src dst (n_category f) g ∧ (1 <= length (g_ev g) <= 16)%nat)
    (ndpi_findings repr src dst tenant sensor transport dport ndpi) ∧
  NoDup (n_category <$> ndpi_findings repr src dst tenant sensor transport dport ndpi) ∧
  (length (parse_ndpi_risks repr ndpi) <= 64)%nat.
Proof.
  split_and!.
  - apply Forall_forall. intros f Hff. destruct (in_findings _ _ Hff) as (g & Hin & Hf).
    assert (Ho := group_outline ndpi _ _ Hin). rewrite <- Hf in Ho.
    apply grouped_entry in Hin as (ve & Hve & Hg).
    assert (Hcl := of_cat_class ndpi (n_category f) _ eq_refl). rewrite Forall_forall in Hcl.
    set (l := List.filter (λ v, String.eqb (v_category v) (n_category f)) (verdicts repr ndpi).*1) in *.
    assert (El : l = (of_cat (n_category f) (verdicts repr ndpi)).*1) by (symmetry; apply of_cat_fst).
    assert (Hsev : n_severity f = max_of (v_severity <$> l)) by (change (n_severity f) with (n_severity (outline f)); by rewrite Ho).
    assert (Hw : within (n_category f) (n_severity f) (n_disposition f) (n_confidence f)) by by apply (finding_within ndpi).
    split_and!.
    + done.
    + by eapply within_le8.
    + intros v Hv Hc. rewrite Hsev. apply max_of_ge. apply list_elem_of_fmap. exists v. split; [done|].
      unfold l. apply list_elem_of_In, filter_In. split; [by apply list_elem_of_In|]. by apply String.eqb_eq.
    + change (n_rules f) with (n_rules (outline f)). rewrite Ho. apply NoDup_sorted_set.
    + apply Forall_forall. intros r Hr. change (n_rules f) with (n_rules (outline f)) in Hr. rewrite Ho in Hr.
      apply elem_of_sorted_set, list_elem_of_In, filter_In in Hr as [Hr _]. apply list_elem_of_In, list_elem_of_fmap in Hr as (v & -> & Hv).
      apply list_elem_of_In, filter_In in Hv as [Hv Hc]. apply verdict_source; [by apply list_elem_of_In|by apply String.eqb_eq].
    + exists g. split; [by rewrite Hf|]. rewrite Hg, extend_ev. simpl. rewrite length_take, length_fmap.
      assert (length (of_cat (n_category f) (verdicts repr ndpi)) ≠ 0%nat).
      { intros E%nil_length_inv. rewrite E in Hve. by apply elem_of_nil in Hve. }
      unfold MAX_EVIDENCE. lia.
  - unfold ndpi_findings. rewrite <- list_fmap_compose.
    replace (n_category ∘ _ <$> _) with ((isort fst (foldl add_verdict [] (verdicts repr ndpi))).*1).
    + rewrite sorted_keys by apply grouped_wf, od_wf_nil. rewrite isort_perm. apply grouped_wf, od_wf_nil.
    + apply list_fmap_ext. by intros i [c g] _.
  - apply parse_bounded.
Qed.
End outline.
End theorems.

(** ** Examples *)

Definition risk_obj (name tier : string) (total : Z) : val :=
  VDict [("risk", VStr name); ("severity", VStr tier); ("risk_score", VDict [("total", VInt total)])].
Definition flow_a : val :=
  VDict [("flow_risk", VDict [("46", risk_obj "Unidirectional Traffic" "Low" 500);
                              ("12", risk_obj "Malicious  JA3 Fingerprint" "Critical" 10);
                              ("13", risk_obj "Weak TLS Cipher" "Spicy" 1)]);
         ("breed", VStr "Unsafe"); ("proto", VStr "SMBv1")].
Definition flow_b : val :=
  VDict [("flow_risk", VDict [("7", risk_obj "weak tls cipher" "Spicy" 99); ("1", VInt 3);
                              ("2", risk_obj "malicious ja3 fingerprint" "Critical" 0);
                              ("3", risk_obj "Unidirectional traffic" "Low" 0);
                              ("4", risk_obj "UNIDIRECTIONAL TRAFFIC" "Low" 7)]);
         ("breed", VStr "unsafe"); ("proto", VStr "smbv1")].
Definition no_repr (_ : val) : string := "'...'".

Example flow_a_findings :
  (λ f, (n_category f, n_severity f, n_rules f))
    <$> ndpi_findings no_repr "10.0.0.1" "203.0.113.5" "acme" None None None flow_a
  = [("anomaly", 7, ["malicious ja3 fingerprint"]); ("observation", 2, ["unidirectional traffic"]);
     ("policy", 3, ["breed:smbv1"; "weak tls cipher"])].
Proof. vm_compute. reflexivity. Qed.
Example flow_a_identity :
  n_identity <$> head (ndpi_findings no_repr "10.0.0.1" "203.0.113.5" "acme" (Some "s1") None (Some 443) flow_a)
  = Some "acme|s1|10.0.0.1|203.0.113.5||443|anomaly|malicious ja3 fingerprint|ndpi-classification-v1|7".
Proof. vm_compute. reflexivity. Qed.

Lemma ndpi_findings_by_signals_witness :
  outline <$> ndpi_findings no_repr "10.0.0.1" "203.0.113.5" "acme" None None None flow_a
  = outline <$> ndpi_findings no_repr "10.0.0.1" "203.0.113.5" "acme" None None None flow_b.
Proof.
  apply ndpi_findings_by_signals; [|vm_compute; reflexivity].
  intros s. split; intros H; vm_compute in H; vm_compute; set_solver.
Defined.
