(* ===== verification/PartitionKeys.v ===== *)
(** * Windows of partitioned entities (east-west-detectors/app.py, behavioral-detectors/app.py)

    The detectors keep per-entity windows in the store under keys
    [prefix:partition:tenant:entity] and, per prefix and partition, an index set of the
    live keys, so that a replica enumerates only the partitions it owns.  [prefix] is
    the text up to and including its colon, partitions are natural numbers, times are
    microseconds. *)

From S2P Require Import Prelude Order PyVal PyString OrderedMap WindowStore.
Set Default Proof Using "Type".

(** [s.partition(c)], when [c] occurs. *)
Fixpoint cut_at (c : ascii) (s : string) : option (string * string) :=
  match s with
  | EmptyString => None
  | String d s => if Ascii.eqb c d then Some ("", s) else '(a, b) ← cut_at c s; Some (String d a, b)
  end.
(** [s.split(c, n)] *)
Fixpoint split_max (n : nat) (c : ascii) (s : string) : list string :=
  match n with
  | O => [s]
  | S n => match cut_at c s with Some (a, b) => a :: split_max n c b | None => [s] end
  end.

Definition window_key (prefix : string) (part : N) (tenant entity : string) : string :=
  prefix +:+ pretty part +:+ ":" +:+ tenant +:+ ":" +:+ entity.
Definition _index_key (prefix part : string) : string := "idx:" +:+ prefix +:+ part.
(** Keys carry a colon, so the segment is there. *)
Definition _part_of (key : string) : string := default "" (split_max 2 ":" key !! 1%nat).
Definition _prefix_of (key : string) : string := default "" (split_max 1 ":" key !! 0%nat) +:+ ":".
Definition _src_of (key : string) : string := default "" (split_max 3 ":" key !! 3%nat).
Definition _tenant_seg (key : string) : string := default "" (split_max 3 ":" key !! 2%nat).

Definition strs (a : answer) : list string := match a with a_strs l => l | _ => [] end.

Section keys.
Context {S : Type} `{WindowStore S}.
Context (enum_index : bool) (now window : Z).

Definition st_do (o : op) (s : S) : S := (ws_step now s o).1.
Definition st_strs (o : op) (s : S) : S * list string := let '(s, a) := ws_step now s o in (s, strs a).

(** The members of several sets, in the order of the sets. *)
Fixpoint members_of (keys : list string) (s : S) : S * list string :=
  match keys with
  | [] => (s, [])
  | k :: keys =>
      let '(s, l) := st_strs (o_set_members k) s in
      let '(s, l') := members_of keys s in (s, l ++ l')
  end.

Definition owned (parts : list N) (key : string) : bool :=
  let seg := _part_of key in
  str_truthy seg && string_forallb is_digit seg &&
  match parse_int seg with Some p => mem p (Z.of_N <$> parts) | None => false end.

(** [parts = None] stands for a single process, which scans. *)
Definition _scoped_keys (prefix : string) (parts : option (list N)) (s : S) : S * list string :=
  match parts with
  | None => st_strs (o_keys_matching prefix) s
  | Some ps =>
      if enum_index then members_of ((λ p, _index_key prefix (pretty p)) <$> ps) s
      else let '(s, l) := st_strs (o_keys_matching prefix) s in (s, List.filter (owned ps) l)
  end.

Definition _prune_index (key : string) (s : S) : S :=
  if enum_index then st_do (o_set_remove (_index_key (_prefix_of key) (_part_of key)) key) s else s.
End keys.

(** ** Cutting keys *)

Definition no_colon (s : string) : bool := string_forallb (λ d, negb (Ascii.eqb ":" d)) s.

Lemma cut_at_app c a b :
  string_forallb (λ d, negb (Ascii.eqb c d)) a = true → cut_at c (a +:+ String c b) = Some (a, b).
Proof.
  induction a as [|d a IH]; intros H; cbn in *.
  - by rewrite Ascii.eqb_refl.
  - apply andb_true_iff in H as [Hd Ha]. apply negb_true_iff in Hd. rewrite Hd.
    change ((fix go s := match s with "" => String c b | String d s => String d (go s) end) a) with (a +:+ String c b).
    by rewrite IH.
Qed.

Lemma pretty_go_digits x s : string_forallb is_digit s = true → string_forallb is_digit (pretty_N_go x s) = true.
Proof.
  revert s. induction (N.lt_wf_0 x) as [x _ IH]. intros s Hs.
  destruct (decide (x = 0)%N) as [->|Hx]; [by rewrite pretty_N_go_0|].
  rewrite pretty_N_go_step by lia. apply IH; [apply N.div_lt; lia|].
  cbn. rewrite Hs, andb_true_r. unfold pretty_N_char. destruct (x `mod` 10)%N as [|p]; [done|].
  repeat (destruct p as [p|p|]; try done).
Qed.
Lemma pretty_digits (n : N) : string_forallb is_digit (pretty n) = true.
Proof. unfold pretty, pretty_N. case_decide; [done|]. by apply pretty_go_digits. Qed.

Lemma digit_char_val (r : N) : (r < 10)%N → digit_val (pretty_N_char r) = Some (Z.of_N r).
Proof.
  intros H. assert (r ∈ [0;1;2;3;4;5;6;7;8;9]%N) as Hr by (rewrite !elem_of_cons; lia).
  repeat (apply elem_of_cons in Hr as [->|Hr]; [reflexivity|]). by apply elem_of_nil in Hr.
Qed.

Lemma parse_digits_go x s seen acc :
  (0 < x)%N →
  ∃ k, parse_digits seen acc (pretty_N_go x s) = parse_digits true (acc * 10 ^ k + Z.of_N x) s ∧ 0 <= k.
Proof.
  revert s. induction (N.lt_wf_0 x) as [x _ IH]. intros s Hx. rewrite pretty_N_go_step by lia.
  pose proof (N.mod_lt x 10 ltac:(lia)) as Hm. pose proof (N.div_mod x 10 ltac:(lia)) as Hdm.
  destruct (decide (x / 10 = 0)%N) as [E|E].
  - rewrite E, pretty_N_go_0. exists 1. split; [|lia]. cbn. rewrite digit_char_val by done. f_equal. lia.
  - destruct (IH (x / 10)%N) with (s := String (pretty_N_char (x `mod` 10)) s) as (k & Hk & Hk0); [apply N.div_lt; lia|lia|].
    exists (k + 1). split; [|lia]. rewrite Hk. cbn. rewrite digit_char_val by done. f_equal.
    rewrite Z.pow_add_r by lia. lia.
Qed.

Lemma digit_not_space c : is_digit c = true → is_space c = false.
Proof. unfold is_digit, is_space, between. intros H. to_prop. apply orb_false_iff. split; apply andb_false_iff; lia. Qed.

Lemma lstrip_digits s : string_forallb is_digit s = true → lstrip is_space s = s.
Proof.
  destruct s as [|c s]; [done|]. cbn. intros [Hc _]%andb_true_iff. by rewrite (digit_not_space c Hc).
Qed.

Lemma strip_digits s : string_forallb is_digit s = true → strip s = s.
Proof.
  intros H. unfold strip, strip_by, rev_string. rewrite (lstrip_digits s H), lstrip_digits, rev_rev; [done|].
  induction s as [|c s IH]; [done|]. cbn in H. apply andb_true_iff in H as [Hc Hs].
  rewrite rev_cons, forallb_sapp, (IH Hs). cbn. by rewrite Hc.
Qed.

Lemma parse_int_pretty (n : N) : parse_int (pretty n) = Some (Z.of_N n).
Proof.
  unfold parse_int. rewrite strip_digits by apply pretty_digits.
  assert (Hp : parse_digits false 0 (pretty n) = Some (Z.of_N n)).
  { unfold pretty, pretty_N. case_decide as E; [by subst|].
    destruct (parse_digits_go n "" false 0) as (k & -> & _); [lia|]. done. }
  pose proof (pretty_digits n) as Hd. destruct (pretty n) as [|c s]; [done|].
  cbn in Hd. apply andb_true_iff in Hd as [Hc _].
  destruct c as [[] [] [] [] [] [] [] []]; try exact Hp; done.
Qed.

Lemma pretty_no_colon (n : N) : no_colon (pretty n) = true.
Proof.
  apply forallb_weaken with is_digit; [|apply pretty_digits]. intros c Hc.
  destruct (Ascii.eqb_spec ":" c) as [<-|]; done.
Qed.
Lemma pretty_truthy (n : N) : str_truthy (pretty n) = true.
Proof. pose proof (parse_int_pretty n). by destruct (pretty n). Qed.

Lemma parse_int_pretty_Z (z : Z) : parse_int (pretty z) = Some z.
Proof.
  destruct z as [|p|p]; [reflexivity|exact (parse_int_pretty (N.pos p))|]. change (pretty (Z.neg p)) with (String "-" (pretty (N.pos p))).
  assert (Hd : string_forallb is_digit (pretty (N.pos p)) = true) by apply pretty_digits.
  assert (Hs : strip (String "-" (pretty (N.pos p))) = String "-" (pretty (N.pos p))).
  { unfold strip, strip_by, rev_string. cbn [lstrip]. change (is_space "-") with false. cbn iota. rewrite rev_cons.
    pose proof (pretty_truthy (N.pos p)) as Ht. destruct (String.rev (pretty (N.pos p))) as [|c s] eqn:E.
    - apply (f_equal String.rev) in E. rewrite rev_rev in E. by rewrite E in Ht.
    - assert (Hc : is_digit c = true).
      { assert (Hr : string_forallb is_digit (String.rev (pretty (N.pos p))) = true).
        { clear -Hd. induction (pretty (N.pos p)) as [|d t IH]; [done|]. cbn in Hd. apply andb_true_iff in Hd as [Hd1 Hd2].
          rewrite rev_cons, forallb_sapp, (IH Hd2). cbn. by rewrite Hd1. }
        rewrite E in Hr. cbn in Hr. by apply andb_true_iff in Hr as [? _]. }
      cbn [append lstrip]. rewrite (digit_not_space c Hc). change (String.rev (String c s +:+ "-") = String "-" (pretty (N.pos p))).
      by rewrite <- E, rev_sapp, rev_rev. }
  unfold parse_int. rewrite Hs. pose proof (parse_int_pretty (N.pos p)) as Hp. unfold parse_int in Hp. rewrite strip_digits in Hp by done.
  destruct (pretty (N.pos p)) as [|c s]; [done|]. cbn in Hd. apply andb_true_iff in Hd as [Hc _].
  destruct c as [[] [] [] [] [] [] [] []]; try done; by rewrite Hp.
Qed.

Lemma pretty_Z_no_colon (z : Z) : no_colon (pretty z) = true.
Proof.
  destruct z as [|p|p]; [reflexivity|exact (pretty_no_colon (N.pos p))|].
  change (pretty (Z.neg p)) with ("-" +:+ pretty (N.pos p)). unfold no_colon. rewrite forallb_sapp.
  exact (pretty_no_colon (N.pos p)).
Qed.

(** What follows the last colon. *)
Lemma no_colon_rev s : no_colon (String.rev s) = no_colon s.
Proof.
  unfold no_colon. induction s as [|c s IH]; [done|]. rewrite rev_cons, forallb_sapp, IH. cbn. by rewrite andb_true_r, andb_comm.
Qed.
Lemma last_segment a b x y :
  no_colon x = true → no_colon y = true → a +:+ ":" +:+ x = b +:+ ":" +:+ y → a = b ∧ x = y.
Proof.
  intros Hx Hy E. apply (f_equal String.rev) in E. rewrite !rev_sapp, !sapp_assoc in E.
  apply (f_equal (cut_at ":")) in E. change (String.rev ":") with ":" in E.
  change (":" +:+ String.rev a) with (String ":" (String.rev a)) in E.
  change (":" +:+ String.rev b) with (String ":" (String.rev b)) in E.
  rewrite !cut_at_app in E by (fold (no_colon (String.rev x)); fold (no_colon (String.rev y)); by rewrite no_colon_rev).
  injection E as E1 E2. split; [by rewrite <- (rev_rev a), <- (rev_rev b), E2|by rewrite <- (rev_rev x), <- (rev_rev y), E1].
Qed.

(** A prefix is a name followed by its colon. *)
Definition is_prefix (p : string) : Prop := ∃ name, p = name +:+ ":" ∧ no_colon name = true.

Lemma window_key_cons name n t e :
  window_key (name +:+ ":") n t e = name +:+ String ":" (pretty n +:+ String ":" (t +:+ String ":" e)).
Proof. unfold window_key. rewrite sapp_assoc. reflexivity. Qed.

Lemma split_max_window m name n t e :
  no_colon name = true →
  split_max (S (S m)) ":" (window_key (name +:+ ":") n t e)
  = name :: pretty n :: split_max m ":" (t +:+ String ":" e).
Proof.
  intros Hn. rewrite window_key_cons. cbn [split_max]. rewrite cut_at_app by exact Hn. f_equal.
  rewrite cut_at_app by apply pretty_no_colon. reflexivity.
Qed.

Lemma part_of_window p n t e : is_prefix p → _part_of (window_key p n t e) = pretty n.
Proof. intros (name & -> & Hn). unfold _part_of. by rewrite split_max_window. Qed.

Lemma prefix_of_window p n t e : is_prefix p → _prefix_of (window_key p n t e) = p.
Proof.
  intros (name & -> & Hn). unfold _prefix_of. rewrite window_key_cons. cbn [split_max].
  by rewrite cut_at_app.
Qed.

Lemma src_of_window p n t e : is_prefix p → no_colon t = true → _src_of (window_key p n t e) = e.
Proof.
  intros (name & -> & Hn) Ht. unfold _src_of. rewrite split_max_window by done. cbn [split_max].
  by rewrite cut_at_app.
Qed.

Lemma tenant_of_window p n t e : is_prefix p → no_colon t = true → _tenant_seg (window_key p n t e) = t.
Proof.
  intros (name & -> & Hn) Ht. unfold _tenant_seg. rewrite split_max_window by done. cbn [split_max].
  by rewrite cut_at_app.
Qed.

Lemma pretty_N_inj (n m : N) : pretty n = pretty m → n = m.
Proof. intros H. pose proof (parse_int_pretty n) as Hn. rewrite H, parse_int_pretty in Hn. injection Hn. lia. Qed.

Lemma window_key_inj p p' n n' t e e' :
  is_prefix p → is_prefix p' → window_key p n t e = window_key p' n' t e' → p = p' ∧ n = n' ∧ e = e'.
Proof.
  intros Hp Hp' E. assert (Ep : p = p') by (rewrite <- (prefix_of_window p n t e), E by done; by apply prefix_of_window).
  subst p'. assert (En : n = n').
  { apply pretty_N_inj. rewrite <- (part_of_window p n t e), E by done. by apply part_of_window. }
  subst n'. split_and!; [done..|]. unfold window_key in E. do 5 apply append_cancel_l in E. exact E.
Qed.

Lemma starts_window p n t e : starts_with p (window_key p n t e) = true.
Proof. apply starts_with_app. Qed.

Lemma index_of_window p n t e :
  is_prefix p → _index_key (_prefix_of (window_key p n t e)) (_part_of (window_key p n t e)) = _index_key p (pretty n).
Proof. intros Hp. by rewrite prefix_of_window, part_of_window. Qed.

Lemma owned_window p n t e ps : is_prefix p → owned ps (window_key p n t e) = mem n ps.
Proof.
  intros Hp. unfold owned. rewrite part_of_window by done. rewrite pretty_truthy, pretty_digits, parse_int_pretty. cbn.
  apply eq_bool_prop_intro. rewrite !Is_true_true, !mem_true, list_elem_of_fmap. split.
  - intros (m & E & Hm). apply N2Z.inj in E as ->. done.
  - intros Hm. by exists n.
Qed.

(** Keys of different first segments differ. *)
Lemma starts_prefix_inv p p' n t e :
  is_prefix p → is_prefix p' → starts_with p (window_key p' n t e) = true → p = p'.
Proof.
  intros (a & -> & Ha) (b & -> & Hb) H. apply starts_with_inv in H as [r H]. rewrite window_key_cons, sapp_assoc in H.
  assert (E : cut_at ":" (b +:+ String ":" (pretty n +:+ String ":" (t +:+ String ":" e))) = cut_at ":" (a +:+ String ":" r))
    by (by rewrite H).
  rewrite !cut_at_app in E by done. by injection E as -> _.
Qed.

Lemma starts_index_inv p q n :
  is_prefix p → starts_with p (_index_key q n) = true → p = "idx:".
Proof.
  intros (a & -> & Ha) H. apply starts_with_inv in H as [r H]. unfold _index_key in H. rewrite sapp_assoc in H.
  assert (E : cut_at ":" ("idx" +:+ String ":" (q +:+ n)) = cut_at ":" (a +:+ String ":" r)) by (by (change (a +:+ String ":" r) with (a +:+ ":" +:+ r); rewrite <- H)).
  rewrite !cut_at_app in E by done. by injection E as <- _.
Qed.

Lemma window_not_index p q n t e m : is_prefix p → p ≠ "idx:" → window_key p n t e ≠ _index_key q m.
Proof.
  intros Hp Hne E. apply Hne, (starts_index_inv p q m Hp). rewrite <- E. apply starts_window.
Qed.

Lemma index_key_inj p p' (n n' : N) : is_prefix p → is_prefix p' → _index_key p (pretty n) = _index_key p' (pretty n') → p = p' ∧ n = n'.
Proof.
  intros (a & -> & Ha) (b & -> & Hb) H. unfold _index_key in H. apply append_cancel_l in H.
  rewrite !sapp_assoc in H.
  assert (E : cut_at ":" (a +:+ String ":" (pretty n)) = cut_at ":" (b +:+ String ":" (pretty n'))) by exact (f_equal (cut_at ":") H).
  rewrite !cut_at_app in E by done. injection E as -> E. split; [done|]. by apply pretty_N_inj.
Qed.

(** ** The set table of the in-memory store *)

Section sets.
Context (now : Z).
Abbreviation live := (List.filter (λ me : string * Z, now <? me.2)).

Definition sets (st : mem_store) (k : string) : list (string * Z) := default [] (c_s (cell_at st k)).
Definition exp_of (st : mem_store) (k : string) : option Z := c_exp (cell_at st k).

Lemma put_sets st k c k' : sets (put_cell k c st) k' = if decide (k' = k) then default [] (c_s c) else sets st k'.
Proof. unfold sets. rewrite cell_at_put. by case_decide. Qed.
Lemma put_exp st k c k' : exp_of (put_cell k c st) k' = if decide (k' = k) then c_exp c else exp_of st k'.
Proof. unfold exp_of. rewrite cell_at_put. by case_decide. Qed.

Lemma live_set_sets c : default [] (c_s (_live_set now c).1) = live (default [] (c_s c)).
Proof. unfold _live_set. destruct (c_s c) as [s|] eqn:E; simpl; [by destruct (live s)|by rewrite E]. Qed.
Lemma live_set_snd c : (_live_set now c).2 = live (default [] (c_s c)).
Proof. unfold _live_set. by destruct (c_s c). Qed.
Lemma live_set_exp c : c_exp (_live_set now c).1 = c_exp c.
Proof. unfold _live_set. by destruct (c_s c). Qed.

Lemma sets_add st k m ttl k' :
  sets (st_do now (o_set_add k m ttl None) st) k'
  = if decide (k' = k) then od_set m (now + ttl) (live (sets st k)) else sets st k'.
Proof.
  unfold st_do. simpl. rewrite put_sets. case_decide; [|done]. unfold set_add.
  pose proof (live_set_snd (cell_at st k)) as E. destruct (_live_set now (cell_at st k)) as [c s]. simpl in *.
  by rewrite E.
Qed.
Lemma exp_add st k m ttl k' :
  exp_of (st_do now (o_set_add k m ttl None) st) k' = if decide (k' = k) then Some (now + ttl) else exp_of st k'.
Proof.
  unfold st_do. simpl. rewrite put_exp. case_decide; [|done]. unfold set_add. by destruct (_live_set now _).
Qed.

Lemma sets_window st k sc v ttl k' : sets (st_do now (o_window_add k sc v ttl) st) k' = sets st k'.
Proof. unfold st_do. simpl. rewrite put_sets. case_decide as E; [by rewrite E|done]. Qed.
Lemma exp_window st k sc v ttl k' : k' ≠ k → exp_of (st_do now (o_window_add k sc v ttl) st) k' = exp_of st k'.
Proof. intros. unfold st_do. simpl. rewrite put_exp. by rewrite decide_False. Qed.

Lemma sets_range st k m k' : sets (st_do now (o_window_range k m) st) k' = sets st k'.
Proof. unfold st_do. simpl. rewrite put_sets. case_decide as E; [by rewrite E|done]. Qed.
Lemma exp_range st k m k' : exp_of (st_do now (o_window_range k m) st) k' = exp_of st k'.
Proof. unfold st_do. simpl. rewrite put_exp. case_decide as E; [by rewrite E|done]. Qed.

Lemma sets_remove st k m k' :
  sets (st_do now (o_set_remove k m) st) k' = if decide (k' = k) then od_del m (sets st k) else sets st k'.
Proof.
  unfold st_do. simpl. rewrite put_sets. case_decide; [|done]. unfold set_remove, sets. by destruct (c_s (cell_at st k)) eqn:E; simpl; rewrite ?E.
Qed.
Lemma exp_remove st k m k' : exp_of (st_do now (o_set_remove k m) st) k' = exp_of st k'.
Proof.
  unfold st_do. simpl. rewrite put_exp. case_decide as E; [|done]. rewrite E. unfold set_remove, exp_of.
  by destruct (c_s (cell_at st k)).
Qed.

Lemma members_eq st k :
  st_strs now (o_set_members k) st
  = (put_cell k (_live_set now (cell_at st k)).1 st, od_keys (live (sets st k))).
Proof.
  unfold st_strs, ws_step. simpl. pose proof (live_set_snd (cell_at st k)) as E. unfold sets.
  destruct (_live_set now (cell_at st k)) as [c s]. simpl in *. by rewrite E.
Qed.
Lemma sets_members st k k' :
  sets (st_strs now (o_set_members k) st).1 k' = if decide (k' = k) then live (sets st k) else sets st k'.
Proof. rewrite members_eq. simpl. rewrite put_sets. case_decide; [|done]. apply live_set_sets. Qed.
Lemma exp_members st k k' : exp_of (st_strs now (o_set_members k) st).1 k' = exp_of st k'.
Proof.
  rewrite members_eq. simpl. rewrite put_exp. case_decide as E; [|done]. rewrite live_set_exp. by rewrite E.
Qed.

Lemma sets_dedup st k ttl k' : sets (st_do now (o_dedup_seen k ttl) st) k' = sets st k'.
Proof.
  unfold st_do, ws_step. simpl. assert (E : c_s (dedup_seen now ttl (cell_at st k)).1 = c_s (cell_at st k) ∧
    c_exp (dedup_seen now ttl (cell_at st k)).1 = c_exp (cell_at st k)) by (unfold dedup_seen; by repeat case_match).
  destruct (dedup_seen now ttl (cell_at st k)) as [c b]. simpl in *. rewrite put_sets. case_decide as Ek; [|done].
  rewrite Ek. unfold sets. by rewrite (proj1 E).
Qed.
Lemma exp_dedup st k ttl k' : exp_of (st_do now (o_dedup_seen k ttl) st) k' = exp_of st k'.
Proof.
  unfold st_do, ws_step. simpl. assert (E : c_s (dedup_seen now ttl (cell_at st k)).1 = c_s (cell_at st k) ∧
    c_exp (dedup_seen now ttl (cell_at st k)).1 = c_exp (cell_at st k)) by (unfold dedup_seen; by repeat case_match).
  destruct (dedup_seen now ttl (cell_at st k)) as [c b]. simpl in *. rewrite put_exp. case_decide as Ek; [|done].
  rewrite Ek. unfold exp_of. apply E.
Qed.

Lemma live_get k m l : od_wf l → od_get m (live l) = Some k ↔ od_get m l = Some k ∧ now < k.
Proof.
  intros Hl. assert (Hwf : od_wf (live l)).
  { unfold od_wf, od_keys. eapply sublist_NoDup; [exact Hl|]. apply fmap_sublist, filter_sublist. }
  split.
  - intros H. apply od_get_elem, list_elem_of_In, filter_In in H as [H Hk]. apply Z.ltb_lt in Hk. split; [|done].
    apply od_wf_get; [done|]. by apply list_elem_of_In.
  - intros [H Hk]. apply od_get_elem in H. apply od_wf_get; [done|].
    apply list_elem_of_In, filter_In. split; [by apply list_elem_of_In|]. by apply Z.ltb_lt.
Qed.
Lemma live_wf l : od_wf l → od_wf (live l).
Proof. intros Hl. unfold od_wf, od_keys. eapply sublist_NoDup; [exact Hl|]. apply fmap_sublist, filter_sublist. Qed.
End sets.

(** *** The dedup table *)

Definition mark_of (st : mem_store) (k : string) : option Z := c_dedup (cell_at st k).
Lemma put_mark st k c k' : mark_of (put_cell k c st) k' = if decide (k' = k) then c_dedup c else mark_of st k'.
Proof. unfold mark_of. rewrite cell_at_put. by case_decide. Qed.

(** Every single-key operation but [dedup_seen] leaves the table alone. *)
Lemma cell_op_mark now o c :
  match o with o_dedup_seen _ _ => True | _ => c_dedup (cell_op now o c).1 = c_dedup c end.
Proof.
  assert (Hl : c_dedup (_live_set now c).1 = c_dedup c) by (unfold _live_set; by destruct (c_s c)).
  destruct o; simpl; try done; unfold zset_since, kv_set_once, kv_get, fields_get, counter_add, field_set,
    set_add, set_remove, counter_clear, fresh_h, window_range in *;
    destruct (_live_set now c) as [c0 l0]; simpl in Hl;
    repeat match goal with
    | |- context [if ?b then _ else _] => destruct b eqn:?
    | |- context [match ?x with Some _ => _ | None => _ end] => destruct x eqn:?
    | |- context [let '(_, _) := ?x in _] => destruct x eqn:?
    end; simpl in *; simplify_eq; simpl; try done; congruence.
Qed.

Lemma mark_single now o k st k' :
  op_key o = Some k → (∀ k ttl, o ≠ o_dedup_seen k ttl) → mark_of (st_do now o st) k' = mark_of st k'.
Proof.
  intros Hk Hne. unfold st_do.
  assert (E : (ws_step now st o).1 = put_cell k (cell_op now o (cell_at st k)).1 st).
  { unfold ws_step. destruct o; simpl in Hk; try done; injection Hk as ->; simpl;
      repeat match goal with |- context [let '(_, _) := ?x in _] => destruct x end; done. }
  rewrite E, put_mark. case_decide as E'; [|done]. subst. pose proof (cell_op_mark now o (cell_at st k)) as H.
  destruct o; try done. by exfalso; eapply Hne.
Qed.

(** A mark set at [t] for [ttl] hides its key until [t + ttl]. *)
Lemma dedup_eq now k ttl st :
  ws_step now st (o_dedup_seen k ttl)
  = (put_cell k (dedup_seen now ttl (cell_at st k)).1 st, a_bool (dedup_seen now ttl (cell_at st k)).2).
Proof. unfold ws_step. simpl. by destruct (dedup_seen now ttl (cell_at st k)). Qed.
Lemma dedup_mark now ttl c :
  if (dedup_seen now ttl c).2
  then c_dedup (dedup_seen now ttl c).1 = Some (now + ttl) ∧ (∀ e, c_dedup c = Some e → e = 0 ∨ e <= now)
  else c_dedup (dedup_seen now ttl c).1 = c_dedup c ∧ ∃ e, c_dedup c = Some e ∧ now < e.
Proof.
  unfold dedup_seen. destruct (c_dedup c) as [e|] eqn:E; simpl; [|by split].
  destruct (negb (e =? 0) && (now <? e)) eqn:B; simpl.
  - to_prop. split; [done|]. by exists e.
  - split; [done|]. intros e' [= <-]. apply andb_false_iff in B as [B|B]; to_prop; auto.
Qed.
