(* ===== verification/EastWest.v ===== *)
(** * East-west detectors (services/east-west-detectors: ew.py, app.py)

    Lateral movement inside the network: events fill per-source windows of the store,
    and a periodic evaluation of the partitions a replica owns turns full windows into
    candidate findings, at most one per content and ten-minute bucket.

    A record or an evaluation reads the clock once, in microseconds.  [ip_address] is
    the standard parser: [None] for text that is no address, otherwise whether the
    address is private or link-local; [stable] is the hash of a text; [dumps] and
    [loads] are those of [json]; [repr] is [repr].  What goes into a key or a set is
    the text of the field. *)

From S2P Require Import Prelude Order PyVal PyString OrderedMap PyTime IsoTime WindowStore PartitionKeys NdpiPolicy.
Set Default Proof Using "Type".

(** ** Scoring (ew.py) *)

Definition ADMIN_PORTS : list Z := [445; 3389; 5985; 5986; 135; 139; 22; 23; 1433; 3306; 5432; 5900].
Definition LATERAL_DCERPC_UUIDS : list (string * string) :=
  [("367abb81-9844-35f1-ad32-98f038001003", "svcctl (service create/start — PsExec)");
   ("1ff70682-0a51-30e8-076d-740be8cee98b", "atsvc (scheduled task)");
   ("86d35949-83c9-4044-b424-db363231fd0c", "ITaskSchedulerService");
   ("4b324fc8-1670-01d3-1278-5a47bf6ee188", "srvsvc (share enum)");
   ("8a885d04-1ceb-11c9-9fe8-08002b104860", "IWbemServices (WMI/DCOM exec)")].
Definition LATERAL_EXEC_PIPES : list (string * string) :=
  [("svcctl", "service control (PsExec)"); ("atsvc", "scheduled task (at)"); ("winreg", "remote registry");
   ("samr", "SAM remote"); ("lsarpc", "LSA remote")].

Section ew.
Context (ip_address : val → option bool).

Definition is_internal (ip : val) : bool := truthy ip && default false (ip_address ip).

(** The number of distinct elements: [len({...})]. *)
Definition count {A} `{EqDecision A} (l : list A) : Z := Z.of_nat (length (remove_dups l)).

Definition lateral_fanout (targets : list (string * string)) (min_targets : Z) : bool * Z :=
  let n := count (fst <$> targets) in (min_targets <=? n, n).
Definition rdp_fanout (targets : list string) (min_targets : Z) : bool * Z :=
  let n := count targets in (min_targets <=? n, n).
Definition ports_of (d : string) (pairs : list (string * string)) : list string :=
  snd <$> List.filter (λ dp, String.eqb dp.1 d) pairs.
Definition scan_score (pairs : list (string * string)) (min_dsts min_ports : Z) : bool * string * Z :=
  let dsts := remove_dups (fst <$> pairs) in
  if min_dsts <=? Z.of_nat (length dsts) then (true, "horizontal", Z.of_nat (length dsts))
  else
    let mx := max_of ((λ d, count (ports_of d pairs)) <$> dsts) in
    if min_ports <=? mx then (true, "vertical", mx) else (false, "", 0).

(** A set of arbitrary values: unhashable ones raise. *)
Definition hashable (v : val) : bool := match v with VList _ | VDict _ => false | _ => true end.
Fixpoint py_dedup (vs : list val) : list val :=
  match vs with
  | [] => []
  | v :: vs => let r := py_dedup vs in if val_in v r then r else v :: r
  end.
Definition py_set (vs : list val) : res (list val) :=
  if forallb hashable vs then Ok (py_dedup vs) else Raise TypeError.

Definition kerberoast_score (repr : val → string) (reqs : list dict) (min_spns : Z) : res (bool * Z * bool) :=
  spns ← py_set (List.filter truthy ((λ t, dgetN "sname" t) <$> reqs));
  let n := Z.of_nat (length spns) in
  let rc4 := existsb (λ t, mem (lower (py_str repr (dget_or "encryption" (VStr "") t)))
                             ["23"; "rc4"; "rc4-hmac"; "0x17"]) reqs in
  Ok ((min_spns <=? n) || (rc4 && (3 <=? n)), n, rc4).

(** [(v or "").lower()] *)
Definition lower_of (v : val) : res string :=
  match py_or v (VStr "") with VStr s => Ok (lower s) | _ => Raise AttributeError end.
Definition dcerpc_lateral (interface_uuid : val) : res (option string) :=
  u ← lower_of interface_uuid; Ok (assoc u LATERAL_DCERPC_UUIDS).

Definition add_uuid (out : list val) (u : val) : list val :=
  if truthy u && negb (val_in u out) then out ++ [u] else out.
Definition dcerpc_uuids (dcerpc : val) : res (list val) :=
  match dcerpc with
  | VDict d =>
      ifs ← as_list (py_or (dgetN "interfaces" d) (VList []));
      let out := foldl (λ out it, add_uuid out (match it with VDict i => dgetN "uuid" i | _ => it end)) [] ifs in
      Ok (foldl (λ out k, add_uuid out (dgetN k d)) out ["interface_uuid"; "interface"])
  | _ => Ok []
  end.

Definition spray_score (principals : list string) (min_principals : Z) : bool * Z :=
  let n := count (List.filter str_truthy principals) in (min_principals <=? n, n).
Definition asrep_roast_score (principals : list string) (min_accounts : Z) : bool * Z :=
  let n := count (List.filter str_truthy principals) in (min_accounts <=? n, n).
Definition llmnr_poison_score (names : list string) (min_names : Z) : bool * Z :=
  let n := count (List.filter str_truthy names) in (min_names <=? n, n).

Definition ransomware_smb_score (distinct_files writes reads min_files min_writes : Z) (min_write_ratio : float) :
    bool * Z :=
  let total := writes + reads in
  if total =? 0 then (false, 0)
  else ((min_files <=? distinct_files) && (min_writes <=? writes) && SFleb min_write_ratio (ratio writes total), writes).

(** [k.replace("\\", "/").rsplit("/", 1)[-1]] *)
Definition backslash : ascii := "092".
Definition slashes (s : string) : string := string_map (λ c, if Ascii.eqb c backslash then "/"%char else c) s.
Definition _pipe_key (name : val) : res string :=
  k ← lower_of name; Ok (default "" (last (split_char "/" (slashes k)))).

Definition pipe_matches (pn : val) : res (list string) :=
  k ← _pipe_key pn;
  Ok match assoc k LATERAL_EXEC_PIPES with Some d => ["pipe:" +:+ k +:+ " (" +:+ d +:+ ")"] | None => [] end.
Definition uuid_matches (u : val) : res (list string) :=
  d ← dcerpc_lateral u; Ok match d with Some d => ["dcerpc:" +:+ d] | None => [] end.
Fixpoint concat_res {A B} (f : A → res (list B)) (xs : list A) : res (list B) :=
  match xs with
  | [] => Ok []
  | x :: xs => ys ← f x; zs ← concat_res f xs; Ok (ys ++ zs)
  end.
Definition lateral_exec_score (pipe_names dcerpc_ifaces : list val) (winrm_targets : list string) (min_signals : Z) :
    res (bool * list string) :=
  pipes ← concat_res pipe_matches pipe_names;
  uuids ← concat_res uuid_matches dcerpc_ifaces;
  let winrm := match winrm_targets with
               | [] => []
               | _ => ["winrm:" +:+ pretty (count (List.filter str_truthy winrm_targets)) +:+ " target(s)"]
               end in
  let matched := pipes ++ uuids ++ winrm in
  Ok (min_signals <=? Z.of_nat (length matched), matched).
End ew.

(** ** Times *)

Definition _epoch (repr : val → string) (ts : val) : option Z :=
  match ts with VNone => None | _ => iso_epoch (py_str repr ts) end.
Definition _event_epoch (repr : val → string) (e : dict) : res (option Z) :=
  s ← get_of "start" (py_or (dgetN "flow" e) (VDict []));
  Ok (_epoch repr (py_or s (dgetN "timestamp" e))).

(** ** The service (app.py) *)

Record candidate := {
  cd_id : string; cd_detector : string; cd_category : string; cd_severity : Z; cd_confidence : float;
  cd_first_seen : string; cd_last_seen : string; cd_observed : bool; cd_emitted_at : string; cd_entities : string;
  cd_mitre : option (list string)
}.
(** The world: the store, the candidates sent with their times, and the ledger of the set
    members recorded (time, key, member), newest first. *)
Record world S := World { w_store : S; w_sent : list (Z * candidate); w_log : list (Z * string * string) }.
Arguments World {S}.
Arguments w_store {S}.
Arguments w_sent {S}.
Arguments w_log {S}.

Definition PREFIXES : list string :=
  ["lat:"; "scan:"; "rdp:"; "krb:"; "spray:"; "asrep:"; "rw:"; "lex:"; "llmnr:"].
(** The time a dedup mark lives, and the bucket of ten minutes. *)
Definition DEDUP_TTL : Z := 600000000.
Definition bucket_of (now : Z) : Z := now / DEDUP_TTL.
Definition digest (stable : string → Z) (entities : string) : Z := stable entities mod 10 ^ 12.

(** One pass of [evaluate]: its prefix, what a window of members makes of it (the role of
    the source and the second entity), and the constants of its candidate. *)
Record pass := {
  ps_prefix : string; ps_score : list string → res (option val); ps_role : string; ps_detector : string;
  ps_category : string; ps_severity : Z; ps_confidence : float; ps_mitre : option (list string)
}.

Section app.
Context {S : Type} `{WindowStore S}.
Context (TENANT : string) (WINDOW : Z) (enum_index : bool).
Context (ip_address : val → option bool) (stable : string → Z) (dumps repr : val → string)
  (loads : string → res val).

Definition on_store {A} (f : S → S * A) : M (world S) A := λ w,
  let '(s, a) := f (w_store w) in (World s (w_sent w) (w_log w), Ok a).
Definition store_do (now : Z) (o : op) : M (world S) unit := on_store (λ s, (st_do now o s, tt)).

Definition obs_key (key : string) : string := "obs:" +:+ key.
Definition key_of (prefix : string) (part : N) (src : string) : string := window_key prefix part TENANT src.
Definition log_add (now : Z) (key member : string) : M (world S) unit :=
  modify (λ w, World (w_store w) (w_sent w) ((now, key, member) :: w_log w)).
Definition _ew_add (now : Z) (prefix : string) (part : N) (src member : string) (ev_epoch : option Z) :
    M (world S) unit :=
  let key := key_of prefix part src in
  store_do now (o_set_add key member WINDOW None);*
  log_add now key member;*
  match ev_epoch with
  | Some ep => store_do now (o_window_add (obs_key key) ep (pretty ep) WINDOW)
  | None => ret tt
  end;*
  if enum_index then store_do now (o_set_add (_index_key prefix (pretty part)) key WINDOW None) else ret tt.

Definition rows_bounds (l : list (Z * string)) : option (Z * Z) :=
  match head l, last l with Some a, Some b => Some (a.1, b.1) | _, _ => None end.
Definition _obs_bounds (now : Z) (key : string) : M (world S) (option (Z * Z)) :=
  on_store (λ s, let '(s, a) := ws_step now s (o_window_range (obs_key key) (now - WINDOW)) in
                 (s, match a with a_window l => rows_bounds l | _ => None end)).

Definition emit_key (detector entities : string) (bucket : Z) : string :=
  "emit:" +:+ TENANT +:+ ":" +:+ detector +:+ ":" +:+ pretty (digest stable entities) +:+ ":" +:+ pretty bucket.
Definition candidate_of (now : Z) (detector category : string) (sev : Z) (conf : float) (entities : string)
    (mitre : option (list string)) (obs : option (Z * Z)) : candidate :=
  let emitted := emitted_text now in
  {| cd_id := detector +:+ "-" +:+ pretty (stable entities mod 10 ^ 10) +:+ "-" +:+ pretty (bucket_of now);
     cd_detector := detector; cd_category := category; cd_severity := sev; cd_confidence := conf;
     cd_first_seen := match obs with Some (a, _) => _rfc3339 a | None => emitted end;
     cd_last_seen := match obs with Some (_, b) => _rfc3339 b | None => emitted end;
     cd_observed := match obs with Some _ => true | None => false end; cd_emitted_at := emitted;
     cd_entities := entities; cd_mitre := mitre |}.
Definition seen_before (now : Z) (key : string) (ttl : Z) : M (world S) bool :=
  on_store (λ s, let '(s, a) := ws_step now s (o_dedup_seen key ttl) in
                 (s, match a with a_bool b => negb b | _ => true end)).
Definition _cand (now : Z) (detector category : string) (sev : Z) (conf : float) (entities : string)
    (mitre : option (list string)) (obs : option (Z * Z)) : M (world S) (option candidate) :=
  let* seen := seen_before now (emit_key detector entities (bucket_of now)) DEDUP_TTL in
  ret (if seen : bool then None else Some (candidate_of now detector category sev conf entities mitre obs)).
Definition send (now : Z) (c : option candidate) : M (world S) unit :=
  match c with
  | Some c => modify (λ w, World (w_store w) (w_sent w ++ [(now, c)]) (w_log w))
  | None => ret tt
  end.

(** *** Evaluation *)

Definition count_entity (type field : string) (n : Z) : val := VDict [("type", VStr type); (field, VInt n)].
(** [m.rsplit("|", 1)] as a pair. *)
Definition rsplit_bar (m : string) : res (string * string) :=
  match cut_at "|" (rev_string m) with
  | Some (a, b) => Ok (rev_string b, rev_string a)
  | None => Raise ValueError
  end.
Fixpoint map_res {A B} (f : A → res B) (xs : list A) : res (list B) :=
  match xs with [] => Ok [] | x :: xs => y ← f x; ys ← map_res f xs; Ok (y :: ys) end.
Definition pairs_of (members : list string) : res (list (string * string)) :=
  ps ← map_res rsplit_bar members; Ok (remove_dups ps).
Definition when_hit (r : bool * Z) (type field : string) : option val :=
  if r.1 then Some (count_entity type field r.2) else None.

Definition lat_pass : pass :=
  {| ps_prefix := "lat:";
     ps_score := λ ms, ps ← pairs_of ms; Ok (when_hit (lateral_fanout ps 5) "count" "internal_targets");
     ps_role := "src"; ps_detector := "lateral_movement"; ps_category := "lateral"; ps_severity := 7;
     ps_confidence := lit "0.7"; ps_mitre := None |}.
Definition scan_pass : pass :=
  {| ps_prefix := "scan:";
     ps_score := λ ms, ps ← pairs_of ms;
       let '(hit, kind, n) := scan_score ps 25 15 in
       Ok (if hit then Some (VDict [("type", VStr "scan"); ("kind", VStr kind); ("count", VInt n)]) else None);
     ps_role := "src"; ps_detector := "internal_scan"; ps_category := "discovery"; ps_severity := 6;
     ps_confidence := lit "0.6"; ps_mitre := Some ["T1046"] |}.
Definition rdp_pass : pass :=
  {| ps_prefix := "rdp:"; ps_score := λ ms, Ok (when_hit (rdp_fanout ms 3) "count" "rdp_targets");
     ps_role := "src"; ps_detector := "rdp_fanout"; ps_category := "lateral"; ps_severity := 6;
     ps_confidence := lit "0.6"; ps_mitre := None |}.
Definition load_dict (m : string) : res dict :=
  v ← loads m; match v with VDict d => Ok d | _ => Raise AttributeError end.
Definition krb_pass : pass :=
  {| ps_prefix := "krb:";
     ps_score := λ ms, reqs ← map_res load_dict ms;
       '(hit, spns, rc4) ← kerberoast_score repr reqs 8;
       Ok (if hit : bool then Some (VDict [("type", VStr "kerberoast"); ("distinct_spns", VInt spns); ("rc4", VBool rc4)])
           else None);
     ps_role := "src"; ps_detector := "kerberoasting"; ps_category := "credential_access"; ps_severity := 8;
     ps_confidence := lit "0.8"; ps_mitre := Some ["T1558.003"] |}.
Definition spray_pass : pass :=
  {| ps_prefix := "spray:"; ps_score := λ ms, Ok (when_hit (spray_score ms 10) "spray" "distinct_accounts");
     ps_role := "src"; ps_detector := "password_spraying"; ps_category := "credential_access"; ps_severity := 7;
     ps_confidence := lit "0.7"; ps_mitre := Some ["T1110.003"] |}.
Definition asrep_pass : pass :=
  {| ps_prefix := "asrep:"; ps_score := λ ms, Ok (when_hit (asrep_roast_score ms 3) "asrep" "preauthless_accounts");
     ps_role := "src"; ps_detector := "as_rep_roasting"; ps_category := "credential_access"; ps_severity := 7;
     ps_confidence := lit "0.75"; ps_mitre := Some ["T1558.004"] |}.
Definition files_of (members : list string) : list string := remove_dups (omap (λ m, snd <$> cut_at "|" m) members).
Definition rw_pass : pass :=
  {| ps_prefix := "rw:";
     ps_score := λ ms,
       let files := Z.of_nat (length (files_of ms)) in
       let writes := Z.of_nat (length (List.filter (starts_with "w|") ms)) in
       let reads := Z.of_nat (length (List.filter (starts_with "r|") ms)) in
       Ok (if (ransomware_smb_score files writes reads 100 100 (lit "0.7")).1
           then Some (VDict [("type", VStr "ransomware"); ("distinct_files", VInt files); ("writes", VInt writes)])
           else None);
     ps_role := "src"; ps_detector := "ransomware_smb"; ps_category := "impact"; ps_severity := 9;
     ps_confidence := lit "0.8"; ps_mitre := Some ["T1486"] |}.
Definition lex_pass : pass :=
  {| ps_prefix := "lex:";
     ps_score := λ ms, Ok (Some (VDict [("type", VStr "lateral_exec"); ("signals", VList (VStr <$> isort id ms))]));
     ps_role := "src"; ps_detector := "lateral_exec"; ps_category := "lateral"; ps_severity := 7;
     ps_confidence := lit "0.75"; ps_mitre := Some ["T1021.002"] |}.
Definition llmnr_pass : pass :=
  {| ps_prefix := "llmnr:"; ps_score := λ ms, Ok (when_hit (llmnr_poison_score ms 5) "llmnr" "answered_names");
     ps_role := "responder"; ps_detector := "llmnr_poison"; ps_category := "credential_access"; ps_severity := 7;
     ps_confidence := lit "0.6"; ps_mitre := Some ["T1557.001"] |}.

Definition entities_text (role src : string) (second : val) : string :=
  dumps (VList [VDict [("type", VStr "ip"); ("role", VStr role); ("value", VStr src)]; second]).
Definition visit (now : Z) (p : pass) (key : string) : M (world S) unit :=
  let* members := on_store (st_strs now (o_set_members key)) in
  match members with
  | [] => on_store (λ s, (_prune_index enum_index now key s, tt))
  | _ =>
      let* hit := lift (ps_score p members) in
      match hit with
      | None => ret tt
      | Some second =>
          let* obs := _obs_bounds now key in
          let* c := _cand now (ps_detector p) (ps_category p) (ps_severity p) (ps_confidence p)
                      (entities_text (ps_role p) (_src_of key) second) (ps_mitre p) obs in
          send now c
      end
  end.
Definition run_pass (now : Z) (pp : pass * option (list N)) : M (world S) unit :=
  let* keys := on_store (_scoped_keys enum_index now (ps_prefix pp.1) pp.2) in for_each (visit now pp.1) keys.
Definition passes (flow raw dns : option (list N)) : list (pass * option (list N)) :=
  [(lat_pass, flow); (scan_pass, flow); (rdp_pass, flow); (krb_pass, raw); (spray_pass, raw); (asrep_pass, raw);
   (rw_pass, raw); (lex_pass, raw); (llmnr_pass, dns)].
Definition evaluate (now : Z) (flow raw dns : option (list N)) : M (world S) unit :=
  for_each (run_pass now) (passes flow raw dns).

(** *** Records *)

Definition dict_of (k : string) (e : dict) : val := py_or (dget_or k (VDict []) e) (VDict []).
Definition src_text (e : dict) : string := py_str repr (dgetN "src_ip" e).
Definition hash_in (v : val) (xs : list val) : res bool :=
  if hashable v then Ok (val_in v xs) else Raise TypeError.
Definition when (b : bool) (m : M (world S) unit) : M (world S) unit := if b then m else ret tt.

Definition handle_flow (now : Z) (part : N) (e : dict) (ep : option Z) : M (world S) unit :=
  let src := dgetN "src_ip" e in
  let dst := dgetN "dest_ip" e in
  let port := dgetN "dest_port" e in
  if truthy src && truthy dst && is_internal ip_address src && is_internal ip_address dst then
    let target := py_str repr dst +:+ "|" +:+ py_str repr port in
    _ew_add now "scan:" part (src_text e) target ep;*
    let* admin := lift (hash_in port (VInt <$> ADMIN_PORTS)) in
    when admin (_ew_add now "lat:" part (src_text e) target ep);*
    when (py_eqb port (VInt 3389)) (_ew_add now "rdp:" part (src_text e) (py_str repr dst) ep)
  else ret tt.

(** [get] on the nested object, which raises when that is no object. *)
Definition fields (v : val) : res dict := match v with VDict d => Ok d | _ => Raise AttributeError end.
Definition _asrep_preauthless (k : dict) : bool :=
  let mt := upper (py_str repr (py_or (py_or (dgetN "msg_type" k) (dgetN "message_type" k)) (VStr ""))) in
  let is_as_req := contains "AS_REQ" mt || mem mt ["AS-REQ"; "10"] in
  let preauth := dget_or "preauth" (dget_or "pa_data" (VStr "unknown") k) k in
  is_as_req && val_in preauth [VBool false; VNone; VList []; VStr ""].
Definition handle_krb5 (now : Z) (part : N) (e : dict) (ep : option Z) : M (world S) unit :=
  let* k := lift (fields (dict_of "krb5" e)) in
  let cname := dgetN "cname" k in
  when (val_in_strs (dgetN "msg_type" k) ["KRB_TGS_REQ"; "TGS-REQ"] || dhas "sname" k)
    (_ew_add now "krb:" part (src_text e)
       (dumps (VDict [("sname", dgetN "sname" k);
                      ("encryption", py_or (dgetN "encryption" k) (dgetN "weak_encryption" k))])) ep);*
  let err := upper (py_str repr (dget_or "error_code" (VStr "") k)) in
  when ((contains "PREAUTH_FAILED" err || mem err ["24"; "0x18"]) && truthy cname)
    (_ew_add now "spray:" part (src_text e) (py_str repr cname) ep);*
  when (_asrep_preauthless k && truthy cname) (_ew_add now "asrep:" part (src_text e) (py_str repr cname) ep).

Definition smb_account (s : dict) : res val :=
  u ← get_of "user" (py_or (dgetN "ntlmssp" s) (VDict [])); Ok (py_or u (dgetN "user" s)).
Definition handle_smb (now : Z) (part : N) (e : dict) (ep : option Z) : M (world S) unit :=
  let* s := lift (fields (dict_of "smb" e)) in
  let cmd := upper (py_str repr (dget_or "command" (VStr "") s)) in
  let status := upper (py_str repr (dget_or "status" (VStr "") s)) in
  (if contains "SESSION_SETUP" cmd && (contains "LOGON_FAILURE" status || contains "ACCESS_DENIED" status) then
     let* acct := lift (smb_account s) in
     when (truthy acct) (_ew_add now "spray:" part (src_text e) (py_str repr acct) ep)
   else ret tt);*
  let fname := dgetN "filename" s in
  (if truthy fname then
     if existsb (λ x, contains x cmd) ["WRITE"; "SET_INFO"; "RENAME"]
     then _ew_add now "rw:" part (src_text e) ("w|" +:+ py_str repr fname) ep
     else when (contains "READ" cmd) (_ew_add now "rw:" part (src_text e) ("r|" +:+ py_str repr fname) ep)
   else ret tt);*
  let pipes := List.filter truthy [dgetN "named_pipe" s; fname] in
  let* uuids := lift (dcerpc_uuids (dgetN "dcerpc" s)) in
  let* r := lift (lateral_exec_score pipes uuids [] 1) in
  match r with
  | (true, m :: _) => _ew_add now "lex:" part (src_text e) m ep
  | _ => ret tt
  end.

Definition handle_dns (now : Z) (part : N) (e : dict) (ep : option Z) : M (world S) unit :=
  let d := dict_of "dns" e in
  if py_eqb (dgetN "dest_port" e) (VInt 5355) || py_eqb (dgetN "src_port" e) (VInt 5355) then
    let* d := lift (fields d) in
    when (String.eqb (py_str repr (dgetN "type" d)) "answer" && truthy (dgetN "rrname" d))
      (_ew_add now "llmnr:" part (src_text e) (py_str repr (dgetN "rrname" d)) ep)
  else ret tt.

Definition handle_dcerpc (now : Z) (e : dict) (ep : option Z) : M (world S) unit :=
  let* uuids := lift (dcerpc_uuids (dict_of "dcerpc" e)) in
  let* r := lift (lateral_exec_score [] uuids [] 1) in
  if r.1 : bool then
    let ent := dumps (VList [VDict [("type", VStr "ip"); ("role", VStr "src"); ("value", dgetN "src_ip" e)];
                             VDict [("type", VStr "ip"); ("role", VStr "dst"); ("value", dgetN "dest_ip" e)];
                             VDict [("type", VStr "dcerpc"); ("op", VStr (join "; " r.2))]]) in
    let* c := _cand now "dcerpc_lateral" "lateral" 7 (lit "0.75") ent None ((λ t, (t, t)) <$> ep) in
    send now c
  else ret tt.

Definition _handle (now : Z) (part : N) (e : dict) : M (world S) unit :=
  let et := dgetN "event_type" e in
  let* ep := lift (_event_epoch repr e) in
  if val_eq_str et "flow" then handle_flow now part e ep
  else if val_eq_str et "krb5" then handle_krb5 now part e ep
  else if val_eq_str et "smb" then handle_smb now part e ep
  else if val_eq_str et "dns" then handle_dns now part e ep
  else if val_eq_str et "dcerpc" then handle_dcerpc now e ep
  else ret tt.

(** What the main loop does: a record (what it raises is dropped with the record) or an
    evaluation of the owned partitions (what it raises ends it). *)
Inductive activity :=
| on_record (part : N) (e : dict)
| on_eval (flow raw dns : option (list N)).
Definition act (now : Z) (a : activity) (w : world S) : world S :=
  match a with
  | on_record part e => (_handle now part e w).1
  | on_eval flow raw dns => (evaluate now flow raw dns w).1
  end.
Definition run (w : world S) (acts : list (Z * activity)) : world S := foldl (λ w ta, act ta.1 ta.2 w) w acts.
End app.

(** ** The store and the ledger agree *)

Lemma prefixes_ok : Forall (λ p, is_prefix p ∧ p ≠ "idx:" ∧ p ≠ "obs:") PREFIXES.
Proof.
  assert (H : ∀ n, no_colon n = true → n ≠ "idx" → n ≠ "obs" → is_prefix (n +:+ ":") ∧ n +:+ ":" ≠ "idx:" ∧ n +:+ ":" ≠ "obs:").
  { intros n Hn H1 H2. split; [by exists n|].
    assert (Hc : ∀ m, no_colon m = true → n +:+ ":" = m +:+ ":" → n = m).
    { intros m Hm E. assert (E' : cut_at ":" (n +:+ ":") = cut_at ":" (m +:+ ":")) by (by rewrite E).
      rewrite !(cut_at_app ":" _ "") in E' by done. by injection E'. }
    split; intros E; [by apply H1, (Hc "idx")|by apply H2, (Hc "obs")]. }
  repeat (constructor; [match goal with |- is_prefix ?p ∧ _ =>
    let n := eval vm_compute in (take_chars (String.length p - 1) p) in exact (H n eq_refl ltac:(done) ltac:(done)) end|]).
  constructor.
Qed.

Section facts.
Context (TENANT : string) (W : Z) (enum_index : bool) (W_pos : 0 < W).
Context (ip_address : val → option bool) (stable : string → Z) (dumps repr : val → string)
  (loads : string → res val).
Abbreviation key_of := (key_of TENANT).
Abbreviation Wd := (world mem_store).
Abbreviation log_t := (list (Z * string * string)).

Definition scanned (p : string) : Prop := p ∈ PREFIXES.
Lemma scanned_prefix p : scanned p → is_prefix p.
Proof. clear. intros H. pose proof prefixes_ok as Hp. rewrite Forall_forall in Hp. by apply Hp. Qed.
Lemma scanned_not_idx p : scanned p → p ≠ "idx:".
Proof. clear. intros H. pose proof prefixes_ok as Hp. rewrite Forall_forall in Hp. by apply Hp. Qed.

Lemma scanned_not_obs p n s k : scanned p → key_of p n s ≠ obs_key k.
Proof.
  clear. intros H E. pose proof prefixes_ok as Hp. rewrite Forall_forall in Hp. destruct (Hp p H) as (Hpre & _ & Hne).
  apply Hne. destruct Hpre as (name & -> & Hn). unfold EastWest.key_of in E. rewrite window_key_cons in E.
  assert (E' : cut_at ":" (name +:+ String ":" (pretty n +:+ String ":" (TENANT +:+ String ":" s))) = cut_at ":" (obs_key k))
    by (by rewrite E).
  rewrite cut_at_app in E' by done. cbn in E'. by injection E' as -> _.
Qed.

(** When a member was last recorded for a key. *)
Fixpoint last_add (k m : string) (log : log_t) : option Z :=
  match log with
  | [] => None
  | (t, k', m') :: log => if bool_decide (k = k' ∧ m = m') then Some t else last_add k m log
  end.

Record consistent (now : Z) (st : mem_store) (log : log_t) : Prop := {
  co_exact : ∀ p n s m e, scanned p → now < e →
    od_get m (sets st (key_of p n s)) = Some e ↔ last_add (key_of p n s) m log = Some (e - W);
  co_index : enum_index = true → ∀ p n s m e, scanned p → od_get m (sets st (key_of p n s)) = Some e → now < e →
    ∃ e', od_get (key_of p n s) (sets st (_index_key p (pretty n))) = Some e' ∧ e <= e';
  co_alive : ∀ p n s m e, scanned p → od_get m (sets st (key_of p n s)) = Some e → now < e →
    ∃ x, exp_of st (key_of p n s) = Some x ∧ e <= x;
  co_shape : ∀ k m e, od_get m (sets st k) = Some e →
    (∃ p n s, scanned p ∧ k = key_of p n s) ∨
    (∃ p n s, scanned p ∧ k = _index_key p (pretty n) ∧ m = key_of p n s);
  co_bound : ∀ k m e, od_get m (sets st k) = Some e → e <= now + W;
  co_wf : ∀ k, od_wf (sets st k);
  co_log : ∀ t k m, (t, k, m) ∈ log → t <= now;
  co_sorted : StronglySorted (λ a b : Z * string * string, b.1.1 <= a.1.1) log
}.

Lemma consistent_later now now' st log : now <= now' → consistent now st log → consistent now' st log.
Proof using.
  intros Hle [H1 H2 H3 H4 H5 H6 H7 H8]. split; intros.
  - apply H1; [done|lia].
  - eapply H2; [done..|lia].
  - eapply H3; [done..|lia].
  - by eapply H4.
  - etrans; [by eapply H5|lia].
  - apply H6.
  - etrans; [by eapply H7|done].
  - apply H8.
Qed.

Lemma consistent_init now : consistent now ∅ [].
Proof using.
  assert (E : ∀ k, sets ∅ k = []) by (intros k; unfold sets, cell_at; by rewrite lookup_empty).
  split; try (intros; rewrite ?E in *; done).
  - intros k. rewrite E. constructor.
  - by intros t k m ?%elem_of_nil.
  - constructor.
Qed.

(** *** Recording a member *)

Definition added (now : Z) (p : string) (n : N) (s m : string) (ep : option Z) (st : mem_store) : mem_store :=
  let key := key_of p n s in
  let st := st_do now (o_set_add key m W None) st in
  let st := match ep with Some t => st_do now (o_window_add (obs_key key) t (pretty t) W) st | None => st end in
  if enum_index then st_do now (o_set_add (_index_key p (pretty n)) key W None) st else st.

Lemma ew_add_eq now p n s m ep (w : Wd) :
  _ew_add TENANT W enum_index now p n s m ep w
  = (World (added now p n s m ep (w_store w)) (w_sent w) ((now, key_of p n s, m) :: w_log w), Ok tt).
Proof using. unfold _ew_add, added. destruct ep; case enum_index; reflexivity. Qed.

Lemma added_sets now p n s m ep st k :
  scanned p →
  sets (added now p n s m ep st) k
  = if decide (k = key_of p n s) then od_set m (now + W) (List.filter (λ me, now <? me.2) (sets st k))
    else if decide (enum_index = true ∧ k = _index_key p (pretty n))
         then od_set (key_of p n s) (now + W) (List.filter (λ me, now <? me.2) (sets st k)) else sets st k.
Proof using.
  clear stable loads dumps repr ip_address.
  intros Hp. unfold added.
  assert (Hne : key_of p n s ≠ _index_key p (pretty n)) by (apply window_not_index; [by apply scanned_prefix|by apply scanned_not_idx]).
  assert (E : ∀ k', sets (match ep with
      | Some t => st_do now (o_window_add (obs_key (key_of p n s)) t (pretty t) W) (st_do now (o_set_add (key_of p n s) m W None) st)
      | None => st_do now (o_set_add (key_of p n s) m W None) st end) k' = sets (st_do now (o_set_add (key_of p n s) m W None) st) k').
  { intros k'. destruct ep; [apply sets_window|done]. }
  destruct enum_index.
  - rewrite sets_add, !E, !sets_add. destruct (decide (k = _index_key p (pretty n))) as [->|Hk].
    + rewrite decide_False by done. rewrite decide_False by done. rewrite decide_True by done. done.
    + destruct (decide (k = key_of p n s)) as [->|]; [done|]. by rewrite decide_False by naive_solver.
  - rewrite E, sets_add. destruct (decide (k = key_of p n s)) as [->|]; [done|]. by rewrite decide_False by naive_solver.
Qed.

Lemma added_exp now p n s m ep st p' n' s' :
  scanned p → scanned p' →
  exp_of (added now p n s m ep st) (key_of p' n' s')
  = if decide (key_of p' n' s' = key_of p n s) then Some (now + W) else exp_of st (key_of p' n' s').
Proof using.
  clear stable loads dumps repr ip_address.
  intros Hp Hp'. unfold added.
  assert (Hne : key_of p' n' s' ≠ _index_key p (pretty n)) by (apply window_not_index; [by apply scanned_prefix|by apply scanned_not_idx]).
  assert (E : exp_of (match ep with
      | Some t => st_do now (o_window_add (obs_key (key_of p n s)) t (pretty t) W) (st_do now (o_set_add (key_of p n s) m W None) st)
      | None => st_do now (o_set_add (key_of p n s) m W None) st end) (key_of p' n' s')
      = exp_of (st_do now (o_set_add (key_of p n s) m W None) st) (key_of p' n' s')).
  { destruct ep; [|done]. apply exp_window. by apply scanned_not_obs. }
  destruct enum_index; rewrite ?exp_add, ?E, ?exp_add; [by rewrite decide_False|done].
Qed.

Lemma last_add_cons t k m k' m' log :
  last_add k m ((t, k', m') :: log) = if decide (k = k' ∧ m = m') then Some t else last_add k m log.
Proof using. clear. simpl. rewrite bool_decide_decide. by case_decide. Qed.

Lemma od_set_live_get (l : list (string * Z)) now m m' e x :
  od_wf l → now < e →
  od_get m' (od_set m x (List.filter (λ me, now <? me.2) l)) = Some e ↔
  (if decide (m' = m) then x = e else od_get m' l = Some e).
Proof using.
  clear stable loads dumps repr ip_address.
  clear. intros Hl He. destruct (decide (m' = m)) as [->|Hm].
  - rewrite od_get_set_eq. split; [by intros [= ->]|by intros ->].
  - rewrite od_get_set_ne by done. rewrite live_get by done. naive_solver.
Qed.

Lemma consistent_add now p n s m ep st log :
  scanned p → consistent now st log →
  consistent now (added now p n s m ep st) ((now, key_of p n s, m) :: log).
Proof using W_pos.
  clear stable loads dumps repr ip_address.
  intros Hp [H1 H2 H3 H4 H5 H6 H7 H8].
  assert (Hidx : ∀ p' n' s', scanned p' → key_of p' n' s' ≠ _index_key p (pretty n))
    by (intros; apply window_not_index; [by apply scanned_prefix|by apply scanned_not_idx]).
  split.
  - intros p' n' s' m' e Hp' He. rewrite added_sets, last_add_cons by done.
    destruct (decide (key_of p' n' s' = key_of p n s)) as [E|Hk].
    + rewrite E, od_set_live_get by done. destruct (decide (m' = m)) as [->|Hm].
      * rewrite decide_True by done. split; [intros <-; f_equal; lia|intros [= ?]; lia].
      * rewrite decide_False by naive_solver. rewrite <- E. by apply H1.
    + rewrite decide_False by (intros [_ ?]; by eapply Hidx). rewrite decide_False by naive_solver. by apply H1.
  - intros He p' n' s' m' e Hp' Hget Hlt. rewrite added_sets in Hget by done.
    rewrite (added_sets now p n s m ep st (_index_key p' (pretty n'))) by done.
    rewrite decide_False by (intros E; by eapply (window_not_index p p' n TENANT s), eq_sym; [apply scanned_prefix|apply scanned_not_idx|]).
    destruct (decide (key_of p' n' s' = key_of p n s)) as [E|Hk].
    + apply window_key_inj in E as (-> & -> & ->); [|by apply scanned_prefix..]. rewrite decide_True by done.
      exists (now + W). split; [apply od_get_set_eq|].
      destruct (decide (m' = m)) as [->|Hm]; [rewrite od_get_set_eq in Hget; injection Hget; lia|].
      rewrite od_get_set_ne in Hget by done. apply live_get in Hget as [Hget _]; [|done]. by eapply H5.
    + rewrite decide_False in Hget by (intros [_ ?]; by eapply Hidx).
      destruct (H2 He p' n' s' m' e Hp' Hget Hlt) as (e' & Hget' & Hle).
      destruct (decide (enum_index = true ∧ _)) as [[_ E]|]; [|by exists e'].
      exists e'. split; [|done]. rewrite od_get_set_ne by done. apply live_get; [done|]. split; [done|lia].
  - intros p' n' s' m' e Hp' Hget Hlt. rewrite added_sets in Hget by done. rewrite added_exp by done.
    destruct (decide (key_of p' n' s' = key_of p n s)) as [E|Hk].
    + exists (now + W). split; [done|]. apply od_set_live_get in Hget; [|done|done].
      destruct (decide (m' = m)); [lia|]. by eapply H5.
    + rewrite decide_False in Hget by (intros [_ ?]; by eapply Hidx). by eapply H3.
  - intros k m' e Hget. rewrite added_sets in Hget by done.
    destruct (decide (k = key_of p n s)) as [->|Hk]; [left; by exists p, n, s|].
    destruct (decide (enum_index = true ∧ _)) as [[_ ->]|]; [|by eapply H4].
    destruct (decide (m' = key_of p n s)) as [->|Hm]; [right; by exists p, n, s|].
    rewrite od_get_set_ne in Hget by done. apply live_get in Hget as [Hget _]; [|done]. by eapply H4.
  - intros k m' e Hget. rewrite added_sets in Hget by done.
    assert (Hset : ∀ x l, od_wf l → (∀ e, od_get m' l = Some e → e <= now + W) →
      od_get m' (od_set x (now + W) (List.filter (λ me, now <? me.2) l)) = Some e → e <= now + W).
    { intros x l Hl Hb. destruct (decide (m' = x)) as [->|]; [rewrite od_get_set_eq; intros [= <-]; lia|].
      rewrite od_get_set_ne by done. intros [Hg _]%live_get; [|done]. by apply Hb. }
    repeat case_decide; [eapply Hset; [apply H6| |done]|eapply Hset; [apply H6| |done]|by eapply H5]; intros; by eapply H5.
  - intros k. rewrite added_sets by done. repeat case_decide; try apply od_wf_set; try apply live_wf; apply H6.
  - intros t k m' Hin. apply elem_of_cons in Hin as [[= -> _ _]|Hin]; [done|by eapply H7].
  - constructor; [done|]. apply Forall_forall. intros [[t k] m'] Hin. simpl. by eapply H7.
Qed.

(** *** Reading and pruning *)

Lemma consistent_shrink now st st' log :
  consistent now st log → (∀ k, od_wf (sets st' k)) →
  (∀ k m e, od_get m (sets st' k) = Some e → od_get m (sets st k) = Some e) →
  (∀ k m e, now < e → od_get m (sets st k) = Some e → od_get m (sets st' k) = Some e ∨
     (∃ q n', k = _index_key q n') ∧ (∀ m' e', now < e' → od_get m' (sets st m) ≠ Some e')) →
  (∀ k, exp_of st' k = exp_of st k) → consistent now st' log.
Proof using.
  clear stable loads dumps repr ip_address.
  intros [H1 H2 H3 H4 H5 H6 H7 H8] Hwf Hsub Hkeep Hexp.
  assert (Hwin : ∀ p n s m e, scanned p → now < e → od_get m (sets st (key_of p n s)) = Some e →
    od_get m (sets st' (key_of p n s)) = Some e).
  { intros p n s m e Hp He Hg. destruct (Hkeep _ _ _ He Hg) as [|[(q & n' & E) _]]; [done|].
    exfalso. eapply window_not_index; [by apply scanned_prefix|by apply scanned_not_idx|exact E]. }
  split; try done.
  - intros p n s m e Hp He. rewrite <- H1 by done. split; [apply Hsub|by apply Hwin].
  - intros He p n s m e Hp Hg Hlt. apply Hsub in Hg. destruct (H2 He p n s m e Hp Hg Hlt) as (e' & Hg' & Hle).
    exists e'. split; [|done]. destruct (Hkeep _ _ _ (Z.lt_le_trans _ _ _ Hlt Hle) Hg') as [|[_ Hdead]]; [done|].
    by exfalso; eapply Hdead.
  - intros p n s m e Hp Hg Hlt. rewrite Hexp. eapply H3; [done|by apply Hsub|done].
  - intros k m e Hg. eapply H4. by apply Hsub.
  - intros k m e Hg. eapply H5. by apply Hsub.
Qed.

Lemma consistent_members now st k log :
  consistent now st log → consistent now (st_strs now (o_set_members k) st).1 log.
Proof using.
  clear stable loads dumps repr ip_address.
  intros H. assert (Hw := co_wf _ _ _ H). eapply consistent_shrink; [exact H| | | |intros; apply exp_members].
  - intros k'. rewrite sets_members. case_decide; [apply live_wf|]; apply Hw.
  - intros k' m e. rewrite sets_members. case_decide as E; [|done]. subst. rewrite live_get by done. by intros [].
  - intros k' m e He Hg. left. rewrite sets_members. case_decide as E; [|done]. subst. by apply live_get.
Qed.

Lemma consistent_view now st st' log :
  consistent now st log → (∀ k, sets st' k = sets st k) → (∀ k, exp_of st' k = exp_of st k) → consistent now st' log.
Proof using.
  clear stable loads dumps repr ip_address.
  intros H Hs He. eapply consistent_shrink; [exact H|..|exact He].
  - intros k. rewrite Hs. apply H.
  - intros k m e. by rewrite Hs.
  - intros k m e _ Hg. left. by rewrite Hs.
Qed.

Lemma consistent_prune now st k log :
  consistent now st log → (∀ m e, now < e → od_get m (sets st k) ≠ Some e) →
  consistent now (_prune_index enum_index now k st) log.
Proof using.
  clear stable loads dumps repr ip_address.
  intros H Hdead. unfold _prune_index. destruct enum_index eqn:Ei; [|done].
  assert (Hw := co_wf _ _ _ H). eapply consistent_shrink; [exact H|..|intros; apply exp_remove].
  - intros k'. rewrite sets_remove. case_decide; [apply od_wf_del|]; apply Hw.
  - intros k' m e. rewrite sets_remove. case_decide as E; [|done]. subst. rewrite od_get_del. by case_decide.
  - intros k' m e He Hg. rewrite sets_remove. case_decide as E; [|by left]. subst. rewrite od_get_del.
    case_decide as Em; [|by left]. right. subst m. split; [by eexists _, _|done].
Qed.

Lemma st_do_range now o st : (st_strs now o st).1 = st_do now o st.
Proof. unfold st_strs, st_do. by destruct (ws_step now st o). Qed.

(** *** The candidates sent and the dedup marks agree *)

Definition mark_key (tc : Z * candidate) : string :=
  emit_key TENANT stable (cd_detector tc.2) (cd_entities tc.2) (bucket_of tc.1).

Record marked (now : Z) (st : mem_store) (sent : list (Z * candidate)) : Prop := {
  mk_sent : ∀ tc, tc ∈ sent → mark_of st (mark_key tc) = Some (tc.1 + DEDUP_TTL);
  mk_back : ∀ d ent b e, mark_of st (emit_key TENANT stable d ent b) = Some e →
    ∃ tc, tc ∈ sent ∧ mark_key tc = emit_key TENANT stable d ent b;
  mk_once : NoDup (mark_key <$> sent);
  mk_time : ∀ tc, tc ∈ sent → 0 <= tc.1 <= now;
  mk_now : 0 <= now
}.

Lemma emit_key_inj d ent b d' ent' b' :
  emit_key TENANT stable d ent b = emit_key TENANT stable d' ent' b' →
  d = d' ∧ digest stable ent = digest stable ent' ∧ b = b'.
Proof.
  intros E. unfold emit_key in E.
  assert (H : ∀ d ent (b : Z), "emit:" +:+ TENANT +:+ ":" +:+ d +:+ ":" +:+ pretty (digest stable ent) +:+ ":" +:+ pretty b
    = (("emit:" +:+ TENANT +:+ ":" +:+ d) +:+ ":" +:+ pretty (digest stable ent)) +:+ ":" +:+ pretty b).
  { intros. by rewrite !sapp_assoc. }
  rewrite !H in E. apply last_segment in E as [E Eb]; [|apply pretty_Z_no_colon..].
  apply last_segment in E as [E Ed]; [|apply pretty_Z_no_colon..]. apply (inj pretty) in Eb. apply (inj pretty) in Ed.
  do 3 apply append_cancel_l in E. done.
Qed.

Lemma marked_view now st st' sent :
  marked now st sent → (∀ k, mark_of st' k = mark_of st k) → marked now st' sent.
Proof.
  intros [H1 H2 H3 H4 H5] E. split; try done.
  - intros tc. rewrite E. apply H1.
  - intros d ent b e. rewrite E. apply H2.
Qed.

Record inv (now : Z) (w : Wd) : Prop := {
  in_sets : consistent now (w_store w) (w_log w);
  in_marks : marked now (w_store w) (w_sent w)
}.

(** A step keeps the invariant, and only adds to the ledger and to what was sent. *)
Definition keeps (now : Z) (w w' : Wd) : Prop :=
  inv now w → inv now w' ∧ (∃ l, w_log w' = l ++ w_log w) ∧ (∃ l, w_sent w' = w_sent w ++ l).
#[local] Instance keeps_preorder now : PreOrder (keeps now).
Proof.
  split.
  - intros w H. split_and!; [done|by exists []|exists []; by rewrite app_nil_r].
  - intros w1 w2 w3 H12 H23 H1. destruct (H12 H1) as (H2 & (l & El) & (s & Es)).
    destruct (H23 H2) as (H3 & (l' & El') & (s' & Es')). split_and!; [done| |].
    + exists (l' ++ l). by rewrite El', El, app_assoc.
    + exists (s ++ s'). by rewrite Es', Es, app_assoc.
Qed.

Lemma keeps_on_store {A} now (f : mem_store → mem_store * A) :
  (∀ st log, consistent now st log → consistent now (f st).1 log) →
  (∀ st k, mark_of (f st).1 k = mark_of st k) → frames (keeps now) (on_store f).
Proof.
  intros Hf Hm w [H1 H2]. unfold on_store. specialize (Hf _ _ H1). specialize (Hm (w_store w)).
  destruct (f (w_store w)) as [s a]. simpl in *.
  split_and!; [split; simpl; [done|by eapply marked_view]|by exists []|exists []; by rewrite app_nil_r].
Qed.

Lemma mark_set_add now k m ttl st k' : mark_of (st_do now (o_set_add k m ttl None) st) k' = mark_of st k'.
Proof. by eapply mark_single. Qed.
Lemma mark_added now p n s m ep st k : mark_of (added now p n s m ep st) k = mark_of st k.
Proof.
  unfold added. assert (E : ∀ k t st, mark_of (st_do now (o_window_add k t (pretty t) W) st) k = mark_of st k) by (intros; by eapply mark_single).
  destruct enum_index; rewrite ?mark_set_add; destruct ep; rewrite ?mark_set_add; try done;
    (etrans; [by eapply mark_single|apply mark_set_add]).
Qed.

Lemma keeps_add now p n s m ep : scanned p → frames (keeps now) (_ew_add TENANT W enum_index now p n s m ep).
Proof using W_pos.
  intros Hp w. rewrite ew_add_eq. intros [H1 H2]. split_and!; [split; simpl|by eexists [_]|].
  - by apply consistent_add.
  - eapply marked_view; [exact H2|]. intros. apply mark_added.
  - exists []. by rewrite app_nil_r.
Qed.

Lemma strs_do now o st : (st_strs now o st).1 = st_do now o st.
Proof. unfold st_strs, st_do. by destruct (ws_step now st o). Qed.

Lemma keeps_members now k : frames (keeps now) (on_store (st_strs now (o_set_members k))).
Proof.
  apply keeps_on_store; intros st; [intros; by apply consistent_members|]. intros k'. rewrite strs_do. by eapply mark_single.
Qed.

Lemma keeps_obs now k : frames (keeps now) (_obs_bounds W now k).
Proof.
  assert (E : ∀ st, (let '(s, a) := ws_step now st (o_window_range (obs_key k) (now - W)) in
    (s, match a with a_window l => rows_bounds l | _ => None end)).1 = st_do now (o_window_range (obs_key k) (now - W)) st).
  { intros st. unfold st_do. by destruct (ws_step now st _). }
  apply keeps_on_store.
  - intros st log H. rewrite E. eapply consistent_view; [exact H|intros; apply sets_range|intros; apply exp_range].
  - intros st k'. rewrite E. by eapply mark_single.
Qed.

(** Asking for a candidate and sending it: a candidate goes out unless its key is marked,
    and then one with that key went out before. *)
Definition cand_send (now : Z) d cat sev conf ent mitre obs : M Wd unit :=
  let* c := _cand TENANT stable now d cat sev conf ent mitre obs in send now c.

Lemma cand_send_spec now d cat sev conf ent mitre obs (w : Wd) :
  inv now w →
  let w' := (cand_send now d cat sev conf ent mitre obs w).1 in
  (cand_send now d cat sev conf ent mitre obs w).2 = Ok tt ∧ inv now w' ∧ w_log w' = w_log w ∧
  (w_sent w' = w_sent w ∨ w_sent w' = w_sent w ++ [(now, candidate_of stable now d cat sev conf ent mitre obs)]) ∧
  ∃ tc, tc ∈ w_sent w' ∧ mark_key tc = emit_key TENANT stable d ent (bucket_of now).
Proof.
  intros [H1 [M1 M2 M3 M4 M5]]. unfold cand_send, _cand, seen_before, on_store, bind. rewrite dedup_eq.
  set (k := emit_key TENANT stable d ent (bucket_of now)).
  pose proof (dedup_mark now DEDUP_TTL (cell_at (w_store w) k)) as Hd.
  set (c' := (dedup_seen now DEDUP_TTL (cell_at (w_store w) k)).1) in *.
  assert (Hst : put_cell k c' (w_store w) = st_do now (o_dedup_seen k DEDUP_TTL) (w_store w)) by (unfold st_do; by rewrite dedup_eq).
  assert (Hc : ∀ log, log = w_log w → consistent now (put_cell k c' (w_store w)) log).
  { intros log ->. rewrite Hst. eapply consistent_view; [exact H1|intros; apply sets_dedup|intros; apply exp_dedup]. }
  destruct (dedup_seen now DEDUP_TTL (cell_at (w_store w) k)).2 eqn:Eb; simpl.
  - destruct Hd as [Hnew Hold]. set (c := candidate_of stable now d cat sev conf ent mitre obs).
    assert (Hfresh : ∀ tc, tc ∈ w_sent w → mark_key tc ≠ k).
    { intros tc Htc Ek. pose proof (M1 tc Htc) as Hm. rewrite Ek in Hm. pose proof (M4 tc Htc).
      apply emit_key_inj in Ek as (_ & _ & Ek). unfold bucket_of, DEDUP_TTL in *.
      destruct (Hold _ Hm) as [|]; [lia|]. assert (now < (tc.1 / 600000000 + 1) * 600000000).
      { rewrite Ek. pose proof (Z.mod_pos_bound now 600000000 ltac:(lia)). pose proof (Z.div_mod now 600000000 ltac:(lia)). lia. }
      pose proof (Z.mod_pos_bound tc.1 600000000 ltac:(lia)). pose proof (Z.div_mod tc.1 600000000 ltac:(lia)). lia. }
    split_and!; [done| |done|by right|].
    + split; simpl; [by apply Hc|]. split; [..|done].
      * intros tc Htc. rewrite put_mark. apply elem_of_app in Htc as [Htc|Htc%list_elem_of_singleton].
        -- rewrite decide_False by by apply Hfresh. by apply M1.
        -- subst tc. by rewrite decide_True.
      * intros d' ent' b' e. rewrite put_mark. case_decide as Ek.
        -- intros _. exists (now, c). split; [apply elem_of_app; right; left|done].
        -- intros Hm. destruct (M2 _ _ _ _ Hm) as (tc & Htc & E). exists tc. split; [apply elem_of_app; by left|done].
      * rewrite fmap_app. apply NoDup_app. split_and!; [done| |apply NoDup_singleton].
        intros x Hx. apply list_elem_of_fmap in Hx as (tc & -> & Htc). intros Hk%list_elem_of_singleton. by eapply Hfresh.
      * intros tc Htc. apply elem_of_app in Htc as [Htc|Htc%list_elem_of_singleton]; [by apply M4|]. subst tc. simpl. lia.
    + exists (now, c). split; [apply elem_of_app; right; left|done].
  - destruct Hd as [Hsame (e & He & _)]. split_and!; [done| |done|by left|by eapply M2].
    split; simpl; [by apply Hc|]. apply (marked_view now (w_store w)); [by split|]. intros k'. rewrite put_mark.
    case_decide as Ek; [|done]. subst k'. exact Hsame.
Qed.

Lemma keeps_cand_send now d cat sev conf ent mitre obs : frames (keeps now) (cand_send now d cat sev conf ent mitre obs).
Proof.
  intros w Hi. destruct (cand_send_spec now d cat sev conf ent mitre obs w Hi) as (_ & H & E & Hs & _).
  split_and!; [done|exists []; by rewrite E|]. destruct Hs as [->| ->]; [exists []; by rewrite app_nil_r|by eexists].
Qed.

(** *** Evaluations and records keep the invariant *)

Abbreviation visit' := (visit TENANT W enum_index stable dumps).
Abbreviation evaluate' := (evaluate TENANT W enum_index stable dumps repr loads).
Abbreviation handle' := (_handle TENANT W enum_index ip_address stable dumps repr).

(** The members a visit reads. *)
Definition members_now (now : Z) (key : string) (w : Wd) : list string :=
  (st_strs now (o_set_members key) (w_store w)).2.
Definition after_read (now : Z) (key : string) (w : Wd) : Wd :=
  World (st_strs now (o_set_members key) (w_store w)).1 (w_sent w) (w_log w).

Lemma visit_eq now p key (w : Wd) :
  visit' now p key w
  = match members_now now key w with
    | [] => on_store (λ s, (_prune_index enum_index now key s, tt)) (after_read now key w)
    | _ => (let* hit := lift (ps_score p (members_now now key w)) in
            match hit with
            | None => ret tt
            | Some second =>
                let* obs := _obs_bounds W now key in
                cand_send now (ps_detector p) (ps_category p) (ps_severity p) (ps_confidence p)
                  (entities_text dumps (ps_role p) (_src_of key) second) (ps_mitre p) obs
            end) (after_read now key w)
    end.
Proof using.
  unfold visit, members_now, after_read, bind at 1, on_store at 1.
  destruct (st_strs now (o_set_members key) (w_store w)) as [s l]. simpl. by destruct l.
Qed.

Lemma after_read_keeps now key w : keeps now w (after_read now key w).
Proof.
  pose proof (keeps_members now key w) as H. unfold on_store in H. unfold after_read.
  by destruct (st_strs now (o_set_members key) (w_store w)).
Qed.

Lemma keeps_hit now p key ms :
  frames (keeps now)
    (let* hit := lift (ps_score p ms) in
     match hit with
     | None => ret tt
     | Some second =>
         let* obs := _obs_bounds W now key in
         cand_send now (ps_detector p) (ps_category p) (ps_severity p) (ps_confidence p)
           (entities_text dumps (ps_role p) (_src_of key) second) (ps_mitre p) obs
     end).
Proof.
  apply (frames_bind (keeps now)); [apply (frames_lift (keeps now))|]. intros [second|]; [|apply (frames_ret (keeps now))].
  apply (frames_bind (keeps now)); [apply keeps_obs|]. intros obs. apply keeps_cand_send.
Qed.

Lemma keeps_visit now p key : frames (keeps now) (visit' now p key).
Proof.
  intros w. rewrite visit_eq. etrans; [apply after_read_keeps|].
  destruct (members_now now key w) as [|m ms] eqn:Em; [|apply keeps_hit].
  intros [H1 H2]. unfold members_now in Em. rewrite members_eq in Em. simpl in Em.
  unfold on_store. simpl. split_and!; [split; simpl|by exists []|exists []; by rewrite app_nil_r].
  - apply consistent_prune; [done|]. intros m e He. unfold after_read. simpl. rewrite sets_members, decide_True by done.
    apply fmap_nil_inv in Em. by rewrite Em.
  - eapply marked_view; [exact H2|]. intros k. unfold _prune_index. destruct enum_index; [by eapply mark_single|done].
Qed.

Lemma scoped_ok now prefix parts :
  (∀ st log, consistent now st log → consistent now (_scoped_keys enum_index now prefix parts st).1 log) ∧
  (∀ st k, mark_of (_scoped_keys enum_index now prefix parts st).1 k = mark_of st k).
Proof.
  assert (Hk : ∀ st, (st_strs now (o_keys_matching prefix) st).1 = st) by done.
  assert (Hm : ∀ ks st log, consistent now st log → consistent now (members_of now ks st).1 log).
  { induction ks as [|k ks IH]; intros st log H; [done|]. cbn [members_of].
    pose proof (consistent_members now st k log H) as H1.
    destruct (st_strs now (o_set_members k) st) as [s l]. specialize (IH s log H1).
    by destruct (members_of now ks s). }
  assert (Hmk : ∀ ks st k, mark_of (members_of now ks st).1 k = mark_of st k).
  { induction ks as [|k ks IH]; intros st k'; [done|]. cbn [members_of].
    assert (E : mark_of (st_strs now (o_set_members k) st).1 k' = mark_of st k') by (rewrite strs_do; by eapply mark_single).
    destruct (st_strs now (o_set_members k) st) as [s l]. specialize (IH s k').
    destruct (members_of now ks s). simpl in *. congruence. }
  unfold _scoped_keys. destruct parts as [ps|]; [|split; [intros st log H; exact H|reflexivity]].
  destruct enum_index; [split; [intros; by apply Hm|intros; apply Hmk]|]. split; [intros st log H; exact H|reflexivity].
Qed.

Lemma keeps_pass now pp : frames (keeps now) (run_pass TENANT W enum_index stable dumps now pp).
Proof.
  apply (frames_bind (keeps now)).
  - apply keeps_on_store; apply scoped_ok.
  - intros keys. apply (frames_for_each (keeps now)). intros key. apply keeps_visit.
Qed.

Lemma keeps_evaluate now flow raw dns : frames (keeps now) (evaluate' now flow raw dns).
Proof. apply (frames_for_each (keeps now)). intros pp. apply keeps_pass. Qed.

Ltac scanned_tac := unfold scanned; apply mem_true; vm_compute; reflexivity.
Ltac keeps_tac now :=
  repeat first
    [ apply (frames_ret (keeps now)) | apply (frames_lift (keeps now)) | apply keeps_cand_send
    | apply keeps_add; scanned_tac | apply (frames_bind (keeps now)); [|intros ?]
    | match goal with
      | |- frames _ (when ?b _) => destruct b
      | |- frames _ (if ?b then _ else _) => destruct b
      | |- frames _ (match ?x with _ => _ end) => destruct x
      end ].

Lemma keeps_handle now part e : frames (keeps now) (handle' now part e).
Proof using W_pos.
  unfold _handle. apply (frames_bind (keeps now)); [apply (frames_lift (keeps now))|]. intros ep. cbv zeta.
  repeat match goal with |- frames _ (if ?b then _ else _) => destruct b end.
  - unfold handle_flow. cbv zeta. keeps_tac now.
  - unfold handle_krb5. cbv zeta. keeps_tac now.
  - unfold handle_smb. cbv zeta. keeps_tac now.
  - unfold handle_dns. cbv zeta. keeps_tac now.
  - unfold handle_dcerpc. cbv zeta. keeps_tac now.
  - keeps_tac now.
Qed.

(** *** Histories *)

Abbreviation history := (list (Z * N * dict)).
(** The worlds the service can be in, with the records it was given, newest first. *)
Inductive reached : Z → history → Wd → Prop :=
| reached_start now : 0 <= now → reached now [] (World ∅ [] [])
| reached_wait now now' h w : reached now h w → now <= now' → reached now' h w
| reached_record now h w part e :
    reached now h w →
    reached now ((now, part, e) :: h)
      (act TENANT W enum_index ip_address stable dumps repr loads now (on_record part e) w)
| reached_eval now h w flow raw dns :
    reached now h w →
    reached now h (act TENANT W enum_index ip_address stable dumps repr loads now (on_eval flow raw dns) w).

Lemma inv_later now now' w : now <= now' → inv now w → inv now' w.
Proof.
  intros Hle [H1 [M1 M2 M3 M4 M5]]. split; [by eapply consistent_later|]. split; try done; [|lia].
  intros tc Htc. specialize (M4 tc Htc). lia.
Qed.

Lemma reached_inv now h w : reached now h w → inv now w.
Proof using W_pos.
  induction 1 as [now Hn|now now' h w _ IH Hle|now h w part e _ IH|now h w flow raw dns _ IH].
  - split; [apply consistent_init|]. split; simpl; [by intros tc ?%elem_of_nil| |constructor|by intros tc ?%elem_of_nil|done].
    intros d ent b e. unfold mark_of, cell_at. by rewrite lookup_empty.
  - by eapply inv_later.
  - exact (proj1 (keeps_handle now part e w IH)).
  - exact (proj1 (keeps_evaluate now flow raw dns w IH)).
Qed.

(** *** What the ledger holds *)

Definition same_log {A} (f : log_t → A) (w w' : Wd) : Prop := f (w_log w') = f (w_log w).
#[local] Instance same_log_preorder {A} (f : log_t → A) : PreOrder (same_log f).
Proof. split; [done|]. intros a b c H1 H2. unfold same_log in *. congruence. Qed.

Lemma same_on_store {A B} (g : log_t → B) (f : mem_store → mem_store * A) : frames (same_log g) (on_store f).
Proof. intros w. unfold on_store, same_log. by destruct (f (w_store w)). Qed.
Lemma same_cand_send {B} (g : log_t → B) now d cat sev conf ent mitre obs :
  frames (same_log g) (cand_send now d cat sev conf ent mitre obs).
Proof.
  apply (frames_bind (same_log g)).
  - apply (frames_bind (same_log g)); [apply same_on_store|]. intros. apply (frames_ret (same_log g)).
  - intros [c|]; [|apply (frames_ret (same_log g))]. by apply (frames_modify (same_log g)).
Qed.
Lemma same_add {B} (g : log_t → B) now p n s m ep :
  (∀ l, g ((now, key_of p n s, m) :: l) = g l) → frames (same_log g) (_ew_add TENANT W enum_index now p n s m ep).
Proof. intros Hg w. rewrite ew_add_eq. apply Hg. Qed.

Lemma same_visit now p key : frames (same_log id) (visit' now p key).
Proof.
  unfold visit. apply (frames_bind (same_log id)); [apply same_on_store|]. intros [|m ms]; [apply same_on_store|].
  apply (frames_bind (same_log id)); [apply (frames_lift (same_log id))|]. intros [second|]; [|apply (frames_ret (same_log id))].
  apply (frames_bind (same_log id)); [apply same_on_store|]. intros obs. apply same_cand_send.
Qed.
Lemma same_evaluate now flow raw dns : frames (same_log id) (evaluate' now flow raw dns).
Proof.
  apply (frames_for_each (same_log id)). intros pp. apply (frames_bind (same_log id)); [apply same_on_store|].
  intros keys. apply (frames_for_each (same_log id)). intros key. apply same_visit.
Qed.

(** A flow record between internal hosts to an administration port. *)
Definition lateral (e : dict) : bool :=
  is_ok (_event_epoch repr e) && val_eq_str (dgetN "event_type" e) "flow" &&
  truthy (dgetN "src_ip" e) && truthy (dgetN "dest_ip" e) &&
  is_internal ip_address (dgetN "src_ip" e) && is_internal ip_address (dgetN "dest_ip" e) &&
  hashable (dgetN "dest_port" e) && val_in (dgetN "dest_port" e) (VInt <$> ADMIN_PORTS).
Definition dst_text (e : dict) : string := py_str repr (dgetN "dest_ip" e).
Definition target_of (e : dict) : string := dst_text e +:+ "|" +:+ py_str repr (dgetN "dest_port" e).
Definition lat_entry (x : Z * N * dict) : option (Z * string * string) :=
  let '(t, part, e) := x in
  if lateral e then Some (t, key_of "lat:" part (src_text repr e), target_of e) else None.
Definition is_lat (x : Z * string * string) : bool := starts_with "lat:" x.1.2.
Abbreviation lats := (List.filter is_lat).

Lemma lats_lat now n s m l : lats ((now, key_of "lat:" n s, m) :: l) = (now, key_of "lat:" n s, m) :: lats l.
Proof. cbn [List.filter]. unfold is_lat. cbn [fst snd]. unfold EastWest.key_of. by rewrite starts_window. Qed.
Lemma lats_other now p n s m l :
  p ∈ ["scan:"; "rdp:"] → lats ((now, key_of p n s, m) :: l) = lats l.
Proof. clear. rewrite !elem_of_cons, elem_of_nil. by intros [->|[->|[]]]. Qed.

Ltac same_tac :=
  repeat first
    [ apply (frames_ret (same_log lats)) | apply (frames_lift (same_log lats)) | apply same_cand_send
    | apply same_add; reflexivity | apply (frames_bind (same_log lats)); [|intros ?]
    | match goal with
      | |- frames _ (when ?b _) => destruct b
      | |- frames _ (if ?b then _ else _) => destruct b
      | |- frames _ (match ?x with _ => _ end) => destruct x
      end ].

Lemma ew_add_log now p n s m ep (k : M Wd unit) (w : Wd) :
  (bind (_ew_add TENANT W enum_index now p n s m ep) (λ _, k) w)
  = k (World (added now p n s m ep (w_store w)) (w_sent w) ((now, key_of p n s, m) :: w_log w)).
Proof. unfold bind at 1. by rewrite ew_add_eq. Qed.

Lemma handle_lats now part e w :
  lats (w_log (handle' now part e w).1) = option_list (lat_entry (now, part, e)) ++ lats (w_log w).
Proof.
  unfold lat_entry, lateral, _handle, bind at 1, lift at 1.
  destruct (_event_epoch repr e) as [ep|x]; [|done]. simpl is_ok. rewrite andb_true_l. cbv beta iota zeta.
  destruct (val_eq_str (dgetN "event_type" e) "flow") eqn:Ef.
  - rewrite andb_true_l. unfold handle_flow. cbv zeta.
    destruct (truthy (dgetN "src_ip" e) && truthy (dgetN "dest_ip" e) && is_internal ip_address (dgetN "src_ip" e)
      && is_internal ip_address (dgetN "dest_ip" e)); [|done].
    rewrite andb_true_l, ew_add_log. unfold bind at 1, lift at 1, hash_in.
    destruct (hashable (dgetN "dest_port" e)); [|done]. rewrite andb_true_l.
    destruct (val_in (dgetN "dest_port" e) (VInt <$> ADMIN_PORTS)).
    + unfold when at 1. rewrite ew_add_log. unfold when. destruct (py_eqb _ _); [rewrite ew_add_eq|]; cbn [fst ret w_log];
        rewrite ?(lats_other _ "rdp:"), lats_lat, (lats_other _ "scan:") by (rewrite !elem_of_cons; auto); done.
    + unfold when at 1. unfold bind at 1, ret at 1. unfold when. by destruct (py_eqb _ _); [rewrite ew_add_eq|].
  - rewrite andb_false_l. simpl option_list. rewrite app_nil_l.
    match goal with |- lats (w_log (?m w).1) = _ => assert (Hf : frames (same_log lats) m); [|exact (Hf w)] end.
    repeat match goal with |- frames _ (if ?b then _ else _) => destruct b end.
    + unfold handle_krb5. cbv zeta. same_tac.
    + unfold handle_smb. cbv zeta. same_tac.
    + unfold handle_dns. cbv zeta. same_tac.
    + unfold handle_dcerpc. cbv zeta. same_tac.
    + same_tac.
Qed.

Lemma reached_lats now h w : reached now h w → lats (w_log w) = omap lat_entry h.
Proof.
  induction 1 as [now Hn|now now' h w _ IH Hle|now h w part e _ IH|now h w flow raw dns _ IH]; [done|done| |].
  - simpl act. rewrite handle_lats, IH. change (omap lat_entry ((now, part, e) :: h))
      with (match lat_entry (now, part, e) with Some y => y :: omap lat_entry h | None => omap lat_entry h end).
    by destruct (lat_entry (now, part, e)).
  - simpl act. pose proof (same_evaluate now flow raw dns w) as E. unfold same_log in E. simpl in E. by rewrite E.
Qed.

(** *** Windows are exact *)

Lemma last_add_elem k m log t : last_add k m log = Some t → (t, k, m) ∈ log.
Proof.
  clear. induction log as [|[[t' k'] m'] log IH]; [done|]. rewrite last_add_cons. case_decide as E.
  - destruct E as [-> ->]. intros [= ->]. left.
  - intros H. right. by apply IH.
Qed.
Lemma last_add_newest k m log t :
  StronglySorted (λ a b : Z * string * string, b.1.1 <= a.1.1) log → (t, k, m) ∈ log →
  ∃ t', last_add k m log = Some t' ∧ t <= t'.
Proof.
  clear. intros Hs. induction Hs as [|[[t' k'] m'] log _ IH Hall]; [by intros ?%elem_of_nil|].
  rewrite last_add_cons. intros Hin. case_decide as E.
  - exists t'. split; [done|]. apply elem_of_cons in Hin as [[= -> _ _]|Hin]; [done|].
    rewrite Forall_forall in Hall. apply (Hall _ Hin).
  - apply elem_of_cons in Hin as [[= -> -> ->]|Hin]; [by destruct E|by apply IH].
Qed.

Lemma members_exact now w p n s m :
  inv now w → scanned p →
  m ∈ members_now now (key_of p n s) w ↔ ∃ t, (t, key_of p n s, m) ∈ w_log w ∧ now < t + W.
Proof.
  intros [H _] Hp. assert (Hwf := co_wf _ _ _ H (key_of p n s)).
  unfold members_now. rewrite members_eq. cbn [snd]. unfold od_keys. rewrite list_elem_of_fmap. split.
  - intros ([m' e] & -> & Hin). apply list_elem_of_In, filter_In in Hin as [Hin He]. apply Z.ltb_lt in He. cbn in *.
    apply list_elem_of_In, od_wf_get in Hin; [|done]. apply (co_exact _ _ _ H) in Hin; [|done|done].
    exists (e - W). split; [by apply last_add_elem|lia].
  - intros (t & Hin & Ht). destruct (last_add_newest _ _ _ _ (co_sorted _ _ _ H) Hin) as (t' & Hl & Hle).
    exists (m, t' + W). split; [done|]. apply list_elem_of_In, filter_In. split.
    + apply list_elem_of_In, od_get_elem, (co_exact _ _ _ H); [done|lia|]. rewrite Hl. f_equal. lia.
    + apply Z.ltb_lt. simpl. lia.
Qed.

Lemma members_NoDup now w key : inv now w → NoDup (members_now now key w).
Proof.
  intros [H _]. unfold members_now. rewrite members_eq. apply (live_wf now (sets (w_store w) key)), H.
Qed.

(** Windows are exact: whatever records and evaluations came before, in any order,
    the set of a source's window holds exactly the members recorded for it less than a
    window ago, each once. *)
Theorem window_members_exact now h w p n s :
  reached now h w → scanned p →
  NoDup (members_now now (key_of p n s) w) ∧
  ∀ m, m ∈ members_now now (key_of p n s) w ↔ ∃ t, (t, key_of p n s, m) ∈ w_log w ∧ now < t + W.
Proof using W_pos.
  intros H Hp. apply reached_inv in H. split; [by apply members_NoDup|]. intros m. by apply members_exact.
Qed.

(** The keys with members, of those an enumeration lists. *)
Definition nonempty (now : Z) (w : Wd) (key : string) : bool :=
  match members_now now key w with [] => false | _ => true end.
Definition listed (indexed : bool) (now : Z) (p : string) (parts : list N) (w : Wd) : list string :=
  (_scoped_keys indexed now p (Some parts) (w_store w)).2.

Lemma members_of_spec now ks (st : mem_store) k' :
  (∀ k, od_wf (sets st k)) →
  k' ∈ (members_of now ks st).2 ↔ ∃ k, k ∈ ks ∧ ∃ e, od_get k' (sets st k) = Some e ∧ now < e.
Proof.
  clear. revert st. induction ks as [|k ks IH]; intros st Hwf.
  { cbn. split; [by intros ?%elem_of_nil|by intros (k & ?%elem_of_nil & _)]. }
  cbn [members_of]. rewrite members_eq. set (st1 := put_cell k _ st).
  assert (Hs : ∀ k2, sets st1 k2 = if decide (k2 = k) then List.filter (λ me, now <? me.2) (sets st k) else sets st k2).
  { intros k2. rewrite <- sets_members, members_eq. done. }
  assert (Hwf1 : ∀ k2, od_wf (sets st1 k2)) by (intros k2; rewrite Hs; case_decide; [apply live_wf|]; apply Hwf).
  specialize (IH st1 Hwf1). destruct (members_of now ks st1) as [s l]. cbn [snd] in *. rewrite elem_of_app, IH.
  assert (Hk : k' ∈ od_keys (List.filter (λ me, now <? me.2) (sets st k)) ↔ ∃ e, od_get k' (sets st k) = Some e ∧ now < e).
  { unfold od_keys. rewrite list_elem_of_fmap. split.
    - intros ([m e] & -> & Hin). apply list_elem_of_In, filter_In in Hin as [Hin He]. apply Z.ltb_lt in He.
      exists e. split; [|done]. by apply od_wf_get, list_elem_of_In.
    - intros (e & Hg & He). exists (k', e). split; [done|]. apply list_elem_of_In, filter_In.
      split; [by apply list_elem_of_In, od_get_elem|by apply Z.ltb_lt]. }
  rewrite Hk. split.
  - intros [H|(k2 & Hin & e & Hg & He)]; [exists k; split; [left|done]|].
    exists k2. split; [by right|]. exists e. split; [|done]. rewrite Hs in Hg. case_decide as E; [|done].
    subst. by apply live_get in Hg as [].
  - intros (k2 & Hin & e & Hg & He). apply elem_of_cons in Hin as [->|Hin]; [left; by exists e|].
    right. exists k2. split; [done|]. exists e. split; [|done]. rewrite Hs. case_decide as E; [|done].
    subst. apply live_get; [apply Hwf|done].
Qed.

Lemma live_key now w p n s m :
  inv now w → scanned p → m ∈ members_now now (key_of p n s) w →
  ∃ e, od_get m (sets (w_store w) (key_of p n s)) = Some e ∧ now < e.
Proof.
  intros [H _] Hp Hm. unfold members_now in Hm. rewrite members_eq in Hm. unfold od_keys in Hm.
  apply list_elem_of_fmap in Hm as ([m' e] & -> & Hin). apply list_elem_of_In, filter_In in Hin as [Hin He].
  exists e. split; [|by apply Z.ltb_lt]. apply od_wf_get; [apply H|]. by apply list_elem_of_In.
Qed.

Lemma indexed_shape now w p ps k :
  inv now w → scanned p → k ∈ listed true now p ps w → ∃ n s, n ∈ ps ∧ k = key_of p n s.
Proof.
  intros [H _] Hp Hk. unfold listed, _scoped_keys in Hk. apply members_of_spec in Hk; [|apply H].
  destruct Hk as (i & Hi & e & Hg & _). apply list_elem_of_fmap in Hi as (n & -> & Hn).
  apply (co_shape _ _ _ H) in Hg as [(p' & n' & s' & Hp' & E)|(p' & n' & s' & Hp' & E & ->)].
  - exfalso. symmetry in E. by apply window_not_index in E; [|apply scanned_prefix|apply scanned_not_idx].
  - apply index_key_inj in E as [-> ->]; [by exists n', s'|by apply scanned_prefix..].
Qed.

Lemma indexed_complete now w p ps n s :
  inv now w → enum_index = true → scanned p → n ∈ ps → nonempty now w (key_of p n s) = true →
  key_of p n s ∈ listed true now p ps w.
Proof.
  intros Hi He Hp Hn Hne. pose proof Hi as [H _]. unfold nonempty in Hne.
  destruct (members_now now (key_of p n s) w) as [|m ms] eqn:Em; [done|].
  destruct (live_key now w p n s m Hi Hp) as (e & Hg & Hlt); [rewrite Em; left|].
  destruct (co_index _ _ _ H He _ _ _ _ _ Hp Hg Hlt) as (e' & Hg' & Hle).
  unfold listed, _scoped_keys. apply members_of_spec; [apply H|]. exists (_index_key p (pretty n)).
  split; [apply list_elem_of_fmap; by exists n|]. exists e'. split; [done|lia].
Qed.

(** Enumerating a replica's partitions through the index lists the same windows with
    members as scanning the whole key space and filtering by partition, after any run. *)
Theorem index_scan_agree now h w p ps k :
  reached now h w → enum_index = true → scanned p → nonempty now w k = true →
  k ∈ listed true now p ps w ↔ k ∈ listed false now p ps w.
Proof using W_pos.
  intros Hr He Hp Hne. apply reached_inv in Hr as Hi. pose proof Hi as [H _].
  assert (Hlive : ∃ m e, od_get m (sets (w_store w) k) = Some e ∧ now < e).
  { unfold nonempty, members_now in Hne. rewrite members_eq in Hne. cbn [snd] in Hne.
    destruct (List.filter _ _) as [|[m e] l] eqn:E; [done|]. exists m, e.
    assert (Hin : (m, e) ∈ List.filter (λ me : string * Z, now <? me.2) (sets (w_store w) k)) by (rewrite E; left).
    apply list_elem_of_In, filter_In in Hin as [Hin Hlt]. split; [|by apply Z.ltb_lt].
    apply od_wf_get; [apply H|]. by apply list_elem_of_In. }
  destruct Hlive as (m & e & Hg & Hlt).
  assert (Hscan : k ∈ listed false now p ps w ↔
    (starts_with p k = true ∧ listed_cell now (cell_at (w_store w) k) = true) ∧ owned ps k = true).
  { unfold listed, _scoped_keys, st_strs, ws_step. cbn. rewrite list_elem_of_In, filter_In, <- list_elem_of_In.
    by rewrite keys_matching_elem. }
  rewrite Hscan. split.
  - intros Hk. destruct (indexed_shape _ _ _ _ _ Hi Hp Hk) as (n & s & Hn & ->). split; [split|].
    + apply starts_window.
    + destruct (co_alive _ _ _ H _ _ _ _ _ Hp Hg Hlt) as (x & Hx & Hle). unfold exp_of in Hx.
      unfold sets in Hg. unfold listed_cell, _alive. destruct (c_s (cell_at _ _)); [|done].
      rewrite Hx, (proj2 (Z.ltb_lt now x)) by lia. rewrite (bool_decide_eq_true_2 (is_Some (Some l))) by by eexists.
      by rewrite !orb_true_r.
    + unfold EastWest.key_of. rewrite owned_window by by apply scanned_prefix. by apply mem_true.
  - intros [[Hs _] Ho]. apply (co_shape _ _ _ H) in Hg as [(p' & n & s & Hp' & ->)|(p' & n & s & Hp' & -> & _)].
    + apply starts_prefix_inv in Hs; [|by apply scanned_prefix..]. subst p'.
      unfold EastWest.key_of in Ho. rewrite owned_window in Ho by by apply scanned_prefix.
      apply indexed_complete; try done. by apply mem_true.
    + exfalso. eapply scanned_not_idx; [exact Hp|]. eapply starts_index_inv; [by apply scanned_prefix|exact Hs].
Qed.

(** No candidate goes out twice: over any run, no two candidates sent have the same
    detector and content digest within one ten-minute bucket. *)
Theorem candidates_unique now h w :
  reached now h w →
  NoDup ((λ tc : Z * candidate, (cd_detector tc.2, digest stable (cd_entities tc.2), bucket_of tc.1)) <$> w_sent w).
Proof using W_pos.
  intros H. apply reached_inv in H as [_ H].
  apply (NoDup_fmap_1 (λ x : string * Z * Z, "emit:" +:+ TENANT +:+ ":" +:+ x.1.1 +:+ ":" +:+ pretty x.1.2 +:+ ":" +:+ pretty x.2)).
  rewrite <- list_fmap_compose. exact (mk_once _ _ _ H).
Qed.

(** *** Lateral movement *)

(** The distinct destinations a source of a partition reached on administration ports
    less than a window ago. *)
Definition recent_dst (now : Z) (n : N) (s : string) (x : Z * N * dict) : option string :=
  let '(t, part, e) := x in
  if (now <? t + W) && bool_decide (part = n) && String.eqb (src_text repr e) s && lateral e then Some (dst_text e) else None.
Definition lateral_targets (now : Z) (n : N) (s : string) (h : history) : list string :=
  remove_dups (omap (recent_dst now n s) h).
(** Ports are numbers, as the record contract has them. *)
Definition int_ports (h : history) : Prop :=
  Forall (λ x : Z * N * dict, lateral x.2 = true → ∃ z, dgetN "dest_port" x.2 = VInt z) h.

Lemma elem_of_targets now n s h d :
  d ∈ lateral_targets now n s h ↔
  ∃ t e, (t, n, e) ∈ h ∧ now < t + W ∧ src_text repr e = s ∧ lateral e = true ∧ dst_text e = d.
Proof.
  unfold lateral_targets. rewrite elem_of_remove_dups, list_elem_of_omap. split.
  - intros ([[t part] e] & Hin & Hx). unfold recent_dst in Hx.
    destruct (now <? t + W) eqn:E1; [|done]. destruct (bool_decide (part = n)) eqn:E2; [|done].
    destruct (String.eqb_spec (src_text repr e) s); [|done]. destruct (lateral e) eqn:E4; [|done]. to_prop. simpl in Hx.
    injection Hx as <-. subst part. by exists t, e.
  - intros (t & e & Hin & Ht & Hs & Hl & <-). exists (t, n, e). split; [done|]. unfold recent_dst.
    rewrite (proj2 (Z.ltb_lt _ _) Ht), bool_decide_eq_true_2, Hs, String.eqb_refl, Hl by done. done.
Qed.

Lemma lat_member now h w n s m :
  inv now w → lats (w_log w) = omap lat_entry h →
  m ∈ members_now now (key_of "lat:" n s) w ↔
  ∃ t e, (t, n, e) ∈ h ∧ now < t + W ∧ src_text repr e = s ∧ lateral e = true ∧ target_of e = m.
Proof.
  intros Hi El. assert (Hp : scanned "lat:") by scanned_tac. rewrite members_exact by done.
  assert (Hin : ∀ t, (t, key_of "lat:" n s, m) ∈ w_log w ↔ (t, key_of "lat:" n s, m) ∈ omap lat_entry h).
  { intros t. rewrite <- El, !list_elem_of_In, filter_In. unfold is_lat. cbn [fst snd]. unfold EastWest.key_of.
    rewrite starts_window. split; [intros H; by split|by intros []]. }
  setoid_rewrite Hin. setoid_rewrite list_elem_of_omap. split.
  - intros (t & ([[t' part] e] & Hx & E) & Ht). unfold lat_entry in E. destruct (lateral e) eqn:Hl; [|done].
    apply (inj Some), pair_equal_spec in E as [E Em]. apply pair_equal_spec in E as [-> Ek].
    apply window_key_inj in Ek as (_ & -> & Es); [|by apply scanned_prefix..].
    exists t, e. done.
  - intros (t & e & Hx & Ht & <- & Hl & <-). exists t. split; [|done]. exists (t, n, e). split; [done|].
    unfold lat_entry. by rewrite Hl.
Qed.

Lemma rsplit_app d p :
  string_forallb (λ c, negb (Ascii.eqb "|" c)) p = true → rsplit_bar (d +:+ "|" +:+ p) = Ok (d, p).
Proof.
  clear. intros Hp. unfold rsplit_bar, rev_string. rewrite !rev_sapp, sapp_assoc.
  change (String.rev "|" +:+ String.rev d) with (String "|" (String.rev d)). rewrite cut_at_app; [by rewrite !rev_rev|].
  clear d. induction p as [|c p IH]; [done|]. cbn in Hp. apply andb_true_iff in Hp as [Hc Hp].
  rewrite rev_cons, forallb_sapp, IH by done. cbn. by rewrite Hc.
Qed.

Lemma map_res_all {A B} (f : A → res B) (g : A → B) xs :
  (∀ x, x ∈ xs → f x = Ok (g x)) → map_res f xs = Ok (g <$> xs).
Proof.
  clear. induction xs as [|x xs IH]; intros H; [done|]. cbn. rewrite (H x) by left. cbn.
  rewrite IH by (intros; apply H; by right). done.
Qed.

Lemma port_text e z :
  lateral e = true → dgetN "dest_port" e = VInt z → rsplit_bar (target_of e) = Ok (dst_text e, pretty z).
Proof.
  intros Hl Hz. unfold target_of. rewrite Hz. apply rsplit_app. unfold lateral in Hl. to_prop.
  assert (Hin : z ∈ ADMIN_PORTS).
  { match goal with H : val_in _ _ = true |- _ => rename H into Hv end. unfold val_in in Hv. rewrite Hz in Hv.
    apply existsb_exists in Hv as (v & Hv & E). apply list_elem_of_In, list_elem_of_fmap in Hv as (z' & -> & Hv).
    cbn in E. destruct (z ?= z') eqn:Ec; [|done..]. apply Z.compare_eq in Ec. by subst. }
  clear -Hin. unfold ADMIN_PORTS in Hin. repeat (apply elem_of_cons in Hin as [->|Hin]; [reflexivity|]).
  by apply elem_of_nil in Hin.
Qed.

Lemma count_same {A} `{EqDecision A} (l l' : list A) : (∀ x, x ∈ l ↔ x ∈ l') → count l = count l'.
Proof.
  clear. intros H. unfold count. f_equal. apply Permutation_length, NoDup_Permutation; [apply NoDup_remove_dups..|].
  intros x. by rewrite !elem_of_remove_dups.
Qed.

(** How many destinations, and the text of the finding that says so. *)
Definition reach (now : Z) (n : N) (s : string) (h : history) : Z := count (lateral_targets now n s h).
Definition lateral_text (s : string) (k : Z) : string :=
  entities_text dumps "src" s (count_entity "count" "internal_targets" k).

Lemma lat_score now h w n s :
  inv now w → lats (w_log w) = omap lat_entry h → int_ports h →
  ps_score lat_pass (members_now now (key_of "lat:" n s) w)
  = Ok (if 5 <=? reach now n s h then Some (count_entity "count" "internal_targets" (reach now n s h)) else None).
Proof.
  intros Hi El Hport. set (ms := members_now now (key_of "lat:" n s) w).
  assert (Hm : ∀ m, m ∈ ms ↔ ∃ t e, (t, n, e) ∈ h ∧ now < t + W ∧ src_text repr e = s ∧ lateral e = true ∧ target_of e = m)
    by (intros; by apply lat_member).
  set (g := λ m, match rsplit_bar m with Ok p => p | Raise _ => ("", "") end).
  unfold int_ports in Hport. rewrite Forall_forall in Hport.
  assert (Hg : ∀ m, m ∈ ms → rsplit_bar m = Ok (g m)).
  { intros m Hx. apply Hm in Hx as (t & e & Hx & _ & _ & Hl & <-). destruct (Hport _ Hx Hl) as [z Hz].
    unfold g. by rewrite (port_text e z Hl Hz). }
  cbn. unfold pairs_of. rewrite (map_res_all _ g) by done. cbn. unfold when_hit, lateral_fanout. cbn.
  assert (E : count (fst <$> remove_dups (g <$> ms)) = reach now n s h).
  { apply count_same. intros d. rewrite list_elem_of_fmap, elem_of_targets. setoid_rewrite elem_of_remove_dups.
    setoid_rewrite list_elem_of_fmap. split.
    - intros (dp & -> & m & -> & Hx). apply Hm in Hx as (t & e & Hx & Ht & Hs & Hl & <-).
      destruct (Hport _ Hx Hl) as [z Hz]. exists t, e. unfold g. by rewrite (port_text e z Hl Hz).
    - intros (t & e & Hx & Ht & Hs & Hl & <-). destruct (Hport _ Hx Hl) as [z Hz].
      exists (dst_text e, pretty z). split; [done|]. exists (target_of e). unfold g. rewrite (port_text e z Hl Hz).
      split; [done|]. apply Hm. by exists t, e. }
  by rewrite E.
Qed.

Lemma obs_returns now key (w : Wd) :
  ∃ w2 obs, _obs_bounds W now key w = (w2, Ok obs) ∧ w_sent w2 = w_sent w.
Proof. unfold _obs_bounds, on_store. destruct (ws_step _ _ _). by eexists _, _. Qed.
Lemma bind_lift_ok {A B} (a : A) (k : A → M Wd B) w : bind (lift (Ok a)) k w = k a w.
Proof. done. Qed.
Lemma bind_obs {A B} (m : M Wd A) (k : A → M Wd B) w w2 a : m w = (w2, Ok a) → bind m k w = k a w2.
Proof. unfold bind. by intros ->. Qed.

Lemma visit_lat now h w n s :
  inv now w → lats (w_log w) = omap lat_entry h → int_ports h → no_colon TENANT = true →
  let r := visit' now lat_pass (key_of "lat:" n s) w in
  r.2 = Ok tt ∧
  (∃ new, w_sent r.1 = w_sent w ++ new ∧
     Forall (λ tc : Z * candidate, tc.1 = now ∧ 5 <= reach now n s h ∧ cd_entities tc.2 = lateral_text s (reach now n s h)) new) ∧
  (5 <= reach now n s h → ∃ tc, tc ∈ w_sent r.1 ∧
     mark_key tc = emit_key TENANT stable "lateral_movement" (lateral_text s (reach now n s h)) (bucket_of now)).
Proof.
  intros Hi El Hport HT. cbv zeta. rewrite visit_eq. pose proof (lat_score now h w n s Hi El Hport) as Hsc.
  destruct (members_now now (key_of "lat:" n s) w) as [|m ms] eqn:Em.
  - injection Hsc as Hsc. assert (H5 : (5 <=? reach now n s h) = false) by (by destruct (5 <=? reach now n s h)).
    to_prop. split_and!; [done|exists []; by rewrite app_nil_r|intros; lia].
  - rewrite Hsc. destruct (Z.leb_spec 5 (reach now n s h)) as [H5|H5].
    + pose proof (after_read_keeps now (key_of "lat:" n s) w Hi) as (Hi1 & _ & _).
      set (w1 := after_read now (key_of "lat:" n s) w) in *.
      destruct (obs_returns now (key_of "lat:" n s) w1) as (w2 & obs & Eo & Es).
      pose proof (keeps_obs now (key_of "lat:" n s) w1 Hi1) as (Hi2 & _ & _). rewrite Eo in Hi2. cbn [fst] in Hi2.
      rewrite (bind_lift_ok _ _ w1). cbv beta iota. rewrite (bind_obs _ _ _ _ _ Eo).
      unfold EastWest.key_of. rewrite src_of_window by (try done; by apply scanned_prefix; scanned_tac).
      edestruct (cand_send_spec now) as (Hok & _ & _ & Hs & Hm); [exact Hi2|]. split_and!; [exact Hok| |intros _; exact Hm].
      destruct Hs as [Hs|Hs]; [exists []; rewrite app_nil_r, Hs; by split|].
      eexists; split; [rewrite Hs, Es; reflexivity|]. constructor; [|done]. split_and!; done.
    + split_and!; [done|exists []; by rewrite app_nil_r|intros; lia].
Qed.

(** A candidate that says what the history says. *)
Definition justified (now : Z) (ps : list N) (h : history) (tc : Z * candidate) : Prop :=
  tc.1 = now ∧ ∃ n s, n ∈ ps ∧ 5 <= reach now n s h ∧ cd_entities tc.2 = lateral_text s (reach now n s h).
(** A candidate with this detector and text is out in the bucket of [now]. *)
Definition out (now : Z) (detector text : string) (w : Wd) : Prop :=
  ∃ tc, tc ∈ w_sent w ∧ mark_key tc = emit_key TENANT stable detector text (bucket_of now).

Lemma visits_lat now h ps keys w :
  Forall (λ k, ∃ n s, n ∈ ps ∧ k = key_of "lat:" n s) keys →
  inv now w → lats (w_log w) = omap lat_entry h → int_ports h → no_colon TENANT = true →
  let r := for_each (visit' now lat_pass) keys w in
  r.2 = Ok tt ∧ inv now r.1 ∧
  (∃ new, w_sent r.1 = w_sent w ++ new ∧ Forall (justified now ps h) new) ∧
  (∀ n s, key_of "lat:" n s ∈ keys → 5 <= reach now n s h →
     out now "lateral_movement" (lateral_text s (reach now n s h)) r.1).
Proof.
  intros Hk. revert w. induction Hk as [|k keys (n & s & Hn & ->) _ IH]; intros w Hi El Hport HT; cbv zeta.
  { split_and!; [done..|exists []; by rewrite app_nil_r|by intros n s ?%elem_of_nil]. }
  cbn [for_each]. destruct (visit_lat now h w n s Hi El Hport HT) as (Hok & (new & Es & Hnew) & Hout).
  pose proof (keeps_visit now lat_pass (key_of "lat:" n s) w Hi) as (Hi1 & _ & _).
  pose proof (same_visit now lat_pass (key_of "lat:" n s) w) as El1. unfold same_log in El1.
  destruct (visit' now lat_pass (key_of "lat:" n s) w) as [w1 r1] eqn:Ev. cbn [fst snd] in *. subst r1.
  rewrite (bind_obs _ _ _ _ _ Ev). unfold id in El1. rewrite <- El1 in El.
  destruct (IH w1 Hi1 El Hport HT) as (Hok2 & Hi2 & (new2 & Es2 & Hnew2) & Hout2).
  split_and!; [done|done| |].
  - exists (new ++ new2). split; [by rewrite Es2, Es, app_assoc|]. apply Forall_app_2; [|done].
    eapply Forall_impl; [exact Hnew|]. intros tc (Ht & H5 & Hc). split; [done|]. by exists n, s.
  - intros n' s' Hin H5. apply elem_of_cons in Hin as [E|Hin]; [|by apply Hout2].
    apply window_key_inj in E as (_ & -> & ->); [|by apply scanned_prefix; scanned_tac..].
    destruct (Hout H5) as (tc & Htc & Hm). exists tc. split; [|done]. rewrite Es2. apply elem_of_app. by left.
Qed.

(** The other passes send nothing under this detector. *)
Definition adds_other (w w' : Wd) : Prop :=
  ∃ new, w_sent w' = w_sent w ++ new ∧ Forall (λ tc : Z * candidate, cd_detector tc.2 ≠ "lateral_movement") new.
#[local] Instance adds_other_preorder : PreOrder adds_other.
Proof.
  split; [intros w; exists []; by rewrite app_nil_r|]. intros a b c (l & El & Hl) (l' & El' & Hl').
  exists (l ++ l'). split; [by rewrite El', El, app_assoc|by apply Forall_app_2].
Qed.
Lemma other_on_store {A} (f : mem_store → mem_store * A) : frames adds_other (on_store f).
Proof. intros w. unfold on_store. destruct (f (w_store w)). exists []. by rewrite app_nil_r. Qed.
Lemma other_pass now pp : ps_detector pp.1 ≠ "lateral_movement" → frames adds_other (run_pass TENANT W enum_index stable dumps now pp).
Proof.
  intros Hne. apply (frames_bind adds_other); [apply other_on_store|]. intros keys. apply (frames_for_each adds_other).
  intros key. unfold visit. apply (frames_bind adds_other); [apply other_on_store|]. intros [|m ms]; [apply other_on_store|].
  apply (frames_bind adds_other); [apply (frames_lift adds_other)|]. intros [second|]; [|apply (frames_ret adds_other)].
  apply (frames_bind adds_other); [apply other_on_store|]. intros obs. unfold _cand.
  intros w. unfold bind at 1 2, seen_before, on_store. destruct (ws_step now (w_store w) _) as [st a]. cbn.
  destruct (match a with a_bool b => negb b | _ => true end); cbn.
  - exists []. by rewrite app_nil_r.
  - eexists [_]. split; [reflexivity|]. by constructor.
Qed.

Lemma evaluate_eq now flow raw dns :
  evaluate' now flow raw dns
  = bind (run_pass TENANT W enum_index stable dumps now (lat_pass, flow))
      (λ _, for_each (run_pass TENANT W enum_index stable dumps now) (tail (passes repr loads flow raw dns))).
Proof. done. Qed.

(** C13. Lateral movement is found exactly: from any reachable world, an evaluation that
    owns a partition leaves a lateral-movement candidate of this ten-minute bucket for
    every source that touched five or more distinct internal hosts on administration
    ports less than a window ago, with that number in it, and every candidate of that
    kind it sends says so truthfully. *)
Theorem lateral_movement_exact now h w ps raw dns :
  reached now h w → enum_index = true → no_colon TENANT = true → int_ports h →
  let w' := (evaluate' now (Some ps) raw dns w).1 in
  (∀ n s, n ∈ ps → 5 <= reach now n s h →
     ∃ tc, tc ∈ w_sent w' ∧ bucket_of tc.1 = bucket_of now ∧ cd_detector tc.2 = "lateral_movement" ∧
           digest stable (cd_entities tc.2) = digest stable (lateral_text s (reach now n s h))) ∧
  ∃ new, w_sent w' = w_sent w ++ new ∧
    Forall (λ tc, cd_detector tc.2 = "lateral_movement" → justified now ps h tc) new.
Proof using W_pos.
  intros Hr He HT Hport. cbv zeta. apply reached_inv in Hr as Hi. pose proof (reached_lats _ _ _ Hr) as El.
  assert (Hlat : scanned "lat:") by scanned_tac.
  rewrite evaluate_eq.
  destruct (scoped_ok now "lat:" (Some ps)) as [Hco Hmk].
  pose proof (keeps_on_store now (_scoped_keys enum_index now "lat:" (Some ps)) Hco Hmk w Hi) as (Hi1 & _ & _).
  assert (Ekeys : (_scoped_keys enum_index now "lat:" (Some ps) (w_store w)).2 = listed true now "lat:" ps w) by (by rewrite He).
  unfold on_store in *. cbn [ps_prefix lat_pass fst snd] in *.
  destruct (_scoped_keys enum_index now "lat:" (Some ps) (w_store w)) as [st1 keys] eqn:Esc. cbn [fst snd] in *. subst keys.
  set (keys := listed true now "lat:" ps w) in *. set (w1 := World st1 (w_sent w) (w_log w)) in *.
  assert (Hshape : Forall (λ k, ∃ n s, n ∈ ps ∧ k = key_of "lat:" n s) keys).
  { apply Forall_forall. intros k Hk. exact (indexed_shape now w "lat:" ps k Hi Hlat Hk). }
  destruct (visits_lat now h ps keys w1 Hshape Hi1 El Hport HT) as (Hok & _ & (new & Es & Hnew) & Hout).
  destruct (for_each (visit' now lat_pass) keys w1) as [w2 r2] eqn:E2. cbn [fst snd] in *. subst r2.
  assert (Epass : run_pass TENANT W enum_index stable dumps now (lat_pass, Some ps) w = (w2, Ok tt)).
  { unfold run_pass, bind, on_store. cbn [ps_prefix lat_pass fst snd]. by rewrite Esc. }
  rewrite (bind_obs _ _ _ _ _ Epass).
  assert (Hrest : frames adds_other (for_each (run_pass TENANT W enum_index stable dumps now)
     (tail (passes repr loads (Some ps) raw dns)))).
  { cbn [tail passes for_each]. repeat (apply (frames_bind adds_other); [apply other_pass; cbn; discriminate|intros _]).
    apply (frames_ret adds_other). }
  specialize (Hrest w2).
  destruct Hrest as (more & Em & Hmore). split.
  - intros n s Hn H5. destruct (Hout n s) as (tc & Htc & Hm); [|done|].
    + apply indexed_complete; try done. unfold nonempty.
      destruct (members_now now (key_of "lat:" n s) w) as [|m ms] eqn:Emem; [exfalso|done].
      pose proof (lat_score now h w n s Hi El Hport) as Hsc. rewrite Emem in Hsc. cbn in Hsc.
      rewrite (proj2 (Z.leb_le _ _) H5) in Hsc. done.
    + exists tc. rewrite Em. split; [apply elem_of_app; by left|]. unfold mark_key in Hm.
      by apply emit_key_inj in Hm as (-> & -> & ->).
  - exists (new ++ more). rewrite Em, Es. split; [by rewrite app_assoc|]. apply Forall_app_2.
    + eapply Forall_impl; [exact Hnew|]. done.
    + eapply Forall_impl; [exact Hmore|]. done.
Qed.

(** Records of one instant, newest first. *)
Definition fed (now : Z) (recs : list (N * dict)) : Wd :=
  foldr (λ pe w, act TENANT W enum_index ip_address stable dumps repr loads now (on_record pe.1 pe.2) w)
    (World ∅ [] []) recs.
Lemma reached_fed now recs : 0 <= now → reached now ((λ pe : N * dict, (now, pe.1, pe.2)) <$> recs) (fed now recs).
Proof.
  intros Hn. induction recs as [|[n e] recs IH]; [by constructor|]. cbn. by constructor.
Qed.
End facts.

(** ** Examples and witnesses *)

Fixpoint render (v : val) : string :=
  match v with
  | VNone => "null" | VBool b => if b then "true" else "false" | VInt z => pretty z | VFloat _ => "0.0" | VStr s => s
  | VList l => "[" +:+ join "," (List.map render l) +:+ "]"
  | VDict d => "{" +:+ join "," (List.map (λ kv : string * val, kv.1 +:+ ":" +:+ render kv.2) d) +:+ "}"
  end.
Definition demo_ip (v : val) : option bool :=
  match v with VStr s => if contains "." s then Some (starts_with "10." s) else None | _ => None end.
Definition demo_stable (s : string) : Z := Z.of_nat (String.length s).
Definition no_loads (_ : string) : res val := Raise ValueError.
Definition demo_flow (src dst : string) (port : Z) : dict :=
  [("event_type", VStr "flow"); ("timestamp", VStr "2026-03-01T12:00:00.500000+0000"); ("src_ip", VStr src);
   ("dest_ip", VStr dst); ("dest_port", VInt port)].
Definition spree : list (N * dict) :=
  (λ d, (3%N, demo_flow "10.0.0.9" d 445)) <$> ["10.0.0.1"; "10.0.0.2"; "10.0.0.3"; "10.0.0.4"; "10.0.0.5"; "10.0.0.1"].
Definition noon : Z := 1772366400000000.
Definition demo_world : world mem_store :=
  fed "default" 600000000 true demo_ip demo_stable render no_repr no_loads noon spree.
Definition demo_evaluate : M (world mem_store) unit :=
  evaluate "default" 600000000 true demo_stable render no_repr no_loads noon (Some [3%N; 5%N]) (Some []) (Some []).

Example spree_found :
  (λ tc : Z * candidate, (cd_id tc.2, cd_first_seen tc.2, cd_entities tc.2)) <$> w_sent (demo_evaluate demo_world).1
  = [("lateral_movement-67-2953944", "2026-03-01T12:00:00.500000Z",
      "[{type:ip,role:src,value:10.0.0.9},{type:count,internal_targets:5}]")].
Proof. vm_compute. reflexivity. Qed.
Example spree_found_once : length (w_sent (demo_evaluate (demo_evaluate demo_world).1).1) = 1%nat.
Proof. vm_compute. reflexivity. Qed.

(** A failed pre-authentication counts towards password spraying when Kerberos reports
    its code in decimal, not when it reports it in hexadecimal: the text is upper-cased
    before it is compared with [0x18]. *)
Definition demo_krb (code : string) : dict :=
  [("event_type", VStr "krb5"); ("src_ip", VStr "10.0.0.9");
   ("krb5", VDict [("error_code", VStr code); ("cname", VStr "alice")])].
Definition recorded (e : dict) : list string :=
  (λ x : Z * string * string, x.2)
    <$> w_log (_handle "default" 600000000 true demo_ip demo_stable render no_repr noon 0%N e (World (∅ : mem_store) [] [])).1.
Example preauth_codes : recorded (demo_krb "24") = ["alice"] ∧ recorded (demo_krb "0x18") = [].
Proof. vm_compute. split; reflexivity. Qed.

(** A service name that is a list makes every evaluation of its window raise, before the
    passes that come after. *)
Definition odd_krb : dict :=
  [("event_type", VStr "krb5"); ("src_ip", VStr "10.0.0.9"); ("krb5", VDict [("sname", VList [VStr "a"])])].
Definition load_odd (_ : string) : res val := Ok (VDict [("sname", VList [VStr "a"]); ("encryption", VNone)]).
Example odd_name_stops_evaluation :
  let w := fed "default" 600000000 true demo_ip demo_stable render no_repr load_odd noon
             ((0%N, odd_krb) :: ((λ d, (0%N, demo_krb "24")) <$> ["a"])) in
  (evaluate "default" 600000000 true demo_stable render no_repr load_odd noon (Some []) (Some [0%N]) (Some []) w).2
  = Raise TypeError.
Proof. vm_compute. reflexivity. Qed.

Lemma demo_reached :
  reached "default" 600000000 true demo_ip demo_stable render no_repr no_loads noon
    ((λ pe : N * dict, (noon, pe.1, pe.2)) <$> spree) demo_world.
Proof. apply reached_fed. unfold noon. lia. Qed.

Lemma window_members_exact_witness :
  NoDup (members_now noon (key_of "default" "lat:" 3%N "10.0.0.9") demo_world) ∧
  ∀ m, m ∈ members_now noon (key_of "default" "lat:" 3%N "10.0.0.9") demo_world ↔
       ∃ t, (t, key_of "default" "lat:" 3%N "10.0.0.9", m) ∈ w_log demo_world ∧ noon < t + 600000000.
Proof.
  apply (window_members_exact "default" 600000000 true ltac:(lia) demo_ip demo_stable render no_repr no_loads noon _ _
           "lat:" 3%N "10.0.0.9" demo_reached). apply mem_true. vm_compute. reflexivity.
Defined.

Lemma index_scan_agree_witness :
  key_of "default" "lat:" 3%N "10.0.0.9" ∈ listed true noon "lat:" [3%N; 5%N] demo_world ↔
  key_of "default" "lat:" 3%N "10.0.0.9" ∈ listed false noon "lat:" [3%N; 5%N] demo_world.
Proof.
  apply (index_scan_agree "default" 600000000 true ltac:(lia) demo_ip demo_stable render no_repr no_loads noon _ _
           "lat:" [3%N; 5%N] _ demo_reached); [reflexivity|apply mem_true; vm_compute; reflexivity|vm_compute; reflexivity].
Defined.

Lemma candidates_unique_witness :
  NoDup ((λ tc : Z * candidate, (cd_detector tc.2, digest demo_stable (cd_entities tc.2), bucket_of tc.1))
           <$> w_sent demo_world).
Proof.
  apply (candidates_unique "default" 600000000 true ltac:(lia) demo_ip demo_stable render no_repr no_loads noon _ _ demo_reached).
Defined.

Lemma demo_ports : int_ports demo_ip no_repr ((λ pe : N * dict, (noon, pe.1, pe.2)) <$> spree).
Proof. repeat (constructor; [intros _; by eexists|]). constructor. Qed.

Lemma lateral_movement_exact_witness :
  ∃ tc, tc ∈ w_sent (demo_evaluate demo_world).1 ∧ bucket_of tc.1 = bucket_of noon ∧ cd_detector tc.2 = "lateral_movement" ∧
        digest demo_stable (cd_entities tc.2)
        = digest demo_stable (lateral_text render "10.0.0.9"
            (reach 600000000 demo_ip no_repr noon 3%N "10.0.0.9" ((λ pe : N * dict, (noon, pe.1, pe.2)) <$> spree))).
Proof.
  apply (lateral_movement_exact "default" 600000000 true ltac:(lia) demo_ip demo_stable render no_repr no_loads noon _ _
           [3%N; 5%N] (Some []) (Some []) demo_reached); [reflexivity|reflexivity|exact demo_ports|left|].
  apply Z.leb_le. vm_compute. reflexivity.
Defined.
