(* ===== verification/BehavioralScores.v ===== *)
(** * Scores of the behavioral detectors (services/behavioral-detectors/detectors.py)

    What windows of connections, queries and volumes are worth.  Floats are binary64;
    [round3] is [round(x, 3)], [fsum] is [sum] on floats, [log2] is [math.log2], and
    [ip_address] the standard parser, with [None] for text that is no address and
    otherwise whether the address is private or link-local.  [extra], [beacon_extra]
    and [exfil_allow] are the operator's prefix lists. *)

From S2P Require Import Prelude Order PyVal PyString OrderedMap Json NdpiPolicy.
Set Default Proof Using "Type".

Definition f0 : float := lit "0.0".
Definition f1 : float := lit "1.0".
Definition f2 : float := lit "2.0".
Definition half : float := lit "0.5".
(** [float(n)] for the counts that occur here. *)
Definition of_int (n : Z) : float := binary_normalize 53 1024 n 0 false.
Definition of_len {A} (l : list A) : float := of_int (Z.of_nat (length l)).

(** ** Addresses *)

Definition PRIVATE_PREFIXES : list string :=
  ["10."; "192.168."; "172.16."; "172.17."; "172.18."; "172.19."; "172.20."; "172.21."; "172.22."; "172.23."; "172.24.";
   "172.25."; "172.26."; "172.27."; "172.28."; "172.29."; "172.30."; "172.31."; "127."; "169.254."; "fe80:"].
Definition _BEACON_ALLOW : list string := ["1.1.1.1"; "1.0.0.1"; "8.8.8.8"; "8.8.4.4"; "9.9.9.9"; "149.112.112.112"].
Definition CDN_PREFIXES : list string :=
  ["104.16."; "104.17."; "104.18."; "104.19."; "104.20."; "104.21."; "104.22."; "104.23."; "104.24."; "104.25."; "104.26.";
   "104.27."; "172.64."; "172.65."; "172.66."; "172.67."; "172.68."; "172.69."; "172.70."; "172.71."; "2606:4700";
   "151.101."; "146.75."; "199.232."; "2a04:4e42";
   "142.250."; "142.251."; "172.217."; "216.58."; "172.253."; "74.125."; "2607:f8b0"; "17."; "2620:149";
   "23.32."; "23.33."; "23.34."; "23.35."; "23.192."; "23.193."; "2.16."; "2.17."].
Definition has_prefix (ps : list string) (ip : string) : bool := existsb (λ p, starts_with p ip) ps.

Definition is_multicast (ip : string) : bool :=
  if negb (str_truthy ip) then false
  else if String.eqb (lower (take_chars 2 ip)) "ff" then true
  else match parse_int (default "" (head (split_char "." ip))) with
       | Some o => between 224 239 o || (o =? 255)
       | None => false
       end.

Section addresses.
Context (extra beacon_extra exfil_allow : list string) (ip_address : string → option bool).

Definition is_external (ip : string) : bool :=
  if negb (str_truthy ip) || is_multicast ip then false
  else if has_prefix (PRIVATE_PREFIXES ++ extra) ip then false
  else if contains ":" ip then match ip_address ip with Some inside => negb inside | None => false end
  else true.
Definition beacon_noise_dst (ip : string) : bool :=
  is_multicast ip || mem ip (_BEACON_ALLOW ++ beacon_extra) || has_prefix CDN_PREFIXES ip.

(** ** Volumes, durations, counts *)

Context (round3 : float → float).
(** [round(min(1.0, a / b), 3)] *)
Definition share (a b : float) : float := round3 (fmin f1 (fdiv a b)).

Definition strobe_check (n_conns : Z) (dst_ip : string) (is_beacon : bool) (min_conns : Z) : bool * float :=
  if is_beacon || negb (is_external dst_ip) || (n_conns <? min_conns) then (false, f0)
  else (true, share (of_int n_conns) (fmul (of_int min_conns) (lit "4.0"))).
Definition longconn_check (duration : float) (dst_ip : string) (threshold : float) : bool * float :=
  if negb (is_external dst_ip) || SFltb duration threshold then (false, f0)
  else (true, share duration (fmul threshold (lit "6"))).
Definition longconn_cumulative_check (total : float) (n_conns : Z) (dst_ip : string) (threshold : float) (min_conns : Z) :
    bool * float :=
  if negb (is_external dst_ip) || (n_conns <? min_conns) || SFltb total threshold then (false, f0)
  else (true, share total (fmul threshold (lit "6"))).
Definition is_rare_dest (known_dsts : list string) (dst_ip : string) (min_history : Z) : bool :=
  is_external dst_ip && (min_history <=? Z.of_nat (length known_dsts)) && negb (mem dst_ip known_dsts).
Definition exfil_check (bytes_to_server : Z) (dst_ip : string) (threshold_bytes : Z) : bool * float :=
  if negb (is_external dst_ip) then (false, f0)
  else if has_prefix exfil_allow dst_ip then (false, f0)
  else if bytes_to_server <? threshold_bytes then (false, f0)
  else (true, round3 (fmin f1 (ratio bytes_to_server (threshold_bytes * 4)))).
Definition low_slow_exfil (bytes_to_server conn_count : Z) (dst_ip : string) (low_floor threshold_bytes min_conns : Z)
    (material_flows : option Z) (min_material_flows : Z) : bool * float :=
  if negb (is_external dst_ip) then (false, f0)
  else if has_prefix exfil_allow dst_ip then (false, f0)
  else if threshold_bytes <=? bytes_to_server then (false, f0)
  else if (bytes_to_server <? low_floor) || (conn_count <? min_conns) then (false, f0)
  else if match material_flows with Some m => m <? min_material_flows | None => false end then (false, f0)
  else (true, round3 (fmin f1 (ratio conn_count (min_conns * 5)))).
End addresses.

(** ** Statistics *)

Fixpoint insert_float (x : float) (l : list float) : list float :=
  match l with [] => [x] | y :: l' => if SFltb y x then y :: insert_float x l' else x :: l end.
(** [sorted(xs)] of floats that are numbers. *)
Definition sorted_floats (l : list float) : list float := foldr insert_float [] l.
Definition nth_float (i : nat) (l : list float) : float := default f0 (l !! i).
(** [zip(ts, ts[1:])] *)
Fixpoint gaps (ts : list float) : list (float * float) :=
  match ts with a :: (b :: _) as ts' => (a, b) :: gaps ts' | _ => [] end.

Section stats.
Context (round3 : float → float) (fsum : list float → float) (log2 : float → float).

Definition _median (xs : list float) : float :=
  let s := sorted_floats xs in
  let n := length s in
  let m := (n / 2)%nat in
  match s with
  | [] => f0
  | _ => if Nat.odd n then nth_float m s else fdiv (fadd (nth_float (m - 1) s) (nth_float m s)) f2
  end.
Definition _quartiles (xs : list float) : float * float * float :=
  let s := sorted_floats xs in
  let n := length s in
  if (n <? 2)%nat then let v := nth_float 0 s in (v, v, v)
  else
    let m := (n / 2)%nat in
    let upper := if Nat.odd n then drop (m + 1) s else drop m s in
    (_median (take m s), _median s, _median upper).
Definition _bowley_skew_score (xs : list float) : float :=
  let '(q1, q2, q3) := _quartiles xs in
  let denom := fsub q3 q1 in
  if SFeqb denom f0 then f1
  else fmax f0 (fsub f1 (SFabs (fdiv (fsub (fadd q3 q1) (fmul f2 q2)) denom))).
Definition _madm_score (xs : list float) : float :=
  let med := _median xs in
  if SFleb med f0 then f0
  else fmax f0 (fsub f1 (fmin (fdiv (_median ((λ x, SFabs (fsub x med)) <$> xs)) med) f1)).
Definition _count_score (n target : Z) : float :=
  if 0 <? target then fmax f0 (fmin f1 (fdiv (of_int n) (of_int target))) else f1.
Definition _regularity (xs : list float) : float :=
  match xs with
  | [] => f0
  | _ => fadd (fmul half (_bowley_skew_score xs)) (fmul half (_madm_score xs))
  end.

(** ** Beacons *)

Definition intervals_of (ts : list float) : list float :=
  omap (λ ab : float * float, if SFltb ab.1 ab.2 then Some (fsub ab.2 ab.1) else None) (gaps ts).
(** Half and half with the regularity of the payload sizes, when there are enough. *)
Definition blend (reg : float) (sizes : list float) (min_conns : Z) : float :=
  match sizes with
  | [] => reg
  | _ => if min_conns <=? Z.of_nat (length sizes) then fadd (fmul half reg) (fmul half (_regularity sizes)) else reg
  end.
(** [round((2.0 * reg + cnt) / 3.0, 3)] *)
Definition combined (reg cnt : float) : float := round3 (fdiv (fadd (fmul f2 reg) cnt) (lit "3.0")).
Definition beacon_score (timestamps sizes : list float) (min_conns : Z) (threshold : float) (count_target : Z) :
    bool * float :=
  let ts := sorted_floats timestamps in
  if Z.of_nat (length ts) <? min_conns then (false, f0)
  else
    let intervals := intervals_of ts in
    match intervals with
    | [] => (false, f0)
    | _ =>
        if SFleb (_median intervals) f0 then (false, f0)
        else
          let reg := blend (_regularity intervals) sizes min_conns in
          let score := combined reg (_count_score (Z.of_nat (length ts)) count_target) in
          (SFleb threshold score, score)
    end.

(** The knobs of the autocorrelation. *)
Record acorr := {
  ac_min_conns : Z; ac_min_cycles : float; ac_max_lag_fraction : float; ac_bins_per_period : Z; ac_max_bins : Z
}.
Definition acorr_valid (p : acorr) (ts : list float) : bool :=
  forallb is_finite ts && is_finite (ac_min_cycles p) && SFleb (lit "3") (ac_min_cycles p) &&
  is_finite (ac_max_lag_fraction p) && SFltb f0 (ac_max_lag_fraction p) && SFleb (ac_max_lag_fraction p) half &&
  (4 <=? ac_max_bins p) && (ac_max_bins p <=? 512) && (0 <? ac_bins_per_period p) && (2 <=? ac_min_conns p).
Definition _HARMONIC_TOL : float := lit "0.25".
(** [int(f)] of a float already known to be finite. *)
Definition to_int (f : float) : Z := match Z_of_float f with Ok z => z | Raise _ => 0 end.

Definition diffs (ts : list float) : list float := (λ ab : float * float, fsub ab.2 ab.1) <$> gaps ts.
(** The event counts per bin: an event past the last bin falls into it. *)
Definition bin_of (origin bin_secs : float) (n_bins : nat) (t : float) : nat :=
  Z.to_nat (Z.min (to_int (fdiv (fsub t origin) bin_secs)) (Z.of_nat n_bins - 1)).
Definition bin_counts (origin bin_secs : float) (n_bins : nat) (ts : list float) : list Z :=
  foldl (λ counts t, alter (Z.add 1) (bin_of origin bin_secs n_bins t) counts) (replicate n_bins 0) ts.
Definition acf_at (c : list float) (denom : float) (lag : nat) : float :=
  fdiv (fsum ((λ ab : float * float, fmul ab.1 ab.2) <$> zip c (drop lag c))) denom.
(** [max(acf)] and the index of its first occurrence. *)
Fixpoint peak_onto (best : float * nat) (i : nat) (acf : list float) : float * nat :=
  match acf with
  | [] => best
  | x :: acf => peak_onto (if SFltb best.1 x then (x, i) else best) (S i) acf
  end.
Definition peak_of (acf : list float) : option (float * nat) :=
  match acf with [] => None | x :: acf => Some (peak_onto (x, 0%nat) 1 acf) end.
(** The smallest proper divisor of the lag whose correlation is near the peak. *)
Definition fundamental (acf : list float) (peak : float) (lag : nat) : nat :=
  default lag (find (λ sub, (lag mod sub =? 0)%nat && SFleb (fmul peak _HARMONIC_TOL) (nth_float (sub - 1) acf))
                 (seq 1 (lag - 1))).

Definition autocorr_of (p : acorr) (ts : list float) (origin bin_secs : float) (n_bins : nat) : float * float * float :=
  let none := (f0, f0, bin_secs) in
  if Z.of_nat (length ts) <? ac_min_conns p then none
  else
    let counts := bin_counts origin bin_secs n_bins ts in
    let mean := fdiv (of_int (foldr Z.add 0 counts)) (of_int (Z.of_nat n_bins)) in
    let c := (λ v, fsub (of_int v) mean) <$> counts in
    let denom := fsum ((λ v, fmul v v) <$> c) in
    if SFleb denom f0 then none
    else
      let first := default f0 (head ts) in
      let last := default f0 (last ts) in
      let max_lag := Z.min (to_int (fmul (of_int (Z.of_nat n_bins)) (ac_max_lag_fraction p)))
                           (to_int (fdiv (fdiv (fsub last first) bin_secs) (ac_min_cycles p))) in
      if max_lag <? 1 then none
      else
        let acf := (λ lag, acf_at c denom lag) <$> seq 1 (Z.to_nat max_lag) in
        match peak_of acf with
        | None => none
        | Some (peak, i) =>
            if SFleb peak f0 then none
            else
              let lag := fundamental acf peak (i + 1) in
              (fmul (of_int (Z.of_nat lag)) bin_secs, round3 (fmin f1 peak), bin_secs)
        end.

(** The grid of bins: their number, where it starts and the events it covers. *)
Definition grid (p : acorr) (ts : list float) (span bin_secs : float) : nat * float * list float :=
  let n := to_int (fdiv span bin_secs) + 1 in
  if ac_max_bins p <? n then
    let origin := fsub (default f0 (last ts)) (fmul (of_int (ac_max_bins p - 1)) bin_secs) in
    (Z.to_nat (ac_max_bins p), origin, List.filter (λ t, SFleb origin t) ts)
  else (Z.to_nat n, default f0 (head ts), ts).
Definition autocorr_period (p : acorr) (timestamps : list float) : float * float * float :=
  let none := (f0, f0, f0) in
  let ts := sorted_floats timestamps in
  if negb (acorr_valid p ts) || (Z.of_nat (length ts) <? Z.max 2 (ac_min_conns p)) then none
  else
    let intervals := diffs ts in
    match intervals with
    | [] => none
    | _ =>
        if SFleb (_median intervals) f0 then none
        else
          let base_interval := (_quartiles intervals).1.1 in
          let span := fsub (default f0 (last ts)) (default f0 (head ts)) in
          if SFleb base_interval f0 || SFleb span f0 || negb (is_finite span) then none
          else
            let bin_secs := fdiv base_interval (of_int (ac_bins_per_period p)) in
            if SFleb bin_secs f0 || negb (is_finite (fdiv span bin_secs)) then none
            else
              let '(n_bins, origin, ts) := grid p ts span bin_secs in
              autocorr_of p ts origin bin_secs n_bins
    end.

Definition beacon_autocorr (p : acorr) (timestamps sizes : list float) (threshold : float) (count_target : Z)
    (min_strength : float) : bool * float * float :=
  let '(period, strength, _) := autocorr_period p timestamps in
  if SFleb period f0 then (false, f0, f0)
  else
    let score := combined (blend strength sizes (ac_min_conns p)) (_count_score (Z.of_nat (length timestamps)) count_target) in
    (SFleb min_strength strength && SFleb threshold score, score, period).

Definition fqdn_beacon (timestamps sizes : list float) (n_distinct_ips min_ips min_conns : Z) (threshold : float)
    (count_target : Z) : bool * float :=
  if n_distinct_ips <? min_ips then (false, f0) else beacon_score timestamps sizes min_conns threshold count_target.

(** ** DNS *)

Definition shannon_entropy (s : string) : float :=
  let cs := list_ascii_of_string s in
  match cs with
  | [] => f0
  | _ =>
      let share c := ratio (Z.of_nat (length (List.filter (Ascii.eqb c) cs))) (Z.of_nat (length cs)) in
      SFopp (fsum ((λ c, fmul (share c) (log2 (share c))) <$> remove_dups cs))
  end.
Definition dns_tunnel_score (qnames : list string) (min_queries : Z) (len_threshold entropy_threshold : float) :
    bool * float :=
  let n := Z.of_nat (length qnames) in
  if n <? min_queries then (false, f0)
  else
    let avg_len := ratio (foldr Z.add 0 ((λ q, Z.of_nat (String.length q)) <$> qnames)) n in
    let avg_ent := fdiv (fsum (shannon_entropy <$> qnames)) (of_int n) in
    (SFltb len_threshold avg_len || SFltb entropy_threshold avg_ent,
     round3 (fmin f1 (fadd (fmul (fdiv avg_len (lit "60.0")) half) (fmul (fdiv avg_ent (lit "4.5")) half)))).
End stats.

Definition _TWO_LEVEL_SUFFIXES : list string :=
  ["co.uk"; "org.uk"; "gov.uk"; "ac.uk"; "co.jp"; "com.au"; "net.au"; "org.au"; "co.nz"; "com.br"; "com.cn"; "com.mx";
   "co.za"; "co.in"; "co.kr"].
(** [q.rstrip(".").lower()] *)
Definition bare (q : string) : string := lower (rev_string (lstrip (Ascii.eqb ".") (rev_string q))).
Definition last_labels (n : nat) (labels : list string) : string := join "." (drop (length labels - n) labels).
Definition registered_parent (qname : string) : string :=
  let labels := split_char "." (bare qname) in
  if (length labels <? 2)%nat then qname
  else if (3 <=? length labels)%nat && mem (last_labels 2 labels) _TWO_LEVEL_SUFFIXES then last_labels 3 labels
  else last_labels 2 labels.

(** Distinct names below each registered domain, domains in the order they appear. *)
Definition add_subdomain (by_parent : list (string * list string)) (q : string) : list (string * list string) :=
  let p := registered_parent q in
  if negb (str_truthy p) || String.eqb p (bare q) then by_parent
  else
    let subs := default [] (od_get p by_parent) in
    od_set p (if mem (bare q) subs then subs else subs ++ [bare q]) by_parent.
Definition dns_exploded_score (round3 : float → float) (qnames : list string) (min_subdomains : Z) : bool * float * string :=
  match max_by (λ kv : string * list string, Z.of_nat (length kv.2)) (foldl add_subdomain [] qnames) with
  | None => (false, f0, "")
  | Some (parent, subs) =>
      let n := Z.of_nat (length subs) in
      if n <? min_subdomains then (false, f0, "") else (true, round3 (fmin f1 (ratio n (min_subdomains * 4))), parent)
  end.

(** ** nDPI risks, the legacy path *)

Definition HIGH_NDPI_RISKS : list string :=
  ["malicious"; "suspicious dga"; "dga domain"; "self-signed"; "malformed"; "clear-text credential"; "cleartext";
   "known proto on non std port"; "binary application transfer"; "susp"; "possible exploit"; "obfuscated";
   "tls certificate expired"; "tls suspicious"; "punycode"; "anonymous subscriber"].
Definition _MALICIOUS_RISK_HINTS : list string :=
  ["malicious"; "suspicious"; "dga"; "exploit"; "obfuscated"; "anonymous"; "self-signed"; "clear-text"; "cleartext"].
Definition _DANGEROUS_BREEDS : list string := ["dangerous"; "potentially dangerous"; "unsafe"].
Definition _SAFE_BREEDS : list string := ["safe"; "acceptable"].

(** A risk as the legacy path keeps it: only the fields the sensor sent. *)
Definition risk_fields (e : risk_entry) : dict :=
  let field k o := match o with Some s => [(k, VStr s)] | None => [] end in
  field "id" (e_id e) ++ field "name" (e_name e) ++ field "severity" (e_severity e)
  ++ match e_score e with [] => [] | sc => [("score", VDict sc)] end.
Definition ndpi_risks (repr : val → string) (ndpi : val) : list dict :=
  match ndpi with
  | VDict d =>
      let risk := dgetN "risk" d in
      List.filter (λ r, match r with [] => false | _ => true end)
        (risk_fields <$> parse_risk_value repr (py_or risk (dgetN "flow_risk" d))
                           (if truthy risk then "risk" else "flow_risk") None)
  | _ => []
  end.
Definition text_field (r : dict) (k : string) : string :=
  match dgetN k r with VStr s => s | _ => "" end.
Definition _risk_text (r : dict) : string := lower (text_field r "name" +:+ " " +:+ text_field r "severity").
Definition risk_matches (hints : list string) (r : dict) : bool := existsb (λ h, contains h (_risk_text r)) hints.
Definition ndpi_risk_hit (risk_set : list dict) : bool * list string :=
  let matched := (λ r, if str_truthy (text_field r "name") then text_field r "name" else text_field r "id")
                   <$> List.filter (risk_matches HIGH_NDPI_RISKS) risk_set in
  (match matched with [] => false | _ => true end, matched).
Definition ndpi_breed_hit (breed : string) : bool := str_truthy breed && mem (lower breed) RISKY_BREEDS.
Definition _malicious_risk (risks : list dict) : bool := existsb (risk_matches _MALICIOUS_RISK_HINTS) risks.
(** The order of the canonical text of each risk; risks with equal texts are equal. *)
Definition sorted_risks (dumps : val → string) (risks : list dict) : list dict :=
  isort (λ r, dumps (canon (VDict r))) risks.

(** ** Severity *)

Definition dst_threat_score (ndpi_breed : string) (ndpi_risks : list dict) (ti_hit dga : bool) : Z :=
  let breed := lower ndpi_breed in
  if ti_hit || dga || _malicious_risk ndpi_risks || mem breed _DANGEROUS_BREEDS then 2
  else if mem breed _SAFE_BREEDS && match ndpi_risks with [] => true | _ => false end then -2
  else 0.
Definition env_prevalence_delta (env_assets : option Z) (rare_max common_min : Z) : Z :=
  match env_assets with
  | None => 0
  | Some n => if n <=? rare_max then 1 else if common_min <=? n then -1 else 0
  end.
Definition gated_severity (base : Z) (ndpi_breed : string) (ndpi_risks : list dict) (ti_hit dga : bool)
    (env_assets : option Z) : Z :=
  Z.max 1 (Z.min 10 (base + (dst_threat_score ndpi_breed ndpi_risks ti_hit dga + env_prevalence_delta env_assets 2 8))).
