(* ===== verification/BehavioralConfig.v ===== *)
(** * Managed configuration (services/behavioral-detectors/config_source.py)

    Detector thresholds and allow lists arrive as documents on a compacted topic; each
    one is merged onto the defaults and replaces the snapshot the detectors read.
    [repr] is Python's [repr] of a value. *)

From S2P Require Import Prelude Order PyVal PyString OrderedMap.
Set Default Proof Using "Type".

Definition DEFAULTS : dict :=
  [("beacon_threshold", VFloat (lit "0.80")); ("beacon_count_target", VInt 12); ("strobe_min_conns", VInt 90);
   ("exfil_bytes", VInt 50000000); ("dns_min_queries", VInt 50); ("dns_len_threshold", VFloat (lit "40.0"));
   ("dns_entropy_threshold", VFloat (lit "3.5")); ("exploded_min_subdomains", VInt 30);
   ("longconn_cum_secs", VNone); ("longconn_cum_min_conns", VInt 4); ("beacon_allowlist", VList []);
   ("exfil_allowlist", VList [])].
Definition _ALLOWED_KEYS : list string := od_keys DEFAULTS.

Section merge.
Context (repr : val → string).

Definition is_number (v : val) : bool := match v with VInt _ | VFloat _ | VBool _ => true | _ => false end.
Definition none_or_number (v : val) : bool := match v with VNone => true | _ => is_number v end.
Definition is_bool (v : val) : bool := match v with VBool _ => true | _ => false end.
(** [type(default)(v)] for a number that is no boolean. *)
Definition cast_like (default v : val) : res val :=
  match default with VFloat _ => VFloat <$> py_float v | _ => VInt <$> py_int v end.
Definition merge_key (merged : dict) (kv : string * val) : res dict :=
  match dget kv.1 DEFAULTS with
  | None => Ok merged
  | Some (VList _) =>
      Ok match kv.2 with VList l => dset kv.1 (VList ((λ x, VStr (py_str repr x)) <$> l)) merged | _ => merged end
  | Some VNone => Ok (if none_or_number kv.2 then dset kv.1 kv.2 merged else merged)
  | Some d =>
      if is_number kv.2 && negb (is_bool kv.2) then v ← cast_like d kv.2; Ok (dset kv.1 v merged) else Ok merged
  end.
Fixpoint fold_res {A B} (f : B → A → res B) (b : B) (xs : list A) : res B :=
  match xs with [] => Ok b | x :: xs => b ← f b x; fold_res f b xs end.
Definition _validate_and_merge (doc : val) : res dict :=
  match py_or doc (VDict []) with
  | VDict d => fold_res merge_key DEFAULTS d
  | _ => Raise AttributeError
  end.

(** The allow lists in force: the built-in ones, captured once, and the configured ones. *)
Definition strings_of (v : val) : list string :=
  match v with VList l => omap (λ x, match x with VStr s => Some s | _ => None end) l | _ => [] end.
Definition apply_allowlists (base_beacon base_exfil : list string) (snap : dict) : list string * list string :=
  (remove_dups (base_beacon ++ strings_of (dgetN "beacon_allowlist" snap)),
   isort id (remove_dups (base_exfil ++ strings_of (dgetN "exfil_allowlist" snap)))).

(** The reader thread: the document of each message ([None]: not JSON), the snapshot, and
    whether the thread still runs. *)
Record reader := { rd_snapshot : dict; rd_running : bool }.
Definition start : reader := {| rd_snapshot := DEFAULTS; rd_running := true |}.
Definition receive (r : reader) (doc : option val) : reader :=
  if rd_running r then
    match doc with
    | None => r
    | Some d =>
        match _validate_and_merge d with
        | Ok merged => {| rd_snapshot := merged; rd_running := true |}
        | Raise _ => {| rd_snapshot := rd_snapshot r; rd_running := false |}
        end
    end
  else r.
Definition received (docs : list (option val)) : reader := foldl receive start docs.

(** ** Facts *)

(** The type a setting has: that of its default. *)
Definition same_type (default v : val) : bool :=
  match default, v with
  | VFloat _, VFloat _ | VInt _, VInt _ | VNone, VNone => true
  | VNone, v => is_number v
  | VList _, VList l => forallb is_str l
  | _, _ => false
  end.
Definition well_typed (snap : dict) : Prop :=
  od_keys snap = _ALLOWED_KEYS ∧ ∀ k d, dget k DEFAULTS = Some d → ∃ v, dget k snap = Some v ∧ same_type d v = true.

Lemma put_keys k v (m : dict) : dhas k m = true → od_keys (dset k v m) = od_keys m.
Proof.
  unfold dhas. induction m as [|[k' v'] m IH]; [done|]. simpl. destruct (String.eqb k k'); [done|].
  intros H. change (k' :: od_keys (dset k v m) = k' :: od_keys m). f_equal. by apply IH.
Qed.

Lemma dget_keys k (m m' : dict) : od_keys m = od_keys m' → dhas k m = dhas k m'.
Proof.
  unfold dhas. revert m'. induction m as [|[a x] m IH]; intros [|[b y] m'] H; try done.
  injection H as -> H. simpl. destruct (String.eqb k b); [done|]. by apply IH.
Qed.

Lemma well_typed_set snap k d v :
  well_typed snap → dget k DEFAULTS = Some d → same_type d v = true → well_typed (dset k v snap).
Proof.
  intros [Hk Hv] Hd Ht. split.
  - rewrite put_keys; [done|]. rewrite (dget_keys k snap DEFAULTS) by done. unfold dhas. by rewrite Hd.
  - intros k' d' Hd'. destruct (decide (k' = k)) as [->|Hne].
    + exists v. rewrite dget_dset_eq. split; [done|]. by simplify_eq.
    + rewrite dget_dset_ne by done. by apply Hv.
Qed.

Lemma dget_forall (p : val → bool) k d (m : dict) : forallb (λ kv, p kv.2) m = true → dget k m = Some d → p d = true.
Proof.
  induction m as [|[k' v'] m IH]; [done|]. simpl. intros [Hp Hm]%andb_true_iff.
  destruct (String.eqb k k'); [by intros [= <-]|by apply IH].
Qed.

Lemma defaults_typed : well_typed DEFAULTS.
Proof.
  split; [done|]. intros k d Hd. exists d. split; [done|].
  apply (dget_forall (λ d, same_type d d) k d DEFAULTS); [vm_compute; reflexivity|done].
Qed.
Lemma default_kinds k d :
  dget k DEFAULTS = Some d → match d with VNone | VInt _ | VFloat _ | VList _ => true | _ => false end = true.
Proof. apply (dget_forall (λ d, match d with VNone | VInt _ | VFloat _ | VList _ => true | _ => false end)). vm_compute. reflexivity. Qed.

Lemma merge_key_typed snap kv snap' : well_typed snap → merge_key snap kv = Ok snap' → well_typed snap'.
Proof.
  intros Hs. unfold merge_key. destruct (dget kv.1 DEFAULTS) as [d|] eqn:Ed; [|by intros [= <-]].
  pose proof (default_kinds _ _ Ed) as Hk.
  assert (Hnum : ∀ r, (∀ v, cast_like d kv.2 = Ok v → same_type d v = true) →
    (if is_number kv.2 && negb (is_bool kv.2) then v ← cast_like d kv.2; Ok (dset kv.1 v snap) else Ok snap) = Ok r →
    well_typed r).
  { intros r Hc. destruct (is_number kv.2 && negb (is_bool kv.2)); [|by intros [= <-]].
    intros (v & Hv & [= <-])%bind_ok_inv. eapply well_typed_set; [done|exact Ed|by apply Hc]. }
  destruct d as [| |z|f| |l|]; try done.
  - intros [= <-]. destruct (none_or_number kv.2) eqn:En; [|done].
    eapply well_typed_set; [done|exact Ed|]. revert En. by destruct kv.2.
  - apply Hnum. intros v. cbn. destruct (py_int kv.2); [|done]. by intros [= <-].
  - apply Hnum. intros v. cbn. destruct (py_float kv.2); [|done]. by intros [= <-].
  - intros [= <-]. destruct kv.2 as [| | | | |l'|]; try done. eapply well_typed_set; [done|exact Ed|]. simpl.
    apply forallb_forall. intros x Hx. apply in_map_iff in Hx as (y & <- & _). done.
Qed.

Lemma merge_typed doc snap : _validate_and_merge doc = Ok snap → well_typed snap.
Proof.
  unfold _validate_and_merge. destruct (py_or doc (VDict [])) as [| | | | | |d]; try done.
  pose proof defaults_typed as H. revert H. generalize DEFAULTS as m.
  induction d as [|kv d IH]; intros m Hm; cbn; [by intros [= <-]|].
  intros (m' & H1 & H2)%bind_ok_inv. apply (IH m'); [|done]. by eapply merge_key_typed.
Qed.

(** Whatever documents arrive, and whether or not one of them stops the reader, the
    snapshot the detectors read always has exactly the known settings, each with the
    type of its default. *)
Theorem snapshot_well_typed docs : well_typed (rd_snapshot (received docs)).
Proof.
  unfold received. assert (H : well_typed (rd_snapshot start)) by apply defaults_typed.
  revert H. generalize start as r. induction docs as [|doc docs IH]; intros r Hr; [done|]. cbn. apply IH.
  unfold receive. destruct (rd_running r); [|done]. destruct doc as [d|]; [|done].
  destruct (_validate_and_merge d) eqn:E; [|done]. by eapply merge_typed.
Qed.
End merge.

(** A document with an infinite bound, or one that is no object, ends the reader: later
    documents are not applied. *)
Example infinite_bound_stops_reader :
  let inf := VDict [("exfil_bytes", VFloat (S754_infinity false))] in
  let good := VDict [("exfil_bytes", VInt 7)] in
  dget "exfil_bytes" (rd_snapshot (received (λ _, "") [Some inf; Some good])) = Some (VInt 50000000) ∧
  dget "exfil_bytes" (rd_snapshot (received (λ _, "") [Some (VList [VInt 1]); Some good])) = Some (VInt 50000000) ∧
  dget "exfil_bytes" (rd_snapshot (received (λ _, "") [None; Some good])) = Some (VInt 7).
Proof. vm_compute. split_and!; reflexivity. Qed.
