(* ===== verification/Behavioral.v ===== *)
(** * Behavioral detectors (services/behavioral-detectors/app.py)

    Flow and DNS records become writes of windows, per-flow fields and first-seen sets,
    buffered per polled batch and flushed in one pipeline; a periodic evaluation of the
    partitions a replica owns reads them back and sends candidate findings.

    A record or an evaluation reads the clock once, in microseconds; flow ages are whole
    seconds.  Numbers kept in a window are their decimal text.  [stable], [sha1] and
    [sha256] are hashes of texts, [dumps] and [loads] those of [json]; the other
    parameters are those of the scores. *)

From S2P Require Import Prelude Order PyVal PyString OrderedMap PyTime IsoTime Json WindowStore PartitionKeys NdpiPolicy BehavioralScores.
Set Default Proof Using "Type".

(** The thresholds in force, as the snapshot of the managed configuration has them. *)
Record config := {
  c_beacon_threshold : float; c_beacon_count_target : Z; c_strobe_min_conns : Z; c_exfil_bytes : Z;
  c_dns_min_queries : Z; c_dns_len_threshold : float; c_dns_entropy_threshold : float;
  c_exploded_min_subdomains : Z; c_longconn_cum_secs : option float; c_longconn_cum_min_conns : Z
}.
(** The settings of the process environment. *)
Record settings := {
  TENANT : string; WINDOW : Z; CUM_LONGCONN_SECS : float; STRUCTURED : bool; I2D_TTL : Z; I2D_NEG_TTL : Z;
  I2D_CACHE_MAX : Z; FQDN_BEACON_MIN_IPS : Z; AUTOCORR : bool; AUTOCORR_KW : acorr; AUTOCORR_THRESHOLD : float;
  AUTOCORR_COUNT_TARGET : Z; AUTOCORR_MIN_STRENGTH : float; FLOW_CAP : Z; ENUM_INDEX : bool;
  EXTRA_INTERNAL : list string; BEACON_ALLOW : list string; EXFIL_ALLOW : list string
}.
Definition EX_PFX : string := "exf:".
Definition LC_PFX : string := "lcf:".
Definition EXFIL_MATERIAL_FLOW_BYTES : Z := 100000.

Record candidate := {
  cd_id : string; cd_tenant : string; cd_detector : string; cd_version : string; cd_category : string;
  cd_severity : Z; cd_confidence : float; cd_first_seen : string; cd_last_seen : string; cd_observed : bool;
  cd_emitted_at : string; cd_entities : string
}.
(** The world: the store, the buffered writes, the read-through cache of resolved domains
    (value, time put, time to live), the candidates sent with their times, and the time of
    the last evaluation. *)
Record world S := World {
  w_store : S; w_pending : list batch_op; w_cache : list (string * (option val * Z * Z)); w_sent : list (Z * candidate);
  w_rare : Z
}.
Arguments World {S}.
Arguments w_store {S}.
Arguments w_pending {S}.
Arguments w_cache {S}.
Arguments w_sent {S}.
Arguments w_rare {S}.

Section app.
Context {S : Type} `{WindowStore S}.
Context (cfg : config) (st : settings).
Context (ip_address : string → option bool) (round1 round3 sqrt log2 : float → float) (fsum : list float → float).
Context (stable : string → Z) (sha1 sha256 : string → string) (dumps repr : val → string) (loads : string → res val).

Definition on_store {A} (f : S → S * A) : M (world S) A := λ w,
  let '(s, a) := f (w_store w) in (World s (w_pending w) (w_cache w) (w_sent w) (w_rare w), Ok a).
Definition ask (now : Z) (o : op) : M (world S) answer := on_store (λ s, ws_step now s o).
Definition buffer (o : batch_op) : M (world S) unit :=
  modify (λ w, World (w_store w) (w_pending w ++ [o]) (w_cache w) (w_sent w) (w_rare w)).

Definition _tenant_of (e : dict) : string :=
  if truthy (dgetN "tenant" e) then py_str repr (dgetN "tenant" e)
  else if truthy (dgetN "site" e) then py_str repr (dgetN "site" e) else TENANT st.
Definition _epoch (ts : val) : option Z := if truthy ts then iso_epoch (py_str repr ts) else None.
Definition _event_epoch (now : Z) (e : dict) : res Z :=
  s ← get_of "start" (py_or (dgetN "flow" e) (VDict []));
  Ok (default now (_epoch (py_or s (dgetN "timestamp" e)))).

(** *** Buffered writes *)

Definition _idx (prefix : string) (part : N) : option string :=
  if ENUM_INDEX st then Some (_index_key prefix (pretty part)) else None.
Definition _flush_pending (now : Z) : M (world S) unit := λ w,
  match w_pending w with
  | [] => (w, Ok tt)
  | ops => (World (ws_step now (w_store w) (o_pipeline_ops ops)).1 [] (w_cache w) (w_sent w) (w_rare w), Ok tt)
  end.
Definition _win_add (prefix : string) (part : N) (key : string) (score : Z) (value : string) : M (world S) unit :=
  buffer (b_win key (_idx prefix part) score value (WINDOW st)).
Definition _fset_add (prefix : string) (part : N) (key field : string) (value : Z) : M (world S) unit :=
  buffer (b_fset key field value (WINDOW st) (_idx prefix part) (Some (FLOW_CAP st))).
Definition _znx_add (prefix : string) (part : N) (key member : string) (score : Z) : M (world S) unit :=
  buffer (b_znx key member score (WINDOW st) (_idx prefix part)).
Definition _kv_add (key : string) (value : val) : M (world S) unit := buffer (b_kv key (dumps value) (WINDOW st)).
Definition _sadd_add (key member : string) : M (world S) unit := buffer (b_sadd key member (WINDOW st)).

(** *** Identity of a flow *)

Definition or_empty (v : val) : val := py_or v (VStr "").
Definition or_blank (v : val) : string := match v with VNone => "" | _ => py_str repr v end.
Definition _flow_identity (e f : dict) : string :=
  let fid := dgetN "flow_id" e in
  let sensor := or_empty (py_or (dgetN "host" e) (dgetN "sensor_id" e)) in
  let txt := py_str repr in
  if truthy sensor && match fid with VNone => false | _ => true end then
    "s|" +:+ txt sensor +:+ "|" +:+ txt fid
  else
    let started := or_empty (py_or (dgetN "start" f) (dgetN "timestamp" e)) in
    let cid := dgetN "community_id" e in
    if truthy cid then
      "c|" +:+ txt sensor +:+ "|" +:+ txt cid +:+ "|" +:+ txt started +:+ "|" +:+ or_blank fid
    else
      let field k := txt (dget_or k (VStr "") e) in
      "x|" +:+ take_chars 20 (sha1 (join "|" [txt sensor; field "src_ip"; field "src_port"; field "dest_ip";
                                             field "dest_port"; field "proto"; txt started; or_blank fid])).

(** *** Resolved domains *)

Definition _i2d_put (key : string) (v : option val) (ttl now : Z) : M (world S) unit :=
  modify (λ w, let cache := if I2D_CACHE_MAX st <=? Z.of_nat (length (w_cache w)) then [] else w_cache w in
               World (w_store w) (w_pending w) (od_set key (v, now, ttl) cache) (w_sent w) (w_rare w)).
Definition _i2d_get (key : string) (now : Z) : M (world S) (option val) :=
  let* hit := read (λ w, od_get key (w_cache w)) in
  let stale :=
    let* a := ask now (o_kv_get key) in
    let* v := lift (match a with a_str (Some s) => Some <$> loads s | _ => Ok None end) in
    _i2d_put key v (match v with Some _ => I2D_TTL st | None => I2D_NEG_TTL st end) now;*
    ret v in
  match hit with
  | Some (v, put, ttl) => if now - put <? ttl then ret v else stale
  | None => stale
  end.

(** *** Candidates *)

Definition candidate_of (now : Z) (detector category : string) (sev : Z) (conf : float) (entities tenant : string)
    (obs : option (Z * Z)) (version fid : string) : candidate :=
  let emitted := emitted_text now in
  {| cd_id := fid; cd_tenant := tenant; cd_detector := detector; cd_version := version; cd_category := category;
     cd_severity := sev; cd_confidence := conf;
     cd_first_seen := match obs with Some (a, _) => _rfc3339 a | None => emitted end;
     cd_last_seen := match obs with Some (_, b) => _rfc3339 b | None => emitted end;
     cd_observed := match obs with Some _ => true | None => false end; cd_emitted_at := emitted;
     cd_entities := entities |}.
(** [_candidate], and the [producer.send] every caller makes of what it returns. *)
Definition emit (now : Z) (detector category : string) (sev : Z) (conf : float) (entities tenant : string)
    (obs : option (Z * Z)) (version : string) (identity : option string) : M (world S) unit :=
  let bucket := now / WINDOW st in
  let dedup_key := match identity with
                   | Some i => take_chars 32 (sha256 i)
                   | None => pretty (stable entities mod 10 ^ 12)
                   end in
  let* a := ask now (o_dedup_seen ("emit:" +:+ tenant +:+ ":" +:+ detector +:+ ":" +:+ dedup_key +:+ ":" +:+ pretty bucket)
                       (WINDOW st)) in
  match a with
  | a_bool true =>
      let fid := match identity with
                 | Some _ => detector +:+ "-" +:+ dedup_key +:+ "-" +:+ pretty bucket
                 | None => detector +:+ "-" +:+ pretty (stable entities mod 10 ^ 10) +:+ "-" +:+ pretty bucket
                 end in
      let c := candidate_of now detector category sev conf entities tenant obs version fid in
      modify (λ w, World (w_store w) (w_pending w) (w_cache w) (w_sent w ++ [(now, c)]) (w_rare w))
  | _ => ret tt
  end.
Definition emit_plain now detector category sev conf (ents : list val) tenant obs : M (world S) unit :=
  emit now detector category sev conf (dumps (VList ents)) tenant obs "1.0" None.

Definition ip_entity (role v : string) : val := VDict [("type", VStr "ip"); ("role", VStr role); ("value", VStr v)].
Definition value_entity (type : string) (v : val) : val := VDict [("type", VStr type); ("value", v)].
Definition _refused_evidence (n : Z) : list val :=
  if n =? 0 then [] else [value_entity "flow_updates_refused_at_cap" (VInt n)].

(** *** Evaluation *)

Definition _pair (entity : string) : string * string :=
  match cut_at "|" entity with Some p => p | None => (entity, "") end.
Definition secs (t : Z) : float := ratio t 1000000.
Definition number_of (s : string) : float := of_int (default 0 (parse_int s)).
Definition window (now : Z) (key : string) : M (world S) (list (Z * string)) :=
  let* a := ask now (o_window_range key (now - WINDOW st)) in
  ret (match a with a_window l => l | _ => [] end).
Definition set_len (now : Z) (key : string) : M (world S) Z :=
  let* a := ask now (o_set_len key) in ret (match a with a_int n => n | _ => 0 end).
Definition prune (now : Z) (key : string) : M (world S) unit :=
  on_store (λ s, (_prune_index (ENUM_INDEX st) now key s, tt)).
Definition scoped (now : Z) (prefix : string) (parts : option (list N)) : M (world S) (list string) :=
  on_store (_scoped_keys (ENUM_INDEX st) now prefix parts).
Definition bounds_of (l : list (Z * string)) : option (Z * Z) :=
  match head l, last l with Some a, Some b => Some (a.1, b.1) | _, _ => None end.

(** The nDPI context stored for a pair: breed and risks. *)
Definition dicts_of (v : val) : list dict :=
  match v with VList l => omap (λ x, match x with VDict d => Some d | _ => None end) l | _ => [] end.
Definition context (now : Z) (ten src dst : string) : M (world S) (val * list dict) :=
  let* a := ask now (o_kv_get ("ctx:" +:+ ten +:+ ":" +:+ src +:+ "|" +:+ dst)) in
  let* v := lift (match a with a_str (Some s) => loads s | _ => Ok VNone end) in
  ret (match v with VList [breed; risks] => (breed, dicts_of risks) | _ => (VStr "", []) end).
Definition text_of (v : val) : res string :=
  match or_empty v with VStr s => Ok s | _ => Raise AttributeError end.
Definition severity (base : Z) (ctx : val * list dict) (env : option Z) : res Z :=
  breed ← text_of ctx.1; Ok (gated_severity base breed ctx.2 false false env).

Definition _timing_evidence (ts : list float) : list val :=
  let n := value_entity "connections" (VInt (Z.of_nat (length ts))) in
  let ts := sorted_floats ts in
  if (length ts <? 2)%nat then [n]
  else
    let g := diffs ts in
    let mean := fdiv (fsum g) (of_len g) in
    let jitter := sqrt (fdiv (fsum ((λ x, fmul (fsub x mean) (fsub x mean)) <$> g)) (of_len g)) in
    [value_entity "interval_s" (VFloat (round1 mean)); value_entity "jitter_s" (VFloat (round1 jitter)); n].
Definition _method_evidence (method : string) (period : float) (ts : list float) : list val :=
  let period := if String.eqb method "regularity" then
                  match intervals_of (sorted_floats ts) with [] => f0 | g => _median g end
                else period in
  [value_entity "method" (VStr method); value_entity "period_secs" (VFloat period)].

Definition autocorr (ts sizes : list float) : bool * float * float :=
  beacon_autocorr round3 fsum (AUTOCORR_KW st) ts sizes (AUTOCORR_THRESHOLD st) (AUTOCORR_COUNT_TARGET st)
    (AUTOCORR_MIN_STRENGTH st).
Definition external (dst : string) : bool := is_external (EXTRA_INTERNAL st) ip_address dst.

Definition visit_bc (now : Z) (key : string) : M (world S) unit :=
  let ten := _tenant_seg key in
  let '(src, dst) := _pair (_src_of key) in
  let* rng := window now key in
  match rng with
  | [] => prune now key
  | _ =>
      let ts := (secs ∘ fst) <$> rng in
      let sizes := (number_of ∘ snd) <$> rng in
      let* env := set_len now ("pv:" +:+ ten +:+ ":" +:+ dst) in
      let* ctx := context now ten src dst in
      let r := beacon_score round3 ts sizes 6 (c_beacon_threshold cfg) (c_beacon_count_target cfg) in
      let '(is_b, score, period, method) :=
        if negb r.1 && AUTOCORR st then (autocorr ts sizes, "autocorrelation") else (r, f0, "regularity") in
      let ends := [ip_entity "src" src; ip_entity "dst" dst] in
      (if is_b : bool then
         let* sev := lift (severity 7 ctx (Some env)) in
         emit_plain now "beacon" "c2" sev score
           (ends ++ _timing_evidence ts ++ _method_evidence method period ts) ten (bounds_of rng)
       else ret tt);*
      let s := strobe_check (EXTRA_INTERNAL st) ip_address round3 (Z.of_nat (length rng)) dst is_b (c_strobe_min_conns cfg) in
      if s.1 then
        let* sev := lift (severity 5 ctx (Some env)) in
        emit_plain now "strobe" "c2" sev s.2
          (ends ++ [value_entity "connections" (VInt (Z.of_nat (length rng)))]) ten (bounds_of rng)
      else ret tt
  end.

Definition visit_bf (now : Z) (key : string) : M (world S) unit :=
  let ten := _tenant_seg key in
  let '(src, dom) := _pair (_src_of key) in
  let* rng := window now key in
  match rng with
  | [] => prune now key
  | _ =>
      let ts := (secs ∘ fst) <$> rng in
      let sizes := (number_of ∘ snd) <$> rng in
      let* n_ips := set_len now ("fi:" +:+ ten +:+ ":" +:+ src +:+ "|" +:+ dom) in
      let r := fqdn_beacon round3 ts sizes n_ips (FQDN_BEACON_MIN_IPS st) 6 (lit "0.80") 12 in
      let '(is_fb, score, period, method) :=
        if negb r.1 && AUTOCORR st && (FQDN_BEACON_MIN_IPS st <=? n_ips) then (autocorr ts sizes, "autocorrelation")
        else (r, f0, "regularity") in
      if is_fb : bool then
        emit_plain now "beacon_fqdn" "c2" (gated_severity 8 "" [] false false None) score
          ([ip_entity "src" src; VDict [("type", VStr "domain"); ("role", VStr "c2"); ("value", VStr dom)];
            value_entity "rotating_ips" (VInt n_ips)] ++ _method_evidence method period ts) ten (bounds_of rng)
      else ret tt
  end.

Definition visit_dn (now : Z) (key : string) : M (world S) unit :=
  let ten := _tenant_seg key in
  let client := _src_of key in
  let* rng := window now key in
  match rng with
  | [] => prune now key
  | _ =>
      let qnames := snd <$> rng in
      let t := dns_tunnel_score round3 fsum log2 qnames (c_dns_min_queries cfg) (c_dns_len_threshold cfg)
                 (c_dns_entropy_threshold cfg) in
      (if t.1 then emit_plain now "dns_tunnel" "dns_tunnel" 6 t.2 [ip_entity "client" client] ten (bounds_of rng) else ret tt);*
      let '(is_x, score, parent) := dns_exploded_score round3 qnames (c_exploded_min_subdomains cfg) in
      if is_x : bool then
        emit_plain now "dns_exploded" "dns_tunnel" 6 score
          [ip_entity "client" client; VDict [("type", VStr "domain"); ("role", VStr "tunnel_parent"); ("value", VStr parent)]]
          ten (bounds_of rng)
      else ret tt
  end.

Definition flow_fields (now : Z) (key : string) : M (world S) (list (string * Z) * Z) :=
  let* a := ask now (o_fields_get key) in
  ret (match a with a_fields l refused => (l, refused) | _ => ([], 0) end).
Definition total_of (flows : list (string * Z)) : Z := foldr Z.add 0 (snd <$> flows).

Definition visit_exf (now : Z) (key : string) : M (world S) unit :=
  let ten := _tenant_seg key in
  let '(src, dst) := _pair (_src_of key) in
  let* fc := flow_fields now key in
  let '(flows, capped) := fc in
  let total := total_of flows in
  let conns := Z.of_nat (length flows) in
  if match flows with [] => capped =? 0 | _ => false end then prune now key
  else if total =? 0 then ret tt
  else
    let* exo := window now ("exo:" +:+ drop_chars (String.length EX_PFX) key) in
    let obs := bounds_of exo in
    let material := Z.of_nat (length (List.filter (λ fv : string * Z, EXFIL_MATERIAL_FLOW_BYTES <=? fv.2) flows)) in
    let e := exfil_check (EXTRA_INTERNAL st) (EXFIL_ALLOW st) ip_address round3 total dst (c_exfil_bytes cfg) in
    let ends := [ip_entity "src" src; ip_entity "dst" dst; value_entity "bytes" (VInt total)] in
    if e.1 then
      let* ctx := context now ten src dst in
      let* env := set_len now ("pv:" +:+ ten +:+ ":" +:+ dst) in
      let* sev := lift (severity 8 ctx (Some env)) in
      emit_plain now "exfil" "exfil" sev e.2
        (ends ++ _refused_evidence capped) ten obs
    else
      let l := low_slow_exfil (EXTRA_INTERNAL st) (EXFIL_ALLOW st) ip_address round3 total conns dst 5000000
                 (c_exfil_bytes cfg) 10 (Some material) 5 in
      if l.1 then
        emit_plain now "low_slow_exfil" "exfil" 6 l.2
          (ends ++ [value_entity "connections" (VInt conns)] ++ _refused_evidence capped) ten obs
      else ret tt.

(** [cfg["longconn_cum_secs"] or CUM_LONGCONN_SECS] *)
Definition cum_secs : float :=
  match c_longconn_cum_secs cfg with Some f => if SFeqb f f0 then CUM_LONGCONN_SECS st else f | None => CUM_LONGCONN_SECS st end.
Definition visit_lcf (now : Z) (key : string) : M (world S) unit :=
  let ten := _tenant_seg key in
  let '(src, dst) := _pair (_src_of key) in
  let* fc := flow_fields now key in
  let '(flows, capped) := fc in
  let total := total_of flows in
  let nconn := Z.of_nat (length flows) in
  if match flows with [] => capped =? 0 | _ => false end then prune now key
  else if total =? 0 then ret tt
  else
    let l := longconn_cumulative_check (EXTRA_INTERNAL st) ip_address round3 (of_int total) nconn dst cum_secs
               (c_longconn_cum_min_conns cfg) in
    if l.1 then
      let* ctx := context now ten src dst in
      let* env := set_len now ("pv:" +:+ ten +:+ ":" +:+ dst) in
      let* sev := lift (severity 5 ctx (Some env)) in
      emit_plain now "long_connection_cumulative" "c2" sev l.2
        ([ip_entity "src" src; ip_entity "dst" dst; value_entity "total_duration_s" (VInt total);
          value_entity "connections" (VInt nconn)] ++ _refused_evidence capped) ten None
    else ret tt.

Definition since (now : Z) (key : string) (t : Z) : M (world S) (list string) :=
  let* a := ask now (o_zset_since key t) in ret (strs a).
Definition rare_one (now : Z) (key dst : string) : M (world S) unit :=
  let* a := ask now (o_zset_rank key dst) in
  match a with
  | a_opt_int (Some rank) =>
      if 15 <=? rank then
        emit_plain now "rare_destination" "anomaly" 4 half
          [ip_entity "src" (_src_of key); ip_entity "new_dst" dst] (_tenant_seg key) None
      else ret tt
  | _ => ret tt
  end.
Definition visit_kd (now rare_since : Z) (key : string) : M (world S) unit :=
  let* news := since now key rare_since in
  match news with
  | [] => let* all := since now key 0 in match all with [] => prune now key | _ => ret tt end
  | _ => for_each (rare_one now key) news
  end.

Definition over (now : Z) (prefix : string) (parts : option (list N)) (visit : string → M (world S) unit) : M (world S) unit :=
  let* keys := scoped now prefix parts in for_each visit keys.
Definition evaluate (now : Z) (flow_parts dns_parts : option (list N)) : M (world S) unit :=
  _flush_pending now;*
  over now "bc:" flow_parts (visit_bc now);*
  over now "bf:" flow_parts (visit_bf now);*
  over now "dn:" dns_parts (visit_dn now);*
  over now EX_PFX flow_parts (visit_exf now);*
  over now LC_PFX flow_parts (visit_lcf now);*
  let* rare_since := read w_rare in
  modify (λ w, World (w_store w) (w_pending w) (w_cache w) (w_sent w) now);*
  over now "kd:" flow_parts (visit_kd now rare_since);*
  let* _ := ask now o_kv_prune in
  ret tt.

(** *** Records *)

Definition fields (v : val) : res dict := match v with VDict d => Ok d | _ => Raise AttributeError end.
Definition dict_of (k : string) (e : dict) : val := py_or (dgetN k e) (VDict []).
Definition count_field (k : string) (f : dict) : res Z := py_int (py_or (dgetN k f) (VInt 0)).
Definition pair_key (prefix : string) (part : N) (ten src dst : string) : string :=
  window_key prefix part ten (src +:+ "|" +:+ dst).

(** The writes of a flow to an external destination: [b] is its bytes both ways, [up] the
    bytes sent, [age] its age. *)
Definition external_writes (now : Z) (part : N) (e f : dict) (ten src dst : string) (evt up b age : Z)
    (breed : val) (risks : list dict) : M (world S) unit :=
  let at_pair := src +:+ "|" +:+ dst in
  _kv_add ("ctx:" +:+ ten +:+ ":" +:+ at_pair) (VList [breed; VList (VDict <$> risks)]);*
  _sadd_add ("pv:" +:+ ten +:+ ":" +:+ dst) src;*
  _fset_add EX_PFX part (pair_key EX_PFX part ten src dst) (_flow_identity e f) up;*
  _win_add "exo:" part (pair_key "exo:" part ten src dst) evt "0";*
  _fset_add LC_PFX part (pair_key LC_PFX part ten src dst) (_flow_identity e f) age;*
  _znx_add "kd:" part (window_key "kd:" part ten src) dst now;*
  let* dom := _i2d_get ("i2d:" +:+ ten +:+ ":" +:+ dst) now in
  (if beacon_noise_dst (BEACON_ALLOW st) dst then ret tt
   else _win_add "bc:" part (pair_key "bc:" part ten src dst) evt (pretty b));*
  match dom with
  | Some (VList (VStr d :: _)) =>
      _win_add "bf:" part (pair_key "bf:" part ten src d) evt (pretty b);*
      _sadd_add ("fi:" +:+ ten +:+ ":" +:+ src +:+ "|" +:+ d) dst
  | _ => ret tt
  end.

(** One candidate per category of the structured risks. *)
Definition emit_ndpi (now : Z) (ten : string) (fnd : finding) : M (world S) unit :=
  emit now "ndpi_risk" (n_category fnd) (n_severity fnd) (n_confidence fnd) (dumps (VList (n_entities fnd))) ten None
    DETECTOR_VERSION (Some (n_identity fnd)).
(** The legacy hit: the names of the matching risks, or the breed. *)
Definition legacy_hit (n : dict) (breed : val) (risks : list dict) : res (option (list string)) :=
  let '(hit, matched) := ndpi_risk_hit risks in
  if hit : bool then Ok (Some matched)
  else
    b ← text_of breed;
    Ok (if ndpi_breed_hit b
        then Some ["breed:" +:+ b +:+ " proto:" +:+ py_str repr (dget_or "proto" (VStr "?") n)] else None).
Definition emit_legacy (now : Z) (ten src : string) (n : dict) (breed : val) (risks : list dict) : M (world S) unit :=
  let* hit := lift (legacy_hit n breed risks) in
  match hit with
  | Some matched =>
      emit_plain now "ndpi_risk" "malware" 6 (lit "0.6")
        [ip_entity "src" src;
         VDict [("type", VStr "ndpi_risk"); ("value", VList (VStr <$> isort id matched));
                ("risks", VList (VDict <$> sorted_risks dumps (List.filter (risk_matches HIGH_NDPI_RISKS) risks)))]] ten None
  | None => ret tt
  end.

Definition handle_flow (now : Z) (part : N) (e : dict) : M (world S) unit :=
  match dgetN "src_ip" e, dgetN "dest_ip" e with
  | VStr src, VStr dst =>
      if negb (str_truthy src && str_truthy dst) then ret tt
      else
        let ten := _tenant_of e in
        let* evt := lift (_event_epoch now e) in
        let* n := lift (fields (dict_of "ndpi" e)) in
        let risks := ndpi_risks repr (VDict n) in
        let breed := or_empty (dgetN "breed" n) in
        let* f := lift (fields (dict_of "flow" e)) in
        let* up := lift (count_field "bytes_toserver" f) in
        let* down := lift (count_field "bytes_toclient" f) in
        let* age := lift (count_field "age" f) in
        (if external dst then external_writes now part e f ten src dst evt up (up + down) age breed risks else ret tt);*
        (if STRUCTURED st
         then for_each (emit_ndpi now ten) (ndpi_findings repr src dst ten None None None (VDict n))
         else emit_legacy now ten src n breed risks);*
        let l := longconn_check (EXTRA_INTERNAL st) ip_address round3 (of_int age) dst (lit "3600.0") in
        if l.1 then
          emit_plain now "long_connection" "c2" 5 l.2
            [ip_entity "src" src; ip_entity "dst" dst; value_entity "duration_s" (VInt age)] ten None
        else ret tt
  | s, d => if truthy s && truthy d then raise TypeError else ret tt
  end.

Definition rrname_of (q : val) : res val := match q with VDict d => Ok (dgetN "rrname" d) | _ => Raise AttributeError end.
(** An address in an answer resolves the domain for the flows to come. *)
Definition put_answer (now : Z) (ten : string) (e : dict) (a : val) : M (world S) unit :=
  let* a := lift (fields a) in
  if val_in_strs (dgetN "rrtype" a) ["A"; "AAAA"] && truthy (dgetN "rdata" a) && truthy (dgetN "rrname" a) then
    let* name := lift (match dgetN "rrname" a with VStr s => Ok s | _ => Raise AttributeError end) in
    let* ep := lift (_event_epoch now e) in
    let key := "i2d:" +:+ ten +:+ ":" +:+ py_str repr (dgetN "rdata" a) in
    let v := VList [VStr (registered_parent name); VFloat (secs ep)] in
    let* _ := ask now (o_kv_set key (dumps v) (WINDOW st)) in
    _i2d_put key (Some v) (I2D_TTL st) now
  else ret tt.
(** [qs[0].get("rrname") or d.get("rrname")] *)
Definition query_name (d : dict) : res val :=
  qs ← match py_or (dgetN "queries" d) (VList [VDict d]) with
       | VList l => Ok l | VStr _ => Raise AttributeError | VDict _ => Raise KeyError | _ => Raise TypeError
       end;
  q ← match qs with q :: _ => rrname_of q | [] => Ok VNone end;
  Ok (py_or q (dgetN "rrname" d)).
Definition handle_dns (now : Z) (part : N) (e : dict) : M (world S) unit :=
  let* d := lift (fields (dict_of "dns" e)) in
  let ten := _tenant_of e in
  let* qn := lift (query_name d) in
  (if truthy (dgetN "src_ip" e) && truthy qn then
     let* ep := lift (_event_epoch now e) in
     _win_add "dn:" part (window_key "dn:" part ten (py_str repr (dgetN "src_ip" e))) ep (py_str repr qn)
   else ret tt);*
  let* answers := lift (as_list (py_or (dgetN "answers" d) (VList []))) in
  for_each (put_answer now ten e) answers.

Definition _handle (now : Z) (part : N) (e : dict) : M (world S) unit :=
  let et := dgetN "event_type" e in
  if val_eq_str et "flow" then handle_flow now part e
  else if val_eq_str et "dns" then handle_dns now part e
  else ret tt.

(** *** The loop *)

(** A polled batch, whose buffered writes reach the store or are dropped, or an
    evaluation.  What a record raises is dropped with the record, what an evaluation
    raises ends it. *)
Inductive activity :=
| on_poll (records : list (N * dict)) (flushed : bool)
| on_eval (flow dns : option (list N)).
Definition one (now : Z) (w : world S) (r : N * dict) : world S := (_handle now r.1 r.2 w).1.
Definition drop_pending (w : world S) : world S := World (w_store w) [] (w_cache w) (w_sent w) (w_rare w).
Definition act (now : Z) (a : activity) (w : world S) : world S :=
  match a with
  | on_poll records flushed =>
      let w := foldl (one now) w records in
      if flushed then (_flush_pending now w).1 else drop_pending w
  | on_eval flow dns => (evaluate now flow dns w).1
  end.
Definition run (w : world S) (acts : list (Z * activity)) : world S := foldl (λ w ta, act ta.1 ta.2 w) w acts.
End app.
