(* ===== verification/FlowReplay.v ===== *)
(** * Redelivered flow records (services/behavioral-detectors/app.py, shared/store.py)

    Bytes and ages of a flow are cumulative and records are delivered again after a
    restart or a rebalance; the per-flow fields absorb that.  The facts here follow the
    fields of one pair through records, flushes and evaluations. *)

From S2P Require Import Prelude Order PyVal PyString OrderedMap PyTime IsoTime Json WindowStore PartitionKeys NdpiPolicy BehavioralScores Behavioral.
Set Default Proof Using "Type".

(** ** Fields under a cap *)

Abbreviation flows := (list (string * Z)).
Definition flows_of (h : flows) : flows := List.filter (λ fv : string * Z, negb (String.eqb fv.1 REFUSED_FIELD)) h.

Section capped.
Context (cap : Z).

(** What a write makes of a live hash, and of its flows. *)
Definition put_field (h : flows) (fv : string * Z) : flows :=
  let full := match od_get fv.1 h with None => cap <=? identities h | Some _ => false end in
  if full then od_set REFUSED_FIELD (default 0 (od_get REFUSED_FIELD h) + 1) h else od_set fv.1 fv.2 h.
Definition put_flow (l : flows) (fv : string * Z) : flows :=
  let full := match od_get fv.1 l with None => cap <=? Z.of_nat (length l) | Some _ => false end in
  if full then l else od_set fv.1 fv.2 l.

Lemma flows_of_elem f v h : (f, v) ∈ flows_of h ↔ (f, v) ∈ h ∧ f ≠ REFUSED_FIELD.
Proof.
  unfold flows_of. rewrite !list_elem_of_In, filter_In. simpl. rewrite negb_true_iff, String.eqb_neq. tauto.
Qed.
Lemma flows_of_keys f h : f ∈ od_keys (flows_of h) ↔ f ∈ od_keys h ∧ f ≠ REFUSED_FIELD.
Proof.
  unfold od_keys. rewrite !list_elem_of_fmap. split.
  - intros ([a v] & -> & [Hin Hne]%flows_of_elem). split; [by exists (a, v)|done].
  - intros (([a v] & -> & Hin) & Hne). exists (a, v). split; [done|]. by apply flows_of_elem.
Qed.
Lemma flows_of_id h : REFUSED_FIELD ∉ od_keys h → flows_of h = h.
Proof.
  unfold od_keys, flows_of. induction h as [|[a b] h IH]; [done|]. rewrite fmap_cons. intros [Ha Hh]%not_elem_of_cons. simpl.
  destruct (String.eqb_spec a REFUSED_FIELD); [by subst|]. simpl. f_equal. by apply IH.
Qed.
Lemma flows_of_wf h : od_wf h → od_wf (flows_of h).
Proof.
  unfold od_wf, od_keys, flows_of. induction h as [|[f v] h IH]; [done|]. simpl. intros [Hf Hh]%NoDup_cons.
  destruct (String.eqb f REFUSED_FIELD); simpl; [by apply IH|]. apply NoDup_cons. split; [|by apply IH].
  intros H. apply (flows_of_keys f h) in H as [H _]. by apply Hf.
Qed.
Lemma flows_of_get f h : od_wf h → f ≠ REFUSED_FIELD → od_get f (flows_of h) = od_get f h.
Proof.
  intros Hw Hf. destruct (od_get f h) as [v|] eqn:E.
  - apply od_wf_get; [by apply flows_of_wf|]. apply flows_of_elem. split; [by apply od_get_elem|done].
  - apply od_get_none. apply od_get_none in E. rewrite flows_of_keys. tauto.
Qed.
Lemma flows_of_set f v h : f ≠ REFUSED_FIELD → flows_of (od_set f v h) = od_set f v (flows_of h).
Proof.
  intros Hf. apply String.eqb_neq in Hf. unfold flows_of. induction h as [|[a b] h IH]; simpl; [by rewrite Hf|].
  case_decide as E.
  - subst a. simpl. rewrite Hf. simpl. by rewrite decide_True.
  - simpl. rewrite IH. destruct (String.eqb a REFUSED_FIELD); simpl; [done|]. by rewrite decide_False.
Qed.
Lemma flows_of_refuse v h : flows_of (od_set REFUSED_FIELD v h) = flows_of h.
Proof.
  unfold flows_of. induction h as [|[a b] h IH]; simpl; [done|]. case_decide as E; simpl.
  - subst a. by rewrite String.eqb_refl.
  - by rewrite IH.
Qed.
Lemma identities_flows h : od_wf h → identities h = Z.of_nat (length (flows_of h)).
Proof.
  unfold identities, flows_of. induction h as [|[a b] h IH]; [done|]. intros [Ha Hh]%NoDup_cons.
  specialize (IH Hh). cbn [od_get length List.filter fst]. case_decide as E.
  - subst a. assert (Hn : od_get REFUSED_FIELD h = None) by (by apply od_get_none). rewrite Hn in IH.
    rewrite String.eqb_refl. simpl. lia.
  - destruct (String.eqb_spec a REFUSED_FIELD); [congruence|]. simpl. lia.
Qed.

Lemma put_field_wf h fv : od_wf h → od_wf (put_field h fv).
Proof. intros H. unfold put_field. case_match; by apply od_wf_set. Qed.
Lemma put_field_flows h fv : od_wf h → fv.1 ≠ REFUSED_FIELD → flows_of (put_field h fv) = put_flow (flows_of h) fv.
Proof.
  intros Hw Hf. unfold put_field, put_flow. rewrite flows_of_get, <- identities_flows by done.
  case_match; [by rewrite flows_of_refuse|by apply flows_of_set].
Qed.

Lemma put_flow_wf l fv : od_wf l → od_wf (put_flow l fv).
Proof. intros H. unfold put_flow. case_match; [done|by apply od_wf_set]. Qed.
Lemma puts_wf l L : od_wf l → od_wf (foldl put_flow l L).
Proof. revert l. induction L as [|x L IH]; intros l H; [done|]. by apply IH, put_flow_wf. Qed.

Lemma put_flow_keys l fv :
  od_keys (put_flow l fv)
  = if decide (fv.1 ∈ od_keys l) then od_keys l
    else if cap <=? Z.of_nat (length l) then od_keys l else od_keys l ++ [fv.1].
Proof.
  unfold put_flow. destruct (od_get fv.1 l) as [v|] eqn:E.
  - assert (Hin : fv.1 ∈ od_keys l) by (unfold od_keys; apply list_elem_of_fmap; exists (fv.1, v); split; [done|by apply od_get_elem]).
    rewrite od_keys_set. by rewrite !decide_True.
  - apply od_get_none in E. rewrite decide_False by done. case_match; [done|]. rewrite od_keys_set. by rewrite decide_False.
Qed.

(** Nothing more can be admitted of [L]. *)
Definition settled (l : flows) (L : flows) : Prop :=
  ∀ fv, fv ∈ L → fv.1 ∈ od_keys l ∨ cap <= Z.of_nat (length (od_keys l)).

Lemma keys_length (l : flows) : length (od_keys l) = length l.
Proof. apply length_fmap. Qed.

Lemma put_flow_grows l x : ∃ r, od_keys (put_flow l x) = od_keys l ++ r.
Proof. rewrite put_flow_keys. repeat case_match; first [by eexists|exists []; by rewrite app_nil_r]. Qed.
Lemma puts_grow l L : ∃ r, od_keys (foldl put_flow l L) = od_keys l ++ r.
Proof.
  revert l. induction L as [|x L IH]; intros l; [exists []; by rewrite app_nil_r|]. simpl.
  destruct (IH (put_flow l x)) as [r Hr], (put_flow_grows l x) as [r' Hr']. exists (r' ++ r). by rewrite Hr, Hr', app_assoc.
Qed.

Lemma puts_settled l L : settled (foldl put_flow l L) L.
Proof.
  revert l. induction L as [|x L IH]; intros l fv; [by intros ?%elem_of_nil|]. simpl.
  intros [->|Hin]%elem_of_cons; [|by apply IH]. destruct (puts_grow (put_flow l x) L) as [r ->].
  rewrite put_flow_keys, length_app. repeat case_match; to_prop.
  - left. apply elem_of_app. by left.
  - right. rewrite keys_length. lia.
  - left. rewrite !elem_of_app. left. right. by apply list_elem_of_singleton.
Qed.

Lemma settled_keys l L : settled l L → od_keys (foldl put_flow l L) = od_keys l.
Proof.
  revert l. induction L as [|x L IH]; intros l H; [done|]. simpl.
  assert (E : od_keys (put_flow l x) = od_keys l).
  { rewrite put_flow_keys. case_decide as Hd; [done|]. destruct (H x) as [?|Hc]; [by left|done|].
    rewrite keys_length in Hc. apply Z.leb_le in Hc. by rewrite Hc. }
  rewrite IH; [done|]. intros fv Hfv. rewrite E. apply H. by right.
Qed.

(** A flow that was admitted carries the last value written for it. *)
Lemma puts_get l L f :
  f ∈ od_keys (foldl put_flow l L) →
  od_get f (foldl put_flow l L) = match od_get f (reverse L) with Some v => Some v | None => od_get f l end.
Proof.
  induction L as [|[g v] L IH] using rev_ind; [done|]. rewrite foldl_app, reverse_snoc. cbn [foldl].
  set (m := foldl put_flow l L) in *. cbn [od_get]. rewrite put_flow_keys. cbn [fst]. intros Hin.
  destruct (decide (f = g)) as [->|Hne].
  - unfold put_flow. cbn [fst snd]. destruct (od_get g m) eqn:E; [by rewrite od_get_set_eq|].
    apply od_get_none in E. rewrite decide_False in Hin by done. destruct (cap <=? _); [done|]. by rewrite od_get_set_eq.
  - assert (Hg : od_get f (put_flow m (g, v)) = od_get f m) by (unfold put_flow; match goal with |- context [if ?b then _ else _] => destruct b end; [done|by rewrite od_get_set_ne]).
    rewrite Hg. apply IH. destruct (decide (g ∈ od_keys m)); [done|]. destruct (cap <=? _); [done|].
    by apply elem_of_app in Hin as [?|?%list_elem_of_singleton].
Qed.

Lemma od_ext (l l' : flows) : od_wf l → od_keys l = od_keys l' → (∀ f, f ∈ od_keys l → od_get f l = od_get f l') → l = l'.
Proof.
  revert l'. induction l as [|[a x] l IH]; intros [|[b y] l'] Hw Hk Hg; [done..|]. simpl in Hk. injection Hk as <- Hk.
  apply NoDup_cons in Hw as [Ha Hw].
  assert (x = y) as <-. { specialize (Hg a). simpl in Hg. rewrite !decide_True in Hg by done.
    assert (Some x = Some y) as [= ->] by (apply Hg; left). done. }
  f_equal. apply IH; [done|done|]. intros f Hf. assert (Hne : f ≠ a) by (intros ->; by apply Ha).
  specialize (Hg f). simpl in Hg. rewrite !decide_False in Hg by done. apply Hg. by right.
Qed.

(** Writing the same values once more changes nothing. *)
Lemma puts_again l L : od_wf l → foldl put_flow (foldl put_flow l L) L = foldl put_flow l L.
Proof.
  intros Hw. pose proof (settled_keys _ _ (puts_settled l L)) as Hk.
  apply od_ext; [by apply puts_wf, puts_wf|done|]. intros f Hf. rewrite (puts_get (foldl put_flow l L) L f Hf).
  rewrite Hk in Hf. rewrite (puts_get l L f Hf). by destruct (od_get f (reverse L)).
Qed.

(** The dictionary of the last value of each flow, in the order the flows appear. *)
Definition latest (L : flows) : flows := foldl (λ m fv, od_set fv.1 fv.2 m) [] L.
Lemma latest_keys L f : f ∈ od_keys (latest L) → f ∈ L.*1.
Proof.
  induction L as [|x L IH] using rev_ind; [done|]. unfold latest in *. rewrite foldl_app, fmap_app. simpl.
  rewrite od_keys_set_elem, elem_of_app, list_elem_of_singleton. tauto.
Qed.
Lemma latest_wf L : od_wf (latest L).
Proof.
  induction L as [|x L IH] using rev_ind; [apply od_wf_nil|]. unfold latest in *. rewrite foldl_app. by apply od_wf_set.
Qed.
Lemma distinct_length {A} `{EqDecision A} (l l' : list A) : NoDup l → l ⊆ l' → (length l <= length (remove_dups l'))%nat.
Proof.
  intros Hl Hs. apply submseteq_length, NoDup_submseteq; [done|]. intros x Hx. apply elem_of_remove_dups. by apply Hs.
Qed.

Lemma puts_latest L :
  Forall (λ fv : string * Z, fv.1 ≠ REFUSED_FIELD) L → Z.of_nat (length (remove_dups L.*1)) <= cap →
  foldl (put_field) [] L = latest L.
Proof.
  induction L as [|x L IH] using rev_ind; [done|]. intros [HL Hx]%Forall_app Hc.
  assert (Hsub : (length (remove_dups L.*1) <= length (remove_dups (L ++ [x]).*1))%nat).
  { apply submseteq_length, NoDup_submseteq; [apply NoDup_remove_dups|]. intros y. rewrite !elem_of_remove_dups, fmap_app. set_solver. }
  unfold latest. rewrite !foldl_app. cbn [foldl]. fold (latest L). rewrite IH by (done || lia).
  unfold put_field. destruct (od_get x.1 (latest L)) eqn:E; [done|]. apply od_get_none in E.
  assert (H0 : od_get REFUSED_FIELD (latest L) = None).
  { apply od_get_none. intros Hin%latest_keys. rewrite Forall_forall in HL. apply list_elem_of_fmap in Hin as (y & Hy & Hin). by apply (HL y). }
  assert (Hl : (length (x.1 :: od_keys (latest L)) <= length (remove_dups (L ++ [x]).*1))%nat).
  { apply distinct_length; [constructor; [done|apply latest_wf]|]. intros y. rewrite fmap_app. intros [->|Hy%latest_keys]%elem_of_cons; set_solver. }
  unfold identities. rewrite H0. simpl in Hl. rewrite keys_length in Hl.
  destruct (Z.leb_spec (cap) (Z.of_nat (length (latest L)) - 0)); [lia|done].
Qed.
End capped.

(** ** What leaves the fields alone *)

Definition view (c : cell) : option flows * option Z := (c_h c, c_exp c).
Definition fields_at (s : mem_store) (k : string) : option flows * option Z := view (cell_at s k).
(** The keys that hold per-flow fields. *)
Definition per_flow (k : string) : bool := starts_with EX_PFX k || starts_with LC_PFX k.

(** The operations the detectors make outside the buffer. *)
Definition reads (o : op) : bool :=
  match o with
  | o_window_range _ _ | o_zset_since _ _ | o_zset_rank _ _ | o_fields_get _ | o_set_len _ | o_set_members _
  | o_set_remove _ _ | o_kv_set _ _ _ | o_kv_get _ | o_kv_prune | o_dedup_seen _ _ | o_keys_matching _ => true
  | _ => false
  end.

Lemma live_view now c : view (_live_set now c).1 = view c.
Proof. unfold _live_set. by destruct (c_s c). Qed.
Lemma reads_cell now o c : reads o = true → view (cell_op now o c).1 = view c.
Proof.
  destruct o; try done; intros _; cbn.
  - unfold zset_since. by destruct (_alive now c).
  - unfold fields_get. by destruct (_alive now c).
  - pose proof (live_view now c) as H. by destruct (_live_set now c).
  - pose proof (live_view now c) as H. by destruct (_live_set now c).
  - unfold set_remove. by destruct (c_s c).
  - unfold kv_get. by destruct (kv_live now c).
  - unfold dedup_seen. destruct (c_dedup c) as [e|]; [|done]. by destruct (_ && _).
Qed.
Lemma single_view now o s k k' :
  op_key o = Some k → (∀ c, view (cell_op now o c).1 = view c) →
  fields_at (let '(c, _) := cell_op now o (cell_at s k) in put_cell k c s) k' = fields_at s k'.
Proof.
  intros _ H. specialize (H (cell_at s k)). unfold fields_at. destruct (cell_op now o (cell_at s k)) as [c a].
  rewrite cell_at_put. case_decide; [by subst|done].
Qed.
Lemma reads_same now o s k : reads o = true → fields_at (ws_step now s o).1 k = fields_at s k.
Proof.
  intros H. pose proof (λ c, reads_cell now o c H) as Hc. unfold ws_step, in_memory.
  destruct o; try done;
    try (match goal with |- context [op_key ?o] => pose proof (single_view now o s _ k eq_refl Hc) as E end;
         cbn [op_key]; match goal with |- context [cell_op now ?o ?c] => by destruct (cell_op now o c) end).
  cbn. unfold fields_at. rewrite cell_at_prune. unfold kv_prune_cell. destruct (c_kv _) as [[v e]|]; [|done].
  by destruct (e <=? now).
Qed.

Section frames.
Context (cfg : config) (st : settings).
Context (ip_address : string → option bool) (round1 round3 sqrt log2 : float → float) (fsum : list float → float).
Context (stable : string → Z) (sha1 sha256 : string → string) (dumps repr : val → string) (loads : string → res val).
Abbreviation Wd := (world mem_store).

Definition in_band (c : candidate) : Prop := 1 <= cd_severity c <= 10.
(** Nothing buffered, no field changed, and what was sent has a severity of the contract. *)
Definition still (w w' : Wd) : Prop :=
  (∀ k, fields_at (w_store w') k = fields_at (w_store w) k) ∧ w_pending w' = w_pending w ∧
  ∃ cs, w_sent w' = w_sent w ++ cs ∧ Forall (in_band ∘ snd) cs.
#[local] Instance still_preorder : PreOrder still.
Proof.
  split.
  - intros w. split_and!; [done..|]. exists []. by rewrite app_nil_r.
  - intros a b c (H1 & P1 & cs & S1 & F1) (H2 & P2 & ds & S2 & F2). split_and!; [intros k; congruence|congruence|].
    exists (cs ++ ds). rewrite S2, S1, app_assoc. split; [done|]. by apply Forall_app.
Qed.

Lemma still_same w w' :
  (∀ k, fields_at (w_store w') k = fields_at (w_store w) k) → w_pending w' = w_pending w → w_sent w' = w_sent w → still w w'.
Proof. intros H1 H2 H3. split_and!; [done..|]. exists []. by rewrite app_nil_r. Qed.
Lemma still_on_store {A} (f : mem_store → mem_store * A) : (∀ s k, fields_at (f s).1 k = fields_at s k) → frames still (on_store f).
Proof.
  intros H w. specialize (H (w_store w)). unfold on_store. destruct (f (w_store w)) as [s a]. by apply still_same.
Qed.
Lemma still_ask now o : reads o = true → frames still (ask now o).
Proof. intros H. apply still_on_store. intros s k. by apply reads_same. Qed.
Lemma still_modify (f : Wd → Wd) : (∀ w, w_store (f w) = w_store w ∧ w_pending (f w) = w_pending w ∧ w_sent (f w) = w_sent w) →
  frames still (modify f).
Proof. intros H w. destruct (H w) as (H1 & H2 & H3). apply still_same; simpl; [by rewrite H1|done..]. Qed.

Lemma still_emit now d cat sev conf ents ten obs v i :
  1 <= sev <= 10 → frames still (emit st stable sha256 now d cat sev conf ents ten obs v i).
Proof.
  intros Hs. apply (frames_bind still); [by apply still_ask|]. intros a.
  destruct a as [|[]| | | | | |]; try apply (frames_ret still). intros w. split_and!; [done..|].
  eexists. split; [reflexivity|]. by constructor.
Qed.
Lemma gated_band base breed risks ti dga env : 1 <= gated_severity base breed risks ti dga env <= 10.
Proof. unfold gated_severity. lia. Qed.
Lemma severity_in_band base ctx env s : severity base ctx env = Ok s → 1 <= s <= 10.
Proof. unfold severity. destruct (text_of ctx.1); [|done]. intros [= <-]. apply gated_band. Qed.
Lemma still_severity {A} base ctx env (k : Z → M Wd A) :
  (∀ s, 1 <= s <= 10 → frames still (k s)) → frames still (let* s := lift (severity base ctx env) in k s).
Proof.
  intros H w. unfold bind, lift. destruct (severity base ctx env) as [s|] eqn:E; [|simpl; reflexivity].
  apply H. by eapply severity_in_band.
Qed.

Lemma members_same now keys s k : fields_at (members_of now keys s).1 k = fields_at s k.
Proof.
  revert s. induction keys as [|x keys IH]; intros s; [done|]. cbn [members_of]. unfold st_strs.
  pose proof (reads_same now (o_set_members x) s k eq_refl) as H. destruct (ws_step now s (o_set_members x)) as [s' a].
  specialize (IH s'). destruct (members_of now keys s'). simpl in *. congruence.
Qed.
Lemma still_scoped now prefix parts : frames still (scoped st now prefix parts).
Proof.
  apply still_on_store. intros s k. unfold _scoped_keys. destruct parts as [ps|]; [|done].
  destruct (ENUM_INDEX st); [apply members_same|done].
Qed.
Lemma still_prune now key : frames still (prune st now key).
Proof. apply still_on_store. intros s k. unfold _prune_index. destruct (ENUM_INDEX st); [by apply reads_same|done]. Qed.
End frames.

Ltac still_tac :=
  repeat first
    [ apply (frames_ret still) | apply (frames_lift still) | apply (frames_raise still) | apply (frames_read still)
    | apply still_ask; reflexivity | apply still_prune | apply still_scoped
    | apply still_emit; first [lia|apply gated_band] | apply still_severity; intros ? ?
    | apply (frames_for_each still); intros ? | apply (frames_bind still); [|intros ?]
    | match goal with |- frames _ (match ?x with _ => _ end) => destruct x end ].

Section detectors.
Context (cfg : config) (st : settings).
Context (ip_address : string → option bool) (round1 round3 sqrt log2 : float → float) (fsum : list float → float).
Context (stable : string → Z) (sha1 sha256 : string → string) (dumps repr : val → string) (loads : string → res val).
Abbreviation Wd := (world mem_store).
#[local] Existing Instance still_preorder.

(** *** Evaluations *)

Lemma still_plain now d cat sev conf ents ten obs :
  1 <= sev <= 10 → frames still (emit_plain (S := mem_store) st stable sha256 dumps now d cat sev conf ents ten obs).
Proof. intros H. by apply still_emit. Qed.
Ltac look := cbv zeta; unfold window, set_len, flow_fields, since, context; still_tac; try (apply still_plain; first [lia|apply gated_band]); still_tac.

Lemma still_bc now key :
  frames still (visit_bc (S := mem_store) cfg st ip_address round1 round3 sqrt fsum stable sha256 dumps loads now key).
Proof. unfold visit_bc. look. Qed.
Lemma still_bf now key : frames still (visit_bf (S := mem_store) st round3 fsum stable sha256 dumps now key).
Proof. unfold visit_bf. look. Qed.
Lemma still_dn now key : frames still (visit_dn (S := mem_store) cfg st round3 log2 fsum stable sha256 dumps now key).
Proof. unfold visit_dn. look. Qed.
Lemma still_exf now key :
  frames still (visit_exf (S := mem_store) cfg st ip_address round3 stable sha256 dumps loads now key).
Proof. unfold visit_exf. look. Qed.
Lemma still_lcf now key :
  frames still (visit_lcf (S := mem_store) cfg st ip_address round3 stable sha256 dumps loads now key).
Proof. unfold visit_lcf. look. Qed.
Lemma still_kd now r key : frames still (visit_kd (S := mem_store) st stable sha256 dumps now r key).
Proof. unfold visit_kd, rare_one. look. Qed.

Lemma still_over now prefix parts (visit : string → M Wd unit) :
  (∀ key, frames still (visit key)) → frames still (over (S := mem_store) st now prefix parts visit).
Proof.
  intros H. apply (frames_bind still); [apply still_scoped|]. intros keys. by apply (frames_for_each still).
Qed.
Abbreviation evaluate' :=
  (evaluate (S := mem_store) cfg st ip_address round1 round3 sqrt log2 fsum stable sha256 dumps loads).
Lemma still_evaluate now flow dns (w : Wd) : w_pending w = [] → still w (evaluate' now flow dns w).1.
Proof.
  intros Hp. unfold evaluate. unfold bind at 1, _flush_pending at 1. rewrite Hp. revert w Hp.
  match goal with |- ∀ w, _ → still w (?m w).1 => enough (frames still m) by auto end.
  repeat first [apply still_over; intros key | apply still_bc | apply still_bf | apply still_dn | apply still_exf
    | apply still_lcf | apply still_kd | apply (frames_read still) | apply (frames_ret still)
    | apply still_ask; reflexivity | apply still_modify; done | apply (frames_bind still); [|intros ?]].
Qed.

(** *** Records *)

(** A buffered write of another key. *)
Definition quiet_op (o : batch_op) : Prop := ∀ k now c, per_flow k = true → touch now k o c = c.
Definition off (k : string) : Prop := per_flow k = false.
Lemma off_quiet o : off (batch_key o) → match batch_idx o with Some (i, _) => off i | None => True end → quiet_op o.
Proof.
  intros H1 H2 k now c Hk. unfold touch. rewrite decide_False by (intros ->; unfold off in *; congruence).
  destruct (batch_idx o) as [[i ttl]|]; [|done]. rewrite decide_False; [done|]. intros ->. unfold off in *. congruence.
Qed.
(** The fields are left alone until the next flush, and by it. *)
Definition quiet (w w' : Wd) : Prop :=
  (∀ k, fields_at (w_store w') k = fields_at (w_store w) k) ∧
  (∃ ops, w_pending w' = w_pending w ++ ops ∧ Forall quiet_op ops) ∧
  ∃ cs, w_sent w' = w_sent w ++ cs ∧ Forall (in_band ∘ snd) cs.
#[local] Instance quiet_preorder : PreOrder quiet.
Proof.
  split.
  - intros w. split_and!; [done|exists []; by rewrite app_nil_r..].
  - intros a b c (H1 & (o1 & P1 & Q1) & cs & S1 & F1) (H2 & (o2 & P2 & Q2) & ds & S2 & F2).
    split_and!; [intros k; congruence|exists (o1 ++ o2)|exists (cs ++ ds)]; rewrite ?P2, ?P1, ?S2, ?S1, app_assoc;
      (split; [done|by apply Forall_app]).
Qed.
Lemma still_quiet w w' : still w w' → quiet w w'.
Proof. intros (H1 & H2 & H3). split_and!; [done| |done]. exists []. by rewrite app_nil_r. Qed.
Lemma frames_quiet {A} (m : M Wd A) : frames still m → frames quiet m.
Proof. intros H w. by apply still_quiet. Qed.
Lemma quiet_buffer o : quiet_op o → frames quiet (buffer (S := mem_store) o).
Proof. intros H w. split_and!; [done|exists [o]; by split; [|constructor]|]. exists []. by rewrite app_nil_r. Qed.

Lemma off_idx prefix part : match _idx st prefix part with Some i => off i | None => True end.
Proof. unfold _idx. by destruct (ENUM_INDEX st). Qed.
Lemma win_off prefix part key score value ttl : off key → quiet_op (b_win key (_idx st prefix part) score value ttl).
Proof. intros H. apply off_quiet; [done|]. pose proof (off_idx prefix part) as Hi. simpl. by destruct (_idx st prefix part). Qed.
Lemma znx_off prefix part key member score ttl : off key → quiet_op (b_znx key member score ttl (_idx st prefix part)).
Proof. intros H. apply off_quiet; [done|]. pose proof (off_idx prefix part) as Hi. simpl. by destruct (_idx st prefix part). Qed.
Lemma quiet_win prefix part key score value : off key → frames quiet (_win_add (S := mem_store) st prefix part key score value).
Proof. intros H. by apply quiet_buffer, win_off. Qed.
Lemma quiet_znx prefix part key member score : off key → frames quiet (_znx_add (S := mem_store) st prefix part key member score).
Proof. intros H. by apply quiet_buffer, znx_off. Qed.
Lemma quiet_kv key v : off key → frames quiet (_kv_add (S := mem_store) st dumps key v).
Proof. intros H. by apply quiet_buffer, off_quiet. Qed.
Lemma quiet_sadd key m : off key → frames quiet (_sadd_add (S := mem_store) st key m).
Proof. intros H. by apply quiet_buffer, off_quiet. Qed.
Lemma quiet_i2d key now : frames quiet (_i2d_get (S := mem_store) st loads key now).
Proof.
  apply frames_quiet. unfold _i2d_get, _i2d_put. apply (frames_bind still); [apply (frames_read still)|]. intros hit.
  cbv zeta. repeat match goal with |- frames _ (match ?x with _ => _ end) => destruct x end; still_tac; by apply still_modify.
Qed.

Ltac quiet_tac :=
  repeat first
    [ apply (frames_ret quiet) | apply (frames_lift quiet) | apply (frames_raise quiet) | apply quiet_i2d
    | apply frames_quiet, still_plain; lia | apply frames_quiet, still_ask; reflexivity
    | apply frames_quiet, still_modify; done | apply quiet_win; reflexivity | apply quiet_znx; reflexivity | apply quiet_kv; reflexivity | apply quiet_sadd; reflexivity
    | apply (frames_for_each quiet); intros ? | apply (frames_bind quiet); [|intros ?]
    | match goal with |- frames _ (match ?x with _ => _ end) => destruct x end ].

Lemma quiet_legacy now ten src n breed risks :
  frames quiet (emit_legacy (S := mem_store) st stable sha256 dumps repr now ten src n breed risks).
Proof. unfold emit_legacy. quiet_tac. Qed.
Lemma quiet_ndpi now ten src dst n :
  frames quiet (for_each (emit_ndpi (S := mem_store) st stable sha256 dumps now ten) (ndpi_findings repr src dst ten None None None n)).
Proof.
  pose proof (finding_within repr src dst ten None None None n) as H. revert H.
  generalize (ndpi_findings repr src dst ten None None None n) as fs. induction fs as [|f fs IH]; intros H; [apply (frames_ret quiet)|].
  apply (frames_bind quiet).
  - destruct (H f) as (lo & hi & Hb & Hs & Hlo & _); [left|]. apply frames_quiet, still_emit. split; [lia|].
    pose proof (within_le8 (n_category f) (n_severity f) (n_disposition f) (n_confidence f)) as H8.
    specialize (H8 (H f (list_elem_of_here _ _))). lia.
  - intros _. apply IH. intros g Hg. apply H. by right.
Qed.
Lemma quiet_dns now part e : frames quiet (handle_dns (S := mem_store) st dumps repr now part e).
Proof.
  unfold handle_dns, put_answer, _i2d_put. cbv zeta. quiet_tac.
Qed.

(** What a flow record reports of an external destination. *)
Record report := {
  rp_tenant : string; rp_src : string; rp_dst : string; rp_flow : string; rp_bytes : Z; rp_age : Z
}.
Definition report_of (e : dict) : option report :=
  match dgetN "src_ip" e, dgetN "dest_ip" e with
  | VStr src, VStr dst =>
      if val_eq_str (dgetN "event_type" e) "flow" && str_truthy src && str_truthy dst && external st ip_address dst then
        match
          (_ ← _event_epoch repr 0 e; _ ← fields (dict_of "ndpi" e); f ← fields (dict_of "flow" e);
           up ← count_field "bytes_toserver" f; _ ← count_field "bytes_toclient" f; age ← count_field "age" f;
           Ok (f, up, age))
        with
        | Ok (f, up, age) =>
            Some {| rp_tenant := _tenant_of st repr e; rp_src := src; rp_dst := dst;
                    rp_flow := _flow_identity sha1 repr e f; rp_bytes := up; rp_age := age |}
        | Raise _ => None
        end
      else None
  | _, _ => None
  end.
(** The values a record of partition [part] writes at a key. *)
Definition report_key (prefix : string) (part : N) (r : report) : string :=
  pair_key prefix part (rp_tenant r) (rp_src r) (rp_dst r).
Definition written (key k f : string) (v : Z) : flows := if decide (k = key) then [(f, v)] else [].
Definition writes (k : string) (pe : N * dict) : flows :=
  match report_of pe.2 with
  | Some r => written (report_key EX_PFX pe.1 r) k (rp_flow r) (rp_bytes r)
              ++ written (report_key LC_PFX pe.1 r) k (rp_flow r) (rp_age r)
  | None => []
  end.

Definition set_fields (now : Z) (l : flows) (c : cell) : cell :=
  foldl (λ c fv, field_set now fv.1 fv.2 (WINDOW st) (Some (FLOW_CAP st)) c) c l.
(** The buffered writes amount to [L] on the fields. *)
Definition buffered (ops : list batch_op) (L : string → flows) : Prop :=
  ∀ k now c, per_flow k = true → foldl (λ c o, touch now k o c) c ops = set_fields now (L k) c.
Definition notes (L : string → flows) (w w' : Wd) : Prop :=
  (∀ k, fields_at (w_store w') k = fields_at (w_store w) k) ∧
  (∃ ops, w_pending w' = w_pending w ++ ops ∧ buffered ops L) ∧
  ∃ cs, w_sent w' = w_sent w ++ cs ∧ Forall (in_band ∘ snd) cs.

Lemma buffered_app ops1 ops2 L1 L2 : buffered ops1 L1 → buffered ops2 L2 → buffered (ops1 ++ ops2) (λ k, L1 k ++ L2 k).
Proof. intros H1 H2 k now c Hk. unfold set_fields. rewrite !foldl_app. rewrite (H1 k now c Hk). by apply H2. Qed.
Lemma buffered_quiet ops : Forall quiet_op ops → buffered ops (λ _, []).
Proof.
  intros H k now c Hk. induction H as [|o ops Ho _ IH] in c |- *; [done|]. simpl. by rewrite Ho, IH.
Qed.
Lemma notes_trans L1 L2 w1 w2 w3 : notes L1 w1 w2 → notes L2 w2 w3 → notes (λ k, L1 k ++ L2 k) w1 w3.
Proof.
  intros (H1 & (o1 & P1 & B1) & cs & S1 & F1) (H2 & (o2 & P2 & B2) & ds & S2 & F2).
  split_and!; [intros k; congruence|exists (o1 ++ o2)|exists (cs ++ ds)]; rewrite ?P2, ?P1, ?S2, ?S1, app_assoc.
  - split; [done|by apply buffered_app].
  - split; [done|by apply Forall_app].
Qed.
Lemma notes_quiet w w' : quiet w w' → notes (λ _, []) w w'.
Proof. intros (H1 & (ops & P & Q) & H3). split_and!; [done|exists ops|done]. split; [done|by apply buffered_quiet]. Qed.
Lemma notes_ext L L' w w' : (∀ k, L k = L' k) → notes L w w' → notes L' w w'.
Proof.
  intros He (H1 & (ops & P & B) & H3). split_and!; [done|exists ops; split; [done|]|done].
  intros k now c Hk. rewrite <- He. by apply B.
Qed.

Lemma notes_bind {A B} L (m : M Wd A) (k : A → M Wd B) :
  frames (notes L) m → (∀ a, frames quiet (k a)) → frames (notes L) (bind m k).
Proof.
  intros Hm Hk w. unfold bind. specialize (Hm w). destruct (m w) as [w1 [a|e]]; simpl in *; [|done].
  apply (notes_ext (λ x, L x ++ [])); [intros x; by rewrite app_nil_r|]. eapply notes_trans; [done|].
  apply notes_quiet, Hk.
Qed.
Lemma notes_after {A} L o (m : M Wd A) : quiet_op o → frames (notes L) m → frames (notes L) (buffer o;* m).
Proof.
  intros Ho Hm w. apply (notes_ext (λ x, [] ++ L x)); [done|]. eapply (notes_trans (λ _, [])); [|apply Hm].
  apply notes_quiet. by apply (quiet_buffer o Ho w).
Qed.
Lemma notes_fset {A} L prefix part key f v (m : M Wd A) :
  per_flow key = true → frames (notes L) m →
  frames (notes (λ k, written key k f v ++ L k)) (_fset_add st prefix part key f v;* m).
Proof.
  intros Hkey Hm w. eapply notes_trans; [|apply Hm]. split_and!; [done| |exists []; by rewrite app_nil_r].
  eexists. split; [reflexivity|]. intros k now c Hk. simpl. unfold touch, written. cbn [batch_key batch_main].
  pose proof (off_idx prefix part) as Hi. unfold off in Hi.
  destruct (_idx st prefix part) as [i|]; simpl; [rewrite (decide_False (P := k = i)) by (intros ->; congruence)|]; by case_decide.
Qed.
Lemma notes_lift {A B} L (r : res A) (k : A → M Wd B) :
  match r with Ok a => frames (notes L) (k a) | Raise _ => ∀ x, L x = [] end → frames (notes L) (bind (lift r) k).
Proof.
  intros H w. unfold bind, lift. destruct r; [apply H|]. apply (notes_ext (λ _, [])); [done|].
  apply notes_quiet. reflexivity.
Qed.

Lemma per_flow_ex part ten src dst : per_flow (pair_key EX_PFX part ten src dst) = true.
Proof. unfold per_flow, pair_key. by rewrite starts_window. Qed.
Lemma per_flow_lc part ten src dst : per_flow (pair_key LC_PFX part ten src dst) = true.
Proof. unfold per_flow, pair_key. by rewrite (starts_window LC_PFX), orb_true_r. Qed.

Lemma notes_external now part e f ten src dst evt up b age breed risks :
  frames (notes (λ k, written (pair_key EX_PFX part ten src dst) k (_flow_identity sha1 repr e f) up
                      ++ written (pair_key LC_PFX part ten src dst) k (_flow_identity sha1 repr e f) age))
    (external_writes (S := mem_store) st sha1 dumps repr loads now part e f ten src dst evt up b age breed risks).
Proof.
  unfold external_writes. cbv zeta. unfold _kv_add at 1, _sadd_add at 1, _win_add at 1, _znx_add at 1.
  do 2 (apply notes_after; [by apply off_quiet|]). apply notes_fset; [apply per_flow_ex|].
  apply notes_after; [by apply win_off|].
  intros w. apply (notes_ext (λ k, written (pair_key LC_PFX part ten src dst) k (_flow_identity sha1 repr e f) age ++ [])).
  { intros k. by rewrite app_nil_r. }
  revert w. apply notes_fset; [apply per_flow_lc|].
  apply notes_after; [by apply znx_off|].
  intros w. apply notes_quiet. revert w. quiet_tac.
Qed.

Lemma epoch_ok now e : is_ok (_event_epoch repr now e) = is_ok (_event_epoch repr 0 e).
Proof. unfold _event_epoch. by destruct (get_of _ _). Qed.
Lemma quiet_rest now ten src dst n breed risks age :
  frames quiet
    ((if STRUCTURED st
      then for_each (emit_ndpi (S := mem_store) st stable sha256 dumps now ten) (ndpi_findings repr src dst ten None None None (VDict n))
      else emit_legacy st stable sha256 dumps repr now ten src n breed risks);*
     let l := longconn_check (EXTRA_INTERNAL st) ip_address round3 (of_int age) dst (lit "3600.0") in
     if l.1 then
       emit_plain st stable sha256 dumps now "long_connection" "c2" 5 l.2
         [ip_entity "src" src; ip_entity "dst" dst; value_entity "duration_s" (VInt age)] ten None
     else ret tt).
Proof.
  apply (frames_bind quiet).
  - destruct (STRUCTURED st); [apply quiet_ndpi|apply quiet_legacy].
  - intros _. cbv zeta. destruct (_.1); [apply frames_quiet, still_plain; lia|apply (frames_ret quiet)].
Qed.

Lemma writes_none k part e : report_of e = None → writes k (part, e) = [].
Proof. intros H. unfold writes. simpl. by rewrite H. Qed.

Lemma notes_none {A} part e (m : M Wd A) :
  report_of e = None → frames quiet m → frames (notes (λ k, writes k (part, e))) m.
Proof.
  intros Hr Hm w. apply (notes_ext (λ _, [])); [intros k; by rewrite writes_none|]. apply notes_quiet, Hm.
Qed.

Lemma notes_flow now part e :
  val_eq_str (dgetN "event_type" e) "flow" = true →
  frames (notes (λ k, writes k (part, e)))
    (handle_flow (S := mem_store) st ip_address round3 stable sha1 sha256 dumps repr loads now part e).
Proof.
  intros Het. pose proof (notes_none (A := unit) part e) as Hq. pose proof (λ k, writes_none k part e) as Hn.
  unfold handle_flow, writes, report_of in *. cbn [fst snd] in *. rewrite Het in *.
  destruct (dgetN "src_ip" e) as [| | | |src| |]; try (apply Hq; [done|quiet_tac]).
  destruct (dgetN "dest_ip" e) as [| | | |dst| |]; try (apply Hq; [done|quiet_tac]).
  destruct (str_truthy src); [|apply Hq; [done|apply (frames_ret quiet)]].
  destruct (str_truthy dst); [|apply Hq; [done|apply (frames_ret quiet)]].
  cbn [andb negb] in *. cbv zeta.
  destruct (external st ip_address dst) eqn:Hx.
  2: { apply Hq; [done|].
       do 6 (apply (frames_bind quiet); [apply (frames_lift quiet)|intros ?]).
       apply (frames_bind quiet); [apply (frames_ret quiet)|]. intros _. apply quiet_rest. }
  clear Hq. pose proof (epoch_ok now e) as Hep. apply notes_lift.
  destruct (_event_epoch repr now e) as [evt|]; destruct (_event_epoch repr 0 e) as [evt0|]; try done.
  rewrite bind_ok in *. apply notes_lift. destruct (fields (dict_of "ndpi" e)) as [n|]; [|by intros k; apply Hn].
  rewrite bind_ok in *. apply notes_lift. destruct (fields (dict_of "flow" e)) as [f|]; [|by intros k; apply Hn].
  rewrite bind_ok in *. apply notes_lift. destruct (count_field "bytes_toserver" f) as [up|]; [|by intros k; apply Hn].
  rewrite bind_ok in *. apply notes_lift. destruct (count_field "bytes_toclient" f) as [down|]; [|by intros k; apply Hn].
  rewrite bind_ok in *. apply notes_lift. destruct (count_field "age" f) as [age|]; [|by intros k; apply Hn].
  apply notes_bind; [apply notes_external|]. intros _. apply quiet_rest.
Qed.

Abbreviation handle' := (_handle (S := mem_store) st ip_address round3 stable sha1 sha256 dumps repr loads).
Lemma notes_handle now part e : frames (notes (λ k, writes k (part, e))) (handle' now part e).
Proof.
  unfold _handle. destruct (val_eq_str (dgetN "event_type" e) "flow") eqn:Het; [by apply notes_flow|].
  assert (Hr : report_of e = None) by (unfold report_of; rewrite Het; by repeat case_match).
  destruct (val_eq_str (dgetN "event_type" e) "dns"); apply notes_none; [done|apply quiet_dns|done|apply (frames_ret quiet)].
Qed.
End detectors.

(** ** Histories *)

Section history.
Context (cfg : config) (st : settings).
Context (ip_address : string → option bool) (round1 round3 sqrt log2 : float → float) (fsum : list float → float).
Context (stable : string → Z) (sha1 sha256 : string → string) (dumps repr : val → string) (loads : string → res val).
Abbreviation Wd := (world mem_store).
Abbreviation act' :=
  (act (S := mem_store) cfg st ip_address round1 round3 sqrt log2 fsum stable sha1 sha256 dumps repr loads).
Abbreviation run' :=
  (run (S := mem_store) cfg st ip_address round1 round3 sqrt log2 fsum stable sha1 sha256 dumps repr loads).
Abbreviation one' := (one (S := mem_store) st ip_address round3 stable sha1 sha256 dumps repr loads).
Abbreviation writes' := (writes st ip_address sha1 repr).
#[local] Existing Instance quiet_preorder.
Definition start : Wd := World ∅ [] [] [] 0.

Definition polled (ta : Z * activity) : list (N * dict) :=
  match ta.2 with on_poll rs _ => rs | on_eval _ _ => [] end.
(** The records the activities delivered, in order. *)
Definition delivered (acts : list (Z * activity)) : list (N * dict) := concat (polled <$> acts).
Definition flushed (ta : Z * activity) : Prop := match ta.2 with on_poll _ b => b = true | on_eval _ _ => True end.
Definition all_writes (k : string) (rs : list (N * dict)) : flows := concat (writes' k <$> rs).

Lemma all_writes_app k rs rs' : all_writes k (rs ++ rs') = all_writes k rs ++ all_writes k rs'.
Proof. unfold all_writes. by rewrite fmap_app, concat_app. Qed.
Lemma delivered_app acts acts' : delivered (acts ++ acts') = delivered acts ++ delivered acts'.
Proof. unfold delivered. by rewrite fmap_app, concat_app. Qed.

Lemma notes_records now rs (w : Wd) : notes st (λ k, all_writes k rs) w (foldl (one' now) w rs).
Proof.
  revert w. induction rs as [|[part e] rs IH]; intros w; [apply notes_quiet; reflexivity|]. simpl foldl.
  eapply (notes_trans st (λ k, writes' k (part, e))); [|apply IH]. apply notes_handle.
Qed.

(** A poll whose buffer is flushed applies the writes of its records. *)
Lemma poll_fields now rs (w : Wd) k :
  w_pending w = [] → per_flow k = true →
  ∃ c, view c = fields_at (w_store w) k ∧
       fields_at (w_store (act' now (on_poll rs true) w)) k = view (set_fields st now (all_writes k rs) c).
Proof.
  intros Hp Hk. destruct (notes_records now rs w) as (Hs & (ops & Hops & Hb) & _). rewrite Hp in Hops. simpl in Hops.
  exists (cell_at (w_store (foldl (one' now) w rs)) k). split; [apply Hs|].
  rewrite <- (Hb k now _ Hk). simpl. unfold _flush_pending. rewrite Hops. destruct ops as [|o ops]; [done|]. cbn [w_store fst].
  unfold ws_step, in_memory, fields_at. cbn [fst]. by rewrite pipeline_touch.
Qed.
Lemma act_pending now a (w : Wd) : w_pending w = [] → w_pending (act' now a w) = [].
Proof.
  intros Hp. destruct a as [rs [|]|flow dns]; simpl; [|done|].
  - unfold _flush_pending. by destruct (w_pending (foldl _ w rs)) eqn:E.
  - pose proof (still_evaluate cfg st ip_address round1 round3 sqrt log2 fsum stable sha256 dumps loads now flow dns w Hp) as H.
    by rewrite (proj1 (proj2 H)).
Qed.
Lemma eval_fields now flow dns (w : Wd) k :
  w_pending w = [] → fields_at (w_store (act' now (on_eval flow dns) w)) k = fields_at (w_store w) k.
Proof.
  intros Hp. pose proof (still_evaluate cfg st ip_address round1 round3 sqrt log2 fsum stable sha256 dumps loads now flow dns w Hp) as H.
  apply H.
Qed.
Lemma run_pending acts (w : Wd) : w_pending w = [] → w_pending (run' w acts) = [].
Proof. revert w. induction acts as [|[t a] acts IH]; intros w H; [done|]. apply IH. by apply act_pending. Qed.

(** *** Fields in an open window *)

Definition open_until (D : Z) (v : option flows * option Z) : Prop := match v.2 with Some e => D <= e | None => True end.
Definition hash_of (v : option flows * option Z) : flows := default [] v.1.

Lemma field_set_open now D f v c :
  now < D <= now + WINDOW st → open_until D (view c) →
  open_until D (view (field_set now f v (WINDOW st) (Some (FLOW_CAP st)) c)) ∧
  hash_of (view (field_set now f v (WINDOW st) (Some (FLOW_CAP st)) c)) = put_field (FLOW_CAP st) (hash_of (view c)) (f, v).
Proof.
  intros Hn Ho. unfold field_set, fresh_h, _alive, open_until, hash_of, view, put_field in *. cbn [fst snd] in *.
  destruct (c_exp c) as [e|] eqn:E; [rewrite (proj2 (Z.ltb_lt now e)) by lia|]; cbn [c_exp c_h set_exp set_h fst snd default];
    rewrite E; cbn; (split; [lia|done]).
Qed.
Lemma set_fields_open now D l c :
  now < D <= now + WINDOW st → open_until D (view c) →
  open_until D (view (set_fields st now l c)) ∧
  hash_of (view (set_fields st now l c)) = foldl (put_field (FLOW_CAP st)) (hash_of (view c)) l.
Proof.
  intros Hn. revert c. induction l as [|[f v] l IH]; intros c Ho; [done|]. unfold set_fields in *. cbn [foldl fst snd].
  destruct (field_set_open now D f v c Hn Ho) as [H1 H2]. rewrite <- H2. by apply IH.
Qed.

Definition inside (D : Z) (ta : Z * activity) : Prop := ta.1 < D <= ta.1 + WINDOW st.
Lemma run_fields D acts (w : Wd) k :
  w_pending w = [] → per_flow k = true → open_until D (fields_at (w_store w) k) →
  Forall flushed acts → Forall (inside D) acts →
  open_until D (fields_at (w_store (run' w acts)) k) ∧
  hash_of (fields_at (w_store (run' w acts)) k)
  = foldl (put_field (FLOW_CAP st)) (hash_of (fields_at (w_store w) k)) (all_writes k (delivered acts)).
Proof.
  intros Hp Hk Ho Hf Hi. revert w Hp Ho. induction acts as [|[t a] acts IH]; intros w Hp Ho; [done|].
  inversion Hf as [|? ? Ha Hf']; inversion Hi as [|? ? Ht Hi']; subst. unfold delivered. rewrite fmap_cons. cbn [concat].
  rewrite all_writes_app, foldl_app.
  assert (H : open_until D (fields_at (w_store (act' t a w)) k) ∧
    hash_of (fields_at (w_store (act' t a w)) k)
    = foldl (put_field (FLOW_CAP st)) (hash_of (fields_at (w_store w) k)) (all_writes k (polled (t, a)))).
  { destruct a as [rs b|flow dns]; [|by rewrite eval_fields]. unfold flushed in Ha. simpl in Ha. subst b.
    destruct (poll_fields t rs w k Hp Hk) as (c & Hc & ->). rewrite <- Hc in *. by apply set_fields_open. }
  destruct H as [H1 H2]. rewrite <- H2. apply IH; [done|done|by apply act_pending|done].
Qed.

(** *** Hashes are dictionaries, and no flow takes the name of the counter *)

Lemma field_set_wf now f v c :
  od_wf (hash_of (view c)) → od_wf (hash_of (view (field_set now f v (WINDOW st) (Some (FLOW_CAP st)) c))).
Proof.
  intros H. set (h := if _alive now c then hash_of (view c) else []).
  assert (E : hash_of (view (field_set now f v (WINDOW st) (Some (FLOW_CAP st)) c)) = put_field (FLOW_CAP st) h (f, v)).
  { unfold field_set, fresh_h, hash_of, view, put_field, h. by destruct (_alive now c). }
  rewrite E. apply put_field_wf. unfold h. destruct (_alive now c); [done|apply od_wf_nil].
Qed.
Lemma set_fields_wf now l c : od_wf (hash_of (view c)) → od_wf (hash_of (view (set_fields st now l c))).
Proof. revert c. induction l as [|[f v] l IH]; intros c H; [done|]. by apply IH, field_set_wf. Qed.
Lemma run_wf acts (w : Wd) k :
  w_pending w = [] → per_flow k = true → od_wf (hash_of (fields_at (w_store w) k)) →
  od_wf (hash_of (fields_at (w_store (run' w acts)) k)).
Proof.
  intros Hp Hk. revert w Hp. induction acts as [|[t a] acts IH]; intros w Hp Hw; [done|].
  apply IH; [by apply act_pending|]. simpl. destruct a as [rs [|]|flow dns].
  - destruct (poll_fields t rs w k Hp Hk) as (c & Hc & ->). rewrite <- Hc in Hw. by apply set_fields_wf.
  - destruct (notes_records t rs w) as (Hs & _). simpl. by rewrite Hs.
  - by rewrite eval_fields.
Qed.

Lemma identity_named e f : _flow_identity sha1 repr e f ≠ REFUSED_FIELD.
Proof. unfold _flow_identity. cbv zeta. repeat case_match; intros Hx; discriminate Hx. Qed.
Lemma writes_elem k pe fv :
  fv ∈ writes' k pe →
  ∃ r, report_of st ip_address sha1 repr pe.2 = Some r ∧ fv.1 = rp_flow r ∧
       (k = report_key EX_PFX pe.1 r ∧ fv.2 = rp_bytes r ∨ k = report_key LC_PFX pe.1 r ∧ fv.2 = rp_age r).
Proof.
  unfold writes, written. destruct (report_of _ _ _ _ _) as [r|]; [|by intros ?%elem_of_nil].
  intros H. exists r. split; [done|]. apply elem_of_app in H as [H|H]; case_decide; try (by apply elem_of_nil in H);
    apply list_elem_of_singleton in H; subst fv; (split; [done|]); [by left|by right].
Qed.
Lemma report_named e r : report_of st ip_address sha1 repr e = Some r → rp_flow r ≠ REFUSED_FIELD.
Proof. unfold report_of. repeat case_match; try done. intros [= <-]. apply identity_named. Qed.
Lemma all_writes_elem k rs fv : fv ∈ all_writes k rs → ∃ pe, pe ∈ rs ∧ fv ∈ writes' k pe.
Proof.
  intros (l & Hl & Hfv)%list_elem_of_In%in_concat. apply list_elem_of_In, list_elem_of_fmap in Hl as (pe & -> & Hpe).
  exists pe. split; [done|by apply list_elem_of_In].
Qed.
Lemma all_writes_named k rs : Forall (λ fv, fv.1 ≠ REFUSED_FIELD) (all_writes k rs).
Proof.
  apply Forall_forall. intros fv (pe & _ & (r & Hr & -> & _)%writes_elem)%all_writes_elem. by eapply report_named.
Qed.

Lemma puts_flows h L :
  od_wf h → Forall (λ fv : string * Z, fv.1 ≠ REFUSED_FIELD) L →
  flows_of (foldl (put_field (FLOW_CAP st)) h L) = foldl (put_flow (FLOW_CAP st)) (flows_of h) L.
Proof.
  intros Hw HL. revert h Hw. induction HL as [|fv L Hfv _ IH]; intros h Hw; [done|]. simpl.
  rewrite IH by by apply put_field_wf. by rewrite put_field_flows.
Qed.

(** *** Partitions *)

(** The records of one partition. *)
Definition of_part (p : N) (rs : list (N * dict)) : list (N * dict) := List.filter (λ pe, N.eqb pe.1 p) rs.
Definition key_part (k : string) : N := Z.to_N (default 0 (parse_int (_part_of k))).
Lemma per_flow_prefixes : is_prefix EX_PFX ∧ is_prefix LC_PFX.
Proof. split; [by exists "exf"|by exists "lcf"]. Qed.
Lemma writes_part k pe fv : fv ∈ writes' k pe → pe.1 = key_part k.
Proof.
  intros (r & _ & _ & [[-> _]|[-> _]])%writes_elem; unfold key_part, report_key, pair_key;
    rewrite part_of_window by apply per_flow_prefixes; rewrite parse_int_pretty; simpl; by rewrite N2Z.id.
Qed.
Lemma all_writes_part k rs : all_writes k rs = all_writes k (of_part (key_part k) rs).
Proof.
  unfold all_writes, of_part. induction rs as [|pe rs IH]; [done|]. rewrite fmap_cons. cbn [concat List.filter]. rewrite IH.
  destruct (N.eqb_spec pe.1 (key_part k)) as [_|Hne]; [done|].
  destruct (writes' k pe) as [|fv l] eqn:E; [done|]. destruct Hne. apply (writes_part k pe fv). rewrite E. left.
Qed.

(** *** Redelivery *)

Lemma fields_get_open D now c :
  now < D → open_until D (view c) → (fields_get now c).1 = flows_of (hash_of (view c)) ∧
  (fields_get now c).2 = default 0 (od_get REFUSED_FIELD (hash_of (view c))).
Proof.
  intros Hn Ho. unfold fields_get, _alive. unfold open_until, view in Ho. cbn [snd] in Ho.
  destruct (c_exp c) as [e|]; [rewrite (proj2 (Z.ltb_lt now e)) by lia|]; done.
Qed.
Lemma start_fields k : fields_at (w_store start) k = (None, None).
Proof. unfold fields_at, cell_at, start. simpl. by rewrite lookup_empty. Qed.

(** C17. Redelivery is absorbed: whatever happened before, when the records of every
    partition that are delivered again are a suffix of those delivered, in whatever
    batches and interleaving of the partitions, every batch is flushed to the store before
    the next is read, and all of it happens while the window of a pair is open, then the flows of the pair and the bytes or seconds of each are
    exactly those of a single delivery, also when the cap on flows was reached. *)
Theorem redelivery_absorbed before acts again D now k :
  per_flow k = true →
  open_until D (fields_at (w_store (run' start before)) k) →
  Forall flushed (acts ++ again) → Forall (inside D) (acts ++ again) → now < D →
  (∀ p, of_part p (delivered again) `suffix_of` of_part p (delivered acts)) →
  (fields_get now (cell_at (w_store (run' (run' start before) (acts ++ again))) k)).1
  = (fields_get now (cell_at (w_store (run' (run' start before) acts)) k)).1.
Proof.
  intros Hk Ho Hf Hi Hn Hsuf. set (w := run' start before) in *.
  assert (Hp : w_pending w = []) by by apply run_pending.
  assert (Hw : od_wf (hash_of (fields_at (w_store w) k))).
  { apply run_wf; [done|done|]. rewrite start_fields. apply od_wf_nil. }
  apply Forall_app in Hf as HfA. apply Forall_app in Hi as HiA.
  destruct (run_fields D acts w k Hp Hk Ho (proj1 HfA) (proj1 HiA)) as [O1 E1].
  destruct (run_fields D (acts ++ again) w k Hp Hk Ho Hf Hi) as [O2 E2].
  rewrite (proj1 (fields_get_open D now _ Hn O1)), (proj1 (fields_get_open D now _ Hn O2)).
  fold (fields_at (w_store (run' w acts)) k) (fields_at (w_store (run' w (acts ++ again))) k).
  rewrite E1, E2, !puts_flows by (done || apply all_writes_named).
  rewrite delivered_app, all_writes_app, foldl_app, (all_writes_part k (delivered acts)), (all_writes_part k (delivered again)).
  destruct (Hsuf (key_part k)) as [older ->]. rewrite all_writes_app, foldl_app. apply puts_again, puts_wf.
  by apply flows_of_wf.
Qed.

(** *** What a pair's fields are *)

(** What the records whose key is [k] report. *)
Definition reported (prefix : string) (value : report → Z) (k : string) (rs : list (N * dict)) : flows :=
  omap (λ pe, match report_of st ip_address sha1 repr pe.2 with
              | Some r => if decide (k = report_key prefix pe.1 r) then Some (rp_flow r, value r) else None
              | None => None
              end) rs.


Lemma all_writes_cons k pe rs : all_writes k (pe :: rs) = writes' k pe ++ all_writes k rs.
Proof. done. Qed.
Lemma reported_cons prefix value k pe rs :
  reported prefix value k (pe :: rs)
  = match report_of st ip_address sha1 repr pe.2 with
    | Some r => written (report_key prefix pe.1 r) k (rp_flow r) (value r)
    | None => []
    end ++ reported prefix value k rs.
Proof. unfold reported, written. simpl. destruct (report_of _ _ _ _ _) as [r|]; [|done]. by case_decide. Qed.
Lemma key_prefix prefix part r k :
  is_prefix prefix → starts_with prefix k = true → ∀ q, is_prefix q → k = report_key q part r → q = prefix.
Proof. intros Hp Hs q Hq ->. symmetry. by eapply starts_prefix_inv. Qed.
Lemma all_writes_bytes k rs : starts_with EX_PFX k = true → all_writes k rs = reported EX_PFX rp_bytes k rs.
Proof.
  intros Hk. induction rs as [|pe rs IH]; [done|]. rewrite all_writes_cons, reported_cons, IH. f_equal. unfold writes.
  destruct (report_of _ _ _ _ _) as [r|]; [|done]. unfold written at 2. case_decide as E; [|by rewrite app_nil_r].
  apply (key_prefix EX_PFX) in E; [done|apply per_flow_prefixes|done|apply per_flow_prefixes].
Qed.
Lemma all_writes_seconds k rs : starts_with LC_PFX k = true → all_writes k rs = reported LC_PFX rp_age k rs.
Proof.
  intros Hk. induction rs as [|pe rs IH]; [done|]. rewrite all_writes_cons, reported_cons, IH. f_equal. unfold writes.
  destruct (report_of _ _ _ _ _) as [r|]; [|done]. unfold written at 1. case_decide as E; [|done].
  apply (key_prefix LC_PFX) in E; [done|apply per_flow_prefixes|done|apply per_flow_prefixes].
Qed.

Lemma history_fields acts D now k :
  per_flow k = true → Forall flushed acts → Forall (inside D) acts → now < D →
  Z.of_nat (length (remove_dups (all_writes k (delivered acts)).*1)) <= FLOW_CAP st →
  fields_get now (cell_at (w_store (run' start acts)) k) = (latest (all_writes k (delivered acts)), 0).
Proof.
  intros Hk Hf Hi Hn Hc.
  destruct (run_fields D acts start k eq_refl Hk) as [O E]; [by rewrite start_fields|done|done|].
  rewrite start_fields in E. unfold hash_of at 2 in E. cbn [default fst] in E. rewrite puts_latest in E by (done || apply all_writes_named).
  destruct (fields_get_open D now _ Hn O) as [E1 E2]. fold (fields_at (w_store (run' start acts)) k) in E1, E2. rewrite E in E1, E2.
  assert (Hno : REFUSED_FIELD ∉ od_keys (latest (all_writes k (delivered acts)))).
  { intros H%latest_keys. pose proof (all_writes_named k (delivered acts)) as HL. rewrite Forall_forall in HL.
    apply list_elem_of_fmap in H as (y & Hy & Hin). by apply (HL y). }
  rewrite (surjective_pairing (fields_get _ _)), E1, E2. f_equal.
  - apply flows_of_id. done.
  - apply od_get_none in Hno. by rewrite Hno.
Qed.

(** The flows of a pair: from the start and while its window is open, in whatever
    batches the records come and however often evaluations run between them, the bytes
    and the seconds of a pair read back are exactly the dictionary of the value each flow
    reported last, one entry per flow in order of appearance, and nothing was refused,
    as long as the pair has no more flows than the cap. *)
Theorem pair_fields_exact acts D now k :
  Forall flushed acts → Forall (inside D) acts → now < D →
  (starts_with EX_PFX k = true →
   let L := reported EX_PFX rp_bytes k (delivered acts) in
   Z.of_nat (length (remove_dups L.*1)) <= FLOW_CAP st →
   fields_get now (cell_at (w_store (run' start acts)) k) = (latest L, 0)) ∧
  (starts_with LC_PFX k = true →
   let L := reported LC_PFX rp_age k (delivered acts) in
   Z.of_nat (length (remove_dups L.*1)) <= FLOW_CAP st →
   fields_get now (cell_at (w_store (run' start acts)) k) = (latest L, 0)).
Proof.
  intros Hf Hi Hn. split; intros Hk L Hc; unfold L in *.
  - rewrite <- all_writes_bytes in * by done. apply (history_fields acts D); [|done..]. unfold per_flow. by rewrite Hk.
  - rewrite <- all_writes_seconds in * by done. apply (history_fields acts D); [|done..]. unfold per_flow. by rewrite Hk, orb_true_r.
Qed.

(** *** Severities *)

(** Every candidate any detector sends, at any time, has a severity of the finding
    contract: from 1 to 10. *)
Theorem severities_in_contract acts : Forall (in_band ∘ snd) (w_sent (run' start acts)).
Proof.
  assert (H : w_pending start = [] ∧ Forall (in_band ∘ snd) (w_sent start)) by (split; [done|constructor]).
  revert H. generalize start as w. induction acts as [|[t a] acts IH]; intros w [Hp Hs]; [done|].
  apply IH. split; [by apply act_pending|]. simpl. destruct a as [rs b|flow dns].
  - destruct (notes_records t rs w) as (_ & _ & cs & E & Hcs). simpl.
    assert (Hb : Forall (in_band ∘ snd) (w_sent (foldl (one' t) w rs))) by (rewrite E; by apply Forall_app).
    destruct b; [|done]. unfold _flush_pending. by destruct (w_pending (foldl (one' t) w rs)).
  - destruct (still_evaluate cfg st ip_address round1 round3 sqrt log2 fsum stable sha256 dumps loads t flow dns w Hp)
      as (_ & _ & cs & E & Hcs). cbn [act]. rewrite E. by apply Forall_app.
Qed.
End history.

(** ** A concrete service *)

Module Demo.
Definition cfg : config :=
  {| c_beacon_threshold := lit "0.7"; c_beacon_count_target := 20; c_strobe_min_conns := 60; c_exfil_bytes := 50000000;
     c_dns_min_queries := 50; c_dns_len_threshold := lit "40.0"; c_dns_entropy_threshold := lit "3.8";
     c_exploded_min_subdomains := 100; c_longconn_cum_secs := None; c_longconn_cum_min_conns := 4 |}.
Definition st : settings :=
  {| TENANT := "default"; WINDOW := 600000000; CUM_LONGCONN_SECS := lit "300.0"; STRUCTURED := true; I2D_TTL := 600000000;
     I2D_NEG_TTL := 5000000; I2D_CACHE_MAX := 50000; FQDN_BEACON_MIN_IPS := 2; AUTOCORR := false;
     AUTOCORR_KW := {| ac_min_conns := 8; ac_min_cycles := lit "4.0"; ac_max_lag_fraction := half; ac_bins_per_period := 10;
                       ac_max_bins := 512 |};
     AUTOCORR_THRESHOLD := lit "0.6"; AUTOCORR_COUNT_TARGET := 20; AUTOCORR_MIN_STRENGTH := half; FLOW_CAP := 2;
     ENUM_INDEX := true; EXTRA_INTERNAL := []; BEACON_ALLOW := []; EXFIL_ALLOW := [] |}.
Definition text (v : val) : string := match v with VStr s => s | _ => "" end.
Definition service (acts : list (Z * activity)) : world mem_store :=
  run cfg st (λ _, None) id id id id (foldr fadd f0) (λ _, 0) id id text text (λ _, Raise ValueError) start acts.
(** A record of the flow [id] of a sensor, with the bytes sent and the age so far. *)
Definition seen (id bytes age : Z) : N * dict :=
  (3%N, [("event_type", VStr "flow"); ("src_ip", VStr "10.0.0.5"); ("dest_ip", VStr "203.0.113.9"); ("host", VStr "tap");
         ("flow_id", VInt id); ("timestamp", VStr "2026-01-01T00:00:00Z");
         ("flow", VDict [("bytes_toserver", VInt bytes); ("age", VInt age)])]).
Definition t0 : Z := 1767225600000000.
Definition flows_at (prefix : string) (now : Z) (w : world mem_store) : list (string * Z) * Z :=
  fields_get now (cell_at (w_store w) (pair_key prefix 3 "default" "10.0.0.5" "203.0.113.9")).
(** Two polls with an evaluation between them; a third flow meets the cap. *)
Definition first : list (Z * activity) :=
  [(t0, on_poll [seen 1 100 5; seen 2 40 1] true); (t0 + 1000000, on_eval (Some [3%N]) None);
   (t0 + 2000000, on_poll [seen 1 250 9; seen 3 7 2] true)].
Definition again : list (Z * activity) := [(t0 + 9000000, on_poll [seen 2 40 1; seen 1 250 9; seen 3 7 2] true)].
End Demo.

Lemma redelivery_absorbed_witness :
  Demo.flows_at EX_PFX (Demo.t0 + 10000000) (Demo.service Demo.first) = ([("s|tap|1", 250); ("s|tap|2", 40)], 1) ∧
  (Demo.flows_at EX_PFX (Demo.t0 + 10000000) (Demo.service (Demo.first ++ Demo.again))).1
  = (Demo.flows_at EX_PFX (Demo.t0 + 10000000) (Demo.service Demo.first)).1.
Proof.
  split; [vm_compute; reflexivity|].
  apply (redelivery_absorbed Demo.cfg Demo.st (λ _, None) id id id id (foldr fadd f0) (λ _, 0) id id Demo.text Demo.text
           (λ _, Raise ValueError) [] Demo.first Demo.again (Demo.t0 + 600000000)).
  - vm_compute. reflexivity.
  - vm_compute. exact I.
  - repeat constructor.
  - unfold Demo.first, Demo.again. repeat (constructor; [unfold inside, Demo.t0; simpl; lia|]). constructor.
  - unfold Demo.t0. lia.
  - intros p. destruct (N.eqb_spec 3 p) as [<-|Hne].
    + exists [Demo.seen 1 100 5]. vm_compute. reflexivity.
    + exists []. apply N.eqb_neq in Hne. unfold of_part, delivered, Demo.first, Demo.again, Demo.seen. cbn [fmap list_fmap polled snd concat app List.filter fst].
      by rewrite Hne.
Defined.

Lemma pair_fields_exact_witness :
  let acts := [(Demo.t0, on_poll [Demo.seen 1 100 5; Demo.seen 2 40 1] true); (Demo.t0 + 1000000, on_eval (Some [3%N]) None);
               (Demo.t0 + 2000000, on_poll [Demo.seen 1 250 9] true)] in
  Demo.flows_at EX_PFX (Demo.t0 + 10000000) (Demo.service acts) = ([("s|tap|1", 250); ("s|tap|2", 40)], 0) ∧
  Demo.flows_at LC_PFX (Demo.t0 + 10000000) (Demo.service acts) = ([("s|tap|1", 9); ("s|tap|2", 1)], 0).
Proof.
  intros acts.
  assert (H : Forall flushed acts ∧ Forall (inside Demo.st (Demo.t0 + 600000000)) acts ∧ Demo.t0 + 10000000 < Demo.t0 + 600000000).
  { split_and!; [repeat constructor| |unfold Demo.t0; lia]. unfold acts.
    repeat (constructor; [unfold inside, Demo.t0; simpl; lia|]). constructor. }
  destruct H as (Hf & Hi & Hn).
  destruct (pair_fields_exact Demo.cfg Demo.st (λ _, None) id id id id (foldr fadd f0) (λ _, 0) id id Demo.text Demo.text
              (λ _, Raise ValueError) acts _ _ (pair_key EX_PFX 3 "default" "10.0.0.5" "203.0.113.9") Hf Hi Hn) as [Hx _].
  destruct (pair_fields_exact Demo.cfg Demo.st (λ _, None) id id id id (foldr fadd f0) (λ _, 0) id id Demo.text Demo.text
              (λ _, Raise ValueError) acts _ _ (pair_key LC_PFX 3 "default" "10.0.0.5" "203.0.113.9") Hf Hi Hn) as [_ Hl].
  split; [etrans; [apply Hx|]|etrans; [apply Hl|]]; vm_compute; first [reflexivity|discriminate].
Defined.
