(* ===== verification/ProtocolScores.v ===== *)
(** * Protocol checks (services/protocol-detectors/proto.py) and provenance (shared/provenance.py)

    Pure checks of TLS, QUIC, HTTP, SSH and ICMP records.  A check answers the reason it
    fires for, or raises on a value of the wrong type.  The address predicates repeat those
    of the behavioral detectors ([is_external] of [BehavioralScores]).  Instants and spans
    are microseconds; [repr] is the text of containers and floats. *)

From S2P Require Import Prelude Order PyVal PyString PyTime BehavioralScores.
Set Default Proof Using "Type".

(** ** JA4 fingerprints *)

Definition hex_char (c : ascii) : bool := is_digit c || between 97 102 (code c).
Definition low_alnum (c : ascii) : bool := is_digit c || is_lower c.
Definition ja4_versions : list string := ["10"; "11"; "12"; "13"; "s2"; "s3"; "d1"; "d2"; "00"].
Definition ja4_tail : list (ascii → bool) :=
  one_of "di" :: replicate 4 is_digit ++ replicate 2 low_alnum ++ one_of "_" :: replicate 12 hex_char ++
  one_of "_" :: replicate 12 hex_char.
(** [re.fullmatch] of the JA4 shape. *)
Definition ja4_text (s : string) : bool :=
  match s with
  | String c s =>
      one_of "tqd" c && mem (take_chars 2 s) ja4_versions &&
      match match_classes ja4_tail (drop_chars 2 s) with Some rest => String.eqb rest "" | None => false end
  | EmptyString => false
  end.
Definition ja4_valid (fp : val) : bool := match fp with VStr s => ja4_text s | _ => false end.
Definition ja4_parts (fp : string) : option (list string) := if ja4_text fp then Some (split_char "_" fp) else None.
Definition ja4_ac (fp : string) : string :=
  match ja4_parts fp with Some (a :: _ :: c :: _) => a +:+ "_" +:+ c | _ => "" end.

Definition baseline_maturity (observations distinct : Z) (first_seen : option Z) (now min_observations min_span : Z) : string :=
  if (observations <? min_observations) || (distinct <? 1) then "cold"
  else match first_seen with
       | None => "cold"
       | Some t => if min_span <=? now - t then "ready" else "warming"
       end.

(** Hit, reasons, confidence, severity. *)
Definition ja4_novelty (fp : string) (entity_seen entity_ac_seen : list string) (fleet_count : Z) (maturity : string)
    (rare_max_entities : Z) (corroborated : bool) : bool * list string * float * Z :=
  if negb (ja4_text fp) || negb (String.eqb maturity "ready") || mem fp entity_seen then (false, [], f0, 0)
  else
    let rare := fleet_count <=? rare_max_entities in
    let reasons := "JA4_NEW_TO_ENTITY" :: (if rare then ["JA4_RARE_IN_FLEET"] else []) in
    let '(severity, confidence) := if rare || corroborated then (5, lit "0.5") else (2, lit "0.3") in
    if mem (ja4_ac fp) entity_ac_seen
    then (true, reasons ++ ["JA4_AC_SIMILARITY"], fmul confidence (lit "0.5"), Z.max 1 (severity - 1))
    else (true, reasons, confidence, severity).

Definition max_time (t : Z) (ts : list (Z * string)) : Z := foldl Z.max t (fst <$> ts).
Definition ja4_transition_burst (fp_times : list (Z * string)) (window min_distinct : Z) : bool * Z :=
  match fp_times with
  | [] => (false, 0)
  | t :: ts =>
      let now := max_time t.1 ts in
      let fresh := List.filter (λ tf : Z * string, (now - window <=? tf.1) && (tf.1 <=? now) && ja4_text tf.2) fp_times in
      let count := Z.of_nat (length (dedup_onto [] (snd <$> fresh))) in
      (min_distinct <=? count, count)
  end.

(** ** Server names, ports and certificates *)

Definition low_text (v : val) : res string :=
  match py_or v (VStr "") with VStr s => Ok (lower s) | _ => Raise AttributeError end.
Definition first_part (parts : list string) (s : string) : option string := find (λ p, contains p s) parts.

Definition CLOUD_STAGING_SNIS : list string :=
  ["dropbox.com"; "dropboxusercontent"; "drive.google"; "docs.google"; "storage.googleapis"; "onedrive"; "1drv.ms"; "mega.nz";
   "mega.io"; "wetransfer"; "pastebin.com"; "transfer.sh"; "anonfiles"; "gofile.io"; "s3.amazonaws"; "backblazeb2"; "sendspace";
   "file.io"].
Definition cloud_staging_hit (sni : val) : res (option string) := s ← low_text sni; Ok (first_part CLOUD_STAGING_SNIS s).

Definition DOH_SNIS : list string :=
  ["cloudflare-dns.com"; "dns.google"; "dns.quad9.net"; "doh.opendns"; "mozilla.cloudflare-dns"; "dns.adguard";
   "doh.cleanbrowsing"; "dns.nextdns"; "chrome.cloudflare-dns"].
Definition doh_hit (sni dst_port : val) (approved_resolvers : list string) : res (option string) :=
  s ← low_text sni;
  Ok (if py_eqb dst_port (VInt 853) then Some "dot:853"
      else if mem s approved_resolvers then None
      else (λ d, "doh:" +:+ d) <$> first_part DOH_SNIS s).

Definition _PORT_PROTO : list (Z * string) :=
  [(22, "ssh"); (21, "ftp"); (25, "smtp"); (587, "smtp"); (465, "smtp"); (53, "dns"); (80, "http"); (8080, "http"); (443, "tls");
   (8443, "tls"); (110, "pop3"); (995, "pop3"); (143, "imap"); (993, "imap"); (445, "smb"); (139, "smb"); (3389, "rdp");
   (1883, "mqtt")].
Definition norm_proto (p : string) : string := if mem p ["tls"; "ssl"] then "tls" else p.
Definition expected_proto (port : Z) : option string := snd <$> find (λ kv, kv.1 =? port) _PORT_PROTO.
Definition port_proto_mismatch (app_proto dst_port : val) (allow_ports : list Z) : res (option string) :=
  ap ← low_text app_proto;
  if negb (str_truthy ap) || mem ap ["failed"; "unknown"] then Ok None
  else match py_int dst_port with
       | Raise TypeError | Raise ValueError => Ok None
       | Raise e => Raise e
       | Ok port =>
           if mem port allow_ports then Ok None
           else match expected_proto port with
                | None => Ok None
                | Some expected =>
                    Ok (if String.eqb (norm_proto ap) (norm_proto expected) then None
                        else Some (norm_proto ap +:+ " on port " +:+ pretty port +:+ " (expected " +:+ norm_proto expected +:+ ")"))
                end
       end.

(** The microseconds from one ISO text to another; texts with and without an offset do not
    compare. *)
Definition iso_span (a b : string) : option Z :=
  '(la, oa) ← fromisoformat (replace_zulu a); '(lb, ob) ← fromisoformat (replace_zulu b);
  match oa, ob with
  | Some oa, Some ob => Some ((lb - ob) - (la - oa))
  | None, None => Some (lb - la)
  | _, _ => None
  end.
Definition stripped (v : val) : res string := match v with VStr s => Ok (strip s) | _ => Raise AttributeError end.
Definition cert_anomaly (subject issuer not_before not_after : val) : res (option string) :=
  same ← (if truthy subject && truthy issuer
          then s ← stripped subject; i ← stripped issuer; Ok (String.eqb s i) else Ok false);
  Ok (if same : bool then Some "self_signed"
      else match not_before, not_after with
           | VStr b, VStr a =>
               match iso_span b a with Some d => if d <? 2 * 86400 * 1000000 then Some "short_validity" else None | None => None end
           | _, _ => None
           end).

(** ** HTTP, SSH, ICMP *)

Definition BAD_UA_SUBSTR : list string :=
  ["curl/"; "wget/"; "python-requests"; "python-urllib"; "go-http-client"; "powershell"; "certutil"; "bitsadmin"; "nmap"; "sqlmap";
   "masscan"; "libwww-perl"; "winhttp"; "java/"; "empire"; "cobalt"].
Definition suspicious_ua (ua : val) : res (option string) :=
  match ua with
  | VNone | VStr EmptyString => Ok (Some "empty_ua")
  | VStr s => Ok (first_part BAD_UA_SUBSTR (lower s))
  | _ => Raise AttributeError
  end.
Definition ssh_brute_hit (session_count min_sessions : Z) : bool := min_sessions <=? session_count.

Section checks.
Context (extra : list string) (ip_address : string → option bool) (repr : val → string).

(** A value that is no text cannot be sliced. *)
Definition external (ip : val) : res bool :=
  match ip with
  | VStr s => Ok (is_external extra ip_address s)
  | v => if truthy v then Raise TypeError else Ok false
  end.
Definition icmp_exfil_hit (proto : val) (total_bytes : Z) (dst_ip : val) (threshold : Z) : res bool :=
  if mem (upper (py_str repr proto)) ["ICMP"; "IPV6-ICMP"; "ICMPV6"]
  then e ← external dst_ip; Ok (e && (threshold <=? total_bytes))
  else Ok false.

Definition _strip_www (h : val) : res string :=
  s ← low_text h;
  let host := default "" (head (split_char ":" (strip s))) in
  Ok (if starts_with "www." host then drop_chars 4 host else host).
Definition ech_names : list string := ["ech"; "encrypted_client_hello"; "65037"; "0xfe0d"; "fe0d"].
Definition ech_present (tls_evt : dict) : res bool :=
  match tls_evt with
  | [] => Ok false
  | _ =>
      if truthy (dgetN "ech" tls_evt) || dhas "encrypted_client_hello" tls_evt then Ok true
      else
        exts ← as_list (py_or (dgetN "extensions" tls_evt) (py_or (dgetN "client_extensions" tls_evt) (VList [])));
        Ok (existsb (λ e, mem (lower (py_str repr e)) ech_names) exts)
  end.
Definition host_sni_mismatch (sni http_host : val) : res bool :=
  if negb (truthy sni) || negb (truthy http_host) then Ok false
  else a ← _strip_www sni; b ← _strip_www http_host; Ok (negb (String.eqb a b)).
Definition mismatch_why (http_host sni : val) : string :=
  "host_sni_mismatch:" +:+ py_str repr http_host +:+ "!=" +:+ py_str repr sni.
Definition ech_or_host_sni_mismatch (tls_evt : dict) (sni http_host : val) : res (option string) :=
  ech ← ech_present tls_evt;
  if ech : bool then Ok (Some "ech")
  else m ← host_sni_mismatch sni http_host; Ok (if m : bool then Some (mismatch_why http_host sni) else None).
End checks.

(** ** Provenance *)

(** [dumps] is the compact JSON text, which is ASCII; [max_bytes] is not negative. *)
Definition lifted (k : string) (e : dict) (keep : val → bool) : dict :=
  match dget k e with Some v => if keep v then [(k, v)] else [] | None => [] end.
Definition not_none (v : val) : bool := match v with VNone => false | _ => true end.
Definition source_event (dumps : val → string) (max_bytes : Z) (e : val) (representative : bool) : option dict :=
  match e with
  | VDict e =>
      let body := dumps (VDict e) in
      Some (lifted "event_type" e truthy ++ lifted "community_id" e not_none ++ lifted "flow_id" e not_none ++
            lifted "tx_id" e not_none ++ lifted "timestamp" e truthy ++
            (if representative then [("representative", VBool true)] else []) ++
            (if max_bytes <? Z.of_nat (String.length body)
             then [("record_preview", VStr (take_chars (Z.to_nat max_bytes) body)); ("truncated", VBool true)]
             else [("record", VDict e)]))
  | _ => None
  end.
(** Events counted, distinct community and flow ids in order of appearance. *)
Definition note_id (keep : val → bool) (ids : list val) (v : val) : list val :=
  if keep v && negb (val_in v ids) then ids ++ [v] else ids.
Definition contributors (events : list val) : Z * list val * list val :=
  foldl (λ acc e, match e with
                  | VDict d => let '(n, cids, fids) := acc in
                      (n + 1, note_id truthy cids (dgetN "community_id" d), note_id not_none fids (dgetN "flow_id" d))
                  | _ => acc
                  end) (0, [], []) events.

(** ** Examples from the tests and the docs *)

Example ja4_shape : ja4_text "t13d1516h2_8daaf6152771_02713d6af862" = true ∧ ja4_text "t13d1516h2_8daaf6152771_02713d6af86" = false ∧
  ja4_ac "t13d1516h2_8daaf6152771_02713d6af862" = "t13d1516h2_02713d6af862".
Proof. vm_compute. done. Qed.
Example ssh_on_tls_port : port_proto_mismatch (VStr "SSH") (VInt 443) [] = Ok (Some "ssh on port 443 (expected tls)") ∧
  port_proto_mismatch (VStr "ssl") (VStr "443") [] = Ok None.
Proof. vm_compute. done. Qed.
Example short_cert : cert_anomaly (VStr "CN=a") (VStr "CN=b") (VStr "2024-01-01T00:00:00Z") (VStr "2024-01-02T00:00:00Z") = Ok (Some "short_validity").
Proof. vm_compute. done. Qed.
