(* ===== verification/ProtocolDetectors.v ===== *)
(** * Protocol detectors (services/protocol-detectors/app.py)

    Every TLS, QUIC, HTTP, SSH and flow record is checked when it arrives.  The state is in
    the window store: per source the JA4 fingerprints seen, their similarity classes, a
    baseline (count and first time) and recent transitions; per fingerprint the sources;
    counters of SSH sessions and ICMP bytes; the server names of a flow; emission dedup.

    A record reads the clock once, in microseconds; the baseline keeps that reading.  A set
    member that is no text is its text, as the store's backend keeps it, and containers are
    refused.  [stable] is the hash of a text, [dumps], [compact] and [loads] those of
    [json], [repr] the text of containers. *)

From S2P Require Import Prelude Order PyVal PyString OrderedMap IsoTime WindowStore BehavioralScores ProtocolScores.
Set Default Proof Using "Type".

Record settings := {
  TENANT : string; APPROVED_RESOLVERS : list string; ALLOW_PROTO_PORTS : list Z; JA4_WARMUP : Z; JA4_TTL : Z;
  JA4_MIN_OBSERVATIONS : Z; JA4_MIN_SPAN : Z; JA4_BASELINE_TTL : Z; JA4_RARE_MAX_ENTITIES : Z; JA4_TRANSITION_WINDOW : Z;
  JA4_TRANSITION_MIN_DISTINCT : Z; SSH_WINDOW : Z; ICMP_WINDOW : Z; EXTRA_INTERNAL : list string; SOURCE_MAX_BYTES : Z
}.
Record candidate := {
  cd_id : string; cd_tenant : string; cd_detector : string; cd_category : string; cd_severity : Z; cd_confidence : float;
  cd_seen : string; cd_entities : string; cd_mitre : option (list string); cd_source : option dict
}.
Record world S := World { w_store : S; w_sent : list candidate }.
Arguments World {S}.
Arguments w_store {S}.
Arguments w_sent {S}.
Definition SNI_TTL : Z := 120 * 1000000.
Definition EMIT_TTL : Z := 3600 * 1000000.

Section app.
Context {S : Type} `{WindowStore S}.
Context (st : settings) (ip_address : string → option bool) (stable : string → Z)
  (dumps compact repr : val → string) (loads : string → res val).
Abbreviation Py := (M (world S)).

Definition ask (now : Z) (o : op) : Py answer := λ w,
  let '(s, a) := ws_step now (w_store w) o in (World s (w_sent w), Ok a).
Definition text : val → string := py_str repr.
(** What a set holds of a value: containers are not hashable. *)
Definition member_of (v : val) : res string :=
  match v with VList _ | VDict _ => Raise TypeError | v => Ok (text v) end.

Definition set_len (now : Z) (key : string) : Py Z :=
  let* a := ask now (o_set_len key) in ret (match a with a_int n => n | _ => 0 end).
Definition set_contains (now : Z) (key m : string) : Py bool :=
  let* a := ask now (o_set_contains key m) in ret (match a with a_bool b => b | _ => false end).
Definition set_members (now : Z) (key : string) : Py (list string) :=
  let* a := ask now (o_set_members key) in ret (match a with a_strs l => l | _ => [] end).
Definition set_add (now : Z) (key m : string) (ttl : Z) : Py unit := ask now (o_set_add key m ttl None);* ret tt.
Definition window_range (now : Z) (key : string) (since : Z) : Py (list (Z * string)) :=
  let* a := ask now (o_window_range key since) in ret (match a with a_window l => l | _ => [] end).
Definition counter_add (now : Z) (key field : string) (delta ttl : Z) : Py Z :=
  let* a := ask now (o_counter_add key field delta ttl) in ret (match a with a_int n => n | _ => 0 end).

(** ** Candidates *)

Definition emit_key (now : Z) (detector entities : string) : string :=
  "emit:" +:+ TENANT st +:+ ":" +:+ detector +:+ ":" +:+ pretty (stable entities mod 10 ^ 12) +:+ ":" +:+ pretty (now / EMIT_TTL).
Definition candidate_of (now : Z) (e : dict) (detector category : string) (sev : Z) (conf : float) (entities : string)
    (mitre : option (list string)) : candidate :=
  {| cd_id := detector +:+ "-" +:+ pretty (stable entities mod 10 ^ 10) +:+ "-" +:+ pretty (now / EMIT_TTL);
     cd_tenant := TENANT st; cd_detector := detector; cd_category := category; cd_severity := sev; cd_confidence := conf;
     cd_seen := emitted_text now; cd_entities := entities; cd_mitre := mitre;
     cd_source := match e with [] => None | _ => source_event compact (SOURCE_MAX_BYTES st) (VDict e) false end |}.
(** [e] is the record being handled. *)
Definition _emit (now : Z) (e : dict) (detector category : string) (sev : Z) (conf : float) (ents : list val)
    (mitre : option (list string)) : Py unit :=
  let entities := dumps (VList ents) in
  let* a := ask now (o_dedup_seen (emit_key now detector entities) EMIT_TTL) in
  match a with
  | a_bool true => modify (λ w, World (w_store w) (w_sent w ++ [candidate_of now e detector category sev conf entities mitre]))
  | _ => ret tt
  end.
Definition ip_entity (role : string) (v : val) : val := VDict [("type", VStr "ip"); ("role", VStr role); ("value", v)].
Definition entity (type : string) (v : val) : val := VDict [("type", VStr type); ("value", v)].
Definition _cid (e : dict) : list val :=
  let c := dgetN "community_id" e in if truthy c then [entity "community_id" c] else [].
Definition emit_on (now : Z) (e : dict) (detector category : string) (sev : Z) (conf : float) (why : option string)
    (ents : string → list val) : Py unit :=
  match why with Some w => _emit now e detector category sev conf (ents w) None | None => ret tt end.

(** ** Fingerprints *)

Definition _fp_hash (v : val) : val :=
  match v with VDict d => py_or (dgetN "hash" d) (dgetN "string" d) | v => v end.
Definition _fp_rare (now : Z) (fp : val) (kind : string) : Py bool :=
  if negb (truthy fp) then ret false
  else
    let key := "fpseen:" +:+ TENANT st +:+ ":" +:+ kind in
    let* n := set_len now key in
    let* m := lift (member_of fp) in
    let* rare := (if JA4_WARMUP st <=? n then let* c := set_contains now key m in ret (negb c) else ret false) in
    set_add now key m (JA4_TTL st);*
    ret rare.

Definition ja4_key (src : string) : string := "ja4:" +:+ TENANT st +:+ ":" +:+ src.
Definition seen_key (src : string) : string := ja4_key src +:+ ":seen".
Definition ac_key (src : string) : string := ja4_key src +:+ ":ac".
Definition baseline_key (src : string) : string := ja4_key src +:+ ":baseline".
Definition transitions_key (src : string) : string := ja4_key src +:+ ":transitions".
Definition fleet_key (fp : string) : string := "ja4fleet:" +:+ TENANT st +:+ ":" +:+ fp.
Definition baseline_val (n first : Z) : val := VDict [("observations", VInt n); ("first", VInt first)].
(** Count and first time of a stored baseline. *)
Definition baseline_of (v : val) : res (Z * option Z) :=
  match py_or v (VDict []) with
  | VDict d =>
      n ← match dget_or "observations" (VInt 0) d with VInt n => Ok n | _ => Raise TypeError end;
      first ← match dgetN "first" d with VInt t => Ok (Some t) | VNone => Ok None | _ => Raise TypeError end;
      Ok (n, first)
  | _ => Raise AttributeError
  end.
Definition read_baseline (now : Z) (src : string) : Py (Z * option Z) :=
  let* a := ask now (o_kv_get (baseline_key src)) in
  let* v := lift (match a with a_str (Some s) => loads s | _ => Ok VNone end) in
  lift (baseline_of v).
Definition count_val {A} (l : list A) : Z := Z.of_nat (length l).

Definition ja4_entities (e : dict) (src fp : string) (transport : val) (maturity : string) (fleet : Z) (src_val : val) : list val :=
  [ip_entity "src" src_val; VDict [("type", VStr "ja4"); ("value", VStr fp); ("transport", transport)];
   entity "ja4_ac" (VStr (ja4_ac fp)); entity "maturity" (VStr maturity); entity "fleet_entity_count" (VInt fleet)] ++ _cid e.
Definition reason_codes (codes : list string) : val := entity "reason_codes" (VList (VStr <$> codes)).
(** A verdict on an observation: detector, severity, confidence, entities. *)
Definition verdict : Type := string * Z * float * list val.
Definition novelty_verdict (fp : string) (seen acs : list string) (fleet : Z) (maturity : string) (entities : list val) : option verdict :=
  let '(hit, reasons, confidence, severity) := ja4_novelty fp seen acs fleet maturity (JA4_RARE_MAX_ENTITIES st) false in
  if hit : bool then Some ("ja4_novelty", severity, confidence, entities ++ [reason_codes reasons]) else None.
Definition burst_verdict (now : Z) (fp : string) (history : list (Z * string)) (maturity : string) (entities : list val) : option verdict :=
  let '(burst, distinct) := ja4_transition_burst (history ++ [(now, fp)]) (JA4_TRANSITION_WINDOW st) (JA4_TRANSITION_MIN_DISTINCT st) in
  if String.eqb maturity "ready" && burst
  then Some ("ja4_transition_burst", 5, lit "0.5", entities ++ [reason_codes ["JA4_TRANSITION_BURST"]; entity "distinct_count" (VInt distinct)])
  else None.
Definition emit_verdict (now : Z) (e : dict) (v : option verdict) : Py unit :=
  match v with Some (det, sev, conf, ents) => _emit now e det "c2" sev conf ents None | None => ret tt end.
(** The record is scored before it is learned. *)
Definition _ja4_observe (now : Z) (fp : string) (src_val : val) (e : dict) : Py unit :=
  if negb (truthy src_val) then ret tt
  else
    let src := text src_val in
    let* seen := set_members now (seen_key src) in
    let* acs := set_members now (ac_key src) in
    let* base := read_baseline now src in
    let '(observations, first) := base in
    let maturity := baseline_maturity observations (count_val seen) first now (JA4_MIN_OBSERVATIONS st) (JA4_MIN_SPAN st) in
    let* fleet := set_len now (fleet_key fp) in
    let entities := ja4_entities e src fp (dgetN "event_type" e) maturity fleet src_val in
    emit_verdict now e (novelty_verdict fp seen acs fleet maturity entities);*
    let* history := window_range now (transitions_key src) (now - JA4_TRANSITION_WINDOW st) in
    emit_verdict now e (burst_verdict now fp history maturity entities);*
    let* _ := ask now (o_kv_set (baseline_key src) (dumps (baseline_val (observations + 1) (default now first))) (JA4_BASELINE_TTL st)) in
    set_add now (seen_key src) fp (JA4_BASELINE_TTL st);*
    set_add now (ac_key src) (ja4_ac fp) (JA4_BASELINE_TTL st);*
    let* m := lift (member_of src_val) in
    set_add now (fleet_key fp) m (JA4_BASELINE_TTL st);*
    let* _ := ask now (o_window_add (transitions_key src) now fp (JA4_TRANSITION_WINDOW st)) in
    ret tt.

(** ** Records *)

Definition sub_dict (k : string) (e : dict) : res dict := as_dict (py_or (dgetN k e) (VDict [])).
Definition handle_mismatch (now : Z) (e : dict) : Py unit :=
  let '(src, dst) := (dgetN "src_ip" e, dgetN "dest_ip" e) in
  let* mm := lift (port_proto_mismatch (py_or (dgetN "app_proto" e) (dgetN "event_type" e)) (dgetN "dest_port" e) (ALLOW_PROTO_PORTS st)) in
  if truthy src && truthy dst
  then emit_on now e "port_proto_mismatch" "defense_evasion" 4 half mm (λ why,
         [ip_entity "src" src; ip_entity "dst" dst; entity "why" (VStr why)] ++ _cid e)
  else ret tt.
(** The fingerprint of the client: JA4 when it is one, else JA3. *)
Definition client_fp (now : Z) (e obj : dict) : Py unit :=
  let ja4 := _fp_hash (dgetN "ja4" obj) in
  match (if ja4_valid ja4 then ja4 else VNone) with
  | VStr fp => _ja4_observe now fp (dgetN "src_ip" e) e
  | _ =>
      let fp := _fp_hash (dgetN "ja3" obj) in
      let* rare := _fp_rare now fp "ja3" in
      if rare : bool then
        _emit now e "ja4_rarity" "c2" 5 half
          ([VDict ([("type", VStr "ja3"); ("value", fp)] ++
                   (if val_eq_str (dgetN "event_type" e) "tls" then [] else [("transport", VStr "quic")]));
            ip_entity "src" (dgetN "src_ip" e); entity "sni" (dgetN "sni" obj)] ++ _cid e) None
      else ret tt
  end.
Definition server_fp (now : Z) (e obj : dict) : Py unit :=
  let sja4 := _fp_hash (dgetN "ja4s" obj) in
  let '(sfp, skind) := if truthy sja4 then (sja4, "ja4s") else (_fp_hash (dgetN "ja3s" obj), "ja3s") in
  let* rare := _fp_rare now sfp skind in
  if rare : bool then
    _emit now e "server_fp_rarity" "c2" 5 half
      ([entity skind sfp; ip_entity "dst" (dgetN "dest_ip" e); entity "sni" (dgetN "sni" obj)] ++ _cid e) None
  else ret tt.
Definition sni_key (cid : val) : string := "sni:" +:+ TENANT st +:+ ":" +:+ text cid.
(** Certificate, encrypted hello, and the server name kept for the flow's HTTP records. *)
Definition handle_cert (now : Z) (e t : dict) (sni : val) : Py unit :=
  let '(src, dst) := (dgetN "src_ip" e, dgetN "dest_ip" e) in
  let field k := dget_or k (VStr "") t in
  let* an := lift (cert_anomaly (field "subject") (field "issuer") (field "notbefore") (field "notafter")) in
  emit_on now e "tls_cert_anomaly" "c2" 5 half an (λ why,
    [ip_entity "dst" dst; entity "sni" sni; entity "why" (VStr why)] ++ _cid e);*
  let* ep := lift (ech_or_host_sni_mismatch repr t sni VNone) in
  match ep with
  | Some why => _emit now e "ech_sni_mismatch" "defense_evasion" 5 half
                  ([ip_entity "src" src; ip_entity "dst" dst; entity "why" (VStr why)] ++ _cid e) (Some ["T1090.004"])
  | None => ret tt
  end;*
  let cid := dgetN "community_id" e in
  if truthy cid && truthy sni then
    let* m := lift (member_of sni) in set_add now (sni_key cid) m SNI_TTL
  else ret tt.
Definition handle_tls (now : Z) (et : string) (e : dict) : Py unit :=
  let src := dgetN "src_ip" e in
  let* obj := lift (sub_dict et e) in
  let sni := dgetN "sni" obj in
  client_fp now e obj;*
  server_fp now e obj;*
  let* ch := lift (cloud_staging_hit sni) in
  emit_on now e "cloud_staging" "exfil" 5 half ch (λ c, [ip_entity "src" src; entity "sni" sni; entity "service" (VStr c)]);*
  let* dh := lift (doh_hit sni (dgetN "dest_port" e) (APPROVED_RESOLVERS st)) in
  emit_on now e "doh_detect" "defense_evasion" 4 half dh (λ d, [ip_entity "src" src; entity "sni" sni; entity "why" (VStr d)]);*
  if String.eqb et "tls" then handle_cert now e obj sni else ret tt.

(** The first remembered server name that disagrees with the host. *)
Fixpoint first_mismatch (host : val) (snis : list string) : res (option string) :=
  match snis with
  | [] => Ok None
  | s :: snis => m ← host_sni_mismatch (VStr s) host; if m : bool then Ok (Some s) else first_mismatch host snis
  end.
Definition handle_http (now : Z) (e : dict) : Py unit :=
  let '(src, dst) := (dgetN "src_ip" e, dgetN "dest_ip" e) in
  let* h := lift (sub_dict "http" e) in
  let* su := lift (suspicious_ua (dgetN "http_user_agent" h)) in
  match su with
  | Some w =>
      let* out := lift (external (EXTRA_INTERNAL st) ip_address dst) in
      if out : bool
      then _emit now e "suspicious_ua" "c2" 4 half [ip_entity "src" src; ip_entity "dst" dst; entity "ua" (VStr w)] None
      else ret tt
  | None => ret tt
  end;*
  let '(cid, host) := (dgetN "community_id" e, dgetN "hostname" h) in
  if truthy cid && truthy host then
    let* snis := set_members now (sni_key cid) in
    let* prev := lift (first_mismatch host snis) in
    match prev with
    | Some s => _emit now e "ech_sni_mismatch" "defense_evasion" 6 (lit "0.6")
                  ([ip_entity "src" src; ip_entity "dst" dst; entity "why" (VStr (mismatch_why repr host (VStr s)))] ++ _cid e)
                  (Some ["T1090.004"])
    | None => ret tt
    end
  else ret tt.

Definition between_key (prefix : string) (src dst : val) : string := prefix +:+ TENANT st +:+ ":" +:+ text src +:+ "|" +:+ text dst.
Definition handle_ssh (now : Z) (e : dict) (src dst : val) : Py unit :=
  let* n := counter_add now (between_key "ssh:" src dst) "c" 1 (SSH_WINDOW st) in
  if ssh_brute_hit n 15
  then _emit now e "ssh_bruteforce" "credential_access" 6 (lit "0.6")
         [ip_entity "src" src; ip_entity "dst" dst; entity "attempts" (VInt n)] None
  else ret tt.
Definition flow_count (k : string) (f : dict) : res Z := py_int (py_or (dgetN k f) (VInt 0)).
Definition handle_icmp (now : Z) (e : dict) (src dst : val) : Py unit :=
  let* f := lift (sub_dict "flow" e) in
  let* up := lift (flow_count "bytes_toserver" f) in
  let* down := lift (flow_count "bytes_toclient" f) in
  let* tot := counter_add now (between_key "icmp:" src dst) "b" (up + down) (ICMP_WINDOW st) in
  let* hit := lift (icmp_exfil_hit (EXTRA_INTERNAL st) ip_address repr (dget_or "proto" (VStr "") e) tot dst 1000000) in
  if hit : bool
  then _emit now e "icmp_exfil" "exfil" 7 (lit "0.6")
         [ip_entity "src" src; ip_entity "dst" dst; entity "bytes" (VInt tot)] None
  else ret tt.

Definition _handle (now : Z) (e : dict) : Py unit :=
  let '(src, dst, et) := (dgetN "src_ip" e, dgetN "dest_ip" e, dgetN "event_type" e) in
  let on := val_eq_str et in
  handle_mismatch now e;*
  (if on "tls" then handle_tls now "tls" e
   else if on "quic" then handle_tls now "quic" e
   else if on "http" then handle_http now e else ret tt);*
  (if (on "ssh" || (on "flow" && py_eqb (dgetN "dest_port" e) (VInt 22))) && truthy src && truthy dst
   then handle_ssh now e src dst else ret tt);*
  if on "flow" && truthy src && truthy dst then handle_icmp now e src dst else ret tt.

(** What a record raises is dropped with the record; its effects before stay. *)
Definition run (w : world S) (records : list (Z * dict)) : world S := foldl (λ w r, (_handle r.1 r.2 w).1) w records.
End app.
