(* ===== verification/Ja4History.v ===== *)
(** * JA4 verdicts from the history of observations

    A reference for the JA4 part of the protocol detectors: it keeps every observation and
    everything it sent, and decides from those; no store, no expiry.  The service on the
    in-memory store sends exactly what the reference sends. *)

From S2P Require Import Prelude Order PyVal PyString OrderedMap IsoTime WindowStore PartitionKeys BehavioralScores ProtocolScores ProtocolDetectors.
Set Default Proof Using "Type".

(** ** The reference *)

Record obs := { o_time : Z; o_src : string; o_fp : string }.
Record reference := { r_hist : list obs; r_log : list (Z * string); r_sent : list candidate }.
Definition blank : reference := {| r_hist := []; r_log := []; r_sent := [] |}.
Definition distinct (l : list string) : Z := Z.of_nat (length (dedup_onto [] l)).

Section reference.
Context (st : settings) (stable : string → Z) (dumps compact repr : val → string).

Definition of_src (src : string) (h : list obs) : list obs := List.filter (λ o, String.eqb (o_src o) src) h.
(** Observations less than [ttl] ago. *)
Definition recent (ttl now : Z) (h : list obs) : list obs := List.filter (λ o, now <? o_time o + ttl) h.
(** The latest times without a gap of [ttl], latest first. *)
Fixpoint unbroken (ttl until : Z) (latest_first : list Z) : list Z :=
  match latest_first with
  | t :: ts => if until <? t + ttl then t :: unbroken ttl t ts else []
  | [] => []
  end.
Definition stretch (h : list obs) (src : string) (now : Z) : list Z :=
  unbroken (JA4_BASELINE_TTL st) now (rev (o_time <$> of_src src h)).
Definition seen_of (h : list obs) (src : string) (now : Z) : list string :=
  o_fp <$> recent (JA4_BASELINE_TTL st) now (of_src src h).
Definition sources_of (h : list obs) (fp : string) (now : Z) : list string :=
  o_src <$> recent (JA4_BASELINE_TTL st) now (List.filter (λ o, String.eqb (o_fp o) fp) h).
Definition moves_of (h : list obs) (src : string) (now : Z) : list (Z * string) :=
  (λ o, (o_time o, o_fp o)) <$> recent (JA4_TRANSITION_WINDOW st) now (of_src src h).
Definition maturity_of (h : list obs) (src : string) (now : Z) : string :=
  baseline_maturity (count_val (stretch h src now)) (distinct (seen_of h src now)) (last (stretch h src now)) now
    (JA4_MIN_OBSERVATIONS st) (JA4_MIN_SPAN st).
Definition verdicts (h : list obs) (now : Z) (src_val : val) (fp : string) (e : dict) : list verdict :=
  let src := text repr src_val in
  let seen := seen_of h src now in
  let maturity := maturity_of h src now in
  let fleet := distinct (sources_of h fp now) in
  let entities := ja4_entities e src fp (dgetN "event_type" e) maturity fleet src_val in
  omap id [novelty_verdict st fp seen (ja4_ac <$> seen) fleet maturity entities;
           burst_verdict st now fp (moves_of h src now) maturity entities].
(** A verdict is sent unless its key was sent within the hour. *)
Definition ref_send (now : Z) (e : dict) (r : reference) (v : verdict) : reference :=
  let '(det, sev, conf, ents) := v in
  let key := emit_key st stable now det (dumps (VList ents)) in
  if existsb (λ tk, String.eqb tk.2 key && (now <? tk.1 + EMIT_TTL)) (r_log r) then r
  else {| r_hist := r_hist r; r_log := r_log r ++ [(now, key)];
          r_sent := r_sent r ++ [candidate_of st stable compact now e det "c2" sev conf (dumps (VList ents)) None] |}.
Definition ref_observe (now : Z) (fp : string) (src_val : val) (e : dict) (r : reference) : reference :=
  let sent := foldl (ref_send now e) r (verdicts (r_hist r) now src_val fp e) in
  {| r_hist := r_hist r ++ [{| o_time := now; o_src := text repr src_val; o_fp := fp |}]; r_log := r_log sent; r_sent := r_sent sent |}.
(** The fingerprint a record makes its source observed with. *)
Definition observed_fp (obj : dict) : option string :=
  match _fp_hash (dgetN "ja4" obj) with VStr fp => if ja4_text fp then Some fp else None | _ => None end.
Definition ja4_of (e : dict) : option string :=
  if is_ok (port_proto_mismatch (py_or (dgetN "app_proto" e) (dgetN "event_type" e)) (dgetN "dest_port" e) (ALLOW_PROTO_PORTS st)) &&
     truthy (dgetN "src_ip" e)
  then match find (val_eq_str (dgetN "event_type" e)) ["tls"; "quic"] with
       | Some et => match sub_dict et e with Ok obj => observed_fp obj | Raise _ => None end
       | None => None
       end
  else None.
Definition ref_step (r : reference) (te : Z * dict) : reference :=
  match ja4_of te.2 with Some fp => ref_observe te.1 fp (dgetN "src_ip" te.2) te.2 r | None => r end.
Definition ref_run (records : list (Z * dict)) : reference := foldl ref_step blank records.
End reference.

Definition is_ja4 (c : candidate) : bool := mem (cd_detector c) ["ja4_novelty"; "ja4_transition_burst"].

(** ** One cell against a history *)

Definition live_member (now : Z) (c : cell) (m : string) : Prop :=
  ∃ e, od_get m (default [] (c_s c)) = Some e ∧ now < e.
(** The set's members are those of [l], for [D] since they were last added. *)
Record set_holds (T D : Z) (c : cell) (l : list (Z * string)) : Prop := {
  sh_wf : od_wf (default [] (c_s c));
  sh_times : ∀ t m, (t, m) ∈ l → t <= T;
  sh_live : ∀ now m, T <= now → live_member now c m ↔ ∃ t, (t, m) ∈ l ∧ now < t + D
}.
(** The window's entries that are not expired are those of [l]. *)
Record win_holds (T D : Z) (c : cell) (l : list (Z * string)) : Prop := {
  wh_times : ∀ t m, (t, m) ∈ l → t <= T;
  wh_entries : ∃ l', default [] (c_z c) = (λ tm, (tm, tm.1 + D)) <$> l' ∧
    ∀ now, T <= now → List.filter (λ tm : Z * string, now <? tm.1 + D) l' = List.filter (λ tm : Z * string, now <? tm.1 + D) l
}.

Section cells.
Context (D : Z).

Lemma filter_od_get (p : string * Z → bool) (l : list (string * Z)) m : od_wf l →
  od_get m (List.filter p l) = match od_get m l with Some e => if p (m, e) then Some e else None | None => None end.
Proof.
  unfold od_wf, od_keys. induction l as [|[k v] l IH]; intros Hl; [done|]. apply NoDup_cons in Hl as [Hk Hl].
  assert (Hno : od_get k l = None) by by apply od_get_none. cbn [List.filter od_get]. destruct (p (k, v)) eqn:E; cbn [od_get]; case_decide as Em.
  - subst m. by rewrite E.
  - by apply IH.
  - subst m. rewrite E, IH, Hno by done. done.
  - by apply IH.
Qed.
Lemma filter_od_wf (p : string * Z → bool) (l : list (string * Z)) : od_wf l → od_wf (List.filter p l).
Proof.
  unfold od_wf, od_keys. induction l as [|x l IH]; [done|]. rewrite fmap_cons, NoDup_cons. intros [Hx Hl]. cbn [List.filter]. destruct (p x); [|by apply IH].
  rewrite fmap_cons, NoDup_cons. split; [|by apply IH]. intros Hin. apply Hx. apply list_elem_of_fmap in Hin as (y & -> & Hy).
  apply elem_filter in Hy as [Hy _]. by apply (list_elem_of_fmap_2 fst).
Qed.
Lemma set_empty T c : c_s c = None → set_holds T D c [].
Proof.
  intros E. split; unfold live_member; rewrite ?E; cbn; [apply od_wf_nil|intros t m Hin; by apply elem_of_nil in Hin|].
  intros now m _. split; [by intros (e & [=] & _)|intros (t & Hin & _); by apply elem_of_nil in Hin].
Qed.
Lemma set_later T T' c l : T <= T' → set_holds T D c l → set_holds T' D c l.
Proof. intros HT [H1 H2 H3]. split; [done|intros t m Hin; specialize (H2 t m Hin); lia|]. intros now m Hn. apply H3. lia. Qed.
Lemma live_set_holds now c l : set_holds now D c l →
  set_holds now D (_live_set now c).1 l ∧ NoDup (od_keys (_live_set now c).2) ∧
  ∀ m, m ∈ od_keys (_live_set now c).2 ↔ ∃ t, (t, m) ∈ l ∧ now < t + D.
Proof.
  intros [Hwf Ht Hl]. unfold _live_set. unfold live_member in Hl. destruct (c_s c) as [s|] eqn:E; cbn [default from_option id fst snd] in *.
  2:{ split_and!; [split; rewrite ?E; unfold live_member; rewrite ?E; done|constructor|]. intros m. rewrite <- Hl by lia. split; [intros Hm; by apply elem_of_nil in Hm|by intros (e & [=] & _)]. }
  set (p := λ me : string * Z, now <? me.2). assert (Hs : default [] (match List.filter p s with [] => None | l => Some l end) = List.filter p s) by by destruct (List.filter p s).
  fold p. split_and!.
  - split; cbn [c_s set_s]; unfold live_member; cbn [c_s set_s].
    + replace (default [] _) with (List.filter p s) by (by destruct (List.filter p s)). by apply filter_od_wf.
    + done.
    + intros now' m Hn. rewrite <- Hl by done. replace (default [] _) with (List.filter p s) by (by destruct (List.filter p s)).
      rewrite filter_od_get by done. split.
      * intros (e & He & Hlt). destruct (od_get m s) as [e'|]; [|done]. destruct (p (m, e')); [|done]. injection He as ->. by exists e.
      * intros (e & -> & Hlt). exists e. unfold p. cbn. by rewrite (proj2 (Z.ltb_lt _ _)) by lia.
  - by apply filter_od_wf.
  - intros m. rewrite <- (Hl now m) by lia. pose proof (filter_od_get p s m Hwf) as Hg. split.
    + intros Hm. destruct (od_get m (List.filter p s)) as [e|] eqn:Eg; [|by apply od_get_none in Eg].
      destruct (od_get m s) as [e'|]; [|done]. destruct (p (m, e')) eqn:Ep; [|done]. exists e'. split; [done|]. by apply Z.ltb_lt.
    + intros (e & He & Hlt). rewrite He in Hg. unfold p in Hg at 2. cbn in Hg. rewrite (proj2 (Z.ltb_lt _ _)) in Hg by lia.
      apply od_get_elem in Hg. by apply (list_elem_of_fmap_2 fst) in Hg.
Qed.
Lemma set_add_holds now c l m : set_holds now D c l → set_holds now D (WindowStore.set_add now m D None c) (l ++ [(now, m)]).
Proof.
  intros H. destruct (live_set_holds now c l H) as (H1 & _ & _). unfold WindowStore.set_add. pose proof H1 as [Hwf Ht Hl].
  assert (Es : default [] (c_s (_live_set now c).1) = (_live_set now c).2).
  { unfold _live_set. destruct (c_s c) as [s|] eqn:E; cbn; [by destruct (List.filter _ s)|by rewrite E]. }
  destruct (_live_set now c) as [c' s]. cbn [fst snd] in *. subst s. split; unfold live_member; cbn.
  - by apply od_wf_set.
  - intros t x [Hin|Hin]%elem_of_app; [by eapply Ht|]. apply list_elem_of_singleton in Hin as [= -> ->]. lia.
  - intros now' x Hn. rewrite od_get_set. specialize (Hl now' x Hn). unfold live_member in Hl. case_decide as Ex.
    + subst x. split.
      * intros (e & [= <-] & Hlt). exists now. split; [apply elem_of_app; right; by apply list_elem_of_singleton|done].
      * intros (t & [Hin|Hin]%elem_of_app & Hlt); [specialize (Ht _ _ Hin); exists (now + D); split; [done|lia]|].
        apply list_elem_of_singleton in Hin as [= ->]. by eexists.
    + rewrite Hl. split; intros (t & Hin & Hlt); exists t; (split; [|done]).
      * apply elem_of_app. by left.
      * apply elem_of_app in Hin as [Hin|Hin]; [done|]. apply list_elem_of_singleton in Hin as [= _ ->]. done.
Qed.

Lemma win_empty T c : c_z c = None → win_holds T D c [].
Proof. intros E. split; [intros t m Hin; by apply elem_of_nil in Hin|]. exists []. by rewrite E. Qed.
Lemma win_later T T' c l : T <= T' → win_holds T D c l → win_holds T' D c l.
Proof.
  intros HT [H1 (l' & H2 & H3)]. split; [intros t m Hin; specialize (H1 t m Hin); lia|]. exists l'. split; [done|]. intros now Hn. apply H3. lia.
Qed.
Lemma filter_entries (p : Z * string * Z → bool) (l : list (Z * string)) :
  List.filter p ((λ tm, (tm, tm.1 + D)) <$> l) = (λ tm, (tm, tm.1 + D)) <$> List.filter (λ tm, p (tm, tm.1 + D)) l.
Proof. induction l as [|x l IH]; [done|]. cbn. destruct (p _); cbn; by rewrite <- IH. Qed.
Lemma win_range_holds now c l : win_holds now D c l →
  win_holds now D (WindowStore.window_range now (now - D) c).1 l ∧
  (WindowStore.window_range now (now - D) c).2 ≡ₚ List.filter (λ tm, now <? tm.1 + D) l.
Proof.
  intros [Ht (l' & He & Hl)]. unfold WindowStore.window_range. cbn [fst snd]. rewrite He, filter_entries. cbn [fst snd].
  assert (Hp : List.filter (λ tm : Z * string, (now <? tm.1 + D) && (now - D <=? tm.1)) l' = List.filter (λ tm, now <? tm.1 + D) l').
  { apply List.filter_ext. intros tm. destruct (Z.ltb_spec now (tm.1 + D)); [|done]. cbn. apply Z.leb_le. lia. }
  rewrite Hp. split.
  - split; [done|]. cbn. eexists. split; [reflexivity|]. intros now' Hn. rewrite <- Hl, filter_filter by done.
    apply List.filter_ext. intros tm. destruct (Z.ltb_spec now' (tm.1 + D)); [|by rewrite andb_false_r]. rewrite andb_true_r. apply Z.ltb_lt. lia.
  - rewrite isort_perm, <- Hl by lia. change (map fst) with (fmap (M := list) (fst (A := Z * string) (B := Z))).
    rewrite <- list_fmap_compose. by rewrite list_fmap_id.
Qed.
Lemma win_add_holds now c l m : win_holds now D c l → win_holds now D (WindowStore.window_add now now m D c) (l ++ [(now, m)]).
Proof.
  intros [Ht (l' & He & Hl)]. split.
  - intros t x [Hin|Hin]%elem_of_app; [by eapply Ht|]. apply list_elem_of_singleton in Hin as [= -> ->]. lia.
  - exists (l' ++ [(now, m)]). cbn. rewrite He, fmap_app. split; [done|]. intros now' Hn. rewrite !List.filter_app, Hl by done. done.
Qed.
End cells.

(** ** Baselines and emission keys *)

Lemma unbroken_cons ttl until t ts : unbroken ttl until (t :: ts) = if until <? t + ttl then t :: unbroken ttl t ts else [].
Proof. reflexivity. Qed.
Lemma last_default {A} (x : A) l : last (x :: l) = Some (default x (last l)).
Proof. revert x. induction l as [|y l IH]; intros x; [done|]. cbn [last]. rewrite IH. by destruct (last l). Qed.

Section baseline.
Context (dumps : val → string) (D : Z).
(** The stored baseline is that of the unbroken stretch before [now], if any. *)
Record kv_holds (T : Z) (c : cell) (times : list Z) : Prop := {
  kh_times : ∀ t, t ∈ times → t <= T;
  kh_value : ∀ now, T <= now → kv_live now c =
    match unbroken D now (rev times) with
    | [] => None
    | t :: ts => Some (dumps (baseline_val (count_val (t :: ts)) (default t (last ts))))
    end
}.
Lemma kv_empty T c : c_kv c = None → kv_holds T c [].
Proof. intros E. split; [intros t Hin; by apply elem_of_nil in Hin|]. intros now _. unfold kv_live. by rewrite E. Qed.
Lemma kv_later T T' c l : T <= T' → kv_holds T c l → kv_holds T' c l.
Proof. intros HT [H1 H2]. split; [intros t Hin; specialize (H1 t Hin); lia|]. intros now Hn. apply H2. lia. Qed.
Lemma kv_get_holds now c l : kv_holds now c l → kv_holds now (kv_get now c).1 l ∧ (kv_get now c).2 = kv_live now c.
Proof.
  intros [H1 H2]. unfold kv_get. destruct (kv_live now c) as [v|] eqn:E; [done|]. split; [|done]. split; [done|]. intros now' Hn.
  cbn [fst]. rewrite <- H2 by done. unfold kv_live in *. cbn. destruct (c_kv c) as [[v e]|]; [|done].
  destruct (Z.ltb_spec now e); [done|]. rewrite (proj2 (Z.ltb_ge _ _)); [done|lia].
Qed.
Lemma kv_set_holds now c l : kv_holds now c l →
  let r := unbroken D now (rev l) in
  kv_holds now (WindowStore.kv_set now (dumps (baseline_val (count_val r + 1) (default now (last r)))) D c) (l ++ [now]).
Proof.
  intros [H1 _] r. split; [intros t [Hin|Hin]%elem_of_app; [by apply H1|apply list_elem_of_singleton in Hin as ->; lia]|].
  intros now' Hn. unfold kv_live. cbn [c_kv WindowStore.kv_set set_kv]. rewrite rev_app_distr. cbn [rev app unbroken].
  destruct (now' <? now + D); [|done]. subst r. unfold count_val. cbn [length]. do 3 f_equal. lia.
Qed.
End baseline.

(** A key is remembered for an hour after it was sent. *)
Record sent_holds (T : Z) (c : cell) (times : list Z) : Prop := {
  nh_times : ∀ t, t ∈ times → 0 <= t <= T;
  nh_live : ∀ now, T <= now → (match c_dedup c with Some e => negb (e =? 0) && (now <? e) | None => false end) =
    existsb (λ t, now <? t + EMIT_TTL) times
}.
Lemma sent_empty T c : c_dedup c = None → sent_holds T c [].
Proof. intros E. split; [intros t Hin; by apply elem_of_nil in Hin|]. intros now _. by rewrite E. Qed.
Lemma sent_later T T' c l : T <= T' → sent_holds T c l → sent_holds T' c l.
Proof. intros HT [H1 H2]. split; [intros t Hin; specialize (H1 t Hin); lia|]. intros now Hn. apply H2. lia. Qed.
Lemma sent_step now c l : 0 <= now → sent_holds now c l →
  if existsb (λ t, now <? t + EMIT_TTL) l then dedup_seen now EMIT_TTL c = (c, false)
  else (dedup_seen now EMIT_TTL c).2 = true ∧ sent_holds now (dedup_seen now EMIT_TTL c).1 (l ++ [now]).
Proof.
  intros H0 [H1 H2]. pose proof (H2 now (Z.le_refl _)) as E. unfold dedup_seen.
  assert (Hnew : existsb (λ t, now <? t + EMIT_TTL) l = false → sent_holds now (set_dedup (Some (now + EMIT_TTL)) c) (l ++ [now])).
  { intros Hno. split; [intros t [Hin|Hin]%elem_of_app; [by apply H1|apply list_elem_of_singleton in Hin as ->; lia]|].
    intros now' Hn. cbn. rewrite (proj2 (Z.eqb_neq _ _)) by (unfold EMIT_TTL; lia). rewrite existsb_app. cbn [negb andb existsb]. rewrite orb_false_r.
    destruct (existsb (λ t, now' <? t + EMIT_TTL) l) eqn:Ex; [|done]. apply existsb_exists in Ex as (t & Hin & Hlt). exfalso.
    assert (existsb (λ t, now <? t + EMIT_TTL) l = true); [|congruence]. apply existsb_exists. exists t. split; [done|]. apply Z.ltb_lt in Hlt. apply Z.ltb_lt. lia. }
  destruct (c_dedup c) as [e|]; [rewrite E|]; destruct (existsb _ l); try done; split; auto.
Qed.

(** ** Keys *)

Definition tracked (st : settings) (k : string) : bool :=
  starts_with "ja4" k || starts_with ("emit:" +:+ TENANT st +:+ ":ja4_n") k || starts_with ("emit:" +:+ TENANT st +:+ ":ja4_t") k.
Lemma starts_with_cancel (a b c : string) : starts_with (a +:+ b) (a +:+ c) = starts_with b c.
Proof. unfold starts_with. induction a as [|x a IH]; [done|]. cbn. destruct (ascii_dec x x); [done|congruence]. Qed.
Lemma app_cancel_r (a b c : string) : a +:+ c = b +:+ c → a = b.
Proof.
  intros E. apply (f_equal String.rev) in E. rewrite !rev_sapp in E. apply append_cancel_l in E. apply (f_equal String.rev) in E. by rewrite !rev_rev in E.
Qed.

(** ** The store against the history *)

Section service.
Context (st : settings) (ip_address : string → option bool) (stable : string → Z)
  (dumps compact repr : val → string) (loads : string → res val).
Hypothesis loads_baseline : ∀ n t, loads (dumps (baseline_val n t)) = Ok (baseline_val n t).
#[local] Set Default Proof Using "Type".
Abbreviation Wd := (world mem_store).
Abbreviation BT := (JA4_BASELINE_TTL st).
Abbreviation WT := (JA4_TRANSITION_WINDOW st).
Abbreviation observe := (_ja4_observe (S := mem_store) st stable dumps compact repr loads).
Abbreviation handle := (_handle (S := mem_store) st ip_address stable dumps compact repr loads).

(** The tables kept per source. *)
Inductive family := fam_seen | fam_ac | fam_base | fam_moves.
#[local] Instance family_eq_dec : EqDecision family.
Proof. solve_decision. Defined.
Definition suffix (f : family) : string :=
  match f with fam_seen => ":seen" | fam_ac => ":ac" | fam_base => ":baseline" | fam_moves => ":transitions" end.
Definition fam_key (f : family) (src : string) : string := ja4_key st src +:+ suffix f.
Definition timed (g : obs → string) (h : list obs) : list (Z * string) := (λ o, (o_time o, g o)) <$> h.
Definition fam_holds (f : family) (T : Z) (c : cell) (h : list obs) : Prop :=
  match f with
  | fam_seen => set_holds T BT c (timed o_fp h)
  | fam_ac => set_holds T BT c (timed (ja4_ac ∘ o_fp) h)
  | fam_base => kv_holds dumps BT T c (o_time <$> h)
  | fam_moves => win_holds T WT c (timed o_fp h)
  end.
Definition of_fp (fp : string) (h : list obs) : list obs := List.filter (λ o, String.eqb (o_fp o) fp) h.
Definition emit_tracked (k : string) : bool :=
  starts_with ("emit:" +:+ TENANT st +:+ ":ja4_n") k || starts_with ("emit:" +:+ TENANT st +:+ ":ja4_t") k.
Definition times_of (k : string) (log : list (Z * string)) : list Z := fst <$> List.filter (λ tk : Z * string, String.eqb tk.2 k) log.
Record knows (T : Z) (s : mem_store) (hs : family → list obs) (hf : list obs) (log : list (Z * string)) : Prop := {
  kn_fam : ∀ f src, fam_holds f T (cell_at s (fam_key f src)) (of_src src (hs f));
  kn_fleet : ∀ fp, set_holds T BT (cell_at s (fleet_key st fp)) (timed o_src (of_fp fp hf));
  kn_sent : ∀ k, emit_tracked k = true → sent_holds T (cell_at s k) (times_of k log)
}.

Lemma fam_key_inj f f' src src' : fam_key f src = fam_key f' src' → f = f' ∧ src = src'.
Proof.
  unfold fam_key, ja4_key. intros E. assert (Hf : f = f').
  { apply (f_equal String.rev) in E. rewrite !rev_sapp in E. by destruct f, f'. }
  subst f'. split; [done|]. apply app_cancel_r in E. apply append_cancel_l in E. by do 2 apply append_cancel_l in E.
Qed.
Lemma fam_not_fleet f src fp : fam_key f src ≠ fleet_key st fp.
Proof. done. Qed.
Lemma fleet_inj fp fp' : fleet_key st fp = fleet_key st fp' → fp = fp'.
Proof. unfold fleet_key. intros E. by do 3 apply append_cancel_l in E. Qed.
Lemma emit_not_fam k f src : emit_tracked k = true → k ≠ fam_key f src ∧ ∀ fp, k ≠ fleet_key st fp.
Proof. intros H. split; [intros ->|intros fp ->]; done. Qed.
Lemma emit_tracked_tracked k : emit_tracked k = true → tracked st k = true.
Proof. unfold emit_tracked, tracked. rewrite <- orb_assoc. intros ->. by rewrite orb_true_r. Qed.

Lemma fam_later f T T' c h : T <= T' → fam_holds f T c h → fam_holds f T' c h.
Proof. destruct f; cbn; [apply set_later|apply set_later|apply kv_later|apply win_later]. Qed.
Lemma knows_later T T' s hs hf log : T <= T' → knows T s hs hf log → knows T' s hs hf log.
Proof. intros HT [H1 H2 H3]. split; intros; [eapply fam_later|eapply set_later|eapply sent_later]; eauto. Qed.
Lemma knows_quiet T s s' hs hf log : (∀ k, tracked st k = true → cell_at s' k = cell_at s k) → knows T s hs hf log → knows T s' hs hf log.
Proof.
  intros Hq [H1 H2 H3]. split; intros; rewrite Hq; auto. by apply emit_tracked_tracked.
Qed.
Lemma knows_empty : knows 0 ∅ (λ _, []) [] [].
Proof. split; intros; unfold cell_at; rewrite lookup_empty; cbn; [destruct f; cbn; [apply set_empty|apply set_empty|apply kv_empty|apply win_empty]|apply set_empty|apply sent_empty]; done. Qed.

(** One cell changes. *)
Definition upd (f : family) (h : list obs) (hs : family → list obs) : family → list obs := λ f', if decide (f' = f) then h else hs f'.
Lemma knows_put_fam T s hs hf log f src c h : knows T s hs hf log →
  fam_holds f T c (of_src src h) → (∀ src', src' ≠ src → of_src src' h = of_src src' (hs f)) →
  knows T (put_cell (fam_key f src) c s) (upd f h hs) hf log.
Proof.
  intros [H1 H2 H3] Hc Ho. split.
  - intros f' src'. rewrite cell_at_put. unfold upd. case_decide as Ek.
    + apply fam_key_inj in Ek as [-> ->]. by rewrite decide_True.
    + case_decide as Ef; [|apply H1]. subst f'. rewrite Ho by congruence. apply H1.
  - intros fp. rewrite cell_at_put, decide_False by (intros E; symmetry in E; by apply fam_not_fleet in E). apply H2.
  - intros k Hk. rewrite cell_at_put, decide_False by (by apply (emit_not_fam k)). by apply H3.
Qed.
Lemma knows_put_fleet T s hs hf log fp c h : knows T s hs hf log →
  set_holds T BT c (timed o_src (of_fp fp h)) → (∀ fp', fp' ≠ fp → of_fp fp' h = of_fp fp' hf) →
  knows T (put_cell (fleet_key st fp) c s) hs h log.
Proof.
  intros [H1 H2 H3] Hc Ho. split.
  - intros f src. rewrite cell_at_put, decide_False by apply fam_not_fleet. apply H1.
  - intros fp'. rewrite cell_at_put. case_decide as Ek; [by apply fleet_inj in Ek as ->|]. rewrite Ho by congruence. apply H2.
  - intros k Hk. rewrite cell_at_put, decide_False by (by apply (emit_not_fam k fam_seen "")). by apply H3.
Qed.
Lemma knows_put_sent T s hs hf log k c log' : knows T s hs hf log → emit_tracked k = true →
  sent_holds T c (times_of k log') → (∀ k', k' ≠ k → times_of k' log' = times_of k' log) →
  knows T (put_cell k c s) hs hf log'.
Proof.
  intros [H1 H2 H3] Ht Hc Ho. split.
  - intros f src. rewrite cell_at_put, decide_False by (intros E; by apply (emit_not_fam k f src) in Ht as [[] _]). apply H1.
  - intros fp. rewrite cell_at_put, decide_False by (intros E; by apply (emit_not_fam k fam_seen "") in Ht as [_ []%(λ H, H fp)]). apply H2.
  - intros k' Hk. rewrite cell_at_put. case_decide as Ek; [by subst|]. rewrite Ho by done. by apply H3.
Qed.
Lemma knows_ext T s hs hs' hf log : (∀ f, hs f = hs' f) → knows T s hs hf log → knows T s hs' hf log.
Proof. intros E [H1 H2 H3]. split; [|done|done]. intros f src. rewrite <- E. apply H1. Qed.
Lemma upd_same f hs f' : upd f (hs f) hs f' = hs f'.
Proof. unfold upd. case_decide; by subst. Qed.
Lemma knows_read_fam T s hs hf log f src c : knows T s hs hf log → fam_holds f T c (of_src src (hs f)) → knows T (put_cell (fam_key f src) c s) hs hf log.
Proof. intros H Hc. eapply knows_ext; [apply upd_same|]. by apply knows_put_fam. Qed.

(** *** Every step of an observation *)

Definition yields {A} (P : Wd → Prop) (m : M Wd A) (Q : A → Wd → Prop) : Prop := ∀ w, P w → ∃ a w', m w = (w', Ok a) ∧ Q a w'.
Lemma yields_bind {A B} P (m : M Wd A) (k : A → M Wd B) Q R :
  yields P m Q → (∀ a, yields (Q a) (k a) R) → yields P (bind m k) R.
Proof.
  intros Hm Hk w Hw. destruct (Hm w Hw) as (a & w1 & E & H1). destruct (Hk a w1 H1) as (b & w2 & E2 & H2). exists b, w2. unfold bind. by rewrite E.
Qed.
Lemma yields_ret {A} P (a : A) : yields P (ret a) (λ b w, b = a ∧ P w).
Proof. intros w Hw. by exists a, w. Qed.
Lemma yields_pre {A} (P P' : Wd → Prop) (m : M Wd A) Q : (∀ w, P w → P' w) → yields P' m Q → yields P m Q.
Proof. intros H Hm w Hw. by apply Hm, H. Qed.
Lemma yields_post {A} P (m : M Wd A) (Q Q' : A → Wd → Prop) : yields P m Q → (∀ a w, Q a w → Q' a w) → yields P m Q'.
Proof. intros Hm H w Hw. destruct (Hm w Hw) as (a & w' & E & HQ). exists a, w'. auto. Qed.
Lemma yields_fact {A} (F : Prop) P (m : M Wd A) Q : (F → yields P m Q) → yields (λ w, F ∧ P w) m Q.
Proof. intros H w [HF Hw]. by apply H. Qed.

Lemma ask_single now o k (w : Wd) : op_key o = Some k →
  ask now o w = (World (put_cell k (cell_op now o (cell_at (w_store w) k)).1 (w_store w)) (w_sent w), Ok (cell_op now o (cell_at (w_store w) k)).2).
Proof.
  intros Hk. unfold ask, ws_step, in_memory. destruct o; try done; cbn [op_key] in *; injection Hk as <-;
    destruct (cell_op now _ (cell_at (w_store w) _)) as [c a]; done.
Qed.

Section step.
Context (now : Z).
(** What is known after part of an observation; what was sent is what the reference sent. *)
Definition at_ (hs : family → list obs) (hf : list obs) (r : reference) (w : Wd) : Prop :=
  knows now (w_store w) hs hf (r_log r) ∧ List.filter is_ja4 (w_sent w) = r_sent r.
Lemma at_put (w : Wd) hs hf r hs' hf' s : at_ hs hf r w → knows now s hs' hf' (r_log r) → at_ hs' hf' r (World s (w_sent w)).
Proof. by intros [_ H2] H. Qed.

Lemma timed_recent ttl g h m : (∃ t, (t, m) ∈ timed g h ∧ now < t + ttl) ↔ m ∈ g <$> recent ttl now h.
Proof.
  unfold timed, recent. rewrite list_elem_of_fmap. setoid_rewrite list_elem_of_fmap. split.
  - intros (t & (o & [= -> ->] & Ho) & Hlt). exists o. split; [done|]. apply elem_filter. split; [done|by apply Z.ltb_lt].
  - intros (o & -> & [Ho Hlt]%elem_filter). exists (o_time o). split; [by exists o|by apply Z.ltb_lt].
Qed.
Lemma members_ok f g hs hf r src : (f = fam_seen ∧ g = o_fp) ∨ (f = fam_ac ∧ g = ja4_ac ∘ o_fp) →
  yields (at_ hs hf r) (set_members now (fam_key f src))
    (λ l w, (NoDup l ∧ ∀ m, m ∈ l ↔ m ∈ g <$> recent BT now (of_src src (hs f))) ∧ at_ hs hf r w).
Proof.
  intros Hf w Hw. destruct Hw as [Hk Hs]. pose proof (kn_fam _ _ _ _ _ Hk f src) as Hc.
  assert (Hset : set_holds now BT (cell_at (w_store w) (fam_key f src)) (timed g (of_src src (hs f)))) by (destruct Hf as [[-> ->]|[-> ->]]; exact Hc).
  destruct (live_set_holds _ _ _ _ Hset) as (H1 & H2 & H3). unfold set_members, bind. rewrite (ask_single _ _ (fam_key f src)) by done. cbn [cell_op].
  destruct (_live_set now _) as [c s]. cbn [fst snd] in *. eexists _, _. split; [reflexivity|]. split.
  - split; [done|]. intros m. by rewrite H3, timed_recent.
  - eapply at_put; [by split|]. apply knows_read_fam; [done|]. by destruct Hf as [[-> ->]|[-> ->]].
Qed.
Lemma distinct_members l l' : NoDup l → (∀ m, m ∈ l ↔ m ∈ l') → count_val l = distinct l'.
Proof.
  intros Hl Hm. unfold distinct, count_val. f_equal. apply Permutation_length, NoDup_Permutation; [done| |].
  - apply NoDup_dedup_onto. constructor.
  - intros x. rewrite elem_of_dedup_onto, Hm. split; [by right|]. intros [Hx|?]; [by apply elem_of_nil in Hx|done].
Qed.
Lemma fleet_ok hs hf r fp :
  yields (at_ hs hf r) (set_len now (fleet_key st fp)) (λ n w, n = distinct (sources_of st hf fp now) ∧ at_ hs hf r w).
Proof.
  intros w [Hk Hs]. pose proof (kn_fleet _ _ _ _ _ Hk fp) as Hset. destruct (live_set_holds _ _ _ _ Hset) as (H1 & H2 & H3).
  unfold set_len, bind. rewrite (ask_single _ _ (fleet_key st fp)) by done. cbn [cell_op]. destruct (_live_set now _) as [c s]. cbn [fst snd] in *.
  eexists _, _. split; [reflexivity|]. split.
  - replace (length s) with (length (od_keys s)) by apply length_fmap. apply distinct_members; [done|]. intros m. by rewrite H3, timed_recent.
  - eapply at_put; [by split|]. by apply knows_put_fleet with hf.
Qed.
Lemma baseline_ok hs hf r src : yields (at_ hs hf r) (read_baseline st loads now src)
  (λ b w, b = (count_val (stretch st (hs fam_base) src now), last (stretch st (hs fam_base) src now)) ∧ at_ hs hf r w).
Proof using loads_baseline.
  intros w [Hk Hs]. pose proof (kn_fam _ _ _ _ _ Hk fam_base src) as Hc. cbn [fam_holds] in Hc. destruct (kv_get_holds _ _ _ _ _ Hc) as [H1 H2].
  pose proof (kh_value _ _ _ _ _ Hc now (Z.le_refl _)) as H3. unfold stretch.
  unfold read_baseline, bind. change (baseline_key st src) with (fam_key fam_base src).
  rewrite (ask_single _ _ (fam_key fam_base src)) by done. cbn [cell_op]. destruct (kv_get now _) as [c v]. cbn [fst snd] in *. rewrite H2, H3.
  assert (Hk' : at_ hs hf r (World (put_cell (fam_key fam_base src) c (w_store w)) (w_sent w))).
  { eapply at_put; [by split|]. by apply knows_read_fam. }
  destruct (unbroken BT now _) as [|t ts]; unfold lift.
  - eexists _, _. split; [reflexivity|]. by split.
  - rewrite loads_baseline. eexists _, _. split; [reflexivity|]. split; [|done]. by rewrite last_default.
Qed.
Lemma range_ok hs hf r src : yields (at_ hs hf r) (window_range now (transitions_key st src) (now - WT))
  (λ l w, l ≡ₚ moves_of st (hs fam_moves) src now ∧ at_ hs hf r w).
Proof.
  intros w [Hk Hs]. pose proof (kn_fam _ _ _ _ _ Hk fam_moves src) as Hc. cbn [fam_holds] in Hc. destruct (win_range_holds _ _ _ _ Hc) as [H1 H2].
  unfold window_range, bind. change (transitions_key st src) with (fam_key fam_moves src).
  rewrite (ask_single _ _ (fam_key fam_moves src)) by done. cbn [cell_op]. destruct (WindowStore.window_range now _ _) as [c l]. cbn [fst snd] in *.
  eexists _, _. split; [reflexivity|]. split; [|eapply at_put; [by split|]; by apply knows_read_fam].
  rewrite H2. unfold moves_of, recent, timed. clear. induction (of_src src (hs fam_moves)) as [|o h IH]; [done|]. cbn. destruct (now <? o_time o + WT); cbn; by rewrite IH.
Qed.

(** *** Sending *)

Lemma existsb_times key log : existsb (λ tk : Z * string, String.eqb tk.2 key && (now <? tk.1 + EMIT_TTL)) log =
  existsb (λ t, now <? t + EMIT_TTL) (times_of key log).
Proof. unfold times_of. induction log as [|[t k] log IH]; [done|]. cbn. destruct (String.eqb k key); cbn; by rewrite IH. Qed.
Lemma times_snoc k log t key : times_of k (log ++ [(t, key)]) = times_of k log ++ (if String.eqb key k then [t] else []).
Proof. unfold times_of. rewrite List.filter_app, fmap_app. cbn. by destruct (String.eqb key k). Qed.
Definition ja4_detector (det : string) : Prop := det = "ja4_novelty" ∨ det = "ja4_transition_burst".
Lemma emit_key_tracked det ents : ja4_detector det → emit_tracked (emit_key st stable now det ents) = true.
Proof. unfold emit_tracked, emit_key. rewrite !starts_with_cancel. by intros [-> | ->]. Qed.
Lemma emit_sends hs hf r e det sev conf ents : 0 <= now → ja4_detector det →
  yields (at_ hs hf r) (_emit st stable dumps compact now e det "c2" sev conf ents None)
    (λ _ w, at_ hs hf (ref_send st stable dumps compact now e r (det, sev, conf, ents)) w).
Proof.
  intros H0 Hd w [Hk Hs]. unfold _emit, ref_send, bind. set (key := emit_key st stable now det _).
  assert (Ht : emit_tracked key = true) by by apply emit_key_tracked.
  pose proof (sent_step now _ _ H0 (kn_sent _ _ _ _ _ Hk key Ht)) as Hstep. rewrite (ask_single _ _ key) by done. cbn [cell_op]. rewrite existsb_times.
  destruct (existsb _ _).
  - rewrite Hstep. cbn [fst snd]. eexists _, _. split; [reflexivity|]. split; [|done]. apply knows_put_sent with (r_log r); try done.
    by apply kn_sent with (1 := Hk).
  - destruct Hstep as [Hb Hc]. destruct (dedup_seen now EMIT_TTL _) as [c b]. cbn [fst snd] in *. subst b. unfold modify. eexists _, _. split; [reflexivity|].
    split; cbn [w_store w_sent r_log r_sent].
    + apply knows_put_sent with (r_log r); [done|done| |].
      * by rewrite times_snoc, String.eqb_refl.
      * intros k' Hne. rewrite times_snoc. destruct (String.eqb_spec key k'); [congruence|]. by rewrite app_nil_r.
    + rewrite List.filter_app, Hs. by destruct Hd as [-> | ->].
Qed.
Lemma novelty_detector fp seen acs fleet m ents v : novelty_verdict st fp seen acs fleet m ents = Some v → ja4_detector v.1.1.1.
Proof. unfold novelty_verdict. destruct (ja4_novelty _ _ _ _ _ _ _) as [[[[] ?] ?] ?]; [|done]. intros [= <-]. by left. Qed.
Lemma burst_detector fp l m ents v : burst_verdict st now fp l m ents = Some v → ja4_detector v.1.1.1.
Proof. unfold burst_verdict. destruct (ja4_transition_burst _ _ _) as [b n]. destruct (_ && _); [|done]. intros [= <-]. by right. Qed.
Lemma emit_verdict_sends hs hf r e v : 0 <= now → (∀ x, v = Some x → ja4_detector x.1.1.1) →
  yields (at_ hs hf r) (emit_verdict st stable dumps compact now e v)
    (λ _ w, at_ hs hf (foldl (ref_send st stable dumps compact now e) r (omap id [v])) w).
Proof.
  intros H0 Hd. destruct v as [[[[det sev] conf] ents]|]; cbn.
  - apply emit_sends; [done|]. apply (Hd _ eq_refl).
  - intros w Hw. by exists tt, w.
Qed.

(** *** Verdicts depend on what the history has *)

Lemma mem_same l l' (x : string) : (∀ m, m ∈ l ↔ m ∈ l') → mem x l = mem x l'.
Proof. intros H. unfold mem. apply bool_decide_ext, H. Qed.
Lemma novelty_same fp l l' acs acs' fleet m ents : (∀ x, x ∈ l ↔ x ∈ l') → (∀ x, x ∈ acs ↔ x ∈ acs') →
  novelty_verdict st fp l acs fleet m ents = novelty_verdict st fp l' acs' fleet m ents.
Proof.
  intros H1 H2. unfold novelty_verdict, ja4_novelty. by rewrite (mem_same l l' fp H1), (mem_same acs acs' (ja4_ac fp) H2).
Qed.
Lemma max_time_upper t ts u : t <= u → (∀ x, x ∈ ts.*1 → x <= u) → max_time t ts <= u.
Proof.
  unfold max_time. revert t. induction (ts.*1) as [|x l IH]; intros t Ht Hu; [done|]. cbn. apply IH.
  - specialize (Hu x (list_elem_of_here _ _)). lia.
  - intros y Hy. apply Hu. by right.
Qed.
Lemma max_time_lower t ts : t <= max_time t ts ∧ ∀ x, x ∈ ts.*1 → x <= max_time t ts.
Proof.
  unfold max_time. revert t. induction (ts.*1) as [|x l IH]; intros t; [cbn; split; [lia|intros x Hx; by apply elem_of_nil in Hx]|]. cbn.
  destruct (IH (Z.max t x)) as [H1 H2]. split; [lia|]. intros y [->|Hy]%elem_of_cons; [lia|auto].
Qed.
Lemma burst_fresh l fp window k : (∀ t f, (t, f) ∈ l → now - window <= t <= now ∧ ja4_text f = true) → 0 <= window → ja4_text fp = true →
  ja4_transition_burst (l ++ [(now, fp)]) window k = (k <=? distinct (l.*2 ++ [fp]), distinct (l.*2 ++ [fp])).
Proof.
  intros Hl Hw Hfp. destruct (l ++ [(now, fp)]) as [|p ps] eqn:E; [by apply app_eq_nil in E as [_ [=]]|].
  assert (Hin : ∀ x, x ∈ p :: ps ↔ x ∈ l ∨ x = (now, fp)) by (intros x; rewrite <- E, elem_of_app, list_elem_of_singleton; done).
  assert (Hmax : max_time p.1 ps = now).
  { destruct (max_time_lower p.1 ps) as [H1 H2]. apply Z.le_antisymm.
    - assert (Hle : ∀ x, x ∈ p :: ps → x.1 <= now) by (intros [t f] [Hx|[= -> ->]]%Hin; [by apply Hl in Hx as [[]]|cbn; lia]).
      apply max_time_upper; [apply Hle, list_elem_of_here|]. intros x Hx. apply list_elem_of_fmap in Hx as (y & -> & Hy). apply Hle. by right.
    - assert (Hn : (now, fp) ∈ p :: ps) by (apply Hin; by right). apply elem_of_cons in Hn as [<-|Hn]; [done|]. apply H2. by apply (list_elem_of_fmap_2 fst) in Hn. }
  unfold ja4_transition_burst. rewrite Hmax, filter_all, <- E, fmap_app; [done|]. intros [t f] Hx. cbn.
  assert (Hb : now - window <= t <= now ∧ ja4_text f = true) by (apply Hin in Hx as [Hx|[= -> ->]]; [by apply Hl|split; [lia|done]]).
  destruct Hb as [[Hlo Hhi] ->]. by rewrite (proj2 (Z.leb_le _ _) Hlo), (proj2 (Z.leb_le _ _) Hhi).
Qed.
Lemma burst_same fp l l' m ents : l ≡ₚ l' → (∀ t f, (t, f) ∈ l' → now - WT <= t <= now ∧ ja4_text f = true) → 0 <= WT → ja4_text fp = true →
  burst_verdict st now fp l m ents = burst_verdict st now fp l' m ents.
Proof.
  intros Hp Hl Hw Hfp. unfold burst_verdict. rewrite !burst_fresh; [|done..| |done|done].
  - assert (E : distinct (l.*2 ++ [fp]) = distinct (l'.*2 ++ [fp])); [|by rewrite E].
    rewrite <- (distinct_members (dedup_onto [] (l.*2 ++ [fp])) (l'.*2 ++ [fp])); [done|apply NoDup_dedup_onto; constructor|].
    intros x. rewrite elem_of_dedup_onto, Hp. split; [intros [Hx|?]; [by apply elem_of_nil in Hx|done]|by right].
  - intros t f Hin. apply Hl. by rewrite <- Hp.
Qed.

(** *** Learning *)

Lemma of_src_snoc src h o : of_src src (h ++ [o]) = of_src src h ++ (if String.eqb (o_src o) src then [o] else []).
Proof. unfold of_src. rewrite List.filter_app. cbn. by destruct (String.eqb _ _). Qed.
Lemma of_fp_snoc fp h o : of_fp fp (h ++ [o]) = of_fp fp h ++ (if String.eqb (o_fp o) fp then [o] else []).
Proof. unfold of_fp. rewrite List.filter_app. cbn. by destruct (String.eqb _ _). Qed.
Definition learned (f : family) (o : obs) (hs : family → list obs) : family → list obs := upd f (hs f ++ [o]) hs.
Lemma learn_fam {A} (o : obs) op f hs hf r (a : A) :
  op_key op = Some (fam_key f (o_src o)) →
  (∀ c, fam_holds f now c (of_src (o_src o) (hs f)) → fam_holds f now (cell_op now op c).1 (of_src (o_src o) (hs f) ++ [o])) →
  yields (at_ hs hf r) (ask now op;* ret a) (λ _ w, at_ (learned f o hs) hf r w).
Proof.
  intros Hop Hc w Hw. pose proof Hw as [Hk _]. unfold bind. rewrite (ask_single _ _ _ _ Hop). eexists _, _. split; [reflexivity|].
  eapply at_put; [done|]. apply knows_put_fam; [done| |].
  - rewrite of_src_snoc, String.eqb_refl. apply Hc, (kn_fam _ _ _ _ _ Hk).
  - intros src' Hne. rewrite of_src_snoc. destruct (String.eqb_spec (o_src o) src'); [congruence|]. by rewrite app_nil_r.
Qed.
Lemma learn_member o f g hs hf r : (f = fam_seen ∧ g = o_fp) ∨ (f = fam_ac ∧ g = ja4_ac ∘ o_fp) → o_time o = now →
  yields (at_ hs hf r) (set_add now (fam_key f (o_src o)) (g o) BT) (λ _ w, at_ (learned f o hs) hf r w).
Proof.
  intros Hf Ho. apply learn_fam; [done|]. intros c Hc.
  destruct Hf as [[-> ->]|[-> ->]]; cbn [fam_holds cell_op fst] in *; unfold timed in *; rewrite fmap_app; cbn; rewrite Ho; by apply set_add_holds.
Qed.
Lemma learn_move o hs hf r : o_time o = now →
  yields (at_ hs hf r) (let* _ := ask now (o_window_add (transitions_key st (o_src o)) now (o_fp o) WT) in ret tt) (λ _ w, at_ (learned fam_moves o hs) hf r w).
Proof.
  intros Ho. apply (learn_fam o _ fam_moves); [done|]. intros c Hc. cbn [fam_holds cell_op fst] in *. unfold timed in *. rewrite fmap_app. cbn. rewrite Ho.
  by apply win_add_holds.
Qed.
Lemma learn_base {A} o hs hf r (k : M Wd A) Q : o_time o = now →
  yields (at_ (learned fam_base o hs) hf r) k Q →
  yields (at_ hs hf r)
    (let* _ := ask now (o_kv_set (baseline_key st (o_src o)) (dumps (baseline_val (count_val (stretch st (hs fam_base) (o_src o) now) + 1)
                         (default now (last (stretch st (hs fam_base) (o_src o) now))))) BT) in k) Q.
Proof.
  intros Ho Hk. eapply yields_bind; [|intros x0; exact Hk]. intros w Hw.
  destruct (learn_fam o (o_kv_set (baseline_key st (o_src o)) (dumps (baseline_val (count_val (stretch st (hs fam_base) (o_src o) now) + 1)
                         (default now (last (stretch st (hs fam_base) (o_src o) now))))) BT) fam_base hs hf r tt) with (w := w) as (a & w' & E & H); [done| |done|].
  - intros c Hc. cbn [fam_holds cell_op fst] in *. rewrite fmap_app. cbn. rewrite Ho. by apply kv_set_holds.
  - unfold bind in E. destruct (ask now _ w) as [w1 [a1|e]]; [|done]. inversion E; subst. by exists a1, w'.
Qed.
Lemma learn_fleet o hs hf r : o_time o = now →
  yields (at_ hs hf r) (set_add now (fleet_key st (o_fp o)) (o_src o) BT) (λ _ w, at_ hs (hf ++ [o]) r w).
Proof.
  intros Ho w Hw. pose proof Hw as [Hk _]. unfold set_add, bind. rewrite (ask_single _ _ (fleet_key st (o_fp o))) by done. eexists _, _. split; [reflexivity|].
  eapply at_put; [done|]. apply knows_put_fleet with hf; [done| |].
  - rewrite of_fp_snoc, String.eqb_refl. unfold timed. rewrite fmap_app. cbn. rewrite Ho. apply set_add_holds, (kn_fleet _ _ _ _ _ Hk).
  - intros fp' Hne. rewrite of_fp_snoc. destruct (String.eqb_spec (o_fp o) fp'); [congruence|]. by rewrite app_nil_r.
Qed.

Definition sound (h : list obs) : Prop := Forall (λ o, o_time o <= now ∧ ja4_text (o_fp o) = true) h.
Lemma moves_in h src t f : sound h → (t, f) ∈ moves_of st h src now → now - WT <= t <= now ∧ ja4_text f = true.
Proof.
  unfold moves_of, recent, of_src. intros Hs Hin. apply list_elem_of_fmap in Hin as (o & [= -> ->] & Hin). apply elem_filter in Hin as [Hin Hlt]. apply elem_filter in Hin as [Hin _].
  apply Z.ltb_lt in Hlt. apply (proj1 (Forall_forall _ _) Hs) in Hin as [? ?]. split; [lia|done].
Qed.
Abbreviation ref_obs := (ref_observe st stable dumps compact repr).
Lemma ja4_observe_ok h r fp src_val e : h = r_hist r → sound h → 0 <= now → 0 <= WT → ja4_text fp = true → truthy src_val = true →
  member_of repr src_val = Ok (text repr src_val) →
  yields (at_ (λ _, h) h r) (observe now fp src_val e) (λ _ w, let r' := ref_obs now fp src_val e r in at_ (λ _, r_hist r') (r_hist r') r' w).
Proof using loads_baseline.
  intros Hh Hsound H0 HW Hfp Hsrc Hmem. set (src := text repr src_val). set (o := {| o_time := now; o_src := src; o_fp := fp |}).
  unfold _ja4_observe. rewrite Hsrc. cbn [negb]. fold src.
  eapply yields_bind; [apply (members_ok fam_seen o_fp); by left|]. intros seen. apply yields_fact. intros [Hnd Hseen].
  eapply yields_bind; [apply (members_ok fam_ac (ja4_ac ∘ o_fp)); by right|]. intros acs. apply yields_fact. intros [_ Hacs].
  eapply yields_bind; [apply baseline_ok|]. intros [n first]. apply yields_fact. intros [= -> ->].
  eapply yields_bind; [apply fleet_ok|]. intros fleet. apply yields_fact. intros ->.
  rewrite (distinct_members _ _ Hnd Hseen). set (m := baseline_maturity _ _ _ _ _ _).
  set (ents := ja4_entities e src fp _ m _ src_val).
  rewrite (novelty_same fp seen (seen_of st h src now) acs (ja4_ac <$> seen_of st h src now)); [|exact Hseen|].
  2:{ intros x. rewrite Hacs. unfold seen_of. by rewrite <- list_fmap_compose. }
  eapply yields_bind; [apply emit_verdict_sends; [done|]; intros x; apply novelty_detector|]. intros [].
  eapply yields_bind; [apply range_ok|]. intros history. apply yields_fact. intros Hhist.
  rewrite (burst_same fp history _ m ents Hhist); [|by intros t f; apply moves_in|done|done].
  eapply yields_bind; [apply emit_verdict_sends; [done|]; intros x; apply burst_detector|]. intros [].
  set (r2 := foldl _ (foldl _ r _) _). change src with (o_src o). apply (learn_base o); [done|].
  eapply yields_bind; [apply (learn_member o fam_seen o_fp); [by left|done]|]. intros [].
  eapply yields_bind; [apply (learn_member o fam_ac (ja4_ac ∘ o_fp)); [by right|done]|]. intros [].
  rewrite Hmem. eapply yields_bind; [apply (yields_ret _ src)|]. intros x. apply yields_fact. intros ->.
  eapply yields_bind; [apply (learn_fleet o); done|]. intros [].
  eapply yields_post; [apply (learn_move o); done|]. intros _ w [Hk Hs].
  assert (Hr2 : foldl (ref_send st stable dumps compact now e) r (verdicts st repr (r_hist r) now src_val fp e) = r2).
  { subst r2. rewrite <- foldl_app, <- omap_app. unfold verdicts. rewrite <- Hh. reflexivity. }
  cbn zeta. unfold ref_observe. rewrite Hr2. split; cbn [r_log r_sent r_hist]; [|done]. fold src. fold o. rewrite <- Hh.
  eapply knows_ext; [|exact Hk]. intros f. by destruct f.
Qed.
End step.

(** ** Everything else leaves it alone *)

Definition quiet (w w' : Wd) : Prop :=
  (∀ k, tracked st k = true → cell_at (w_store w') k = cell_at (w_store w) k) ∧
  List.filter is_ja4 (w_sent w') = List.filter is_ja4 (w_sent w).
#[local] Instance quiet_preorder : PreOrder quiet.
Proof.
  split; [done|]. intros a b c [H1 H2] [H3 H4]. split; [|congruence]. intros k Hk. by rewrite H3, H1.
Qed.
Lemma quiet_ask now o k : op_key o = Some k → tracked st k = false → frames quiet (ask (S := mem_store) now o).
Proof.
  intros Hk Ht w. rewrite (ask_single _ _ _ _ Hk). split; [|done]. intros k' Hk'. cbn. rewrite cell_at_put, decide_False; [done|]. intros ->. congruence.
Qed.
(** The other detectors' names differ from the two tracked ones in their first five letters. *)
Definition other_detector (det : string) : Prop := ∀ s,
  starts_with "ja4_n" (det +:+ s) = false ∧ starts_with "ja4_t" (det +:+ s) = false.
Lemma quiet_emit now e det cat sev conf ents mitre : other_detector det → frames quiet (_emit st stable dumps compact now e det cat sev conf ents mitre).
Proof.
  intros Hd. unfold _emit. apply (frames_bind quiet).
  - eapply quiet_ask; [done|]. unfold tracked, emit_key. change ":ja4_n" with (":" +:+ "ja4_n"). change ":ja4_t" with (":" +:+ "ja4_t").
    rewrite !starts_with_cancel. match goal with |- context [starts_with "ja4_n" (det +:+ ?s)] => by destruct (Hd s) as [-> ->] end.
  - intros a. destruct a as [|[]| | | | | |]; try apply (frames_ret quiet). apply (frames_modify quiet). intros w. split; [done|]. cbn. rewrite List.filter_app. cbn.
    unfold is_ja4. cbn [cd_detector candidate_of]. destruct (mem det _) eqn:E; [|by rewrite app_nil_r]. exfalso. apply mem_true in E. destruct (Hd "") as [H1 H2].
    apply elem_of_cons in E as [->|E]; [done|]. by apply list_elem_of_singleton in E as ->.
Qed.
Lemma emit_returns now e det cat sev conf ents mitre (w : Wd) : ∃ w', _emit st stable dumps compact now e det cat sev conf ents mitre w = (w', Ok tt).
Proof. unfold _emit, bind, ask. destruct (ws_step now _ _) as [s a]. destruct a as [|[]| | | | | |]; by eexists. Qed.
Lemma quiet_emit_on now e det cat sev conf why ents : other_detector det → frames quiet (emit_on st stable dumps compact now e det cat sev conf why ents).
Proof. intros Hd. destruct why; [by apply quiet_emit|apply (frames_ret quiet)]. Qed.
Lemma quiet_rare now fp kind : frames quiet (_fp_rare st repr now fp kind).
Proof.
  unfold _fp_rare, set_len, set_contains, set_add. destruct (negb _); [apply (frames_ret quiet)|].
  apply (frames_bind quiet); [apply (frames_bind quiet); [by eapply quiet_ask|]; intros; apply (frames_ret quiet)|]. intros n.
  apply (frames_bind quiet); [apply (frames_lift quiet)|]. intros m. apply (frames_bind quiet).
  - destruct (_ <=? n); [|apply (frames_ret quiet)]. apply (frames_bind quiet); [|intros; apply (frames_ret quiet)].
    apply (frames_bind quiet); [by eapply quiet_ask|]. intros; apply (frames_ret quiet).
  - intros rare. apply (frames_bind quiet); [|intros; apply (frames_ret quiet)]. apply (frames_bind quiet); [by eapply quiet_ask|]. intros; apply (frames_ret quiet).
Qed.
Ltac quiet_tac :=
  repeat first
    [ apply (frames_ret quiet) | apply (frames_lift quiet) | apply quiet_rare
    | apply quiet_emit; by intros ? | apply quiet_emit_on; by intros ?
    | eapply quiet_ask; [reflexivity|reflexivity]
    | apply (frames_bind quiet) | match goal with |- ∀ _, _ => intros ? end
    | match goal with |- frames _ (match ?x with _ => _ end) => destruct x end ].
Lemma quiet_ja3 now e obj : frames quiet
  (let* rare := _fp_rare st repr now (_fp_hash (dgetN "ja3" obj)) "ja3" in
   if rare : bool then
     _emit st stable dumps compact now e "ja4_rarity" "c2" 5 half
       ([VDict ([("type", VStr "ja3"); ("value", _fp_hash (dgetN "ja3" obj))] ++
                (if val_eq_str (dgetN "event_type" e) "tls" then [] else [("transport", VStr "quic")]));
         ip_entity "src" (dgetN "src_ip" e); entity "sni" (dgetN "sni" obj)] ++ _cid e) None
   else ret tt).
Proof. quiet_tac. Qed.
Lemma quiet_server now e obj : frames quiet (server_fp st stable dumps compact repr now e obj).
Proof. unfold server_fp. destruct (truthy _); quiet_tac. Qed.
Lemma quiet_cert now e t sni : frames quiet (handle_cert st stable dumps compact repr now e t sni).
Proof. unfold handle_cert, set_add. quiet_tac. Qed.
Lemma quiet_http now e : frames quiet (handle_http st ip_address stable dumps compact repr now e).
Proof. unfold handle_http, set_members. quiet_tac. Qed.
Lemma quiet_ssh now e src dst : frames quiet (handle_ssh st stable dumps compact repr now e src dst).
Proof. unfold handle_ssh, counter_add. quiet_tac. Qed.
Lemma quiet_icmp now e src dst : frames quiet (handle_icmp st ip_address stable dumps compact repr now e src dst).
Proof. unfold handle_icmp, counter_add. quiet_tac. Qed.

(** ** One record, then all *)

Definition linked (T : Z) (w : Wd) (r : reference) : Prop := at_ T (λ _, r_hist r) (r_hist r) r w ∧ sound T (r_hist r).
Lemma linked_later T T' w r : T <= T' → linked T w r → linked T' w r.
Proof.
  intros HT [[H1 H2] H3]. split; [split; [by eapply knows_later|done]|]. eapply Forall_impl; [exact H3|]. intros o [? ?]. split; [lia|done].
Qed.
Lemma linked_quiet T w w' r : quiet w w' → linked T w r → linked T w' r.
Proof. intros [Hq Hs] [[H1 H2] H3]. split; [split; [by eapply knows_quiet|congruence]|done]. Qed.
Lemma bind_tail {A B} (m : M Wd A) (k : A → M Wd B) w : (∀ a, frames quiet (k a)) → quiet (m w).1 (bind m k w).1.
Proof. intros Hk. unfold bind. destruct (m w) as [w1 [a|e]]; [apply Hk|reflexivity]. Qed.

Abbreviation r_step := (ref_step st stable dumps compact repr).
Lemma ref_observe_hist now fp v e r : r_hist (ref_observe st stable dumps compact repr now fp v e r) = r_hist r ++ [{| o_time := now; o_src := text repr v; o_fp := fp |}].
Proof. reflexivity. Qed.
Lemma observe_linked now w r fp e : linked now w r → 0 <= now → 0 <= WT → ja4_text fp = true →
  member_of repr (dgetN "src_ip" e) = Ok (text repr (dgetN "src_ip" e)) →
  linked now (observe now fp (dgetN "src_ip" e) e w).1
    (if truthy (dgetN "src_ip" e) then ref_observe st stable dumps compact repr now fp (dgetN "src_ip" e) e r else r).
Proof using loads_baseline.
  intros [Hat Hs] H0 HW Hfp Hmem. destruct (truthy (dgetN "src_ip" e)) eqn:Et.
  - destruct (ja4_observe_ok now (r_hist r) r fp (dgetN "src_ip" e) e eq_refl Hs H0 HW Hfp Et Hmem w Hat) as ([] & w' & -> & H). split; [exact H|].
    rewrite ref_observe_hist. apply Forall_app. split; [done|]. constructor; [split; [apply Z.le_refl|done]|constructor].
  - unfold _ja4_observe. rewrite Et. by split.
Qed.
Lemma client_linked now w r e obj : linked now w r → 0 <= now → 0 <= WT →
  member_of repr (dgetN "src_ip" e) = Ok (text repr (dgetN "src_ip" e)) →
  linked now (client_fp st stable dumps compact repr loads now e obj w).1
    (match observed_fp obj with
     | Some fp => if truthy (dgetN "src_ip" e) then ref_observe st stable dumps compact repr now fp (dgetN "src_ip" e) e r else r
     | None => r
     end).
Proof using loads_baseline.
  intros Hl H0 HW Hmem. unfold client_fp, observed_fp. pose proof (linked_quiet now _ _ r (quiet_ja3 now e obj w) Hl) as Hq.
  destruct (_fp_hash (dgetN "ja4" obj)) as [| | | |fp| |]; try exact Hq. cbn [ja4_valid]. destruct (ja4_text fp) eqn:Ef; [|exact Hq].
  by apply observe_linked.
Qed.
Lemma tls_linked now w r et e : linked now w r → 0 <= now → 0 <= WT →
  member_of repr (dgetN "src_ip" e) = Ok (text repr (dgetN "src_ip" e)) →
  linked now (handle_tls st stable dumps compact repr loads now et e w).1
    (match sub_dict et e with
     | Ok obj => match observed_fp obj with
                 | Some fp => if truthy (dgetN "src_ip" e) then ref_observe st stable dumps compact repr now fp (dgetN "src_ip" e) e r else r
                 | None => r
                 end
     | Raise _ => r
     end).
Proof using loads_baseline.
  intros Hl H0 HW Hmem. unfold handle_tls, bind at 1, lift at 1. destruct (sub_dict et e) as [obj|ex]; [|done]. cbn zeta.
  eapply linked_quiet; [apply bind_tail|by apply client_linked]. intros ?. apply (frames_bind quiet); [apply quiet_server|].
  intros ?. quiet_tac. cbv zeta. unfold set_add. quiet_tac.
Qed.
Lemma mismatch_runs now e w :
  if is_ok (port_proto_mismatch (py_or (dgetN "app_proto" e) (dgetN "event_type" e)) (dgetN "dest_port" e) (ALLOW_PROTO_PORTS st))
  then ∃ w', handle_mismatch st stable dumps compact now e w = (w', Ok tt) ∧ quiet w w'
  else ∃ ex, handle_mismatch st stable dumps compact now e w = (w, Raise ex).
Proof.
  unfold handle_mismatch, bind, lift. destruct (port_proto_mismatch _ _ _) as [mm|ex]; cbn [is_ok]; [|by exists ex].
  destruct (_ && _); [|by exists w]. destruct mm as [why|]; [|by exists w]. cbn [emit_on].
  destruct (emit_returns now e "port_proto_mismatch" "defense_evasion" 4 half ([ip_entity "src" (dgetN "src_ip" e); ip_entity "dst" (dgetN "dest_ip" e); entity "why" (VStr why)] ++ _cid e) None w) as [w' E].
  exists w'. split; [exact E|]. assert (Hq : frames quiet (_emit st stable dumps compact now e "port_proto_mismatch" "defense_evasion" 4 half ([ip_entity "src" (dgetN "src_ip" e); ip_entity "dst" (dgetN "dest_ip" e); entity "why" (VStr why)] ++ _cid e) None)) by (apply quiet_emit; by intros ?).
  specialize (Hq w). by rewrite E in Hq.
Qed.
Lemma handle_linked now w r e : linked now w r → 0 <= now → 0 <= WT →
  member_of repr (dgetN "src_ip" e) = Ok (text repr (dgetN "src_ip" e)) → linked now (handle now e w).1 (r_step r (now, e)).
Proof using loads_baseline.
  intros Hl H0 HW Hmem. unfold _handle, ref_step, ja4_of. cbn [fst snd]. unfold bind at 1. pose proof (mismatch_runs now e w) as Hm.
  destruct (is_ok _); [|destruct Hm as [ex ->]; exact Hl]. destruct Hm as (w1 & -> & Hq). apply (linked_quiet _ _ _ _ Hq) in Hl. cbn [andb].
  eapply linked_quiet; [apply bind_tail; intros ?; apply (frames_bind quiet); [destruct (_ && _); [apply quiet_ssh|apply (frames_ret quiet)]|];
    intros ?; destruct (_ && _); [apply quiet_icmp|apply (frames_ret quiet)]|].
  cbn [find]. destruct (val_eq_str (dgetN "event_type" e) "tls") eqn:Et; [|destruct (val_eq_str (dgetN "event_type" e) "quic") eqn:Eq].
  1, 2: match goal with |- linked _ (handle_tls _ _ _ _ _ _ _ ?et _ _).1 _ =>
      pose proof (tls_linked now w1 r et e Hl H0 HW Hmem) as H; destruct (sub_dict et e) as [obj|]; [destruct (observed_fp obj)|]; by destruct (truthy (dgetN "src_ip" e)) end.
  replace (if truthy (dgetN "src_ip" e) then None else None) with (@None string) by (by destruct (truthy _)).
  destruct (val_eq_str (dgetN "event_type" e) "http"); [|exact Hl]. eapply linked_quiet; [apply quiet_http|exact Hl].
Qed.

(** Times do not run backwards, and addresses are no containers. *)
Fixpoint clocked (T : Z) (records : list (Z * dict)) : Prop :=
  match records with [] => True | (now, _) :: rs => T <= now ∧ clocked now rs end.
Definition plain_source (r : Z * dict) : Prop := is_ok (member_of repr (dgetN "src_ip" r.2)) = true.
Lemma member_text v : is_ok (member_of repr v) = true → member_of repr v = Ok (text repr v).
Proof. by destruct v. Qed.
Lemma run_linked records T w r : 0 <= T → 0 <= WT → clocked T records → Forall plain_source records → linked T w r →
  ∃ T', linked T' (run st ip_address stable dumps compact repr loads w records) (foldl r_step r records).
Proof using loads_baseline.
  intros H0 HW. revert T w r H0. induction records as [|[now e] rs IH]; intros T w r H0 Hc Hp Hl; [by exists T|]. destruct Hc as [Ht Hc].
  apply Forall_cons in Hp as [Hp Hps]. apply (IH now); [lia|done|done|]. apply handle_linked; [by eapply linked_later|lia|done|by apply member_text].
Qed.
Definition start : Wd := World ∅ [].
Lemma start_linked : linked 0 start blank.
Proof. split; [split; [apply knows_empty|done]|constructor]. Qed.

(** C21. JA4 findings depend on the observations alone.  Over any records, in the order of the
    clock, whose source addresses are no lists or objects, the novelty and transition-burst findings the service sends (with every other
    check at work on the same store) are those of a reference that keeps all observations
    and decides from them: a source is mature by the count and the span of its observations
    since its last gap of the baseline's lifetime, a fingerprint is new to it when it was not
    observed within that lifetime, rare by the number of distinct sources it came from, and a
    burst counts the distinct fingerprints of the window; each finding is sent unless its
    key was sent within the hour.  Expiry, pruning and deduplication in the store never
    change a verdict. *)
Theorem ja4_findings_from_history records :
  0 <= WT → clocked 0 records → Forall plain_source records →
  List.filter is_ja4 (w_sent (run st ip_address stable dumps compact repr loads start records)) =
  r_sent (ref_run st stable dumps compact repr records).
Proof using loads_baseline.
  intros HW Hc Hp. destruct (run_linked records 0 start blank (Z.le_refl _) HW Hc Hp start_linked) as (T & [[_ H] _]). exact H.
Qed.
End service.

(** A source with a baseline of one observation meets a second fingerprint, twice. *)
Definition demo_settings : settings := {|
  TENANT := "acme"; APPROVED_RESOLVERS := []; ALLOW_PROTO_PORTS := []; JA4_WARMUP := 5; JA4_TTL := 100; JA4_MIN_OBSERVATIONS := 1;
  JA4_MIN_SPAN := 1; JA4_BASELINE_TTL := 1000; JA4_RARE_MAX_ENTITIES := 2; JA4_TRANSITION_WINDOW := 600; JA4_TRANSITION_MIN_DISTINCT := 2;
  SSH_WINDOW := 600; ICMP_WINDOW := 600; EXTRA_INTERNAL := []; SOURCE_MAX_BYTES := 100 |}.
(** Baselines are written as two numbers. *)
Definition demo_dumps (v : val) : string :=
  match v with VDict [(_, VInt n); (_, VInt t)] => pretty n +:+ String ":" (pretty t) | VList l => pretty (Z.of_nat (length l)) | _ => "" end.
Definition demo_loads (s : string) : res val :=
  match cut_at ":" s with
  | Some (a, b) => match parse_int a, parse_int b with Some n, Some t => Ok (baseline_val n t) | _, _ => Raise ValueError end
  | None => Raise ValueError
  end.
Lemma demo_round_trip n t : demo_loads (demo_dumps (baseline_val n t)) = Ok (baseline_val n t).
Proof. unfold demo_loads. cbn [demo_dumps baseline_val]. rewrite cut_at_app by apply pretty_Z_no_colon. by rewrite !parse_int_pretty_Z. Qed.
Definition demo_record (fp : string) : dict :=
  [("event_type", VStr "tls"); ("src_ip", VStr "10.0.0.5"); ("dest_ip", VStr "10.0.0.9"); ("dest_port", VInt 443);
   ("tls", VDict [("ja4", VStr fp); ("sni", VStr "example.org")])].
Definition demo_records : list (Z * dict) :=
  [(1, demo_record "t13d1516h2_8daaf6152771_02713d6af862"); (5, demo_record "t13d1516h2_000000000000_02713d6af862");
   (6, demo_record "t13d1516h2_000000000000_02713d6af862")].
Definition demo_reference : reference := ref_run demo_settings (λ s, Z.of_nat (String.length s)) demo_dumps demo_dumps demo_dumps demo_records.
Example demo_verdicts : (λ c, (cd_detector c, cd_severity c)) <$> r_sent demo_reference = [("ja4_novelty", 4); ("ja4_transition_burst", 5)].
Proof. vm_compute. reflexivity. Qed.
Lemma ja4_findings_from_history_witness :
  List.filter is_ja4 (w_sent (run demo_settings (λ _, None) (λ s, Z.of_nat (String.length s)) demo_dumps demo_dumps demo_dumps demo_loads start demo_records)) =
  r_sent (ref_run demo_settings (λ s, Z.of_nat (String.length s)) demo_dumps demo_dumps demo_dumps demo_records).
Proof.
  apply (ja4_findings_from_history demo_settings (λ _, None) (λ s, Z.of_nat (String.length s)) demo_dumps demo_dumps demo_dumps demo_loads demo_round_trip demo_records).
  - vm_compute. discriminate.
  - cbn. repeat split; lia.
  - repeat constructor.
Defined.
