(* ===== verification/JsonSchema.v ===== *)
(** * Documents checked against JSON schemas

    The checks the schemas of contracts/ are made of (closed objects, bounded texts,
    patterns), equality of documents, and lemmas on both. *)

From S2P Require Import Prelude Order PyVal PyString OrderedMap.
Set Default Proof Using "Type".

(** A JSON object with exactly the given properties. *)
Definition exactly (names : list string) (d : dict) : bool :=
  (length d =? length names)%nat && forallb (λ n, dhas n d) names.
Definition nonblank (s : string) : bool := string_existsb (λ c, negb (is_space c)) s.
Definition valid_token (max_len : Z) (v : val) : bool :=
  match v with VStr s => between 1 max_len (len s) && nonblank s | _ => false end.
(** A JSON object with the required properties and possibly the optional ones. *)
Definition closed (required optional : list string) (d : dict) : bool :=
  forallb (λ n, dhas n d) required && forallb (λ kv, mem kv.1 (required ++ optional)) d.
(** A pattern ending in a dollar also matches before a final line feed. *)
Definition chomp (s : string) : string :=
  match String.rev s with String c r => if Ascii.eqb c "010" then String.rev r else s | EmptyString => s end.
Definition text_of (k : string) (d : dict) : string := match dgetN k d with VStr s => s | _ => "" end.

(** ** Equality of documents *)

Lemma py_eqb_list l m : py_eqb (VList l) (VList m) = true ↔ Forall2 (λ x y, py_eqb x y = true) l m.
Proof.
  revert m. induction l as [|x l IH]; intros [|y m]; simpl; try (split; [done|by inversion 1]).
  rewrite andb_true_iff, Forall2_cons. specialize (IH m). simpl in IH. by rewrite IH.
Qed.
Lemma py_eqb_dict d e :
  py_eqb (VDict d) (VDict e) = true ↔
  length d = length e ∧ Forall (λ kv, ∃ y, dget kv.1 e = Some y ∧ py_eqb kv.2 y = true) d.
Proof.
  change (py_eqb (VDict d) (VDict e)) with ((length d =? length e)%nat &&
    (fix go (d : dict) : bool := match d with [] => true | (k, x) :: d => match dget k e with Some y => py_eqb x y | None => false end && go d end) d).
  rewrite andb_true_iff, Nat.eqb_eq. apply and_iff_compat_l.
  induction d as [|[k x] d IH]; [by split; [constructor|]|]. rewrite andb_true_iff, Forall_cons, IH. apply and_iff_compat_r. simpl.
  destruct (dget k e) as [y|]; [|by split; [|intros (? & ? & ?)]]. split; [eauto|]. by intros (? & [= ->] & ?).
Qed.
Lemma dget_elem k v (d : dict) : dget k d = Some v → (k, v) ∈ d.
Proof.
  induction d as [|[k' v'] d IH]; simpl; [done|]. destruct (String.eqb_spec k k') as [->|]; [intros [= ->]; left|intros H%IH; by right].
Qed.
Lemma dget_unique k v (d : dict) : NoDup d.*1 → (k, v) ∈ d → dget k d = Some v.
Proof.
  induction d as [|[k' v'] d IH]; simpl; [by intros _ ?%elem_of_nil|]. rewrite NoDup_cons. intros [Hk Hd] [[= -> ->]|H]%elem_of_cons.
  - by rewrite String.eqb_refl.
  - destruct (String.eqb_spec k k') as [->|]; [|by apply IH]. destruct Hk. apply list_elem_of_fmap. by exists (k', v).
Qed.
(** A plain value: absent values, texts. *)
Definition plain (v : val) : bool := match v with VNone | VStr _ => true | _ => false end.
Lemma py_eqb_plain v w : plain v = true → py_eqb v w = true → w = v.
Proof. destruct v, w; simpl; try done. intros _ ->%String.eqb_eq. done. Qed.
Lemma plain_refl v : plain v = true → py_eqb v v = true.
Proof. destruct v; try done. intros _. simpl. apply String.eqb_refl. Qed.

Lemma exactly_keys names d : NoDup names → exactly names d = true → d.*1 ≡ₚ names.
Proof.
  unfold exactly. rewrite andb_true_iff, Nat.eqb_eq, forallb_forall. intros Hn [Hl Hh]. symmetry.
  apply submseteq_length_Permutation; [|by rewrite length_fmap, Hl].
  apply NoDup_submseteq; [done|]. intros n Hin%list_elem_of_In%Hh. unfold dhas in Hin.
  destruct (dget n d) eqn:E; [|done]. apply dget_elem in E. apply list_elem_of_fmap. by eexists (_, _).
Qed.

(** ** Keys and texts *)

Lemma lstrip_all p s : string_forallb p s = true → lstrip p s = "".
Proof. induction s as [|c s IH]; simpl; [done|]. destruct (p c); [done|discriminate]. Qed.
Lemma strip_nonblank s : str_truthy (strip s) = true → nonblank s = true.
Proof.
  unfold nonblank, string_existsb. intros H. apply negb_true_iff, not_true_iff_false. intros Hall.
  apply (forallb_weaken _ is_space) in Hall; [|intros c Hc; by rewrite negb_involutive in Hc].
  unfold strip, strip_by in H. rewrite (lstrip_all _ _ Hall) in H. discriminate H.
Qed.
Lemma dset_keys k v d : dhas k d = true → (dset k v d).*1 = d.*1.
Proof.
  unfold dhas. induction d as [|[k' v'] d IH]; simpl; [done|]. destruct (String.eqb_spec k k') as [->|]; [done|].
  intros H. simpl. f_equal. by apply IH.
Qed.
Lemma dhas_keys k (d : dict) : dhas k d = true ↔ k ∈ d.*1.
Proof.
  unfold dhas. induction d as [|[k' v'] d IH]; simpl; [split; [done|by intros ?%elem_of_nil]|].
  rewrite elem_of_cons. destruct (String.eqb_spec k k') as [->|]; [by split; [left|]|]. rewrite IH. split; [by right|]. by intros [?|?].
Qed.
Lemma exactly_ext names (d e : dict) : d.*1 = e.*1 → exactly names d = exactly names e.
Proof.
  intros H. unfold exactly. f_equal; [by rewrite <- (length_fmap fst d), <- (length_fmap fst e), H|].
  assert (Hh : ∀ n, dhas n d = dhas n e) by (intros n; apply eq_bool_prop_intro; rewrite !Is_true_true, !dhas_keys; by rewrite H).
  induction names as [|n names IH]; [done|]. simpl. by rewrite Hh, IH.
Qed.
Lemma elem_of_od_set {K V} `{EqDecision K} (k k' : K) (v v' : V) m : (k', v') ∈ od_set k v m → (k', v') = (k, v) ∨ (k', v') ∈ m.
Proof.
  induction m as [|[k2 v2] m IH]; simpl; [intros H%list_elem_of_singleton; by left|]. case_decide as E.
  - subst. intros [H|H]%elem_of_cons; [by left|right; by right].
  - intros [H|H%IH]%elem_of_cons; [right; rewrite H; left|]. destruct H; [by left|right; by right].
Qed.
