(* ===== verification/CaptureGates.v ===== *)
(** * The capture orchestrator (services/capture-orchestrator: gates.py, app.py)

    Finding-driven capture intents pass the safety gates and become arm directives of the
    sensors' agents, or, under an explicit local policy, signed and budgeted preserve
    requests; terminal reports free the budgets.

    [canonical] is the canonical JSON of a value, [mac] and [sha256] the hashes,
    [is_address] the address parser, [repr] and [reason] the texts of values and
    exceptions; sensor identifiers are texts.  A clock reading is the JSON number it
    enters requests as. *)

From S2P Require Import Prelude Order PyVal PyString OrderedMap ObjectKeys CaptureBudget.
Set Default Proof Using "Type".

(** ** Gates (gates.py) *)

Definition get_hashed (v : val) (d : dict) : res val :=
  match v with
  | VStr s => Ok (dgetN s d)
  | VList _ | VDict _ => Raise TypeError
  | _ => Ok VNone
  end.

Definition capability_gate (manifest : dict) (profile : val) : res (bool * string) :=
  profiles ← as_dict (py_or (dgetN "capture_profiles" manifest) (VDict []));
  prof ← get_hashed profile profiles;
  prof ← as_dict (py_or prof (VDict []));
  Ok (if is_true (dgetN "available" prof) then (true, "ok") else (false, "capability_unavailable")).

(** [f > v] for a float and any value. *)
Definition float_gt (f : float) (v : val) : res bool :=
  match as_num v with
  | Some n => Ok (match num_cmp (inr f) n with Some Gt => true | _ => false end)
  | None => Raise TypeError
  end.
Definition reading (k : string) (health : dict) : res float := py_float (py_or (dget_or k (VInt 0) health) (VInt 0)).
Definition health_gate (health thr : dict) : res (bool * string) :=
  loss ← reading "packet_loss_pct" health; max_loss ← dindex "max_loss_pct" thr;
  high ← float_gt loss max_loss;
  if high : bool then Ok (false, "packet_loss_over_threshold")
  else
    cpu ← reading "cpu_pct" health; max_cpu ← dindex "max_cpu_pct" thr;
    high ← float_gt cpu max_cpu;
    Ok (if high : bool then (false, "cpu_over_threshold") else (true, "ok")).

(** Per sensor the active jobs and the bytes captured. *)
Abbreviation usage := (list (string * (Z * Z))).
Record limits := { l_max_jobs : Z; l_max_bytes : Z }.
Definition used (sensor : string) (u : usage) : Z * Z := default (0, 0) (od_get sensor u).
Definition budget_gate (sensor : string) (u : usage) (l : limits) : bool * string :=
  let s := used sensor u in
  if l_max_jobs l <=? s.1 then (false, "max_concurrent_jobs")
  else if l_max_bytes l <=? s.2 then (false, "byte_budget_exhausted")
  else (true, "ok").

Definition decide_arm (sensor : string) (profile : val) (manifest health : dict) (u : usage) (thr : dict) (l : limits) :
    res (bool * string) :=
  c ← capability_gate manifest profile;
  if negb c.1 then Ok (false, c.2)
  else
    h ← health_gate health thr;
    if negb h.1 then Ok (false, h.2)
    else
      let b := budget_gate sensor u l in
      Ok (if negb b.1 then (false, b.2) else (true, "armed")).

Definition dataset_command (verb profile value : string) : res string :=
  match assoc profile PROFILE_DATASET with
  | Some (ds, typ) => Ok (verb +:+ " " +:+ ds +:+ " " +:+ typ +:+ " " +:+ value)
  | None => Raise KeyError
  end.
Definition arm_command : string → string → res string := dataset_command "dataset-add".
Definition disarm_command : string → string → res string := dataset_command "dataset-remove".

Definition in_percent (v : val) : bool :=
  match v with
  | VInt z => between 0 100 z
  | VFloat f => SFleb (lit "0.0") f && SFleb f (lit "100.0")
  | _ => false
  end.
Definition measured (health : dict) : bool :=
  is_true (dgetN "measured" health) && in_percent (dgetN "cpu_pct" health) && in_percent (dgetN "packet_loss_pct" health).

Definition text_at (k : string) (d : dict) : string := match dgetN k d with VStr s => s | _ => "" end.

Section gates.
Context (is_address : val → bool) (mac : dict → string → res string) (canonical : val → res string)
  (sha256 : string → string).

(** The request made of an intent under a policy, before it is signed. *)
Definition intent (req policy : dict) (clock : val) : res dict :=
  let trigger := dget_or "trigger_ts" clock req in
  lookback ← dindex "lookback_s" policy;
  start ← num_sub trigger lookback;
  bytes ← dindex "max_bytes" policy; duration ← dindex "max_duration_s" policy; retention ← dindex "retention_s" policy;
  late ← num_add trigger (VInt 300); soon ← num_add clock (VInt 60);
  expires ← num_min late soon;
  policy_id ← dindex "policy_id" policy;
  id ← canonical (VList [dgetN "tenant_id" req; dgetN "sensor_id" req; dgetN "finding_id" req; policy_id]);
  Ok [("schema_version", VStr "capture-request.v2"); ("mode", VStr "preserve"); ("tenant_id", dgetN "tenant_id" req);
      ("sensor_id", dgetN "sensor_id" req); ("finding_id", dgetN "finding_id" req);
      ("capture_profile", dget_or "capture_profile" (VStr "ip") req); ("value", dgetN "value" req);
      ("reason", VStr "finding capture intent"); ("policy_id", policy_id);
      ("window", VDict [("start", start); ("end", trigger)]);
      ("limits", VDict [("max_bytes", bytes); ("max_duration_s", duration); ("retention_s", retention)]);
      ("expires_at", expires); ("request_id", VStr (sha256 id))].

Definition approved (req policy health : dict) (clock : val) : res dict :=
  check (measured health) PermissionError;;
  max_loss ← dindex "max_loss_pct" policy; max_cpu ← dindex "max_cpu_pct" policy;
  h ← health_gate health [("max_loss_pct", max_loss); ("max_cpu_pct", max_cpu)];
  check h.1 PermissionError;;
  doc ← intent req policy clock;
  authorize is_address mac doc policy (ticks clock) false;;
  tag ← sign mac doc (dgetN "signing_key" policy);
  Ok (doc ++ [("authorization", VStr tag)]).
(** The reservation is the last step; [disk] tells how its save ends. *)
Definition decide_preserve (req policy health : dict) (clock : val) (disk : saving) : M budget dict :=
  let* doc := lift (approved req policy health clock) in
  reserve (text_at "tenant_id" doc) (text_at "request_id" doc) (text_at "sensor_id" doc) (limit_of "max_bytes" doc)
    (quota_of policy) (ticks clock) disk;*
  ret doc.
End gates.

(** ** The service (app.py) *)

Definition MANIFEST : dict :=
  [("capture_profiles", VDict ((λ p, (p, VDict [("available", VBool true)])) <$> ["ip"; "ja4"; "sni"; "dns"]))].

Inductive message := to_status (d : dict) | to_arm (d : dict) | to_agent (d : dict).
(** The process: whether it runs, the jobs and bytes of each sensor, the preserve
    budget, and what it sent. *)
Record orchestrator := {
  or_up : bool; or_usage : usage; or_budget : budget; or_out : list message
}.
Definition boot (b : budget) (out : list message) : orchestrator :=
  {| or_up := true; or_usage := []; or_budget := budget_load (saved b); or_out := out |}.

Section app.
Context (is_address : val → bool) (mac : dict → string → res string) (canonical : val → res string)
  (sha256 : string → string) (repr : val → string) (reason : exn → string).
Context (THR : dict) (LIMITS : limits) (PRESERVE_POLICIES : list (string * dict)).

Definition send (m : message) : M orchestrator unit :=
  modify (λ o, {| or_up := or_up o; or_usage := or_usage o; or_budget := or_budget o; or_out := or_out o ++ [m] |}).
Definition on_budget {A} (m : M budget A) : M orchestrator A := λ o,
  let '(b, r) := m (or_budget o) in
  ({| or_up := or_up o; or_usage := or_usage o; or_budget := b; or_out := or_out o |}, r).
Definition set_usage (f : usage → usage) : M orchestrator unit :=
  modify (λ o, {| or_up := or_up o; or_usage := f (or_usage o); or_budget := or_budget o; or_out := or_out o |}).

(** The copy of [tenant_segment] and the key an arm directive advertises. *)
Definition tenant_segment (tenant : val) : string :=
  let raw := py_str repr tenant in
  if match tenant with VNone => true | _ => false end || negb (str_truthy (strip raw)) then DEFAULT_TENANT_SEGMENT
  else
    let safe := take_chars 32 (strip_by (Ascii.eqb ".") (drop_dots (string_filter seg_char raw))) in
    (if str_truthy safe then safe else "t") +:+ "-" +:+ sha256 raw.
Definition object_key (tenant fid value profile : val) : string :=
  "ndr-pcap/" +:+ tenant_segment tenant +:+ "/" +:+ py_str repr (py_or fid value) +:+ "-" +:+ py_str repr profile +:+ ".pcap".

Definition sensor_key (v : val) : res string := match v with VStr s => Ok s | _ => Raise TypeError end.
Definition policy_for (v : val) : res dict :=
  match v with
  | VStr s => Ok (default [] (od_get s PRESERVE_POLICIES))
  | VList _ | VDict _ => Raise TypeError
  | _ => Ok []
  end.

(** *** Sensor health *)

(** The administrator's snapshot: absent, unreadable, or parsed. *)
Definition unmeasured : dict :=
  [("packet_loss_pct", VFloat (lit "0.0")); ("cpu_pct", VFloat (lit "0.0")); ("measured", VBool false)].
Definition snapshot_row (snapshot : res val) (sensor : val) (clock : val) : res (option dict) :=
  data ← snapshot;
  row ← match data, sensor with VDict d, VStr s => dindex s d | VDict _, _ => Raise KeyError | _, _ => Raise TypeError end;
  row ← match row with VDict r => Ok r | _ => Raise TypeError end;
  seen ← dindex "observed_at" row;
  age ← num_sub clock seen;
  policy ← policy_for sensor;
  Ok (if is_true (dgetN "measured" row) && num_le (VInt 0) age && num_le age (VInt 30)
         && py_eqb (dgetN "tenant_id" row) (dgetN "tenant_id" policy)
         && in_percent (dgetN "packet_loss_pct" row) && in_percent (dgetN "cpu_pct" row) then Some row else None).
Definition probe_health (snapshot : option (res val)) (sensor clock : val) : dict :=
  match snapshot with
  | Some s => match snapshot_row s sensor clock with Ok (Some row) => row | _ => unmeasured end
  | None => unmeasured
  end.

(** *** Preserve requests *)

(** What the outside decides while a request is handled: the health snapshot, the clock,
    whether the budget's saves succeed, and whether the directive is delivered and its
    delivery confirmed. *)
Record outside := {
  x_snapshot : option (res val); x_clock : val; x_disk : saving; x_disk' : saving; x_delivered : bool; x_confirmed : bool
}.
Definition event_of (req : dict) : dict := (λ k, (k, dgetN k req)) <$> ["tenant_id"; "sensor_id"; "finding_id"].

(** The strictest hourly bytes of the tenant's enabled policies. *)
Definition tenant_limits (req : dict) : res (list val) :=
  mapM (λ p, dindex "tenant_bytes_per_hour" p)
    (List.filter (λ p, is_true (dgetN "enabled" p) && py_eqb (dgetN "tenant_id" p) (dgetN "tenant_id" req))
       (PRESERVE_POLICIES.*2)).
Fixpoint min_of (v : val) (vs : list val) : res val :=
  match vs with [] => Ok v | w :: vs => m ← num_min v w; min_of m vs end.
Definition tightened (req policy : dict) : res dict :=
  ls ← tenant_limits req;
  match ls with [] => Ok policy | v :: vs => m ← min_of v vs; Ok (dset "tenant_bytes_per_hour" m policy) end.

Definition finish_of (d : dict) (disk : saving) : M orchestrator unit :=
  match dgetN "tenant_id" d, dgetN "request_id" d with
  | VStr t, VStr r => on_budget (finish t r (text_at "sensor_id" d) disk)
  | (VList _ | VDict _), _ | _, (VList _ | VDict _) => raise TypeError
  | _, _ => ret tt
  end.
Definition refuse (req : dict) (e : exn) : M orchestrator unit :=
  send (to_status (event_of req ++ [("kind", VStr "preserve"); ("state", VStr "refused"); ("armed", VBool false);
                                    ("reason", VStr (reason e))])).
Definition dispatch (x : outside) (d : dict) : M orchestrator unit :=
  (if x_delivered x then send (to_agent d) else ret tt);*
  if x_confirmed x then ret tt else raise OtherError.
Definition _handle_preserve (x : outside) (req policy : dict) : M orchestrator unit := λ o,
  match
    (let* policy := lift (tightened req policy) in
     on_budget (decide_preserve is_address mac canonical sha256 req policy
                  (probe_health (x_snapshot x) (dgetN "sensor_id" req) (x_clock x)) (x_clock x) (x_disk x))) o
  with
  | (o, Ok d) =>
      match dispatch x d o with
      | (o, Ok _) => (o, Ok tt)
      | (o, Raise e) => (finish_of d (x_disk' x);* refuse req e) o
      end
  | (o, Raise e) => refuse req e o
  end.

(** *** Arm directives and reports *)

Definition handle_arm (x : outside) (req : dict) : M orchestrator unit :=
  let sensor := dget_or "sensor_id" (VStr "sensor-1") req in
  let profile := dget_or "capture_profile" (VStr "ip") req in
  let value := dget_or "value" (VStr "") req in
  let fid := dget_or "finding_id" (VStr "") req in
  let* s := lift (sensor_key sensor) in
  let* u := read or_usage in
  let* d := lift (decide_arm s profile MANIFEST (probe_health (x_snapshot x) sensor (x_clock x)) u THR LIMITS) in
  send (to_status [("finding_id", fid); ("sensor_id", sensor); ("profile", profile); ("value", value);
                   ("armed", VBool d.1); ("reason", VStr d.2)]);*
  if d.1 : bool then
    set_usage (λ u, let j := used s u in od_set s (j.1 + 1, j.2) u);*
    send (to_arm [("finding_id", fid); ("sensor_id", sensor); ("capture_profile", profile); ("value", value);
                  ("pcap_ref", VStr (object_key (dgetN "tenant_id" req) fid value profile));
                  ("tenant_id", dgetN "tenant_id" req); ("ttl_secs", dgetN "ttl_secs" req);
                  ("max_bytes", dgetN "max_bytes" req)])
  else ret tt.
Definition _handle_request (x : outside) (req : dict) : M orchestrator unit :=
  let* policy := lift (policy_for (dgetN "sensor_id" req)) in
  if is_true (dgetN "enabled" policy) || val_eq_str (dgetN "mode" req) "preserve"
  then _handle_preserve x req policy
  else handle_arm x req.

Definition _handle_completion (status : dict) (disk : saving) : M orchestrator unit :=
  let state := dgetN "state" status in
  if val_eq_str (dgetN "kind" status) "preserve" then
    if val_in_strs state ["completed"; "failed"; "rejected"; "refused"; "no_data"] then finish_of status disk else ret tt
  else if val_in_strs state ["completed"; "failed"; "rejected"; "refused"] then
    let* s := lift (sensor_key (dget_or "sensor_id" (VStr "sensor-1") status)) in
    set_usage (λ u, let j := used s u in od_set s (if 0 <? j.1 then j.1 - 1 else j.1, j.2) u);*
    let* n := lift (py_int (py_or (dget_or "bytes" (VInt 0) status) (VInt 0))) in
    set_usage (λ u, let j := used s u in od_set s (j.1, j.2 + n) u)
  else ret tt.

(** What reaches the process: records of its two topics, and a restart.  A record that
    raises ends the process. *)
Inductive event := on_request (x : outside) (req : dict) | on_status (status : dict) (disk : saving) | on_restart.
Definition stop (o : orchestrator) : orchestrator :=
  {| or_up := false; or_usage := or_usage o; or_budget := or_budget o; or_out := or_out o |}.
Definition served (m : M orchestrator unit) (o : orchestrator) : orchestrator :=
  if or_up o then match m o with (o, Ok _) => o | (o, Raise _) => stop o end else o.
Definition step (o : orchestrator) (e : event) : orchestrator :=
  match e with
  | on_request x req => served (_handle_request x req) o
  | on_status status disk => served (_handle_completion status disk) o
  | on_restart => boot (or_budget o) (or_out o)
  end.
Definition run (es : list event) : orchestrator := foldl step (boot (budget_load []) []) es.
End app.

(** ** Preserve requests *)

Section preserve_facts.
Context (is_address : val → bool) (mac : dict → string → res string) (canonical : val → res string)
  (sha256 : string → string).
Abbreviation approved' := (approved is_address mac canonical sha256).
Abbreviation decide' := (decide_preserve is_address mac canonical sha256).
Abbreviation authorize' := (authorize is_address mac).

Lemma authorize_tagged tenant sensor finding profile value policy_id start trigger bytes duration retention expires id tag policy now :
  let doc := [("schema_version", VStr "capture-request.v2"); ("mode", VStr "preserve"); ("tenant_id", tenant);
      ("sensor_id", sensor); ("finding_id", finding); ("capture_profile", profile); ("value", value);
      ("reason", VStr "finding capture intent"); ("policy_id", policy_id);
      ("window", VDict [("start", start); ("end", trigger)]);
      ("limits", VDict [("max_bytes", bytes); ("max_duration_s", duration); ("retention_s", retention)]);
      ("expires_at", expires); ("request_id", VStr id)] in
  authorize' (doc ++ [("authorization", VStr tag)]) policy now false = authorize' doc policy now false ∧
  List.filter (λ kv : string * val, negb (String.eqb kv.1 "authorization")) (doc ++ [("authorization", VStr tag)]) = doc ∧
  dget_or "authorization" (VStr "") (doc ++ [("authorization", VStr tag)]) = VStr tag.
Proof. intros doc. split_and!; reflexivity. Qed.

Lemma authorize_verified doc policy now :
  authorize' doc policy now true
  = (authorize' doc policy now false;;
     expected ← sign mac (List.filter (λ kv, negb (String.eqb kv.1 "authorization")) doc) (dgetN "signing_key" policy);
     check (val_eq_str (dget_or "authorization" (VStr "") doc) expected) PermissionError).
Proof.
  unfold authorize. destruct (CaptureBudget.validate is_address (VDict doc) now); [|done].
  destruct (validate_policy policy now); [|done].
  cbn [mbind res_bind]. do 3 (match goal with |- context [check ?b PermissionError] => destruct (check b PermissionError); [cbn [mbind res_bind]|done] end). done.
Qed.

(** What an approved request is. *)
Definition identity_id (req policy : dict) : res string :=
  id ← canonical (VList [dgetN "tenant_id" req; dgetN "sensor_id" req; dgetN "finding_id" req; dgetN "policy_id" policy]);
  Ok (sha256 id).
Lemma approved_inv req policy health clock d :
  approved' req policy health clock = Ok d →
  measured health = true ∧ authorize' d policy (ticks clock) false = Ok tt ∧
  (∃ tag, sign mac (List.filter (λ kv, negb (String.eqb kv.1 "authorization")) d) (dgetN "signing_key" policy) = Ok tag ∧
          dget_or "authorization" (VStr "") d = VStr tag) ∧
  (∃ id, identity_id req policy = Ok id ∧ text_at "request_id" d = id) ∧
  (∀ k, k ∈ ["tenant_id"; "sensor_id"; "finding_id"] → dgetN k d = dgetN k req).
Proof.
  unfold approved. intros H.
  apply bind_ok_inv in H as (u & Hm & H). apply check_ok_inv in Hm.
  apply bind_ok_inv in H as (max_loss & _ & H). apply bind_ok_inv in H as (max_cpu & _ & H).
  apply bind_ok_inv in H as (h & _ & H). apply bind_ok_inv in H as (u1 & _ & H).
  apply bind_ok_inv in H as (doc & Hdoc & H). apply bind_ok_inv in H as ([] & Ha & H).
  apply bind_ok_inv in H as (tag & Ht & H). injection H as <-. unfold intent in Hdoc.
  apply bind_ok_inv in Hdoc as (lb & _ & Hdoc). apply bind_ok_inv in Hdoc as (st & _ & Hdoc).
  apply bind_ok_inv in Hdoc as (by_ & _ & Hdoc). apply bind_ok_inv in Hdoc as (du & _ & Hdoc).
  apply bind_ok_inv in Hdoc as (re & _ & Hdoc). apply bind_ok_inv in Hdoc as (la & _ & Hdoc).
  apply bind_ok_inv in Hdoc as (so & _ & Hdoc). apply bind_ok_inv in Hdoc as (ex & _ & Hdoc).
  apply bind_ok_inv in Hdoc as (pid & Hp & Hdoc). apply bind_ok_inv in Hdoc as (id & Hid & Hdoc).
  injection Hdoc as <-.
  match goal with |- context [?d ++ [("authorization", _)]] => set (doc := d) in * end.
  destruct (authorize_tagged (dgetN "tenant_id" req) (dgetN "sensor_id" req) (dgetN "finding_id" req)
    (dget_or "capture_profile" (VStr "ip") req) (dgetN "value" req) pid st (dget_or "trigger_ts" clock req) by_ du re ex
    (sha256 id) tag policy (ticks clock)) as (E1 & E2 & E3).
  fold doc in E1, E2, E3. rewrite E1, E2, E3. split_and!; [done|done|by exists tag| |].
  - exists (sha256 id). split; [|done]. unfold identity_id. unfold dindex in Hp. unfold dgetN at 4, dget_or.
    destruct (dget "policy_id" policy); [|done]. injection Hp as ->. simpl. by rewrite Hid.
  - intros k Hk. repeat (apply elem_of_cons in Hk as [->|Hk]; [done|]). by apply elem_of_nil in Hk.
Qed.

Lemma reserve_ok tenant request sensor size q now disk b b' :
  reserve tenant request sensor size q now disk b = (b', Ok tt) →
  od_get (tenant, request) (entries b') =
    Some {| e_ts := now; e_active := true; e_sensor := sensor; e_tenant := tenant; e_request := request; e_bytes := size |}.
Proof.
  unfold reserve, modify, read, bind. simpl. destruct (od_get _ _); [done|]. destruct (exhausted _ _ _ _ _); [done|].
  unfold _save. destruct disk; [|done|done]. intros [= <-]. simpl. by rewrite od_get_set_eq.
Qed.
Lemma od_get_live now k e (m : list ((string * string) * reservation)) :
  od_get k m = Some e → (e_active e || (now - e_ts e <? 3600 * second)) = true → od_get k (live now m) = Some e.
Proof.
  unfold live. induction m as [|[k' e'] m IH]; simpl; [done|]. case_decide as Ek.
  - intros [= ->] Hl. rewrite Hl. simpl. by rewrite decide_True.
  - intros Hg Hl. destruct (e_active e' || _); simpl; [rewrite decide_False by done|]; by apply IH.
Qed.

Lemma decide_inv req policy health clock disk b b' d :
  decide' req policy health clock disk b = (b', Ok d) →
  approved' req policy health clock = Ok d ∧
  reserve (text_at "tenant_id" d) (text_at "request_id" d) (text_at "sensor_id" d) (limit_of "max_bytes" d)
    (quota_of policy) (ticks clock) disk b = (b', Ok tt).
Proof.
  unfold decide_preserve. intros (d1 & b1 & Hl & H)%bind_inv. apply lift_inv in Hl as [-> Ha].
  apply bind_inv in H as (u & b2 & Hr & H). destruct u. injection H as -> ->. done.
Qed.

(** What the orchestrator signs, the agent accepts: a preserve request that passed the
    gates verifies under the policy it was made for, under any policy with the same key it
    verifies exactly when the unsigned request is allowed, the sensor's health had been
    measured, and its bytes are reserved. *)
Theorem preserve_request_accepted req policy health clock disk b b' d :
  decide' req policy health clock disk b = (b', Ok d) →
  authorize' d policy (ticks clock) true = Ok tt ∧
  (∀ policy' now, dgetN "signing_key" policy' = dgetN "signing_key" policy →
     authorize' d policy' now true = authorize' d policy' now false) ∧
  measured health = true ∧
  od_get (text_at "tenant_id" d, text_at "request_id" d) (entries b') =
    Some {| e_ts := ticks clock; e_active := true; e_sensor := text_at "sensor_id" d; e_tenant := text_at "tenant_id" d;
            e_request := text_at "request_id" d; e_bytes := limit_of "max_bytes" d |}.
Proof.
  intros (Ha & Hr)%decide_inv. destruct (approved_inv _ _ _ _ _ Ha) as (Hm & Hok & (tag & Ht & Hg) & _).
  assert (Hv : ∀ policy' now, dgetN "signing_key" policy' = dgetN "signing_key" policy →
    authorize' d policy' now true = authorize' d policy' now false).
  { intros policy' now Hk. rewrite authorize_verified, Hk, Ht, Hg. simpl. rewrite (proj2 (val_eq_str_true _ _) eq_refl).
    by destruct (authorize' d policy' now false) as [[]|]. }
  split_and!; [by rewrite Hv|done|done|by apply reserve_ok in Hr].
Qed.

(** An intent is captured once: while the reservation of a request is active or less
    than an hour old, another intent of the same tenant, sensor and finding under the same
    policy is refused, whatever its time, selector, health and limits. *)
Theorem duplicate_intents_refused req policy health clock disk b b' d req' policy' health' clock' disk' b2 e :
  decide' req policy health clock disk b = (b', Ok d) →
  (∀ k, k ∈ ["tenant_id"; "sensor_id"; "finding_id"] → dgetN k req' = dgetN k req) →
  dgetN "policy_id" policy' = dgetN "policy_id" policy →
  od_get (text_at "tenant_id" d, text_at "request_id" d) (entries b2) = Some e →
  e_active e = true ∨ ticks clock' - e_ts e < 3600 * second →
  is_ok (decide' req' policy' health' clock' disk' b2).2 = false.
Proof.
  intros (Ha & _)%decide_inv Hsame Hpol Hget Hlive.
  destruct (decide' req' policy' health' clock' disk' b2) as [b3 [d2|]] eqn:E2; [|done].
  apply decide_inv in E2 as (Ha2 & Hr2).
  destruct (approved_inv _ _ _ _ _ Ha) as (_ & _ & _ & (id & Hid & Eid) & Hk).
  destruct (approved_inv _ _ _ _ _ Ha2) as (_ & _ & _ & (id2 & Hid2 & Eid2) & Hk2).
  assert (id2 = id) as ->.
  { unfold identity_id in *. rewrite Hpol, !Hsame in Hid2 by (apply mem_true; vm_compute; reflexivity). congruence. }
  assert (Et : text_at "tenant_id" d2 = text_at "tenant_id" d).
  { unfold text_at. rewrite Hk2, Hsame, Hk by (apply mem_true; vm_compute; reflexivity). done. }
  rewrite Et, Eid2, <- Eid in Hr2. unfold reserve, modify, read, bind in Hr2. simpl in Hr2.
  rewrite (od_get_live _ _ e) in Hr2; [done|done|]. destruct Hlive as [->|Hlt]; [done|].
  apply Z.ltb_lt in Hlt. by rewrite Hlt, orb_true_r.
Qed.
End preserve_facts.

(** ** Arm directives *)

Section arm_facts.
Context (is_address : val → bool) (mac : dict → string → res string) (canonical : val → res string)
  (sha256 : string → string) (repr : val → string) (reason : exn → string).
Context (THR : dict) (LIMITS : limits) (PRESERVE_POLICIES : list (string * dict)).
Abbreviation step' := (step is_address mac canonical sha256 repr reason THR LIMITS PRESERVE_POLICIES).
Abbreviation run' := (run is_address mac canonical sha256 repr reason THR LIMITS PRESERVE_POLICIES).
Abbreviation request' := (_handle_request is_address mac canonical sha256 repr reason THR LIMITS PRESERVE_POLICIES).
Abbreviation preserve' := (_handle_preserve is_address mac canonical sha256 reason PRESERVE_POLICIES).
Abbreviation healthy x s := (probe_health PRESERVE_POLICIES (x_snapshot x) (VStr s) (x_clock x)).

(** The arm directives sent, and how many a sensor was sent. *)
Definition directives (out : list message) : list dict := omap (λ m, match m with to_arm d => Some d | _ => None end) out.
Definition arms (s : string) (out : list message) : Z :=
  Z.of_nat (length (List.filter (λ d, val_eq_str (dgetN "sensor_id" d) s) (directives out))).

Definition calm (o o' : orchestrator) : Prop :=
  or_usage o' = or_usage o ∧ directives (or_out o') = directives (or_out o).
#[local] Instance calm_preorder : PreOrder calm.
Proof. split; [done|]. intros a b c [H1 H2] [H3 H4]. split; congruence. Qed.
Lemma calm_send m : directives [m] = [] → frames calm (send m).
Proof. intros H o. split; [done|]. simpl. unfold directives in *. by rewrite omap_app, H, app_nil_r. Qed.
Lemma calm_budget {A} (m : M budget A) : frames calm (on_budget m).
Proof. intros o. unfold on_budget. by destruct (m (or_budget o)). Qed.
Lemma calm_finish d disk : frames calm (finish_of d disk).
Proof.
  unfold finish_of. destruct (dgetN "tenant_id" d), (dgetN "request_id" d);
    first [apply calm_budget|apply (frames_raise calm)|apply (frames_ret calm)].
Qed.
Lemma calm_preserve x req policy : frames calm (preserve' x req policy).
Proof.
  intros o. unfold _handle_preserve. cbv zeta.
  match goal with |- context [bind ?m ?k o] => assert (H : frames calm (bind m k)) end.
  { apply (frames_bind calm); [apply (frames_lift calm)|]. intros p. apply calm_budget. }
  specialize (H o). destruct (bind _ _ o) as [o1 [d|e]]; simpl in H.
  - assert (H2 : frames calm (dispatch x d)).
    { apply (frames_bind calm); [destruct (x_delivered x); [by apply calm_send|apply (frames_ret calm)]|]. intros _.
      destruct (x_confirmed x); [apply (frames_ret calm)|apply (frames_raise calm)]. }
    specialize (H2 o1). destruct (dispatch x d o1) as [o2 [u|e]]; simpl in H2; [by etrans|].
    etrans; [exact H|]. etrans; [exact H2|]. apply (frames_bind calm); [apply calm_finish|]. intros _. by apply calm_send.
  - etrans; [exact H|]. by apply calm_send.
Qed.

Lemma decide_arm_armed s profile manifest health u r :
  decide_arm s profile manifest health u THR LIMITS = Ok (true, r) →
  capability_gate manifest profile = Ok (true, "ok") ∧ health_gate health THR = Ok (true, "ok") ∧
  (used s u).1 < l_max_jobs LIMITS ∧ (used s u).2 < l_max_bytes LIMITS.
Proof.
  unfold decide_arm. intros (c & Hc & H)%bind_ok_inv. destruct (negb c.1) eqn:Ec; [done|].
  apply bind_ok_inv in H as (h & Hh & H). destruct (negb h.1) eqn:Eh; [done|].
  rewrite Hc, Hh. split_and!.
  - revert Hc. unfold capability_gate. intros (p & _ & Hc)%bind_ok_inv. apply bind_ok_inv in Hc as (q & _ & Hc).
    apply bind_ok_inv in Hc as (q2 & _ & Hc). injection Hc as <-. revert Ec. by destruct (is_true _).
  - revert Hh. unfold health_gate. intros (l & _ & Hh)%bind_ok_inv. apply bind_ok_inv in Hh as (ml & _ & Hh).
    apply bind_ok_inv in Hh as ([] & _ & Hh); [by injection Hh as <-|].
    apply bind_ok_inv in Hh as (cpu & _ & Hh). apply bind_ok_inv in Hh as (mc & _ & Hh).
    apply bind_ok_inv in Hh as ([] & _ & Hh); by injection Hh as <-.
  - unfold budget_gate in H. destruct (Z.leb_spec (l_max_jobs LIMITS) (used s u).1); [done|lia].
  - unfold budget_gate in H. destruct (l_max_jobs LIMITS <=? _); [done|].
    destruct (Z.leb_spec (l_max_bytes LIMITS) (used s u).2); [done|lia].
Qed.

(** A request arms nothing, or arms one sensor all gates admit. *)
Definition arming (x : outside) (req : dict) (o o' : orchestrator) : Prop :=
  ∃ s profile, dget_or "sensor_id" (VStr "sensor-1") req = VStr s ∧ dget_or "capture_profile" (VStr "ip") req = profile ∧
    capability_gate MANIFEST profile = Ok (true, "ok") ∧ health_gate (healthy x s) THR = Ok (true, "ok") ∧
    (used s (or_usage o)).1 < l_max_jobs LIMITS ∧ (used s (or_usage o)).2 < l_max_bytes LIMITS ∧
    or_usage o' = od_set s ((used s (or_usage o)).1 + 1, (used s (or_usage o)).2) (or_usage o) ∧
    ∃ d, directives (or_out o') = directives (or_out o) ++ [d] ∧ dgetN "sensor_id" d = VStr s.
Lemma handle_arm_effect x req o :
  let o' := (handle_arm sha256 repr THR LIMITS PRESERVE_POLICIES x req o).1 in calm o o' ∨ arming x req o o'.
Proof.
  cbv zeta. unfold handle_arm, bind, lift, read. cbv zeta.
  destruct (dget_or "sensor_id" (VStr "sensor-1") req) as [| | | |s| |] eqn:Es; try (left; reflexivity).
  cbn [sensor_key]. destruct (decide_arm _ _ _ _ _ _ _) as [[[] r]|] eqn:Ed; [right|left|left; reflexivity].
  - apply decide_arm_armed in Ed as (Hc & Hh & Hj & Hb). exists s, (dget_or "capture_profile" (VStr "ip") req).
    split_and!; try done. eexists. split; [simpl; unfold directives; rewrite !omap_app; simpl; by rewrite app_nil_r|reflexivity].
  - apply (frames_bind calm (send _) (λ _, ret tt)); [by apply calm_send|]. intros _. apply (frames_ret calm).
Qed.
Lemma request_effect x req o : calm o (request' x req o).1 ∨ arming x req o (request' x req o).1.
Proof.
  unfold _handle_request, bind, lift. destruct (policy_for _ _) as [p|]; [|left; reflexivity].
  destruct (_ || _); [left; apply calm_preserve|apply handle_arm_effect].
Qed.

(** *** Reports *)

Definition terminal (s : string) (e : event) : bool :=
  match e with
  | on_status status _ =>
      negb (val_eq_str (dgetN "kind" status) "preserve")
      && val_in_strs (dgetN "state" status) ["completed"; "failed"; "rejected"; "refused"]
      && val_eq_str (dget_or "sensor_id" (VStr "sensor-1") status) s
  | _ => false
  end.
(** The terminal reports of a sensor. *)
Definition reports (s : string) (es : list event) : Z := Z.of_nat (length (List.filter (terminal s) es)).
Definition reported (status : dict) : res Z := py_int (py_or (dget_or "bytes" (VInt 0) status) (VInt 0)).

(** A report frees one job of its sensor and charges the bytes it states. *)
Definition freeing (s : string) (status : dict) (o o' : orchestrator) : Prop :=
  directives (or_out o') = directives (or_out o) ∧
  ∃ n, (reported status = Ok n ∨ n = 0) ∧
    (∀ s', s' ≠ s → used s' (or_usage o') = used s' (or_usage o)) ∧
    used s (or_usage o') = (if 0 <? (used s (or_usage o)).1 then (used s (or_usage o)).1 - 1 else (used s (or_usage o)).1,
                             (used s (or_usage o)).2 + n).
Lemma used_set s s' j u : used s (od_set s' j u) = if decide (s = s') then j else used s u.
Proof. unfold used. rewrite od_get_set. by case_decide. Qed.
Lemma completion_effect status disk o :
  let o' := (_handle_completion status disk o).1 in
  calm o o' ∨ ∃ s, terminal s (on_status status disk) = true ∧ freeing s status o o'.
Proof.
  cbv zeta. unfold _handle_completion, terminal. cbv zeta.
  destruct (val_eq_str (dgetN "kind" status) "preserve").
  { left. destruct (val_in_strs _ _); [apply calm_finish|reflexivity]. }
  destruct (val_in_strs _ _); [|left; reflexivity]. unfold bind, lift.
  destruct (dget_or "sensor_id" _ status) as [| | | |s| |]; try (left; reflexivity). right. exists s.
  split; [by apply (proj2 (val_eq_str_true _ _))|]. cbn [sensor_key set_usage modify]. fold (reported status).
  destruct (reported status) as [n|] eqn:En; (split; [done|]); [exists n|exists 0];
    (split; [by auto|]); simpl; split; intros; rewrite !used_set; try by repeat rewrite decide_False.
  - by rewrite !decide_True.
  - rewrite decide_True by done. by rewrite Z.add_0_r.
Qed.

Lemma step_effect o e :
  e ≠ on_restart →
  calm o (step' o e) ∨ (∃ x req, e = on_request x req ∧ arming x req o (step' o e)) ∨
  (∃ s status disk, e = on_status status disk ∧ terminal s e = true ∧ freeing s status o (step' o e)).
Proof.
  intros He. destruct e as [x req|status disk|]; [| |done]; simpl; unfold served; destruct (or_up o);
    try (left; reflexivity).
  - destruct (request_effect x req o) as [H|H]; destruct (request' x req o) as [o' [u|e]]; simpl in H; eauto 6.
  - destruct (completion_effect status disk o) as [H|(s & Ht & H)]; destruct (_handle_completion status disk o) as [o' [u|e]];
      simpl in H; eauto 8.
Qed.

Lemma arms_snoc s out out' d :
  directives out' = directives out ++ [d] → arms s out' = arms s out + Z.b2z (val_eq_str (dgetN "sensor_id" d) s).
Proof.
  unfold arms. intros ->. rewrite List.filter_app, length_app. simpl. destruct (val_eq_str _ _); simpl; lia.
Qed.
Lemma reports_cons s e es : reports s (e :: es) = Z.b2z (terminal s e) + reports s es.
Proof. unfold reports. simpl. destruct (terminal s e); simpl; lia. Qed.

(** What a step does to a sensor: its jobs, bytes and directives. *)
Lemma step_sensor o e s :
  e ≠ on_restart →
  let u := used s (or_usage o) in let u' := used s (or_usage (step' o e)) in
  let n := arms s (or_out (step' o e)) - arms s (or_out o) in
  (u' = u ∧ n = 0) ∨
  (n = 1 ∧ u' = (u.1 + 1, u.2) ∧ u.1 < l_max_jobs LIMITS ∧ u.2 < l_max_bytes LIMITS) ∨
  (terminal s e = true ∧ n = 0 ∧ ∃ status disk b, e = on_status status disk ∧ (reported status = Ok b ∨ b = 0) ∧
     u' = (if 0 <? u.1 then u.1 - 1 else u.1, u.2 + b)).
Proof.
  intros He. cbv zeta. destruct (step_effect o e He) as [[Hu Hd]|[(x & req & -> & H)|(t & status & disk & -> & Ht & Hd & b & Hb & Hne & Hu)]].
  - left. unfold arms. rewrite Hu, Hd. split; [done|lia].
  - destruct H as (t & profile & _ & _ & _ & _ & Hj & Hb & Hu & d & Hd & Hs).
    rewrite (arms_snoc _ _ _ _ Hd), Hs, Hu, used_set. case_decide as E.
    + subst t. right. left. rewrite (proj2 (val_eq_str_true _ _) eq_refl). split_and!; [simpl; lia|done..].
    + left. split; [done|]. destruct (val_eq_str (VStr t) s) eqn:Et; [|simpl; lia].
      apply val_eq_str_true in Et. congruence.
  - destruct (decide (s = t)) as [<-|E].
    + right. right. unfold arms. rewrite Hd. split_and!; [done|lia|]. by exists status, disk, b.
    + left. unfold arms. rewrite Hd, Hne by done. split; [done|lia].
Qed.

Lemma session_bound s es o :
  on_restart ∉ es → 0 <= (used s (or_usage o)).1 <= Z.max 0 (l_max_jobs LIMITS) →
  let o' := foldl step' o es in
  arms s (or_out o') - arms s (or_out o) - reports s es <= (used s (or_usage o')).1 - (used s (or_usage o)).1 ∧
  0 <= (used s (or_usage o')).1 <= Z.max 0 (l_max_jobs LIMITS).
Proof.
  revert o. induction es as [|e es IH]; intros o Hes Ho; cbv zeta; [unfold reports; simpl; lia|].
  apply not_elem_of_cons in Hes as [He Hes]. cbn [foldl]. rewrite reports_cons.
  pose proof (step_sensor o e s (not_eq_sym He)) as H. cbv zeta in H.
  assert (Ho' : 0 <= (used s (or_usage (step' o e))).1 <= Z.max 0 (l_max_jobs LIMITS) ∧
    arms s (or_out (step' o e)) - arms s (or_out o) - Z.b2z (terminal s e)
    <= (used s (or_usage (step' o e))).1 - (used s (or_usage o)).1).
  { destruct H as [[-> Hn]|[(Hn & -> & Hj & _)|(-> & Hn & st & disk & b & _ & _ & ->)]]; simpl;
      [destruct (terminal s e)| destruct (terminal s e)|destruct (Z.ltb_spec 0 (used s (or_usage o)).1)]; simpl; lia. }
  destruct Ho' as [Ho' Hd]. specialize (IH _ Hes Ho'). cbv zeta in IH. lia.
Qed.

(** A sensor never has more captures outstanding than its limit: since the process
    started, the arm directives a sensor was sent exceed the terminal reports it made by
    at most its active jobs, which are never negative nor above [max_jobs], whatever
    requests, reports, duplicates and failures arrive. *)
Theorem captures_outstanding_bounded s b out es :
  on_restart ∉ es →
  let o := foldl step' (boot b out) es in
  arms s (or_out o) - arms s out - reports s es <= (used s (or_usage o)).1 ∧
  0 <= (used s (or_usage o)).1 <= Z.max 0 (l_max_jobs LIMITS).
Proof.
  intros Hes. assert (H0 : 0 <= (used s (or_usage (boot b out))).1 <= Z.max 0 (l_max_jobs LIMITS)) by (simpl; lia).
  pose proof (session_bound s es _ Hes H0) as H. cbv zeta in *. simpl in *. lia.
Qed.

Lemma run_snoc es e : run' (es ++ [e]) = step' (run' es) e.
Proof. unfold run. by rewrite foldl_app. Qed.
(** A directive answers a request of [es] at a state where every gate passed. *)
Definition admitted (es : list event) (d : dict) : Prop :=
  ∃ es1 x req es2 s, es = es1 ++ on_request x req :: es2 ∧ dgetN "sensor_id" d = VStr s ∧
    dget_or "sensor_id" (VStr "sensor-1") req = VStr s ∧
    capability_gate MANIFEST (dget_or "capture_profile" (VStr "ip") req) = Ok (true, "ok") ∧
    health_gate (healthy x s) THR = Ok (true, "ok") ∧
    budget_gate s (or_usage (run' es1)) LIMITS = (true, "ok").
Lemma admitted_snoc es e d : admitted es d → admitted (es ++ [e]) d.
Proof. intros (es1 & x & req & es2 & s & -> & H). exists es1, x, req, (es2 ++ [e]), s. by rewrite <- app_assoc. Qed.

(** Every directive was admitted: it answers a request that named its sensor, at a
    state in which the capability, health and budget gates of that sensor all passed. *)
Theorem directives_gated es d : d ∈ directives (or_out (run' es)) → admitted es d.
Proof.
  induction es as [|e es IH] using rev_ind; [by intros ?%elem_of_nil|]. rewrite run_snoc.
  assert (e = on_restart ∨ e ≠ on_restart) as [->|He] by (destruct e; auto); [by intros ?%IH%(admitted_snoc _ on_restart)|].
  destruct (step_effect (run' es) e He) as [[_ ->]|[(x & req & -> & H)|(t & status & disk & -> & _ & -> & _)]];
    [by intros ?%IH%(admitted_snoc _ e)| |by intros ?%IH%(admitted_snoc _ (on_status status disk))].
  destruct H as (t & profile & Hs & <- & Hc & Hh & Hj & Hb & _ & d' & -> & Hd').
  rewrite elem_of_app, list_elem_of_singleton. intros [Hin| ->]; [by apply admitted_snoc, IH|].
  exists es, x, req, [], t. split_and!; try done. unfold budget_gate.
  destruct (Z.leb_spec (l_max_jobs LIMITS) (used t (or_usage (run' es))).1); [lia|].
  by destruct (Z.leb_spec (l_max_bytes LIMITS) (used t (or_usage (run' es))).2); [lia|].
Qed.

(** The byte budget is never refilled: once the bytes reported by a sensor reach
    [max_bytes], it is sent no directive until the process restarts, whatever its reports,
    as long as they state no negative bytes. *)
Theorem exhausted_refuses_forever s o es :
  l_max_bytes LIMITS <= (used s (or_usage o)).2 →
  on_restart ∉ es →
  (∀ status disk n, on_status status disk ∈ es → reported status = Ok n → 0 <= n) →
  arms s (or_out (foldl step' o es)) = arms s (or_out o).
Proof.
  revert o. induction es as [|e es IH]; intros o Hb Hes Hn; [done|].
  apply not_elem_of_cons in Hes as [He Hes]. cbn [foldl].
  assert (H : l_max_bytes LIMITS <= (used s (or_usage (step' o e))).2 ∧ arms s (or_out (step' o e)) = arms s (or_out o)).
  { pose proof (step_sensor o e s (not_eq_sym He)) as H. cbv zeta in H.
    destruct H as [[-> ?]|[(_ & _ & _ & ?)|(_ & Ha & status & disk & b & -> & Hb' & ->)]]; [split; lia|lia|].
    assert (0 <= b); [|split; [simpl; lia|lia]]. destruct Hb' as [Hr| ->]; [|lia]. apply (Hn status disk); [left|done]. }
  destruct H as [H1 <-]. apply IH; [done|done|]. intros status disk n Hin. apply (Hn status disk). by right.
Qed.
End arm_facts.

(** ** A sensor with one job *)

Definition ex_policy : dict :=
  [("enabled", VBool true); ("sensitive", VBool false); ("tenant_id", VStr "t"); ("sensor_id", VStr "s1"); ("policy_id", VStr "p");
   ("expires_at", VInt 1000000); ("ring_seconds", VInt 600); ("lookback_s", VInt 60); ("max_bytes", VInt 1000);
   ("max_duration_s", VInt 60); ("retention_s", VInt 3600); ("max_jobs", VInt 1); ("requests_per_hour", VInt 5);
   ("bytes_per_hour", VInt 5000); ("tenant_bytes_per_hour", VInt 5000); ("max_loss_pct", VInt 1); ("max_cpu_pct", VInt 85);
   ("signing_key", VStr "0123456789abcdef0123456789abcdef")].
Definition ex_health (at_ : Z) : dict :=
  [("measured", VBool true); ("observed_at", VInt at_); ("tenant_id", VStr "t"); ("cpu_pct", VInt 10); ("packet_loss_pct", VInt 0)].
Definition ex_intent (finding : string) (at_ : Z) : dict :=
  [("tenant_id", VStr "t"); ("sensor_id", VStr "s1"); ("finding_id", VStr finding); ("value", VStr "10.0.0.1");
   ("trigger_ts", VInt at_)].
Definition ex_canonical (v : val) : res string :=
  match v with VList [_; _; VStr f; _] => Ok f | _ => Raise ValueError end.
Abbreviation ex_run policies :=
  (run (λ _, true) (λ _ _, Ok "tag") ex_canonical id (λ _, "") (λ _, "") [("max_loss_pct", VInt 1); ("max_cpu_pct", VInt 85)]
     {| l_max_jobs := 1; l_max_bytes := 1000 |} policies).
Definition ex_outside (at_ : Z) (disk : saving) : outside :=
  {| x_snapshot := Some (Ok (VDict [("s1", VDict (ex_health at_))])); x_clock := VInt at_; x_disk := disk; x_disk' := s_done;
     x_delivered := true; x_confirmed := true |}.
Abbreviation ex_decide finding at_ b :=
  (decide_preserve (λ _, true) (λ _ _, Ok "tag") ex_canonical id (ex_intent finding at_) ex_policy (ex_health at_) (VInt at_) s_done b).

Lemma preserve_request_accepted_witness :
  match ex_decide "f" 1000 (budget_load []) with
  | (b, Ok d) => authorize (λ _, true) (λ _ _, Ok "tag") d ex_policy (ticks (VInt 1000)) true = Ok tt
  | _ => False
  end.
Proof.
  destruct (ex_decide "f" 1000 (budget_load [])) as [b [d|e]] eqn:E.
  - exact (proj1 (preserve_request_accepted _ _ _ _ _ _ _ _ _ _ _ _ E)).
  - vm_compute in E. discriminate E.
Defined.
Lemma duplicate_intents_refused_witness :
  match ex_decide "f" 1000 (budget_load []) with
  | (b, Ok d) => is_ok (ex_decide "f" 1200 b).2 = false
  | _ => False
  end.
Proof.
  destruct (ex_decide "f" 1000 (budget_load [])) as [b [d|e]] eqn:E.
  - assert (H : ∃ r, od_get (text_at "tenant_id" d, text_at "request_id" d) (entries b) = Some r ∧ e_active r = true)
      by (vm_compute in E; injection E as <- <-; eexists; split; vm_compute; reflexivity).
    destruct H as (r & Hg & Hr). eapply duplicate_intents_refused; [exact E| |reflexivity|exact Hg|by left].
    intros k Hk. repeat (apply elem_of_cons in Hk as [->|Hk]; [reflexivity|]). by apply elem_of_nil in Hk.
  - vm_compute in E. discriminate E.
Defined.

(** Three requests and a report: the second request waits for the report. *)
Definition ex_arm (finding : string) : event := on_request (ex_outside 1000 s_done) (ex_intent finding 1000).
Definition ex_report : event := on_status [("sensor_id", VStr "s1"); ("state", VStr "completed"); ("bytes", VInt 1000)] s_done.
Example second_request_waits :
  (λ es, length (directives (or_out (ex_run [] es)))) <$>
    [[ex_arm "f"]; [ex_arm "f"; ex_arm "g"]; [ex_arm "f"; ex_report; ex_arm "g"]; [ex_arm "f"; on_restart; ex_arm "g"]]
  = [1; 1; 1; 2]%nat.
Proof. vm_compute. reflexivity. Qed.
Lemma captures_outstanding_bounded_witness :
  arms "s1" (or_out (ex_run [] [ex_arm "f"; ex_arm "g"])) = 1 ∧
  (used "s1" (or_usage (ex_run [] [ex_arm "f"; ex_arm "g"]))).1 <= 1.
Proof.
  split; [vm_compute; reflexivity|]. unfold run.
  refine (proj2 (proj2 (captures_outstanding_bounded _ _ _ _ _ _ _ _ _ "s1" _ [] _ _))). set_solver.
Defined.
Lemma directives_gated_witness : ∃ d,
  d ∈ directives (or_out (ex_run [] [ex_arm "f"])) ∧
  admitted (λ _, true) (λ _ _, Ok "tag") ex_canonical id (λ _, "") (λ _, "") [("max_loss_pct", VInt 1); ("max_cpu_pct", VInt 85)]
     {| l_max_jobs := 1; l_max_bytes := 1000 |} [] [ex_arm "f"] d.
Proof.
  assert (H : ∃ d, d ∈ directives (or_out (ex_run [] [ex_arm "f"]))) by (eexists; vm_compute; left).
  destruct H as [d H]. exists d. split; [exact H|]. by apply directives_gated.
Defined.
Lemma exhausted_refuses_forever_witness :
  arms "s1" (or_out (ex_run [] [ex_arm "f"; ex_report; ex_arm "g"; ex_report; ex_arm "h"])) =
  arms "s1" (or_out (ex_run [] [ex_arm "f"; ex_report])).
Proof.
  change [ex_arm "f"; ex_report; ex_arm "g"; ex_report; ex_arm "h"] with ([ex_arm "f"; ex_report] ++ [ex_arm "g"; ex_report; ex_arm "h"]).
  unfold run. rewrite foldl_app. apply exhausted_refuses_forever.
  - apply Z.leb_le. vm_compute. reflexivity.
  - unfold ex_arm, ex_report. set_solver.
  - intros status disk n Hin. unfold ex_arm, ex_report in Hin.
    repeat (apply elem_of_cons in Hin as [Hin|Hin]; [try discriminate Hin; injection Hin as -> ->; vm_compute; intros [= <-]; discriminate|]).
    by apply elem_of_nil in Hin.
Defined.

(** A reservation whose save fails is refused, yet stays active: two hours later the
    sensor's only job is still taken. *)
Example failed_save_keeps_the_job :
  let o := ex_run [("s1", ex_policy)]
    [on_request (ex_outside 1000 s_lost) (ex_intent "f" 1000); on_request (ex_outside 9000 s_done) (ex_intent "g" 9000)] in
  (map (λ kv, (kv.1, e_active kv.2)) (entries (or_budget o)), saved (or_budget o), length (or_out o))
  = ([(("t", "f"), true)], [], 2%nat) ∧
  length (List.filter (λ m, match m with to_agent _ => true | _ => false end) (or_out o)) = 0%nat.
Proof. vm_compute. split; reflexivity. Qed.
