(* ===== verification/DetectionRegistry.v ===== *)
(** * The detection registry (services/detection-registry: store.py, lifecycle.py, authz.py)

    One entry per detection, validated against contracts/detection-registry.schema.json;
    an append-only log of status changes; promotions along a table by configured actors.

    The file system is a parameter of the operations that check a manifest reference.
    Values are immutable here, so the deep copies the store hands out are the values. *)

From S2P Require Import Prelude Order PyVal PyString OrderedMap JsonSchema.
Set Default Proof Using "Type".

(** ** The schema of entries *)

Definition STATUSES : list string := ["draft"; "shadow"; "active"; "retired"].
Definition SOURCES : list string := ["suricata-sig"; "behavioral"; "dns"; "anomaly"; "yara"; "ti-policy"].
(** [re.search("^detections/manifest/[^/]+\.manifest\.json$", s)]; the dollar also
    matches before a final line feed. *)
Definition file_of_manifest (s : string) : bool :=
  ends_with ".manifest.json" s && (len ".manifest.json" <? len s) &&
  negb (string_existsb (Ascii.eqb "/") s).
Definition valid_ref (v : val) : bool :=
  match v with
  | VStr s =>
      starts_with "detections/manifest/" s &&
      (let f := drop_chars 20 s in file_of_manifest f || file_of_manifest (chomp f))
  | _ => false
  end.
Definition change_fields : list string := ["ts"; "actor"; "from"; "to"].
Definition valid_change (v : val) : bool :=
  match v with
  | VDict d =>
      exactly change_fields d &&
      match dgetN "ts" d with VStr s => nonblank s | _ => false end &&
      valid_token 256 (dgetN "actor" d) &&
      match dgetN "from" d with VNone => true | v => val_in_strs v STATUSES end &&
      val_in_strs (dgetN "to" d) STATUSES
  | _ => false
  end.
Definition entry_fields : list string := ["detection_id"; "source"; "status"; "version"; "manifest_ref"; "change_history"].
Definition valid_entry (d : dict) : bool :=
  exactly entry_fields d && valid_token 256 (dgetN "detection_id" d) && val_in_strs (dgetN "source" d) SOURCES &&
  val_in_strs (dgetN "status" d) STATUSES && valid_token 128 (dgetN "version" d) && valid_ref (dgetN "manifest_ref" d) &&
  match dgetN "change_history" d with VList l => forallb valid_change l | _ => false end.

(** ** The store (store.py) *)

(** Paths relative to the root, resolved, and which of them are files. *)
Record file_system := { resolve : string → string; is_file : string → bool }.
Definition manifest_resolves (fs : file_system) (ref : string) : bool :=
  let target := resolve fs ref in
  is_file fs target && starts_with (resolve fs "detections/manifest" +:+ "/") target.

Definition history (d : dict) : list val := match dgetN "change_history" d with VList l => l | _ => [] end.

Abbreviation registry := (list (string * dict)).
Definition _validate (fs : file_system) (entry : val) : res dict :=
  match entry with
  | VDict d =>
      check (valid_entry d) ValidationError;;
      check (manifest_resolves fs (text_of "manifest_ref" d)) ValueError;;
      Ok d
  | _ => Raise ValidationError
  end.
Definition put (did : string) (d : dict) : M registry unit := modify (od_set did d).
Definition create (fs : file_system) (entry : val) : M registry dict :=
  let* d := lift (_validate fs entry) in
  let did := text_of "detection_id" d in
  let* old := read (od_get did) in
  match old with
  | Some _ => raise ValueError
  | None => put did d;* ret d
  end.
Definition get (did : string) (g : registry) : option dict := od_get did g.
Definition list_entries (g : registry) : list dict := map snd (isort fst g).
Definition append_only (old new : list val) : bool := py_eqb (VList (take (length old) new)) (VList old).
Definition update (fs : file_system) (entry : val) : M registry dict :=
  let* d := lift (_validate fs entry) in
  let did := text_of "detection_id" d in
  let* old := read (od_get did) in
  match old with
  | None => raise ValueError
  | Some prior => if append_only (history prior) (history d) then put did d;* ret d else raise ValueError
  end.
Definition delete (did : string) : M registry bool :=
  let* old := read (od_get did) in
  modify (od_del did);* ret (bool_decide (is_Some old)).

(** ** The lifecycle (lifecycle.py, authz.py) *)

Definition TRANSITIONS : list (string * list string) :=
  [("draft", ["shadow"; "retired"]); ("shadow", ["active"; "retired"]); ("active", ["retired"]); ("retired", [])].
Definition allowed (current to : string) : bool := mem to (default [] (assoc current TRANSITIONS)).
Definition allow_actors (actors : list string) (actor : string) : bool := mem actor actors.
Definition valid_actor (v : val) : res string :=
  match v with
  | VStr s => check (str_truthy (strip s) && (len s <=? 256)) Unauthorized;; Ok s
  | _ => Raise Unauthorized
  end.
Definition change_row (ts actor from to : string) : val :=
  VDict [("ts", VStr ts); ("actor", VStr actor); ("from", VStr from); ("to", VStr to)].
Definition moved (ts actor to : string) (d : dict) : dict :=
  dset "change_history" (VList (history d ++ [change_row ts actor (text_of "status" d) to])) (dset "status" (VStr to) d).
(** [ts] is the clock reading. *)
Definition promote (fs : file_system) (authorize : string → bool) (did to : string) (actor : val) (ts : string) : M registry dict :=
  let* actor := lift (valid_actor actor) in
  if negb (authorize actor) then raise Unauthorized
  else
    let* entry := read (get did) in
    match entry with
    | None => raise KeyError
    | Some d =>
        if negb (allowed (text_of "status" d) to) then raise IllegalTransition
        else update fs (VDict (moved ts actor to d))
    end.

(** ** Histories as logs *)

Record change := { c_ts : string; c_actor : string; c_from : option string; c_to : string }.
Definition change_of (v : val) : change :=
  match v with
  | VDict d =>
      {| c_ts := text_of "ts" d; c_actor := text_of "actor" d;
         c_from := match dgetN "from" d with VStr s => Some s | _ => None end; c_to := text_of "to" d |}
  | _ => {| c_ts := ""; c_actor := ""; c_from := None; c_to := "" |}
  end.
Definition log (d : dict) : list change := change_of <$> history d.

Lemma change_plain d k v : valid_change (VDict d) = true → (k, v) ∈ d → plain v = true ∧ NoDup d.*1 ∧ k ∈ change_fields.
Proof.
  unfold valid_change. rewrite !andb_true_iff. intros [[[[He Ht] Ha] Hf] Hto] Hin.
  assert (Hn : NoDup change_fields) by (apply (bool_decide_unpack _); vm_compute; exact I).
  pose proof (exactly_keys _ _ Hn He) as Hk. assert (Hd : NoDup d.*1) by (by rewrite Hk).
  assert (Hc : k ∈ change_fields) by (rewrite <- Hk; apply list_elem_of_fmap; by exists (k, v)).
  split_and!; [|done|done]. apply (dget_unique _ _ _ Hd) in Hin. unfold dgetN, dget_or in *.
  unfold change_fields in Hc. repeat (apply elem_of_cons in Hc as [->|Hc]); [..|by apply elem_of_nil in Hc];
    rewrite Hin in *; simpl in *; destruct v; try done.
Qed.
Lemma change_refl v : valid_change v = true → py_eqb v v = true.
Proof.
  destruct v as [| | | | | |d]; try done. intros H. apply py_eqb_dict. split; [done|]. apply Forall_forall. intros [k v] Hin.
  destruct (change_plain _ _ _ H Hin) as (Hp & Hd & _). exists v. split; [by apply dget_unique|by apply plain_refl].
Qed.
Lemma change_eq v w : valid_change v = true → py_eqb v w = true → change_of w = change_of v.
Proof.
  destruct v as [| | | | | |d]; try done. destruct w as [| | | | | |e]; try done. intros Hv [_ Hf]%py_eqb_dict.
  assert (H : ∀ k, k ∈ change_fields → dgetN k e = dgetN k d).
  { intros k Hk. pose proof Hv as He. unfold valid_change, exactly in He. rewrite !andb_true_iff in He.
    destruct He as [[[[[_ He] _] _] _] _]. rewrite forallb_forall in He. specialize (He k (proj1 (list_elem_of_In _ _) Hk)).
    unfold dhas in He. unfold dgetN, dget_or. destruct (dget k d) as [x|] eqn:Ed; [|done]. apply dget_elem in Ed.
    rewrite Forall_forall in Hf. destruct (Hf _ Ed) as (y & Hy & Heq). simpl in *. rewrite Hy. simpl.
    apply py_eqb_plain in Heq as ->; [done|]. by destruct (change_plain _ _ _ Hv Ed). }
  unfold change_of, text_of. rewrite !H by (unfold change_fields; set_solver). done.
Qed.
Lemma append_only_log old new :
  forallb valid_change new = true → append_only old new = true → change_of <$> old `prefix_of` change_of <$> new.
Proof.
  unfold append_only. intros Hv H%py_eqb_list. rewrite <- (take_drop (length old) new), fmap_app.
  exists (change_of <$> drop (length old) new). f_equal.
  assert (Hv' : forallb valid_change (take (length old) new) = true).
  { rewrite forallb_forall in *. intros x Hx. apply Hv. rewrite <- (take_drop (length old) new). apply in_app_iff. by left. }
  clear Hv. revert Hv'. induction H as [|x y l m Hxy H IH]; [done|]. cbn [forallb]. rewrite andb_true_iff. intros [Hx Hl].
  rewrite !fmap_cons, IH by done. f_equal. symmetry. by apply change_eq.
Qed.
Lemma append_only_snoc l v : forallb valid_change l = true → append_only l (l ++ [v]) = true.
Proof.
  intros Hl. unfold append_only. rewrite take_app_length. apply py_eqb_list.
  induction l as [|x l IH]; [done|]. simpl in Hl. apply andb_true_iff in Hl as [Hx Hl]. constructor; [by apply change_refl|by apply IH].
Qed.

(** ** The stored entries *)

Definition store_ok (g : registry) : Prop :=
  od_wf g ∧ ∀ k d, (k, d) ∈ g → valid_entry d = true ∧ text_of "detection_id" d = k.
Lemma store_ok_get g did d : store_ok g → od_get did g = Some d → valid_entry d = true ∧ text_of "detection_id" d = did.
Proof. intros [_ H] Hg. by apply H, od_get_elem. Qed.
Lemma store_ok_set g did d : store_ok g → valid_entry d = true → text_of "detection_id" d = did → store_ok (od_set did d g).
Proof.
  intros [Hwf H] Hv Hd. split; [by apply od_wf_set|]. intros k e Hin. apply elem_of_od_set in Hin as [[= -> ->]|Hin]; [done|by apply H].
Qed.
Lemma valid_history d : valid_entry d = true → forallb valid_change (history d) = true.
Proof. unfold valid_entry, history. rewrite !andb_true_iff. intros [_ H]. by destruct (dgetN _ d). Qed.

Lemma validate_inv fs v d : _validate fs v = Ok d → v = VDict d ∧ valid_entry d = true ∧ manifest_resolves fs (text_of "manifest_ref" d) = true.
Proof.
  destruct v as [| | | | | |d0]; try done. unfold _validate. intros H. apply bind_ok_inv in H as (? & H1%check_ok_inv & H).
  apply bind_ok_inv in H as (? & H2%check_ok_inv & [= <-]). done.
Qed.
(** What a write does: nothing and an error, or one entry replaced. *)
Lemma create_inv fs v g g' r :
  create fs v g = (g', r) →
  (g' = g ∧ ∃ e, r = Raise e) ∨
  ∃ d, r = Ok d ∧ valid_entry d = true ∧ od_get (text_of "detection_id" d) g = None ∧ g' = od_set (text_of "detection_id" d) d g.
Proof.
  unfold create, bind, lift, read, put, modify, ret, raise. destruct (_validate fs v) as [d|e] eqn:E; [|intros [= <- <-]; left; eauto].
  apply validate_inv in E as (_ & Hv & _). destruct (od_get _ g) eqn:Eg; intros [= <- <-]; [left; eauto|right; eauto 6].
Qed.
Lemma update_inv fs v g g' r :
  update fs v g = (g', r) →
  (g' = g ∧ ∃ e, r = Raise e) ∨
  ∃ d prior, r = Ok d ∧ v = VDict d ∧ valid_entry d = true ∧ od_get (text_of "detection_id" d) g = Some prior ∧
    append_only (history prior) (history d) = true ∧ g' = od_set (text_of "detection_id" d) d g.
Proof.
  unfold update, bind, lift, read, put, modify, ret, raise. destruct (_validate fs v) as [d|e] eqn:E; [|intros [= <- <-]; left; eauto].
  apply validate_inv in E as (-> & Hv & _). destruct (od_get _ g) as [prior|] eqn:Eg; [|intros [= <- <-]; left; eauto].
  destruct (append_only _ _) eqn:Ea; intros [= <- <-]; [right; eauto 9|left; eauto].
Qed.

(** Operations of the store and its facade. *)
Inductive op :=
| o_create (fs : file_system) (entry : val) | o_update (fs : file_system) (entry : val) | o_delete (did : string)
| o_promote (fs : file_system) (authorize : string → bool) (did to : string) (actor : val) (ts : string).
Definition apply (g : registry) (o : op) : registry :=
  match o with
  | o_create fs entry => (create fs entry g).1
  | o_update fs entry => (update fs entry g).1
  | o_delete did => (delete did g).1
  | o_promote fs authorize did to actor ts => (promote fs authorize did to actor ts g).1
  end.
Lemma promoted_inv fs authorize did to actor ts g g' r :
  promote fs authorize did to actor ts g = (g', r) →
  (g' = g ∧ ∃ e, r = Raise e) ∨
  ∃ a d, valid_actor actor = Ok a ∧ authorize a = true ∧ od_get did g = Some d ∧ allowed (text_of "status" d) to = true ∧
    update fs (VDict (moved ts a to d)) g = (g', r).
Proof.
  unfold promote, bind, lift, read, raise, get. destruct (valid_actor actor) as [a|e]; [|intros [= <- <-]; left; eauto].
  destruct (authorize a) eqn:Ea; simpl; [|intros [= <- <-]; left; eauto].
  destruct (od_get did g) as [d|] eqn:Eg; [|intros [= <- <-]; left; eauto].
  destruct (allowed _ to) eqn:Et; simpl; [|intros [= <- <-]; left; eauto]. intros H. right. by exists a, d.
Qed.

Definition grows (did : string) (g g' : registry) : Prop :=
  ∀ d, od_get did g = Some d → ∃ d', od_get did g' = Some d' ∧ log d `prefix_of` log d'.
Lemma update_grows fs v g did : store_ok g → store_ok (update fs v g).1 ∧ grows did g (update fs v g).1.
Proof.
  intros Hg. destruct (update fs v g) as [g' r] eqn:E. apply update_inv in E as [[-> _]|(d & prior & _ & _ & Hv & Hp & Ha & ->)]; simpl.
  - split; [done|]. intros d Hd. by exists d.
  - split; [by apply store_ok_set|]. intros d0 Hd0. rewrite od_get_set. case_decide as Ed; [subst did|eauto].
    exists d. split; [done|]. rewrite Hp in Hd0. injection Hd0 as <-. apply append_only_log; [by apply valid_history|done].
Qed.
Lemma apply_grows g o did : store_ok g → store_ok (apply g o) ∧ (o ≠ o_delete did → grows did g (apply g o)).
Proof.
  intros Hg. assert (Hid : grows did g g) by (intros d Hd; by exists d). destruct o as [fs v|fs v|did'|fs auth did' to actor ts]; simpl.
  - destruct (create fs v g) as [g' r] eqn:E. apply create_inv in E as [[-> _]|(d & _ & Hv & Hn & ->)]; simpl; [done|].
    split; [by apply store_ok_set|]. intros _ d0 Hd0. rewrite od_get_set. case_decide as Ed; [subst; congruence|eauto].
  - destruct (update_grows fs v g did Hg) as [H1 H2]. done.
  - split.
    + destruct Hg as [Hwf H]. split; [by apply od_wf_del|]. intros k d Hin. apply H. unfold od_del in Hin.
      by apply list_elem_of_filter in Hin as [_ Hin].
    + intros Hne d Hd. exists d. rewrite od_get_del_ne by congruence. done.
  - destruct (promote fs auth did' to actor ts g) as [g' r] eqn:E. apply promoted_inv in E as [[-> _]|(a & d & _ & _ & _ & _ & E)]; simpl; [done|].
    pose proof (update_grows fs (VDict (moved ts a to d)) g did Hg) as H. rewrite E in H. by destruct H.
Qed.
Lemma run_ok g ops : store_ok g → store_ok (foldl apply g ops).
Proof. revert g. induction ops as [|o ops IH]; intros g Hg; [done|]. simpl. apply IH. by apply (apply_grows g o ""). Qed.
Lemma empty_ok : store_ok [].
Proof. split; [constructor|]. by intros k d ?%elem_of_nil. Qed.

(** The log of a detection is never rewritten: from any store the operations can build,
    through any creations, updates, promotions and deletions of other detections, valid or
    refused, an entry stays and its log keeps every earlier record, in order and
    unchanged. *)
Theorem history_never_rewritten ops1 ops2 did d :
  let g := foldl apply [] ops1 in
  od_get did g = Some d → o_delete did ∉ ops2 →
  ∃ d', od_get did (foldl apply g ops2) = Some d' ∧ log d `prefix_of` log d'.
Proof.
  cbv zeta. pose proof (run_ok [] ops1 empty_ok) as Hg. revert Hg. generalize (foldl apply [] ops1). intros g Hg.
  revert g d Hg. induction ops2 as [|o ops2 IH]; intros g d Hg Hd Hn; [by exists d|].
  apply not_elem_of_cons in Hn as [Ho Hn]. simpl. destruct (apply_grows g o did Hg) as [Hg' Hgr].
  destruct (Hgr (not_eq_sym Ho) d Hd) as (d1 & Hd1 & Hp). destruct (IH _ _ Hg' Hd1 Hn) as (d2 & Hd2 & Hp2).
  exists d2. split; [done|]. by etrans.
Qed.

(** ** Promotions *)

Lemma valid_actor_inv v a : valid_actor v = Ok a → v = VStr a ∧ valid_token 256 (VStr a) = true.
Proof.
  destruct v as [| | | |s| |]; try done. unfold valid_actor. intros H. apply bind_ok_inv in H as (u & H%check_ok_inv & [= <-]).
  apply andb_true_iff in H as [H1%strip_nonblank H2%Z.leb_le]. split; [done|]. simpl. rewrite H1, andb_true_r.
  unfold between. destruct s; [done|]. apply andb_true_iff. rewrite !Z.leb_le. simpl in *. lia.
Qed.
Lemma allowed_status current to : allowed current to = true → to ∈ STATUSES ∧ current ∈ STATUSES.
Proof.
  unfold allowed. rewrite mem_true. destruct (assoc current TRANSITIONS) as [l|] eqn:E; [|by intros ?%elem_of_nil].
  apply assoc_elem in E. unfold TRANSITIONS, STATUSES in *. simpl. intros H.
  repeat (apply elem_of_cons in E as [[= -> ->]|E]); [..|by apply elem_of_nil in E]; split; set_solver.
Qed.
Lemma moved_fields k ts a to d : k ≠ "change_history" → k ≠ "status" → dgetN k (moved ts a to d) = dgetN k d.
Proof. intros H1 H2. unfold moved. by rewrite !dgetN_dset_ne. Qed.
Lemma moved_status ts a to d : text_of "status" (moved ts a to d) = to.
Proof. unfold text_of, moved. by rewrite dgetN_dset_ne, dgetN_dset_eq. Qed.
Lemma moved_history ts a to d : history (moved ts a to d) = history d ++ [change_row ts a (text_of "status" d) to].
Proof. unfold history at 1, moved. by rewrite dgetN_dset_eq. Qed.
Lemma valid_status d : valid_entry d = true → text_of "status" d ∈ STATUSES ∧ dhas "status" d = true ∧ dhas "change_history" d = true.
Proof.
  unfold valid_entry, exactly, text_of. rewrite !andb_true_iff, forallb_forall. intros H. destruct H as [[[[[[[_ Hk] _] _] Hs] _] _] _].
  apply val_in_strs_true in Hs as (s & -> & Hs). split; [done|]. split; apply Hk, list_elem_of_In; unfold entry_fields; set_solver.
Qed.
(** A promoted entry is valid. *)
Lemma moved_valid ts a to d :
  valid_entry d = true → nonblank ts = true → valid_token 256 (VStr a) = true → allowed (text_of "status" d) to = true →
  valid_entry (moved ts a to d) = true.
Proof.
  intros Hv Hts Ha Hto. pose proof (valid_status d Hv) as (_ & Hs & Hh). apply allowed_status in Hto as [Hto Hcur].
  assert (Hkeys : (moved ts a to d).*1 = d.*1).
  { unfold moved. rewrite dset_keys; [by apply dset_keys|]. unfold dhas. by rewrite dget_dset_ne. }
  assert (Hrow : valid_change (change_row ts a (text_of "status" d) to) = true).
  { unfold valid_change. simpl. rewrite Hts. simpl in Ha. rewrite Ha. simpl.
    change (val_in_strs (VStr (text_of "status" d)) STATUSES && val_in_strs (VStr to) STATUSES = true).
    by rewrite !val_in_strs_spec, !(proj2 (mem_true _ _)). }
  assert (Hhist : dgetN "change_history" (moved ts a to d) = VList (history d ++ [change_row ts a (text_of "status" d) to]))
    by apply dgetN_dset_eq.
  assert (Hst : dgetN "status" (moved ts a to d) = VStr to) by (unfold moved; by rewrite dgetN_dset_ne, dgetN_dset_eq).
  pose proof (valid_history d Hv) as Hl. revert Hv. unfold valid_entry.
  rewrite (exactly_ext _ _ _ Hkeys), Hhist, Hst, !moved_fields by done. rewrite !andb_true_iff, forallb_app, Hl. cbn [forallb]. rewrite Hrow.
  intros [[[[[[H1 H2] H3] _] H4] H5] _]. split_and!; try done. change (val_in_strs (VStr to) STATUSES = true).
  by rewrite val_in_strs_spec, mem_true.
Qed.

(** The outcome of a promotion, on every branch: it succeeds exactly for an authorized
    actor with a valid name, an existing detection, a listed move and a manifest that
    still resolves; then one record naming the actor and the move is appended and nothing
    else of the registry changes.  Every refusal leaves the registry as it was, and is the
    error of the first condition that fails. *)
Theorem promotion_outcome fs authorize did to actor ts ops :
  let g := foldl apply [] ops in
  nonblank ts = true →
  promote fs authorize did to actor ts g =
  match valid_actor actor, get did g with
  | Ok a, Some d =>
      if negb (authorize a) then (g, Raise Unauthorized)
      else if negb (allowed (text_of "status" d) to) then (g, Raise IllegalTransition)
      else if negb (manifest_resolves fs (text_of "manifest_ref" d)) then (g, Raise ValueError)
      else (od_set did (moved ts a to d) g, Ok (moved ts a to d))
  | Ok a, None => (g, Raise (if authorize a then KeyError else Unauthorized))
  | Raise _, _ => (g, Raise Unauthorized)
  end ∧
  ∀ a d, log (moved ts a to d) = log d ++ [{| c_ts := ts; c_actor := a; c_from := Some (text_of "status" d); c_to := to |}] ∧
    text_of "status" (moved ts a to d) = to ∧
    ∀ k, k ≠ "change_history" → k ≠ "status" → dgetN k (moved ts a to d) = dgetN k d.
Proof.
  cbv zeta. pose proof (run_ok [] ops empty_ok) as Hg. revert Hg. generalize (foldl apply [] ops). intros g Hg Hts. split.
  2:{ intros a d. split_and!; [|apply moved_status|intros; by apply moved_fields]. unfold log. by rewrite moved_history, fmap_app. }
  unfold promote, bind, lift, read, raise. destruct (valid_actor actor) as [a|e] eqn:Ea;
    [|destruct actor; simpl in Ea; try (by injection Ea as <-); destruct (_ && _); [done|by injection Ea as <-]].
  apply valid_actor_inv in Ea as [_ Ha]. destruct (authorize a) eqn:Eau; simpl; [|by destruct (get did g)].
  destruct (get did g) as [d|] eqn:Eg; [|done]. destruct (store_ok_get _ _ _ Hg Eg) as [Hv Hid].
  destruct (allowed _ to) eqn:Et; simpl; [|done]. pose proof (moved_valid ts a to d Hv Hts Ha Et) as Hm.
  assert (Ht : ∀ k, k ≠ "change_history" → k ≠ "status" → text_of k (moved ts a to d) = text_of k d)
    by (intros; unfold text_of; by rewrite moved_fields).
  unfold update, bind, lift, read, raise, put, modify, ret, _validate. rewrite Hm. cbn [check mbind res_bind].
  rewrite Ht by done. destruct (manifest_resolves _ _); [|done]. cbn [check mbind res_bind].
  rewrite Ht, Hid by done. fold (get did g). rewrite Eg, moved_history, append_only_snoc by (by apply valid_history). done.
Qed.

(** The moves of a log from one status to another, each by an authorized actor. *)
Fixpoint moves (authorize : string → bool) (s : string) (l : list change) (t : string) : Prop :=
  match l with
  | [] => s = t
  | c :: l => c_from c = Some s ∧ allowed s (c_to c) = true ∧ authorize (c_actor c) = true ∧ moves authorize (c_to c) l t
  end.
Definition rank (s : string) : nat :=
  if String.eqb s "draft" then 3 else if String.eqb s "shadow" then 2 else if String.eqb s "active" then 1 else 0.
Lemma allowed_rank s t : allowed s t = true → (rank t < rank s)%nat.
Proof.
  unfold allowed. rewrite mem_true. destruct (assoc s TRANSITIONS) as [l|] eqn:E; [|by intros ?%elem_of_nil].
  apply assoc_elem in E. unfold TRANSITIONS in *. simpl. intros H.
  repeat (apply elem_of_cons in E as [[= -> ->]|E]); [..|by apply elem_of_nil in E];
    repeat (apply elem_of_cons in H as [->|H]; [vm_compute; lia|]); by apply elem_of_nil in H.
Qed.
Lemma moves_short authorize s l t : moves authorize s l t → (length l + rank t <= rank s)%nat.
Proof.
  revert s. induction l as [|c l IH]; intros s; simpl; [intros ->; lia|]. intros (_ & H%allowed_rank & _ & H2%IH). lia.
Qed.
Lemma moves_snoc authorize s l t c :
  moves authorize s l t → c_from c = Some t → allowed t (c_to c) = true → authorize (c_actor c) = true → moves authorize s (l ++ [c]) (c_to c).
Proof. revert s. induction l as [|x l IH]; intros s; simpl; [by intros ->|]. intros (? & ? & ? & ?) ???. eauto. Qed.

(** An operation that leaves status changes to promotions under one policy. *)
Definition by_promotion (authorize : string → bool) (did : string) (o : op) : Prop :=
  match o with
  | o_create _ _ => True
  | o_update _ v => ∀ d, v = VDict d → text_of "detection_id" d ≠ did
  | o_delete did' => did' ≠ did
  | o_promote _ auth _ _ _ ts => auth = authorize ∧ nonblank ts = true
  end.
Lemma apply_moves authorize did g o d :
  store_ok g → by_promotion authorize did o → od_get did g = Some d →
  ∃ d' l, od_get did (apply g o) = Some d' ∧ log d' = log d ++ l ∧ (l = [] ∧ text_of "status" d' = text_of "status" d ∨
    ∃ c, l = [c] ∧ c_from c = Some (text_of "status" d) ∧ c_to c = text_of "status" d' ∧
      allowed (text_of "status" d) (c_to c) = true ∧ authorize (c_actor c) = true).
Proof.
  intros Hg Ho Hd. assert (Hsame : ∀ g', od_get did g' = Some d → ∃ d' l, od_get did g' = Some d' ∧ log d' = log d ++ l ∧
    (l = [] ∧ text_of "status" d' = text_of "status" d ∨ ∃ c, l = [c] ∧ c_from c = Some (text_of "status" d) ∧ c_to c = text_of "status" d' ∧
      allowed (text_of "status" d) (c_to c) = true ∧ authorize (c_actor c) = true)).
  { intros g' Hg'. exists d, []. rewrite app_nil_r. auto. }
  destruct o as [fs v|fs v|did'|fs auth did' to actor ts]; simpl in *.
  - destruct (create fs v g) as [g' r] eqn:E. apply create_inv in E as [[-> _]|(d0 & _ & _ & Hn & ->)]; apply Hsame; [done|].
    simpl. rewrite od_get_set_ne; [done|]. congruence.
  - destruct (update fs v g) as [g' r] eqn:E. apply update_inv in E as [[-> _]|(d0 & p & _ & -> & _ & _ & _ & ->)]; apply Hsame; [done|].
    simpl. rewrite od_get_set_ne; [done|]. intros ->. by apply (Ho d0).
  - apply Hsame. by rewrite od_get_del_ne by congruence.
  - destruct Ho as [-> Hts]. destruct (promote fs authorize did' to actor ts g) as [g' r] eqn:E.
    apply promoted_inv in E as [[-> _]|(a & d0 & Ha & Hau & Hd0 & Hal & E)]; [by apply Hsame|].
    apply update_inv in E as [[-> _]|(d1 & p & _ & [= <-] & _ & _ & _ & ->)]; [by apply Hsame|]. simpl.
    destruct (store_ok_get _ _ _ Hg Hd0) as [_ Hid].
    assert (Hid' : text_of "detection_id" (moved ts a to d0) = did') by (unfold text_of in *; by rewrite moved_fields).
    rewrite Hid', od_get_set. case_decide as Eq; [|by apply Hsame]. rewrite <- Eq, Hd in Hd0. injection Hd0 as <-.
    eexists (moved ts a to d), [_]. split; [done|]. split; [unfold log; by rewrite moved_history, fmap_app|]. right.
    eexists. split; [done|]. rewrite moved_status. done.
Qed.

(** Statuses move along the table only: while status changes are left to promotions
    under one policy, whatever else happens in the registry, the records appended to a
    detection's log lead from its old status to its current one by listed moves of
    authorized actors; there are at most three of them, and none after retirement. *)
Theorem promotions_follow_table authorize ops1 ops2 did d :
  let g := foldl apply [] ops1 in
  od_get did g = Some d → Forall (by_promotion authorize did) ops2 →
  ∃ d' l, od_get did (foldl apply g ops2) = Some d' ∧ log d' = log d ++ l ∧
    moves authorize (text_of "status" d) l (text_of "status" d') ∧ (length l <= rank (text_of "status" d))%nat.
Proof.
  cbv zeta. pose proof (run_ok [] ops1 empty_ok) as Hg. revert Hg. generalize (foldl apply [] ops1). intros g Hg Hd Hops.
  cut (∃ d' l, od_get did (foldl apply g ops2) = Some d' ∧ log d' = log d ++ l ∧ moves authorize (text_of "status" d) l (text_of "status" d')).
  { intros (d' & l & H1 & H2 & H3). exists d', l. split_and!; try done. apply moves_short in H3. lia. }
  induction ops2 as [|o ops2 IH] using rev_ind; [exists d, []; rewrite app_nil_r; done|].
  apply Forall_app in Hops as [Hops Ho]. rewrite Forall_singleton in Ho. destruct (IH Hops) as (d1 & l1 & Hd1 & Hl1 & Hm1). rewrite foldl_app. simpl.
  destruct (apply_moves authorize did _ o d1 (run_ok g ops2 Hg) Ho Hd1) as (d2 & l2 & Hd2 & Hl2 & [[-> Hs]|(c & -> & Hf & Ht & Ha & Hau)]).
  - exists d2, l1. rewrite Hl2, Hl1, app_nil_r, Hs. done.
  - exists d2, (l1 ++ [c]). rewrite Hl2, Hl1, <- app_assoc, <- Ht. split_and!; [done|done|]. by eapply moves_snoc.
Qed.

(** ** An entry's life *)

Definition ex_files : file_system := {| resolve := λ p, "/r/" +:+ p; is_file := λ p, ends_with "dns.manifest.json" p |}.
Definition ex_entry (ref : string) : val := VDict
  [("detection_id", VStr "dns-tunnel"); ("source", VStr "dns"); ("status", VStr "draft"); ("version", VStr "1");
   ("manifest_ref", VStr ref);
   ("change_history", VList [VDict [("ts", VStr "2026-01-01T00:00:00Z"); ("actor", VStr "ana"); ("from", VNone); ("to", VStr "draft")]])].
Definition ex_promote (to : string) (actor : val) : op :=
  o_promote ex_files (allow_actors ["bob"]) "dns-tunnel" to actor "2026-01-02T00:00:00Z".
Definition ex_ops : list op := [o_create ex_files (ex_entry "detections/manifest/dns.manifest.json")].
Example refs_must_resolve :
  ((λ ref, (create ex_files (ex_entry ref) []).2) <$>
    ["detections/manifest/x.manifest.json"; "detections/manifest/../dns.manifest.json"])
  = [Raise ValueError; Raise ValidationError].
Proof. vm_compute. reflexivity. Qed.
Example promotions :
  ((λ ops, (λ d, (text_of "status" d, c_to <$> log d)) <$> od_get "dns-tunnel" (foldl apply [] (ex_ops ++ ops))) <$>
    [[ex_promote "shadow" (VStr "bob")]; [ex_promote "active" (VStr "bob")]; [ex_promote "shadow" (VStr "eve")];
     [ex_promote "retired" (VStr "bob"); ex_promote "shadow" (VStr "bob")]])
  = [Some ("shadow", ["draft"; "shadow"]); Some ("draft", ["draft"]); Some ("draft", ["draft"]);
     Some ("retired", ["draft"; "retired"])].
Proof. vm_compute. reflexivity. Qed.

Lemma history_never_rewritten_witness :
  match od_get "dns-tunnel" (foldl apply [] ex_ops) with
  | Some d => ∃ d', od_get "dns-tunnel" (foldl apply (foldl apply [] ex_ops) [ex_promote "shadow" (VStr "bob")]) = Some d' ∧
      log d `prefix_of` log d'
  | None => False
  end.
Proof.
  destruct (od_get "dns-tunnel" (foldl apply [] ex_ops)) as [d|] eqn:E; [|vm_compute in E; discriminate E].
  apply (history_never_rewritten ex_ops); [exact E|]. intros [H|H]%elem_of_cons; [discriminate H|by apply elem_of_nil in H].
Defined.
Lemma promotion_outcome_witness :
  promote ex_files (allow_actors ["bob"]) "dns-tunnel" "active" (VStr "bob") "t" (foldl apply [] ex_ops)
  = (foldl apply [] ex_ops, Raise IllegalTransition).
Proof.
  rewrite (proj1 (promotion_outcome ex_files (allow_actors ["bob"]) "dns-tunnel" "active" (VStr "bob") "t" ex_ops eq_refl)).
  vm_compute. reflexivity.
Defined.
Lemma promotions_follow_table_witness :
  match od_get "dns-tunnel" (foldl apply [] ex_ops) with
  | Some d => ∃ d' l,
      od_get "dns-tunnel" (foldl apply (foldl apply [] ex_ops) [ex_promote "shadow" (VStr "bob"); ex_promote "draft" (VStr "bob")]) = Some d' ∧
      log d' = log d ++ l ∧ moves (allow_actors ["bob"]) (text_of "status" d) l (text_of "status" d') ∧
      (length l <= rank (text_of "status" d))%nat
  | None => False
  end.
Proof.
  destruct (od_get "dns-tunnel" (foldl apply [] ex_ops)) as [d|] eqn:E; [|vm_compute in E; discriminate E].
  apply (promotions_follow_table (allow_actors ["bob"]) ex_ops); [exact E|].
  repeat constructor; split; reflexivity.
Defined.
