(* ===== verification/FeedbackRouter.v ===== *)
(** * Analyst feedback (services/feedback-service: router.py, the write side of app.py)

    An authenticated disposition becomes one advisory suggestion and one audit event,
    committed together.  Identity, scope, sink and lifetime are the server's.

    [clock] readings are JSON numbers, as in the records; random identifiers are
    arguments.  The two SQLite tables are lists; a primary key already present, or a
    failing statement, rolls the transaction back. *)

From S2P Require Import Prelude Order PyVal PyString OrderedMap PyTime CaptureBudget JsonSchema.
Set Default Proof Using "Type".

(** ** disposition.v1 *)

(** [valid_timestamp]: a text without an offset is refused, an unreadable one too. *)
Definition aware_instant (s : string) : res Z :=
  match fromisoformat (replace_zulu (upper s)) with
  | Some (local, Some o) => Ok (local - o)
  | Some (_, None) => Raise TypeError
  | None => Raise ValueError
  end.
Definition valid_timestamp (v : val) : bool := match v with VStr s => is_ok (aware_instant s) | _ => true end.
Definition date_time_pattern (s : string) : bool :=
  match
    s ← match_classes [is_digit; is_digit; is_digit; is_digit; one_of "-"; is_digit; is_digit; one_of "-"; is_digit; is_digit;
                       one_of "Tt"; is_digit; is_digit; one_of ":"; is_digit; is_digit; one_of ":"; is_digit; is_digit] s;
    s ← match s with
        | String "." s' => match match_classes [is_digit] s' with Some s' => Some (skip_digits s') | None => None end
        | _ => Some s
        end;
    match s with
    | String c s' =>
        if one_of "Zz" c then Some s'
        else if one_of "+-" c then match_classes [is_digit; is_digit; one_of ":"; is_digit; is_digit] s' else None
    | EmptyString => None
    end
  with Some rest => String.eqb rest "" | None => false end.
Definition required_fields : list string := ["finding_id"; "entity"; "verdict"; "reason"; "analyst"; "ts"; "scope"].
Definition valid_entity (v : val) : bool :=
  match v with
  | VDict e => closed ["type"; "value"] [] e && val_in_strs (dgetN "type" e) ["ip"; "hostname"; "domain"; "asset"]
               && valid_token 512 (dgetN "value" e)
  | _ => false
  end.
Definition bounded_text (max_len : Z) (v : val) : bool := match v with VStr s => between 1 max_len (len s) | _ => false end.
Definition verdicts : list string := ["true_positive"; "false_positive"; "benign"; "allowlist"].
Definition valid_disposition (d : dict) : bool :=
  closed required_fields ["tenant"] d &&
  match dgetN "finding_id" d with VNone => true | v => bounded_text 256 v end &&
  valid_entity (dgetN "entity" d) && val_in_strs (dgetN "verdict" d) verdicts && valid_token 4096 (dgetN "reason" d) &&
  bounded_text 256 (dgetN "analyst" d) && (negb (dhas "tenant" d) || bounded_text 256 (dgetN "tenant" d)) &&
  match dgetN "ts" d with VStr s => (date_time_pattern s || date_time_pattern (chomp s)) && valid_timestamp (VStr s) | _ => false end &&
  val_in_strs (dgetN "scope" d) ["finding"; "entity"; "tenant"] &&
  (if val_eq_str (dgetN "verdict" d) "allowlist" then val_eq_str (dgetN "scope" d) "entity"
   else match dgetN "finding_id" d with VStr s => nonblank s | _ => false end).

(** ** Sessions *)

Definition bearer (authorization : string) : option string :=
  if starts_with "Bearer " authorization then Some (drop_chars 7 authorization) else None.
Definition session_text (k : string) (session : dict) : bool :=
  match dgetN k session with VStr s => str_truthy (strip s) | _ => false end.
(** [expires_at] is a finite number after [now]. *)
Definition unexpired (session : dict) (now : val) : res bool :=
  match dgetN "expires_at" session with
  | (VInt _ | VFloat _) as e => f ← finite_number e; Ok (f && negb (num_le e now))
  | _ => Ok false
  end.
Record identity := { emitter : string; analyst : string; tenant : string }.
Definition authenticate (tokens : dict) (authorization : string) (now : val) : res identity :=
  match bearer authorization with
  | Some token =>
      match (if str_truthy token then dgetN token tokens else VNone) with
      | VDict session =>
          check (forallb (λ k, session_text k session) ["emitter"; "analyst"; "tenant"]) PermissionError;;
          fresh ← unexpired session now;
          check (fresh && is_true (dgetN "disposition_write" session)) PermissionError;;
          Ok {| emitter := text_of "emitter" session; analyst := text_of "analyst" session; tenant := text_of "tenant" session |}
      | _ => Raise PermissionError
      end
  | None => Raise PermissionError
  end.

(** ** Routing *)

Definition SINKS : list (string * string) :=
  [("true_positive", "anomaly_ground_truth"); ("benign", "anomaly_ground_truth");
   ("false_positive", "detector_fp_candidate"); ("allowlist", "ignore_list")].
Definition CAPABILITIES : val := VDict [("disposition_v1", VBool true); ("advisory_only", VBool true); ("auto_suppression", VBool false)].

(** Whether a reviewed entry suppresses [entity] now. *)
Definition num_lt (a b : val) : res bool :=
  match as_num a, as_num b with
  | Some x, Some y => Ok (match num_cmp x y with Some Lt => true | _ => false end)
  | _, _ => Raise TypeError
  end.
Definition num_le_res (a b : val) : res bool :=
  match as_num a, as_num b with Some _, Some _ => Ok (num_le a b) | _, _ => Raise TypeError end.
Definition infinity (negative : bool) : val := VFloat (S754_infinity negative).
Definition ignore_entry_suppresses (entry : dict) (tenant : string) (entity now : val) : res bool :=
  if val_eq_str (dgetN "sink" entry) "ignore_list" && val_eq_str (dgetN "status" entry) "applied"
     && val_eq_str (dgetN "tenant" entry) tenant && py_eqb (dgetN "entity" entry) entity
     && forallb (λ k, truthy (dgetN k entry)) ["owner"; "justification"; "audit_id"; "approval_audit_id"]
  then
    started ← num_le_res (dget_or "created_at" (infinity false) entry) now;
    if started : bool then num_lt now (dget_or "expires_at" (infinity true) entry) else Ok false
  else Ok false.

Record row := { w_id : string; w_tenant : string; w_sink : string; w_record : dict }.
Record audit_event := {
  v_id : string; v_tenant : string; v_actor : string; v_emitter : string; v_resource : string; v_timestamp : val;
  v_source_ip : string; v_reason : val; v_record : dict
}.
Record database := { feedback : list row; audit : list audit_event }.
Definition empty_db : database := {| feedback := []; audit := [] |}.

(** [Router.__init__]: what lifetimes are accepted. *)
Definition valid_ttl (ttl : val) : res unit :=
  match ttl with
  | VInt _ | VFloat _ =>
      f ← finite_number ttl; lo ← num_lt (VInt 0) ttl; hi ← num_le_res ttl (VInt 2592000);
      check (f && lo && hi) ValueError
  | _ => Raise ValueError
  end.

Definition record_of (who : identity) (payload : dict) (id audit_id : string) (now ttl : val) : res dict :=
  let verdict := text_of "verdict" payload in
  expires ← num_add now ttl;
  sink ← match assoc verdict SINKS with Some s => Ok s | None => Raise KeyError end;
  Ok [("id", VStr id); ("audit_id", VStr audit_id); ("tenant", VStr (tenant who)); ("owner", VStr (analyst who));
      ("analyst", VStr (analyst who)); ("emitter", VStr (emitter who));
      ("scope", VStr (if String.eqb verdict "allowlist" then "entity" else "finding"));
      ("finding_id", dgetN "finding_id" payload); ("entity", dgetN "entity" payload); ("verdict", VStr verdict);
      ("justification", dgetN "reason" payload); ("source_ts", dgetN "ts" payload); ("created_at", now);
      ("expires_at", expires); ("status", VStr "suggested"); ("sink", VStr sink); ("capabilities", CAPABILITIES)].

(** The points at which the database may fail. *)
Inductive db_fault := no_fault | insert_fails | audit_fails | commit_fails.
Definition insert_row (fault : db_fault) (r : row) : M database unit :=
  let* rows := read feedback in
  if match fault with insert_fails => true | _ => existsb (λ x, String.eqb (w_id x) (w_id r)) rows end then raise OtherError
  else modify (λ db, {| feedback := feedback db ++ [r]; audit := audit db |}).
Definition insert_audit (fault : db_fault) (v : audit_event) : M database unit :=
  let* events := read audit in
  if match fault with audit_fails => true | _ => existsb (λ x, String.eqb (v_id x) (v_id v)) events end then raise OtherError
  else modify (λ db, {| feedback := feedback db; audit := audit db ++ [v] |}).
(** [with db]: commit, or roll back when anything raised. *)
Definition transaction {A} (m : M database A) : M database A := λ db,
  match m db with (db', Ok a) => (db', Ok a) | (_, Raise e) => (db, Raise e) end.

(** Random identifiers of one call, and what the database does. *)
Record call := { k_id : string; k_audit_id : string; k_now : val; k_fault : db_fault }.
Definition consume (tokens : dict) (ttl : val) (k : call) (payload : val) (authorization source_ip : string) : M database dict :=
  let* who := lift (authenticate tokens authorization (k_now k)) in
  let* d := lift (match payload with
                  | VDict d => check (valid_disposition d) ValidationError;; Ok d
                  | _ => Raise ValidationError
                  end) in
  let* record := lift (record_of who d (k_id k) (k_audit_id k) (k_now k) ttl) in
  transaction
    (insert_row (k_fault k) {| w_id := k_id k; w_tenant := tenant who; w_sink := text_of "sink" record; w_record := record |};*
     insert_audit (k_fault k)
       {| v_id := k_audit_id k; v_tenant := tenant who; v_actor := analyst who; v_emitter := emitter who; v_resource := k_id k;
          v_timestamp := k_now k; v_source_ip := source_ip; v_reason := dgetN "reason" d; v_record := record |};*
     match k_fault k with commit_fails => raise OtherError | _ => ret tt end);*
  ret record.

(** ** POST /dispositions (app.py) *)

(** What the handler reads of a request: its path, its headers, and its body as
    [json.loads] sees it. *)
Record request := {
  q_path : string; q_authorization : string; q_length : string; q_chunked : bool; q_body : res val; q_ip : string
}.
(** [int(headers["Content-Length"])], a missing header being ["0"]. *)
Definition content_length (q : request) : res Z := py_int (VStr (q_length q)).
Definition status_of (e : exn) : Z :=
  match e with
  | PermissionError => 401
  | ValueError | ValidationError => 400
  | _ => 503
  end.
Definition post_body (tokens : dict) (ttl : val) (arrived : val) (k : call) (q : request) : M database (option dict) :=
  let* _ := lift (authenticate tokens (q_authorization q) arrived) in
  let* n := lift (content_length q) in
  if negb (between 1 65536 n) || q_chunked q then ret None
  else
    let* payload := lift (q_body q) in
    let* record := consume tokens ttl k payload (q_authorization q) (q_ip q) in
    ret (Some record).
(** [arrived] is the clock when the request arrives, [k_now] when it is consumed. *)
Definition do_POST (tokens : dict) (ttl : val) (arrived : val) (k : call) (q : request) (db : database) : database * (Z * option dict) :=
  if negb (String.eqb (q_path q) "/dispositions") then (db, (404, None))
  else
    match post_body tokens ttl arrived k q db with
    | (db, Ok (Some record)) => (db, (202, Some record))
    | (db, Ok None) => (db, (400, None))
    | (db, Raise e) => (db, (status_of e, None))
    end.

(** ** What a call stores *)

Definition stored (k : call) (who : identity) (record : dict) : row :=
  {| w_id := k_id k; w_tenant := tenant who; w_sink := text_of "sink" record; w_record := record |}.
Definition stored_event (k : call) (who : identity) (d record : dict) (source_ip : string) : audit_event :=
  {| v_id := k_audit_id k; v_tenant := tenant who; v_actor := analyst who; v_emitter := emitter who; v_resource := k_id k;
     v_timestamp := k_now k; v_source_ip := source_ip; v_reason := dgetN "reason" d; v_record := record |}.
Definition appended (r : row) (v : audit_event) (db : database) : database :=
  {| feedback := feedback db ++ [r]; audit := audit db ++ [v] |}.

Lemma existsb_id {A} (f : A → string) x l : existsb (λ y, String.eqb (f y) x) l = false → x ∉ f <$> l.
Proof.
  intros H (y & -> & Hy)%list_elem_of_fmap. apply not_true_iff_false in H. apply H, existsb_exists.
  exists y. split; [by apply list_elem_of_In|apply String.eqb_refl].
Qed.

Section router.
Context (tokens : dict) (ttl : val).

Lemma consume_inv k payload authorization ip db db' r :
  consume tokens ttl k payload authorization ip db = (db', r) →
  (db' = db ∧ ∃ e, r = Raise e) ∨
  ∃ who d record, authenticate tokens authorization (k_now k) = Ok who ∧ payload = VDict d ∧ valid_disposition d = true ∧
    record_of who d (k_id k) (k_audit_id k) (k_now k) ttl = Ok record ∧ r = Ok record ∧
    k_id k ∉ w_id <$> feedback db ∧ k_audit_id k ∉ v_id <$> audit db ∧
    db' = appended (stored k who record) (stored_event k who d record ip) db.
Proof.
  unfold consume, bind, lift. destruct (authenticate _ _ _) as [who|e]; [|intros [= <- <-]; left; eauto].
  destruct payload as [| | | | | |d]; try (intros [= <- <-]; left; eauto; fail).
  destruct (valid_disposition d) eqn:Ev; [|intros [= <- <-]; left; eauto]. simpl.
  destruct (record_of _ _ _ _ _ _) as [record|e] eqn:Er; [|intros [= <- <-]; left; eauto].
  unfold transaction, insert_row, insert_audit, bind, read, modify, raise, ret. simpl.
  destruct (match k_fault k with insert_fails => true | _ => _ end) eqn:E1; [intros [= <- <-]; left; eauto|].
  destruct (match k_fault k with audit_fails => true | _ => _ end) eqn:E2; [intros [= <- <-]; left; eauto|].
  destruct (k_fault k); try discriminate; intros [= <- <-]; try (left; eauto; fail).
  right. exists who, d, record. split_and!; try done; by apply existsb_id.
Qed.

Lemma consume_fault k d authorization ip db who record :
  authenticate tokens authorization (k_now k) = Ok who → valid_disposition d = true →
  record_of who d (k_id k) (k_audit_id k) (k_now k) ttl = Ok record → k_fault k ≠ no_fault →
  consume tokens ttl k (VDict d) authorization ip db = (db, Raise OtherError).
Proof.
  intros Ha Hv Hr Hf. unfold consume, bind, lift. rewrite Ha, Hv. cbn [check mbind res_bind]. rewrite Hr.
  unfold transaction, insert_row, insert_audit, bind, read, modify, raise, ret. simpl.
  destruct (match k_fault k with insert_fails => true | _ => _ end) eqn:E1; [done|].
  destruct (match k_fault k with audit_fails => true | _ => _ end) eqn:E2; [done|]. by destruct (k_fault k).
Qed.

Lemma post_inv arrived k q db db' c r :
  do_POST tokens ttl arrived k q db = (db', (c, r)) →
  (db' = db ∧ r = None ∧ c ∈ [404; 401; 400; 503]) ∨
  (c = 202 ∧ is_ok (authenticate tokens (q_authorization q) arrived) = true ∧ ∃ n, content_length q = Ok n ∧ between 1 65536 n = true ∧
   ∃ payload record, q_body q = Ok payload ∧ r = Some record ∧
     consume tokens ttl k payload (q_authorization q) (q_ip q) db = (db', Ok record)).
Proof.
  unfold do_POST. destruct (negb _); [intros [= <- <- <-]; left; set_solver|].
  assert (Hs : ∀ e, status_of e ∈ [404; 401; 400; 503]) by (intros []; set_solver).
  unfold post_body, bind, lift, ret. destruct (authenticate tokens (q_authorization q) arrived) as [w|e];
    [|intros [= <- <- <-]; left; auto].
  destruct (content_length q) as [n|e]; [|intros [= <- <- <-]; left; auto].
  destruct (negb (between 1 65536 n) || q_chunked q) eqn:E; [intros [= <- <- <-]; left; split_and!; [done|done|set_solver]|].
  destruct (q_body q) as [payload|e]; [|intros [= <- <- <-]; left; auto].
  apply orb_false_iff in E as [E%negb_false_iff _].
  destruct (consume _ _ _ _ _ _ db) as [db1 [record|e]] eqn:Ec; intros [= <- <- <-].
  - right. split_and!; [done|done|]. exists n. split_and!; [done|done|]. exists payload, record. done.
  - left. apply consume_inv in Ec as [[-> _]|(? & ? & ? & _ & _ & _ & _ & [=] & _)]. auto.
Qed.
End router.

(** ** What the tables hold *)

(** A request handled by the service, under its tokens and lifetime. *)
Record post := { o_tokens : dict; o_ttl : val; o_arrived : val; o_call : call; o_request : request }.
Definition handle (db : database) (p : post) : database :=
  (do_POST (o_tokens p) (o_ttl p) (o_arrived p) (o_call p) (o_request p) db).1.
Definition db_after (ps : list post) : database := foldl handle empty_db ps.

(** The row and the event of a request: a live session's identity, a valid body. *)
Definition issued (p : post) (r : row) (v : audit_event) : Prop :=
  ∃ who d record,
    authenticate (o_tokens p) (q_authorization (o_request p)) (k_now (o_call p)) = Ok who ∧
    q_body (o_request p) = Ok (VDict d) ∧ valid_disposition d = true ∧
    record_of who d (k_id (o_call p)) (k_audit_id (o_call p)) (k_now (o_call p)) (o_ttl p) = Ok record ∧
    r = stored (o_call p) who record ∧ v = stored_event (o_call p) who d record (q_ip (o_request p)).

Lemma handle_inv db p :
  handle db p = db ∨
  ∃ r v, handle db p = appended r v db ∧ issued p r v ∧ w_id r ∉ w_id <$> feedback db ∧ v_id v ∉ v_id <$> audit db.
Proof.
  unfold handle. destruct (do_POST _ _ _ _ _ db) as [db' [c r]] eqn:E.
  apply post_inv in E as [(-> & _)|(_ & _ & n & _ & _ & payload & record & Hb & _ & E)]; [by left|right].
  apply consume_inv in E as [[_ [? [=]]]|(who & d & rec & Ha & -> & Hv & Hr & [= ->] & Hi & Hai & ->)].
  eexists _, _. split; [reflexivity|]. split; [by exists who, d, rec|done].
Qed.

Lemma tables_paired ps :
  let db := db_after ps in
  Forall2 (λ r v, v_resource v = w_id r ∧ v_tenant v = w_tenant r ∧ v_record v = w_record r ∧
                  ∃ p, p ∈ ps ∧ issued p r v) (feedback db) (audit db) ∧
  NoDup (w_id <$> feedback db) ∧ NoDup (v_id <$> audit db).
Proof.
  cbv zeta. induction ps as [|p ps IH] using rev_ind; [split_and!; constructor|].
  unfold db_after in *. rewrite foldl_app. simpl. destruct IH as (H1 & H2 & H3).
  assert (Hw : Forall2 (λ r v, v_resource v = w_id r ∧ v_tenant v = w_tenant r ∧ v_record v = w_record r ∧
                  ∃ p', p' ∈ ps ++ [p] ∧ issued p' r v) (feedback (foldl handle empty_db ps)) (audit (foldl handle empty_db ps))).
  { eapply Forall2_impl; [exact H1|]. intros r v (? & ? & ? & p' & Hp & ?). split_and!; try done. exists p'. set_solver. }
  destruct (handle_inv (foldl handle empty_db ps) p) as [->|(r & v & -> & Hi & Hr & Hv)]; [done|]. unfold appended. simpl. split_and!.
  - apply Forall2_app; [done|]. constructor; [|constructor]. destruct Hi as (who & d & record & Ha & Hb & Hd & Hrec & -> & ->).
    split_and!; [done..|]. exists p. split; [set_solver|]. by exists who, d, record.
  - rewrite fmap_app. apply NoDup_app. split_and!; [done| |apply NoDup_singleton]. set_solver.
  - rewrite fmap_app. apply NoDup_app. split_and!; [done| |apply NoDup_singleton]. set_solver.
Qed.

(** C39. Every suggestion is audited and attributed, and nothing else is: after any requests,
    under any failures of the database, the two tables pair row for event in order; each
    pair was stored by one request with a valid body, under the identity of a session that
    was live when it was consumed; and no identifier is used twice. *)
Theorem feedback_audited_and_owned ps :
  let db := db_after ps in
  Forall2 (λ r v, v_resource v = w_id r ∧ v_tenant v = w_tenant r ∧ v_record v = w_record r ∧
                  ∃ p, p ∈ ps ∧ issued p r v) (feedback db) (audit db) ∧
  NoDup (w_id <$> feedback db) ∧ NoDup (v_id <$> audit db).
Proof. apply tables_paired. Qed.

(** ** What a record is *)

Lemma record_inv who d id audit_id now ttl record :
  record_of who d id audit_id now ttl = Ok record →
  text_of "tenant" record = tenant who ∧ dgetN "tenant" record = VStr (tenant who) ∧ text_of "owner" record = analyst who ∧
  dgetN "status" record = VStr "suggested" ∧ dgetN "verdict" record = VStr (text_of "verdict" d) ∧
  dgetN "finding_id" record = dgetN "finding_id" d ∧ dgetN "source_ts" record = dgetN "ts" d ∧
  dgetN "scope" record = VStr (if String.eqb (text_of "verdict" d) "allowlist" then "entity" else "finding") ∧
  assoc (text_of "verdict" d) SINKS = Some (text_of "sink" record).
Proof.
  unfold record_of. intros H. apply bind_ok_inv in H as (expires & _ & H).
  destruct (assoc _ SINKS) as [sink|] eqn:E; [|discriminate]. injection H as <-. done.
Qed.

(** What the payload claims about who sent it is ignored: bodies that differ only in
    the tenant, analyst or scope they claim are accepted alike and stored alike. *)
Theorem claims_are_ignored tokens ttl k d d' authorization ip db :
  agree_except ["tenant"; "analyst"; "scope"] d d' →
  valid_disposition d = true → valid_disposition d' = true →
  consume tokens ttl k (VDict d) authorization ip db = consume tokens ttl k (VDict d') authorization ip db.
Proof.
  intros Hag Hv Hv'. assert (Hk : ∀ n, n ∉ ["tenant"; "analyst"; "scope"] → dgetN n d = dgetN n d') by (intros; by apply (agree_dgetN ["tenant"; "analyst"; "scope"])).
  assert (Hr : ∀ who, record_of who d (k_id k) (k_audit_id k) (k_now k) ttl = record_of who d' (k_id k) (k_audit_id k) (k_now k) ttl).
  { intros who. unfold record_of, text_of. by rewrite !Hk by set_solver. }
  unfold consume, bind, lift. destruct (authenticate _ _ _) as [who|e]; [|done]. rewrite Hv, Hv'. cbn [check mbind res_bind]. rewrite Hr.
  destruct (record_of _ d' _ _ _ _) as [record|e]; [|done]. by rewrite !Hk by set_solver.
Qed.

(** Feedback is advisory: no stored record, of whatever requests, suppresses anything
    for anyone at any time. *)
Theorem feedback_never_suppresses ps r t entity now :
  r ∈ feedback (db_after ps) → ignore_entry_suppresses (w_record r) t entity now = Ok false.
Proof.
  intros Hr. destruct (tables_paired ps) as [H _]. apply list_elem_of_lookup in Hr as [i Hi].
  destruct (Forall2_lookup_l _ _ _ _ _ H Hi) as (v & _ & _ & _ & _ & p & _ & who & d & record & _ & _ & _ & Hrec & -> & _).
  apply record_inv in Hrec as (_ & _ & _ & Hs & _). unfold ignore_entry_suppresses. cbn [w_record stored]. rewrite Hs. simpl. by rewrite andb_false_r.
Qed.

(** The answer to a request, errors included: anything but 202 changes nothing; 202 is
    given only to a body of bounded length under a session live both on arrival and when
    consumed, and it added exactly one suggestion and its event; without a live session
    the answer is 401 whatever the body holds; a failing database is answered 503. *)
Theorem post_outcome tokens ttl arrived k q db :
  let '(db', (c, r)) := do_POST tokens ttl arrived k q db in
  (c ≠ 202 → db' = db ∧ r = None) ∧
  (c = 202 → ∃ row v record, db' = appended row v db ∧ r = Some record ∧ w_record row = record ∧
     issued {| o_tokens := tokens; o_ttl := ttl; o_arrived := arrived; o_call := k; o_request := q |} row v ∧
     is_ok (authenticate tokens (q_authorization q) arrived) = true ∧
     ∃ n, content_length q = Ok n ∧ 1 <= n <= 65536) ∧
  (q_path q = "/dispositions" → authenticate tokens (q_authorization q) arrived = Raise PermissionError → c = 401) ∧
  (q_path q = "/dispositions" → is_ok (authenticate tokens (q_authorization q) arrived) = true →
   ∀ n d who record, content_length q = Ok n → 1 <= n <= 65536 → q_chunked q = false → q_body q = Ok (VDict d) →
   valid_disposition d = true → authenticate tokens (q_authorization q) (k_now k) = Ok who →
   record_of who d (k_id k) (k_audit_id k) (k_now k) ttl = Ok record → k_fault k ≠ no_fault → c = 503).
Proof.
  destruct (do_POST tokens ttl arrived k q db) as [db' [c r]] eqn:E. pose proof E as E0. split_and!.
  - intros Hc. apply post_inv in E as [(-> & -> & _)|(-> & _)]; done.
  - intros ->. apply post_inv in E as [(_ & _ & H)|(_ & Ha & n & Hn & Hb & payload & record & Hp & -> & E)]; [set_solver|].
    apply consume_inv in E as [[_ [? [=]]]|(who & d & rec & Hau & -> & Hv & Hr & [= ->] & _ & _ & ->)].
    eexists _, _, _. split; [reflexivity|]. split_and!; [done|done| |done|].
    + exists who, d, rec. done.
    + exists n. unfold between in Hb. to_prop. split; [done|lia].
  - intros Hq Ha. unfold do_POST in E0. rewrite Hq in E0. simpl in E0. unfold post_body, bind, lift in E0. rewrite Ha in E0. by injection E0.
  - intros Hq Ha n d who record Hn Hb Hch Hbody Hv Hau Hr Hf. unfold do_POST in E0. rewrite Hq in E0. simpl in E0.
    unfold post_body, bind, lift in E0. destruct (authenticate tokens (q_authorization q) arrived); [|done]. rewrite Hn, Hch, Hbody in E0.
    assert (between 1 65536 n = true) as Hb' by (unfold between; rewrite andb_true_iff, !Z.leb_le; lia). rewrite Hb' in E0. simpl in E0.
    rewrite (consume_fault tokens ttl k d _ _ db who record Hau Hv Hr Hf) in E0. by injection E0.
Qed.

(** ** A session and its dispositions *)

Definition ex_tokens : dict :=
  [("tok", VDict [("emitter", VStr "console"); ("analyst", VStr "ana"); ("tenant", VStr "acme"); ("expires_at", VInt 1000);
                  ("disposition_write", VBool true)])].
Definition ex_body (verdict scope claimed : string) : dict :=
  [("finding_id", VStr "f1"); ("entity", VDict [("type", VStr "ip"); ("value", VStr "10.0.0.1")]); ("verdict", VStr verdict);
   ("reason", VStr "scanner"); ("analyst", VStr claimed); ("ts", VStr "2026-01-01T00:00:00Z"); ("scope", VStr scope)].
Definition ex_call (id : string) (now : Z) (fault : db_fault) : call :=
  {| k_id := id; k_audit_id := "a" +:+ id; k_now := VInt now; k_fault := fault |}.
Definition ex_request (auth : string) (body : dict) : request :=
  {| q_path := "/dispositions"; q_authorization := auth; q_length := "300"; q_chunked := false; q_body := Ok (VDict body); q_ip := "192.0.2.1" |}.
Definition ex_post (auth : string) (body : dict) (k : call) : post :=
  {| o_tokens := ex_tokens; o_ttl := VInt 60; o_arrived := k_now k; o_call := k; o_request := ex_request auth body |}.
Example answers :
  ((λ '(auth, body, k), (do_POST ex_tokens (VInt 60) (VInt 10) k (ex_request auth body) empty_db).2.1) <$>
    [("Bearer tok", ex_body "benign" "finding" "x", ex_call "1" 10 no_fault);
     ("Bearer no", ex_body "benign" "finding" "x", ex_call "1" 10 no_fault);
     ("Bearer tok", ex_body "benign" "finding" "x", ex_call "1" 1000 no_fault);
     ("Bearer tok", ex_body "allowlist" "finding" "x", ex_call "1" 10 no_fault);
     ("Bearer tok", ex_body "allowlist" "entity" "x", ex_call "1" 10 audit_fails)])
  = [202; 401; 401; 400; 503].
Proof. vm_compute. reflexivity. Qed.
Lemma claims_are_ignored_witness :
  consume ex_tokens (VInt 60) (ex_call "1" 10 no_fault) (VDict (ex_body "benign" "finding" "eve")) "Bearer tok" "" empty_db =
  consume ex_tokens (VInt 60) (ex_call "1" 10 no_fault) (VDict (ex_body "benign" "tenant" "ana")) "Bearer tok" "" empty_db.
Proof.
  apply claims_are_ignored; [|reflexivity..]. intros k Hk. unfold ex_body. simpl.
  destruct (String.eqb_spec k "analyst"); [set_solver|]. destruct (String.eqb_spec k "scope"); [set_solver|]. reflexivity.
Defined.
Lemma feedback_never_suppresses_witness :
  match feedback (db_after [ex_post "Bearer tok" (ex_body "allowlist" "entity" "x") (ex_call "1" 10 no_fault)]) with
  | [r] => ignore_entry_suppresses (w_record r) "acme" (VDict [("type", VStr "ip"); ("value", VStr "10.0.0.1")]) (VInt 20) = Ok false
  | _ => False
  end.
Proof.
  destruct (feedback (db_after [ex_post "Bearer tok" (ex_body "allowlist" "entity" "x") (ex_call "1" 10 no_fault)])) as [|r [|? ?]] eqn:E;
    [vm_compute in E; discriminate E| |vm_compute in E; discriminate E].
  apply (feedback_never_suppresses [ex_post "Bearer tok" (ex_body "allowlist" "entity" "x") (ex_call "1" 10 no_fault)]).
  rewrite E. left.
Defined.
