(* ===== verification/DispositionQuality.v ===== *)
(** * Measured quality (services/feedback-service: quality.py, the read side of app.py)

    Precision and false-positive rates of detectors, counted over the analyst dispositions
    of a tenant and a window, joined to the findings store.

    [sqrt] is the square root; [query] the findings store's answer to one batch of
    identifiers. *)

From S2P Require Import Prelude Order PyVal PyString OrderedMap PyTime IsoTime CaptureBudget JsonSchema FeedbackRouter.
Set Default Proof Using "Type".

Definition MIN_SAMPLE : Z := 30.

(** ** Requests *)

Definition parse_aware (s : string) : res Z :=
  match aware_instant s with
  | Ok t => check (is_datetime t) OverflowError;; Ok t
  | Raise _ => Raise ValueError
  end.
Definition parse_window (start end_ : string) : res (Z * Z) :=
  a ← parse_aware start; b ← parse_aware end_;
  check (a <? b) ValueError;; Ok (a, b).
Definition authenticate (tokens : dict) (authorization : string) (now : val) : res string :=
  match default VNone (token ← bearer authorization; dget token tokens) with
  | VDict session =>
      check (session_text "tenant" session && is_true (dgetN "quality_read" session)) PermissionError;;
      fresh ← unexpired session now;
      check fresh PermissionError;;
      Ok (text_of "tenant" session)
  | _ => Raise PermissionError
  end.

(** ** Rates *)

(** The findings store's answer to one batch of a tenant's findings. *)
Abbreviation finder := (string → list string → res (list (string * string))).

Section quality.
Context (sqrt : float → float).

Definition z95 : float := lit "1.959963984540054".
Definition one : float := lit "1".
(** [max(0, x)] and [min(1, x)]. *)
Definition at_least_0 (x : float) : val := if SFltb (S754_zero false) x then VFloat x else VInt 0.
Definition at_most_1 (x : float) : val := if SFltb x one then VFloat x else VInt 1.
Definition rate (numerator denominator : Z) : res val :=
  if denominator =? 0 then
    Ok (VDict [("numerator", VInt numerator); ("denominator", VInt 0); ("value", VNone); ("confidence_interval", VNone);
               ("low_confidence", VBool true)])
  else
    n ← float_of_Z denominator; n2 ← float_of_Z (2 * denominator); n4 ← float_of_Z (4 * (denominator * denominator));
    let p := ratio numerator denominator in
    let zz := fmul z95 z95 in
    let scale := fadd one (fdiv zz n) in
    let center := fdiv (fadd p (fdiv zz n2)) scale in
    let half := fdiv (fmul z95 (sqrt (fadd (fdiv (fmul p (fsub one p)) n) (fdiv zz n4)))) scale in
    Ok (VDict [("numerator", VInt numerator); ("denominator", VInt denominator); ("value", VFloat p);
               ("confidence_interval", VDict [("lower", at_least_0 (fsub center half)); ("upper", at_most_1 (fadd center half))]);
               ("low_confidence", VBool (denominator <? MIN_SAMPLE))]).

(** ** The findings store *)

(** [ids[offset:offset + 1000]] for every offset. *)
Fixpoint batches (fuel n : nat) (ids : list string) : list (list string) :=
  match fuel, ids with
  | S fuel, _ :: _ => take n ids :: batches fuel n (drop n ids)
  | _, _ => []
  end.
Definition put_rows (out rows : list (string * string)) : list (string * string) :=
  foldl (λ m kv, if str_truthy kv.2 then od_set kv.1 kv.2 m else m) out rows.
Definition detectors (query : finder) (tenant : string) (finding_ids : list string) : res (list (string * string)) :=
  let ids := isort id (dedup_onto [] finding_ids) in
  foldl (λ acc batch, out ← acc; rows ← query tenant batch; Ok (put_rows out rows)) (Ok []) (batches (length ids) 1000 ids).

(** ** The report *)

Record counts := { n_true_positive : Z; n_false_positive : Z; n_benign : Z }.
Definition no_counts : counts := {| n_true_positive := 0; n_false_positive := 0; n_benign := 0 |}.
Definition bump (verdict : string) (c : counts) : res counts :=
  if String.eqb verdict "true_positive" then Ok {| n_true_positive := n_true_positive c + 1; n_false_positive := n_false_positive c; n_benign := n_benign c |}
  else if String.eqb verdict "false_positive" then Ok {| n_true_positive := n_true_positive c; n_false_positive := n_false_positive c + 1; n_benign := n_benign c |}
  else if String.eqb verdict "benign" then Ok {| n_true_positive := n_true_positive c; n_false_positive := n_false_positive c; n_benign := n_benign c + 1 |}
  else Raise KeyError.
Definition total_of (c : counts) : Z := n_true_positive c + n_false_positive c + n_benign c.
Record detector_row := { q_detector : string; q_counts : counts; q_precision : val; q_fp_rate : val }.
Record quality_report := {
  p_tenant : string; p_window : Z * Z; p_total : Z; p_unattributed : Z; p_detectors : list detector_row; p_allowlist_rate : val
}.

Definition in_window (start end_ : Z) (record : dict) : res bool :=
  ts ← dindex "source_ts" record;
  match ts with
  | VStr s => t ← aware_instant s; Ok ((start <=? t) && (t <? end_))
  | _ => Raise AttributeError
  end.
Fixpoint select (p : dict → res bool) (l : list dict) : res (list dict) :=
  match l with
  | [] => Ok []
  | d :: l => b ← p d; rest ← select p l; Ok (if b : bool then d :: rest else rest)
  end.
Definition is_linked (record : dict) : res bool := v ← dindex "verdict" record; Ok (negb (val_eq_str v "allowlist")).
Definition finding_of (record : dict) : res string :=
  match dget "finding_id" record with Some (VStr s) => Ok s | Some _ => Raise TypeError | None => Raise KeyError end.
(** One linked record: its detector's counter, or one more unresolved. *)
Definition tally (mapping : list (string * string)) (acc : list (string * counts) * Z) (record : dict) :
    res (list (string * counts) * Z) :=
  fid ← finding_of record;
  match od_get fid mapping with
  | Some detector =>
      if str_truthy detector then
        c ← bump (text_of "verdict" record) (default no_counts (od_get detector acc.1));
        Ok (od_set detector c acc.1, acc.2)
      else Ok (acc.1, acc.2 + 1)
  | None => Ok (acc.1, acc.2 + 1)
  end.
Definition tally_all (mapping : list (string * string)) (records : list dict) : res (list (string * counts) * Z) :=
  foldl (λ acc record, a ← acc; tally mapping a record) (Ok ([], 0)) records.
Definition describe (kv : string * counts) : res detector_row :=
  let c := kv.2 in
  precision ← rate (n_true_positive c) (total_of c);
  fp ← rate (n_false_positive c + n_benign c) (total_of c);
  Ok {| q_detector := kv.1; q_counts := c; q_precision := precision; q_fp_rate := fp |}.
Definition of_tenant (tenant : string) (rows : list row) : list dict :=
  w_record <$> List.filter (λ r, String.eqb (w_tenant r) tenant) rows.
(** [findings.detectors(...) if linked else {}], refused without a findings store. *)
Definition join_findings (findings : option finder) (tenant : string) (linked : list dict) : res (list (string * string)) :=
  match linked, findings with
  | [], _ => Ok []
  | _, None => Raise OtherError
  | _, Some query => ids ← mapM finding_of linked; detectors query tenant ids
  end.
Definition report (rows : list row) (findings : option finder) (tenant : string) (start end_ : Z) : res quality_report :=
  records ← select (in_window start end_) (of_tenant tenant rows);
  linked ← select is_linked records;
  mapping ← join_findings findings tenant linked;
  tallied ← tally_all mapping linked;
  rows ← mapM describe (isort fst tallied.1);
  allowed ← rate (Z.of_nat (length records) - Z.of_nat (length linked)) (Z.of_nat (length records));
  Ok {| p_tenant := tenant; p_window := (start, end_); p_total := Z.of_nat (length records); p_unattributed := tallied.2;
        p_detectors := rows; p_allowlist_rate := allowed |}.

(** ** GET /quality (app.py) *)

Inductive answer := healthy | not_found | unauthorized | bad_request | unavailable | crashed (e : exn) | quality (r : quality_report).
(** [params] is the parsed query string. *)
Definition read_params (params : list (string * list string)) : res (Z * Z) :=
  match od_get "from" params, od_get "to" params with
  | Some [from], Some [to] => check (length params =? 2)%nat ValueError;; parse_window from to
  | _, _ => Raise ValueError
  end.
Definition do_GET (tokens : dict) (rows : list row) (findings : option finder) (path authorization : string)
    (params : list (string * list string)) (now : val) : answer :=
  if String.eqb path "/healthz" then healthy
  else if negb (String.eqb path "/quality") then not_found
  else
    match (tenant ← authenticate tokens authorization now; window ← read_params params; Ok (tenant, window)) with
    | Ok (tenant, (start, end_)) =>
        match report rows findings tenant start end_ with Ok r => quality r | Raise _ => unavailable end
    | Raise PermissionError => unauthorized
    | Raise ValueError => bad_request
    | Raise e => crashed e
    end.
End quality.

(** ** Batches *)

Lemma batches_spec fuel n ids :
  (length ids <= fuel)%nat → (0 < n)%nat →
  concat (batches fuel n ids) = ids ∧ Forall (λ b, (length b <= n)%nat) (batches fuel n ids).
Proof.
  revert ids. induction fuel as [|fuel IH]; intros [|x ids] Hl Hn; simpl in *; try (by split; [|constructor]); try lia.
  destruct (IH (drop n (x :: ids))) as [H1 H2]; [rewrite length_drop; simpl; lia|done|]. split.
  - rewrite H1. apply (take_drop n (x :: ids)).
  - constructor; [rewrite length_take; lia|done].
Qed.

(** What the store knows: a detector of each finding, in rows of any order. *)
Definition knows (query : finder) (tenant : string) (f : string → option string) : Prop :=
  ∀ ids, NoDup ids → (length ids <= 1000)%nat →
    ∃ rows, query tenant ids = Ok rows ∧ rows ≡ₚ omap (λ fid, pair fid <$> f fid) ids.
Definition resolved (f : string → option string) (fid : string) : option string :=
  d ← f fid; if str_truthy d then Some d else None.

Lemma put_rows_get rows out k :
  NoDup rows.*1 →
  od_get k (put_rows out rows) =
  match list_find (λ kv, kv.1 = k ∧ str_truthy kv.2 = true) rows with Some (_, kv) => Some kv.2 | None => od_get k out end.
Proof.
  unfold put_rows. revert out. induction rows as [|[k' v] rows IH]; intros out Hn; [done|].
  rewrite fmap_cons in Hn. apply NoDup_cons in Hn as [Hk Hn]. cbn [foldl]. rewrite IH by done. cbn [list_find].
  case_decide as E; simpl in E.
  - destruct E as [-> Et]. simpl. rewrite Et, od_get_set_eq. destruct (list_find _ rows) as [[i kv]|] eqn:El; [|done].
    apply list_find_Some in El as (Hi & [<- _] & _). destruct Hk. apply list_elem_of_fmap. exists kv. split; [done|].
    by apply list_elem_of_lookup_2 in Hi.
  - destruct (list_find _ rows) as [[i kv]|]; [done|]. simpl. destruct (str_truthy v) eqn:Et; [|done].
    apply od_get_set_ne. intros ->. by apply E.
Qed.
Lemma omap_keys (f : string → option string) (ids : list string) : (omap (λ fid, pair fid <$> f fid) ids).*1 `sublist_of` ids.
Proof. induction ids as [|x ids IH]; simpl; [constructor|]. destruct (f x); simpl; by constructor. Qed.
Lemma omap_pairs (f : string → option string) (ids : list string) k v : (k, v) ∈ omap (λ fid, pair fid <$> f fid) ids ↔ k ∈ ids ∧ f k = Some v.
Proof.
  rewrite list_elem_of_omap. split.
  - intros (x & Hx & H). destruct (f x) eqn:E; simpl in H; [|done]. injection H as <- <-. done.
  - intros [H1 H2]. exists k. by rewrite H2.
Qed.
Lemma put_batch f rows ids out k :
  NoDup ids → rows ≡ₚ omap (λ fid, pair fid <$> f fid) ids →
  od_get k (put_rows out rows) = if decide (k ∈ ids) then match resolved f k with Some d => Some d | None => od_get k out end else od_get k out.
Proof.
  intros Hn Hp. assert (Hnd : NoDup rows.*1) by (rewrite Hp; eapply sublist_NoDup; [exact Hn|apply omap_keys]).
  rewrite put_rows_get by done. destruct (list_find _ rows) as [[i kv]|] eqn:E.
  - apply list_find_Some in E as (Hi & [<- Ht] & _). apply list_elem_of_lookup_2 in Hi. rewrite Hp in Hi. destruct kv as [x v].
    apply omap_pairs in Hi as [Hin Hf]. simpl in *. rewrite decide_True by done. unfold resolved. rewrite Hf. simpl. by rewrite Ht.
  - case_decide as Hk; [|done]. unfold resolved. destruct (f k) as [v|] eqn:Ef; simpl; [|done]. destruct (str_truthy v) eqn:Et; [|done].
    exfalso. apply list_find_None in E. rewrite Forall_forall in E. apply (E (k, v)); [|done]. rewrite Hp. by apply omap_pairs.
Qed.
Lemma detectors_spec query tenant f ids :
  knows query tenant f →
  ∃ m, detectors query tenant ids = Ok m ∧ ∀ fid, od_get fid m = if decide (fid ∈ ids) then resolved f fid else None.
Proof.
  intros Hq. unfold detectors. set (sorted := isort id (dedup_onto [] ids)).
  assert (Hnd : NoDup sorted) by (unfold sorted; rewrite isort_perm; apply NoDup_dedup_onto; constructor).
  assert (Hin : ∀ fid, fid ∈ sorted ↔ fid ∈ ids).
  { intros fid. unfold sorted. rewrite elem_of_isort, elem_of_dedup_onto. split; [intros [H|]; [by apply elem_of_nil in H|done]|by right]. }
  destruct (batches_spec (length sorted) 1000 sorted) as [Hc Hl]; [lia|lia|]. revert Hc Hl.
  generalize (batches (length sorted) 1000 sorted). intros bs Hc Hl.
  cut (∀ out, (∀ fid, fid ∈ concat bs → od_get fid out = None) →
    ∃ m, foldl (λ acc batch, out ← acc; rows ← query tenant batch; Ok (put_rows out rows)) (Ok out) bs = Ok m ∧
      ∀ fid, od_get fid m = if decide (fid ∈ concat bs) then resolved f fid else od_get fid out).
  { intros H. destruct (H []) as (m & Hm & Hg); [done|]. exists m. split; [done|]. intros fid. rewrite Hg, Hc. specialize (Hin fid).
    destruct (decide (fid ∈ sorted)), (decide (fid ∈ ids)); tauto. }
  rewrite <- Hc in Hnd. clear Hc Hin. clearbody sorted. induction bs as [|b bs IH]; intros out Hout; [by exists out|].
  apply Forall_cons in Hl as [Hb Hl]. cbn [concat] in *. apply NoDup_app in Hnd as (Hnb & Hdisj & Hnd).
  destruct (Hq b Hnb Hb) as (rows & Hrows & Hperm). cbn [foldl mbind res_bind]. rewrite Hrows. cbn [mbind res_bind].
  destruct (IH Hnd Hl (put_rows out rows)) as (m & Hm & Hg).
  { intros fid Hfid. rewrite (put_batch f rows b) by done. rewrite decide_False by (intros ?; by apply (Hdisj fid)). apply Hout. apply elem_of_app. by right. }
  exists m. split; [done|]. intros fid. rewrite Hg, (put_batch f rows b) by done.
  destruct (decide (fid ∈ concat bs)) as [Hc|Hc].
  { by rewrite (decide_True (P := fid ∈ b ++ concat bs)) by (apply elem_of_app; by right). }
  destruct (decide (fid ∈ b)) as [Hb'|Hb'].
  - rewrite (decide_True (P := fid ∈ b ++ concat bs)) by (apply elem_of_app; by left).
    rewrite Hout by (apply elem_of_app; by left). by destruct (resolved f fid).
  - by rewrite (decide_False (P := fid ∈ b ++ concat bs)) by (rewrite elem_of_app; tauto).
Qed.

(** ** Counting *)

Definition how_many (p : dict → bool) (l : list dict) : Z := Z.of_nat (length (List.filter p l)).
Lemma how_many_snoc p l d : how_many p (l ++ [d]) = how_many p l + Z.b2z (p d).
Proof. unfold how_many. rewrite List.filter_app, length_app. simpl. destruct (p d); simpl; lia. Qed.
Lemma how_many_nonneg p l : 0 <= how_many p l.
Proof. unfold how_many. lia. Qed.
Lemma how_many_split p q l : how_many q l = how_many (λ d, q d && p d) l + how_many (λ d, q d && negb (p d)) l.
Proof. induction l as [|d l IH] using rev_ind; [done|]. rewrite !how_many_snoc, IH. destruct (p d), (q d); simpl; lia. Qed.

Section counting.
Context (f : string → option string).
(** A record whose finding belongs to the detector, with the verdict. *)
Definition votes (detector verdict : string) (d : dict) : bool :=
  bool_decide (resolved f (text_of "finding_id" d) = Some detector) && String.eqb (text_of "verdict" d) verdict.
Definition counts_for (detector : string) (l : list dict) : counts :=
  {| n_true_positive := how_many (votes detector "true_positive") l;
     n_false_positive := how_many (votes detector "false_positive") l;
     n_benign := how_many (votes detector "benign") l |}.
Definition unattributed (d : dict) : bool := bool_decide (resolved f (text_of "finding_id" d) = None).

(** A record a report can count. *)
Definition countable (d : dict) : Prop :=
  finding_of d = Ok (text_of "finding_id" d) ∧ text_of "verdict" d ∈ ["true_positive"; "false_positive"; "benign"].
Lemma bump_spec v c :
  v ∈ ["true_positive"; "false_positive"; "benign"] →
  bump v c = Ok {| n_true_positive := n_true_positive c + Z.b2z (String.eqb v "true_positive");
                   n_false_positive := n_false_positive c + Z.b2z (String.eqb v "false_positive");
                   n_benign := n_benign c + Z.b2z (String.eqb v "benign") |}.
Proof.
  intros H. repeat (apply elem_of_cons in H as [->|H]; [unfold bump; simpl; by rewrite ?Z.add_0_r|]). by apply elem_of_nil in H.
Qed.
Lemma counts_for_snoc detector l d :
  counts_for detector (l ++ [d]) =
  if decide (resolved f (text_of "finding_id" d) = Some detector)
  then {| n_true_positive := n_true_positive (counts_for detector l) + Z.b2z (String.eqb (text_of "verdict" d) "true_positive");
          n_false_positive := n_false_positive (counts_for detector l) + Z.b2z (String.eqb (text_of "verdict" d) "false_positive");
          n_benign := n_benign (counts_for detector l) + Z.b2z (String.eqb (text_of "verdict" d) "benign") |}
  else counts_for detector l.
Proof.
  unfold counts_for. rewrite !how_many_snoc. unfold votes. case_decide as E.
  - rewrite !bool_decide_true by done. done.
  - rewrite !bool_decide_false by done. simpl. by rewrite !Z.add_0_r.
Qed.
Lemma total_bumped v c :
  v ∈ ["true_positive"; "false_positive"; "benign"] →
  total_of {| n_true_positive := n_true_positive c + Z.b2z (String.eqb v "true_positive");
              n_false_positive := n_false_positive c + Z.b2z (String.eqb v "false_positive");
              n_benign := n_benign c + Z.b2z (String.eqb v "benign") |} = total_of c + 1.
Proof. intros H. repeat (apply elem_of_cons in H as [->|H]; [unfold total_of; simpl; lia|]). by apply elem_of_nil in H. Qed.
Lemma total_for_nonneg detector l : 0 <= total_of (counts_for detector l).
Proof.
  unfold total_of, counts_for. simpl. pose proof (how_many_nonneg (votes detector "true_positive") l).
  pose proof (how_many_nonneg (votes detector "false_positive") l). pose proof (how_many_nonneg (votes detector "benign") l). lia.
Qed.
Lemma no_counts_for detector l : total_of (counts_for detector l) <= 0 → counts_for detector l = no_counts.
Proof.
  unfold total_of, counts_for, no_counts. simpl. pose proof (how_many_nonneg (votes detector "true_positive") l).
  pose proof (how_many_nonneg (votes detector "false_positive") l). pose proof (how_many_nonneg (votes detector "benign") l).
  intros. f_equal; lia.
Qed.

Definition sum_totals (g : list (string * counts)) : Z := foldr (λ kv n, total_of kv.2 + n) 0 g.
Lemma sum_od_set k c g : sum_totals (od_set k c g) = sum_totals g - total_of (default no_counts (od_get k g)) + total_of c.
Proof.
  induction g as [|[k' c'] g IH]; [simpl; unfold total_of at 2; simpl; lia|]. simpl. case_decide; simpl; [lia|]. rewrite IH. lia.
Qed.
Definition tallied (l : list dict) (g : list (string * counts)) (u : Z) : Prop :=
  od_wf g ∧ u = how_many unattributed l ∧ Z.of_nat (length l) = u + sum_totals g ∧
  ∀ detector, od_get detector g = if decide (0 < total_of (counts_for detector l)) then Some (counts_for detector l) else None.
Lemma tally_spec m l g u d :
  countable d → od_get (text_of "finding_id" d) m = resolved f (text_of "finding_id" d) → tallied l g u →
  ∃ g' u', tally m (g, u) d = Ok (g', u') ∧ tallied (l ++ [d]) g' u'.
Proof.
  intros [Hf Hv] Hm (Hwf & -> & Hsum & Hg). unfold tally. rewrite Hf. cbn [mbind res_bind]. rewrite Hm. unfold tallied.
  destruct (resolved f (text_of "finding_id" d)) as [detector|] eqn:Er.
  - assert (Ht : str_truthy detector = true).
    { unfold resolved in Er. destruct (f _) as [x|]; [|done]. simpl in Er. destruct (str_truthy x) eqn:E; [|done]. by injection Er as <-. }
    assert (Hd : default no_counts (od_get detector g) = counts_for detector l).
    { rewrite Hg. case_decide; [done|]. symmetry. apply no_counts_for. lia. }
    rewrite Ht. cbn [fst snd]. rewrite (bump_spec _ _ Hv). eexists _, _. split; [reflexivity|]. split_and!.
    + by apply od_wf_set.
    + rewrite how_many_snoc. assert (unattributed d = false) as -> by (unfold unattributed; by rewrite Er, bool_decide_false). simpl. lia.
    + rewrite sum_od_set, Hd, (total_bumped _ _ Hv), length_app. simpl. lia.
    + intros δ. rewrite Hd, od_get_set, Hg, counts_for_snoc, Er. destruct (decide (δ = detector)) as [->|Hne].
      * rewrite (decide_True (P := Some detector = Some detector)) by done.
        rewrite decide_True; [done|]. rewrite (total_bumped _ _ Hv). pose proof (total_for_nonneg detector l). lia.
      * by rewrite (decide_False (P := Some detector = Some δ)) by congruence.
  - eexists _, _. split; [reflexivity|]. split_and!; [done| |rewrite length_app; simpl; lia|].
    + rewrite how_many_snoc. assert (unattributed d = true) as -> by (unfold unattributed; by rewrite Er, bool_decide_true). simpl. lia.
    + intros δ. by rewrite Hg, counts_for_snoc, Er, (decide_False (P := None = Some δ)).
Qed.
Lemma tally_all_spec m l :
  Forall (λ d, countable d ∧ od_get (text_of "finding_id" d) m = resolved f (text_of "finding_id" d)) l →
  ∃ g u, tally_all m l = Ok (g, u) ∧ tallied l g u.
Proof.
  induction l as [|d l IH] using rev_ind; intros Hl.
  { exists [], 0. split; [done|]. split_and!; [constructor|done|done|]. intros δ. by rewrite decide_False. }
  apply Forall_app in Hl as [Hl Hd]. rewrite Forall_singleton in Hd. destruct Hd as [Hc Hm]. destruct (IH Hl) as (g & u & E & Ht).
  destruct (tally_spec m l g u d Hc Hm Ht) as (g' & u' & E' & Ht'). exists g', u'. split; [|done].
  unfold tally_all in *. rewrite foldl_app, E. done.
Qed.
End counting.

(** ** The report of the stored dispositions *)

Definition falls_in (start end_ : Z) (d : dict) : bool := match in_window start end_ d with Ok b => b | Raise _ => false end.
Definition linked (d : dict) : bool := negb (String.eqb (text_of "verdict" d) "allowlist").
(** A tenant's dispositions of a window, and those that judge a finding. *)
Definition reviewed (tenant : string) (start end_ : Z) (rows : list row) : list dict :=
  List.filter (falls_in start end_) (of_tenant tenant rows).
Definition judging (tenant : string) (start end_ : Z) (rows : list row) : list dict :=
  List.filter linked (reviewed tenant start end_ rows).

Lemma selection_spec p q l : Forall (λ d, p d = Ok (q d)) l → select p l = Ok (List.filter q l).
Proof. induction 1 as [|d l Hd _ IH]; [done|]. cbn [select]. rewrite Hd, IH. simpl. by destruct (q d). Qed.
Definition readable (d : dict) : Prop :=
  (∃ s t, dget "source_ts" d = Some (VStr s) ∧ aware_instant s = Ok t) ∧
  (∃ v, dget "verdict" d = Some (VStr v) ∧ v ∈ verdicts) ∧
  (text_of "verdict" d ≠ "allowlist" → ∃ s, dget "finding_id" d = Some (VStr s)).
Lemma record_readable who d id audit_id now ttl record :
  valid_disposition d = true → record_of who d id audit_id now ttl = Ok record → readable record.
Proof.
  unfold valid_disposition. rewrite !andb_true_iff. intros H Hr. destruct H as [[[[[[[[[_ _] _] Hv] _] _] _] Ht] _] Hf].
  unfold record_of in Hr. apply bind_ok_inv in Hr as (expires & _ & Hr). destruct (assoc _ SINKS) as [sink|]; [|discriminate].
  injection Hr as <-. apply val_in_strs_true in Hv as (v & Ev & Hv). unfold readable, text_of in *. simpl. rewrite Ev in *. simpl. split_and!.
  - destruct (dgetN "ts" d) as [| | | |s| |]; try discriminate. apply andb_true_iff in Ht as [_ Ht]. unfold valid_timestamp in Ht.
    destruct (aware_instant s) as [t|] eqn:Es; [|discriminate]. by exists s, t.
  - by exists v.
  - intros Hne.
    apply String.eqb_neq in Hne. unfold val_eq_str in Hf. simpl in Hf. rewrite Hne in Hf.
    destruct (dgetN "finding_id" d) as [| | | |s| |]; try discriminate. by exists s.
Qed.
Lemma rows_readable ps r : r ∈ feedback (db_after ps) → readable (w_record r).
Proof.
  intros Hr. destruct (tables_paired ps) as [H _]. apply list_elem_of_lookup in Hr as [i Hi].
  destruct (Forall2_lookup_l _ _ _ _ _ H Hi) as (v & _ & _ & _ & _ & p & _ & who & d & record & _ & _ & Hd & Hrec & -> & _).
  by apply record_readable in Hrec.
Qed.
Lemma readable_window start end_ d : readable d → in_window start end_ d = Ok (falls_in start end_ d).
Proof. intros ((s & t & Hs & Ht) & _). unfold falls_in, in_window, dindex. rewrite Hs. cbn [mbind res_bind]. by rewrite Ht. Qed.
Lemma readable_linked d : readable d → is_linked d = Ok (linked d).
Proof.
  intros (_ & (v & Hv & _) & _). unfold is_linked, linked, dindex, text_of, dgetN, dget_or. rewrite Hv. done.
Qed.
Lemma readable_countable d : readable d → linked d = true → countable d.
Proof.
  unfold linked. rewrite negb_true_iff, String.eqb_neq. intros (_ & (v & Hv & Hin) & Hf) Hl. destruct (Hf Hl) as [s Hs]. split.
  - unfold finding_of, text_of, dgetN, dget_or. by rewrite Hs.
  - unfold text_of, dgetN, dget_or in *. rewrite Hv in *. simpl in *. unfold verdicts in Hin. set_solver.
Qed.
Lemma mapM_ok {A B} (g : A → res B) (h : A → B) l : Forall (λ x, g x = Ok (h x)) l → mapM g l = Ok (h <$> l).
Proof. induction 1 as [|x l Hx _ IH]; [done|]. cbn [mapM]. rewrite Hx. cbn [mbind res_bind]. rewrite IH. done. Qed.

Section report.
Context (sqrt : float → float) (query : finder) (tenant : string) (f : string → option string) (start end_ : Z).

Lemma reviewed_readable ps d : d ∈ of_tenant tenant (feedback (db_after ps)) → readable d.
Proof.
  unfold of_tenant. intros (r & -> & Hr)%list_elem_of_fmap. apply list_elem_of_In, filter_In in Hr as [Hr _].
  apply (rows_readable ps). by apply list_elem_of_In.
Qed.
Lemma elem_of_list_filter (p : dict → bool) l d : d ∈ List.filter p l ↔ d ∈ l ∧ p d = true.
Proof. rewrite !list_elem_of_In. apply filter_In. Qed.
Lemma describe_spec (kv : string * counts) :
  is_ok (rate sqrt (n_true_positive kv.2) (total_of kv.2)) = true →
  is_ok (rate sqrt (n_false_positive kv.2 + n_benign kv.2) (total_of kv.2)) = true →
  ∃ r, describe sqrt kv = Ok r ∧ q_detector r = kv.1 ∧ q_counts r = kv.2 ∧
    rate sqrt (n_true_positive kv.2) (total_of kv.2) = Ok (q_precision r) ∧
    rate sqrt (n_false_positive kv.2 + n_benign kv.2) (total_of kv.2) = Ok (q_fp_rate r).
Proof.
  unfold describe. destruct (rate _ _ _) as [a|] eqn:Ea; [|done]. destruct (rate sqrt (_ + _) _) as [b|] eqn:Eb; [|done].
  intros _ _. cbn [mbind res_bind]. eexists. split; [reflexivity|]. done.
Qed.
Lemma describe_all (g : list (string * counts)) :
  Forall (λ kv, is_ok (rate sqrt (n_true_positive kv.2) (total_of kv.2)) = true ∧
                is_ok (rate sqrt (n_false_positive kv.2 + n_benign kv.2) (total_of kv.2)) = true) g →
  ∃ rs, mapM (describe sqrt) g = Ok rs ∧
    Forall2 (λ kv r, q_detector r = kv.1 ∧ q_counts r = kv.2 ∧ rate sqrt (n_true_positive kv.2) (total_of kv.2) = Ok (q_precision r) ∧
      rate sqrt (n_false_positive kv.2 + n_benign kv.2) (total_of kv.2) = Ok (q_fp_rate r)) g rs.
Proof.
  induction 1 as [|kv g [H1 H2] _ IH]; [exists []; split; [done|constructor]|].
  destruct (describe_spec kv H1 H2) as (r & Hr & H). destruct IH as (rs & Hrs & IH). exists (r :: rs).
  cbn [mapM]. rewrite Hr. cbn [mbind res_bind]. rewrite Hrs. split; [done|by constructor].
Qed.
Lemma detector_names (g : list (string * counts)) rs (R : string * counts → detector_row → Prop) :
  (∀ kv r, R kv r → q_detector r = kv.1) → Forall2 R g rs → q_detector <$> rs = g.*1.
Proof. intros HR. induction 1 as [|kv r g rs H _ IH]; [done|]. rewrite !fmap_cons, IH. f_equal. by apply HR. Qed.

Lemma join_spec judged :
  knows query tenant f → Forall countable judged →
  ∃ m, join_findings (Some query) tenant judged = Ok m ∧
    ∀ d, d ∈ judged → od_get (text_of "finding_id" d) m = resolved f (text_of "finding_id" d).
Proof.
  intros Hq Hjc. destruct (detectors_spec query tenant f (text_of "finding_id" <$> judged) Hq) as (m & Hm & Hg).
  assert (Hids : mapM finding_of judged = Ok (text_of "finding_id" <$> judged)).
  { apply mapM_ok. eapply Forall_impl; [exact Hjc|by intros d [H _]]. }
  destruct judged as [|d0 l0] eqn:Ej; [exists []; split; [done|by intros d ?%elem_of_nil]|]. rewrite <- Ej in *. exists m. split.
  - unfold join_findings. rewrite Ej, <- Ej, Hids. exact Hm.
  - intros d Hd. rewrite Hg, decide_True; [done|]. by apply list_elem_of_fmap_2.
Qed.

Lemma sum_totals_ge (g : list (string * counts)) :
  (∀ kv, kv ∈ g → 0 < total_of kv.2) → 0 <= sum_totals g ∧ ∀ kv, kv ∈ g → total_of kv.2 <= sum_totals g.
Proof.
  induction g as [|kv0 g IH]; intros Hp; simpl; [split; [lia|by intros ? ?%elem_of_nil]|].
  destruct IH as [H1 H2]; [intros; apply Hp; by right|]. pose proof (Hp kv0 ltac:(left)). split; [lia|].
  intros kv [->|Hkv]%elem_of_cons; [lia|]. specialize (H2 kv Hkv). lia.
Qed.
Lemma sum_totals_perm (g g' : list (string * counts)) : g ≡ₚ g' → sum_totals g = sum_totals g'.
Proof. induction 1; simpl; lia. Qed.
(** The rows made of a tally. *)
Lemma described_rows judged g u :
  tallied f judged g u →
  (∀ n d, 0 <= n <= d → d <= Z.of_nat (length judged) → is_ok (rate sqrt n d) = true) →
  ∃ rs, mapM (describe sqrt) (isort fst g) = Ok rs ∧ q_detector <$> rs = (isort fst g).*1 ∧
    Forall (λ row, q_counts row = counts_for f (q_detector row) judged ∧ 0 < total_of (q_counts row) ∧
       rate sqrt (n_true_positive (q_counts row)) (total_of (q_counts row)) = Ok (q_precision row) ∧
       rate sqrt (n_false_positive (q_counts row) + n_benign (q_counts row)) (total_of (q_counts row)) = Ok (q_fp_rate row)) rs ∧
    foldr (λ row n, total_of (q_counts row) + n) 0 rs = sum_totals g.
Proof.
  intros (Hwf & Hu & Hsum & Hget) Hrate.
  assert (Hentry : ∀ kv, kv ∈ g → kv.2 = counts_for f kv.1 judged ∧ 0 < total_of kv.2).
  { intros [δ c] Hkv. apply (od_wf_get _ _ _ Hwf) in Hkv. rewrite Hget in Hkv. case_decide; [|done]. by injection Hkv as <-. }
  destruct (sum_totals_ge g) as [_ Hle]; [intros; by apply Hentry|].
  destruct (describe_all (isort fst g)) as (rs & Hrs & HF).
  { apply Forall_forall. intros kv Hkv. rewrite elem_of_isort in Hkv. specialize (Hle kv Hkv). destruct (Hentry kv Hkv) as [Hc Hp].
    pose proof (how_many_nonneg (unattributed f) judged).
    assert (Ht : total_of kv.2 <= Z.of_nat (length judged)) by lia.
    rewrite Hc in *. unfold total_of, counts_for in *. simpl in *.
    pose proof (how_many_nonneg (votes f kv.1 "true_positive") judged). pose proof (how_many_nonneg (votes f kv.1 "false_positive") judged).
    pose proof (how_many_nonneg (votes f kv.1 "benign") judged). split; apply Hrate; lia. }
  exists rs. split; [done|]. split; [eapply detector_names; [|exact HF]; naive_solver|]. split.
  - apply Forall_forall. intros row [i Hi]%list_elem_of_lookup. destruct (Forall2_lookup_r _ _ _ _ _ HF Hi) as (kv & Hkv & E1 & E2 & E3 & E4).
    apply list_elem_of_lookup_2 in Hkv. rewrite elem_of_isort in Hkv. destruct (Hentry kv Hkv) as [Hc Hp]. by rewrite E1, E2.
  - rewrite <- (sum_totals_perm _ _ (isort_perm fst g)). clear -HF. induction HF as [|kv r gs rs' (E1 & E2 & _) _ IH]; [done|]. simpl. by rewrite E2, IH.
Qed.
Lemma tallied_names judged g u δ :
  tallied f judged g u → Forall countable judged →
  δ ∈ g.*1 ↔ ∃ d, d ∈ judged ∧ resolved f (text_of "finding_id" d) = Some δ.
Proof.
  intros (Hwf & _ & _ & Hget) Hjc. rewrite Forall_forall in Hjc. split.
  - intros ([δ' c] & -> & Hkv)%list_elem_of_fmap. apply (od_wf_get _ _ _ Hwf) in Hkv. rewrite Hget in Hkv. simpl in *. case_decide as E; [|done].
    assert (Hv : ∃ v, 0 < how_many (votes f δ' v) judged).
    { unfold total_of, counts_for in E. simpl in E. destruct (Z.lt_decidable 0 (how_many (votes f δ' "true_positive") judged)) as [|H1]; [eauto|].
      destruct (Z.lt_decidable 0 (how_many (votes f δ' "false_positive") judged)) as [|H2]; [eauto|]. exists "benign". lia. }
    destruct Hv as [v Hv]. unfold how_many in Hv. destruct (List.filter (votes f δ' v) judged) as [|d l] eqn:El; [simpl in Hv; lia|].
    exists d. assert (Hd : d ∈ List.filter (votes f δ' v) judged) by (rewrite El; left).
    apply elem_of_list_filter in Hd as [Hd Hb]. split; [done|]. unfold votes in Hb. apply andb_true_iff in Hb as [Hb _]. by apply bool_decide_eq_true in Hb.
  - intros (d & Hd & Hr). destruct (decide (0 < total_of (counts_for f δ judged))) as [E|E].
    + apply list_elem_of_fmap. exists (δ, counts_for f δ judged). split; [done|]. apply od_get_elem. rewrite Hget. by rewrite decide_True.
    + exfalso. apply E. destruct (Hjc d Hd) as [_ Hv]. apply list_elem_of_split in Hd as (l1 & l2 & ->).
      assert (Hc : 0 < how_many (votes f δ (text_of "verdict" d)) (l1 ++ d :: l2)).
      { unfold how_many. rewrite List.filter_app, length_app. simpl. unfold votes at 2. rewrite bool_decide_true, String.eqb_refl by done. simpl. lia. }
      unfold total_of, counts_for. simpl. pose proof (how_many_nonneg (votes f δ "true_positive") (l1 ++ d :: l2)).
      pose proof (how_many_nonneg (votes f δ "false_positive") (l1 ++ d :: l2)). pose proof (how_many_nonneg (votes f δ "benign") (l1 ++ d :: l2)).
      repeat (apply elem_of_cons in Hv as [Hv|Hv]; [rewrite Hv in Hc; lia|]). by apply elem_of_nil in Hv.
Qed.

(** What a report of the rows must be: totals, detectors, counts, rates. *)
Definition counts_exactly (rows : list row) (r : quality_report) : Prop :=
  let all := reviewed tenant start end_ rows in let judged := judging tenant start end_ rows in
  p_total r = Z.of_nat (length all) ∧ p_unattributed r = how_many (unattributed f) judged ∧
  (∀ δ, δ ∈ q_detector <$> p_detectors r ↔ ∃ d, d ∈ judged ∧ resolved f (text_of "finding_id" d) = Some δ) ∧
  NoDup (q_detector <$> p_detectors r) ∧ StronglySorted (λ a b, leb a b = true) (q_detector <$> p_detectors r) ∧
  Forall (λ row, q_counts row = counts_for f (q_detector row) judged ∧ 0 < total_of (q_counts row) ∧
     rate sqrt (n_true_positive (q_counts row)) (total_of (q_counts row)) = Ok (q_precision row) ∧
     rate sqrt (n_false_positive (q_counts row) + n_benign (q_counts row)) (total_of (q_counts row)) = Ok (q_fp_rate row)) (p_detectors r) ∧
  p_total r = how_many (λ d, negb (linked d)) all + p_unattributed r
              + foldr (λ row n, total_of (q_counts row) + n) 0 (p_detectors r).
Lemma report_counts ps :
  let rows := feedback (db_after ps) in
  knows query tenant f →
  (∀ n d, 0 <= n <= d → d <= Z.of_nat (length rows) → is_ok (rate sqrt n d) = true) →
  ∃ r, report sqrt rows (Some query) tenant start end_ = Ok r ∧ counts_exactly rows r.
Proof.
  cbv zeta. intros Hq Hrate. set (rows := feedback (db_after ps)) in *. set (all := reviewed tenant start end_ rows).
  set (judged := judging tenant start end_ rows).
  assert (Hread : ∀ d, d ∈ of_tenant tenant rows → readable d) by apply reviewed_readable.
  assert (Hall : ∀ d, d ∈ all → readable d) by (intros d [Hd _]%elem_of_list_filter; by apply Hread).
  assert (Hjc : Forall countable judged).
  { apply Forall_forall. intros d [Hd Hl]%elem_of_list_filter. apply readable_countable; [by apply Hall|done]. }
  assert (Hlen : (length judged <= length all <= length rows)%nat).
  { unfold judged, judging. fold all. split; [apply filter_length_le|]. unfold all, reviewed. etrans; [apply filter_length_le|].
    unfold of_tenant. rewrite length_fmap. apply filter_length_le. }
  unfold report. rewrite (selection_spec _ (falls_in start end_)) by (apply Forall_forall; intros d Hd; by apply readable_window, Hread).
  cbn [mbind res_bind]. fold (reviewed tenant start end_ rows). fold all.
  rewrite (selection_spec _ linked) by (apply Forall_forall; intros d Hd; by apply readable_linked, Hall). cbn [mbind res_bind].
  change (List.filter linked all) with judged.
  destruct (join_spec judged Hq Hjc) as (m & Hm & Hg). rewrite Hm. cbn [mbind res_bind].
  destruct (tally_all_spec f m judged) as (g & u & Ht & Htal).
  { rewrite Forall_forall in Hjc. apply Forall_forall. intros d Hd. split; [by apply Hjc|by apply Hg]. }
  rewrite Ht. cbn [mbind res_bind fst snd].
  destruct (described_rows judged g u Htal) as (rs & Hrs & Hnames & Hrows & Htot); [intros; apply Hrate; lia|].
  rewrite Hrs. cbn [mbind res_bind].
  destruct (rate sqrt (Z.of_nat (length all) - Z.of_nat (length judged)) (Z.of_nat (length all))) as [allowed|e] eqn:Ea; cycle 1.
  { specialize (Hrate (Z.of_nat (length all) - Z.of_nat (length judged)) (Z.of_nat (length all)) ltac:(lia) ltac:(lia)). by rewrite Ea in Hrate. }
  cbn [mbind res_bind]. eexists. split; [reflexivity|]. unfold counts_exactly. fold all judged. cbn [p_total p_unattributed p_detectors]. rewrite Hnames.
  pose proof Htal as (Hwf & Hu & Hsum & _). split_and!; try done.
  - intros δ. rewrite <- (tallied_names judged g u δ Htal Hjc). by rewrite (fmap_Permutation _ _ _ (isort_perm fst g)).
  - rewrite (fmap_Permutation _ _ _ (isort_perm fst g)). exact Hwf.
  - clear. pose proof (isort_sorted fst g) as H. induction H as [|kv l _ IH HF]; simpl; constructor; [done|].
    rewrite Forall_fmap. eapply Forall_impl; [exact HF|]. done.
  - rewrite Htot. assert (Hs : Z.of_nat (length all) = how_many (λ d, negb (linked d)) all + Z.of_nat (length judged)); [|lia].
    change (Z.of_nat (length judged)) with (how_many linked all). clear. induction all as [|d l IH] using rev_ind; [done|].
    rewrite length_app, !how_many_snoc. simpl. destruct (linked d); simpl; lia.
Qed.
(** The quality report is exactly the count of the stored dispositions.  Over the
    tables any requests built, and a findings store that knows the detectors [f] of its
    findings, the report of a tenant and window returns; its totals are the numbers of the
    tenant's dispositions in the window; its detectors are, in order and once each, those
    some judged finding belongs to, with exactly their verdicts counted and their rates;
    and every disposition is an allowlist suggestion, unattributed, or counted for one
    detector. *)
Theorem report_exact ps :
  let rows := feedback (db_after ps) in
  knows query tenant f →
  (∀ n d, 0 <= n <= d → d <= Z.of_nat (length rows) → is_ok (rate sqrt n d) = true) →
  ∃ r, report sqrt rows (Some query) tenant start end_ = Ok r ∧ counts_exactly rows r.
Proof. apply report_counts. Qed.
End report.

(** ** One reviewed finding *)

Definition ex_knows (fid : string) : option string := if String.eqb fid "f1" then Some "dns-detector" else None.
Definition ex_query : finder := λ _ ids, Ok (omap (λ fid, pair fid <$> ex_knows fid) ids).
Definition ex_posts : list post :=
  [ex_post "Bearer tok" (ex_body "benign" "finding" "x") (ex_call "1" 10 no_fault)].
Definition ex_start : Z := 1767139200000000.
Definition ex_end : Z := 1767312000000000.
Lemma ex_query_knows tenant : knows ex_query tenant ex_knows.
Proof. intros ids _ _. eexists. split; [reflexivity|done]. Qed.
Lemma report_exact_witness :
  let rows := feedback (db_after ex_posts) in
  ∃ r, report id rows (Some ex_query) "acme" ex_start ex_end = Ok r ∧ p_total r = 1 ∧ q_detector <$> p_detectors r = ["dns-detector"].
Proof.
  cbv zeta. destruct (report_exact id ex_query "acme" ex_knows ex_start ex_end ex_posts (ex_query_knows "acme")) as (r & Hr & Ht & _).
  - intros n d Hn Hd. change (Z.of_nat (length (feedback (db_after ex_posts)))) with 1 in Hd.
    assert (d = 0 ∧ n = 0 ∨ d = 1 ∧ n = 0 ∨ d = 1 ∧ n = 1) as [[-> ->]|[[-> ->]|[-> ->]]] by lia; vm_compute; reflexivity.
  - exists r. split; [exact Hr|]. split; [rewrite Ht; vm_compute; reflexivity|].
    vm_compute in Hr. injection Hr as <-. reflexivity.
Defined.

Definition ex_get (params : list (string * list string)) : answer :=
  do_GET id [("tok", VDict [("tenant", VStr "acme"); ("expires_at", VInt 1000); ("quality_read", VBool true)])]
    (feedback (db_after ex_posts)) (Some ex_query) "/quality" "Bearer tok" params (VInt 10).
Definition is_quality (a : answer) : bool := match a with quality _ => true | _ => false end.
(** A window that starts before the first representable instant escapes the handler. *)
Example extreme_window_crashes :
  (is_quality <$> [ex_get [("from", ["2026-01-01T00:00:00Z"]); ("to", ["2026-01-02T00:00:00Z"])];
                   ex_get [("from", ["2026-01-01"]); ("to", ["2026-01-02T00:00:00Z"])]]) = [true; false] ∧
  ex_get [("from", ["2026-01-01"]); ("to", ["2026-01-02T00:00:00Z"])] = bad_request ∧
  ex_get [("from", ["0001-01-01T00:00:00+01:00"]); ("to", ["2026-01-02T00:00:00Z"])] = crashed OverflowError.
Proof. vm_compute. split_and!; reflexivity. Qed.
