(* ===== verification/Scoreboard.v ===== *)
(** * The published quality scoreboard (services/detection-registry/scoreboard.py)

    Registry entries joined with the manifests they reference and with measured quality,
    rendered to a file and compared with the committed one.

    [dumps] is the JSON text of the scoreboard, [read_json] the parsed file at a
    reference; a directory is the dictionary of its files' bytes. *)

From S2P Require Import Prelude Order PyVal PyString OrderedMap JsonSchema DetectionRegistry FeedbackRouter DispositionQuality.
Set Default Proof Using "Type".

Definition SCOREBOARD_NAME : string := "detection-quality-scoreboard.json".

(** ** The registry and its manifests *)

(** Files in the order of their names. *)
Fixpoint create_all (fs : file_system) (files : list (string * res val)) : M registry unit :=
  match files with
  | [] => ret tt
  | (_, doc) :: files => let* d := lift doc in create fs d;* create_all fs files
  end.
Definition load_registry (fs : file_system) (files : list (string * res val)) : res (list dict) :=
  match create_all fs (isort fst files) [] with (g, Ok _) => Ok (list_entries g) | (_, Raise e) => Raise e end.

Section board.
Context (read_json : string → res dict) (dumps : list dict → string).

Definition manifests_by_ref (entries : list dict) : res (list (string * dict)) :=
  mapM (λ ref, m ← read_json ref; Ok (ref, m)) (isort id (dedup_onto [] (text_of "manifest_ref" <$> entries))).

(** ** The scoreboard *)

Definition INSUFFICIENT : dict := [("measured", VBool false); ("reason", VStr "insufficient dispositions")].
Definition _measured_block (d : detector_row) : dict :=
  [("measured", VBool true); ("precision", q_precision d); ("fp_rate", q_fp_rate d)].
(** [{d["detector_id"]: d for d in ...}] *)
Definition measured (report : quality_report) : list (string * detector_row) :=
  foldl (λ m d, od_set (q_detector d) d m) [] (p_detectors report).
Definition texts_of (v : val) : res (list string) :=
  match v with
  | VList l => mapM (λ x, match x with VStr s => Ok s | _ => Raise TypeError end) l
  | _ => Raise TypeError
  end.
Definition board_row (manifests : list (string * dict)) (by_detector : list (string * detector_row)) (e : dict) : res dict :=
  m ← match od_get (text_of "manifest_ref" e) manifests with Some m => Ok m | None => Raise KeyError end;
  detector_id ← dindex "detector_id" m;
  status ← dindex "status" m;
  techniques ← dindex "attack_techniques" m;
  techniques ← texts_of techniques;
  let block := match detector_id with VStr d => match od_get d by_detector with Some r => _measured_block r | None => INSUFFICIENT end
               | _ => INSUFFICIENT end in
  Ok [("detection_id", VStr (text_of "detection_id" e)); ("source", dgetN "source" e); ("detector_id", detector_id);
      ("status", status); ("attack_techniques", VList (VStr <$> isort id techniques)); ("quality", VDict block)].
Definition build_scoreboard (entries : list dict) (manifests : list (string * dict)) (report : quality_report) : res (list dict) :=
  mapM (board_row manifests (measured report)) (isort (text_of "detection_id") entries).

(** ** Rendering and drift *)

Abbreviation directory := (list (string * string)).
Definition render (fs : file_system) (files : list (string * res val)) (report : quality_report) : res directory :=
  entries ← load_registry fs files;
  manifests ← manifests_by_ref entries;
  rows ← build_scoreboard entries manifests report;
  Ok [(SCOREBOARD_NAME, dumps rows)].
Definition write (out_dir rendered : directory) : directory := foldl (λ m kv, od_set kv.1 kv.2 m) out_dir rendered.

(** Names of one side only, then names whose bytes differ. *)
Definition drift (sibling : list string) (committed fresh : directory) : list string :=
  let committed_names := List.filter (λ n, negb (mem n sibling)) (od_keys committed) in
  let fresh_names := od_keys fresh in
  isort id (dedup_onto []
    (List.filter (λ n, negb (mem n committed_names)) fresh_names ++ List.filter (λ n, negb (mem n fresh_names)) committed_names ++
     List.filter (λ n, mem n committed_names && negb (bool_decide (od_get n committed = od_get n fresh))) fresh_names)).
Definition check_drift (fs : file_system) (files : list (string * res val)) (sibling : list string) (generated_dir : directory)
    (report : quality_report) : res (list string) :=
  rendered ← render fs files report;
  Ok (drift sibling generated_dir (write [] rendered)).
End board.

(** ** Facts *)

Lemma isort_nil {A K} `{TotalCmp K} (key : A → K) l : isort key l = [] ↔ l = [].
Proof.
  split; [|by intros ->]. intros H0. pose proof (isort_perm key l) as Hp. rewrite H0 in Hp. by apply Permutation_nil in Hp.
Qed.
Lemma drift_nil sibling committed fresh :
  drift sibling committed fresh = [] ↔
  ∀ n, (n ∈ od_keys fresh → n ∉ sibling ∧ od_get n committed = od_get n fresh) ∧ (n ∈ od_keys committed → n ∉ sibling → n ∈ od_keys fresh).
Proof.
  unfold drift. rewrite isort_nil. set (cn := List.filter (λ n, negb (mem n sibling)) (od_keys committed)).
  assert (Hcn : ∀ n, n ∈ cn ↔ n ∈ od_keys committed ∧ n ∉ sibling).
  { intros n. unfold cn. rewrite !list_elem_of_In, filter_In, <- !list_elem_of_In, negb_true_iff, mem_false. done. }
  set (diff := _ ++ _ ++ _).
  assert (Hdiff : ∀ n, n ∈ diff ↔ n ∈ od_keys fresh ∧ n ∉ cn ∨ n ∈ cn ∧ n ∉ od_keys fresh ∨
    n ∈ od_keys fresh ∧ n ∈ cn ∧ od_get n committed ≠ od_get n fresh).
  { intros n. unfold diff. rewrite !elem_of_app, !list_elem_of_In, !filter_In, <- !list_elem_of_In, !negb_true_iff, !mem_false, andb_true_iff,
      negb_true_iff, bool_decide_eq_false, mem_true. tauto. }
  assert (Hnil : dedup_onto [] diff = [] ↔ ∀ n, n ∉ diff).
  { split.
    - intros E n Hn. assert (Hx : n ∈ dedup_onto [] diff) by (apply elem_of_dedup_onto; by right). rewrite E in Hx. by apply elem_of_nil in Hx.
    - intros Hn. destruct (dedup_onto [] diff) as [|x l] eqn:E; [done|]. exfalso.
      assert (Hx : x ∈ dedup_onto [] diff) by (rewrite E; left). apply elem_of_dedup_onto in Hx as [Hx|Hx]; [by apply elem_of_nil in Hx|by apply (Hn x)]. }
  rewrite Hnil. split.
  - intros H n. specialize (H n). rewrite Hdiff, Hcn in H. split.
    + intros Hf. destruct (decide (n ∈ od_keys committed ∧ n ∉ sibling)) as [[H1 H2]|Hc]; [|tauto].
      split; [done|]. destruct (decide (od_get n committed = od_get n fresh)); tauto.
    + destruct (decide (n ∈ od_keys fresh)); tauto.
  - intros H n. specialize (H n) as [H1 H2]. rewrite Hdiff, Hcn. intros [[Hf Hc]|[[[Hc Hs] Hf]|(Hf & _ & Hne)]].
    + destruct (H1 Hf) as [Hs Hg]. apply Hc. split; [|done].
      destruct (od_get n committed) eqn:E; [|symmetry in Hg; by apply od_get_none in Hg]. destruct (decide (n ∈ od_keys committed)) as [|Hn]; [done|].
      apply od_get_none in Hn. congruence.
    + by apply Hf, H2.
    + by destruct (H1 Hf).
Qed.

Section facts.
Context (read_json : string → res dict) (dumps : list dict → string).

Lemma write_get k out rendered :
  od_get k (write out rendered) =
  foldl (λ o kv, if decide (k = kv.1) then Some kv.2 else o) (od_get k out) rendered.
Proof. revert out. induction rendered as [|[k' v] l IH]; intros out; [done|]. simpl. rewrite IH. simpl. by rewrite od_get_set. Qed.
(** The drift gate is exact: it passes precisely when the directory holds the scoreboard
    byte for byte and, the sibling generator's files aside, nothing else; and it always
    passes on what the generator has just written into a directory of the sibling. *)
Theorem drift_gate_exact fs files sibling dir report text :
  render read_json dumps fs files report = Ok [(SCOREBOARD_NAME, text)] →
  (check_drift read_json dumps fs files sibling dir report = Ok [] ↔
   SCOREBOARD_NAME ∉ sibling ∧ od_get SCOREBOARD_NAME dir = Some text ∧
   ∀ n, n ∈ od_keys dir → n ∈ sibling ∨ n = SCOREBOARD_NAME) ∧
  (SCOREBOARD_NAME ∉ sibling → (∀ n, n ∈ od_keys dir → n ∈ sibling ∨ n = SCOREBOARD_NAME) →
   check_drift read_json dumps fs files sibling (write dir [(SCOREBOARD_NAME, text)]) report = Ok []).
Proof.
  intros Hr.
  assert (Hiff : ∀ dir, check_drift read_json dumps fs files sibling dir report = Ok [] ↔
    SCOREBOARD_NAME ∉ sibling ∧ od_get SCOREBOARD_NAME dir = Some text ∧ ∀ n, n ∈ od_keys dir → n ∈ sibling ∨ n = SCOREBOARD_NAME).
  { intros d. unfold check_drift. rewrite Hr. cbn [mbind res_bind]. change (write [] [(SCOREBOARD_NAME, text)]) with [(SCOREBOARD_NAME, text)].
    trans (drift sibling d [(SCOREBOARD_NAME, text)] = []); [split; [by intros [= ->]|by intros ->]|]. rewrite drift_nil.
    change (od_keys [(SCOREBOARD_NAME, text)]) with [SCOREBOARD_NAME]. split.
    - intros H. destruct (H SCOREBOARD_NAME) as [H1 _]. destruct H1 as [Hs Hg]; [left|]. split_and!; [done|exact Hg|].
      intros n Hn. destruct (decide (n ∈ sibling)) as [|Hns]; [by left|]. destruct (H n) as [_ H2]. right. by apply list_elem_of_singleton, H2.
    - intros (Hs & Hg & Hk) n. split.
      + intros ->%list_elem_of_singleton. split; [done|exact Hg].
      + intros Hn Hns. destruct (Hk n Hn) as [Hx| ->]; [done|left]. }
  split; [apply Hiff|]. intros Hs Hk. apply Hiff. split_and!; [done|by rewrite write_get|].
  intros n. simpl. rewrite od_keys_set. case_decide; [apply Hk|]. intros [Hn|Hn%list_elem_of_singleton]%elem_of_app; [by apply Hk|by right].
Qed.

Lemma measured_get k (l : list detector_row) :
  NoDup (q_detector <$> l) →
  match od_get k (foldl (λ m d, od_set (q_detector d) d m) [] l) with
  | Some d => d ∈ l ∧ q_detector d = k
  | None => k ∉ q_detector <$> l
  end.
Proof.
  clear read_json dumps. induction l as [|d l IH] using rev_ind; intros Hn; [by intros ?%elem_of_nil|]. rewrite fmap_app in Hn. apply NoDup_app in Hn as (Hn & _ & _).
  specialize (IH Hn). rewrite foldl_app. simpl. rewrite od_get_set. case_decide as E.
  - split; [apply elem_of_app; right; left|done].
  - destruct (od_get k _) as [d'|]; [split; [apply elem_of_app; left; apply IH|apply IH]|].
    rewrite fmap_app, elem_of_app. simpl. rewrite list_elem_of_singleton. naive_solver.
Qed.
Lemma board_row_inv manifests m e row :
  board_row manifests m e = Ok row →
  ∃ man δ, od_get (text_of "manifest_ref" e) manifests = Some man ∧ dindex "detector_id" man = Ok δ ∧
    dgetN "detection_id" row = VStr (text_of "detection_id" e) ∧ dgetN "detector_id" row = δ ∧ dindex "status" man = Ok (dgetN "status" row) ∧
    dgetN "quality" row = VDict (match δ with VStr d => match od_get d m with Some r => _measured_block r | None => INSUFFICIENT end | _ => INSUFFICIENT end).
Proof.
  unfold board_row. intros H. apply bind_ok_inv in H as (man & Hm & H). destruct (od_get (text_of "manifest_ref" e) manifests) as [man'|]; [|discriminate].
  injection Hm as ->. apply bind_ok_inv in H as (δ & Hδ & H). apply bind_ok_inv in H as (status & Hs & H).
  apply bind_ok_inv in H as (ts & _ & H). apply bind_ok_inv in H as (ts' & _ & H). injection H as <-.
  exists man, δ. split_and!; done.
Qed.
Lemma mapM_rows {A B} (g : A → res B) l l' : mapM g l = Ok l' → Forall2 (λ x y, g x = Ok y) l l'.
Proof.
  revert l'. induction l as [|x l IH]; intros l' H; cbn [mapM] in H.
  - injection H as <-. constructor.
  - apply bind_ok_inv in H as (y & Hy & H). apply bind_ok_inv in H as (ys & Hys & H). injection H as <-. constructor; [done|by apply IH].
Qed.

(** A published number is always backed by dispositions.  The scoreboard made of a
    report that counts the stored dispositions has one row per entry, in the order of
    detection identifiers; a row is measured exactly when some disposition of the window
    judged a finding of the detector its manifest names, and then it shows that
    detector's own rates; every other row says that it is not measured. *)
Theorem scoreboard_honest sqrt tenant f start end_ rows entries manifests r board :
  counts_exactly sqrt tenant f start end_ rows r →
  build_scoreboard entries manifests r = Ok board →
  Forall2 (λ e row,
    ∃ m δ, od_get (text_of "manifest_ref" e) manifests = Some m ∧ dindex "detector_id" m = Ok δ ∧
      dgetN "detection_id" row = VStr (text_of "detection_id" e) ∧ dindex "status" m = Ok (dgetN "status" row) ∧
      let judged := judging tenant start end_ rows in
      ((∃ detector c, δ = VStr detector ∧ c = counts_for f detector judged ∧
          (∃ d, d ∈ judged ∧ resolved f (text_of "finding_id" d) = Some detector) ∧
          ∃ precision fp, rate sqrt (n_true_positive c) (total_of c) = Ok precision ∧
            rate sqrt (n_false_positive c + n_benign c) (total_of c) = Ok fp ∧
            dgetN "quality" row = VDict [("measured", VBool true); ("precision", precision); ("fp_rate", fp)]) ∨
       (¬ ∃ d, d ∈ judged ∧ VStr <$> resolved f (text_of "finding_id" d) = Some δ) ∧ dgetN "quality" row = VDict INSUFFICIENT))
    (isort (text_of "detection_id") entries) board.
Proof.
  intros (_ & _ & Hnames & Hnd & _ & Hrows & _) Hb%mapM_rows. eapply Forall2_impl; [exact Hb|].
  intros e row (m & δ & Hm & Hδ & Hid & _ & Hst & Hq)%board_row_inv. exists m, δ. split_and!; try done. cbv zeta.
  destruct δ as [| | | |s| |?]; try (right; split; [intros (d0 & _ & Hd); by destruct (resolved f _)|done]).
  pose proof (measured_get s (p_detectors r) Hnd) as Hg. fold (measured r) in Hg. destruct (od_get s (measured r)) as [d|]; [left|right].
  - destruct Hg as [Hd <-]. rewrite Forall_forall in Hrows. destruct (Hrows d Hd) as (Hc & _ & Hp & Hf).
    exists (q_detector d), (q_counts d). split_and!; [done|done|apply Hnames; by apply list_elem_of_fmap_2|]. by exists (q_precision d), (q_fp_rate d).
  - split; [|done]. intros (d & Hd & E). apply Hg, Hnames. exists d. split; [done|].
    destruct (resolved f _); simpl in E; [by injection E as ->|done].
Qed.
End facts.

(** ** Two detections, one judged *)

Definition ex_manifest (detector : string) : dict :=
  [("detector_id", VStr detector); ("status", VStr "shipped"); ("attack_techniques", VList [VStr "T1071"; VStr "T1048"])].
Definition ex_entry2 (id ref : string) : dict :=
  [("detection_id", VStr id); ("source", VStr "dns"); ("status", VStr "draft"); ("version", VStr "1"); ("manifest_ref", VStr ref);
   ("change_history", VList [])].
Definition ex_manifests : list (string * dict) := [("m1", ex_manifest "dns-detector"); ("m2", ex_manifest "other")].
Definition ex_report : res quality_report := report id (feedback (db_after ex_posts)) (Some ex_query) "acme" ex_start ex_end.
Lemma scoreboard_honest_witness :
  match ex_report with
  | Ok r => match build_scoreboard [ex_entry2 "b" "m2"; ex_entry2 "a" "m1"] ex_manifests r with
            | Ok board => (λ row, (dgetN "detection_id" row, dgetN "measured" (match dgetN "quality" row with VDict q => q | _ => [] end))) <$> board
                          = [(VStr "a", VBool true); (VStr "b", VBool false)] ∧ length board = 2%nat
            | Raise _ => False
            end
  | Raise _ => False
  end.
Proof.
  destruct (report_counts id ex_query "acme" ex_knows ex_start ex_end ex_posts (ex_query_knows "acme")) as (r & Hr & Hc).
  { intros n d Hn Hd. change (Z.of_nat (length (feedback (db_after ex_posts)))) with 1 in Hd.
    assert (d = 0 ∧ n = 0 ∨ d = 1 ∧ n = 0 ∨ d = 1 ∧ n = 1) as [[-> ->]|[[-> ->]|[-> ->]]] by lia; vm_compute; reflexivity. }
  unfold ex_report. rewrite Hr. destruct (build_scoreboard _ _ r) as [board|e] eqn:Eb; cycle 1.
  { vm_compute in Hr. injection Hr as <-. vm_compute in Eb. discriminate Eb. }
  pose proof (scoreboard_honest id "acme" ex_knows ex_start ex_end _ _ _ r board Hc Eb) as H. split.
  - vm_compute in Hr. injection Hr as <-. vm_compute in Eb. injection Eb as <-. reflexivity.
  - apply Forall2_length in H. rewrite <- H. reflexivity.
Defined.
Definition ex_texts (rows : list dict) : string := join ";" (text_of "detection_id" <$> rows).
Definition ex_file (id : string) : string * res val := (id +:+ ".json", Ok (VDict (ex_entry2 id "detections/manifest/dns.manifest.json"))).
Lemma drift_gate_exact_witness :
  match ex_report with
  | Ok r => check_drift (λ _, Ok (ex_manifest "dns-detector")) ex_texts ex_files [ex_file "b"; ex_file "a"] ["sibling.json"]
              (write [("sibling.json", "x")] [(SCOREBOARD_NAME, "a;b")]) r = Ok []
  | Raise _ => False
  end.
Proof.
  destruct ex_report as [r|e] eqn:E; [|vm_compute in E; discriminate E].
  refine (proj2 (drift_gate_exact (λ _, Ok (ex_manifest "dns-detector")) ex_texts ex_files [ex_file "b"; ex_file "a"] ["sibling.json"]
              [("sibling.json", "x")] r "a;b" _) _ _).
  - vm_compute in E. injection E as <-. vm_compute. reflexivity.
  - set_solver.
  - intros n Hn. left. exact Hn.
Defined.
