(* ===== verification/Coverage.v ===== *)
(** * The ATT&CK coverage map (services/coverage-service: coverage.py, app.py)

    Which techniques the fleet's detectors cover, and which fired for the caller's tenants.

    The findings table is the list of its rows' tenants and techniques; the database is a
    parameter that answers the distinct techniques of the granted tenants, in any order,
    or fails. *)

From S2P Require Import Prelude Order PyVal PyString OrderedMap Json JsonSchema FeedbackRouter.
Set Default Proof Using "Type".

(** [TECHNIQUE_RE.match]: a final line feed is let through. *)
Definition technique_text (s : string) : bool :=
  match
    s ← match_classes [one_of "T"; is_digit; is_digit; is_digit; is_digit] s;
    match s with
    | String "." s' => match_classes [is_digit; is_digit; is_digit] s'
    | _ => Some s
    end
  with Some rest => String.eqb rest "" | None => false end.
Definition TECHNIQUE_RE (s : string) : bool := technique_text s || technique_text (chomp s).
Definition techniques_in (vs : list val) : list string :=
  omap (λ v, match v with VStr s => if TECHNIQUE_RE s then Some s else None | _ => None end) vs.

(** ** Detector metadata *)

(** The detector and the techniques of a well-formed entry. *)
Definition entry_pairs (entry : val) : list (string * string) :=
  match entry with
  | VDict d =>
      match dgetN "detector_id" d, dgetN "techniques" d with
      | VStr detector, VList ts => if str_truthy (strip detector) then (λ t, (t, detector)) <$> techniques_in ts else []
      | _, _ => []
      end
  | _ => []
  end.
Abbreviation detector_map := (list (string * list string)).
Definition add_detector (m : detector_map) (p : string * string) : detector_map :=
  od_set p.1 (dedup_onto (default [] (od_get p.1 m)) [p.2]) m.
Definition load_detector_map (config : list val) : detector_map :=
  (λ kv, (kv.1, isort id kv.2)) <$> foldl add_detector [] (mjoin (entry_pairs <$> config)).

(** ** The report *)

Record coverage_row := { v_technique : string; v_covered : bool; v_detectors : list string; v_observed : bool }.
Record coverage_report := {
  v_rows : list coverage_row; v_gaps : list string;
  v_total : Z; v_n_covered : Z; v_n_gaps : Z; v_n_observed : Z
}.
Definition count_rows (p : coverage_row → bool) (l : list coverage_row) : Z := Z.of_nat (length (List.filter p l)).
Definition nonempty {A} (l : list A) : bool := match l with [] => false | _ => true end.
Definition coverage_row_of (m : detector_map) (observed : list string) (t : string) : coverage_row :=
  let ds := default [] (od_get t m) in
  {| v_technique := t; v_covered := nonempty ds; v_detectors := ds; v_observed := mem t observed |}.
Definition build_coverage (m : detector_map) (observed catalog : list val) : coverage_report :=
  let observed := techniques_in observed in
  let techniques := isort id (dedup_onto [] (techniques_in catalog ++ od_keys m ++ observed)) in
  let rows := coverage_row_of m observed <$> techniques in
  {| v_rows := rows; v_gaps := v_technique <$> List.filter (λ r, negb (v_covered r)) rows;
     v_total := Z.of_nat (length rows); v_n_covered := count_rows v_covered rows;
     v_n_gaps := count_rows (λ r, negb (v_covered r)) rows; v_n_observed := count_rows v_observed rows |}.

(** ** GET /coverage (app.py) *)

Definition grants_for_token (tokens : list (string * list string)) (auth_header : string) : list string :=
  match bearer auth_header with
  | Some token => if str_truthy token then default [] (assoc token tokens) else []
  | None => []
  end.
Record finding_row := { f_tenant : string; f_mitre : list val }.
(** What [observed_query] selects. *)
Definition observed_query (grants : list string) (table : list finding_row) : list val :=
  mjoin (f_mitre <$> List.filter (λ r, mem (f_tenant r) grants) table).
(** A database answer over a table: the selected values, without duplicates, in any order. *)
Definition answers_query (client : list string → res (list val)) (table : list finding_row) : Prop :=
  ∀ grants, ∃ rows, client grants = Ok rows ∧ NoDup rows ∧ ∀ v, v ∈ rows ↔ v ∈ observed_query grants table.
Inductive answer := healthy | not_found | unauthorized | unavailable | coverage (r : coverage_report).
Definition do_GET (tokens : list (string * list string)) (client : list string → res (list val)) (m : detector_map) (catalog : list val)
    (path auth_header : string) : answer :=
  if String.eqb path "/healthz" then healthy
  else if negb (String.eqb path "/coverage") then not_found
  else
    match grants_for_token tokens auth_header with
    | [] => unauthorized
    | grants => match client grants with Ok rows => coverage (build_coverage m rows catalog) | Raise _ => unavailable end
    end.

(** ** Facts *)

Lemma elem_of_techniques vs t : t ∈ techniques_in vs ↔ VStr t ∈ vs ∧ TECHNIQUE_RE t = true.
Proof.
  unfold techniques_in. rewrite list_elem_of_omap. split.
  - intros (v & Hv & H). destruct v as [| | | |s| |]; try done. destruct (TECHNIQUE_RE s) eqn:E; [|done]. by injection H as <-.
  - intros [H1 H2]. exists (VStr t). by rewrite H2.
Qed.
Lemma add_detectors_spec ps m :
  od_wf m → (∀ k ds, od_get k m = Some ds → NoDup ds ∧ ds ≠ []) →
  od_wf (foldl add_detector m ps) ∧
  (∀ k ds, od_get k (foldl add_detector m ps) = Some ds → NoDup ds ∧ ds ≠ []) ∧
  ∀ t d, d ∈ default [] (od_get t (foldl add_detector m ps)) ↔ (t, d) ∈ ps ∨ d ∈ default [] (od_get t m).
Proof.
  revert m. induction ps as [|[t0 d0] ps IH]; intros m Hwf Hok; [split_and!; [done|done|]; intros t d; rewrite elem_of_nil; tauto|].
  cbn [foldl]. destruct (IH (add_detector m (t0, d0))) as (H1 & H2 & H3).
  - by apply od_wf_set.
  - intros k ds. unfold add_detector. simpl. rewrite od_get_set. case_decide; [|apply Hok]. intros [= <-]. split.
    + change (NoDup (dedup_onto (default [] (od_get t0 m)) [d0])). apply NoDup_dedup_onto.
      destruct (od_get t0 m) as [l|] eqn:E; [by apply (Hok t0)|constructor].
    + intros Hn. assert (Hx : d0 ∈ dedup_onto (default [] (od_get t0 m)) [d0]) by (apply elem_of_dedup_onto; right; left).
      change (dedup_onto (default [] (od_get t0 m)) [d0] = []) in Hn. rewrite Hn in Hx. by apply elem_of_nil in Hx.
  - split_and!; [done|done|]. intros t d. rewrite H3. unfold add_detector. cbn [fst snd]. rewrite od_get_set, elem_of_cons. case_decide as E.
    + subst. cbn [default from_option id]. rewrite elem_of_dedup_onto, list_elem_of_singleton. naive_solver.
    + naive_solver.
Qed.
Lemma od_get_fmap {V W} (h : V → W) (m : list (string * V)) k : od_get k ((λ kv, (kv.1, h kv.2)) <$> m) = h <$> od_get k m.
Proof. induction m as [|[k' v] m IH]; [done|]. simpl. case_decide; [done|apply IH]. Qed.

Lemma loaded_covered config t :
  nonempty (default [] (od_get t (load_detector_map config))) = true ↔ t ∈ od_keys (load_detector_map config).
Proof.
  unfold load_detector_map. set (ps := mjoin (entry_pairs <$> config)).
  destruct (add_detectors_spec ps [] od_wf_nil) as (_ & Hok & _); [done|]. rewrite od_get_fmap.
  assert (Hk : od_keys ((λ kv : string * list string, (kv.1, isort id kv.2)) <$> foldl add_detector [] ps) = od_keys (foldl add_detector [] ps))
    by (unfold od_keys; by rewrite <- list_fmap_compose).
  rewrite Hk. destruct (od_get t (foldl add_detector [] ps)) as [l|] eqn:E; simpl.
  - destruct (Hok t l E) as [_ Hne]. split; intros _.
    + apply od_get_elem in E. unfold od_keys. apply list_elem_of_fmap. by exists (t, l).
    + destruct (isort id l) as [|x l'] eqn:El; [|done]. destruct Hne. pose proof (isort_perm id l) as Hp. rewrite El in Hp.
      by apply Permutation_nil in Hp.
  - split; [done|]. intros Hin. by apply od_get_none in E.
Qed.

(** The loaded map is exactly the metadata: a technique's detectors are, once each and in
    order, those of the well-formed entries that list it; malformed entries and techniques
    take nothing else with them, and no technique is listed without a detector. *)
Theorem detector_map_exact config t :
  let ds := default [] (od_get t (load_detector_map config)) in
  (∀ d, d ∈ ds ↔ ∃ entry, entry ∈ config ∧ (t, d) ∈ entry_pairs entry) ∧
  NoDup ds ∧ StronglySorted (λ a b, leb a b = true) ds ∧ (t ∈ od_keys (load_detector_map config) → ds ≠ []).
Proof.
  cbv zeta. unfold load_detector_map. set (ps := mjoin (entry_pairs <$> config)).
  destruct (add_detectors_spec ps [] (od_wf_nil)) as (Hwf & Hok & Hin); [done|]. rewrite od_get_fmap.
  assert (Hps : ∀ d, (t, d) ∈ ps ↔ ∃ entry, entry ∈ config ∧ (t, d) ∈ entry_pairs entry).
  { intros d. unfold ps. rewrite list_elem_of_join. setoid_rewrite list_elem_of_fmap. naive_solver. }
  specialize (Hin t). destruct (od_get t (foldl add_detector [] ps)) as [l|] eqn:E; simpl in *.
  - destruct (Hok t l E) as [Hnd Hne]. split_and!.
    + intros d. rewrite elem_of_isort, Hin, Hps. rewrite elem_of_nil. tauto.
    + by rewrite isort_perm.
    + apply (isort_sorted id).
    + intros _ Hn. apply Hne. pose proof (isort_perm id l) as Hp. rewrite Hn in Hp. by apply Permutation_nil in Hp.
  - split_and!; [|constructor|constructor|].
    + intros d. rewrite <- Hps, Hin. rewrite elem_of_nil. tauto.
    + unfold od_keys. rewrite <- list_fmap_compose. intros Hk. exfalso. apply od_get_none in E. apply E. done.
Qed.

Definition universe (m : detector_map) (observed catalog : list val) : list string :=
  isort id (dedup_onto [] (techniques_in catalog ++ od_keys m ++ techniques_in observed)).
Lemma elem_of_universe m observed catalog t :
  t ∈ universe m observed catalog ↔ t ∈ techniques_in catalog ∨ t ∈ od_keys m ∨ t ∈ techniques_in observed.
Proof. unfold universe. rewrite elem_of_isort, elem_of_dedup_onto, elem_of_nil, !elem_of_app. tauto. Qed.
Lemma dedup_set_eq (l l' : list string) : (∀ x, x ∈ l ↔ x ∈ l') → isort id (dedup_onto [] l) = isort id (dedup_onto [] l').
Proof.
  intros H. apply isort_perm_eq.
  - rewrite list_fmap_id. apply NoDup_dedup_onto. constructor.
  - apply NoDup_Permutation; [apply NoDup_dedup_onto; constructor..|]. intros x. rewrite !elem_of_dedup_onto, !elem_of_nil, H. tauto.
Qed.

(** The coverage report, row by row: it ranges over the catalog, the detectors' and the
    observed techniques, each once and in order; a technique is covered exactly when the
    map has a detector for it and observed exactly when it fired; the gaps are the
    uncovered techniques, and the summary counts these rows. *)
Theorem coverage_rows_exact config observed catalog :
  let m := load_detector_map config in let r := build_coverage m observed catalog in
  (∀ t, t ∈ v_technique <$> v_rows r ↔ t ∈ techniques_in catalog ∨ t ∈ od_keys m ∨ t ∈ techniques_in observed) ∧
  NoDup (v_technique <$> v_rows r) ∧ StronglySorted (λ a b, leb a b = true) (v_technique <$> v_rows r) ∧
  Forall (λ row, v_detectors row = default [] (od_get (v_technique row) m) ∧
    (v_covered row = true ↔ v_technique row ∈ od_keys m) ∧ (v_observed row = true ↔ v_technique row ∈ techniques_in observed)) (v_rows r) ∧
  (∀ t, t ∈ v_gaps r ↔ (t ∈ techniques_in catalog ∨ t ∈ techniques_in observed) ∧ t ∉ od_keys m) ∧
  v_total r = v_n_covered r + v_n_gaps r ∧ v_n_gaps r = Z.of_nat (length (v_gaps r)).
Proof.
  cbv zeta. set (m := load_detector_map config). set (r := build_coverage m observed catalog).
  assert (Hrows : v_technique <$> v_rows r = universe m observed catalog).
  { change (v_rows r) with (coverage_row_of m (techniques_in observed) <$> universe m observed catalog). rewrite <- list_fmap_compose. apply list_fmap_id. }
  assert (Hall : ∀ row, row ∈ v_rows r → row = coverage_row_of m (techniques_in observed) (v_technique row)).
  { intros row (t & -> & _)%list_elem_of_fmap. done. }
  assert (Hgap : ∀ t, t ∈ v_gaps r ↔ t ∈ universe m observed catalog ∧ t ∉ od_keys m).
  { intros t. unfold r, build_coverage. cbn [v_gaps]. rewrite list_elem_of_fmap.
    pose proof (loaded_covered config t) as Hlc. fold m in Hlc. rewrite <- Hlc. split.
    - intros (row & -> & Hin). apply list_elem_of_In, filter_In in Hin as [Hin Hc]. apply list_elem_of_In in Hin.
      apply list_elem_of_fmap in Hin as (t' & -> & Ht'). split; [exact Ht'|]. simpl in *. by destruct (nonempty _).
    - intros [Ht Hn]. exists (coverage_row_of m (techniques_in observed) t). split; [done|]. apply list_elem_of_In, filter_In.
      split; [apply list_elem_of_In; by apply list_elem_of_fmap_2|]. simpl. by destruct (nonempty _). }
  split_and!.
  - intros t. rewrite Hrows. apply elem_of_universe.
  - rewrite Hrows. unfold universe. rewrite isort_perm. apply NoDup_dedup_onto. constructor.
  - rewrite Hrows. apply (isort_sorted id).
  - apply Forall_forall. intros row Hrow. rewrite (Hall row Hrow). simpl. split_and!; [done|apply loaded_covered|apply mem_true].
  - intros t. rewrite Hgap, elem_of_universe. tauto.
  - change (v_total r) with (Z.of_nat (length (v_rows r))). change (v_n_covered r) with (count_rows v_covered (v_rows r)).
    change (v_n_gaps r) with (count_rows (λ r, negb (v_covered r)) (v_rows r)). clear. generalize (v_rows r). unfold count_rows.
    intros l. induction l as [|x l IH]; [done|]. simpl. destruct (v_covered x); simpl; lia.
  - unfold r, build_coverage. cbn [v_n_gaps v_gaps]. by rewrite length_fmap.
Qed.

(** Tenants do not see each other: the answer to a caller is the same over any two
    findings tables that agree on the caller's tenants, whatever the other tenants'
    findings are and in whatever order the database answers. *)
Theorem coverage_isolated tokens client client' table table' m catalog path auth :
  answers_query client table → answers_query client' table' →
  (∀ t, t ∈ grants_for_token tokens auth →
     List.filter (λ r, String.eqb (f_tenant r) t) table = List.filter (λ r, String.eqb (f_tenant r) t) table') →
  do_GET tokens client m catalog path auth = do_GET tokens client' m catalog path auth.
Proof.
  intros Hc Hc' Hag. unfold do_GET. destruct (String.eqb path "/healthz"); [done|]. destruct (negb _); [done|].
  destruct (grants_for_token tokens auth) as [|g gs] eqn:Eg; [done|]. rewrite <- Eg in *. clear Eg.
  destruct (Hc (grants_for_token tokens auth)) as (rows & -> & _ & Hin). destruct (Hc' (grants_for_token tokens auth)) as (rows' & -> & _ & Hin').
  assert (Hq : ∀ v, v ∈ rows ↔ v ∈ rows').
  { intros v. rewrite Hin, Hin'. unfold observed_query. rewrite !list_elem_of_join. setoid_rewrite list_elem_of_fmap.
    assert (Hrow : ∀ r, r ∈ List.filter (λ r, mem (f_tenant r) (grants_for_token tokens auth)) table ↔
                        r ∈ List.filter (λ r, mem (f_tenant r) (grants_for_token tokens auth)) table').
    { intros r. rewrite !list_elem_of_In, !filter_In, !mem_true. split; intros [Hr Ht]; (split; [|done]).
      - assert (Hx : In r (List.filter (λ x, String.eqb (f_tenant x) (f_tenant r)) table)) by (apply filter_In; by rewrite String.eqb_refl).
        rewrite (Hag _ Ht) in Hx. by apply filter_In in Hx as [Hx _].
      - assert (Hx : In r (List.filter (λ x, String.eqb (f_tenant x) (f_tenant r)) table')) by (apply filter_In; by rewrite String.eqb_refl).
        rewrite <- (Hag _ Ht) in Hx. by apply filter_In in Hx as [Hx _]. }
    setoid_rewrite Hrow. done. }
  assert (Ht : ∀ t, t ∈ techniques_in rows ↔ t ∈ techniques_in rows') by (intros t; by rewrite !elem_of_techniques, Hq).
  assert (Hu : universe m rows catalog = universe m rows' catalog).
  { unfold universe. apply dedup_set_eq. intros x. rewrite !elem_of_app, Ht. done. }
  assert (Hrows : v_rows (build_coverage m rows catalog) = v_rows (build_coverage m rows' catalog)).
  { change (coverage_row_of m (techniques_in rows) <$> universe m rows catalog = coverage_row_of m (techniques_in rows') <$> universe m rows' catalog).
    rewrite Hu. apply list_fmap_ext. intros i t _. unfold coverage_row_of. f_equal. apply eq_bool_prop_intro. by rewrite !Is_true_true, !mem_true. }
  f_equal. unfold build_coverage in *. cbn [v_rows] in Hrows. by rewrite Hrows.
Qed.

(** ** Two tenants *)

Definition ex_config : list val :=
  [VDict [("detector_id", VStr "dns"); ("techniques", VList [VStr "T1071"; VStr "bad"; VInt 3; VStr "T1048.003"])];
   VStr "junk"; VDict [("detector_id", VStr " "); ("techniques", VList [VStr "T1046"])];
   VDict [("detector_id", VStr "beacon"); ("techniques", VList [VStr "T1071"])]].
Definition ex_table (other : string) : list finding_row :=
  [{| f_tenant := "a"; f_mitre := [VStr "T1071"; VStr "T1190"] |}; {| f_tenant := "b"; f_mitre := [VStr other] |}].
Definition ex_client (table : list finding_row) (grants : list string) : res (list val) :=
  Ok (nodup val_eq_dec (observed_query grants table)).
Example ex_report :
  (λ r, (v_technique r, v_detectors r, v_observed r)) <$> v_rows (build_coverage (load_detector_map ex_config) [VStr "T1190"] [VStr "T1046"])
  = [("T1046", [], false); ("T1048.003", ["dns"], false); ("T1071", ["beacon"; "dns"], false); ("T1190", [], true)].
Proof. vm_compute. reflexivity. Qed.
Lemma ex_client_answers table : answers_query (ex_client table) table.
Proof.
  intros grants. eexists. split; [reflexivity|]. split; [apply NoDup_ListNoDup, NoDup_nodup|].
  intros v. by rewrite !list_elem_of_In, nodup_In.
Qed.
Lemma coverage_isolated_witness :
  do_GET [("tok", ["a"])] (ex_client (ex_table "T1046")) (load_detector_map ex_config) [] "/coverage" "Bearer tok" =
  do_GET [("tok", ["a"])] (ex_client (ex_table "T1110")) (load_detector_map ex_config) [] "/coverage" "Bearer tok".
Proof.
  apply (coverage_isolated _ _ _ (ex_table "T1046") (ex_table "T1110")); [apply ex_client_answers..|].
  intros t Ht. vm_compute in Ht. apply list_elem_of_singleton in Ht as ->. reflexivity.
Defined.
