(* ===== verification/Investigation.v ===== *)
(** * Investigations (services/investigation-service: queries.py, engine.py, the playbook)

    A request is validated, the evidence it needs is read into a snapshot that belongs to
    one tenant and entity, and a pure playbook turns the snapshot into a document.

    [canonical] is the canonical JSON text, [sha256] the digest, [repr] the text of other
    values; identifiers are texts.  The backends are the [sources] record; reading the
    observations page by page is [EvidencePaging]. *)

From stdpp Require Import sorting.
From S2P Require Import Prelude Order PyVal PyString OrderedMap PyTime IsoTime Json JsonSchema EvidencePaging.
Set Default Proof Using "Type".

Definition BEACON_DETECTORS : list string := ["beacon"; "beacon_fqdn"].
(** [(playbook step, query kind)] *)
Definition STEPS : list (string * string) :=
  [("dns_context", "evidence.dns"); ("beacon_periodicity", "finding.beacon"); ("intel_match", "finding.intel_match");
   ("entity_history", "case.entity_history")].
Definition VERSION : string := "1".

Section investigation.
Context (canonical : val → res string) (sha256 : string → string) (repr : val → string).

Definition parse_val (v : val) : res Z := _parse_ts (py_str repr v).
Definition parse_window_vals (frm to : val) : res (Z * Z) :=
  check (truthy frm && truthy to) ValueError;;
  a ← match parse_val frm with Ok t => Ok t | Raise TypeError => Raise ValueError | Raise e => Raise e end;
  b ← match parse_val to with Ok t => Ok t | Raise TypeError => Raise ValueError | Raise e => Raise e end;
  check (a <? b) ValueError;;
  Ok (a, b).

(** ** Requests *)

Definition request_fields : list string := ["entity_id"; "finding_ids"; "reason"; "window"; "case_id"].
Definition id_text (v : val) : bool := match v with VStr s => str_truthy (strip s) && (len s <=? 256) | _ => false end.
Record request := {
  rq_entity : string; rq_findings : list string; rq_reason : string; rq_from : Z; rq_to : Z; rq_case : option string
}.
Definition texts (vs : list val) : list string := omap (λ v, match v with VStr s => Some s | _ => None end) vs.
Definition validate_request (value : val) : res request :=
  d ← match value with VDict d => Ok d | _ => Raise ValueError end;
  check (forallb (λ kv, mem kv.1 request_fields) d) ValueError;;
  entity ← match dgetN "entity_id" d with
           | VStr s => validate_entity s
           | v => if truthy v then Raise TypeError else Raise ValueError
           end;
  ids ← match dgetN "finding_ids" d with
        | VList l => check (between 1 100 (Z.of_nat (length l)) && forallb id_text l) ValueError;; Ok (texts l)
        | _ => Raise ValueError
        end;
  reason ← match dgetN "reason" d with
           | VStr s => check (str_truthy (strip s) && (len s <=? 1024)) ValueError;; Ok s
           | _ => Raise ValueError
           end;
  window ← match dgetN "window" d with
           | VDict w => check (exactly ["from"; "to"] w) ValueError;; Ok w
           | _ => Raise ValueError
           end;
  '(frm, to) ← parse_window_vals (dgetN "from" window) (dgetN "to" window);
  check (to - frm <=? MAX_WINDOW) ValueError;;
  case ← match dget "case_id" d with
         | None => Ok None
         | Some v => check (id_text v) ValueError;; Ok (match v with VStr s => Some s | _ => None end)
         end;
  Ok {| rq_entity := entity; rq_findings := isort id (dedup_onto [] ids); rq_reason := reason; rq_from := frm; rq_to := to; rq_case := case |}.
(** The validated request as the document it travels as. *)
Definition request_doc (r : request) : dict :=
  [("entity_id", VStr (rq_entity r)); ("finding_ids", VList (VStr <$> rq_findings r)); ("reason", VStr (rq_reason r));
   ("window", VDict [("from", VStr (_iso (rq_from r))); ("to", VStr (_iso (rq_to r)))])]
  ++ match rq_case r with Some c => [("case_id", VStr c)] | None => [] end.

(** ** The snapshot *)

(** The read boundary: observations and findings of a tenant's request, cases. *)
Record sources := {
  s_observations : string → request → res (list dict); s_findings : string → request → res (list dict);
  s_case : string → string → res dict
}.
(** [Sources.findings]: what is made of the rows the database answers. *)
Definition findings_of (rows : list dict) : res (list dict) :=
  check (Z.of_nat (length rows) <=? MAX_RECORDS) ValueError;;
  mapM (λ row, first ← dindex "first_seen" row; first ← parse_val first; last ← dindex "last_seen" row; last ← parse_val last;
               Ok (dset "last_seen" (VStr (_iso last)) (dset "first_seen" (VStr (_iso first)) row))) rows.

Definition entity_values (k : string) (d : dict) : res (list val) :=
  l ← as_list (dget_or k (VList []) d);
  mapM (λ e, match e with
             | VDict e => v ← dindex "value" e; match v with VList _ | VDict _ => Raise TypeError | _ => Ok v end
             | _ => Raise TypeError
             end) l.
Definition for_all (p : dict → res unit) (l : list dict) : res unit := foldr (λ d (k : res unit), p d;; k) (Ok tt) l.
Definition related (tenant entity : string) (row : dict) : res unit :=
  check (val_eq_str (dget_or "tenant" (dgetN "tenant_id" row) row) tenant) PermissionError;;
  values ← entity_values "entities" row;
  check (val_in (VStr entity) values) OtherError.
Definition dns_in_window (frm to : Z) (row : dict) : res unit :=
  t ← dindex "type" row;
  check (val_eq_str t "dns") OtherError;;
  ts ← dindex "ts" row; ts ← match ts with VDict d => dindex "normalized" d | _ => Raise TypeError end;
  t ← parse_val ts;
  check ((frm <=? t) && (t <? to)) OtherError.
Definition finding_in_window (frm to : Z) (row : dict) : res unit :=
  first ← dindex "first_seen" row; first ← parse_val first;
  check (first <? to) OtherError;;
  last ← dindex "last_seen" row; last ← parse_val last;
  check (frm <=? last) OtherError.
Definition finding_id (row : dict) : res string := v ← dindex "finding_id" row; string_of v.

(** The case of a request, when it names one: checked, with its linked findings. *)
Definition case_of (s : sources) (tenant : string) (r : request) : res (option (dict * list string)) :=
  match rq_case r with
  | None => Ok None
  | Some cid =>
      case ← s_case s tenant cid;
      check (val_eq_str (dgetN "tenant" case) tenant) PermissionError;;
      check (val_eq_str (dgetN "case_id" case) cid) ValueError;;
      check (dhas "linked_entities" case) KeyError;;
      values ← entity_values "linked_entities" case;
      check (val_in (VStr (rq_entity r)) values) ValueError;;
      linked ← dindex "linked_findings" case; linked ← as_list linked; linked ← mapM string_of linked;
      check (forallb (λ i, mem i linked) (rq_findings r)) ValueError;;
      Ok (Some (case, linked))
  end.

Record result := { k_refs : list string; k_records : list dict; k_case : option dict }.
Definition ref_of (row : dict) : res string := string_of (dget_or "obs_id" (dgetN "finding_id" row) row).
Definition by_text (rows : list dict) : res (list dict) :=
  keyed ← mapM (λ d, k ← canonical (VDict d); Ok (k, d)) rows;
  Ok (snd <$> isort fst keyed).
Definition result_of (rows : list dict) : res result :=
  rows ← by_text rows;
  refs ← mapM ref_of rows;
  Ok {| k_refs := isort id (dedup_onto [] refs); k_records := rows; k_case := None |}.
Definition with_case (case : option dict) (k : result) : result := {| k_refs := k_refs k; k_records := k_records k; k_case := case |}.
Definition result_val (k : result) : val :=
  VDict ([("refs", VList (VStr <$> k_refs k)); ("records", VList (VDict <$> k_records k))]
         ++ match k_case k with Some c => [("case", VDict c)] | None => [] end).
Definition detected_by (detectors : list string) (row : dict) : res bool :=
  v ← dindex "detector_id" row; Ok (val_in_strs v detectors).
Fixpoint keep (p : dict → res bool) (l : list dict) : res (list dict) :=
  match l with
  | [] => Ok []
  | d :: l => b ← p d; rest ← keep p l; Ok (if b : bool then d :: rest else rest)
  end.
Record snapshot := { p_tenant : string; p_request : request; p_results : list (string * result); p_digest : string }.
Definition results_val (rs : list (string * result)) : val := VDict ((λ kr, (kr.1, result_val kr.2)) <$> rs).
Definition materialize (s : sources) (tenant : string) (r : request) : res snapshot :=
  observations ← s_observations s tenant r;
  findings ← s_findings s tenant r;
  for_all (related tenant (rq_entity r)) (observations ++ findings);;
  for_all (dns_in_window (rq_from r) (rq_to r)) observations;;
  for_all (finding_in_window (rq_from r) (rq_to r)) findings;;
  ids ← mapM finding_id findings;
  check (forallb (λ i, mem i ids) (rq_findings r)) KeyError;;
  case ← case_of s tenant r;
  history ← match case with
            | Some (_, linked) => keep (λ f, i ← finding_id f; Ok (mem i linked)) findings
            | None => Ok findings
            end;
  beacons ← keep (detected_by BEACON_DETECTORS) findings;
  intel ← keep (detected_by ["threat_intel"]) findings;
  dns ← result_of observations; beacons ← result_of beacons; intel ← result_of intel; history ← result_of history;
  let results := [("evidence.dns", dns); ("finding.beacon", beacons); ("finding.intel_match", intel);
                  ("case.entity_history", with_case (fst <$> case) history)] in
  digest ← canonical (results_val results);
  Ok {| p_tenant := tenant; p_request := r; p_results := results; p_digest := sha256 digest |}.

(** ** The engine and the playbook *)

(** [Snapshot.execute] *)
Definition execute (p : snapshot) (kind version : string) (params : dict) : res result :=
  check (String.eqb version "1" && py_eqb (VDict params) (VDict (request_doc (p_request p)))) ValueError;;
  match assoc kind (p_results p) with Some k => Ok k | None => Raise ValueError end.

Definition descriptions : list (string * string) :=
  [("evidence.dns", "DNS observations provide context, not a C2 verdict.");
   ("finding.beacon", "Existing beacon detector findings report periodicity; periodicity alone does not establish C2.");
   ("finding.intel_match", "Existing threat intel match findings were recorded in this window; this is not a fresh reputation lookup.");
   ("case.entity_history", "Entity findings provide history; optional case links restrict this history to linked findings.")].
Definition decide_step (kind : string) (k : result) : res (string * string) :=
  match k_refs k with
  | [] => Ok ("insufficient_evidence", "No supporting records in the requested entity window; absence does not establish benign behavior.")
  | refs => match assoc kind descriptions with
            | Some d => Ok ("supported", pretty (N.of_nat (length refs)) +:+ " supporting records. " +:+ d)
            | None => Raise KeyError
            end
  end.
Record step := { t_name : string; t_kind : string; t_params : dict; t_refs : list string; t_decision : string; t_explanation : string }.
Definition step_val (t : step) : val :=
  VDict [("playbook_step", VStr (t_name t));
         ("query", VDict [("kind", VStr (t_kind t)); ("version", VStr VERSION); ("params", VDict (t_params t))]);
         ("result_refs", VList (VStr <$> t_refs t)); ("decision", VStr (t_decision t)); ("explanation", VStr (t_explanation t))].
Definition engine_step (p : snapshot) (params : dict) (sk : string * string) : res step :=
  k ← execute p sk.2 VERSION params;
  '(decision, explanation) ← decide_step sk.2 k;
  Ok {| t_name := sk.1; t_kind := sk.2; t_params := params; t_refs := isort id (dedup_onto [] (k_refs k)); t_decision := decision;
        t_explanation := explanation |}.
Definition conclude (steps : list step) : string * float * list string :=
  let supported := dedup_onto [] (t_name <$> List.filter (λ t, String.eqb (t_decision t) "supported") steps) in
  if (length supported =? length STEPS)%nat
  then ("suspicious", lit "0.75",
        ["Review the referenced beacon and intel findings for a shared destination.";
         "Review DNS context and entity history before deciding on a response."])
  else ("inconclusive", lit "0.0", ["Review missing evidence before deciding on a response."]).
Record investigation := {
  i_tenant : string; i_request : request; i_status : string; i_steps : list step; i_classification : string; i_confidence : float;
  i_evidence : list string; i_actions : list string; i_id : string
}.
Definition document (tenant : string) (r : request) (status classification : string) (confidence : float) (steps : list step)
    (evidence actions : list string) : dict :=
  [("schema", VStr "investigation.v1"); ("tenant", VStr tenant); ("entity_id", VStr (rq_entity r));
   ("trigger", VDict [("finding_ids", VList (VStr <$> rq_findings r)); ("reason", VStr (rq_reason r))]);
   ("window", VDict [("from", VStr (_iso (rq_from r))); ("to", VStr (_iso (rq_to r)))]); ("status", VStr status);
   ("steps", VList (step_val <$> steps));
   ("conclusion", VDict [("classification", VStr classification); ("confidence", VFloat confidence);
                         ("evidence_refs", VList (VStr <$> evidence))]);
   ("recommended_actions", VList (VStr <$> actions)); ("engine", VDict [("playbook", VStr "c2_triage"); ("version", VStr VERSION)])].
Definition run (r : request) (p : snapshot) : res investigation :=
  steps ← mapM (engine_step p (request_doc r)) STEPS;
  let '(classification, confidence, actions) := conclude steps in
  let status := if String.eqb classification "suspicious" then "complete" else "insufficient_evidence" in
  let evidence := isort id (dedup_onto [] (mjoin (t_refs <$> steps))) in
  identity ← canonical (VDict [("document", VDict (document (p_tenant p) r status classification confidence steps evidence actions));
                               ("snapshot", VStr (p_digest p))]);
  Ok {| i_tenant := p_tenant p; i_request := r; i_status := status; i_steps := steps; i_classification := classification;
        i_confidence := confidence; i_evidence := evidence; i_actions := actions; i_id := "inv:" +:+ sha256 identity |}.
End investigation.

(** ** Reading checks *)

Lemma for_all_ok p l : for_all p l = Ok tt ↔ ∀ d, d ∈ l → p d = Ok tt.
Proof.
  induction l as [|d l IH]; [split; [by intros _ d ?%elem_of_nil|done]|]. simpl. split.
  - intros H. apply bind_ok_inv in H as ([] & Hd & H). intros x [->|Hx]%elem_of_cons; [done|by apply IH].
  - intros H. rewrite (H d) by left. cbn [mbind res_bind]. apply IH. intros x Hx. apply H. by right.
Qed.
Lemma keep_spec p l l' : keep p l = Ok l' → l' = List.filter (λ d, match p d with Ok b => b | _ => false end) l.
Proof.
  revert l'. induction l as [|d l IH]; intros l'; cbn [keep]; [by intros [= <-]|]. intros H.
  apply bind_ok_inv in H as (b & Hb & H). apply bind_ok_inv in H as (rest & Hr & [= <-]). simpl. rewrite Hb, <- (IH rest Hr). done.
Qed.
Lemma keep_elem p l l' d : keep p l = Ok l' → (d ∈ l' ↔ d ∈ l ∧ p d = Ok true).
Proof.
  intros ->%keep_spec. rewrite !list_elem_of_In, filter_In. destruct (p d) as [[]|]; naive_solver.
Qed.
Lemma mapM_perm {A B} (g : A → res B) l l' ys : l ≡ₚ l' → mapM g l = Ok ys → ∃ ys', mapM g l' = Ok ys' ∧ ys ≡ₚ ys'.
Proof.
  intros Hp. revert ys. induction Hp as [|x l l' _ IH|x y l|l1 l2 l3 _ IH1 _ IH2]; intros ys H.
  - by exists ys.
  - cbn [mapM] in H. apply bind_ok_inv in H as (z & Hz & H). apply bind_ok_inv in H as (zs & Hzs & [= <-]).
    destruct (IH zs Hzs) as (zs' & Hzs' & Hp'). exists (z :: zs'). cbn [mapM]. rewrite Hz. cbn [mbind res_bind]. rewrite Hzs'. split; [done|by constructor].
  - cbn [mapM] in H. apply bind_ok_inv in H as (a & Ha & H). apply bind_ok_inv in H as (bs & Hb & [= <-]).
    apply bind_ok_inv in Hb as (b & Hb & H). apply bind_ok_inv in H as (zs & Hzs & [= <-]).
    exists (b :: a :: zs). cbn [mapM]. rewrite Hb. cbn [mbind res_bind]. rewrite Ha. cbn [mbind res_bind]. rewrite Hzs. split; [done|constructor].
  - destruct (IH1 ys H) as (ys2 & H2 & Hp2). destruct (IH2 ys2 H2) as (ys3 & H3 & Hp3). exists ys3. split; [done|by etrans].
Qed.
Lemma mapM_elem {A B} (g : A → res B) l ys y : mapM g l = Ok ys → (y ∈ ys ↔ ∃ x, x ∈ l ∧ g x = Ok y).
Proof.
  revert ys. induction l as [|x l IH]; intros ys H; cbn [mapM] in H.
  - injection H as <-. rewrite elem_of_nil. split; [done|]. by intros (z & ?%elem_of_nil & _).
  - apply bind_ok_inv in H as (z & Hz & H). apply bind_ok_inv in H as (zs & Hzs & [= <-]). rewrite elem_of_cons, (IH zs Hzs). split.
    + intros [->|(x' & Hx' & Hg)]; [exists x; split; [left|done]|exists x'; split; [by right|done]].
    + intros (x' & [->|Hx']%elem_of_cons & Hg); [left; congruence|right; eauto].
Qed.

Section ordering.
Context (canonical : val → res string).
Abbreviation result_of' := (result_of canonical).

Lemma by_text_perm rows rows' : by_text canonical rows = Ok rows' → rows' ≡ₚ rows.
Proof.
  unfold by_text. intros H. apply bind_ok_inv in H as (keyed & Hk & [= <-]).
  rewrite (fmap_Permutation _ _ _ (isort_perm fst keyed)). clear -Hk. revert keyed Hk.
  induction rows as [|d rows IH]; intros keyed Hk; cbn [mapM] in Hk; [by injection Hk as <-|].
  apply bind_ok_inv in Hk as (kd & Hd & Hk). apply bind_ok_inv in Hk as (rest & Hr & [= <-]).
  apply bind_ok_inv in Hd as (k & _ & [= <-]). simpl. constructor. by apply IH.
Qed.
Lemma result_spec rows k :
  result_of' rows = Ok k →
  k_records k ≡ₚ rows ∧ k_case k = None ∧ (∀ i, i ∈ k_refs k ↔ ∃ d, d ∈ rows ∧ ref_of d = Ok i) ∧ (k_refs k = [] ↔ rows = []).
Proof.
  unfold result_of. intros H. apply bind_ok_inv in H as (sorted & Hs & H). apply bind_ok_inv in H as (refs & Hr & [= <-]).
  pose proof (by_text_perm _ _ Hs) as Hp. cbn [k_records k_case k_refs].
  assert (Hin : ∀ i, i ∈ isort id (dedup_onto [] refs) ↔ ∃ d, d ∈ rows ∧ ref_of d = Ok i).
  { intros i. rewrite elem_of_isort, elem_of_dedup_onto, elem_of_nil, (mapM_elem _ _ _ _ Hr). setoid_rewrite Hp. tauto. }
  split_and!; [done|done|done|]. split.
  - intros E. destruct rows as [|d rows]; [done|]. exfalso.
    destruct sorted as [|d0 sorted]; [by apply Permutation_nil_l in Hp|]. cbn [mapM] in Hr. apply bind_ok_inv in Hr as (i & Hi & _).
    assert (Hx : i ∈ isort id (dedup_onto [] refs)) by (apply Hin; exists d0; split; [rewrite <- Hp; left|done]).
    rewrite E in Hx. by apply elem_of_nil in Hx.
  - intros ->. symmetry in Hp; apply Permutation_nil in Hp as ->. cbn [mapM] in Hr. by injection Hr as <-.
Qed.
(** Rows whose texts tell them apart. *)
Definition told_apart (rows : list dict) : Prop :=
  ∀ a b, a ∈ rows → b ∈ rows → canonical (VDict a) = canonical (VDict b) → a = b.
Lemma by_text_order rows rows' sorted :
  rows ≡ₚ rows' → told_apart rows → by_text canonical rows = Ok sorted → by_text canonical rows' = Ok sorted.
Proof.
  unfold by_text. intros Hp Ht H. apply bind_ok_inv in H as (keyed & Hk & [= <-]).
  destruct (mapM_perm _ _ _ _ Hp Hk) as (keyed' & Hk' & Hpk). rewrite Hk'. cbn [mbind res_bind]. f_equal. f_equal. symmetry.
  assert (Hin : ∀ kd, kd ∈ keyed → kd.2 ∈ rows ∧ canonical (VDict kd.2) = Ok kd.1).
  { intros kd Hkd. apply (mapM_elem _ _ _ _ Hk) in Hkd as (d & Hd & H). by apply bind_ok_inv in H as (k & Hc & [= <-]). }
  apply (StronglySorted_unique_strong (key_le fst)); [|apply isort_sorted|apply isort_sorted|by rewrite !isort_perm].
  intros [k1 d1] [k2 d2] H1 H2 Hle1 Hle2. rewrite elem_of_isort in H1, H2. rewrite <- Hpk in H2.
  destruct (Hin _ H1) as [Hd1 Hc1]. destruct (Hin _ H2) as [Hd2 Hc2]. simpl in *.
  assert (k1 = k2) as -> by (by apply leb_antisym). f_equal. apply Ht; [done|done|congruence].
Qed.
Lemma result_order rows rows' k : rows ≡ₚ rows' → told_apart rows → result_of' rows = Ok k → result_of' rows' = Ok k.
Proof.
  unfold result_of. intros Hp Ht H. apply bind_ok_inv in H as (sorted & Hs & H). by rewrite (by_text_order _ _ _ Hp Ht Hs).
Qed.
End ordering.

Section facts.
Context (canonical : val → res string) (sha256 : string → string) (repr : val → string).
Abbreviation materialize' := (materialize canonical sha256 repr).
Abbreviation run' := (run canonical sha256).

(** ** What a snapshot holds *)

Definition of_entity (tenant entity : string) (d : dict) : Prop :=
  dget_or "tenant" (dgetN "tenant_id" d) d = VStr tenant ∧
  ∃ values, entity_values "entities" d = Ok values ∧ VStr entity ∈ values.
Lemma val_in_elem s vs : val_in (VStr s) vs = true ↔ VStr s ∈ vs.
Proof.
  unfold val_in. rewrite existsb_exists. setoid_rewrite <- list_elem_of_In. split.
  - intros (v & Hv & He). destruct v as [| | | |t| |]; try done. simpl in He. apply String.eqb_eq in He as ->. done.
  - intros H. exists (VStr s). split; [done|]. simpl. apply String.eqb_refl.
Qed.
Lemma related_inv tenant entity d : related tenant entity d = Ok tt → of_entity tenant entity d.
Proof.
  unfold related. intros H. apply bind_ok_inv in H as (u & Hu%check_ok_inv & H). apply val_eq_str_true in Hu.
  apply bind_ok_inv in H as (vs & Hv & H%check_ok_inv). split; [done|]. exists vs. split; [done|by apply val_in_elem].
Qed.
Definition observed_in (frm to : Z) (d : dict) : Prop :=
  dgetN "type" d = VStr "dns" ∧ ∃ ts v t, dgetN "ts" d = VDict ts ∧ dget "normalized" ts = Some v ∧ parse_val repr v = Ok t ∧ frm <= t < to.
Lemma dns_inv frm to d : dns_in_window repr frm to d = Ok tt → observed_in frm to d.
Proof.
  unfold dns_in_window. intros H. apply bind_ok_inv in H as (ty & Hty & H). apply bind_ok_inv in H as (u & Hu%check_ok_inv & H).
  apply bind_ok_inv in H as (ts & Hts & H). apply bind_ok_inv in H as (v & Hv & H). apply bind_ok_inv in H as (t & Ht & H%check_ok_inv).
  apply val_eq_str_true in Hu as ->. unfold observed_in, dgetN, dget_or, dindex in *.
  destruct (dget "type" d) as [x|]; [|done]. injection Hty as ->. destruct (dget "ts" d) as [y|]; [|done]. injection Hts as ->.
  destruct ts as [| | | | | |ts]; try done. split; [done|]. simpl. destruct (dget "normalized" ts) as [w|] eqn:Ew; [|done]. injection Hv as ->.
  exists ts, v, t. split_and!; try done; to_prop; lia.
Qed.
Definition active_in (frm to : Z) (d : dict) : Prop :=
  ∃ v w first last, dget "first_seen" d = Some v ∧ parse_val repr v = Ok first ∧ first < to ∧
    dget "last_seen" d = Some w ∧ parse_val repr w = Ok last ∧ frm <= last.
Lemma finding_inv frm to d : finding_in_window repr frm to d = Ok tt → active_in frm to d.
Proof.
  unfold finding_in_window. intros H. apply bind_ok_inv in H as (v & Hv & H). apply bind_ok_inv in H as (first & Hf & H).
  apply bind_ok_inv in H as (u & Hu%check_ok_inv & H). apply bind_ok_inv in H as (w & Hw & H). apply bind_ok_inv in H as (last & Hl & H%check_ok_inv).
  unfold dindex in *. destruct (dget "first_seen" d) eqn:E1; [|done]. injection Hv as ->. destruct (dget "last_seen" d) eqn:E2; [|done]. injection Hw as ->.
  exists v, w, first, last. split_and!; try done; to_prop; lia.
Qed.
(** A case the request may use: the tenant's own, linked to the entity and the triggers. *)
Definition links (tenant : string) (r : request) (case : dict) (linked : list string) : Prop :=
  dgetN "tenant" case = VStr tenant ∧ rq_case r = Some (text_of "case_id" case) ∧
  (∃ values, entity_values "linked_entities" case = Ok values ∧ VStr (rq_entity r) ∈ values) ∧
  (∀ i, i ∈ rq_findings r → i ∈ linked).
Lemma case_inv s tenant r c :
  case_of s tenant r = Ok c →
  match c with Some (case, linked) => links tenant r case linked | None => rq_case r = None end.
Proof.
  unfold case_of. destruct (rq_case r) as [cid|] eqn:Er; [|by intros [= <-]]. intros H.
  apply bind_ok_inv in H as (case & Hc & H). apply bind_ok_inv in H as (u1 & H1%check_ok_inv & H). apply bind_ok_inv in H as (u2 & H2%check_ok_inv & H).
  apply bind_ok_inv in H as (u3 & _ & H). apply bind_ok_inv in H as (vs & Hv & H). apply bind_ok_inv in H as (u4 & H4%check_ok_inv & H).
  apply bind_ok_inv in H as (l & Hl & H). apply bind_ok_inv in H as (l' & Hl' & H). apply bind_ok_inv in H as (linked & Hli & H).
  apply bind_ok_inv in H as (u5 & H5%check_ok_inv & [= <-]). apply val_eq_str_true in H1, H2. split_and!; [done| | |].
  - unfold text_of. rewrite H2. exact Er.
  - exists vs. split; [done|by apply val_in_elem].
  - intros i Hi. rewrite forallb_forall in H5. apply list_elem_of_In, H5 in Hi. by apply mem_true in Hi.
Qed.

(** The parts of a snapshot. *)
Record parts := {
  m_obs : list dict; m_fnd : list dict; m_case : option (dict * list string); m_history : list dict; m_beacons : list dict; m_intel : list dict;
  m_dns : result; m_b : result; m_i : result; m_h : result
}.
Definition read_history (c : option (dict * list string)) (fnd : list dict) : res (list dict) :=
  match c with Some (_, linked) => keep (λ f, i ← finding_id f; Ok (mem i linked)) fnd | None => Ok fnd end.
Definition results_of (m : parts) : list (string * result) :=
  [("evidence.dns", m_dns m); ("finding.beacon", m_b m); ("finding.intel_match", m_i m);
   ("case.entity_history", with_case (fst <$> m_case m) (m_h m))].
Definition made_of (s : sources) (tenant : string) (r : request) (m : parts) : Prop :=
  s_observations s tenant r = Ok (m_obs m) ∧ s_findings s tenant r = Ok (m_fnd m) ∧
  for_all (related tenant (rq_entity r)) (m_obs m ++ m_fnd m) = Ok tt ∧
  for_all (dns_in_window repr (rq_from r) (rq_to r)) (m_obs m) = Ok tt ∧
  for_all (finding_in_window repr (rq_from r) (rq_to r)) (m_fnd m) = Ok tt ∧
  (∃ ids, mapM finding_id (m_fnd m) = Ok ids ∧ forallb (λ i, mem i ids) (rq_findings r) = true) ∧
  case_of s tenant r = Ok (m_case m) ∧ read_history (m_case m) (m_fnd m) = Ok (m_history m) ∧
  keep (detected_by BEACON_DETECTORS) (m_fnd m) = Ok (m_beacons m) ∧ keep (detected_by ["threat_intel"]) (m_fnd m) = Ok (m_intel m) ∧
  result_of canonical (m_obs m) = Ok (m_dns m) ∧ result_of canonical (m_beacons m) = Ok (m_b m) ∧
  result_of canonical (m_intel m) = Ok (m_i m) ∧ result_of canonical (m_history m) = Ok (m_h m).
Lemma materialize_parts s tenant r p :
  materialize' s tenant r = Ok p ↔
  ∃ m digest, made_of s tenant r m ∧ canonical (results_val (results_of m)) = Ok digest ∧
    p = {| p_tenant := tenant; p_request := r; p_results := results_of m; p_digest := sha256 digest |}.
Proof.
  unfold materialize. split.
  - intros H. apply bind_ok_inv in H as (obs & Ho & H). apply bind_ok_inv in H as (fnd & Hf & H).
    apply bind_ok_inv in H as ([] & H1 & H). apply bind_ok_inv in H as ([] & H2 & H). apply bind_ok_inv in H as ([] & H3 & H).
    apply bind_ok_inv in H as (ids & Hi & H). apply bind_ok_inv in H as (u & Hu%check_ok_inv & H). apply bind_ok_inv in H as (c & Hc & H).
    apply bind_ok_inv in H as (history & Hh & H). apply bind_ok_inv in H as (beacons & Hb & H). apply bind_ok_inv in H as (intel & Hin & H).
    apply bind_ok_inv in H as (k1 & Hk1 & H). apply bind_ok_inv in H as (k2 & Hk2 & H). apply bind_ok_inv in H as (k3 & Hk3 & H).
    apply bind_ok_inv in H as (k4 & Hk4 & H). apply bind_ok_inv in H as (digest & Hd & [= <-]).
    exists {| m_obs := obs; m_fnd := fnd; m_case := c; m_history := history; m_beacons := beacons; m_intel := intel;
              m_dns := k1; m_b := k2; m_i := k3; m_h := k4 |}, digest. split; [|done]. unfold made_of. simpl. split_and!; eauto.
  - intros (m & digest & (Ho & Hf & H1 & H2 & H3 & (ids & Hi & Hids) & Hc & Hh & Hb & Hin & Hk1 & Hk2 & Hk3 & Hk4) & Hd & ->).
    rewrite Ho. cbn [mbind res_bind]. rewrite Hf. cbn [mbind res_bind]. rewrite H1. cbn [mbind res_bind]. rewrite H2. cbn [mbind res_bind].
    rewrite H3. cbn [mbind res_bind]. rewrite Hi. cbn [mbind res_bind]. rewrite Hids. cbn [check mbind res_bind]. rewrite Hc. cbn [mbind res_bind].
    fold (read_history (m_case m) (m_fnd m)). rewrite Hh. cbn [mbind res_bind]. rewrite Hb. cbn [mbind res_bind]. rewrite Hin. cbn [mbind res_bind].
    rewrite Hk1. cbn [mbind res_bind]. rewrite Hk2. cbn [mbind res_bind]. rewrite Hk3. cbn [mbind res_bind]. rewrite Hk4. cbn [mbind res_bind].
    fold (results_of m). by rewrite Hd.
Qed.

(** An investigation sees only its own tenant and entity: every record of a snapshot is
    the tenant's, carries the entity and lies in the window; observations are DNS,
    findings are of the detectors their step is about; and with a case, the history holds
    only findings the tenant's own case links. *)
Theorem snapshot_confined s tenant r p kind k d :
  materialize' s tenant r = Ok p → (kind, k) ∈ p_results p → d ∈ k_records k →
  of_entity tenant (rq_entity r) d ∧
  (if String.eqb kind "evidence.dns" then observed_in (rq_from r) (rq_to r) d else active_in (rq_from r) (rq_to r) d) ∧
  (kind = "finding.beacon" → val_in_strs (dgetN "detector_id" d) BEACON_DETECTORS = true) ∧
  (kind = "finding.intel_match" → dgetN "detector_id" d = VStr "threat_intel") ∧
  (kind = "case.entity_history" → rq_case r ≠ None →
     ∃ case linked i, k_case k = Some case ∧ links tenant r case linked ∧ finding_id d = Ok i ∧ i ∈ linked).
Proof.
  intros (m & digest & (_ & _ & H1 & H2 & H3 & _ & Hc & Hh & Hb & Hin & Hk1 & Hk2 & Hk3 & Hk4) & _ & ->)%materialize_parts Hkind Hd.
  rewrite for_all_ok in H1, H2, H3. cbn [p_results] in Hkind.
  assert (Hent : ∀ d, d ∈ m_obs m ∨ d ∈ m_fnd m → of_entity tenant (rq_entity r) d).
  { intros x Hx. apply related_inv, H1. by apply elem_of_app. }
  assert (Hdet : ∀ ds l, keep (detected_by ds) (m_fnd m) = Ok l → ∀ x, x ∈ l → x ∈ m_fnd m ∧ val_in_strs (dgetN "detector_id" x) ds = true).
  { intros ds l Hl x Hx. apply (keep_elem _ _ _ _ Hl) in Hx as [Hx E]. split; [done|]. apply bind_ok_inv in E as (v & Hv & [= E]).
    unfold dindex, dgetN, dget_or in *. destruct (dget "detector_id" x); [|done]. by injection Hv as ->. }
  unfold results_of in Hkind. apply case_inv in Hc.
  apply elem_of_cons in Hkind as [[= -> ->]|Hkind].
  { rewrite (eq_refl : String.eqb "evidence.dns" "evidence.dns" = true). destruct (result_spec _ _ _ Hk1) as (Hp & _). rewrite Hp in Hd. split_and!; try done; [apply Hent; by left|by apply dns_inv, H2]. }
  apply elem_of_cons in Hkind as [[= -> ->]|Hkind].
  { rewrite (eq_refl : String.eqb "finding.beacon" "evidence.dns" = false). destruct (result_spec _ _ _ Hk2) as (Hp & _). rewrite Hp in Hd. destruct (Hdet _ _ Hb d Hd) as [Hf Hv].
    split_and!; try done; [apply Hent; by right|by apply finding_inv, H3]. }
  apply elem_of_cons in Hkind as [[= -> ->]|Hkind].
  { rewrite (eq_refl : String.eqb "finding.intel_match" "evidence.dns" = false). destruct (result_spec _ _ _ Hk3) as (Hp & _). rewrite Hp in Hd. destruct (Hdet _ _ Hin d Hd) as [Hf Hv].
    split_and!; try done; [apply Hent; by right|by apply finding_inv, H3|]. intros _. apply val_in_strs_true in Hv as (x & -> & Hx).
    by apply list_elem_of_singleton in Hx as ->. }
  apply list_elem_of_singleton in Hkind as [= -> ->].
  rewrite (eq_refl : String.eqb "case.entity_history" "evidence.dns" = false). destruct (result_spec _ _ _ Hk4) as (Hp & _). cbn [with_case k_records] in Hd. rewrite Hp in Hd.
  assert (Hf : d ∈ m_fnd m ∧ ∀ case linked, m_case m = Some (case, linked) → ∃ i, finding_id d = Ok i ∧ i ∈ linked).
  { unfold read_history in Hh. destruct (m_case m) as [[case linked]|]; [|by injection Hh as ->].
    apply (keep_elem _ _ _ _ Hh) in Hd as [Hf E]. split; [done|]. intros ? ? [= -> ->]. apply bind_ok_inv in E as (i & Hi & [= E]).
    exists i. by apply mem_true in E. }
  destruct Hf as [Hf Hlink]. split_and!; try done; [apply Hent; by right|by apply finding_inv, H3|].
  intros _ Hne. destruct (m_case m) as [[case linked]|] eqn:Em; [|done]. destruct (Hlink case linked eq_refl) as (i & Hi & Hl).
  exists case, linked, i. done.
Qed.

(** ** Order of the backends *)

(** Two backends that read the same records in other orders. *)
Definition same_reads (s s' : sources) (tenant : string) (r : request) : Prop :=
  (∃ obs obs', s_observations s tenant r = Ok obs ∧ s_observations s' tenant r = Ok obs' ∧ obs ≡ₚ obs') ∧
  (∃ fnd fnd', s_findings s tenant r = Ok fnd ∧ s_findings s' tenant r = Ok fnd' ∧ fnd ≡ₚ fnd' ∧
     told_apart canonical fnd ∧ ∀ obs, s_observations s tenant r = Ok obs → told_apart canonical obs) ∧
  ∀ cid, s_case s tenant cid = s_case s' tenant cid.
Lemma keep_perm (q : dict → res bool) l l' ys : l ≡ₚ l' → keep q l = Ok ys → ∃ ys', keep q l' = Ok ys' ∧ ys ≡ₚ ys'.
Proof.
  intros Hp. revert ys. induction Hp as [|x l l' _ IH|x y l|l1 l2 l3 _ IH1 _ IH2]; intros ys H.
  - by exists ys.
  - cbn [keep] in *. apply bind_ok_inv in H as (b & Hb & H). apply bind_ok_inv in H as (zs & Hzs & [= <-]).
    destruct (IH zs Hzs) as (zs' & Hzs' & Hp'). rewrite Hb. cbn [mbind res_bind]. rewrite Hzs'. cbn [mbind res_bind]. eexists. split; [done|].
    destruct b; [by constructor|done].
  - cbn [keep] in *. apply bind_ok_inv in H as (a & Ha & H). apply bind_ok_inv in H as (bs & Hb & [= <-]).
    apply bind_ok_inv in Hb as (b & Hb & H). apply bind_ok_inv in H as (zs & Hzs & [= <-]).
    rewrite Hb. cbn [mbind res_bind]. rewrite Ha. cbn [mbind res_bind]. rewrite Hzs. cbn [mbind res_bind]. eexists. split; [done|].
    destruct a, b; try done. constructor.
  - destruct (IH1 ys H) as (ys2 & H2 & Hp2). destruct (IH2 ys2 H2) as (ys3 & H3 & Hp3). exists ys3. split; [done|by etrans].
Qed.
Lemma told_sub rows rows' : (∀ d, d ∈ rows' → d ∈ rows) → told_apart canonical rows → told_apart canonical rows'.
Proof. intros Hs H a b Ha Hb. apply H; by apply Hs. Qed.
Lemma for_all_perm q l l' : l ≡ₚ l' → for_all q l = Ok tt → for_all q l' = Ok tt.
Proof. intros Hp. rewrite !for_all_ok. intros H d. rewrite <- Hp. apply H. Qed.

(** An investigation does not depend on the order in which the backends answer: with the
    same observations and findings in any other order, the snapshot is the same, its digest
    included, and so are the investigation and its identifier. *)
Theorem snapshot_order_independent s s' tenant r p :
  same_reads s s' tenant r → materialize' s tenant r = Ok p →
  materialize' s' tenant r = Ok p.
Proof.
  intros ((obs & obs' & Ho & Ho' & Hpo) & (fnd & fnd' & Hf & Hf' & Hpf & Hta & Hto) & Hcase).
  intros (m & digest & (Ho1 & Hf1 & H1 & H2 & H3 & (ids & Hi & Hids) & Hc & Hh & Hb & Hin & Hk1 & Hk2 & Hk3 & Hk4) & Hd & ->)%materialize_parts.
  apply materialize_parts. rewrite Ho in Ho1. injection Ho1 as E1. rewrite Hf in Hf1. injection Hf1 as E2. subst obs fnd. specialize (Hto _ Ho).
  destruct (mapM_perm _ _ _ _ Hpf Hi) as (ids' & Hi' & Hpi).
  assert (Hh' : ∃ h', read_history (m_case m) fnd' = Ok h' ∧ m_history m ≡ₚ h' ∧ told_apart canonical (m_history m)).
  { unfold read_history in *. destruct (m_case m) as [[case linked]|]; [|injection Hh as <-; by exists fnd'].
    destruct (keep_perm _ _ _ _ Hpf Hh) as (h' & Hh' & Hp). exists h'. split_and!; [done|done|].
    eapply told_sub; [|exact Hta]. intros d Hd0. by apply (keep_elem _ _ _ _ Hh) in Hd0 as [Hd0 _]. }
  destruct Hh' as (h' & Hh' & Hph & Hth). destruct (keep_perm _ _ _ _ Hpf Hb) as (b' & Hb' & Hpb). destruct (keep_perm _ _ _ _ Hpf Hin) as (i' & Hin' & Hpin).
  assert (Htb : told_apart canonical (m_beacons m)) by (eapply told_sub; [|exact Hta]; intros d Hd0; by apply (keep_elem _ _ _ _ Hb) in Hd0 as [Hd0 _]).
  assert (Hti : told_apart canonical (m_intel m)) by (eapply told_sub; [|exact Hta]; intros d Hd0; by apply (keep_elem _ _ _ _ Hin) in Hd0 as [Hd0 _]).
  exists {| m_obs := obs'; m_fnd := fnd'; m_case := m_case m; m_history := h'; m_beacons := b'; m_intel := i';
            m_dns := m_dns m; m_b := m_b m; m_i := m_i m; m_h := m_h m |}, digest. split; [|done]. unfold made_of. cbn [m_obs m_fnd m_case m_history m_beacons m_intel m_dns m_b m_i m_h].
  split_and!; try done.
  - eapply for_all_perm; [|exact H1]. by rewrite Hpo, Hpf.
  - by eapply for_all_perm.
  - by eapply for_all_perm.
  - exists ids'. split; [done|]. rewrite forallb_forall in *. intros i Hini. specialize (Hids i Hini). apply mem_true in Hids. apply mem_true. by rewrite <- Hpi.
  - unfold case_of in *. destruct (rq_case r); [|done]. by rewrite <- Hcase.
  - by eapply (result_order canonical _ _ _ Hpo).
  - by eapply (result_order canonical _ _ _ Hpb).
  - by eapply (result_order canonical _ _ _ Hpin).
  - by eapply (result_order canonical _ _ _ Hph).
Qed.

(** ** The verdict *)

Lemma request_doc_refl r : py_eqb (VDict (request_doc r)) (VDict (request_doc r)) = true.
Proof.
  assert (Hl : py_eqb (VList (VStr <$> rq_findings r)) (VList (VStr <$> rq_findings r)) = true).
  { apply py_eqb_list. induction (rq_findings r); [constructor|]. constructor; [by apply plain_refl|done]. }
  assert (Hw : ∀ a b, py_eqb (VDict [("from", VStr a); ("to", VStr b)]) (VDict [("from", VStr a); ("to", VStr b)]) = true)
    by (intros a b; simpl; by rewrite !String.eqb_refl).
  assert (Hn : NoDup (request_doc r).*1).
  { unfold request_doc. destruct (rq_case r); apply (bool_decide_unpack _); vm_compute; exact I. }
  apply py_eqb_dict. split; [done|]. apply Forall_forall. intros [k v] Hin. exists v. split; [by apply dget_unique|]. cbn [snd].
  unfold request_doc in Hin. apply elem_of_app in Hin as [Hin|Hin].
  - repeat (apply elem_of_cons in Hin as [[= -> ->]|Hin]; [first [by apply plain_refl|exact Hl|apply Hw]|]). by apply elem_of_nil in Hin.
  - destruct (rq_case r); [|by apply elem_of_nil in Hin]. apply list_elem_of_singleton in Hin as [= -> ->]. by apply plain_refl.
Qed.
Definition backs (k : result) : bool := match k_refs k with [] => false | _ => true end.
Definition step_of (r : request) (sk : string * string) (k : result) : step :=
  {| t_name := sk.1; t_kind := sk.2; t_params := request_doc r; t_refs := isort id (dedup_onto [] (k_refs k));
     t_decision := (if backs k then "supported" else "insufficient_evidence");
     t_explanation := match k_refs k with
                      | [] => "No supporting records in the requested entity window; absence does not establish benign behavior."
                      | refs => pretty (N.of_nat (length refs)) +:+ " supporting records. " +:+ default "" (assoc sk.2 descriptions)
                      end |}.
Lemma engine_step_spec p sk k :
  assoc sk.2 (p_results p) = Some k → is_Some (assoc sk.2 descriptions) →
  engine_step p (request_doc (p_request p)) sk = Ok (step_of (p_request p) sk k).
Proof.
  intros Hk [d Hd]. unfold engine_step, execute. rewrite request_doc_refl, Hk. cbn [check mbind res_bind andb String.eqb VERSION Ascii.eqb Bool.eqb].
  unfold decide_step, step_of, backs. destruct (k_refs k) eqn:E; [done|]. rewrite Hd. done.
Qed.
Lemma conclude_spec r k1 k2 k3 k4 :
  let steps := zip_with (step_of r) STEPS [k1; k2; k3; k4] in
  conclude steps = (if backs k1 && backs k2 && backs k3 && backs k4
    then ("suspicious", lit "0.75",
          ["Review the referenced beacon and intel findings for a shared destination.";
           "Review DNS context and entity history before deciding on a response."])
    else ("inconclusive", lit "0.0", ["Review missing evidence before deciding on a response."])).
Proof.
  cbv zeta. unfold conclude. match goal with |- context [t_name <$> ?l] => assert (H : t_name <$> l = snd <$> List.filter fst
    [(backs k1, "dns_context"); (backs k2, "beacon_periodicity"); (backs k3, "intel_match"); (backs k4, "entity_history")]) end.
  { simpl. by destruct (backs k1), (backs k2), (backs k3), (backs k4). }
  rewrite H. by destruct (backs k1), (backs k2), (backs k3), (backs k4).
Qed.

Lemma result_backs rows k :
  result_of canonical rows = Ok k →
  (backs k = true ↔ k_records k ≠ []) ∧ ∀ i, i ∈ k_refs k ↔ ∃ d, d ∈ k_records k ∧ ref_of d = Ok i.
Proof.
  intros Hk. destruct (result_spec _ _ _ Hk) as (Hp & _ & Hr & Hnil). split.
  - assert (He : k_records k = [] ↔ rows = []).
    { split; intros E; [rewrite E in Hp; by apply Permutation_nil in Hp|]. subst rows. symmetry in Hp. by apply Permutation_nil in Hp. }
    unfold backs. destruct (k_refs k); [naive_solver|]. split; [|done]. intros _ E. apply He, Hnil in E. discriminate.
  - intros i. rewrite Hr. by setoid_rewrite Hp.
Qed.
Lemma snapshot_backs s tenant r m kind k :
  made_of s tenant r m → (kind, k) ∈ results_of m →
  (backs k = true ↔ k_records k ≠ []) ∧ ∀ i, i ∈ k_refs k ↔ ∃ d, d ∈ k_records k ∧ ref_of d = Ok i.
Proof.
  intros (_ & _ & _ & _ & _ & _ & _ & _ & _ & _ & Hk1 & Hk2 & Hk3 & Hk4) Hin. unfold results_of in Hin.
  do 3 (apply elem_of_cons in Hin as [[= -> ->]|Hin]; [by eapply result_backs|]).
  apply list_elem_of_singleton in Hin as [= -> ->]. exact (result_backs _ _ Hk4).
Qed.
Lemma engine_steps_spec tenant r m digest :
  let p := {| p_tenant := tenant; p_request := r; p_results := results_of m; p_digest := digest |} in
  mapM (engine_step p (request_doc r)) STEPS = Ok (zip_with (step_of r) STEPS (snd <$> results_of m)).
Proof.
  intros p. change r with (p_request p). cbn [mapM STEPS].
  rewrite (engine_step_spec p ("dns_context", "evidence.dns") (m_dns m)) by (done || by eexists). cbn [mbind res_bind].
  rewrite (engine_step_spec p ("beacon_periodicity", "finding.beacon") (m_b m)) by (done || by eexists). cbn [mbind res_bind].
  rewrite (engine_step_spec p ("intel_match", "finding.intel_match") (m_i m)) by (done || by eexists). cbn [mbind res_bind].
  by rewrite (engine_step_spec p ("entity_history", "case.entity_history") (with_case (fst <$> m_case m) (m_h m))) by (done || by eexists).
Qed.
Lemma evidence_refs r m ref :
  ref ∈ isort id (dedup_onto [] (mjoin (t_refs <$> zip_with (step_of r) STEPS (snd <$> results_of m)))) ↔
  ∃ kind k, (kind, k) ∈ results_of m ∧ ref ∈ k_refs k.
Proof.
  clear canonical sha256 repr. rewrite elem_of_isort, elem_of_dedup_onto, elem_of_nil. unfold results_of. simpl.
  rewrite !elem_of_app, !elem_of_isort, !elem_of_dedup_onto, !elem_of_nil. split.
  - intros [[]|[[[]|H]|[[[]|H]|[[[]|H]|[[[]|H]|[]]]]]];
      [exists "evidence.dns", (m_dns m)|exists "finding.beacon", (m_b m)|exists "finding.intel_match", (m_i m)
      |exists "case.entity_history", (with_case (fst <$> m_case m) (m_h m))]; (split; [|exact H]);
      [left|right; left|right; right; left|right; right; right; left].
  - intros (kind & k & Hin & H). repeat (apply elem_of_cons in Hin as [[= -> ->]|Hin]; [simpl in H; tauto|]). by apply elem_of_nil in Hin.
Qed.

(** The verdict is exactly what the snapshot supports.  The engine returns a document for
    every materialized snapshot (given that its JSON text exists): it is suspicious and
    complete precisely when there are DNS observations, beacon findings, intelligence
    findings and history alike, and inconclusive otherwise; it cites exactly the
    identifiers of the records it was shown. *)
Theorem verdict_exact s tenant r p :
  (∀ v, is_ok (canonical v) = true) → materialize' s tenant r = Ok p →
  ∃ doc, run' r p = Ok doc ∧ i_tenant doc = tenant ∧
    (i_classification doc = "suspicious" ↔ ∀ kind k, (kind, k) ∈ p_results p → k_records k ≠ []) ∧
    (i_status doc = "complete" ↔ i_classification doc = "suspicious") ∧
    (i_classification doc ≠ "suspicious" → i_classification doc = "inconclusive" ∧ i_confidence doc = lit "0.0") ∧
    ∀ ref, ref ∈ i_evidence doc ↔ ∃ kind k d, (kind, k) ∈ p_results p ∧ d ∈ k_records k ∧ ref_of d = Ok ref.
Proof.
  intros Hcan (m & digest & Hm & _ & ->)%materialize_parts. unfold run. rewrite engine_steps_spec. cbn [mbind res_bind].
  change (snd <$> results_of m) with [m_dns m; m_b m; m_i m; with_case (fst <$> m_case m) (m_h m)] at 1. rewrite conclude_spec.
  assert (Hall : backs (m_dns m) && backs (m_b m) && backs (m_i m) && backs (with_case (fst <$> m_case m) (m_h m)) = true ↔
    ∀ kind k, (kind, k) ∈ results_of m → k_records k ≠ []).
  { rewrite !andb_true_iff. split.
    - intros [[[H1 H2] H3] H4] kind k Hin. apply (snapshot_backs _ _ _ _ _ _ Hm Hin). unfold results_of in Hin.
      repeat (apply elem_of_cons in Hin as [[= -> ->]|Hin]; [done|]). by apply elem_of_nil in Hin.
    - intros H. assert (Hb : ∀ kind k, (kind, k) ∈ results_of m → backs k = true)
        by (intros kind k Hin; apply (snapshot_backs _ _ _ _ _ _ Hm Hin); by apply (H kind)).
      split_and!; eapply Hb; unfold results_of; [left|right; left|right; right; left|right; right; right; left]. }
  assert (Href : ∀ ref, (∃ kind k, (kind, k) ∈ results_of m ∧ ref ∈ k_refs k) ↔
    ∃ kind k d, (kind, k) ∈ results_of m ∧ d ∈ k_records k ∧ ref_of d = Ok ref).
  { intros ref. split.
    - intros (kind & k & Hin & Hr). apply (snapshot_backs _ _ _ _ _ _ Hm Hin) in Hr as (d & Hd & Hr). by exists kind, k, d.
    - intros (kind & k & d & Hin & Hd & Hr). exists kind, k. split; [done|]. apply (snapshot_backs _ _ _ _ _ _ Hm Hin). by exists d. }
  destruct (backs (m_dns m) && _ && _ && _); cbv beta iota zeta;
    match goal with |- context [canonical ?v] => pose proof (Hcan v) as Hc; destruct (canonical v) as [identity|]; [clear Hc|done] end;
    cbn [mbind res_bind]; eexists; (split; [reflexivity|]);
    cbn [i_tenant i_classification i_status i_evidence i_confidence p_results p_tenant]; (split_and!; [done| |done| |]);
    [tauto|done|intros ref; by rewrite evidence_refs, Href|split; [discriminate|intros H; by apply Hall in H]|done|intros ref; by rewrite evidence_refs, Href].
Qed.
End facts.
