(* ===== verification/InvestigationService.v ===== *)
(** * The investigation service (services/investigation-service: app.py, auth.py)

    Authenticated readers run investigations and read them back from a bounded cache.

    A request is what the handler reads of it; [now] is the clock reading of its
    authorization.  The 403 and the 401 answers differ by the exception's message, here by
    its class ([Unauthorized] for "unauthorized"). *)

From S2P Require Import Prelude Order PyVal PyString OrderedMap CaptureBudget JsonSchema FeedbackRouter EvidencePaging Investigation.
Set Default Proof Using "Type".

(** [auth.authorize] *)
Definition authorize (sessions : dict) (header : string) (now : val) : res string :=
  match (token ← bearer header; if str_truthy token then dget token sessions else None) with
  | Some (VDict session) =>
      check (session_text "tenant" session) Unauthorized;;
      fresh ← unexpired session now;
      check fresh Unauthorized;;
      check (is_true (dgetN "investigation_read" session)) PermissionError;;
      Ok (text_of "tenant" session)
  | _ => Raise Unauthorized
  end.

Record http := {
  h_method : string; h_path : string; h_query : string; h_auth : string; h_lengths : list string; h_chunked : bool; h_body : res val;
  h_now : val
}.
Abbreviation cache := (list ((string * string) * investigation)).
Definition CACHE_SIZE : nat := 256.
Definition investigations : string := "/investigations/".
Record audit_row := { n_actor : string; n_tenant : option string; n_status : Z }.

Section service.
Context (canonical : val → res string) (sha256 : string → string) (repr : val → string).
Context (src : sources) (sessions : dict).

(** [results[key] = result], then the oldest goes when there are too many. *)
Definition remember (doc : investigation) (c : cache) : cache :=
  let c := od_set (i_tenant doc, i_id doc) doc c in
  if (CACHE_SIZE <? length c)%nat then tail c else c.
Definition body_length (h : http) : res Z :=
  match h_lengths h with
  | [l] => if h_chunked h then Raise ValueError else n ← py_int (VStr l); check (between 1 65536 n) ValueError;; Ok n
  | _ => Raise ValueError
  end.
Definition post_investigation (tenant : string) (h : http) : M cache investigation :=
  let* _ := lift (body_length h) in
  let* value := lift (h_body h) in
  let* request := lift (validate_request repr value) in
  let* snapshot := lift (materialize canonical sha256 repr src tenant request) in
  let* doc := lift (run canonical sha256 request snapshot) in
  modify (remember doc);* ret doc.
Definition get_investigation (tenant : string) (h : http) : M cache investigation :=
  let* found := read (od_get (tenant, drop_chars (String.length investigations) (h_path h))) in
  match found with Some doc => ret doc | None => raise KeyError end.
Definition handle_body (tenant : string) (h : http) : M cache investigation :=
  if negb (String.eqb (h_query h) "") then raise ValueError
  else if String.eqb (h_method h) "POST" && String.eqb (h_path h) "/investigations" then post_investigation tenant h
  else if String.eqb (h_method h) "GET" && starts_with investigations (h_path h) then get_investigation tenant h
  else raise KeyError.
Definition status_of (e : exn) : Z :=
  match e with
  | Unauthorized => 401
  | PermissionError => 403
  | KeyError => 404
  | ValueError | TypeError => 400
  | _ => 503
  end.
Definition actor (header : string) : string :=
  match bearer header with Some token => "token:" +:+ take_chars 12 (sha256 token) | None => "anonymous" end.
(** The cache, the answer, and the audit row. *)
Definition handle_request (h : http) (c : cache) : cache * (Z * option investigation) * list audit_row :=
  if String.eqb (h_method h) "GET" && String.eqb (h_path h) "/healthz" then (c, (200, None), [])
  else
    match authorize sessions (h_auth h) (h_now h) with
    | Raise e => (c, (status_of e, None), [{| n_actor := actor (h_auth h); n_tenant := None; n_status := status_of e |}])
    | Ok tenant =>
        let '(c, r) := handle_body tenant h c in
        let answer := match r with Ok doc => (200, Some doc) | Raise e => (status_of e, None) end in
        (c, answer, [{| n_actor := actor (h_auth h); n_tenant := Some tenant; n_status := answer.1 |}])
    end.

(** ** Facts *)

Definition cache_ok (c : cache) : Prop :=
  od_wf c ∧ (length c <= CACHE_SIZE)%nat ∧ ∀ t i doc, ((t, i), doc) ∈ c → i_tenant doc = t ∧ i_id doc = i.
Lemma length_od_set {K V} `{EqDecision K} (k : K) (v : V) m : (length (od_set k v m) <= S (length m))%nat.
Proof. induction m as [|[k' v'] m IH]; simpl; [lia|]. case_decide; simpl; lia. Qed.
Lemma elem_of_tail {A} (x : A) l : x ∈ tail l → x ∈ l.
Proof. destruct l; [done|]. simpl. by right. Qed.
Lemma remember_ok doc c : cache_ok c → cache_ok (remember doc c).
Proof.
  intros (Hwf & Hl & Hk). unfold remember. pose proof (length_od_set (i_tenant doc, i_id doc) doc c) as Hlen.
  assert (Hset : ∀ t i d, ((t, i), d) ∈ od_set (i_tenant doc, i_id doc) doc c → i_tenant d = t ∧ i_id d = i).
  { intros t i d [[= -> -> ->]|Hin]%elem_of_od_set; [done|by apply Hk]. }
  pose proof (od_wf_set (i_tenant doc, i_id doc) doc c Hwf) as Hw.
  destruct (Nat.ltb_spec CACHE_SIZE (length (od_set (i_tenant doc, i_id doc) doc c))) as [Hgt|Hle]; split_and!.
  - unfold od_wf, od_keys in *. destruct (od_set _ _ c); [done|]. simpl in *. by apply NoDup_cons in Hw as [_ Hw].
  - destruct (od_set _ _ c); simpl in *; lia.
  - intros t i d Hin%elem_of_tail. by apply Hset.
  - done.
  - done.
  - done.
Qed.
(** What was just remembered is still there. *)
Lemma remember_lookup doc c : cache_ok c → od_get (i_tenant doc, i_id doc) (remember doc c) = Some doc.
Proof.
  intros (Hwf & Hl & _). unfold remember. set (k := (i_tenant doc, i_id doc)).
  destruct (Nat.ltb_spec CACHE_SIZE (length (od_set k doc c))) as [Hgt|_]; [|apply od_get_set_eq].
  destruct (decide (k ∈ od_keys c)) as [Hin|Hout].
  - exfalso. pose proof (od_keys_set k doc c) as E. rewrite decide_True in E by done.
    assert (length (od_set k doc c) = length c) by (rewrite <- (length_fmap fst), <- (length_fmap fst c); unfold od_keys in E; by rewrite E). lia.
  - assert (E : od_set k doc c = c ++ [(k, doc)]).
    { clear -Hout. induction c as [|[k' v'] c IH]; simpl; [done|]. simpl in Hout. apply not_elem_of_cons in Hout as [H1 H2].
      rewrite decide_False by done. by rewrite IH. }
    rewrite E. destruct c as [|[k0 v0] c]; [simpl in *; unfold CACHE_SIZE in *; lia|]. simpl.
    assert (Hn : od_get k c = None) by (apply od_get_none; intros H; apply Hout; by right).
    clear -Hn. induction c as [|[k' v'] c IH]; simpl in *; [by rewrite decide_True|]. case_decide; [done|by apply IH].
Qed.
Lemma submitted_inv tenant h c c' r :
  post_investigation tenant h c = (c', r) →
  (c' = c ∧ ∃ e, r = Raise e) ∨
  ∃ value req snap doc, h_body h = Ok value ∧ validate_request repr value = Ok req ∧
    materialize canonical sha256 repr src tenant req = Ok snap ∧ run canonical sha256 req snap = Ok doc ∧ r = Ok doc ∧ c' = remember doc c.
Proof.
  unfold post_investigation, bind, lift, modify, ret. destruct (body_length h) as [n|e]; [|intros [= <- <-]; left; eauto].
  destruct (h_body h) as [value|e]; [|intros [= <- <-]; left; eauto]. destruct (validate_request repr value) as [req|e] eqn:Ev; [|intros [= <- <-]; left; eauto].
  destruct (materialize _ _ _ _ _ req) as [snap|e] eqn:Em; [|intros [= <- <-]; left; eauto].
  destruct (run _ _ req snap) as [doc|e] eqn:Er; intros [= <- <-]; [right|left; eauto]. by exists value, req, snap, doc.
Qed.
Lemma run_tenant req snap doc : run canonical sha256 req snap = Ok doc → i_tenant doc = p_tenant snap.
Proof.
  unfold run. intros H. apply bind_ok_inv in H as (steps & _ & H). destruct (conclude steps) as [[cl cf] acts].
  apply bind_ok_inv in H as (identity & _ & [= <-]). done.
Qed.
Lemma materialize_tenant tenant req snap : materialize canonical sha256 repr src tenant req = Ok snap → p_tenant snap = tenant.
Proof. intros (m & digest & _ & _ & ->)%materialize_parts. done. Qed.
Lemma handle_cache h c : cache_ok c → cache_ok (handle_request h c).1.1.
Proof.
  intros Hc. unfold handle_request. destruct (_ && _); [done|]. destruct (authorize _ _ _) as [tenant|e]; [|done].
  unfold handle_body. destruct (negb _); [done|]. destruct (_ && _).
  - destruct (post_investigation tenant h c) as [c' r] eqn:E. apply submitted_inv in E as [[-> _]|(v & q & s & d & _ & _ & _ & _ & _ & ->)]; simpl; [done|].
    by apply remember_ok.
  - destruct (_ && _); [|done]. unfold get_investigation, bind, read, ret, raise. by destruct (od_get _ c).
Qed.
Definition cache_after (hs : list http) : cache := foldl (λ c h, (handle_request h c).1.1) [] hs.
Lemma cache_after_ok hs : cache_ok (cache_after hs).
Proof.
  unfold cache_after. induction hs as [|h hs IH] using rev_ind; [|by rewrite foldl_app; apply handle_cache].
  split_and!; [constructor|simpl; lia|by intros t i d ?%elem_of_nil].
Qed.

(** Readers get investigations of their own tenant only: after any requests the cache
    holds at most 256 investigations, and whatever is served, freshly run or read back by
    its identifier, belongs to the tenant of a session live at that moment that may read
    investigations; every request but the health check leaves exactly one audit row, with
    the status of its answer. *)
Theorem investigations_stay_home hs h :
  let '(c', (status, answered), rows) := handle_request h (cache_after hs) in
  (length c' <= CACHE_SIZE)%nat ∧
  (∀ doc, answered = Some doc → authorize sessions (h_auth h) (h_now h) = Ok (i_tenant doc) ∧ status = 200 ∧
     (h_method h = "GET" → h_path h = investigations +:+ i_id doc)) ∧
  ((h_method h = "GET" ∧ h_path h = "/healthz") ∨
   rows = [{| n_actor := actor (h_auth h); n_tenant := match authorize sessions (h_auth h) (h_now h) with Ok t => Some t | Raise _ => None end;
              n_status := status |}]).
Proof.
  pose proof (handle_cache h _ (cache_after_ok hs)) as Hc'. pose proof (cache_after_ok hs) as Hc. revert Hc Hc'.
  generalize (cache_after hs). intros c Hc Hc'. destruct (handle_request h c) as [[c' [status answered]] rows] eqn:E. simpl in Hc'.
  split; [apply Hc'|]. unfold handle_request in E.
  destruct (String.eqb (h_method h) "GET" && String.eqb (h_path h) "/healthz") eqn:Eh.
  { injection E as <- <- <- <-. split; [done|left]. by apply andb_true_iff in Eh as [->%String.eqb_eq ->%String.eqb_eq]. }
  destruct (authorize sessions (h_auth h) (h_now h)) as [tenant|e] eqn:Ea.
  2:{ injection E as <- <- <- <-. split; [done|by right]. }
  destruct (handle_body tenant h c) as [c1 r] eqn:Eb. injection E as <- Ans <-. split; [|right; by rewrite Ans].
  intros doc ->. destruct r as [d|e]; [|discriminate]. injection Ans as <- <-.
  unfold handle_body in Eb. destruct (negb _); [discriminate|].
  destruct (String.eqb (h_method h) "POST" && String.eqb (h_path h) "/investigations") eqn:Ep.
  - apply submitted_inv in Eb as [[_ [? [=]]]|(v & q & s & d' & _ & _ & Hm & Hr & [= <-] & _)].
    rewrite (run_tenant _ _ _ Hr), (materialize_tenant _ _ _ Hm). split_and!; [done|done|]. intros Hg.
    apply andb_true_iff in Ep as [Ep%String.eqb_eq _]. congruence.
  - destruct (_ && starts_with _ _) eqn:Eg; [|discriminate]. unfold get_investigation, bind, read, ret, raise in Eb.
    destruct (od_get _ c) as [d'|] eqn:Eo; [|discriminate]. injection Eb as _ ->. destruct Hc as (_ & _ & Hk). apply od_get_elem, Hk in Eo as [-> Hi].
    split_and!; [done|done|]. intros _. apply andb_true_iff in Eg as [_ (rest & Hp)%starts_with_inv]. rewrite Hi, Hp.
    change (drop_chars (String.length investigations) (investigations +:+ rest)) with rest. done.
Qed.

(** An investigation that was run can be read back at once, by its identifier, by the
    same tenant, and is the document the POST answered. *)
Theorem posted_then_read hs h c' doc rows g :
  handle_request h (cache_after hs) = (c', (200, Some doc), rows) → h_method h = "POST" →
  h_method g = "GET" → h_path g = investigations +:+ i_id doc → h_query g = "" →
  authorize sessions (h_auth g) (h_now g) = Ok (i_tenant doc) →
  (handle_request g c').1.2 = (200, Some doc).
Proof.
  pose proof (cache_after_ok hs) as Hc. revert Hc. generalize (cache_after hs). intros c Hc E Hp Hg Hpath Hq Ha.
  unfold handle_request in E. rewrite Hp in E. simpl in E. destruct (authorize sessions (h_auth h) (h_now h)) as [tenant|e]; [|by destruct e].
  destruct (handle_body tenant h c) as [c1 r] eqn:Eb. injection E as <- Ans _. destruct r as [d|e]; [|discriminate]. injection Ans as <-.
  unfold handle_body in Eb. rewrite Hp in Eb. destruct (negb (String.eqb (h_query h) "")); [discriminate|]. simpl in Eb.
  destruct (String.eqb (h_path h) "/investigations"); [|discriminate].
  apply submitted_inv in Eb as [[_ [? [=]]]|(v & q & s & d' & _ & _ & _ & _ & [= <-] & ->)].
  unfold handle_request. rewrite Ha, Hg. replace (String.eqb (h_path g) "/healthz") with false by (rewrite Hpath; reflexivity).
  cbn [andb String.eqb Ascii.eqb Bool.eqb]. unfold handle_body. rewrite Hq, Hg, Hpath. cbn [negb andb String.eqb Ascii.eqb Bool.eqb].
  rewrite starts_with_app. unfold get_investigation, bind, read. rewrite Hpath.
  change (drop_chars (String.length investigations) (investigations +:+ i_id d)) with (i_id d). by rewrite remember_lookup.
Qed.
End service.

(** ** One entity *)

Definition ex_entities : val := VList [VDict [("type", VStr "ip"); ("value", VStr "10.0.0.1")]].
Definition ex_obs (id : string) : dict :=
  [("obs_id", VStr id); ("tenant", VStr "acme"); ("type", VStr "dns"); ("entities", ex_entities);
   ("ts", VDict [("normalized", VStr "2026-01-01T06:00:00Z")])].
Definition ex_finding (id detector : string) : dict :=
  [("finding_id", VStr id); ("tenant_id", VStr "acme"); ("detector_id", VStr detector); ("entities", ex_entities);
   ("first_seen", VStr "2026-01-01T05:00:00Z"); ("last_seen", VStr "2026-01-01T07:00:00Z")].
Definition ex_sources (swap : bool) : sources :=
  {| s_observations := λ _ _, Ok (if swap then [ex_obs "o2"; ex_obs "o1"] else [ex_obs "o1"; ex_obs "o2"]);
     s_findings := λ _ _, Ok (if swap then [ex_finding "f2" "threat_intel"; ex_finding "f1" "beacon"]
                              else [ex_finding "f1" "beacon"; ex_finding "f2" "threat_intel"]);
     s_case := λ _ _, Raise OtherError |}.
Definition ex_canon (v : val) : res string :=
  Ok (match v with VDict d => text_of "obs_id" d +:+ text_of "finding_id" d | _ => "" end).
Definition ex_value : val :=
  VDict [("entity_id", VStr "10.0.0.1"); ("finding_ids", VList [VStr "f1"]); ("reason", VStr "beacon");
         ("window", VDict [("from", VStr "2026-01-01T00:00:00Z"); ("to", VStr "2026-01-02T00:00:00Z")])].
Abbreviation ex_materialize src := (r ← validate_request (λ _, "") ex_value; materialize ex_canon id (λ _, "") src "acme" r).
Definition ex_req : request :=
  {| rq_entity := "10.0.0.1"; rq_findings := ["f1"]; rq_reason := "beacon"; rq_from := 1767225600000000; rq_to := 1767312000000000; rq_case := None |}.
Example ex_validated : validate_request (λ _, "") ex_value = Ok ex_req.
Proof. vm_compute. reflexivity. Qed.
Lemma snapshot_confined_witness :
  match materialize ex_canon id (λ _, "") (ex_sources false) "acme" ex_req with
  | Ok p => ∀ kind k d, (kind, k) ∈ p_results p → d ∈ k_records k → of_entity "acme" "10.0.0.1" d
  | Raise _ => False
  end.
Proof.
  destruct (materialize ex_canon id (λ _, "") (ex_sources false) "acme" ex_req) as [p|e] eqn:E; [|vm_compute in E; discriminate E].
  intros kind k d Hk Hd. exact (proj1 (snapshot_confined _ _ _ _ _ _ _ _ _ _ E Hk Hd)).
Defined.
Lemma snapshot_order_independent_witness :
  match materialize ex_canon id (λ _, "") (ex_sources false) "acme" ex_req with
  | Ok p => materialize ex_canon id (λ _, "") (ex_sources true) "acme" ex_req = Ok p
  | Raise _ => False
  end.
Proof.
  destruct (materialize ex_canon id (λ _, "") (ex_sources false) "acme" ex_req) as [p|e] eqn:E; [|vm_compute in E; discriminate E].
  eapply snapshot_order_independent; [|exact E].
  assert (Ht : ∀ l, (∃ a b, l = [a; b] ∧ ex_canon (VDict a) ≠ ex_canon (VDict b)) → told_apart ex_canon l).
  { intros l (a & b & -> & Hne) x y Hx Hy He.
    apply elem_of_cons in Hx as [->|Hx]; [|apply list_elem_of_singleton in Hx as ->];
      (apply elem_of_cons in Hy as [->|Hy]; [|apply list_elem_of_singleton in Hy as ->]); try reflexivity; exfalso; apply Hne; congruence. }
  split_and!.
  - exists [ex_obs "o1"; ex_obs "o2"], [ex_obs "o2"; ex_obs "o1"]. split_and!; [reflexivity..|apply perm_swap].
  - exists [ex_finding "f1" "beacon"; ex_finding "f2" "threat_intel"], [ex_finding "f2" "threat_intel"; ex_finding "f1" "beacon"].
    split_and!; [reflexivity..|apply perm_swap| |].
    + apply Ht. eexists _, _. split; [reflexivity|]. vm_compute. discriminate.
    + intros obs Ho. injection Ho as <-. apply Ht. eexists _, _. split; [reflexivity|]. vm_compute. discriminate.
  - reflexivity.
Defined.
Lemma verdict_exact_witness :
  match materialize ex_canon id (λ _, "") (ex_sources false) "acme" ex_req with
  | Ok p => ∃ doc, run ex_canon id ex_req p = Ok doc ∧ i_classification doc = "suspicious" ∧ i_evidence doc = ["f1"; "f2"; "o1"; "o2"]
  | Raise _ => False
  end.
Proof.
  destruct (materialize ex_canon id (λ _, "") (ex_sources false) "acme" ex_req) as [p|e] eqn:E; [|vm_compute in E; discriminate E].
  destruct (verdict_exact ex_canon id (λ _, "") (ex_sources false) "acme" ex_req p (λ _, eq_refl) E) as (doc & Hdoc & _).
  exists doc. split; [exact Hdoc|]. vm_compute in E. injection E as <-. vm_compute in Hdoc. injection Hdoc as <-. split; reflexivity.
Defined.

Definition ex_sessions : dict :=
  [("tok", VDict [("tenant", VStr "acme"); ("expires_at", VInt 1000); ("investigation_read", VBool true)])].
Definition ex_http (method path : string) : http :=
  {| h_method := method; h_path := path; h_query := ""; h_auth := "Bearer tok"; h_lengths := ["200"]; h_chunked := false;
     h_body := Ok ex_value; h_now := VInt 10 |}.
Lemma posted_then_read_witness :
  match handle_request ex_canon id (λ _, "") (ex_sources false) ex_sessions (ex_http "POST" "/investigations") [] with
  | (c, (200, Some doc), _) =>
      (handle_request ex_canon id (λ _, "") (ex_sources false) ex_sessions (ex_http "GET" (investigations +:+ i_id doc)) c).1.2 = (200, Some doc)
  | _ => False
  end.
Proof.
  destruct (handle_request ex_canon id (λ _, "") (ex_sources false) ex_sessions (ex_http "POST" "/investigations") []) as [[c [status answered]] rows] eqn:E.
  pose proof E as E0. vm_compute in E0. injection E0 as _ <- <- _. cbv iota.
  refine (posted_then_read ex_canon id (λ _, "") (ex_sources false) ex_sessions [] (ex_http "POST" "/investigations") c _ rows _ E _ _ _ _ _);
    reflexivity.
Defined.
