(* ===== verification/FeedRecords.v ===== *)
(** * Records of threat-intelligence feeds (services/threat-intel/feeds.py)

    The base connector: how a raw feed entry becomes an intel.v1 record, the check every
    record passes before it may be stored, and the list feeds (generic and abuse.ch).

    [valid] interprets the vocabulary contracts/intel.schema.json uses; [intel_schema] is
    that document.  A number of the schema is compared as a binary64 value.  Clock
    readings are microseconds; years before 1000 are not written (they would be shorter). *)

From S2P Require Import Prelude Order PyVal PyString OrderedMap PyTime IsoTime JsonSchema ThreatIntel IntelMatch.
Set Default Proof Using "Type".

Definition _INTEL_TYPES : list string := ["ip"; "domain"; "url"; "hash"; "ja3"; "ja4"; "cert"].
Definition _DISPOSITIONS : list string := ["active"; "suppressed"; "expired"].
Definition _RECORD_KEYS : list string :=
  ["indicator"; "type"; "source"; "feed"; "score"; "tlp"; "source_trust"; "first_seen"; "last_seen"; "expiry";
   "disposition"; "tenant"; "provenance"].
Definition _PROV_KEYS : list string :=
  ["source"; "feed"; "score"; "tlp"; "source_trust"; "first_seen"; "last_seen"; "expiry"; "observed_at"].

(** ** The check *)

(** The date-time pattern: fixed classes, an optional fraction, a zone, the end. *)
Definition is_char (c : ascii) : ascii → bool := Ascii.eqb c.
Definition dt_classes : list (ascii → bool) :=
  let d := is_digit in
  [d; d; d; d; is_char "-"; d; d; is_char "-"; d; d; one_of "Tt"; d; d; is_char ":"; d; d; is_char ":"; d; d].
Definition dt_zone (s : string) : bool :=
  match match_classes [one_of "Zz"] s with
  | Some r => String.eqb (chomp r) ""
  | None =>
      match match_classes [one_of "+-"; is_digit; is_digit; is_char ":"; is_digit; is_digit] s with
      | Some r => String.eqb (chomp r) ""
      | None => false
      end
  end.
Definition _DT_RE (s : string) : bool :=
  match match_classes dt_classes s with
  | Some (String "." r) => match r with String c _ => is_digit c && dt_zone (skip_digits r) | EmptyString => false end
  | Some r => dt_zone r
  | None => false
  end.
Definition _is_datetime (v : val) : bool :=
  match v with VStr s => _DT_RE s && is_ok (epoch s) | _ => false end.
Definition _is_str (v : val) : bool := match v with VStr s => between 1 256 (Z.of_nat (String.length s)) | _ => false end.
(** [lo <= float(v) <= hi]; a Boolean is not a number here. *)
Definition float_between (lo hi f : float) : bool := SFleb lo f && SFleb f hi.
Definition _is_num (lo hi : float) (v : val) : res bool :=
  match v with
  | VInt _ | VFloat _ => f ← py_float v; Ok (float_between lo hi f)
  | _ => Ok false
  end.
Definition no_extra (keys : list string) (d : dict) : bool := forallb (λ kv, mem kv.1 keys) d.
Definition F0 : float := lit "0".
Definition F1 : float := lit "1".
Definition F100 : float := lit "100".

(** [a and b] where either may raise. *)
Definition and_then (a b : res bool) : res bool := x ← a; if x : bool then b else Ok false.
Definition _valid_provenance_entry (p : val) : res bool :=
  match p with
  | VDict d =>
      and_then (Ok (no_extra _PROV_KEYS d && _is_str (dgetN "source" d) && _is_str (dgetN "feed" d)
                    && val_in_strs (dgetN "tlp" d) TLP_LEVELS))
     (and_then (_is_num F0 F100 (dgetN "score" d))
     (and_then (_is_num F0 F1 (dgetN "source_trust" d))
     (Ok (_is_datetime (dgetN "first_seen" d) && _is_datetime (dgetN "last_seen" d)
          && forallb (λ k, match dget k d with Some v => _is_datetime v | None => true end) ["expiry"; "observed_at"]))))
  | _ => Ok false
  end.
Fixpoint all_valid (ps : list val) : res bool :=
  match ps with [] => Ok true | p :: ps => and_then (_valid_provenance_entry p) (all_valid ps) end.
Definition _indicator_ok (v : val) : bool :=
  match v with VStr s => between 1 2048 (Z.of_nat (String.length s)) && str_truthy (strip s) | _ => false end.
Definition validate_intel (record : val) : res bool :=
  match record with
  | VDict d =>
      and_then (Ok (no_extra _RECORD_KEYS d && _indicator_ok (dgetN "indicator" d) && val_in_strs (dgetN "type" d) _INTEL_TYPES
                    && _is_str (dgetN "source" d) && _is_str (dgetN "feed" d) && _is_str (dgetN "tenant" d)))
     (and_then (_is_num F0 F100 (dgetN "score" d))
     (and_then (_is_num F0 F1 (dgetN "source_trust" d))
     (and_then (Ok (val_in_strs (dgetN "tlp" d) TLP_LEVELS && val_in_strs (dgetN "disposition" d) _DISPOSITIONS
                    && forallb (λ k, _is_datetime (dgetN k d)) ["first_seen"; "last_seen"; "expiry"]))
     (match dgetN "provenance" d with
      | VList (p :: ps) => all_valid (p :: ps)
      | _ => Ok false
      end))))
  | _ => Ok false
  end.

(** ** The contract *)

Inductive schema :=
| s_enum (values : list string)
| s_string (min_len max_len : Z) (pattern : string → bool)
| s_datetime
| s_number (lo hi : float)
| s_array (items : schema)
| s_object (required : list string) (properties : list (string * schema)).
Fixpoint valid (s : schema) (v : val) : bool :=
  match s, v with
  | s_enum values, VStr t => mem t values
  | s_string lo hi pattern, VStr t => between lo hi (Z.of_nat (String.length t)) && pattern t
  | s_datetime, VStr t => _DT_RE t && is_ok (epoch t)
  | s_number lo hi, (VInt _ | VFloat _) => match py_float v with Ok f => float_between lo hi f | Raise _ => false end
  | s_array items, VList (x :: l) => forallb (valid items) (x :: l)
  | s_object required properties, VDict d =>
      forallb (λ k, dhas k d) required && forallb (λ kv, mem kv.1 properties.*1) d
      && forallb (λ ks, match dget ks.1 d with Some x => valid ks.2 x | None => true end) properties
  | _, _ => false
  end.
Definition anything (s : string) : bool := true.
Definition text_256 : schema := s_string 1 256 anything.
Definition score_schema : schema := s_number F0 F100.
Definition trust_schema : schema := s_number F0 F1.
Definition tlp_schema : schema := s_enum ["clear"; "green"; "amber"; "amber+strict"; "red"].
Definition provenance_schema : schema :=
  s_object ["source"; "feed"; "score"; "tlp"; "source_trust"; "first_seen"; "last_seen"]
    [("source", text_256); ("feed", text_256); ("score", score_schema); ("tlp", tlp_schema); ("source_trust", trust_schema);
     ("first_seen", s_datetime); ("last_seen", s_datetime); ("expiry", s_datetime); ("observed_at", s_datetime)].
Definition intel_schema : schema :=
  s_object ["indicator"; "type"; "source"; "feed"; "score"; "tlp"; "source_trust"; "first_seen"; "last_seen"; "expiry";
            "disposition"; "tenant"; "provenance"]
    [("indicator", s_string 1 2048 nonblank); ("type", s_enum ["ip"; "domain"; "url"; "hash"; "ja3"; "ja4"; "cert"]);
     ("source", text_256); ("feed", text_256); ("score", score_schema); ("tlp", tlp_schema); ("source_trust", trust_schema);
     ("first_seen", s_datetime); ("last_seen", s_datetime); ("expiry", s_datetime);
     ("disposition", s_enum ["active"; "suppressed"; "expired"]); ("tenant", text_256); ("provenance", s_array provenance_schema)].

(** ** Connectors *)

(** [c_ttl] is ttl_days in microseconds. *)
Record connector := {
  c_feed : string; c_source : string; c_trust : float; c_url : string; c_tlp : string; c_ttl : Z;
  c_auth : option string; c_pin : option string; c_default_score : float
}.
Definition make_connector (default_score : float) (feed source : string) (source_trust : val) (url tlp : string) (ttl : Z)
    (auth pin : option string) : res connector :=
  trust ← py_float source_trust;
  check (float_between F0 F1 trust) ValueError;;
  check (mem tlp TLP_LEVELS) ValueError;;
  Ok {| c_feed := feed; c_source := source; c_trust := trust; c_url := url; c_tlp := tlp; c_ttl := ttl;
        c_auth := auth; c_pin := pin; c_default_score := default_score |}.

(** [lifecycle.iso]; an instant no datetime has raises. *)
Definition iso (t : Z) : res string := if is_datetime t then Ok (emitted_text t) else Raise ValueError.
(** [(v or "").strip] wants a text. *)
Definition text_value (v : val) : res string :=
  if truthy v then match v with VStr s => Ok s | _ => Raise AttributeError end else Ok "".
Definition type_text (v : val) : string := match v with VStr t => t | _ => "" end.
(** A dictionary key must be hashable. *)
Definition hashable (v : val) : bool := match v with VList _ | VDict _ => false | _ => true end.
Definition marking (v : val) : res (option string) :=
  check (hashable v) TypeError;; Ok (match v with VStr t => Some t | _ => None end).

Section connectors.
Context (ip_address : string → option (Z * string)) (urlsplit : string → res url)
  (urlunsplit : string → string → string → string).

Definition or_iso (v : val) (t : Z) : res val := if truthy v then Ok v else VStr <$> iso t.
Definition normalize (c : connector) (raw : dict) (tenant : string) (now : Z) : res dict :=
  itype ← dindex "type" raw;
  value ← dindex "indicator" raw;
  text ← text_value value;
  indicator ← norm_indicator ip_address urlsplit urlunsplit (type_text itype) text;
  first_seen ← or_iso (dgetN "first_seen" raw) now;
  last_seen ← or_iso (dgetN "last_seen" raw) now;
  score ← py_float (dget_or "score" (VFloat (c_default_score c)) raw);
  let score := VFloat (fmax F0 (fmin F100 score)) in
  level ← marking (dgetN "tlp" raw);
  let tlp := VStr (default (c_tlp c) (most_restrictive_tlp [Some (c_tlp c); level])) in
  expiry ← or_iso (dgetN "expiry" raw) (now + c_ttl c);
  observed ← iso now;
  let prov := [("source", VStr (c_source c)); ("feed", VStr (c_feed c)); ("score", score); ("tlp", tlp);
               ("source_trust", VFloat (c_trust c)); ("first_seen", first_seen); ("last_seen", last_seen);
               ("expiry", expiry); ("observed_at", VStr observed)] in
  Ok [("indicator", VStr indicator); ("type", itype); ("source", VStr (c_source c)); ("feed", VStr (c_feed c));
      ("score", score); ("tlp", tlp); ("source_trust", VFloat (c_trust c)); ("first_seen", first_seen);
      ("last_seen", last_seen); ("expiry", expiry); ("disposition", VStr "active"); ("tenant", VStr tenant);
      ("provenance", VList [VDict prov])].
Definition _emit (c : connector) (raw : dict) (tenant : string) (now : Z) : res (option dict) :=
  rec ← normalize c raw tenant now; ok ← validate_intel (VDict rec); Ok (if ok : bool then Some rec else None).
Fixpoint emit_all (c : connector) (raws : list dict) (tenant : string) (now : Z) : res (list dict) :=
  match raws with
  | [] => Ok []
  | raw :: raws =>
      r ← _emit c raw tenant now; rest ← emit_all c raws tenant now;
      Ok (match r with Some rec => rec :: rest | None => rest end)
  end.
End connectors.

(** ** List feeds *)

Definition _HEX_any (s : string) : bool := between 32 64 (Z.of_nat (String.length s)) && string_forallb hex_digit s.
Definition infer_type (value : string) : string :=
  let v := strip value in
  if _IP v then "ip"
  else if starts_with "http://" v || starts_with "https://" v then "url"
  else if _HEX_any v then "hash"
  else "domain".
(** One line: the value, perhaps its type, perhaps a score that reads as a number. *)
Definition http_raw (line : string) : dict :=
  let cols := strip <$> split_char "," line in
  let value := nth 0 cols "" in
  let itype := if str_truthy (nth 1 cols "") then nth 1 cols "" else infer_type value in
  [("indicator", VStr value); ("type", VStr itype)] ++
  (if str_truthy (nth 2 cols "")
   then match parse_float (nth 2 cols "") with Some f => [("score", VFloat f)] | None => [] end
   else []).
Definition http_parse (payload : string) : list dict := http_raw <$> data_lines payload.

(** [filematch.parse_malware_hashes] *)
Definition parse_malware_hashes (text : string) : gset string :=
  list_to_set (lower <$> List.filter (hex_of_length 64) (strip <$> splitlines text)).
Definition _PARSE : list (string * ((string → gset string) * string)) :=
  [("malwarebazaar", (parse_malware_hashes, "hash")); ("feodo", (parse_feodo, "ip"));
   ("sslbl_cert", (parse_hash_csv, "cert")); ("sslbl_ja3", (parse_hash_csv, "ja3"))].
Definition abusech_connector (variant : string) (source_trust : val) (url tlp : string) (ttl : Z) (auth pin : option string) : res connector :=
  check (match assoc variant _PARSE with Some _ => true | None => false end) ValueError;;
  make_connector (lit "90") variant "abuse.ch" source_trust url tlp ttl auth pin.
(** The set's elements, in the order the set has. *)
Definition abusech_parse (variant payload : string) : res (list dict) :=
  match assoc variant _PARSE with
  | Some (fn, itype) => Ok ((λ v, [("indicator", VStr v); ("type", VStr itype)]) <$> elements (fn payload))
  | None => Raise KeyError
  end.

(** ** Facts *)

Lemma and_then_true (a b : res bool) : and_then a b = Ok true ↔ a = Ok true ∧ b = Ok true.
Proof. unfold and_then. destruct a as [[]|e]; simpl; split; (done || by intros []). Qed.
Lemma ok_true (b : bool) : Ok b = Ok true ↔ b = true.
Proof. split; [by intros [= ->]|by intros ->]. Qed.

(** A required field of an object. *)
Definition field (k : string) (s : schema) (d : dict) : bool :=
  dhas k d && match dget k d with Some x => valid s x | None => true end.
Ltac field_cases d k := unfold field, dhas, dgetN, dget_or; destruct (dget k d) as [[]|]; simpl.
Lemma str_field k d : _is_str (dgetN k d) = field k text_256 d.
Proof. field_cases d k; try done. by rewrite andb_true_r. Qed.
Lemma enum_field k vs d : val_in_strs (dgetN k d) vs = field k (s_enum vs) d.
Proof.
  field_cases d k; try (apply not_true_iff_false; intros H; by apply val_in_strs_true in H as (? & ? & ?)).
  apply val_in_strs_spec.
Qed.
Lemma datetime_field k d : _is_datetime (dgetN k d) = field k s_datetime d.
Proof. by field_cases d k. Qed.
Lemma number_field k lo hi d : _is_num lo hi (dgetN k d) = Ok true ↔ field k (s_number lo hi) d = true.
Proof.
  field_cases d k; try (split; congruence). destruct (float_of_Z z) as [f|e]; simpl; [apply ok_true|done].
Qed.
Lemma forallb_rev p s : string_forallb p (String.rev s) = string_forallb p s.
Proof.
  induction s as [|c s IH]; [done|]. rewrite rev_cons, forallb_sapp, IH. cbn [string_forallb]. rewrite andb_true_r. apply andb_comm.
Qed.
Lemma nonblank_strip s : str_truthy (strip s) = nonblank s.
Proof.
  apply eq_true_iff_eq. split; [apply strip_nonblank|]. unfold nonblank, string_existsb, strip, strip_by.
  intros H. assert (Hl : ∀ t, string_forallb (λ c, negb (negb (is_space c))) t = false → string_forallb (λ c, negb (negb (is_space c))) (lstrip is_space t) = false).
  { induction t as [|c t IH]; [done|]. simpl. destruct (is_space c) eqn:E; simpl; [done|by rewrite E]. }
  assert (Hr : ∀ t, string_forallb (λ c, negb (negb (is_space c))) t = false → string_forallb (λ c, negb (negb (is_space c))) (rev_string t) = false).
  { intros t <-. apply forallb_rev. }
  apply negb_true_iff in H. apply Hl, Hr, Hl, Hr in H. by destruct (rev_string _).
Qed.
Lemma indicator_field d : _indicator_ok (dgetN "indicator" d) = field "indicator" (s_string 1 2048 nonblank) d.
Proof. field_cases d "indicator"; try done. by rewrite nonblank_strip. Qed.
Lemma optional_datetime k d :
  match dget k d with Some v => _is_datetime v | None => true end = match dget k d with Some x => valid s_datetime x | None => true end.
Proof. by destruct (dget k d) as [[]|]. Qed.

(** An object is valid when it has no other property and every field is. *)
Lemma object_fields required properties d :
  Forall (λ k, k ∈ properties.*1) required → NoDup properties.*1 →
  valid (s_object required properties) (VDict d) =
  no_extra properties.*1 d &&
  forallb (λ ks, if mem ks.1 required then field ks.1 ks.2 d else match dget ks.1 d with Some x => valid ks.2 x | None => true end) properties.
Proof.
  intros Hr Hn. apply eq_true_iff_eq. cbn [valid]. unfold no_extra. rewrite !andb_true_iff, !forallb_forall. rewrite Forall_forall in Hr. split.
  - intros [[Hreq Hex] Hp]. split; [done|]. intros ks Hks. specialize (Hp _ Hks). destruct (mem ks.1 required) eqn:Em; [|done].
    apply mem_true, list_elem_of_In, Hreq in Em. unfold field. by rewrite Em.
  - intros [Hex Hp]. split_and!; [|done|].
    + intros k Hk. apply list_elem_of_In in Hk. pose proof (Hr _ Hk) as Hin. apply list_elem_of_fmap in Hin as ([k' s] & -> & Hin%list_elem_of_In).
      specialize (Hp _ Hin). simpl in *. rewrite (proj2 (mem_true _ _) Hk) in Hp. unfold field in Hp. by apply andb_true_iff in Hp as [? _].
    + intros ks Hks. specialize (Hp _ Hks). destruct (mem _ _); [|done]. unfold field in Hp. by apply andb_true_iff in Hp as [_ ?].
Qed.
Ltac fields_of := rewrite object_fields; [|repeat constructor; set_solver|repeat constructor; set_solver]; simpl.

Lemma provenance_fields d :
  valid provenance_schema (VDict d) =
  no_extra _PROV_KEYS d &&
  (field "source" text_256 d && (field "feed" text_256 d && (field "score" score_schema d && (field "tlp" tlp_schema d &&
   (field "source_trust" trust_schema d && (field "first_seen" s_datetime d && (field "last_seen" s_datetime d &&
   forallb (λ k, match dget k d with Some x => valid s_datetime x | None => true end) ["expiry"; "observed_at"]))))))).
Proof. unfold provenance_schema. by fields_of. Qed.
Lemma record_fields d :
  valid intel_schema (VDict d) =
  no_extra _RECORD_KEYS d &&
  (field "indicator" (s_string 1 2048 nonblank) d && (field "type" (s_enum _INTEL_TYPES) d && (field "source" text_256 d &&
   (field "feed" text_256 d && (field "score" score_schema d && (field "tlp" tlp_schema d && (field "source_trust" trust_schema d &&
   (field "first_seen" s_datetime d && (field "last_seen" s_datetime d && (field "expiry" s_datetime d &&
   (field "disposition" (s_enum _DISPOSITIONS) d && (field "tenant" text_256 d && field "provenance" (s_array provenance_schema) d)))))))))))).
Proof. unfold intel_schema. fields_of. by rewrite andb_true_r. Qed.

Lemma provenance_valid p : _valid_provenance_entry p = Ok true ↔ valid provenance_schema p = true.
Proof.
  destruct p as [| | | | | |d]; try (split; discriminate). rewrite provenance_fields.
  cbn [_valid_provenance_entry forallb]. rewrite !and_then_true, !ok_true, !number_field, !str_field, enum_field, !datetime_field, !optional_datetime, !andb_true_iff.
  tauto.
Qed.
Lemma all_provenance ps : all_valid ps = Ok true ↔ forallb (valid provenance_schema) ps = true.
Proof.
  induction ps as [|p ps IH]; [done|]. cbn [all_valid forallb]. by rewrite and_then_true, provenance_valid, andb_true_iff, IH.
Qed.
(** The check is the contract: it answers yes exactly on the documents
    contracts/intel.schema.json accepts. *)
Lemma validate_contract record : validate_intel record = Ok true ↔ valid intel_schema record = true.
Proof.
  destruct record as [| | | | | |d]; try (split; discriminate). rewrite record_fields. cbn [validate_intel forallb].
  assert (Hp : match dgetN "provenance" d with VList (p :: ps) => all_valid (p :: ps) | _ => Ok false end = Ok true ↔
    field "provenance" (s_array provenance_schema) d = true).
  { field_cases d "provenance"; try (split; discriminate). destruct l as [|p ps]; [split; discriminate|]. apply (all_provenance (p :: ps)). }
  rewrite !and_then_true, !ok_true, !number_field, Hp, !str_field, !enum_field, !datetime_field, indicator_field, !andb_true_iff. tauto.
Qed.

Section emitted.
Context (ip_address : string → option (Z * string)) (urlsplit : string → res url)
  (urlunsplit : string → string → string → string).
Abbreviation norm_rec := (normalize ip_address urlsplit urlunsplit).

(** The record belongs to the tenant and the feed, and its marking is as restrictive as
    the feed's and as the entry's own. *)
Definition stamped (c : connector) (tenant : string) (raw rec : dict) : Prop :=
  dgetN "tenant" rec = VStr tenant ∧ dgetN "source" rec = VStr (c_source c) ∧ dgetN "feed" rec = VStr (c_feed c) ∧
  dgetN "source_trust" rec = VFloat (c_trust c) ∧ dgetN "disposition" rec = VStr "active" ∧
  ∃ t n m, dgetN "tlp" rec = VStr t ∧ tlp_rank t = Some n ∧ tlp_rank (c_tlp c) = Some m ∧ m <= n ∧
    ∀ own k, dgetN "tlp" raw = VStr own → tlp_rank own = Some k → k <= n.

Lemma tlp_rank_known t : t ∈ TLP_LEVELS → is_Some (tlp_rank t).
Proof. intros H. repeat (apply elem_of_cons in H as [->|H]; [vm_compute; eauto|]). by apply elem_of_nil in H. Qed.
Lemma normalize_stamped c raw tenant now rec :
  c_tlp c ∈ TLP_LEVELS → norm_rec c raw tenant now = Ok rec → stamped c tenant raw rec.
Proof.
  intros Hc H. unfold normalize in H. inv_ok. unfold stamped. split_and!; try reflexivity.
  destruct (tlp_rank_known _ Hc) as [m Hrank].
  match goal with Hl : marking _ = Ok ?l |- _ => rename Hl into Hlevel; set (level := l) in * end.
  destruct (most_restrictive_tlp [Some (c_tlp c); level]) as [t|] eqn:Et.
  - pose proof (most_restrictive_spec _ _ Et) as (n & Hn & Hmax). exists t, n, m. split_and!; [reflexivity|done|done| |].
    + eapply Hmax; [|exact Hrank]. by left.
    + intros own k Ho Hk. eapply Hmax; [|exact Hk]. unfold marking in Hlevel. rewrite Ho in Hlevel. simpl in Hlevel.
      injection Hlevel as <-. right. by left.
  - exfalso. eapply most_restrictive_none; [exact Et| |exact Hrank]. by left.
Qed.
Lemma emit_all_spec c raws tenant now out :
  emit_all ip_address urlsplit urlunsplit c raws tenant now = Ok out →
  (∀ rec, rec ∈ out → ∃ raw, raw ∈ raws ∧ norm_rec c raw tenant now = Ok rec ∧ valid intel_schema (VDict rec) = true) ∧
  (∀ raw, raw ∈ raws → ∃ rec, norm_rec c raw tenant now = Ok rec ∧ (valid intel_schema (VDict rec) = true → rec ∈ out)).
Proof.
  revert out. induction raws as [|raw raws IH]; intros out; cbn [emit_all].
  { intros [= <-]. split; [intros rec Hr; by apply elem_of_nil in Hr|intros raw Hr; by apply elem_of_nil in Hr]. }
  intros H. apply bind_ok_inv in H as (o & Ho & H). apply bind_ok_inv in H as (rest & Hrest & [= <-]).
  destruct (IH _ Hrest) as [H1 H2]. unfold _emit in Ho. apply bind_ok_inv in Ho as (rec & Hn & Ho).
  apply bind_ok_inv in Ho as (b & Hb & [= <-]).
  assert (Hout : ∀ r, r ∈ (if b then rec :: rest else rest) → ∃ raw0, raw0 ∈ raw :: raws ∧ norm_rec c raw0 tenant now = Ok r ∧ valid intel_schema (VDict r) = true).
  { assert (Hrest' : ∀ r, r ∈ rest → ∃ raw0, raw0 ∈ raw :: raws ∧ norm_rec c raw0 tenant now = Ok r ∧ valid intel_schema (VDict r) = true).
    { intros r Hr. destruct (H1 r Hr) as (w & ? & ? & ?). exists w. split_and!; [by right|done..]. }
    destruct b; [|done]. intros r [->|Hr]%elem_of_cons; [|auto]. exists raw. split_and!; [by left|done|by apply validate_contract]. }
  replace (match (if b then Some rec else None) with Some rec => rec :: rest | None => rest end) with (if b then rec :: rest else rest) by (by destruct b).
  split; [done|]. intros w [->|Hw]%elem_of_cons.
  - exists rec. split; [done|]. intros Hv%validate_contract. rewrite Hb in Hv. injection Hv as ->. by left.
  - destruct (H2 w Hw) as (r & Hr & Hin). exists r. split; [done|]. intros Hv. destruct b; [right|]; auto.
Qed.
End emitted.
