(* ===== verification/FeedConnectors.v ===== *)
(** * STIX and MISP feeds, and what a connector delivers (services/threat-intel/feeds.py)

    The parsers of STIX 2.1 bundles and MISP events, the STIX validity window, and
    [records] and [revocations] of every kind of connector.

    A document is the value [json.loads] gave; the regular expressions are the scanners
    their alternatives amount to, a case-insensitive class being closed under case. *)

From S2P Require Import Prelude Order PyVal PyString OrderedMap PyTime JsonSchema ThreatIntel IntelMatch FeedRecords.
Set Default Proof Using "Type".

(** ** STIX patterns *)

Definition is_alpha (c : ascii) : bool := is_upper c || is_lower c.
Definition is_object_char (c : ascii) : bool := is_alnum c || one_of "_-" c.
Definition is_property_char (c : ascii) : bool := is_alnum c || one_of "._'-" c.
Fixpoint take_while (p : ascii → bool) (s : string) : string * string :=
  match s with
  | String c s' => if p c then let '(w, r) := take_while p s' in (String c w, r) else ("", s)
  | EmptyString => ("", "")
  end.
Definition skip (p : ascii → bool) (s : string) : string := (take_while p s).2.
Definition spaces : string → string := skip is_space.
Definition optional_char (c : ascii) (s : string) : string := default s (expect c s).
(** [_STIX_EQ]: the object type, the property and the value of one equality. *)
Definition _STIX_EQ (s : string) : option (string * string * string) :=
  let s := spaces (optional_char "[" s) in
  let '(obj, s) := take_while is_object_char s in
  guard_ (str_truthy obj);;
  s ← expect ":" s;
  let '(prop, s) := take_while is_property_char s in
  guard_ (str_truthy prop);;
  s ← expect "=" (spaces s);
  s ← expect "'" (spaces s);
  let '(value, s) := take_while (λ c, negb (is_char "'" c)) s in
  s ← expect "'" s;
  guard_ (String.eqb (spaces (optional_char "]" (spaces s))) "");;
  Some (obj, prop, value).

(** [_STIX_BOOL]: an operator word between two characters that are not letters. *)
Definition keyword_at (kw s : string) : bool :=
  String.eqb (lower (take_chars (String.length kw) s)) (lower kw) &&
  match drop_chars (String.length kw) s with String c _ => negb (is_alpha c) | EmptyString => true end.
Fixpoint bool_after (letter : bool) (s : string) : bool :=
  (negb letter && existsb (λ kw, keyword_at kw s) ["AND"; "OR"; "FOLLOWEDBY"]) ||
  match s with String c s => bool_after (is_alpha c) s | EmptyString => false end.
Definition _STIX_BOOL (s : string) : bool := bool_after false s.

(** [_STIX_CMP]: a colon, property characters, spaces, an operator; what follows it. *)
Definition operators : list string := ["!="; "<="; ">="; "="; "<"; ">"; "IN"; "LIKE"; "MATCHES"; "ISSUPERSET"; "ISSUBSET"].
Definition operator_at (s : string) : option string :=
  head (omap (λ op, if String.eqb (lower (take_chars (String.length op) s)) (lower op)
                    then Some (drop_chars (String.length op) s) else None) operators).
(** The longest run of property characters first, then shorter ones. *)
Fixpoint after_property (seen : bool) (s : string) : option string :=
  let stop := if seen then operator_at (spaces s) else None in
  match s with
  | String c s' =>
      if is_property_char c
      then match after_property true s' with Some r => Some r | None => stop end
      else stop
  | EmptyString => stop
  end.
(** [len(findall)]: the matches do not overlap; [skipped] characters belong to the last one. *)
Fixpoint comparisons (skipped : nat) (s : string) : nat :=
  match s with
  | EmptyString => 0
  | String c s' =>
      match skipped with
      | S n => comparisons n s'
      | O =>
          match (if is_char ":" c then after_property false s' else None) with
          | Some r => S (comparisons (String.length s' - String.length r) s')
          | None => comparisons 0 s'
          end
      end
  end.

Definition _stix_type (obj_type prop : string) : option string :=
  let obj_type := lower obj_type in
  let prop := lower prop in
  if mem obj_type ["ipv4-addr"; "ipv6-addr"] && String.eqb prop "value" then Some "ip"
  else if String.eqb obj_type "domain-name" && String.eqb prop "value" then Some "domain"
  else if String.eqb obj_type "url" && String.eqb prop "value" then Some "url"
  else if String.eqb obj_type "file" && starts_with "hashes." prop then Some "hash"
  else if String.eqb obj_type "x509-certificate" && starts_with "hashes." prop then Some "cert"
  else None.
Definition _stix_pattern (pattern : val) : res (option (string * string)) :=
  if negb (truthy pattern) then Ok None
  else
    match pattern with
    | VStr p =>
        Ok (if _STIX_BOOL p then None
            else if negb (comparisons 0 p =? 1)%nat then None
            else match _STIX_EQ (strip p) with
                 | Some (obj, prop, value) => if str_truthy value then t ← _stix_type obj prop; Some (t, value) else None
                 | None => None
                 end)
    | _ => Raise TypeError
    end.

(** ** Markings *)

Definition _STIX_TLP_IDS : list (val * string) :=
  [(VStr "marking-definition--94868c89-83c2-464b-929b-a1a8aa3c8487", "clear");
   (VStr "marking-definition--613f2e26-407d-48c7-9eca-b8e91df99dc9", "clear");
   (VStr "marking-definition--bab4a63c-aed9-4cf5-a766-dfca5abac2bb", "green");
   (VStr "marking-definition--34098fce-860f-48ae-8e50-ebd3cc5e41da", "green");
   (VStr "marking-definition--55d920b0-5e8b-4f79-9ee9-91f868d9b421", "amber");
   (VStr "marking-definition--f88d31f6-486f-44da-b317-01333bde0b82", "amber");
   (VStr "marking-definition--939a9414-2ddd-4d32-a0cd-375ea402b003", "amber+strict");
   (VStr "marking-definition--e828b379-4e03-4974-9ac4-e53a884c97c1", "red");
   (VStr "marking-definition--5e57c739-391a-4eb3-b6be-7d15ca92d5ed", "red")].
(** The markings of a bundle: the levels by identifier (the last definition wins), and
    the identifiers of the other markings. *)
Record markings := { mk_tlp : list (val * string); mk_nontlp : list val }.
Fixpoint tlp_of (ref : val) (t : list (val * string)) : option string :=
  match t with [] => None | (k, l) :: t => if py_eqb ref k then Some l else tlp_of ref t end.
Definition known_markings : markings := {| mk_tlp := _STIX_TLP_IDS; mk_nontlp := [] |}.

Fixpoint combine_levels (refs : list val) (m : markings) : res (list string) :=
  match refs with
  | [] => Ok []
  | r :: refs =>
      check (hashable r) TypeError;;
      rest ← combine_levels refs m;
      Ok (match tlp_of r (mk_tlp m) with
          | Some l => l :: rest
          | None => if val_in r (mk_nontlp m) then rest else "red" :: rest
          end)
  end.
Definition _combine_marking_refs (refs : list val) (m : markings) : res (option string) :=
  match refs with
  | [] => Ok None
  | _ => levels ← combine_levels refs m; Ok (most_restrictive_tlp (Some <$> levels))
  end.

(** [s.replace(sub, "")] *)
Fixpoint remove_from (skipped : nat) (sub s : string) : string :=
  match s with
  | EmptyString => EmptyString
  | String c s' =>
      match skipped with
      | S n => remove_from n sub s'
      | O => if starts_with sub s then remove_from (Nat.pred (String.length sub)) sub s' else String c (remove_from 0 sub s')
      end
  end.
Definition remove_all (sub s : string) : string := remove_from 0 sub s.
(** The part after the first colon. *)
Definition after_colon (s : string) : string := match (take_while (λ c, negb (is_char ":" c)) s).2 with String _ r => r | EmptyString => "" end.
Definition as_text (v : val) : res string := match v with VStr s => Ok s | _ => Raise AttributeError end.
Definition some_text (s : string) : option string := if str_truthy s then Some s else None.
Definition defined_level (o : dict) : res (option string) :=
  if val_eq_str (dgetN "definition_type" o) "tlp" then
    d ← as_dict (py_or (dget_or "definition" (VDict []) o) (VDict []));
    v ← (if truthy (dgetN "tlp" d) then as_text (dgetN "tlp" d)
         else n ← as_text (dget_or "name" (VStr "") o); Ok (strip (remove_all "TLP:" n)));
    Ok (some_text (lower v))
  else
    n ← as_text (dget_or "name" (VStr "") o);
    Ok (if starts_with "TLP:" (upper n) then Some (lower (strip (after_colon n))) else None).
Definition add_marking (m : markings) (v : val) : res markings :=
  o ← as_dict v;
  if negb (val_eq_str (dgetN "type" o) "marking-definition") then Ok m
  else
    lvl ← defined_level o;
    let mid := dgetN "id" o in
    match (l ← lvl; guard_ (mem l TLP_LEVELS);; Some l) with
    | Some l => check (hashable mid) TypeError;; Ok {| mk_tlp := (mid, l) :: mk_tlp m; mk_nontlp := mk_nontlp m |}
    | None =>
        if truthy mid
        then check (hashable mid) TypeError;; Ok {| mk_tlp := mk_tlp m; mk_nontlp := mid :: mk_nontlp m |}
        else Ok m
    end.
Fixpoint bundle_markings (m : markings) (objs : list val) : res markings :=
  match objs with [] => Ok m | o :: objs => m ← add_marking m o; bundle_markings m objs end.

(** ** The STIX parser *)

Definition marking_refs (o : dict) : res (list val) :=
  refs ← as_list (dget_or "object_marking_refs" (VList []) o);
  granular ← as_list (dget_or "granular_markings" (VList []) o);
  gs ← mapM as_dict granular;
  Ok (refs ++ List.filter truthy (dgetN "marking_ref" <$> gs)).
Definition stix_score (o : dict) : res dict :=
  match dgetN "confidence" o with
  | (VInt _ | VFloat _ | VBool _) as v => f ← py_float v; Ok [("score", VFloat f)]
  | _ => Ok []
  end.
(** One indicator object; [None] for what is skipped. *)
Definition stix_raw (m : markings) (v : val) : res (option dict) :=
  o ← as_dict v;
  if negb (val_eq_str (dgetN "type" o) "indicator") then Ok None
  else
    parsed ← _stix_pattern (dget_or "pattern" (VStr "") o);
    match parsed with
    | None => Ok None
    | Some (itype, value) =>
        score ← stix_score o;
        refs ← marking_refs o;
        tlp ← _combine_marking_refs refs m;
        Ok (Some ([("indicator", VStr value); ("type", VStr itype); ("revoked", VBool (truthy (dgetN "revoked" o)))] ++ score ++
                  (if truthy (dgetN "valid_from" o) then [("first_seen", dgetN "valid_from" o)] else []) ++
                  (if truthy (dgetN "valid_until" o) then [("expiry", dgetN "valid_until" o)] else []) ++
                  match tlp with Some t => [("tlp", VStr t)] | None => [] end))
    end.
(** A document that is not an object has no [get], a bare list included. *)
Definition stix_parse (doc : val) : res (list dict) :=
  d ← as_dict doc;
  objs ← as_list (dget_or "objects" (VList []) d);
  m ← bundle_markings known_markings objs;
  raws ← mapM (stix_raw m) objs;
  Ok (omap id raws).

(** [lifecycle.epoch] of a value that is truthy. *)
Definition epoch_of (v : val) : res Z := s ← as_text v; epoch s.
Definition bound_holds (test : Z → bool) (v : val) : res bool := if truthy v then t ← epoch_of v; Ok (test t) else Ok true.
Definition _stix_within_validity (raw : dict) (now : Z) : res bool :=
  match and_then (bound_holds (λ t, t <=? now) (dgetN "first_seen" raw)) (bound_holds (λ t, now <? t) (dgetN "expiry" raw)) with
  | Raise ValueError => Ok false
  | r => r
  end.
Definition _withdrawn (raw : dict) (now : Z) : res bool :=
  if truthy (dgetN "revoked" raw) then Ok true else negb <$> _stix_within_validity raw now.

(** ** MISP *)

Definition _MISP_TYPE : list (string * string) :=
  [("ip-src", "ip"); ("ip-dst", "ip"); ("domain", "domain"); ("hostname", "domain"); ("url", "url"); ("md5", "hash");
   ("sha1", "hash"); ("sha256", "hash"); ("ja3-fingerprint-md5", "ja3"); ("ja4", "ja4"); ("x509-fingerprint-sha1", "cert")].
Definition tag_level (v : val) : res (option string) :=
  tag ← as_dict v;
  name ← as_text (py_or (dgetN "name" tag) (VStr ""));
  let l := strip (after_colon (lower name)) in
  Ok (if starts_with "tlp:" (lower name) && mem l TLP_LEVELS then Some l else None).
Definition _misp_tlp_levels (tags : val) : res (list string) :=
  ts ← as_list (py_or tags (VList [])); ls ← mapM tag_level ts; Ok (omap id ls).
Definition misp_attribute (ev_levels : list string) (v : val) : res (option dict) :=
  attr ← as_dict v;
  check (hashable (dgetN "type" attr)) TypeError;;
  match assoc (type_text (dgetN "type" attr)) _MISP_TYPE with
  | Some itype =>
      if negb (truthy (dgetN "value" attr)) then Ok None
      else
        own ← _misp_tlp_levels (dgetN "Tag" attr);
        Ok (Some ([("indicator", dgetN "value" attr); ("type", VStr itype)] ++
                  match most_restrictive_tlp (Some <$> own ++ ev_levels) with Some t => [("tlp", VStr t)] | None => [] end))
  | None => Ok None
  end.
Definition misp_event (v : val) : res (list dict) :=
  ev ← as_dict v;
  ev_levels ← _misp_tlp_levels (dgetN "Tag" ev);
  attrs ← as_list (dget_or "Attribute" (VList []) ev);
  raws ← mapM (misp_attribute ev_levels) attrs;
  Ok (omap id raws).
(** The events of a document; [in] on a list or a text is membership, and their items
    have no string keys. *)
Definition misp_events (doc : val) : res (list val) :=
  match doc with
  | VDict d =>
      match dget "response" d with
      | Some r => es ← as_list r; mapM (λ e, o ← as_dict e; Ok (dget_or "Event" (VDict []) o)) es
      | None => Ok [match dget "Event" d with Some e => e | None => doc end]
      end
  | VList l => if val_in (VStr "response") l || val_in (VStr "Event") l then Raise TypeError else Ok [doc]
  | VStr s => if contains "response" s || contains "Event" s then Raise TypeError else Ok [doc]
  | _ => Raise TypeError
  end.
Definition misp_parse (doc : val) : res (list dict) :=
  es ← misp_events doc; raws ← mapM misp_event es; Ok (concat raws).

(** ** What a connector delivers *)

Inductive kind := Http | AbuseCh (variant : string) | StixTaxii | Misp.
Inductive payload := text_payload (s : string) | document (v : val).
Definition parse (k : kind) (p : payload) : res (list dict) :=
  match k, p with
  | Http, text_payload s => Ok (http_parse s)
  | AbuseCh variant, text_payload s => abusech_parse variant s
  | StixTaxii, document v => stix_parse v
  | Misp, document v => misp_parse v
  | _, _ => Raise AttributeError
  end.
Record marker := { w_tenant : string; w_type : string; w_indicator : string; w_source : string; w_feed : string }.

Section deliver.
Context (ip_address : string → option (Z * string)) (urlsplit : string → res url)
  (urlunsplit : string → string → string → string).

Fixpoint stix_emit (c : connector) (raws : list dict) (tenant : string) (now : Z) : res (list dict) :=
  match raws with
  | [] => Ok []
  | raw :: raws =>
      w ← _withdrawn raw now;
      r ← (if w : bool then Ok None else _emit ip_address urlsplit urlunsplit c raw tenant now);
      rest ← stix_emit c raws tenant now;
      Ok (match r with Some rec => rec :: rest | None => rest end)
  end.
Definition records (k : kind) (c : connector) (p : payload) (tenant : string) (now : Z) : res (list dict) :=
  raws ← parse k p;
  match k with
  | StixTaxii => stix_emit c raws tenant now
  | _ => emit_all ip_address urlsplit urlunsplit c raws tenant now
  end.
Fixpoint stix_markers (c : connector) (raws : list dict) (tenant : string) (now : Z) : res (list marker) :=
  match raws with
  | [] => Ok []
  | raw :: raws =>
      w ← _withdrawn raw now;
      m ← (if w : bool then
             itype ← dindex "type" raw;
             value ← dindex "indicator" raw;
             text ← text_value value;
             indicator ← norm_indicator ip_address urlsplit urlunsplit (type_text itype) text;
             Ok [{| w_tenant := tenant; w_type := type_text itype; w_indicator := indicator; w_source := c_source c; w_feed := c_feed c |}]
           else Ok []);
      rest ← stix_markers c raws tenant now;
      Ok (m ++ rest)
  end.
Definition revocations (k : kind) (c : connector) (p : payload) (tenant : string) (now : Z) : res (list marker) :=
  match k with
  | StixTaxii => raws ← parse k p; stix_markers c raws tenant now
  | _ => Ok []
  end.
End deliver.

(** ** Facts *)

Section facts.
Context (ip_address : string → option (Z * string)) (urlsplit : string → res url)
  (urlunsplit : string → string → string → string).
Abbreviation norm_rec := (normalize ip_address urlsplit urlunsplit).
Abbreviation recs := (records ip_address urlsplit urlunsplit).
Abbreviation revs := (revocations ip_address urlsplit urlunsplit).

(** Whether the validity window keeps an entry out; only STIX feeds have one. *)
Definition kept_out (k : kind) (raw : dict) (now : Z) : bool :=
  match k with StixTaxii => bool_decide (_withdrawn raw now = Ok true) | _ => false end.
(** The marker that withdraws what was stored for an entry. *)
Definition marks (c : connector) (tenant : string) (raw : dict) (m : marker) : Prop :=
  w_tenant m = tenant ∧ w_source m = c_source c ∧ w_feed m = c_feed c ∧ dgetN "type" raw = VStr (w_type m) ∧
  ∃ text, text_value (dgetN "indicator" raw) = Ok text ∧
    norm_indicator ip_address urlsplit urlunsplit (w_type m) text = Ok (w_indicator m).

Lemma stix_emit_live c raws tenant now out :
  stix_emit ip_address urlsplit urlunsplit c raws tenant now = Ok out →
  emit_all ip_address urlsplit urlunsplit c (List.filter (λ raw, negb (kept_out StixTaxii raw now)) raws) tenant now = Ok out ∧
  ∀ raw, raw ∈ raws → is_ok (_withdrawn raw now) = true.
Proof.
  revert out. induction raws as [|raw raws IH]; intros out; cbn [stix_emit List.filter].
  { intros [= <-]. split; [done|]. intros raw Hr. by apply elem_of_nil in Hr. }
  intros H. apply bind_ok_inv in H as (w & Hw & H). apply bind_ok_inv in H as (r & Hr & H).
  apply bind_ok_inv in H as (rest & Hrest & [= <-]). destruct (IH _ Hrest) as [IH1 IH2]. split.
  - unfold kept_out at 1. rewrite Hw. destruct w.
    + injection Hr as <-. rewrite bool_decide_eq_true_2 by done. exact IH1.
    + rewrite bool_decide_eq_false_2 by done. cbn [negb emit_all]. by rewrite Hr, IH1.
  - intros x [->|Hx]%elem_of_cons; [by rewrite Hw|auto].
Qed.
Lemma records_emit k c p tenant now out :
  recs k c p tenant now = Ok out →
  ∃ raws, parse k p = Ok raws ∧
    emit_all ip_address urlsplit urlunsplit c (List.filter (λ raw, negb (kept_out k raw now)) raws) tenant now = Ok out.
Proof.
  unfold records. intros H. apply bind_ok_inv in H as (raws & Hp & H). exists raws. split; [done|].
  destruct k; try (unfold kept_out; rewrite (List.filter_ext_in _ (λ _, true)) by done; by rewrite List.filter_true).
  by apply stix_emit_live in H as [? _].
Qed.
Lemma stix_markers_spec c raws tenant now ms :
  stix_markers ip_address urlsplit urlunsplit c raws tenant now = Ok ms →
  (∀ raw, raw ∈ raws → ∃ t, dget "type" raw = Some (VStr t)) →
  (∀ raw, raw ∈ raws → kept_out StixTaxii raw now = true → ∃ m, m ∈ ms ∧ marks c tenant raw m) ∧
  (∀ m, m ∈ ms → ∃ raw, raw ∈ raws ∧ kept_out StixTaxii raw now = true ∧ marks c tenant raw m).
Proof.
  revert ms. induction raws as [|raw raws IH]; intros ms; cbn [stix_markers].
  { intros [= <-] _. split; [intros raw Hr; by apply elem_of_nil in Hr|intros m Hm; by apply elem_of_nil in Hm]. }
  intros H Ht. apply bind_ok_inv in H as (w & Hw & H). apply bind_ok_inv in H as (l & Hl & H).
  apply bind_ok_inv in H as (rest & Hrest & [= <-]).
  destruct (IH _ Hrest) as [IH1 IH2]; [intros x Hx; apply Ht; by right|].
  assert (Hhere : if w then ∃ m, l = [m] ∧ marks c tenant raw m else l = []).
  { destruct w; [|by injection Hl as <-]. destruct (Ht raw) as [t Et]; [by left|]. unfold dindex in Hl. rewrite Et in Hl. cbn in Hl.
    apply bind_ok_inv in Hl as (value & Hv & Hl). apply bind_ok_inv in Hl as (text & Htext & Hl).
    apply bind_ok_inv in Hl as (i & Hi & [= <-]). eexists. split; [done|]. unfold marks, dgetN, dget_or. rewrite Et. simpl.
    split_and!; try done. exists text. split; [|done]. unfold dindex in Hv.
    destruct (dget "indicator" raw); [by injection Hv as ->|done]. }
  assert (Hk : kept_out StixTaxii raw now = w).
  { unfold kept_out. rewrite Hw. destruct w; [by apply bool_decide_eq_true_2|by apply bool_decide_eq_false_2]. }
  split.
  - intros x [->|Hx]%elem_of_cons Hkx.
    + rewrite Hk in Hkx. destruct w; [|done]. destruct Hhere as (m & -> & Hm). exists m. split; [by left|done].
    + destruct (IH1 x Hx Hkx) as (m & Hm & ?). exists m. split; [|done]. apply elem_of_app. by right.
  - intros m [Hm|Hm]%elem_of_app.
    + destruct w; [|rewrite Hhere in Hm; by apply elem_of_nil in Hm]. destruct Hhere as (m' & -> & Hm'). apply list_elem_of_singleton in Hm as ->.
      exists raw. split_and!; [by left|done|done].
    + destruct (IH2 m Hm) as (x & ? & ? & ?). exists x. split_and!; [by right|done..].
Qed.
Lemma stix_parse_types doc raws raw : stix_parse doc = Ok raws → raw ∈ raws → ∃ t, dget "type" raw = Some (VStr t).
Proof.
  unfold stix_parse. intros H Hr. inv_ok.
  match goal with Hm : mapM _ _ = Ok ?l, Hr : raw ∈ omap id ?l |- _ => rename Hm into Hmap end.
  apply list_elem_of_omap in Hr as (o & Ho & Hid). simpl in Hid. subst o.
  assert (Hex : ∃ m v, stix_raw m v = Ok (Some raw)).
  { clear -Hmap Ho. match type of Hmap with mapM (stix_raw ?m) ?l = Ok ?k => revert Hmap Ho; generalize k; induction l as [|v l IH] end.
    - intros k [= <-] Ho. by apply elem_of_nil in Ho.
    - intros k H Ho. simpl in H. inv_ok. apply elem_of_cons in Ho as [->|Ho]; [eauto|]. eapply IH; eauto. }
  destruct Hex as (m & v & Hx). unfold stix_raw in Hx. apply bind_ok_inv in Hx as (o & _ & Hx).
  destruct (negb _); [done|]. apply bind_ok_inv in Hx as ([[t value]|] & _ & Hx); [|done]. inv_ok. by exists t.
Qed.

(** C38. What a feed delivers to the store.  For every kind of connector, feed content,
    tenant and time, when the feed is read to its end without an exception: each delivered
    record comes from an entry of the feed that its validity window does not keep out,
    conforms to contracts/intel.schema.json (its date pattern as Python's re reads it, which
    lets a final line feed pass), names the tenant and the feed, and carries a marking at
    least as restrictive as the feed's and the entry's own; each entry of the feed is either
    withdrawn, and then a revocation names its indicator, or normalized, and then delivered
    whenever it conforms; and a revocation is only issued for a withdrawn entry. *)
Theorem feed_records_conform k default_score feed source trust url tlp ttl auth pin c p tenant now out ms :
  make_connector default_score feed source trust url tlp ttl auth pin = Ok c →
  recs k c p tenant now = Ok out → revs k c p tenant now = Ok ms →
  ∃ raws, parse k p = Ok raws ∧
    (∀ rec, rec ∈ out → ∃ raw, raw ∈ raws ∧ kept_out k raw now = false ∧ norm_rec c raw tenant now = Ok rec ∧
       valid intel_schema (VDict rec) = true ∧ stamped c tenant raw rec) ∧
    (∀ raw, raw ∈ raws → if kept_out k raw now then ∃ m, m ∈ ms ∧ marks c tenant raw m
       else ∃ rec, norm_rec c raw tenant now = Ok rec ∧ (valid intel_schema (VDict rec) = true → rec ∈ out)) ∧
    (∀ m, m ∈ ms → ∃ raw, raw ∈ raws ∧ kept_out k raw now = true ∧ marks c tenant raw m).
Proof.
  intros Hc Ho Hm. assert (Htlp : c_tlp c ∈ TLP_LEVELS).
  { unfold make_connector in Hc. inv_ok. by apply mem_true. }
  apply records_emit in Ho as (raws & Hp & Ho). apply emit_all_spec in Ho as [H1 H2]. exists raws. split; [done|].
  assert (Hkept : ∀ raw, raw ∈ List.filter (λ raw, negb (kept_out k raw now)) raws ↔ raw ∈ raws ∧ kept_out k raw now = false).
  { intros raw. rewrite !list_elem_of_In, filter_In, negb_true_iff. done. }
  assert (Hms : (∀ raw, raw ∈ raws → kept_out k raw now = true → ∃ m, m ∈ ms ∧ marks c tenant raw m) ∧
                (∀ m, m ∈ ms → ∃ raw, raw ∈ raws ∧ kept_out k raw now = true ∧ marks c tenant raw m)).
  { destruct k; try (injection Hm as <-; split; [done|intros m Hm; by apply elem_of_nil in Hm]).
    unfold revocations in Hm. rewrite Hp in Hm. eapply stix_markers_spec; [exact Hm|]. destruct p as [s|doc]; [done|].
    intros raw Hr. exact (stix_parse_types doc raws raw Hp Hr). }
  destruct Hms as [Hm1 Hm2]. split_and!; [| |done].
  - intros rec Hr. destruct (H1 rec Hr) as (raw & [Hin Hk]%Hkept & Hn & Hv). exists raw. split_and!; try done. by eapply normalize_stamped.
  - intros raw Hin. destruct (kept_out k raw now) eqn:Ek; [by apply Hm1|]. apply H2, Hkept. done.
Qed.
End facts.

(** *** Markings *)

Lemma mapM_ok_elem {A B} (f : A → res B) l k y : mapM f l = Ok k → y ∈ k → ∃ x, x ∈ l ∧ f x = Ok y.
Proof.
  revert k. induction l as [|x l IH]; intros k H Hy; simpl in H; [injection H as <-; by apply elem_of_nil in Hy|].
  inv_ok. apply elem_of_cons in Hy as [->|Hy]; [exists x; split; [by left|done]|].
  destruct (IH _ Hm0 Hy) as (x' & ? & ?). exists x'. split; [by right|done].
Qed.
(** What a marking reference demands of the level of a record. *)
Definition demands (m : markings) (r : val) (P : string → Prop) : Prop :=
  match tlp_of r (mk_tlp m) with Some l => P l | None => val_in r (mk_nontlp m) = true ∨ P "red" end.
Lemma combine_levels_spec refs m ls : combine_levels refs m = Ok ls → ∀ r, r ∈ refs → demands m r (λ l, l ∈ ls).
Proof.
  revert ls. induction refs as [|x refs IH]; intros ls H r Hr; [by apply elem_of_nil in Hr|]. cbn [combine_levels] in H. inv_ok.
  assert (Hmono : ∀ y, demands m y (λ l, l ∈ a0) → demands m y (λ l, l ∈ match tlp_of x (mk_tlp m) with
      | Some l => l :: a0 | None => if val_in x (mk_nontlp m) then a0 else "red" :: a0 end)).
  { intros y. unfold demands. assert (Hsub : ∀ l, l ∈ a0 → l ∈ match tlp_of x (mk_tlp m) with
      | Some l => l :: a0 | None => if val_in x (mk_nontlp m) then a0 else "red" :: a0 end).
    { intros l Hl. destruct (tlp_of x _); [by right|]. destruct (val_in x _); [done|by right]. }
    destruct (tlp_of y _); [apply Hsub|intros [?|?]; auto]. }
  apply elem_of_cons in Hr as [->|Hr]; [|by apply Hmono, IH]. unfold demands.
  destruct (tlp_of x (mk_tlp m)); [by left|]. destruct (val_in x (mk_nontlp m)); [by left|right; by left].
Qed.
Definition at_least (l t : string) : Prop := ∀ k n, tlp_rank l = Some k → tlp_rank t = Some n → k <= n.
Lemma combined_level refs m lvl :
  _combine_marking_refs refs m = Ok lvl → ∀ r, r ∈ refs →
  demands m r (λ l, tlp_rank l ≠ None → ∃ t, lvl = Some t ∧ at_least l t).
Proof.
  intros H r Hr. destruct refs as [|x refs]; [by apply elem_of_nil in Hr|]. unfold _combine_marking_refs in H.
  apply bind_ok_inv in H as (ls & Hls & [= <-]). pose proof (combine_levels_spec _ _ _ Hls r Hr) as Hd.
  assert (Hin : ∀ l, l ∈ ls → tlp_rank l ≠ None → ∃ t, most_restrictive_tlp (Some <$> ls) = Some t ∧ at_least l t).
  { intros l Hl Hk. assert (Hl' : Some l ∈ Some <$> ls) by (apply list_elem_of_fmap; eauto).
    destruct (most_restrictive_tlp (Some <$> ls)) as [t|] eqn:Et.
    - exists t. split; [done|]. intros k n Hkl Hn. apply most_restrictive_spec in Et as (n' & Hn' & Hmax).
      rewrite Hn in Hn'. injection Hn' as <-. by eapply Hmax.
    - destruct (tlp_rank l) as [k|] eqn:Ek; [|done]. exfalso. by eapply most_restrictive_none. }
  unfold demands in *. destruct (tlp_of r _); [by apply Hin|]. destruct Hd as [?|?]; [by left|right; by apply Hin].
Qed.
Lemma stix_raw_inv m v raw :
  stix_raw m v = Ok (Some raw) →
  ∃ o refs lvl, v = VDict o ∧ marking_refs o = Ok refs ∧ _combine_marking_refs refs m = Ok lvl ∧
    ∀ t, lvl = Some t → dgetN "tlp" raw = VStr t.
Proof.
  unfold stix_raw. intros H. apply bind_ok_inv in H as (o & Ho & H). destruct v; try done. injection Ho as <-.
  destruct (negb _); [done|]. apply bind_ok_inv in H as ([[t value]|] & _ & H); [|done].
  apply bind_ok_inv in H as (score & Hs & H). apply bind_ok_inv in H as (refs & Hr & H). apply bind_ok_inv in H as (lvl & Hl & [= <-]).
  exists d, refs, lvl. split_and!; [done..|]. intros t0 ->. unfold stix_score in Hs.
  assert (Hsc : score = [] ∨ ∃ f, score = [("score", f)]) by (destruct (dgetN "confidence" d); inv_ok; eauto).
  destruct Hsc as [->|[f ->]]; destruct (truthy (dgetN "valid_from" d)), (truthy (dgetN "valid_until" d)); reflexivity.
Qed.

(** Markings bind what is shared.  In every record a STIX bundle delivers, each marking
    the object refers to (itself or on a part of it) holds: a reference to a TLP marking,
    standard or defined in the bundle, makes the record at least that restrictive; a
    reference that names no marking of the bundle makes it red, so that it is never
    exported; only markings the bundle defines as something other than TLP are free. *)
Theorem stix_markings_bind ip_address urlsplit urlunsplit c doc tenant now out :
  c_tlp c ∈ TLP_LEVELS →
  records ip_address urlsplit urlunsplit StixTaxii c (document doc) tenant now = Ok out →
  ∃ d objs m, doc = VDict d ∧ as_list (dget_or "objects" (VList []) d) = Ok objs ∧ bundle_markings known_markings objs = Ok m ∧
    ∀ rec, rec ∈ out → ∃ o refs t, VDict o ∈ objs ∧ marking_refs o = Ok refs ∧ dgetN "tlp" rec = VStr t ∧
      ∀ r, r ∈ refs → match tlp_of r (mk_tlp m) with
        | Some l => at_least l t
        | None => val_in r (mk_nontlp m) = true ∨ t = "red" ∧ ∀ i, i_tlp i = Some t → is_exportable i = false
        end.
Proof.
  intros Hc H. apply records_emit in H as (raws & Hp & H). apply emit_all_spec in H as [H _].
  cbn [parse] in Hp. unfold stix_parse in Hp. apply bind_ok_inv in Hp as (d & Hd & Hp). apply bind_ok_inv in Hp as (objs & Ho & Hp).
  apply bind_ok_inv in Hp as (m & Hm & Hp). apply bind_ok_inv in Hp as (os & Hos & [= <-]). destruct doc; try done. injection Hd as ->.
  exists d, objs, m. split_and!; [done..|]. intros rec Hr. destruct (H rec Hr) as (raw & Hin & Hn & _).
  apply list_elem_of_In, filter_In in Hin as [Hin%list_elem_of_In _]. apply list_elem_of_omap in Hin as (x & Hx & Hid). simpl in Hid. subst x.
  destruct (mapM_ok_elem _ _ _ _ Hos Hx) as (v & Hv & Hraw). apply stix_raw_inv in Hraw as (o & refs & lvl & -> & Hrefs & Hl & Htlp).
  destruct (normalize_stamped _ _ _ _ _ _ _ _ Hc Hn) as (_ & _ & _ & _ & _ & t & n & _ & Ht & Hrank & _ & _ & Hown).
  exists o, refs, t. split_and!; [done..|]. intros r Hin. pose proof (combined_level _ _ _ Hl r Hin) as Hd.
  assert (Hge : ∀ l, (tlp_rank l ≠ None → ∃ t, lvl = Some t ∧ at_least l t) → at_least l t).
  { intros l Hx' k n' Hk Hn'. rewrite Hrank in Hn'. injection Hn' as <-. destruct Hx' as (t' & -> & Hat); [congruence|].
    specialize (Htlp _ eq_refl). destruct (tlp_rank t') as [n'|] eqn:Et'.
    - etrans; [by eapply Hat|]. by eapply Hown.
    - exfalso. clear -Hl Et'. unfold _combine_marking_refs in Hl. destruct refs; [done|]. apply bind_ok_inv in Hl as (ls & _ & [= Hms]).
      apply most_restrictive_spec in Hms as (? & ? & _). congruence. }
  unfold demands in Hd. destruct (tlp_of r _); [by apply Hge|]. destruct Hd as [?|Hd%Hge]; [by left|right].
  specialize (Hd 4 n eq_refl Hrank). assert (Et : t = "red").
  { clear -Hrank Hd. unfold tlp_rank, TLP_LEVELS in Hrank. cbn [index_of] in Hrank.
    repeat match type of Hrank with context [String.eqb ?a ?b] => destruct (String.eqb_spec a b) as [->|]; [try reflexivity|] end;
    cbn in Hrank; try discriminate; injection Hrank as <-; lia. }
  split; [done|]. intros i Hi. unfold is_exportable. rewrite Hi, Et. reflexivity.
Qed.

(** ** Examples *)

Definition no_address (s : string) : option (Z * string) := None.
Definition no_url (s : string) : res url := Raise ValueError.
Definition glue (a b c : string) : string := a +:+ b +:+ c.
Definition sdo (pattern : string) (more : dict) : val :=
  VDict ([("type", VStr "indicator"); ("pattern", VStr pattern)] ++ more).
Definition ex_bundle : val :=
  VDict [("objects", VList
    [sdo "[domain-name:value = 'Bad.example']" [("confidence", VInt 80)];
     sdo "[domain-name:value = 'gone.example']" [("revoked", VBool true)];
     sdo "[file:hashes.MD5 = 'AB']" [("object_marking_refs", VList [VStr "marking-definition--unknown"])];
     sdo "[domain-name:value = 'a.example' OR domain-name:value = 'b.example']" []])].
Definition ex_connector : connector :=
  {| c_feed := "feed"; c_source := "cti"; c_trust := lit "0.7"; c_url := "https://cti.example/"; c_tlp := "green";
     c_ttl := 86400000000; c_auth := None; c_pin := None; c_default_score := lit "75" |}.
Definition ex_records : res (list dict) := records no_address no_url glue StixTaxii ex_connector (document ex_bundle) "t" 1000000.
Definition ex_markers : res (list marker) := revocations no_address no_url glue StixTaxii ex_connector (document ex_bundle) "t" 1000000.
Example ex_delivered :
  (map (λ r, (dgetN "indicator" r, dgetN "type" r, dgetN "tlp" r)) <$> ex_records,
   map (λ m, (w_type m, w_indicator m)) <$> ex_markers) =
  (Ok [(VStr "bad.example", VStr "domain", VStr "green"); (VStr "ab", VStr "hash", VStr "red")], Ok [("domain", "gone.example")]).
Proof. vm_compute. reflexivity. Qed.
Lemma feed_records_conform_witness :
  ∃ out ms, ex_records = Ok out ∧ ex_markers = Ok ms ∧ length out = 2%nat ∧
    (∃ raws, parse StixTaxii (document ex_bundle) = Ok raws ∧
      ∀ rec, rec ∈ out → ∃ raw, raw ∈ raws ∧ valid intel_schema (VDict rec) = true ∧ stamped ex_connector "t" raw rec).
Proof.
  destruct ex_records as [out|e] eqn:Eo; [|by vm_compute in Eo]. destruct ex_markers as [ms|e] eqn:Em; [|by vm_compute in Em].
  exists out, ms. split_and!; [done|done|by vm_compute in Eo; injection Eo as <-|].
  destruct (feed_records_conform no_address no_url glue StixTaxii (lit "75") "feed" "cti" (VFloat (lit "0.7")) "https://cti.example/" "green"
    86400000000 None None ex_connector (document ex_bundle) "t" 1000000 out ms) as (raws & Hp & H & _);
    [vm_compute; reflexivity|exact Eo|exact Em|].
  exists raws. split; [exact Hp|]. intros rec Hr. destruct (H rec Hr) as (raw & H1 & _ & _ & H2 & H3). exact (ex_intro _ raw (conj H1 (conj H2 H3))).
Defined.
Lemma stix_markings_bind_witness :
  ∃ out, ex_records = Ok out ∧ ∃ d objs m, ex_bundle = VDict d ∧ as_list (dget_or "objects" (VList []) d) = Ok objs ∧
    bundle_markings known_markings objs = Ok m ∧ length objs = 4%nat ∧
    ∀ rec, rec ∈ out → ∃ o t, VDict o ∈ objs ∧ dgetN "tlp" rec = VStr t.
Proof.
  destruct ex_records as [out|e] eqn:Eo; [|by vm_compute in Eo]. exists out. split; [reflexivity|].
  destruct (stix_markings_bind no_address no_url glue ex_connector ex_bundle "t" 1000000 out) as (d & objs & m & Ed & Eobjs & Em & H);
    [by right; left|exact Eo|].
  exists d, objs, m. split; [exact Ed|]. split; [exact Eobjs|]. split; [exact Em|]. split.
  - injection Ed as <-. vm_compute in Eobjs. injection Eobjs as <-. reflexivity.
  - intros rec Hr. destruct (H rec Hr) as (o & refs & t & H1 & _ & H2 & _). exact (ex_intro _ o (ex_intro _ t (conj H1 H2))).
Defined.
(** A pattern whose value holds an operator word between other characters is taken for a
    compound one; a bare list of objects is not a document; a score that is not a number
    is the highest. *)
Example operator_word_in_value : _stix_pattern (VStr "[url:value = 'http://and.example/']") = Ok None.
Proof. vm_compute. reflexivity. Qed.
Example bare_list_refused : stix_parse (VList [sdo "[domain-name:value = 'a.example']" []]) = Raise AttributeError.
Proof. vm_compute. reflexivity. Qed.
Example score_not_a_number :
  map (dgetN "score") <$> records no_address no_url glue Http ex_connector (text_payload "a.example,domain,nan") "t" 1000000 =
  Ok [VFloat F100].
Proof. vm_compute. reflexivity. Qed.
