(* ===== verification/FeedTransport.v ===== *)
(** * Fetching feeds (services/threat-intel/feeds.py)

    The transport: certificate pins, credentials, redirects, and the pages of a TAXII
    collection.

    What the network does is a parameter: [peer] is the outcome of a TLS handshake (the
    certificate of the other side) and [answer] that of a request, both arbitrary
    functions of all that happened before, so a hostile server is one of them.  The trace
    records what this side did.  The test seam ([opener]) is left out. *)

From S2P Require Import Prelude Order PyVal PyString OrderedMap ThreatIntel FeedRecords.
Set Default Proof Using "Type".

(** [urllib.parse.quote]: the UTF-8 bytes of all but the unreserved characters. *)
Definition unreserved (c : ascii) : bool := is_alnum c || one_of "_.-~/" c.
Definition hex_char (n : Z) : ascii := ascii_of_N (Z.to_N (if n <? 10 then 48 + n else 55 + n)).
Definition percent (n : Z) : string := String "%" (String (hex_char (n / 16)) (String (hex_char (n mod 16)) "")).
Definition quote_char (c : ascii) : string :=
  if unreserved c then String c ""
  else if code c <? 128 then percent (code c)
  else percent (192 + code c / 64) +:+ percent (128 + code c mod 64).
Fixpoint quote (s : string) : string := match s with EmptyString => "" | String c s => quote_char c +:+ quote s end.

(** A URL's parts; reading the port may raise. *)
Record parts := { pt_scheme : string; pt_host : string; pt_port : res (option Z); pt_path : string; pt_query : string }.
Record response := { rs_status : Z; rs_location : option string; rs_body : string }.
Inductive net_event :=
| opened (p : parts)
| verified (der : string)
| sent (p : parts) (path : string) (headers : list (string * string))
| closed.
Abbreviation trace := (list net_event).

Definition _MAX_REDIRECTS : nat := 5.
Definition _REDIRECT_CODES : list Z := [301; 302; 303; 307; 308].
Definition max_pages : nat := 100.

Section transport.
Context (sha256 : string → string) (urlsplit : string → res parts) (urljoin : string → string → res string)
  (json_loads : string → res val) (repr : val → string)
  (peer : trace → parts → res (option string)) (answer : trace → res response).

Definition emit (e : net_event) : M trace unit := modify (λ w, w ++ [e]).
Definition pin_digest (pin : string) : string :=
  match split_char ":" pin with _ :: (_ :: _) as rest => join ":" rest | _ => pin end.
Definition verify_pin (der_cert pin : string) : res unit :=
  check (String.eqb (lower (sha256 der_cert)) (lower (strip (pin_digest pin)))) FeedTrustError.
(** Opens a connection; the pin is verified before anything is sent. *)
Definition _open_verified (p : parts) (tls_pin : option string) : M trace unit :=
  let* _ := lift (pt_port p) in
  if String.eqb (pt_scheme p) "https" then
    let* w := read id in
    let* der := lift (peer w p) in
    emit (opened p);*
    if ostr_truthy tls_pin then
      if ostr_truthy der then
        match verify_pin (default "" der) (default "" tls_pin) with
        | Ok _ => emit (verified (default "" der))
        | Raise e => emit closed;* raise e
        end
      else emit closed;* raise FeedTrustError
    else ret tt
  else if String.eqb (pt_scheme p) "http" then emit (opened p)
  else raise FeedTrustError.
Definition _redirect_target (current_url : string) (location : option string) (has_auth has_pin : bool) : res string :=
  check (ostr_truthy location) FeedTrustError;;
  nxt ← urljoin current_url (default "" location);
  check (negb (has_auth || has_pin)) FeedTrustError;;
  cur ← urlsplit current_url;
  new ← urlsplit nxt;
  check (negb (String.eqb (pt_scheme cur) "https" && negb (String.eqb (pt_scheme new) "https"))) FeedTrustError;;
  Ok nxt.

(** [try: m finally: close]. *)
Definition closing {A} (m : M trace A) : M trace A := λ w, let '(w, r) := m w in (w ++ [closed], r).
Definition request_path (p : parts) : string :=
  (if str_truthy (pt_path p) then pt_path p else "/") +:+ (if str_truthy (pt_query p) then "?" +:+ pt_query p else "").
Definition with_auth (auth : option string) (headers : list (string * string)) : list (string * string) :=
  if ostr_truthy auth then od_set "Authorization" (default "" auth) headers else headers.
(** What a request ends in: another URL to ask, or the body. *)
Definition exchange (c : connector) (url : string) (p : parts) (headers : list (string * string)) : M trace (string + string) :=
  emit (sent p (request_path p) (with_auth (c_auth c) headers));*
  let* w := read id in
  let* resp := lift (answer w) in
  if mem (rs_status resp) _REDIRECT_CODES then
    let* nxt := lift (_redirect_target url (rs_location resp) (ostr_truthy (c_auth c)) (ostr_truthy (c_pin c))) in
    ret (inl nxt)
  else if 400 <=? rs_status resp then raise OSError
  else ret (inr (rs_body resp)).
Definition fetch_once (c : connector) (url : string) (headers : list (string * string)) : M trace (string + string) :=
  let* p := lift (urlsplit url) in
  let* _ := lift (check (negb (ostr_truthy (c_auth c) && negb (String.eqb (pt_scheme p) "https"))) FeedTrustError) in
  let* _ := lift (check (negb (ostr_truthy (c_pin c) && negb (String.eqb (pt_scheme p) "https"))) FeedTrustError) in
  _open_verified p (c_pin c);*
  closing (exchange c url p headers).
Fixpoint fetch_rounds (n : nat) (c : connector) (url : string) (headers : list (string * string)) : M trace string :=
  match n with
  | O => raise FeedTrustError
  | S n =>
      let* r := fetch_once c url headers in
      match r with inl nxt => fetch_rounds n c nxt headers | inr body => ret body end
  end.
Definition _fetch (c : connector) (url : string) (headers : list (string * string)) : M trace string :=
  fetch_rounds (S _MAX_REDIRECTS) c url headers.
Definition agent : string * string := ("User-Agent", "ndr-threat-intel/2.0").
Definition _http (c : connector) (url : string) (extra : list (string * string)) : M trace string := _fetch c url (agent :: extra).
Definition fetch (c : connector) : M trace string := _http c (c_url c) [].

(** ** TAXII pages *)

Definition taxii_headers : list (string * string) := [("Accept", "application/taxii+json;version=2.1")].
Definition page_objects (env : val) : res (list val) :=
  as_list (match env with VDict d => dget_or "objects" (VList []) d | _ => env end).
Definition more (env : val) : bool := match env with VDict d => truthy (dgetN "more" d) | _ => false end.
Definition next_of (env : val) : val := match env with VDict d => dgetN "next" d | _ => VNone end.
Definition page_url (c : connector) (nxt : val) : string :=
  c_url c +:+ (if contains "?" (c_url c) then "&" else "?") +:+ "next=" +:+ quote (py_str repr nxt).
Definition get_page (c : connector) (url : string) : M trace val :=
  let* body := _http c url taxii_headers in lift (json_loads body).
Fixpoint taxii_pages (n : nat) (c : connector) (url : string) (objs : list val) : M trace val :=
  match n with
  | O => raise FeedFetchIncomplete
  | S n =>
      let* env := get_page c url in
      let* new := lift (page_objects env) in
      if negb (more env) then ret (VDict [("objects", VList (objs ++ new))])
      else if negb (truthy (next_of env)) then raise FeedFetchIncomplete
      else taxii_pages n c (page_url c (next_of env)) (objs ++ new)
  end.
Definition taxii_fetch (c : connector) : M trace val := taxii_pages max_pages c (c_url c) [].

(** ** Facts *)

Definition is_sent (e : net_event) : bool := match e with sent _ _ _ => true | _ => false end.
Definition requests (w : trace) : nat := length (List.filter is_sent w).
(** The connection a request is sent on: open, and verified when a pin is configured. *)
Definition opening (c : connector) (p : parts) (evs : trace) : Prop :=
  if ostr_truthy (c_pin c) then ∃ der, evs = [opened p; verified der] ∧ verify_pin der (default "" (c_pin c)) = Ok tt
  else evs = [opened p].
Definition secret (c : connector) : bool := ostr_truthy (c_auth c) || ostr_truthy (c_pin c).
Definition https (p : parts) : Prop := pt_scheme p = "https".

Lemma open_verified_spec c p w w' r :
  _open_verified p (c_pin c) w = (w', r) →
  ∃ evs, w' = w ++ evs ∧ requests evs = 0%nat ∧ ((∃ e, r = Raise e) ∨ opening c p evs ∨ ostr_truthy (c_pin c) = true ∧ ¬ https p).
Proof.
  unfold _open_verified, opening, emit, bind, lift, read, modify, raise, ret, https. intros H. destruct (pt_port p) as [port|e].
  2:{ injection H as <- <-. exists []. rewrite app_nil_r. eauto. }
  destruct (String.eqb_spec (pt_scheme p) "https") as [Es|Es].
  - simpl in H. destruct (peer w p) as [der|e]; [|injection H as <- <-; exists []; rewrite app_nil_r; eauto].
    destruct (ostr_truthy (c_pin c)); [|injection H as <- <-; exists [opened p]; eauto].
    destruct (ostr_truthy der); [|injection H as <- <-; exists [opened p; closed]; rewrite <- app_assoc; eauto].
    destruct (verify_pin _ _) as [[]|e] eqn:Ev; injection H as <- <-.
    + exists [opened p; verified (default "" der)]. rewrite <- app_assoc. split_and!; [done|done|]. right. left. eauto.
    + exists [opened p; closed]. rewrite <- app_assoc. eauto.
  - destruct (String.eqb_spec (pt_scheme p) "http") as [Eh|Eh]; injection H as <- <-.
    + exists [opened p]. split_and!; [done|done|]. right. destruct (ostr_truthy (c_pin c)); eauto.
    + exists []. rewrite app_nil_r. eauto.
Qed.
Lemma redirect_spec c url loc nxt :
  _redirect_target url loc (ostr_truthy (c_auth c)) (ostr_truthy (c_pin c)) = Ok nxt →
  secret c = false ∧ ∃ cur new, urlsplit url = Ok cur ∧ urlsplit nxt = Ok new ∧ (https cur → https new).
Proof.
  unfold _redirect_target, https. intros H. inv_ok. to_prop. split; [unfold secret; by rewrite H|].
  eexists _, _. split_and!; [done|done|]. intros Hc. rewrite Hc in *. simpl in *.
  match goal with Hn : negb (String.eqb _ "https") = false |- _ => apply negb_false_iff, String.eqb_eq in Hn; done end.
Qed.
(** One round: nothing was sent and it raised, or one request went out on an open,
    verified connection. *)
Definition round_shape (c : connector) (url : string) (headers : list (string * string)) (evs : trace) (r : res (string + string)) : Prop :=
  requests evs = 0%nat ∧ (∃ e, r = Raise e) ∨
  ∃ p pre, urlsplit url = Ok p ∧ evs = pre ++ [sent p (request_path p) (with_auth (c_auth c) headers); closed] ∧ opening c p pre ∧
    requests pre = 0%nat ∧ (secret c = true → https p) ∧
    ∀ nxt, r = Ok (inl nxt) → secret c = false ∧ ∃ new, urlsplit nxt = Ok new ∧ (https p → https new).
Lemma exchange_spec c url p headers w w' r :
  urlsplit url = Ok p → exchange c url p headers w = (w', r) →
  w' = w ++ [sent p (request_path p) (with_auth (c_auth c) headers)] ∧
  ∀ nxt, r = Ok (inl nxt) → secret c = false ∧ ∃ new, urlsplit nxt = Ok new ∧ (https p → https new).
Proof.
  intros Hp. unfold exchange, emit, bind, lift, read, modify, raise, ret. set (w1 := w ++ [_]). simpl. destruct (answer w1) as [resp|e].
  2:{ intros [= <- <-]. done. }
  destruct (mem _ _).
  - destruct (_redirect_target _ _ _ _) as [nxt|e] eqn:Er; intros [= <- <-]; [|done]. split; [done|]. intros n [= <-].
    apply redirect_spec in Er as (Hs & cur & new & Hc & Hn & Hh). rewrite Hp in Hc. injection Hc as <-. eauto.
  - destruct (400 <=? rs_status resp); intros [= <- <-]; (split; [done|]); intros n; done.
Qed.
Lemma fetch_once_spec c url headers w w' r :
  fetch_once c url headers w = (w', r) → ∃ evs, w' = w ++ evs ∧ round_shape c url headers evs r.
Proof.
  unfold fetch_once, bind, lift, closing. intros H.
  assert (Hnone : ∀ e, (w, Raise e) = (w', r) → ∃ evs, w' = w ++ evs ∧ round_shape c url headers evs r).
  { intros e [= <- <-]. exists []. rewrite app_nil_r. split; [done|]. left. eauto. }
  destruct (urlsplit url) as [p|e] eqn:Ep; [|by eapply Hnone].
  destruct (check _ _) as [u|e] eqn:E1 in H; [|by eapply Hnone]. destruct (check _ _) as [u'|e] eqn:E2 in H; [|by eapply Hnone].
  apply check_ok_inv in E1, E2. apply negb_true_iff in E1, E2.
  assert (Hs : secret c = true → https p).
  { unfold secret, https. intros Hs. destruct (String.eqb_spec (pt_scheme p) "https") as [|]; [done|].
    destruct (ostr_truthy (c_auth c)); [done|]. by destruct (ostr_truthy (c_pin c)). }
  destruct (_open_verified p (c_pin c) w) as [w1 o] eqn:Eo. apply open_verified_spec in Eo as (pre & -> & Hq & Ho).
  destruct o as [o|e].
  2:{ injection H as <- <-. exists pre. split; [done|]. left. eauto. }
  destruct Ho as [[e He]|Ho]; [done|]. destruct (exchange c url p headers (w ++ pre)) as [w2 x] eqn:Ex.
  injection H as <- <-. apply exchange_spec in Ex as [-> Hx]; [|done]. exists (pre ++ [sent p (request_path p) (with_auth (c_auth c) headers); closed]).
  rewrite <- !app_assoc. split; [done|]. right. exists p, pre. split_and!; try done. destruct Ho as [Ho|[Ho Hn]]; [done|].
  destruct Hn. apply Hs. unfold secret. rewrite Ho. apply orb_true_r.
Qed.
Lemma requests_app a b : requests (a ++ b) = (requests a + requests b)%nat.
Proof. clear. unfold requests. by rewrite List.filter_app, length_app. Qed.
Lemma requests_none evs e : requests evs = 0%nat → e ∈ evs → is_sent e = false.
Proof.
  clear. unfold requests. induction evs as [|x evs IH]; [by intros _ ?%elem_of_nil|]. simpl. destruct (is_sent x) eqn:Ex; [done|].
  intros H [->|Hin]%elem_of_cons; [done|by apply IH].
Qed.

(** All the rounds: with a secret there is one, and none of them leaves https. *)
Definition rounds_shape (c : connector) (url : string) (headers : list (string * string)) (n : nat) (evs : trace) : Prop :=
  (requests evs <= n)%nat ∧
  (∀ p path h, sent p path h ∈ evs → h = with_auth (c_auth c) headers ∧ ∀ p0, urlsplit url = Ok p0 → https p0 → https p) ∧
  (secret c = true → ∃ r, round_shape c url headers evs r).
Lemma fetch_rounds_spec n c url headers w w' r :
  fetch_rounds n c url headers w = (w', r) → ∃ evs, w' = w ++ evs ∧ rounds_shape c url headers n evs.
Proof.
  revert url w r. induction n as [|n IH]; intros url w r; cbn [fetch_rounds].
  { intros [= <- <-]. exists []. rewrite app_nil_r. split; [done|]. split_and!; [done|by intros p path h ?%elem_of_nil|]. intros _.
    exists (Raise OtherError). left. eauto. }
  unfold bind at 1. destruct (fetch_once c url headers w) as [w1 o] eqn:Eo. apply fetch_once_spec in Eo as (evs & -> & Hev).
  assert (Hone : (requests evs <= 1)%nat ∧ ∀ p path h, sent p path h ∈ evs →
    urlsplit url = Ok p ∧ h = with_auth (c_auth c) headers).
  { destruct Hev as [[Hq _]|(p & pre & Hp & -> & _ & Hq & _)].
    - split; [lia|]. intros p path h Hin. by apply (requests_none _ _ Hq) in Hin.
    - split; [rewrite requests_app, Hq; done|]. intros q path h [Hin|Hin]%elem_of_app; [by apply (requests_none _ _ Hq) in Hin|].
      apply elem_of_cons in Hin as [[= -> -> ->]|Hin]; [done|]. by apply list_elem_of_singleton in Hin. }
  destruct Hone as [Hle Hsent].
  assert (Hstop : ∀ r', (w ++ evs, r') = (w', r) → ∃ evs, w' = w ++ evs ∧ rounds_shape c url headers (S n) evs).
  { intros r' [= <- _]. exists evs. split; [done|]. split_and!; [lia| |eauto]. intros p path h Hin.
    destruct (Hsent _ _ _ Hin) as [Hp ->]. split; [done|]. intros p0 Hp0. rewrite Hp in Hp0. by injection Hp0 as ->. }
  destruct o as [[nxt|body]|e]; [|by apply Hstop..].
  intros H. apply IH in H as (evs' & -> & Hn & Hs' & _).
  destruct Hev as [[_ [e ?]]|(p & pre & Hp & Hpre & _ & _ & _ & Hnxt)]; [done|]. destruct (Hnxt nxt eq_refl) as (Hsec & new & Hnew & Hh).
  exists (evs ++ evs'). rewrite app_assoc. split; [done|]. split_and!.
  - rewrite requests_app. lia.
  - intros q path h [Hin|Hin]%elem_of_app.
    + destruct (Hsent _ _ _ Hin) as [Hq ->]. split; [done|]. intros p0 Hp0. rewrite Hq in Hp0. by injection Hp0 as ->.
    + destruct (Hs' _ _ _ Hin) as [-> Hq]. split; [done|]. intros p0 Hp0 Hh0. rewrite Hp in Hp0. injection Hp0 as <-. eapply Hq; eauto.
  - congruence.
Qed.

Lemma round_pre c url headers r p path h evs pre post :
  round_shape c url headers evs r → evs = pre ++ sent p path h :: post →
  urlsplit url = Ok p ∧ opening c p pre ∧ (secret c = true → https p).
Proof.
  intros Hev ->. destruct Hev as [[Hq _]|(q & pre' & Hp & E & Ho & Hq & Hs & _)].
  { rewrite requests_app in Hq. unfold requests in Hq. simpl in Hq. lia. }
  assert (Hlen : pre = pre' ∧ p = q); [|by destruct Hlen as [-> ->]].
  clear -E Hq. revert pre' E Hq. induction pre as [|x pre IH]; intros [|x' pre'] E Hq; simpl in E.
  - by injection E as -> _ _ _.
  - injection E as <- _. done.
  - injection E as -> E. destruct pre as [|y [|z pre]]; simpl in E; done.
  - injection E as <- E. destruct (IH pre' E) as [-> ->]; [|done]. unfold requests in *. simpl in Hq. by destruct (is_sent x).
Qed.

(** C24. Credentials and pins never leak.  Whatever the network answers, a request that
    carries the Authorization header, or any request of a feed with a certificate pin,
    goes over https to the configured URL itself, on a connection just opened to it whose
    certificate has already matched the pin when there is one; it is the only such
    request, since no redirect is followed then.  Without either, a feed reached over
    https never leaves https, and at most six requests are made. *)
Theorem credentials_confined c url headers :
  let w := (_fetch c url headers []).1 in
  (∀ pre p path h post, w = pre ++ sent p path h :: post →
     od_get "Authorization" headers = None →
     is_Some (od_get "Authorization" h) ∨ ostr_truthy (c_pin c) = true →
     https p ∧ urlsplit url = Ok p ∧
     if ostr_truthy (c_pin c) then ∃ der, pre = [opened p; verified der] ∧ verify_pin der (default "" (c_pin c)) = Ok tt
     else pre = [opened p]) ∧
  (∀ p0, urlsplit url = Ok p0 → https p0 → ∀ p path h, sent p path h ∈ w → https p) ∧
  (requests w <= 6)%nat.
Proof.
  cbv zeta. destruct (_fetch c url headers []) as [w r] eqn:E. unfold _fetch in E. apply fetch_rounds_spec in E as (evs & -> & Hn & Hs & Hone).
  cbn [fst app]. split_and!; [|intros p0 Hp0 Hh p path h Hin; by eapply Hs|exact Hn].
  intros pre p path h post -> Hno Hsec. assert (Hsecret : secret c = true).
  { destruct Hsec as [Ha|Hp]; unfold secret; [|by rewrite Hp, orb_true_r]. destruct (Hs p path h) as [-> _]; [apply elem_of_app; right; by left|].
    unfold with_auth in Ha. destruct (ostr_truthy (c_auth c)); [done|]. rewrite Hno in Ha. by destruct Ha. }
  destruct (Hone Hsecret) as [r' Hr]. destruct (round_pre _ _ _ _ _ _ _ _ _ _ Hr eq_refl) as (Hp & Ho & Hh).
  split_and!; [by apply Hh|done|exact Ho].
Qed.

(** *** TAXII *)

(** The pages served one after the other, each asked for with the cursor of the last. *)
Inductive served (c : connector) : string → trace → list val → trace → Prop :=
| served_last url w env w' :
    get_page c url w = (w', Ok env) → is_ok (page_objects env) = true → more env = false → served c url w [env] w'
| served_more url w env w1 envs w' :
    get_page c url w = (w1, Ok env) → is_ok (page_objects env) = true → more env = true → truthy (next_of env) = true →
    served c (page_url c (next_of env)) w1 envs w' → served c url w (env :: envs) w'.
Definition objects_of (envs : list val) : list val :=
  concat (map (λ env, match page_objects env with Ok l => l | Raise _ => [] end) envs).
Lemma taxii_pages_spec n c url objs w w' doc :
  taxii_pages n c url objs w = (w', Ok doc) ↔
  ∃ envs, (length envs <= n)%nat ∧ served c url w envs w' ∧ doc = VDict [("objects", VList (objs ++ objects_of envs))].
Proof.
  revert url objs w. induction n as [|n IH]; intros url objs w; cbn [taxii_pages].
  { split; [done|]. intros (envs & Hl & Hs & _). destruct Hs; simpl in Hl; lia. }
  unfold bind, lift. destruct (get_page c url w) as [w1 [env|e]] eqn:Eg.
  2:{ split; [done|]. intros (envs & _ & Hs & _). inversion Hs; congruence. }
  destruct (page_objects env) as [new|e] eqn:Ep.
  2:{ split; [done|]. intros (envs & _ & Hs & _). inversion Hs; simplify_eq; rewrite Eg in *; simplify_eq; by rewrite Ep in *. }
  destruct (more env) eqn:Em; simpl.
  - destruct (truthy (next_of env)) eqn:En; simpl.
    + rewrite IH. split.
      * intros (envs & Hl & Hs & ->). exists (env :: envs). split_and!; [simpl; lia| |].
        -- eapply served_more; try done. by rewrite Ep.
        -- unfold objects_of. simpl. by rewrite Ep, <- app_assoc.
      * intros (envs & Hl & Hs & ->). inversion Hs; subst; rewrite Eg in *; simplify_eq; [congruence|]. eexists. split_and!; [|done|].
        -- simpl in Hl. lia.
        -- unfold objects_of. simpl. by rewrite Ep, <- app_assoc.
    + split; [done|]. intros (envs & _ & Hs & _). inversion Hs; simplify_eq; rewrite Eg in *; simplify_eq; congruence.
  - split.
    + intros [= <- <-]. exists [env]. split_and!; [simpl; lia| |].
      * apply served_last; try done. by rewrite Ep.
      * unfold objects_of. simpl. by rewrite Ep, app_nil_r.
    + intros (envs & _ & Hs & ->). inversion Hs; simplify_eq; rewrite Eg in *; simplify_eq; [|congruence].
      unfold objects_of. simpl. by rewrite Ep, app_nil_r.
Qed.
Lemma quote_unreserved s : string_forallb (λ c, unreserved c || Ascii.eqb c "%") (quote s) = true.
Proof.
  clear. induction s as [|c s IH]; [done|]. cbn [quote]. rewrite forallb_sapp, IH, andb_true_r. unfold quote_char.
  destruct (unreserved c) eqn:Eu; [simpl; by rewrite Eu|].
  assert (Hp : ∀ n, 0 <= n < 256 → string_forallb (λ c, unreserved c || Ascii.eqb c "%") (percent n) = true).
  { intros n Hn. assert (Hall : forallb (λ k, string_forallb (λ c, unreserved c || Ascii.eqb c "%") (percent (Z.of_nat k))) (seq 0 256) = true) by (vm_compute; reflexivity).
    rewrite forallb_forall in Hall. specialize (Hall (Z.to_nat n)). rewrite in_seq, Z2Nat.id in Hall by lia. apply Hall. lia. }
  assert (Hc : 0 <= code c < 256).
  { unfold code. pose proof (N_ascii_bounded c). lia. }
  destruct (code c <? 128) eqn:E; to_prop; [by apply Hp|]. rewrite forallb_sapp, !Hp; [done| |].
  - pose proof (Z.mod_pos_bound (code c) 64). lia.
  - assert (code c / 64 < 4) by (apply Z.div_lt_upper_bound; lia). assert (0 <= code c / 64) by (apply Z.div_pos; lia). lia.
Qed.

(** A TAXII collection is fetched whole or not at all.  The fetch succeeds exactly when
    the server serves a chain of at most a hundred pages, each asked for with the cursor
    the page before gave, the last and only the last not announcing more; its result is
    then the objects of all those pages in their order.  A page that announces more
    without a cursor, or more pages than that, is never answered with a part. *)
Theorem taxii_fetch_complete c w w' doc :
  taxii_fetch c w = (w', Ok doc) ↔
  ∃ envs, (length envs <= max_pages)%nat ∧ served c (c_url c) w envs w' ∧ doc = VDict [("objects", VList (objects_of envs))].
Proof. unfold taxii_fetch. apply taxii_pages_spec. Qed.
End transport.
