(* ===== verification/IntelProcess.v ===== *)
(** * The threat-intelligence process (services/threat-intel/app.py)

    Feeds refreshed into the indicator store, and observations matched against it: which
    hits become candidate findings, which stay in the local audit, and the bounded memory
    that keeps a hit from being reported twice in an hour.

    Scores and trusts of stored records are integers ([ThreatIntel]): [grade] is the exact
    embedding of a binary64 number, in units of 2^-1074, and [number] its inverse.
    [digest] stands for the SHA-256 of the JSON text of an identity.  The time an
    observation is processed at and the clock readings inside are one instant. *)

From S2P Require Import Prelude Order PyVal PyString OrderedMap PyTime IsoTime JsonSchema Json ThreatIntel IntelMatch FeedRecords FeedConnectors.
Set Default Proof Using "Type".

(** ** From feed records to stored records *)

Definition grade (f : float) : Z :=
  match f with
  | S754_finite s m e => let a := Z.pos m * 2 ^ (e + 1074) in if s then - a else a
  | _ => 0
  end.
Definition number (z : Z) : float := binary_normalize 53 1024 z (-1074) false.
Definition grade_of (v : val) : Z := match v with VFloat f => grade f | VInt z => z * 2 ^ 1074 | _ => 0 end.
Definition some_str (v : val) : option string := match v with VStr s => Some s | _ => None end.
Definition prov_of (p : val) : prov :=
  let d := obj p in
  {| p_source := text_of "source" d; p_feed := text_of "feed" d; p_trust := grade_of (dgetN "source_trust" d);
     p_score := grade_of (dgetN "score" d); p_tlp := some_str (dgetN "tlp" d); p_expiry := some_str (dgetN "expiry" d) |}.
Definition intel_of (d : dict) : intel :=
  {| i_tenant := text_of "tenant" d; i_type := text_of "type" d; i_indicator := text_of "indicator" d;
     i_prov := match dgetN "provenance" d with VList ps => prov_of <$> ps | _ => [] end;
     i_first_seen := text_of "first_seen" d; i_last_seen := text_of "last_seen" d; i_expiry := text_of "expiry" d;
     i_score := grade_of (dgetN "score" d); i_trust := grade_of (dgetN "source_trust" d); i_source := text_of "source" d;
     i_feed := text_of "feed" d; i_tlp := some_str (dgetN "tlp" d); i_disposition := text_of "disposition" d |}.
Definition revocation_of (m : marker) : revocation :=
  {| rv_key := (w_tenant m, w_type m, w_indicator m); rv_source := w_source m; rv_feed := w_feed m |}.

(** ** The process *)

Record feed_sets := { fs_feodo : gset string; fs_ja3 : gset string; fs_cert : gset string; fs_c2fp : gset string }.
(** The identity of a managed hit, before it is digested. *)
Inductive identity :=
| hash_identity (src dst : val) (indicator : string) (hour : Z)
| hit_identity (src dst : val) (record : intel) (field value : string) (hour : Z).
Inductive seen_key := managed_key (digest : string) | static_key (feed ioc : string) (dst : val) (hour : Z).
#[export] Instance seen_key_dec : EqDecision seen_key.
Proof. solve_decision. Defined.
(** What the memory holds for a key: seen, or handled under a policy (suppressed, exportable). *)
Inductive seen_value := once | policy (suppressed exportable : bool).
#[export] Instance seen_value_dec : EqDecision seen_value.
Proof. solve_decision. Defined.
Abbreviation seen_memory := (list (seen_key * seen_value)).
Record candidate := {
  k_id : string; k_category : string; k_severity : Z; k_confidence : float; k_time : string; k_entities : list dict;
  k_match : option hit; k_evidence : option val; k_sensor : option val
}.
Record process := { pr_store : option intel_store; pr_feeds : feed_sets; pr_seen : seen_memory; pr_sent : list candidate }.
Definition with_seen (m : seen_memory) (p : process) : process :=
  {| pr_store := pr_store p; pr_feeds := pr_feeds p; pr_seen := m; pr_sent := pr_sent p |}.
Definition with_store (s : option intel_store) (p : process) : process :=
  {| pr_store := s; pr_feeds := pr_feeds p; pr_seen := pr_seen p; pr_sent := pr_sent p |}.
Definition send (k : candidate) (p : process) : process :=
  {| pr_store := pr_store p; pr_feeds := pr_feeds p; pr_seen := pr_seen p; pr_sent := pr_sent p ++ [k] |}.

Section process.
Context (ip_address : string → option (Z * string)) (urlsplit : string → res url)
  (urlunsplit : string → string → string → string) (in_network : string → string → bool)
  (digest : identity → string) (repr : val → string) (fresh : list audit_entry → string)
  (TENANT : string) (_SEEN_MAX : nat).

(** *** Refreshing *)

Definition refresh_one (s : intel_store) (feed : kind * connector * res payload) (now : Z) : res intel_store :=
  let '(k, c, fetched) := feed in
  p ← fetched;
  recs ← records ip_address urlsplit urlunsplit k c p TENANT now;
  revs ← revocations ip_address urlsplit urlunsplit k c p TENANT now;
  s' ← ingest s (intel_of <$> recs) now (revocation_of <$> revs);
  Ok s'.1.
(** Whatever a feed raises, the next one is tried on the store as it was. *)
Definition refresh_feed (now : Z) (s : intel_store) (feed : kind * connector * res payload) : intel_store :=
  match refresh_one s feed now with Ok s' => s' | Raise _ => s end.
Definition _intel_refresh (s : intel_store) (feeds : list (kind * connector * res payload)) (now : Z) : intel_store :=
  foldl (refresh_feed now) s feeds.
(** The operator's own hashes, ingested at start. *)
Definition EICAR_SHA256 : string := "275a021bbfb6489e54d471899f7db9d1663fc695ec2fe2a2c4538aabf651fd0f".
Definition local_hashes (s : intel_store) (malware_hashes : string) (now : Z) : res intel_store :=
  c ← make_connector (lit "75") "operator-file-hashes" "operator" (VInt 1) "" "green" (30 * 86400000000) None None;
  recs ← records ip_address urlsplit urlunsplit Http c
    (text_payload (join (String "010" "") (EICAR_SHA256 :: split_char "," malware_hashes))) TENANT now;
  s' ← ingest s (intel_of <$> recs) now [];
  Ok s'.1.
(** The static lists: three downloads in order, each kept as far as they went; then the
    operator's fingerprint file when there is one. *)
Definition refresh_static (f : feed_sets) (feodo cert ja3 : res string) (fp_list : option (res string)) : feed_sets :=
  let f1 := match feodo with
    | Raise _ => f
    | Ok t =>
        let f1 := {| fs_feodo := parse_feodo t; fs_ja3 := fs_ja3 f; fs_cert := fs_cert f; fs_c2fp := fs_c2fp f |} in
        match cert with
        | Raise _ => f1
        | Ok t =>
            let f2 := {| fs_feodo := fs_feodo f1; fs_ja3 := fs_ja3 f1; fs_cert := parse_hash_csv t; fs_c2fp := fs_c2fp f1 |} in
            match ja3 with
            | Raise _ => f2
            | Ok t => {| fs_feodo := fs_feodo f2; fs_ja3 := parse_hash_csv t; fs_cert := fs_cert f2; fs_c2fp := fs_c2fp f2 |}
            end
        end
    end in
  match fp_list with
  | Some (Ok t) => {| fs_feodo := fs_feodo f1; fs_ja3 := fs_ja3 f1; fs_cert := fs_cert f1; fs_c2fp := parse_fp_list t |}
  | _ => f1
  end.

(** *** Candidates *)

Definition join_key_entities (eve : dict) : list dict :=
  (if truthy (dgetN "community_id" eve) then [[("type", VStr "community_id"); ("value", dgetN "community_id" eve)]] else []) ++
  (if truthy (dgetN "flow_id" eve) then [[("type", VStr "flow_id"); ("value", dgetN "flow_id" eve)]] else []).
Definition hour_of (t : Z) : Z := t / 3600000000.
(** [_seen_once]: whether the key is new; the oldest keys make room. *)
Definition _seen_once (key : seen_key) (m : seen_memory) : bool * seen_memory :=
  match od_get key m with
  | Some _ => (false, m)
  | None => (true, od_bound _SEEN_MAX (od_to_end key (od_set key once m)))
  end.
Definition _candidate (feed ioc : string) (dst : val) (extra : list dict) (now : Z) : candidate :=
  {| k_id := "ti-" +:+ feed +:+ "-" +:+ ioc +:+ "-" +:+ (if truthy dst then py_str repr dst else "none") +:+ "-" +:+ pretty (hour_of now);
     k_category := "c2"; k_severity := 8; k_confidence := lit "0.95"; k_time := emitted_text now;
     k_entities := [("type", VStr "ioc"); ("feed", VStr feed); ("value", VStr ioc)]
       :: (if truthy dst then [[("type", VStr "ip"); ("role", VStr "dst"); ("value", dst)]] else []) ++ extra;
     k_match := None; k_evidence := None; k_sensor := None |}.
Definition source_entity (e : dict) : list dict :=
  if truthy (dgetN "src_ip" e) then [[("type", VStr "ip"); ("role", VStr "src"); ("value", dgetN "src_ip" e)]] else [].

(** *** Managed matching *)

Definition is_hash (h : hit) : bool := String.eqb (i_type (m_record h)) "hash".
Definition identity_of (e : dict) (h : hit) (now : Z) : identity :=
  if is_hash h then hash_identity (dgetN "src_ip" e) (dgetN "dest_ip" e) (i_indicator (m_record h)) (hour_of now)
  else hit_identity (dgetN "src_ip" e) (dgetN "dest_ip" e) (m_record h) (m_field h) (m_value h) (hour_of now).
Definition key_of_match (e : dict) (h : hit) (now : Z) : seen_key := managed_key (digest (identity_of e h now)).
Definition policy_of (h : hit) : seen_value := policy (m_suppressed h) (is_exportable (m_record h)).
Definition severity_of (score : Z) : res Z := n ← Z_of_float (fdiv (number score) (lit "10")); Ok (Z.max 1 (Z.min 10 n)).
Definition optional (v : val) : option val := if truthy v then Some v else None.
Definition managed_candidate (e : dict) (h : hit) (now : Z) : res candidate :=
  let r := m_record h in
  let base := _candidate (i_feed r) (i_indicator r) (dgetN "dest_ip" e) (source_entity e ++ join_key_entities e) now in
  severity ← severity_of (i_score r);
  Ok {| k_id := "ti-" +:+ digest (identity_of e h now); k_category := if is_hash h then "malware" else k_category base;
        k_severity := severity; k_confidence := fmul (fdiv (number (i_score r)) (lit "100")) (number (i_trust r));
        k_time := k_time base; k_entities := k_entities base; k_match := Some h;
        k_evidence := if is_hash h then optional (dgetN "obs_id" e) else None;
        k_sensor := if is_hash h then optional (dgetN "sensor_id" e) else None |}.
(** [_seen.pop; _seen_once; _seen[key] = policy]. *)
Definition remember_policy (key : seen_key) (v : seen_value) (m : seen_memory) : seen_memory :=
  od_set key v (_seen_once key (od_del key m)).2.
Definition handle_hit (e : dict) (now : Z) (s : intel_store) (h : hit) : M process intel_store :=
  let key := key_of_match e h now in
  let* m := read pr_seen in
  if bool_decide (od_get key m = Some (policy_of h)) then ret s
  else
    let* s' := (if m_suppressed h || negb (is_exportable (m_record h))
      then let* s' := lift (record_match s (fresh (st_audit s)) TENANT (m_record h) e now) in
           modify (with_store (Some s'));* ret s'
      else let* k := lift (managed_candidate e h now) in modify (send k);* ret s) in
    modify (λ p, with_seen (remember_policy key (policy_of h) (pr_seen p)) p);*
    ret s'.
Fixpoint handle_hits (e : dict) (now : Z) (s : intel_store) (hs : list hit) : M process unit :=
  match hs with
  | [] => ret tt
  | h :: hs => let* s' := handle_hit e now s h in handle_hits e now s' hs
  end.
Definition _managed_matches (e : dict) (now : Z) (s : intel_store) : M process unit :=
  let* hs := lift (match_event ip_address urlsplit urlunsplit in_network e s TENANT now) in handle_hits e now s hs.

(** *** Static matching *)

(** A value looked up in a set of texts must be hashable. *)
Definition set_text (v : val) : res string :=
  if negb (truthy v) then Ok "" else check (hashable v) TypeError;; Ok (type_text v).
Definition static_hit (dst ja3 cert : val) (f : feed_sets) : res (bool * string * string) :=
  d ← set_text dst;
  let hit_dst := (match_static d "" "" (fs_feodo f) ∅ ∅).1.1 in
  j ← (if hit_dst : bool then Ok "" else text_value ja3);
  let hit_ja3 := (match_static d j "" (fs_feodo f) (fs_ja3 f) ∅).1.1 in
  c ← (if hit_ja3 : bool then Ok "" else text_value cert);
  Ok (match_static d j c (fs_feodo f) (fs_ja3 f) (fs_cert f)).
Definition server_hit (ja3s ja4s jarm : val) (f : feed_sets) : res (bool * string * string) :=
  a ← text_value ja3s;
  b ← (if (first_fp [("ja3s", a)] (fs_c2fp f)).1.1 then Ok "" else text_value ja4s);
  c ← (if (first_fp [("ja3s", a); ("ja4s", b)] (fs_c2fp f)).1.1 then Ok "" else text_value jarm);
  Ok (match_server_fp a b c (fs_c2fp f)).
Definition tls_hash (k : string) (t : dict) : val := match dgetN k t with VDict d => dgetN "hash" d | v => v end.
Definition report (e : dict) (now : Z) (h : bool * string * string) : M process unit :=
  let dst := dgetN "dest_ip" e in
  if negb h.1.1 then ret tt
  else
    let* _ := lift (check (hashable dst) TypeError) in
    let* m := read pr_seen in
    let '(new, m') := _seen_once (static_key h.1.2 h.2 dst (hour_of now)) m in
    modify (with_seen m');*
    if new then modify (send (_candidate h.1.2 h.2 dst (source_entity e ++ join_key_entities e) now)) else ret tt.
Definition _static_matches (e : dict) (now : Z) : M process unit :=
  let* t := lift (as_dict (py_or (dget_or "tls" (VDict []) e) (VDict []))) in
  let* f := read pr_feeds in
  let* h := lift (static_hit (dgetN "dest_ip" e) (tls_hash "ja3" t) (dgetN "fingerprint" t) f) in
  report e now h;*
  let* h := lift (server_hit (tls_hash "ja3s" t) (dgetN "ja4s" t) (dgetN "jarm" t) f) in
  report e now h.

(** *** One observation *)

(** File observations name their addresses among their entities. *)
Fixpoint address_fields (entities : list val) (e : dict) : res dict :=
  match entities with
  | [] => Ok e
  | v :: entities =>
      d ← as_dict v;
      if val_eq_str (dgetN "type" d) "ip" && val_in_strs (dgetN "role" d) ["src"; "dst"] then
        x ← dindex "value" d;
        address_fields entities (dset (if val_eq_str (dgetN "role" d) "src" then "src_ip" else "dest_ip") x e)
      else address_fields entities e
  end.
Definition foreign (e : dict) : bool :=
  existsb (λ k, other_tenant (dgetN k e) TENANT) ["tenant"; "tenant_id"].
Definition process_observation (e : dict) (now : Z) : M process unit :=
  if foreign e then ret tt
  else
    let* e := lift (if val_eq_str (dgetN "type" e) "file"
                    then es ← as_list (dget_or "entities" (VList []) e); address_fields es e else Ok e) in
    let* s := read pr_store in
    match s with Some s => _managed_matches e now s | None => _static_matches e now end.

(** ** The process over time *)

Definition started (f : feed_sets) : process := {| pr_store := Some empty_store; pr_feeds := f; pr_seen := []; pr_sent := [] |}.
(** Observations in any order with refreshes and the analysts' suppressions. *)
Inductive process_step (p : process) : process → Prop :=
| observes e now : process_step p (process_observation e now p).1
| refreshes s feeds now : pr_store p = Some s → process_step p (with_store (Some (_intel_refresh s feeds now)) p)
| suppresses s sid aid k owner just ex now s' :
    pr_store p = Some s → suppress s sid aid k owner just ex now = Ok s' → process_step p (with_store (Some s') p).

(** ** Facts *)

Lemma refresh_reachable s feeds now : rtc store_step s (_intel_refresh s feeds now).
Proof.
  clear. unfold _intel_refresh. revert s. induction feeds as [|f feeds IH]; intros s; [reflexivity|]. simpl. etrans; [|apply IH].
  unfold refresh_feed. destruct (refresh_one s f now) as [s'|e] eqn:E; [|reflexivity]. apply rtc_once.
  unfold refresh_one in E. destruct f as [[k c] fetched]. inv_ok. destruct a2 as [s2 out]. by eapply step_ingest.
Qed.

(** *** The memory *)

Definition bound : nat := Nat.max 1 _SEEN_MAX.
Lemma seen_once_wf key m b m' : od_wf m → _seen_once key m = (b, m') → od_wf m'.
Proof.
  clear. unfold _seen_once. intros Hm. destruct (od_get key m); intros [= <- <-]; [done|]. by apply od_wf_bound, od_wf_to_end, od_wf_set.
Qed.
Lemma to_end_get {K V} `{EqDecision K} (k k' : K) (m : list (K * V)) : od_wf m → od_get k' (od_to_end k m) = od_get k' m.
Proof.
  clear. intros Hm. destruct (od_get k' (od_to_end k m)) as [v|] eqn:E.
  - symmetry. unfold od_to_end in E. destruct (od_get k m) as [w|] eqn:Ek; [|done]. apply od_get_elem, elem_of_app in E as [E|E].
    + apply list_elem_of_filter in E as [_ E]. by apply od_wf_get.
    + apply list_elem_of_singleton in E as [= -> ->]. done.
  - apply od_get_none in E. symmetry. apply od_get_none. intros Hin. apply E. clear E. unfold od_to_end.
    destruct (od_get k m) as [w|] eqn:Ek; [|done]. unfold od_keys. rewrite fmap_app. apply elem_of_app.
    destruct (decide (k' = k)) as [->|Hne]; [right; by left|left]. change (k' ∈ od_keys (od_del k m)). rewrite od_keys_del.
    apply list_elem_of_filter. done.
Qed.
Lemma remember_wf key v m : od_wf m → od_wf (remember_policy key v m).
Proof.
  clear. intros Hm. unfold remember_policy. destruct (_seen_once key (od_del key m)) as [b m'] eqn:E. apply od_wf_set. eapply seen_once_wf; [|exact E]. by apply od_wf_del.
Qed.
Lemma remember_get key v m k w :
  od_wf m → od_get k (remember_policy key v m) = Some w → k = key ∧ w = v ∨ od_get k m = Some w.
Proof.
  clear. intros Hm. unfold remember_policy, _seen_once. rewrite od_get_del_eq. cbn [snd]. rewrite od_get_set.
  destruct (decide (k = key)) as [->|Hne]; [intros [= <-]; by left|]. intros H. right.
  apply od_get_bound in H; [|by apply od_wf_to_end, od_wf_set, od_wf_del]. rewrite to_end_get in H by by apply od_wf_set, od_wf_del.
  rewrite od_get_set_ne, od_get_del_ne in H by done. done.
Qed.
Lemma remember_bound key v m : (length (remember_policy key v m) <= bound)%nat.
Proof.
  clear. unfold remember_policy, _seen_once, bound. rewrite od_get_del_eq. cbn [snd]. set (w := od_to_end key (od_set key once (od_del key m))).
  pose proof (od_length_bound _SEEN_MAX w) as Hl. pose proof (length_fmap fst (od_set key v (od_bound _SEEN_MAX w))) as E.
  change (fst <$> ?x) with (od_keys x) in E. rewrite od_keys_set in E. destruct (decide (key ∈ od_keys (od_bound _SEEN_MAX w))) as [Hin|Hout].
  - unfold od_keys in E. rewrite length_fmap in E. lia.
  - destruct (decide (_SEEN_MAX = 0)%nat) as [E0|Hpos].
    + unfold od_keys in E. rewrite length_app, length_fmap in E. simpl in E. lia.
    + destruct Hout. apply list_elem_of_fmap. exists (key, once). split; [done|]. unfold w, od_to_end. rewrite od_get_set_eq. apply od_bound_last. lia.
Qed.
Lemma seen_once_bound key m : (length m <= bound)%nat → (length (_seen_once key m).2 <= bound)%nat.
Proof.
  clear. intros Hm. unfold _seen_once. destruct (od_get key m); [done|]. cbn [snd].
  pose proof (od_length_bound _SEEN_MAX (od_to_end key (od_set key once m))). unfold bound. lia.
Qed.

(** *** Hits *)

(** A hit that stays in the local audit. *)
Definition local (h : hit) : bool := m_suppressed h || negb (is_exportable (m_record h)).
Definition audited (h : hit) (s : intel_store) : Prop := ∃ a o t, a ∈ st_audit s ∧ au_tenant a = TENANT ∧ au_event a = intel_match (m_record h) o t.
Definition reported (h : hit) (new : list candidate) (s : intel_store) : Prop :=
  if local h then audited h s else ∃ k, k ∈ new ∧ k_match k = Some h.
(** What may leave: a candidate of a hit that is not local, within the contract's severities. *)
Definition releasable (hs : list hit) (k : candidate) : Prop :=
  ∃ h, h ∈ hs ∧ k_match k = Some h ∧ local h = false ∧ 1 <= k_severity k <= 10.
(** What handling hits does to the process: some candidates more, audit entries more. *)
Record handled_to (hs : list hit) (p p' : process) (s s' : intel_store) (new : list candidate) : Prop := {
  hd_store : pr_store p' = Some s';
  hd_steps : rtc store_step s s';
  hd_audit : st_audit s ⊆ st_audit s';
  hd_sent : pr_sent p' = pr_sent p ++ new;
  hd_new : Forall (releasable hs) new;
  hd_wf : od_wf (pr_seen p) → od_wf (pr_seen p');
  hd_bound : (length (pr_seen p) <= bound → length (pr_seen p') <= bound)%nat
}.
Lemma managed_candidate_spec e h now k : managed_candidate e h now = Ok k → k_match k = Some h ∧ 1 <= k_severity k <= 10.
Proof.
  clear. unfold managed_candidate, severity_of. intros H. inv_ok. split; [done|]. simpl. lia.
Qed.
Lemma handle_hit_spec e now s h p p' r :
  pr_store p = Some s → handle_hit e now s h p = (p', r) →
  ∃ s' new, handled_to [h] p p' s s' new ∧
    ∀ s2, r = Ok s2 → s2 = s' ∧
      (p' = p ∧ od_get (key_of_match e h now) (pr_seen p) = Some (policy_of h) ∨
       pr_seen p' = remember_policy (key_of_match e h now) (policy_of h) (pr_seen p) ∧ reported h new s').
Proof.
  intros Hs H. unfold handle_hit, bind, read, lift, modify, ret in H. cbv zeta in H.
  assert (Hsame : handled_to [h] p p s s []).
  { split; rewrite ?app_nil_r; try done. }
  case_bool_decide as Ek.
  { injection H as <- <-. exists s, []. split; [done|]. intros s2 [= <-]. split; [done|]. by left. }
  fold (local h) in H. destruct (local h) eqn:El.
  - destruct (record_match _ _ _ _ _ _) as [s1|x] eqn:Er; [|injection H as <- <-; by exists s, []].
    injection H as <- <-. exists s1, []. assert (Haud : st_audit s1 = st_audit s ++ [{| au_id := fresh (st_audit s); au_tenant := TENANT;
        au_event := intel_match (m_record h) (omap (λ k, pair k <$> dget k e) kept_fields) now |}]).
    { unfold record_match in Er. inv_ok. done. }
    split.
    + split; simpl; rewrite ?app_nil_r; try done.
      * apply rtc_once. by eapply step_match.
      * rewrite Haud. intros a Ha. apply elem_of_app. by left.
      * apply remember_wf.
      * intros _. apply remember_bound.
    + intros s2 [= <-]. split; [done|]. right. split; [done|]. unfold reported. rewrite El. eexists _, _, _.
      split; [rewrite Haud; apply elem_of_app; right; by left|]. done.
  - destruct (managed_candidate e h now) as [k|x] eqn:Ek'; [|injection H as <- <-; by exists s, []].
    injection H as <- <-. apply managed_candidate_spec in Ek' as [Hk Hsev]. exists s, [k]. split.
    + split; simpl; try done.
      * apply Forall_singleton. exists h. split_and!; [by left|done|done|lia|lia].
      * apply remember_wf.
      * intros _. apply remember_bound.
    + intros s2 [= <-]. split; [done|]. right. split; [done|]. unfold reported. rewrite El. exists k. split; [by left|done].
Qed.
Lemma handled_trans hs hs' p p1 p2 s s1 s2 new new' :
  handled_to hs p p1 s s1 new → handled_to hs' p1 p2 s1 s2 new' → handled_to (hs ++ hs') p p2 s s2 (new ++ new').
Proof.
  clear. intros [A1 A2 A3 A4 A5 A6 A7] [B1 B2 B3 B4 B5 B6 B7]. split; auto.
  - by etrans.
  - intros a Ha. by apply B3, A3.
  - by rewrite B4, A4, app_assoc.
  - apply Forall_app. split; (eapply Forall_impl; [eassumption|]); intros k (h & Hh & ?); exists h; (split; [apply elem_of_app; auto|done]).
Qed.
Lemma reported_mono h new new' s s' : st_audit s ⊆ st_audit s' → reported h new s → reported h (new ++ new') s'.
Proof.
  clear. unfold reported, audited. intros Hs. destruct (local h).
  - intros (a & o & t & Ha & ?). exists a, o, t. split; [by apply Hs|done].
  - intros (k & Hk & ?). exists k. split; [apply elem_of_app; by left|done].
Qed.
Lemma reported_later h new new' s : reported h new' s → reported h (new ++ new') s.
Proof.
  clear. unfold reported. destruct (local h); [done|]. intros (k & Hk & ?). exists k. split; [apply elem_of_app; by right|done].
Qed.
(** A hit is accounted for: the memory had it under its policy, or a hit of the same
    identity and policy has now been reported. *)
Definition accounted (e : dict) (now : Z) (p : process) (hs : list hit) (new : list candidate) (s : intel_store) (h : hit) : Prop :=
  od_get (key_of_match e h now) (pr_seen p) = Some (policy_of h) ∨
  ∃ h', h' ∈ hs ∧ key_of_match e h' now = key_of_match e h now ∧ policy_of h' = policy_of h ∧ reported h' new s.
Lemma handle_hits_spec e now s hs p p' r :
  pr_store p = Some s → od_wf (pr_seen p) → handle_hits e now s hs p = (p', r) →
  ∃ s' new, handled_to hs p p' s s' new ∧ (r = Ok tt → ∀ h, h ∈ hs → accounted e now p hs new s' h).
Proof.
  revert s p. induction hs as [|h hs IH]; intros s p Hs Hwf H; cbn [handle_hits] in H.
  { injection H as <- <-. exists s, []. split; [split; rewrite ?app_nil_r; try done|]. intros _ h Hh. by apply elem_of_nil in Hh. }
  unfold bind at 1 in H. destruct (handle_hit e now s h p) as [p1 r1] eqn:E1. apply handle_hit_spec in E1 as (s1 & new1 & H1 & Hr1); [|done].
  destruct r1 as [s1'|x].
  2:{ injection H as <- <-. exists s1, new1. split; [|done]. rewrite <- (app_nil_r new1). apply (handled_trans [h] hs _ p1 _ _ s1 _ _ _ H1).
      split; rewrite ?app_nil_r; try done. by apply (hd_store _ _ _ _ _ _ H1). }
  destruct (Hr1 _ eq_refl) as [-> Hh1]. apply IH in H as (s2 & new2 & H2 & Hr2); [|by apply (hd_store _ _ _ _ _ _ H1)|by apply (hd_wf _ _ _ _ _ _ H1)].
  exists s2, (new1 ++ new2). split; [exact (handled_trans [h] hs _ p1 _ _ s1 _ _ _ H1 H2)|].
  pose proof (hd_audit _ _ _ _ _ _ H2) as Haud. intros Hok h0 [->|Hin]%elem_of_cons.
  - destruct Hh1 as [[_ Hm]|[_ Hrep]]; [by left|right]. exists h. split_and!; [by left|done|done|by eapply reported_mono].
  - destruct (Hr2 Hok h0 Hin) as [Hm|(h' & Hh' & Ek & Ep & Hrep)].
    + destruct Hh1 as [[-> _]|[Em Hrep]]; [by left|]. rewrite Em in Hm. apply remember_get in Hm as [[Ek Ep]|Hm]; [|by left|done].
      right. exists h. split_and!; [by left|done|done|by eapply reported_mono].
    + right. exists h'. split_and!; [by right|done|done|by apply reported_later].
Qed.

Definition process_ok (p : process) : Prop :=
  od_wf (pr_seen p) ∧ (length (pr_seen p) <= bound)%nat ∧ ∃ s, pr_store p = Some s ∧ rtc store_step empty_store s.
Lemma observe_managed e now s p :
  pr_store p = Some s →
  process_observation e now p =
  if foreign e then (p, Ok tt)
  else match (if val_eq_str (dgetN "type" e) "file" then es ← as_list (dget_or "entities" (VList []) e); address_fields es e else Ok e) with
       | Ok e => _managed_matches e now s p
       | Raise x => (p, Raise x)
       end.
Proof.
  intros Hs. unfold process_observation. destruct (foreign e); [done|]. unfold bind, lift, read.
  destruct (if val_eq_str _ _ then _ else _); [|done]. by rewrite Hs.
Qed.
Lemma observe_ok e now p : process_ok p → process_ok (process_observation e now p).1.
Proof.
  intros (Hwf & Hl & s & Hs & Hr). rewrite (observe_managed e now s p Hs). destruct (foreign e); [by repeat split; eauto|].
  destruct (if val_eq_str _ _ then _ else _) as [e'|x]; [|by repeat split; eauto]. unfold _managed_matches, bind, lift.
  destruct (match_event _ _ _ _ e' s TENANT now) as [hs|x]; [|by repeat split; eauto].
  destruct (handle_hits e' now s hs p) as [p' r] eqn:E. apply handle_hits_spec in E as (s' & new & H & _); [|done|done].
  split; [by apply (hd_wf _ _ _ _ _ _ H)|]. split; [by apply (hd_bound _ _ _ _ _ _ H)|]. exists s'. split; [by apply (hd_store _ _ _ _ _ _ H)|].
  etrans; [exact Hr|by apply (hd_steps _ _ _ _ _ _ H)].
Qed.
Lemma process_step_ok p p' : process_ok p → process_step p p' → process_ok p'.
Proof.
  intros Hp [e now|s feeds now Hs|s sid aid k owner just ex now s' Hs Hsup]; [by apply observe_ok| |];
    destruct Hp as (Hwf & Hl & s0 & Hs0 & Hr); rewrite Hs in Hs0; injection Hs0 as <-; split_and!; try done.
  - eexists. split; [done|]. etrans; [exact Hr|apply refresh_reachable].
  - eexists. split; [done|]. eapply rtc_r; [exact Hr|by eapply step_suppress].
Qed.
Lemma running_ok f p : rtc process_step (started f) p → process_ok p.
Proof.
  intros H. assert (H0 : process_ok (started f)).
  { split; [constructor|]. split; [simpl; lia|]. exists empty_store. split; [done|reflexivity]. }
  induction H as [|x y z Hxy _ IH]; [done|]. apply IH. by eapply process_step_ok.
Qed.

(** What leaves the process.  In every state the process can reach (observations in any
    order, refreshes whatever the feeds answer, suppressions), observing an event that is
    not another tenant's, and that raises nothing: every candidate it emits is that of a
    live hit on the event which is neither suppressed nor marked red, with a severity from 1
    to 10; every live hit is accounted for, by the memory holding its identity under the
    same policy, or by a report of that identity and policy now, a report being a
    candidate when the hit may leave and an entry of the tenant's audit otherwise; the store
    changes by audited matches only; and the memory keeps to its bound. *)
Theorem hits_accounted f p e now p' :
  rtc process_step (started f) p → foreign e = false → process_observation e now p = (p', Ok tt) →
  ∃ s e' hs s' new, pr_store p = Some s ∧ rtc store_step empty_store s ∧
    (if val_eq_str (dgetN "type" e) "file" then es ← as_list (dget_or "entities" (VList []) e); address_fields es e else Ok e) = Ok e' ∧
    match_event ip_address urlsplit urlunsplit in_network e' s TENANT now = Ok hs ∧
    pr_store p' = Some s' ∧ rtc store_step s s' ∧ pr_sent p' = pr_sent p ++ new ∧
    Forall (releasable hs) new ∧
    (∀ h, h ∈ hs → accounted e' now p hs new s' h) ∧
    (length (pr_seen p') <= bound)%nat.
Proof.
  intros Hp Hf H. apply running_ok in Hp as (Hwf & Hl & s & Hs & Hr). rewrite (observe_managed e now s p Hs), Hf in H.
  destruct (if val_eq_str _ _ then _ else _) as [e'|x] eqn:Ee; [|done]. unfold _managed_matches, bind, lift in H.
  destruct (match_event _ _ _ _ e' s TENANT now) as [hs|x] eqn:Em; [|done].
  apply handle_hits_spec in H as (s' & new & Hh & Hacc); [|done|done].
  exists s, e', hs, s', new. split_and!; try done; [by apply (hd_store _ _ _ _ _ _ Hh)|by apply (hd_steps _ _ _ _ _ _ Hh)|
    by apply (hd_sent _ _ _ _ _ _ Hh)|by apply (hd_new _ _ _ _ _ _ Hh)|by apply Hacc|by apply (hd_bound _ _ _ _ _ _ Hh)].
Qed.

(** A feed's withdrawal takes effect whole: after a refresh of that feed that raised
    nothing, a stored indicator that an entry of the feed withdrew has no assertion of
    that feed left, and so no other feed's is touched by it. *)
Theorem withdrawn_stays_out s k c p now s' raws raw t text i r a :
  rtc store_step empty_store s → refresh_one s (k, c, Ok p) now = Ok s' → parse k p = Ok raws → raw ∈ raws →
  kept_out k raw now = true → dgetN "type" raw = VStr t → text_value (dgetN "indicator" raw) = Ok text →
  norm_indicator ip_address urlsplit urlunsplit t text = Ok i →
  get s' (TENANT, t, i) = Some r → a ∈ i_prov r → contributor a ≠ (c_source c, c_feed c).
Proof.
  intros Hs H Hp Hin Hk Ht Htext Hi Hr Ha. unfold refresh_one in H. cbn [mbind res_bind] in H.
  apply bind_ok_inv in H as (recs & _ & H). apply bind_ok_inv in H as (revs & Hrev & H).
  apply bind_ok_inv in H as ([s2 out] & Hing & [= <-]). destruct k; try done. unfold revocations in Hrev. rewrite Hp in Hrev.
  apply stix_markers_spec in Hrev as [Hm _]; [|destruct p as [|doc]; [done|]; intros x Hx; exact (stix_parse_types doc raws x Hp Hx)].
  destruct (Hm raw Hin Hk) as (m & Hmin & E1 & E2 & E3 & E4 & text' & Etext & Ei). rewrite Ht in E4. injection E4 as E4.
  rewrite Htext in Etext. injection Etext as <-. rewrite <- E4, Hi in Ei. injection Ei as Ei.
  assert (Hrv : revocation_of m ∈ revocation_of <$> revs) by by (apply list_elem_of_fmap; eauto).
  pose proof (revoked_assertions_gone s _ now _ s2 out (revocation_of m) r a Hs Hing Hrv) as Hgone.
  unfold revocation_of in Hgone. cbn [rv_key rv_source rv_feed] in Hgone. rewrite E1, E2, E3, <- E4, <- Ei in Hgone. by apply Hgone.
Qed.
End process.

(** ** Examples *)

Section examples.
Abbreviation observe := (process_observation no_address no_url glue (λ _ _, false) (λ _, "d") (λ _, "") (λ _, "a") "t" 10).
Definition no_sets : feed_sets := {| fs_feodo := ∅; fs_ja3 := ∅; fs_cert := ∅; fs_c2fp := ∅ |}.
Definition ex_feed : kind * connector * res payload := (Http, ex_connector, Ok (text_payload "bad.example,domain,80")).
Definition ex_store : intel_store := _intel_refresh no_address no_url glue "t" empty_store [ex_feed] 1000000.
Definition ex_process : process := with_store (Some ex_store) (started no_sets).
Definition ex_event : dict := [("tenant_id", VStr "t"); ("src_ip", VStr "10.0.0.5"); ("dns", VDict [("rrname", VStr "BAD.example")])].
Definition summary (k : candidate) : string * string * Z * float := (k_id k, k_category k, k_severity k, k_confidence k).
Example ex_observed :
  let '(p, r) := observe ex_event 2000000 ex_process in
  (summary <$> pr_sent p, r, pr_sent (observe ex_event 2000000 p).1 = pr_sent p) =
  ([("ti-d", "c2", 8, fmul (lit "0.8") (lit "0.7"))], Ok tt, pr_sent p = pr_sent p).
Proof. vm_compute. reflexivity. Qed.
Lemma hits_accounted_witness :
  ∃ p', observe ex_event 2000000 ex_process = (p', Ok tt) ∧ length (pr_sent p') = 1%nat ∧ (length (pr_seen p') <= bound 10)%nat.
Proof.
  assert (E : ∃ p', observe ex_event 2000000 ex_process = (p', Ok tt) ∧ length (pr_sent p') = 1%nat).
  { eexists. split; [vm_compute; reflexivity|reflexivity]. }
  destruct E as (p' & E & Hl). exists p'. split; [exact E|]. split; [exact Hl|].
  destruct (hits_accounted no_address no_url glue (λ _ _, false) (λ _, "d") (λ _, "") (λ _, "a") "t" 10 no_sets ex_process ex_event 2000000 p')
    as (s & e' & hs & s' & new & _ & _ & _ & _ & _ & _ & _ & _ & _ & Hb).
  - apply rtc_once. apply (refreshes no_address no_url glue (λ _ _, false) (λ _, "d") (λ _, "") (λ _, "a") "t" 10 (started no_sets) empty_store [ex_feed] 1000000).
    reflexivity.
  - reflexivity.
  - exact E.
  - exact Hb.
Defined.
(** A bundle that revokes one object and asserts the same value by another loses the
    live one: revocations are applied after the merges, by value. *)
Definition ex_reissued : val :=
  VDict [("objects", VList [sdo "[domain-name:value = 'bad.example']" [("revoked", VBool true)];
                            sdo "[domain-name:value = 'bad.example']" []])].
Example reissued_indicator_is_lost :
  size (st_indicators (_intel_refresh no_address no_url glue "t" empty_store [(StixTaxii, ex_connector, Ok (document ex_reissued))] 1000000)) = 0%nat.
Proof. vm_compute. reflexivity. Qed.
End examples.
