(* ===== verification/AssetService.v ===== *)
(** * The asset service's process (services/asset-service/app.py, relationships.py)

    Records folded into assets, identity bindings, facts and relationships; their
    persistence; and the consumer that acknowledges only what is durable.

    A database table keeps the newest row per key, as a replacing merge tree read with
    FINAL does.  A flush is given the tables that are down; a crash between two of its
    inserts leaves what such a flush leaves.  Instants are integers; the texts of assets
    are the ISO forms the code writes.  An asset is changed only by a merge that returns. *)

From stdpp Require Import gmap.
From S2P Require Import Prelude Order PyVal OrderedMap PyTime FindingLifecycle AssetBindings AssetFacts IsoTime.
Set Default Proof Using "Type".

(** ** Observed relationships (services/asset-service/relationships.py, observe of app.py)

    Who resolved and who talked to whom: the edges of one record, and the cumulative span
    of each edge over all records.  Instants are integers; [observed_at] is their text. *)

Definition edge_key : Type := string * string * string.
Record edge := { e_src : string; e_dst : string; e_kind : string; e_evidence : dict }.
Definition _IP_RRTYPES : list string := ["A"; "AAAA"].

Definition _entity (ip : val) (bs : bindings) (ts : Z) : res string :=
  asset_key [("ip", ip); ("mac", VNone)] bs ts.
Definition _edge (src_ent dst_ent kind event_type : string) (ts : Z) (detail : val) : edge :=
  {| e_src := src_ent; e_dst := dst_ent; e_kind := kind;
     e_evidence := [("event_type", VStr event_type); ("observed_at", VStr (format_ms ts)); ("detail", detail)] |}.

(** [queries[0]] of a value that is truthy. *)
Definition first_query (queries : val) : res dict :=
  match queries with
  | VList (q :: _) => as_dict q
  | VDict _ => Raise KeyError
  | VStr _ => Raise AttributeError
  | _ => Raise TypeError
  end.
(** An answer that is an address becomes an edge. *)
Definition answer_edge (src_ent : string) (qname : val) (bs : bindings) (ts : Z) (v : val) : res (list edge) :=
  a ← as_dict v;
  check (match dgetN "rrtype" a with VList _ | VDict _ => false | _ => true end) TypeError;;
  if negb (val_in_strs (dgetN "rrtype" a) _IP_RRTYPES) || negb (truthy (dgetN "rdata" a)) then Ok []
  else dst ← _entity (dgetN "rdata" a) bs ts; Ok [_edge src_ent dst "resolves" "dns" ts qname].
Definition _dns_edges (eve : dict) (bs : bindings) (ts : Z) : res (list edge) :=
  let d := py_or (dget_or "dns" (VDict []) eve) (VDict []) in
  let src := dgetN "src_ip" eve in
  if negb (truthy src) then Ok []
  else
    d ← as_dict d;
    let queries := py_or (dgetN "queries" d) (VList []) in
    q ← (if truthy queries then first_query queries else Ok d);
    let qname := py_or (dget_or "rrname" (VStr "") q) (VStr "") in
    src_ent ← _entity src bs ts;
    answers ← as_list (py_or (dgetN "answers" d) (VList []));
    @concat edge <$> mapM (answer_edge src_ent qname bs ts) answers.
Definition _flow_edges (eve : dict) (bs : bindings) (ts : Z) : res (list edge) :=
  let src := dgetN "src_ip" eve in
  let dst := dgetN "dest_ip" eve in
  if negb (truthy src && truthy dst) then Ok []
  else
    let detail := py_or (py_or (dgetN "app_proto" eve) (dgetN "proto" eve)) (VStr "") in
    s ← _entity src bs ts;
    d ← _entity dst bs ts;
    Ok [_edge s d "communicates-with" "flow" ts detail].
Definition build_edges (eve : dict) (bs : bindings) (ts : Z) : res (list edge) :=
  let et := dgetN "event_type" eve in
  if val_eq_str et "dns" then _dns_edges eve bs ts
  else if val_eq_str et "flow" then _flow_edges eve bs ts
  else Ok [].

(** ** Spans *)

Record span := { sp_first : Z; sp_last : Z; sp_evidence : dict }.
Abbreviation spans := (list (edge_key * span)).
Definition key_of_edge (e : edge) : edge_key := (e_src e, e_dst e, e_kind e).
(** The span of an edge seen (again) at [ts], and whether it changed. *)
Definition widen (ts : Z) (evidence : dict) (slot : option span) : span * bool :=
  match slot with
  | None => ({| sp_first := ts; sp_last := ts; sp_evidence := evidence |}, true)
  | Some s =>
      let back := ts <? sp_first s in
      let on := sp_last s <=? ts in
      ({| sp_first := if back then ts else sp_first s; sp_last := if on then ts else sp_last s;
          sp_evidence := if on then evidence else sp_evidence s |}, back || on)
  end.
Definition add_edge (ts : Z) (st : spans * list edge_key) (e : edge) : spans * list edge_key :=
  let k := key_of_edge e in
  let '(s, dirty) := widen ts (e_evidence e) (od_get k st.1) in
  (od_set k s st.1, if dirty && negb (mem k st.2) then st.2 ++ [k] else st.2).
Definition add_edges (ts : Z) (st : spans * list edge_key) (es : list edge) : spans * list edge_key := foldl (add_edge ts) st es.
(** Records in the order they are folded: their instant and their edges. *)
Definition spans_of (rs : list (Z * list edge)) (st : spans * list edge_key) : spans * list edge_key :=
  foldl (λ st r, add_edges r.1 st r.2) st rs.

(** ** Facts *)

(** The sightings of an edge: instants with their evidence. *)
Definition sightings (k : edge_key) (rs : list (Z * list edge)) : list (Z * dict) :=
  concat (map (λ r, map (λ e, (r.1, e_evidence e)) (List.filter (λ e, bool_decide (key_of_edge e = k)) r.2)) rs).
(** [s] is the hull of the sightings: its bounds are the first and the last instant, its
    evidence that of a last one. *)
Definition hull (ss : list (Z * dict)) (s : span) : Prop :=
  (∃ ev, (sp_first s, ev) ∈ ss) ∧ (sp_last s, sp_evidence s) ∈ ss ∧ ∀ x, x ∈ ss → sp_first s <= x.1 <= sp_last s.

Lemma hull_widen ts ev ss s : hull ss s → hull (ss ++ [(ts, ev)]) (widen ts ev (Some s)).1.
Proof.
  intros ([ev1 H1] & H2 & H3). unfold hull. simpl.
  assert (Hf : sp_first s <= sp_last s) by (specialize (H3 _ H1); simpl in H3; lia).
  destruct (Z.ltb_spec ts (sp_first s)), (Z.leb_spec (sp_last s) ts); try lia; (split; [|split]).
  - exists ev. set_solver.
  - set_solver.
  - intros x [Hx|Hx]%elem_of_app; [specialize (H3 _ Hx); lia|]. apply list_elem_of_singleton in Hx as ->. simpl. lia.
  - exists ev1. set_solver.
  - set_solver.
  - intros x [Hx|Hx]%elem_of_app; [specialize (H3 _ Hx); lia|]. apply list_elem_of_singleton in Hx as ->. simpl. lia.
  - exists ev1. set_solver.
  - set_solver.
  - intros x [Hx|Hx]%elem_of_app; [specialize (H3 _ Hx); lia|]. apply list_elem_of_singleton in Hx as ->. simpl. lia.
Qed.
Definition spans_ok (ss : edge_key → list (Z * dict)) (m : spans) : Prop :=
  ∀ k, match od_get k m with Some s => hull (ss k) s | None => ss k = [] end.
Lemma add_edge_ok ts ss st e :
  spans_ok ss st.1 →
  spans_ok (λ k, ss k ++ if decide (key_of_edge e = k) then [(ts, e_evidence e)] else []) (add_edge ts st e).1.
Proof.
  intros H k. unfold add_edge. destruct (widen ts (e_evidence e) (od_get (key_of_edge e) st.1)) as [s d] eqn:Ew. cbn [fst].
  rewrite od_get_set. destruct (decide (k = key_of_edge e)) as [->|Hne].
  - rewrite decide_True by done. specialize (H (key_of_edge e)). destruct (od_get _ st.1) as [s0|].
    + pose proof (hull_widen ts (e_evidence e) _ _ H) as Hh. by rewrite Ew in Hh.
    + injection Ew as <- _. rewrite H. simpl. split; [exists (e_evidence e); by left|]. split; [by left|].
      intros x Hx. apply list_elem_of_singleton in Hx as ->. simpl. lia.
  - rewrite decide_False by done. rewrite app_nil_r. apply H.
Qed.
Lemma spans_ok_ext ss ss' m : (∀ k, ss k = ss' k) → spans_ok ss m → spans_ok ss' m.
Proof. intros He H k. specialize (H k). by rewrite <- He. Qed.
Lemma add_edges_ok ts ss st es :
  spans_ok ss st.1 →
  spans_ok (λ k, ss k ++ map (λ e, (ts, e_evidence e)) (List.filter (λ e, bool_decide (key_of_edge e = k)) es)) (add_edges ts st es).1.
Proof.
  revert ss st. induction es as [|e es IH]; intros ss st H.
  - eapply spans_ok_ext; [|exact H]. intros k. by rewrite app_nil_r.
  - unfold add_edges. cbn [foldl]. fold (add_edges ts (add_edge ts st e) es). eapply spans_ok_ext; [|apply IH, add_edge_ok, H].
    intros k. cbn beta. cbn [List.filter]. destruct (decide (key_of_edge e = k)) as [E|E].
    + rewrite (bool_decide_eq_true_2 _ E). simpl. by rewrite <- app_assoc.
    + rewrite (bool_decide_eq_false_2 _ E). by rewrite app_nil_r.
Qed.
Lemma spans_of_ok rs ss st :
  spans_ok ss st.1 → spans_ok (λ k, ss k ++ sightings k rs) (spans_of rs st).1.
Proof.
  revert ss st. induction rs as [|r rs IH]; intros ss st H.
  - eapply spans_ok_ext; [|exact H]. intros k. by rewrite app_nil_r.
  - unfold spans_of. cbn [foldl]. fold (spans_of rs (add_edges r.1 st r.2)). eapply spans_ok_ext; [|apply IH, add_edges_ok, H].
    intros k. cbn beta. unfold sightings. cbn [map concat]. by rewrite <- app_assoc.
Qed.

(** Relationship spans are exact.  Whatever records are folded and in whatever order,
    an edge is tracked exactly when some record showed it, its span runs from the first to
    the last instant it was seen at, and its evidence is that of a sighting at the last
    instant; so the bounds do not depend on the order of arrival. *)
Theorem edge_spans_exact rs rs' k :
  (match od_get k (spans_of rs ([], [])).1 with Some s => hull (sightings k rs) s | None => sightings k rs = [] end) ∧
  (rs ≡ₚ rs' → (λ s, (sp_first s, sp_last s)) <$> od_get k (spans_of rs ([], [])).1 =
               (λ s, (sp_first s, sp_last s)) <$> od_get k (spans_of rs' ([], [])).1).
Proof.
  assert (Hall : ∀ rs, spans_ok (λ k, sightings k rs) (spans_of rs ([], [])).1).
  { intros l. eapply spans_ok_ext; [|apply (spans_of_ok l (λ _, [])); by intros ?]. done. }
  split; [apply Hall|]. intros Hp. pose proof (Hall rs k) as H. pose proof (Hall rs' k) as H'. cbv beta in H, H'.
  assert (Hs : sightings k rs ≡ₚ sightings k rs').
  { unfold sightings. clear -Hp. induction Hp as [|x l l' _ IH|x y l|l1 l2 l3 _ IH1 _ IH2]; simpl; [done|by rewrite IH| |by etrans].
    rewrite !app_assoc. by rewrite (Permutation_app_comm (map _ (List.filter _ y.2))). }
  destruct (od_get k (spans_of rs _).1) as [s|], (od_get k (spans_of rs' _).1) as [s'|]; simpl.
  - destruct H as ([ev1 A1] & A2 & A3), H' as ([ev2 B1] & B2 & B3). f_equal.
    assert (E1 : sp_first s' <= sp_first s <= sp_last s') by (rewrite Hs in A1; apply (B3 _ A1)).
    assert (E2 : sp_first s <= sp_first s' <= sp_last s) by (rewrite <- Hs in B1; apply (A3 _ B1)).
    assert (E3 : sp_first s' <= sp_last s <= sp_last s') by (rewrite Hs in A2; apply (B3 _ A2)).
    assert (E4 : sp_first s <= sp_last s' <= sp_last s) by (rewrite <- Hs in B2; apply (A3 _ B2)). f_equal; lia.
  - destruct H as (_ & A2 & _). rewrite Hs, H' in A2. by apply elem_of_nil in A2.
  - destruct H' as (_ & B2 & _). rewrite <- Hs, H in B2. by apply elem_of_nil in B2.
  - done.
Qed.

(** ** The asset service's process (services/asset-service/app.py) *)

(** ** State *)

(** An interval to persist; its identity among the rows of a predicate. *)
Record iv_row := { v_value : string; v_from : Z; v_to : option Z; v_conf : Z; v_type : string; v_obs : string }.
Definition iv_id : Type := Z * string * string.
Definition id_of (v : iv_row) : iv_id := (trunc_ms (v_from v), v_value v, v_obs v).
Definition of_interval (iv : interval) : iv_row :=
  {| v_value := iv_value iv; v_from := iv_from iv; v_to := iv_to iv; v_conf := iv_conf iv; v_type := iv_type iv; v_obs := iv_obs iv |}.
Definition of_ip_interval (iv : ip_interval) : iv_row :=
  {| v_value := ii_ip iv; v_from := ii_from iv; v_to := ii_to iv; v_conf := default 0 (assoc (ii_src iv) SOURCE_CONFIDENCE);
     v_type := ii_src iv; v_obs := ii_obs iv |}.
Abbreviation fact_key := (string * string)%type.

Record service := {
  s_assets : list (string * dict); s_bindings : bindings; s_dirty : list string; s_facts : list (string * facts_of);
  s_pending : list (fact_key * list iv_row); s_emitted : gmap fact_key (gset iv_id); s_obs : list (string * dict);
  s_spans : spans; s_edges_dirty : list edge_key
}.
Definition fresh_service : service :=
  {| s_assets := []; s_bindings := []; s_dirty := []; s_facts := []; s_pending := []; s_emitted := ∅; s_obs := [];
     s_spans := []; s_edges_dirty := [] |}.
Record fact_cell := { fc_to : option Z; fc_conf : Z; fc_type : string; fc_deleted : bool }.
Record database := {
  d_assets : gmap string dict; d_obs : gmap string dict; d_facts : gmap (fact_key * iv_id) fact_cell; d_edges : gmap edge_key span
}.
Record world := { w_svc : service; w_db : database }.
Definition on_svc (f : service → service) : M world unit := modify (λ w, {| w_svc := f (w_svc w); w_db := w_db w |}).
Definition on_db (f : database → database) : M world unit := modify (λ w, {| w_svc := w_svc w; w_db := f (w_db w) |}).

Definition set_bindings (bs : bindings) (s : service) : service :=
  {| s_assets := s_assets s; s_bindings := bs; s_dirty := s_dirty s; s_facts := s_facts s; s_pending := s_pending s;
     s_emitted := s_emitted s; s_obs := s_obs s; s_spans := s_spans s; s_edges_dirty := s_edges_dirty s |}.
Definition set_obs (o : list (string * dict)) (s : service) : service :=
  {| s_assets := s_assets s; s_bindings := s_bindings s; s_dirty := s_dirty s; s_facts := s_facts s; s_pending := s_pending s;
     s_emitted := s_emitted s; s_obs := o; s_spans := s_spans s; s_edges_dirty := s_edges_dirty s |}.
Definition set_facts (f : list (string * facts_of)) (p : list (fact_key * list iv_row)) (s : service) : service :=
  {| s_assets := s_assets s; s_bindings := s_bindings s; s_dirty := s_dirty s; s_facts := f; s_pending := p;
     s_emitted := s_emitted s; s_obs := s_obs s; s_spans := s_spans s; s_edges_dirty := s_edges_dirty s |}.
Definition set_emitted (e : gmap fact_key (gset iv_id)) (p : list (fact_key * list iv_row)) (s : service) : service :=
  {| s_assets := s_assets s; s_bindings := s_bindings s; s_dirty := s_dirty s; s_facts := s_facts s; s_pending := p;
     s_emitted := e; s_obs := s_obs s; s_spans := s_spans s; s_edges_dirty := s_edges_dirty s |}.
Definition set_assets (a : list (string * dict)) (dirty : list string) (s : service) : service :=
  {| s_assets := a; s_bindings := s_bindings s; s_dirty := dirty; s_facts := s_facts s; s_pending := s_pending s;
     s_emitted := s_emitted s; s_obs := s_obs s; s_spans := s_spans s; s_edges_dirty := s_edges_dirty s |}.
Definition set_spans (sp : spans * list edge_key) (s : service) : service :=
  {| s_assets := s_assets s; s_bindings := s_bindings s; s_dirty := s_dirty s; s_facts := s_facts s; s_pending := s_pending s;
     s_emitted := s_emitted s; s_obs := s_obs s; s_spans := sp.1; s_edges_dirty := sp.2 |}.

(** ** Folding *)

Section service.
Context (sha256 : string → string) (json_dumps : val → string) (TENANT SENSOR : string).

Definition canonical_obs_id (tenant : string) (sensor : val) (topic : string) (partition offset : Z) : string :=
  "obs:" +:+ sha256 (json_dumps (VList [VStr tenant; sensor; VStr topic; VInt partition; VInt offset])).
Definition _identity (eve : dict) : string * val :=
  (TENANT, py_or (py_or (dgetN "host" eve) (dgetN "sensor_id" eve)) (VStr SENSOR)).
Definition has_binding (obs : dict) : bool := truthy (dgetN "mac" obs) && truthy (dgetN "ip" obs).
(** The end of a lease; a date no datetime has raises. *)
Definition lease_end (ts : Z) (lease_secs : val) : res (option Z) :=
  if negb (truthy lease_secs) then Ok None
  else match lease_secs with
       | VInt n => check (is_datetime (ts + n * 1000000)) OverflowError;; Ok (lease_expiry ts (Some n))
       | _ => Raise TypeError
       end.
Definition put_groups {A} (f : A → iv_row) (kf : string → fact_key) (groups : list (string * list A))
    (p : list (fact_key * list iv_row)) : list (fact_key * list iv_row) :=
  foldl (λ p g, od_set (kf g.1) (f <$> g.2) p) p groups.
Definition _fold_observation (obs : dict) (obs_id tenant : string) (ts : Z) : M world string :=
  (if has_binding obs then
     let* expires := lift (lease_end ts (dgetN "lease_secs" obs)) in
     let* ip := lift (str_of_val (dgetN "ip" obs)) in
     let* mac := lift (str_of_val (dgetN "mac" obs)) in
     let* src := lift (str_of_val (dget_or "src" (VStr "") obs)) in
     on_svc (λ s, set_bindings (record_binding (s_bindings s) ip mac ts expires obs_id src) s)
   else ret tt);*
  let* bs := read (λ w, s_bindings (w_svc w)) in
  let* key := lift (asset_key obs bs ts) in
  let* cands := lift (derive_facts obs obs_id ts) in
  (if nonempty cands || has_binding obs then
     let* row := lift (identity_observation obs obs_id tenant ts) in
     on_svc (λ s, set_obs (od_set obs_id row (s_obs s)) s)
   else ret tt);*
  on_svc (λ s, let r := fold_facts (s_facts s) key cands in
               set_facts r.1 (put_groups of_interval (pair key) r.2 (s_pending s)) s);*
  (if has_binding obs then
     let* owned := lift (rebuild_ip_ownership bs) in
     on_svc (λ s, set_facts (s_facts s) (put_groups of_ip_interval (λ subj, (subj, "ip")) owned (s_pending s)) s)
   else ret tt);*
  ret key.
Definition fold_one_obs (obs_id tenant : string) (ts : Z) (obs : dict) : M world unit :=
  let* key := _fold_observation obs obs_id tenant ts in
  let* a := read (λ w, od_get key (s_assets (w_svc w))) in
  let* merged := lift (merge a obs (isoformat ts)) in
  on_svc (λ s, set_assets (od_set key merged (s_assets s)) (if mem key (s_dirty s) then s_dirty s else s_dirty s ++ [key]) s).
Definition observe (eve : dict) (topic : string) (partition offset : Z) (ts : Z) : M world unit :=
  let '(tenant, sensor) := _identity eve in
  let obs_id := canonical_obs_id tenant sensor topic partition offset in
  let* evidence := lift (extract_evidence eve) in
  for_each (fold_one_obs obs_id tenant ts) evidence;*
  let* bs := read (λ w, s_bindings (w_svc w)) in
  let* edges := lift (build_edges eve bs ts) in
  on_svc (λ s, set_spans (add_edges ts (s_spans s, s_edges_dirty s) edges) s).

(** ** Persistence *)

Inductive table := t_asset | t_identity | t_fact | t_edge.
Definition insert (down : table → bool) (t : table) : M world unit := lift (check (negb (down t)) OtherError).
Definition flush_assets (down : table → bool) : M world unit :=
  let* s := read w_svc in
  match s_dirty s with
  | [] => ret tt
  | dirty =>
      insert down t_asset;*
      on_db (λ d, {| d_assets := foldl (λ m k, match od_get k (s_assets s) with Some a => <[k := a]> m | None => m end) (d_assets d) dirty;
                     d_obs := d_obs d; d_facts := d_facts d; d_edges := d_edges d |});*
      on_svc (set_assets (s_assets s) [])
  end.
Definition flush_obs (down : table → bool) : M world unit :=
  let* s := read w_svc in
  match s_obs s with
  | [] => ret tt
  | rows =>
      insert down t_identity;*
      on_db (λ d, {| d_assets := d_assets d; d_obs := foldl (λ m kv, <[kv.1 := kv.2]> m) (d_obs d) rows;
                     d_facts := d_facts d; d_edges := d_edges d |});*
      on_svc (set_obs [])
  end.
Definition live_cell (v : iv_row) : fact_cell := {| fc_to := v_to v; fc_conf := v_conf v; fc_type := v_type v; fc_deleted := false |}.
Definition tombstone : fact_cell := {| fc_to := None; fc_conf := 0; fc_type := ""; fc_deleted := true |}.
Definition current_ids (ivs : list iv_row) : gset iv_id := list_to_set (id_of <$> ivs).
(** The rows of one predicate: its intervals, and a tombstone for each that is gone. *)
Definition put_group (emitted : gmap fact_key (gset iv_id)) (m : gmap (fact_key * iv_id) fact_cell) (g : fact_key * list iv_row) :
    gmap (fact_key * iv_id) fact_cell :=
  foldl (λ m i, <[(g.1, i) := tombstone]> m)
    (foldl (λ m v, <[(g.1, id_of v) := live_cell v]> m) m g.2)
    (elements (default ∅ (emitted !! g.1) ∖ current_ids g.2)).
Definition flush_facts (down : table → bool) : M world unit :=
  let* s := read w_svc in
  match s_pending s with
  | [] => ret tt
  | groups =>
      insert down t_fact;*
      on_db (λ d, {| d_assets := d_assets d; d_obs := d_obs d; d_facts := foldl (put_group (s_emitted s)) (d_facts d) groups;
                     d_edges := d_edges d |});*
      on_svc (set_emitted (foldl (λ e g, <[g.1 := current_ids g.2]> e) (s_emitted s) groups) [])
  end.
Definition flush_edges (down : table → bool) : M world unit :=
  let* s := read w_svc in
  match s_edges_dirty s with
  | [] => ret tt
  | dirty =>
      insert down t_edge;*
      on_db (λ d, {| d_assets := d_assets d; d_obs := d_obs d; d_facts := d_facts d;
                     d_edges := foldl (λ m k, match od_get k (s_spans s) with Some sp => <[k := sp]> m | None => m end) (d_edges d) dirty |});*
      on_svc (set_spans (s_spans s, []))
  end.
Definition flush (down : table → bool) : M world unit :=
  flush_assets down;* flush_obs down;* flush_facts down;* flush_edges down.

(** ** Restart *)

(** A stored time reads back as its canonical text. *)
Definition canonical_time (k : string) (row : dict) : dict :=
  match dgetN k row with
  | VStr t => match parse_instant t with Ok z => dset k (VStr (format_ms z)) row | Raise _ => row end
  | _ => row
  end.
(** The row of an asset without the attributes that were never observed. *)
Definition load_asset (row : dict) : dict :=
  List.filter (λ kv, negb (mem kv.1 (_ATTR_SCALARS ++ _ATTR_LISTS ++ ["attribute_provenance"])) || truthy kv.2)
    (canonical_time "last_seen" (canonical_time "first_seen" row)).
Definition _load_assets (d : database) (s : service) : service :=
  set_assets ((λ kv, (kv.1, load_asset kv.2)) <$> map_to_list (d_assets d)) (s_dirty s) s.
Definition _load_edges (d : database) (s : service) : service := set_spans (map_to_list (d_edges d), s_edges_dirty s) s.
Definition add_emitted (e : gmap fact_key (gset iv_id)) (kc : (fact_key * iv_id) * fact_cell) : gmap fact_key (gset iv_id) :=
  if fc_deleted kc.2 then e else <[kc.1.1 := {[kc.1.2]} ∪ default ∅ (e !! kc.1.1)]> e.
Definition _load_emitted (d : database) (s : service) : service :=
  set_emitted (foldl add_emitted (s_emitted s) (map_to_list (d_facts d))) (s_pending s) s.
Definition row_time (row : dict) : Z := match dgetN "normalized_time" row with VStr t => match parse_instant t with Ok t => t | Raise _ => 0 end | _ => 0 end.
Definition stored_rows (d : database) : list (string * dict) :=
  isort (λ kv, (row_time kv.2, kv.1)) (map_to_list (d_obs d)).
Definition replay_row (kv : string * dict) : M world unit :=
  let* doc := lift (as_dict (dgetN "observation" kv.2)) in
  let* obs := lift (reconstruct_obs doc) in
  let* tenant := lift (str_of_val (dgetN "tenant_id" kv.2)) in
  let* _ := _fold_observation obs kv.1 tenant (row_time kv.2) in ret tt.
Definition restore_state (down : table → bool) : M world unit :=
  let* d := read w_db in
  on_svc (λ s, _load_emitted d (_load_edges d (_load_assets d s)));*
  for_each replay_row (stored_rows d);*
  on_svc (set_obs []);*
  flush down.

(** ** The consumer *)

(** A record of a topic: the broker's timestamp type and time (milliseconds), and the value. *)
Record kafka_record := { kr_type : Z; kr_time : option Z; kr_value : val }.
Definition partition : Type := string * Z.
Context (log : partition → list kafka_record).

Definition ingest_time (r : kafka_record) : res Z :=
  match kr_time r with
  | Some ms =>
      check ((kr_type r =? 1) && (0 <=? ms)) OtherError;;
      check (is_datetime (ms * 1000)) ValueError;;
      Ok (ms * 1000)
  | None => Raise OtherError
  end.
Definition observe_record (tp : partition) (off : nat) (r : kafka_record) : M world unit :=
  let* ts := lift (ingest_time r) in
  let* eve := lift (as_dict (kr_value r)) in
  observe eve tp.1 tp.2 (Z.of_nat off) ts.
(** The records of one partition: on a failure the position is set back and the rest waits. *)
Fixpoint drain (tp : partition) (off : nat) (rs : list kafka_record) (w : world) : world * nat :=
  match rs with
  | [] => (w, off)
  | r :: rs =>
      match observe_record tp off r w with
      | (w, Ok _) => drain tp (S off) rs w
      | (w, Raise _) => (w, off)
      end
  end.
Abbreviation offsets := (gmap partition nat).
Definition offset_of (o : offsets) (tp : partition) : nat := default 0%nat (o !! tp).
(** A poll: how many records each partition returned. *)
Fixpoint poll_and_observe (batch : list (partition * nat)) (w : world) (pos : offsets) : world * offsets :=
  match batch with
  | [] => (w, pos)
  | (tp, n) :: batch =>
      let off := offset_of pos tp in
      let '(w, off') := drain tp off (take n (drop off (log tp))) w in
      poll_and_observe batch w (<[tp := off']> pos)
  end.

(** The system: the database, the committed offsets, and the running process if there is
    one with its positions. *)
Record system := { y_db : database; y_committed : offsets; y_run : option (service * offsets) }.
Definition persist_and_commit (down : table → bool) (commits : bool) (y : system) (s : service) (pos : offsets) : system :=
  match flush down {| w_svc := s; w_db := y_db y |} with
  | (w, Ok _) =>
      if commits then {| y_db := w_db w; y_committed := pos; y_run := Some (w_svc w, pos) |}
      else {| y_db := w_db w; y_committed := y_committed y; y_run := None |}
  | (w, Raise _) => {| y_db := w_db w; y_committed := y_committed y; y_run := None |}
  end.
Definition start_process (down : table → bool) (y : system) : system :=
  match restore_state down {| w_svc := fresh_service; w_db := y_db y |} with
  | (w, Ok _) => {| y_db := w_db w; y_committed := y_committed y; y_run := Some (w_svc w, y_committed y) |}
  | (w, Raise _) => {| y_db := w_db w; y_committed := y_committed y; y_run := None |}
  end.
(** Polls, persists that may fail anywhere, crashes at any point, restarts. *)
Inductive system_step (y : system) : system → Prop :=
| polls batch s pos w pos' :
    y_run y = Some (s, pos) → poll_and_observe batch {| w_svc := s; w_db := y_db y |} pos = (w, pos') →
    system_step y {| y_db := w_db w; y_committed := y_committed y; y_run := Some (w_svc w, pos') |}
| persists down commits s pos : y_run y = Some (s, pos) → system_step y (persist_and_commit down commits y s pos)
| crashes : system_step y {| y_db := y_db y; y_committed := y_committed y; y_run := None |}
| restarts down : y_run y = None → system_step y (start_process down y).
Definition empty_db : database := {| d_assets := ∅; d_obs := ∅; d_facts := ∅; d_edges := ∅ |}.
Definition deployed : system := {| y_db := empty_db; y_committed := ∅; y_run := None |}.

(** ** Facts *)

(** *** Folding changes the buffers only, and only adds to them *)

(** An edge that is not dirty, or not tracked, is in the database as it is in memory. *)
Definition spans_clean (sp : spans * list edge_key) (m : gmap edge_key span) : Prop :=
  ∀ k, k ∉ sp.2 ∨ od_get k sp.1 = None → od_get k sp.1 = m !! k.
Definition edges_clean (w : world) : Prop := spans_clean (s_spans (w_svc w), s_edges_dirty (w_svc w)) (d_edges (w_db w)).
Record folds (w w' : world) : Prop := {
  fo_db : w_db w' = w_db w;
  fo_obs : od_keys (s_obs (w_svc w)) ⊆ od_keys (s_obs (w_svc w'));
  fo_emitted : s_emitted (w_svc w') = s_emitted (w_svc w);
  fo_pending : od_wf (s_pending (w_svc w)) → od_wf (s_pending (w_svc w'));
  fo_edges : edges_clean w → edges_clean w'
}.
#[local] Instance folds_preorder : PreOrder folds.
Proof.
  split.
  - intros w. by split.
  - intros w1 w2 w3 [A1 A2 A3 A4 A5] [B1 B2 B3 B4 B5]. split; [congruence|by etrans|congruence|auto|auto].
Qed.
Lemma put_groups_wf {A} (f : A → iv_row) kf groups p : od_wf p → od_wf (put_groups f kf groups p).
Proof. clear. unfold put_groups. revert p. induction groups as [|g gs IH]; intros p Hp; [done|]. simpl. apply IH. by apply od_wf_set. Qed.
Lemma add_edges_clean ts m es st : spans_clean st m → spans_clean (add_edges ts st es) m.
Proof.
  clear. revert st. induction es as [|e es IH]; intros st H; [done|]. unfold add_edges. cbn [foldl]. apply IH. clear IH. intros k.
  unfold add_edge. destruct (widen ts (e_evidence e) (od_get (key_of_edge e) st.1)) as [s d] eqn:Ew. cbn [fst snd].
  destruct (decide (k = key_of_edge e)) as [->|Hne].
  - rewrite od_get_set_eq. intros [Hk|?]; [|done]. destruct d.
    + exfalso. apply Hk. cbn [andb]. destruct (mem _ st.2) eqn:Em; cbn [negb]; [by apply mem_true|apply elem_of_app; right; by left].
    + cbn [andb] in Hk. rewrite <- H by by left. unfold widen in Ew. destruct (od_get _ st.1) as [s0|]; [|done]. injection Ew as <- Hd.
      apply orb_false_iff in Hd as [-> ->]. by destruct s0.
  - rewrite od_get_set_ne by done. intros [Hk|Hn]; apply H; [left|by right]. intros Hin. apply Hk. destruct (d && _); [|done]. apply elem_of_app. by left.
Qed.
Lemma keys_set_mono (k : string) (v : dict) m : od_keys m ⊆ od_keys (od_set k v m).
Proof. clear. rewrite od_keys_set. case_decide; set_solver. Qed.
Lemma frames_svc f : (∀ w, folds w {| w_svc := f (w_svc w); w_db := w_db w |}) → frames folds (on_svc f).
Proof. intros H w. apply H. Qed.
Ltac frame_tac :=
  repeat first
    [ apply (frames_bind folds); [|intros ?] | apply (frames_lift folds) | apply (frames_read folds) | apply (frames_ret folds) | apply frames_svc; intros w
    | match goal with |- frames _ (if ?b then _ else _) => destruct b end ].
Lemma fold_observation_frames obs obs_id tenant ts : frames folds (_fold_observation obs obs_id tenant ts).
Proof.
  unfold _fold_observation. frame_tac; try (by split); split; simpl; try done; try apply keys_set_mono; intros; by apply put_groups_wf.
Qed.
Lemma observe_frames eve topic part offset ts : frames folds (observe eve topic part offset ts).
Proof.
  unfold observe. destruct (_identity eve) as [tenant sensor]. apply (frames_bind folds); [apply (frames_lift folds)|intros ev].
  apply (frames_bind folds); [apply (frames_for_each folds); intros obs|intros _].
  - unfold fold_one_obs. apply (frames_bind folds); [apply fold_observation_frames|intros key]. frame_tac; by split.
  - frame_tac. split; simpl; try done. intros H. by apply add_edges_clean.
Qed.

(** *** What a folded record leaves behind *)

(** The row attests a name or a MAC, so facts will refer to it. *)
Definition attests (obs : dict) : bool := truthy (dgetN "hostname" obs) || truthy (dgetN "mac" obs).
Lemma derive_attests obs obs_id ts cands : derive_facts obs obs_id ts = Ok cands → attests obs = true → nonempty cands = true.
Proof.
  clear. unfold derive_facts, attests. cbn [mapM]. unfold derive_fact. intros H.
  destruct (truthy (dgetN "hostname" obs)) eqn:E1, (truthy (dgetN "mac" obs)) eqn:E2; try done; intros _;
    cbn in H; repeat match type of H with context [str_of_val ?v] => destruct (str_of_val v); simpl in H; try discriminate H end;
    by injection H as <-.
Qed.
Lemma elem_of_keys_set (k : string) (v : dict) m : k ∈ od_keys (od_set k v m).
Proof. clear. rewrite od_keys_set. case_decide; set_solver. Qed.
Lemma fold_observation_keeps obs obs_id tenant ts w w' key :
  _fold_observation obs obs_id tenant ts w = (w', Ok key) → attests obs = true → obs_id ∈ od_keys (s_obs (w_svc w')).
Proof.
  unfold _fold_observation. intros H Ha. apply bind_inv in H as (u & w1 & _ & H). apply bind_inv in H as (bs & w2 & _ & H).
  apply bind_inv in H as (k & w3 & _ & H). apply bind_inv in H as (cands & w4 & Hc & H). apply lift_inv in Hc as [-> Hc].
  apply bind_inv in H as (u' & w5 & Hobs & H). rewrite (derive_attests _ _ _ _ Hc Ha) in Hobs. cbn [orb] in Hobs.
  apply bind_inv in Hobs as (row & w6 & _ & Hobs). unfold on_svc, modify in Hobs. injection Hobs as <- _.
  match type of H with ?m ?w0 = _ => assert (Hf : folds w0 (m w0).1) end.
  { match goal with |- folds ?w0 (?m ?w0).1 => assert (Hm : frames folds m); [|apply Hm] end.
    frame_tac; try (by split); split; simpl; try done; intros; by apply put_groups_wf. }
  rewrite H in Hf. apply (fo_obs _ _ Hf). apply elem_of_keys_set.
Qed.

(** *** A flush *)

(** The live rows of the fact table. *)
Definition live (d : database) (k : fact_key) (i : iv_id) : Prop := ∃ c, d_facts d !! (k, i) = Some c ∧ fc_deleted c = false.
(** What the process believes it has written is what is live. *)
Definition mirrored (w : world) : Prop := ∀ k i, i ∈ default ∅ (s_emitted (w_svc w) !! k) ↔ live (w_db w) k i.
Definition svc_ok (w : world) : Prop := mirrored w ∧ od_wf (s_pending (w_svc w)) ∧ edges_clean w.
(** What every part of a flush keeps, whether it succeeds or not. *)
Record flushes (w w' : world) : Prop := {
  fl_stored : ∀ id, is_Some (d_obs (w_db w) !! id) → is_Some (d_obs (w_db w') !! id);
  fl_kept : ∀ id, id ∈ od_keys (s_obs (w_svc w)) → id ∈ od_keys (s_obs (w_svc w')) ∨ is_Some (d_obs (w_db w') !! id);
  fl_ok : svc_ok w → svc_ok w'
}.
#[local] Instance flushes_preorder : PreOrder flushes.
Proof.
  split.
  - intros w. split; [done|intros; by left|done].
  - intros w1 w2 w3 [A1 A2 A3] [B1 B2 B3]. split; [auto| |auto]. intros id Hid. destruct (A2 id Hid) as [H|H]; [by apply B2|right; by apply B1].
Qed.
Lemma insert_run down tb w : insert down tb w = if down tb then (w, Raise OtherError) else (w, Ok tt).
Proof. clear. unfold insert, lift, check. by destruct (down tb). Qed.
Lemma foldl_insert_some (rows : list (string * dict)) (m : gmap string dict) id :
  is_Some (m !! id) ∨ id ∈ rows.*1 → is_Some (foldl (λ m kv, <[kv.1 := kv.2]> m) m rows !! id).
Proof.
  clear. revert m. induction rows as [|kv rows IH]; intros m H; simpl; [destruct H as [?|H]; [done|by apply elem_of_nil in H]|].
  apply IH. simpl in H. rewrite elem_of_cons in H. destruct (decide (id = kv.1)) as [->|Hne]; [left; rewrite lookup_insert_eq; eauto|].
  rewrite lookup_insert_ne by done. destruct H as [?|[?|?]]; auto. done.
Qed.
(** The row of one interval identity after the rows [ivs] of its predicate were written
    over [old]: the last one of that identity, and otherwise a tombstone where [old] is live. *)
Definition row_of (ivs : list iv_row) (i : iv_id) : option iv_row :=
  last (List.filter (λ v, bool_decide (id_of v = i)) ivs).
Definition written (ivs : list iv_row) (i : iv_id) (old : option fact_cell) : option fact_cell :=
  match row_of ivs i with
  | Some v => Some (live_cell v)
  | None => (λ c, if fc_deleted c then c else tombstone) <$> old
  end.
Lemma row_of_none ivs i : row_of ivs i = None ↔ i ∉ id_of <$> ivs.
Proof.
  clear. unfold row_of. rewrite last_None. split.
  - intros H (v & -> & Hv)%list_elem_of_fmap. apply list_elem_of_In in Hv.
    assert (Hin : In v (List.filter (λ v', bool_decide (id_of v' = id_of v)) ivs)) by (apply filter_In; split; [done|by apply bool_decide_eq_true]).
    by rewrite H in Hin.
  - intros H. destruct (List.filter _ ivs) as [|v l] eqn:E; [done|]. destruct H.
    assert (Hin : In v (List.filter (λ v', bool_decide (id_of v' = i)) ivs)) by (rewrite E; by left).
    apply filter_In in Hin as [Hv Hi]. apply bool_decide_eq_true in Hi as <-. apply list_elem_of_fmap. exists v. split; [done|by apply list_elem_of_In].
Qed.
Lemma row_of_snoc ivs v i : row_of (ivs ++ [v]) i = if decide (id_of v = i) then Some v else row_of ivs i.
Proof.
  clear. unfold row_of. rewrite List.filter_app. cbn [List.filter]. case_decide as E.
  - rewrite (bool_decide_eq_true_2 _ E). apply last_snoc.
  - rewrite (bool_decide_eq_false_2 _ E). by rewrite app_nil_r.
Qed.
Lemma rows_lookup (k : fact_key) (ivs : list iv_row) (m : gmap (fact_key * iv_id) fact_cell) k' i :
  foldl (λ m v, <[(k, id_of v) := live_cell v]> m) m ivs !! (k', i) =
  if decide (k' = k) then match row_of ivs i with Some v => Some (live_cell v) | None => m !! (k', i) end else m !! (k', i).
Proof.
  clear. induction ivs as [|v ivs IH] using rev_ind; [by case_decide|]. rewrite foldl_snoc, row_of_snoc.
  destruct (decide ((k', i) = (k, id_of v))) as [E|E].
  - injection E as -> ->. rewrite lookup_insert_eq. by rewrite !decide_True.
  - rewrite lookup_insert_ne by congruence. rewrite IH. case_decide as Ek; [|done]. subst k'. rewrite decide_False; [done|congruence].
Qed.
Lemma tombs_lookup (k : fact_key) (l : list iv_id) (m : gmap (fact_key * iv_id) fact_cell) k' i :
  foldl (λ m i, <[(k, i) := tombstone]> m) m l !! (k', i) = if decide (k' = k ∧ i ∈ l) then Some tombstone else m !! (k', i).
Proof.
  clear. induction l as [|x l IH] using rev_ind; [rewrite decide_False; [done|intros [_ H]; by apply elem_of_nil in H]|].
  rewrite foldl_snoc. destruct (decide ((k', i) = (k, x))) as [E|E].
  - injection E as -> ->. rewrite lookup_insert_eq, decide_True; [done|]. split; [done|set_solver].
  - rewrite lookup_insert_ne by congruence. rewrite IH. case_decide as H; case_decide as H'; try done.
    + destruct H'. set_solver.
    + destruct H' as [-> [Hi|Hi%list_elem_of_singleton]%elem_of_app]; [by destruct H|congruence].
Qed.
Lemma put_group_lookup e m k ivs k' i :
  (∀ i, i ∈ default ∅ (e !! k) ↔ ∃ c, m !! (k, i) = Some c ∧ fc_deleted c = false) →
  put_group e m (k, ivs) !! (k', i) = if decide (k' = k) then written ivs i (m !! (k', i)) else m !! (k', i).
Proof.
  clear. intros He. unfold put_group. cbn [fst snd]. rewrite tombs_lookup, rows_lookup.
  assert (Hl : i ∈ elements (default ∅ (e !! k) ∖ current_ids ivs) ↔ (∃ c, m !! (k, i) = Some c ∧ fc_deleted c = false) ∧ row_of ivs i = None)
    by (unfold current_ids; by rewrite elem_of_elements, elem_of_difference, elem_of_list_to_set, row_of_none, He).
  destruct (decide (k' = k)) as [->|Hne]; [|rewrite decide_False; [done|by intros [? _]]]. unfold written. case_decide as Hd.
  - destruct Hd as [_ [(c & -> & Hc) ->]%Hl]. simpl. by rewrite Hc.
  - destruct (row_of ivs i) eqn:Er; [done|]. destruct (m !! (k, i)) as [c|] eqn:Em; [|done]. simpl.
    destruct (fc_deleted c) eqn:Ec; [done|]. destruct Hd. split; [done|]. apply Hl. eauto.
Qed.
Lemma written_live ivs i old :
  (∃ c, written ivs i old = Some c ∧ fc_deleted c = false) ↔ i ∈ current_ids ivs.
Proof.
  clear. unfold written, current_ids. rewrite elem_of_list_to_set. destruct (row_of ivs i) as [v|] eqn:Er.
  - split; [|by eauto]. intros _. apply dec_stable. rewrite <- row_of_none. congruence.
  - apply row_of_none in Er. split; [|done]. intros (c & Hc & Hd). apply fmap_Some in Hc as (c0 & _ & ->).
    destruct (fc_deleted c0) eqn:E; [congruence|done].
Qed.
Lemma put_groups_lookup (groups : list (fact_key * list iv_row)) e m k i :
  od_wf groups →
  (∀ k i, i ∈ default ∅ ((e : gmap fact_key (gset iv_id)) !! k) ↔ ∃ c, m !! (k, i) = Some c ∧ fc_deleted c = false) →
  foldl (put_group e) m groups !! (k, i) =
  match od_get k groups with Some ivs => written ivs i (m !! (k, i)) | None => m !! (k, i) end.
Proof.
  clear. intros Hwf He. assert (Hgen : ∀ m : gmap (fact_key * iv_id) fact_cell, (∀ k i, k ∈ od_keys groups → i ∈ default ∅ (e !! k) ↔ ∃ c, m !! (k, i) = Some c ∧ fc_deleted c = false) →
    foldl (put_group e) m groups !! (k, i) = match od_get k groups with Some ivs => written ivs i (m !! (k, i)) | None => m !! (k, i) end);
    [|apply Hgen; intros; apply He]. clear He m.
  induction groups as [|[k0 ivs] groups IH]; intros m He; [done|]. cbn [foldl od_get]. unfold od_wf, od_keys in Hwf. simpl in Hwf.
  apply NoDup_cons in Hwf as [Hk0 Hwf].
  assert (Hput : ∀ k i, put_group e m (k0, ivs) !! (k, i) = if decide (k = k0) then written ivs i (m !! (k, i)) else m !! (k, i))
    by (intros; apply put_group_lookup; intros i'; apply He; simpl; by left).
  rewrite IH; [|done|].
  - rewrite Hput. destruct (decide (k = k0)) as [->|Hne]; [by rewrite (proj2 (od_get_none k0 groups) Hk0)|done].
  - intros k' i' Hk'. rewrite Hput, decide_False by (by intros ->). apply He. simpl. by right.
Qed.
Lemma put_groups_live (groups : list (fact_key * list iv_row)) e m k i :
  od_wf groups →
  (∀ k i, i ∈ default ∅ ((e : gmap fact_key (gset iv_id)) !! k) ↔ ∃ c, m !! (k, i) = Some c ∧ fc_deleted c = false) →
  (∃ c, foldl (put_group e) m groups !! (k, i) = Some c ∧ fc_deleted c = false) ↔
  match od_get k groups with Some ivs => i ∈ current_ids ivs | None => ∃ c, m !! (k, i) = Some c ∧ fc_deleted c = false end.
Proof. clear. intros Hwf He. rewrite put_groups_lookup by done. destruct (od_get k groups); [apply written_live|done]. Qed.
Lemma emitted_groups (groups : list (fact_key * list iv_row)) (e : gmap fact_key (gset iv_id)) k :
  od_wf groups →
  foldl (λ e g, <[g.1 := current_ids g.2]> e) e groups !! k =
  match od_get k groups with Some ivs => Some (current_ids ivs) | None => e !! k end.
Proof.
  clear. revert e. induction groups as [|[k0 ivs] groups IH]; intros e Hwf; [done|]. unfold od_wf, od_keys in Hwf. simpl in Hwf.
  apply NoDup_cons in Hwf as [Hk0 Hwf]. cbn [foldl od_get]. rewrite IH by done. destruct (decide (k = k0)) as [->|Hne].
  - rewrite (proj2 (od_get_none k0 groups) Hk0). cbn [fst snd]. apply lookup_insert_eq.
  - destruct (od_get k groups); [done|]. by apply lookup_insert_ne.
Qed.
Lemma flushes_assets down w : flushes w (flush_assets down w).1.
Proof.
  unfold flush_assets, bind, read. destruct (s_dirty (w_svc w)) eqn:Ed; [done|]. rewrite insert_run. destruct (down t_asset); [done|].
  split; simpl; [done|by left|]. done.
Qed.
Lemma flushes_obs down w :
  flushes w (flush_obs down w).1 ∧
  ((flush_obs down w).2 = Ok tt → ∀ id, id ∈ od_keys (s_obs (w_svc w)) → is_Some (d_obs (w_db (flush_obs down w).1) !! id)).
Proof.
  unfold flush_obs, bind, read. destruct (s_obs (w_svc w)) as [|kv rows] eqn:Ed.
  { split; [done|]. intros _ id Hid. by apply elem_of_nil in Hid. }
  rewrite insert_run. destruct (down t_identity); [done|]. cbn [fst snd]. split.
  - split; [intros id H; apply foldl_insert_some; by left| |done].
    intros id Hid. right. rewrite Ed in Hid. apply foldl_insert_some. by right.
  - intros _ id Hid. apply foldl_insert_some. by right.
Qed.
Lemma flushes_facts down w : flushes w (flush_facts down w).1.
Proof.
  unfold flush_facts, bind, read. destruct (s_pending (w_svc w)) as [|g groups] eqn:Ed; [done|]. rewrite insert_run. destruct (down t_fact); [done|].
  split; simpl; [done|by left|]. intros (Hm & Hp & He). rewrite Ed in Hp. split_and!; [|constructor|exact He].
  intros k i. cbn [w_svc w_db s_emitted set_emitted]. change (foldl ?f ?e groups) with (foldl f e groups).
  pose proof (emitted_groups (g :: groups) (s_emitted (w_svc w)) k Hp) as Hem. cbn [foldl] in Hem. rewrite Hem.
  pose proof (put_groups_live (g :: groups) (s_emitted (w_svc w)) (d_facts (w_db w)) k i Hp Hm) as Hl. cbn [foldl] in Hl.
  unfold live. cbn [d_facts]. rewrite Hl. destruct (od_get k (g :: groups)); [done|]. apply Hm.
Qed.
Lemma foldl_edges_lookup (sp : spans) (dirty : list edge_key) (m : gmap edge_key span) (k : edge_key) :
  foldl (λ m k, match od_get k sp with Some s => <[k := s]> m | None => m end) m dirty !! k =
  if decide (k ∈ dirty) then match od_get k sp with Some s => Some s | None => m !! k end else m !! k.
Proof.
  clear. revert m. induction dirty as [|x dirty IH]; intros m; cbn [foldl]; [by rewrite decide_False by (by intros ?%elem_of_nil)|].
  rewrite IH. destruct (decide (k = x)) as [->|Hne].
  - rewrite (decide_True (P := x ∈ x :: dirty)) by by left. destruct (od_get x sp) eqn:E; [rewrite lookup_insert_eq|]; by case_decide.
  - assert (Hl : (match od_get x sp with Some s => <[x := s]> m | None => m end) !! k = m !! k) by (destruct (od_get x sp); [by rewrite lookup_insert_ne|done]).
    rewrite Hl. destruct (decide (k ∈ dirty)); [rewrite decide_True by by right|rewrite decide_False by (intros [?|?]%elem_of_cons; done)]; done.
Qed.
Lemma flushes_edges down w : flushes w (flush_edges down w).1.
Proof.
  unfold flush_edges, bind, read. destruct (s_edges_dirty (w_svc w)) as [|g dirty] eqn:Ed; [done|]. rewrite insert_run. destruct (down t_edge); [done|].
  split; simpl; [done|by left|]. intros (Hm & Hp & He). split_and!; [exact Hm|exact Hp|]. intros k _. cbn [w_svc w_db s_spans s_edges_dirty set_spans fst snd d_edges].
  pose proof (foldl_edges_lookup (s_spans (w_svc w)) (g :: dirty) (d_edges (w_db w)) k) as Hl. cbn [foldl] in Hl. rewrite Hl.
  unfold edges_clean in He. rewrite Ed in He. specialize (He k). cbn [fst snd] in He. case_decide as Hd; [|apply He; by left].
  destruct (od_get k (s_spans (w_svc w))) eqn:E; [done|]. apply He. by right.
Qed.
Definition fact_part (w : world) := (s_pending (w_svc w), s_emitted (w_svc w), d_facts (w_db w)).
Definition edge_part (w : world) := (s_spans (w_svc w), s_edges_dirty (w_svc w), d_edges (w_db w)).
Lemma flush_assets_frame down w :
  fact_part (flush_assets down w).1 = fact_part w ∧ edge_part (flush_assets down w).1 = edge_part w ∧
  s_obs (w_svc (flush_assets down w).1) = s_obs (w_svc w).
Proof. clear. unfold flush_assets, bind, read. destruct (s_dirty (w_svc w)); [done|]. rewrite insert_run. by destruct (down t_asset). Qed.
Lemma flush_obs_frame down w :
  fact_part (flush_obs down w).1 = fact_part w ∧ edge_part (flush_obs down w).1 = edge_part w.
Proof. clear. unfold flush_obs, bind, read. destruct (s_obs (w_svc w)); [done|]. rewrite insert_run. by destruct (down t_identity). Qed.
Lemma flush_facts_frame down w : edge_part (flush_facts down w).1 = edge_part w.
Proof. clear. unfold flush_facts, bind, read. destruct (s_pending (w_svc w)); [done|]. rewrite insert_run. by destruct (down t_fact). Qed.
Lemma flush_edges_frame down w : fact_part (flush_edges down w).1 = fact_part w.
Proof. clear. unfold flush_edges, bind, read. destruct (s_edges_dirty (w_svc w)); [done|]. rewrite insert_run. by destruct (down t_edge). Qed.
(** A flush that succeeds has stored everything that was pending. *)
Record flushed (w w' : world) : Prop := {
  fd_obs : ∀ id, id ∈ od_keys (s_obs (w_svc w)) → is_Some (d_obs (w_db w') !! id);
  fd_facts : ∀ k i, d_facts (w_db w') !! (k, i) =
    match od_get k (s_pending (w_svc w)) with Some ivs => written ivs i (d_facts (w_db w) !! (k, i)) | None => d_facts (w_db w) !! (k, i) end;
  fd_edges : ∀ k, d_edges (w_db w') !! k = od_get k (s_spans (w_svc w)) ∧ od_get k (s_spans (w_svc w')) = od_get k (s_spans (w_svc w))
}.
Lemma flush_facts_stored down w w' :
  svc_ok w → flush_facts down w = (w', Ok tt) →
  ∀ k i, d_facts (w_db w') !! (k, i) =
    match od_get k (s_pending (w_svc w)) with Some ivs => written ivs i (d_facts (w_db w) !! (k, i)) | None => d_facts (w_db w) !! (k, i) end.
Proof.
  clear. intros (Hm & Hp & _). unfold flush_facts, bind, read. destruct (s_pending (w_svc w)) as [|g groups] eqn:Ed; [by intros [= <-]|].
  rewrite insert_run. destruct (down t_fact); [done|]. intros [= <-] k i. cbn [w_db d_facts].
  pose proof (put_groups_lookup (g :: groups) (s_emitted (w_svc w)) (d_facts (w_db w)) k i Hp Hm) as Hl. cbn [foldl] in Hl. by rewrite Hl.
Qed.
Lemma flush_edges_stored down w w' :
  svc_ok w → flush_edges down w = (w', Ok tt) →
  ∀ k, d_edges (w_db w') !! k = od_get k (s_spans (w_svc w)) ∧ od_get k (s_spans (w_svc w')) = od_get k (s_spans (w_svc w)).
Proof.
  intros Hok H k. assert (Hs : s_spans (w_svc w') = s_spans (w_svc w) ∧ s_edges_dirty (w_svc w') = []).
  { unfold flush_edges, bind, read in H. destruct (s_edges_dirty (w_svc w)) eqn:Ed; [by injection H as <-|].
    rewrite insert_run in H. destruct (down t_edge); [done|]. by injection H as <-. }
  pose proof (fl_ok _ _ (flushes_edges down w) Hok) as (_ & _ & He). rewrite H in He. unfold edges_clean in He. destruct Hs as [Es Ed].
  cbn [fst] in He. rewrite Es, Ed in He. rewrite Es. split; [|done]. symmetry. apply He. left. by apply not_elem_of_nil.
Qed.
Lemma flush_spec down w w' r :
  flush down w = (w', r) → flushes w w' ∧ (svc_ok w → r = Ok tt → flushed w w').
Proof.
  unfold flush, bind. intros H. pose proof (flushes_assets down w) as F1. pose proof (flush_assets_frame down w) as A1.
  destruct (flush_assets down w) as [w1 [[]|e]]; cbn [fst snd] in *; [|injection H as <- <-; done].
  pose proof (flushes_obs down w1) as [F2 K2]. pose proof (flush_obs_frame down w1) as A2.
  destruct (flush_obs down w1) as [w2 [[]|e]]; cbn [fst snd] in *; [|injection H as <- <-; split; [by etrans|done]].
  pose proof (flushes_facts down w2) as F3. pose proof (flush_facts_frame down w2) as A3. pose proof (flush_facts_stored down w2) as K3.
  destruct (flush_facts down w2) as [w3 [[]|e]]; cbn [fst snd] in *; [|injection H as <- <-; split; [etrans; [exact F1|by etrans]|done]].
  pose proof (flushes_edges down w3) as F4. pose proof (flush_edges_frame down w3) as A4. pose proof (flush_edges_stored down w3) as K4. rewrite H in F4, A4, K4. cbn [fst] in F4, A4.
  split; [etrans; [exact F1|etrans; [exact F2|by etrans]]|]. intros Hok ->.
  assert (H1 : svc_ok w1) by by apply F1. assert (H2 : svc_ok w2) by by apply F2. assert (H3 : svc_ok w3) by by apply F3.
  destruct A1 as (A1 & E1 & O1), A2 as (A2 & E2). unfold fact_part in *. unfold edge_part in *. split.
  - intros id Hid. apply (fl_stored _ _ F4), (fl_stored _ _ F3), K2; [done|]. by rewrite O1.
  - intros k i. assert (Ed : d_facts (w_db w') = d_facts (w_db w3)) by congruence. rewrite Ed, (K3 w3 H2 eq_refl k i).
    assert (Ep : s_pending (w_svc w2) = s_pending (w_svc w)) by congruence. rewrite Ep.
    assert (Ef : d_facts (w_db w2) = d_facts (w_db w)) by congruence. by rewrite Ef.
  - intros k. destruct (K4 w' H3 eq_refl k) as [Ka Kb]. assert (Es : s_spans (w_svc w3) = s_spans (w_svc w)) by congruence. rewrite Es in Ka, Kb. done.
Qed.

(** *** Restarting *)

Lemma add_emitted_spec (l : list ((fact_key * iv_id) * fact_cell)) (e : gmap fact_key (gset iv_id)) (k : fact_key) (i : iv_id) :
  i ∈ default ∅ (foldl add_emitted e l !! k) ↔ i ∈ default ∅ (e !! k) ∨ ∃ c, ((k, i), c) ∈ l ∧ fc_deleted c = false.
Proof.
  clear. revert e. induction l as [|[[k0 i0] c0] l IH]; intros e; cbn [foldl].
  { split; [by left|]. intros [?|(c & H & _)]; [done|by apply elem_of_nil in H]. }
  rewrite IH. unfold add_emitted. cbn [fst snd]. destruct (fc_deleted c0) eqn:Ec.
  - split; intros [H|(c & Hc & Hd)]; try (by left); right; exists c; (split; [|done]); [by right|].
    apply elem_of_cons in Hc as [[= -> -> ->]|Hc]; [congruence|done].
  - destruct (decide (k = k0)) as [->|Hne].
    + rewrite lookup_insert_eq. cbn [from_option]. unfold id. rewrite elem_of_union, elem_of_singleton. split.
      * intros [[->|H]|(c & Hc & Hd)]; [right; exists c0; split; [by left|done]|by left|right; exists c; split; [by right|done]].
      * intros [H|(c & Hc & Hd)]; [by left; right|]. apply elem_of_cons in Hc as [[= -> ->]|Hc]; [by left; left|right; eauto].
    + rewrite lookup_insert_ne by done. split.
      * intros [H|(c & Hc & Hd)]; [by left|right; exists c; split; [by right|done]].
      * intros [H|(c & Hc & Hd)]; [by left|]. apply elem_of_cons in Hc as [[= -> -> ->]|Hc]; [done|right; eauto].
Qed.
Lemma od_get_map_to_list (m : gmap edge_key span) k : od_get k (map_to_list m) = m !! k.
Proof.
  clear. assert (Hwf : od_wf (map_to_list m)) by apply NoDup_fst_map_to_list.
  destruct (m !! k) as [s|] eqn:E.
  - apply od_wf_get; [done|]. by apply elem_of_map_to_list.
  - apply od_get_none. intros Hin. unfold od_keys in Hin. apply list_elem_of_fmap in Hin as ([k' s] & -> & Hin).
    apply elem_of_map_to_list in Hin. simpl in E. congruence.
Qed.
Definition loaded (d : database) : service := _load_emitted d (_load_edges d (_load_assets d fresh_service)).
Lemma loaded_ok d : svc_ok {| w_svc := loaded d; w_db := d |}.
Proof.
  split_and!; [|constructor|].
  - intros k i. cbn [w_svc w_db]. unfold loaded, _load_emitted. cbn [s_emitted set_emitted]. rewrite add_emitted_spec. cbn [s_emitted _load_edges _load_assets set_spans set_assets fresh_service].
    rewrite lookup_empty. unfold live. split.
    + intros [H|(c & Hc & ?)]; [by apply elem_of_empty in H|]. exists c. split; [by apply elem_of_map_to_list|done].
    + intros (c & Hc & ?). right. exists c. split; [by apply elem_of_map_to_list|done].
  - intros k _. apply od_get_map_to_list.
Qed.
Lemma folds_ok w w' : folds w w' → svc_ok w → svc_ok w'.
Proof.
  intros [A1 A2 A3 A4 A5] (H1 & H2 & H3). split_and!; [|by apply A4|by apply A5]. intros k i. rewrite A3, A1. apply H1.
Qed.
Lemma replay_frames rows : frames folds (for_each replay_row rows).
Proof.
  apply (frames_for_each folds). intros kv. unfold replay_row. repeat (apply (frames_bind folds); [apply (frames_lift folds)|intros ?]).
  apply (frames_bind folds); [apply fold_observation_frames|intros _]. apply (frames_ret folds).
Qed.

(** *** Polling *)

(** The record at an offset attests a name or a MAC under the observation [id]. *)
Definition attested (tp : partition) (off : nat) (id : string) : Prop :=
  ∃ r eve l obs, log tp !! off = Some r ∧ kr_value r = VDict eve ∧ extract_evidence eve = Ok l ∧ obs ∈ l ∧ attests obs = true ∧
    id = canonical_obs_id TENANT (_identity eve).2 tp.1 tp.2 (Z.of_nat off).
(** The record at an offset was folded without raising. *)
Definition observed (tp : partition) (off : nat) : Prop :=
  ∀ r, log tp !! off = Some r → ∃ w w', observe_record tp off r w = (w', Ok tt).
Definition pending_obs (w : world) (id : string) : Prop := id ∈ od_keys (s_obs (w_svc w)).
Definition stored (d : database) (id : string) : Prop := is_Some (d_obs d !! id).

Lemma for_each_keeps obs_id tenant ts evidence w w' obs :
  for_each (fold_one_obs obs_id tenant ts) evidence w = (w', Ok tt) → obs ∈ evidence → attests obs = true → pending_obs w' obs_id.
Proof.
  revert w. induction evidence as [|o evidence IH]; intros w H Hin Ha; [by apply elem_of_nil in Hin|]. cbn [for_each] in H.
  apply bind_inv in H as (u & w1 & H1 & H). apply elem_of_cons in Hin as [->|Hin]; [|by eapply IH].
  assert (Hf : folds w1 w').
  { assert (Hm : frames folds (for_each (fold_one_obs obs_id tenant ts) evidence)).
    { apply (frames_for_each folds). intros x. unfold fold_one_obs. apply (frames_bind folds); [apply fold_observation_frames|intros key]. frame_tac; by split. }
    specialize (Hm w1). by rewrite H in Hm. }
  apply (fo_obs _ _ Hf). unfold fold_one_obs in H1. apply bind_inv in H1 as (key & w2 & Hk & H1). apply fold_observation_keeps in Hk; [|done].
  apply bind_inv in H1 as (a & w3 & Hr & H1). unfold read in Hr. injection Hr as <- _.
  apply bind_inv in H1 as (m & w4 & Hl & H1). apply lift_inv in Hl as [-> _]. unfold on_svc, modify in H1. by injection H1 as <-.
Qed.
Lemma observe_record_keeps tp off r w w' id :
  observe_record tp off r w = (w', Ok tt) → log tp !! off = Some r → attested tp off id → pending_obs w' id.
Proof.
  intros H Hr (r' & eve & l & obs & Hr' & Hv & Hl & Hin & Ha & ->). rewrite Hr in Hr'. injection Hr' as <-. unfold observe_record in H.
  apply bind_inv in H as (ts & w1 & _ & H). rewrite Hv in H. apply bind_inv in H as (eve' & w2 & He & H). apply lift_inv in He as [-> He].
  injection He as <-. unfold observe in H. destruct (_identity eve) as [tenant sensor] eqn:Ei.
  assert (tenant = TENANT) as -> by (by injection Ei). cbn [snd]. apply bind_inv in H as (ev & w3 & Hev & H). apply lift_inv in Hev as [-> Hev].
  rewrite Hl in Hev. injection Hev as <-. apply bind_inv in H as ([] & w4 & Hf & H). pose proof (for_each_keeps _ _ _ _ _ _ _ Hf Hin Ha) as Hp.
  match type of H with ?m ?w0 = _ => assert (Hm : frames folds m) end.
  { frame_tac. split; simpl; try done. intros Hc. by apply add_edges_clean. }
  match type of H with _ ?w0 = _ => specialize (Hm w0) end. rewrite H in Hm. by apply (fo_obs _ _ Hm).
Qed.
Lemma observe_record_frames tp off r : frames folds (observe_record tp off r).
Proof.
  unfold observe_record. apply (frames_bind folds); [apply (frames_lift folds)|intros ts]. apply (frames_bind folds); [apply (frames_lift folds)|intros eve].
  apply observe_frames.
Qed.
Lemma drain_spec tp rs off w w' off' :
  drain tp off rs w = (w', off') → (∀ i r, rs !! i = Some r → log tp !! (off + i)%nat = Some r) →
  folds w w' ∧ (off <= off')%nat ∧
  ∀ o, (off <= o < off')%nat → observed tp o ∧ ∀ id, attested tp o id → pending_obs w' id.
Proof.
  revert off w. induction rs as [|r rs IH]; intros off w H Hrs; cbn [drain] in H.
  { injection H as <- <-. split_and!; [done|done|lia]. }
  pose proof (observe_record_frames tp off r w) as Hf. destruct (observe_record tp off r w) as [w1 [[]|e]] eqn:Eo; cbn [fst] in Hf.
  - assert (Hr : log tp !! off = Some r) by (specialize (Hrs 0%nat r eq_refl); by rewrite Nat.add_0_r in Hrs).
    apply IH in H as (H1 & H2 & H3); [|intros i x Hx; specialize (Hrs (S i) x Hx); by rewrite Nat.add_succ_r in Hrs].
    split_and!; [by etrans|lia|]. intros o Ho. destruct (decide (o = off)) as [->|Hne]; [|apply H3; lia]. split.
    + intros x Hx. rewrite Hr in Hx. injection Hx as <-. eauto.
    + intros id Hid. apply (fo_obs _ _ H1). by eapply observe_record_keeps.
  - injection H as <- <-. split_and!; [done|done|lia].
Qed.
Lemma poll_spec batch w pos w' pos' :
  poll_and_observe batch w pos = (w', pos') →
  folds w w' ∧ ∀ tp o, (o < offset_of pos' tp)%nat → (o < offset_of pos tp)%nat ∨
    observed tp o ∧ ∀ id, attested tp o id → pending_obs w' id.
Proof.
  revert w pos. induction batch as [|[tp n] batch IH]; intros w pos H; cbn [poll_and_observe] in H.
  { injection H as <- <-. split; [done|by left]. }
  destruct (drain tp _ _ w) as [w1 off'] eqn:Ed. apply drain_spec in Ed as (F1 & Hle & Hd).
  2:{ intros i r Hr. apply lookup_take_Some in Hr as [Hr _]. by rewrite lookup_drop in Hr. }
  apply IH in H as [F2 Hp]. split; [by etrans|]. intros tp' o Ho. destruct (Hp tp' o Ho) as [Hlt|?]; [|by right].
  destruct (decide (tp' = tp)) as [->|Hne].
  - unfold offset_of in Hlt at 1. rewrite lookup_insert_eq in Hlt. simpl in Hlt.
    destruct (decide (o < offset_of pos tp)%nat) as [|Hge]; [by left|right]. destruct (Hd o ltac:(lia)) as [? Hk]. split; [done|].
    intros id Hid. apply (fo_obs _ _ F2). by apply Hk.
  - left. unfold offset_of in *. by rewrite lookup_insert_ne in Hlt.
Qed.

(** *** The system *)

Definition system_ok (y : system) : Prop :=
  (∀ tp o, (o < offset_of (y_committed y) tp)%nat → observed tp o ∧ ∀ id, attested tp o id → stored (y_db y) id) ∧
  match y_run y with
  | None => True
  | Some (s, pos) =>
      svc_ok {| w_svc := s; w_db := y_db y |} ∧
      ∀ tp o, (o < offset_of pos tp)%nat → observed tp o ∧
        ∀ id, attested tp o id → pending_obs {| w_svc := s; w_db := y_db y |} id ∨ stored (y_db y) id
  end.
Definition keeps_spans (w w' : world) : Prop := s_spans (w_svc w') = s_spans (w_svc w).
#[local] Instance keeps_spans_preorder : PreOrder keeps_spans.
Proof. split; [by intros w|]. intros a b c H1 H2. unfold keeps_spans in *. congruence. Qed.
Lemma replay_keeps_spans rows : frames keeps_spans (for_each replay_row rows).
Proof.
  apply (frames_for_each keeps_spans). intros kv. unfold replay_row, _fold_observation.
  repeat first [apply (frames_bind keeps_spans); [|intros ?] | by intros w | match goal with |- frames _ (if ?b then _ else _) => destruct b end].
Qed.
Lemma restore_spec down w w' r :
  restore_state down w = (w', r) → w_svc w = fresh_service →
  (∀ id, stored (w_db w) id → stored (w_db w') id) ∧ (r = Ok tt → svc_ok w' ∧ ∀ k, od_get k (s_spans (w_svc w')) = d_edges (w_db w) !! k).
Proof.
  intros H Hs. unfold restore_state in H. unfold bind at 1, read at 1 in H. unfold bind at 1, on_svc at 1, modify at 1 in H. rewrite Hs in H.
  fold (loaded (w_db w)) in H. set (w1 := {| w_svc := loaded (w_db w); w_db := w_db w |}) in *. unfold bind at 1 in H.
  pose proof (replay_frames (stored_rows (w_db w)) w1) as F. destruct (for_each replay_row _ w1) as [w2 [u|e]] eqn:Er; cbn [fst] in F.
  2:{ injection H as <- <-. split; [|done]. intros id Hid. by rewrite (fo_db _ _ F). }
  unfold bind, on_svc, modify in H. set (w3 := {| w_svc := set_obs [] (w_svc w2); w_db := w_db w2 |}) in *. apply flush_spec in H as [G K].
  assert (Edb : w_db w3 = w_db w) by exact (fo_db _ _ F). split.
  - intros id Hid. apply (fl_stored _ _ G). by rewrite Edb.
  - intros ->. assert (Hok : svc_ok w3).
    { destruct (folds_ok _ _ F (loaded_ok (w_db w))) as (A & B & C). split_and!; done. }
    destruct (K Hok eq_refl) as [_ _ Ke]. split; [by apply G|]. intros k. destruct (Ke k) as [_ ->].
    pose proof (replay_keeps_spans (stored_rows (w_db w)) w1) as Hsp. rewrite Er in Hsp. unfold keeps_spans in Hsp. cbn [fst] in Hsp.
    cbn [w3 w_svc set_obs s_spans]. rewrite Hsp. apply od_get_map_to_list.
Qed.
Lemma start_ok down y : system_ok y → system_ok (start_process down y).
Proof.
  intros [H1 _]. unfold start_process. destruct (restore_state down _) as [w r] eqn:E. apply restore_spec in E as [Hst Hok]; [|done]. cbn [w_db] in Hst.
  assert (Hc : ∀ tp o, (o < offset_of (y_committed y) tp)%nat → observed tp o ∧ ∀ id, attested tp o id → stored (w_db w) id).
  { intros tp o Ho. destruct (H1 tp o Ho) as [? Ha]. split; [done|]. intros id Hid. by apply Hst, Ha. }
  destruct r as [[]|e]; split; cbn [y_db y_committed y_run]; try done. split; [by destruct w, (Hok eq_refl)|].
  intros tp o Ho. destruct (Hc tp o Ho) as [? Ha]. split; [done|]. intros id Hid. right. by apply Ha.
Qed.
Lemma persist_ok down commits y s pos : system_ok y → y_run y = Some (s, pos) → system_ok (persist_and_commit down commits y s pos).
Proof.
  intros [H1 H2] Er. rewrite Er in H2. destruct H2 as [Hok Hp]. unfold persist_and_commit.
  destruct (flush down _) as [w r] eqn:E. apply flush_spec in E as [G K]. cbn [w_svc w_db] in *.
  assert (Hc : ∀ tp o, (o < offset_of (y_committed y) tp)%nat → observed tp o ∧ ∀ id, attested tp o id → stored (w_db w) id).
  { intros tp o Ho. destruct (H1 tp o Ho) as [? Ha]. split; [done|]. intros id Hid. by apply (fl_stored _ _ G), Ha. }
  destruct r as [[]|e]; [destruct commits|]; split; cbn [y_db y_committed y_run]; try done; pose proof (K Hok eq_refl) as Hfl;
    assert (Hs : ∀ tp o, (o < offset_of pos tp)%nat → observed tp o ∧ ∀ id, attested tp o id → stored (w_db w) id) by
      (intros tp o Ho; destruct (Hp tp o Ho) as [? Ha]; split; [done|]; intros id Hid;
       destruct (Ha id Hid) as [Hk|Hk]; [by apply (fd_obs _ _ Hfl)|by apply (fl_stored _ _ G)]).
  - exact Hs.
  - split; [by destruct w; apply (fl_ok _ _ G)|]. intros tp o Ho. destruct (Hs tp o Ho) as [? Ha]. split; [done|]. intros id Hid. right. by apply Ha.
Qed.
Lemma system_step_ok y y' : system_ok y → system_step y y' → system_ok y'.
Proof.
  intros Hy [batch s pos w pos' Er Hp|down commits s pos Er| |down Er]; [|by apply persist_ok| |by apply start_ok].
  - destruct Hy as [H1 H2]. rewrite Er in H2. destruct H2 as [Hok Hk]. apply poll_spec in Hp as [F Hnew].
    pose proof (fo_db _ _ F) as Edb. cbn [w_db] in Edb. split; cbn [y_db y_committed y_run].
    + intros tp o Ho. rewrite Edb. by apply H1.
    + split; [destruct w; by apply (folds_ok _ _ F)|]. intros tp o Ho. destruct (Hnew tp o Ho) as [Hlt|[Hobs Ha]].
      * destruct (Hk tp o Hlt) as [? Ha]. split; [done|]. intros id Hid. destruct (Ha id Hid) as [Hin|Hst]; [left; by apply (fo_obs _ _ F)|right].
        by rewrite Edb.
      * split; [done|]. intros id Hid. left. by apply Ha.
  - destruct Hy as [H1 _]. by split.
Qed.
Lemma system_reachable y : rtc system_step deployed y → system_ok y.
Proof.
  intros H. assert (H0 : system_ok deployed).
  { split; [|done]. intros tp o Ho. unfold offset_of in Ho. cbn [deployed y_committed] in Ho. rewrite lookup_empty in Ho. simpl in Ho. lia. }
  induction H as [|x z v Hxz _ IH]; [done|]. apply IH. by eapply system_step_ok.
Qed.

(** C18. Nothing is acknowledged before it is durable.  Whatever the broker's logs hold, in
    every state the system can reach through polls of any shape, flushes that fail at any
    table, commits that fail, crashes at any point and restarts, every offset below the
    committed one of its partition is of a record that was folded without raising, and the
    evidence row of every such record that attests a name or a MAC is in the database, so that
    the facts derived from it refer to a stored row and a restart replays it. *)
Theorem committed_is_durable y tp off :
  rtc system_step deployed y → (off < offset_of (y_committed y) tp)%nat →
  observed tp off ∧ ∀ id, attested tp off id → stored (y_db y) id.
Proof. intros H Ho. apply system_reachable in H as [H _]. by apply H. Qed.

(** C12. What is in the fact table is what was last rebuilt.  In every reachable state with
    a running process, a flush that succeeds leaves, for each pending subject and
    predicate, exactly the intervals rebuilt for it live, each row with the end, the
    confidence and the source type that were rebuilt; an interval that a rebuild dropped,
    also one that an earlier process wrote, becomes a tombstone.  The rows of every other
    subject and predicate are what they were, and every relationship span is stored. *)
Theorem flushed_facts_exact y s pos down w' :
  rtc system_step deployed y → y_run y = Some (s, pos) → flush down {| w_svc := s; w_db := y_db y |} = (w', Ok tt) →
  (∀ k i, live (w_db w') k i ↔ match od_get k (s_pending s) with Some ivs => i ∈ id_of <$> ivs | None => live (y_db y) k i end) ∧
  (∀ k i, d_facts (w_db w') !! (k, i) =
     match od_get k (s_pending s) with
     | None => d_facts (y_db y) !! (k, i)
     | Some ivs =>
         match last (List.filter (λ v, bool_decide (id_of v = i)) ivs) with
         | Some v => Some {| fc_to := v_to v; fc_conf := v_conf v; fc_type := v_type v; fc_deleted := false |}
         | None => (λ c, if fc_deleted c then c else tombstone) <$> d_facts (y_db y) !! (k, i)
         end
     end) ∧
  (∀ k, d_edges (w_db w') !! k = od_get k (s_spans s)).
Proof.
  intros H Er Hf. apply system_reachable in H as [_ H]. rewrite Er in H. destruct H as [Hok _]. apply flush_spec in Hf as [_ K].
  destruct (K Hok eq_refl) as [_ Kl Ke]. cbn [w_svc w_db] in Kl. split; [|split; [exact Kl|intros k; apply (Ke k)]].
  intros k i. unfold live. rewrite Kl. destruct (od_get k (s_pending s)) as [ivs|]; [|done].
  rewrite written_live. unfold current_ids. by rewrite elem_of_list_to_set.
Qed.
End service.

(** ** A run: a host takes a lease, its name and addresses are stored, the record is acknowledged. *)

Definition up (_ : table) : bool := false.
Definition lease_record : kafka_record :=
  {| kr_type := 1; kr_time := Some 1700000000000;
     kr_value := VDict [("event_type", VStr "dhcp"); ("host", VStr "s1");
       ("dhcp", VDict [("assigned_ip", VStr "10.0.0.5"); ("client_mac", VStr "aa:bb:cc:dd:ee:ff"); ("hostname", VStr "printer");
                       ("lease_time", VInt 3600)])] |}.
Definition raw0 : partition := ("suricata.raw.v1", 0).
Definition one_lease (tp : partition) : list kafka_record := if bool_decide (tp = raw0) then [lease_record] else [].
Definition digest (_ : string) : string := "d".
Definition text (_ : val) : string := "j".
Definition started : system := start_process up deployed.
Definition polled : world * gmap partition nat :=
  poll_and_observe digest text "t" "s" one_lease [(raw0, 5%nat)] {| w_svc := fresh_service; w_db := empty_db |} ∅.
Definition running : system := {| y_db := w_db polled.1; y_committed := ∅; y_run := Some (w_svc polled.1, polled.2) |}.
Definition acknowledged : system := persist_and_commit up true running (w_svc polled.1) polled.2.
Lemma started_state : started = {| y_db := empty_db; y_committed := ∅; y_run := Some (fresh_service, ∅) |}.
Proof. vm_compute. reflexivity. Qed.
Lemma running_reachable : rtc (system_step digest text "t" "s" one_lease) deployed running.
Proof.
  apply (rtc_l _ _ started); [by apply restarts|]. rewrite started_state. apply (rtc_l _ _ running); [|apply rtc_refl].
  apply (polls digest text "t" "s" one_lease {| y_db := empty_db; y_committed := ∅; y_run := Some (fresh_service, ∅) |} [(raw0, 5%nat)]
           fresh_service ∅ polled.1 polled.2); [reflexivity|apply surjective_pairing].
Qed.
Definition last_flush : world * res unit := flush up {| w_svc := w_svc polled.1; w_db := y_db running |}.
Lemma last_flush_ok : last_flush.2 = Ok tt.
Proof. vm_compute. reflexivity. Qed.
Lemma acknowledged_reachable : rtc (system_step digest text "t" "s" one_lease) deployed acknowledged.
Proof.
  eapply rtc_r; [exact running_reachable|by apply persists].
Qed.
Lemma committed_is_durable_witness :
  observed digest text "t" "s" one_lease raw0 0 ∧
  (∀ id, attested digest text "t" "s" one_lease raw0 0 id → stored (y_db acknowledged) id).
Proof.
  apply (committed_is_durable digest text "t" "s" one_lease acknowledged raw0 0); [exact acknowledged_reachable|].
  vm_compute. apply le_n.
Defined.
Lemma flushed_facts_exact_witness :
  (∀ k i, live (w_db last_flush.1) k i ↔
     match od_get k (s_pending (w_svc polled.1)) with Some ivs => i ∈ id_of <$> ivs | None => live (y_db running) k i end) ∧
  d_facts (w_db last_flush.1) !! (("mac:aa:bb:cc:dd:ee:ff", "hostname"), (1700000000000000, "printer", "obs:d")) =
    Some {| fc_to := None; fc_conf := 90; fc_type := "dhcp"; fc_deleted := false |} ∧
  (∀ k, d_edges (w_db last_flush.1) !! k = od_get k (s_spans (w_svc polled.1))).
Proof.
  destruct (flushed_facts_exact digest text "t" "s" one_lease running (w_svc polled.1) polled.2 up last_flush.1) as (Hl & Hf & He);
    [exact running_reachable|reflexivity|rewrite <- last_flush_ok; apply surjective_pairing|].
  split; [exact Hl|]. split; [rewrite Hf; vm_compute; reflexivity|exact He].
Defined.
Example lease_facts :
  (fst <$> s_pending (w_svc polled.1), od_keys (s_obs (w_svc polled.1)), offset_of polled.2 raw0) =
  ([("mac:aa:bb:cc:dd:ee:ff", "hostname"); ("mac:aa:bb:cc:dd:ee:ff", "mac"); ("mac:aa:bb:cc:dd:ee:ff", "ip")], ["obs:d"], 1%nat).
Proof. vm_compute. reflexivity. Qed.
