(* ===== verification/OutboundFeatures.v ===== *)
(** * Outbound-volume features (services/anomaly-detector/features.py)

    Observations become rows of bytes sent per source, tenant and window; a watermark
    closes windows.  Windows are whole seconds, instants microseconds.  A set of a row is
    kept as the list of its members in the order they came; closing sorts it. *)

From stdpp Require Import gmap.
From S2P Require Import Prelude Order PyVal PyTime IsoTime.
Set Default Proof Using "Type".

(** ** Data *)

(** What [add] reads of an observation. *)
Record feature := { f_tenant : string; f_id : string; f_sensor : string; f_src : string; f_at : Z; f_value : Z; f_method : val }.
Abbreviation row_key := (Z * string * string)%type.
Record row := {
  w_tenant : string; w_entity : string; w_start : Z; w_end : Z; w_bytes : Z; w_subnet : string;
  w_refs : list string; w_sensors : list string; w_methods : list val
}.
Record extractor := { x_pending : gmap row_key row; x_closed : option Z; x_late : Z }.

Section features.
(** [ip_address v] is the canonical text of an address, [subnet] the network of a canonical
    text (/24 for IPv4, /64 for IPv6); [W] the width of a window. *)
Context (ip_address : val → option string) (subnet : string → string) (W : Z).

Definition fresh : extractor := {| x_pending := ∅; x_closed := None; x_late := 0 |}.

(** [iso(epoch)] of whole seconds. *)
Definition iso (epoch : Z) : res string :=
  check (is_datetime (epoch * 1000000)) ValueError;; Ok (emitted_text (epoch * 1000000)).

(** ** Reading an observation *)

(** [type(value) is int and value >= 0] *)
Definition counter (v : val) : option Z := match v with VInt z => if 0 <=? z then Some z else None | _ => None end.
(** [v[k]] *)
Definition index (k : string) (v : val) : res val := match v with VDict d => dindex k d | _ => Raise TypeError end.
(** The errors the [try] block turns into a return. *)
Definition caught (e : exn) : bool := match e with KeyError | ValueError | TypeError => true | _ => false end.
Definition source_entity (src : val) (e : val) : res bool :=
  d ← as_dict e;
  Ok (val_eq_str (dgetN "type" d) "ip" && val_eq_str (dgetN "role" d) "src" && py_eqb (dgetN "value" d) src).
(** [any(f(x) for x in xs)] *)
Fixpoint any_of (f : val → res bool) (xs : list val) : res bool :=
  match xs with [] => Ok false | x :: xs => b ← f x; if b : bool then Ok true else any_of f xs end.
Definition name_of (v : val) : option string := match v with VStr s => if str_truthy s then Some s else None | _ => None end.
(** The [try] block: [Ok None] where it returns. *)
Definition read_names (obs fields : dict) (value : Z) : res (option feature) :=
  tenant ← dindex "tenant" obs; obs_id ← dindex "obs_id" obs; sensor ← dindex "sensor_id" obs;
  ip ← dindex "src_ip" fields;
  src ← match ip_address ip with Some s => Ok s | None => Raise ValueError end;
  entities ← dindex "entities" obs;
  members ← as_list entities;
  named ← any_of (source_entity ip) members;
  if negb named then Ok None
  else
    ts ← dindex "ts" obs;
    text ← index "normalized" ts;
    text ← match text with VStr s => Ok s | _ => Raise AttributeError end;
    match fromisoformat (replace_zulu text) with
    | None => Raise ValueError
    | Some (local, None) => Ok None
    | Some (local, Some offset) =>
        match name_of tenant, name_of obs_id, name_of sensor with
        | Some t, Some i, Some s =>
            Ok (Some {| f_tenant := t; f_id := i; f_sensor := s; f_src := src; f_at := local - offset; f_value := value;
                        f_method := match ts with VDict d => dget_or "method" (VStr "unknown") d | _ => VNone end |})
        | _, _, _ => Ok None
        end
    end.
Definition read_obs (obs : dict) : res (option feature) :=
  if negb (val_eq_str (dgetN "schema" obs) "cernity.observation.v1" && val_eq_str (dgetN "type" obs) "conn") then Ok None
  else
    fields ← as_dict (dget_or "fields" (VDict []) obs);
    flow ← as_dict (dget_or "flow" (VDict []) fields);
    match counter (dgetN "bytes_toserver" flow) with
    | None => Ok None
    | Some value =>
        match read_names obs fields value with
        | Raise e => if caught e then Ok None else Raise e
        | r => r
        end
    end.

(** ** Accumulating *)

Definition window_of (at_ : Z) : Z := at_ / (W * 1000000) * W.
Definition row_key_of (f : feature) : row_key := (window_of (f_at f), f_tenant f, f_src f).
Definition hashable (v : val) : bool := match v with VList _ | VDict _ => false | _ => true end.
Definition empty_row (f : feature) : row :=
  let start := window_of (f_at f) in
  {| w_tenant := f_tenant f; w_entity := f_src f; w_start := start; w_end := start + W; w_bytes := 0; w_subnet := subnet (f_src f);
     w_refs := []; w_sensors := []; w_methods := [] |}.
(** [s.add(x)] *)
Definition set_add {A} `{EqDecision A} (x : A) (s : list A) : list A := if mem x s then s else s ++ [x].
Definition val_add (v : val) (s : list val) : list val := if val_in v s then s else s ++ [v].
Definition accumulate (f : feature) (r : row) : row :=
  if mem (f_id f) (w_refs r) then r
  else {| w_tenant := w_tenant r; w_entity := w_entity r; w_start := w_start r; w_end := w_end r; w_bytes := w_bytes r + f_value f;
          w_subnet := w_subnet r; w_refs := w_refs r ++ [f_id f]; w_sensors := set_add (f_sensor f) (w_sensors r);
          w_methods := val_add (f_method f) (w_methods r) |}.
Definition is_late (st : extractor) (f : feature) : bool :=
  match x_closed st with Some c => window_of (f_at f) <? c | None => false end.
Definition pend (f : feature) (st : extractor) : res extractor :=
  if is_late st f then Ok {| x_pending := x_pending st; x_closed := x_closed st; x_late := x_late st + 1 |}
  else
    let r := default (empty_row f) (x_pending st !! row_key_of f) in
    check (mem (f_id f) (w_refs r) || hashable (f_method f)) TypeError;;
    Ok {| x_pending := <[row_key_of f := accumulate f r]> (x_pending st); x_closed := x_closed st; x_late := x_late st |}.
Definition add (obs : dict) (st : extractor) : res extractor :=
  o ← read_obs obs; match o with None => Ok st | Some f => pend f st end.

(** ** Closing *)

(** [sorted] of a set of JSON scalars: texts, or numbers; anything mixed raises. *)
Fixpoint texts (vs : list val) : option (list string) :=
  match vs with
  | [] => Some []
  | VStr s :: vs => cons s <$> texts vs
  | _ :: _ => None
  end.
Fixpoint insert_num (v : val) (vs : list val) : list val :=
  match vs with [] => [v] | u :: vs => if num_le v u then v :: u :: vs else u :: insert_num v vs end.
Definition sorted_vals (vs : list val) : res (list val) :=
  match vs, texts vs with
  | [v], _ => Ok [v]
  | _, Some ts => Ok (VStr <$> isort id ts)
  | _, None => if forallb (λ v, bool_decide (is_Some (as_num v))) vs then Ok (foldr insert_num [] vs) else Raise TypeError
  end.
Definition close_row (r : row) : res row :=
  methods ← sorted_vals (w_methods r);
  Ok {| w_tenant := w_tenant r; w_entity := w_entity r; w_start := w_start r; w_end := w_end r; w_bytes := w_bytes r;
        w_subnet := w_subnet r; w_refs := isort id (w_refs r); w_sensors := isort id (w_sensors r); w_methods := methods |}.
Definition boundary_of (watermark : Z) : Z := watermark / (W * 1000000) * W.
Definition ripe (boundary : Z) (kr : row_key * row) : Prop := w_end kr.2 <= boundary.
#[global] Instance ripe_dec boundary kr : Decision (ripe boundary kr).
Proof. unfold ripe. apply _. Defined.
Definition closing (boundary : Z) (pending : gmap row_key row) : gmap row_key row := filter (ripe boundary) pending.
Definition staying (boundary : Z) (pending : gmap row_key row) : gmap row_key row := filter (λ kr, ¬ ripe boundary kr) pending.
Definition closed_rows (boundary : Z) (pending : gmap row_key row) : list row :=
  snd <$> isort (fst : row_key * row → row_key) (map_to_list (closing boundary pending)).
Definition close (watermark : Z) (st : extractor) : res (extractor * list row) :=
  let boundary := boundary_of watermark in
  rows ← mapM close_row (closed_rows boundary (x_pending st));
  Ok ({| x_pending := staying boundary (x_pending st);
         x_closed := Some (match x_closed st with Some c => Z.max c boundary | None => boundary end);
         x_late := x_late st |}, rows).
End features.

(** ** Facts *)

Section facts.
Context (ip_address : val → option string) (subnet : string → string) (W : Z).
Abbreviation key_of := (row_key_of W).
Abbreviation accumulate_all := (foldl (λ r f, accumulate f r)).

(** What the service feeds the extractor, and the run with its ledger: the batches that
    were closed and the features that were taken (read and not late). *)
Inductive event := observed (obs : dict) | closed_at (watermark : Z).
Record trace := { t_state : extractor; t_batches : list (list row); t_taken : list feature }.
Definition taken (obs : dict) (st : extractor) : list feature :=
  match read_obs ip_address obs with Ok (Some f) => if is_late W st f then [] else [f] | _ => [] end.
Definition trace_step (t : trace) (e : event) : res trace :=
  match e with
  | observed obs =>
      st ← add ip_address subnet W obs (t_state t);
      Ok {| t_state := st; t_batches := t_batches t; t_taken := t_taken t ++ taken obs (t_state t) |}
  | closed_at w =>
      '(st, rows) ← close W w (t_state t);
      Ok {| t_state := st; t_batches := t_batches t ++ [rows]; t_taken := t_taken t |}
  end.
Fixpoint run (es : list event) (t : trace) : res trace :=
  match es with [] => Ok t | e :: es => t' ← trace_step t e; run es t' end.
Definition start_trace : trace := {| t_state := fresh; t_batches := []; t_taken := [] |}.

(** The features of one key, and the row they make. *)
Definition of_key (k : row_key) (fs : list feature) : list feature := List.filter (λ f, bool_decide (key_of f = k)) fs.
Definition row_at (k : row_key) (fs : list feature) : option row :=
  match of_key k fs with [] => None | (f :: _) as l => Some (accumulate_all (empty_row subnet W f) l) end.
(** The first feature of each observation. *)
Fixpoint firsts (seen : list string) (fs : list feature) : list feature :=
  match fs with
  | [] => []
  | f :: fs => if mem (f_id f) seen then firsts seen fs else f :: firsts (seen ++ [f_id f]) fs
  end.
Definition total (fs : list feature) : Z := foldr (λ f z, f_value f + z) 0 fs.

Lemma accumulate_all_fields fs r :
  let r' := accumulate_all r fs in
  w_bytes r' = w_bytes r + total (firsts (w_refs r) fs) ∧ w_refs r' = w_refs r ++ (f_id <$> firsts (w_refs r) fs) ∧
  (w_start r', w_tenant r', w_entity r', w_end r', w_subnet r') = (w_start r, w_tenant r, w_entity r, w_end r, w_subnet r) ∧
  w_sensors r' = dedup_onto (w_sensors r) (f_sensor <$> firsts (w_refs r) fs).
Proof.
  revert r. induction fs as [|f fs IH]; intros r; cbn [foldl firsts].
  { simpl. rewrite app_nil_r. split_and!; [lia|done..]. }
  specialize (IH (accumulate f r)). unfold accumulate in *. destruct (mem (f_id f) (w_refs r)); [exact IH|]. cbn [w_bytes w_refs w_start w_tenant w_entity w_end w_subnet w_sensors] in IH.
  destruct IH as (H1 & H2 & H3 & H4). split_and!; [|by rewrite H2, <- app_assoc|done|done]. rewrite H1. cbn [total foldr]. fold (total (firsts (w_refs r ++ [f_id f]) fs)). lia.
Qed.
Lemma of_key_app k l l' : of_key k (l ++ l') = of_key k l ++ of_key k l'.
Proof. unfold of_key. apply List.filter_app. Qed.
Lemma of_key_elem k l f : f ∈ of_key k l ↔ f ∈ l ∧ key_of f = k.
Proof. unfold of_key. rewrite !list_elem_of_In, filter_In, bool_decide_eq_true. done. Qed.
Lemma row_at_none k fs : row_at k fs = None ↔ ∀ f, f ∈ fs → key_of f ≠ k.
Proof.
  unfold row_at. pose proof (of_key_elem k fs) as H. destruct (of_key k fs) as [|f l]; split; try done.
  - intros _ f Hf Hk. assert (Hin : f ∈ @nil feature) by by apply H. by apply elem_of_nil in Hin.
  - intros Hn. exfalso. destruct (proj1 (H f)) as [Hf Hk]; [by left|]. by apply (Hn f).
Qed.
Lemma row_at_some k fs r : row_at k fs = Some r →
  let l := firsts [] (of_key k fs) in
  (w_start r, w_tenant r, w_entity r) = k ∧ w_end r = k.1.1 + W ∧ w_bytes r = total l ∧ w_refs r = f_id <$> l ∧
  w_subnet r = subnet k.2 ∧ w_sensors r = dedup_onto [] (f_sensor <$> l).
Proof.
  unfold row_at. pose proof (of_key_elem k fs) as H. destruct (of_key k fs) as [|f l]; [done|].
  pose proof (accumulate_all_fields (f :: l) (empty_row subnet W f)) as Hf. cbv zeta in Hf |- *.
  set (q := accumulate_all (empty_row subnet W f) (f :: l)) in *. clearbody q. intros [= <-]. destruct Hf as (H1 & H2 & H3 & H4). injection H3 as E1 E2 E3 E4 E5.
  assert (Hk : key_of f = k) by (apply (H f); by left). rewrite H1, H2, H4, E1, E2, E3, E4, E5. subst k. split_and!; done.
Qed.
Lemma row_at_snoc k fs f :
  row_at k (fs ++ [f]) = if decide (key_of f = k) then Some (accumulate f (default (empty_row subnet W f) (row_at k fs))) else row_at k fs.
Proof.
  unfold row_at. rewrite of_key_app. unfold of_key at 2. cbn [List.filter]. destruct (decide (key_of f = k)) as [E|E].
  - rewrite (bool_decide_eq_true_2 _ E). destruct (of_key k fs) as [|g l]; [done|]. cbn [app]. f_equal. cbn [default].
    change (g :: (l ++ [f])) with ((g :: l) ++ [f]). by rewrite foldl_app.
  - rewrite (bool_decide_eq_false_2 _ E). rewrite app_nil_r. done.
Qed.

(** *** The invariant *)

Hypothesis HW : 0 < W.
#[local] Set Default Proof Using "HW".

Definition is_closed (c : option Z) (k : row_key) : bool := match c with Some c => k.1.1 + W <=? c | None => false end.
Definition key_of_row (r : row) : row_key := (w_start r, w_tenant r, w_entity r).
Definition on_grid (z : Z) : Prop := ∃ n, z = n * W.
(** Batches come in the order of time, no row of a later one before the end of an earlier one. *)
Definition ordered (bs : list (list row)) : Prop :=
  ∀ before b after r r', bs = before ++ b :: after → r ∈ concat before → r' ∈ b → w_end r <= w_start r'.
Definition well_formed (r : row) : Prop := w_end r = w_start r + W ∧ on_grid (w_start r) ∧ w_subnet r = subnet (w_entity r).
Record trace_ok (t : trace) : Prop := {
  k_grid : match x_closed (t_state t) with Some c => on_grid c | None => True end;
  k_pending : ∀ k, x_pending (t_state t) !! k = if is_closed (x_closed (t_state t)) k then None else row_at k (t_taken t);
  k_nodup : NoDup (key_of_row <$> concat (t_batches t));
  k_out : ∀ r, r ∈ concat (t_batches t) ↔
    ∃ k q, row_at k (t_taken t) = Some q ∧ is_closed (x_closed (t_state t)) k = true ∧ close_row q = Ok r;
  k_ordered : ordered (t_batches t);
  k_closes : ∀ k q, row_at k (t_taken t) = Some q → is_closed (x_closed (t_state t)) k = true → is_ok (close_row q) = true
}.
Lemma close_row_fields q r : close_row q = Ok r →
  key_of_row r = key_of_row q ∧ w_end r = w_end q ∧ w_bytes r = w_bytes q ∧ w_subnet r = w_subnet q ∧
  w_refs r = isort id (w_refs q) ∧ w_sensors r = isort id (w_sensors q).
Proof. unfold close_row. intros H. inv_ok. done. Qed.
Lemma window_grid x : on_grid (window_of W x).
Proof. by eexists. Qed.
Lemma grid_gap x y : on_grid x → on_grid y → x < y → x + W <= y.
Proof. intros [m ->] [n ->] H. assert (m < n) by nia. nia. Qed.
Lemma row_at_grid k fs r : row_at k fs = Some r → on_grid k.1.1.
Proof.
  intros H. destruct (of_key k fs) as [|f l] eqn:E; [by unfold row_at in H; rewrite E in H|].
  assert (Hf : f ∈ of_key k fs) by (rewrite E; by left). apply of_key_elem in Hf as [_ <-]. apply window_grid.
Qed.
Lemma not_late_open st f : match x_closed st with Some c => on_grid c | None => True end → is_late W st f = false → is_closed (x_closed st) (key_of f) = false.
Proof.
  unfold is_late, is_closed. destruct (x_closed st) as [c|]; [|done]. intros _ H. apply Z.ltb_ge in H. apply Z.leb_gt. simpl. lia.
Qed.
Lemma pend_ok obs t st :
  trace_ok t → add ip_address subnet W obs (t_state t) = Ok st →
  trace_ok {| t_state := st; t_batches := t_batches t; t_taken := t_taken t ++ taken obs (t_state t) |}.
Proof.
  intros [K1 K2 K3 K4 K5 K6] H. unfold add in H. apply bind_ok_inv in H as (o & Ho & H). unfold taken. rewrite Ho.
  destruct o as [f|]; [|injection H as <-; rewrite app_nil_r; by split]. unfold pend in H. destruct (is_late W (t_state t) f) eqn:El.
  { injection H as <-. rewrite app_nil_r. by split. }
  inv_ok. pose proof (not_late_open _ _ K1 El) as Hopen.
  assert (Hk : ∀ k, is_closed (x_closed (t_state t)) k = true → row_at k (t_taken t ++ [f]) = row_at k (t_taken t)).
  { intros k Hk. rewrite row_at_snoc, decide_False; [done|]. intros <-. congruence. }
  split; cbn [t_state x_pending x_closed t_taken t_batches]; [done| |done| |done|].
  - intros k. rewrite row_at_snoc. destruct (decide (key_of f = k)) as [<-|Hne].
    + rewrite lookup_insert_eq, Hopen, K2, Hopen. done.
    + rewrite lookup_insert_ne by done. apply K2.
  - intros r. rewrite K4. split; intros (k & q & Hq & Hc & Hr); exists k, q; by rewrite (Hk k Hc) in *.
  - intros k q Hq Hc. rewrite (Hk k Hc) in Hq. by apply (K6 k).
Qed.
Lemma boundary_grid w : on_grid (boundary_of W w).
Proof. by eexists. Qed.
Lemma closed_rows_elem (b : Z) (m : gmap row_key row) q : q ∈ closed_rows b m ↔ ∃ k, m !! k = Some q ∧ w_end q <= b.
Proof.
  unfold closed_rows. rewrite list_elem_of_fmap. split.
  - intros ([k q'] & -> & Hin). apply elem_of_isort, elem_of_map_to_list, map_lookup_filter_Some in Hin as [Hin Hr]. by exists k.
  - intros (k & Hk & Hr). exists (k, q). split; [done|]. apply elem_of_isort, elem_of_map_to_list, map_lookup_filter_Some. by split.
Qed.
Lemma mapM_ok_Forall2 {A B} (f : A → res B) l l' : mapM f l = Ok l' → Forall2 (λ x y, f x = Ok y) l l'.
Proof.
  revert l'. induction l as [|x l IH]; intros l' H; [by injection H as <-; constructor|]. cbn in H. inv_ok. constructor; [done|]. by apply IH.
Qed.
Lemma Forall2_elem_r {A B} (R : A → B → Prop) (l : list A) (l' : list B) y : Forall2 R l l' → y ∈ l' ↔ ∃ x i, l !! i = Some x ∧ l' !! i = Some y ∧ R x y.
Proof.
  intros H. rewrite list_elem_of_lookup. split.
  - intros [i Hi]. destruct (Forall2_lookup_r _ _ _ _ _ H Hi) as (x & Hx & HR). eauto.
  - intros (x & i & _ & Hi & _). eauto.
Qed.
Lemma mapM_close_elem l l' r : mapM close_row l = Ok l' → r ∈ l' ↔ ∃ q, q ∈ l ∧ close_row q = Ok r.
Proof.
  intros H. apply mapM_ok_Forall2 in H. split.
  - intros Hr. apply (Forall2_elem_r _ _ _ _ H) in Hr as (q & i & Hq & _ & HR). exists q. split; [|done]. by apply list_elem_of_lookup_2 in Hq.
  - intros (q & Hq & HR). apply list_elem_of_lookup in Hq as [i Hi]. destruct (Forall2_lookup_l _ _ _ _ _ H Hi) as (r' & Hr' & HR').
    rewrite HR in HR'. injection HR' as ->. by apply list_elem_of_lookup_2 in Hr'.
Qed.
Lemma close_keys l l' : mapM close_row l = Ok l' → key_of_row <$> l' = key_of_row <$> l.
Proof.
  intros H. apply mapM_ok_Forall2 in H. induction H as [|q r l l' Hqr _ IH]; [done|]. cbn. f_equal; [|done]. by apply close_row_fields in Hqr as [-> _].
Qed.
(** Pending rows sit under their own key. *)
Definition keyed (m : gmap row_key row) : Prop := ∀ k q, m !! k = Some q → key_of_row q = k ∧ w_end q = k.1.1 + W.
Lemma pending_keyed t : trace_ok t → keyed (x_pending (t_state t)).
Proof.
  intros H k q Hq. rewrite (k_pending _ H) in Hq. destruct (is_closed _ _); [done|]. apply row_at_some in Hq as (H1 & H2 & _). by split.
Qed.
Lemma closed_rows_keys (b : Z) (m : gmap row_key row) : keyed m → key_of_row <$> closed_rows b m ≡ₚ (map_to_list (closing b m)).*1.
Proof.
  intros Hm. unfold closed_rows. set (l := map_to_list (closing b m)).
  assert (Hl : ∀ kr, kr ∈ l → key_of_row kr.2 = kr.1).
  { intros [k q] Hin. apply elem_of_map_to_list, map_lookup_filter_Some in Hin as [Hin _]. by apply Hm in Hin as [? _]. }
  assert (Hs : key_of_row <$> (snd <$> isort fst l) = fst <$> isort (fst : row_key * row → row_key) l).
  { rewrite <- list_fmap_compose. apply list_fmap_ext. intros i kr Hi. apply Hl. apply list_elem_of_lookup_2, elem_of_isort in Hi. done. }
  rewrite Hs. by rewrite isort_perm.
Qed.
Lemma is_closed_max c b k :
  is_closed (Some (match c with Some c => Z.max c b | None => b end)) k = is_closed c k || (k.1.1 + W <=? b).
Proof.
  unfold is_closed. destruct c as [c|]; [|done]. apply eq_true_iff_eq. rewrite orb_true_iff, !Z.leb_le. lia.
Qed.
Lemma ordered_snoc bs b : ordered bs → (∀ r r', r ∈ concat bs → r' ∈ b → w_end r <= w_start r') → ordered (bs ++ [b]).
Proof.
  intros Ho Hb before b' after r r' E Hr Hr'. destruct after as [|a after _] using rev_ind.
  - apply app_inj_tail in E as [-> ->]. by eapply Hb.
  - rewrite app_comm_cons, app_assoc in E. apply app_inj_tail in E as [E _]. by eapply (Ho before b' after).
Qed.
Lemma out_closed t r : trace_ok t → r ∈ concat (t_batches t) → is_closed (x_closed (t_state t)) (key_of_row r) = true.
Proof.
  intros Hk Hr. apply (k_out _ Hk) in Hr as (k & q & Hq & Hc & Hr). apply close_row_fields in Hr as [-> _].
  apply row_at_some in Hq as [E _]. unfold key_of_row. by rewrite E.
Qed.
Lemma closing_elem b t r rows : trace_ok t → mapM close_row (closed_rows b (x_pending (t_state t))) = Ok rows →
  r ∈ rows ↔ ∃ k q, row_at k (t_taken t) = Some q ∧ is_closed (x_closed (t_state t)) k = false ∧ k.1.1 + W <= b ∧ close_row q = Ok r.
Proof.
  intros Hk Hm. rewrite (mapM_close_elem _ _ _ Hm). split.
  - intros (q & Hq & Hr). apply closed_rows_elem in Hq as (k & Hq & Hb). destruct (pending_keyed _ Hk _ _ Hq) as [_ He].
    rewrite (k_pending _ Hk) in Hq. destruct (is_closed _ k) eqn:Ec; [done|]. exists k, q. split_and!; [done|done|lia|done].
  - intros (k & q & Hq & Hc & Hb & Hr). exists q. split; [|done]. apply closed_rows_elem. exists k.
    pose proof (k_pending _ Hk k) as Hp. rewrite Hc, Hq in Hp. split; [done|]. apply (pending_keyed _ Hk) in Hp as [_ ->]. done.
Qed.
Lemma close_ok w t st rows :
  trace_ok t → close W w (t_state t) = Ok (st, rows) →
  trace_ok {| t_state := st; t_batches := t_batches t ++ [rows]; t_taken := t_taken t |}.
Proof.
  intros Hk H. unfold close in H. set (b := boundary_of W w) in *. apply bind_ok_inv in H as (rows' & Hm & H). injection H as <- <-.
  pose proof (closing_elem b t) as Hin. specialize (λ r, Hin r rows' Hk Hm) as Hin'. clear Hin.
  pose proof (pending_keyed _ Hk) as Hkey. split; cbn [t_state x_pending x_closed t_taken t_batches].
  - pose proof (k_grid _ Hk) as Hg. destruct (x_closed (t_state t)) as [c|]; [|apply boundary_grid]. by destruct (Z.max_spec c b) as [[_ ->]|[_ ->]]; [apply boundary_grid|].
  - intros k. rewrite is_closed_max. unfold staying. destruct (x_pending (t_state t) !! k) as [q|] eqn:Eq.
    + destruct (Hkey _ _ Eq) as [_ He]. pose proof (k_pending _ Hk k) as Hp. rewrite Eq in Hp. destruct (is_closed (x_closed (t_state t)) k); [done|]. simpl.
      destruct (Z.leb_spec (k.1.1 + W) b) as [Hb|Hb].
      * apply map_lookup_filter_None. right. intros q' Hq' Hn. rewrite Eq in Hq'. injection Hq' as <-. apply Hn. unfold ripe. simpl. lia.
      * rewrite <- Hp. apply map_lookup_filter_Some. split; [done|]. unfold ripe. simpl. lia.
    + rewrite (proj2 (map_lookup_filter_None _ _ _)) by by left. pose proof (k_pending _ Hk k) as Hp. rewrite Eq in Hp.
      destruct (is_closed (x_closed (t_state t)) k); [done|]. rewrite <- Hp. by destruct (_ <=? _).
  - rewrite concat_app, fmap_app. cbn [concat]. rewrite app_nil_r. apply NoDup_app. split_and!; [apply Hk| |].
    + intros k Ho Hn. apply list_elem_of_fmap in Ho as (r & -> & Ho), Hn as (r' & E & Hn). apply (out_closed _ _ Hk) in Ho.
      apply Hin' in Hn as (k' & q & Hq & Hc & _ & Hr). apply close_row_fields in Hr as [Hr _]. apply row_at_some in Hq as [Ek _].
      unfold key_of_row in E, Hr, Ho. rewrite E, Hr, Ek in Ho. congruence.
    + rewrite (close_keys _ _ Hm), (closed_rows_keys _ _ Hkey). apply NoDup_fst_map_to_list.
  - intros r. rewrite concat_app, elem_of_app, (k_out _ Hk). cbn [concat]. rewrite app_nil_r, Hin'. setoid_rewrite is_closed_max. split.
    + intros [(k & q & Hq & Hc & Hr)|(k & q & Hq & Hc & Hb & Hr)]; exists k, q; [by rewrite Hc|]. apply Z.leb_le in Hb. by rewrite Hb, orb_true_r.
    + intros (k & q & Hq & Hc & Hr). destruct (is_closed (x_closed (t_state t)) k) eqn:E; [by left; exists k, q|right]. apply Z.leb_le in Hc. by exists k, q.
  - apply ordered_snoc; [apply Hk|]. intros r r' Ho Hn. apply Hin' in Hn as (k & q & Hq & Hc & _ & Hr). pose proof (row_at_grid _ _ _ Hq) as Hgk.
    apply close_row_fields in Hr as [Hr _]. apply row_at_some in Hq as [Ek _]. assert (Es : w_start r' = k.1.1).
    { unfold key_of_row in Hr. rewrite Ek in Hr. by rewrite <- Hr. }
    pose proof (out_closed _ _ Hk Ho) as Hoc. apply (k_out _ Hk) in Ho as (k1 & q1 & Hq1 & _ & Hr1). apply close_row_fields in Hr1 as (Hr1 & He1 & _).
    apply row_at_some in Hq1 as (Ek1 & Ee1 & _). assert (Es1 : w_start r = k1.1.1) by (unfold key_of_row in Hr1; rewrite Ek1 in Hr1; by rewrite <- Hr1).
    pose proof (k_grid _ Hk) as Hg. unfold is_closed in Hc, Hoc. destruct (x_closed (t_state t)) as [c|]; [|done]. apply Z.leb_le in Hoc. apply Z.leb_gt in Hc. simpl in Hoc.
    destruct (Z.le_gt_cases c (k.1.1)) as [|Hlt]; [lia|]. pose proof (grid_gap _ _ Hgk Hg Hlt). lia.
  - intros k q Hq. rewrite is_closed_max, orb_true_iff. intros [Hc|Hc]; [by apply (k_closes _ Hk k)|].
    destruct (is_closed (x_closed (t_state t)) k) eqn:E; [by apply (k_closes _ Hk k)|]. apply Z.leb_le in Hc.
    pose proof (k_pending _ Hk k) as Hp. rewrite E, Hq in Hp. apply mapM_ok_Forall2 in Hm.
    assert (Hel : q ∈ closed_rows b (x_pending (t_state t))).
    { apply closed_rows_elem. exists k. split; [done|]. apply Hkey in Hp as [_ ->]. done. }
    apply list_elem_of_lookup in Hel as [i Hi]. destruct (Forall2_lookup_l _ _ _ _ _ Hm Hi) as (r & _ & Hr). by rewrite Hr.
Qed.
Lemma extract_ok es t t' : trace_ok t → run es t = Ok t' → trace_ok t'.
Proof.
  revert t. induction es as [|e es IH]; intros t Hk H; [by injection H as <-|]. cbn [run] in H. apply bind_ok_inv in H as (t1 & H1 & H).
  apply IH in H; [done|]. destruct e as [obs|w]; unfold trace_step in H1; apply bind_ok_inv in H1 as (x & Hx & H1).
  - injection H1 as <-. by apply pend_ok.
  - destruct x as [st rows]. injection H1 as <-. by apply (close_ok w).
Qed.
Lemma extract_start_ok : trace_ok start_trace.
Proof.
  split; cbn; [done| |apply NoDup_nil_2| | |].
  - intros k. by rewrite lookup_empty.
  - intros r. split; [intros H; by apply elem_of_nil in H|]. by intros (k & q & ? & ? & _).
  - intros before b after r r' E. by destruct before.
  - by intros k q ?.
Qed.
Lemma out_well_formed t r : trace_ok t → r ∈ concat (t_batches t) → well_formed r.
Proof.
  intros Hk Hr. apply (k_out _ Hk) in Hr as (k & q & Hq & _ & Hr). pose proof (row_at_grid _ _ _ Hq) as Hg.
  apply close_row_fields in Hr as (H1 & H2 & _ & H4 & _). apply row_at_some in Hq as (E1 & E2 & _ & _ & E5 & _).
  unfold key_of_row in H1. rewrite E1 in H1. unfold well_formed. rewrite H2, E2, H4, E5, <- H1. cbn. split_and!; [done| |done]. by rewrite <- H1 in Hg.
Qed.

(** *** One tenant's observations *)

Definition row_of_tenant (tenant : string) (r : row) : bool := String.eqb (w_tenant r) tenant.
(** The observations of the other tenants are left out; those that do not count stay. *)
Definition concerns (tenant : string) (e : event) : bool :=
  match e with
  | observed obs => match read_obs ip_address obs with Ok (Some f) => String.eqb (f_tenant f) tenant | _ => true end
  | closed_at _ => true
  end.
Definition key_of_tenant (tenant : string) (kr : row_key * row) : Prop := kr.1.1.2 = tenant.
#[local] Instance key_of_tenant_dec tenant kr : Decision (key_of_tenant tenant kr).
Proof. unfold key_of_tenant. apply _. Defined.
Record same_tenant (tenant : string) (st st' : extractor) : Prop := {
  m_pending : x_pending st' = filter (key_of_tenant tenant) (x_pending st);
  m_closed : x_closed st' = x_closed st
}.
Lemma add_tenant (tenant : string) (obs : dict) (st st1 st' : extractor) :
  same_tenant tenant st st' → add ip_address subnet W obs st = Ok st1 →
  if concerns tenant (observed obs) then ∃ st1', add ip_address subnet W obs st' = Ok st1' ∧ same_tenant tenant st1 st1' else same_tenant tenant st1 st'.
Proof.
  intros [Hp Hc] H. unfold add in *. apply bind_ok_inv in H as (o & Ho & H). cbn [concerns]. rewrite Ho. destruct o as [f|]; [|injection H as <-; exists st'; by split].
  unfold pend in *. assert (Hl : is_late W st' f = is_late W st f) by (unfold is_late; by rewrite Hc). cbn in *. rewrite Hl.
  destruct (String.eqb_spec (f_tenant f) tenant) as [Et|Et].
  - assert (Hk : x_pending st' !! key_of f = x_pending st !! key_of f).
    { rewrite Hp. destruct (x_pending st !! key_of f) as [q|] eqn:E; [by apply map_lookup_filter_Some|]. apply map_lookup_filter_None. by left. }
    destruct (is_late W st f); [injection H as <-; eexists; split; [done|by split]|]. rewrite Hk. destruct (mem _ _ || _); [|done]. cbn in *. injection H as <-.
    eexists. split; [done|]. split; [|done]. cbn. rewrite Hp. symmetry. apply map_filter_insert_True. exact Et.
  - destruct (is_late W st f); [injection H as <-; by split|]. destruct (mem _ _ || _); [|done]. cbn in H. injection H as <-. split; [|done]. cbn. rewrite Hp.
    rewrite map_filter_insert_False by (unfold key_of_tenant; exact Et). symmetry. apply map_filter_delete_not. intros q Hq. unfold key_of_tenant. exact Et.
Qed.
Lemma insert_filter {A K} `{TotalCmp K} (key : A → K) (p : A → bool) x l :
  StronglySorted (key_le key) l → List.filter p (insert_key key x l) = if p x then insert_key key x (List.filter p l) else List.filter p l.
Proof using.
  induction 1 as [|y l Hs IH Hall]; [cbn; by destruct (p x)|]. cbn [insert_key List.filter].
  destruct (leb (key x) (key y)) eqn:E.
  - cbn. destruct (p x); [|done]. destruct (p y) eqn:Ey; [cbn; by rewrite E|].
    destruct (List.filter p l) as [|z k] eqn:Ez; [done|]. cbn. assert (Hz : z ∈ l).
    { apply list_elem_of_In. apply (filter_In p z l). rewrite Ez. by left. }
    rewrite Forall_forall in Hall. specialize (Hall z Hz). unfold key_le in Hall. by rewrite (leb_trans _ _ _ E Hall).
  - cbn. rewrite IH. destruct (p y) eqn:Ey, (p x); cbn; rewrite ?E; done.
Qed.
Lemma isort_filter {A K} `{TotalCmp K} (key : A → K) (p : A → bool) l : isort key (List.filter p l) = List.filter p (isort key l).
Proof using.
  induction l as [|x l IH]; [done|]. change (isort key (x :: l)) with (insert_key key x (isort key l)). rewrite insert_filter by apply isort_sorted. cbn [List.filter].
  destruct (p x); [|done]. change (isort key (x :: List.filter p l)) with (insert_key key x (isort key (List.filter p l))). by rewrite IH.
Qed.
Lemma closed_rows_tenant (tenant : string) (b : Z) (m : gmap row_key row) :
  keyed m → closed_rows b (filter (key_of_tenant tenant) m) = List.filter (row_of_tenant tenant) (closed_rows b m).
Proof using.
  intros Hm. unfold closed_rows. set (M := map_to_list (closing b m)). set (p := λ kr : row_key * row, bool_decide (key_of_tenant tenant kr)).
  assert (Hp : map_to_list (closing b (filter (key_of_tenant tenant) m)) ≡ₚ List.filter p M).
  { apply NoDup_Permutation; [apply NoDup_map_to_list|eapply sublist_NoDup; [apply (NoDup_map_to_list (closing b m))|apply filter_sublist]|].
    intros [k q]. assert (Hf : (k, q) ∈ List.filter p M ↔ (k, q) ∈ M ∧ p (k, q) = true) by (rewrite !list_elem_of_In; apply filter_In).
    rewrite Hf. unfold M, p. rewrite !elem_of_map_to_list.
    unfold closing. rewrite !map_lookup_filter_Some, bool_decide_eq_true. split; (intros [[? ?] ?]; by repeat split). }
  rewrite (isort_perm_eq fst _ _ (NoDup_fst_map_to_list _) Hp), isort_filter.
  assert (Hl : ∀ kr, kr ∈ isort fst M → p kr = row_of_tenant tenant kr.2).
  { intros [k q] Hin. apply elem_of_isort, elem_of_map_to_list, map_lookup_filter_Some in Hin as [Hin _]. apply Hm in Hin as [<- _].
    unfold p, key_of_tenant, row_of_tenant. cbn. apply eq_true_iff_eq. by rewrite bool_decide_eq_true, String.eqb_eq. }
  clear Hp. revert Hl. generalize (isort fst M). intros l Hl. induction l as [|kr l IH]; [done|]. cbn. rewrite (Hl kr) by by left.
  assert (IH' := IH (λ x Hx, Hl x (list_elem_of_further _ _ _ Hx))). destruct (row_of_tenant tenant kr.2); cbn; [by rewrite <- IH'|done].
Qed.
Lemma mapM_close_filter (tenant : string) (l l' : list row) : mapM close_row l = Ok l' → mapM close_row (List.filter (row_of_tenant tenant) l) = Ok (List.filter (row_of_tenant tenant) l').
Proof.
  revert l'. induction l as [|q l IH]; intros l' H; [by injection H as <-|]. cbn in H. inv_ok. cbn [List.filter].
  match goal with Hq : close_row q = Ok ?r |- _ => assert (Ht : row_of_tenant tenant r = row_of_tenant tenant q) by
    (apply close_row_fields in Hq as [Hq _]; unfold key_of_row in Hq; injection Hq as _ E _; unfold row_of_tenant; by rewrite E) end.
  rewrite Ht. destruct (row_of_tenant tenant q); [|by apply IH]. cbn. match goal with Hq : close_row q = _ |- _ => rewrite Hq end. cbn. by erewrite IH.
Qed.

Lemma close_tenant (tenant : string) w (st st1 st' : extractor) rows :
  keyed (x_pending st) → same_tenant tenant st st' → close W w st = Ok (st1, rows) →
  ∃ st1', close W w st' = Ok (st1', List.filter (row_of_tenant tenant) rows) ∧ same_tenant tenant st1 st1'.
Proof.
  intros Hk [Hp Hc] H. unfold close in *. apply bind_ok_inv in H as (rows' & Hm & H). injection H as <- <-.
  rewrite Hp, (closed_rows_tenant tenant _ _ Hk), (mapM_close_filter tenant _ _ Hm). eexists. split; [done|]. split; [|by cbn; rewrite Hc]. cbn. unfold staying.
  apply map_filter_comm.
Qed.
(** A tenant's rows are its own.  Leaving the other tenants' observations out of a run changes
    neither whether it succeeds for the tenant nor any of the tenant's rows, batch by batch. *)
Lemma extract_tenant (tenant : string) es (t t' : trace) tr :
  trace_ok t → same_tenant tenant (t_state t) (t_state t') → t_batches t' = List.filter (row_of_tenant tenant) <$> t_batches t →
  run es t = Ok tr →
  ∃ tr', run (List.filter (concerns tenant) es) t' = Ok tr' ∧ t_batches tr' = List.filter (row_of_tenant tenant) <$> t_batches tr.
Proof.
  revert t t'. induction es as [|e es IH]; intros t t' Hok Hs Hb H; [injection H as <-; by exists t'|]. cbn [run] in H.
  apply bind_ok_inv in H as (t1 & H1 & H). assert (Hok1 : trace_ok t1) by (apply (extract_ok [e] t); [done|cbn; by rewrite H1]).
  destruct e as [obs|w]; unfold trace_step in H1; apply bind_ok_inv in H1 as (x & Hx & H1).
  - injection H1 as <-. pose proof (add_tenant tenant obs _ _ _ Hs Hx) as Ha. cbn [List.filter]. destruct (concerns tenant (observed obs)).
    + destruct Ha as (st1' & Ha & Hs1). cbn [run trace_step]. rewrite Ha. cbn. by eapply IH; [exact Hok1| | |exact H].
    + by eapply IH; [exact Hok1| | |exact H].
  - destruct x as [st rows]. injection H1 as <-. destruct (close_tenant tenant w _ _ _ _ (pending_keyed _ Hok) Hs Hx) as (st1' & Ha & Hs1).
    cbn [List.filter concerns run trace_step]. rewrite Ha. cbn. eapply IH; [exact Hok1|done| |exact H]. cbn. by rewrite Hb, fmap_app.
Qed.

(** The windows are exact.  Whatever observations and watermarks come, in whatever order,
    a run that does not raise emits, for each source, tenant and window, at most one row ever;
    it emits one exactly when an observation of that window was taken and a watermark has
    passed the window's end, and the row then counts each observation identifier once, its
    bytes being the sum over the first record of each and its references the identifiers
    themselves; rows come batch by batch in the order of time, so that no row is emitted for a
    window that a later batch could still precede. *)
Theorem window_rows_exact es t :
  run es start_trace = Ok t →
  NoDup (key_of_row <$> concat (t_batches t)) ∧ ordered (t_batches t) ∧
  (∀ r, r ∈ concat (t_batches t) →
     let fs := firsts [] (of_key (key_of_row r) (t_taken t)) in
     well_formed r ∧ w_bytes r = total fs ∧ w_refs r = isort id (f_id <$> fs) ∧
     w_sensors r = isort id (dedup_onto [] (f_sensor <$> fs))) ∧
  (∀ f c, f ∈ t_taken t → x_closed (t_state t) = Some c → window_of W (f_at f) + W <= c →
     ∃ r, r ∈ concat (t_batches t) ∧ key_of_row r = key_of f).
Proof.
  intros H. pose proof (extract_ok _ _ _ extract_start_ok H) as Hk. split; [apply Hk|]. split; [apply Hk|]. split.
  - intros r Hr. split; [by apply (out_well_formed t)|]. apply (k_out _ Hk) in Hr as (k & q & Hq & _ & Hr).
    apply close_row_fields in Hr as (H1 & _ & H3 & _ & H5 & H6). apply row_at_some in Hq as (E1 & _ & E3 & E4 & _ & E6).
    assert (Hkr : key_of_row r = k) by (rewrite H1; exact E1). rewrite Hkr, H3, H5, H6, E3, E4, E6. done.
  - intros f c Hf Hc Hle. destruct (row_at (key_of f) (t_taken t)) as [q|] eqn:Eq.
    + assert (Hc' : is_closed (x_closed (t_state t)) (key_of f) = true) by (rewrite Hc; apply Z.leb_le; exact Hle).
      pose proof (k_closes _ Hk _ _ Eq Hc') as Hcl. destruct (close_row q) as [r|] eqn:Er; [|done]. exists r. split.
      * apply (k_out _ Hk). by exists (key_of f), q.
      * apply close_row_fields in Er as [-> _]. apply row_at_some in Eq as [E _]. exact E.
    + by apply (proj1 (row_at_none _ _)) with (f := f) in Eq.
Qed.

End facts.

(** ** A run: two records of one window, the second delivered twice, then the watermark. *)

Definition demo_obs (id : string) (bytes : Z) : dict :=
  [("schema", VStr "cernity.observation.v1"); ("type", VStr "conn"); ("tenant", VStr "t"); ("obs_id", VStr id); ("sensor_id", VStr "s");
   ("fields", VDict [("src_ip", VStr "10.0.0.5"); ("flow", VDict [("bytes_toserver", VInt bytes)])]);
   ("entities", VList [VDict [("type", VStr "ip"); ("role", VStr "src"); ("value", VStr "10.0.0.5")]]);
   ("ts", VDict [("normalized", VStr "2026-01-01T00:01:00.000Z"); ("method", VStr "ingest")])].
Definition demo_address (v : val) : option string := match v with VStr s => Some s | _ => None end.
Definition demo_subnet (_ : string) : string := "10.0.0.0/24".
Definition demo_events : list event :=
  [observed (demo_obs "a" 10); observed (demo_obs "b" 5); observed (demo_obs "b" 5); closed_at 1767226200000000].
Definition demo_trace : trace :=
  match run demo_address demo_subnet 300 demo_events start_trace with Ok t => t | Raise _ => start_trace end.
Example demo_rows :
  (λ r, (w_start r, w_bytes r, w_refs r)) <$> concat (t_batches demo_trace) = [(1767225600, 15, ["a"; "b"])].
Proof. vm_compute. reflexivity. Qed.
Lemma window_rows_exact_witness :
  NoDup (key_of_row <$> concat (t_batches demo_trace)) ∧ ordered (t_batches demo_trace) ∧
  (∀ r, r ∈ concat (t_batches demo_trace) →
     let fs := firsts [] (of_key 300 (key_of_row r) (t_taken demo_trace)) in
     well_formed demo_subnet 300 r ∧ w_bytes r = total fs ∧ w_refs r = isort id (f_id <$> fs) ∧
     w_sensors r = isort id (dedup_onto [] (f_sensor <$> fs))) ∧
  (∀ f c, f ∈ t_taken demo_trace → x_closed (t_state demo_trace) = Some c → window_of 300 (f_at f) + 300 <= c →
     ∃ r, r ∈ concat (t_batches demo_trace) ∧ key_of_row r = row_key_of 300 f).
Proof. apply (window_rows_exact demo_address demo_subnet 300 ltac:(lia) demo_events demo_trace). vm_compute. reflexivity. Defined.
