(* ===== verification/OutboundModel.v ===== *)
(** * The outbound-volume baseline (OutboundBytesModel of services/anomaly-detector/anomaly.py)

    A window's bytes are compared with the entity's own past and with its peers' past, by
    median and median absolute deviation.  The history lives in the process, or in a store
    that replicas share.  Windows are whole seconds; the clock of the store is in
    microseconds and read once per evaluation.  Keys carry integer starts, on which
    [float] is exact. *)

From stdpp Require Import gmap.
From S2P Require Import Prelude Order PyVal PyString PyTime IsoTime OrderedMap WindowStore PartitionKeys OutboundFeatures.
Set Default Proof Using "Type".

(** ** Statistics *)

Abbreviation num := (Z + float)%type.
Definition num_val (n : num) : val := match n with inl z => VInt z | inr f => VFloat f end.
(** [a / b] of integers, [b] positive. *)
Definition int_div (a b : Z) : res float := let f := ratio a b in check (is_finite f) OverflowError;; Ok f.
Definition num_div (a b : num) : res float :=
  match a, b with
  | inl x, inl y => int_div x y
  | _, _ => f ← as_float a; g ← as_float b; Ok (fdiv f g)
  end.
(** [max(a, b)]: the first unless the second is greater. *)
Definition num_max (a b : num) : num := match num_cmp a b with Some Lt => b | _ => a end.

(** A total order of floats that refines the order of numbers. *)
Definition float_rank (f : float) : Z * (Z * (Z * Z)) :=
  match f with
  | S754_zero s => (0, (0, (0, if s then 0 else 1)))
  | S754_finite s m e => let sm := if s then Z.neg m else Z.pos m in (0, (sm * 2 ^ (e + 1074), (sm, e)))
  | S754_infinity s => (if s then -1 else 1, (0, (0, 0)))
  | S754_nan => (2, (0, (0, 0)))
  end.
(** [statistics.median] of integers and of floats, not empty. *)
Definition median (vs : list Z) : res num :=
  let s := isort id vs in
  let i := (length vs / 2)%nat in
  let at_ k := default 0 (s !! k) in
  if Nat.odd (length vs) then Ok (inl (at_ i)) else inr <$> int_div (at_ (i - 1)%nat + at_ i) 2.
Definition median_float (vs : list float) : float :=
  let s := isort float_rank vs in
  let i := (length vs / 2)%nat in
  let at_ k := default S754_nan (s !! k) in
  if Nat.odd (length vs) then at_ i else fdiv (fadd (at_ (i - 1)%nat) (at_ i)) (lit "2").
(** [median(abs(v - center) for v in values)] *)
Definition mad_of (center : num) (vs : list Z) : res num :=
  match center with
  | inl c => median ((λ v, Z.abs (v - c)) <$> vs)
  | inr c => fs ← mapM (λ v, f ← float_of_Z v; Ok (SFabs (fsub f c))) vs; Ok (inr (median_float fs))
  end.

(** ** Baselines *)

(** What the history keeps of a row. *)
Record hist := { h_tenant : string; h_subnet : string; h_entity : string; h_start : Z; h_end : Z; h_bytes : Z }.
Definition hist_of (r : row) : hist :=
  {| h_tenant := w_tenant r; h_subnet := w_subnet r; h_entity := w_entity r; h_start := w_start r; h_end := w_end r; h_bytes := w_bytes r |}.
Record stats := { s_median : num; s_mad : num; s_scale : num; s_from : string; s_to : string }.
Record baseline_doc := { b_available : bool; b_samples : Z; b_stats : option stats }.
Record config := {
  c_windows : Z; c_min_samples : Z; c_min_peers : Z; c_threshold : float; c_floor : Z; c_retention : Z
}.
Definition default_config : config :=
  {| c_windows := 288; c_min_samples := 3; c_min_peers := 2; c_threshold := lit "6.0"; c_floor := 1024; c_retention := 28 * 86400 |}.
Definition make_model (c : config) : res config :=
  check (negb ((c_windows c <? c_min_samples c) || (c_min_samples c <? 1) || (c_min_peers c <? 1)
               || SFleb (c_threshold c) (S754_zero false) || (c_floor c <=? 0))) ValueError;;
  check (0 <? c_retention c) ValueError;; Ok c.

Section model.
Context (cfg : config) (sha256 : string → string) (dumps dumps_sorted dumps_compact : val → string) (loads : string → res val).

Definition VERSION : string := "1.0.0".
Definition min_of (z : Z) (l : list Z) : Z := foldl Z.min z l.
Definition max_of (z : Z) (l : list Z) : Z := foldl Z.max z l.
Definition scale_of (center mad : num) : res num :=
  m ← as_float mad; c ← as_float center;
  Ok (num_max (num_max (inr (fmul (lit "1.4826") m)) (inl (c_floor cfg))) (inr (fmul c (lit "0.1")))).
Definition baseline (rows : list hist) : res baseline_doc :=
  match rows with
  | [] => Ok {| b_available := false; b_samples := 0; b_stats := None |}
  | r :: _ =>
      let values := h_bytes <$> rows in
      center ← median values;
      mad ← mad_of center values;
      scale ← scale_of center mad;
      from ← iso (min_of (h_start r) (h_start <$> rows));
      to ← iso (max_of (h_end r) (h_end <$> rows));
      Ok {| b_available := c_min_samples cfg <=? Z.of_nat (length rows); b_samples := Z.of_nat (length rows);
            b_stats := Some {| s_median := center; s_mad := mad; s_scale := scale; s_from := from; s_to := to |} |}
  end.
(** [max(0.0, (bytes - median) / scale)]; an available baseline has its statistics. *)
Definition deviation (bytes : Z) (b : baseline_doc) : res float :=
  match b_stats b with
  | Some s =>
      d ← match s_median s with inl m => Ok (inl (bytes - m)) | inr m => f ← float_of_Z bytes; Ok (inr (fsub f m)) end;
      q ← num_div d (s_scale s); Ok (fmax (S754_zero false) q)
  | None => Raise KeyError
  end.

(** ** Scoring *)

Definition cohort (subnet : string) : list (string * val) :=
  [("subnet", VStr subnet); ("role", VStr "src"); ("method", VStr "source-ip-subnet-v1")].
Definition relevant (row : row) (h : hist) : bool :=
  String.eqb (h_tenant h) (w_tenant row) && String.eqb (h_subnet h) (w_subnet row) && (h_end h <=? w_start row).
Definition members (peers : list hist) : list string := isort id (dedup_onto [] (h_entity <$> peers)).
Definition baseline_val (b : baseline_doc) : val :=
  VDict (("available", VBool (b_available b)) :: ("samples", VInt (b_samples b)) ::
         match b_stats b with
         | Some s => [("median", num_val (s_median s)); ("mad", num_val (s_mad s)); ("scale", num_val (s_scale s));
                      ("trained_from", VStr (s_from s)); ("trained_to", VStr (s_to s))]
         | None => []
         end).
Definition model_val : val :=
  VDict [("name", VStr "outbound-bytes-baseline"); ("version", VStr VERSION); ("type", VStr "median-mad");
         ("history_windows", VInt (c_windows cfg)); ("min_samples", VInt (c_min_samples cfg)); ("min_peers", VInt (c_min_peers cfg));
         ("scale_floor_bytes", VInt (c_floor cfg)); ("relative_scale_floor", VFloat (lit "0.1")); ("mad_multiplier", VFloat (lit "1.4826"))].
Definition strs_val (l : list string) : val := VList (VStr <$> l).
Definition explanation (row : row) (own peer : baseline_doc) (ms : list string) (score : float) (deviations : dict) : res val :=
  start ← iso (w_start row); end_ ← iso (w_end row);
  Ok (VDict [("schema", VStr "cernity.anomaly.v1");
    ("features", VDict [("bytes_out", VInt (w_bytes row)); ("unit", VStr "bytes"); ("schema_version", VStr "outbound-bytes.v1");
       ("semantics", VStr "conn bytes_toserver attributed at normalized observation time"); ("time_methods", VList (w_methods row))]);
    ("window", VDict [("start", VStr start); ("end", VStr end_)]);
    ("entity_baseline", baseline_val own); ("peer_baseline", baseline_val peer);
    ("cohort", VDict (cohort (w_subnet row) ++ [("tenant", VStr (w_tenant row)); ("entity", VStr (w_entity row));
       ("peer_members", strs_val ms); ("excludes_scored_entity", VBool true)]));
    ("model", model_val);
    ("mode", VStr (if b_available own then "entity-and-peer" else "peer-only-cold-start"));
    ("score", VFloat score); ("threshold", VFloat (c_threshold cfg)); ("deviations", VDict deviations);
    ("top_contributors", VList [VDict [("feature", VStr "bytes_out"); ("contribution", VFloat (lit "1.0"))]]);
    ("evidence_refs", strs_val (w_refs row))]).
Definition finding_id (row : row) : string :=
  "outbytes-" +:+ sha256 (dumps_compact (VList [VStr (w_tenant row); VStr (w_entity row); VInt (w_start row); VStr VERSION])).
Definition finding (row : row) (own peer : baseline_doc) (ms : list string) (score : float) (deviations : dict) : res dict :=
  why ← explanation row own peer ms score deviations;
  first ← iso (w_start row); last ← iso (w_end row);
  Ok [("finding_id", VStr (finding_id row)); ("tenant_id", VStr (w_tenant row)); ("sensor_ids", strs_val (w_sensors row));
      ("detector_id", VStr "outbound_bytes_anomaly"); ("detector_version", VStr VERSION); ("category", VStr "anomaly"); ("severity", VInt 6);
      ("confidence", VFloat (if b_available own then lit "0.8" else lit "0.5"));
      ("first_seen", VStr first); ("last_seen", VStr last);
      ("entities", VStr (dumps (VList [VDict [("type", VStr "ip"); ("role", VStr "src"); ("value", VStr (w_entity row))]])));
      ("evidence_refs", strs_val (w_refs row)); ("summary", VDict [("anomaly", why)]); ("state", VStr "CANDIDATE")].
(** The deviation of a baseline that is available. *)
Definition deviation_of (name : string) (bytes : Z) (b : baseline_doc) : res (list (string * float)) :=
  if b_available b then d ← deviation bytes b; Ok [(name, d)] else Ok [].
Definition is_self (row : row) (h : hist) : bool := String.eqb (h_entity h) (w_entity row).
Definition is_peer (row : row) (h : hist) : bool := negb (is_self row h).
Definition score_relevant (row : row) (history : list hist) : res (option dict) :=
  own ← baseline (List.filter (is_self row) history);
  let peers := List.filter (is_peer row) history in
  peer0 ← baseline peers;
  let ms := members peers in
  let peer := {| b_available := b_available peer0 && (c_min_peers cfg <=? Z.of_nat (length ms));
                 b_samples := b_samples peer0; b_stats := b_stats peer0 |} in
  ds ← deviation_of "entity" (w_bytes row) own;
  dp ← deviation_of "peer" (w_bytes row) peer;
  match dp with
  | [] => Ok None
  | (_, p) :: _ =>
      let score := match ds with [] => p | (_, e) :: _ => fmin e p end in
      if SFleb score (c_threshold cfg) then Ok None
      else Some <$> finding row own peer ms score ((λ d, (d.1, VFloat d.2)) <$> (ds ++ dp))
  end.
Definition score (history : list hist) (row : row) : res (option dict) := score_relevant row (List.filter (relevant row) history).
(** The findings of a batch. *)
Definition score_all (history : row → list hist) (batch : list row) : res (list dict) :=
  found ← mapM (λ r, score (history r) r) batch; Ok (omap id found).

(** ** Windows *)

(** [groupby(sorted(rows, ...), ...)] *)
Definition row_order (r : row) : Z * string * string := (w_start r, w_tenant r, w_entity r).
Fixpoint group_starts (rows : list row) : list (Z * list row) :=
  match rows with
  | [] => []
  | r :: rows =>
      match group_starts rows with
      | (s, g) :: rest => if s =? w_start r then (s, r :: g) :: rest else (w_start r, [r]) :: (s, g) :: rest
      | [] => [(w_start r, [r])]
      end
  end.
Definition width_of (start : Z) (batch : list row) : Z := match batch with r :: _ => w_end r - start | [] => 0 end.
(** A window without a store: score it, then learn it. *)
Definition window_local (history : list hist) (g : Z * list row) : res (list hist * list dict) :=
  let '(start, batch) := g in
  let history := List.filter (λ h, start - c_windows cfg * width_of start batch <=? h_start h) history in
  found ← score_all (λ _, history) batch; Ok (history ++ (hist_of <$> batch), found).
Fixpoint windows_local (history : list hist) (gs : list (Z * list row)) : res (list hist * list dict) :=
  match gs with
  | [] => Ok (history, [])
  | g :: gs => '(history, found) ← window_local history g; '(history, more) ← windows_local history gs; Ok (history, found ++ more)
  end.
Definition evaluate (history : list hist) (rows : list row) : res (list hist * list dict) :=
  windows_local history (group_starts (isort row_order rows)).

(** ** The shared history *)

Definition prefix_of (tenant subnet : string) : string :=
  "ob:v1:" +:+ sha256 (dumps_sorted (VList [VStr tenant; VDict (cohort subnet)])) +:+ ":".
Definition history_prefix (r : row) : string := prefix_of (w_tenant r) (w_subnet r).
Definition history_key (h : hist) : string :=
  prefix_of (h_tenant h) (h_subnet h) +:+ sha256 (dumps (VStr (h_entity h))) +:+ ":" +:+ pretty (h_start h).
Definition hist_val (h : hist) : val :=
  VDict [("tenant", VStr (h_tenant h)); ("cohort", VDict (cohort (h_subnet h))); ("entity", VStr (h_entity h));
         ("start", VInt (h_start h)); ("end", VInt (h_end h)); ("bytes_out", VInt (h_bytes h))].
Definition hist_of_val (v : val) : res hist :=
  d ← as_dict v;
  match dgetN "tenant" d, dgetN "cohort" d, dgetN "entity" d, dgetN "start" d, dgetN "end" d, dgetN "bytes_out" d with
  | VStr t, VDict c, VStr e, VInt s, VInt x, VInt b =>
      match dgetN "subnet" c with
      | VStr n => Ok {| h_tenant := t; h_subnet := n; h_entity := e; h_start := s; h_end := x; h_bytes := b |}
      | _ => Raise TypeError
      end
  | _, _, _, _, _, _ => Raise TypeError
  end.
(** [key.rsplit(":", 1)[1]] *)
Definition key_start (key : string) : res Z :=
  match cut_at ":" (String.rev key) with
  | Some (last, _) => match parse_int (String.rev last) with Some z => Ok z | None => Raise ValueError end
  | None => Raise IndexError
  end.

Section store.
Context {S : Type} `{WindowStore S}.
Definition kv_read (now : Z) (key : string) (s : S) : S * option string :=
  let '(s, a) := ws_step now s (o_kv_get key) in (s, match a with a_str v => v | _ => None end).
(** The rows of the cohort among these keys, within the window of history. *)
Fixpoint read_rows (now lo hi : Z) (keys : list string) (s : S) : res (S * list hist) :=
  match keys with
  | [] => Ok (s, [])
  | k :: keys =>
      start ← key_start k;
      if (lo <=? start) && (start <? hi) then
        match kv_read now k s with
        | (s, Some text) => v ← loads text; h ← hist_of_val v; '(s, hs) ← read_rows now lo hi keys s; Ok (s, h :: hs)
        | (s, None) => read_rows now lo hi keys s
        end
      else read_rows now lo hi keys s
  end.
Definition _stored_history (now : Z) (r : row) (s : S) : res (S * list hist) :=
  let '(s, keys) := st_strs now (o_keys_matching (history_prefix r)) s in
  read_rows now (w_start r - c_windows cfg * (w_end r - w_start r)) (w_start r) keys s.
Definition _learn (now : Z) (r : row) (s : S) : S :=
  let ttl := (w_end r + c_retention cfg) * 1000000 - now in
  st_do now (o_kv_set_once (history_key (hist_of r)) (dumps (hist_val (hist_of r))) ttl) s.
(** One read per cohort of the window. *)
Fixpoint snapshot (now : Z) (batch : list row) (seen : list (string * list hist)) (s : S) : res (S * list (string * list hist)) :=
  match batch with
  | [] => Ok (s, seen)
  | r :: batch =>
      match od_get (history_prefix r) seen with
      | Some _ => snapshot now batch seen s
      | None => '(s, hs) ← _stored_history now r s; snapshot now batch (od_set (history_prefix r) hs seen) s
      end
  end.
Definition window_shared (now : Z) (s : S) (g : Z * list row) : res (S * list dict) :=
  let '(start, batch) := g in
  '(s, snap) ← snapshot now batch [] s;
  found ← score_all (λ r, default [] (od_get (history_prefix r) snap)) batch;
  Ok (foldl (λ s r, _learn now r s) s batch, found).
Fixpoint windows_shared (now : Z) (s : S) (gs : list (Z * list row)) : res (S * list dict) :=
  match gs with
  | [] => Ok (s, [])
  | g :: gs => '(s, found) ← window_shared now s g; '(s, more) ← windows_shared now s gs; Ok (s, found ++ more)
  end.
Definition evaluate_shared (now : Z) (s : S) (rows : list row) : res (S * list dict) :=
  windows_shared now s (group_starts (isort row_order rows)).
End store.

(** ** Facts *)

(** *** A score does not depend on the order of the history *)

Lemma float_rank_inj f g : float_rank f = float_rank g → f = g.
Proof.
  destruct f as [[]|[]| |[] m e], g as [[]|[]| |[] m' e']; simpl; intros E; try done; try (injection E; intros; subst; done).
Qed.
Lemma isort_inj_perm {A K} `{TotalCmp K} (key : A → K) (l l' : list A) :
  (∀ x y, key x = key y → x = y) → l ≡ₚ l' → isort key l = isort key l'.
Proof.
  intros Hinj Hp. assert (Hp' : isort key l ≡ₚ isort key l') by by rewrite !isort_perm.
  pose proof (isort_sorted key l) as H1. pose proof (isort_sorted key l') as H2. revert Hp' H1 H2. generalize (isort key l) (isort key l'). clear -Hinj.
  intros s. induction s as [|x s IH]; intros s' Hp H1 H2; [by apply Permutation_nil_l in Hp|].
  destruct s' as [|y s']; [by apply Permutation_sym, Permutation_nil_l in Hp|].
  inversion H1 as [|?? S1 A1]; inversion H2 as [|?? S2 A2]; subst. assert (x = y) as ->.
  { assert (Hx : x ∈ y :: s') by (rewrite <- Hp; by left). assert (Hy : y ∈ x :: s) by (rewrite Hp; by left).
    apply elem_of_cons in Hx as [|Hx]; [done|]. apply elem_of_cons in Hy as [|Hy]; [done|].
    rewrite Forall_forall in A1, A2. apply Hinj, leb_antisym; [by apply A1|by apply A2]. }
  f_equal. apply IH; [by apply Permutation_cons_inv in Hp|done|done].
Qed.
Lemma median_perm vs vs' : vs ≡ₚ vs' → median vs = median vs'.
Proof. intros Hp. unfold median. by rewrite (isort_inj_perm id vs vs'), (Permutation_length Hp). Qed.
Lemma median_float_perm vs vs' : vs ≡ₚ vs' → median_float vs = median_float vs'.
Proof. intros Hp. unfold median_float. by rewrite (isort_inj_perm float_rank vs vs'), (Permutation_length Hp) by (done || apply float_rank_inj). Qed.
Lemma float_of_Z_raise z e : float_of_Z z = Raise e → e = OverflowError.
Proof. unfold float_of_Z. destruct (is_finite _); congruence. Qed.
(** [mapM] over a permutation, when the function can raise one error only. *)
Lemma mapM_one_error_perm {A B} (f : A → res B) e0 (l l' : list A) :
  (∀ x e, f x = Raise e → e = e0) → l ≡ₚ l' →
  match mapM f l, mapM f l' with Ok k, Ok k' => k ≡ₚ k' | Raise e, Raise e' => e = e' | _, _ => False end.
Proof.
  intros He. induction 1 as [|x l l' _ IH|x y l|l1 l2 l3 _ IH1 _ IH2]; cbn.
  - constructor.
  - destruct (f x) as [b|e]; cbn; [|done]. destruct (mapM f l), (mapM f l'); cbn; try done. by constructor.
  - destruct (f x) as [b|e] eqn:Ex, (f y) as [c|e'] eqn:Ey; cbn.
    + destruct (mapM f l); cbn; [by constructor|done].
    + done.
    + done.
    + by rewrite (He _ _ Ex), (He _ _ Ey).
  - destruct (mapM f l1), (mapM f l2), (mapM f l3); try done; by etrans.
Qed.
Lemma mad_perm c vs vs' : vs ≡ₚ vs' → mad_of c vs = mad_of c vs'.
Proof.
  intros Hp. destruct c as [c|c]; cbn; [by apply median_perm; rewrite Hp|].
  pose proof (mapM_one_error_perm (λ v, f ← float_of_Z v; Ok (SFabs (fsub f c))) OverflowError vs vs') as H.
  assert (H' : ∀ x e, (f ← float_of_Z x; Ok (SFabs (fsub f c))) = Raise e → e = OverflowError).
  { intros x e Hr. destruct (float_of_Z x) eqn:E; cbn in Hr; [done|]. injection Hr as <-. by eapply float_of_Z_raise. }
  specialize (H H' Hp). destruct (mapM _ vs), (mapM _ vs'); cbn; try done; [|by subst]. by rewrite (median_float_perm _ _ H).
Qed.
Lemma min_of_spec z l : min_of z l ∈ z :: l ∧ ∀ x, x ∈ z :: l → min_of z l <= x.
Proof.
  unfold min_of. revert z. induction l as [|y l IH]; intros z; cbn [foldl].
  { split; [by left|]. intros x Hx. apply list_elem_of_singleton in Hx as ->. lia. }
  destruct (IH (Z.min z y)) as [H1 H2]. split.
  - apply elem_of_cons in H1 as [->|H1]; [|by right; right]. destruct (Z.min_spec z y) as [[_ ->]|[_ ->]]; [by left|by right; left].
  - intros x Hx. pose proof (H2 (Z.min z y) ltac:(by left)). apply elem_of_cons in Hx as [->|[->|Hx]%elem_of_cons]; [lia|lia|]. apply H2. by right.
Qed.
Lemma max_of_spec z l : max_of z l ∈ z :: l ∧ ∀ x, x ∈ z :: l → x <= max_of z l.
Proof.
  unfold max_of. revert z. induction l as [|y l IH]; intros z; cbn [foldl].
  { split; [by left|]. intros x Hx. apply list_elem_of_singleton in Hx as ->. lia. }
  destruct (IH (Z.max z y)) as [H1 H2]. split.
  - apply elem_of_cons in H1 as [->|H1]; [|by right; right]. destruct (Z.max_spec z y) as [[_ ->]|[_ ->]]; [by right; left|by left].
  - intros x Hx. pose proof (H2 (Z.max z y) ltac:(by left)). apply elem_of_cons in Hx as [->|[->|Hx]%elem_of_cons]; [lia|lia|]. apply H2. by right.
Qed.
Lemma min_of_perm z z' l l' : z ∈ l → z' ∈ l' → l ≡ₚ l' → min_of z l = min_of z' l'.
Proof.
  intros Hz Hz' Hp. destruct (min_of_spec z l) as [A1 A2], (min_of_spec z' l') as [B1 B2].
  assert (A : min_of z l ∈ l) by (apply elem_of_cons in A1 as [->|]; done). assert (B : min_of z' l' ∈ l') by (apply elem_of_cons in B1 as [->|]; done).
  apply Z.le_antisymm; [apply A2; right; by rewrite Hp|apply B2; right; by rewrite <- Hp].
Qed.
Lemma max_of_perm z z' l l' : z ∈ l → z' ∈ l' → l ≡ₚ l' → max_of z l = max_of z' l'.
Proof.
  intros Hz Hz' Hp. destruct (max_of_spec z l) as [A1 A2], (max_of_spec z' l') as [B1 B2].
  assert (A : max_of z l ∈ l) by (apply elem_of_cons in A1 as [->|]; done). assert (B : max_of z' l' ∈ l') by (apply elem_of_cons in B1 as [->|]; done).
  apply Z.le_antisymm; [apply B2; right; by rewrite <- Hp|apply A2; right; by rewrite Hp].
Qed.
Lemma baseline_perm rows rows' : rows ≡ₚ rows' → baseline rows = baseline rows'.
Proof.
  intros Hp. unfold baseline. destruct rows as [|r rows]; [by apply Permutation_nil in Hp as ->|].
  destruct rows' as [|r' rows']; [by apply Permutation_sym, Permutation_nil_l in Hp|].
  assert (Hr : r ∈ r :: rows) by by left. assert (Hr' : r' ∈ r' :: rows') by by left.
  set (l := r :: rows) in *. set (l' := r' :: rows') in *. clearbody l l'.
  rewrite (median_perm (h_bytes <$> l) (h_bytes <$> l')) by (by rewrite Hp). destruct (median _) as [c|]; [|done]. cbn.
  rewrite (mad_perm c (h_bytes <$> l) (h_bytes <$> l')) by (by rewrite Hp).
  rewrite (min_of_perm (h_start r) (h_start r') (h_start <$> l) (h_start <$> l')), (max_of_perm (h_end r) (h_end r') (h_end <$> l) (h_end <$> l')), (Permutation_length Hp);
    first [done|by apply list_elem_of_fmap_2|by rewrite Hp].
Qed.
Lemma members_perm peers peers' : peers ≡ₚ peers' → members peers = members peers'.
Proof.
  intros Hp. unfold members. apply isort_inj_perm; [done|]. apply NoDup_Permutation; [apply NoDup_dedup_onto, NoDup_nil_2..|].
  intros x. rewrite !elem_of_dedup_onto. by rewrite Hp.
Qed.
Lemma bfilter_perm {A} (f : A → bool) (l l' : list A) : l ≡ₚ l' → List.filter f l ≡ₚ List.filter f l'.
Proof.
  induction 1 as [|x l l' _ IH|x y l|l1 l2 l3 _ IH1 _ IH2]; simpl; [done| | |by etrans].
  - destruct (f x); [by constructor|done].
  - destruct (f x), (f y); try done. by constructor.
Qed.
Lemma score_relevant_perm row hs hs' : hs ≡ₚ hs' → score_relevant row hs = score_relevant row hs'.
Proof.
  intros Hp. unfold score_relevant.
  pose proof (bfilter_perm (is_peer row) hs hs' Hp) as Hn.
  by rewrite (baseline_perm _ _ (bfilter_perm (is_self row) hs hs' Hp)), (baseline_perm _ _ Hn), (members_perm _ _ Hn).
Qed.

(** *** Windows *)

Lemma group_concat rows : concat (snd <$> group_starts rows) = rows.
Proof.
  induction rows as [|r rows IH]; [done|]. cbn [group_starts]. destruct (group_starts rows) as [|[s g] rest]; cbn in *; [by subst|].
  destruct (s =? w_start r); cbn; by rewrite IH.
Qed.
Lemma group_members rows s g : (s, g) ∈ group_starts rows → g ≠ [] ∧ ∀ r, r ∈ g → w_start r = s ∧ r ∈ rows.
Proof.
  revert s g. induction rows as [|r rows IH]; intros s g H; [by apply elem_of_nil in H|]. cbn [group_starts] in H.
  assert (Hold : ∀ s g, (s, g) ∈ group_starts rows → g ≠ [] ∧ ∀ r', r' ∈ g → w_start r' = s ∧ r' ∈ r :: rows).
  { intros s' g' Hg. destruct (IH s' g' Hg) as [? Hm]. split; [done|]. intros r' Hr'. destruct (Hm r' Hr'). split; [done|by right]. }
  assert (Hone : ∀ r', r' ∈ [r] → w_start r' = w_start r ∧ r' ∈ r :: rows) by (intros r' Hr'; apply list_elem_of_singleton in Hr' as ->; split; [done|by left]).
  destruct (group_starts rows) as [|[s' g'] rest].
  - apply list_elem_of_singleton in H. injection H as -> ->. by split.
  - destruct (Z.eqb_spec s' (w_start r)) as [E|E].
    + apply elem_of_cons in H as [[= -> ->]|H]; [|apply Hold; by right]. split; [done|].
      intros r' [->|Hr']%elem_of_cons; [split; [done|by left]|]. apply (Hold s' g'); [by left|done].
    + apply elem_of_cons in H as [[= -> ->]|H]; [by split|]. by apply Hold.
Qed.
(** Windows in the order of time, none before [lo]. *)
Definition ascending (lo : Z) (gs : list (Z * list row)) : Prop := Forall (λ g, lo <= g.1) gs ∧ StronglySorted Z.le gs.*1.
Lemma group_ascending lo rows : (∀ r, r ∈ rows → lo <= w_start r) → ascending lo (group_starts (isort row_order rows)).
Proof.
  intros Hlo. split.
  - apply Forall_forall. intros [s g] Hg. apply group_members in Hg as [Hne Hm]. destruct g as [|r g]; [done|]. destruct (Hm r ltac:(by left)) as [<- Hr].
    apply elem_of_isort in Hr. by apply Hlo.
  - pose proof (isort_sorted row_order rows) as Hs. revert Hs. generalize (isort row_order rows). clear. intros rows Hs.
    induction Hs as [|r rows Hs IH Hall]; [constructor|]. cbn [group_starts]. pose proof (λ s g, group_members rows s g) as Hm.
    assert (Hle : ∀ s g, (s, g) ∈ group_starts rows → w_start r <= s).
    { intros s g Hg. destruct (Hm s g Hg) as [Hne Hg']. destruct g as [|r' g]; [done|]. destruct (Hg' r' ltac:(by left)) as [<- Hr'].
      rewrite Forall_forall in Hall. specialize (Hall r' Hr'). unfold key_le, leb, row_order in Hall. cbn in Hall. unfold pair_cmp in Hall. cbn in Hall. unfold pair_cmp in Hall. cbn in Hall.
      destruct (Z.compare_spec (w_start r) (w_start r')); [lia|lia|done]. }
    destruct (group_starts rows) as [|[s g] rest]; cbn; [repeat constructor|]. destruct (Z.eqb_spec s (w_start r)) as [E|E]; [done|]. cbn in *. constructor; [done|].
    apply Forall_forall. intros x Hx. change (s :: rest.*1) with (((s, g) :: rest).*1) in Hx. apply list_elem_of_fmap in Hx as ([s' g'] & -> & Hx). by eapply Hle.
Qed.

(** *** The reference: score against everything learned that is in reach *)

Context (W : Z).
Hypothesis HW : 0 < W.
Hypothesis Hcfg : 0 <= c_windows cfg.
#[local] Set Default Proof Using "HW Hcfg".
Definition proper_row (r : row) : Prop := w_end r = w_start r + W.
Definition proper_groups (gs : list (Z * list row)) : Prop :=
  ∀ s g, (s, g) ∈ gs → g ≠ [] ∧ ∀ r, r ∈ g → w_start r = s ∧ proper_row r.
Definition in_reach (s : Z) (h : hist) : bool := s - c_windows cfg * W <=? h_start h.
Definition window_ref (log : list hist) (g : Z * list row) : res (list hist * list dict) :=
  found ← score_all (λ _, List.filter (in_reach g.1) log) g.2; Ok (log ++ (hist_of <$> g.2), found).
Fixpoint windows_ref (log : list hist) (gs : list (Z * list row)) : res (list hist * list dict) :=
  match gs with
  | [] => Ok (log, [])
  | g :: gs => '(log, found) ← window_ref log g; '(log, more) ← windows_ref log gs; Ok (log, found ++ more)
  end.
Definition agree {A B} (R : A → B → Prop) (x : res (A * list dict)) (y : res (B * list dict)) : Prop :=
  match x, y with
  | Ok (a, f), Ok (b, g) => f = g ∧ R a b
  | Raise e, Raise e' => e = e'
  | _, _ => False
  end.
Lemma width_proper gs s g : proper_groups gs → (s, g) ∈ gs → width_of s g = W.
Proof. intros Hp Hg. destruct (Hp s g Hg) as [Hne Hm]. destruct g as [|r g]; [done|]. destruct (Hm r ltac:(by left)) as [<- Hr]. unfold width_of. unfold proper_row in Hr. lia. Qed.
(** The process keeps what is within reach of the last window. *)
Definition kept (lo : Z) (history log : list hist) : Prop := history = List.filter (in_reach lo) log.
Lemma windows_local_ref gs lo history log :
  ascending lo gs → proper_groups gs → kept lo history log →
  agree (λ h l, ∃ hi, (hi = lo ∨ ∃ g, g ∈ gs ∧ hi = g.1) ∧ kept hi h l)
    (windows_local history gs) (windows_ref log gs).
Proof.
  revert lo history log. induction gs as [|[s g] gs IH]; intros lo history log [Ha1 Ha2] Hp Hk; cbn [windows_local windows_ref].
  { split; [done|]. exists lo. split; [by left|done]. }
  inversion Ha1 as [|?? Hlo Ha1']; inversion Ha2 as [|?? Ha2' Hall]; subst. cbn in Hlo, Hall.
  unfold window_local, window_ref. rewrite (width_proper _ _ _ Hp ltac:(by left)). unfold kept in Hk. subst history.
  assert (Hf : List.filter (λ h, s - c_windows cfg * W <=? h_start h) (List.filter (in_reach lo) log) = List.filter (in_reach s) log).
  { unfold in_reach. rewrite filter_imp; [done|]. intros h. rewrite !Z.leb_le. lia. }
  rewrite Hf. cbn [fst snd]. destruct (score_all _ g) as [found|e]; [|done]. rewrite !bind_ok.
  specialize (IH s (List.filter (in_reach s) log ++ (hist_of <$> g)) (log ++ (hist_of <$> g))).
  assert (Hin : List.filter (in_reach s) (hist_of <$> g) = hist_of <$> g).
  { destruct (Hp s g ltac:(by left)) as [_ Hm]. clear -Hm Hcfg HW. induction g as [|r g IH]; [done|]. cbn. destruct (Hm r ltac:(by left)) as [Hr _].
    unfold in_reach at 1. cbn. rewrite (proj2 (Z.leb_le _ _)) by nia. f_equal. apply IH. intros r' Hr'. apply Hm. by right. }
  assert (IH' := IH ltac:(split; [apply Forall_forall; rewrite Forall_forall in Hall; intros x Hx; apply Hall; by apply list_elem_of_fmap_2|done])
     ltac:(intros s' g' Hg'; apply Hp; by right) ltac:(unfold kept; by rewrite List.filter_app, Hin)). clear IH.
  destruct (windows_local _ gs) as [[h1 f1]|e1], (windows_ref _ gs) as [[l1 f2]|e2]; cbn in *; try done.
  destruct IH' as (-> & hi & [->|(x & Hx & ->)] & H5); (split; [done|]).
  - exists s. split; [right; exists (s, g); split; [by left|done]|done].
  - exists x.1. split; [right; exists x; split; [by right|done]|done].
Qed.

(** *** The specification: each row against the rows of the whole run that are within reach *)

Definition row_score (all : list hist) (r : row) : res (option dict) := score (List.filter (in_reach (w_start r)) all) r.
Definition spec_findings (all : list hist) (rows : list row) : res (list dict) := found ← mapM (row_score all) rows; Ok (omap id found).
Lemma filter_none {A} (f : A → bool) l : (∀ x, x ∈ l → f x = false) → List.filter f l = [].
Proof using. induction l as [|x l IH]; intros H; [done|]. simpl. rewrite H by by left. apply IH. intros y Hy. apply H. by right. Qed.
Definition proper_hist (h : hist) : Prop := h_end h = h_start h + W.
Lemma score_later row hs later :
  (∀ h, h ∈ later → proper_hist h ∧ w_start row <= h_start h) → score (hs ++ later) row = score hs row.
Proof.
  intros Hl. unfold score. rewrite List.filter_app, (filter_none _ later), app_nil_r; [done|]. intros h Hh. destruct (Hl h Hh) as [He Hs].
  unfold relevant. rewrite (proj2 (Z.leb_gt _ _)), andb_false_r; [done|]. unfold proper_hist in He. lia.
Qed.
Lemma mapM_ext_in {A B} (f g : A → res B) l : (∀ x, x ∈ l → f x = g x) → mapM f l = mapM g l.
Proof using.
  induction l as [|x l IH]; intros H; [done|]. cbn. rewrite (H x) by by left. destruct (g x); [|done]. cbn. rewrite IH; [done|]. intros y Hy. apply H. by right.
Qed.
Lemma spec_findings_app all l l' : spec_findings all (l ++ l') = (f ← spec_findings all l; f' ← spec_findings all l'; Ok (f ++ f')).
Proof.
  unfold spec_findings. induction l as [|x l IH]; cbn.
  - by destruct (mapM _ l').
  - destruct (row_score all x) as [o|e]; cbn; [|done].
    destruct (mapM (row_score all) (l ++ l')) as [k|e], (mapM (row_score all) l) as [k1|e1], (mapM (row_score all) l') as [k2|e2]; cbn in *;
      try congruence; destruct o; cbn; congruence.
Qed.
Definition starts_after (gs : list (Z * list row)) (later : list hist) : Prop :=
  ∀ g h, g ∈ gs → h ∈ later → proper_hist h ∧ g.1 <= h_start h.
Definition group_rows (gs : list (Z * list row)) : list row := concat gs.*2.
Lemma group_rows_cons s g gs : group_rows ((s, g) :: gs) = g ++ group_rows gs.
Proof using. reflexivity. Qed.
Lemma group_rows_elem r gs : r ∈ group_rows gs ↔ ∃ s g, (s, g) ∈ gs ∧ r ∈ g.
Proof using.
  unfold group_rows. rewrite list_elem_of_In, in_concat. split.
  - intros (g & Hg & Hr). apply list_elem_of_In, list_elem_of_fmap in Hg as ([s g'] & -> & Hg). exists s, g'. split; [done|by apply list_elem_of_In].
  - intros (s & g & Hg & Hr). exists g. split; [|by apply list_elem_of_In]. apply list_elem_of_In. change g with ((s, g).2). by apply list_elem_of_fmap_2.
Qed.
Lemma windows_ref_spec lo gs log later :
  ascending lo gs → proper_groups gs → starts_after gs later →
  match windows_ref log gs, spec_findings (log ++ (hist_of <$> group_rows gs) ++ later) (group_rows gs) with
  | Ok (l, f), Ok f' => f = f' ∧ l = log ++ (hist_of <$> group_rows gs)
  | Raise e, Raise e' => e = e'
  | _, _ => False
  end.
Proof.
  revert lo log. induction gs as [|[s g] gs IH]; intros lo log [Ha1 Ha2] Hp Hl; cbn [windows_ref].
  { change (group_rows []) with (@nil row). cbn. by rewrite app_nil_r. }
  rewrite group_rows_cons.
  inversion Ha1 as [|?? Hlo Ha1']; inversion Ha2 as [|?? Ha2' Hall]; subst. cbn [fst snd] in *.
  destruct (Hp s g ltac:(by left)) as [_ Hg].
  assert (Hrest : ∀ h, h ∈ (hist_of <$> g ++ group_rows gs) ++ later → proper_hist h ∧ s <= h_start h).
  { intros h [Hh|Hh]%elem_of_app; [|apply (Hl (s, g)); [by left|done]]. apply list_elem_of_fmap in Hh as (r & -> & [Hr|Hr]%elem_of_app).
    - destruct (Hg r Hr) as [<- Hpr]. split; [exact Hpr|cbn; lia].
    - apply group_rows_elem in Hr as (s' & g'' & Hg' & Hr).
      destruct (Hp s' g'' ltac:(by right)) as [_ Hm]. destruct (Hm r Hr) as [E Hpr]. split; [exact Hpr|]. cbn. rewrite E.
      rewrite Forall_forall in Hall. apply Hall. change s' with (fst (s', g'')). by apply list_elem_of_fmap_2. }
  rewrite spec_findings_app. unfold window_ref, score_all. cbn [fst snd].
  assert (Hsc : mapM (row_score (log ++ (hist_of <$> g ++ group_rows gs) ++ later)) g = mapM (λ r, score (List.filter (in_reach s) log) r) g).
  { apply mapM_ext_in. intros r Hr. destruct (Hg r Hr) as [E _]. unfold row_score. rewrite E, List.filter_app. apply score_later.
    intros h Hh. apply list_elem_of_In, filter_In in Hh as [Hh _]. rewrite E. by apply Hrest, list_elem_of_In. }
  set (all := log ++ (hist_of <$> g ++ group_rows gs) ++ later) in *.
  assert (Hsf : spec_findings all g = (found ← mapM (λ r, score (List.filter (in_reach s) log) r) g; Ok (omap id found))) by by rewrite <- Hsc.
  rewrite Hsf. clear Hsc Hsf. subst all. destruct (mapM _ g) as [found|e]; [|done]. rewrite !bind_ok.
  specialize (IH s (log ++ (hist_of <$> g))).
  assert (IH' := IH ltac:(split; [apply Forall_forall; rewrite Forall_forall in Hall; intros x Hx; apply Hall; by apply list_elem_of_fmap_2|done])
     ltac:(intros s' g' Hg'; apply Hp; by right) ltac:(intros g' h Hg' Hh; apply Hl; [by right|done])). clear IH.
  rewrite fmap_app, <- !app_assoc in *. destruct (windows_ref _ gs) as [[l f]|e], (spec_findings _ (group_rows gs)) as [f'|e']; cbn in *; try done.
  by destruct IH' as [-> ->].
Qed.

(** *** Successive evaluations *)

Fixpoint local_calls (history : list hist) (calls : list (list row)) : res (list (list dict)) :=
  match calls with
  | [] => Ok []
  | rows :: calls => '(history, f) ← evaluate history rows; fs ← local_calls history calls; Ok (f :: fs)
  end.
Definition spec_calls (all : list hist) (calls : list (list row)) : res (list (list dict)) :=
  mapM (λ rows, spec_findings all (isort row_order rows)) calls.
Record proper_calls (calls : list (list row)) : Prop := {
  p_rows : ∀ r, r ∈ concat calls → proper_row r;
  p_ordered : ordered calls
}.
Lemma score_perm hs hs' r : hs ≡ₚ hs' → score hs r = score hs' r.
Proof. intros Hp. unfold score. by apply score_relevant_perm, bfilter_perm. Qed.
Lemma spec_findings_perm all all' rows : all ≡ₚ all' → spec_findings all rows = spec_findings all' rows.
Proof.
  intros Hp. unfold spec_findings. rewrite (mapM_ext_in (row_score all) (row_score all')); [done|]. intros r _. by apply score_perm, bfilter_perm.
Qed.
Lemma proper_calls_cons rows calls : proper_calls (rows :: calls) → proper_calls calls ∧
  (∀ r, r ∈ rows → proper_row r) ∧ (∀ r r', r ∈ rows → r' ∈ concat calls → w_end r <= w_start r').
Proof.
  intros [H1 H2]. split_and!.
  - split; [intros r Hr; apply H1; cbn; apply elem_of_app; by right|]. intros before b after r r' -> Hr Hr'.
    eapply (H2 (rows :: before) b after); [done| |done]. cbn. apply elem_of_app. by right.
  - intros r Hr. apply H1. cbn. apply elem_of_app. by left.
  - intros r r' Hr Hr'. apply list_elem_of_In, in_concat in Hr' as (b & Hb & Hr'). apply list_elem_of_In in Hb, Hr'.
    apply list_elem_of_split in Hb as (l1 & l2 & ->). eapply (H2 (rows :: l1) b l2); [done| |done]. cbn. apply elem_of_app. by left.
Qed.
Lemma groups_proper rows : (∀ r, r ∈ rows → proper_row r) → proper_groups (group_starts (isort row_order rows)).
Proof.
  intros Hp s g Hg. apply group_members in Hg as [Hne Hm]. split; [done|]. intros r Hr. destruct (Hm r Hr) as [-> Hin]. split; [done|].
  by apply Hp, (elem_of_isort row_order).
Qed.
Lemma group_rows_sorted rows : group_rows (group_starts (isort row_order rows)) = isort row_order rows.
Proof. apply group_concat. Qed.
Lemma later_starts rows calls : proper_calls (rows :: calls) → starts_after (group_starts (isort row_order rows)) (hist_of <$> concat calls).
Proof.
  intros Hp [s g] h Hg Hh. apply proper_calls_cons in Hp as ([Hp1 _] & Hp2 & Hp3). apply list_elem_of_fmap in Hh as (r' & -> & Hr'). split; [exact (Hp1 r' Hr')|].
  apply group_members in Hg as [Hne Hm]. destruct g as [|r g]; [done|]. destruct (Hm r ltac:(by left)) as [<- Hr]. apply elem_of_isort in Hr. cbn.
  specialize (Hp3 r r' Hr Hr'). specialize (Hp2 r Hr). unfold proper_row in Hp2. lia.
Qed.
Lemma calls_perm log rows (calls : list (list row)) :
  log ++ (hist_of <$> isort row_order rows) ++ (hist_of <$> concat calls) ≡ₚ log ++ (hist_of <$> concat (rows :: calls)).
Proof. cbn [concat]. rewrite fmap_app. by rewrite isort_perm. Qed.
Lemma local_calls_spec calls lo history log :
  (∀ r, r ∈ concat calls → lo <= w_start r) → proper_calls calls → kept lo history log →
  local_calls history calls = spec_calls (log ++ (hist_of <$> concat calls)) calls.
Proof.
  revert lo history log. induction calls as [|rows calls IH]; intros lo history log Hlo Hp Hk; [done|].
  destruct (proper_calls_cons _ _ Hp) as (Hp1 & Hp2 & Hp3).
  assert (Hasc : ascending lo (group_starts (isort row_order rows))) by (apply group_ascending; intros r Hr; apply Hlo; cbn; apply elem_of_app; by left).
  pose proof (windows_local_ref _ lo history log Hasc (groups_proper rows Hp2) Hk) as H1.
  pose proof (windows_ref_spec lo _ log _ Hasc (groups_proper rows Hp2) (later_starts _ _ Hp)) as H2.
  rewrite group_rows_sorted in H2. rewrite (spec_findings_perm _ _ _ (calls_perm log rows calls)) in H2.
  cbn [local_calls]. unfold spec_calls. cbn [mapM]. fold (spec_calls (log ++ (hist_of <$> concat (rows :: calls))) calls). unfold evaluate.
  destruct (windows_local history _) as [[h f]|e], (windows_ref log _) as [[l f1]|e1]; try done.
  - destruct H1 as (-> & hi & Hhi & Hkept). destruct (spec_findings _ _) as [f2|e2]; [|done]. destruct H2 as [-> ->]. cbn.
    rewrite (IH hi h (log ++ (hist_of <$> isort row_order rows))); [| |done|done].
    + assert (E : spec_calls ((log ++ (hist_of <$> isort row_order rows)) ++ (hist_of <$> concat calls)) calls
                  = spec_calls (log ++ (hist_of <$> concat (rows :: calls))) calls).
      { apply mapM_ext_in. intros x _. apply spec_findings_perm. by rewrite <- app_assoc, calls_perm. }
      rewrite E. by destruct (spec_calls _ calls).
    + intros r' Hr'. destruct Hhi as [->|([s g] & Hg & ->)]; [apply Hlo; cbn; apply elem_of_app; by right|].
      apply group_members in Hg as [Hne Hm]. destruct g as [|r g]; [done|]. destruct (Hm r ltac:(by left)) as [<- Hr]. apply elem_of_isort in Hr. cbn.
      specialize (Hp3 r r' Hr Hr'). specialize (Hp2 r Hr). unfold proper_row in Hp2. lia.
  - cbn in H1. subst e1. destruct (spec_findings _ _) as [f2|e2]; [done|]. by subst.
Qed.
Lemma starts_bound (l : list row) : ∃ lo, ∀ r, r ∈ l → lo <= w_start r.
Proof using.
  induction l as [|r l [lo IH]]; [exists 0; intros r Hr; by apply elem_of_nil in Hr|].
  exists (Z.min lo (w_start r)). intros r' [->|Hr']%elem_of_cons; [lia|]. specialize (IH r' Hr'). lia.
Qed.
Lemma local_exact calls : proper_calls calls → local_calls [] calls = spec_calls (hist_of <$> concat calls) calls.
Proof. intros Hp. destruct (starts_bound (concat calls)) as [lo Hlo]. by apply (local_calls_spec calls lo [] []). Qed.

(** *** The shared store holds what the processes learned *)

Lemma key_start_of h : key_start (history_key h) = Ok (h_start h).
Proof.
  unfold key_start, history_key. rewrite <- !sapp_assoc, rev_sapp, rev_sapp.
  change (String.rev ":" +:+ ?x) with (String ":" x). rewrite cut_at_app.
  - by rewrite rev_rev, parse_int_pretty_Z.
  - fold (no_colon (String.rev (pretty (h_start h)))). rewrite no_colon_rev. apply pretty_Z_no_colon.
Qed.
Lemma hist_of_hist_val h : hist_of_val (hist_val h) = Ok h.
Proof. by destruct h. Qed.

Lemma NoDup_bfilter {A} (f : A → bool) (l : list A) : NoDup l → NoDup (List.filter f l).
Proof using. intros H. eapply sublist_NoDup; [exact H|]. apply filter_sublist. Qed.
Section shared.
Context (U : list row).
(** The keys of the run's rows do not collide, and their values survive the text form. *)
Hypothesis Hkeys : ∀ r r', r ∈ U → r' ∈ U → history_key (hist_of r) = history_key (hist_of r') → r = r'.
Hypothesis Hjson : ∀ r, r ∈ U → loads (dumps (hist_val (hist_of r))) = Ok (hist_val (hist_of r)).
#[local] Set Default Proof Using "HW Hcfg Hkeys Hjson".
Definition row_hist_key (r : row) : string := history_key (hist_of r).
Definition lives_until (s : mem_store) (r : row) (e : Z) : Prop :=
  c_kv (cell_at s (row_hist_key r)) = Some (dumps (hist_val (hist_of r)), e) ∧ (w_end r + c_retention cfg) * 1000000 <= e.
(** The store holds the rows [done] and nothing else. *)
Record stored (learned : list row) (s : mem_store) : Prop := {
  st_rows : ∀ r, r ∈ learned → ∃ e, lives_until s r e;
  st_only : ∀ k, cell_at s k = empty_cell ∨ ∃ r, r ∈ learned ∧ k = row_hist_key r;
  st_from : ∀ r, r ∈ learned → r ∈ U ∧ proper_row r;
  st_nodup : NoDup learned
}.
Definition fetchable (now lo hi : Z) (r : row) : bool := (lo <=? w_start r) && (w_start r <? hi).
Lemma lookup_cell_at (s : mem_store) k c v : cell_at s k = c → c_kv c = Some v → s !! k = Some c.
Proof using. unfold cell_at. destruct (s !! k); cbn; [congruence|]. intros <-. done. Qed.
Lemma kv_read_live now r (s : mem_store) e : lives_until s r e → now < e → kv_read now (row_hist_key r) s = (s, Some (dumps (hist_val (hist_of r)))).
Proof using.
  unfold lives_until. generalize (row_hist_key r) as k. intros k [H _] Hlt. unfold kv_read. cbn. unfold kv_get, kv_live. rewrite H. rewrite (proj2 (Z.ltb_lt _ _) Hlt). f_equal. unfold put_cell.
  apply insert_id. by eapply lookup_cell_at.
Qed.
Lemma read_rows_spec now lo hi rs (s : mem_store) :
  (∀ r, r ∈ rs → r ∈ U) → (∀ r, r ∈ rs → fetchable now lo hi r = true → ∃ e, lives_until s r e ∧ now < e) →
  read_rows now lo hi (row_hist_key <$> rs) s = Ok (s, hist_of <$> List.filter (fetchable now lo hi) rs).
Proof.
  intros HU Hl. induction rs as [|r rs IH]; [done|]. cbn [fmap list_fmap read_rows].
  change (key_start (row_hist_key r)) with (key_start (history_key (hist_of r))). rewrite key_start_of. cbn [List.filter].
  rewrite bind_ok. change (h_start (hist_of r)) with (w_start r). fold (fetchable now lo hi r).
  specialize (IH ltac:(intros r' Hr'; apply HU; by right) ltac:(intros r' Hr'; apply Hl; by right)).
  destruct (fetchable now lo hi r) eqn:Ef; [|exact IH]. destruct (Hl r ltac:(by left) Ef) as (e & He & Hlt). rewrite (kv_read_live _ _ _ _ He Hlt).
  rewrite Hjson by (apply HU; by left). rewrite bind_ok, hist_of_hist_val, bind_ok.
  fold (fmap row_hist_key : list row → list string). rewrite IH. done.
Qed.
Lemma named_rows (learned : list row) (s : mem_store) (ks : list string) : stored learned s → (∀ k, k ∈ ks → cell_at s k ≠ empty_cell) → ∃ rs : list row, ks = row_hist_key <$> rs ∧ ∀ r, r ∈ rs → r ∈ learned.
Proof using.
  intros Hs. induction ks as [|k ks IH]; intros Hk; [exists []; split; [done|intros r Hr; by apply elem_of_nil in Hr]|].
  destruct IH as (rs & -> & Hrs); [intros k' Hk'; apply Hk; by right|]. destruct (st_only _ _ Hs k) as [He|(r & Hr & ->)]; [exfalso; apply (Hk k); [by left|done]|].
  exists (r :: rs). split; [done|]. intros r' [->|Hr']%elem_of_cons; [done|by apply Hrs].
Qed.
Lemma stored_history_spec now r learned s :
  stored learned s → r ∈ U → proper_row r → now < (w_start r - c_windows cfg * W + W + c_retention cfg) * 1000000 →
  ∃ hs, _stored_history now r s = Ok (s, hs) ∧
    ∀ q, w_start q = w_start r → proper_row q → history_prefix q = history_prefix r →
      score hs q = score (List.filter (in_reach (w_start q)) (hist_of <$> learned)) q.
Proof.
  intros Hs Hr Hpr Hnow. unfold _stored_history, st_strs. cbn [ws_step in_memory strs].
  set (ks := keys_matching now (history_prefix r) s). unfold proper_row in Hpr.
  replace (w_end r - w_start r) with W by lia. set (lo := w_start r - c_windows cfg * W) in *.
  assert (Hne : ∀ k, k ∈ ks → cell_at s k ≠ empty_cell).
  { intros k Hk E. apply keys_matching_elem in Hk as [_ Hk]. rewrite E in Hk. done. }
  destruct (named_rows _ _ _ Hs Hne) as (rs & Eks & Hrs). rewrite Eks.
  assert (Hlive : ∀ q, q ∈ learned → fetchable now lo (w_start r) q = true → ∃ e, lives_until s q e ∧ now < e).
  { intros q Hq Hf. destruct (st_rows _ _ Hs _ Hq) as (e & He). exists e. split; [done|]. destruct He as [_ He]. unfold fetchable in Hf. to_prop.
    destruct (st_from _ _ Hs _ Hq) as [_ Hpq]. unfold proper_row in Hpq. nia. }
  eexists. split; [apply read_rows_spec|].
  - intros q Hq. by apply (st_from _ _ Hs), Hrs.
  - intros q Hq. by apply Hlive, Hrs.
  - intros q Hst Hpq Hpre. unfold score. apply score_relevant_perm. unfold relevant.
    assert (Hnd : NoDup rs) by (apply (NoDup_fmap_1 row_hist_key); rewrite <- Eks; apply keys_matching_NoDup).
    assert (Hf : ∀ (f : hist → bool) (l : list row), List.filter f (hist_of <$> l) = hist_of <$> List.filter (λ x, f (hist_of x)) l).
    { clear. intros f l. induction l as [|x l IH]; [done|]. cbn. destruct (f (hist_of x)); cbn; by rewrite IH. }
    rewrite !Hf. apply fmap_Permutation. apply NoDup_Permutation; [by repeat apply NoDup_bfilter|repeat apply NoDup_bfilter; apply (st_nodup _ _ Hs)|].
    intros x. rewrite !list_elem_of_In, !filter_In, <- !list_elem_of_In. cbn. rewrite !andb_true_iff, !String.eqb_eq, !Z.leb_le. unfold fetchable, in_reach. cbn.
    rewrite !andb_true_iff, !Z.leb_le, !Z.ltb_lt, Hst. fold lo. split.
    + intros [(Hx & H1 & H2) H3]. split; [split; [by apply Hrs|done]|done].
    + intros [(Hx & H1) [[H2 H3] H4]]. destruct (st_from _ _ Hs _ Hx) as [_ Hpx]. unfold proper_row in Hpx.
      assert (Hfx : fetchable now lo (w_start r) x = true) by (unfold fetchable; rewrite andb_true_iff, Z.leb_le, Z.ltb_lt; lia).
      split; [split; [|split; lia]|by split; [split|]]. destruct (Hlive x Hx Hfx) as (e & [He _] & Hlt).
      assert (Hk : row_hist_key x ∈ ks).
      { apply keys_matching_elem. split.
        - rewrite <- Hpre. unfold row_hist_key, history_key, history_prefix. cbn. rewrite H2, H3. apply starts_with_app.
        - unfold listed_cell. rewrite He. rewrite (proj2 (Z.ltb_lt _ _) Hlt). by rewrite orb_true_r. }
      rewrite Eks in Hk. apply list_elem_of_fmap in Hk as (y & Ey & Hy). assert (x = y) as ->; [|done].
      apply Hkeys; [by apply (st_from _ _ Hs)|by apply (st_from _ _ Hs), Hrs|done].
Qed.
(** The clock of an evaluation is early enough for the history a row needs. *)
Definition within_retention (now : Z) (r : row) : Prop := now < (w_start r - c_windows cfg * W + W + c_retention cfg) * 1000000.
Lemma ceil_ms_ge ttl : ttl <= ceil_ms ttl.
Proof using. unfold ceil_ms. pose proof (Z.div_mod (- ttl) 1000). pose proof (Z.mod_pos_bound (- ttl) 1000). lia. Qed.
Lemma learn_stored now r learned s :
  stored learned s → r ∈ U → proper_row r → r ∉ learned → within_retention now r → stored (learned ++ [r]) (_learn now r s).
Proof.
  intros Hs Hr Hpr Hnew Hret. unfold within_retention, proper_row in *.
  assert (Hempty : cell_at s (row_hist_key r) = empty_cell).
  { destruct (st_only _ _ Hs (row_hist_key r)) as [|(q & Hq & E)]; [done|].
    assert (r = q) as ->; [|done]. apply Hkeys; [done|by apply (st_from _ _ Hs)|done]. }
  unfold _learn. fold (row_hist_key r). set (ttl := (w_end r + c_retention cfg) * 1000000 - now).
  assert (Httl : 0 < ttl) by (unfold ttl; nia).
  assert (E : st_do now (o_kv_set_once (row_hist_key r) (dumps (hist_val (hist_of r))) ttl) s =
              put_cell (row_hist_key r) (set_kv (Some (dumps (hist_val (hist_of r)), now + ceil_ms ttl)) empty_cell) s).
  { unfold st_do. cbn [ws_step in_memory op_key cell_op]. rewrite Hempty. unfold kv_set_once. rewrite (proj2 (Z.leb_gt _ _) Httl). done. }
  rewrite E. pose proof (ceil_ms_ge ttl) as Hc. split.
  - intros q [Hq|Hq]%elem_of_app.
    + destruct (st_rows _ _ Hs _ Hq) as (e & He). exists e. unfold lives_until in *. rewrite cell_at_put, decide_False; [done|].
      intros Ek. assert (q = r) as ->; [|done]. apply Hkeys; [by apply (st_from _ _ Hs)|done|done].
    + apply list_elem_of_singleton in Hq as ->. exists (now + ceil_ms ttl). unfold lives_until. rewrite cell_at_put, decide_True by done. split; [done|]. unfold ttl in *. lia.
  - intros k. rewrite cell_at_put. destruct (decide (k = row_hist_key r)) as [->|Hne].
    + right. exists r. split; [|done]. apply elem_of_app. right. by left.
    + destruct (st_only _ _ Hs k) as [|(q & Hq & ->)]; [by left|right]. exists q. split; [|done]. apply elem_of_app. by left.
  - intros q [Hq|Hq]%elem_of_app; [by apply (st_from _ _ Hs)|]. by apply list_elem_of_singleton in Hq as ->.
  - apply NoDup_app. split_and!; [apply Hs| |apply NoDup_singleton]. intros q Hq Hq'. apply list_elem_of_singleton in Hq' as ->. done.
Qed.
Lemma batch_stored now batch learned s :
  stored learned s → (∀ r, r ∈ batch → r ∈ U ∧ proper_row r ∧ within_retention now r) → NoDup (learned ++ batch) →
  stored (learned ++ batch) (foldl (λ s r, _learn now r s) s batch).
Proof.
  revert learned s. induction batch as [|r batch IH]; intros learned s Hs Hb Hnd; [by rewrite app_nil_r|]. cbn [foldl].
  destruct (Hb r ltac:(by left)) as (H1 & H2 & H3). rewrite (cons_middle r learned batch), app_assoc in *. apply IH; [|intros q Hq; apply Hb; by right|done].
  apply learn_stored; try done. intros Hin. rewrite <- app_assoc in Hnd. apply NoDup_app in Hnd as (_ & Hd & _). apply (Hd r Hin). by left.
Qed.
Definition faithful (learned : list row) (start : Z) (snap : list (string * list hist)) : Prop :=
  ∀ q hs, w_start q = start → proper_row q → od_get (history_prefix q) snap = Some hs →
    score hs q = score (List.filter (in_reach start) (hist_of <$> learned)) q.
Lemma snapshot_spec now batch start learned s seen :
  stored learned s → (∀ r, r ∈ batch → r ∈ U ∧ proper_row r ∧ within_retention now r ∧ w_start r = start) → faithful learned start seen →
  ∃ snap, snapshot now batch seen s = Ok (s, snap) ∧ faithful learned start snap ∧
    (∀ k, is_Some (od_get k seen) → is_Some (od_get k snap)) ∧ ∀ r, r ∈ batch → is_Some (od_get (history_prefix r) snap).
Proof.
  revert seen. induction batch as [|r batch IH]; intros seen Hs Hb Hf; cbn [snapshot].
  { exists seen. split_and!; [done|done|done|]. intros r Hr. by apply elem_of_nil in Hr. }
  destruct (Hb r ltac:(by left)) as (H1 & H2 & H3 & H4). assert (Hb' := λ q Hq, Hb q (list_elem_of_further _ _ _ Hq)).
  destruct (od_get (history_prefix r) seen) as [hs|] eqn:Eg.
  - destruct (IH seen Hs Hb' Hf) as (snap & E1 & E2 & E3 & E4). exists snap. split_and!; [done|done|done|].
    intros q [->|Hq]%elem_of_cons; [apply E3; by rewrite Eg|by apply E4].
  - destruct (stored_history_spec now r learned s Hs H1 H2 H3) as (hs & Eh & Hsc). rewrite Eh, bind_ok.
    destruct (IH (od_set (history_prefix r) hs seen) Hs Hb') as (snap & E1 & E2 & E3 & E4).
    { intros q hs' Hq Hpq. rewrite od_get_set. destruct (decide (history_prefix q = history_prefix r)) as [E|E]; [|by apply Hf].
      intros [= <-]. rewrite <- Hq. apply Hsc; [congruence|done|done]. }
    exists snap. split_and!; [done|done| |].
    + intros k Hk. apply E3. rewrite od_get_set. by destruct (decide _).
    + intros q [->|Hq]%elem_of_cons; [|by apply E4]. apply E3. rewrite od_get_set, decide_True by done. done.
Qed.
Definition ready (now : Z) (r : row) : Prop := r ∈ U ∧ proper_row r ∧ within_retention now r.
Lemma windows_shared_ref now gs learned s :
  stored learned s → proper_groups gs → (∀ r, r ∈ group_rows gs → ready now r) → NoDup (learned ++ group_rows gs) →
  agree (λ s l, l = hist_of <$> (learned ++ group_rows gs) ∧ stored (learned ++ group_rows gs) s)
    (windows_shared now s gs) (windows_ref (hist_of <$> learned) gs).
Proof.
  revert learned s. induction gs as [|[st g] gs IH]; intros learned s Hs Hp Hu Hnd; cbn [windows_shared windows_ref].
  { change (group_rows []) with (@nil row). rewrite app_nil_r. by split. }
  rewrite group_rows_cons in *. destruct (Hp st g ltac:(by left)) as [_ Hg].
  assert (Hready : ∀ r, r ∈ g → r ∈ U ∧ proper_row r ∧ within_retention now r ∧ w_start r = st).
  { intros r Hr. destruct (Hu r ltac:(apply elem_of_app; by left)) as (? & ? & ?). destruct (Hg r Hr). done. }
  destruct (snapshot_spec now g st learned s [] Hs Hready) as (snap & Esn & Hf & _ & Hall); [by intros q hs _ _|].
  unfold window_shared, window_ref. rewrite Esn, bind_ok. cbn [fst snd]. unfold score_all.
  rewrite (mapM_ext_in _ (λ r, score (List.filter (in_reach st) (hist_of <$> learned)) r)).
  2:{ intros r Hr. destruct (Hall r Hr) as [hs Ehs]. rewrite Ehs. cbn. destruct (Hready r Hr) as (_ & Hpr & _ & Hst). by apply Hf. }
  destruct (mapM _ g) as [found|e]; [|done]. rewrite !bind_ok. rewrite app_assoc in *.
  assert (Hs' : stored (learned ++ g) (foldl (λ s r, _learn now r s) s g)).
  { apply batch_stored; [done| |by apply NoDup_app in Hnd as [? _]]. intros r Hr. destruct (Hready r Hr) as (? & ? & ? & _). done. }
  specialize (IH (learned ++ g) _ Hs' ltac:(intros s' g' Hg'; apply Hp; by right) ltac:(intros r Hr; apply Hu; apply elem_of_app; by right) Hnd).
  rewrite <- fmap_app. destruct (windows_shared now _ gs) as [[s1 f1]|e1], (windows_ref _ gs) as [[l f2]|e2]; try done.
  by destruct IH as (-> & -> & IH).
Qed.
Fixpoint shared_calls (s : mem_store) (calls : list (Z * list row)) : res (list (list dict)) :=
  match calls with
  | [] => Ok []
  | (now, rows) :: calls => '(s, f) ← evaluate_shared now s rows; fs ← shared_calls s calls; Ok (f :: fs)
  end.
Lemma sorted_stored learned rows s : stored (learned ++ isort row_order rows) s → stored (learned ++ rows) s.
Proof using.
  intros [H1 H2 H3 H4]. assert (Hp : learned ++ isort row_order rows ≡ₚ learned ++ rows) by by rewrite isort_perm. split.
  - intros r Hr. apply H1. by rewrite Hp.
  - intros k. destruct (H2 k) as [|(r & Hr & ->)]; [by left|right]. exists r. split; [by rewrite <- Hp|done].
  - intros r Hr. apply H3. by rewrite Hp.
  - by rewrite <- Hp.
Qed.
Lemma shared_calls_spec calls lo learned s :
  (∀ r, r ∈ concat calls.*2 → lo <= w_start r) → proper_calls calls.*2 → stored learned s → NoDup (learned ++ concat calls.*2) →
  (∀ now rows r, (now, rows) ∈ calls → r ∈ rows → ready now r) →
  shared_calls s calls = spec_calls ((hist_of <$> learned) ++ (hist_of <$> concat calls.*2)) calls.*2.
Proof.
  revert learned s. induction calls as [|[now rows] calls IH]; intros learned s Hlo Hp Hs Hnd Hready; [done|].
  change (((now, rows) :: calls).*2) with (rows :: calls.*2) in *. destruct (proper_calls_cons _ _ Hp) as (Hp1 & Hp2 & Hp3).
  assert (Hasc : ascending lo (group_starts (isort row_order rows))) by (apply group_ascending; intros r Hr; apply Hlo; cbn; apply elem_of_app; by left).
  cbn [concat] in Hnd. rewrite app_assoc in Hnd. assert (Hnd1 : NoDup (learned ++ isort row_order rows)).
  { apply NoDup_app in Hnd as [Hnd _]. by rewrite isort_perm. }
  pose proof (windows_shared_ref now (group_starts (isort row_order rows)) learned s Hs (groups_proper rows Hp2)) as H1. rewrite group_rows_sorted in H1.
  specialize (H1 ltac:(intros r Hr; apply (Hready now rows); [by left|by apply (elem_of_isort row_order)]) Hnd1).
  pose proof (windows_ref_spec lo _ (hist_of <$> learned) _ Hasc (groups_proper rows Hp2) (later_starts _ _ Hp)) as H2.
  rewrite group_rows_sorted in H2. rewrite (spec_findings_perm _ _ _ (calls_perm (hist_of <$> learned) rows calls.*2)) in H2.
  cbn [shared_calls]. unfold spec_calls. cbn [mapM]. fold (spec_calls ((hist_of <$> learned) ++ (hist_of <$> concat (rows :: calls.*2))) calls.*2). unfold evaluate_shared.
  destruct (windows_shared now s _) as [[s1 f]|e], (windows_ref (hist_of <$> learned) _) as [[l f1]|e1]; try done.
  - destruct H1 as (-> & _ & Hs1). apply sorted_stored in Hs1. destruct (spec_findings _ _) as [f2|e2]; [|done]. destruct H2 as [-> _]. cbn.
    rewrite (IH (learned ++ rows) s1); [|intros r Hr; apply Hlo; cbn; apply elem_of_app; by right|done|done|done|intros now' rows' r Hin Hr; by apply (Hready now' rows'); [right|]].
    assert (E : spec_calls ((hist_of <$> (learned ++ rows)) ++ (hist_of <$> concat calls.*2)) calls.*2
                = spec_calls ((hist_of <$> learned) ++ (hist_of <$> concat (rows :: calls.*2))) calls.*2).
    { cbn [concat]. by rewrite !fmap_app, <- app_assoc. }
    rewrite E. by destruct (spec_calls _ calls.*2).
  - cbn in H1. subst e1. destruct (spec_findings _ _) as [f2|e2]; [done|]. by subst.
Qed.
End shared.

(** The shared history answers as the local one.  Whatever rows the windows close with, the
    findings of every evaluation, and its errors, are those of the specification that scores
    each row against the rows of the run that end by its start and reach back at most the
    configured number of windows, whether the history is kept in the process or in the store
    that replicas share; the store's version needs that no two rows share a key, that values
    survive their text form, and that rows are evaluated within the retention. *)
Theorem shared_history_agrees (calls : list (Z * list row)) :
  let rows := concat calls.*2 in
  proper_calls calls.*2 → NoDup rows →
  (∀ r r', r ∈ rows → r' ∈ rows → history_key (hist_of r) = history_key (hist_of r') → r = r') →
  (∀ r, r ∈ rows → loads (dumps (hist_val (hist_of r))) = Ok (hist_val (hist_of r))) →
  (∀ now batch r, (now, batch) ∈ calls → r ∈ batch → within_retention now r) →
  local_calls [] calls.*2 = spec_calls (hist_of <$> rows) calls.*2 ∧ shared_calls ∅ calls = spec_calls (hist_of <$> rows) calls.*2.
Proof.
  intros rows Hp Hnd Hkeys Hjson Hret. split; [by apply local_exact|]. destruct (starts_bound rows) as [lo Hlo].
  apply (shared_calls_spec rows Hkeys Hjson calls lo [] ∅); [done|done| |done|].
  - split; [intros r Hr; by apply elem_of_nil in Hr|by left|intros r Hr; by apply elem_of_nil in Hr|apply NoDup_nil_2].
  - intros now batch r Hb Hr. assert (Hin : r ∈ rows).
    { apply list_elem_of_In, in_concat. exists batch. split; [|by apply list_elem_of_In]. apply list_elem_of_In. change batch with ((now, batch).2). by apply list_elem_of_fmap_2. }
    split_and!; [done|by apply (p_rows _ Hp)|by apply (Hret now batch)].
Qed.

(** *** Tenants *)

Definition finding_of (tenant : string) (f : dict) : bool := val_eq_str (dgetN "tenant_id" f) tenant.
Lemma score_tenant r f hs : score hs r = Ok (Some f) → dgetN "tenant_id" f = VStr (w_tenant r).
Proof using.
  unfold score, score_relevant. intros H. apply bind_ok_inv in H as (own & _ & H). apply bind_ok_inv in H as (peer & _ & H).
  apply bind_ok_inv in H as (ds & _ & H). apply bind_ok_inv in H as (dp & _ & H). destruct dp as [|[n p] dp]; [done|].
  destruct (SFleb _ _); [done|]. destruct (finding _ _ _ _ _ _) as [g|] eqn:Ef; [|done]. injection H as ->. unfold finding in Ef.
  apply bind_ok_inv in Ef as (why & _ & Ef). apply bind_ok_inv in Ef as (x & _ & Ef). apply bind_ok_inv in Ef as (y & _ & Ef).
  injection Ef as <-. reflexivity.
Qed.
Lemma filter_comm {A} (f g : A → bool) l : List.filter f (List.filter g l) = List.filter g (List.filter f l).
Proof using. induction l as [|x l IH]; [done|]. cbn. destruct (g x) eqn:Eg, (f x) eqn:Ef; cbn; rewrite ?Eg, ?Ef, IH; done. Qed.
Lemma row_score_tenant tenant all r :
  row_of_tenant tenant r = true → row_score (List.filter (λ h, String.eqb (h_tenant h) tenant) all) r = row_score all r.
Proof using.
  intros Hr. unfold row_score, score. f_equal. rewrite (filter_comm (in_reach _)). apply filter_imp. intros h Hh.
  unfold relevant in Hh. rewrite !andb_true_iff, !String.eqb_eq in Hh. unfold row_of_tenant in Hr. apply String.eqb_eq in Hr. apply String.eqb_eq. destruct Hh as [[-> _] _]. done.
Qed.
Lemma spec_findings_tenant tenant all rows fs :
  spec_findings all rows = Ok fs →
  spec_findings (List.filter (λ h, String.eqb (h_tenant h) tenant) all) (List.filter (row_of_tenant tenant) rows) = Ok (List.filter (finding_of tenant) fs).
Proof using.
  unfold spec_findings. revert fs. induction rows as [|r rows IH]; intros fs H; [by injection H as <-|]. cbn [mapM] in H.
  apply bind_ok_inv in H as (k & Hk & H). cbn in Hk. apply bind_ok_inv in Hk as (o & Ho & Hk). apply bind_ok_inv in Hk as (os & Hos & Hk). injection Hk as <-. injection H as <-.
  specialize (IH (omap id os)). rewrite Hos in IH. specialize (IH eq_refl). apply bind_ok_inv in IH as (k & Hk & IH). injection IH as IH.
  assert (Ht : ∀ f, o = Some f → finding_of tenant f = row_of_tenant tenant r).
  { intros f ->. unfold row_score in Ho. apply score_tenant in Ho. unfold finding_of, row_of_tenant. by rewrite Ho. }
  cbn [List.filter]. destruct (row_of_tenant tenant r) eqn:Er.
  - cbn. rewrite row_score_tenant, Ho by done. cbn. rewrite Hk. cbn. f_equal. destruct o as [f|]; cbn; rewrite IH; [by rewrite (Ht f)|done].
  - rewrite Hk. cbn. f_equal. destruct o as [f|]; cbn; rewrite IH; [by rewrite (Ht f)|done].
Qed.
Lemma filter_hist tenant rows : List.filter (λ h, String.eqb (h_tenant h) tenant) (hist_of <$> rows) = hist_of <$> List.filter (row_of_tenant tenant) rows.
Proof using. induction rows as [|r rows IH]; [done|]. cbn. unfold row_of_tenant at 1. destruct (String.eqb _ _); cbn; by rewrite IH. Qed.
Lemma filter_concat {A} (p : A → bool) (ls : list (list A)) : concat (List.filter p <$> ls) = List.filter p (concat ls).
Proof using. induction ls as [|l ls IH]; [done|]. cbn. by rewrite List.filter_app, <- IH. Qed.
Lemma ordered_filter (p : row → bool) calls : ordered calls → ordered (List.filter p <$> calls).
Proof using.
  intros Ho before b after r r' E Hr Hr'. assert (E' := E). apply fmap_app_inv in E as (l1 & l2 & -> & E2 & ->). symmetry in E2.
  apply fmap_cons_inv in E2 as (b' & l3 & -> & -> & ->). rewrite filter_concat in Hr. apply list_elem_of_In, filter_In in Hr as [Hr _], Hr' as [Hr' _].
  apply list_elem_of_In in Hr, Hr'. by eapply (Ho l1 b' l3).
Qed.
Lemma local_calls_tenant tenant calls fs :
  proper_calls calls → local_calls [] calls = Ok fs →
  local_calls [] (List.filter (row_of_tenant tenant) <$> calls) = Ok (List.filter (finding_of tenant) <$> fs).
Proof.
  intros Hp H. rewrite local_exact in H by done.
  assert (Hp' : proper_calls (List.filter (row_of_tenant tenant) <$> calls)).
  { split; [|by apply ordered_filter, Hp]. intros r Hr. rewrite filter_concat in Hr. apply list_elem_of_In, filter_In in Hr as [Hr _]. apply list_elem_of_In in Hr. by apply (p_rows _ Hp). }
  rewrite (local_exact _ Hp'), filter_concat, <- filter_hist. unfold spec_calls in *. clear Hp Hp'. revert fs H.
  generalize (hist_of <$> concat calls) as all. intros all. induction calls as [|rows calls IH]; intros fs H; [by injection H as <-|]. cbn in H.
  apply bind_ok_inv in H as (f & Hf & H). apply bind_ok_inv in H as (fs' & Hfs & H). injection H as <-. cbn. rewrite isort_filter, (spec_findings_tenant _ _ _ _ Hf). cbn.
  by rewrite (IH _ Hfs).
Qed.

Lemma run_proper ip_address subnet es tr : run ip_address subnet W es start_trace = Ok tr → proper_calls (t_batches tr).
Proof using HW.
  intros H. pose proof (extract_ok ip_address subnet W HW _ _ _ (extract_start_ok subnet W HW) H) as Hok. split; [|apply (k_ordered _ _ _ Hok)].
  intros r Hr. by apply (out_well_formed subnet W HW _ _ Hok) in Hr as [? _].
Qed.

(** C37. A tenant's findings are its own.  Take any run of the extractor and the model, with
    the history it keeps itself, over any observations and watermarks given to it, that
    succeeds.  The same run without the observations of the other tenants gives, evaluation
    by evaluation, exactly the tenant's findings of the full run, in the same order and with
    the same content: no volume, peer or window of another tenant raises, hides or changes
    a finding. *)
Theorem tenants_isolated ip_address subnet tenant es tr fs :
  run ip_address subnet W es start_trace = Ok tr → local_calls [] (t_batches tr) = Ok fs →
  ∃ tr', run ip_address subnet W (List.filter (concerns ip_address tenant) es) start_trace = Ok tr' ∧
    local_calls [] (t_batches tr') = Ok (List.filter (finding_of tenant) <$> fs).
Proof.
  intros H Hf. destruct (extract_tenant ip_address subnet W HW tenant es start_trace start_trace tr) as (tr' & H' & Hb); [by apply extract_start_ok|by split|done|done|].
  exists tr'. split; [done|]. rewrite Hb. apply local_calls_tenant; [by eapply run_proper|done].
Qed.
End model.

(** ** A run: two peers and a host, three quiet windows, then one loud window of the host. *)

Definition demo_row (start : Z) (entity : string) (bytes : Z) : row :=
  {| w_tenant := "t"; w_entity := entity; w_start := start; w_end := start + 300; w_bytes := bytes; w_subnet := "10.0.0.0/24";
     w_refs := [entity]; w_sensors := ["s"]; w_methods := [VStr "ingest"] |}.
Definition quiet (start : Z) : list row := [demo_row start "10.0.0.1" 1000; demo_row start "10.0.0.2" 1100; demo_row start "10.0.0.3" 900].
Definition demo_calls : list (Z * list row) :=
  [(1000000000, quiet 0); (1300000000, quiet 300); (1600000000, quiet 600); (1900000000, [demo_row 900 "10.0.0.1" 9000000])].
Definition demo_sha (s : string) : string := s.
Definition demo_text (v : val) : string :=
  match v with
  | VStr s => s
  | VDict (_ :: _ :: (_, VStr e) :: (_, VInt s) :: _) => e +:+ "@" +:+ pretty s
  | _ => "cohort"
  end.
Definition demo_loads (s : string) : res val :=
  match List.find (λ r, String.eqb (demo_text (hist_val (hist_of r))) s) (concat demo_calls.*2) with
  | Some r => Ok (hist_val (hist_of r))
  | None => Raise ValueError
  end.
Lemma NoDup_map_inj {A B} (f : A → B) (l : list A) : NoDup (f <$> l) → ∀ x y, x ∈ l → y ∈ l → f x = f y → x = y.
Proof.
  induction l as [|z l IH]; cbn; intros Hnd x y Hx Hy E; [by apply elem_of_nil in Hx|]. apply NoDup_cons in Hnd as [Hz Hnd].
  apply elem_of_cons in Hx as [->|Hx], Hy as [->|Hy]; [done| | |by apply IH].
  - destruct Hz. rewrite E. by apply list_elem_of_fmap_2.
  - destruct Hz. rewrite <- E. by apply list_elem_of_fmap_2.
Qed.
Example loud_window :
  (λ fs, (λ f, (dgetN "tenant_id" f, dgetN "confidence" f)) <$> concat fs) <$>
    local_calls default_config demo_sha demo_text demo_text [] demo_calls.*2 = Ok [(VStr "t", VFloat (lit "0.8"))].
Proof. vm_compute. reflexivity. Qed.
(** The order of batches, checked. *)
Fixpoint ordered_b (bs : list (list row)) : bool :=
  match bs with
  | [] => true
  | b :: bs => forallb (λ r, forallb (λ r', w_end r <=? w_start r') (concat bs)) b && ordered_b bs
  end.
Lemma ordered_b_ok bs : ordered_b bs = true → ordered bs.
Proof.
  intros H before. revert bs H. induction before as [|b0 before IH]; intros bs H b after r r' -> Hr Hr'; [by apply elem_of_nil in Hr|].
  cbn in H. apply andb_true_iff in H as [H1 H2]. cbn in Hr. apply elem_of_app in Hr as [Hr|Hr]; [|by eapply (IH _ H2)].
  rewrite forallb_forall in H1. apply list_elem_of_In in Hr. specialize (H1 r Hr). rewrite forallb_forall in H1. apply Z.leb_le, H1.
  rewrite concat_app. cbn. apply in_or_app. right. apply in_or_app. left. by apply list_elem_of_In.
Qed.
Lemma demo_proper : proper_calls 300 demo_calls.*2.
Proof.
  split; [|apply ordered_b_ok; vm_compute; reflexivity]. intros r Hr. unfold proper_row.
  repeat (apply elem_of_cons in Hr as [->|Hr]; [reflexivity|]). by apply elem_of_nil in Hr.
Qed.
Lemma shared_history_agrees_witness :
  local_calls default_config demo_sha demo_text demo_text [] demo_calls.*2 =
    spec_calls default_config demo_sha demo_text demo_text 300 (hist_of <$> concat demo_calls.*2) demo_calls.*2 ∧
  shared_calls default_config demo_sha demo_text demo_text demo_text demo_loads ∅ demo_calls =
    spec_calls default_config demo_sha demo_text demo_text 300 (hist_of <$> concat demo_calls.*2) demo_calls.*2.
Proof.
  apply (shared_history_agrees default_config demo_sha demo_text demo_text demo_text demo_loads 300 ltac:(lia) ltac:(vm_compute; discriminate) demo_calls demo_proper).
  - apply (NoDup_fmap_1 key_of_row). apply (bool_decide_unpack _). vm_compute. exact I.
  - apply (NoDup_map_inj (λ r, history_key demo_sha demo_text demo_text (hist_of r))). apply (bool_decide_unpack _). vm_compute. exact I.
  - intros r Hr. repeat (apply elem_of_cons in Hr as [->|Hr]; [vm_compute; reflexivity|]). by apply elem_of_nil in Hr.
  - intros now batch r Hb Hr. unfold within_retention. cbn [default_config c_windows c_retention].
    repeat (apply elem_of_cons in Hb as [[= -> ->]|Hb]; [repeat (apply elem_of_cons in Hr as [->|Hr]; [reflexivity|]); by apply elem_of_nil in Hr|]).
    by apply elem_of_nil in Hb.
Defined.
Lemma tenants_isolated_witness :
  ∃ tr', run demo_address demo_subnet 300 (List.filter (concerns demo_address "t") demo_events) start_trace = Ok tr' ∧
    local_calls default_config demo_sha demo_text demo_text [] (t_batches tr') = Ok (List.filter (finding_of "t") <$> [[]]).
Proof.
  apply (tenants_isolated default_config demo_sha demo_text demo_text 300 ltac:(lia) ltac:(vm_compute; discriminate) demo_address demo_subnet "t" demo_events demo_trace [[]]);
    vm_compute; reflexivity.
Defined.
