(* ===== verification/AnomalyService.v ===== *)
(** * Protocol anomalies and sensor health (services/anomaly-detector/anomaly.py, app.py)

    Anomaly records are promoted to candidates when they are threat-relevant; per sensor and
    window of the clock they are also counted, and a window dominated by checksum failures
    becomes a health candidate.  The loop of the service joins both with the outbound model.
    Instants are microseconds, windows and lateness whole seconds; a poll reads the clock
    once per record and once at its end.  The history is the process's own. *)

From stdpp Require Import gmap.
From S2P Require Import Prelude Order PyVal PyTime IsoTime OrderedMap OutboundFeatures OutboundModel.
Set Default Proof Using "Type".

Section service.
(** [stable] is the number taken from a SHA-1 digest, [round4] is [round(x, 4)], [repr] the
    text of a value that is no string. *)
Context (sha256 : string → string) (stable : string → Z) (round4 : float → float)
  (dumps dumps_compact : val → string) (repr : val → string).
Context (ip_address : val → option string) (subnet : string → string).
Context (TENANT SENSOR_ID : string) (WINDOW CHECKSUM_WINDOW FEATURE_WINDOW LATENESS : Z)
  (CHECKSUM_SHARE : float) (CHECKSUM_MIN_SAMPLE : Z) (cfg : config).

(** ** Promotion *)

Definition _stable (parts : list val) : Z :=
  stable (join "|" ((λ p, match p with VNone => "" | _ => py_str repr p end) <$> parts)).
Definition _THREAT_TYPES : list string := ["applayer"].
Definition _KEEP_STREAM : list string := ["overlap_different_data"; "data_after_reset"; "reassembly"; "3whs"; "wrong_thread"].
Definition text_of (k : string) (anom : dict) : string := lower (py_str repr (dget_or k (VStr "") anom)).
Definition is_threat_anomaly (anom : dict) : bool :=
  match anom with
  | [] => false
  | _ =>
      let t := text_of "type" anom in
      mem t _THREAT_TYPES || (String.eqb t "stream" && existsb (λ k, contains k (text_of "event" anom)) _KEEP_STREAM)
  end.
(** [eve.get("anomaly") or {}]; a truthy value that is no dict fails at its first use. *)
Definition anomaly_of (eve : dict) : res dict := as_dict (py_or (dgetN "anomaly" eve) (VDict [])).
Definition entity (fields : list (string * val)) : val := VDict fields.
Definition to_candidate (now : Z) (eve : dict) (tenant : string) : res (option dict) :=
  if negb (val_eq_str (dgetN "event_type" eve) "anomaly") then Ok None
  else
    anom ← anomaly_of eve;
    if negb (is_threat_anomaly anom) then Ok None
    else
      let src := dgetN "src_ip" eve in
      let dst := dgetN "dest_ip" eve in
      let ev := dgetN "event" anom in
      let entities := dumps (VList [entity [("type", VStr "ip"); ("role", VStr "src"); ("value", src)];
        entity [("type", VStr "ip"); ("role", VStr "dst"); ("value", dst)];
        entity [("type", VStr "anomaly"); ("value", ev)]; entity [("type", VStr "app_proto"); ("value", dgetN "app_proto" eve)]]) in
      let ts := py_or (dgetN "timestamp" eve) (VStr (emitted_text now)) in
      Ok (Some [("finding_id", VStr ("anom-" +:+ pretty (_stable [ev; src; dst]))); ("tenant_id", VStr tenant);
        ("detector_id", VStr "protocol_anomaly"); ("detector_version", VStr "1.0"); ("category", VStr "anomaly");
        ("severity", VInt 5); ("confidence", VFloat (lit "0.5")); ("first_seen", ts); ("last_seen", ts);
        ("entities", VStr entities); ("state", VStr "CANDIDATE")]).

(** ** Sensor health *)

Definition is_checksum_anomaly (anom : dict) : bool :=
  match anom with [] => false | _ => negb (is_threat_anomaly anom) && contains "checksum" (text_of "event" anom) end.
Record tally := { n_checksum : Z; n_other_decode : Z; n_anomalies : Z }.
Definition no_tally : tally := {| n_checksum := 0; n_other_decode := 0; n_anomalies := 0 |}.
Definition tally_event (t : tally) (eve : val) : res tally :=
  match eve with
  | VDict eve =>
      if negb (val_eq_str (dgetN "event_type" eve) "anomaly") then Ok t
      else
        anom ← anomaly_of eve;
        Ok (if is_checksum_anomaly anom then
              {| n_checksum := n_checksum t + 1; n_other_decode := n_other_decode t; n_anomalies := n_anomalies t + 1 |}
            else if String.eqb (text_of "type" anom) "decode" then
              {| n_checksum := n_checksum t; n_other_decode := n_other_decode t + 1; n_anomalies := n_anomalies t + 1 |}
            else {| n_checksum := n_checksum t; n_other_decode := n_other_decode t; n_anomalies := n_anomalies t + 1 |})
  | _ => Ok t
  end.
Fixpoint tally_checksum_anomalies (events : list val) (t : tally) : res tally :=
  match events with [] => Ok t | e :: events => t ← tally_event t e; tally_checksum_anomalies events t end.

Inductive verdict := undetermined | link_corruption_suspected | checksum_validation_suspected.
Definition verdict_name (v : verdict) : string :=
  match v with
  | undetermined => "undetermined"
  | link_corruption_suspected => "link_corruption_suspected"
  | checksum_validation_suspected => "checksum_validation_suspected"
  end.
Definition verdict_of (checksum : Z) (other : option Z) (mixed : float) : verdict :=
  match other with
  | None => undetermined
  | Some o => if SFltb mixed (ratio o (checksum + o)) then link_corruption_suspected else checksum_validation_suspected
  end.
Definition CHECKSUM_MIXED_DECODE_SHARE : float := lit "0.05".
Definition SENSOR_HEALTH_EPISODE_SECS : Z := 3600.
(** The prose of a health finding. *)
Definition _CHECKSUM_FIX : string :=
  "Identify the capture interface. If it is a SPAN, tap or mirror port, the checksums of the mirrored " +:+
  "copies were never recomputed: set stream.checksum-validation: no in suricata.yaml and " +:+
  "checksum-checks: no on the capture method (af-packet, pcap or dpdk) for that interface. Verify the " +:+
  "result from the running configuration and the engine's stats counters, not from this share — " +:+
  "depending on which knob is set the same packets may keep reporting the same checksums.".
Definition _CHECKSUM_LINK : string :=
  "A damaged capture path is the other cause consistent with this sample: cabling, transceiver or NIC " +:+
  "faults corrupt frames in flight. Check the interface error counters on the sensor and on the " +:+
  "mirroring device; if they are rising, fix the link rather than disabling validation, which would " +:+
  "hide it.".
Definition _CHECKSUM_BOTH : string :=
  " Both causes remain open until one is confirmed from the sensor itself.".
Definition _CHECKSUM_WHY : string :=
  "invalid-checksum anomalies dominate this sensor's anomaly stream; if stream.checksum-validation is " +:+
  "enabled the engine rejects that traffic from reassembly and inspection, in which case an absence of " +:+
  "findings from this sensor proves nothing — check the sensor's configuration".
Definition _CHECKSUM_REMEDIATION (v : verdict) : string :=
  match v with
  | checksum_validation_suspected =>
  "Checksum anomalies dominate and no other decode-layer anomalies accompany them, which is consistent " +:+
  "with an offload-stripped SPAN, tap or mirror feed but does not establish it. " +:+ _CHECKSUM_FIX +:+ " " +:+ _CHECKSUM_LINK +:+ _CHECKSUM_BOTH
  | link_corruption_suspected =>
  "Checksum anomalies dominate and other decode-layer anomalies accompany them, which is somewhat more " +:+
  "consistent with frames arriving damaged — though a mirrored feed can also carry malformed packets. " +:+ _CHECKSUM_LINK +:+ " " +:+ _CHECKSUM_FIX +:+ _CHECKSUM_BOTH
  | undetermined =>
  "Checksum anomalies dominate the anomaly stream. Other decode-layer anomalies were not counted, so a " +:+
  "mirrored feed and a damaged capture path are equally consistent with this sample. " +:+ _CHECKSUM_FIX +:+ " " +:+ _CHECKSUM_LINK +:+ _CHECKSUM_BOTH
  end.
Definition proves : string :=
  "invalid-checksum anomalies outnumbered every other anomaly this sensor reported over the window".
Definition does_not_prove : string :=
  "the share of traffic affected, that the capture path is unhealthy, the cause, or that any traffic " +:+
  "went uninspected; confirm against the sensor's running configuration and its stats counters".
Definition health_finding (checksum total : Z) (other : option Z) (sensor tenant : string) (ws : Z) (start end_ : string)
    (share threshold : float) (min_sample : Z) (v : verdict) (episode : Z) : dict :=
  let name := verdict_name v in
  [("finding_id", VStr ("chksum-" +:+ pretty (_stable [VStr sensor]) +:+ "-" +:+ pretty (ws / episode)));
   ("tenant_id", VStr tenant); ("sensor_ids", VList [VStr sensor]); ("detector_id", VStr "sensor_checksum_rejection");
   ("detector_version", VStr "1.0"); ("category", VStr "sensor_health"); ("severity", VInt 6); ("confidence", VFloat (lit "0.6"));
   ("first_seen", VStr start); ("last_seen", VStr end_);
   ("entities", VStr (dumps (VList [entity [("type", VStr "sensor"); ("value", VStr sensor)];
      entity [("type", VStr "sensor_health"); ("value", VStr "decode_checksum_rejection")];
      entity [("type", VStr "metric"); ("value", VFloat (round4 share))]; entity [("type", VStr "why"); ("value", VStr _CHECKSUM_WHY)]])));
   ("summary", VDict [("sensor_health", VDict [("schema", VStr "cernity.sensor_health.v1"); ("signal", VStr "decode_checksum_rejection");
      ("sensor_id", VStr sensor); ("verdict", VStr name); ("checksum_anomaly_share", VFloat (round4 share));
      ("checksum_anomalies", VInt checksum); ("other_decode_anomalies", match other with Some o => VInt o | None => VNone end);
      ("sample_size", VInt total); ("sample", VStr "anomaly events examined in the window; not a packet census");
      ("window", VDict [("start", VStr start); ("end", VStr end_)]); ("share_threshold", VFloat threshold); ("min_sample", VInt min_sample);
      ("remediation", VStr (_CHECKSUM_REMEDIATION v)); ("proves", VStr proves); ("does_not_prove", VStr does_not_prove)])]);
   ("state", VStr "CANDIDATE")].
Definition to_sensor_health (checksum total : Z) (sensor tenant : string) (ws we : Z) (other : option Z) (threshold : float)
    (min_sample : Z) (mixed : float) (episode : Z) : res (option dict) :=
  check (SFltb (S754_zero false) threshold && SFleb threshold (lit "1")) ValueError;;
  check (negb ((min_sample <? 1) || negb (SFleb (S754_zero false) mixed && SFleb mixed (lit "1")) || (episode <? 1))) ValueError;;
  check (ws <? we) ValueError;;
  if (total <? min_sample) || (checksum <? 0) then Ok None
  else
    let share := ratio checksum total in
    if SFltb share threshold then Ok None
    else
      start ← iso ws; end_ ← iso we;
      Ok (Some (health_finding checksum total other sensor tenant ws start end_ share threshold min_sample
                  (verdict_of checksum other mixed) episode)).
Definition assess_sensor_health (events : list val) (sensor tenant : string) (ws we : Z) (threshold : float) (min_sample : Z) : res (option dict) :=
  t ← tally_checksum_anomalies events no_tally;
  to_sensor_health (n_checksum t) (n_anomalies t) sensor tenant ws we (Some (n_other_decode t)) threshold min_sample
    CHECKSUM_MIXED_DECODE_SHARE SENSOR_HEALTH_EPISODE_SECS.

(** ** The process *)

Abbreviation health_key := (string * Z)%type.
Record process := {
  z_checksum : list (health_key * tally); z_emitted : list string; z_sent : list dict;
  z_extractor : extractor; z_history : list hist; z_watermark : option Z
}.
Definition _sensor_of (eve : dict) : string :=
  match List.find (λ k, truthy (dgetN k eve)) ["sensor_id"; "host"; "sensor"; "hostname"] with
  | Some k => py_str repr (dgetN k eve)
  | None => SENSOR_ID
  end.
Definition bucket (width now : Z) : Z := now / (width * 1000000).
Definition tally_health (eve : dict) (b : Z) (c : list (health_key * tally)) : res (list (health_key * tally)) :=
  let key := (_sensor_of eve, b) in
  t ← tally_checksum_anomalies [VDict eve] (default no_tally (od_get key c)); Ok (od_set key t c).
(** The candidate of a window that is over. *)
Definition assess (kt : health_key * tally) : res (option dict) :=
  let '((sensor, wid), t) := kt in
  to_sensor_health (n_checksum t) (n_anomalies t) sensor TENANT (wid * CHECKSUM_WINDOW) ((wid + 1) * CHECKSUM_WINDOW)
    (Some (n_other_decode t)) CHECKSUM_SHARE CHECKSUM_MIN_SAMPLE CHECKSUM_MIXED_DECODE_SHARE SENSOR_HEALTH_EPISODE_SECS.
Definition is_over (b : Z) (kt : health_key * tally) : bool := negb (kt.1.2 =? b).
Definition flush_health (b : Z) (c : list (health_key * tally)) : res (list (health_key * tally) * list dict) :=
  found ← mapM assess (List.filter (is_over b) c);
  Ok (List.filter (λ kt, negb (is_over b kt)) c, omap id found).

Definition set_checksum (c : list (health_key * tally)) (p : process) : process :=
  {| z_checksum := c; z_emitted := z_emitted p; z_sent := z_sent p; z_extractor := z_extractor p; z_history := z_history p; z_watermark := z_watermark p |}.
Definition send (fs : list dict) (p : process) : process :=
  {| z_checksum := z_checksum p; z_emitted := z_emitted p; z_sent := z_sent p ++ fs; z_extractor := z_extractor p; z_history := z_history p; z_watermark := z_watermark p |}.
Definition remember (key : string) (p : process) : process :=
  {| z_checksum := z_checksum p; z_emitted := key :: z_emitted p; z_sent := z_sent p; z_extractor := z_extractor p; z_history := z_history p; z_watermark := z_watermark p |}.
Definition set_outbound (x : extractor) (h : list hist) (w : option Z) (p : process) : process :=
  {| z_checksum := z_checksum p; z_emitted := z_emitted p; z_sent := z_sent p; z_extractor := x; z_history := h; z_watermark := w |}.
(** An anomaly record. *)
Definition handle_anomaly (now : Z) (eve : dict) (p : process) : res process :=
  c ← tally_health eve (bucket CHECKSUM_WINDOW now) (z_checksum p);
  let p := set_checksum c p in
  cand ← to_candidate now eve TENANT;
  match cand with
  | None => Ok p
  | Some f =>
      let key := py_str repr (dgetN "finding_id" f) +:+ "-" +:+ pretty (bucket WINDOW now) in
      Ok (if mem key (z_emitted p) then p else send [f] (remember key p))
  end.
(** The instant of an observation, for the watermark: [KeyError], [TypeError] and [ValueError]
    are passed over. *)
Definition stamp_of (value : dict) : res (option Z) :=
  match (ts ← dindex "ts" value; index "normalized" ts) with
  | Raise e => if caught e then Ok None else Raise e
  | Ok (VStr t) => Ok (match fromisoformat (replace_zulu t) with Some (local, Some o) => Some (local - o) | _ => None end)
  | Ok _ => Raise AttributeError
  end.
Definition advance (now : Z) (w : option Z) (stamp : option Z) : option Z :=
  match stamp with
  | None => w
  | Some s => Some (match w with Some w => Z.max w (Z.min s now) | None => Z.min s now end)
  end.
Definition handle_observation (now : Z) (value : dict) (p : process) : res process :=
  x ← add ip_address subnet FEATURE_WINDOW value (z_extractor p);
  stamp ← stamp_of value;
  Ok (set_outbound x (z_history p) (advance now (z_watermark p) stamp) p).
(** A record of a poll: the observation topic or the anomaly topic. *)
Definition handle_record (now : Z) (rec : bool * val) (p : process) : res process :=
  d ← as_dict rec.2; if rec.1 then handle_observation now d p else handle_anomaly now d p.
Fixpoint handle_records (records : list (Z * (bool * val))) (p : process) : res process :=
  match records with [] => Ok p | (now, rec) :: records => p ← handle_record now rec p; handle_records records p end.
(** One turn of the loop. *)
Definition poll (records : list (Z * (bool * val))) (now : Z) (p : process) : res process :=
  p ← handle_records records p;
  '(c, health) ← flush_health (bucket CHECKSUM_WINDOW now) (z_checksum p);
  let p := send health (set_checksum c p) in
  let watermark := match records with [] => Some now | _ => z_watermark p end in
  match watermark with
  | None => Ok p
  | Some w =>
      '(x, rows) ← close FEATURE_WINDOW (w - LATENESS * 1000000) (z_extractor p);
      '(h, found) ← evaluate cfg sha256 dumps dumps_compact (z_history p) rows;
      Ok (send found (set_outbound x h (z_watermark p) p))
  end.
Definition started : process :=
  {| z_checksum := []; z_emitted := []; z_sent := []; z_extractor := fresh; z_history := []; z_watermark := None |}.

(** ** Facts *)

(** *** Counting *)

Definition anomaly_dict (eve : dict) : dict := match anomaly_of eve with Ok a => a | Raise _ => [] end.
Definition is_anomaly (eve : dict) : bool := val_eq_str (dgetN "event_type" eve) "anomaly".
Definition fails_checksum (eve : dict) : bool := is_anomaly eve && is_checksum_anomaly (anomaly_dict eve).
Definition other_decode (eve : dict) : bool :=
  is_anomaly eve && negb (is_checksum_anomaly (anomaly_dict eve)) && String.eqb (text_of "type" (anomaly_dict eve)) "decode".
Definition count (f : dict → bool) (evs : list dict) : Z := Z.of_nat (length (List.filter f evs)).
Definition counts (evs : list dict) : tally :=
  {| n_checksum := count fails_checksum evs; n_other_decode := count other_decode evs; n_anomalies := count is_anomaly evs |}.
Lemma count_snoc f evs e : count f (evs ++ [e]) = count f evs + (if f e then 1 else 0).
Proof. unfold count. rewrite List.filter_app, length_app. cbn. destruct (f e); cbn; lia. Qed.
Lemma tally_one evs e t : tally_checksum_anomalies [VDict e] (counts evs) = Ok t → t = counts (evs ++ [e]).
Proof.
  cbn [tally_checksum_anomalies tally_event]. intros H. apply bind_ok_inv in H as (u & Hu & H). injection H as <-. unfold counts. rewrite !count_snoc.
  unfold fails_checksum, other_decode, is_anomaly in *. destruct (val_eq_str (dgetN "event_type" e) "anomaly") eqn:Et; cbn in Hu.
  - apply bind_ok_inv in Hu as (a & Ha & Hu). injection Hu as <-. unfold anomaly_dict. rewrite Ha. cbn [andb].
    destruct (is_checksum_anomaly a); cbn [negb andb]; [by rewrite Z.add_0_r|]. destruct (String.eqb (text_of "type" a) "decode"); by rewrite ?Z.add_0_r.
  - injection Hu as <-. cbn [andb]. by rewrite !Z.add_0_r.
Qed.

(** *** The three signals never mix *)

Definition is_health (f : dict) : bool := val_eq_str (dgetN "detector_id" f) "sensor_checksum_rejection".
Lemma candidate_no_health now eve tenant f : to_candidate now eve tenant = Ok (Some f) → is_health f = false.
Proof.
  unfold to_candidate. destruct (negb _); [done|]. intros H. apply bind_ok_inv in H as (a & _ & H). destruct (negb _); [done|]. injection H as <-. reflexivity.
Qed.
Lemma assess_health kt f : assess kt = Ok (Some f) → is_health f = true.
Proof.
  destruct kt as [[s w] t]. unfold assess, to_sensor_health. intros H. apply bind_ok_inv in H as (a & _ & H). apply bind_ok_inv in H as (b & _ & H).
  apply bind_ok_inv in H as (c & _ & H). destruct (_ || _); [done|]. destruct (SFltb _ _); [done|]. apply bind_ok_inv in H as (x & _ & H). apply bind_ok_inv in H as (y & _ & H).
  injection H as <-. reflexivity.
Qed.
Lemma score_no_health hs r f : score cfg sha256 dumps dumps_compact hs r = Ok (Some f) → is_health f = false.
Proof.
  unfold score, score_relevant. intros H. apply bind_ok_inv in H as (own & _ & H). apply bind_ok_inv in H as (peer & _ & H).
  apply bind_ok_inv in H as (ds & _ & H). apply bind_ok_inv in H as (dp & _ & H). destruct dp as [|[n p] dp]; [done|].
  destruct (SFleb _ _); [done|]. destruct (finding _ _ _ _ _ _ _ _ _ _) as [g|] eqn:Ef; [|done]. injection H as ->. unfold finding in Ef.
  apply bind_ok_inv in Ef as (why' & _ & Ef). apply bind_ok_inv in Ef as (x & _ & Ef). apply bind_ok_inv in Ef as (y & _ & Ef).
  injection Ef as <-. reflexivity.
Qed.
Lemma mapM_omap_none {A} (f : A → res (option dict)) (l : list A) os (p : dict → bool) :
  (∀ x d, f x = Ok (Some d) → p d = false) → mapM f l = Ok os → List.filter p (omap id os) = [].
Proof.
  intros Hf. revert os. induction l as [|x l IH]; intros os H; [by injection H as <-|]. cbn in H. apply bind_ok_inv in H as (o & Ho & H).
  apply bind_ok_inv in H as (os' & Hos & H). injection H as <-. specialize (IH _ Hos). destruct o as [d|]; cbn; [|done]. by rewrite (Hf x d Ho).
Qed.
Lemma mapM_omap_all {A} (f : A → res (option dict)) (l : list A) os (p : dict → bool) :
  (∀ x d, f x = Ok (Some d) → p d = true) → mapM f l = Ok os → List.filter p (omap id os) = omap id os.
Proof.
  intros Hf. revert os. induction l as [|x l IH]; intros os H; [by injection H as <-|]. cbn in H. apply bind_ok_inv in H as (o & Ho & H).
  apply bind_ok_inv in H as (os' & Hos & H). injection H as <-. specialize (IH _ Hos). destruct o as [d|]; cbn; [|done]. rewrite (Hf x d Ho). by f_equal.
Qed.
Lemma windows_no_health hs gs hs' found :
  windows_local cfg sha256 dumps dumps_compact hs gs = Ok (hs', found) → List.filter is_health found = [].
Proof.
  revert hs hs' found. induction gs as [|[s g] gs IH]; intros hs hs' found H; [by injection H as <- <-|]. cbn [windows_local] in H.
  apply bind_ok_inv in H as ([h1 f1] & H1 & H). apply bind_ok_inv in H as ([h2 f2] & H2 & H). injection H as <- <-. rewrite List.filter_app, (IH _ _ _ H2), app_nil_r.
  unfold window_local in H1. apply bind_ok_inv in H1 as (f & Hf & H1). injection H1 as <- <-. unfold score_all in Hf. apply bind_ok_inv in Hf as (os & Hos & Hf). injection Hf as <-.
  eapply mapM_omap_none; [|exact Hos]. intros x d. apply score_no_health.
Qed.

(** *** The windows that were assessed, and those that are open *)

Abbreviation log := (list (health_key * dict)).
Definition keys_of (R : log) : list health_key := dedup_onto [] (fst <$> R).
Definition events_of (R : log) (k : health_key) : list dict := snd <$> List.filter (λ kv, bool_decide (kv.1 = k)) R.
Definition window_tally (R : log) (k : health_key) : health_key * tally := (k, counts (events_of R k)).
Lemma od_get_tally {A} (g : health_key → A) pend k : od_get k ((λ j, (j, g j)) <$> pend) = if mem k pend then Some (g k) else None.
Proof.
  induction pend as [|j pend IH]; [done|]. cbn. destruct (decide (k = j)) as [->|Hne].
  - by rewrite (proj2 (mem_true j (j :: pend))) by by left.
  - rewrite IH. assert (E : mem k (j :: pend) = mem k pend); [|by rewrite E]. apply eq_true_iff_eq. rewrite !mem_true, elem_of_cons. split; [by intros [?|?]|by right].
Qed.
Lemma od_set_fmap {A} (g g' : health_key → A) pend k :
  NoDup pend → (∀ j, j ≠ k → g' j = g j) →
  od_set k (g' k) ((λ j, (j, g j)) <$> pend) = (λ j, (j, g' j)) <$> (if mem k pend then pend else pend ++ [k]).
Proof.
  intros Hnd Hg. induction pend as [|j pend IH]; [done|]. apply NoDup_cons in Hnd as [Hj Hnd]. cbn. destruct (decide (k = j)) as [->|Hne].
  - rewrite (proj2 (mem_true j (j :: pend))) by by left. cbn. f_equal. apply list_fmap_ext. intros i x Hx. rewrite Hg; [done|]. intros ->. apply Hj. by eapply list_elem_of_lookup_2.
  - rewrite IH by done. assert (E : mem k (j :: pend) = mem k pend) by (apply eq_true_iff_eq; rewrite !mem_true, elem_of_cons; split; [by intros [?|?]|by right]). rewrite E, <- (Hg j) by done.
    by destruct (mem k pend).
Qed.
Lemma dedup_snoc {A} `{EqDecision A} (acc l : list A) x :
  dedup_onto acc (l ++ [x]) = if mem x (dedup_onto acc l) then dedup_onto acc l else dedup_onto acc l ++ [x].
Proof. revert acc. induction l as [|y l IH]; intros acc; cbn; [by destruct (mem x acc)|]. apply IH. Qed.
Lemma keys_snoc R k e : keys_of (R ++ [(k, e)]) = if mem k (keys_of R) then keys_of R else keys_of R ++ [k].
Proof. unfold keys_of. rewrite fmap_app. apply dedup_snoc. Qed.
Lemma events_snoc R k e j : events_of (R ++ [(k, e)]) j = if decide (j = k) then events_of R j ++ [e] else events_of R j.
Proof.
  unfold events_of. rewrite List.filter_app, fmap_app. cbn [List.filter fst]. case_decide as E.
  - rewrite bool_decide_eq_true_2 by done. done.
  - rewrite bool_decide_eq_false_2 by done. apply app_nil_r.
Qed.
Lemma events_none R k : k ∉ keys_of R → events_of R k = [].
Proof.
  intros Hk. unfold events_of. rewrite filter_none; [done|]. intros [j e] Hj. cbn. apply bool_decide_eq_false. intros ->. apply Hk.
  unfold keys_of. apply elem_of_dedup_onto. right. change k with ((k, e).1). by apply list_elem_of_fmap_2.
Qed.
(** [R]: the anomaly records so far; [F]: the windows assessed; [b]: the bucket of the last turn. *)
Record health_ok (R : log) (F : list health_key) (b : Z) (p : process) : Prop := {
  o_pending : ∃ pend, keys_of R = F ++ pend ∧ z_checksum p = window_tally R <$> pend;
  o_old : ∀ k, k ∈ F → k.2 < b;
  o_new : ∀ k, k ∈ keys_of R → k ∉ F → b <= k.2;
  o_sorted : StronglySorted Z.le (snd <$> keys_of R);
  o_sent : ∃ os, mapM assess (window_tally R <$> F) = Ok os ∧ List.filter is_health (z_sent p) = omap id os
}.
Definition until (b : Z) (R : log) : Prop := ∀ k, k ∈ keys_of R → k.2 <= b.
Definition log_of (now : Z) (rec : bool * val) : log :=
  match rec with (false, VDict d) => [((_sensor_of d, bucket CHECKSUM_WINDOW now), d)] | _ => [] end.
Lemma sorted_snoc (l : list Z) x : StronglySorted Z.le l → (∀ y, y ∈ l → y <= x) → StronglySorted Z.le (l ++ [x]).
Proof.
  induction 1 as [|y l Hs IH Hall]; intros Hx; cbn; [repeat constructor|]. constructor; [apply IH; intros z Hz; apply Hx; by right|].
  apply Forall_app. split; [done|]. constructor; [|constructor]. apply Hx. by left.
Qed.
Lemma record_ok R F b p k e p' :
  health_ok R F b p → until k.2 R → b <= k.2 → z_sent p' = z_sent p ∨ (∃ f, z_sent p' = z_sent p ++ [f] ∧ is_health f = false) →
  (∃ t, tally_checksum_anomalies [VDict e] (default no_tally (od_get k (z_checksum p))) = Ok t ∧ z_checksum p' = od_set k t (z_checksum p)) →
  health_ok (R ++ [(k, e)]) F b p'.
Proof.
  intros [(pend & Hk & Hc) H2 H3 H4 (os & Hos & H5)] Hun Hb Hsent (t & Ht & Hc').
  assert (HkF : k ∉ F) by (intros Hin; specialize (H2 k Hin); lia).
  assert (Hnd : NoDup (F ++ pend)) by (rewrite <- Hk; apply NoDup_dedup_onto, NoDup_nil_2).
  assert (Hm : mem k (keys_of R) = mem k pend).
  { apply eq_true_iff_eq. rewrite !mem_true, Hk, elem_of_app. split; [by intros [?|?]|by right]. }
  assert (Hd : default no_tally (od_get k (z_checksum p)) = counts (events_of R k)).
  { rewrite Hc. unfold window_tally. rewrite (od_get_tally (λ j, counts (events_of R j))). destruct (mem k pend) eqn:E; [done|].
    rewrite events_none; [done|]. apply mem_false. by rewrite Hm. }
  rewrite Hd in Ht. apply tally_one in Ht. split.
  - exists (if mem k pend then pend else pend ++ [k]). split.
    + rewrite keys_snoc, Hm, Hk. destruct (mem k pend); [done|by rewrite app_assoc].
    + rewrite Hc', Hc, Ht. unfold window_tally.
      rewrite <- (od_set_fmap (λ j, counts (events_of R j)) (λ j, counts (events_of (R ++ [(k, e)]) j))).
      * by rewrite events_snoc, decide_True.
      * by apply NoDup_app in Hnd as (_ & _ & ?).
      * intros j Hj. by rewrite events_snoc, decide_False.
  - done.
  - intros j Hj HjF. rewrite keys_snoc in Hj. destruct (mem k (keys_of R)); [by apply H3|]. apply elem_of_app in Hj as [Hj|Hj]; [by apply H3|].
    by apply list_elem_of_singleton in Hj as ->.
  - rewrite keys_snoc. destruct (mem k (keys_of R)); [done|]. rewrite fmap_app. apply sorted_snoc; [done|].
    intros y Hy. apply list_elem_of_fmap in Hy as (j & -> & Hj). by apply Hun.
  - exists os. split.
    + rewrite <- Hos. f_equal. apply list_fmap_ext. intros i j Hj. unfold window_tally. rewrite events_snoc, decide_False; [done|].
      intros ->. apply HkF. by eapply list_elem_of_lookup_2.
    + destruct Hsent as [->|(f & -> & Hf)]; [done|]. rewrite List.filter_app. cbn. by rewrite Hf, app_nil_r.
Qed.

Hypothesis HW : 0 < CHECKSUM_WINDOW.
#[local] Set Default Proof Using "HW".
Abbreviation health_bucket := (bucket CHECKSUM_WINDOW).
Lemma health_bucket_mono s u : s <= u → health_bucket s <= health_bucket u.
Proof. intros H. unfold bucket. apply Z.div_le_mono; lia. Qed.
Lemma health_ok_ext R F b p p' : z_checksum p' = z_checksum p → List.filter is_health (z_sent p') = List.filter is_health (z_sent p) → health_ok R F b p → health_ok R F b p'.
Proof using. intros E1 E2 [(pend & Hk & Hc) H2 H3 H4 (os & Hos & H5)]. split; [exists pend; by rewrite E1|done|done|done|exists os; by rewrite E2]. Qed.
Lemma handle_record_ok now rec p p' R F b :
  handle_record now rec p = Ok p' → health_ok R F b p → until (health_bucket now) R → b <= health_bucket now →
  health_ok (R ++ log_of now rec) F b p'.
Proof using.
  intros H Hok Hun Hb. unfold handle_record in H. apply bind_ok_inv in H as (d & Hd & H). destruct rec as [[] v]; cbn [fst snd] in *.
  - cbn [log_of]. rewrite app_nil_r. unfold handle_observation in H. apply bind_ok_inv in H as (x & _ & H). apply bind_ok_inv in H as (s & _ & H). injection H as <-.
    by eapply health_ok_ext; [| |exact Hok].
  - destruct v; try done. injection Hd as ->. cbn [log_of]. unfold handle_anomaly in H. apply bind_ok_inv in H as (c & Hc & H). apply bind_ok_inv in H as (cand & Hcand & H).
    unfold tally_health in Hc. apply bind_ok_inv in Hc as (t & Ht & Hc). injection Hc as <-.
    apply (record_ok R F b p); [done|done|done| |].
    + destruct cand as [f|]; injection H as <-; [|by left]. destruct (mem _ _); [by left|]. right. exists f. split; [done|]. by eapply candidate_no_health.
    + exists t. split; [done|]. destruct cand as [f|]; injection H as <-; [by destruct (mem _ _)|done].
Qed.
Lemma until_snoc now rec R : until (health_bucket now) R → until (health_bucket now) (R ++ log_of now rec).
Proof using.
  intros H. destruct rec as [[] v]; cbn; [by rewrite app_nil_r|]. destruct v; cbn; rewrite ?app_nil_r; try done. intros k Hk. rewrite keys_snoc in Hk.
  destruct (mem _ _); [by apply H|]. apply elem_of_app in Hk as [Hk|Hk]; [by apply H|]. apply list_elem_of_singleton in Hk as ->. cbn. lia.
Qed.
(** Times that never go back, from [T] on; the time of the last. *)
Fixpoint paced (T : Z) (records : list (Z * (bool * val))) : Prop :=
  match records with [] => True | (now, _) :: records => T <= now ∧ paced now records end.
Fixpoint last_time (T : Z) (records : list (Z * (bool * val))) : Z :=
  match records with [] => T | (now, _) :: records => last_time now records end.
Definition records_log (records : list (Z * (bool * val))) : log := concat ((λ r, log_of r.1 r.2) <$> records).
Lemma until_mono s u R : s <= u → until (health_bucket s) R → until (health_bucket u) R.
Proof. intros Hs H k Hk. etrans; [by apply H|by apply health_bucket_mono]. Qed.
Lemma handle_records_ok records T p p' R F b :
  handle_records records p = Ok p' → paced T records → health_ok R F b p → until (health_bucket T) R → b <= health_bucket T →
  health_ok (R ++ records_log records) F b p' ∧ until (health_bucket (last_time T records)) (R ++ records_log records) ∧ T <= last_time T records.
Proof.
  revert T p R. induction records as [|[now rec] records IH]; intros T p R H Hp Hok Hun Hb.
  { injection H as <-. unfold records_log. cbn. rewrite app_nil_r. split_and!; [done|done|lia]. }
  cbn [handle_records] in H. apply bind_ok_inv in H as (p1 & H1 & H). destruct Hp as [Hle Hp].
  pose proof (health_bucket_mono _ _ Hle) as Hbm. assert (Hun' : until (health_bucket now) R) by (by eapply until_mono).
  pose proof (handle_record_ok _ _ _ _ _ _ _ H1 Hok Hun' ltac:(lia)) as Hok1. destruct (IH now p1 _ H Hp Hok1 (until_snoc _ _ _ Hun') ltac:(lia)) as (A & B & C).
  unfold records_log in *. cbn [fmap list_fmap concat fst snd]. rewrite app_assoc.
  assert (E : last_time T ((now, rec) :: records) = last_time now records).
  { done. }
  rewrite E. split_and!; [done|done|lia].
Qed.
Lemma filter_fmap_tally R (f : health_key → bool) pend :
  List.filter (λ kt : health_key * tally, f kt.1) (window_tally R <$> pend) = window_tally R <$> List.filter f pend.
Proof using. induction pend as [|k pend IH]; [done|]. cbn. destruct (f k); cbn; by rewrite IH. Qed.
Lemma split_sorted (b : Z) (pend : list health_key) :
  StronglySorted Z.le (snd <$> pend) → (∀ k, k ∈ pend → k.2 <= b) →
  pend = List.filter (λ k, negb (k.2 =? b)) pend ++ List.filter (λ k, negb (negb (k.2 =? b))) pend.
Proof using.
  induction pend as [|k pend IH]; intros Hs Hb; [done|]. inversion Hs as [|?? Hs' Hall]; subst. cbn. destruct (Z.eqb_spec k.2 b) as [E|E]; cbn.
  - assert (Hnone : List.filter (λ k : health_key, negb (k.2 =? b)) pend = []).
    { apply filter_none. intros j Hj. rewrite Forall_forall in Hall. specialize (Hall j.2 ltac:(by apply list_elem_of_fmap_2)). specialize (Hb j ltac:(by right)).
      rewrite (proj2 (Z.eqb_eq _ _)); [done|lia]. }
    rewrite Hnone. cbn. f_equal. rewrite IH at 1; [by rewrite Hnone|done|]. intros j Hj. apply Hb. by right.
  - f_equal. apply IH; [done|]. intros j Hj. apply Hb. by right.
Qed.
Lemma mapM_app_ok {A B} (f : A → res B) l l' k k' : mapM f l = Ok k → mapM f l' = Ok k' → mapM f (l ++ l') = Ok (k ++ k').
Proof using.
  revert k. induction l as [|x l IH]; intros k H H'; [by injection H as <-|]. cbn in *. apply bind_ok_inv in H as (y & -> & H). apply bind_ok_inv in H as (ys & Hys & H).
  injection H as <-. cbn. by rewrite (IH _ Hys H').
Qed.
Lemma sorted_app_r {A} (P : A → A → Prop) l l' : StronglySorted P (l ++ l') → StronglySorted P l'.
Proof using. induction l as [|x l IH]; [done|]. cbn. inversion 1. auto. Qed.
Lemma flush_ok b' p R F b c found :
  flush_health b' (z_checksum p) = Ok (c, found) → health_ok R F b p → until b' R → b <= b' →
  health_ok R (List.filter (λ k, negb (k.2 =? b')) (keys_of R)) b' (send found (set_checksum c p)).
Proof using.
  intros H [(pend & Hk & Hc) H2 H3 H4 (os & Hos & H5)] Hun Hb. unfold flush_health in H. apply bind_ok_inv in H as (os2 & Hos2 & H). injection H as <- <-.
  set (over := λ k : health_key, negb (k.2 =? b')). rewrite Hc in Hos2.
  assert (E1 : List.filter (is_over b') (window_tally R <$> pend) = window_tally R <$> List.filter over pend) by apply (filter_fmap_tally R over).
  assert (E2 : List.filter (λ kt, negb (is_over b' kt)) (window_tally R <$> pend) = window_tally R <$> List.filter (λ k, negb (over k)) pend)
    by apply (filter_fmap_tally R (λ k, negb (over k))).
  assert (Hsp : pend = List.filter over pend ++ List.filter (λ k, negb (over k)) pend).
  { apply split_sorted; [rewrite Hk, fmap_app in H4; by eapply sorted_app_r|]. intros k Hin. apply Hun. rewrite Hk. apply elem_of_app. by right. }
  assert (HF : List.filter over (keys_of R) = F ++ List.filter over pend).
  { rewrite Hk, List.filter_app. f_equal. clear -H2 Hb. induction F as [|k F IH]; [done|]. cbn. unfold over at 1. specialize (H2 k ltac:(by left)) as Hlt.
    rewrite (proj2 (Z.eqb_neq _ _)) by lia. cbn. f_equal. apply IH. intros j Hj. apply H2. by right. }
  rewrite HF. split.
  - exists (List.filter (λ k, negb (over k)) pend). split; [by rewrite <- app_assoc, <- Hsp|]. cbn. by rewrite Hc, E2.
  - intros k [Hin|Hin]%elem_of_app; [specialize (H2 k Hin); lia|]. apply list_elem_of_In, filter_In in Hin as [Hin Ho]. apply list_elem_of_In in Hin. unfold over in Ho. to_prop.
    assert (k.2 <= b') by (apply Hun; rewrite Hk; apply elem_of_app; by right). lia.
  - intros k Hin Hnot. destruct (Z.eq_dec k.2 b') as [->|Hne]; [lia|]. exfalso. apply Hnot. rewrite <- HF. apply list_elem_of_In, filter_In. split; [by apply list_elem_of_In|].
    unfold over. by rewrite (proj2 (Z.eqb_neq _ _)).
  - done.
  - exists (os ++ os2). rewrite E1 in Hos2. split; [rewrite fmap_app; by apply mapM_app_ok|]. cbn. rewrite List.filter_app, H5, omap_app. f_equal.
    eapply mapM_omap_all; [|exact Hos2]. intros x d. apply assess_health.
Qed.
Lemma poll_ok records now T p p' R F b :
  poll records now p = Ok p' → paced T records → last_time T records <= now →
  health_ok R F b p → until (health_bucket T) R → b <= health_bucket T →
  health_ok (R ++ records_log records) (List.filter (λ k, negb (k.2 =? health_bucket now)) (keys_of (R ++ records_log records))) (health_bucket now) p' ∧
  until (health_bucket now) (R ++ records_log records) ∧ T <= now.
Proof.
  intros H Hp Hle Hok Hun Hb. unfold poll in H. apply bind_ok_inv in H as (p1 & H1 & H). apply bind_ok_inv in H as ([c health] & H2 & H).
  destruct (handle_records_ok _ _ _ _ _ _ _ H1 Hp Hok Hun Hb) as (A & B & C). pose proof (until_mono _ _ _ Hle B) as Hun'.
  assert (Hbb : b <= health_bucket now) by (etrans; [exact Hb|apply health_bucket_mono; lia]). pose proof (flush_ok _ _ _ _ _ _ _ H2 A Hun' Hbb) as Hok2.
  split; [|split; [done|lia]]. destruct (match records with [] => Some now | _ => z_watermark _ end) as [w|]; [|by injection H as <-].
  apply bind_ok_inv in H as ([x rows] & _ & H). apply bind_ok_inv in H as ([h found] & He & H). injection H as <-.
  eapply health_ok_ext; [| |exact Hok2]; [done|]. cbn. rewrite !List.filter_app. unfold evaluate in He. by rewrite (windows_no_health _ _ _ _ He), app_nil_r.
Qed.
Abbreviation turn := (list (Z * (bool * val)) * Z)%type.
Fixpoint run_polls (turns : list turn) (p : process) : res process :=
  match turns with [] => Ok p | (records, now) :: turns => p ← poll records now p; run_polls turns p end.
Fixpoint paced_turns (T : Z) (turns : list turn) : Prop :=
  match turns with [] => True | (records, now) :: turns => paced T records ∧ last_time T records <= now ∧ paced_turns now turns end.
Fixpoint end_time (T : Z) (turns : list turn) : Z := match turns with [] => T | (_, now) :: turns => end_time now turns end.
Definition turns_log (turns : list turn) : log := concat ((λ tu, records_log tu.1) <$> turns).
Lemma run_polls_ok turns T p p' R F :
  run_polls turns p = Ok p' → paced_turns T turns → health_ok R F (health_bucket T) p → until (health_bucket T) R →
  F = List.filter (λ k, negb (k.2 =? health_bucket T)) (keys_of R) →
  let b := health_bucket (end_time T turns) in
  health_ok (R ++ turns_log turns) (List.filter (λ k, negb (k.2 =? b)) (keys_of (R ++ turns_log turns))) b p'.
Proof.
  revert T p R F. induction turns as [|[records now] turns IH]; intros T p R F H Hp Hok Hun HF.
  { injection H as <-. unfold turns_log. cbn. rewrite app_nil_r. by subst F. }
  cbn [run_polls] in H. apply bind_ok_inv in H as (p1 & H1 & H). destruct Hp as (Hp1 & Hp2 & Hp3).
  destruct (poll_ok _ _ _ _ _ _ _ _ H1 Hp1 Hp2 Hok Hun ltac:(lia)) as (A & B & C). specialize (IH now p1 _ _ H Hp3 A B eq_refl).
  unfold turns_log in *. cbn [fmap list_fmap concat fst snd]. rewrite app_assoc.
  exact IH.
Qed.

(** Sensor health is exact, and separate.  Whatever records come, over any turns of the loop
    with a clock that does not go back, the health candidates that were sent are the assessments
    of the finished windows, one per sensor and window in the order they began, each made of
    the exact counts of that window's anomaly records (checksum failures, other decode
    anomalies, all); the windows still open keep their exact counts; and no promoted anomaly or
    volume finding is a health candidate. *)
Theorem health_windows_exact (turns : list turn) T p :
  paced_turns T turns → turns ≠ [] → run_polls turns started = Ok p →
  let R := turns_log turns in
  let b := health_bucket (end_time T turns) in
  (∃ os, mapM assess (window_tally R <$> List.filter (λ k, negb (k.2 =? b)) (keys_of R)) = Ok os ∧
     List.filter is_health (z_sent p) = omap id os) ∧
  z_checksum p = window_tally R <$> List.filter (λ k, k.2 =? b) (keys_of R).
Proof.
  intros Hp Hne H R b. assert (Hempty : until (health_bucket T) []) by (intros k Hk; by apply elem_of_nil in Hk).
  assert (Hstart : health_ok [] [] (health_bucket T) started).
  { split; [by exists []|intros k Hk; by apply elem_of_nil in Hk|intros k Hk; by apply elem_of_nil in Hk|constructor|by exists []]. }
  pose proof (run_polls_ok turns T started p [] [] H Hp Hstart Hempty eq_refl) as [(pend & Hk & Hc) H2 H3 H4 Hs]. cbn [app] in *. fold R b in Hk, Hc, H2, H3, H4, Hs.
  split; [exact Hs|]. rewrite Hc. f_equal. set (F := List.filter (λ k, negb (k.2 =? b)) (keys_of R)) in *.
  assert (HF : List.filter (λ k : health_key, k.2 =? b) F = []).
  { apply filter_none. intros k Hin. apply list_elem_of_In, filter_In in Hin as [_ Hin]. by apply negb_true_iff. }
  rewrite Hk, List.filter_app, HF. cbn [app].
  assert (Hall : ∀ k, k ∈ pend → (k.2 =? b) = true).
  { intros k Hin. destruct (k.2 =? b) eqn:E; [done|]. exfalso. assert (HkF : k ∈ F).
    { apply list_elem_of_In, filter_In. rewrite E. split; [|done]. apply list_elem_of_In. rewrite Hk. apply elem_of_app. by right. }
    assert (Hnd : NoDup (F ++ pend)) by (rewrite <- Hk; apply NoDup_dedup_onto, NoDup_nil_2). apply NoDup_app in Hnd as (_ & Hd & _). by apply (Hd k). }
  clear -Hall. induction pend as [|k pend IH]; [done|]. cbn. rewrite Hall by by left. f_equal. apply IH. intros j Hj. apply Hall. by right.
Qed.
End service.

(** ** A run: a sensor reports only checksum failures, and the window ends. *)

Definition demo_anomaly (ev kind : string) : val :=
  VDict [("event_type", VStr "anomaly"); ("host", VStr "s1"); ("anomaly", VDict [("type", VStr kind); ("event", VStr ev)])].
Definition demo_turns : list (list (Z * (bool * val)) * Z) :=
  [([(1000000, (false, demo_anomaly "decoder.ipv4.invalid_checksum" "decode")); (2000000, (false, demo_anomaly "decoder.tcp.invalid_checksum" "decode"));
     (3000000, (false, demo_anomaly "http.bad_request" "applayer"))], 4000000); ([], 700000000)].
Definition demo_run : res process :=
  run_polls id (λ _, 7) id (λ _, "") (λ _, "") (λ _, "") demo_address demo_subnet "t" "sensor" 600 600 300 60 (lit "0.5") 2 default_config demo_turns started.
Definition demo_process : process := match demo_run with Ok p => p | Raise _ => started end.
Example demo_sent : (λ f, (dgetN "detector_id" f, dgetN "finding_id" f)) <$> z_sent demo_process =
  [(VStr "protocol_anomaly", VStr "anom-7"); (VStr "sensor_checksum_rejection", VStr "chksum-7-0")].
Proof. vm_compute. reflexivity. Qed.
Lemma health_windows_exact_witness :
  let R := turns_log (λ _, "") "sensor" 600 demo_turns in
  let b := bucket 600 (end_time 0 demo_turns) in
  (∃ os, mapM (assess (λ _, 7) id (λ _, "") (λ _, "") "t" 600 (lit "0.5") 2)
            (window_tally (λ _, "") R <$> List.filter (λ k, negb (k.2 =? b)) (keys_of R)) = Ok os ∧
     List.filter is_health (z_sent demo_process) = omap id os) ∧
  z_checksum demo_process = window_tally (λ _, "") R <$> List.filter (λ k, k.2 =? b) (keys_of R).
Proof.
  apply (health_windows_exact id (λ _, 7) id (λ _, "") (λ _, "") (λ _, "") demo_address demo_subnet "t" "sensor" 600 600 300 60 (lit "0.5") 2 default_config ltac:(lia) demo_turns 0 demo_process).
  - cbn. lia.
  - discriminate.
  - vm_compute. reflexivity.
Defined.
