(* ===== verification/AssetApi.v ===== *)
(** * The asset service's read API (services/asset-service/app.py, resolution.py)

    A caller reads the timeline or the relationships of an entity: the token grants the
    tenants, each tenant is queried on its own, every outcome is audited.  A database table
    holds the newest row per key, what a read with FINAL sees, of all tenants; [fails]
    says which queries the backend fails to answer.  A read records the queries it makes. *)

From S2P Require Import Prelude Order PyVal PyString OrderedMap AssetBindings AssetFacts EvidencePaging.
Set Default Proof Using "Type".

(** ** The database *)

Record obs_row := { b_tenant : string; b_id : string; b_time : Z; b_type : string; b_values : list string }.
Record edge_row := {
  g_tenant : string; g_src : string; g_dst : string; g_kind : string; g_first : Z; g_last : Z; g_evidence : val
}.
Record database := { db_facts : list fact_row; db_obs : list obs_row; db_edges : list edge_row }.
Inductive query :=
| q_facts (tenant entity : string) | q_obs (tenant : string) (ips : list string) | q_edges (tenant entity : string).
Definition _TIMELINE_LIMIT : nat := 5000.
Definition select_facts (db : database) (tenant entity : string) : list fact_row :=
  take _TIMELINE_LIMIT (isort (λ r, (r_pred r, r_from r))
    (List.filter (λ r, String.eqb (r_tenant r) tenant && String.eqb (r_subject r) entity && negb (r_deleted r)) (db_facts db))).
Definition select_obs (db : database) (tenant : string) (ips : list string) : list obs_row :=
  take _TIMELINE_LIMIT (isort (λ r, (b_time r, b_id r))
    (List.filter (λ r, String.eqb (b_tenant r) tenant && existsb (λ ip, mem ip (b_values r)) ips) (db_obs db))).
Definition select_edges (db : database) (tenant entity : string) : list edge_row :=
  take _TIMELINE_LIMIT (isort (λ r, (g_src r, g_dst r, g_kind r))
    (List.filter (λ r, String.eqb (g_tenant r) tenant && (String.eqb (g_src r) entity || String.eqb (g_dst r) entity)) (db_edges db))).

(** ** Reading *)

Section api.
Context (db : database) (fails : query → bool) (sha256 unquote : string → string) (loads : string → option val).

Abbreviation reading := (M (list query)).
Definition ask (q : query) : reading unit := modify (λ log, log ++ [q]);* lift (check (negb (fails q)) OtherError).
Record timeline := {
  tl_events : list event; tl_facts : list (string * list fact_row); tl_attribution : string
}.
(** The observations of the entity's addresses, within the windows that bound them. *)
Definition _observations (tenant : string) (windows : list window) : reading (list obs_row) :=
  match isort id (dedup_onto [] ((λ w : window, w.1.1) <$> windows)) with
  | [] => ret []
  | ips =>
      ask (q_obs tenant ips);*
      ret (List.filter (λ o, _in_window (b_time o) (b_values o) windows) (select_obs db tenant ips))
  end.
Definition _timeline_for_tenant (entity tenant : string) : reading timeline :=
  ask (q_facts tenant entity);*
  let facts := _authoritative (select_facts db tenant entity) in
  let '(windows, attribution) := _ip_windows entity facts in
  let* observations := _observations tenant windows in
  let '(events, by_pred) := build_timeline ((λ o, (b_time o, b_id o, b_type o)) <$> observations) facts in
  ret {| tl_events := events; tl_facts := by_pred; tl_attribution := attribution |}.
(** Evidence that is no JSON stays as it is. *)
Definition decode_evidence (v : val) : val :=
  match v with VStr s => if str_truthy s then default v (loads s) else v | _ => v end.
Definition decoded (r : edge_row) : edge_row :=
  {| g_tenant := g_tenant r; g_src := g_src r; g_dst := g_dst r; g_kind := g_kind r; g_first := g_first r; g_last := g_last r;
     g_evidence := decode_evidence (g_evidence r) |}.
Definition _relationships_for_tenant (entity tenant : string) : reading (list edge_row) :=
  ask (q_edges tenant entity);* ret (decoded <$> select_edges db tenant entity).
(** [{t: f(t) for t in grants}] *)
Fixpoint per_tenant {A} (f : string → reading A) (grants : list string) (acc : list (string * A)) : reading (list (string * A)) :=
  match grants with
  | [] => ret acc
  | t :: grants => let* a := f t in per_tenant f grants (od_set t a acc)
  end.
Definition fetch_timeline (grants : list string) (entity : string) : reading (list (string * timeline)) :=
  per_tenant (_timeline_for_tenant entity) grants [].
Definition fetch_relationships (grants : list string) (entity : string) : reading (list (string * list edge_row)) :=
  per_tenant (_relationships_for_tenant entity) grants [].

(** ** The handler *)

Inductive response :=
| r_healthy | r_not_found | r_unauthorized | r_bad_request (why : exn) | r_unavailable
| r_timeline (entity : string) (tenants : list (string * timeline))
| r_relationships (entity : string) (tenants : list (string * list edge_row)).
Record audit_event := {
  ev_action : string; ev_actor : string; ev_tenants : list string; ev_entity : string; ev_outcome : string; ev_returned : option nat
}.
Definition _actor (auth_header : string) : option string :=
  if starts_with "Bearer " auth_header
  then let token := drop_chars 7 auth_header in
       if str_truthy token then Some ("token:" +:+ take_chars 12 (sha256 token)) else None
  else None.
Definition _audit (actor : option string) (tenants : list string) (entity outcome action : string) (returned : option nat) : audit_event :=
  {| ev_action := action; ev_actor := default "anonymous" actor; ev_tenants := tenants; ev_entity := take_chars 255 entity;
     ev_outcome := outcome; ev_returned := returned |}.
Definition path_parts (path : string) : list string := List.filter str_truthy (split_char "/" path).
Definition sum_lengths {A} (ls : list (list A)) : nat := foldr (λ l n, length l + n)%nat 0%nat ls.
(** The answer to a request, and its audit trail. *)
Definition do_GET (tokens : list (string * list string)) (path auth : string) : reading (response * list audit_event) :=
  if String.eqb path "/healthz" then ret (r_healthy, [])
  else
    let actor := _actor auth in
    match path_parts path with
    | [root; raw; view] =>
        if negb (String.eqb root "entity" && mem view ["timeline"; "relationships"])
        then ret (r_not_found, [_audit actor [] (unquote raw) "not_found" "entity.route" None])
        else
          let action := "entity." +:+ view in
          let raw := unquote raw in
          match grants_for_token tokens (Some auth) with
          | None => ret (r_unauthorized, [_audit actor [] raw "denied" action None])
          | Some grants =>
              match validate_entity raw with
              | Raise e => ret (r_bad_request e, [_audit actor grants raw "bad_request" action None])
              | Ok entity => λ log,
                  if String.eqb view "timeline" then
                    match fetch_timeline grants entity log with
                    | (log, Raise _) => (log, Ok (r_unavailable, [_audit actor grants entity "error" action None]))
                    | (log, Ok ts) => (log, Ok (r_timeline entity ts,
                        [_audit actor grants entity "success" action (Some (sum_lengths ((λ kt, tl_events kt.2) <$> ts)))]))
                    end
                  else
                    match fetch_relationships grants entity log with
                    | (log, Raise _) => (log, Ok (r_unavailable, [_audit actor grants entity "error" action None]))
                    | (log, Ok ts) => (log, Ok (r_relationships entity ts,
                        [_audit actor grants entity "success" action (Some (sum_lengths (snd <$> ts)))]))
                    end
              end
          end
    | parts =>
        ret (r_not_found, [_audit actor [] (match parts with _ :: raw :: _ => unquote raw | _ => "" end) "not_found" "entity.route" None])
    end.
End api.

(** ** Facts *)

Section facts.
Context (db : database) (fails : query → bool) (sha256 unquote : string → string) (loads : string → option val).

(** The addresses that stand for an entity of a tenant. *)
Definition stands_for (tenant entity ip : string) : Prop :=
  if starts_with "mac:" entity
  then ∃ f, f ∈ db_facts db ∧ r_tenant f = tenant ∧ r_subject f = entity ∧ r_pred f = "ip" ∧ r_deleted f = false ∧ r_value f = ip
  else if starts_with "ip:" entity then ip = drop_chars 3 entity else ip = entity.
(** An observation belongs to the entity: while a fact bound the address, for a MAC. *)
Definition covers (tenant entity : string) (o : obs_row) : Prop :=
  if starts_with "mac:" entity
  then ∃ f, f ∈ db_facts db ∧ r_tenant f = tenant ∧ r_subject f = entity ∧ r_pred f = "ip" ∧ r_deleted f = false ∧
         r_value f ∈ b_values o ∧ r_from f <= b_time o ∧ AssetBindings.before (b_time o) (r_to f) = true
  else if starts_with "ip:" entity then drop_chars 3 entity ∈ b_values o else entity ∈ b_values o.
Definition event_ok (tenant entity : string) (e : event) : Prop :=
  match e with
  | observation ts id type => ∃ o, o ∈ db_obs db ∧ b_tenant o = tenant ∧ covers tenant entity o ∧ (b_time o, b_id o, b_type o) = (ts, id, type)
  | fact_change ts f => f ∈ db_facts db ∧ r_tenant f = tenant ∧ r_subject f = entity ∧ r_deleted f = false ∧ ts = r_from f
  end.
Definition edge_ok (tenant entity : string) (e : edge_row) : Prop :=
  ∃ r, r ∈ db_edges db ∧ g_tenant r = tenant ∧ (g_src r = entity ∨ g_dst r = entity) ∧ e = decoded loads r.
Definition query_ok (grants : list string) (entity : string) (q : query) : Prop :=
  match q with
  | q_facts t e | q_edges t e => t ∈ grants ∧ e = entity
  | q_obs t ips => t ∈ grants ∧ ∀ ip, ip ∈ ips → stands_for t entity ip
  end.

Lemma select_facts_elem tenant entity f : f ∈ select_facts db tenant entity →
  f ∈ db_facts db ∧ r_tenant f = tenant ∧ r_subject f = entity ∧ r_deleted f = false.
Proof.
  intros H. apply elem_take, elem_of_isort, elem_filter in H as [H1 H2]. to_prop. apply String.eqb_eq in H. split_and!; try done. by apply String.eqb_eq.
Qed.
Lemma best_rows_elem rows m f : f ∈ (foldl best_row m rows).*2 → f ∈ m.*2 ∨ f ∈ rows.
Proof.
  revert m. induction rows as [|r rows IH]; intros m H; [by left|]. cbn [foldl] in H. apply IH in H as [H|H]; [|by right; right].
  assert (Hset : ∀ k, f ∈ (od_set k r m).*2 → f ∈ m.*2 ∨ f = r).
  { clear. intros k. induction m as [|[k' v] m IHm]; cbn; [intros Hf; right; by apply list_elem_of_singleton in Hf|].
    case_decide; cbn; rewrite !elem_of_cons; [intros [?|?]; [by right|left; by right]|]. intros [?|Hf]; [left; by left|]. destruct (IHm Hf) as [?|?]; [left; by right|by right]. }
  unfold best_row in H. destruct (od_get (AssetFacts.row_key r) m) as [cur|].
  - destruct (supersedes r cur); [|by left]. destruct (Hset _ H) as [?| ->]; [by left|right; by left].
  - destruct (Hset _ H) as [?| ->]; [by left|right; by left].
Qed.
Lemma authoritative_elem rows f : f ∈ _authoritative rows → f ∈ rows.
Proof. unfold _authoritative. intros H. apply elem_filter in H as [H _]. apply best_rows_elem in H as [H|H]; [by apply elem_of_nil in H|done]. Qed.
Definition live_facts (tenant entity : string) : list fact_row := _authoritative (select_facts db tenant entity).
Lemma live_facts_elem tenant entity f : f ∈ live_facts tenant entity →
  f ∈ db_facts db ∧ r_tenant f = tenant ∧ r_subject f = entity ∧ r_deleted f = false.
Proof. intros H. by apply select_facts_elem, authoritative_elem. Qed.
Definition windows_of (tenant entity : string) : list window := (_ip_windows entity (live_facts tenant entity)).1.
Lemma window_stands tenant entity w : w ∈ windows_of tenant entity → stands_for tenant entity w.1.1.
Proof.
  unfold windows_of, _ip_windows, stands_for. destruct (starts_with "mac:" entity); cbn.
  - intros H. apply list_elem_of_fmap in H as (f & -> & H). apply elem_filter in H as [H Hp]. apply String.eqb_eq in Hp. apply live_facts_elem in H as (? & ? & ? & ?). by exists f.
  - destruct (starts_with "ip:" entity); cbn; intros H; by apply list_elem_of_singleton in H as ->.
Qed.
Lemma in_window_covers tenant entity o : _in_window (b_time o) (b_values o) (windows_of tenant entity) = true → covers tenant entity o.
Proof.
  unfold _in_window. intros H. apply existsb_exists in H as (w & Hw & H). apply list_elem_of_In in Hw. unfold windows_of, _ip_windows, covers in *.
  destruct (starts_with "mac:" entity); cbn in Hw.
  - apply list_elem_of_fmap in Hw as (f & -> & Hf). apply elem_filter in Hf as [Hf Hp]. apply String.eqb_eq in Hp. apply live_facts_elem in Hf as (? & ? & ? & ?).
    unfold in_one in H. to_prop. exists f. split_and!; try done. by apply mem_true.
  - destruct (starts_with "ip:" entity); cbn in Hw; apply list_elem_of_singleton in Hw as ->; unfold in_one in H; to_prop; by apply mem_true.
Qed.
(** The queries a read makes are in scope, and it succeeds, with [Q], exactly when the
    backend answers all of them. *)
Definition reads {A} (scope : query → Prop) (Q : A → Prop) (m : M (list query) A) : Prop :=
  ∀ log, ∃ qs, (m log).1 = log ++ qs ∧ (∀ q, q ∈ qs → scope q) ∧
    match (m log).2 with Ok a => Q a ∧ (∀ q, q ∈ qs → fails q = false) | Raise _ => ∃ q, q ∈ qs ∧ fails q = true end.
Lemma reads_ret {A} scope (Q : A → Prop) a : Q a → reads scope Q (ret a).
Proof. intros HQ log. exists []. cbn. rewrite app_nil_r. split_and!; try done; intros q Hq; by apply elem_of_nil in Hq. Qed.
Lemma reads_ask scope q : scope q → reads scope (λ _, True) (ask fails q).
Proof.
  intros Hq log. exists [q]. unfold ask, bind, modify, lift. cbn. split_and!; [done|intros x Hx; by apply list_elem_of_singleton in Hx as ->|].
  destruct (fails q) eqn:E; cbn; [exists q; split; [by left|done]|]. split; [done|]. intros x Hx. by apply list_elem_of_singleton in Hx as ->.
Qed.
Lemma reads_bind {A B} scope (P : A → Prop) (Q : B → Prop) m (k : A → M (list query) B) :
  reads scope P m → (∀ a, P a → reads scope Q (k a)) → reads scope Q (bind m k).
Proof.
  intros Hm Hk log. unfold bind. destruct (Hm log) as (qs & E & Hs & Hr). destruct (m log) as [log1 [a|e]]; cbn in *; subst log1; [|by exists qs].
  destruct Hr as [HP Hf]. destruct (Hk a HP (log ++ qs)) as (qs' & E & Hs' & Hr'). exists (qs ++ qs'). rewrite E, app_assoc. split_and!; [done|intros q [?|?]%elem_of_app; auto|].
  destruct (k a (log ++ qs)) as [log2 [b|e]]; cbn in *.
  - destruct Hr' as [HQ Hf']. split; [done|]. intros q [?|?]%elem_of_app; auto.
  - destruct Hr' as (q & Hq & Hfq). exists q. split; [apply elem_of_app; by right|done].
Qed.
Lemma reads_weaken {A} (s s' : query → Prop) (Q Q' : A → Prop) m : (∀ q, s q → s' q) → (∀ a, Q a → Q' a) → reads s Q m → reads s' Q' m.
Proof.
  intros Hs HQ H log. destruct (H log) as (qs & E & H1 & H2). exists qs. split_and!; [done|auto|]. destruct (m log).2; [|done]. destruct H2. split; auto.
Qed.
Lemma observations_spec tenant entity :
  reads (query_ok [tenant] entity) (λ obs, ∀ o, o ∈ obs → o ∈ db_obs db ∧ b_tenant o = tenant ∧ covers tenant entity o)
    (_observations db fails tenant (windows_of tenant entity)).
Proof.
  unfold _observations. assert (Hips : ∀ ip, ip ∈ isort id (dedup_onto [] ((λ w : window, w.1.1) <$> windows_of tenant entity)) → stands_for tenant entity ip).
  { intros ip Hip. apply elem_of_isort, elem_of_dedup_onto in Hip as [Hip|Hip]; [by apply elem_of_nil in Hip|]. apply list_elem_of_fmap in Hip as (w & -> & Hw). by apply window_stands. }
  destruct (isort id _) as [|ip ips]; [apply reads_ret; intros o Ho; by apply elem_of_nil in Ho|].
  eapply reads_bind; [apply reads_ask; split; [by left|exact Hips]|]. intros _ _. apply reads_ret. intros o Ho. apply elem_filter in Ho as [Ho Hw].
  apply elem_take, elem_of_isort, elem_filter in Ho as [Ho Ht]. to_prop. split_and!; [done|by apply String.eqb_eq|by apply in_window_covers].
Qed.
Lemma timeline_spec tenant entity :
  reads (query_ok [tenant] entity) (λ tl, ∀ e, e ∈ tl_events tl → event_ok tenant entity e) (_timeline_for_tenant db fails entity tenant).
Proof.
  unfold _timeline_for_tenant. eapply reads_bind; [apply reads_ask; split; [by left|done]|]. intros _ _. fold (live_facts tenant entity).
  pose proof (observations_spec tenant entity) as Ho. unfold windows_of in Ho. destruct (_ip_windows entity (live_facts tenant entity)) as [ws attribution]. cbn [fst] in Ho.
  eapply reads_bind; [exact Ho|]. intros obs Hobs. apply reads_ret. intros e He. cbn in He. apply elem_of_isort, elem_of_app in He as [He|He]; apply list_elem_of_fmap in He as (x & -> & Hx).
  - apply list_elem_of_fmap in Hx as (o & -> & Hx). destruct (Hobs o Hx) as (? & ? & ?). by exists o.
  - apply live_facts_elem in Hx as (? & ? & ? & ?). done.
Qed.
Lemma relationships_spec tenant entity :
  reads (query_ok [tenant] entity) (λ es, ∀ e, e ∈ es → edge_ok tenant entity e) (_relationships_for_tenant db fails loads entity tenant).
Proof.
  unfold _relationships_for_tenant. eapply reads_bind; [apply reads_ask; split; [by left|done]|]. intros _ _. apply reads_ret. intros e He.
  apply list_elem_of_fmap in He as (r & -> & Hr). apply elem_take, elem_of_isort, elem_filter in Hr as [Hr Ht]. apply andb_true_iff in Ht as [Ht He]. apply String.eqb_eq in Ht.
  exists r. split_and!; [done|done| |done]. by apply orb_true_iff in He as [He|He]; apply String.eqb_eq in He; [left|right].
Qed.
Lemma per_tenant_spec {A} entity (f : string → M (list query) A) (Q : string → A → Prop) grants :
  (∀ t, reads (query_ok [t] entity) (Q t) (f t)) →
  reads (query_ok grants entity) (λ ts, (∀ t a, (t, a) ∈ ts → t ∈ grants ∧ Q t a) ∧ (∀ t, t ∈ grants → t ∈ od_keys ts)) (per_tenant f grants []).
Proof.
  intros Hf. assert (Hgen : ∀ rest acc, (∀ t, t ∈ rest → t ∈ grants) → (∀ t a, (t, a) ∈ acc → t ∈ grants ∧ Q t a) →
    reads (query_ok grants entity) (λ ts, (∀ t a, (t, a) ∈ ts → t ∈ grants ∧ Q t a) ∧ (∀ t, t ∈ od_keys acc ∨ t ∈ rest → t ∈ od_keys ts)) (per_tenant f rest acc)).
  { induction rest as [|t rest IH]; intros acc Hr Ha; cbn [per_tenant].
    - apply reads_ret. split; [done|]. intros t [?|Ht]; [done|by apply elem_of_nil in Ht].
    - eapply reads_bind.
      + eapply (reads_weaken (query_ok [t] entity) _ (Q t)); [|done|apply Hf]. intros q Hq. assert (Ht : t ∈ grants) by (apply Hr; by left).
        destruct q as [t' e|t' ips|t' e]; cbn in *; destruct Hq as [Hin ?]; apply list_elem_of_singleton in Hin as ->; done.
      + intros a Hqa. eapply reads_weaken; [done| |apply (IH (od_set t a acc)); [intros x Hx; apply Hr; by right|]].
        * intros ts [H1 H2]. split; [done|]. intros x [Hx|[->|Hx]%elem_of_cons]; apply H2; rewrite od_keys_set_elem; auto.
        * intros x b Hin. assert (Hin' : (x, b) = (t, a) ∨ (x, b) ∈ acc).
          { clear -Hin. induction acc as [|[k v] acc IH]; cbn in Hin; [left; by apply list_elem_of_singleton in Hin|]. case_decide; apply elem_of_cons in Hin as [Hin|Hin].
            - subst. by left.
            - right. by right.
            - right. rewrite Hin. by left.
            - destruct (IH Hin) as [?|?]; [by left|right; by right]. }
          destruct Hin' as [[= -> ->]|Hin']; [split; [apply Hr; by left|done]|by apply Ha]. }
  eapply reads_weaken; [done| |apply (Hgen grants []); [done|intros t a Hin; by apply elem_of_nil in Hin]]. intros ts [H1 H2]. split; [done|]. intros t Ht. apply H2. by right.
Qed.

(** The rows of some tenants. *)
Definition only (grants : list string) : database :=
  {| db_facts := List.filter (λ r, mem (r_tenant r) grants) (db_facts db); db_obs := List.filter (λ r, mem (b_tenant r) grants) (db_obs db);
     db_edges := List.filter (λ r, mem (g_tenant r) grants) (db_edges db) |}.
Lemma select_only grants t e ips : t ∈ grants →
  select_facts (only grants) t e = select_facts db t e ∧ select_obs (only grants) t ips = select_obs db t ips ∧ select_edges (only grants) t e = select_edges db t e.
Proof.
  intros Ht. unfold select_facts, select_obs, select_edges, only. cbn. rewrite !filter_imp; [done|..]; intros x Hx; to_prop; apply mem_true;
    by match goal with H : String.eqb _ _ = true |- _ => apply String.eqb_eq in H as -> end.
Qed.
Lemma per_tenant_ext {A} (f g : string → M (list query) A) grants acc log :
  (∀ t log, t ∈ grants → f t log = g t log) → per_tenant f grants acc log = per_tenant g grants acc log.
Proof.
  revert acc log. induction grants as [|t grants IH]; intros acc log H; [done|]. cbn. unfold bind. rewrite H by by left. destruct (g t log) as [log1 [a|e]]; [|done].
  apply IH. intros t' l' Ht'. apply H. by right.
Qed.
Lemma timeline_only grants t entity log : t ∈ grants → _timeline_for_tenant (only grants) fails entity t log = _timeline_for_tenant db fails entity t log.
Proof.
  intros Ht. unfold _timeline_for_tenant. destruct (select_only grants t entity [] Ht) as (-> & _ & _). unfold bind. destruct (ask _ _ log) as [log1 [[]|e]]; [|done].
  destruct (_ip_windows entity _) as [ws at_]. unfold _observations. destruct (isort id _) as [|ip ips]; [done|]. destruct (select_only grants t entity (ip :: ips) Ht) as (_ & -> & _). done.
Qed.
Lemma relationships_only grants t entity log : t ∈ grants → _relationships_for_tenant (only grants) fails loads entity t log = _relationships_for_tenant db fails loads entity t log.
Proof. intros Ht. unfold _relationships_for_tenant. by destruct (select_only grants t entity [] Ht) as (_ & _ & ->). Qed.

(** What each answer means; one audit event tells the outcome. *)
Definition audited (events : list audit_event) (outcome : string) (tenants : list string) (returned : option nat) : Prop :=
  ∃ e, events = [e] ∧ ev_outcome e = outcome ∧ ev_tenants e = tenants ∧ ev_returned e = returned.
Definition answer_ok (tokens : list (string * list string)) (path auth : string) (qs : list query) (resp : response) (events : list audit_event) : Prop :=
  match resp with
  | r_healthy => path = "/healthz" ∧ events = [] ∧ qs = []
  | r_not_found => audited events "not_found" [] None ∧ qs = []
  | r_unauthorized => grants_for_token tokens (Some auth) = None ∧ audited events "denied" [] None ∧ qs = []
  | r_bad_request e => ∃ grants raw, grants_for_token tokens (Some auth) = Some grants ∧ validate_entity raw = Raise e ∧
      audited events "bad_request" grants None ∧ qs = []
  | r_unavailable => ∃ grants raw entity, grants_for_token tokens (Some auth) = Some grants ∧ validate_entity raw = Ok entity ∧
      audited events "error" grants None ∧ (∀ q, q ∈ qs → query_ok grants entity q) ∧ ∃ q, q ∈ qs ∧ fails q = true
  | r_timeline entity ts => ∃ grants raw, grants_for_token tokens (Some auth) = Some grants ∧ validate_entity raw = Ok entity ∧
      audited events "success" grants (Some (sum_lengths ((λ kt, tl_events kt.2) <$> ts))) ∧ (∀ q, q ∈ qs → query_ok grants entity q ∧ fails q = false) ∧
      (∀ t tl, (t, tl) ∈ ts → t ∈ grants ∧ ∀ e, e ∈ tl_events tl → event_ok t entity e) ∧ (∀ t, t ∈ grants → t ∈ od_keys ts)
  | r_relationships entity ts => ∃ grants raw, grants_for_token tokens (Some auth) = Some grants ∧ validate_entity raw = Ok entity ∧
      audited events "success" grants (Some (sum_lengths (snd <$> ts))) ∧ (∀ q, q ∈ qs → query_ok grants entity q ∧ fails q = false) ∧
      (∀ t es, (t, es) ∈ ts → t ∈ grants ∧ ∀ e, e ∈ es → edge_ok t entity e) ∧ (∀ t, t ∈ grants → t ∈ od_keys ts)
  end.
Abbreviation get := (do_GET db fails sha256 unquote loads).
Lemma get_ok tokens path auth log : ∃ qs resp events, get tokens path auth log = (log ++ qs, Ok (resp, events)) ∧ answer_ok tokens path auth qs resp events.
Proof.
  unfold do_GET. destruct (String.eqb_spec path "/healthz") as [->|]; [by exists [], r_healthy, []; rewrite app_nil_r|].
  assert (Hmiss : ∀ raw, ∃ qs resp events, @ret (list query) _ (r_not_found, [_audit (_actor sha256 auth) [] raw "not_found" "entity.route" None]) log = (log ++ qs, Ok (resp, events)) ∧
    answer_ok tokens path auth qs resp events).
  { intros raw. eexists [], _, _. rewrite app_nil_r. split; [done|]. split; [by eexists|done]. }
  destruct (path_parts path) as [|root [|raw [|view [|x l]]]]; try apply Hmiss. destruct (negb _); [apply Hmiss|]. clear Hmiss.
  destruct (grants_for_token tokens (Some auth)) as [grants|] eqn:Eg; [|eexists [], _, _; rewrite app_nil_r; split; [done|]; split_and!; [done|by eexists|done]].
  destruct (validate_entity (unquote raw)) as [entity|e] eqn:Ev; [|eexists [], _, _; rewrite app_nil_r; split; [done|]; exists grants, (unquote raw); split_and!; [done|done|by eexists|done]].
  destruct (String.eqb view "timeline").
  - destruct (per_tenant_spec entity (_timeline_for_tenant db fails entity) (λ t tl, ∀ e, e ∈ tl_events tl → event_ok t entity e) grants (λ t, timeline_spec t entity) log) as (qs & E & Hq & Hr).
    unfold fetch_timeline. destruct (per_tenant _ grants [] log) as [log1 [ts|e]]; cbn in E, Hr; subst log1; (eexists qs, _, _; split; [done|]); exists grants, (unquote raw).
    + destruct Hr as [[H1 H2] H3]. split_and!; [done|done|by eexists|intros q Hin; split; auto|done|done].
    + exists entity. split_and!; [done|done|by eexists|done|done].
  - destruct (per_tenant_spec entity (_relationships_for_tenant db fails loads entity) (λ t es, ∀ e, e ∈ es → edge_ok t entity e) grants (λ t, relationships_spec t entity) log) as (qs & E & Hq & Hr).
    unfold fetch_relationships. destruct (per_tenant _ grants [] log) as [log1 [ts|e]]; cbn in E, Hr; subst log1; (eexists qs, _, _; split; [done|]); exists grants, (unquote raw).
    + destruct Hr as [[H1 H2] H3]. split_and!; [done|done|by eexists|intros q Hin; split; auto|done|done].
    + exists entity. split_and!; [done|done|by eexists|done|done].
Qed.
Lemma get_only tokens path auth log :
  do_GET (only (default [] (grants_for_token tokens (Some auth)))) fails sha256 unquote loads tokens path auth log = get tokens path auth log.
Proof.
  unfold do_GET. destruct (String.eqb path "/healthz"); [done|]. destruct (path_parts path) as [|root [|raw [|view [|x l]]]]; try done. destruct (negb _); [done|].
  destruct (grants_for_token tokens (Some auth)) as [grants|]; [|done]. cbn [default]. destruct (validate_entity (unquote raw)) as [entity|e]; [|done].
  unfold fetch_timeline, fetch_relationships. by rewrite (per_tenant_ext (_timeline_for_tenant (only grants) fails entity) (_timeline_for_tenant db fails entity)),
    (per_tenant_ext (_relationships_for_tenant (only grants) fails loads entity) (_relationships_for_tenant db fails loads entity)) by (intros; (apply timeline_only || apply relationships_only); done).
Qed.

(** C36. Reads stay within the grants.  Every request is answered, and audited exactly once with
    its outcome (health checks are not); nothing is queried before the token is known and the
    entity is valid; every query names a granted tenant and the entity, or addresses that
    stand for it in that tenant; a timeline shows, per tenant, only the tenant's live facts of
    the entity and observations of an address at a time when a fact bound it to the entity; a
    relationship is shown with the entity at one end; a failing query leaves an error and no
    data; and the answer does not change when the rows of every other tenant are removed. *)
Theorem asset_reads_confined tokens path auth log :
  (∃ qs resp events, get tokens path auth log = (log ++ qs, Ok (resp, events)) ∧ answer_ok tokens path auth qs resp events) ∧
  do_GET (only (default [] (grants_for_token tokens (Some auth)))) fails sha256 unquote loads tokens path auth log = get tokens path auth log.
Proof. split; [apply get_ok|apply get_only]. Qed.
End facts.

(** A request for a timeline: a MAC that held an address for a while. *)
Definition demo_db : database :=
  {| db_facts := [{| r_tenant := "t"; r_subject := "mac:aa"; r_pred := "ip"; r_value := "10.0.0.5"; r_from := 1000000; r_obs := "o"; r_updated := None;
                     r_to := Some 9000000; r_deleted := false |}];
     db_obs := [{| b_tenant := "t"; b_id := "in"; b_time := 5000000; b_type := "conn"; b_values := ["10.0.0.5"] |};
                {| b_tenant := "t"; b_id := "late"; b_time := 9000000; b_type := "conn"; b_values := ["10.0.0.5"] |};
                {| b_tenant := "u"; b_id := "other"; b_time := 5000000; b_type := "conn"; b_values := ["10.0.0.5"] |}];
     db_edges := [] |}.
Example demo_timeline :
  match (do_GET demo_db (λ _, false) id id (λ _, None) [("tok", ["t"])] "/entity/mac:aa/timeline" "Bearer tok" []).2 with
  | Ok (r_timeline _ [(t, tl)], _) => (t, omap (λ e, match e with observation _ i _ => Some i | _ => None end) (tl_events tl)) = ("t", ["in"])
  | _ => False
  end.
Proof. vm_compute. reflexivity. Qed.
