(* ===== verification/BatchLoop.v ===== *)
(** * A consumer that buffers, flushes and only then commits

    The loop the normalizer and the file observer share (services/normalizer/app.py and
    services/file-observer/app.py, [main]): records are turned into rows or skipped, the
    rows are flushed to outside stores, and the offsets are committed after the flush.
    What a service puts in the loop is an interface: how a record is handled, how rows are
    buffered, how a buffer is flushed.  The laws of the interface give the theorems both
    services use.

    The outside world can fail at any of its calls, the process can crash at any point,
    and a partition the group has no committed offset for is read from wherever its log
    ends when the process starts ([auto_offset_reset="latest"]).  One process holds all
    partitions: rebalances are not modelled. *)

From stdpp Require Import gmap relations.
From S2P Require Import Prelude Order PyVal PyTime IsoTime.
Set Default Proof Using "Type".

(** ** The broker's records *)

(** What a record's value decodes to: nothing at all, bytes that are no JSON text, a document. *)
Inductive payload := p_absent | p_garbled | p_json (v : val).
(** A record: the broker's timestamp type and time in milliseconds, and the value. *)
Record krecord := { k_type : Z; k_time : option Z; k_value : payload }.
Abbreviation partition := (string * Z)%type.
Abbreviation offsets := (gmap partition nat).

(** The broker's append time, as an instant; anything else is an error of the deployment. *)
Definition append_time (r : krecord) : res Z :=
  match k_time r with
  | Some ms =>
      check ((k_type r =? 1) && (0 <=? ms)) OtherError;;
      check (is_datetime (ms * 1000)) ValueError;;
      Ok (ms * 1000)
  | None => Raise OtherError
  end.

(** ** What a service puts in the loop *)

(** Rows, a buffer of them, the outside world, and the failures it can have.  A record is
    kept as a row, skipped, or raises out of the loop. *)
Class Batcher (Row B W F : Type) := {
  handle : partition → nat → krecord → res (option Row);
  buf_empty : B;
  buf_push : Row → B → B;
  flush : F → B → W → W * res unit;
  due : bool → nat → bool → bool
}.

(** The rows a buffer holds, what durable means for a row, and what traces it can leave
    in the world before it is durable. *)
Class BatcherLaws (Row B W F : Type) `{Batcher Row B W F} := {
  row_ok : Row → Prop;
  buf_ok : B → Prop;
  held : Row → B → Prop;
  durable : Row → W → Prop;
  trace : Row → W → Prop;
  handle_ok tp off r row : handle tp off r = Ok (Some row) → row_ok row;
  empty_ok : buf_ok buf_empty;
  push_ok row b : row_ok row → buf_ok b → buf_ok (buf_push row b);
  held_empty row : ¬ held row buf_empty;
  held_push row x b : held row (buf_push x b) ↔ row = x ∨ held row b;
  flush_keeps f b w row : durable row w → durable row (flush f b w).1;
  flush_done f b w w' row : buf_ok b → flush f b w = (w', Ok tt) → held row b → durable row w';
  flush_only f b w row : buf_ok b → trace row (flush f b w).1 → held row b ∨ trace row w
}.

(** ** The loop *)

Section loop.
Context {Row B W F : Type} `{HB : Batcher Row B W F}.
Context (log : partition → list krecord).

(** A running process: its buffer, the rows in it, whether a record was seen since the last
    commit, its positions, and where the reading of each partition began. *)
Record consumer := { c_buf : B; c_rows : nat; c_seen : bool; c_pos : offsets; c_from : offsets }.
Definition hold (row : option Row) (c : consumer) : consumer :=
  match row with
  | Some row => {| c_buf := buf_push row (c_buf c); c_rows := S (c_rows c); c_seen := true; c_pos := c_pos c; c_from := c_from c |}
  | None => {| c_buf := c_buf c; c_rows := c_rows c; c_seen := true; c_pos := c_pos c; c_from := c_from c |}
  end.
Definition advance (tp : partition) (off : nat) (c : consumer) : consumer :=
  {| c_buf := c_buf c; c_rows := c_rows c; c_seen := c_seen c; c_pos := <[tp := off]> (c_pos c); c_from := c_from c |}.
Fixpoint take_in (tp : partition) (off : nat) (rs : list krecord) (c : consumer) : res consumer :=
  match rs with
  | [] => Ok (advance tp off c)
  | r :: rs => row ← handle tp off r; take_in tp (S off) rs (hold row c)
  end.
(** A poll: how many records each partition returned. *)
Fixpoint take_batch (batch : list (partition * nat)) (c : consumer) : res consumer :=
  match batch with
  | [] => Ok c
  | (tp, n) :: batch =>
      match c_pos c !! tp with
      | Some off => c ← take_in tp off (take n (drop off (log tp))) c; take_batch batch c
      | None => take_batch batch c
      end
  end.

(** The world, the group's committed offsets, where the reading that led to them began, and
    the process when one runs. *)
Record plant := { y_world : W; y_committed : offsets; y_from : offsets; y_run : option consumer }.
Definition stop (w : W) (y : plant) : plant := {| y_world := w; y_committed := y_committed y; y_from := y_from y; y_run := None |}.
(** Committed partitions go on where the group is; the others begin where their logs end. *)
Definition boot (ends : offsets) (y : plant) : plant :=
  {| y_world := y_world y; y_committed := y_committed y; y_from := y_from y;
     y_run := Some {| c_buf := buf_empty; c_rows := 0; c_seen := false; c_pos := y_committed y ∪ ends; c_from := y_from y ∪ ends |} |}.
Definition flush_and_commit (f : F) (commits : bool) (c : consumer) (y : plant) : plant :=
  match flush f (c_buf c) (y_world y) with
  | (w, Ok _) =>
      if commits then
        {| y_world := w; y_committed := c_pos c; y_from := c_from c;
           y_run := Some {| c_buf := buf_empty; c_rows := 0; c_seen := false; c_pos := c_pos c; c_from := c_from c |} |}
      else stop w y
  | (w, Raise _) => stop w y
  end.
Inductive plant_step (y : plant) : plant → Prop :=
| boots ends : y_run y = None → plant_step y (boot ends y)
| polls batch c c' :
    y_run y = Some c → take_batch batch c = Ok c' →
    plant_step y {| y_world := y_world y; y_committed := y_committed y; y_from := y_from y; y_run := Some c' |}
| poll_raises batch c e : y_run y = Some c → take_batch batch c = Raise e → plant_step y (stop (y_world y) y)
| flushes f commits elapsed c :
    y_run y = Some c → due elapsed (c_rows c) (c_seen c) = true → plant_step y (flush_and_commit f commits c y)
| shuts_down f commits c :
    y_run y = Some c → plant_step y (stop (y_world (flush_and_commit f commits c y)) (flush_and_commit f commits c y))
| crashes : plant_step y (stop (y_world y) y).
Definition installed (w : W) : plant := {| y_world := w; y_committed := ∅; y_from := ∅; y_run := None |}.

(** ** Facts *)

Context {HL : BatcherLaws Row B W F}.

(** The record at an offset did not raise, and its row, if it has one, is where [P] says. *)
Definition settled (P : Row → Prop) (tp : partition) (off : nat) : Prop :=
  ∀ r, log tp !! off = Some r → ∃ row, handle tp off r = Ok row ∧ from_option P True row.
(** Every offset from where the reading of its partition began up to [pos] is settled. *)
Definition covers (P : Row → Prop) (from pos : offsets) : Prop :=
  ∀ tp n, pos !! tp = Some n → ∃ f, from !! tp = Some f ∧ ∀ off, (f <= off < n)%nat → settled P tp off.
Definition rooted (row : Row) : Prop := ∃ tp off r, log tp !! off = Some r ∧ handle tp off r = Ok (Some row).
Definition kept (w : W) (c : consumer) (row : Row) : Prop := held row (c_buf c) ∨ durable row w.
Record plant_ok (y : plant) : Prop := {
  ok_committed : covers (λ row, durable row (y_world y)) (y_from y) (y_committed y);
  ok_from : ∀ tp, y_committed y !! tp = None → y_from y !! tp = None;
  ok_trace : ∀ row, trace row (y_world y) → rooted row;
  ok_run : ∀ c, y_run y = Some c → buf_ok (c_buf c) ∧ covers (kept (y_world y) c) (c_from c) (c_pos c) ∧
    (∀ tp, c_pos c !! tp = None → c_from c !! tp = None) ∧ ∀ row, held row (c_buf c) → rooted row
}.

Lemma covers_mono (P Q : Row → Prop) from pos : (∀ row, P row → Q row) → covers P from pos → covers Q from pos.
Proof.
  intros H HC tp n Hn. destruct (HC tp n Hn) as (f & Hf & Hs). exists f. split; [done|]. intros off Ho r Hr.
  destruct (Hs off Ho r Hr) as ([row|] & E & Hrow); [exists (Some row)|exists None]; split; try done. by apply H.
Qed.
Lemma take_in_spec tp off rs c c' f :
  take_in tp off rs c = Ok c' → (∀ i r, rs !! i = Some r → log tp !! (off + i)%nat = Some r) →
  buf_ok (c_buf c) → (∀ row, held row (c_buf c) → rooted row) → c_from c !! tp = Some f →
  (∀ P, (∀ row, held row (c_buf c') → P row) → ∀ o, (off <= o < off + length rs)%nat → settled P tp o) ∧
  buf_ok (c_buf c') ∧ (∀ row, held row (c_buf c') → rooted row) ∧ (∀ row, held row (c_buf c) → held row (c_buf c')) ∧
  c_pos c' = <[tp := (off + length rs)%nat]> (c_pos c) ∧ c_from c' = c_from c.
Proof.
  revert off c. induction rs as [|r rs IH]; intros off c H Hrs Hb Hr Hf; cbn [take_in] in H.
  { injection H as <-. cbn. rewrite Nat.add_0_r. split_and!; try done. intros P _ o Ho. lia. }
  apply bind_ok_inv in H as (row & Eh & H).
  assert (El : log tp !! off = Some r) by (specialize (Hrs 0%nat r eq_refl); by rewrite Nat.add_0_r in Hrs).
  assert (Hhold : buf_ok (c_buf (hold row c)) ∧ (∀ x, held x (c_buf (hold row c)) → rooted x) ∧
    (∀ x, held x (c_buf c) → held x (c_buf (hold row c))) ∧ from_option (λ x, held x (c_buf (hold row c))) True row).
  { destruct row as [row|]; cbn [hold c_buf]; [|done]. split_and!.
    - apply push_ok; [by eapply handle_ok|done].
    - intros x [->|Hx]%held_push; [by exists tp, off, r|by apply Hr].
    - intros x Hx. apply held_push. by right.
    - cbn. apply held_push. by left. }
  destruct Hhold as (Hb' & Hr' & Hm & Hnew).
  apply IH in H as (H1 & H2 & H3 & H4 & H5 & H6); [| |done|done|by destruct row].
  2:{ intros i x Hx. specialize (Hrs (S i) x Hx). by rewrite Nat.add_succ_r in Hrs. }
  split_and!; [|done|done|by intros x Hx; apply H4, Hm|rewrite H5; cbn [length]; rewrite Nat.add_succ_r; by destruct row|rewrite H6; by destruct row].
  intros P HP o Ho. cbn [length] in Ho. destruct (decide (o = off)) as [->|Hne]; [|apply H1; [done|lia]].
  intros x Hx. rewrite El in Hx. injection Hx as <-. exists row. split; [done|]. destruct row as [row|]; [|done]. cbn in Hnew |- *. by apply HP, H4.
Qed.
Definition run_ok (w : W) (c : consumer) : Prop :=
  buf_ok (c_buf c) ∧ covers (kept w c) (c_from c) (c_pos c) ∧
  (∀ tp, c_pos c !! tp = None → c_from c !! tp = None) ∧ ∀ row, held row (c_buf c) → rooted row.
Lemma take_batch_ok w batch c c' : take_batch batch c = Ok c' → run_ok w c → run_ok w c'.
Proof.
  revert c. induction batch as [|[tp n] batch IH]; intros c H Hc; cbn [take_batch] in H; [by injection H as <-|].
  destruct (c_pos c !! tp) as [off|] eqn:Ep; [|by eapply IH]. apply bind_ok_inv in H as (c1 & H1 & H).
  apply (IH c1 H). clear IH H. destruct Hc as (Hb & HC & Hd & Hr). destruct (HC tp off Ep) as (f & Hf & Hs).
  eapply take_in_spec in H1 as (G1 & G2 & G3 & G4 & G5 & G6); [| |done|done|done].
  2:{ intros i x Hx. apply lookup_take_Some in Hx as [Hx _]. by rewrite lookup_drop in Hx. }
  assert (Hmono : ∀ row, kept w c row → kept w c1 row) by (intros row [Hh|Hd']; [left; by apply G4|by right]).
  split_and!; [done| | |done].
  - intros tp' m Hm. rewrite G5 in Hm. rewrite G6. destruct (decide (tp' = tp)) as [->|Hne].
    + rewrite lookup_insert_eq in Hm. injection Hm as <-. exists f. split; [done|]. intros o Ho.
      destruct (decide (o < off)%nat) as [Hlt|Hge]; [|apply G1; [by left|lia]].
      intros r Hr'. destruct (Hs o ltac:(lia) r Hr') as ([row|] & E & Hrow); [exists (Some row)|exists None]; split; try done. by apply Hmono.
    + rewrite lookup_insert_ne in Hm by done. by apply (covers_mono _ _ _ _ Hmono HC).
  - intros tp' Hm. rewrite G5 in Hm. rewrite G6. apply Hd. by apply lookup_insert_None in Hm as [? _].
Qed.
Lemma flushed_plant_ok f c y :
  plant_ok y → y_run y = Some c →
  let w := (flush f (c_buf c) (y_world y)).1 in
  plant_ok (stop w y) ∧ ((flush f (c_buf c) (y_world y)).2 = Ok tt → covers (λ row, durable row w) (c_from c) (c_pos c)).
Proof.
  intros [H1 H2 H3 H4] Er. destruct (H4 c Er) as (Hb & HC & Hd & Hr). cbn zeta. split.
  - split; cbn [stop y_world y_committed y_from y_run]; [|done| |done].
    + eapply covers_mono, H1. intros row. apply flush_keeps.
    + intros row Ht. apply flush_only in Ht as [Hh|Ht]; [by apply Hr|by apply H3|done].
  - intros Ef. destruct (flush f (c_buf c) (y_world y)) as [w' r] eqn:E. cbn in Ef. subst r. eapply covers_mono, HC. intros row [Hh|Hdu].
    + by eapply flush_done.
    + cbn [fst]. change w' with ((w', Ok tt : res unit).1). rewrite <- E. by apply flush_keeps.
Qed.
Lemma commit_ok f commits c y : plant_ok y → y_run y = Some c → plant_ok (flush_and_commit f commits c y).
Proof.
  intros Hy Er. destruct (flushed_plant_ok f c y Hy Er) as [Hs Hc]. destruct (ok_run _ Hy c Er) as (_ & _ & Hd & _).
  unfold flush_and_commit. destruct (flush f (c_buf c) (y_world y)) as [w [[]|e]]; cbn [fst snd] in *; [|done].
  destruct commits; [|done]. specialize (Hc eq_refl). destruct Hs as [_ _ Ht _].
  split; cbn [y_world y_committed y_from y_run]; [done|done|done|]. intros c' [= <-]. cbn [c_buf c_pos c_from]. split_and!; [apply empty_ok| |done|].
  - eapply covers_mono, Hc. intros row Hrow. by right.
  - intros row Hrow. by apply held_empty in Hrow.
Qed.
Lemma stop_ok y : plant_ok y → plant_ok (stop (y_world y) y).
Proof. intros [H1 H2 H3 H4]. by split. Qed.
Lemma boot_ok ends y : plant_ok y → plant_ok (boot ends y).
Proof.
  intros [H1 H2 H3 H4]. split; cbn [boot y_world y_committed y_from y_run]; try done. intros c [= <-]. cbn [c_buf c_pos c_from].
  split_and!; [apply empty_ok| | |intros row Hrow; by apply held_empty in Hrow].
  - intros tp n [Hn|[Hn He]]%lookup_union_Some_raw.
    + destruct (H1 tp n Hn) as (f & Hf & Hs). exists f. split; [by apply lookup_union_Some_l|]. intros off Ho r Hr.
      destruct (Hs off Ho r Hr) as ([row|] & E & Hrow); [exists (Some row)|exists None]; split; try done. by right.
    + exists n. split; [rewrite lookup_union_r; [done|by apply H2]|]. intros off Ho. lia.
  - intros tp [Hn He]%lookup_union_None. apply lookup_union_None. split; [by apply H2|done].
Qed.
Lemma plant_step_ok y y' : plant_ok y → plant_step y y' → plant_ok y'.
Proof.
  intros Hy [ends Er|batch c c' Er Hb|batch c e Er Hb|f commits elapsed c Er Hd|f commits c Er|].
  - by apply boot_ok.
  - destruct Hy as [H1 H2 H3 H4]. split; cbn [y_world y_committed y_from y_run]; try done. intros c'' [= <-].
    exact (take_batch_ok _ _ _ _ Hb (H4 c Er)).
  - by apply stop_ok.
  - by apply commit_ok.
  - by apply stop_ok, commit_ok.
  - by apply stop_ok.
Qed.
Lemma plant_reachable w0 y : (∀ row, ¬ trace row w0) → rtc plant_step (installed w0) y → plant_ok y.
Proof.
  intros H0 H. assert (Hi : plant_ok (installed w0)).
  { split; cbn; try done. intros row Ht. by destruct (H0 row). }
  induction H as [|x z v Hxz _ IH]; [done|]. apply IH; by eapply plant_step_ok.
Qed.
(** What every flush of a sound buffer preserves holds of the world throughout. *)
Lemma world_reachable w0 y (I : W → Prop) :
  (∀ row, ¬ trace row w0) → I w0 → (∀ f b w, buf_ok b → I w → I (flush f b w).1) → rtc plant_step (installed w0) y → I (y_world y).
Proof.
  intros H0 Hw HI H. assert (Hi : plant_ok (installed w0)) by (apply (plant_reachable w0); [done|apply rtc_refl]).
  change w0 with (y_world (installed w0)) in Hw. clear H0. induction H as [|x z v Hxz _ IH]; [done|].
  apply IH; [|by eapply plant_step_ok]. assert (Hf : ∀ f commits c, y_run x = Some c → I (y_world (flush_and_commit f commits c x))).
  { intros f commits c Er. destruct (ok_run _ Hi c Er) as [Hb _]. specialize (HI f _ _ Hb Hw). unfold flush_and_commit.
    destruct (flush f (c_buf c) (y_world x)) as [w [u|e]]; [destruct commits|]; done. }
  destruct Hxz; cbn; try done; by apply Hf.
Qed.
(** What a record that raises does: nothing at or after it is ever committed. *)
Lemma raising_record_blocks w0 y tp off r e n f :
  (∀ row, ¬ trace row w0) → rtc plant_step (installed w0) y → log tp !! off = Some r → handle tp off r = Raise e →
  y_committed y !! tp = Some n → y_from y !! tp = Some f → (f <= off)%nat → (n <= off)%nat.
Proof.
  intros H0 H Hr He Hn Hf Hle. destruct (plant_reachable w0 y H0 H) as [H1 _ _ _]. destruct (H1 tp n Hn) as (f' & Hf' & Hs).
  rewrite Hf in Hf'. injection Hf' as <-. destruct (decide (n <= off)%nat) as [|Hgt]; [done|].
  destruct (Hs off ltac:(lia) r Hr) as (row & E & _). by rewrite He in E.
Qed.
End loop.
Arguments consumer : clear implicits.
Arguments plant : clear implicits.
