(* ===== verification/Normalizer.v ===== *)
(** * Normalization at the trusted ingress (services/normalizer/models.py, app.py)

    A bus record becomes a typed row and a canonical observation: the identity is injected,
    the row's columns are read from the event, the observation names the record it came
    from.  The process inserts the rows of each table, publishes their observations once
    they are stored, and commits.

    Instants are microseconds.  Timestamps are read in the extended ISO form, with the
    offset's colon or without it.  The observation column holds the text of the document;
    the row keeps the document that text is read back to. *)

From stdpp Require Import gmap relations.
From S2P Require Import Prelude Order PyVal PyString OrderedMap PyTime IsoTime Json JsonSchema BatchLoop.
Set Default Proof Using "Type".

(** ** Typed rows *)

Definition SUPPORTED : list string := ["flow"; "tls"; "dns"].
Definition inject_identity (eve : dict) (cfg_tenant cfg_sensor : string) : string * val :=
  (cfg_tenant, py_or (py_or (dgetN "host" eve) (dgetN "sensor_id" eve)) (VStr cfg_sensor)).
Definition _ndpi (eve : dict) : dict := match dgetN "ndpi" eve with VDict n => n | _ => [] end.
(** [int(d.get(k, 0) or 0)], [d.get(k, {}) or {}] *)
Definition int_or_0 (k : string) (d : dict) : res Z := py_int (py_or (dget_or k (VInt 0) d) (VInt 0)).
Definition object_or_empty (k : string) (d : dict) : res dict := as_dict (py_or (dget_or k (VDict []) d) (VDict [])).

Section rows.
Context (repr : val → string).

Definition _risks (ndpi : dict) : list string :=
  match dgetN "risk" ndpi with
  | VList l => py_str repr <$> l
  | VDict d => d.*1
  | r => if truthy r then [py_str repr r] else []
  end.
Definition flow_row (eve : dict) (tenant : string) (sensor : val) : res dict :=
  f ← object_or_empty "flow" eve;
  let n := _ndpi eve in
  flow_id ← int_or_0 "flow_id" eve;
  src_port ← int_or_0 "src_port" eve;
  dst_port ← int_or_0 "dest_port" eve;
  pts ← int_or_0 "pkts_toserver" f;
  ptc ← int_or_0 "pkts_toclient" f;
  bts ← int_or_0 "bytes_toserver" f;
  btc ← int_or_0 "bytes_toclient" f;
  Ok [("tenant_id", VStr tenant); ("sensor_id", sensor); ("event_time", dget_or "timestamp" (VStr "") eve);
      ("flow_id", VInt flow_id); ("community_id", dget_or "community_id" (VStr "") eve);
      ("src_ip", dget_or "src_ip" (VStr "") eve); ("src_port", VInt src_port);
      ("dst_ip", dget_or "dest_ip" (VStr "") eve); ("dst_port", VInt dst_port);
      ("transport", dget_or "proto" (VStr "") eve); ("app_proto", dget_or "app_proto" (VStr "") eve);
      ("ndpi_protocol", VStr (py_str repr (dget_or "proto" (VStr "") n)));
      ("ndpi_application", VStr (py_str repr (dget_or "app_protocol" (dget_or "application" (VStr "") n) n)));
      ("ndpi_risk_set", VList (VStr <$> _risks n));
      ("pkts_to_server", VInt pts); ("pkts_to_client", VInt ptc); ("bytes_to_server", VInt bts); ("bytes_to_client", VInt btc);
      ("state", dget_or "state" (VStr "") f); ("alerted", VInt (if truthy (dgetN "alert" eve) then 1 else 0))].
(** A fingerprint: the hash of an object, the text of anything else. *)
Definition fingerprint_text (v : val) : val :=
  match v with VDict d => dget_or "hash" (VStr "") d | _ => VStr (py_str repr (py_or v (VStr ""))) end.
Definition tls_row (eve : dict) (tenant : string) (sensor : val) : res dict :=
  t ← object_or_empty "tls" eve;
  dst_port ← int_or_0 "dest_port" eve;
  Ok [("tenant_id", VStr tenant); ("sensor_id", sensor); ("event_time", dget_or "timestamp" (VStr "") eve);
      ("community_id", dget_or "community_id" (VStr "") eve); ("src_ip", dget_or "src_ip" (VStr "") eve);
      ("dst_ip", dget_or "dest_ip" (VStr "") eve); ("dst_port", VInt dst_port);
      ("sni", dget_or "sni" (VStr "") t); ("tls_version", dget_or "version" (VStr "") t);
      ("ja3", fingerprint_text (dget_or "ja3" (VDict []) t)); ("ja3s", fingerprint_text (dget_or "ja3s" (VDict []) t));
      ("ja4", py_or (dget_or "ja4" (VStr "") t) (VStr ""));
      ("ndpi_application", VStr (py_str repr (dget_or "app_protocol" (VStr "") (_ndpi eve))))].
(** [queries[0] if queries else d] *)
Definition first_query (queries : val) (d : dict) : res val :=
  if truthy queries then
    match queries with
    | VList (q :: _) => Ok q
    | VStr (String c _) => Ok (VStr (String c ""))
    | VDict _ => Raise KeyError
    | _ => Raise TypeError
    end
  else Ok (VDict d).
Definition dns_row (eve : dict) (tenant : string) (sensor : val) (stream_version : Z) : res dict :=
  d ← object_or_empty "dns" eve;
  match dgetN "version" d with
  | VNone => Ok tt
  | declared => v ← py_int declared; check (v =? stream_version) QuarantineError
  end;;
  q0 ← first_query (py_or (dgetN "queries" d) (VList [])) d;
  q0 ← as_dict q0;
  Ok [("tenant_id", VStr tenant); ("sensor_id", sensor); ("event_time", dget_or "timestamp" (VStr "") eve);
      ("dns_version", VInt stream_version); ("community_id", dget_or "community_id" (VStr "") eve);
      ("client_ip", dget_or "src_ip" (VStr "") eve); ("resolver_ip", dget_or "dest_ip" (VStr "") eve);
      ("query_name", dget_or "rrname" (dget_or "rrname" (VStr "") d) q0);
      ("query_type", dget_or "rrtype" (dget_or "rrtype" (VStr "") d) q0);
      ("rcode", dget_or "rcode" (VStr "") d)].
Definition TABLE_FOR : list (string * string) :=
  [("flow", "network_flow"); ("tls", "tls_observation"); ("dns", "dns_transaction")].
(** [v in a set or dict of strings]: a list or an object cannot be hashed. *)
Definition hashed_in (v : val) (keys : list string) : res bool :=
  match v with VList _ | VDict _ => Raise TypeError | _ => Ok (val_in_strs v keys) end.
Definition normalize (eve : dict) (tenant sensor : string) (dns_version : Z) : res (option (string * dict)) :=
  let et := dgetN "event_type" eve in
  supported ← hashed_in et SUPPORTED;
  if negb supported then Ok None
  else
    let '(tenant, sensor) := inject_identity eve tenant sensor in
    if val_eq_str et "flow" then row ← flow_row eve tenant sensor; Ok (Some ("network_flow", row))
    else if val_eq_str et "tls" then row ← tls_row eve tenant sensor; Ok (Some ("tls_observation", row))
    else if val_eq_str et "dns" then row ← dns_row eve tenant sensor dns_version; Ok (Some ("dns_transaction", row))
    else Ok None.
End rows.

(** ** Canonical observations *)

Definition OBSERVATION_TABLES : list (string * string) := TABLE_FOR ++ [("http", "http_observation")].
Fixpoint finite_json (v : val) : bool :=
  match v with
  | VFloat f => is_finite f
  | VList l => forallb finite_json l
  | VDict d => forallb (λ kv : string * val, finite_json kv.2) d
  | _ => true
  end.
Definition _datetime (v : val) : res Z :=
  match v with
  | VStr s =>
      match fromisoformat (fix_offset (replace_zulu s)) with
      | Some (local, Some o) => check (is_datetime (local - o)) OverflowError;; Ok (local - o)
      | _ => Raise QuarantineError
      end
  | _ => Raise QuarantineError
  end.
Definition COPIED : list string :=
  ["flow_id"; "community_id"; "src_ip"; "src_port"; "dest_ip"; "dest_port"; "proto"; "app_proto"; "tx_id"].
Definition copied_fields (eve : dict) : dict := omap (λ k, pair k <$> dget k eve) COPIED.
Definition nonempty_str (v : val) : bool := match v with VStr s => str_truthy s | _ => false end.
Definition has_fingerprint (payload : dict) (fingerprint : string) : bool :=
  nonempty_str (match dgetN fingerprint payload with VDict d => dgetN "hash" d | v => v end).
Definition capabilities_of (et : string) (fields payload : dict) : list string :=
  (if String.eqb et "flow" then ["flow-only"]
   else [default "" (assoc et [("dns", "dns-transaction"); ("tls", "tls-handshake"); ("http", "http-metadata")])]) ++
  (if truthy (dgetN "community_id" fields) then ["community-id"] else []) ++
  (if String.eqb et "tls" then List.filter (has_fingerprint payload) ["ja3"; "ja4"] else []).
Definition entities_of (eve : dict) : list val :=
  omap (λ kr : string * string,
    let v := dgetN kr.1 eve in
    if nonempty_str v then Some (VDict [("type", VStr "ip"); ("role", VStr kr.2); ("value", v)]) else None)
    [("src_ip", "src"); ("dest_ip", "dst")].
(** The time of the observation: the sensor's corrected by the trusted offset, in
    milliseconds, or else the ingest time. *)
Definition normalized_time (sensor_time ingest_time : Z) (clock_offset_ms : option Z) : res (Z * string) :=
  match clock_offset_ms with
  | Some ms => check (is_datetime (sensor_time - ms * 1000)) OverflowError;; Ok (sensor_time - ms * 1000, "clock-offset")
  | None => Ok (ingest_time, "ingest-fallback")
  end.

Section observation.
Context (sha256 : string → string) (json_text : val → string) (repr : val → string).

Definition canonical_json (v : val) : res string := if finite_json v then Ok (json_text v) else Raise ValueError.
Definition obs_id_of (tenant : string) (sensor : val) (topic : string) (partition offset : Z) : string :=
  "obs:" +:+ sha256 (json_text (VList [VStr tenant; sensor; VStr topic; VInt partition; VInt offset])).
Definition typed_columns (et : string) (eve : dict) (tenant : string) (sensor : val) (dns_version : Z) : res dict :=
  if String.eqb et "http" then
    t ← dindex "timestamp" eve; Ok [("tenant_id", VStr tenant); ("sensor_id", sensor); ("event_time", t)]
  else
    row ← normalize repr eve tenant (match sensor with VStr s => s | _ => "" end) dns_version;
    match row with Some (_, row) => Ok row | None => Raise TypeError end.
Definition observation_doc (eve : dict) (et table : string) (payload : dict) (tenant : string) (sensor : val) (topic : string)
    (partition offset normalized ingest_time : Z) (method : string) (clock_offset_ms : option Z) (raw : string) : dict :=
  let obs_id := obs_id_of tenant sensor topic partition offset in
  let fields := dset et (VDict payload) (copied_fields eve) in
  [("schema", VStr "cernity.observation.v1"); ("obs_id", VStr obs_id); ("tenant", VStr tenant); ("sensor_id", sensor);
   ("ts", VDict [("sensor", dgetN "timestamp" eve); ("normalized", VStr (isoformat normalized));
                 ("ingested", VStr (isoformat ingest_time)); ("method", VStr method);
                 ("clock_offset_ms", from_option VInt VNone clock_offset_ms)]);
   ("entities", VList (entities_of eve)); ("type", VStr (if String.eqb et "flow" then "conn" else et));
   ("fields", VDict fields); ("capabilities", VList (VStr <$> capabilities_of et fields payload));
   ("source_ref", VDict [("kind", VStr "clickhouse-row"); ("table", VStr ("ndr." +:+ table)); ("tenant", VStr tenant);
                         ("obs_id", VStr obs_id); ("sha256", VStr (sha256 raw)); ("topic", VStr topic);
                         ("partition", VInt partition); ("offset", VInt offset)])].
Definition observation (eve : dict) (tenant sensor : string) (topic : string) (partition offset : Z) (ingested_at : string)
    (clock_offset_ms : option Z) (dns_version : Z) : res (option (string * dict * dict)) :=
  known ← hashed_in (dgetN "event_type" eve) (OBSERVATION_TABLES.*1);
  match known, dgetN "event_type" eve with
  | true, VStr et =>
      let '(tenant, sensor) := inject_identity eve tenant sensor in
      check (str_truthy tenant && nonempty_str sensor) QuarantineError;;
      sensor_time ← _datetime (dgetN "timestamp" eve);
      ingest_time ← _datetime (VStr ingested_at);
      '(normalized, method) ← normalized_time sensor_time ingest_time clock_offset_ms;
      let table := default "" (assoc et OBSERVATION_TABLES) in
      row ← typed_columns et eve tenant sensor dns_version;
      raw ← canonical_json (VDict eve);
      payload ← match dgetN et eve with VDict (kv :: p) => Ok (kv :: p) | _ => Raise QuarantineError end;
      let doc := observation_doc eve et table payload tenant sensor topic partition offset normalized ingest_time method clock_offset_ms raw in
      text ← canonical_json (VDict doc);
      Ok (Some (table, dset "raw_record" (VStr raw) (dset "observation" (VStr text) row), doc))
  | _, _ => Ok None
  end.

(** ** The process *)

Context (TENANT SENSOR : string) (DNS_VERSION FLUSH_ROWS : Z) (json_dumps : val → string) (clock : Z).

(** A buffered row: its table, its columns, the instant its event time became, and the
    document its observation column is the text of. *)
Record typed_row := { tr_table : string; tr_cols : dict; tr_time : Z; tr_doc : dict }.
Definition _ts (row : dict) : Z :=
  match py_or (dgetN "event_time" row) (VStr "") with
  | VStr raw => match fromisoformat (fix_offset (replace_zulu raw)) with Some (local, o) => local - default 0 o | None => clock end
  | _ => clock
  end.
Definition normalize_record (tp : partition) (off : nat) (r : krecord) : res (option typed_row) :=
  match k_value r with
  | p_absent => Raise AttributeError
  | p_garbled => Raise ValueError
  | p_json v =>
      ts ← append_time r;
      eve ← as_dict v;
      match observation eve TENANT SENSOR tp.1 tp.2 (Z.of_nat off) (isoformat ts) None DNS_VERSION with
      | Ok None | Raise QuarantineError => Ok None
      | Ok (Some (table, row, doc)) => Ok (Some {| tr_table := table; tr_cols := row; tr_time := _ts row; tr_doc := doc |})
      | Raise e => Raise e
      end
  end.
Abbreviation buffers := (list (string * list typed_row)).
Definition buffer_row (row : typed_row) (b : buffers) : buffers :=
  od_set (tr_table row) (default [] (od_get (tr_table row) b) ++ [row]) b.

(** The stored rows, the published messages (key text and document), how many more calls
    succeed, and whether the call that fails takes effect all the same. *)
Record world := { w_rows : list typed_row; w_topic : list (string * dict); w_left : nat; w_late : bool }.
Definition call (g : world → world) : M world unit := λ w,
  match w_left w with
  | S n => (g {| w_rows := w_rows w; w_topic := w_topic w; w_left := n; w_late := w_late w |}, Ok tt)
  | O => (if w_late w then g w else w, Raise OtherError)
  end.
Definition store_rows (rows : list typed_row) (w : world) : world :=
  {| w_rows := w_rows w ++ rows; w_topic := w_topic w; w_left := w_left w; w_late := w_late w |}.
Definition send (m : string * dict) (w : world) : world :=
  {| w_rows := w_rows w; w_topic := w_topic w ++ [m]; w_left := w_left w; w_late := w_late w |}.
(** The cells of a row under the columns of the insert. *)
Definition cells (cols : list string) (row : typed_row) : res typed_row :=
  cs ← mapM (M := res) (λ c, v ← dindex c (tr_cols row); Ok (c, v)) cols;
  Ok {| tr_table := tr_table row; tr_cols := cs; tr_time := tr_time row; tr_doc := tr_doc row |}.
Definition entity_of (doc : dict) : res val :=
  es ← dindex "entities" doc;
  if truthy es then match es with VList (VDict e :: _) => dindex "value" e | _ => Raise TypeError end
  else dindex "sensor_id" doc.
Definition message (row : typed_row) : res (string * dict) :=
  entity ← entity_of (tr_doc row);
  tenant ← dindex "tenant" (tr_doc row);
  Ok (json_dumps (VList [tenant; entity]), tr_doc row).
Definition publish (row : typed_row) : M world unit := let* m := lift (message row) in call (send m).
Definition flush_table (g : string * list typed_row) : M world unit :=
  match g.2 with
  | [] => ret tt
  | r :: _ =>
      let* data := lift (mapM (M := res) (cells (tr_cols r).*1) g.2) in
      call (store_rows data);*
      for_each publish g.2
  end.
Definition flush_buffers (f : nat * bool) (b : buffers) (w : world) : world * res unit :=
  for_each flush_table b {| w_rows := w_rows w; w_topic := w_topic w; w_left := f.1; w_late := f.2 |}.
Definition normalizer_due (elapsed : bool) (pending : nat) (_ : bool) : bool :=
  (FLUSH_ROWS <=? Z.of_nat pending) || ((0 <? Z.of_nat pending) && elapsed).
#[export] Instance normalizer : Batcher typed_row buffers world (nat * bool) := {
  handle := normalize_record; buf_empty := []; buf_push := buffer_row; flush := flush_buffers; due := normalizer_due
}.

(** ** Facts *)

(** *** Rows and documents *)

Definition columns (table : string) : list string :=
  match assoc table
    [("network_flow", ["tenant_id"; "sensor_id"; "event_time"; "flow_id"; "community_id"; "src_ip"; "src_port"; "dst_ip"; "dst_port";
        "transport"; "app_proto"; "ndpi_protocol"; "ndpi_application"; "ndpi_risk_set"; "pkts_to_server"; "pkts_to_client";
        "bytes_to_server"; "bytes_to_client"; "state"; "alerted"]);
     ("tls_observation", ["tenant_id"; "sensor_id"; "event_time"; "community_id"; "src_ip"; "dst_ip"; "dst_port"; "sni"; "tls_version";
        "ja3"; "ja3s"; "ja4"; "ndpi_application"]);
     ("dns_transaction", ["tenant_id"; "sensor_id"; "event_time"; "dns_version"; "community_id"; "client_ip"; "resolver_ip";
        "query_name"; "query_type"; "rcode"]);
     ("http_observation", ["tenant_id"; "sensor_id"; "event_time"])] with
  | Some cols => cols ++ ["observation"; "raw_record"]
  | None => []
  end.
Ltac steps := repeat match goal with
  | H : (_ ≫= _) = Ok _ |- _ => apply bind_ok_inv in H as (? & ? & H)
  | H : check _ _ = Ok _ |- _ => apply check_ok_inv in H
  end.
Lemma known_event (eve : dict) et : dgetN "event_type" eve = VStr et → hashed_in (dgetN "event_type" eve) (OBSERVATION_TABLES.*1) = Ok true →
  et = "flow" ∨ et = "tls" ∨ et = "dns" ∨ et = "http".
Proof.
  intros -> H. unfold hashed_in, val_in_strs in H. cbn in H. rewrite !orb_false_r in H. injection H as H.
  rewrite !orb_true_iff, !String.eqb_eq in H. destruct H as [->|[->|[->| ->]]]; auto.
Qed.
Lemma row_columns et (eve : dict) tenant s dv cols :
  (et = "flow" ∨ et = "tls" ∨ et = "dns" ∨ et = "http") → dgetN "event_type" eve = VStr et →
  typed_columns et eve tenant (VStr s) dv = Ok cols →
  cols.*1 ++ ["observation"; "raw_record"] = columns (default "" (assoc et OBSERVATION_TABLES)) ∧
  dget "event_time" cols = Some (dget_or "timestamp" (VStr "") eve).
Proof.
  intros Het E H. unfold typed_columns, normalize in H. rewrite E in H.
  destruct Het as [->|[->|[->| ->]]]; cbn in H; steps;
    unfold flow_row, tls_row, dns_row, dindex in *; cbn in *; steps;
    repeat match goal with H : match ?x with Some _ => _ | None => _ end = Ok _ |- _ => destruct x eqn:? ; [|done] end;
    repeat match goal with H : Ok _ = Ok _ |- _ => injection H as <- end; try (by split).
  split; [done|]. unfold dget_or. by rewrite Heqo.
Qed.
(** What a record that becomes a row has, and what its document is. *)
Record observed (eve : dict) (tp : partition) (off : nat) (ingested : Z) (row : typed_row) : Prop := {
  ob_event : ∃ et payload raw st s, dgetN "event_type" eve = VStr et ∧ assoc et OBSERVATION_TABLES = Some (tr_table row) ∧
    dgetN et eve = VDict payload ∧ payload ≠ [] ∧ (inject_identity eve TENANT SENSOR).2 = VStr s ∧
    canonical_json (VDict eve) = Ok raw ∧ dgetN "raw_record" (tr_cols row) = VStr raw ∧
    _datetime (dgetN "timestamp" eve) = Ok st ∧ tr_time row = st ∧
    tr_doc row = observation_doc eve et (tr_table row) payload TENANT (VStr s) tp.1 tp.2 (Z.of_nat off) ingested ingested "ingest-fallback" None raw;
  ob_columns : (tr_cols row).*1 = columns (tr_table row)
}.
Lemma datetime_isoformat t : is_datetime t = true → _datetime (VStr (isoformat t)) = Ok t.
Proof. intros H. unfold _datetime. rewrite read_isoformat by done. by rewrite Z.sub_0_r, H. Qed.
Lemma append_time_datetime r t : append_time r = Ok t → is_datetime t = true.
Proof.
  unfold append_time. destruct (k_time r) as [ms|]; [|done]. intros H. steps. by injection H as <-.
Qed.
Lemma dset_fresh_keys (k : string) (v : val) (d : dict) : k ∉ d.*1 → (dset k v d).*1 = d.*1 ++ [k].
Proof.
  induction d as [|[k' v'] d IH]; [done|]. cbn [fmap list_fmap dset fst]. rewrite not_elem_of_cons. intros [Hne Hk].
  destruct (String.eqb_spec k k') as [->|]; [done|]. cbn. f_equal. by apply IH.
Qed.
Lemma columns_NoDup table : NoDup (columns table).
Proof.
  unfold columns. cbn [assoc].
  repeat match goal with |- context [String.eqb table ?x] => destruct (String.eqb table x) end; apply (bool_decide_unpack _); vm_compute; exact I.
Qed.
Lemma normalize_record_inv tp off r row :
  normalize_record tp off r = Ok (Some row) →
  ∃ eve ts, k_value r = p_json (VDict eve) ∧ append_time r = Ok ts ∧
    observation eve TENANT SENSOR tp.1 tp.2 (Z.of_nat off) (isoformat ts) None DNS_VERSION = Ok (Some (tr_table row, tr_cols row, tr_doc row)) ∧
    tr_time row = _ts (tr_cols row).
Proof.
  unfold normalize_record. destruct (k_value r) as [| |v]; [done|done|]. intros H. apply bind_ok_inv in H as (ts & Ht & H).
  apply bind_ok_inv in H as (eve & Ev & H). destruct v; try done. injection Ev as <-. exists d, ts. split; [done|].
  destruct (observation d _ _ _ _ _ _ _ _) as [[[[table cols] doc]|]|[]]; try done. by injection H as <-.
Qed.
Lemma observed_row tp off r row :
  normalize_record tp off r = Ok (Some row) →
  ∃ eve ts, k_value r = p_json (VDict eve) ∧ append_time r = Ok ts ∧ observed eve tp off ts row.
Proof.
  intros (eve & ts & Ev & Ht & H & Etime)%normalize_record_inv. exists eve, ts. split_and!; [done|done|].
  apply append_time_datetime in Ht as Hdt. unfold observation in H. apply bind_ok_inv in H as (known & Hk & H).
  destruct known; [|done]. destruct (dgetN "event_type" eve) as [| | | |et| |] eqn:Ee; try done.
  rewrite <- Ee in Hk. pose proof (known_event _ _ Ee Hk) as Het.
  destruct (inject_identity eve TENANT SENSOR) as [tenant sensor] eqn:Ei. assert (tenant = TENANT) as -> by (by injection Ei).
  apply bind_ok_inv in H as (u & Hc & H). apply check_ok_inv in Hc. apply andb_true_iff in Hc as [_ Hs]. destruct sensor as [| | | |s| |]; try done.
  apply bind_ok_inv in H as (st & Hst & H). rewrite datetime_isoformat in H by done. cbn [mbind res_bind normalized_time] in H.
  apply bind_ok_inv in H as (cols & Hcols & H). destruct (row_columns _ _ _ _ _ _ Het Ee Hcols) as [Ekeys Etimecol].
  assert (Hassoc : assoc et OBSERVATION_TABLES = Some (default "" (assoc et OBSERVATION_TABLES))) by (by destruct Het as [->|[->|[->| ->]]]).
  cbv zeta in H. set (tbl := default "" (assoc et OBSERVATION_TABLES)) in *. clearbody tbl.
  apply bind_ok_inv in H as (raw & Hraw & H). apply bind_ok_inv in H as (payload & Hp & H).
  destruct (dgetN et eve) as [| | | | | |p] eqn:Ep; try done. destruct p as [|kv p]; [done|]. injection Hp as <-.
  apply bind_ok_inv in H as (text & _ & H). injection H as Etab Erow Edoc.
  assert (Hfresh : "observation" ∉ cols.*1 ∧ "raw_record" ∉ cols.*1 ++ ["observation"]).
  { pose proof (columns_NoDup (tr_table row)) as Hnd. rewrite <- Etab, <- Ekeys in Hnd.
    change ["observation"; "raw_record"] with (["observation"] ++ ["raw_record"]) in Hnd. rewrite app_assoc in Hnd.
    apply NoDup_app in Hnd as (Hnd & Hx & _). apply NoDup_app in Hnd as (_ & Hy & _). split.
    - intros Hin. apply (Hy _ Hin). by left.
    - intros Hin. apply (Hx _ Hin). by left. }
  destruct Hfresh as [Hf1 Hf2]. assert (Ek : (tr_cols row).*1 = columns (tr_table row)).
  { rewrite <- Erow, <- Etab, <- Ekeys. rewrite dset_fresh_keys; rewrite (dset_fresh_keys "observation") by done; [by rewrite <- app_assoc|done]. }
  split; [|done]. exists et, (kv :: p), raw, st, s. split_and!; try done.
  - by rewrite <- Etab.
  - by rewrite Ei.
  - rewrite <- Erow. by simpl_dict.
  - rewrite Etime. unfold _ts. rewrite <- Erow. simpl_dict. unfold dgetN, dget_or at 1. simpl_dict. rewrite Etimecol. cbn [default].
    unfold _datetime, dgetN, dget_or in Hst. unfold dget_or. destruct (dget "timestamp" eve) as [v|]; [|done]. cbn [default id from_option] in *.
    destruct v as [| | | |raw_time| |]; try done.
    assert (Et : py_or (VStr raw_time) (VStr "") = VStr raw_time) by (unfold py_or; cbn; by destruct raw_time).
    rewrite Et. destruct (fromisoformat _) as [[local [o|]]|]; [|done|done]. steps. by injection Hst.
  - by rewrite <- Edoc, <- Etab.
Qed.

(** *** Flushing *)

Definition row_wf (row : typed_row) : Prop := (tr_cols row).*1 = columns (tr_table row) ∧ is_ok (message row) = true.
Definition group_ok (g : string * list typed_row) : Prop := ∀ row, row ∈ g.2 → tr_table row = g.1 ∧ row_wf row.
(** Published: the row's message is on the topic.  Nothing is on the topic but messages of
    stored rows. *)
Definition published (row : typed_row) (w : world) : Prop := ∃ m, message row = Ok m ∧ m ∈ w_topic w.
Definition stored_first (w : world) : Prop := ∀ m, m ∈ w_topic w → ∃ row, row ∈ w_rows w ∧ message row = Ok m.
Record flushes_to (P : typed_row → Prop) (w w' : world) : Prop := {
  ft_rows : w_rows w ⊆ w_rows w';
  ft_topic : w_topic w ⊆ w_topic w';
  ft_only : ∀ row, row ∈ w_rows w' → row ∈ w_rows w ∨ P row;
  ft_first : stored_first w → stored_first w'
}.
#[local] Instance flushes_preorder P : PreOrder (flushes_to P).
Proof.
  split; [by split; auto|]. intros a b c [A1 A2 A3 A4] [B1 B2 B3 B4]. split; [by etrans|by etrans| |auto].
  intros row [H%A3|H]%B3; [done|by right].
Qed.
Lemma entities_value eve sensor : (∃ v, (es ← Ok (VList (entities_of eve));
    if truthy es then match es with VList (VDict e :: _) => dindex "value" e | _ => Raise TypeError end else Ok sensor) = Ok v).
Proof.
  unfold entities_of. cbn. destruct (nonempty_str (dgetN "src_ip" eve)); cbn; [eauto|]. destruct (nonempty_str (dgetN "dest_ip" eve)); cbn; eauto.
Qed.
Lemma observed_wf eve tp off ts row : observed eve tp off ts row → row_wf row.
Proof.
  intros [(et & payload & raw & st & s & _ & _ & _ & _ & _ & _ & _ & _ & _ & Ed) Hk]. split; [done|]. unfold message, entity_of. rewrite Ed.
  destruct (entities_value eve (VStr s)) as [v Hv]. cbn in Hv |- *. by rewrite Hv.
Qed.
Lemma project_cols (d : dict) : NoDup d.*1 → mapM (M := res) (λ c, v ← dindex c d; Ok (c, v)) d.*1 = Ok d.
Proof.
  intros Hd. assert (H : ∀ l, l ⊆ d → mapM (M := res) (λ c, v ← dindex c d; Ok (c, v)) l.*1 = Ok l).
  { induction l as [|[k v] l IH]; intros Hl; [done|]. cbn [fmap list_fmap mapM fst].
    assert (E : dindex k d = Ok v) by (unfold dindex; rewrite (dget_unique k v); [done|done|apply Hl; by left]). rewrite E.
    cbn [mbind res_bind]. change (list_fmap _ _ fst l) with l.*1. rewrite IH; [done|]. intros x Hx. apply Hl. by right. }
  by apply H.
Qed.
Lemma cells_same table rows : (∀ row, row ∈ rows → tr_table row = table ∧ row_wf row) → mapM (M := res) (cells (columns table)) rows = Ok rows.
Proof.
  induction rows as [|row rows IH]; intros H; [done|]. cbn [mapM]. destruct (H row ltac:(by left)) as [Et [Hwf _]].
  assert (E : cells (columns table) row = Ok row).
  { unfold cells. rewrite <- Et, <- Hwf, project_cols by (rewrite Hwf; apply columns_NoDup). by destruct row. }
  rewrite E. cbn [mbind res_bind]. rewrite IH by (intros x Hx; apply H; by right). done.
Qed.
Lemma publish_run row w :
  publish row w = match message row with Ok m => call (send m) w | Raise e => (w, Raise e) end.
Proof. unfold publish, bind, lift. by destruct (message row). Qed.
Lemma call_send P m row w :
  row ∈ w_rows w → message row = Ok m → flushes_to P w (call (send m) w).1.
Proof.
  intros Hrow Hm. unfold call. destruct (w_left w); [destruct (w_late w); [|done]|]; cbn; split; cbn; auto;
    try (intros x Hx; apply elem_of_app; by left);
    intros Hs m' [H|H]%elem_of_app; try (by apply Hs); apply list_elem_of_singleton in H as ->; by exists row.
Qed.
Lemma publish_all P rows w :
  rows ⊆ w_rows w →
  flushes_to P w (for_each publish rows w).1 ∧
  ((for_each publish rows w).2 = Ok tt → ∀ row, row ∈ rows → published row (for_each publish rows w).1).
Proof.
  revert w. induction rows as [|row rows IH]; intros w Hin; cbn [for_each]; [split; [done|by intros _ x ?%elem_of_nil]|].
  unfold bind. rewrite publish_run. destruct (message row) as [m|e] eqn:Em; [|by cbn; split].
  pose proof (call_send P m row w (Hin row ltac:(by left)) Em) as Hc.
  assert (Hok : (call (send m) w).2 = Ok tt → m ∈ w_topic (call (send m) w).1).
  { unfold call. destruct (w_left w); [by destruct (w_late w)|]. intros _. cbn. apply elem_of_app. right. by left. }
  destruct (call (send m) w) as [w1 [[]|e]]; cbn [fst snd] in *; [|by split].
  destruct (IH w1) as [H1 H2]; [intros x Hx; apply (ft_rows _ _ _ Hc), Hin; by right|]. split; [by etrans|].
  intros Hr x [->|Hx]%elem_of_cons; [exists m; split; [done|]|by apply H2]. by apply (ft_topic _ _ _ H1), Hok.
Qed.
Lemma flush_table_spec g w :
  group_ok g →
  flushes_to (λ row, row ∈ g.2) w (flush_table g w).1 ∧
  ((flush_table g w).2 = Ok tt → ∀ row, row ∈ g.2 → row ∈ w_rows (flush_table g w).1 ∧ published row (flush_table g w).1).
Proof.
  intros Hg. unfold flush_table. destruct (g.2) as [|r rows] eqn:Eg; [by split; [|intros _ row ?%elem_of_nil]|]. rewrite <- Eg in *.
  destruct (Hg r ltac:(rewrite Eg; by left)) as [Et [Hwf _]]. rewrite Hwf, Et. unfold bind, lift. rewrite cells_same by done.
  set (P := λ row, row ∈ g.2). assert (Hc : flushes_to P w (call (store_rows g.2) w).1 ∧
    ((call (store_rows g.2) w).2 = Ok tt → g.2 ⊆ w_rows (call (store_rows g.2) w).1)).
  { assert (Hgen : ∀ n, flushes_to P w (store_rows g.2 {| w_rows := w_rows w; w_topic := w_topic w; w_left := n; w_late := w_late w |})).
    { intros n. split; cbn; [intros x Hx; apply elem_of_app; by left|done|by intros x [H|H]%elem_of_app; [left|right]|].
      intros Hs m (row & Hr & Hm)%Hs. exists row. split; [apply elem_of_app; by left|done]. }
    unfold call. destruct (w_left w) as [|n] eqn:El.
    - destruct (w_late w) eqn:Ell; [|by split]. split; [|done]. destruct w as [? ? n late]. cbn in Ell. subst late. exact (Hgen n).
    - split; [apply Hgen|]. intros _ x Hx. cbn. apply elem_of_app. by right. }
  destruct Hc as [Hc Hin]. destruct (call (store_rows g.2) w) as [w1 [[]|e]]; cbn [fst snd] in *; [|by split].
  destruct (publish_all P g.2 w1 (Hin eq_refl)) as [H1 H2]. split; [by etrans|]. intros Hr row Hrow. split; [|by apply H2].
  by apply (ft_rows _ _ _ H1), Hin.
Qed.
Definition in_buffers (row : typed_row) (b : list (string * list typed_row)) : Prop := ∃ g, g ∈ b ∧ row ∈ g.2.
Lemma flush_groups_spec (b : list (string * list typed_row)) w :
  (∀ g, g ∈ b → group_ok g) →
  flushes_to (λ row, in_buffers row b) w (for_each flush_table b w).1 ∧
  ((for_each flush_table b w).2 = Ok tt →
    ∀ row, in_buffers row b → row ∈ w_rows (for_each flush_table b w).1 ∧ published row (for_each flush_table b w).1).
Proof.
  revert w. induction b as [|g b IH]; intros w Hb; cbn [for_each]; [split; [done|by intros _ row (g & ?%elem_of_nil & _)]|].
  destruct (flush_table_spec g w (Hb g ltac:(by left))) as [H1 H2]. unfold bind.
  assert (Hw : ∀ P Q w1 w2, (∀ row, P row → Q row) → flushes_to P w1 w2 → flushes_to Q w1 w2).
  { intros P Q w1 w2 HPQ [A1 A2 A3 A4]. split; try done. intros row [H|H]%A3; [by left|right; by apply HPQ]. }
  assert (Hg : ∀ row, row ∈ g.2 → in_buffers row (g :: b)) by (intros row Hr; exists g; split; [by left|done]).
  destruct (flush_table g w) as [w1 [[]|e]]; cbn [fst snd] in *; [|split; [exact (Hw _ _ _ _ Hg H1)|done]].
  destruct (IH w1) as [G1 G2]; [intros x Hx; apply Hb; by right|]. split.
  - etrans; [exact (Hw _ _ _ _ Hg H1)|]. refine (Hw _ _ _ _ _ G1). intros row (g' & Hg' & Hr). exists g'. split; [by right|done].
  - intros Hr row (g' & [->|Hg']%elem_of_cons & Hrow); [|apply (G2 Hr); by exists g']. destruct (H2 eq_refl row Hrow) as [K1 (m & K2 & K3)].
    split; [by apply (ft_rows _ _ _ G1)|]. exists m. split; [done|]. by apply (ft_topic _ _ _ G1).
Qed.
Lemma in_buffers_push row x b : in_buffers row (buffer_row x b) ↔ row = x ∨ in_buffers row b.
Proof.
  unfold buffer_row, in_buffers. generalize (tr_table x). intros t. induction b as [|[t' rows] b IH]; cbn [od_get od_set].
  - cbn. split.
    + intros (g & ->%list_elem_of_singleton & H%list_elem_of_singleton). by left.
    + intros [->|(g & ?%elem_of_nil & _)]; [|done]. exists (t, [x]). split; by left.
  - case_decide as E.
    + subst. cbn [default id from_option]. split.
      * intros (g & [->|Hg]%elem_of_cons & Hr); [|right; exists g; split; [by right|done]]. cbn in Hr.
        apply elem_of_app in Hr as [Hr| ->%list_elem_of_singleton]; [|by left]. right. eexists. split; [by left|done].
      * intros [->|(g & [->|Hg]%elem_of_cons & Hr)].
        -- eexists. split; [by left|]. cbn. apply elem_of_app. right. by left.
        -- eexists. split; [by left|]. cbn. apply elem_of_app. by left.
        -- exists g. split; [by right|done].
    + split.
      * intros (g & [->|Hg]%elem_of_cons & Hr); [right; eexists; split; [by left|done]|].
        destruct (proj1 IH ltac:(by exists g)) as [->|(g' & Hg' & Hr')]; [by left|right]. exists g'. split; [by right|done].
      * intros H. assert (H' : (row = x ∨ ∃ g, g ∈ b ∧ row ∈ g.2) ∨ row ∈ rows).
        { destruct H as [->|(g & [->|Hg]%elem_of_cons & Hr)]; [left; by left|by right|left; right; by exists g]. }
        destruct H' as [(g & Hg & Hr)%IH|Hr]; [exists g; split; [by right|done]|]. exists (t', rows). split; [by left|done].
Qed.
Lemma group_ok_push x b : row_wf x → (∀ g, g ∈ b → group_ok g) → ∀ g, g ∈ buffer_row x b → group_ok g.
Proof.
  intros Hx Hb [t rows0] [[= -> ->]|Hg]%elem_of_od_set; [|by apply Hb]. intros row. cbn [fst snd]. intros [Hr|Hr]%elem_of_app.
  - destruct (od_get (tr_table x) b) as [rows|] eqn:E; [|by apply elem_of_nil in Hr]. apply od_get_elem in E. by destruct (Hb _ E row Hr).
  - apply list_elem_of_singleton in Hr as ->. done.
Qed.
Definition armed (f : nat * bool) (w : world) : world := {| w_rows := w_rows w; w_topic := w_topic w; w_left := f.1; w_late := f.2 |}.
Lemma flush_buffers_spec f (b : list (string * list typed_row)) w :
  (∀ g, g ∈ b → group_ok g) →
  flushes_to (λ row, in_buffers row b) w (flush_buffers f b w).1 ∧
  ((flush_buffers f b w).2 = Ok tt → ∀ row, in_buffers row b → row ∈ w_rows (flush_buffers f b w).1 ∧ published row (flush_buffers f b w).1).
Proof.
  intros Hb. destruct (flush_groups_spec b (armed f w) Hb) as [H1 H2]. split; [|done]. etrans; [|exact H1]. by split; auto.
Qed.
Lemma flush_buffers_keeps f (b : list (string * list typed_row)) w row :
  row ∈ w_rows w ∧ published row w → row ∈ w_rows (flush_buffers f b w).1 ∧ published row (flush_buffers f b w).1.
Proof.
  assert (Hc : ∀ g w1, (g = id ∨ (∃ l, g = store_rows l) ∨ ∃ m, g = send m) → w_rows w1 ⊆ w_rows (call g w1).1 ∧ w_topic w1 ⊆ w_topic (call g w1).1).
  { intros g w1 [->|[[l ->]|[m ->]]]; unfold call; destruct (w_left w1), (w_late w1); cbn; split; try done; intros x Hx; apply elem_of_app; by left. }
  set (R := λ w1 w2 : world, w_rows w1 ⊆ w_rows w2 ∧ w_topic w1 ⊆ w_topic w2).
  assert (HR : PreOrder R) by (split; [by intros w1|intros w1 w2 w3 [? ?] [? ?]; split; by etrans]).
  assert (Hf : frames R (for_each flush_table b)).
  { apply (frames_for_each R). intros g. unfold flush_table. destruct (g.2) as [|r rows]; [apply (frames_ret R)|].
    apply (frames_bind R); [apply (frames_lift R)|intros data]. apply (frames_bind R); [intros w1; apply Hc; right; left; eauto|intros _].
    apply (frames_for_each R). intros x. unfold publish. apply (frames_bind R); [apply (frames_lift R)|intros m].
    intros w1. apply Hc. right. right. eauto. }
  destruct (Hf (armed f w)) as [H1 H2]. intros [Hr (m & Hm & Hin)]. split; [by apply H1|]. exists m. split; [done|by apply H2].
Qed.
#[export] Instance normalizer_laws : BatcherLaws typed_row (list (string * list typed_row)) world (nat * bool).
Proof.
  refine {| row_ok := row_wf; buf_ok b := ∀ g, g ∈ b → group_ok g; held := in_buffers;
            durable row w := row ∈ w_rows w ∧ published row w; trace row w := row ∈ w_rows w |}.
  - intros tp off r row H. cbn in H. apply observed_row in H as (eve & ts & _ & _ & H). by eapply observed_wf.
  - intros g ?%elem_of_nil. done.
  - intros row b. apply group_ok_push.
  - by intros row (g & ?%elem_of_nil & _).
  - intros row x b. apply in_buffers_push.
  - intros f b w row Hd. by apply flush_buffers_keeps.
  - intros f b w w' row Hb E Hrow. destruct (flush_buffers_spec f b w Hb) as [_ H]. cbn in E. rewrite E in H. by apply H.
  - intros f b w row Hb Ht. destruct (flush_buffers_spec f b w Hb) as [H _]. apply (ft_only _ _ _ H) in Ht. cbn in Ht. by destruct Ht; [right|left].
Defined.

(** *** A flush the outside world answers returns *)

Definition calls_needed (b : list (string * list typed_row)) : nat := sum_list_with (λ g : string * list typed_row, S (length g.2)) b.
Lemma publish_returns rows w :
  (∀ row, row ∈ rows → is_ok (message row) = true) → (length rows <= w_left w)%nat →
  ∃ w', for_each publish rows w = (w', Ok tt) ∧ w_left w' = (w_left w - length rows)%nat.
Proof.
  revert w. induction rows as [|row rows IH]; intros w Hm Hl; cbn [for_each]; [exists w; by rewrite Nat.sub_0_r|]. cbn [length] in *.
  unfold bind. rewrite publish_run. specialize (Hm row ltac:(by left)) as Hr. destruct (message row) as [m|e]; [|done]. unfold call.
  destruct (w_left w) as [|n]; [lia|]. destruct (IH (send m {| w_rows := w_rows w; w_topic := w_topic w; w_left := n; w_late := w_late w |})) as (w' & E & El).
  - intros x Hx. apply Hm. by right.
  - cbn. lia.
  - exists w'. split; [done|]. cbn in El. lia.
Qed.
Lemma flush_returns (f : nat * bool) (b : list (string * list typed_row)) w :
  (∀ g, g ∈ b → group_ok g) → (calls_needed b <= f.1)%nat → (flush_buffers f b w).2 = Ok tt.
Proof.
  unfold flush_buffers. fold (armed f w). intros Hb Hl. assert (Hw : (calls_needed b <= w_left (armed f w))%nat) by done. clear Hl.
  revert Hw. generalize (armed f w). clear f w. induction b as [|g b IH]; intros w Hw; [done|]. cbn [for_each].
  assert (Hg : ∃ w', flush_table g w = (w', Ok tt) ∧ (w_left w <= w_left w' + S (length g.2))%nat).
  { pose proof (Hb g ltac:(by left)) as Hok. unfold flush_table. destruct (g.2) as [|r rows] eqn:Eg; [exists w; split; [done|lia]|].
    rewrite <- Eg in *. destruct (Hok r ltac:(rewrite Eg; by left)) as [Et [Hwf _]]. rewrite Hwf, Et. unfold bind, lift. rewrite cells_same by done.
    unfold call. cbn [calls_needed sum_list_with] in Hw. destruct (w_left w) as [|n]; [lia|].
    edestruct (publish_returns g.2) as (w' & E & El); [|..].
    3: { exists w'. split; [exact E|]. cbn in El. lia. }
    - intros x Hx. by destruct (Hok x Hx) as [_ [_ ?]].
    - cbn. unfold calls_needed in Hw. lia. }
  destruct Hg as (w' & E & El). unfold bind. rewrite E. apply IH; [intros x Hx; apply Hb; by right|].
  cbn [calls_needed sum_list_with] in Hw. unfold calls_needed in *. cbn in Hw. lia.
Qed.

(** *** The process *)

Context (log : partition → list krecord).
Definition empty_world : world := {| w_rows := []; w_topic := []; w_left := 0; w_late := false |}.
Abbreviation reachable y := (rtc (plant_step log) (installed empty_world) y).
Lemma empty_traceless (row : typed_row) : ¬ trace row empty_world.
Proof. cbn. by intros ?%elem_of_nil. Qed.

(** C5. Nothing is acknowledged before it is normalized.  Whatever the bus holds, in every
    state the normalizer can reach through polls of any shape, inserts and sends that fail
    anywhere (with or without having taken effect), commits that fail, crashes and
    restarts, every offset between where the reading of its partition began and the
    committed one is of a record that was skipped, because its type is not persisted or
    because it was quarantined, or whose row is stored and whose observation is published. *)
Theorem committed_is_normalized y tp n :
  reachable y → y_committed y !! tp = Some n →
  ∃ f, y_from y !! tp = Some f ∧ ∀ off r, (f <= off < n)%nat → log tp !! off = Some r →
    normalize_record tp off r = Ok None ∨
    ∃ row, normalize_record tp off r = Ok (Some row) ∧ row ∈ w_rows (y_world y) ∧ published row (y_world y).
Proof.
  intros H Hn. destruct (plant_reachable log _ y empty_traceless H) as [HC _ _ _]. destruct (HC tp n Hn) as (f & Hf & Hs). exists f. split; [done|].
  intros off r Ho Hr. destruct (Hs off Ho r Hr) as ([row|] & E & Hrow); [right; exists row|by left]. by destruct Hrow.
Qed.

(** Every stored row is an event of the bus under the deployment's own tenant, and
    nothing is published before it is stored.  In every reachable state a stored row comes
    from an event whose type is one of the four persisted ones and whose evidence is a
    non-empty object; its event time is the sensor's timestamp, its raw record is the
    event's canonical text, and its observation names the configured tenant, the sensor
    the event was stamped with, the record's coordinates and broker time, with the id those
    coordinates determine: a record that is replayed is stored again under the same id.
    Every message on the topic is the message of a stored row. *)
Theorem observations_attributed y :
  reachable y →
  (∀ row, row ∈ w_rows (y_world y) → ∃ tp off r eve ts,
    log tp !! off = Some r ∧ k_value r = p_json (VDict eve) ∧ append_time r = Ok ts ∧ observed eve tp off ts row) ∧
  (∀ m, m ∈ w_topic (y_world y) → ∃ row, row ∈ w_rows (y_world y) ∧ message row = Ok m).
Proof.
  intros H. split.
  - destruct (plant_reachable log _ y empty_traceless H) as [_ _ HT _]. intros row Hrow.
    destruct (HT row Hrow) as (tp & off & r & Hl & Hh). apply observed_row in Hh as (eve & ts & H1 & H2 & H3). by exists tp, off, r, eve, ts.
  - apply (world_reachable log empty_world y stored_first); [exact empty_traceless|by intros m ?%elem_of_nil| |done].
    intros f b w Hb Hw. destruct (flush_buffers_spec f b w Hb) as [Hs _]. by apply Hs.
Qed.

(** A record that raises, an event whose [flow_id] is no number for one, stops its
    partition: the group never commits past it. *)
Theorem raising_event_blocks y tp off r e n f :
  reachable y → log tp !! off = Some r → normalize_record tp off r = Raise e →
  y_committed y !! tp = Some n → y_from y !! tp = Some f → (f <= off)%nat → (n <= off)%nat.
Proof. intros. eapply (raising_record_blocks log); [exact empty_traceless|done..]. Qed.
End observation.

(** ** A run: a flow is polled, stored, published and committed; a record that follows raises. *)

Definition flow_event (flow_id : val) : dict :=
  [("event_type", VStr "flow"); ("timestamp", VStr "2026-09-29T12:00:00.250000+0200"); ("flow_id", flow_id); ("host", VStr "edge-7");
   ("src_ip", VStr "10.0.0.5"); ("dest_ip", VStr "192.0.2.9"); ("dest_port", VInt 443); ("proto", VStr "TCP");
   ("flow", VDict [("pkts_toserver", VInt 3); ("state", VStr "closed")])].
Definition flow_record (flow_id : val) : krecord := {| k_type := 1; k_time := Some 1790000000000; k_value := p_json (VDict (flow_event flow_id)) |}.
Definition flow_topic : partition := ("suricata.flow.v1", 0).
Definition two_flows (tp : partition) : list krecord :=
  if bool_decide (tp = flow_topic) then [flow_record (VInt 7); flow_record (VStr "abc")] else [].
Definition digest (_ : string) : string := "d".
Definition text (_ : val) : string := "j".
Definition demo_flush := flush_buffers text.
#[local] Instance demo : Batcher typed_row (list (string * list typed_row)) world (nat * bool) := normalizer digest text text "acme" "s1" 3 500 text 0.
Definition nobody : consumer (list (string * list typed_row)) := {| c_buf := []; c_rows := 0; c_seen := false; c_pos := ∅; c_from := ∅ |}.
Definition booted : plant _ _ := boot (HB := demo) {[flow_topic := 0%nat]} (installed empty_world).
Definition first_poll := take_batch (HB := demo) two_flows [(flow_topic, 1%nat)] (default nobody (y_run booted)).
Definition polled : plant _ _ :=
  {| y_world := y_world booted; y_committed := ∅; y_from := ∅; y_run := match first_poll with Ok c => Some c | _ => None end |}.
Definition committed : plant _ _ := flush_and_commit (HB := demo) (9%nat, false) true (default nobody (y_run polled)) polled.
Lemma committed_reachable : rtc (plant_step (HB := demo) two_flows) (installed empty_world) committed.
Proof.
  eapply rtc_l; [by apply (boots _ _ {[flow_topic := 0%nat]})|]. fold booted.
  eapply rtc_l; [apply (polls _ booted [(flow_topic, 1%nat)] (default nobody (y_run booted)) (default nobody (y_run polled))); [reflexivity|vm_compute; reflexivity]|].
  eapply rtc_l; [|apply rtc_refl].
  apply (flushes _ polled (9%nat, false) true true (default nobody (y_run polled))); vm_compute; reflexivity.
Qed.
(** The record whose flow id is no number raises an error the loop does not catch. *)
Example flow_id_text_raises : normalize_record digest text text "acme" "s1" 3 0 flow_topic 1 (flow_record (VStr "abc")) = Raise ValueError.
Proof. vm_compute. reflexivity. Qed.
Lemma committed_is_normalized_witness :
  y_committed committed !! flow_topic = Some 1%nat ∧
  ∃ f, y_from committed !! flow_topic = Some f ∧ ∀ off r, (f <= off < 1)%nat → two_flows flow_topic !! off = Some r →
    normalize_record digest text text "acme" "s1" 3 0 flow_topic off r = Ok None ∨
    ∃ row, normalize_record digest text text "acme" "s1" 3 0 flow_topic off r = Ok (Some row) ∧ row ∈ w_rows (y_world committed) ∧
      published text row (y_world committed).
Proof.
  split; [vm_compute; reflexivity|].
  apply (committed_is_normalized digest text text "acme" "s1" 3 500 text 0 two_flows committed flow_topic 1 committed_reachable).
  vm_compute. reflexivity.
Defined.
Lemma observations_attributed_witness :
  length (w_topic (y_world committed)) = 1%nat ∧
  (∀ row, row ∈ w_rows (y_world committed) → ∃ tp off r eve ts,
    two_flows tp !! off = Some r ∧ k_value r = p_json (VDict eve) ∧ append_time r = Ok ts ∧ observed digest text "acme" "s1" eve tp off ts row) ∧
  (∀ m, m ∈ w_topic (y_world committed) → ∃ row, row ∈ w_rows (y_world committed) ∧ message text row = Ok m).
Proof.
  split; [vm_compute; reflexivity|].
  apply (observations_attributed digest text text "acme" "s1" 3 500 text 0 two_flows committed committed_reachable).
Defined.

(** A record read before the group committed anything can be lost: the process that polled
    it dies, and the next one starts where the log ends by then. *)
Definition rebooted : plant _ _ := boot (HB := demo) {[flow_topic := 1%nat]} (stop (y_world polled) polled).
Definition two_good (tp : partition) : list krecord :=
  if bool_decide (tp = flow_topic) then [flow_record (VInt 7); flow_record (VInt 8)] else [].
Definition second_poll := take_batch (HB := demo) two_good [(flow_topic, 1%nat)] (default nobody (y_run rebooted)).
Definition repolled : plant _ _ :=
  {| y_world := y_world rebooted; y_committed := ∅; y_from := ∅; y_run := match second_poll with Ok c => Some c | _ => None end |}.
Definition recommitted : plant _ _ := flush_and_commit (HB := demo) (9%nat, false) true (default nobody (y_run repolled)) repolled.
Example first_record_lost :
  rtc (plant_step (HB := demo) two_good) (installed empty_world) recommitted ∧
  y_committed recommitted !! flow_topic = Some 2%nat ∧
  ((λ row, dgetN "flow_id" (tr_cols row)) <$> w_rows (y_world recommitted)) = [VInt 8].
Proof.
  split; [|split; vm_compute; reflexivity].
  eapply rtc_l; [by apply (boots _ _ {[flow_topic := 0%nat]})|]. fold booted.
  eapply rtc_l; [apply (polls _ booted [(flow_topic, 1%nat)] (default nobody (y_run booted)) (default nobody (y_run polled))); [reflexivity|vm_compute; reflexivity]|].
  eapply rtc_l; [apply crashes|]. eapply rtc_l; [by apply (boots _ _ {[flow_topic := 1%nat]})|].
  eapply rtc_l; [apply (polls _ rebooted [(flow_topic, 1%nat)] (default nobody (y_run rebooted)) (default nobody (y_run repolled))); [reflexivity|vm_compute; reflexivity]|].
  eapply rtc_l; [|apply rtc_refl].
  apply (flushes _ repolled (9%nat, false) true true (default nobody (y_run repolled))); vm_compute; reflexivity.
Qed.
