(* ===== verification/FileObserver.v ===== *)
(** * File observations (services/file-observer/observe.py, app.py)

    A fileinfo event becomes a canonical file observation: hashes only when the sensor
    captured the whole file, checked against the pinned contract before it is stored.  The
    process skips records it cannot trust and commits past them.

    The contract's validator is the schema library's: [contract_valid] says whether a
    document passes.  Identity injection, entities and canonical JSON are the normalizer's
    ([Normalizer]), which the module repeats. *)

From stdpp Require Import gmap relations.
From S2P Require Import Prelude Order PyVal PyString PyTime IsoTime IntelMatch BatchLoop Normalizer.
Set Default Proof Using "Type".

Definition TABLE : string := "ndr.file_observation".
Definition _str (v : val) : val := if nonempty_str v then v else VNone.
Definition _u64 (v : val) : val :=
  match v with VInt n => if (0 <=? n) && (n <=? 18446744073709551615) then VInt n else VNone | _ => VNone end.
Definition lower_hex (c : ascii) : bool := is_digit c || between 97 102 (code c).
Definition HASH_LENGTHS : list (string * Z) := [("sha256", 64); ("sha1", 40); ("md5", 32)].
Definition hash_shape (n : Z) (s : string) : bool := (Z.of_nat (String.length s) =? n) && string_forallb lower_hex s.

Section observe.
Context (sha256 : string → string) (json_text : val → string) (repr : val → string) (contract_valid : dict → bool).

Definition file_datetime (v : val) : res Z := _datetime (VStr (py_str repr v)).
Definition add_digest (fi file : dict) (alg : string * Z) : res dict :=
  let digest := dgetN alg.1 fi in
  if negb (truthy digest) then Ok file
  else match digest with
       | VStr s => check (hash_shape alg.2 (lower s)) QuarantineError;; Ok (dset alg.1 (VStr (lower s)) file)
       | _ => Raise QuarantineError
       end.
Fixpoint add_digests (fi : dict) (algs : list (string * Z)) (file : dict) : res dict :=
  match algs with [] => Ok file | alg :: algs => file ← add_digest fi file alg; add_digests fi algs file end.
Definition file_fields (eve fi : dict) (sensor_ts state : string) : res dict :=
  let flow_id := dgetN "flow_id" eve in
  let tx_id := dget_or "tx_id" (dgetN "tx_id" eve) fi in
  let file : dict :=
    [("state", VStr state); ("first_seen", VStr sensor_ts); ("last_seen", VStr sensor_ts); ("mime", _str (dgetN "mime_type" fi));
     ("size", _u64 (dgetN "size" fi)); ("filename", _str (dgetN "filename" fi));
     ("transfer_ref", match tx_id with VNone => VNone | v => VStr ("tx:" +:+ py_str repr v) end);
     ("session_ref", if truthy flow_id then VStr ("flow:" +:+ py_str repr flow_id) else _str (dgetN "community_id" eve));
     ("source_obs_ref", VNone); ("file_artifact_id", VNone)] in
  if String.eqb state "hashes_only" then add_digests fi HASH_LENGTHS file else Ok file.
Definition file_doc (eve : dict) (file : dict) (tenant : string) (sensor : val) (topic : string)
    (partition offset sensor_time normalized ingest_time : Z) (method : string) (clock_offset_ms : option Z) (raw : string) : dict :=
  let obs_id := obs_id_of sha256 json_text tenant sensor topic partition offset in
  [("schema", VStr "cernity.observation.v1"); ("obs_id", VStr obs_id); ("tenant", VStr tenant); ("sensor_id", sensor);
   ("ts", VDict [("sensor", VStr (isoformat sensor_time)); ("normalized", VStr (isoformat normalized));
                 ("ingested", VStr (isoformat ingest_time)); ("method", VStr method);
                 ("clock_offset_ms", from_option VInt VNone clock_offset_ms)]);
   ("entities", VList (entities_of eve)); ("type", VStr "file"); ("fields", VDict [("file", VDict file)]); ("capabilities", VList []);
   ("source_ref", VDict [("kind", VStr "clickhouse-row"); ("table", VStr TABLE); ("tenant", VStr tenant); ("obs_id", VStr obs_id);
                         ("sha256", VStr (sha256 raw)); ("topic", VStr topic); ("partition", VInt partition); ("offset", VInt offset)])].
(** A row of the table: the two columns that are written, and the document. *)
Record file_row := { fr_observation : string; fr_raw : string; fr_doc : dict }.
Definition file_observation (eve : val) (tenant sensor topic : string) (partition offset : Z) (ingested_at : string)
    (clock_offset_ms : option Z) : res (option file_row) :=
  match eve with
  | VDict eve =>
      if negb (val_eq_str (dgetN "event_type" eve) "fileinfo") then Ok None
      else
        fi ← match dgetN "fileinfo" eve with VDict (kv :: fi) => Ok (kv :: fi) | _ => Raise QuarantineError end;
        let '(tenant, sensor) := inject_identity eve tenant sensor in
        check (str_truthy tenant && nonempty_str sensor) QuarantineError;;
        sensor_time ← file_datetime (dgetN "timestamp" eve);
        ingest_time ← _datetime (VStr ingested_at);
        '(normalized, method) ← normalized_time sensor_time ingest_time clock_offset_ms;
        complete ← hash_is_complete fi;
        let state := if complete : bool then "hashes_only" else "metadata_only" in
        raw ← canonical_json json_text (VDict eve);
        file ← file_fields eve fi (isoformat sensor_time) state;
        let doc := file_doc eve file tenant sensor topic partition offset sensor_time normalized ingest_time method clock_offset_ms raw in
        check (contract_valid doc) QuarantineError;;
        text ← canonical_json json_text (VDict doc);
        Ok (Some {| fr_observation := text; fr_raw := raw; fr_doc := doc |})
  | _ => Raise QuarantineError
  end.

(** ** The process *)

Context (TENANT SENSOR : string) (FLUSH_ROWS : Z).

Definition observe_record (tp : partition) (off : nat) (r : krecord) : res (option file_row) :=
  match k_time r with
  | Some ms =>
      check ((k_type r =? 1) && (0 <=? ms)) OtherError;;
      match k_value r with
      | p_absent | p_garbled => Ok None
      | p_json eve =>
          check (is_datetime (ms * 1000)) ValueError;;
          match file_observation eve TENANT SENSOR tp.1 tp.2 (Z.of_nat off) (isoformat (ms * 1000)) None with
          | Raise QuarantineError => Ok None
          | result => result
          end
      end
  | None => Raise OtherError
  end.
(** The insert is answered, or fails with or without having taken effect. *)
Inductive reply := answered | failed (stored : bool).
Definition flush_rows (f : reply) (rows table : list file_row) : list file_row * res unit :=
  match rows, f with
  | [], _ => (table, Ok tt)
  | _, answered => (table ++ rows, Ok tt)
  | _, failed stored => (if stored then table ++ rows else table, Raise OtherError)
  end.
Definition observer_due (elapsed : bool) (rows : nat) (pending : bool) : bool :=
  (FLUSH_ROWS <=? Z.of_nat rows) || (pending && elapsed).
#[export] Instance file_observer : Batcher file_row (list file_row) (list file_row) reply := {
  handle := observe_record; buf_empty := []; buf_push row rows := rows ++ [row]; flush := flush_rows; due := observer_due
}.
#[export] Instance file_observer_laws : BatcherLaws file_row (list file_row) (list file_row) reply.
Proof.
  refine {| row_ok _ := True; buf_ok _ := True; held row rows := row ∈ rows; durable row table := row ∈ table; trace row table := row ∈ table |};
    try done.
  - by intros row ?%elem_of_nil.
  - intros row x b. cbn. rewrite elem_of_app, list_elem_of_singleton. naive_solver.
  - intros f b w row H. cbn. unfold flush_rows. destruct b, f as [|[]]; cbn; try done; apply elem_of_app; by left.
  - intros f b w w' row _ E H. cbn in E. unfold flush_rows in E. destruct b as [|x b]; [by apply elem_of_nil in H|].
    destruct f; [|done]. injection E as <-. apply elem_of_app. by right.
  - intros f b w row _ H. cbn in H. unfold flush_rows in H. destruct b as [|x b]; [by right|].
    destruct f as [|[]]; cbn in H; try (by right); apply elem_of_app in H as [H|H]; auto.
Defined.

(** ** Facts *)

(** What a file's fields may claim: hashes only of a file captured whole, each the
    event's own digest in lower hexadecimal of its length, and never bytes or a verdict. *)
Record honest_file (fi file : dict) (complete : bool) : Prop := {
  hf_state : dgetN "state" file = VStr (if complete then "hashes_only" else "metadata_only");
  hf_digest alg n : (alg, n) ∈ HASH_LENGTHS → dget alg file ≠ None →
    complete = true ∧ ∃ d, dgetN alg fi = VStr d ∧ dgetN alg file = VStr (lower d) ∧ hash_shape n (lower d) = true;
  hf_named : complete = true → dget "sha256" file ≠ None;
  hf_artifact : dgetN "file_artifact_id" file = VNone ∧ dget "scan_verdict" file = None;
  hf_finite : finite_json (VDict file) = true
}.
Lemma add_digest_inv fi file alg file' :
  add_digest fi file alg = Ok file' →
  file' = file ∧ truthy (dgetN alg.1 fi) = false ∨
  ∃ d, dgetN alg.1 fi = VStr d ∧ hash_shape alg.2 (lower d) = true ∧ file' = dset alg.1 (VStr (lower d)) file.
Proof.
  unfold add_digest. destruct (truthy (dgetN alg.1 fi)); cbn [negb]; [|intros [= <-]; by left].
  destruct (dgetN alg.1 fi) as [| | | |d| |]; try done. intros H. right. exists d. apply bind_ok_inv in H as (u & Hc & H). apply check_ok_inv in Hc.
  injection H as <-. done.
Qed.
Lemma finite_dset (k s : string) (d : dict) : finite_json (VDict d) = true → finite_json (VDict (dset k (VStr s) d)) = true.
Proof.
  induction d as [|[k' v] d IH]; [done|]. cbn. intros [H1 H2]%andb_true_iff. cbn in IH.
  destruct (String.eqb k k'); cbn; [done|]. rewrite H1. by apply IH.
Qed.
Lemma finite_str v : finite_json (_str v) = true.
Proof. unfold _str. destruct v; cbn; try done. by destruct (str_truthy s). Qed.
Lemma finite_u64 v : finite_json (_u64 v) = true.
Proof. unfold _u64. destruct v; try done. by destruct (_ && _). Qed.
Lemma complete_named fi : hash_is_complete fi = Ok true → truthy (dgetN "sha256" fi) = true.
Proof. unfold hash_is_complete. by destruct (truthy (dgetN "sha256" fi)). Qed.
Lemma file_fields_honest eve fi ts complete file :
  hash_is_complete fi = Ok complete → file_fields eve fi ts (if complete then "hashes_only" else "metadata_only") = Ok file →
  honest_file fi file complete.
Proof.
  intros Hc. unfold file_fields. match goal with |- (if _ then add_digests _ _ ?f else _) = _ → _ => set (base := f) end.
  assert (Hbase : finite_json (VDict base) = true ∧ dgetN "file_artifact_id" base = VNone ∧ dget "scan_verdict" base = None ∧
    dgetN "state" base = VStr (if complete then "hashes_only" else "metadata_only") ∧
    dget "sha256" base = None ∧ dget "sha1" base = None ∧ dget "md5" base = None).
  { subst base. split_and!; try done. cbn. rewrite !finite_str, finite_u64. cbn.
    destruct (dget_or "tx_id" _ fi), (truthy (dgetN "flow_id" eve)); cbn; rewrite ?finite_str; done. }
  clearbody base. destruct Hbase as (Hfin & Hart & Hver & Hst & E1 & E2 & E3). destruct complete; cbn [String.eqb Ascii.eqb Bool.eqb].
  2:{ intros [= <-]. split; try done. intros alg n Hin. unfold HASH_LENGTHS in Hin. rewrite !elem_of_cons, elem_of_nil in Hin.
      destruct Hin as [[= -> ->]|[[= -> ->]|[[= -> ->]|[]]]]; done. }
  apply complete_named in Hc. cbn [add_digests HASH_LENGTHS]. intros H. apply bind_ok_inv in H as (f1 & H1 & H).
  apply bind_ok_inv in H as (f2 & H2 & H). apply bind_ok_inv in H as (f3 & H3 & [= <-]).
  apply add_digest_inv in H1 as [[_ H1]|(d1 & D1 & S1 & ->)]; cbn in *; [by rewrite Hc in H1|].
  apply add_digest_inv in H2 as [[-> _]|(d2 & D2 & S2 & ->)]; apply add_digest_inv in H3 as [[-> _]|(d3 & D3 & S3 & ->)]; cbn in *;
    (split; [by simpl_dict| |intros _; by simpl_dict|split; by simpl_dict|by repeat apply finite_dset]);
    intros alg n Hin; unfold HASH_LENGTHS in Hin; rewrite !elem_of_cons, elem_of_nil in Hin;
    destruct Hin as [[= -> ->]|[[= -> ->]|[[= -> ->]|[]]]]; simpl_dict; rewrite ?E1, ?E2, ?E3; try done; intros _; (split; [done|]); eauto.
Qed.

(** What a stored row says of the record it came from. *)
Record file_observed (eve : dict) (tp : partition) (off : nat) (ingested : Z) (row : file_row) : Prop := {
  fo_event : dgetN "event_type" eve = VStr "fileinfo";
  fo_valid : contract_valid (fr_doc row) = true;
  fo_raw : fr_raw row = json_text (VDict eve);
  fo_doc : ∃ fi file complete s st, dgetN "fileinfo" eve = VDict fi ∧ hash_is_complete fi = Ok complete ∧ honest_file fi file complete ∧
    (inject_identity eve TENANT SENSOR).2 = VStr s ∧ file_datetime (dgetN "timestamp" eve) = Ok st ∧
    fr_doc row = file_doc eve file TENANT (VStr s) tp.1 tp.2 (Z.of_nat off) st ingested ingested "ingest-fallback" None (fr_raw row)
}.
Lemma observe_record_json tp off r row :
  observe_record tp off r = Ok (Some row) →
  ∃ v ts, k_value r = p_json v ∧ append_time r = Ok ts ∧
    file_observation v TENANT SENSOR tp.1 tp.2 (Z.of_nat off) (isoformat ts) None = Ok (Some row).
Proof.
  unfold observe_record, append_time. destruct (k_time r) as [ms|]; [|done]. intros H. apply bind_ok_inv in H as (u & Hc & H). rewrite Hc.
  destruct (k_value r) as [| |v]; [done|done|]. apply bind_ok_inv in H as (u' & Hd & H). exists v, (ms * 1000). cbn [mbind res_bind]. rewrite Hd. split_and!; try done.
  by destruct (file_observation v _ _ _ _ _ _ _) as [|[]].
Qed.
Lemma finite_doc eve file s topic part off st n i raw :
  finite_json (VDict file) = true → finite_json (VDict (file_doc eve file TENANT (VStr s) topic part off st n i "ingest-fallback" None raw)) = true.
Proof.
  intros Hf. unfold file_doc, entities_of. cbn in Hf |- *. rewrite Hf.
  destruct (dgetN "src_ip" eve), (dgetN "dest_ip" eve); cbn; try done; repeat match goal with |- context [if ?b then _ else _] => destruct b end; done.
Qed.
Lemma observed_file tp off r row :
  observe_record tp off r = Ok (Some row) →
  ∃ eve ts, k_value r = p_json (VDict eve) ∧ append_time r = Ok ts ∧ file_observed eve tp off ts row.
Proof.
  intros (v & ts & Ev & Ht & H)%observe_record_json. destruct v as [| | | | | |eve]; try done. exists eve, ts. split_and!; [done|done|].
  apply append_time_datetime in Ht. unfold file_observation in H.
  destruct (val_eq_str (dgetN "event_type" eve) "fileinfo") eqn:Ee; cbn [negb] in H; [|done]. apply val_eq_str_true in Ee.
  apply bind_ok_inv in H as (fi & Hfi & H). destruct (inject_identity eve TENANT SENSOR) as [tenant sensor] eqn:Ei.
  assert (tenant = TENANT) as -> by (by injection Ei). apply bind_ok_inv in H as (u & Hs & H). apply check_ok_inv in Hs.
  apply andb_true_iff in Hs as [_ Hs]. destruct sensor as [| | | |s| |]; try done. apply bind_ok_inv in H as (st & Hst & H).
  rewrite datetime_isoformat in H by done. cbn [mbind res_bind normalized_time] in H. apply bind_ok_inv in H as (complete & Hc & H).
  apply bind_ok_inv in H as (raw & Hraw & H). apply bind_ok_inv in H as (file & Hfile & H). apply bind_ok_inv in H as (u' & Hv & H).
  apply check_ok_inv in Hv. apply bind_ok_inv in H as (text & _ & H). injection H as <-.
  assert (fi ≠ [] ∧ dgetN "fileinfo" eve = VDict fi) as [_ Efi].
  { destruct (dgetN "fileinfo" eve) as [| | | | | |[|kv l]]; try done. by injection Hfi as <-. }
  split; cbn [fr_doc fr_raw]; [done|done| |].
  - unfold canonical_json in Hraw. destruct (finite_json _); [by injection Hraw|done].
  - exists fi, file, complete, s, st. split_and!; try done; [by eapply file_fields_honest|by rewrite Ei].
Qed.
(** What a record can raise out of the loop: nothing but a broken append time, an instant
    or a start offset out of range, or a number JSON does not have. *)
Lemma observe_record_errors tp off r e :
  observe_record tp off r = Raise e →
  is_ok (append_time r) = false ∨ ∃ eve, k_value r = p_json (VDict eve) ∧ (e = OverflowError ∨ e = ValueError ∧ finite_json (VDict eve) = false).
Proof.
  unfold observe_record, append_time. destruct (k_time r) as [ms|]; [|by left]. destruct (_ && _); [|by left]. cbn [check mbind res_bind].
  destruct (k_value r) as [| |v]; [done|done|]. destruct (is_datetime (ms * 1000)) eqn:Ed; [|by left]. cbn [check mbind res_bind]. intros H. right.
  assert (Hq : file_observation v TENANT SENSOR tp.1 tp.2 (Z.of_nat off) (isoformat (ms * 1000)) None = Raise e ∧ e ≠ QuarantineError).
  { destruct (file_observation v _ _ _ _ _ _ _) as [|[]]; try done; by injection H as <-. }
  clear H. destruct Hq as [H Hne]. destruct v as [| | | | | |eve]; try (by injection H as <-). exists eve. split; [done|]. revert H Hne. unfold file_observation.
  destruct (val_eq_str (dgetN "event_type" eve) "fileinfo"); cbn [negb]; [|done].
  destruct (dgetN "fileinfo" eve) as [| | | | | |[|kv fi]]; cbn [mbind res_bind]; try congruence.
  destruct (inject_identity eve TENANT SENSOR) as [tenant sensor] eqn:Ei. assert (tenant = TENANT) as -> by (by injection Ei).
  destruct (str_truthy TENANT && nonempty_str sensor) eqn:Es; cbn [check mbind res_bind]; [|by intros [= <-]].
  apply andb_true_iff in Es as [_ Es]. destruct sensor as [| | | |s| |]; [discriminate Es..| |discriminate Es|discriminate Es].
  assert (Hdt : ∀ v, (∃ t, file_datetime v = Ok t) ∨ file_datetime v = Raise QuarantineError ∨ file_datetime v = Raise OverflowError).
  { intros v. unfold file_datetime, _datetime. destruct (fromisoformat _) as [[local [o|]]|]; eauto. destruct (is_datetime (local - o)); cbn; eauto. }
  destruct (Hdt (dgetN "timestamp" eve)) as [[st ->]|[->| ->]]; cbn [mbind res_bind]; [|by intros [= <-]|intros [= <-]; by left].
  rewrite datetime_isoformat by done. cbn [mbind res_bind normalized_time].
  assert (Hh : ∀ d, (∃ b, hash_is_complete d = Ok b) ∨ hash_is_complete d = Raise OverflowError).
  { intros d. unfold hash_is_complete. repeat case_match; eauto. all: try (right; f_equal).
    all: match goal with H : py_int _ = Raise ?e |- _ => unfold py_int in H; repeat case_match; simplify_eq; unfold Z_of_float in *; repeat case_match; simplify_eq; done end. }
  destruct (Hh (kv :: fi)) as [[complete Hc]| ->]; [rewrite Hc|]; cbn [mbind res_bind]; [|intros [= <-]; by left].
  destruct (canonical_json json_text (VDict eve)) as [raw|x] eqn:Er; unfold canonical_json in Er;
    destruct (finite_json (VDict eve)) eqn:Ef; try discriminate Er; cbn [mbind res_bind]; [|injection Er as <-; intros [= <-]; by right].
  destruct (file_fields eve (kv :: fi) (isoformat st) _) as [file|x] eqn:Efile; cbn [mbind res_bind].
  - destruct (contract_valid _); cbn [check mbind res_bind]; [|by intros [= <-]]. unfold canonical_json. rewrite finite_doc; [done|].
    apply (hf_finite _ _ _ (file_fields_honest _ _ _ _ _ Hc Efile)).
  - intros [= ->] Hne. exfalso. apply Hne. revert Efile. unfold file_fields. destruct (String.eqb _ _); [|done].
    match goal with |- add_digests _ _ ?f = _ → _ => generalize f end. generalize HASH_LENGTHS.
    intros algs. induction algs as [|alg algs IH]; intros f; [done|]. cbn [add_digests]. unfold add_digest at 1.
    destruct (truthy _); cbn [negb mbind res_bind]; [|apply IH]. destruct (dgetN alg.1 (kv :: fi)) as [| | | |d| |]; try (by intros [= <-]).
    destruct (hash_shape _ _); cbn [check mbind res_bind]; [apply IH|by intros [= <-]].
Qed.

Context (log : partition → list krecord).
Abbreviation reachable y := (rtc (plant_step log) (installed ([] : list file_row)) y).
Lemma no_rows (row : file_row) : ¬ trace row ([] : list file_row).
Proof. cbn. by intros ?%elem_of_nil. Qed.

(** Nothing about a file is acknowledged before it is stored, and nothing is stored that
    the sensor's evidence does not carry.  In every state the file observer can reach,
    every offset between where the reading of its partition began and the committed one is
    of a record that was skipped (no document, not a fileinfo event, or not to be trusted)
    or whose row is stored; and every stored row is of a fileinfo event of the bus, its
    document passes the pinned contract, names the configured tenant, and claims hashes
    exactly when the capture was complete, each the event's own well-formed digest. *)
Theorem file_records_accounted y :
  reachable y →
  (∀ tp n, y_committed y !! tp = Some n → ∃ f, y_from y !! tp = Some f ∧ ∀ off r, (f <= off < n)%nat → log tp !! off = Some r →
    observe_record tp off r = Ok None ∨ ∃ row, observe_record tp off r = Ok (Some row) ∧ row ∈ y_world y) ∧
  (∀ row, row ∈ y_world y → ∃ tp off r eve ts,
    log tp !! off = Some r ∧ k_value r = p_json (VDict eve) ∧ append_time r = Ok ts ∧ file_observed eve tp off ts row).
Proof.
  intros H. destruct (plant_reachable log _ y no_rows H) as [HC _ HT _]. split.
  - intros tp n Hn. destruct (HC tp n Hn) as (f & Hf & Hs). exists f. split; [done|]. intros off r Ho Hr.
    destruct (Hs off Ho r Hr) as ([row|] & E & Hrow); [right; by exists row|by left].
  - intros row Hrow. destruct (HT row Hrow) as (tp & off & r & Hl & Hh). apply observed_file in Hh as (eve & ts & H1 & H2 & H3).
    by exists tp, off, r, eve, ts.
Qed.

(** Poison is committed past: a record with a broker append time, whose numbers are
    JSON's and whose instants and offsets are in range, never stops the loop. *)
Theorem poison_is_skipped tp off r :
  is_ok (append_time r) = true → (∀ eve, k_value r = p_json (VDict eve) → finite_json (VDict eve) = true) →
  (∃ row, observe_record tp off r = Ok row) ∨ observe_record tp off r = Raise OverflowError.
Proof.
  intros Ht Hfin. destruct (observe_record tp off r) as [row|e] eqn:E; [left; by exists row|right].
  apply observe_record_errors in E as [Hf|(eve & Ev & [->|[_ Hf]])]; [by rewrite Ht in Hf|done|]. by rewrite (Hfin _ Ev) in Hf.
Qed.
End observe.

(** ** A run: a complete capture is stored with its hash, garbage is skipped, a number JSON does not have stops the loop. *)

Definition file_digest : string := "aaaaaaaaaaaaaaaaaaaaaaaaaaaaaaaaaaaaaaaaaaaaaaaaaaaaaaaaaaaaaaaa".
Definition file_event (size : val) : dict :=
  [("event_type", VStr "fileinfo"); ("timestamp", VStr "2026-09-29T12:00:00.000000+0000"); ("src_ip", VStr "10.0.0.5");
   ("fileinfo", VDict [("filename", VStr "invoice.exe"); ("size", size); ("state", VStr "CLOSED"); ("gaps", VBool false);
                       ("sha256", VStr file_digest)])].
Definition file_record (v : payload) : krecord := {| k_type := 1; k_time := Some 1790000000000; k_value := v |}.
Definition file_topic : partition := ("suricata.file.v1", 0).
Definition file_log (tp : partition) : list krecord :=
  if bool_decide (tp = file_topic) then [file_record (p_json (VDict (file_event (VInt 4096)))); file_record p_garbled] else [].
Definition accepts (_ : dict) : bool := true.
Definition word (_ : val) : string := "j".
Definition digest_of (_ : string) : string := "d".
#[local] Instance demo_observer : Batcher file_row (list file_row) (list file_row) reply := file_observer digest_of word word accepts "acme" "s1" 500.
Definition idle : consumer (list file_row) := {| c_buf := []; c_rows := 0; c_seen := false; c_pos := ∅; c_from := ∅ |}.
Definition started : plant (list file_row) (list file_row) := boot (HB := demo_observer) {[file_topic := 0%nat]} (installed ([] : list file_row)).
Definition read_two : plant (list file_row) (list file_row) :=
  {| y_world := []; y_committed := ∅; y_from := ∅;
     y_run := match take_batch (HB := demo_observer) file_log [(file_topic, 2%nat)] (default idle (y_run started)) with Ok c => Some c | _ => None end |}.
Definition kept_one : plant (list file_row) (list file_row) := flush_and_commit (HB := demo_observer) answered true (default idle (y_run read_two)) read_two.
Lemma kept_reachable : rtc (plant_step (HB := demo_observer) file_log) (installed ([] : list file_row)) kept_one.
Proof.
  eapply rtc_l; [by apply (boots _ _ {[file_topic := 0%nat]})|]. fold started.
  eapply rtc_l; [apply (polls _ started [(file_topic, 2%nat)] (default idle (y_run started)) (default idle (y_run read_two))); [reflexivity|vm_compute; reflexivity]|].
  eapply rtc_l; [|apply rtc_refl].
  apply (flushes _ read_two answered true true (default idle (y_run read_two))); vm_compute; reflexivity.
Qed.
Lemma file_records_accounted_witness :
  y_committed kept_one !! file_topic = Some 2%nat ∧ length (y_world kept_one) = 1%nat ∧
  (∀ row, row ∈ y_world kept_one → ∃ tp off r eve ts,
    file_log tp !! off = Some r ∧ k_value r = p_json (VDict eve) ∧ append_time r = Ok ts ∧
    file_observed digest_of word word accepts "acme" "s1" eve tp off ts row).
Proof.
  split; [vm_compute; reflexivity|]. split; [vm_compute; reflexivity|].
  apply (file_records_accounted digest_of word word accepts "acme" "s1" 500 file_log kept_one kept_reachable).
Defined.
(** [json.loads] reads [NaN], canonical JSON refuses it, and the refusal is no quarantine. *)
Example nan_size_raises :
  observe_record digest_of word word accepts "acme" "s1" file_topic 0 (file_record (p_json (VDict (file_event (VFloat SpecFloat.S754_nan))))) =
  Raise ValueError.
Proof. vm_compute. reflexivity. Qed.
(** An instant no datetime has, written with an offset, is no quarantine either. *)
Definition early_event : dict := dset "timestamp" (VStr "0001-01-01T00:00:00+05:00") (file_event (VInt 1)).
Example early_timestamp_raises :
  observe_record digest_of word word accepts "acme" "s1" file_topic 0 (file_record (p_json (VDict early_event))) = Raise OverflowError.
Proof. vm_compute. reflexivity. Qed.
