(* ===== verification/DetectorFleet.v ===== *)
(** * Replicas of a detector over the shared store

    The detectors run as replicas that share the window store and nothing else; every one
    of them emits a finding only when the store says its key was not seen before
    ([dedup_seen] of shared/store.py, [_emit] of the detectors).  A handler is a program of
    the effects it has: reading the clock, asking the store, sending a finding.  One
    replica runs it to its end, or many replicas interleave theirs at every effect.

    A finding is sent under the key its emission was granted; the key is not on the bus.
    The last segment of a key is the bucket of time it was made in. *)

From stdpp Require Import gmap relations.
From S2P Require Import Prelude Order PyVal PyString OrderedMap WindowStore PartitionKeys.
Set Default Proof Using "Type".

(** ** Programs *)

Inductive prog (A : Type) : Type :=
| Ret (a : A)
| Fail (e : exn)
| Now (k : Z → prog A)
| Ask (o : op) (k : answer → prog A)
| Send (key : string) (finding : dict) (k : prog A).
Arguments Ret {A} a.
Arguments Fail {A} e.
Arguments Now {A} k.
Arguments Ask {A} o k.
Arguments Send {A} key finding k.

#[export] Instance prog_ret : MRet prog := λ A a, Ret a.
#[export] Instance prog_bind : MBind prog := λ A B f,
  fix go (p : prog A) : prog B :=
    match p with
    | Ret a => f a
    | Fail e => Fail e
    | Now k => Now (λ t, go (k t))
    | Ask o k => Ask o (λ a, go (k a))
    | Send key c k => Send key c (go k)
    end.
Definition lift_res {A} (r : res A) : prog A := match r with Ok a => Ret a | Raise e => Fail e end.
Definition read_clock : prog Z := Now Ret.
Definition ask_int (o : op) : prog Z := Ask o (λ a, Ret (match a with a_int n => n | _ => 0 end)).
Definition ask_bool (o : op) : prog bool := Ask o (λ a, Ret (match a with a_bool b => b | _ => false end)).
Definition ask_strs (o : op) : prog (list string) := Ask o (λ a, Ret (match a with a_strs l => l | _ => [] end)).
Definition ask_window (o : op) : prog (list (Z * string)) := Ask o (λ a, Ret (match a with a_window l => l | _ => [] end)).
Definition tell (o : op) : prog unit := Ask o (λ _, Ret tt).
(** The finding, made of a later reading of the clock, if the key is granted. *)
Definition emit_once (key : string) (ttl : Z) (finding : Z → dict) : prog unit :=
  Ask (o_dedup_seen key ttl) (λ a,
    match a with a_bool true => Now (λ t, Send key (finding t) (Ret tt)) | _ => Ret tt end).
(** The end of a key made in the bucket [b]. *)
Definition in_bucket (stem : string) (b : Z) : string := stem +:+ ":" +:+ pretty b.
Definition key_bucket (key : string) (b : Z) : Prop := ∃ stem, key = in_bucket stem b.
Fixpoint each {X} (body : X → prog unit) (xs : list X) : prog unit :=
  match xs with [] => Ret tt | x :: xs => body x;; each body xs end.

(** One replica, alone, at one reading of the clock. *)
Fixpoint run_alone {S A} `{WindowStore S} (clock : Z) (p : prog A) (s : S) (sent : list (string * dict)) : S * list (string * dict) * res A :=
  match p with
  | Ret a => (s, sent, Ok a)
  | Fail e => (s, sent, Raise e)
  | Now k => run_alone clock (k clock) s sent
  | Ask o k => let '(s, a) := ws_step clock s o in run_alone clock (k a) s sent
  | Send key c k => run_alone clock k s (sent ++ [(key, c)])
  end.

(** ** The fleet *)

Record fleet := { f_store : mem_store; f_clock : Z; f_progs : list (prog unit); f_sent : list (string * dict) }.
Definition idle (p : prog unit) : Prop := match p with Ret _ | Fail _ => True | _ => False end.
Definition put_prog (i : nat) (p : prog unit) (fl : fleet) : fleet :=
  {| f_store := f_store fl; f_clock := f_clock fl; f_progs := <[i := p]> (f_progs fl); f_sent := f_sent fl |}.
(** A key is asked for within the bucket it was made in. *)
Definition prompt (o : op) (clock : Z) : Prop :=
  match o with o_dedup_seen key ttl => ∀ b, key_bucket key b → clock / ttl = b | _ => True end.
(** Time passes, an idle replica takes a record, any replica does its next effect or dies. *)
Inductive fleet_step (strict : bool) (handler : prog unit → Prop) (fl : fleet) : fleet → Prop :=
| ticks t : f_clock fl <= t →
    fleet_step strict handler fl {| f_store := f_store fl; f_clock := t; f_progs := f_progs fl; f_sent := f_sent fl |}
| takes i q p : f_progs fl !! i = Some q → idle q → handler p → fleet_step strict handler fl (put_prog i p fl)
| reads i k : f_progs fl !! i = Some (Now k) → fleet_step strict handler fl (put_prog i (k (f_clock fl)) fl)
| asks i o k s a :
    f_progs fl !! i = Some (Ask o k) → (strict = true → prompt o (f_clock fl)) → ws_step (f_clock fl) (f_store fl) o = (s, a) →
    fleet_step strict handler fl {| f_store := s; f_clock := f_clock fl; f_progs := <[i := k a]> (f_progs fl); f_sent := f_sent fl |}
| sends i key c k :
    f_progs fl !! i = Some (Send key c k) →
    fleet_step strict handler fl
      {| f_store := f_store fl; f_clock := f_clock fl; f_progs := <[i := k]> (f_progs fl); f_sent := f_sent fl ++ [(key, c)] |}
| dies i q : f_progs fl !! i = Some q → fleet_step strict handler fl (put_prog i (Ret tt) fl).
Definition new_fleet (n : nat) (clock : Z) : fleet :=
  {| f_store := ∅; f_clock := clock; f_progs := replicate n (Ret tt); f_sent := [] |}.

(** ** Facts *)

(** *** One replica alone *)

Lemma run_alone_bind {S A B} `{WindowStore S} clock (p : prog A) (f : A → prog B) (s : S) sent :
  run_alone clock (p ≫= f) s sent =
  match run_alone clock p s sent with
  | (s', sent', Ok a) => run_alone clock (f a) s' sent'
  | (s', sent', Raise e) => (s', sent', Raise e)
  end.
Proof.
  revert s sent. induction p as [a|e|k IH|o k IH|key c p IH]; intros s sent; cbn; try done.
  destruct (ws_step clock s o) as [s' a]. apply IH.
Qed.
(** Whatever the store answers, the findings of a program satisfy [P]. *)
Fixpoint sends_only {A} (P : dict → Prop) (p : prog A) : Prop :=
  match p with
  | Ret _ | Fail _ => True
  | Now k => ∀ t, sends_only P (k t)
  | Ask _ k => ∀ a, sends_only P (k a)
  | Send _ c k => P c ∧ sends_only P k
  end.
Lemma sends_only_bind {A B} P (p : prog A) (f : A → prog B) : sends_only P p → (∀ a, sends_only P (f a)) → sends_only P (p ≫= f).
Proof. intros Hp Hf. induction p as [a|e|k IH|o k IH|key c p IH]; cbn in *; try done; [intros t; by apply IH|intros a; by apply IH|]. destruct Hp. by split; [|apply IH]. Qed.
Lemma sends_only_weaken {A} (P Q : dict → Prop) (p : prog A) : (∀ c, P c → Q c) → sends_only P p → sends_only Q p.
Proof. intros HPQ. induction p as [a|e|k IH|o k IH|key c p IH]; cbn; auto. intros [Hc Hp]. split; auto. Qed.
Lemma sends_only_lift {A} P (r : res A) : sends_only P (lift_res r).
Proof. by destruct r. Qed.
Lemma sends_only_emit P key ttl (finding : Z → dict) : (∀ t, P (finding t)) → sends_only P (emit_once key ttl finding).
Proof. intros H a. by destruct a as [|[]| | | | | |]; cbn. Qed.
Lemma run_alone_sends {S A} `{WindowStore S} P clock (p : prog A) (s : S) sent key c :
  sends_only P p → (key, c) ∈ (run_alone clock p s sent).1.2 → (key, c) ∈ sent ∨ P c.
Proof.
  revert s sent. induction p as [a|e|k IH|o k IH|key' c' p IH]; intros s sent Hp Hin; cbn in *; [by left|by left| | |].
  - by eapply IH.
  - destruct (ws_step clock s o) as [s' a]. by eapply IH.
  - destruct Hp as [Hc Hp]. destruct (IH _ _ Hp Hin) as [Hin'|HP]; [|by right]. apply elem_of_app in Hin' as [Hin'|Hin']; [by left|].
    apply list_elem_of_singleton in Hin'. injection Hin' as -> ->. by right.
Qed.

Section discipline.
Context (ttl : Z).

(** A program that sends only under keys it was granted, each once, asks for keys that
    name a bucket, and keeps them for [ttl]. *)
Fixpoint disciplined {A} (held : list string) (p : prog A) : Prop :=
  match p with
  | Ret _ => held = []
  | Fail _ => True
  | Now k => ∀ t, disciplined held (k t)
  | Ask o k =>
      match o with
      | o_dedup_seen key ttl' =>
          ttl' = ttl ∧ (∃ b, key_bucket key b) ∧ disciplined (key :: held) (k (a_bool true)) ∧
          ∀ a, a ≠ a_bool true → disciplined held (k a)
      | _ => ∀ a, disciplined held (k a)
      end
  | Send key _ k => ∃ held', held ≡ₚ key :: held' ∧ disciplined held' k
  end.
Lemma disciplined_bind {A B} (p : prog A) (f : A → prog B) held :
  disciplined held p → (∀ a, disciplined [] (f a)) → disciplined held (p ≫= f).
Proof.
  intros Hp Hf. revert held Hp. induction p as [a|e|k IH|o k IH|key c p IH]; intros held Hp; cbn in *.
  - subst. apply Hf.
  - done.
  - intros t. by apply IH.
  - destruct o; try (intros a; by apply IH). destruct Hp as (-> & Hb & H1 & H2). split_and!; [done|done|by apply IH|].
    intros a Ha. by apply IH, H2.
  - destruct Hp as (held' & Hh & Hp). exists held'. split; [done|by apply IH].
Qed.
Lemma disciplined_lift {A} (r : res A) : disciplined [] (lift_res r).
Proof. by destruct r. Qed.
Lemma disciplined_clock : disciplined [] read_clock.
Proof. by intros t. Qed.
Lemma disciplined_ask {A} (o : op) (f : answer → A) : (∀ k t, o ≠ o_dedup_seen k t) → disciplined [] (Ask o (λ a, Ret (f a))).
Proof. intros H. destruct o; try done. by destruct (H key ttl0). Qed.
Lemma disciplined_emit stem b (finding : Z → dict) : disciplined [] (emit_once (in_bucket stem b) ttl finding).
Proof.
  cbn. split_and!; [done|by exists b, stem| |].
  - intros t. exists []. by split.
  - intros a Ha. by destruct a as [|[]| | | | | |].
Qed.
Lemma disciplined_each {X} (body : X → prog unit) xs : (∀ x, disciplined [] (body x)) → disciplined [] (each body xs).
Proof. intros H. induction xs as [|x xs IH]; [done|]. by apply disciplined_bind. Qed.

(** *** The store *)

Lemma on_cell_mark k f st k' : (∀ c, c_dedup (f c) = c_dedup c) → mark_of (on_cell k f st) k' = mark_of st k'.
Proof. intros Hf. unfold on_cell. rewrite put_mark. case_decide as E; [|done]. subst. by rewrite Hf. Qed.
Lemma set_add_mark now m t cap c : c_dedup (set_add now m t cap c) = c_dedup c.
Proof. exact (cell_op_mark now (o_set_add "" m t cap) c). Qed.
Lemma index_mark now idx key t st k' : mark_of (index_add now idx key t st) k' = mark_of st k'.
Proof. destruct idx; [|done]. cbn. apply on_cell_mark. intros c. apply set_add_mark. Qed.
Lemma batch_mark now st o k' : mark_of (run_batch_op now st o) k' = mark_of st k'.
Proof.
  destruct o; cbn; rewrite ?index_mark; apply on_cell_mark; intros c; try done.
  - pose proof (cell_op_mark now (o_counter_add "" field delta ttl0) c) as H. cbn in H. by destruct (counter_add now field delta ttl0 c).
  - exact (cell_op_mark now (o_field_set "" field value ttl0 cap) c).
  - apply set_add_mark.
Qed.
Lemma pipeline_mark now ops st k' : mark_of (pipeline_ops now st ops) k' = mark_of st k'.
Proof. revert st. induction ops as [|o ops IH]; intros st; [done|]. cbn. unfold pipeline_ops in IH. by rewrite IH, batch_mark. Qed.
Lemma other_mark now o st k' : (∀ k t, o ≠ o_dedup_seen k t) → mark_of (ws_step now st o).1 k' = mark_of st k'.
Proof.
  intros Hne. destruct (op_key o) as [k|] eqn:Ek; [by apply (mark_single now o k st k' Ek Hne)|].
  unfold ws_step. destruct o; cbn in Ek; try done; cbn.
  - rewrite on_cell_mark by (intros c; apply set_add_mark). by apply on_cell_mark.
  - apply pipeline_mark.
  - apply pipeline_mark.
  - unfold mark_of, cell_at, kv_prune. rewrite lookup_fmap. destruct (st !! k') as [c|]; [|done]. cbn.
    unfold kv_prune_cell. destruct (c_kv c) as [[v e]|]; [|done]. by destruct (e <=? now).
Qed.
End discipline.

(** Walks through a handler, down to its emissions. *)
Ltac discipline emits :=
  repeat first
    [ match goal with |- disciplined _ _ (Ret _) => reflexivity | |- disciplined _ _ read_clock => exact (disciplined_clock _) end
    | emits | apply disciplined_lift | (apply disciplined_ask; discriminate) | apply disciplined_each; intros ?
    | apply disciplined_bind; [|intros ?]
    | match goal with
      | |- disciplined _ _ (let _ := _ in _) => cbv zeta
      | |- disciplined _ _ (match ?x with _ => _ end) => destruct x
      end
    | done ].

(** *** The invariant: what was granted was granted once *)

Section fleet.
Context (ttl : Z) (Httl : 0 < ttl) (handler : prog unit → Prop) (Hh : ∀ p, handler p → disciplined ttl [] p).

Lemma key_bucket_inj key b b' : key_bucket key b → key_bucket key b' → b = b'.
Proof.
  clear. intros [s ->] [s' E]. apply last_segment in E as [_ E]; [|apply pretty_Z_no_colon..].
  apply (f_equal parse_int) in E. rewrite !parse_int_pretty_Z in E. by injection E.
Qed.
(** A granted key is marked until [ttl] after its grant, which was in the key's bucket. *)
Definition granted (fl : fleet) (key : string) : Prop :=
  ∃ t, mark_of (f_store fl) key = Some (t + ttl) ∧ 0 <= t <= f_clock fl ∧ key_bucket key (t / ttl).
Record fleet_ok (fl : fleet) (held : list (list string)) : Prop := {
  ok_clock : 0 <= f_clock fl;
  ok_progs : Forall2 (λ h p, disciplined ttl h p) held (f_progs fl);
  ok_once : NoDup ((f_sent fl).*1 ++ concat held);
  ok_granted : ∀ key, key ∈ (f_sent fl).*1 ++ concat held → granted fl key
}.
Lemma concat_insert (held : list (list string)) i h h' :
  held !! i = Some h → ∃ rest, concat held ≡ₚ h ++ rest ∧ concat (<[i := h']> held) ≡ₚ h' ++ rest.
Proof.
  clear. revert i. induction held as [|a held IH]; intros [|i] Hi; try done.
  - injection Hi as ->. by exists (concat held).
  - destruct (IH i Hi) as (rest & E1 & E2). exists (a ++ rest). cbn. rewrite E1, E2. split; solve_Permutation.
Qed.
Lemma granted_tick fl fl' key : mark_of (f_store fl') key = mark_of (f_store fl) key → f_clock fl <= f_clock fl' → granted fl key → granted fl' key.
Proof. clear. intros Hm Hc (t & H1 & H2 & H3). exists t. rewrite Hm. split_and!; [done|lia|lia|done]. Qed.
(** A replica goes on without a grant. *)
Lemma ok_continue fl held i q p st h' h :
  fleet_ok fl held → f_progs fl !! i = Some q → held !! i = Some h → (∃ x, h ≡ₚ h' ++ x) → disciplined ttl h' p →
  (∀ key, mark_of st key = mark_of (f_store fl) key) →
  fleet_ok {| f_store := st; f_clock := f_clock fl; f_progs := <[i := p]> (f_progs fl); f_sent := f_sent fl |} (<[i := h']> held).
Proof.
  clear. intros [H1 H2 H3 H4] Hi Hh [x Hx] Hp Hst. destruct (concat_insert held i h h' Hh) as (rest & E1 & E2).
  assert (Hsub : (f_sent fl).*1 ++ concat held ≡ₚ x ++ (f_sent fl).*1 ++ concat (<[i:=h']> held)) by (rewrite E1, E2, Hx; solve_Permutation).
  split; cbn; [done|by apply Forall2_insert| |].
  - rewrite Hsub in H3. by apply NoDup_app in H3 as (_ & _ & H3).
  - intros key Hkey. eapply (granted_tick fl); [apply Hst|cbn; lia|]. apply H4. rewrite Hsub. apply elem_of_app. by right.
Qed.
Lemma fleet_step_ok fl fl' held : fleet_ok fl held → fleet_step true handler fl fl' → ∃ held', fleet_ok fl' held'.
Proof using Hh Httl.
  intros Hok Hs. pose proof Hok as [H1 H2 H3 H4].
  assert (Hlook : ∀ i p, f_progs fl !! i = Some p → ∃ h, held !! i = Some h ∧ disciplined ttl h p).
  { intros i p Hi. destruct (Forall2_lookup_r _ _ _ i p H2 Hi) as (h & Hhi & Hd). by exists h. }
  destruct Hs as [t Ht|i q p Hi Hq Hp|i k Hi|i o k s a Hi Hpr Hw|i key c k Hi|i q Hi].
  - exists held. split; cbn; [lia|done|done|]. intros key Hkey. eapply (granted_tick fl); [done|done|by apply H4].
  - destruct (Hlook i q Hi) as (h & Hhi & Hd). exists (<[i := []]> held). apply (ok_continue fl held i q p (f_store fl) [] h); first [done|by exists h|by apply Hh].
  - destruct (Hlook i _ Hi) as (h & Hhi & Hd). exists (<[i := h]> held). apply (ok_continue fl held i _ _ (f_store fl) h h Hok Hi); first [done|exists []; by rewrite app_nil_r|apply Hd].
  - destruct (Hlook i _ Hi) as (h & Hhi & Hd).
    assert (Hplain : (∀ k t, o ≠ o_dedup_seen k t) → disciplined ttl h (k a)) by (intros Hne; cbn in Hd; destruct o; try apply Hd; by destruct (Hne key ttl0)).
    assert (Hother : (∀ k t, o ≠ o_dedup_seen k t) → ∃ held', fleet_ok {| f_store := s; f_clock := f_clock fl; f_progs := <[i:=k a]> (f_progs fl); f_sent := f_sent fl |} held').
    { intros Hne. exists (<[i := h]> held). apply (ok_continue fl held i (Ask o k) (k a) s h h Hok Hi Hhi); [exists []; by rewrite app_nil_r|by apply Hplain|].
      intros key. pose proof (other_mark (f_clock fl) o (f_store fl) key Hne) as E. by rewrite Hw in E. }
    destruct o as [| | | | | | | | | | | | | | | | | | | | |key ttl'|]; try (by apply Hother). clear Hplain Hother. cbn in Hd.
    destruct Hd as (-> & [b Hb] & Hyes & Hno). specialize (Hpr eq_refl b Hb). cbn in Hpr. rewrite dedup_eq in Hw. injection Hw as <- <-.
    pose proof (dedup_mark (f_clock fl) ttl (cell_at (f_store fl) key)) as Hm. fold (mark_of (f_store fl) key) in Hm.
    assert (Hst : ∀ key', key' ≠ key → mark_of (put_cell key (dedup_seen (f_clock fl) ttl (cell_at (f_store fl) key)).1 (f_store fl)) key' = mark_of (f_store fl) key')
      by (intros key' Hne; rewrite put_mark; by case_decide).
    destruct (dedup_seen (f_clock fl) ttl (cell_at (f_store fl) key)) as [c' [|]] eqn:Ed; cbn [fst snd] in *.
    + destruct Hm as [Hm Hfree]. assert (Hnew : key ∉ (f_sent fl).*1 ++ concat held).
      { intros Hin. destruct (H4 key Hin) as (t & Hmt & Ht & Hbt). pose proof (key_bucket_inj _ _ _ Hb Hbt) as ->.
        assert (f_clock fl < t + ttl).
        { pose proof (Z.mul_succ_div_gt (f_clock fl) ttl Httl). pose proof (Z.mul_div_le t ttl Httl). rewrite Hpr in *. nia. }
        destruct (Hfree _ Hmt); lia. }
      exists (<[i := key :: h]> held). destruct (concat_insert held i h (key :: h) Hhi) as (rest & E1 & E2).
      assert (Hperm : (f_sent fl).*1 ++ concat (<[i:=key :: h]> held) ≡ₚ key :: (f_sent fl).*1 ++ concat held) by (rewrite E1, E2; solve_Permutation).
      split; cbn; [done|by apply Forall2_insert| |].
      * rewrite Hperm. by constructor.
      * intros key'. rewrite Hperm. intros [->|Hin]%elem_of_cons.
        -- exists (f_clock fl). cbn. rewrite put_mark. rewrite decide_True by done. split_and!; [done|lia|lia|by rewrite Hpr].
        -- eapply (granted_tick fl); [|cbn; lia|by apply H4]. apply Hst. by intros ->.
    + destruct Hm as [Hm _]. exists (<[i := h]> held). apply (ok_continue fl held i _ (k (a_bool false)) _ h h Hok Hi Hhi).
      * exists []. by rewrite app_nil_r.
      * by apply Hno.
      * intros key'. destruct (decide (key' = key)) as [->|Hne]; [|by apply Hst]. rewrite put_mark, decide_True by done. exact Hm.
  - destruct (Hlook i _ Hi) as (h & Hhi & h' & Hp & Hd). exists (<[i := h']> held). destruct (concat_insert held i h h' Hhi) as (rest & E1 & E2).
    assert (Hperm : (f_sent fl ++ [(key, c)]).*1 ++ concat (<[i:=h']> held) ≡ₚ (f_sent fl).*1 ++ concat held).
    { rewrite fmap_app, E1, E2, Hp. cbn. solve_Permutation. }
    split; cbn; [done|by apply Forall2_insert|by rewrite Hperm|].
    intros key'. rewrite Hperm. intros Hin. eapply (granted_tick fl); [done|cbn; lia|by apply H4].
  - destruct (Hlook i q Hi) as (h & Hhi & Hd). exists (<[i := []]> held). apply (ok_continue fl held i q (Ret tt) (f_store fl) [] h); first [done|by exists h].
Qed.
(** A disciplined fleet sends under no key twice. *)
Lemma sent_once n clock fl : 0 <= clock → rtc (fleet_step true handler) (new_fleet n clock) fl → NoDup (f_sent fl).*1.
Proof using Hh Httl.
  intros Hc H. assert (Hi : ∃ held, fleet_ok (new_fleet n clock) held).
  { exists (replicate n []). assert (E : concat (replicate n ([] : list string)) = []) by (clear; induction n; done).
    split; cbn; [done| |by rewrite E; constructor|rewrite E; by intros key ?%elem_of_nil].
    clear. induction n; cbn; constructor; done. }
  assert (Ho : ∃ held, fleet_ok fl held).
  { induction H as [|x z v Hxz _ IH]; [done|]. destruct Hi as [held Hi]. apply IH. by eapply fleet_step_ok. }
  destruct Ho as [held [_ _ Hn _]]. by apply NoDup_app in Hn as [Hn _].
Qed.
End fleet.
