(* ===== verification/OtDetectors.v ===== *)
(** * OT detectors for Modbus (services/ot-detectors/ot.py, app.py)

    Each record of a control network is checked when it arrives: writes and program
    transfers from a master its outstation does not know, a master never seen for the
    outstation, breadth of function codes and units, bursts of exceptions, Modbus off its
    port.  The learned masters, the breadth sets and the error counters are in the store
    the replicas share.

    [stable] is the hash of a text, [dumps] and [compact] the texts of JSON, [repr] that of
    containers and floats. *)

From stdpp Require Import gmap.
From S2P Require Import Prelude Order PyVal PyString OrderedMap IsoTime WindowStore PartitionKeys ProtocolScores ProtocolDetectors DetectorFleet.
Set Default Proof Using "Type".

(** ** Scores *)

Definition WRITE_FCS : list Z := [5; 6; 15; 16; 21; 22; 23].
Definition PROGRAM_MODE_FCS : list Z := [40; 90; 125].
Definition in_fcs (fc : option Z) (fcs : list Z) : bool := match fc with Some n => mem n fcs | None => false end.
(** [int(v)], with the two exceptions that are caught turned into [None]. *)
Definition int_or_none (v : val) : res (option Z) :=
  match v with
  | VNone => Ok None
  | _ => match py_int v with Ok n => Ok (Some n) | Raise TypeError | Raise ValueError => Ok None | Raise e => Raise e end
  end.

Section scores.
Context (repr : val → string).

Record mb := { mb_fc : option Z; mb_access : string; mb_unit : val; mb_error : bool }.
Definition mb_fields (modbus : val) : res mb :=
  m ← as_dict (py_or modbus (VDict []));
  let fn := dgetN "function" m in
  let fc := match fn with
            | VDict fn => dget_or "code" (dgetN "raw" fn) fn
            | VNone => dgetN "function_code" m
            | _ => fn
            end in
  fc ← int_or_none fc;
  let access := py_or (py_or (dgetN "access_type" m) (dgetN "access" m)) (VStr "") in
  let access := match access with VDict a => dget_or "type" (VStr "") a | _ => access end in
  let unit := dget_or "unit_id" (dget_or "unit" (dgetN "uid" m) m) m in
  let err := py_or (py_or (py_or (dgetN "error_flags" m) (dgetN "exception" m)) (dgetN "error" m)) (dgetN "errors" m) in
  Ok {| mb_fc := fc; mb_access := upper (py_str repr access); mb_unit := unit;
        mb_error := truthy err && negb (mem (lower (py_str repr err)) ["0"; "none"; "false"; "no_error"; ""]) |}.
Definition is_write_control (fc : option Z) (access : string) : bool := in_fcs fc WRITE_FCS || contains "WRITE" (upper access).
Definition is_program_or_mode (fc : option Z) : bool := in_fcs fc PROGRAM_MODE_FCS.
Definition fc_text (fc : option Z) : string := match fc with Some n => pretty n | None => "None" end.
Definition unauthorized_write (fc : option Z) (access : string) (src_is_authorized : bool) : option string :=
  if src_is_authorized then None
  else if is_write_control fc access
       then Some ("unauthorized write fc=" +:+ fc_text fc +:+ " access=" +:+ (if str_truthy access then access else "?"))
       else None.
Definition program_download (fc : option Z) (src_is_authorized : bool) : option string :=
  if negb src_is_authorized && is_program_or_mode fc then Some ("program/mode transfer fc=" +:+ fc_text fc) else None.
Definition enumeration_hit (distinct_fcs distinct_units fc_min unit_min : Z) : option string :=
  if fc_min <=? distinct_fcs then Some ("fc enumeration: " +:+ pretty distinct_fcs +:+ " distinct function codes")
  else if unit_min <=? distinct_units then Some ("unit enumeration: " +:+ pretty distinct_units +:+ " distinct unit IDs")
  else None.
Definition error_spike_hit (error_count threshold : Z) : option string :=
  if threshold <=? error_count then Some (pretty error_count +:+ " modbus exceptions in window") else None.
Definition modbus_port_anomaly (dst_port : val) (allow_ports : list Z) : res (option string) :=
  port ← int_or_none dst_port;
  Ok (match port with
      | Some p => if (p =? 502) || mem p allow_ports then None else Some ("modbus on port " +:+ pretty p +:+ " (expected 502)")
      | None => None
      end).
End scores.

(** ** The handler *)

Record ot_settings := {
  OT_TENANT : string; AUTHORIZED_MASTERS : list string; OT_ALLOW_PORTS : list Z; MASTER_WARMUP : Z; MASTER_TTL : Z;
  OT_WINDOW : Z; FC_ENUM_MIN : Z; UNIT_ENUM_MIN : Z; ERROR_SPIKE_MIN : Z; OT_SOURCE_MAX_BYTES : Z
}.
Definition HOUR : Z := 3600 * 1000000.

Section app.
Context (st : ot_settings) (stable : string → Z) (dumps compact repr : val → string).

Definition ot_candidate (e : dict) (detector : string) (sev : Z) (conf entities : string) (mitre : list string) (bucket now : Z) : dict :=
  let cand : dict :=
    [("finding_id", VStr (detector +:+ "-" +:+ pretty (stable entities mod 10 ^ 10) +:+ "-" +:+ pretty bucket));
     ("tenant_id", VStr (OT_TENANT st)); ("detector_id", VStr detector); ("detector_version", VStr "1.0");
     ("category", VStr "ics_control"); ("severity", VInt sev); ("confidence", VFloat (lit conf));
     ("first_seen", VStr (emitted_text now)); ("last_seen", VStr (emitted_text now)); ("entities", VStr entities); ("state", VStr "CANDIDATE")] in
  let cand := match mitre with [] => cand | _ => dset "mitre" (VList (VStr <$> mitre)) cand end in
  match e with
  | [] => cand
  | _ => match source_event compact (OT_SOURCE_MAX_BYTES st) (VDict e) false with
         | Some se => dset "source_events" (VList [VDict se]) cand
         | None => cand
         end
  end.
Definition ot_key_stem (detector entities : string) : string :=
  "emit:" +:+ OT_TENANT st +:+ ":" +:+ detector +:+ ":" +:+ pretty (stable entities mod 10 ^ 12).
(** [e] is the record being handled. *)
Definition ot_emit (e : dict) (detector : string) (sev : Z) (conf : string) (ents : list val) (mitre : list string) : prog unit :=
  let entities := dumps (VList ents) in
  now ← read_clock;
  let bucket := now / HOUR in
  emit_once (in_bucket (ot_key_stem detector entities) bucket) HOUR (ot_candidate e detector sev conf entities mitre bucket).
(** [src in AUTHORIZED_MASTERS]: a list or an object cannot be hashed. *)
Definition pinned (src : val) : res bool := match src with VStr s => Ok (mem s (AUTHORIZED_MASTERS st)) | VList _ | VDict _ => Raise TypeError | _ => Ok false end.
Definition master_key (dst : val) : string := "otmaster:" +:+ OT_TENANT st +:+ ":" +:+ py_str repr dst.
Definition _known_master (src dst : val) : prog bool :=
  pin ← lift_res (pinned src);
  if pin : bool then Ret true
  else
    n ← ask_int (o_set_len (master_key dst));
    m ← lift_res (member_of repr src);
    known ← ask_bool (o_set_contains (master_key dst) m);
    tell (o_set_add (master_key dst) m (MASTER_TTL st) None);;
    Ret (negb (MASTER_WARMUP st <=? n) || known).
Definition _ent (src dst : val) (extra : list val) : list val := [ip_entity "src" src; ip_entity "dst" dst] ++ extra.
Definition why_of (why : string) : val := entity "why" (VStr why).
Definition fc_val (fc : option Z) : val := from_option VInt VNone fc.
Definition on_hit (why : option string) (k : string → prog unit) : prog unit := match why with Some w => k w | None => Ret tt end.
Definition source_key (prefix : string) (src : val) : string := prefix +:+ OT_TENANT st +:+ ":" +:+ py_str repr src.
Definition breadth (src : val) (f : mb) : prog (option string) :=
  match mb_fc f with Some n => tell (o_set_add (source_key "otfc:" src) (pretty n) (OT_WINDOW st) None) | None => Ret tt end;;
  match mb_unit f with VNone => Ret tt | u => tell (o_set_add (source_key "otunit:" src) (py_str repr u) (OT_WINDOW st) None) end;;
  fcs ← ask_int (o_set_len (source_key "otfc:" src));
  units ← ask_int (o_set_len (source_key "otunit:" src));
  Ret (enumeration_hit fcs units (FC_ENUM_MIN st) (UNIT_ENUM_MIN st)).
Definition judge (e : dict) (src dst : val) (f : mb) (authorized : bool) : prog unit :=
  let fc := mb_fc f in
  (if authorized then Ret tt
   else ot_emit e "new_master_pairing" 5 "0.5" (_ent src dst [why_of "master never seen for this outstation"]) ["T0842"; "T0859"]);;
  on_hit (unauthorized_write fc (mb_access f) authorized) (λ why,
    ot_emit e "unauthorized_write" 8 "0.7" (_ent src dst [why_of why; entity "modbus_fc" (fc_val fc)]) ["T0855"; "T0831"]);;
  on_hit (program_download fc authorized) (λ why,
    ot_emit e "program_download" 9 "0.8" (_ent src dst [why_of why; entity "modbus_fc" (fc_val fc)]) ["T0858"; "T0843"]).
Definition ot_handle (v : val) : prog unit :=
  e ← lift_res (as_dict v);
  let modbus := dgetN "modbus" e in
  let '(src, dst) := (dgetN "src_ip" e, dgetN "dest_ip" e) in
  if negb (val_eq_str (dgetN "event_type" e) "modbus") && match modbus with VNone => true | _ => false end then Ret tt
  else if negb (truthy src) || negb (truthy dst) then Ret tt
  else
    pa ← lift_res (modbus_port_anomaly (dgetN "dest_port" e) (OT_ALLOW_PORTS st));
    on_hit pa (λ why, ot_emit e "modbus_port_anomaly" 6 "0.6" (_ent src dst [why_of why]) ["T0885"]);;
    f ← lift_res (mb_fields repr modbus);
    authorized ← _known_master src dst;
    judge e src dst f authorized;;
    en ← breadth src f;
    on_hit en (λ why, ot_emit e "fc_enumeration" 6 "0.6" (_ent src dst [why_of why]) ["T0846"]);;
    if mb_error f then
      n ← ask_int (o_counter_add (source_key "oterr:" src) "c" 1 (OT_WINDOW st));
      on_hit (error_spike_hit n (ERROR_SPIKE_MIN st)) (λ why,
        ot_emit e "error_flag_spike" 5 "0.5" (_ent src dst [why_of why]) [])
    else Ret tt.

(** ** Facts *)

Lemma ot_emit_disciplined e detector sev conf ents mitre : disciplined HOUR [] (ot_emit e detector sev conf ents mitre).
Proof. unfold ot_emit. discipline ltac:(apply disciplined_emit). Qed.
Lemma on_hit_disciplined why k : (∀ w, disciplined HOUR [] (k w)) → disciplined HOUR [] (on_hit why k).
Proof. by destruct why as [w|]; intros H; cbn. Qed.
Lemma ot_handle_disciplined v : disciplined HOUR [] (ot_handle v).
Proof.
  unfold ot_handle, judge, breadth, _known_master, tell, ask_int, ask_bool.
  discipline ltac:(first [apply ot_emit_disciplined | apply on_hit_disciplined; intros ?]).
Qed.

(** *** Who is accused *)

Definition of_detector (names : list string) (c : dict) : Prop := ∃ d, dgetN "detector_id" c = VStr d ∧ d ∈ names.
Definition ACCUSATIONS : list string := ["new_master_pairing"; "unauthorized_write"; "program_download"].
Definition OBSERVATIONS : list string := ["modbus_port_anomaly"; "fc_enumeration"; "error_flag_spike"].
Lemma ot_emit_sends names e detector sev conf ents mitre : detector ∈ names → sends_only (of_detector names) (ot_emit e detector sev conf ents mitre).
Proof.
  intros Hd. unfold ot_emit. apply sends_only_bind; [by intros t|intros now]. apply sends_only_emit. intros t'. exists detector. split; [|done]. unfold ot_candidate.
  destruct e as [|kv e], mitre as [|m mitre]; try done; destruct (source_event _ _ _ _); by simpl_dict.
Qed.
Lemma on_hit_sends P why k : (∀ w, sends_only P (k w)) → sends_only P (on_hit why k).
Proof. by destruct why as [w|]; intros H; cbn. Qed.
Lemma ot_emit_run now e detector sev conf ents mitre (s : mem_store) sent :
  ∃ s' sent', run_alone now (ot_emit e detector sev conf ents mitre) s sent = (s', sent', Ok tt) ∧ ∀ k, sets s' k = sets s k.
Proof.
  unfold ot_emit. rewrite run_alone_bind. cbn [run_alone read_clock]. unfold emit_once. cbn [run_alone].
  match goal with |- context [ws_step now s (o_dedup_seen ?k ?t)] => pose proof (λ k', sets_dedup now s k t k') as H; unfold st_do in H end.
  destruct (ws_step now s (o_dedup_seen _ _)) as [s1 a]. destruct a as [|[]| | | | | |]; cbn; eauto.
Qed.
(** The members of a set, and the learned masters of an outstation, that have not expired. *)
Definition live_members (now : Z) (k : string) (s : mem_store) : list (string * Z) := List.filter (λ me : string * Z, now <? me.2) (sets s k).
Definition masters (now : Z) (dst : val) (s : mem_store) : list (string * Z) := live_members now (master_key dst) s.
(** What it takes to call a source unauthorized. *)
Definition stranger (now : Z) (src dst : val) (s : mem_store) : Prop :=
  pinned src = Ok false ∧ MASTER_WARMUP st <= Z.of_nat (length (masters now dst s)) ∧
  ∃ m, member_of repr src = Ok m ∧ od_get m (masters now dst s) = None.
Lemma run_set_len now k (s : mem_store) sent :
  ∃ s', run_alone now (ask_int (o_set_len k)) s sent = (s', sent, Ok (Z.of_nat (length (live_members now k s)))) ∧
    live_members now k s' = live_members now k s.
Proof.
  unfold ask_int. cbn [run_alone]. unfold ws_step, in_memory. cbn [op_key cell_op]. unfold live_members, sets.
  pose proof (live_set_snd now (cell_at s k)) as E. pose proof (live_set_sets now (cell_at s k)) as E'.
  destruct (_live_set now (cell_at s k)) as [c l]. cbn in E, E'. subst l. eexists. split; [reflexivity|].
  rewrite cell_at_put, decide_True, E' by done. rewrite filter_filter. apply List.filter_ext. intros x. by destruct (now <? x.2).
Qed.
Lemma run_set_contains now k m (s : mem_store) sent :
  ∃ s', run_alone now (ask_bool (o_set_contains k m)) s sent = (s', sent, Ok (bool_decide (is_Some (od_get m (live_members now k s))))).
Proof.
  unfold ask_bool. cbn [run_alone]. unfold ws_step, in_memory. cbn [op_key cell_op]. unfold live_members, sets.
  pose proof (live_set_snd now (cell_at s k)) as E. destruct (_live_set now (cell_at s k)) as [c l]. cbn in E. subst l. eexists. reflexivity.
Qed.
Lemma known_master_run now src dst (s : mem_store) sent :
  match run_alone now (_known_master src dst) s sent with
  | (_, sent', Ok authorized) => sent' = sent ∧ (authorized = false → stranger now src dst s)
  | (_, sent', Raise _) => sent' = sent
  end.
Proof.
  unfold _known_master. rewrite run_alone_bind. destruct (pinned src) as [[|]|e] eqn:Ep; cbn [lift_res run_alone]; [done| |done].
  destruct (run_set_len now (master_key dst) s sent) as (s1 & E1 & El). rewrite run_alone_bind, E1, run_alone_bind.
  destruct (member_of repr src) as [m|e] eqn:Em; cbn [lift_res run_alone]; [|done].
  destruct (run_set_contains now (master_key dst) m s1 sent) as (s2 & E2). rewrite run_alone_bind, E2, run_alone_bind. unfold tell. cbn [run_alone].
  destruct (ws_step now s2 _) as [s3 a]. cbn [run_alone]. split; [done|]. intros Hf. apply orb_false_iff in Hf as [Hn Hk].
  apply negb_false_iff, Z.leb_le in Hn. apply bool_decide_eq_false in Hk. rewrite El in Hk. split_and!; [done|done|].
  exists m. split; [done|]. unfold masters. by apply eq_None_not_Some.
Qed.
Lemma judge_sends e src dst f authorized :
  sends_only (λ c, authorized = false ∧ of_detector ACCUSATIONS c) (judge e src dst f authorized).
Proof.
  destruct authorized; [done|]. assert (H : ∀ d sev conf ents mitre, d ∈ ACCUSATIONS →
    sends_only (λ c, false = false ∧ of_detector ACCUSATIONS c) (ot_emit e d sev conf ents mitre)).
  { intros d sev conf ents mitre Hd. eapply sends_only_weaken, ot_emit_sends, Hd. by split. }
  unfold judge. apply sends_only_bind; [apply H; apply (bool_decide_unpack _); vm_compute; exact I|intros _].
  apply sends_only_bind; [|intros _]; apply on_hit_sends; intros w; apply H; apply (bool_decide_unpack _); vm_compute; exact I.
Qed.

(** C19. An accusation is grounded in what the fleet has learned.  Handling a record against
    a store, the candidates that call its master new, its write unauthorized or its
    transfer a program download are sent only if the master is not one the deployment
    pins, the outstation had learned at least the warm-up number of masters that have not
    expired, and this master is none of them: before the baseline is warm, for a pinned
    master and for a known one, no record can raise any of the three. *)
Theorem ot_accusations_grounded now v (s : mem_store) key c :
  (key, c) ∈ (run_alone now (ot_handle v) s []).1.2 → of_detector ACCUSATIONS c →
  ∃ e s', v = VDict e ∧ stranger now (dgetN "src_ip" e) (dgetN "dest_ip" e) s' ∧ ∀ k, sets s' k = sets s k.
Proof.
  assert (Hex : ∀ c, of_detector OBSERVATIONS c → of_detector ACCUSATIONS c → False).
  { intros x (d & E & Hd) (d' & E' & Hd'). rewrite E in E'. injection E' as <-. revert Hd Hd'. unfold OBSERVATIONS, ACCUSATIONS.
    rewrite !elem_of_cons, elem_of_nil. intros [->|[->|[->|[]]]] [H|[H|[H|[]]]]; discriminate H. }
  unfold ot_handle. rewrite run_alone_bind. destruct v as [| | | | | |e]; cbn [as_dict lift_res run_alone fst snd]; try by intros ?%elem_of_nil.
  set (src := dgetN "src_ip" e). set (dst := dgetN "dest_ip" e). cbv zeta.
  destruct (negb _ && _); [by intros ?%elem_of_nil|]. destruct (_ || _); [by intros ?%elem_of_nil|]. rewrite run_alone_bind.
  destruct (modbus_port_anomaly _ _) as [pa|x]; cbn [lift_res run_alone fst snd]; [|by intros ?%elem_of_nil]. rewrite run_alone_bind.
  assert (Hport : ∃ s1 sent1, run_alone now (on_hit pa (λ why, ot_emit e "modbus_port_anomaly" 6 "0.6" (_ent src dst [why_of why]) ["T0885"])) s [] = (s1, sent1, Ok tt) ∧
    (∀ k, sets s1 k = sets s k) ∧ ∀ kc, kc ∈ sent1 → of_detector OBSERVATIONS kc.2).
  { destruct pa as [why|]; cbn [on_hit]; [|exists s, []; split_and!; [done|done|by intros kc ?%elem_of_nil]].
    destruct (ot_emit_run now e "modbus_port_anomaly" 6 "0.6" (_ent src dst [why_of why]) ["T0885"] s []) as (s1 & sent1 & E & Hs).
    exists s1, sent1. split_and!; [done|done|]. intros [k0 c0] Hin. change sent1 with ((s1, sent1, Ok tt : res unit).1.2) in Hin. rewrite <- E in Hin.
    destruct (run_alone_sends (of_detector OBSERVATIONS) _ _ _ _ _ _ (ot_emit_sends OBSERVATIONS e _ 6 "0.6" _ ["T0885"] ltac:(by left)) Hin) as [H|H]; [|done].
    by apply elem_of_nil in H. }
  destruct Hport as (s1 & sent1 & E1 & Hs1 & Hobs). rewrite E1, run_alone_bind. clear E1.
  destruct (mb_fields repr (dgetN "modbus" e)) as [f|x]; cbn [lift_res run_alone fst snd]; [|by intros Hin Hc; destruct (Hex c (Hobs _ Hin) Hc)].
  rewrite run_alone_bind. pose proof (known_master_run now src dst s1 sent1) as Hk.
  destruct (run_alone now (_known_master src dst) s1 sent1) as [[s2 sent2] [authorized|x]].
  2:{ subst sent2. cbn [fst snd]. intros Hin Hc. destruct (Hex c (Hobs _ Hin) Hc). }
  destruct Hk as [-> Hk]. intros Hin Hc.
  apply (run_alone_sends (λ c, (authorized = false ∧ of_detector ACCUSATIONS c) ∨ of_detector OBSERVATIONS c)) in Hin.
  - destruct Hin as [Hin|[[Ha _]|Hin]]; [destruct (Hex c (Hobs _ Hin) Hc)| |destruct (Hex c Hin Hc)]. exists e, s1. by split_and!; [|apply Hk|].
  - assert (Hw : ∀ A (p : prog A), sends_only (of_detector OBSERVATIONS) p → sends_only (λ c, (authorized = false ∧ of_detector ACCUSATIONS c) ∨ of_detector OBSERVATIONS c) p).
    { intros A p. apply sends_only_weaken. by right. }
    apply sends_only_bind; [eapply sends_only_weaken, judge_sends; by left|intros _]. apply Hw. unfold breadth, tell, ask_int.
    apply sends_only_bind; [destruct (mb_fc f), (mb_unit f); done|intros en]. apply sends_only_bind; [apply on_hit_sends; intros why; by apply ot_emit_sends; right; left|intros _].
    destruct (mb_error f); [|done]. apply sends_only_bind; [done|intros n]. apply on_hit_sends. intros why. apply ot_emit_sends. by right; right; left.
Qed.
End app.

(** ** A run: one master is known; another one writes. *)

Definition plant_settings : ot_settings :=
  {| OT_TENANT := "t"; AUTHORIZED_MASTERS := ["10.0.0.9"]; OT_ALLOW_PORTS := []; MASTER_WARMUP := 1; MASTER_TTL := 1000; OT_WINDOW := 600;
     FC_ENUM_MIN := 6; UNIT_ENUM_MIN := 4; ERROR_SPIKE_MIN := 5; OT_SOURCE_MAX_BYTES := 4096 |}.
Definition one_hash (_ : string) : Z := 1.
Definition json_word (_ : val) : string := "j".
Definition write_record : dict :=
  [("event_type", VStr "modbus"); ("src_ip", VStr "10.0.0.5"); ("dest_ip", VStr "10.0.0.7"); ("dest_port", VInt 502);
   ("modbus", VDict [("function", VDict [("code", VInt 6)]); ("unit_id", VInt 1)])].
Definition warm_store : mem_store := (ws_step 100 (∅ : mem_store) (o_set_add "otmaster:t:10.0.0.7" "10.0.0.4" 1000 None)).1.
Definition written := run_alone 200 (ot_handle plant_settings one_hash json_word json_word json_word (VDict write_record)) warm_store [].
Definition first_sent : string * dict := default ("", []) (head written.1.2).
Example write_judged : (λ kc : string * dict, dgetN "detector_id" kc.2) <$> written.1.2 = [VStr "new_master_pairing"; VStr "unauthorized_write"].
Proof. vm_compute. reflexivity. Qed.
Lemma ot_accusations_grounded_witness :
  ((first_sent.1, first_sent.2) ∈ written.1.2 ∧ of_detector ACCUSATIONS first_sent.2) ∧
  ∃ e s', VDict write_record = VDict e ∧
    stranger plant_settings json_word 200 (dgetN "src_ip" e) (dgetN "dest_ip" e) s' ∧ ∀ k, sets s' k = sets warm_store k.
Proof.
  assert (H1 : (first_sent.1, first_sent.2) ∈ written.1.2) by (vm_compute; left).
  assert (H2 : of_detector ACCUSATIONS first_sent.2) by (exists "new_master_pairing"; split; [vm_compute; reflexivity|left]).
  split; [by split|].
  exact (ot_accusations_grounded plant_settings one_hash json_word json_word json_word 200 (VDict write_record) warm_store _ _ H1 H2).
Defined.
Example port_anomaly_off_502 : modbus_port_anomaly (VInt 1502) [] = Ok (Some "modbus on port 1502 (expected 502)").
Proof. reflexivity. Qed.
