(* ===== verification/HttpDetector.v ===== *)
(** * HTTP detections (services/http-detector/http_detect.py, app.py)

    Patterns of web shells, injections, traversals and credentials in the URI, risky
    methods; a request is reported once per detection and ten minutes across the replicas.  The regular expressions the
    patterns are, and how they are searched, come first.

    [stable] is the hash of a text, [dumps] the text of JSON, [repr] that of containers and
    floats. *)

From S2P Require Import Prelude Order PyVal PyString WindowStore IsoTime PartitionKeys ProtocolDetectors DetectorFleet.
Set Default Proof Using "Type".

(** ** Regular expressions, as Python's [re] searches them

    The patterns of the services use character classes, alternatives, repetitions and the
    word boundary; whether they occur in a text does not depend on how greedy a repetition
    is.  [matches] says which parts of a text an expression matches, given the characters
    around them; [search] decides by derivatives whether some part does. *)

Inductive regex :=
| Void
| Eps
| Boundary
| Class (p : ascii → bool)
| Cat (r s : regex)
| Alt (r s : regex)
| Star (r : regex).

(** ** What an expression matches *)

Definition word_char (c : ascii) : bool := is_alnum c || Ascii.eqb c "_".
Definition is_word (c : option ascii) : bool := match c with Some c => word_char c | None => false end.
(** A position between a word character and something else. *)
Definition at_boundary (before after : option ascii) : bool := xorb (is_word before) (is_word after).
Definition first_char (s : list ascii) (after : option ascii) : option ascii := match s with c :: _ => Some c | [] => after end.
Definition last_char (before : option ascii) (s : list ascii) : option ascii := match last s with Some c => Some c | None => before end.
(** The part [s] between the characters [b] and [a]. *)
Inductive matches : regex → option ascii → list ascii → option ascii → Prop :=
| m_eps b a : matches Eps b [] a
| m_boundary b a : at_boundary b a = true → matches Boundary b [] a
| m_class p c b a : p c = true → matches (Class p) b [c] a
| m_cat r s b x y a : matches r b x (first_char y a) → matches s (last_char b x) y a → matches (Cat r s) b (x ++ y) a
| m_alt_l r s b x a : matches r b x a → matches (Alt r s) b x a
| m_alt_r r s b x a : matches s b x a → matches (Alt r s) b x a
| m_star_nil r b a : matches (Star r) b [] a
| m_star_cons r b c x y a :
    matches r b (c :: x) (first_char y a) → matches (Star r) (last_char b (c :: x)) y a → matches (Star r) b (c :: x ++ y) a.

(** ** Deciding it *)

Definition cat (r s : regex) : regex := match r, s with Void, _ | _, Void => Void | Eps, s => s | r, s => Cat r s end.
Definition alt (r s : regex) : regex := match r, s with Void, s => s | r, Void => r | r, s => Alt r s end.
(** Does it match the empty part at this position? *)
Fixpoint nullable (before after : option ascii) (r : regex) : bool :=
  match r with
  | Void | Class _ => false
  | Eps | Star _ => true
  | Boundary => at_boundary before after
  | Cat r s => nullable before after r && nullable before after s
  | Alt r s => nullable before after r || nullable before after s
  end.
(** What is left to match after the character [c]. *)
Fixpoint deriv (before : option ascii) (c : ascii) (r : regex) : regex :=
  match r with
  | Void | Eps | Boundary => Void
  | Class p => if p c then Eps else Void
  | Cat r s => alt (cat (deriv before c r) s) (if nullable before (Some c) r then deriv before c s else Void)
  | Alt r s => alt (deriv before c r) (deriv before c s)
  | Star r => cat (deriv before c r) (Star r)
  end.
(** Does it match a part that begins here? *)
Fixpoint match_here (before : option ascii) (r : regex) (s : list ascii) : bool :=
  nullable before (first_char s None) r ||
  match s with [] => false | c :: s => match_here (Some c) (deriv before c r) s end.
Fixpoint search_from (before : option ascii) (r : regex) (s : list ascii) : bool :=
  match_here before r s || match s with [] => false | c :: s => search_from (Some c) r s end.
(** [re.search(r, s)] *)
Definition search (r : regex) (s : string) : bool := search_from None r (list_ascii_of_string s).

(** ** Facts *)

Lemma last_char_cons b c x : last_char b (c :: x) = last_char (Some c) x.
Proof. unfold last_char. rewrite last_cons. by destruct (last x). Qed.
Lemma last_char_app b x y : last_char b (x ++ y) = last_char (last_char b x) y.
Proof. unfold last_char. rewrite last_app. by destruct (last y). Qed.
Lemma first_char_app x y a : first_char (x ++ y) a = first_char x (first_char y a).
Proof. by destruct x. Qed.
Lemma cat_inv r s b z a :
  matches (Cat r s) b z a → ∃ x y, z = x ++ y ∧ matches r b x (first_char y a) ∧ matches s (last_char b x) y a.
Proof. inversion 1; subst; eauto 6. Qed.
Lemma alt_inv r s b x a : matches (Alt r s) b x a → matches r b x a ∨ matches s b x a.
Proof. inversion 1; subst; auto. Qed.
Lemma star_inv r b c z a :
  matches (Star r) b (c :: z) a → ∃ x y, z = x ++ y ∧ matches r b (c :: x) (first_char y a) ∧ matches (Star r) (last_char b (c :: x)) y a.
Proof. inversion 1; subst; eauto 6. Qed.
Lemma void_inv b x a : ¬ matches Void b x a.
Proof. inversion 1. Qed.
Lemma eps_inv b x a : matches Eps b x a → x = [].
Proof. by inversion 1. Qed.
Lemma matches_cat r s b x a : matches (cat r s) b x a ↔ matches (Cat r s) b x a.
Proof.
  assert (Hv : ∀ s, matches Void b x a ↔ matches (Cat Void s) b x a).
  { intros s'. split; [by intros []%void_inv|]. by intros (? & ? & _ & []%void_inv & _)%cat_inv. }
  assert (Hv' : ∀ r, matches Void b x a ↔ matches (Cat r Void) b x a).
  { intros r'. split; [by intros []%void_inv|]. by intros (? & ? & _ & _ & []%void_inv)%cat_inv. }
  assert (He : ∀ s, matches s b x a ↔ matches (Cat Eps s) b x a).
  { intros s'. split; [intros H; apply (m_cat Eps s' b [] x a); [constructor|done]|]. by intros (u & v & -> & ->%eps_inv & H)%cat_inv. }
  unfold cat. destruct r; try apply Hv; destruct s; try apply Hv'; try apply He; done.
Qed.
Lemma matches_alt r s b x a : matches (alt r s) b x a ↔ matches (Alt r s) b x a.
Proof.
  assert (Hl : ∀ s, matches s b x a ↔ matches (Alt Void s) b x a).
  { intros s'. split; [by apply m_alt_r|]. by intros [[]%void_inv|?]%alt_inv. }
  assert (Hr : ∀ r, matches r b x a ↔ matches (Alt r Void) b x a).
  { intros r'. split; [by apply m_alt_l|]. by intros [?|[]%void_inv]%alt_inv. }
  unfold alt. destruct r; try apply Hl; destruct s; try apply Hr; done.
Qed.
Lemma nullable_spec r b a : nullable b a r = true ↔ matches r b [] a.
Proof.
  revert b a. induction r as [| | |p|r IHr s IHs|r IHr s IHs|r IHr]; intros b a; cbn; try (split; [done|intros H; inversion H]).
  - split; [constructor|done].
  - split; [by constructor|]. by inversion 1.
  - rewrite andb_true_iff, IHr, IHs. split; [intros [H1 H2]; by apply (m_cat r s b [] [] a)|].
    by intros (x & y & [-> ->]%eq_sym%app_nil & H1 & H2)%cat_inv.
  - rewrite orb_true_iff, IHr, IHs. split; [intros [H|H]; [by apply m_alt_l|by apply m_alt_r]|]. apply alt_inv.
  - split; [constructor|done].
Qed.
Lemma deriv_spec r b c x a : matches (deriv b c r) (Some c) x a ↔ matches r b (c :: x) a.
Proof.
  revert b x a. induction r as [| | |p|r IHr s IHs|r IHr s IHs|r IHr]; intros b x a; cbn [deriv]; try (split; intros H; by inversion H).
  - destruct (p c) eqn:Ep; split; intros H; inversion H; subst; [by constructor|constructor|congruence].
  - rewrite matches_alt. split.
    + intros [H1|H1]%alt_inv.
      * apply matches_cat in H1. apply cat_inv in H1 as (u & v & -> & K1 & K2). apply IHr in K1. apply (m_cat r s b (c :: u) v a); [done|].
        by rewrite last_char_cons.
      * destruct (nullable b (Some c) r) eqn:En; [|by apply void_inv in H1]. apply nullable_spec in En. apply IHs in H1. by apply (m_cat r s b [] (c :: x) a).
    + intros (u & v & E & K1 & K2)%cat_inv. destruct u as [|d u]; cbn in *.
      * subst v. apply m_alt_r. apply nullable_spec in K1. cbn in K1. rewrite K1. by apply IHs.
      * injection E as <- ->. apply m_alt_l, matches_cat. apply m_cat; [by apply IHr|]. by rewrite last_char_cons in K2.
  - rewrite matches_alt. split; intros [H|H]%alt_inv; [apply m_alt_l; by apply IHr|apply m_alt_r; by apply IHs|apply m_alt_l; by apply IHr|apply m_alt_r; by apply IHs].
  - rewrite matches_cat. split.
    + intros (u & v & -> & K1 & K2)%cat_inv. apply IHr in K1. apply (m_star_cons r b c u v a); [done|]. by rewrite last_char_cons.
    + intros (u & v & -> & K1 & K2)%star_inv. apply m_cat; [by apply IHr|]. by rewrite last_char_cons in K2.
Qed.
Lemma match_here_spec r b s : match_here b r s = true ↔ ∃ x y, s = x ++ y ∧ matches r b x (first_char y None).
Proof.
  revert r b. induction s as [|c s IH]; intros r b; cbn [match_here]; rewrite orb_true_iff, nullable_spec.
  - split; [intros [H|H]; [by exists [], []|done]|]. intros (x & y & E & H). destruct x, y; try done. by left.
  - rewrite IH. split.
    + intros [H|(x & y & -> & H)]; [by exists [], (c :: s)|]. exists (c :: x), y. split; [done|by apply deriv_spec].
    + intros ([|d x] & y & E & H); cbn in E; [subst y; by left|]. injection E as -> ->. right. exists x, y. split; [done|by apply deriv_spec].
Qed.
Lemma search_from_spec b r t :
  search_from b r t = true ↔ ∃ p x y, t = p ++ x ++ y ∧ matches r (last_char b p) x (first_char y None).
Proof.
  revert b. induction t as [|c t IH]; intros b; cbn [search_from]; rewrite orb_true_iff, match_here_spec.
  - split; [intros [(x & y & E & H)|H]; [by exists [], x, y|done]|]. intros (p & x & y & E & H). destruct p; [|done]. left. by exists x, y.
  - rewrite IH. split.
    + intros [(x & y & E & H)|(p & x & y & -> & H)]; [by exists [], x, y|]. exists (c :: p), x, y. split; [done|by rewrite last_char_cons].
    + intros ([|d p] & x & y & E & H); [left; by exists x, y|]. injection E as <- ->. right. exists p, x, y. split; [done|by rewrite last_char_cons in H].
Qed.
(** The search decides what it means: a search for an expression in a text succeeds
    exactly when the text splits into a beginning, a part the expression matches between
    its neighbouring characters, and an end. *)
Theorem search_spec r s :
  search r s = true ↔ ∃ p x y, list_ascii_of_string s = p ++ x ++ y ∧ matches r (last_char None p) x (first_char y None).
Proof. apply search_from_spec. Qed.

(** ** HTTP detections (services/http-detector/http_detect.py, app.py) *)

(** ** Patterns *)

(** A text, whatever its case. *)
Fixpoint txt (s : string) : regex :=
  match s with
  | EmptyString => Eps
  | String c EmptyString => Class (λ d, Ascii.eqb (lower_char d) c)
  | String c s => Cat (Class (λ d, Ascii.eqb (lower_char d) c)) (txt s)
  end.
Fixpoint any_of (rs : list regex) : regex := match rs with [] => Void | [r] => r | r :: rs => Alt r (any_of rs) end.
Fixpoint in_turn (rs : list regex) : regex := match rs with [] => Eps | [r] => r | r :: rs => Cat r (in_turn rs) end.
Definition words (ws : list string) : regex := any_of (txt <$> ws).
Definition maybe (r : regex) : regex := Alt r Eps.
Definition some (r : regex) : regex := Cat r (Star r).
Definition space : regex := Class is_space.
Definition spaces : regex := Star space.
Definition digit : regex := Class is_digit.
Definition newline_free : regex := Class (λ c, negb (Ascii.eqb c "010")).
Definition quote : regex := maybe (txt "'").

Definition _WEBSHELL : regex := any_of [
  in_turn [txt "/"; any_of [words ["c99"; "r57"; "b374k"; "wso"; "c100"; "shell"; "cmd"; "backdoor"; "webshell"; "antichat"];
                            in_turn [txt "mini"; maybe (Class (one_of "_-")); txt "shell"]]; Boundary];
  in_turn [txt "/"; any_of [txt "tmp"; in_turn [txt "upload"; maybe (txt "s")]; in_turn [txt "image"; maybe (txt "s")]]; txt "/";
           some (Class (λ c, is_alnum c || Ascii.eqb c "_")); txt "."; words ["php"; "jsp"; "asp"; "aspx"]; Boundary];
  in_turn [txt "."; words ["php"; "asp"; "aspx"; "jsp"]; txt ";"; Boundary]].
Definition _SQLI : regex := any_of [
  in_turn [txt "union"; some (any_of [space; in_turn [txt "/*"; Star newline_free; txt "*/"]; txt "+"]); txt "select"];
  in_turn [txt "'"; spaces; txt "or"; spaces; quote; digit; quote; spaces; txt "="; spaces; quote; digit];
  in_turn [Boundary; txt "or"; some space; txt "1"; spaces; txt "="; spaces; txt "1"; Boundary];
  in_turn [txt "sleep("; spaces; digit]; in_turn [txt "benchmark("; spaces; digit]; txt "information_schema";
  in_turn [txt ";"; spaces; txt "drop"; some space; txt "table"]; in_turn [txt "waitfor"; some space; txt "delay"]].
Definition _CMDI : regex := any_of [
  in_turn [txt ";"; spaces; words ["cat"; "wget"; "curl"; "nc"; "bash"; "sh"; "powershell"; "whoami"; "id"; "uname"]; Boundary];
  in_turn [txt "|"; spaces; words ["nc"; "bash"; "sh"; "powershell"]; Boundary];
  in_turn [txt "$("; some (Class (λ c, negb (Ascii.eqb c ")"))); txt ")"];
  in_turn [txt "%0a"; words ["cat"; "wget"; "curl"; "id"]; Boundary]].
Definition _TRAVERSAL : regex := any_of [
  txt "../../"; txt "..\"; txt "..%2f"; txt "%2e%2e%2f"; txt "/etc/passwd"; txt "/proc/self/environ";
  in_turn [txt "php://"; words ["filter"; "input"]]; txt "file:///"; txt "data://text"].
Definition _CRED_IN_URL : regex := in_turn [
  Class (one_of "?&"); words ["password"; "passwd"; "pwd"; "token"; "apikey"; "api_key"; "secret"; "access_key"; "auth"]; txt "=";
  some (Class (λ c, negb (Ascii.eqb c "&" || is_space c)))].
Definition _RISKY_METHODS : list string :=
  ["PUT"; "DELETE"; "PROPFIND"; "PROPPATCH"; "MKCOL"; "COPY"; "MOVE"; "TRACE"; "CONNECT"; "SEARCH"].

(** A detection: detector, category, severity, why. *)
Definition detection : Type := string * string * Z * string.
Definition when (b : bool) (d : detection) : list detection := if b then [d] else [].
(** [x or ""], which the pattern search and [upper] take only as a text. *)
Definition text_or_empty (v : val) (e : exn) : res string := match py_or v (VStr "") with VStr s => Ok s | _ => Raise e end.
Definition http_findings (method url : val) : res (list detection) :=
  u ← text_or_empty url TypeError;
  m ← text_or_empty method AttributeError;
  Ok (when (search _WEBSHELL u) ("http_webshell", "malware", 8, "webshell / backdoor URI") ++
      when (search _SQLI u) ("http_sqli", "exploit", 7, "SQL-injection pattern in URI") ++
      when (search _CMDI u) ("http_cmd_injection", "exploit", 8, "command-injection pattern in URI") ++
      when (search _TRAVERSAL u) ("http_path_traversal", "exploit", 7, "path-traversal / LFI pattern") ++
      when (search _CRED_IN_URL u) ("http_cred_in_url", "credential_access", 5, "credential in URL query") ++
      when (mem (upper m) _RISKY_METHODS) ("http_suspicious_method", "c2", 5, "uncommon HTTP method " +:+ upper m)).

(** ** The handler *)

Definition TEN_MINUTES : Z := 600 * 1000000.
Section app.
Context (TENANT : string) (stable : string → Z) (dumps repr : val → string).

Definition http_candidate (h : dict) (src dst : val) (url : string) (d : detection) (dk : string) (bucket now : Z) : dict :=
  let '(det, cat, sev, why) := d in
  let ent := dumps (VList [ip_entity "src" src; ip_entity "dst" dst; entity "host" (dgetN "hostname" h);
                           entity "uri" (VStr (take_chars 256 url)); entity "why" (VStr why)]) in
  [("finding_id", VStr (det +:+ "-" +:+ pretty (stable dk mod 10 ^ 10) +:+ "-" +:+ pretty bucket)); ("tenant_id", VStr TENANT);
   ("detector_id", VStr det); ("detector_version", VStr "1.0"); ("category", VStr cat); ("severity", VInt sev);
   ("confidence", VFloat (lit "0.7")); ("first_seen", VStr (emitted_text now)); ("last_seen", VStr (emitted_text now));
   ("entities", VStr ent); ("state", VStr "CANDIDATE")].
Definition report (h : dict) (src dst : val) (url : string) (d : detection) : prog unit :=
  let '(det, _, _, _) := d in
  now ← read_clock;
  let bucket := now / TEN_MINUTES in
  let dk := det +:+ ":" +:+ py_str repr src +:+ ":" +:+ py_str repr dst +:+ ":" +:+ url in
  emit_once (in_bucket ("emit:" +:+ TENANT +:+ ":" +:+ det +:+ ":" +:+ pretty (stable dk mod 10 ^ 12)) bucket) TEN_MINUTES
    (http_candidate h src dst url d dk bucket).
Definition http_handle (v : val) : prog unit :=
  e ← lift_res (as_dict v);
  h ← lift_res (as_dict (py_or (dget_or "http" (VDict []) e) (VDict [])));
  let url := py_or (dgetN "url" h) (VStr "") in
  found ← lift_res (http_findings (dgetN "http_method" h) url);
  url ← lift_res (text_or_empty url TypeError);
  each (report h (dgetN "src_ip" e) (dgetN "dest_ip" e) url) found.

(** ** Facts *)

Lemma http_handle_disciplined v : disciplined TEN_MINUTES [] (http_handle v).
Proof. unfold http_handle, report. discipline ltac:(apply disciplined_emit). Qed.
End app.

(** An expression matches a part of the text. *)
Definition occurs (r : regex) (u : string) : Prop :=
  ∃ p x y, list_ascii_of_string u = p ++ x ++ y ∧ matches r (last_char None p) x (first_char y None).
Definition URI_PATTERNS : list (string * regex) :=
  [("http_webshell", _WEBSHELL); ("http_sqli", _SQLI); ("http_cmd_injection", _CMDI); ("http_path_traversal", _TRAVERSAL);
   ("http_cred_in_url", _CRED_IN_URL)].
Lemma when_ids b (d : detection) id : id ∈ (λ d : detection, d.1.1.1) <$> when b d ↔ b = true ∧ id = d.1.1.1.
Proof. destruct b; cbn; [rewrite list_elem_of_singleton; naive_solver|]. rewrite elem_of_nil. naive_solver. Qed.
(** A request is reported for what it contains.  For a textual method and URI, a
    detection is reported exactly when the URI has a part its pattern matches (whatever
    the case, with the word boundaries the pattern asks for), or, for the method
    detection, when the upper-cased method is one of the risky ones; nothing is reported
    twice. *)
Theorem http_findings_exact m u l :
  http_findings (VStr m) (VStr u) = Ok l →
  (∀ id, id ∈ (λ d : detection, d.1.1.1) <$> l ↔
    (∃ r, (id, r) ∈ URI_PATTERNS ∧ occurs r u) ∨ (id = "http_suspicious_method" ∧ upper m ∈ _RISKY_METHODS)) ∧
  NoDup ((λ d : detection, d.1.1.1) <$> l).
Proof.
  unfold http_findings, text_or_empty, py_or. intros H. assert (E : ∀ s, (if truthy (VStr s) then VStr s else VStr "") = VStr s) by (by intros []).
  rewrite !E in H. cbn [mbind res_bind] in H. injection H as <-. split.
  - intros id. rewrite !fmap_app, !elem_of_app, !when_ids, mem_true, !search_spec. cbn [fst snd]. unfold URI_PATTERNS. split.
    + intros [[H ->]|[[H ->]|[[H ->]|[[H ->]|[[H ->]|[H ->]]]]]]; [left..|right; done]; eexists; (split; [|exact H]); rewrite !elem_of_cons; auto 10.
    + intros [(r & Hin & H)|[-> H]]; [|auto 10]. rewrite !elem_of_cons, elem_of_nil in Hin.
      destruct Hin as [[= -> ->]|[[= -> ->]|[[= -> ->]|[[= -> ->]|[[= -> ->]|[]]]]]]; auto 10.
  - destruct (search _WEBSHELL u), (search _SQLI u), (search _CMDI u), (search _TRAVERSAL u), (search _CRED_IN_URL u), (mem (upper m) _RISKY_METHODS);
      apply (bool_decide_unpack _); vm_compute; exact I.
Qed.
Definition found_ids (m u : string) : list string := match http_findings (VStr m) (VStr u) with Ok l => (λ d : detection, d.1.1.1) <$> l | _ => [] end.
Example shell_found : found_ids "GET" "/uploads/Shell.PHP?x=1" = ["http_webshell"].
Proof. vm_compute. reflexivity. Qed.
Example union_found : found_ids "GET" "/p?id=1+UNION/**/+SELECT+1" = ["http_sqli"].
Proof. vm_compute. reflexivity. Qed.
Example clean_request : found_ids "GET" "/index.html?token_type=bearer" = [].
Proof. vm_compute. reflexivity. Qed.
Lemma http_findings_exact_witness :
  http_findings (VStr "put") (VStr "/a?pwd=x;cat /etc/passwd") =
    Ok [("http_cmd_injection", "exploit", 8, "command-injection pattern in URI"); ("http_path_traversal", "exploit", 7, "path-traversal / LFI pattern");
        ("http_cred_in_url", "credential_access", 5, "credential in URL query"); ("http_suspicious_method", "c2", 5, "uncommon HTTP method PUT")] ∧
  ("http_sqli" ∉ ["http_cmd_injection"; "http_path_traversal"; "http_cred_in_url"; "http_suspicious_method"]) ∧
  occurs _CMDI "/a?pwd=x;cat /etc/passwd".
Proof.
  assert (E : http_findings (VStr "put") (VStr "/a?pwd=x;cat /etc/passwd") =
    Ok [("http_cmd_injection", "exploit", 8, "command-injection pattern in URI"); ("http_path_traversal", "exploit", 7, "path-traversal / LFI pattern");
        ("http_cred_in_url", "credential_access", 5, "credential in URL query"); ("http_suspicious_method", "c2", 5, "uncommon HTTP method PUT")])
    by (vm_compute; reflexivity).
  split; [exact E|]. destruct (http_findings_exact _ _ _ E) as [H _]. split; [apply (bool_decide_unpack _); vm_compute; exact I|].
  destruct (proj1 (H "http_cmd_injection") ltac:(vm_compute; left)) as [(r & Hin & Ho)|[Hx _]]; [|discriminate Hx].
  unfold URI_PATTERNS in Hin. rewrite !elem_of_cons, elem_of_nil in Hin.
  destruct Hin as [Hi|[Hi|[Hi|[Hi|[Hi|[]]]]]]; injection Hi; intros; subst; try discriminate. exact Ho.
Defined.
