(* ===== verification/DnsDetector.v ===== *)
(** * DNS detections (services/dns-detector/dns_detect.py, app.py)

    Names whose registered label looks generated, and clients with many NXDOMAIN answers
    in a window kept per partition in the shared store.

    [round3] is [round(x, 3)], [fsum] is [sum] on floats, [log2] is [math.log2]; [stable]
    is the hash of a text, [dumps] the text of JSON, [repr] that of containers and floats. *)

From S2P Require Import Prelude Order PyVal PyString IsoTime WindowStore PartitionKeys BehavioralScores ProtocolDetectors DetectorFleet.
Set Default Proof Using "Type".

(** ** Names *)

(** [(v or "").lower()] *)
Definition low (v : val) : res string := match py_or v (VStr "") with VStr s => Ok (lower s) | _ => Raise AttributeError end.
Definition dns_of (eve : dict) : res dict := as_dict (py_or (dgetN "dns" eve) (VDict [])).
Definition query_name (eve : dict) : res string :=
  d ← dns_of eve;
  match dgetN "queries" d with
  | VList (q :: _) => name ← get_of "rrname" q; low name
  | _ => low (dgetN "rrname" d)
  end.
(** The second label from the right, the registered domain. *)
Definition registered_label (qname : string) : string :=
  match rev (List.filter str_truthy (split_char "." (strip_by (one_of ".") qname))) with
  | _ :: label :: _ => label
  | _ => ""
  end.
Definition vowel (c : ascii) : bool := one_of "aeiou" c.
Definition consonant (c : ascii) : bool := (is_upper c || is_lower c) && negb (vowel c).
(** The current and the longest run of consonants. *)
Definition run_step (rm : Z * Z) (c : ascii) : Z * Z :=
  let '(run, mx) := rm in if consonant c then (run + 1, Z.max mx (run + 1)) else (0, mx).
Definition longest_run (label : list ascii) : Z := (foldl run_step (0, 0) label).2.

Section scores.
Context (round3 : float → float) (fsum : list float → float) (log2 : float → float).
(** The share of the characters that satisfy [p]. *)
Definition share_of (p : ascii → bool) (cs : list ascii) : float :=
  ratio (Z.of_nat (length (List.filter p cs))) (Z.of_nat (length cs)).
Definition _shannon (s : string) : float :=
  let cs := list_ascii_of_string s in
  match cs with
  | [] => f0
  | _ => SFopp (fsum ((λ c, let p := share_of (Ascii.eqb c) cs in fmul p (log2 p)) <$> dedup_onto [] cs))
  end.
Definition dga_score (qname : string) : float * string :=
  let label := registered_label qname in
  let cs := list_ascii_of_string label in
  if Z.of_nat (length cs) <? 8 then (f0, label)
  else
    let ent := fmin (fdiv (_shannon label) (lit "4.0")) f1 in
    let digits := share_of is_digit cs in
    let vowels := share_of vowel cs in
    let consonants := fmin (fdiv (of_int (longest_run cs)) (lit "6.0")) f1 in
    let vowel_scarcity := fsub f1 (fmin (fdiv vowels (lit "0.30")) f1) in
    let score := fadd (fadd (fadd (fmul (lit "0.35") ent) (fmul (lit "0.25") consonants)) (fmul (lit "0.20") vowel_scarcity))
                      (fmul (lit "0.20") (fmin (fdiv digits (lit "0.30")) f1)) in
    (round3 (fmin score f1), label).
Definition is_dga (qname : string) (threshold : float) : bool * float * string :=
  let '(score, label) := dga_score qname in (SFleb threshold score, score, label).
Definition nxdomain_burst (count threshold : Z) : bool := threshold <=? count.

(** ** The handler and the evaluation *)

Record dns_settings := { DNS_TENANT : string; DGA_THRESHOLD : float; NXDOMAIN_THRESHOLD : Z; NX_WINDOW : Z; ENUM_INDEX : bool }.
Definition BUCKET : Z := 600 * 1000000.
Context (st : dns_settings) (stable : string → Z) (dumps repr : val → string).

Definition rcode (eve : dict) : res string := d ← dns_of eve; Ok (upper (py_str repr (py_or (dgetN "rcode" d) (VStr "")))).
Definition dns_candidate (detector category : string) (sev : Z) (conf : float) (entities dedup : string) (bucket now : Z) : dict :=
  [("finding_id", VStr (detector +:+ "-" +:+ pretty (stable dedup mod 10 ^ 10) +:+ "-" +:+ pretty bucket)); ("tenant_id", VStr (DNS_TENANT st));
   ("detector_id", VStr detector); ("detector_version", VStr "1.0"); ("category", VStr category); ("severity", VInt sev);
   ("confidence", VFloat conf); ("first_seen", VStr (emitted_text now)); ("last_seen", VStr (emitted_text now));
   ("entities", VStr entities); ("state", VStr "CANDIDATE")].
Definition dns_emit (detector category : string) (sev : Z) (conf : float) (entities : list val) (dedup : string) : prog unit :=
  let entities := dumps (VList entities) in
  now ← read_clock;
  let bucket := now / BUCKET in
  emit_once (in_bucket ("emit:" +:+ DNS_TENANT st +:+ ":" +:+ detector +:+ ":" +:+ pretty (stable dedup mod 10 ^ 12)) bucket) BUCKET
    (dns_candidate detector category sev conf entities dedup bucket).
Definition _nx_add (part : N) (client : val) : prog unit :=
  let key := window_key "nx:" part (DNS_TENANT st) (py_str repr client) in
  now ← read_clock;
  tell (if ENUM_INDEX st then o_window_add_indexed key (_index_key "nx:" (pretty part)) now "1" (NX_WINDOW st)
        else o_window_add key now "1" (NX_WINDOW st)).
Definition dns_handle (v : val) (part : N) : prog unit :=
  e ← lift_res (as_dict v);
  let src := dgetN "src_ip" e in
  qname ← lift_res (query_name e);
  (if str_truthy qname then
     let '(hit, score, label) := is_dga qname (DGA_THRESHOLD st) in
     if hit : bool then
       dns_emit "dga_domain" "c2" 6 score
         [ip_entity "src" src; entity "domain" (VStr qname); entity "dga_label" (VStr label); entity "dga_score" (VFloat score)] qname
     else Ret tt
   else Ret tt);;
  rc ← lift_res (rcode e);
  if String.eqb rc "NXDOMAIN" && truthy src then _nx_add part src else Ret tt.

Fixpoint ask_members (keys : list string) : prog (list string) :=
  match keys with
  | [] => Ret []
  | k :: keys => l ← ask_strs (o_set_members k); l' ← ask_members keys; Ret (l ++ l')
  end.
Definition scoped_clients (parts : option (list N)) : prog (list string) :=
  match parts with
  | None => ask_strs (o_keys_matching "nx:")
  | Some ps =>
      if ENUM_INDEX st then ask_members ((λ p, _index_key "nx:" (pretty p)) <$> ps)
      else l ← ask_strs (o_keys_matching "nx:"); Ret (List.filter (owned ps) l)
  end.
Definition prune_client (key : string) : prog unit :=
  if ENUM_INDEX st then tell (o_set_remove (_index_key (_prefix_of key) (_part_of key)) key) else Ret tt.
Definition evaluate_client (cutoff : Z) (key : string) : prog unit :=
  rng ← ask_window (o_window_range key cutoff);
  match rng with
  | [] => prune_client key
  | _ =>
      let n := Z.of_nat (length rng) in
      client ← lift_res (match split_max 3 ":" key !! 3%nat with Some c => Ok c | None => Raise IndexError end);
      if nxdomain_burst n (NXDOMAIN_THRESHOLD st) then
        dns_emit "nxdomain_burst" "c2" 6 (lit "0.6")
          [ip_entity "src" (VStr client); entity "nxdomain_count" (VInt n); entity "window_secs" (VInt (NX_WINDOW st / 1000000))] client
      else Ret tt
  end.
Definition dns_evaluate (parts : option (list N)) : prog unit :=
  now ← read_clock;
  keys ← scoped_clients parts;
  each (evaluate_client (now - NX_WINDOW st)) keys.

(** ** Facts *)

Lemma dns_emit_disciplined detector category sev conf entities dedup : disciplined BUCKET [] (dns_emit detector category sev conf entities dedup).
Proof. unfold dns_emit. discipline ltac:(apply disciplined_emit). Qed.
Lemma dns_handle_disciplined v part : disciplined BUCKET [] (dns_handle v part).
Proof. unfold dns_handle, _nx_add, tell. destruct (ENUM_INDEX st); discipline ltac:(apply dns_emit_disciplined). Qed.
Lemma ask_members_disciplined keys : disciplined BUCKET [] (ask_members keys).
Proof. induction keys as [|k keys IH]; [done|]. cbn [ask_members]. unfold ask_strs. discipline ltac:(apply IH). Qed.
Lemma dns_evaluate_disciplined parts : disciplined BUCKET [] (dns_evaluate parts).
Proof.
  unfold dns_evaluate, scoped_clients, evaluate_client, prune_client, ask_strs, ask_window, tell.
  discipline ltac:(first [apply dns_emit_disciplined | apply ask_members_disciplined]).
Qed.
End scores.

(** Labels *)

Definition no_dot (s : string) : bool := string_forallb (λ c, negb (Ascii.eqb "." c)) s.
Example subdomain_is_not_scored : registered_label "d2k1f.cloudfront.net." = "cloudfront".
Proof. reflexivity. Qed.
Example bare_name_has_no_label : registered_label "localhost" = "".
Proof. reflexivity. Qed.
