(* ===== verification/DetectorReplicas.v ===== *)
(** * Replicas of the OT, HTTP and DNS detectors never emit twice

    What the services promise of their shared store: whatever the interleaving, a finding's
    key is sent under once.  The promise needs a replica to ask for a key within the bucket
    it read on its clock; without that, two replicas can send the same finding. *)

From stdpp Require Import gmap relations.
From S2P Require Import Prelude Order PyVal PyString WindowStore PartitionKeys BehavioralScores DetectorFleet OtDetectors HttpDetector DnsDetector.
Set Default Proof Using "Type".

Section replicas.
Context (stable : string → Z) (dumps compact repr : val → string).

(** The programs a replica of each service runs. *)
Definition ot_program (st : ot_settings) (p : prog unit) : Prop := ∃ v, p = ot_handle st stable dumps compact repr v.
Definition http_program (tenant : string) (p : prog unit) : Prop := ∃ v, p = http_handle tenant stable dumps repr v.
Context (round3 : float → float) (fsum : list float → float) (log2 : float → float).
Definition dns_program (st : dns_settings) (p : prog unit) : Prop :=
  (∃ v part, p = dns_handle round3 fsum log2 st stable dumps repr v part) ∨ ∃ parts, p = dns_evaluate st stable dumps parts.

(** C2. Replicas never double-emit.  However many replicas of a service interleave their
    handlers over the shared store, effect by effect, with records of any content, clocks
    that only go forward, crashes between any two effects and restarts, no two candidates
    are ever sent under the same key (tenant, detector, hash of what was found, bucket of
    time): for the OT and the HTTP detectors, and for the DNS detector's handlers and
    evaluations together.  A replica is taken to ask for a key within the bucket of its
    clock reading. *)
Theorem replicas_never_double_emit n clock :
  0 <= clock →
  (∀ st fl, rtc (fleet_step true (ot_program st)) (new_fleet n clock) fl → NoDup (f_sent fl).*1) ∧
  (∀ tenant fl, rtc (fleet_step true (http_program tenant)) (new_fleet n clock) fl → NoDup (f_sent fl).*1) ∧
  (∀ st fl, rtc (fleet_step true (dns_program st)) (new_fleet n clock) fl → NoDup (f_sent fl).*1).
Proof.
  intros Hc. split_and!; intros st fl H.
  - apply (sent_once HOUR ltac:(done) (ot_program st)) in H; [done| |done]. intros p [v ->]. apply ot_handle_disciplined.
  - apply (sent_once TEN_MINUTES ltac:(done) (http_program st)) in H; [done| |done]. intros p [v ->]. apply http_handle_disciplined.
  - apply (sent_once BUCKET ltac:(done) (dns_program st)) in H; [done| |done].
    intros p [(v & part & ->)|(parts & ->)]; [apply dns_handle_disciplined|apply dns_evaluate_disciplined].
Qed.

End replicas.

(** What is asked for, granted and sent at one moment. *)
Lemma emits_now handler fl i key ttl finding s :
  f_progs fl !! i = Some (emit_once key ttl finding) → ws_step (f_clock fl) (f_store fl) (o_dedup_seen key ttl) = (s, a_bool true) →
  rtc (fleet_step false handler) fl
    {| f_store := s; f_clock := f_clock fl; f_progs := <[i := Ret tt]> (f_progs fl); f_sent := f_sent fl ++ [(key, finding (f_clock fl))] |}.
Proof.
  intros Hi Hs. assert (Hlen : (i < length (f_progs fl))%nat) by (apply lookup_lt_is_Some; eauto).
  eapply rtc_l; [eapply (asks _ _ _ i); [exact Hi|done|exact Hs]|]. cbn [f_progs f_store f_clock f_sent].
  eapply rtc_l; [eapply (reads _ _ _ i); cbn [f_progs]; by rewrite list_lookup_insert_eq|].
  eapply rtc_l; [eapply (sends _ _ _ i); cbn [put_prog f_progs f_clock]; rewrite list_lookup_insert_eq; [done|by rewrite length_insert]|].
  cbn [put_prog f_store f_clock f_progs f_sent]. rewrite !list_insert_insert_eq. apply rtc_refl.
Qed.
(** Two replicas that read the clock in the first and in the last moment of an hour, and
    stall in between, both send the finding. *)
Definition stall_prog : prog unit := now ← read_clock; emit_once (in_bucket "emit:t:d:1" (now / HOUR)) HOUR (λ _, []).
Definition stall_key : string := in_bucket "emit:t:d:1" 0.
Definition granted_once : mem_store := (ws_step 0 (∅ : mem_store) (o_dedup_seen stall_key HOUR)).1.
Lemma stalled_replica_double_emits :
  ∃ fl, rtc (fleet_step false (λ p, p = stall_prog)) (new_fleet 2 0) fl ∧ (f_sent fl).*1 = [stall_key; stall_key].
Proof.
  eexists. split; [|].
  - eapply rtc_l; [apply (takes _ _ _ 0%nat (Ret tt) stall_prog); done|].
    eapply rtc_l; [apply (reads _ _ _ 0%nat (λ now, emit_once (in_bucket "emit:t:d:1" (now / HOUR)) HOUR (λ _, []))); done|].
    etrans; [apply (emits_now _ _ 0%nat stall_key HOUR (λ _, []) granted_once); [done|vm_compute; reflexivity]|].
    cbn [f_store f_clock f_progs f_sent put_prog new_fleet].
    eapply rtc_l; [apply (takes _ _ _ 1%nat (Ret tt) stall_prog); done|].
    eapply rtc_l; [apply (ticks _ _ _ (HOUR - 1)); cbn [f_clock put_prog]; discriminate|].
    eapply rtc_l; [apply (reads _ _ _ 1%nat (λ now, emit_once (in_bucket "emit:t:d:1" (now / HOUR)) HOUR (λ _, []))); done|].
    eapply rtc_l; [apply (ticks _ _ _ HOUR); cbn [f_clock put_prog]; discriminate|].
    apply (emits_now _ _ 1%nat stall_key HOUR (λ _, []) (ws_step HOUR granted_once (o_dedup_seen stall_key HOUR)).1); [done|vm_compute; reflexivity].
  - reflexivity.
Qed.

(** ** Two replicas handle the same write at once. *)

Definition write_prog : prog unit := ot_handle plant_settings one_hash json_word json_word json_word (VDict write_record).
Definition taken : fleet := put_prog 1 write_prog (put_prog 0 write_prog (new_fleet 2 100)).
Lemma replicas_never_double_emit_witness :
  rtc (fleet_step true (ot_program one_hash json_word json_word json_word plant_settings)) (new_fleet 2 100) taken ∧ 0 <= 100 ∧ NoDup (f_sent taken).*1.
Proof.
  assert (H : rtc (fleet_step true (ot_program one_hash json_word json_word json_word plant_settings)) (new_fleet 2 100) taken).
  { eapply rtc_l; [apply (takes _ _ _ 0%nat (Ret tt) write_prog); [reflexivity|exact I|by exists (VDict write_record)]|].
    eapply rtc_l; [apply (takes _ _ _ 1%nat (Ret tt) write_prog); [reflexivity|exact I|by exists (VDict write_record)]|]. apply rtc_refl. }
  split; [exact H|]. split; [discriminate|].
  exact (proj1 (replicas_never_double_emit one_hash json_word json_word json_word id (λ _, f0) id 2 100 ltac:(discriminate)) plant_settings taken H).
Defined.
