(* ===== verification/CoverageDetector.v ===== *)
(** * The coverage detector (services/coverage-detector/coverage.py, app.py)

    The sensor's own counters say how complete its visibility is: a finding when capture
    loses packets or hardly any application traffic is reassembled, once per sensor, kind
    and bucket of time, and a quality statement for every sample.

    Numbers are those of JSON; [total] is [sum] of numbers that are not all integers,
    [round4] is [round(x, 4)], [dumps] the text of JSON, [repr] that of containers and
    floats.  The clock is read once for a record. *)

From S2P Require Import Prelude Order PyVal PyString OrderedMap IsoTime BehavioralScores ProtocolDetectors.
Set Default Proof Using "Type".

(** ** Counters *)

Abbreviation num := (Z + float)%type.
(** The number at a path of keys, if there is one. *)
Fixpoint at_path (cur : val) (path : list string) : option num :=
  match path with
  | [] => as_num cur
  | p :: path => match cur with VDict d => at_path (dgetN p d) path | _ => None end
  end.
Definition _num (d : val) (path : list string) : option num := at_path (py_or d (VDict [])) path.
Definition num_val (n : num) : val := match n with inl z => VInt z | inr f => VFloat f end.
Definition num_plus (a b : num) : res num :=
  match a, b with
  | inl x, inl y => Ok (inl (x + y))
  | _, _ => x ← as_float a; y ← as_float b; Ok (inr (fadd x y))
  end.
(** [a / b], for a divisor that is not zero. *)
Definition num_div (a b : num) : res float :=
  match a, b with
  | inl x, inl y => let q := if y <? 0 then ratio (- x) (- y) else ratio x y in check (is_finite q) OverflowError;; Ok q
  | _, _ => x ← as_float a; y ← as_float b; Ok (fdiv x y)
  end.
Definition num_lt (a b : num) : bool := match num_cmp a b with Some Lt => true | _ => false end.
Definition num_zero (a : num) : bool := match num_cmp a (inl 0) with Some Eq => true | _ => false end.

Definition drop_ratio (stats : val) : res (option float) :=
  match _num stats ["capture"; "kernel_drops"], _num stats ["capture"; "kernel_packets"] with
  | Some drops, Some pkts =>
      all ← num_plus drops pkts;
      if num_lt (inl 0) all then q ← num_div drops all; Ok (Some q) else Ok (Some f0)
  | _, _ => Ok None
  end.
Definition capture_loss (stats : val) (drop_threshold : float) : res (bool * option float) :=
  r ← drop_ratio stats;
  Ok (match r with Some q => (SFleb drop_threshold q, Some q) | None => (false, None) end).

Section detector.
Context (total : list num → float) (round4 : float → float) (dumps repr : val → string).

Definition flow_sum (vs : list num) : num :=
  if forallb (λ v : num, match v with inl _ => true | inr _ => false end) vs
  then inl (foldr (λ (v : num) s, match v with inl z => z + s | inr _ => s end) 0 vs) else inr (total vs).
Definition applayer_flows (stats : val) : res num :=
  s ← as_dict (py_or stats (VDict []));
  a ← as_dict (py_or (dget_or "app_layer" (VDict []) s) (VDict []));
  flows ← as_dict (py_or (dget_or "flow" (VDict []) a) (VDict []));
  Ok (flow_sum (omap as_num flows.*2)).
Definition applayer_blind (stats : val) (min_pkts : Z) (ratio_threshold : float) : res (bool * option float) :=
  match _num stats ["decoder"; "pkts"] with
  | Some pkts =>
      if num_lt pkts (inl min_pkts) then Ok (false, None)
      else
        flows ← applayer_flows stats;
        q ← (if num_zero pkts then Ok f0 else num_div flows pkts);
        Ok (SFleb q ratio_threshold, Some q)
  | None => Ok (false, None)
  end.
Definition WHY (kind : string) : string :=
  if String.eqb kind "capture_loss"
  then "Suricata is dropping packets at capture (kernel_drops); detections are being missed on this sensor"
  else "packets are flowing but Suricata reassembles almost no application-layer traffic; the mirror is likely lossy or half-duplex, so the protocol and file detection tier is blind".
Definition to_candidate (kind sensor : string) (value : option float) (tenant : string) (now window : Z) : dict :=
  let entities := dumps (VList [entity "sensor" (VStr sensor); entity "coverage" (VStr kind);
    entity "metric" (match value with Some q => VFloat (round4 q) | None => VNone end); entity "why" (VStr (WHY kind))]) in
  [("finding_id", VStr ("cov-" +:+ sensor +:+ "-" +:+ kind +:+ "-" +:+ pretty window)); ("tenant_id", VStr tenant);
   ("detector_id", VStr "coverage_degraded"); ("detector_version", VStr "1.0"); ("category", VStr "coverage"); ("severity", VInt 6);
   ("confidence", VFloat (lit "0.8")); ("first_seen", VStr (emitted_text now)); ("last_seen", VStr (emitted_text now));
   ("entities", VStr entities); ("state", VStr "CANDIDATE")].
Definition measured (flow : val) : bool :=
  match flow with VDict d => existsb (λ v, match v with VInt _ | VFloat _ => true | _ => false end) d.*2 | _ => false end.
Definition opt_float (q : option float) : val := match q with Some q => VFloat q | None => VNone end.
Definition quality_of (loss blind : bool) (drop flows : option float) : string :=
  if blind then "blind" else if loss then "degraded"
  else match drop, flows with Some _, Some _ => "good" | _, _ => "unknown" end.
Definition to_quality (stats : val) (sensor tenant : string) (observed_at : val) (drop_threshold : float) (min_pkts : Z)
    (ratio_threshold : float) : res dict :=
  '(loss, drop) ← capture_loss stats drop_threshold;
  s ← as_dict stats;
  a ← as_dict (py_or (dgetN "app_layer" s) (VDict []));
  '(blind, flows) ← (if measured (dgetN "flow" a) then applayer_blind stats min_pkts ratio_threshold else Ok (false, None));
  Ok [("schema_version", VStr "sensor-quality.v1"); ("tenant_id", VStr tenant); ("sensor_id", VStr sensor); ("observed_at", observed_at);
      ("quality", VStr (quality_of loss blind drop flows));
      ("signals", VDict [("capture_drop_ratio", opt_float drop); ("applayer_flows_per_pkt", opt_float flows)]);
      ("reasons", VList ((if loss : bool then [VStr "CAPTURE_LOSS"] else []) ++ (if blind : bool then [VStr "APPLAYER_BLIND"] else [])))].

(** ** The process *)

Record cov_settings := {
  CV_TENANT : string; CV_WINDOW : Z; SENSOR_ID : string; DROP_THRESHOLD : float; APPLAYER_MIN_PKTS : Z; APPLAYER_RATIO : float
}.
Context (st : cov_settings).
(** What was emitted (sensor, kind, bucket), the findings and the quality statements sent. *)
Record cov := { v_emitted : list (string * string * Z); v_findings : list dict; v_quality : list dict }.
Definition _sensor_of (eve : dict) : string :=
  match List.filter truthy ((λ k, dgetN k eve) <$> ["sensor_id"; "host"; "sensor"; "hostname"]) with
  | v :: _ => py_str repr v
  | [] => SENSOR_ID st
  end.
Definition _emit_once (now : Z) (kind sensor : string) (value : option float) (c : cov) : cov :=
  let bucket := now / CV_WINDOW st in
  if mem (sensor, kind, bucket) (v_emitted c) then c
  else {| v_emitted := v_emitted c ++ [(sensor, kind, bucket)];
          v_findings := v_findings c ++ [to_candidate kind sensor value (CV_TENANT st) now bucket]; v_quality := v_quality c |}.
Definition emit_if (hit : bool) (now : Z) (kind sensor : string) (value : option float) : M cov unit :=
  if hit then modify (_emit_once now kind sensor value) else ret tt.
Definition send_quality (q : dict) (c : cov) : cov :=
  {| v_emitted := v_emitted c; v_findings := v_findings c; v_quality := v_quality c ++ [q] |}.
Definition evaluate (now : Z) (v : val) : M cov unit :=
  let* eve := lift (as_dict v) in
  if negb (val_eq_str (dgetN "event_type" eve) "stats") then ret tt
  else
    let stats := py_or (dgetN "stats" eve) (VDict []) in
    let sensor := _sensor_of eve in
    let* loss := lift (capture_loss stats (DROP_THRESHOLD st)) in
    emit_if loss.1 now "capture_loss" sensor loss.2;*
    let* blind := lift (applayer_blind stats (APPLAYER_MIN_PKTS st) (APPLAYER_RATIO st)) in
    emit_if blind.1 now "applayer_blind" sensor blind.2;*
    let* q := lift (to_quality stats sensor (CV_TENANT st) (py_or (dgetN "timestamp" eve) (VStr (emitted_text now)))
                      (DROP_THRESHOLD st) (APPLAYER_MIN_PKTS st) (APPLAYER_RATIO st)) in
    modify (send_quality q).
(** A record that raises is skipped; what it did before stays. *)
Definition consume (c : cov) (records : list (Z * val)) : cov := foldl (λ c r, (evaluate r.1 r.2 c).1) c records.
Definition cold : cov := {| v_emitted := []; v_findings := []; v_quality := [] |}.

(** ** Facts *)

Definition finding_name (e : string * string * Z) : val := VStr ("cov-" +:+ e.1.1 +:+ "-" +:+ e.1.2 +:+ "-" +:+ pretty e.2).
(** Every finding has its own sensor, kind and bucket. *)
Record cov_ok (c : cov) : Prop := {
  vo_once : NoDup (v_emitted c);
  vo_named : dgetN "finding_id" <$> v_findings c = finding_name <$> v_emitted c
}.
Lemma emit_once_ok now kind sensor value c : cov_ok c → cov_ok (_emit_once now kind sensor value c).
Proof.
  intros [H1 H2]. unfold _emit_once. destruct (mem _ (v_emitted c)) eqn:E; [done|]. apply mem_false in E. split; cbn.
  - apply NoDup_app. split_and!; [done| |apply NoDup_singleton]. intros x Hx ->%list_elem_of_singleton. done.
  - rewrite !fmap_app, H2. done.
Qed.
Definition keeps_ok (c c' : cov) : Prop := cov_ok c → cov_ok c'.
#[local] Instance keeps_ok_preorder : PreOrder keeps_ok.
Proof. split; unfold keeps_ok; [by intros c|]. intros a b c; auto. Qed.
Lemma evaluate_ok now v : frames keeps_ok (evaluate now v).
Proof.
  assert (Hemit : ∀ hit kind sensor value, frames keeps_ok (emit_if hit now kind sensor value)).
  { intros [] kind sensor value c; [intros H; by apply emit_once_ok|done]. }
  assert (Hsend : ∀ q, frames keeps_ok (modify (send_quality q))) by (by intros q c [H1 H2]).
  unfold evaluate. repeat first
    [ apply Hemit | apply Hsend | apply (frames_lift keeps_ok) | apply (frames_ret keeps_ok) | apply (frames_bind keeps_ok); [|intros ?]
    | match goal with |- frames _ (if ?b then _ else _) => destruct b end ].
Qed.
Theorem coverage_findings_distinct records :
  NoDup (v_emitted (consume cold records)) ∧
  dgetN "finding_id" <$> v_findings (consume cold records) = finding_name <$> v_emitted (consume cold records).
Proof.
  assert (H : ∀ c, cov_ok c → cov_ok (consume c records)).
  { induction records as [|r records IH]; intros c Hc; [done|]. cbn. apply IH. by apply evaluate_ok. }
  destruct (H cold) as [H1 H2]; [by split; constructor|done].
Qed.
(** A sample that is evaluated is always stated in full, deduplication or not, and its
    findings are those it hits and the bucket has not seen. *)
Lemma emit_if_run hit now kind sensor value c :
  ∃ c', emit_if hit now kind sensor value c = (c', Ok tt) ∧ v_quality c' = v_quality c ∧
  ∀ e, e ∈ v_emitted c' ↔ e ∈ v_emitted c ∨ (hit = true ∧ e = (sensor, kind, now / CV_WINDOW st)).
Proof.
  destruct hit; cbn [emit_if].
  - eexists. split; [reflexivity|]. unfold _emit_once. destruct (mem _ (v_emitted c)) eqn:E.
    + apply mem_true in E. split; [done|]. intros e. split; [by left|]. intros [H|[_ ->]]; done.
    + split; [done|]. intros e. cbn. rewrite elem_of_app, list_elem_of_singleton. naive_solver.
  - exists c. split_and!; [done|done|]. intros e. split; [by left|]. intros [H|[H _]]; done.
Qed.
Theorem coverage_sample now eve c c' :
  evaluate now (VDict eve) c = (c', Ok tt) → dgetN "event_type" eve = VStr "stats" →
  ∃ loss blind q, let stats := py_or (dgetN "stats" eve) (VDict []) in
    capture_loss stats (DROP_THRESHOLD st) = Ok loss ∧ applayer_blind stats (APPLAYER_MIN_PKTS st) (APPLAYER_RATIO st) = Ok blind ∧
    to_quality stats (_sensor_of eve) (CV_TENANT st) (py_or (dgetN "timestamp" eve) (VStr (emitted_text now)))
      (DROP_THRESHOLD st) (APPLAYER_MIN_PKTS st) (APPLAYER_RATIO st) = Ok q ∧
    v_quality c' = v_quality c ++ [q] ∧
    ∀ e, e ∈ v_emitted c' ↔ e ∈ v_emitted c ∨ (loss.1 = true ∧ e = (_sensor_of eve, "capture_loss", now / CV_WINDOW st)) ∨
      (blind.1 = true ∧ e = (_sensor_of eve, "applayer_blind", now / CV_WINDOW st)).
Proof.
  intros H Et. unfold evaluate in H. apply bind_inv in H as (eve' & c0 & He & H). apply lift_inv in He as [-> He]. injection He as <-.
  rewrite Et in H. change (negb (val_eq_str (VStr "stats") "stats")) with false in H. cbv iota zeta in H.
  apply bind_inv in H as (loss & c1 & Hl & H). apply lift_inv in Hl as [-> Hl]. apply bind_inv in H as (u & c2 & H2 & H).
  destruct (emit_if_run loss.1 now "capture_loss" (_sensor_of eve) loss.2 c) as (c2' & E2 & Q2 & M2). rewrite E2 in H2. injection H2 as <- _.
  apply bind_inv in H as (blind & c3 & Hb & H). apply lift_inv in Hb as [-> Hb]. apply bind_inv in H as (u' & c4 & H4 & H).
  destruct (emit_if_run blind.1 now "applayer_blind" (_sensor_of eve) blind.2 c2') as (c4' & E4 & Q4 & M4). rewrite E4 in H4. injection H4 as <- _.
  apply bind_inv in H as (q & c5 & Hq & H). apply lift_inv in Hq as [-> Hq]. injection H as <-. exists loss, blind, q. cbv zeta.
  split_and!; [done|done|done|cbn; by rewrite Q4, Q2|]. intros e. cbn. rewrite M4, M2. naive_solver.
Qed.
End detector.

(** ** A sample without application counters: the finding takes them for zeros, the quality does not. *)

Definition cov_demo : cov_settings :=
  {| CV_TENANT := "t"; CV_WINDOW := 600000000; SENSOR_ID := "s"; DROP_THRESHOLD := lit "0.02"; APPLAYER_MIN_PKTS := 5000; APPLAYER_RATIO := lit "0.001" |}.
Definition unmeasured : val :=
  VDict [("event_type", VStr "stats"); ("stats", VDict [("decoder", VDict [("pkts", VInt 9000)])])].
Example unmeasured_counters_blind :
  let c := consume (λ _, f0) id (λ _, "j") (λ _, "r") cov_demo cold [(0, unmeasured)] in
  (λ f, dgetN "finding_id" f) <$> v_findings c = [VStr "cov-s-applayer_blind-0"] ∧ (λ q, dgetN "quality" q) <$> v_quality c = [VStr "unknown"].
Proof. vm_compute. done. Qed.
