(* ===== verification/AlertPromotion.v ===== *)
(** * Alerts promoted to findings (services/ids-alerts, services/zeek-notice, services/file-threat)

    Three services turn a sensor's verdicts into candidate findings: Suricata's signature
    alerts (ids-alerts/promote.py), Zeek's notices (zeek-notice/promote_notice.py) and
    delivered executables (file-threat/filematch.py).  Each maps one record to a candidate
    or nothing, and runs the same loop: a candidate is sent unless its identity was sent in
    this bucket of the clock already.

    A record comes with the two clock readings its handling makes, in microseconds: that of
    the candidate and that of the bucket.  [hash] is the number the first hexadecimal digits
    of the SHA-1 of a text make, [dumps] the text of JSON, [compact] its compact form, [repr]
    the text of containers and floats. *)

From S2P Require Import Prelude Order PyVal PyString PyTime IsoTime BehavioralScores ProtocolScores ProtocolDetectors ThreatIntel IntelMatch IntelProcess.
Set Default Proof Using "Type".

(** ** The loop *)

(** A record with the clock readings of its candidate and of its bucket. *)
Abbreviation reading := (val * Z * Z)%type.
Section loop.
Context (to_candidate : val → Z → res (option dict)) (repr : val → string) (WINDOW : Z).

(** The keys of what was sent, and the candidate topic with the key each was sent under. *)
Record promoter := { p_emitted : gset string; p_sent : list (string * dict) }.
Definition fresh_promoter : promoter := {| p_emitted := ∅; p_sent := [] |}.
Definition promotion_key (c : dict) (t : Z) : res string :=
  id ← dindex "finding_id" c; Ok (py_str repr id +:+ "-" +:+ pretty (t / WINDOW)).
Definition send_once (key : string) (c : dict) (s : promoter) : promoter :=
  if bool_decide (key ∈ p_emitted s) then s
  else {| p_emitted := {[key]} ∪ p_emitted s; p_sent := p_sent s ++ [(key, c)] |}.
(** One record; what raises ends the process. *)
Definition promote_record (r : reading) (s : promoter) : res promoter :=
  let '(v, t, t') := r in
  c ← to_candidate v t;
  match c with
  | None => Ok s
  | Some c => key ← promotion_key c t'; Ok (send_once key c s)
  end.
Fixpoint promote_all (rs : list reading) (s : promoter) : res promoter :=
  match rs with
  | [] => Ok s
  | r :: rs => s ← promote_record r s; promote_all rs s
  end.

(** What the records before the first one that raises lead to, and how the run ends. *)
Fixpoint promote_until (rs : list reading) (s : promoter) : promoter * option exn :=
  match rs with
  | [] => (s, None)
  | r :: rs => match promote_record r s with Ok s => promote_until rs s | Raise e => (s, Some e) end
  end.

(** *** The reference: the candidates of the records, the first of every key *)

Definition keyed (r : reading) : option (string * dict) :=
  let '(v, t, t') := r in
  match to_candidate v t with
  | Ok (Some c) => match promotion_key c t' with Ok key => Some (key, c) | _ => None end
  | _ => None
  end.
Fixpoint first_of_each (seen : gset string) (kcs : list (string * dict)) : list (string * dict) :=
  match kcs with
  | [] => []
  | (k, c) :: kcs => if bool_decide (k ∈ seen) then first_of_each seen kcs else (k, c) :: first_of_each ({[k]} ∪ seen) kcs
  end.

Lemma promote_record_keyed r s s' :
  promote_record r s = Ok s' → s' = match keyed r with Some (k, c) => send_once k c s | None => s end.
Proof.
  destruct r as [[v t] t']. unfold promote_record, keyed. intros H. apply bind_ok_inv in H as ([c|] & Hc & H); rewrite Hc.
  - apply bind_ok_inv in H as (k & Hk & [= <-]). by rewrite Hk.
  - by injection H as <-.
Qed.
Lemma promote_all_exact rs s s' :
  promote_all rs s = Ok s' → p_sent s' = p_sent s ++ first_of_each (p_emitted s) (omap keyed rs).
Proof.
  revert s. induction rs as [|r rs IH]; intros s; cbn; [intros [= <-]; by rewrite app_nil_r|].
  intros H. apply bind_ok_inv in H as (s1 & H1 & H). rewrite (IH _ H), (promote_record_keyed _ _ _ H1).
  destruct (keyed r) as [[k c]|]; [|done]. unfold send_once. cbn. case_bool_decide; [done|]. cbn. by rewrite <- app_assoc.
Qed.
Lemma first_keys seen kcs : NoDup (first_of_each seen kcs).*1 ∧ ∀ k, k ∈ (first_of_each seen kcs).*1 ↔ k ∉ seen ∧ k ∈ kcs.*1.
Proof.
  revert seen. induction kcs as [|[k c] kcs IH]; intros seen; cbn; [split; [constructor|set_solver]|].
  destruct (IH seen) as [Hn Hs], (IH ({[k]} ∪ seen)) as [Hn' Hs']. case_bool_decide as E.
  - split; [done|]. intros j. rewrite Hs. set_solver.
  - cbn. split.
    + constructor; [|done]. rewrite Hs'. set_solver.
    + intros j. rewrite elem_of_cons, Hs'. destruct (decide (j = k)); set_solver.
Qed.
Lemma first_incl seen kcs kc : kc ∈ first_of_each seen kcs → kc ∈ kcs.
Proof.
  revert seen. induction kcs as [|[k c] kcs IH]; intros seen; cbn; [done|]. case_bool_decide; rewrite !elem_of_cons; naive_solver.
Qed.
(** A run sends only what its records' candidates are, each key once, and every candidate's key. *)
Lemma promote_all_spec rs s' :
  promote_all rs fresh_promoter = Ok s' →
  NoDup (p_sent s').*1 ∧
  (∀ kc, kc ∈ p_sent s' → ∃ r, r ∈ rs ∧ keyed r = Some kc) ∧
  (∀ r k c, r ∈ rs → keyed r = Some (k, c) → k ∈ (p_sent s').*1).
Proof.
  intros H. rewrite (promote_all_exact _ _ _ H). cbn. destruct (first_keys ∅ (omap keyed rs)) as [Hn Hs]. split_and!; [done| |].
  - intros kc Hin. apply first_incl in Hin. apply list_elem_of_omap in Hin as (r & Hr & Hk). eauto.
  - intros r k c Hr Hk. apply Hs. split; [set_solver|]. apply list_elem_of_fmap. exists (k, c). split; [done|]. apply list_elem_of_omap. eauto.
Qed.
Lemma promote_all_ok rs s s' : promote_all rs s = Ok s' → ∀ r, r ∈ rs → ∃ oc, to_candidate r.1.1 r.1.2 = Ok oc.
Proof.
  revert s. induction rs as [|[[v t] t'] rs IH]; intros s H r; [by rewrite elem_of_nil|]. cbn in H. apply bind_ok_inv in H as (s1 & H1 & H).
  rewrite elem_of_cons. intros [->|Hr]; [|by apply (IH _ H)]. apply bind_ok_inv in H1 as (oc & Hoc & _). eauto.
Qed.
Lemma promote_until_all rs s s' : promote_until rs s = (s', None) ↔ promote_all rs s = Ok s'.
Proof.
  revert s. induction rs as [|r rs IH]; intros s; cbn; [split; congruence|]. destruct (promote_record r s) as [s1|e]; cbn; [apply IH|split; congruence].
Qed.
End loop.

Section services.
Context (TENANT : string) (hash : string → Z) (dumps compact repr : val → string) (MAX_BYTES : Z).

(** [_stable]: the parts joined, a missing one empty. *)
Definition part_text (v : val) : string := match v with VNone => "" | v => py_str repr v end.
Definition _stable (parts : list val) : Z := hash (join "|" (part_text <$> parts)) mod 10 ^ 10.
Definition joined (e : dict) : list val := VDict <$> join_key_entities e.
Definition source_of (e : dict) : val :=
  match source_event compact MAX_BYTES (VDict e) false with Some d => VDict d | None => VNone end.
(** [e.get(k) or {}], on which [.get] is called. *)
Definition sub_dict (k : string) (e : dict) : res dict := as_dict (py_or (dgetN k e) (VDict [])).

(** ** Signature alerts (ids-alerts/promote.py) *)

Context (OCCURRENCE_WINDOW : Z).
Definition THREAT_SEVERITY_MAX : Z := 2.
(** Instants are read in UTC, the zone of the containers; what is no timestamp is bucket 0. *)
Definition _ts_bucket (ts : val) : Z :=
  match iso_epoch (py_str repr ts) with Some t => t / OCCURRENCE_WINDOW | None => 0 end.
Definition _NOISE_PREFIXES : list string :=
  ["SURICATA STREAM"; "SURICATA Ethertype"; "SURICATA UDP"; "SURICATA TCP"; "SURICATA IP"; "SURICATA ICMP";
   "SURICATA zero"; "SURICATA DNS"; "ET INFO"; "ET POLICY"; "GPL POLICY"].
Definition _CATEGORY_MAP : list (string * string) :=
  [("a network trojan was detected", "c2"); ("malware command and control activity detected", "c2"); ("misc attack", "c2");
   ("attempted denial of service", "anomaly"); ("attempted information leak", "recon"); ("detection of a network scan", "recon");
   ("potential corporate privacy violation", "exfil"); ("exfiltration", "exfil");
   ("successful administrator privilege gain", "lateral"); ("attempted administrator privilege gain", "lateral");
   ("attempted user privilege gain", "lateral"); ("web application attack", "exploit");
   ("exploit kit activity detected", "malware"); ("targeted malicious activity was detected", "malware")].
Definition _sig_severity (md : val) : res string :=
  d ← as_dict (py_or md (VDict []));
  Ok (match dgetN "signature_severity" d with
      | VList l => lower (join " " (py_str repr <$> l))
      | v => lower (py_str repr (py_or v (VStr "")))
      end).
(** [int(v)] where a value that is no number means "no". *)
Definition int_or_no (v : val) : res (option Z) :=
  match py_int v with
  | Ok z => Ok (Some z)
  | Raise TypeError | Raise ValueError => Ok None
  | Raise e => Raise e
  end.
Definition is_noise (sig : string) : bool := existsb (λ p, starts_with p sig) _NOISE_PREFIXES.
Definition is_threat_alert (alert : val) : res bool :=
  if negb (truthy alert) then Ok false
  else
    a ← as_dict alert;
    if is_noise (py_str repr (dget_or "signature" (VStr "") a)) then Ok false
    else
      sev ← int_or_no (dgetN "severity" a);
      match sev with
      | None => Ok false
      | Some sev =>
          ss ← _sig_severity (py_or (dgetN "metadata" a) (VDict []));
          Ok ((sev <=? THREAT_SEVERITY_MAX) || contains "major" ss || contains "critical" ss)
      end.
Definition category_for (alert : dict) : string :=
  default "anomaly" (assoc (lower (strip (py_str repr (dget_or "category" (VStr "") alert)))) _CATEGORY_MAP).
(** A truthy sensor timestamp, or the clock's text. *)
Definition event_time (e : dict) (now : Z) : val := py_or (dgetN "timestamp" e) (VStr (emitted_text now)).
Definition ids_id (sid src dst sensor ts : val) : string :=
  "idsig-" +:+ py_str repr sid +:+ "-" +:+ pretty (_stable [sid; src; dst; sensor; VInt (_ts_bucket ts)]).
Definition ids_candidate (v : val) (now : Z) : res (option dict) :=
  e ← as_dict v;
  if negb (val_eq_str (dgetN "event_type" e) "alert") then Ok None
  else
    let alert := py_or (dgetN "alert" e) (VDict []) in
    threat ← is_threat_alert alert;
    if negb threat then Ok None
    else
      a ← as_dict alert;
      sev ← py_int (py_or (dget_or "severity" (VInt 2) a) (VInt 2));
      let sid := dgetN "signature_id" a in
      let src := dgetN "src_ip" e in
      let dst := dgetN "dest_ip" e in
      let ts := event_time e now in
      Ok (Some [("finding_id", VStr (ids_id sid src dst (py_or (dgetN "host" e) (VStr "")) ts)); ("tenant_id", VStr TENANT);
                ("detector_id", VStr "ids_signature"); ("detector_version", VStr "1.0"); ("category", VStr (category_for a));
                ("severity", VInt (if sev <=? 1 then 9 else 8)); ("confidence", VFloat (lit "0.9"));
                ("first_seen", ts); ("last_seen", ts);
                ("entities", VStr (dumps (VList ([ip_entity "src" src; ip_entity "dst" dst; entity "signature" (dgetN "signature" a);
                                                  entity "signature_id" sid] ++ joined e))));
                ("state", VStr "CANDIDATE"); ("source_events", VList [source_of e])]).

(** ** Notices (zeek-notice/promote_notice.py) *)

Context (DROP_PREFIXES : list string).
(** [int(f)] rounded down, as the clock functions read a float. *)
Definition floor_float (f : float) : res Z :=
  z ← Z_of_float f; Ok (match cmp_Z_float z f with Some Gt => z - 1 | _ => z end).
(** [gmtime] and [strftime] of whole seconds: a clock of 64 bits, a year of 32. *)
Definition utc_text (secs : Z) : res string :=
  check (between (- 2 ^ 63) (2 ^ 63 - 1) secs) OverflowError;;
  let '(y, m, d) := civil_from_days (secs / 86400) in
  check (between (1900 - 2 ^ 31) (1899 + 2 ^ 31) y) OSError;;
  let r := secs mod 86400 in
  Ok (pretty y +:+ "-" +:+ digits 2 m +:+ "-" +:+ digits 2 d +:+ "T" +:+ digits 2 (r / 3600) +:+ ":" +:+ digits 2 (r / 60 mod 60) +:+
      ":" +:+ digits 2 (r mod 60) +:+ "Z").
Definition _notice_ts (n : dict) (now : Z) : res string :=
  match (f ← py_float (dgetN "ts" n); z ← floor_float f; utc_text z) with
  | Ok s => Ok s
  | Raise TypeError | Raise ValueError => Ok (emitted_text now)
  | Raise e => Raise e
  end.
(** The default of the operational prefixes, and the text before the first "::". *)
Definition default_drop : list string := ["CaptureLoss"; "PacketFilter"; "Software"].
Definition is_operational (note : string) : bool :=
  existsb (λ d, String.eqb note d || starts_with (d +:+ "::") note) DROP_PREFIXES.
Fixpoint before_colons (s : string) : string :=
  if starts_with "::" s then "" else match s with String c s => String c (before_colons s) | EmptyString => "" end.
Definition _NOTE_MAP : list (string * (string * Z)) :=
  [("Intel::Notice", ("c2", 8)); ("SSL::Invalid_Server_Cert", ("c2", 6)); ("SSL::Certificate_Expired", ("c2", 5));
   ("SSL::Weak_Key", ("c2", 5)); ("SSL::Old_Version", ("c2", 4)); ("Scan::Address_Scan", ("recon", 5));
   ("Scan::Port_Scan", ("recon", 5)); ("Traceroute::Detected", ("recon", 4));
   ("TeamCymruMalwareHashRegistry::Match", ("malware", 9)); ("Signatures::Sensitive_Signature", ("c2", 6))].
Definition _PREFIX_MAP : list (string * (string * Z)) :=
  [("Intel", ("c2", 8)); ("SSL", ("c2", 5)); ("X509", ("c2", 5)); ("Scan", ("recon", 5)); ("Signatures", ("c2", 6));
   ("SMB", ("lateral", 6)); ("Kerberos", ("credential_access", 6)); ("DNS", ("c2", 5)); ("HTTP", ("c2", 5)); ("Weird", ("anomaly", 4))].
Definition classify (note : string) : string * Z :=
  match assoc note _NOTE_MAP with
  | Some c => c
  | None => default ("malware", 6) (assoc (before_colons note) _PREFIX_MAP)
  end.
(** An endpoint that Zeek left unset is none. *)
Definition unset_none (v : val) : val := if val_in v [VNone; VStr ""; VStr "-"] then VNone else v.
Definition _endpoints (n : dict) : val * val :=
  (unset_none (py_or (dgetN "src" n) (dgetN "id.orig_h" n)), unset_none (py_or (dgetN "dst" n) (dgetN "id.resp_h" n))).
Definition notice_joins (n : dict) : list val :=
  (if truthy (dgetN "community_id" n) then [entity "community_id" (dgetN "community_id" n)] else []) ++
  (if truthy (dgetN "uid" n) then [entity "zeek_uid" (dgetN "uid" n)] else []).
Definition note_text (n : dict) : string := strip (py_str repr (py_or (dgetN "note" n) (VStr ""))).
Definition notice_candidate (v : val) (now : Z) : res (option dict) :=
  n ← as_dict v;
  let note := note_text n in
  if negb (str_truthy note) || String.eqb note "-" then Ok None
  else if is_operational note then Ok None
  else
    let '(src, dst) := _endpoints n in
    let '(category, severity) := classify note in
    let msg := py_or (dgetN "msg" n) (VStr "") in
    let sub := py_or (dgetN "sub" n) (VStr "") in
    ts ← _notice_ts n now;
    Ok (Some [("finding_id", VStr ("zeeknotice-" +:+ pretty (_stable [VStr note; src; dst; msg]))); ("tenant_id", VStr TENANT);
              ("detector_id", VStr "zeek_notice"); ("detector_version", VStr "1.0"); ("category", VStr category);
              ("severity", VInt severity); ("confidence", VFloat (lit "0.8")); ("first_seen", VStr ts); ("last_seen", VStr ts);
              ("entities", VStr (dumps (VList ([ip_entity "src" src; ip_entity "dst" dst; entity "zeek_notice" (VStr note); entity "msg" msg] ++
                 (if truthy sub && negb (val_eq_str sub "-") then [entity "indicator" sub] else []) ++ notice_joins n))));
              ("state", VStr "CANDIDATE"); ("source_events", VList [source_of n])]).

(** The TSV form of notice.log: a header names the columns of the rows after it. *)
Definition tsv_row (fields cols : list string) : dict := foldl (λ d kv, dset kv.1 (VStr kv.2) d) [] (zip fields cols).
Definition notice_line (acc : list string * list dict) (line : string) : list string * list dict :=
  let '(fields, rows) := acc in
  if starts_with "#fields" line then (tail (split_char "009" line), rows)
  else if starts_with "#" line || negb (str_truthy (strip line)) || match fields with [] => true | _ => false end then (fields, rows)
  else (fields, rows ++ [tsv_row fields (split_char "009" line)]).
Definition parse_notice_tsv (text : string) : list dict := (foldl notice_line ([], []) (splitlines text)).2.

(** ** Delivered executables (file-threat/filematch.py) *)

Definition _EXEC_MIMES : list string :=
  ["application/x-dosexec"; "application/x-msdownload"; "application/vnd.microsoft.portable-executable"; "application/x-elf";
   "application/x-executable"; "application/x-mach-binary"; "application/x-sharedlib"].
Definition risky_delivery (fi : dict) : res bool :=
  match py_or (dgetN "mime_type" fi) (VStr "") with
  | VStr m => Ok (mem (lower m) _EXEC_MIMES)
  | _ => Raise AttributeError
  end.
Definition file_candidate (v : val) (now : Z) : res (option dict) :=
  e ← as_dict v;
  if negb (val_eq_str (dgetN "event_type" e) "fileinfo") then Ok None
  else
    fi ← sub_dict "fileinfo" e;
    complete ← hash_is_complete fi;
    risky ← risky_delivery fi;
    if negb risky then Ok None
    else
      let src := dgetN "src_ip" e in
      let dst := dgetN "dest_ip" e in
      let label := dgetN "mime_type" fi in
      let ts := event_time e now in
      Ok (Some [("finding_id", VStr ("risky_file_delivery-" +:+ pretty (_stable [label; src; dst]))); ("tenant_id", VStr TENANT);
                ("detector_id", VStr "risky_file_delivery"); ("detector_version", VStr "1.0"); ("category", VStr "malware");
                ("severity", VInt 6); ("confidence", VFloat (lit "0.5")); ("first_seen", ts); ("last_seen", ts);
                ("entities", VStr (dumps (VList ([ip_entity "src" src; ip_entity "dst" dst; entity "filename" (dgetN "filename" fi);
                                                  entity "mime" label; entity "sha256" (dgetN "sha256" fi); entity "hash_complete" (VBool complete);
                                                  entity "match" label] ++ joined e))));
                ("state", VStr "CANDIDATE")]).
End services.

(** ** What is promoted *)

Section theorems.
Context (TENANT : string) (hash : string → Z) (dumps compact repr : val → string) (MAX_BYTES WINDOW OCCURRENCE_WINDOW : Z).
Abbreviation ids := (ids_candidate TENANT hash dumps compact repr MAX_BYTES OCCURRENCE_WINDOW).
Abbreviation ids_id := (ids_id hash repr OCCURRENCE_WINDOW).

(** A threat alert of a record: no decoder or informational signature, a severity that is a
    number, and either at most 2 or a rule the author marked major or critical. *)
Definition marked (a : dict) : Prop :=
  ∃ ss, _sig_severity repr (py_or (dgetN "metadata" a) (VDict [])) = Ok ss ∧ (contains "major" ss = true ∨ contains "critical" ss = true).
Definition threat (e a : dict) (sev : Z) : Prop :=
  dgetN "event_type" e = VStr "alert" ∧ dgetN "alert" e = VDict a ∧
  is_noise (py_str repr (dget_or "signature" (VStr "") a)) = false ∧ py_int (dgetN "severity" a) = Ok sev ∧
  (sev <= THREAT_SEVERITY_MAX ∨ marked a).
(** The identity a record's finding gets. *)
Definition ids_identity (e a : dict) (t : Z) : string :=
  ids_id (dgetN "signature_id" a) (dgetN "src_ip" e) (dgetN "dest_ip" e) (py_or (dgetN "host" e) (VStr "")) (event_time e t).

Lemma int_or_no_some v z : int_or_no v = Ok (Some z) ↔ py_int v = Ok z.
Proof. unfold int_or_no. destruct (py_int v) as [y|[]]; split; congruence. Qed.
Lemma is_threat_true v : is_threat_alert repr v = Ok true →
  ∃ a sev, v = VDict a ∧ is_noise (py_str repr (dget_or "signature" (VStr "") a)) = false ∧ py_int (dgetN "severity" a) = Ok sev ∧
    (sev <= THREAT_SEVERITY_MAX ∨ marked a).
Proof.
  unfold is_threat_alert. destruct (truthy v); [|done]. intros H. cbn [negb] in H. apply bind_ok_inv in H as (a & Ha & H).
  destruct v; try discriminate. injection Ha as ->. destruct (is_noise _) eqn:En; [discriminate|].
  apply bind_ok_inv in H as ([sev|] & Hs & H); [|discriminate]. apply int_or_no_some in Hs.
  apply bind_ok_inv in H as (ss & Hss & H). injection H as H. exists a, sev. split_and!; [done..|].
  rewrite !orb_true_iff, Z.leb_le in H. unfold marked. destruct H as [[H|H]|H]; [by left|right..]; exists ss; auto.
Qed.
Lemma threat_is e a sev ss :
  threat e a sev → _sig_severity repr (py_or (dgetN "metadata" a) (VDict [])) = Ok ss → is_threat_alert repr (VDict a) = Ok true.
Proof.
  intros (_ & _ & Hn & Hi & Hs) Hss. unfold is_threat_alert. destruct a as [|kv a].
  { discriminate Hi. }
  cbn [truthy negb as_dict mbind res_bind]. rewrite Hn.
  rewrite (proj2 (int_or_no_some _ _) Hi). cbn [mbind res_bind]. rewrite Hss. cbn [mbind res_bind]. f_equal.
  rewrite !orb_true_iff, Z.leb_le. destruct Hs as [Hs|(ss' & Hss' & Hs)]; [auto|]. rewrite Hss in Hss'. injection Hss' as <-. destruct Hs as [Hs|Hs]; rewrite Hs; auto.
Qed.
Lemma ids_candidate_some v t c : ids v t = Ok (Some c) →
  ∃ e a sev, v = VDict e ∧ threat e a sev ∧ dget "finding_id" c = Some (VStr (ids_identity e a t)) ∧
    dget "tenant_id" c = Some (VStr TENANT) ∧ dget "category" c = Some (VStr (category_for repr a)) ∧
    ∃ n, dget "severity" c = Some (VInt n) ∧ 8 <= n <= 9.
Proof.
  unfold ids_candidate. intros H. apply bind_ok_inv in H as (e & He & H). destruct v; try discriminate. injection He as ->.
  destruct (val_eq_str _ "alert") eqn:Et; [|discriminate]. apply val_eq_str_true in Et. cbn [negb] in H.
  apply bind_ok_inv in H as ([] & Hth & H); [|discriminate]. cbn [negb] in H.
  apply is_threat_true in Hth as (a & sev & Ha & Hn & Hi & Hs). rewrite Ha in H. cbn [as_dict mbind res_bind] in H.
  apply bind_ok_inv in H as (n & Hp & [= <-]). exists e, a, sev. split; [done|]. split_and!; try done.
  - split_and!; try done. unfold py_or in Ha. destruct (truthy (dgetN "alert" e)); [done|]. injection Ha as <-. discriminate Hi.
  - exists (if n <=? 1 then 9 else 8). split; [done|]. destruct (n <=? 1); lia.
Qed.
Lemma threat_candidate e a sev t r :
  threat e a sev → ids (VDict e) t = Ok r → ∃ c, r = Some c ∧ dget "finding_id" c = Some (VStr (ids_identity e a t)).
Proof.
  intros Ht H. pose proof Ht as (Het & Hal & _ & Hi & _). unfold ids_candidate in H. cbn [as_dict mbind res_bind] in H. rewrite Het in H.
  cbn [val_eq_str py_eqb String.eqb Ascii.eqb Bool.eqb negb] in H. rewrite Hal in H.
  assert (Ha : py_or (VDict a) (VDict []) = VDict a) by (unfold py_or; by destruct a). rewrite Ha in H.
  apply bind_ok_inv in H as (th & Hth & H). assert (th = true) as ->.
  { destruct (_sig_severity repr (py_or (dgetN "metadata" a) (VDict []))) as [ss|x] eqn:Hss.
    - rewrite (threat_is _ _ _ _ Ht Hss) in Hth. by injection Hth.
    - destruct Ht as (_ & _ & Hn & _). unfold is_threat_alert in Hth. destruct a as [|kv a]; [discriminate Hi|].
      cbn [truthy negb as_dict mbind res_bind] in Hth. rewrite Hn, (proj2 (int_or_no_some _ _) Hi) in Hth. cbn [mbind res_bind] in Hth.
      rewrite Hss in Hth. discriminate. }
  cbn [negb as_dict mbind res_bind] in H. apply bind_ok_inv in H as (n & _ & [= <-]). eauto.
Qed.

Definition ids_categories : list string := ["c2"; "anomaly"; "recon"; "exfil"; "lateral"; "exploit"; "malware"].
Lemma category_known a : category_for repr a ∈ ids_categories.
Proof using Type.
  unfold category_for. destruct (assoc _ _) as [c|] eqn:E; [|by apply (bool_decide_unpack _)]. apply assoc_elem in E.
  assert (F : Forall (λ kc : string * string, kc.2 ∈ ids_categories) _CATEGORY_MAP) by (apply (bool_decide_unpack _); vm_compute; exact I).
  rewrite Forall_forall in F. apply (F _ E).
Qed.

(** C34. Exactly the threat alerts become findings, once each.  In a run of ids-alerts that
    does not raise: what was sent comes from a record whose alert is a threat, under the
    identity of that record, for this tenant, with a severity of 8 or 9 and a known
    category; every record whose alert is a threat has its identity sent in the bucket the
    record was handled in; and no identity is sent twice in a bucket. *)
Theorem alerts_promoted_exactly rs s :
  promote_all ids repr WINDOW rs fresh_promoter = Ok s →
  (∀ k c, (k, c) ∈ p_sent s → ∃ e a sev t t', (VDict e, t, t') ∈ rs ∧ threat e a sev ∧
     dget "finding_id" c = Some (VStr (ids_identity e a t)) ∧ k = ids_identity e a t +:+ "-" +:+ pretty (t' / WINDOW) ∧
     dget "tenant_id" c = Some (VStr TENANT) ∧ (∃ n, dget "severity" c = Some (VInt n) ∧ 8 <= n <= 9) ∧
     ∃ cat, dget "category" c = Some (VStr cat) ∧ cat ∈ ids_categories) ∧
  (∀ e a sev t t', (VDict e, t, t') ∈ rs → threat e a sev →
     ids_identity e a t +:+ "-" +:+ pretty (t' / WINDOW) ∈ (p_sent s).*1) ∧
  NoDup (p_sent s).*1.
Proof.
  intros H. destruct (promote_all_spec _ _ _ _ _ H) as (Hn & Hfrom & Hall). split_and!; [| |done].
  - intros k c Hin. destruct (Hfrom _ Hin) as ([[v t] t'] & Hr & Hk). unfold keyed in Hk.
    destruct (ids v t) as [[c'|]|] eqn:Hc; try discriminate. destruct (promotion_key _ _ _ _) eqn:Hkey; [|discriminate]. injection Hk as -> ->.
    destruct (ids_candidate_some _ _ _ Hc) as (e & a & sev & -> & Hth & Hid & Hten & Hcat & n & Hsev & Hb).
    exists e, a, sev, t, t'. split_and!; try done; [|by eauto|eexists; split; [exact Hcat|apply category_known]].
    unfold promotion_key, dindex in Hkey. rewrite Hid in Hkey. by injection Hkey.
  - intros e a sev t t' Hr Ht. destruct (promote_all_ok _ _ _ _ _ _ H _ Hr) as (oc & Hoc). cbn [fst snd] in Hoc.
    destruct (threat_candidate _ _ _ _ _ Ht Hoc) as (c & -> & Hid). apply (Hall (VDict e, t, t') _ c Hr). unfold keyed. rewrite Hoc.
    unfold promotion_key, dindex. by rewrite Hid.
Qed.

(** The identity of a stamped alert does not depend on the clock: a restarted process that
    reads the record again sends under the same identity, and so does any alert of the same
    rule, endpoints and sensor in the same occurrence window. *)
Theorem ids_identity_replayed e a e' a' t t' ts ts' :
  dgetN "timestamp" e = VStr ts → str_truthy ts = true → dgetN "timestamp" e' = VStr ts' → str_truthy ts' = true →
  dgetN "signature_id" a = dgetN "signature_id" a' → dgetN "src_ip" e = dgetN "src_ip" e' → dgetN "dest_ip" e = dgetN "dest_ip" e' →
  dgetN "host" e = dgetN "host" e' → _ts_bucket repr OCCURRENCE_WINDOW (VStr ts) = _ts_bucket repr OCCURRENCE_WINDOW (VStr ts') →
  ids_identity e a t = ids_identity e' a' t'.
Proof.
  intros H1 H2 H3 H4 H5 H6 H7 H8 H9. unfold ids_identity, AlertPromotion.ids_id, event_time, py_or. rewrite H1, H3, H5, H6, H7, H8. cbn [truthy].
  by rewrite H2, H4, H9.
Qed.

(** *** Notices *)

Context (DROP_PREFIXES : list string).
Definition notice_categories : list string := ["c2"; "recon"; "malware"; "lateral"; "credential_access"; "anomaly"].
Lemma classify_known note : (classify note).1 ∈ notice_categories ∧ 4 <= (classify note).2 <= 9.
Proof using Type.
  unfold classify. assert (F : ∀ t : list (string * (string * Z)), forallb (λ kc, mem kc.2.1 notice_categories && between 4 9 kc.2.2) t = true →
    ∀ k c, assoc k t = Some c → c.1 ∈ notice_categories ∧ 4 <= c.2 <= 9).
  { intros t Ht k [c sev] Ha. apply assoc_elem in Ha. rewrite forallb_forall in Ht. apply list_elem_of_In in Ha. apply Ht in Ha. cbn in *.
    unfold between in Ha. to_prop. by apply mem_true in H. }
  destruct (assoc note _NOTE_MAP) as [c|] eqn:E; [by apply (F _NOTE_MAP eq_refl _ _ E)|].
  destruct (assoc _ _PREFIX_MAP) as [c|] eqn:E'; cbn [default]; [by apply (F _PREFIX_MAP eq_refl _ _ E')|]. split; [by apply (bool_decide_unpack _)|cbn; lia].
Qed.
(** Every notice that is named and not operational becomes a finding, known or not, of the
    notice's time; nothing else does; only a time beyond the clock raises. *)
Abbreviation notices := (notice_candidate TENANT hash dumps compact repr MAX_BYTES DROP_PREFIXES).
Definition dropped (n : dict) : bool :=
  negb (str_truthy (note_text repr n)) || String.eqb (note_text repr n) "-" || is_operational DROP_PREFIXES (note_text repr n).
Theorem notices_promoted n t :
  if dropped n then notices (VDict n) t = Ok None
  else match _notice_ts n t with
       | Raise e => notices (VDict n) t = Raise e
       | Ok ts => ∃ c cat sev, notices (VDict n) t = Ok (Some c) ∧ dget "category" c = Some (VStr cat) ∧ cat ∈ notice_categories ∧
           dget "severity" c = Some (VInt sev) ∧ 4 <= sev <= 9 ∧ dget "first_seen" c = Some (VStr ts)
       end.
Proof.
  unfold dropped, notice_candidate. cbn [as_dict mbind res_bind]. destruct (negb _), (String.eqb _ "-"); cbn [orb]; try done.
  destruct (is_operational _ _); [done|]. destruct (_endpoints n) as [src dst].
  pose proof (classify_known (note_text repr n)) as [Hc Hs]. destruct (classify _) as [cat sev]. cbn [fst snd] in Hc, Hs. destruct Hs as [Hs1 Hs2].
  destruct (_notice_ts n t) as [ts|]; cbn [mbind res_bind]; [|done]. eexists _, cat, sev. split; [done|]. by split_and!.
Qed.
End theorems.

(** ** Examples from the tests, and a witness *)

Definition no_repr (v : val) : string := "?".
Definition text_length (s : string) : Z := Z.of_nat (String.length s).
Definition spamhaus_alert : dict :=
  [("signature", VStr "ET DROP Spamhaus DROP Listed Traffic Inbound group 29"); ("category", VStr "Misc Attack"); ("severity", VInt 2);
   ("signature_id", VInt 2400028); ("metadata", VDict [("signature_severity", VList [VStr "Minor"])])].
Definition spamhaus : dict :=
  [("event_type", VStr "alert"); ("src_ip", VStr "168.80.32.59"); ("dest_ip", VStr "192.168.222.245"); ("timestamp", VStr "2026-01-02T03:04:05.000000+0000");
   ("alert", VDict spamhaus_alert)].
Definition stun : val :=
  VDict [("event_type", VStr "alert"); ("alert", VDict [("signature", VStr "ET INFO Session Traversal Utilities NAT (STUN Binding Request)"); ("severity", VInt 3)])].
Definition run_ids (rs : list reading) : res promoter :=
  promote_all (ids_candidate "t1" text_length no_repr no_repr no_repr 16384 300000000) no_repr 600000000 rs fresh_promoter.
Example spamhaus_found :
  match ids_candidate "t1" text_length no_repr no_repr no_repr 16384 300000000 (VDict spamhaus) 0 with
  | Ok (Some c) => (dgetN "category" c, dgetN "severity" c) = (VStr "c2", VInt 8)
  | _ => False
  end.
Proof. vm_compute. reflexivity. Qed.
(** A record whose alert is no object ends the process. *)
Example alert_text_raises : run_ids [(VDict [("event_type", VStr "alert"); ("alert", VStr "x")], 0, 0)] = Raise AttributeError.
Proof. vm_compute. reflexivity. Qed.
Example operational_dropped :
  is_operational default_drop "CaptureLoss::Too_Much_Loss" = true ∧ is_operational default_drop "CaptureLossy" = false ∧
  classify "SSL::Brand_New" = ("c2", 5) ∧ classify "Custom::Thing" = ("malware", 6).
Proof. vm_compute. done. Qed.
(** A notice stamped beyond the clock ends the process: only type and value errors fall back to the clock. *)
Example distant_notice_raises :
  notice_candidate "t1" text_length no_repr no_repr no_repr 16384 default_drop
    (VDict [("note", VStr "Scan::Port_Scan"); ("ts", VStr "1e300")]) 0 = Raise OverflowError.
Proof. vm_compute. reflexivity. Qed.
Lemma alerts_promoted_exactly_witness :
  ∃ s, run_ids [(VDict spamhaus, 5, 6); (stun, 7, 8); (VDict spamhaus, 9, 10); (VDict spamhaus, 600000000, 600000001)] = Ok s ∧
    length (p_sent s) = 2%nat ∧
    ids_identity text_length no_repr 300000000 spamhaus spamhaus_alert 9 +:+ "-0" ∈ (p_sent s).*1 ∧ NoDup (p_sent s).*1.
Proof.
  destruct (run_ids [(VDict spamhaus, 5, 6); (stun, 7, 8); (VDict spamhaus, 9, 10); (VDict spamhaus, 600000000, 600000001)]) as [s|] eqn:E;
    [|vm_compute in E; discriminate].
  destruct (alerts_promoted_exactly _ _ _ _ _ _ _ _ _ _ E) as (_ & H2 & H3). exists s. split; [done|]. split; [|split; [|exact H3]].
  - vm_compute in E. injection E as <-. reflexivity.
  - apply (H2 spamhaus spamhaus_alert 2 9 10); [right; right; left|]. split_and!; [vm_compute; reflexivity..|]. left. vm_compute. discriminate.
Defined.
