(* ===== verification/Cef.v ===== *)
(** * Findings as CEF lines (services/findings-forwarder/cef.py)

    The compact form findings take on syslog: a header of fields between bars, then
    extension fields.  A reader of the format is given beside the writer, to state that what
    is read back is what the finding said, whatever its texts contain.

    [loads] is [json.loads] on a text, [repr] the text of containers and floats. *)

From S2P Require Import Prelude Order PyVal PyString OrderedMap PyTime PartitionKeys.
Set Default Proof Using "Type".

(** ** The writer *)

Definition _SRC_ROLES : list string := ["src"; "attacker"; "scanner"; "responder"].
Definition _DST_ROLES : list string := ["dst"; "victim"; "target"].

(** [s.replace(c, t)] for a single character [c]. *)
Fixpoint replace_char (c : ascii) (t s : string) : string :=
  match s with
  | EmptyString => EmptyString
  | String d s => if Ascii.eqb d c then t +:+ replace_char c t s else String d (replace_char c t s)
  end.

Section writer.
Context (loads : string → option val) (repr : val → string).

(** One entity, given the source and destination found so far. *)
Definition scan_entity (found : val * val) (e : val) : val * val :=
  match e with
  | VDict d =>
      let '(src, dst) := found in
      let role := dgetN "role" d in
      if val_in_strs role _SRC_ROLES && negb (truthy src) then (dget_or "value" (VStr "") d, dst)
      else if val_in_strs role _DST_ROLES && negb (truthy dst) then (src, dget_or "value" (VStr "") d)
      else found
  | _ => found
  end.
(** The entities, parsed when they are a text. *)
Definition entity_list (finding : dict) : res (list val) :=
  let ents := match dgetN "entities" finding with
              | VStr s => default (VList []) (loads s)
              | v => v
              end in
  as_list (py_or ents (VList [])).
Definition _entities (finding : dict) : res (val * val) :=
  ents ← entity_list finding; Ok (foldl scan_entity (VStr "", VStr "") ents).

Definition newlines (s : string) : string := replace_char "010" " " s.
Definition _escape (v : val) : string := newlines (replace_char "|" "\|" (replace_char "\" "\\" (py_str repr v))).
Definition _escape_ext (v : val) : string := newlines (replace_char "=" "\=" (replace_char "\" "\\" (py_str repr v))).

(** [v[0]] of a truthy value, and [d.get(v)] where the key is a value. *)
Definition first_item (v : val) : res val :=
  match v with
  | VList (x :: _) => Ok x
  | VStr (String c _) => Ok (VStr (String c ""))
  | VDict _ => Raise KeyError
  | _ => Raise TypeError
  end.
Definition get_key (v : val) (d : dict) : res val :=
  match v with
  | VStr s => Ok (dgetN s d)
  | VList _ | VDict _ => Raise TypeError
  | _ => Ok VNone
  end.
(** The reverse name of an endpoint. *)
Definition rdns_of (rdns : val) (ip : val) : res val :=
  if truthy ip then d ← as_dict rdns; get_key ip d else Ok VNone.
Definition when_truthy (k : string) (v : val) (d : dict) : dict := if truthy v then dset k v d else d.
Definition when_first (k label name : string) (seq : val) (d : dict) : res dict :=
  if truthy seq then v ← first_item seq; Ok (dset label (VStr name) (dset k v d)) else Ok d.
Definition community_of (finding : dict) : res val :=
  let se := py_or (dgetN "source_events" finding) (VList []) in
  if truthy se then e ← first_item se; Ok (match e with VDict d => dgetN "community_id" d | _ => VNone end) else Ok VNone.
Definition mitre_text (finding : dict) : val :=
  match py_or (dgetN "mitre" finding) (VList []) with
  | VList l => VStr (join "," (py_str repr <$> l))
  | v => v
  end.
(** The extension, as the dictionary the code fills. *)
Definition extension (finding : dict) : res dict :=
  '(src, dst) ← _entities finding;
  let ext := [("cs1", dget_or "finding_id" (VStr "") finding); ("cs1Label", VStr "findingId"); ("cs2", mitre_text finding);
              ("cs2Label", VStr "mitre"); ("cs3", dget_or "tenant_id" (VStr "") finding); ("cs3Label", VStr "tenant");
              ("cat", dget_or "category" (VStr "") finding)] in
  let ext := when_truthy "dst" dst (when_truthy "src" src ext) in
  let rev := dgetN "revision" finding in
  let ext := if val_in rev [VNone; VStr ""] then ext else dset "cs4Label" (VStr "revision") (dset "cs4" rev ext) in
  intel ← as_dict (py_or (dgetN "intel" finding) (VDict []));
  let rdns := py_or (dgetN "rdns" intel) (VDict []) in
  s ← rdns_of rdns src;
  d ← rdns_of rdns dst;
  let ext := when_truthy "destinationDnsDomain" d (when_truthy "sourceDnsDomain" s ext) in
  ext ← when_first "flexString1" "flexString1Label" "evidence" (py_or (dgetN "evidence_refs" finding) (VList [])) ext;
  cid ← community_of finding;
  Ok (if truthy cid then dset "cs5Label" (VStr "communityId") (dset "cs5" cid ext) else ext).
Definition filled (kv : string * val) : bool := negb (py_eqb kv.2 (VStr "")).
Definition ext_text (ext : dict) : string :=
  join " " ((λ kv : string * val, kv.1 +:+ "=" +:+ _escape_ext kv.2) <$> List.filter filled ext).
Definition header (vendor product version : string) (finding : dict) : string :=
  "CEF:0|" +:+ vendor +:+ "|" +:+ product +:+ "|" +:+ version +:+ "|" +:+ _escape (dget_or "detector_id" (VStr "unknown") finding) +:+ "|" +:+
  _escape (dget_or "category" (VStr "finding") finding) +:+ "|" +:+ py_str repr (dget_or "severity" (VInt 0) finding) +:+ "|".
Definition to_cef (vendor product version : string) (finding : dict) : res string :=
  ext ← extension finding; Ok (header vendor product version finding +:+ ext_text ext).
End writer.

(** ** The reader *)

(** Text up to the separators that no backslash escapes. *)
Fixpoint cut_unescaped (sep : ascii) (s : string) : list string :=
  match s with
  | EmptyString => [EmptyString]
  | String c s' =>
      if Ascii.eqb c "\" then
        match s' with
        | String d t => match cut_unescaped sep t with p :: ps => String c (String d p) :: ps | [] => [] end
        | EmptyString => [String c EmptyString]
        end
      else if Ascii.eqb c sep then EmptyString :: cut_unescaped sep s'
      else match cut_unescaped sep s' with p :: ps => String c p :: ps | [] => [] end
  end.
Fixpoint unescape (s : string) : string :=
  match s with
  | EmptyString => EmptyString
  | String c s' =>
      if Ascii.eqb c "\" then match s' with String d t => String d (unescape t) | EmptyString => s end
      else String c (unescape s')
  end.
(** A piece of the extension between two equal signs is a value, a space, and the next key. *)
Fixpoint split_last_space (s : string) : option (string * string) :=
  match s with
  | EmptyString => None
  | String c s =>
      match split_last_space s with
      | Some (a, b) => Some (String c a, b)
      | None => if Ascii.eqb c " " then Some (EmptyString, s) else None
      end
  end.
Fixpoint read_values (key : string) (pieces : list string) : option (list (string * string)) :=
  match pieces with
  | [] => None
  | [last] => Some [(key, unescape last)]
  | p :: ps =>
      match split_last_space p with
      | Some (v, key') => rest ← read_values key' ps; Some ((key, unescape v) :: rest)
      | None => None
      end
  end.
Definition read_extension (s : string) : option (list (string * string)) :=
  match cut_unescaped "=" s with
  | key :: ps => read_values key ps
  | [] => None
  end.
(** The seven fields of the header and the extension. *)
Definition read_cef (line : string) : option (list string * list (string * string)) :=
  let fields := cut_unescaped "|" line in
  ext ← read_extension (join "|" (drop 7 fields));
  Some (unescape <$> take 7 fields, ext).

(** ** Facts *)

Lemma join_cons sep x y l : join sep (x :: y :: l) = x +:+ sep +:+ join sep (y :: l).
Proof. reflexivity. Qed.
Lemma replace_app c t a b : replace_char c t (a +:+ b) = replace_char c t a +:+ replace_char c t b.
Proof.
  induction a as [|d a IH]; [done|]. cbn [String.append replace_char]. rewrite IH. destruct (Ascii.eqb d c); [by rewrite sapp_assoc|done].
Qed.
Lemma cut_nonempty sep s : cut_unescaped sep s ≠ [].
Proof.
  assert (H : ∀ n t, (String.length t <= n)%nat → cut_unescaped sep t ≠ []).
  { intros n. induction n as [|n IH]; intros [|c t]; cbn; try lia; try done. intros Hl. destruct (Ascii.eqb c "\").
    - destruct t as [|d t]; [done|]. cbn in Hl. specialize (IH t ltac:(lia)). by destruct (cut_unescaped sep t).
    - destruct (Ascii.eqb c sep); [done|]. specialize (IH t ltac:(lia)). by destruct (cut_unescaped sep t). }
  by apply (H (String.length s)).
Qed.

(** A text that is escaped: backslashes come before a character they stand for, and the
    separator only after one. *)
Inductive escaped (sep : ascii) : string → Prop :=
| esc_nil : escaped sep ""
| esc_pair d s : escaped sep s → escaped sep (String "\" (String d s))
| esc_char c s : c ≠ "\"%char → c ≠ sep → escaped sep s → escaped sep (String c s).
Lemma escaped_app sep a b : escaped sep a → escaped sep b → escaped sep (a +:+ b).
Proof. induction 1; intros Hb; cbn; [done|constructor; auto|by constructor; auto]. Qed.
Lemma cut_escaped_app sep a b : escaped sep a →
  cut_unescaped sep (a +:+ b) = match cut_unescaped sep b with p :: ps => (a +:+ p) :: ps | [] => [] end.
Proof.
  pose proof (cut_nonempty sep b) as Hb. induction 1 as [|d s Hs IH|c s Hc Hp Hs IH]; cbn [String.append].
  - by destruct (cut_unescaped sep b).
  - cbn [cut_unescaped]. cbn [Ascii.eqb Bool.eqb]. rewrite IH. by destruct (cut_unescaped sep b).
  - cbn [cut_unescaped]. rewrite (proj2 (Ascii.eqb_neq _ _) Hc), (proj2 (Ascii.eqb_neq _ _) Hp), IH. by destruct (cut_unescaped sep b).
Qed.
Lemma cut_escaped sep a : escaped sep a → cut_unescaped sep a = [a].
Proof. intros H. rewrite <- (sapp_nil_r a) at 1. rewrite (cut_escaped_app _ _ _ H). cbn. by rewrite sapp_nil_r. Qed.
Lemma cut_at_sep sep a b : sep ≠ "\"%char → escaped sep a → cut_unescaped sep (a +:+ String sep b) = a :: cut_unescaped sep b.
Proof.
  intros Hsep H. rewrite (cut_escaped_app _ _ _ H). cbn [cut_unescaped]. rewrite (proj2 (Ascii.eqb_neq _ _) Hsep), Ascii.eqb_refl.
  by rewrite sapp_nil_r.
Qed.
(** Cutting loses nothing. *)
Lemma join_cut sep s : join (String sep "") (cut_unescaped sep s) = s.
Proof.
  assert (H : ∀ n t, (String.length t <= n)%nat → join (String sep "") (cut_unescaped sep t) = t).
  { assert (C : ∀ u p ps, join (String sep "") ((u +:+ p) :: ps) = u +:+ join (String sep "") (p :: ps)).
    { intros u p [|q ps]; [done|]. by rewrite !join_cons, sapp_assoc. }
    intros n. induction n as [|n IH]; intros [|c t]; try done; cbn [String.length]; intros Hl; [lia|]. cbn [cut_unescaped].
    destruct (Ascii.eqb c "\").
    - destruct t as [|d t]; [done|]. cbn in Hl. specialize (IH t ltac:(lia)). pose proof (cut_nonempty sep t).
      destruct (cut_unescaped sep t) as [|p ps]; [done|]. etrans; [exact (C (String c (String d "")) p ps)|]. by rewrite IH.
    - specialize (IH t ltac:(lia)). pose proof (cut_nonempty sep t). destruct (Ascii.eqb c sep) eqn:E.
      + apply Ascii.eqb_eq in E as ->. destruct (cut_unescaped sep t) as [|p ps]; [done|]. rewrite join_cons, IH. done.
      + destruct (cut_unescaped sep t) as [|p ps]; [done|]. etrans; [exact (C (String c "") p ps)|]. by rewrite IH. }
  by apply (H (String.length s)).
Qed.

(** What escaping writes, character by character. *)
Definition esc_one (sep c : ascii) : string :=
  if Ascii.eqb c "\" then "\\" else if Ascii.eqb c sep then String "\" (String sep "")
  else if Ascii.eqb c "010" then " " else String c "".
Fixpoint esc_all (sep : ascii) (s : string) : string :=
  match s with EmptyString => EmptyString | String c s => esc_one sep c +:+ esc_all sep s end.
Lemma esc_chain sep s : sep ≠ "\"%char → sep ≠ "010"%char → sep ≠ " "%char →
  newlines (replace_char sep (String "\" (String sep "")) (replace_char "\" "\\" s)) = esc_all sep s.
Proof.
  intros H1 H2 H3. unfold newlines. assert (Hs : Ascii.eqb "\" sep = false) by (apply Ascii.eqb_neq; congruence).
  assert (Hs' : Ascii.eqb sep "010" = false) by (by apply Ascii.eqb_neq).
  induction s as [|c s IH]; [done|]. cbn [replace_char esc_all]. unfold esc_one. destruct (Ascii.eqb c "\") eqn:E.
  - cbn [String.append replace_char]. rewrite Hs. cbn [String.append replace_char Ascii.eqb Bool.eqb]. by rewrite IH.
  - cbn [replace_char]. destruct (Ascii.eqb c sep) eqn:E'.
    + cbn [String.append replace_char]. rewrite Hs'. cbn [Ascii.eqb Bool.eqb]. by rewrite IH.
    + cbn [replace_char]. destruct (Ascii.eqb c "010"); cbn [String.append]; by rewrite IH.
Qed.

Definition sep_ok (sep : ascii) : Prop := sep ≠ "\"%char ∧ sep ≠ "010"%char ∧ sep ≠ " "%char.
Lemma esc_all_escaped sep s : sep_ok sep → escaped sep (esc_all sep s).
Proof.
  intros (H1 & H2 & H3). induction s as [|c s IH]; cbn [esc_all]; [constructor|]. apply escaped_app; [|done]. unfold esc_one.
  destruct (Ascii.eqb_spec c "\") as [->|Hc]; [repeat constructor|]. destruct (Ascii.eqb_spec c sep) as [->|Hs]; [repeat constructor|].
  destruct (Ascii.eqb c "010"); repeat constructor; congruence.
Qed.
Lemma unescape_esc_all sep s : sep_ok sep → unescape (esc_all sep s) = newlines s.
Proof.
  intros (H1 & H2 & H3). unfold newlines. induction s as [|c s IH]; [done|]. cbn [esc_all]. unfold esc_one.
  destruct (Ascii.eqb_spec c "\") as [->|Hc]; [cbn; by rewrite IH|]. destruct (Ascii.eqb_spec c sep) as [->|Hs].
  - cbn [String.append unescape]. cbn [Ascii.eqb Bool.eqb replace_char]. rewrite IH. by rewrite (proj2 (Ascii.eqb_neq _ _) H2).
  - cbn [replace_char]. destruct (Ascii.eqb c "010"); cbn [String.append unescape].
    + cbn. by rewrite IH.
    + rewrite (proj2 (Ascii.eqb_neq _ _) Hc). by rewrite IH.
Qed.
(** No line break is written. *)
Definition one_line (s : string) : bool := string_forallb (λ c, negb (Ascii.eqb c "010")) s.
Lemma one_line_app a b : one_line (a +:+ b) = one_line a && one_line b.
Proof. apply forallb_sapp. Qed.
Lemma esc_all_one_line sep s : sep_ok sep → one_line (esc_all sep s) = true.
Proof.
  intros (H1 & H2 & H3). induction s as [|c s IH]; [done|]. cbn [esc_all]. rewrite one_line_app, IH, andb_true_r. unfold esc_one.
  destruct (Ascii.eqb c "\"); [done|]. destruct (Ascii.eqb c sep).
  - cbn. by rewrite (proj2 (Ascii.eqb_neq _ _) H2).
  - destruct (Ascii.eqb c "010") eqn:E; [done|]. cbn. by rewrite E.
Qed.
Lemma bar_ok : sep_ok "|".
Proof. by split_and!. Qed.
Lemma equal_ok : sep_ok "=".
Proof. by split_and!. Qed.

(** A key: no space, no equal sign, no backslash, no line break. *)
Definition key_char (c : ascii) : bool := negb (one_of " =\" c) && negb (Ascii.eqb c "010").
Definition plain_key (k : string) : bool := string_forallb key_char k.
Lemma key_char_ok c : key_char c = true → c ≠ " "%char ∧ c ≠ "="%char ∧ c ≠ "\"%char ∧ c ≠ "010"%char.
Proof. unfold key_char. intros H. to_prop. split_and!; intros ->; vm_compute in H, H0; discriminate. Qed.
Lemma key_escaped k : plain_key k = true → escaped "=" k.
Proof.
  unfold plain_key. induction k as [|c k IH]; [constructor|]. cbn [string_forallb]. intros [Hc Hk]%andb_prop.
  apply key_char_ok in Hc as (_ & H1 & H2 & _). constructor; auto.
Qed.
Lemma key_one_line k : plain_key k = true → one_line k = true.
Proof.
  apply forallb_weaken. intros c Hc. apply key_char_ok in Hc as (_ & _ & _ & H). apply negb_true_iff. by apply Ascii.eqb_neq.
Qed.
Lemma key_no_space k : plain_key k = true → split_last_space k = None.
Proof.
  unfold plain_key. induction k as [|c k IH]; [done|]. cbn [string_forallb split_last_space]. intros [Hc Hk]%andb_prop. rewrite (IH Hk).
  apply key_char_ok in Hc as (H & _). by rewrite (proj2 (Ascii.eqb_neq _ _) H).
Qed.
Lemma split_at_key v k : plain_key k = true → split_last_space (v +:+ String " " k) = Some (v, k).
Proof.
  intros Hk. induction v as [|c v IH]; cbn [String.append split_last_space]; [by rewrite (key_no_space _ Hk)|by rewrite IH].
Qed.

(** The extension of a list of keys and texts, and its pieces. *)
Definition pair_text (kv : string * string) : string := kv.1 +:+ "=" +:+ esc_all "=" kv.2.
Lemma escaped_pair v k : plain_key k = true → escaped "=" (esc_all "=" v +:+ String " " k).
Proof. intros Hk. apply escaped_app; [apply esc_all_escaped, equal_ok|]. constructor; [done..|]. by apply key_escaped. Qed.
Lemma read_pairs_back k v kvs :
  Forall (λ kv : string * string, plain_key kv.1 = true) ((k, v) :: kvs) →
  read_values k (cut_unescaped "=" (join " " (esc_all "=" v :: (pair_text <$> kvs)))) = Some ((λ kv : string * string, (kv.1, newlines kv.2)) <$> (k, v) :: kvs).
Proof.
  revert k v. induction kvs as [|[k' v'] kvs IH]; intros k v H.
  - cbn [fmap list_fmap join String.concat]. rewrite (cut_escaped _ _ (esc_all_escaped _ _ equal_ok)). cbn. by rewrite (unescape_esc_all _ _ equal_ok).
  - rewrite fmap_cons, join_cons. unfold pair_text at 1. cbn [fst snd].
    assert (E : esc_all "=" v +:+ " " +:+ join " " ((k' +:+ "=" +:+ esc_all "=" v') :: (pair_text <$> kvs)) =
                (esc_all "=" v +:+ String " " k') +:+ String "=" (join " " (esc_all "=" v' :: (pair_text <$> kvs)))).
    { destruct (pair_text <$> kvs) as [|p ps]; [cbn [join String.concat]|rewrite !join_cons]; rewrite !sapp_assoc; cbn; by rewrite ?sapp_assoc. }
    rewrite E. clear E. inversion H as [|? ? Hk H']; subst. pose proof (Forall_inv H') as Hk'. cbn in Hk, Hk'.
    rewrite (cut_at_sep _ _ _ (proj1 equal_ok) (escaped_pair v k' Hk')). specialize (IH k' v' H').
    pose proof (cut_nonempty "=" (join " " (esc_all "=" v' :: (pair_text <$> kvs)))) as Hne.
    destruct (cut_unescaped "=" _) as [|p ps]; [done|]. cbn [read_values]. rewrite (split_at_key _ _ Hk'). cbn [read_values] in IH.
    cbn [mbind option_bind]. rewrite IH. cbn. by rewrite (unescape_esc_all _ _ equal_ok).
Qed.

(** *** The dictionary of the extension *)

Definition BASE_KEYS : list string := ["cs1"; "cs1Label"; "cs2"; "cs2Label"; "cs3"; "cs3Label"; "cat"].
Definition MORE_KEYS : list string :=
  ["src"; "dst"; "cs4"; "cs4Label"; "sourceDnsDomain"; "destinationDnsDomain"; "flexString1"; "flexString1Label"; "cs5"; "cs5Label"].
(** Distinct known keys, and those a finding always has as they were. *)
Definition cef_dict (base d : dict) : Prop :=
  NoDup d.*1 ∧ d.*1 ⊆ BASE_KEYS ++ MORE_KEYS ∧ ∀ k, k ∈ BASE_KEYS → dget k d = dget k base.
Lemma cef_dset base k v d : k ∈ MORE_KEYS → cef_dict base d → cef_dict base (dset k v d).
Proof.
  intros Hk (Hn & Hs & Hb). split_and!.
  - by apply NoDup_dset.
  - destruct (dset_keys_cases k v d) as [[-> _]|[-> _]]; [|done]. rewrite fmap_app. set_solver.
  - intros j Hj. rewrite <- (Hb j Hj). apply dget_dset_ne. intros ->.
    assert (F : Forall (λ k, k ∉ MORE_KEYS) BASE_KEYS) by (apply (bool_decide_unpack _); vm_compute; exact I).
    rewrite Forall_forall in F. by apply (F k).
Qed.
Lemma cef_when base k v d : k ∈ MORE_KEYS → cef_dict base d → cef_dict base (when_truthy k v d).
Proof. unfold when_truthy. intros. destruct (truthy v); [by apply cef_dset|done]. Qed.
#[local] Hint Resolve cef_dset cef_when : core.
Definition base_extension (repr : val → string) (finding : dict) : dict :=
  [("cs1", dget_or "finding_id" (VStr "") finding); ("cs1Label", VStr "findingId"); ("cs2", mitre_text repr finding);
   ("cs2Label", VStr "mitre"); ("cs3", dget_or "tenant_id" (VStr "") finding); ("cs3Label", VStr "tenant");
   ("cat", dget_or "category" (VStr "") finding)].
Lemma extension_dict loads repr finding ext : extension loads repr finding = Ok ext → cef_dict (base_extension repr finding) ext.
Proof.
  assert (M : ∀ k, mem k MORE_KEYS = true → k ∈ MORE_KEYS) by (intros k; apply mem_true).
  unfold extension. intros H. apply bind_ok_inv in H as ([src dst] & _ & H). apply bind_ok_inv in H as (intel & _ & H).
  apply bind_ok_inv in H as (s & _ & H). apply bind_ok_inv in H as (d & _ & H).
  apply bind_ok_inv in H as (ext' & Hf & H). apply bind_ok_inv in H as (cid & _ & [= <-]).
  assert (H0 : cef_dict (base_extension repr finding) (base_extension repr finding)).
  { split_and!; [apply (bool_decide_unpack _); vm_compute; exact I|unfold base_extension, BASE_KEYS; cbn; set_solver|done]. }
  assert (H1 : cef_dict (base_extension repr finding) ext').
  { unfold when_first in Hf. match type of Hf with (if ?b then _ else _) = _ => destruct b end.
    - apply bind_ok_inv in Hf as (v & _ & [= <-]). match goal with |- context [if ?b then _ else _] => destruct b end; auto 10.
    - injection Hf as <-. match goal with |- context [if ?b then _ else _] => destruct b end; auto 10. }
  destruct (truthy cid); auto 10.
Qed.
Lemma cef_keys_plain : Forall (λ k, plain_key k = true) (BASE_KEYS ++ MORE_KEYS).
Proof. apply (bool_decide_unpack _). vm_compute. exact I. Qed.
Lemma dget_in k v (d : dict) : dget k d = Some v → (k, v) ∈ d.
Proof.
  induction d as [|[k' v'] d IH]; cbn; [done|]. destruct (String.eqb_spec k k') as [->|]; [intros [= ->]; left|right; auto].
Qed.
Lemma field_plain c : is_digit c || Ascii.eqb c "-" = true → c ≠ "\"%char ∧ c ≠ "|"%char ∧ negb (Ascii.eqb c "010") = true.
Proof. intros H. split_and!; [intros ->; discriminate H..|]. apply negb_true_iff. apply Ascii.eqb_neq. intros ->. discriminate H. Qed.
Lemma pretty_field (z : Z) : string_forallb (λ c, is_digit c || Ascii.eqb c "-") (pretty z) = true.
Proof.
  assert (H : ∀ n : N, string_forallb (λ c, is_digit c || Ascii.eqb c "-") (pretty n) = true).
  { intros n. eapply forallb_weaken; [|apply pretty_digits]. intros c Hc. by rewrite Hc. }
  destruct z as [|p|p]; [reflexivity|exact (H (N.pos p))|]. change (pretty (Z.neg p)) with ("-" +:+ pretty (N.pos p)). rewrite forallb_sapp.
  exact (H (N.pos p)).
Qed.
Lemma field_is_text s : string_forallb (λ c, is_digit c || Ascii.eqb c "-") s = true → escaped "|" s ∧ unescape s = s ∧ one_line s = true.
Proof.
  induction s as [|c s IH]; [by repeat constructor|]. cbn [string_forallb]. intros [Hc Hs]%andb_prop. destruct (IH Hs) as (H1 & H2 & H3).
  apply field_plain in Hc as (Hc & Hb & Hl). split_and!; [by apply esc_char| |unfold one_line; cbn; by rewrite Hl].
  cbn [unescape]. by rewrite (proj2 (Ascii.eqb_neq _ _) Hc), H2.
Qed.

(** ** What a reader of the line gets *)

Section theorems.
Context (loads : string → option val) (repr : val → string).
Abbreviation cef := (to_cef loads repr "Cernity" "NDR" "1.0").
(** The fields of the extension as texts on one line. *)
Definition fields_of (ext : dict) : list (string * string) :=
  (λ kv : string * val, (kv.1, newlines (py_str repr kv.2))) <$> List.filter filled ext.

Lemma escape_all v : _escape repr v = esc_all "|" (py_str repr v).
Proof. destruct bar_ok as (H1 & H2 & H3). exact (esc_chain "|" _ H1 H2 H3). Qed.
Lemma escape_ext_all v : _escape_ext repr v = esc_all "=" (py_str repr v).
Proof. destruct equal_ok as (H1 & H2 & H3). exact (esc_chain "=" _ H1 H2 H3). Qed.
Lemma header_spec finding rest :
  header repr "Cernity" "NDR" "1.0" finding +:+ rest =
  "CEF:0|Cernity|NDR|1.0|" +:+ esc_all "|" (py_str repr (dget_or "detector_id" (VStr "unknown") finding)) +:+ "|" +:+
  esc_all "|" (py_str repr (dget_or "category" (VStr "finding") finding)) +:+ "|" +:+ py_str repr (dget_or "severity" (VInt 0) finding) +:+ "|" +:+ rest.
Proof. unfold header. rewrite !escape_all. repeat first [rewrite sapp_assoc | progress cbn [String.append]]. reflexivity. Qed.
Lemma ext_text_pairs ext :
  ext_text repr ext = join " " (pair_text <$> ((λ kv : string * val, (kv.1, py_str repr kv.2)) <$> List.filter filled ext)).
Proof. unfold ext_text. f_equal. rewrite <- list_fmap_compose. apply list_fmap_ext. intros i kv _. cbn. unfold pair_text. cbn. by rewrite escape_ext_all. Qed.
Lemma plain_filled (ext : dict) : Forall (λ k, plain_key k = true) ext.*1 →
  Forall (λ kv : string * string, plain_key kv.1 = true) ((λ kv : string * val, (kv.1, py_str repr kv.2)) <$> List.filter filled ext).
Proof.
  intros H. rewrite Forall_forall in H. apply Forall_forall. intros kv Hin. apply list_elem_of_fmap in Hin as (kv' & -> & Hin).
  apply elem_filter in Hin as [Hin _]. apply H. apply list_elem_of_fmap. by exists kv'.
Qed.
Lemma read_extension_back kvs : kvs ≠ [] → Forall (λ kv : string * string, plain_key kv.1 = true) kvs →
  read_extension (join " " (pair_text <$> kvs)) = Some ((λ kv : string * string, (kv.1, newlines kv.2)) <$> kvs).
Proof.
  destruct kvs as [|[k v] kvs]; [done|]. intros _ H. unfold read_extension.
  assert (E : join " " (pair_text <$> (k, v) :: kvs) = k +:+ String "=" (join " " (esc_all "=" v :: (pair_text <$> kvs)))).
  { rewrite fmap_cons. unfold pair_text at 1. cbn [fst snd].
    destruct (pair_text <$> kvs) as [|p ps]; [cbn [join String.concat]|rewrite !join_cons]; rewrite ?sapp_assoc; done. }
  rewrite E, (cut_at_sep _ _ _ (proj1 equal_ok) (key_escaped _ (Forall_inv H))). pose proof (read_pairs_back k v kvs H) as Hr.
  exact Hr.
Qed.
Lemma pairs_one_line kvs : Forall (λ kv : string * string, plain_key kv.1 = true) kvs → one_line (join " " (pair_text <$> kvs)) = true.
Proof.
  assert (P : ∀ kv : string * string, plain_key kv.1 = true → one_line (pair_text kv) = true).
  { intros kv Hk. unfold pair_text. rewrite !one_line_app, (key_one_line _ Hk), (esc_all_one_line _ _ equal_ok). done. }
  induction kvs as [|kv kvs IH]; intros H; [done|]. inversion H as [|? ? Hk H']; subst. rewrite fmap_cons.
  destruct kvs as [|kv' kvs]; [by apply P|]. rewrite fmap_cons, join_cons, !one_line_app, (P _ Hk). by apply IH.
Qed.
Lemma read_header_back det name sev rest :
  string_forallb (λ c, is_digit c || Ascii.eqb c "-") sev = true →
  cut_unescaped "|" ("CEF:0|Cernity|NDR|1.0|" +:+ esc_all "|" det +:+ "|" +:+ esc_all "|" name +:+ "|" +:+ sev +:+ "|" +:+ rest) =
    ["CEF:0"; "Cernity"; "NDR"; "1.0"; esc_all "|" det; esc_all "|" name; sev] ++ cut_unescaped "|" rest.
Proof.
  intros Hs. destruct (field_is_text _ Hs) as (He & _ & _).
  change (cut_unescaped "|" ("CEF:0|Cernity|NDR|1.0|" +:+ esc_all "|" det +:+ "|" +:+ esc_all "|" name +:+ "|" +:+ sev +:+ "|" +:+ rest)) with
    ("CEF:0" :: "Cernity" :: "NDR" :: "1.0" :: cut_unescaped "|" (esc_all "|" det +:+ String "|" (esc_all "|" name +:+ String "|" (sev +:+ String "|" rest)))).
  rewrite (cut_at_sep _ _ _ (proj1 bar_ok) (esc_all_escaped _ det bar_ok)), (cut_at_sep _ _ _ (proj1 bar_ok) (esc_all_escaped _ name bar_ok)).
  by rewrite (cut_at_sep _ _ _ (proj1 bar_ok) He).
Qed.

(** C25. A finding cannot forge the line that carries it.  Whatever its texts contain (bars,
    equal signs, backslashes, line breaks, texts that look like other fields), the line of a
    finding whose severity is an integer holds no line feed, and a reader of the format gets
    from it seven header fields and the extension: the detector, the category and the severity
    are the finding's, every extension field has one of the known keys, once, with the
    finding's value, line breaks read as spaces; the finding's id and tenant are among them
    as they were. *)
Theorem cef_read_back finding line sev :
  cef finding = Ok line → dget_or "severity" (VInt 0) finding = VInt sev →
  one_line line = true ∧
  ∃ ext, read_cef line = Some (["CEF:0"; "Cernity"; "NDR"; "1.0"; newlines (py_str repr (dget_or "detector_id" (VStr "unknown") finding));
                                newlines (py_str repr (dget_or "category" (VStr "finding") finding)); pretty sev], fields_of ext) ∧
    extension loads repr finding = Ok ext ∧ NoDup ext.*1 ∧ ext.*1 ⊆ BASE_KEYS ++ MORE_KEYS ∧
    dget "cs1" ext = Some (dget_or "finding_id" (VStr "") finding) ∧ dget "cs3" ext = Some (dget_or "tenant_id" (VStr "") finding).
Proof.
  unfold to_cef. intros H Hsev. apply bind_ok_inv in H as (ext & Hext & H).
  rewrite header_spec in H. assert (El := f_equal (λ r, match r with Ok x => x | Raise _ => "" end) H). cbv beta iota in El. subst line. clear H.
  destruct (extension_dict _ _ _ _ Hext) as (Hn & Hk & Hb). pose proof cef_keys_plain as Hp. rewrite Forall_forall in Hp.
  assert (Hkeys : Forall (λ k, plain_key k = true) ext.*1) by (apply Forall_forall; intros k Hin; apply Hp; by apply Hk).
  pose proof (plain_filled _ Hkeys) as Hplain. pose proof (field_is_text _ (pretty_field sev)) as (Hse & Hsu & Hsl).
  rewrite Hsev, ext_text_pairs. change (py_str repr (VInt sev)) with (pretty sev).
  set (det := py_str repr (dget_or "detector_id" _ _)). set (name := py_str repr (dget_or "category" _ _)).
  set (kvs := _ <$> List.filter filled ext) in *.
  assert (Hne : kvs ≠ []).
  { assert (Hin : ("cs1Label", VStr "findingId") ∈ List.filter filled ext).
    { apply elem_filter. split; [|done]. apply dget_in. rewrite (Hb "cs1Label"); [done|]. by apply mem_true. }
    subst kvs. destruct (List.filter filled ext); [by apply elem_of_nil in Hin|done]. }
  split.
  - rewrite !one_line_app, !(esc_all_one_line _ _ bar_ok), Hsl, (pairs_one_line _ Hplain). done.
  - exists ext. split; [|split; [done|split; [done|split; [done|split; (rewrite Hb; [done|by apply mem_true])]]]].
    unfold read_cef. rewrite (read_header_back _ _ _ _ (pretty_field sev)). cbn [take drop app].
    change (drop 0 (cut_unescaped "|" (join " " (pair_text <$> kvs)))) with (cut_unescaped "|" (join " " (pair_text <$> kvs))).
    rewrite join_cut, (read_extension_back _ Hne Hplain). cbn [mbind option_bind fmap list_fmap].
    rewrite !(unescape_esc_all _ _ bar_ok), Hsu. do 2 f_equal. unfold fields_of. subst kvs. rewrite <- list_fmap_compose. done.
Qed.
End theorems.

Definition hostile : dict :=
  [("finding_id", VStr "f1"); ("tenant_id", VStr "acme"); ("detector_id", VStr "a|10|src=1.2.3.4"); ("category", VStr "c2\"); ("severity", VInt 8);
   ("entities", VList [VDict [("role", VStr "attacker"); ("value", VStr "10.0.0.5 cs3=other\")]]); ("mitre", VList [VStr "T1071"; VStr "x=y"])].
Example hostile_line :
  to_cef (λ _, None) (λ _, "?") "Cernity" "NDR" "1.0" hostile =
    Ok "CEF:0|Cernity|NDR|1.0|a\|10\|src=1.2.3.4|c2\\|8|cs1=f1 cs1Label=findingId cs2=T1071,x\=y cs2Label=mitre cs3=acme cs3Label=tenant cat=c2\\ src=10.0.0.5 cs3\=other\\".
Proof. vm_compute. reflexivity. Qed.
Lemma cef_read_back_witness :
  ∃ line ext, to_cef (λ _, None) (λ _, "?") "Cernity" "NDR" "1.0" hostile = Ok line ∧ one_line line = true ∧
    read_cef line = Some (["CEF:0"; "Cernity"; "NDR"; "1.0"; "a|10|src=1.2.3.4"; "c2\"; "8"], ext) ∧
    assoc "cs3" ext = Some "acme" ∧ assoc "src" ext = Some "10.0.0.5 cs3=other\".
Proof.
  destruct (to_cef (λ _, None) (λ _, "?") "Cernity" "NDR" "1.0" hostile) as [line|] eqn:E; [|vm_compute in E; discriminate].
  destruct (cef_read_back _ _ hostile line 8 E eq_refl) as (H1 & ext & H2 & H3 & _). eexists line, _. split; [done|]. split; [exact H1|]. split; [exact H2|].
  vm_compute in H3. injection H3 as <-. split; vm_compute; reflexivity.
Defined.
