(* ===== verification/SinkPayloads.v ===== *)
(** * What the products receive (services/findings-forwarder/mappings.py and the adapters of adapters.py)

    The stable pivot fields of a record, their names in Splunk CIM and in ECS, and the
    payload each adapter makes of a batch: bulk lines, HEC events, a posted document, syslog
    frames, lines of a file.  Requests themselves are the receiver of [SinkDelivery].

    [loads] is [json.loads] on a text, [repr] the text of containers and floats, [dumps] the
    text of JSON, [digest] the SHA-256 of an obligation's key. *)

From S2P Require Import Prelude Order PyVal PyString OrderedMap PyTime Json PartitionKeys FindingsExport SinkDelivery Cef.
Set Default Proof Using "Type".

(** ** Pivot fields (mappings.py) *)

Definition CIM_MAP : list (string * string) :=
  [("finding_id", "vendor_finding_id"); ("signature_id", "signature_id"); ("revision", "vendor_finding_revision");
   ("incident_id", "vendor_incident_id"); ("entity_id", "risk_object"); ("asset_key", "asset_id"); ("community_id", "community_id");
   ("observation_point", "dvc"); ("observation_id", "vendor_observation_id"); ("pcap_evidence_id", "vendor_pcap_evidence_id");
   ("file_artifact_id", "vendor_file_artifact_id"); ("investigation_id", "vendor_investigation_id");
   ("model_version", "vendor_model_version"); ("detector_version", "vendor_detector_version")].
Definition ECS_MAP : list (string * string) :=
  [("finding_id", "event.id"); ("signature_id", "rule.id"); ("revision", "event.sequence"); ("incident_id", "cernity.incident_id");
   ("entity_id", "cernity.entity_id"); ("asset_key", "host.id"); ("community_id", "network.community_id");
   ("observation_point", "observer.name"); ("observation_id", "cernity.observation_id"); ("pcap_evidence_id", "cernity.pcap_evidence_id");
   ("file_artifact_id", "cernity.file_artifact_id"); ("investigation_id", "cernity.investigation_id");
   ("model_version", "cernity.model_version"); ("detector_version", "rule.version")].

(** [re.match("^obs:[0-9a-f]{64}$")]: the dollar also matches before a final line feed. *)
Definition low_hex (c : ascii) : bool := is_digit c || between 97 102 (code c).
Definition obs_text (s : string) : bool :=
  starts_with "obs:" s &&
  match match_classes (replicate 64 low_hex) (drop_chars 4 s) with
  | Some rest => String.eqb rest "" || String.eqb rest (String "010" "")
  | None => false
  end.
Definition _is_obs_ref (v : val) : bool := match v with VStr s => obs_text s | _ => false end.
(** The text after the first "://", or all of it. *)
Fixpoint after_scheme (s : string) : option string :=
  if starts_with "://" s then Some (drop_chars 3 s) else match s with String _ s => after_scheme s | EmptyString => None end.
Definition capture_text (s : string) : bool :=
  str_truthy s && (starts_with "ndr-pcap/" (default s (after_scheme s)) || ends_with ".pcap" s).
Definition _is_capture_ref (v : val) : bool := match v with VStr s => capture_text s | _ => false end.

Section payloads.
Context (loads : string → option val) (repr dumps : val → string).

Definition dicts (l : list val) : list dict := omap (λ v, match v with VDict d => Some d | _ => None end) l.
Definition pivot_entities (f : dict) : res (list dict) := l ← entity_list loads f; Ok (dicts l).
Definition _first (seq : list dict) (type : string) : val :=
  default VNone (head (List.filter (λ v, negb (val_in v [VNone; VStr ""])) (dgetN "value" <$> List.filter (λ e, val_eq_str (dgetN "type" e) type) seq))).
Definition _source_events (f : dict) : res (list dict) := l ← as_list (py_or (dgetN "source_events" f) (VList [])); Ok (dicts l).
(** [v or w] where [w] may raise. *)
Definition or_else (v : val) (w : res val) : res val := if truthy v then Ok v else w.
Definition of_first (k : string) (se : list dict) : val := match se with e :: _ => dgetN k e | [] => VNone end.
Definition first_ref (p : val → bool) (refs : val) : res val := l ← as_list refs; Ok (default VNone (head (List.filter p l))).
Definition pivot (f : dict) : res dict :=
  ents ← pivot_entities f;
  se ← _source_events f;
  let sensors := py_or (dgetN "sensor_ids" f) (VList []) in
  let refs := py_or (dgetN "evidence_refs" f) (VList []) in
  point ← or_else (py_or (dgetN "observation_point" f) (dgetN "sensor_id" f)) (if truthy sensors then first_item sensors else Ok VNone);
  obs ← or_else (py_or (dgetN "observation_id" f) (of_first "obs_id" se)) (first_ref _is_obs_ref refs);
  pcap ← or_else (dgetN "pcap_evidence_id" f) (first_ref _is_capture_ref refs);
  Ok [("finding_id", dgetN "finding_id" f); ("signature_id", py_or (dgetN "signature_id" f) (dgetN "detector_id" f));
      ("revision", dgetN "revision" f); ("incident_id", dgetN "incident_id" f);
      ("entity_id", py_or (dgetN "entity_id" f) (_first ents "entity")); ("asset_key", py_or (dgetN "asset_key" f) (_first ents "asset"));
      ("community_id", py_or (dgetN "community_id" f) (of_first "community_id" se)); ("observation_point", point); ("observation_id", obs);
      ("pcap_evidence_id", pcap); ("file_artifact_id", dgetN "file_artifact_id" f); ("investigation_id", dgetN "investigation_id" f);
      ("model_version", dgetN "model_version" f); ("detector_version", dgetN "detector_version" f)].
(** [{MAP[k]: v for k, v in p.items()}] *)
Definition renamed (m : list (string * string)) (p : dict) : res dict :=
  foldl (λ acc kv, d ← acc; match assoc kv.1 m with Some k => Ok (dset k kv.2 d) | None => Raise KeyError end) (Ok []) p.
Definition to_cim (f : dict) : res dict := p ← pivot f; renamed CIM_MAP p.
Definition to_ecs (f : dict) : res dict := p ← pivot f; renamed ECS_MAP p.
(** [{**a, **b}] *)
Definition merged (a b : dict) : dict := foldl (λ d kv, dset kv.1 kv.2 d) a b.

(** ** Payloads (adapters.py) *)

Context (digest : obl_key → string).
Definition _live (fs : list dict) : res (list dict) :=
  foldr (λ f acc, l ← is_live f; rest ← acc; Ok (if l : bool then f :: rest else rest)) (Ok []) fs.

(** *** Elasticsearch *)

Definition iso_time (k : string) (d : dict) : dict :=
  match dget k d with
  | Some (VStr s) => if contains " " s && negb (contains "T" s) then dset k (VStr (replace_char " " "T" s)) d else d
  | _ => d
  end.
Definition _doc (f : dict) : res dict :=
  f ← export_record f;
  let f := iso_time "last_seen" (iso_time "first_seen" f) in
  seen ← or_else (py_or (dgetN "last_seen" f) (dgetN "first_seen" f))
    (w ← as_dict (dget_or "window" (VDict []) f); Ok (py_or (dgetN "to" w) (dgetN "updated" f)));
  Ok (dset "@timestamp" seen f).
Definition _doc_id (d : dict) : res string :=
  kind ← record_kind d;
  if negb (String.eqb kind "finding") then key ← _record_key d "es"; Ok ("cernity:" +:+ digest key)
  else
    let base := py_str repr (py_or (dgetN "tenant_id" d) (VStr "default")) +:+ ":" +:+ py_str repr (dgetN "finding_id" d) in
    Ok (match dgetN "revision" d with VNone => base | rev => base +:+ ":r" +:+ py_str repr rev end).
(** The two lines of a record in a bulk request, as values. *)
Definition bulk_entry (index : string) (f : dict) : res (val * dict) :=
  d ← _doc f;
  ecs ← to_ecs d;
  id ← _doc_id d;
  Ok (VDict [("index", VDict [("_index", VStr index); ("_id", VStr id)])], merged d ecs).
Fixpoint each_ok {A B} (f : A → res B) (l : list A) : res (list B) :=
  match l with [] => Ok [] | x :: l => y ← f x; ys ← each_ok f l; Ok (y :: ys) end.
Definition bulk_text (entries : list (val * dict)) : string :=
  String.concat "" ((λ e : val * dict, dumps e.1 +:+ String "010" (dumps (VDict e.2) +:+ String "010" "")) <$> entries).
(** What the adapter sends, and how it reads the reply: the records it reports as failed. *)
Definition es_request (index : string) (fs : list dict) : res (option (list (val * dict))) :=
  live ← _live fs;
  match live with [] => Ok None | _ => entries ← each_ok (bulk_entry index) live; Ok (Some entries) end.
Definition es_failed (fs : list dict) (reply : val) : res (list dict) :=
  live ← _live fs; Ok (flagged true (_failed_items (length live) reply) live).
Definition noindex : val := VDict [("type", VStr "object"); ("enabled", VBool false)].
Definition flat : val := VDict [("type", VStr "flattened")].
Definition _template_body (prefix : string) : dict :=
  [("index_patterns", VList [VStr (prefix +:+ "-*")]);
   ("template", VDict [("settings", VDict [("index.mapping.total_fields.limit", VInt 2000)]);
                       ("mappings", VDict [("properties", VDict [("source_events", noindex); ("summary", noindex); ("iocs", noindex);
                                                                 ("intel", flat); ("geo", flat)])])])].

(** *** Splunk, webhooks, syslog, Devo, files *)

Definition splunk_event (sourcetype : string) (r : dict) : res val :=
  f ← export_record r; cim ← to_cim f; Ok (VDict [("event", VDict (merged f cim)); ("sourcetype", VStr sourcetype)]).
Definition webhook_body (fs : list dict) : val := VDict [("findings", VList (VDict <$> fs))].
Definition _syslog_frame (line host ts : string) (tag : option string) : string :=
  "<134>" +:+ ts +:+ " " +:+ host +:+ " " +:+ (match tag with Some t => t +:+ ": " | None => "" end) +:+ line.
Definition syslog_frames (host ts : string) (fs : list dict) : res (list string) :=
  each_ok (λ f, line ← to_cef loads repr "Cernity" "NDR" "1.0" f; Ok (_syslog_frame line host ts None)) fs.
Definition devo_payload (as_cef : bool) (f : dict) : res string :=
  if as_cef then to_cef loads repr "Cernity" "NDR" "1.0" f else Ok (dumps (VDict f)).
Definition devo_message (tag : string) (as_cef : bool) (f : dict) : res val :=
  p ← devo_payload as_cef f; Ok (VDict [("tag", VStr tag); ("message", VStr p)]).

(** A file of lines, when it exists, and the generation before it: their records. *)
Record sink_file := { sf_lines : option (list dict); sf_old : option (list dict) }.
Definition file_size (fs : list dict) : Z := foldr (λ f n, Z.of_nat (String.length (dumps (VDict f))) + 1 + n) 0 fs.
Definition _rotate_if_needed (max_bytes : Z) (s : sink_file) : sink_file :=
  match sf_lines s with
  | Some fs => if negb (max_bytes =? 0) && (max_bytes <=? file_size fs) then {| sf_lines := None; sf_old := Some fs |} else s
  | None => s
  end.
(** The file is opened, and so created, before the batch is looked at. *)
Definition file_emit (max_bytes : Z) (fs : list dict) (s : sink_file) : sink_file * res unit :=
  let s := _rotate_if_needed max_bytes s in
  let lines := default [] (sf_lines s) in
  match _live fs with
  | Ok live => ({| sf_lines := Some (lines ++ live); sf_old := sf_old s |}, Ok tt)
  | Raise e => ({| sf_lines := Some lines; sf_old := sf_old s |}, Raise e)
  end.

(** The sinks a setting names: separated by commas, "file" when it names none. *)
Definition sink_names (setting : string) : list string :=
  match List.filter str_truthy (strip <$> split_char "," setting) with [] => ["file"] | ns => ns end.
Inductive product := p_file | p_elastic | p_splunk | p_webhook | p_syslog | p_devo.
Definition _make (kind : string) : res product :=
  let k := lower (strip kind) in
  if String.eqb k "file" then Ok p_file
  else if mem k ["elasticsearch"; "opensearch"; "es"] then Ok p_elastic
  else if String.eqb k "splunk" then Ok p_splunk
  else if String.eqb k "webhook" then Ok p_webhook
  else if mem k ["syslog"; "cef"] then Ok p_syslog
  else if String.eqb k "devo" then Ok p_devo
  else Raise ValueError.
End payloads.

(** ** Facts *)

Lemma each_ok_spec {A B} (f : A → res B) l ys : each_ok f l = Ok ys ↔ Forall2 (λ x y, f x = Ok y) l ys.
Proof.
  revert ys. induction l as [|x l IH]; intros ys; cbn.
  - split; [intros [= <-]; constructor|intros H; by inversion H].
  - split.
    + intros H. apply bind_ok_inv in H as (y & Hy & H). apply bind_ok_inv in H as (zs & Hz & [= <-]). constructor; [done|by apply IH].
    + intros H. inversion H as [|? y ? zs Hy Hz]; subst. apply IH in Hz. by rewrite Hy, Hz.
Qed.
Lemma live_spec fs live : _live fs = Ok live → ∀ f, f ∈ live ↔ f ∈ fs ∧ is_live f = Ok true.
Proof.
  revert live. induction fs as [|g fs IH]; intros live; cbn [_live foldr]; [intros [= <-] f; rewrite elem_of_nil; naive_solver|].
  fold (_live fs). intros H. apply bind_ok_inv in H as (b & Hb & H). apply bind_ok_inv in H as (rest & Hr & [= <-]). intros f.
  destruct b; rewrite !elem_of_cons, (IH _ Hr); [naive_solver|]. split; [naive_solver|]. intros [[->|H] Hf]; [congruence|auto].
Qed.

(** *** Pivots *)

(** Distinct names on both sides. *)
Lemma map_names : NoDup CIM_MAP.*1 ∧ NoDup CIM_MAP.*2 ∧ NoDup ECS_MAP.*2 ∧ CIM_MAP.*1 = ECS_MAP.*1.
Proof. split_and!; [apply (bool_decide_unpack _); vm_compute; exact I..|reflexivity]. Qed.
Lemma dset_fresh k v (d : dict) : k ∉ d.*1 → dset k v d = d ++ [(k, v)].
Proof. destruct (dset_keys_cases k v d) as [[-> _]|[_ H]]; [done|]. intros []. exact H. Qed.
(** An observation is never taken for a packet capture. *)
Lemma drop_take_chars n s : s = take_chars n s +:+ drop_chars n s.
Proof. revert s. induction n as [|n IH]; intros [|c s]; cbn; try done. by rewrite <- IH. Qed.
Lemma hex_classes n s rest : match_classes (replicate n low_hex) s = Some rest → ∃ h, s = h +:+ rest ∧ string_forallb low_hex h = true.
Proof.
  revert s. induction n as [|n IH]; intros s; cbn; [destruct s; intros [= <-]; by exists ""|]. destruct s as [|c s]; [done|].
  destruct (low_hex c) eqn:E; [|done]. intros H. destruct (IH _ H) as (h & -> & Hh). exists (String c h). cbn. by rewrite E, Hh.
Qed.
Lemma obs_text_shape s : obs_text s = true → ∃ h t, s = "obs:" +:+ h +:+ t ∧ string_forallb low_hex h = true ∧ (t = "" ∨ t = String "010" "").
Proof.
  unfold obs_text. intros [Hs Hm]%andb_prop. apply starts_with_inv in Hs as (u & ->). change (drop_chars 4 ("obs:" +:+ u)) with u in Hm.
  destruct (match_classes _ u) as [rest|] eqn:E; [|done]. apply hex_classes in E as (h & -> & Hh). exists h, rest. split_and!; [done..|].
  apply orb_true_iff in Hm as [H|H]; apply String.eqb_eq in H; auto.
Qed.

Lemma starts_cons (a b : ascii) p s : starts_with (String a p) (String b s) = Ascii.eqb a b && starts_with p s.
Proof.
  unfold starts_with. cbn [String.prefix]. destruct (ascii_dec a b) as [->|H]; [by rewrite Ascii.eqb_refl|].
  by rewrite (proj2 (Ascii.eqb_neq _ _) H).
Qed.
Lemma low_hex_sep c : low_hex c = true → Ascii.eqb ":" c = false ∧ Ascii.eqb "p" c = false ∧ Ascii.eqb "/" c = false.
Proof. intros H. split_and!; apply Ascii.eqb_neq; intros <-; discriminate H. Qed.
(** No scheme in a text whose only colon is followed by something that is no slash. *)
Lemma no_scheme h t : string_forallb low_hex h = true → (t = "" ∨ t = String "010" "") → after_scheme (h +:+ t) = None.
Proof.
  intros Hh Ht. induction h as [|c h IH]; [by destruct Ht as [->| ->]|]. cbn in Hh. apply andb_prop in Hh as [Hc Hh].
  cbn [String.append after_scheme]. assert (E : starts_with "://" (String c (h +:+ t)) = false).
  { rewrite starts_cons. by destruct (low_hex_sep _ Hc) as (-> & _ & _). }
  rewrite E. by apply IH.
Qed.
Theorem observation_is_no_capture v : _is_obs_ref v = true → _is_capture_ref v = false.
Proof.
  destruct v as [| | | |s| |]; try done. cbn. intros H. apply obs_text_shape in H as (h & t & -> & Hh & Ht). unfold capture_text.
  apply andb_false_intro2. apply orb_false_intro.
  - change ("obs:" +:+ h +:+ t) with (String "o" (String "b" (String "s" (String ":" (h +:+ t))))).
    assert (E : after_scheme (String "o" (String "b" (String "s" (String ":" (h +:+ t))))) = None).
    { cbn [after_scheme]. change (starts_with "://" (String "o" (String "b" (String "s" (String ":" (h +:+ t)))))) with false.
      change (starts_with "://" (String "b" (String "s" (String ":" (h +:+ t))))) with false.
      change (starts_with "://" (String "s" (String ":" (h +:+ t)))) with false. cbv iota.
      assert (E : starts_with "://" (String ":" (h +:+ t)) = false).
      { destruct h as [|c h]; [by destruct Ht as [->| ->]|]. cbn in Hh. apply andb_prop in Hh as [Hc _].
        cbn [String.append]. rewrite !starts_cons. destruct (low_hex_sep _ Hc) as (_ & _ & ->). apply andb_false_r. }
      rewrite E. by apply no_scheme. }
    rewrite E. reflexivity.
  - unfold ends_with. change (rev_string ".pcap") with "pacp.". unfold rev_string. rewrite !rev_sapp. destruct Ht as [->| ->]; [|reflexivity].
    change (String.rev "") with "". cbn [String.append]. destruct (String.rev h) as [|c r] eqn:E; [reflexivity|].
    assert (Hc : low_hex c = true).
    { assert (Hr : string_forallb low_hex (String.rev h) = true).
      { clear E. induction h as [|d h IH]; [done|]. cbn in Hh. apply andb_prop in Hh as [Hd Hh]. rewrite rev_cons, forallb_sapp, (IH Hh). cbn. by rewrite Hd. }
      rewrite E in Hr. cbn in Hr. by apply andb_prop in Hr as [? _]. }
    cbn [String.append]. change (starts_with "pacp." (String c (r +:+ String.rev "obs:")) = false). rewrite starts_cons.
    by destruct (low_hex_sep _ Hc) as (_ & -> & _).
Qed.

Section theorems.
Context (loads : string → option val) (repr dumps : val → string) (digest : obl_key → string).

Lemma head_filter {A} (p : A → bool) l x : head (List.filter p l) = Some x → x ∈ l ∧ p x = true.
Proof.
  intros H. apply elem_filter. destruct (List.filter p l) as [|y ys]; [done|]. injection H as ->. left.
Qed.
Lemma first_ref_in p refs v : first_ref p refs = Ok v → v = VNone ∨ p v = true ∧ ∃ l, as_list refs = Ok l ∧ v ∈ l.
Proof.
  unfold first_ref. intros H. apply bind_ok_inv in H as (l & Hl & [= <-]). destruct (head _) as [v|] eqn:E; [|by left]. cbn.
  apply head_filter in E as [Hin Hp]. right. eauto.
Qed.
(** Every export carries every pivot under the product's name, absent ones as null; a packet
    capture that was taken from the evidence references is one of them and looks like a
    capture, an observation likewise. *)
Theorem pivots_complete f p :
  pivot loads f = Ok p →
  p.*1 = CIM_MAP.*1 ∧ to_cim loads f = Ok (zip CIM_MAP.*2 p.*2) ∧ to_ecs loads f = Ok (zip ECS_MAP.*2 p.*2) ∧
  dgetN "finding_id" p = dgetN "finding_id" f ∧
  (truthy (dgetN "pcap_evidence_id" f) = false → dgetN "pcap_evidence_id" p = VNone ∨
     _is_capture_ref (dgetN "pcap_evidence_id" p) = true ∧ ∃ l, as_list (py_or (dgetN "evidence_refs" f) (VList [])) = Ok l ∧ dgetN "pcap_evidence_id" p ∈ l) ∧
  (truthy (dgetN "observation_id" f) = false → _source_events f = Ok [] → dgetN "observation_id" p = VNone ∨
     _is_obs_ref (dgetN "observation_id" p) = true ∧ ∃ l, as_list (py_or (dgetN "evidence_refs" f) (VList [])) = Ok l ∧ dgetN "observation_id" p ∈ l).
Proof.
  intros H. unfold to_cim, to_ecs. rewrite H. unfold pivot in H. apply bind_ok_inv in H as (ents & _ & H).
  apply bind_ok_inv in H as (se & Hse & H). apply bind_ok_inv in H as (point & _ & H). apply bind_ok_inv in H as (obs & Ho & H).
  apply bind_ok_inv in H as (pcap & Hp & H). injection H as <-. split_and!; try reflexivity.
  - intros Hn. unfold or_else in Hp. rewrite Hn in Hp. by apply first_ref_in.
  - intros Hn Hs. rewrite Hs in Hse. injection Hse as <-. unfold or_else, py_or in Ho. rewrite Hn in Ho. by apply first_ref_in.
Qed.

Lemma dget_merged k a b : k ∉ b.*1 → dget k (merged a b) = dget k a.
Proof.
  unfold merged. revert a. induction b as [|[k' v] b IH]; intros a Hk; cbn; [done|]. cbn in Hk. apply not_elem_of_cons in Hk as [H1 H2].
  rewrite (IH _ H2). by apply dget_dset_ne.
Qed.
Lemma dget_zip_names k (ks : list string) vs : k ∉ ks → k ∉ (zip ks vs : dict).*1.
Proof. intros H Hin. apply list_elem_of_fmap in Hin as ([k' v] & -> & Hin). apply elem_of_zip_l in Hin. done. Qed.
(** The document keeps every field of the record that is not one of the pivots' names. *)
Lemma ecs_keeps d ecs k : to_ecs loads d = Ok ecs → k ∉ ECS_MAP.*2 → dget k (merged d ecs) = dget k d.
Proof.
  intros H Hk. apply dget_merged. destruct (pivot loads d) as [p|e] eqn:Hp; [|unfold to_ecs in H; by rewrite Hp in H].
  destruct (pivots_complete _ _ Hp) as (_ & _ & He & _). rewrite He in H. apply Ok_inj in H. subst ecs. by apply dget_zip_names.
Qed.

(** *** Document identities *)

Lemma append_cancel_r (a b s : string) : a +:+ s = b +:+ s → a = b.
Proof.
  revert b. induction a as [|c a IH]; intros [|d b] H; [done| | |].
  - exfalso. apply (f_equal String.length) in H. cbn in H. rewrite slength_app in H. lia.
  - exfalso. apply (f_equal String.length) in H. cbn in H. rewrite slength_app in H. lia.
  - injection H as -> H. by rewrite (IH _ H).
Qed.
Definition lacks (c : ascii) (s : string) : bool := string_forallb (λ d, negb (Ascii.eqb c d)) s.
Lemma last_sep_inj c a b x y : lacks c x = true → lacks c y = true → a +:+ String c x = b +:+ String c y → a = b ∧ x = y.
Proof.
  intros Hx Hy. assert (N : ∀ u z, lacks c (u +:+ String c z) = false).
  { intros u z. unfold lacks. rewrite forallb_sapp. cbn. by rewrite Ascii.eqb_refl, andb_false_r. }
  revert b. induction a as [|d a IH]; intros [|e b] H; cbn in H; [by injection H| | |].
  - injection H as <- ->. by rewrite N in Hx.
  - injection H as -> <-. by rewrite N in Hy.
  - injection H as -> H. destruct (IH _ H) as [-> ->]. done.
Qed.
Lemma pretty_lacks_r (z : Z) : lacks "r" (pretty z) = true.
Proof. eapply forallb_weaken; [|apply pretty_field]. intros c Hc. apply negb_true_iff. apply Ascii.eqb_neq. intros <-. discriminate Hc. Qed.
(** Two tenants that share a finding id get two documents, and so do two revisions; the same
    revision of a tenant's finding always gets the same one. *)
Theorem documents_scoped d d' t t' id r r' :
  record_kind d = Ok "finding" → record_kind d' = Ok "finding" →
  dgetN "tenant_id" d = VStr t → dgetN "tenant_id" d' = VStr t' → str_truthy t = true → str_truthy t' = true →
  dgetN "finding_id" d = VStr id → dgetN "finding_id" d' = VStr id → dgetN "revision" d = VInt r → dgetN "revision" d' = VInt r' →
  _doc_id repr digest d = _doc_id repr digest d' ↔ t = t' ∧ r = r'.
Proof.
  intros K K' T T' Ht Ht' F F' R R'. unfold _doc_id, py_or. rewrite K, K', T, T', F, F', R, R'. cbn [mbind res_bind negb String.eqb Ascii.eqb Bool.eqb truthy].
  rewrite Ht, Ht'. change (py_str repr (VStr t)) with t. change (py_str repr (VStr t')) with t'. change (py_str repr (VStr id)) with id.
  change (py_str repr (VInt r)) with (pretty r). change (py_str repr (VInt r')) with (pretty r'). split; [|by intros [-> ->]]. intros H.
  assert (E : (t +:+ ":" +:+ id +:+ ":") +:+ String "r" (pretty r) = (t' +:+ ":" +:+ id +:+ ":") +:+ String "r" (pretty r')).
  { rewrite !sapp_assoc in *. by injection H. }
  apply last_sep_inj in E as [E1 E2]; [|apply pretty_lacks_r..]. split.
  - by eapply append_cancel_r.
  - assert (P := f_equal parse_int E2). rewrite !parse_int_pretty_Z in P. by injection P.
Qed.

(** *** Bulk requests *)

(** The reply answers every record of the request, in order. *)
Definition lined_up (n : nat) (reply : val) (items : list val) : Prop :=
  ∃ d, reply = VDict d ∧ dgetN "items" d = VList items ∧ length items = n.
Definition acked (item : val) : Prop :=
  ∃ d o n, item = VDict d ∧ py_or (py_or (dgetN "index" d) (dgetN "create" d)) (dgetN "update" d) = VDict o ∧
    dgetN "status" o = VInt n ∧ 200 <= n < 300 ∧ truthy (dgetN "error" o) = false.
Lemma item_failed_spec item : item_failed item = false ↔ acked item.
Proof.
  unfold acked. split.
  - destruct item as [| | | | | |d]; try done. cbn. destruct (py_or _ _) as [| | | | | |o] eqn:Eo; try done. destruct (dgetN "status" o) as [| |n| | | |] eqn:Es; try done.
    intros H. to_prop. exists d, o, n. split_and!; try done; lia.
  - intros (d & o & n & -> & Ho & Hn & Hr & He). cbn. rewrite Ho, Hn, He. apply orb_false_iff. split; [|done].
    apply negb_false_iff, andb_true_iff. split; [apply Z.leb_le|apply Z.ltb_lt]; lia.
Qed.
Lemma flagged_all want n fs : (length fs <= n)%nat → flagged want (replicate n want) fs = fs.
Proof.
  revert n. induction fs as [|f fs IH]; intros [|n] H; cbn in *; [done..|lia|]. rewrite Bool.eqb_reflx. cbn. f_equal. apply IH. lia.
Qed.
Lemma flagged_items fs items f : length items = length fs →
  f ∈ flagged true (item_failed <$> items) fs ↔ ∃ item, (f, item) ∈ zip fs items ∧ ¬ acked item.
Proof.
  revert items. induction fs as [|g fs IH]; intros [|item items] H; try discriminate; cbn [fmap list_fmap flagged zip zip_with].
  - split; [by intros ?%elem_of_nil|intros (? & []%elem_of_nil & _)].
  - injection H as H. cbn [head default tail]. rewrite elem_of_app, (IH _ H). setoid_rewrite elem_of_cons.
    pose proof (item_failed_spec item) as Hs. destruct (item_failed item) eqn:E; cbn.
    + rewrite list_elem_of_singleton. split.
      * intros [->|(i & Hi & Hn)]; [exists item; split; [by left|]; by intros ?%Hs|exists i; auto].
      * intros (i & [[= -> ->]|Hi] & Hn); [by left|right; eauto].
    + split.
      * intros [[]%elem_of_nil|(i & Hi & Hn)]. exists i. auto.
      * intros (i & [[= -> ->]|Hi] & Hn); [by destruct Hn; apply Hs|right; eauto].
Qed.
(** C33. A bulk request describes the batch and its reply settles it.  The request has one
    entry per record of the batch that is not a suppressed finding, in order: under the
    record's document identity, a document that keeps every field outside the pivots' names.
    What is reported as failed is then every record when the reply does not answer each of
    them, and otherwise exactly the records whose item is not an acknowledgement with a
    success status and no error; so no record counts as delivered without one. *)
Theorem bulk_settles_exactly index fs entries :
  es_request loads repr digest index fs = Ok (Some entries) →
  ∃ live, _live fs = Ok live ∧ (∀ f, f ∈ live ↔ f ∈ fs ∧ is_live f = Ok true) ∧
    Forall2 (λ f e, ∃ d id, _doc f = Ok d ∧ _doc_id repr digest d = Ok id ∧
      e.1 = VDict [("index", VDict [("_index", VStr index); ("_id", VStr id)])] ∧ ∀ k, k ∉ ECS_MAP.*2 → dget k e.2 = dget k d) live entries ∧
    ∀ reply failed, es_failed fs reply = Ok failed →
      (∀ items, lined_up (length live) reply items → ∀ f, f ∈ failed ↔ ∃ item, (f, item) ∈ zip live items ∧ ¬ acked item) ∧
      ((∀ items, ¬ lined_up (length live) reply items) → failed = live).
Proof.
  unfold es_request. intros H. apply bind_ok_inv in H as (live & Hl & H). exists live. split; [done|]. split; [by apply live_spec|]. split.
  - destruct live as [|f0 live]; [discriminate|]. apply bind_ok_inv in H as (es & He & H). apply Ok_inj in H. injection H as <-.
    apply each_ok_spec in He. eapply Forall2_impl; [exact He|]. intros f e H. cbn beta in H. unfold bulk_entry in H.
    apply bind_ok_inv in H as (d & Hd & H). apply bind_ok_inv in H as (ecs & Hecs & H). apply bind_ok_inv in H as (id & Hid & H).
    apply Ok_inj in H. subst e. exists d, id. split_and!; [done..|]. intros k Hk. by apply ecs_keeps.
  - intros reply failed Hf. unfold es_failed in Hf. rewrite Hl in Hf. cbn [mbind res_bind] in Hf. apply Ok_inj in Hf. subst failed. split.
    + intros items (d & -> & Hi & Hlen) f. unfold _failed_items. rewrite Hi, Hlen, Nat.eqb_refl. by apply flagged_items.
    + intros Hn. assert (E : _failed_items (length live) reply = replicate (length live) true); [|rewrite E; by apply flagged_all].
      unfold _failed_items. destruct reply as [| | | | | |d]; try done. destruct (dgetN "items" d) as [| | | | |items|] eqn:Hi; try done.
      destruct (Nat.eqb_spec (length items) (length live)) as [Hlen|]; [|done]. exfalso. apply (Hn items). by exists d.
Qed.
End theorems.

Definition es_finding (id state : string) : dict :=
  [("finding_id", VStr id); ("tenant_id", VStr "acme"); ("revision", VInt 1); ("state", VStr state); ("first_seen", VStr "2026-01-02 03:04:05");
   ("evidence_refs", VList [VStr "f-other"; VStr "ndr-pcap/acme/x.pcap"])].
Definition es_batch : list dict := [es_finding "f1" "FINAL"; es_finding "f2" "SUPPRESSED"; es_finding "f3" "FINAL"].
Definition es_reply : val :=
  VDict [("errors", VBool true); ("items", VList [VDict [("index", VDict [("status", VInt 201)])]; VDict [("index", VDict [("status", VInt 429)])]])].
(** The ids of tenants and findings that contain a colon can meet. *)
Example colons_meet :
  _doc_id (λ _, "?") (λ _, "") [("tenant_id", VStr "a"); ("finding_id", VStr "b:c")] =
  _doc_id (λ _, "?") (λ _, "") [("tenant_id", VStr "a:b"); ("finding_id", VStr "c")].
Proof. vm_compute. reflexivity. Qed.
Example rotates :
  let emit := file_emit (λ _, "12345") 10 in
  let s := (emit es_batch (emit es_batch {| sf_lines := None; sf_old := None |}).1).1 in
  (length <$> sf_lines s, length <$> sf_old s) = (Some 2%nat, Some 2%nat).
Proof. vm_compute. reflexivity. Qed.
Lemma bulk_settles_exactly_witness :
  ∃ entries failed, es_request (λ _, None) (λ _, "?") (λ _, "") "ndr" es_batch = Ok (Some entries) ∧ length entries = 2%nat ∧
    es_failed es_batch es_reply = Ok failed ∧ es_finding "f3" "FINAL" ∈ failed ∧ es_finding "f1" "FINAL" ∉ failed.
Proof.
  destruct (es_request (λ _, None) (λ _, "?") (λ _, "") "ndr" es_batch) as [[entries|]|] eqn:E; [|vm_compute in E; discriminate..].
  destruct (es_failed es_batch es_reply) as [failed|] eqn:Ef; [|vm_compute in Ef; discriminate].
  destruct (bulk_settles_exactly _ _ _ _ _ _ E) as (live & Hl & _ & He & Hr). exists entries, failed.
  vm_compute in Hl. injection Hl as <-. destruct (Hr es_reply failed Ef) as [H _].
  specialize (H [VDict [("index", VDict [("status", VInt 201)])]; VDict [("index", VDict [("status", VInt 429)])]]).
  assert (L : lined_up 2 es_reply [VDict [("index", VDict [("status", VInt 201)])]; VDict [("index", VDict [("status", VInt 429)])]]) by (eexists; by split_and!).
  split; [done|]. split; [by rewrite <- (Forall2_length _ _ _ He)|]. split; [done|]. rewrite !(H L). split.
  - exists (VDict [("index", VDict [("status", VInt 429)])]). split; [right; left|]. rewrite <- item_failed_spec. discriminate.
  - intros (item & Hin & Hn). apply Hn, item_failed_spec. cbn in Hin. rewrite !elem_of_cons, elem_of_nil in Hin.
    destruct Hin as [Hi|[Hi|[]]]; injection Hi; intros; subst; [reflexivity|discriminate].
Defined.
