(* ===== verification/SoarPlaybook.v ===== *)
(** * Response playbooks (services/soar-forwarder/playbook.py, app.py)

    Every final finding gets a playbook: its actions and a notification.  The record of it
    goes to a topic; a notification and a hand-off to an external system are attempted when
    they are configured, and may fail.

    [loads] is [json.loads] on a text, [repr] the text of containers and floats. *)

From S2P Require Import Prelude Order PyVal PyString Cef.
Set Default Proof Using "Type".

Definition _priority (sev : Z) : Z := if 9 <=? sev then 5 else if 7 <=? sev then 4 else if 4 <=? sev then 3 else 2.
(** [int(f.get("severity", 0) or 0)] *)
Definition severity_of (f : dict) : res Z := py_int (py_or (dget_or "severity" (VInt 0) f) (VInt 0)).

Section playbook.
Context (loads : string → option val) (repr : val → string).

Definition structured_ndpi (f : dict) : bool := val_eq_str (dgetN "detector_id" f) "ndpi_risk" && val_eq_str (dgetN "detector_version" f) "2.0".
Definition _ndpi_soar_ineligible (f : dict) : res bool :=
  if negb (structured_ndpi f) then Ok false
  else sev ← severity_of f; Ok (negb ((6 <=? sev) && val_in_strs (dgetN "category" f) ["anomaly"; "exploit"])).
Definition when_act (b : bool) (a : string) : list string := if b then [a] else [].
Definition actions_for (f : dict) : res (list string) :=
  out ← _ndpi_soar_ineligible f;
  if out : bool then Ok []
  else
    sev ← severity_of f;
    Ok (["notify"] ++ when_act (val_eq_str (dgetN "detector_id" f) "correlation_incident") "escalate_incident" ++
        when_act (7 <=? sev) "contain_sim" ++ when_act (val_eq_str (dgetN "enrichment_state" f) "ENRICHMENT_FAILED") "flag_review" ++
        when_act (val_eq_str (dgetN "category" f) "recon") "watchlist_source").
(** [", ".join] of the entities' values, which must be texts. *)
Definition text_value (e : dict) : res string := match dget_or "value" (VStr "?") e with VStr s => Ok s | _ => Raise TypeError end.
Fixpoint all_texts (es : list val) : res (list string) :=
  match es with
  | [] => Ok []
  | VDict d :: es => s ← text_value d; ss ← all_texts es; Ok (s :: ss)
  | _ :: es => all_texts es
  end.
Definition who_of (ents : val) : res string :=
  parsed ← match ents with VStr s => match loads s with Some v => Ok v | None => Raise ValueError end | v => Ok v end;
  l ← as_list (py_or parsed (VList []));
  ss ← all_texts l;
  Ok (join ", " ss).
Record note := { n_title : string; n_priority : Z; n_tags : list val; n_message : string }.
Definition notification (f : dict) : res note :=
  who ← match who_of (dget_or "entities" (VStr "") f) with
        | Ok w => Ok w
        | Raise ValueError | Raise TypeError => Ok "?"
        | Raise e => Raise e
        end;
  sev ← severity_of f;
  tags ← match py_or (dgetN "mitre" f) (VList []) with VList l => Ok l | _ => Raise TypeError end;
  Ok {| n_title := "NDR " +:+ py_str repr (dget_or "category" (VStr "?") f) +:+ ": " +:+ py_str repr (dget_or "detector_id" (VStr "?") f);
        n_priority := _priority sev; n_tags := tags ++ [dget_or "category" (VStr "") f];
        n_message := "finding " +:+ py_str repr (dgetN "finding_id" f) +:+ " sev=" +:+ pretty sev +:+ " conf=" +:+ py_str repr (dgetN "confidence" f) +:+
          " entities=[" +:+ who +:+ "] state=" +:+ py_str repr (dgetN "state" f) +:+ "/" +:+ py_str repr (dgetN "enrichment_state" f) |}.
Record result := { r_finding : val; r_actions : list string; r_note : note }.
Definition playbook (f : dict) : res result :=
  acts ← actions_for f; n ← notification f; Ok {| r_finding := dgetN "finding_id" f; r_actions := acts; r_note := n |}.

(** ** The process (app.py) *)

(** What left the process: records of the action topic, and requests made to the outside. *)
Record soar := { so_records : list result; so_notified : list note; so_handed : list result }.
(** [ntfy] and [webhook] say what is configured.  A request that fails is logged and forgotten. *)
Context (ntfy webhook : bool).
Definition respond (f : dict) (s : soar) : res soar :=
  r ← playbook f;
  Ok {| so_records := so_records s ++ [r];
        so_notified := so_notified s ++ (if ntfy && mem "notify" (r_actions r) then [r_note r] else []);
        so_handed := so_handed s ++ (if webhook && match r_actions r with [] => false | _ => true end then [r] else []) |}.
Fixpoint respond_all (fs : list dict) (s : soar) : res soar :=
  match fs with [] => Ok s | f :: fs => s ← respond f s; respond_all fs s end.
Definition idle : soar := {| so_records := []; so_notified := []; so_handed := [] |}.

(** ** Facts *)

(** Structured classifications get automatic effects only as suspected threats: of severity
    6 or more, categorised as an anomaly or an exploit. *)
Definition eligible (f : dict) (sev : Z) : Prop :=
  structured_ndpi f = true → 6 <= sev ∧ (dgetN "category" f = VStr "anomaly" ∨ dgetN "category" f = VStr "exploit").
Definition action_due (f : dict) (sev : Z) (a : string) : Prop :=
  a = "notify" ∨ (a = "escalate_incident" ∧ dgetN "detector_id" f = VStr "correlation_incident") ∨ (a = "contain_sim" ∧ 7 <= sev) ∨
  (a = "flag_review" ∧ dgetN "enrichment_state" f = VStr "ENRICHMENT_FAILED") ∨ (a = "watchlist_source" ∧ dgetN "category" f = VStr "recon").
Lemma ineligible_spec f sev b : severity_of f = Ok sev → _ndpi_soar_ineligible f = Ok b → b = false ↔ eligible f sev.
Proof.
  clear. intros Hs. unfold _ndpi_soar_ineligible, eligible. rewrite Hs. destruct (structured_ndpi f); cbn [negb mbind res_bind]; [|by intros [= <-]].
  intros [= <-]. rewrite negb_false_iff, andb_true_iff, Z.leb_le. cbn [val_in_strs existsb]. rewrite !orb_true_iff, !val_eq_str_true. naive_solver.
Qed.
Lemma when_act_in b x a : a ∈ when_act b x ↔ a = x ∧ b = true.
Proof. clear. destruct b; cbn; rewrite ?list_elem_of_singleton, ?elem_of_nil; naive_solver. Qed.
Theorem actions_exact f sev acts :
  severity_of f = Ok sev → actions_for f = Ok acts →
  (eligible f sev ∧ ∀ a, a ∈ acts ↔ action_due f sev a) ∨ (¬ eligible f sev ∧ acts = []).
Proof.
  intros Hs H. unfold actions_for in H. rewrite Hs in H. apply bind_ok_inv in H as (b & Hb & H).
  pose proof (ineligible_spec _ _ _ Hs Hb) as Hi. destruct b; injection H as <-.
  - right. split; [|done]. rewrite <- Hi. done.
  - left. split; [by apply Hi|]. intros a. rewrite elem_of_cons, !elem_of_app, !when_act_in, !val_eq_str_true, Z.leb_le. unfold action_due. done.
Qed.
(** Every finding leaves one record of its playbook, whatever the outside answers; and only
    eligible findings ever reach it. *)
Theorem responses_exact fs s s' :
  respond_all fs s = Ok s' →
  ∃ rs, Forall2 (λ f r, playbook f = Ok r) fs rs ∧ so_records s' = so_records s ++ rs ∧
    (∀ n, n ∈ so_notified s' → n ∈ so_notified s ∨ ntfy = true ∧ ∃ f r sev, f ∈ fs ∧ playbook f = Ok r ∧ r_note r = n ∧ severity_of f = Ok sev ∧ eligible f sev) ∧
    (∀ r, r ∈ so_handed s' → r ∈ so_handed s ∨ webhook = true ∧ ∃ f sev, f ∈ fs ∧ playbook f = Ok r ∧ severity_of f = Ok sev ∧ eligible f sev).
Proof.
  assert (P : ∀ f r, playbook f = Ok r → r_actions r ≠ [] → ∃ sev, severity_of f = Ok sev ∧ eligible f sev).
  { intros f r H Hn. unfold playbook in H. apply bind_ok_inv in H as (acts & Ha & H). apply bind_ok_inv in H as (n & Hnote & [= <-]). cbn in Hn.
    unfold notification in Hnote. apply bind_ok_inv in Hnote as (w & _ & Hnote). apply bind_ok_inv in Hnote as (sev & Hs & _).
    exists sev. split; [done|]. by destruct (actions_exact _ _ _ Hs Ha) as [[He _]|[_ ->]]. }
  revert s. induction fs as [|f fs IH]; intros s H; cbn in H; [injection H as <-; exists []; split_and!; [constructor|by rewrite app_nil_r|auto..]|].
  apply bind_ok_inv in H as (s1 & H1 & H). apply bind_ok_inv in H1 as (r & Hr & [= <-]). destruct (IH _ H) as (rs & Hf & Hrec & Hn & Hh).
  cbn [so_records so_notified so_handed] in *. exists (r :: rs). split_and!.
  - by constructor.
  - by rewrite Hrec, <- app_assoc.
  - intros n Hin. destruct (Hn n Hin) as [Hold|(Hnt & g & r' & sev & Hg & Hrest)].
    + apply elem_of_app in Hold as [Hold|Hold]; [by left|]. right. destruct (ntfy && mem "notify" (r_actions r)) eqn:E; [|by apply elem_of_nil in Hold].
      apply list_elem_of_singleton in Hold as ->. apply andb_prop in E as [En Em]. apply mem_true in Em. split; [done|].
      destruct (P f r Hr) as (sev & Hs & He); [intros En'; rewrite En' in Em; by apply elem_of_nil in Em|]. exists f, r, sev. split; [left|done].
    + right. split; [done|]. exists g, r', sev. split; [by right|done].
  - intros r0 Hin. destruct (Hh r0 Hin) as [Hold|(Hw & g & sev & Hg & Hrest)].
    + apply elem_of_app in Hold as [Hold|Hold]; [by left|]. right. destruct (webhook && _) eqn:E; [|by apply elem_of_nil in Hold].
      apply list_elem_of_singleton in Hold as ->. apply andb_prop in E as [Ew Ea]. split; [done|].
      destruct (P f r Hr) as (sev & Hs & He); [by intros En'; rewrite En' in Ea|]. exists f, sev. split; [left|done].
    + right. split; [done|]. exists g, sev. split; [by right|done].
Qed.
End playbook.

Definition quiet_ndpi : dict :=
  [("finding_id", VStr "n1"); ("detector_id", VStr "ndpi_risk"); ("detector_version", VStr "2.0"); ("category", VStr "policy"); ("severity", VInt 9)].
Definition loud_c2 : dict :=
  [("finding_id", VStr "c1"); ("detector_id", VStr "beacon"); ("category", VStr "c2"); ("severity", VInt 8); ("mitre", VList [VStr "T1071"]);
   ("entities", VList [VDict [("value", VStr "10.0.0.5")]; VDict [("value", VInt 3)]])].
Example responses :
  match respond_all (λ _, None) (λ _, "?") true true [quiet_ndpi; loud_c2] idle with
  | Ok s => (length (so_records s), length (so_notified s), r_actions <$> so_handed s) = (2%nat, 1%nat, [["notify"; "contain_sim"]])
  | Raise _ => False
  end.
Proof. vm_compute. reflexivity. Qed.
(** A technique that is a text and no list ends the process. *)
Example mitre_text_raises : playbook (λ _, None) (λ _, "?") (dset "mitre" (VStr "T1071") loud_c2) = Raise TypeError.
Proof. vm_compute. reflexivity. Qed.
