(* ===== verification/SlipsAdapter.v ===== *)
(** * SLIPS: its alerts and what it reads (services/slips-adapter, services/eve-bridge)

    SLIPS writes its alerts, one JSON object a line, to a file the adapter follows; each
    alert becomes a candidate tagged by what detected it (slips_map.py, app.py).  The bridge
    that writes the file SLIPS reads is at the end.

    [hash] is the number the first hexadecimal digits of the SHA-1 of a text make, [loads]
    is [json.loads] on a text, [dumps] the text of JSON, [repr] that of containers and
    floats.  Clock readings are microseconds. *)

From stdpp Require Import relations.
From S2P Require Import Prelude Order PyVal PyString IsoTime BehavioralScores ProtocolDetectors.
Set Default Proof Using "Type".

(** ** From an alert to a candidate (slips_map.py) *)

Definition _THREAT_SEV : list (string * Z) := [("info", 3); ("low", 4); ("medium", 6); ("high", 8); ("critical", 9)].
Definition _DEFAULT_TL : string := "info".
Definition _CAT : list (string * (string * list string)) :=
  [("Recon", ("recon", ["T1046"])); ("Attempt", ("bruteforce", ["T1110"])); ("Intrusion", ("c2", ["T1071"]));
   ("Malware", ("c2", ["T1071"])); ("Exfiltration", ("exfil", ["TA0010"])); ("Anomaly", ("anomaly", []))].
Definition _NON_ML_MODULES : list string :=
  ["threatintel"; "blacklist"; "riskiq"; "spamhaus"; "abuse.ch"; "cesnet"; "urlhaus"; "whitelist"].
Definition _ML_MODULES : list string := ["flowml"; "flowmldetection"; "rnn_cc"; "rnn"; "cc_detection"].

(** The first element, as [v[0]] of a truthy value. *)
Definition item_0 (v : val) : res val :=
  match v with
  | VList (x :: _) => Ok x
  | VStr (String c _) => Ok (VStr (String c ""))
  | VDict _ => Raise KeyError
  | _ => Raise TypeError
  end.
(** The address of a node, IPv4 first. *)
Definition node_ip (node : val) : res (option val) :=
  d ← as_dict node;
  if truthy (dgetN "IP4" d) then v ← item_0 (dgetN "IP4" d); Ok (Some v)
  else if truthy (dgetN "IP6" d) then v ← item_0 (dgetN "IP6" d); Ok (Some v)
  else Ok None.
Fixpoint nodes_ip (nodes : list val) : res val :=
  match nodes with
  | [] => Ok VNone
  | n :: ns => r ← node_ip n; match r with Some v => Ok v | None => nodes_ip ns end
  end.
Definition _first_ip (nodes : val) : res val := l ← as_list (py_or nodes (VList [])); nodes_ip l.

Section mapping.
Context (hash : string → Z) (loads : string → option val) (dumps repr : val → string).

Definition _threat_level (alert : dict) : string :=
  let tl := lower (py_str repr (py_or (dgetN "threat_level" alert) (VStr ""))) in
  if mem tl _THREAT_SEV.*1 then tl else _DEFAULT_TL.
(** The first segment of the first category, which must be a text. *)
Definition _category (alert : dict) : res (string * list string) :=
  let cats := py_or (dgetN "Category" alert) (VList []) in
  first ← (if truthy cats then item_0 cats else Ok (VStr ""));
  match first with
  | VStr s => Ok (default ("anomaly", []) (assoc (hd "" (split_char "." s)) _CAT))
  | _ => Raise AttributeError
  end.
(** [s.replace(" ", "T")], and the text without the characters at its end. *)
Definition rstrip (c : ascii) (s : string) : string := rev_string (lstrip (Ascii.eqb c) (rev_string s)).
Definition _idea_time (alert : dict) : option string :=
  let t := py_or (dgetN "DetectTime" alert) (dgetN "CreateTime" alert) in
  if truthy t then
    let s := string_map (λ c, if Ascii.eqb c " " then "T"%char else c) (py_str repr t) in
    Some (take_chars 19 (rstrip "Z" (hd "" (split_char "+" (hd "" (split_char "." s))))) +:+ "Z")
  else None.
Definition _module (alert : dict) : string :=
  let m := py_or (dgetN "module" alert) (dgetN "by" alert) in
  if truthy m then py_str repr m
  else
    let text := lower (py_str repr (dget_or "Note" (VStr "") alert) +:+ " " +:+ py_str repr (dget_or "Description" (VStr "") alert)) in
    default "" (head (List.filter (λ tok, contains tok text) (_NON_ML_MODULES ++ _ML_MODULES))).
Definition names_one_of (toks : list string) (m : string) : bool := existsb (λ tok, contains tok m) toks.
Definition classify_module (module : string) : string * bool :=
  let m := lower module in
  if names_one_of _NON_ML_MODULES m then ("slips_intel", false)
  else if names_one_of _ML_MODULES m then ("slips_ml", true)
  else ("slips_alert", false).
Definition is_ml_evidence (module : string) : bool := (classify_module module).2.
(** The confidence that is stated, if it is a finite number, clamped. *)
Definition confidence_of (raw : val) : res float :=
  match py_float raw with
  | Ok f => Ok (fmin (fmax (if is_finite f then f else lit "0.7") (lit "0")) (lit "1"))
  | Raise TypeError | Raise ValueError => Ok (fmin (fmax (lit "0.7") (lit "0")) (lit "1"))
  | Raise e => Raise e
  end.
Definition etype_of (detector : string) : string := default "slips" (assoc detector [("slips_ml", "ml"); ("slips_intel", "intel")]).
Definition alert_to_candidate (v : val) (tenant : string) (now : Z) : res (option dict) :=
  alert ← as_dict v;
  attacker ← _first_ip (dgetN "Source" alert);
  if negb (truthy attacker) then Ok None
  else
    victim ← _first_ip (dgetN "Target" alert);
    let tl := _threat_level alert in
    '(category, mitre) ← _category alert;
    conf ← confidence_of (dgetN "Confidence" alert);
    let desc := py_or (py_or (dgetN "Description" alert) (dgetN "Note" alert)) (VStr "SLIPS behavioral alert") in
    let aid := py_str repr (py_or (dgetN "ID" alert) (VInt (hash (py_str repr attacker +:+ ":" +:+ py_str repr (dget_or "DetectTime" (VStr "") alert) +:+ ":" +:+
                                                                  py_str repr desc)))) in
    let module := _module alert in
    let detector := (classify_module module).1 in
    let ents := [ip_entity "attacker" attacker] ++ (if truthy victim then [ip_entity "victim" victim] else []) ++
                [VDict [("type", VStr (etype_of detector)); ("source", VStr "slips"); ("module", VStr module); ("threat_level", VStr tl); ("description", desc)]] in
    let seen := VStr (default (emitted_text now) (_idea_time alert)) in
    Ok (Some ([("finding_id", VStr ("slips-" +:+ aid)); ("tenant_id", VStr tenant); ("detector_id", VStr detector); ("detector_version", VStr "1.0");
               ("category", VStr category); ("severity", VInt (default 0 (assoc tl _THREAT_SEV))); ("confidence", VFloat conf);
               ("first_seen", seen); ("last_seen", seen); ("entities", VStr (dumps (VList ents))); ("state", VStr "CANDIDATE")] ++
              match mitre with [] => [] | _ => [("mitre", VList (VStr <$> mitre))] end)).

(** ** Lines (app.py) *)

Definition _parse (line : string) : option val :=
  let s := rstrip "," (strip line) in
  if negb (str_truthy s) || mem s ["["; "]"] then None else loads s.
(** A line's candidate: what is no alert, or raises, is skipped. *)
Definition line_candidate (tenant : string) (now : Z) (line : string) : option dict :=
  match _parse line with
  | Some alert => if truthy alert then match alert_to_candidate alert tenant now with Ok c => c | Raise _ => None end else None
  | None => None
  end.
Definition adapt (tenant : string) (lines : list (string * Z)) : list dict := omap (λ lt : string * Z, line_candidate tenant lt.2 lt.1) lines.
End mapping.

(** ** Following the file (app.py, [follow])

    The path names one of the files that were ever there; the reader holds a file and a
    position in it, which names what it reads whatever the path names now. *)

(** The file is read as text: a line ends at a line feed, a carriage return, or the two in
    this order, and is handed over with a line feed at its end; the last one may have no end
    yet.  With the line, the number of characters it takes in the file. *)
Fixpoint readline (s : string) : string * nat :=
  match s with
  | EmptyString => (EmptyString, 0%nat)
  | String c s =>
      if Ascii.eqb c "010" then (newline, 1%nat)
      else if Ascii.eqb c "013" then (newline, match s with String d _ => if Ascii.eqb d "010" then 2%nat else 1%nat | EmptyString => 1%nat end)
      else let '(l, n) := readline s in (String c l, S n)
  end.
Record reader := { r_file : nat; r_pos : nat }.
Record tail := { t_files : list string; t_path : option nat; t_reader : option reader; t_lines : list string }.
Definition content (i : nat) (t : tail) : string := default "" (t_files t !! i).
(** One turn of the adapter: open at the end, read a line, give the file up, or wait. *)
Definition follow_once (t : tail) : tail :=
  match t_reader t with
  | None =>
      match t_path t with
      | Some i => {| t_files := t_files t; t_path := t_path t; t_reader := Some {| r_file := i; r_pos := String.length (content i t) |}; t_lines := t_lines t |}
      | None => t
      end
  | Some r =>
      let '(line, size) := readline (drop_chars (r_pos r) (content (r_file r) t)) in
      if str_truthy line then
        {| t_files := t_files t; t_path := t_path t; t_reader := Some {| r_file := r_file r; r_pos := r_pos r + size |};
           t_lines := t_lines t ++ [line] |}
      else
        let gone := match t_path t with Some i => (String.length (content i t) <? r_pos r)%nat | None => true end in
        {| t_files := t_files t; t_path := t_path t; t_reader := if gone then None else Some r; t_lines := t_lines t |}
  end.
(** What else happens to the file: text is appended, the path is moved to a new empty file,
    the file is emptied in place. *)
Definition append (s : string) (t : tail) : tail :=
  match t_path t with
  | Some i => {| t_files := alter (λ c, c +:+ s) i (t_files t); t_path := t_path t; t_reader := t_reader t; t_lines := t_lines t |}
  | None => {| t_files := t_files t ++ [s]; t_path := Some (length (t_files t)); t_reader := t_reader t; t_lines := t_lines t |}
  end.
Definition rotate (t : tail) : tail :=
  {| t_files := t_files t ++ [""]; t_path := Some (length (t_files t)); t_reader := t_reader t; t_lines := t_lines t |}.
Definition empty (t : tail) : tail :=
  match t_path t with
  | Some i => {| t_files := <[i := ""]> (t_files t); t_path := t_path t; t_reader := t_reader t; t_lines := t_lines t |}
  | None => t
  end.
Inductive tail_step (t : tail) : tail → Prop :=
| s_follow : tail_step t (follow_once t)
| s_append s : tail_step t (append s t)
| s_rotate : tail_step t (rotate t)
| s_empty : tail_step t (empty t).
(** A file that is only appended to, by whole lines, while the adapter takes [n] turns. *)
Definition whole (s : string) : Prop := s = "" ∨ ∃ u, s = u +:+ newline.
Inductive turns : nat → tail → tail → Prop :=
| turns_done t : turns 0 t t
| turns_follow n t t' : turns n (follow_once t) t' → turns (S n) t t'
| turns_append n s t t' : whole s → t_path t ≠ None → turns n (append s t) t' → turns n t t'.
(** The lines of a text. *)
Fixpoint text_lines (s : string) : list string :=
  match s with
  | EmptyString => []
  | String c s =>
      if Ascii.eqb c "010" then newline :: text_lines s
      else if Ascii.eqb c "013" then
        newline :: match s with String d s' => if Ascii.eqb d "010" then text_lines s' else text_lines s | EmptyString => [] end
      else match text_lines s with [] => [String c ""] | l :: ls => String c l :: ls end
  end.

(** ** Facts *)

Lemma fmax_zero f : f ≠ S754_nan → SFleb (lit "0") (fmax f (lit "0")) = true.
Proof. change (lit "0") with (S754_zero false). intros Hf. unfold fmax, SFleb, SFltb. destruct f as [[]|[]| |[] m e]; done. Qed.
Lemma SFcompare_swap a b : SFcompare b a = option_map CompOpp (SFcompare a b).
Proof.
  destruct a as [sa|[]| |[] ma ea], b as [sb|[]| |[] mb eb]; try done; cbn; f_equal; rewrite (Z.compare_antisym ea eb);
    destruct (ea ?= eb)%Z; try done; cbn; change (Pos.compare_cont Eq mb ma) with (Pos.compare mb ma);
    change (Pos.compare_cont Eq ma mb) with (Pos.compare ma mb); rewrite (Pos.compare_antisym ma mb); by destruct (ma ?= mb)%positive.
Qed.
Lemma SFcompare_num a b : a ≠ S754_nan → b ≠ S754_nan → SFcompare a b ≠ None.
Proof. intros Ha Hb. by destruct a as [|[]| |[]], b as [|[]| |[]]. Qed.
Lemma clamp_bounds f : f ≠ S754_nan →
  SFleb (lit "0") (fmin (fmax f (lit "0")) (lit "1")) = true ∧ SFleb (fmin (fmax f (lit "0")) (lit "1")) (lit "1") = true.
Proof.
  intros Hf. pose proof (fmax_zero f Hf) as Hz. assert (Hm : fmax f (lit "0") ≠ S754_nan) by (intros E; rewrite E in Hz; discriminate Hz).
  unfold fmin. destruct (SFltb (lit "1") (fmax f (lit "0"))) eqn:E; [by split; vm_compute|]. split; [done|].
  unfold SFltb in E. unfold SFleb. rewrite SFcompare_swap.
  pose proof (SFcompare_num (lit "1") _ ltac:(by vm_compute) Hm) as Hc. by destruct (SFcompare (lit "1") _) as [[]|].
Qed.
Lemma confidence_bounds raw f : confidence_of raw = Ok f → SFleb (lit "0") f = true ∧ SFleb f (lit "1") = true.
Proof.
  unfold confidence_of. assert (Hd : lit "0.7" ≠ S754_nan) by (intros E; vm_compute in E; discriminate E).
  destruct (py_float raw) as [g|[]]; try discriminate; intros H; injection H as <-; apply clamp_bounds; try done.
  destruct (is_finite g) eqn:E; [by intros ->|done].
Qed.

(** *** Following *)

Lemma whole_app a b : whole a → whole b → whole (a +:+ b).
Proof.
  intros [->|[u ->]] Hb; [exact Hb|]. destruct Hb as [->|[v ->]]; [rewrite sapp_nil_r; right; by exists u|].
  right. exists ((u +:+ newline) +:+ v). by rewrite !sapp_assoc.
Qed.
Lemma whole_cons c s : whole (String c s) → c = "010"%char ∧ s = "" ∨ whole s ∧ s ≠ "".
Proof.
  intros [|[[|d u] Hu]]; [done|by injection Hu as -> ->; left|]. injection Hu as -> ->. right. split; [right; by exists u|]. by destruct u.
Qed.
Lemma whole_tail c s : whole (String c s) → whole s.
Proof. intros [[_ ->]|[H _]]%whole_cons; [by left|done]. Qed.
(** A line that is read is the first line of what is left, and the others follow it. *)
Lemma readline_first s :
  s ≠ "" → let '(l, n) := readline s in
  str_truthy l = true ∧ (n <= String.length s)%nat ∧ text_lines s = l :: text_lines (drop_chars n s) ∧ (whole s → whole (drop_chars n s)).
Proof.
  induction s as [|c s IH]; [done|]. intros _. cbn [readline]. destruct (Ascii.eqb_spec c "010") as [->|Hc].
  { split_and!; [done|cbn; lia|done|apply whole_tail]. }
  cbn [text_lines]. rewrite (proj2 (Ascii.eqb_neq c "010") Hc). destruct (Ascii.eqb_spec c "013") as [->|Hr].
  { destruct s as [|d s]; [split_and!; [done|cbn; lia|done|apply whole_tail]|]. destruct (Ascii.eqb_spec d "010") as [->|Hd].
    - split_and!; [done|cbn; lia|done|]. by intros H%whole_tail%whole_tail.
    - split_and!; [done|cbn; lia|done|apply whole_tail]. }
  destruct s as [|d s]; [split_and!; [done|cbn; lia|done|by intros [[? _]|[_ ?]]%whole_cons]|].
  specialize (IH ltac:(done)). destruct (readline (String d s)) as [l n]. destruct IH as (_ & Hn & -> & Hw).
  split_and!; [done|cbn in *; lia|done|]. intros H%whole_tail. by apply Hw.
Qed.
Lemma text_lines_app a b : whole a → text_lines (a +:+ b) = text_lines a ++ text_lines b.
Proof.
  assert (Go : ∀ n a, (String.length a <= n)%nat → whole a → text_lines (a +:+ b) = text_lines a ++ text_lines b); [|by eapply Go].
  clear a. induction n as [|n IH]; intros [|c a] Hn Hw; [done|cbn in Hn; lia|done|]. cbn in Hn.
  change (String c a +:+ b) with (String c (a +:+ b)). cbn [text_lines]. destruct (Ascii.eqb_spec c "010") as [->|Hc].
  { cbn. f_equal. apply IH; [lia|by eapply whole_tail]. }
  apply whole_cons in Hw as [[? _]|[Hw Hne]]; [done|]. destruct (Ascii.eqb c "013").
  - destruct a as [|d a]; [done|]. change (String d a +:+ b) with (String d (a +:+ b)). cbn in Hn. cbn [app]. f_equal.
    destruct (Ascii.eqb d "010"); [apply IH; [lia|by eapply whole_tail]|].
    change (String d (a +:+ b)) with (String d a +:+ b). apply IH; [cbn; lia|done].
  - rewrite IH by (done || lia). destruct (readline a) as [l k] eqn:E. pose proof (readline_first a Hne) as H. rewrite E in H.
    destruct H as (_ & _ & -> & _). done.
Qed.
Lemma content_alter i f t t' : t_files t' = alter f i (t_files t) → (i < length (t_files t))%nat → content i t' = f (content i t).
Proof.
  intros E Hi. unfold content. rewrite E, list_lookup_alter_eq. destruct (t_files t !! i) eqn:El; [done|]. apply lookup_ge_None in El. lia.
Qed.

(** Since the file was opened as [c0], with the lines [l0] read before: the file holds [c0]
    and then [used], read as [ls], and [rest], which is still to be read. *)
Record following (c0 : string) (l0 : list string) (i : nat) (used rest : string) (ls : list string) (t : tail) : Prop := {
  fw_path : t_path t = Some i;
  fw_file : (i < length (t_files t))%nat;
  fw_content : content i t = c0 +:+ used +:+ rest;
  fw_lines : t_lines t = l0 ++ ls;
  fw_split : text_lines (used +:+ rest) = ls ++ text_lines rest;
  fw_whole : whole (used +:+ rest) ∧ whole rest;
  fw_reader : t_reader t = Some {| r_file := i; r_pos := String.length c0 + String.length used |}
}.
Lemma follow_waits c0 l0 i used ls t : following c0 l0 i used "" ls t → follow_once t = t.
Proof.
  intros [Hp Hi Hc Hl Hs Hw Hr]. unfold follow_once. rewrite Hr. cbn [r_file r_pos].
  assert (Hd : drop_chars (String.length c0 + String.length used) (content i t) = "")
    by (rewrite Hc, sapp_nil_r, <- slength_app; rewrite <- (sapp_nil_r (c0 +:+ used)) at 2; apply drop_app).
  rewrite Hd. cbn [readline str_truthy String.eqb negb]. rewrite Hp, Hc, sapp_nil_r, slength_app, (proj2 (Nat.ltb_ge _ _)) by lia.
  rewrite <- Hr, <- Hp. by destruct t.
Qed.
Lemma take_drop_chars n s : take_chars n s +:+ drop_chars n s = s.
Proof. revert s. induction n as [|n IH]; intros [|c s]; try done. cbn. f_equal. apply IH. Qed.
Lemma take_chars_length n s : (n <= String.length s)%nat → String.length (take_chars n s) = n.
Proof. revert s. induction n as [|n IH]; intros [|c s] Hn; cbn in *; [done..|lia|]. f_equal. apply IH. lia. Qed.
Lemma follow_reads c0 l0 i used rest ls t :
  following c0 l0 i used rest ls t → rest ≠ "" →
  ∃ used' rest' l, following c0 l0 i used' rest' (ls ++ [l]) (follow_once t) ∧ text_lines rest = l :: text_lines rest' ∧
    used' +:+ rest' = used +:+ rest.
Proof.
  intros [Hp Hi Hc Hl Hs [Hw1 Hw2] Hr] Hne. unfold follow_once. rewrite Hr. cbn [r_file r_pos].
  assert (Hd : drop_chars (String.length c0 + String.length used) (content i t) = rest)
    by (rewrite Hc, <- slength_app, <- sapp_assoc; apply drop_app).
  rewrite Hd. pose proof (readline_first rest Hne) as H. destruct (readline rest) as [l n]. destruct H as (Ht & Hn & Hx & Hw').
  rewrite Ht. exists (used +:+ take_chars n rest), (drop_chars n rest), l.
  assert (E : (used +:+ take_chars n rest) +:+ drop_chars n rest = used +:+ rest) by by rewrite sapp_assoc, take_drop_chars.
  split_and!; [|done|done]. split; cbn [t_path t_files t_lines t_reader]; try done.
  - unfold content in *. cbn [t_files]. by rewrite E.
  - by rewrite Hl, <- app_assoc.
  - by rewrite E, Hs, Hx, <- app_assoc.
  - rewrite E. auto.
  - do 2 f_equal. rewrite slength_app, take_chars_length by done. lia.
Qed.
Lemma append_follows c0 l0 i used rest ls t s :
  following c0 l0 i used rest ls t → whole s → following c0 l0 i used (rest +:+ s) ls (append s t).
Proof.
  intros [Hp Hi Hc Hl Hs [Hw1 Hw2] Hr] Hw. unfold append. rewrite Hp.
  split; cbn [t_path t_files t_lines t_reader]; try done.
  - by rewrite length_alter.
  - etrans; [apply (content_alter i (λ c, c +:+ s) t); [reflexivity|exact Hi]|]. by rewrite Hc, !sapp_assoc.
  - by rewrite <- sapp_assoc, (text_lines_app (used +:+ rest)), (text_lines_app rest), Hs, <- app_assoc.
  - split; [rewrite <- sapp_assoc|]; by apply whole_app.
Qed.
(** In [n] turns, [n] more lines are read, or all that there were. *)
Lemma turns_following n t t' c0 l0 i used rest ls :
  turns n t t' → following c0 l0 i used rest ls t →
  ∃ used' rest' ls', following c0 l0 i used' rest' (ls ++ ls') t' ∧
    (∃ more, used' +:+ rest' = (used +:+ rest) +:+ more ∧ whole more) ∧
    ((n <= length ls')%nat ∨ text_lines rest `prefix_of` ls').
Proof.
  intros H. revert used rest ls. induction H as [t|n t t' H IH|n s t t' Hs _ H IH]; intros used rest ls F.
  - exists used, rest, []. rewrite app_nil_r. split_and!; [done|exists ""; rewrite sapp_nil_r; split; [done|by left]|left; cbn; lia].
  - destruct (decide (rest = "")) as [->|Hne].
    + rewrite (follow_waits _ _ _ _ _ _ F) in IH. destruct (IH _ _ _ F) as (u & r & l & F' & Hm & _). exists u, r, l.
      split_and!; [done|done|right; apply prefix_nil].
    + destruct (follow_reads _ _ _ _ _ _ _ F Hne) as (u & r & l & F1 & Hx & Hu). destruct (IH _ _ _ F1) as (u' & r' & ls' & F' & Hm & Hn).
      exists u', r', (l :: ls'). rewrite <- app_assoc in F'. rewrite Hu in Hm. split_and!; [done|done|].
      destruct Hn as [Hn|Hn]; [left; cbn; lia|right; rewrite Hx; by apply prefix_cons].
  - destruct (IH _ _ _ (append_follows _ _ _ _ _ _ _ _ F Hs)) as (u & r & ls' & F' & (more & E & Hw) & Hn). exists u, r, ls'. split_and!; [done| |].
    + exists (s +:+ more). split; [by rewrite E, !sapp_assoc|by apply whole_app].
    + destruct Hn as [Hn|Hn]; [by left|right]. etrans; [|exact Hn]. rewrite text_lines_app by apply F. by eexists.
Qed.
(** C35. While SLIPS appends whole lines, every one of them is read, once and in order.  From
    the moment the adapter opened the file at its end, in any run in which the file stays in
    place and is appended to by whole lines (each append ends in a line feed): the lines read
    are the first lines of what was appended, none repeated, skipped or cut; and from then on, however much is still
    appended, after as many more turns as lines were appended so far every one of these lines
    has been read.  A line ends where Python's text mode ends it: at a line feed, a carriage
    return, or both. *)
Theorem whole_lines_followed t0 n t i :
  t_path t0 = Some i → (i < length (t_files t0))%nat → t_reader t0 = None → turns n (follow_once t0) t →
  ∃ appended ls, content i t = content i t0 +:+ appended ∧ t_lines t = t_lines t0 ++ ls ∧ ls `prefix_of` text_lines appended ∧
    ∀ m t', turns m t t' → (length (text_lines appended) <= length ls + m)%nat →
      t_lines t0 ++ text_lines appended `prefix_of` t_lines t'.
Proof.
  intros Hp Hi Hr H. assert (F : following (content i t0) (t_lines t0) i "" "" [] (follow_once t0)).
  { unfold follow_once. rewrite Hr, Hp. split; cbn; try done; [by rewrite sapp_nil_r|by rewrite app_nil_r|split; by left|by rewrite Nat.add_0_r]. }
  destruct (turns_following _ _ _ _ _ _ _ _ _ H F) as (used & rest & ls & F1 & _ & _). cbn [app] in F1.
  exists (used +:+ rest), ls. split; [apply F1|]. split; [apply F1|]. rewrite (fw_split _ _ _ _ _ _ _ F1). split; [by eexists|].
  intros m t' Hm Hle. destruct (turns_following _ _ _ _ _ _ _ _ _ Hm F1) as (used' & rest' & ls' & F2 & (more & E & Hw) & Hn).
  rewrite (fw_lines _ _ _ _ _ _ _ F2). apply prefix_app, prefix_app. destruct Hn as [Hn|Hn]; [|done].
  pose proof (fw_split _ _ _ _ _ _ _ F2) as Hs. rewrite E, text_lines_app, (fw_split _ _ _ _ _ _ _ F1), <- !app_assoc in Hs by apply F1.
  apply app_inv_head in Hs. rewrite length_app in Hle. rewrite <- (take_app_length' ls' (text_lines rest') (length ls')) by done.
  rewrite <- Hs. rewrite take_app_ge by lia. by eexists.
Qed.

(** A line that is read half written is read as two lines, neither of which is an alert; and
    what a rotated or new file holds when it is opened is passed over. *)
Definition start : tail := {| t_files := [""]; t_path := Some 0%nat; t_reader := None; t_lines := [] |}.
Example torn_line_is_split :
  t_lines (follow_once (append ("1]" +:+ newline) (follow_once (append "[0," (follow_once start))))) = ["[0,"; "1]" +:+ newline].
Proof. vm_compute. reflexivity. Qed.
Example rotated_alerts_skipped :
  let t := rotate (follow_once (append ("1" +:+ newline) (follow_once start))) in
  let t := follow_once (follow_once (follow_once (follow_once (append ("2" +:+ newline) t)))) in
  t_lines t = ["1" +:+ newline] ∧ t_reader t = Some {| r_file := 0; r_pos := 2 |}.
Proof. vm_compute. done. Qed.
Example reopened_at_the_end :
  let t := follow_once (rotate (follow_once (append ("1" +:+ newline) (follow_once start)))) in
  let t := follow_once (follow_once (append ("2" +:+ newline) t)) in
  t_lines t = ["1" +:+ newline] ∧ t_reader t = Some {| r_file := 1; r_pos := 2 |}.
Proof. vm_compute. done. Qed.

Section theorems.
Context (hash : string → Z) (loads : string → option val) (dumps repr : val → string).

(** A finding from SLIPS claims no more than the alert does.  It is tagged as machine learning
    only when the module names a known analysis and no lookup; its severity is that of the
    stated threat level, the lowest when there is none; its confidence lies between 0 and 1;
    techniques are given only with a category of the table. *)
Theorem slips_findings_honest v tenant now c :
  alert_to_candidate hash dumps repr v tenant now = Ok (Some c) →
  ∃ alert module detector, v = VDict alert ∧ module = _module repr alert ∧
    dget "detector_id" c = Some (VStr detector) ∧ detector = (classify_module module).1 ∧
    (detector = "slips_ml" → names_one_of _ML_MODULES (lower module) = true ∧ names_one_of _NON_ML_MODULES (lower module) = false) ∧
    (∃ n, dget "severity" c = Some (VInt n) ∧ assoc (_threat_level repr alert) _THREAT_SEV = Some n ∧ 3 <= n <= 9 ∧
       (truthy (dgetN "threat_level" alert) = false → n = 3)) ∧
    (∃ f, dget "confidence" c = Some (VFloat f) ∧ SFleb (lit "0") f = true ∧ SFleb f (lit "1") = true) ∧
    ∃ cat mitre, _category alert = Ok (cat, mitre) ∧ dget "category" c = Some (VStr cat) ∧ dget "mitre" c = match mitre with [] => None | _ => Some (VList (VStr <$> mitre)) end.
Proof.
  unfold alert_to_candidate. intros H. apply bind_ok_inv in H as (alert & Ha & H). destruct v; try discriminate. injection Ha as ->.
  apply bind_ok_inv in H as (att & _ & H). destruct (negb (truthy att)); [discriminate|]. apply bind_ok_inv in H as (vic & _ & H).
  apply bind_ok_inv in H as ([cat mitre] & Hcat & H). apply bind_ok_inv in H as (conf & Hconf & H). injection H as <-.
  exists alert, (_module repr alert), (classify_module (_module repr alert)).1. split; [done|]. split; [done|]. split; [done|]. split; [done|]. split_and!.
  - unfold classify_module. destruct (names_one_of _NON_ML_MODULES _) eqn:E1; [done|]. by destruct (names_one_of _ML_MODULES _) eqn:E2.
  - assert (Hs : ∃ n, assoc (_threat_level repr alert) _THREAT_SEV = Some n ∧ 3 <= n <= 9).
    { unfold _threat_level. destruct (mem _ _THREAT_SEV.*1) eqn:E; [|by exists 3]. apply mem_true in E.
      set (tl := lower _) in *. clearbody tl. cbn in E. rewrite !elem_of_cons, elem_of_nil in E.
      destruct E as [->|[->|[->|[->|[->|[]]]]]]; eexists; (split; [reflexivity|lia]). }
    destruct Hs as (n & Hn & Hb). exists n. split; [transitivity (Some (VInt (default 0 (assoc (_threat_level repr alert) _THREAT_SEV)))); [reflexivity|by rewrite Hn]|]. split; [done|]. split; [done|]. intros Ht.
    assert (E : _threat_level repr alert = "info") by (unfold _threat_level, py_or; by rewrite Ht).
    rewrite E in Hn. by injection Hn.
  - exists conf. split; [done|]. by eapply confidence_bounds.
  - exists cat, mitre. split; [done|]. split; [done|]. by destruct mitre.
Qed.
End theorems.

(** The documentation promises UTC; an offset is cut off, not applied. *)
Example offset_is_dropped :
  _idea_time (λ _, "?") [("DetectTime", VStr "2026-09-10T12:00:00.5+02:00")] = Some "2026-09-10T12:00:00Z" ∧
  _idea_time (λ _, "?") [("DetectTime", VStr "2026-09-10 12:00:00-05:00")] = Some "2026-09-10T12:00:00Z".
Proof. vm_compute. done. Qed.
Example lookup_is_no_ml :
  classify_module "ThreatIntelligence" = ("slips_intel", false) ∧ classify_module "flowmldetection" = ("slips_ml", true) ∧
  classify_module "" = ("slips_alert", false).
Proof. vm_compute. done. Qed.
(** Two lines are appended, one of them ended by both characters; one turn reads the first,
    and another the second. *)
Definition two_lines : string := "a" +:+ String "013" newline +:+ "b" +:+ newline.
Lemma whole_lines_followed_witness :
  let t := follow_once (append two_lines (follow_once start)) in
  t_lines t = ["a" +:+ newline] ∧ text_lines two_lines = ["a" +:+ newline; "b" +:+ newline] ∧
  text_lines two_lines `prefix_of` t_lines (follow_once t).
Proof.
  cbv zeta. split; [vm_compute; reflexivity|]. split; [vm_compute; reflexivity|].
  destruct (whole_lines_followed start 1 (follow_once (append two_lines (follow_once start))) 0%nat) as (appended & ls & Hc & Hl & _ & H).
  - done.
  - vm_compute. lia.
  - done.
  - apply (turns_append _ two_lines); [right; by exists ("a" +:+ String "013" newline +:+ "b")|done|]. apply turns_follow, turns_done.
  - assert (E : appended = two_lines) by (symmetry; exact Hc). subst appended.
    apply (H 1%nat); [apply turns_follow, turns_done|]. assert (El : ls = ["a" +:+ newline]) by (symmetry; exact Hl). subst ls. vm_compute. lia.
Defined.

(** ** The EVE bridge (services/eve-bridge/bridge.py and app.py)

    Records of the bus are appended, one JSON object a line, to a file another program
    follows; a file that grew past its limit becomes the single backup and a new one begins.

    [compact] is [json.dumps] with compact separators: ASCII text without a newline, or an
    exception.  Bytes and characters are then the same. *)

Section bridge.
Context (compact : val → res string) (max_bytes : Z).

Definition eve_line (record : val) : res string := s ← compact record; Ok (s +:+ newline).
Definition should_rotate (bytes_written max_bytes : Z) : bool := (0 <? max_bytes) && (max_bytes <=? bytes_written).

(** The live file, the backup, what the service thinks it wrote and how many it dropped. *)
Record output := { o_live : string; o_backup : option string; o_written : Z; o_dropped : nat }.
Definition opened (file : string) (backup : option string) : output := {| o_live := file; o_backup := backup; o_written := len file; o_dropped := 0 |}.
Definition write_record (o : output) (record : val) : output :=
  match eve_line record with
  | Ok line => {| o_live := o_live o +:+ line; o_backup := o_backup o; o_written := o_written o + len line; o_dropped := o_dropped o |}
  | Raise _ => {| o_live := o_live o; o_backup := o_backup o; o_written := o_written o; o_dropped := S (o_dropped o) |}
  end.
Definition rotated (o : output) : output :=
  if should_rotate (o_written o) max_bytes then {| o_live := ""; o_backup := Some (o_live o); o_written := 0; o_dropped := o_dropped o |} else o.
(** One poll: the records of its partitions, then the rotation. *)
Definition poll (o : output) (partitions : list (list val)) : output := rotated (foldl write_record o (concat partitions)).

(** ** Facts *)

Definition lines_of (records : list val) : list string := omap (λ r, match eve_line r with Ok l => Some l | Raise _ => None end) records.
Lemma written_lines o records :
  let o' := foldl write_record o records in
  o_live o' = o_live o +:+ String.concat "" (lines_of records) ∧ o_backup o' = o_backup o ∧
  (o_written o = len (o_live o) → o_written o' = len (o_live o')) ∧
  (o_dropped o' + length (lines_of records) = o_dropped o + length records)%nat.
Proof.
  revert o. induction records as [|r records IH]; intros o; cbn [foldl lines_of omap list_omap].
  { cbn. rewrite sapp_nil_r. split_and!; done. }
  destruct (IH (write_record o r)) as (H1 & H2 & H3 & H4). unfold write_record, lines_of in *. destruct (eve_line r) as [l|e]; cbn in *.
  - rewrite H1, H2. split_and!; [|done| |lia].
    + rewrite sapp_assoc. f_equal. cbn [length]. destruct (omap _ records) as [|k ls]; [cbn; by rewrite sapp_nil_r|done].
    + intros E. rewrite <- H1. apply H3. rewrite slength_app. lia.
  - split_and!; [done..|lia].
Qed.
(** The file is what it is thought to be and stays under its limit; a poll adds the lines of
    the records that can be encoded, in order, and counts the others; and what leaves the
    live file is the backup. *)
Theorem eve_file_bounded o partitions :
  o_written o = len (o_live o) →
  let o' := poll o partitions in
  let live := o_live o +:+ String.concat "" (lines_of (concat partitions)) in
  o_written o' = len (o_live o') ∧ (0 < max_bytes → len (o_live o') < max_bytes) ∧
  (o_live o' = live ∧ o_backup o' = o_backup o ∨ o_live o' = "" ∧ o_backup o' = Some live ∧ max_bytes <= len live) ∧
  (o_dropped o' + length (lines_of (concat partitions)) = o_dropped o + length (concat partitions))%nat.
Proof.
  intros H. cbv zeta. destruct (written_lines o (concat partitions)) as (H1 & H2 & H3 & H4). specialize (H3 H). unfold poll, rotated, should_rotate.
  set (w := foldl write_record o (concat partitions)) in *. clearbody w.
  destruct (Z.ltb_spec 0 max_bytes) as [Hm|Hm]; cbn [andb]; [|split_and!; [done|lia|left; by rewrite <- H1|done]].
  destruct (Z.leb_spec max_bytes (o_written w)) as [Hw|Hw]; cbn.
  - split_and!; [done|lia|right; split_and!; [done|by rewrite H1|rewrite <- H1; lia]|done].
  - split_and!; [done|lia|left; by rewrite <- H1|done].
Qed.
End bridge.

Example bridge_rotates :
  let o := poll (λ _, Ok "{}") 6 (poll (λ _, Ok "{}") 6 (opened "" None) [[VNone]]) [[VNone]; []] in
  (o_live o, o_backup o, o_written o) = ("", Some ("{}" +:+ newline +:+ "{}" +:+ newline), 0).
Proof. vm_compute. reflexivity. Qed.
