(* ===== verification/ZeekCentral.v ===== *)
(** * Central Zeek enrichment (services/zeek-central/enrich.py)

    A captured PCAP is analysed by Zeek; the logs Zeek wrote become a summary with the
    indicators worth pivoting on, and the request is answered once, whatever happens.

    What Zeek makes of a capture ([zeek]: the texts of its logs by file name, or the
    exception of the run) and the object store ([fetch]) are parameters; [error] is the text
    of an exception. *)

From S2P Require Import Prelude Order PyVal PyString IntelMatch FileArtifact.
Set Default Proof Using "Type".

(** ** Tab-separated logs *)

Abbreviation row := (list (string * string)).
Fixpoint rset (k v : string) (r : row) : row :=
  match r with [] => [(k, v)] | (k', v') :: r => if String.eqb k k' then (k', v) :: r else (k', v') :: rset k v r end.
Definition make_row (fields cols : list string) : row := foldl (λ r kv, rset kv.1 kv.2 r) [] (zip fields cols).
Definition tsv_line (acc : list string * list row) (line : string) : list string * list row :=
  let '(fields, rows) := acc in
  if starts_with "#fields" line then (tail (split_char "009" line), rows)
  else if starts_with "#" line || negb (str_truthy (strip line)) then (fields, rows)
  else (fields, rows ++ [make_row fields (split_char "009" line)]).
Definition parse_lines (lines : list string) : list row := (foldl tsv_line ([], []) lines).2.
Definition parse_zeek_tsv (text : string) : list row := parse_lines (splitlines text).
(** A column, where Zeek's marks for an unset value mean none. *)
Definition _v (x : option string) : option string :=
  match x with Some s => if mem s [""; "-"; "(empty)"] then None else Some s | None => None end.
Definition col (k : string) (r : row) : option string := _v (assoc k r).
Definition oval (x : option string) : val := match x with Some s => VStr s | None => VNone end.
Definition cols (ks : list (string * string)) (r : row) : dict := (λ kc : string * string, (kc.1, oval (col kc.2 r))) <$> ks.

(** ** Summaries *)

(** [sorted(set(...))] *)
Definition sorted_set (xs : list string) : list string := isort (λ x, x) (dedup_onto [] xs).
Definition strs (xs : list string) : val := VList (VStr <$> xs).
Definition count (n : nat) : val := VInt (Z.of_nat n).
Definition details (ds : list dict) : val := VList (VDict <$> take 50 ds).
(** Counting by a key: [d[k] = d.get(k, 0) + 1]. *)
Definition tally (d : dict) (k : string) : dict := dset k (match dgetN k d with VInt n => VInt (n + 1) | _ => VInt 1 end) d.
Definition or_dash (x : option string) : string := match x with Some s => if str_truthy s then s else "-" | None => "-" end.
Definition summarize_conn_log (rows : list row) : dict :=
  [("connections", count (length rows)); ("services", VDict (foldl tally [] ((λ r, or_dash (assoc "service" r)) <$> rows)));
   ("protocols", VDict (foldl tally [] ((λ r, or_dash (assoc "proto" r)) <$> rows)))].
Definition values (k : string) (rows : list row) : list string := omap (col k) rows.
Definition bad_validation (r : row) : bool := match col "validation_status" r with Some s => negb (String.eqb (lower s) "ok") | None => false end.
Definition ssl_cols : list (string * string) :=
  [("server_name", "server_name"); ("ja3", "ja3"); ("ja3s", "ja3s"); ("ja4", "ja4"); ("ja4s", "ja4s"); ("version", "version");
   ("validation_status", "validation_status"); ("subject", "subject"); ("issuer", "issuer")].
Definition summarize_ssl (rows : list row) : dict :=
  [("tls_connections", count (length rows)); ("unique_ja3", strs (sorted_set (values "ja3" rows))); ("unique_ja4", strs (sorted_set (values "ja4" rows)));
   ("unique_ja4s", strs (sorted_set (values "ja4s" rows))); ("server_names", strs (sorted_set (values "server_name" rows)));
   ("validation_failures", count (length (List.filter bad_validation rows))); ("details", details (cols ssl_cols <$> rows))].
Definition self_signed (r : row) : bool :=
  match col "certificate.subject" r, col "certificate.issuer" r with Some s, Some i => String.eqb s i | _, _ => false end.
Definition x509_detail (r : row) : dict :=
  cols [("subject", "certificate.subject"); ("issuer", "certificate.issuer")] r ++ [("self_signed", VBool (self_signed r))] ++
  cols [("ja4x", "ja4x"); ("not_valid_before", "certificate.not_valid_before"); ("not_valid_after", "certificate.not_valid_after"); ("san", "san.dns")] r.
Definition summarize_x509 (rows : list row) : dict :=
  [("certificates", count (length rows)); ("self_signed", count (length (List.filter self_signed rows))); ("details", details (x509_detail <$> rows))].
Definition http_cols : list (string * string) :=
  [("host", "host"); ("uri", "uri"); ("method", "method"); ("user_agent", "user_agent"); ("status_code", "status_code"); ("ja4h", "ja4h")].
Definition summarize_http (rows : list row) : dict :=
  [("http_requests", count (length rows)); ("unique_ja4h", strs (sorted_set (values "ja4h" rows))); ("details", details (cols http_cols <$> rows))].
Definition ssh_cols : list (string * string) := [("client", "client"); ("server", "server"); ("auth_success", "auth_success"); ("ja4ssh", "ja4ssh")].
Definition summarize_ssh (rows : list row) : dict :=
  [("ssh_sessions", count (length rows)); ("unique_ja4ssh", strs (sorted_set (values "ja4ssh" rows))); ("details", details (cols ssh_cols <$> rows))].
Definition row_hashes (r : row) : list string := omap (λ k, col k r) ["sha256"; "sha1"; "md5"].
Definition file_detail (r : row) : dict :=
  [("mime_type", oval (col "mime_type" r)); ("filename", oval (match col "filename" r with Some s => Some s | None => col "extracted" r end));
   ("source", oval (col "source" r)); ("seen_bytes", oval (col "seen_bytes" r))] ++ cols [("md5", "md5"); ("sha1", "sha1"); ("sha256", "sha256")] r.
Definition summarize_files (rows : list row) : dict :=
  [("files", count (length rows)); ("hashes", strs (sorted_set (rows ≫= row_hashes))); ("details", details (file_detail <$> rows))].
Definition smb_cols : list (string * string) := [("action", "action"); ("path", "path"); ("name", "name"); ("share_type", "share_type")].
Definition summarize_smb (rows : list row) : dict := [("smb_events", count (length rows)); ("details", details (cols smb_cols <$> rows))].
Definition is_tgs (r : row) : bool := match col "request_type" r with Some s => String.eqb s "TGS" | None => false end.
Definition weak_cipher (r : row) : bool := match col "cipher" r with Some c => contains "rc4" (lower c) || contains "des" (lower c) | None => false end.
Definition krb_cols : list (string * string) :=
  [("request_type", "request_type"); ("client", "client"); ("service", "service"); ("success", "success"); ("error_msg", "error_msg"); ("cipher", "cipher")].
Definition kerberoast (rows : list row) : bool :=
  (8 <=? length (List.filter is_tgs rows))%nat && (8 <=? length (dedup_onto [] (values "service" rows)))%nat.
Definition summarize_kerberos (rows : list row) : dict :=
  [("kerberos_events", count (length rows)); ("tgs_requests", count (length (List.filter is_tgs rows)));
   ("distinct_spns", count (length (dedup_onto [] (values "service" rows)))); ("weak_encryption", count (length (List.filter weak_cipher rows)));
   ("kerberoast_suspected", VBool (kerberoast rows)); ("details", details (cols krb_cols <$> rows))].

Definition _LOGS : list (string * string * (list row → dict)) :=
  [("conn", "conn.log", summarize_conn_log); ("ssl", "ssl.log", summarize_ssl); ("x509", "x509.log", summarize_x509); ("http", "http.log", summarize_http);
   ("ssh", "ssh.log", summarize_ssh); ("files", "files.log", summarize_files); ("smb_files", "smb_files.log", summarize_smb);
   ("smb_mapping", "smb_mapping.log", summarize_smb); ("kerberos", "kerberos.log", summarize_kerberos)].
(** The logs of a run, by file name. *)
Abbreviation logs := (list (string * string)).
Definition log_summary (found : logs) (l : string * string * (list row → dict)) : option val :=
  text ← assoc l.1.2 found; Some (VDict (l.2 (parse_zeek_tsv text))).
Definition summarize (found : logs) : dict := omap (λ l, pair l.1.1 <$> log_summary found l) _LOGS.
Definition no_logs : dict := [("conn", VDict [("connections", VInt 0); ("services", VDict []); ("protocols", VDict [])])].
Definition summary_of (found : logs) : dict := match summarize found with [] => no_logs | s => s end.

(** [summary.get(section, {}).get(field)], kept when truthy. *)
Definition section_field (summary : dict) (section field : string) : val :=
  match dget_or section (VDict []) summary with VDict d => dgetN field d | _ => VNone end.
Definition IOC_FIELDS : list (string * string * string) :=
  [("file_hashes", "files", "hashes"); ("ja3", "ssl", "unique_ja3"); ("ja4", "ssl", "unique_ja4"); ("ja4s", "ssl", "unique_ja4s");
   ("ja4h", "http", "unique_ja4h"); ("ja4ssh", "ssh", "unique_ja4ssh"); ("self_signed_certs", "x509", "self_signed");
   ("kerberoast_suspected", "kerberos", "kerberoast_suspected")].
Definition ioc_of (summary : dict) (f : string * string * string) : option val :=
  let v := section_field summary f.1.2 f.2 in if truthy v then Some v else None.
Definition extract_iocs (summary : dict) : dict := omap (λ f, pair f.1.1 <$> ioc_of summary f) IOC_FIELDS.

(** ** The worker *)

Section worker.
Context (fetch : string → string → res string) (zeek : string → res logs) (error : exn → string).
(** [ref.partition("/")], from [FileArtifact]. *)
Definition analyse (ref : string) : res dict :=
  let '(bucket, key) := partition_at "/" ref in
  pcap ← fetch bucket key; found ← zeek pcap; Ok (summary_of found).
Definition answer (req : val) : res dict :=
  r ← as_dict req;
  ref ← match dget_or "pcap_ref" (VStr "") r with VStr s => Ok s | _ => Raise AttributeError end;
  let result := [("finding_id", dgetN "finding_id" r); ("pcap_ref", VStr ref)] in
  Ok (match analyse ref with
      | Ok summary => result ++ [("status", VStr "ok"); ("summary", VDict summary); ("iocs", VDict (extract_iocs summary));
                                 ("evidence_refs", VList [VStr ("minio://" +:+ ref)])]
      | Raise e => result ++ [("status", VStr "failed"); ("error", VStr (error e))]
      end).
Fixpoint answer_all (reqs : list val) : list dict * option exn :=
  match reqs with
  | [] => ([], None)
  | r :: rs => match answer r with Ok a => let '(l, e) := answer_all rs in (a :: l, e) | Raise e => ([], Some e) end
  end.
End worker.

(** ** Facts *)

(** *** Logs are read back *)

(** A log as Zeek writes it: the header, then a line for every row of cells. *)
Definition tab : string := String "009" "".
Definition log_line (cells : list string) : string := join tab cells.
Definition log_text (fields : list string) (rows : list (list string)) : string :=
  String.concat "" ((λ l, l +:+ String "010" "") <$> (("#fields" +:+ tab +:+ log_line fields) :: (log_line <$> rows))).
Definition cell (s : string) : Prop := string_forallb (λ c, negb (Ascii.eqb "009" c) && negb (line_end c)) s = true.

Lemma split_join c l : l ≠ [] → Forall (λ s, string_forallb (λ d, negb (Ascii.eqb c d)) s = true) l → split_char c (join (String c "") l) = l.
Proof.
  induction l as [|s l IH]; [done|]. intros _ H. inversion H as [|? ? Hs Hl]; subst. destruct l as [|t l]; [by apply split_none|].
  change (join (String c "") (s :: t :: l)) with (s +:+ String c (join (String c "") (t :: l))). rewrite (split_app _ _ _ Hs). by rewrite IH.
Qed.
Lemma splitlines_line cur l rest : string_forallb (λ c, negb (line_end c)) l = true →
  splitlines_onto cur (l +:+ String "010" rest) = (cur +:+ l) :: splitlines_onto "" rest.
Proof.
  revert cur. induction l as [|c l IH]; intros cur H; cbn [String.append splitlines_onto].
  - change (line_end "010") with true. rewrite sapp_nil_r. cbv iota. f_equal. by destruct rest.
  - cbn in H. apply andb_prop in H as [Hc H]. apply negb_true_iff in Hc. rewrite Hc, (IH _ H), sapp_assoc. done.
Qed.
Lemma splitlines_text ls : Forall (λ l, string_forallb (λ c, negb (line_end c)) l = true) ls →
  splitlines (String.concat "" ((λ l, l +:+ String "010" "") <$> ls)) = ls.
Proof.
  unfold splitlines. induction ls as [|l ls IH]; [done|]. intros H. inversion H as [|? ? Hl Hls]; subst. rewrite fmap_cons, concat_cons, sapp_assoc.
  change (String "010" "" +:+ String.concat "" ((λ l, l +:+ String "010" "") <$> ls)) with (String "010" (String.concat "" ((λ l, l +:+ String "010" "") <$> ls))).
  by rewrite (splitlines_line _ _ _ Hl), (IH Hls).
Qed.
Lemma cells_line cs : Forall cell cs → string_forallb (λ c, negb (line_end c)) (log_line cs) = true.
Proof.
  assert (C : ∀ s, cell s → string_forallb (λ c, negb (line_end c)) s = true).
  { intros s. apply forallb_weaken. by intros c [_ H]%andb_prop. }
  induction cs as [|s cs IH]; [done|]. intros H. inversion H as [|? ? Hs Hcs]; subst. destruct cs as [|t cs]; [by apply C|].
  change (log_line (s :: t :: cs)) with (s +:+ tab +:+ log_line (t :: cs)). rewrite !forallb_sapp, (C _ Hs), (IH Hcs). done.
Qed.
Lemma cells_split cs : cs ≠ [] → Forall cell cs → split_char "009" (log_line cs) = cs.
Proof.
  intros Hn H. apply split_join; [done|]. eapply Forall_impl; [exact H|]. intros s. apply forallb_weaken. by intros c [Hc _]%andb_prop.
Qed.
(** What Zeek writes is what is read.  A log of rows whose cells contain no tab and no
    line break, none of which starts with the comment sign or is blank, is parsed to exactly
    those rows, in order, each cell under the name of its column. *)
Theorem zeek_log_read_back fields rows :
  fields ≠ [] → Forall cell fields → Forall (λ cs, cs ≠ [] ∧ Forall cell cs ∧ starts_with "#" (log_line cs) = false ∧ str_truthy (strip (log_line cs)) = true) rows →
  parse_zeek_tsv (log_text fields rows) = make_row fields <$> rows.
Proof.
  intros Hn Hf Hr. unfold parse_zeek_tsv, log_text. rewrite splitlines_text.
  2:{ constructor; [|].
      - rewrite !forallb_sapp, (cells_line _ Hf). done.
      - apply Forall_fmap. eapply Forall_impl; [exact Hr|]. intros cs (_ & Hc & _). by apply cells_line. }
  unfold parse_lines. cbn [foldl tsv_line]. rewrite starts_with_app.
  assert (E : split_char "009" ("#fields" +:+ tab +:+ log_line fields) = "#fields" :: fields).
  { change ("#fields" +:+ tab +:+ log_line fields) with ("#fields" +:+ String "009" (log_line fields)). rewrite split_app by done. by rewrite cells_split. }
  rewrite E. cbn [tail]. assert (G : ∀ acc, (foldl tsv_line (fields, acc) (log_line <$> rows)).2 = acc ++ (make_row fields <$> rows)); [|apply G].
  clear E. induction rows as [|cs rows IH]; intros acc; [by rewrite app_nil_r|]. inversion Hr as [|? ? (Hc & Hcs & Hh & Hb) Hr']; subst.
  rewrite !fmap_cons. cbn [foldl tsv_line]. assert (Hh' : starts_with "#fields" (log_line cs) = false).
  { revert Hh. destruct (log_line cs) as [|c s]; [done|]. unfold starts_with. cbn [String.prefix]. destruct (ascii_dec "#" c); [by destruct s|done]. }
  rewrite Hh', Hh, Hb. cbn [orb negb]. rewrite (cells_split _ Hc Hcs), (IH Hr'), <- app_assoc. done.
Qed.

(** *** Indicators come from the capture *)

Lemma sorted_set_in x xs : x ∈ sorted_set xs ↔ x ∈ xs.
Proof. unfold sorted_set. rewrite elem_of_isort, elem_of_dedup_onto, elem_of_nil. naive_solver. Qed.
Lemma dget_absent k (d : dict) : k ∉ d.*1 → dget k d = None.
Proof.
  induction d as [|[k' v] d IH]; [done|]. cbn. intros H. apply not_elem_of_cons in H as [H1 H2]. rewrite (proj2 (String.eqb_neq _ _) H1). by apply IH.
Qed.
Lemma dget_omap {A} (key : A → string) (g : A → option val) (l : list A) x :
  NoDup (key <$> l) → x ∈ l → dget (key x) (omap (λ a, pair (key a) <$> g a) l) = g x.
Proof.
  induction l as [|a l IH]; [intros _ []%elem_of_nil|]. rewrite fmap_cons. intros H Hx. inversion H as [|? ? Ha Hl]; subst.
  assert (Hk : ∀ y, key y ∉ key <$> l → dget (key y) (omap (λ a, pair (key a) <$> g a) l) = None).
  { intros y Hy. apply dget_absent. intros Hin. apply Hy. apply list_elem_of_fmap in Hin as ([k v] & E & Hin). apply list_elem_of_omap in Hin as (z & Hz & Hg).
    apply list_elem_of_fmap. exists z. destruct (g z); [|done]. injection Hg as E' _. cbn in E. split; [congruence|done]. }
  apply elem_of_cons in Hx as [->|Hx]; cbn; destruct (g a) as [v|] eqn:E; cbn; rewrite ?String.eqb_refl; [done|by apply Hk| |by apply IH].
  destruct (String.eqb_spec (key x) (key a)) as [Ek|]; [|by apply IH]. destruct Ha. rewrite <- Ek. by apply list_elem_of_fmap_2.
Qed.

(** A log of the run, read into rows. *)
Definition log_rows (found : logs) (fname : string) : list row := match assoc fname found with Some t => parse_zeek_tsv t | None => [] end.
(** The file and the columns an indicator is read from. *)
Definition IOC_COLUMNS : list (string * (string * list string)) :=
  [("file_hashes", ("files.log", ["sha256"; "sha1"; "md5"])); ("ja3", ("ssl.log", ["ja3"])); ("ja4", ("ssl.log", ["ja4"])); ("ja4s", ("ssl.log", ["ja4s"]));
   ("ja4h", ("http.log", ["ja4h"])); ("ja4ssh", ("ssh.log", ["ja4ssh"]))].
Definition seen_in (found : logs) (fname : string) (ks : list string) (x : string) : Prop :=
  ∃ r k, r ∈ log_rows found fname ∧ k ∈ ks ∧ col k r = Some x.
Lemma values_seen k rows x : x ∈ values k rows ↔ ∃ r, r ∈ rows ∧ col k r = Some x.
Proof. apply list_elem_of_omap. Qed.
Lemma hashes_seen rows x : x ∈ (rows ≫= row_hashes) ↔ ∃ r k, r ∈ rows ∧ k ∈ ["sha256"; "sha1"; "md5"] ∧ col k r = Some x.
Proof.
  rewrite list_elem_of_bind. unfold row_hashes. setoid_rewrite list_elem_of_omap. naive_solver.
Qed.
Lemma logs_distinct : NoDup ((λ l : string * string * (list row → dict), l.1.1) <$> _LOGS) ∧ NoDup ((λ f : string * string * string, f.1.1) <$> IOC_FIELDS).
Proof. split; apply (bool_decide_unpack _); vm_compute; exact I. Qed.
(** The field of a section, when its log was written; nothing otherwise. *)
Lemma section_of found key fname fn field :
  (key, fname, fn) ∈ _LOGS → key ≠ "conn" →
  section_field (summary_of found) key field = match assoc fname found with Some t => dgetN field (fn (parse_zeek_tsv t)) | None => VNone end.
Proof.
  intros Hin Hk. assert (E : dget key (summarize found) = log_summary found (key, fname, fn)).
  { apply (dget_omap (λ l : string * string * (list row → dict), l.1.1) (log_summary found) _LOGS (key, fname, fn)); [apply logs_distinct|done]. }
  unfold log_summary in E. cbn [fst snd] in E. unfold section_field, summary_of, dget_or. destruct (summarize found) as [|kv s] eqn:Es.
  - cbn [dget] in E. destruct (assoc fname found); [discriminate|]. cbn [dget no_logs]. by rewrite (proj2 (String.eqb_neq _ _) Hk).
  - rewrite E. by destruct (assoc fname found).
Qed.
Lemma ioc_case found name key field fname fn ks (f : list row → list string) :
  (name, key, field) ∈ IOC_FIELDS → (key, fname, fn) ∈ _LOGS → key ≠ "conn" →
  (∀ rows, dgetN field (fn rows) = strs (sorted_set (f rows))) →
  (∀ rows x, x ∈ f rows ↔ ∃ r k, r ∈ rows ∧ k ∈ ks ∧ col k r = Some x) →
  ∃ xs, NoDup xs ∧ (∀ x, x ∈ xs ↔ seen_in found fname ks x) ∧
    dget name (extract_iocs (summary_of found)) = match xs with [] => None | _ => Some (strs xs) end.
Proof.
  intros Hi Hl Hk Hf Hs. exists (sorted_set (f (log_rows found fname))). split; [|split].
  - unfold sorted_set. rewrite isort_perm. apply NoDup_dedup_onto. constructor.
  - intros x. rewrite sorted_set_in, Hs. done.
  - unfold extract_iocs. etrans; [apply (dget_omap (λ f : string * string * string, f.1.1) (ioc_of (summary_of found)) IOC_FIELDS (name, key, field)); [apply logs_distinct|done]|].
    unfold ioc_of. cbn [fst snd]. rewrite (section_of _ _ _ _ _ Hl Hk). unfold log_rows. destruct (assoc fname found) as [t|].
    + rewrite Hf. by destruct (sorted_set _).
    + assert (E : f [] = []); [|by rewrite E]. destruct (f []) as [|x xs] eqn:E; [done|].
      destruct (proj1 (Hs [] x)) as (r & k & Hr & _); [rewrite E; left|by apply elem_of_nil in Hr].
Qed.
Lemma one_column k : ∀ rows x, x ∈ values k rows ↔ ∃ r k', r ∈ rows ∧ k' ∈ [k] ∧ col k' r = Some x.
Proof. intros rows x. rewrite values_seen. setoid_rewrite list_elem_of_singleton. naive_solver. Qed.
(** Indicators are what the capture holds.  Hashes and fingerprints that leave with the
    answer are exactly the values Zeek wrote in the columns they stand for, each once, with
    Zeek's marks for unset values left out; a kind of indicator is named only when there is
    one; and Kerberoasting is suspected only for eight ticket requests and eight services. *)
Theorem iocs_exact found :
  (∀ name fname ks, (name, (fname, ks)) ∈ IOC_COLUMNS →
     ∃ xs, NoDup xs ∧ (∀ x, x ∈ xs ↔ seen_in found fname ks x) ∧
       dget name (extract_iocs (summary_of found)) = match xs with [] => None | _ => Some (strs xs) end) ∧
  dget "kerberoast_suspected" (extract_iocs (summary_of found)) = (if kerberoast (log_rows found "kerberos.log") then Some (VBool true) else None).
Proof.
  assert (I : ∀ x, mem x IOC_FIELDS = true → x ∈ IOC_FIELDS) by (intros x; apply mem_true). split.
  - intros name fname ks H. unfold IOC_COLUMNS in H. rewrite !elem_of_cons, elem_of_nil in H.
    destruct H as [[= -> -> ->]|[[= -> -> ->]|[[= -> -> ->]|[[= -> -> ->]|[[= -> -> ->]|[[= -> -> ->]|[]]]]]]].
    + apply (ioc_case found _ "files" "hashes" _ summarize_files _ (λ rows, rows ≫= row_hashes)); [by apply I|unfold _LOGS; rewrite !elem_of_cons; auto 10|done|done|apply hashes_seen].
    + apply (ioc_case found _ "ssl" "unique_ja3" _ summarize_ssl _ (values "ja3")); [by apply I|unfold _LOGS; rewrite !elem_of_cons; auto 10|done|done|apply one_column].
    + apply (ioc_case found _ "ssl" "unique_ja4" _ summarize_ssl _ (values "ja4")); [by apply I|unfold _LOGS; rewrite !elem_of_cons; auto 10|done|done|apply one_column].
    + apply (ioc_case found _ "ssl" "unique_ja4s" _ summarize_ssl _ (values "ja4s")); [by apply I|unfold _LOGS; rewrite !elem_of_cons; auto 10|done|done|apply one_column].
    + apply (ioc_case found _ "http" "unique_ja4h" _ summarize_http _ (values "ja4h")); [by apply I|unfold _LOGS; rewrite !elem_of_cons; auto 10|done|done|apply one_column].
    + apply (ioc_case found _ "ssh" "unique_ja4ssh" _ summarize_ssh _ (values "ja4ssh")); [by apply I|unfold _LOGS; rewrite !elem_of_cons; auto 10|done|done|apply one_column].
  - unfold extract_iocs. etrans; [apply (dget_omap (λ f : string * string * string, f.1.1) (ioc_of (summary_of found)) IOC_FIELDS ("kerberoast_suspected", "kerberos", "kerberoast_suspected")); [apply logs_distinct|by apply I]|].
    unfold ioc_of. cbn [fst snd]. rewrite (section_of found "kerberos" "kerberos.log" summarize_kerberos) by (done || (unfold _LOGS; rewrite !elem_of_cons; auto 10)).
    unfold log_rows. destruct (assoc "kerberos.log" found) as [t|]; [|done]. change (dgetN "kerberoast_suspected" (summarize_kerberos (parse_zeek_tsv t))) with (VBool (kerberoast (parse_zeek_tsv t))).
    by destruct (kerberoast _).
Qed.

(** *** Every request is answered *)

Section worker_facts.
Context (fetch : string → string → res string) (zeek : string → res logs) (error : exn → string).
(** A request's answer: its finding, its capture, and a status that says whether there is a summary. *)
Definition answers (r : dict) (a : dict) : Prop :=
  dgetN "finding_id" a = dgetN "finding_id" r ∧ dgetN "pcap_ref" a = dget_or "pcap_ref" (VStr "") r ∧
  ((dget "status" a = Some (VStr "ok") ∧ (∃ found, dget "summary" a = Some (VDict (summary_of found)) ∧ dget "iocs" a = Some (VDict (extract_iocs (summary_of found))))) ∨
   (dget "status" a = Some (VStr "failed") ∧ dget "summary" a = None)).
(** The answers are those of the requests, in order, up to the first that is no request at
    all: an object whose capture is a text. *)
Theorem requests_answered reqs out e :
  answer_all fetch zeek error reqs = (out, e) →
  (∀ i v a, reqs !! i = Some v → out !! i = Some a → ∃ r, v = VDict r ∧ answers r a) ∧ (length out <= length reqs)%nat ∧
  (Forall (λ v, ∃ r s, v = VDict r ∧ dget_or "pcap_ref" (VStr "") r = VStr s) reqs → length out = length reqs ∧ e = None).
Proof.
  revert out e. induction reqs as [|v reqs IH]; intros out e H; cbn in H.
  - injection H as <- <-. split_and!; [|done..]. intros i v a Hi. discriminate.
  - destruct (answer fetch zeek error v) as [a|x] eqn:Ha.
    + destruct (answer_all fetch zeek error reqs) as [l e'] eqn:El. injection H as <- <-. destruct (IH _ _ eq_refl) as (H1 & H2 & H3). split_and!.
      * intros [|i] w b; cbn; [|apply H1]. intros [= <-] [= <-]. unfold answer in Ha. apply bind_ok_inv in Ha as (r & Hr & Ha).
        destruct v; try discriminate. injection Hr as ->. apply bind_ok_inv in Ha as (ref & Href & [= <-]). exists r. split; [done|].
        destruct (dget_or "pcap_ref" (VStr "") r) as [| | | |s| |] eqn:Es; try discriminate. injection Href as ->. unfold answers. rewrite Es.
        destruct (analyse fetch zeek ref) as [summary|x] eqn:E; [|split; [done|]; split; [done|]; by right]. unfold analyse in E.
        destruct (partition_at "/" ref) as [b k]. apply bind_ok_inv in E as (p & _ & E). apply bind_ok_inv in E as (found & _ & [= <-]).
        split; [done|]. split; [done|]. left. split; [done|]. by exists found.
      * cbn. lia.
      * intros Hall. inversion Hall as [|? ? _ Hall']; subst. destruct (H3 Hall') as [E1 E2]. cbn. by rewrite E1.
    + injection H as <- <-. split_and!; [intros i w a _ Ho; discriminate|cbn; lia|]. intros Hall. inversion Hall as [|? ? (r & s & -> & Hs) _]; subst.
      unfold answer in Ha. cbn [as_dict mbind res_bind] in Ha. rewrite Hs in Ha. discriminate.
Qed.
End worker_facts.

Definition sample_log : string := log_text ["mime_type"; "sha256"; "md5"] [["application/x-dosexec"; "ab"; "-"]; ["text/html"; "cd"; "ef"]].
Example sample_iocs :
  extract_iocs (summary_of [("files.log", sample_log); ("ssl.log", log_text ["ja3"] [["-"]])]) = [("file_hashes", VList [VStr "ab"; VStr "cd"; VStr "ef"])].
Proof. vm_compute. reflexivity. Qed.
Lemma zeek_log_read_back_witness :
  parse_zeek_tsv sample_log = make_row ["mime_type"; "sha256"; "md5"] <$> [["application/x-dosexec"; "ab"; "-"]; ["text/html"; "cd"; "ef"]].
Proof. apply zeek_log_read_back; [done|repeat constructor|repeat constructor; done]. Defined.
