(* ===== verification/CaptureProcess.v ===== *)
(** * The capture agent's process (services/capture-agent/app.py, suricata_socket.py, retrieval.py)

    Directives arrive on the bus and become captures: a thread each, which arms a dataset of
    the sensor, waits, disarms it, ships what was captured and reports.  The threads of the
    captures and the loop that admits directives interleave at these actions; the counter of
    active captures is changed under a lock, with the admission or with the end of a thread.

    Outcomes of the sensor's socket, the carving and the object store are choices of the
    steps; the bus accepts what is sent.  [sha256] and [repr] are those of [ObjectKeys]. *)

From stdpp Require Import gmap relations.
From S2P Require Import Prelude Order PyVal PyString OrderedMap PyTime ObjectKeys CaptureBudget PacketCapture.
Set Default Proof Using "Type".

(** ** The sensor's command socket (suricata_socket.py) *)

Section socket.
Context (loads : string → option val).
(** A reply is complete when the bytes so far parse; the end of the stream is an empty read. *)
Fixpoint _recv_json (buf : string) (chunks : list string) : res (val * list string) :=
  match chunks with
  | [] => Raise OtherError
  | c :: cs =>
      if negb (str_truthy c) then Raise OtherError
      else match loads (buf +:+ c) with Some v => Ok (v, cs) | None => _recv_json (buf +:+ c) cs end
  end.
Definition said_ok (v : val) : res bool := d ← as_dict v; Ok (val_eq_str (dgetN "return" d) "OK").
(** A command: the greeting, then the reply, both of which must say OK. *)
Definition command (chunks : list string) : res val :=
  '(hello, rest) ← _recv_json "" chunks;
  ok ← said_ok hello; check ok OtherError;;
  '(reply, _) ← _recv_json "" rest;
  ok ← said_ok reply; check ok OtherError;;
  Ok reply.
End socket.

(** ** Captures *)

(** A dataset of the sensor and a value in it. *)
Abbreviation target := (string * string)%type.
(** Where a capture's thread is: before arming; armed and waiting; after disarming, with
    whether something raised meanwhile; reported; ended.  [dead]: it raised before the part
    that is guarded. *)
Inductive phase := starting | waiting | disarmed (raised : bool) | closing | finished | dead.
#[export] Instance phase_eq_dec : EqDecision phase.
Proof. solve_decision. Defined.
Record job := Job { j_dir : dict; j_phase : phase }.
Inductive message := status (d : dict) | enrichment (d : dict) | capture_result (d : dict).
(** The counter, the threads, what the sensor has armed, what was left armed by a command
    that failed (a disarming, or an arming whose answer was lost) or by a process that ended,
    the messages with the thread that sent them, the audit records, the look-backs started,
    whether the loop still runs, and whether the process, and so its daemon threads, does. *)
Record agent := {
  g_active : Z; g_jobs : list job; g_armed : gset target; g_stuck : gset target;
  g_bus : list (option nat * message); g_audit : list dict; g_lookbacks : list dict; g_up : bool; g_alive : bool
}.
Definition fresh_agent : agent :=
  {| g_active := 0; g_jobs := []; g_armed := ∅; g_stuck := ∅; g_bus := []; g_audit := []; g_lookbacks := []; g_up := true; g_alive := true |}.
Definition on_bus (who : option nat) (ms : list message) (s : agent) : agent :=
  {| g_active := g_active s; g_jobs := g_jobs s; g_armed := g_armed s; g_stuck := g_stuck s; g_bus := g_bus s ++ (pair who <$> ms);
     g_audit := g_audit s; g_lookbacks := g_lookbacks s; g_up := g_up s; g_alive := g_alive s |}.
Definition on_audit (e : dict) (s : agent) : agent :=
  {| g_active := g_active s; g_jobs := g_jobs s; g_armed := g_armed s; g_stuck := g_stuck s; g_bus := g_bus s;
     g_audit := g_audit s ++ [e]; g_lookbacks := g_lookbacks s; g_up := g_up s; g_alive := g_alive s |}.
Definition go_down (s : agent) : agent :=
  {| g_active := g_active s; g_jobs := g_jobs s; g_armed := g_armed s; g_stuck := g_stuck s; g_bus := g_bus s;
     g_audit := g_audit s; g_lookbacks := g_lookbacks s; g_up := false; g_alive := g_alive s |}.
(** The process ends and its threads with it; what is armed stays so in the sensor, also
    under the next process. *)
Definition exit (s : agent) : agent :=
  {| g_active := g_active s; g_jobs := g_jobs s; g_armed := g_armed s; g_stuck := g_stuck s ∪ g_armed s; g_bus := g_bus s;
     g_audit := g_audit s; g_lookbacks := g_lookbacks s; g_up := g_up s; g_alive := false |}.
Definition restarted (s : agent) : agent :=
  {| g_active := 0; g_jobs := []; g_armed := g_armed s; g_stuck := g_stuck s; g_bus := []; g_audit := [];
     g_lookbacks := []; g_up := true; g_alive := true |}.
Definition look_back (d : dict) (s : agent) : agent :=
  {| g_active := g_active s; g_jobs := g_jobs s; g_armed := g_armed s; g_stuck := g_stuck s; g_bus := g_bus s;
     g_audit := g_audit s; g_lookbacks := g_lookbacks s ++ [d]; g_up := g_up s; g_alive := g_alive s |}.
Definition start_capture (d : dict) (s : agent) : agent :=
  {| g_active := g_active s + 1; g_jobs := g_jobs s ++ [Job d starting]; g_armed := g_armed s; g_stuck := g_stuck s; g_bus := g_bus s;
     g_audit := g_audit s; g_lookbacks := g_lookbacks s; g_up := g_up s; g_alive := g_alive s |}.
Definition move (i : nat) (d : dict) (p : phase) (active : Z) (armed stuck : gset target) (s : agent) : agent :=
  {| g_active := active; g_jobs := <[i := Job d p]> (g_jobs s); g_armed := armed; g_stuck := stuck; g_bus := g_bus s;
     g_audit := g_audit s; g_lookbacks := g_lookbacks s; g_up := g_up s; g_alive := g_alive s |}.

Section process.
Context (env : agent_env) (SENSOR_ID : string) (sha256 : string → string) (repr : val → string).

Definition profile_text (d : dict) : val := dget_or "capture_profile" (VStr "ip") d.
Definition fid_of (d : dict) : val := dget_or "finding_id" (VStr "") d.
(** What the thread computes before its guarded part: the target, the limits. *)
Definition prepare (d : dict) : res target :=
  value ← match dget "value" d with Some (VStr s) => Ok (strip s) | Some _ => Raise AttributeError | None => Raise KeyError end;
  '(setname, _) ← match profile_text d with VStr p => dataset_for p | _ => Raise KeyError end;
  ttl ← ttl_secs env d;
  cap ← max_bytes env d;
  Ok (setname, value).
Definition value_text (d : dict) : val := match dget "value" d with Some (VStr s) => VStr (strip s) | _ => VNone end.
Definition failed_status (d : dict) (why : string) : dict :=
  [("finding_id", fid_of d); ("sensor_id", VStr SENSOR_ID); ("profile", profile_text d); ("value", value_text d);
   ("state", VStr "failed"); ("error", VStr why); ("armed", VBool false)].
Definition shipped_messages (d : dict) (size : Z) : list message :=
  let key := VStr (pcap_key sha256 repr d) in
  [enrichment [("finding_id", fid_of d); ("sensor_id", VStr SENSOR_ID); ("pcap_ref", key)];
   status [("finding_id", fid_of d); ("sensor_id", VStr SENSOR_ID); ("profile", profile_text d); ("value", value_text d);
           ("state", VStr "completed"); ("bytes", VInt size); ("pcap_ref", key); ("armed", VBool false)]].

(** *** The thread of a capture ([_capture]) *)

Inductive capture_step (s : agent) : agent → Prop :=
| dies i d e :
    g_jobs s !! i = Some (Job d starting) → prepare d = Raise e →
    capture_step s (move i d dead (g_active s) (g_armed s) (g_stuck s) s)
| arms i d t :
    g_jobs s !! i = Some (Job d starting) → prepare d = Ok t →
    capture_step s (move i d waiting (g_active s) ({[t]} ∪ g_armed s) (g_stuck s) s)
| arming_fails i d t why :
    g_jobs s !! i = Some (Job d starting) → prepare d = Ok t →
    capture_step s (on_bus (Some i) [status (failed_status d why)] (move i d closing (g_active s) (g_armed s) (g_stuck s) s))
| arming_unanswered i d t why :
    g_jobs s !! i = Some (Job d starting) → prepare d = Ok t →
    capture_step s (on_bus (Some i) [status (failed_status d why)]
      (move i d closing (g_active s) ({[t]} ∪ g_armed s) ({[t]} ∪ g_stuck s) s))
| disarms i d t raised :
    g_jobs s !! i = Some (Job d waiting) → prepare d = Ok t →
    capture_step s (move i d (disarmed raised) (g_active s) (g_armed s ∖ {[t]}) (g_stuck s) s)
| disarming_fails i d t raised :
    g_jobs s !! i = Some (Job d waiting) → prepare d = Ok t →
    capture_step s (move i d (disarmed raised) (g_active s) (g_armed s) ({[t]} ∪ g_stuck s) s)
| ships i d size :
    g_jobs s !! i = Some (Job d (disarmed false)) →
    capture_step s (on_bus (Some i) (shipped_messages d size) (move i d closing (g_active s) (g_armed s) (g_stuck s) s))
| shipping_fails i d raised why :
    g_jobs s !! i = Some (Job d (disarmed raised)) →
    capture_step s (on_bus (Some i) [status (failed_status d why)] (move i d closing (g_active s) (g_armed s) (g_stuck s) s))
| closes i d :
    g_jobs s !! i = Some (Job d closing) →
    capture_step s (move i d finished (g_active s - 1) (g_armed s) (g_stuck s) s).

(** *** Admission (the loop of [main]) *)

Definition refusal (d : dict) (state why : string) : message :=
  status [("finding_id", fid_of d); ("sensor_id", VStr SENSOR_ID); ("state", VStr state); ("reason", VStr why); ("armed", VBool false)].
Definition preserve_word (d : dict) : bool :=
  val_eq_str (dgetN "schema_version" d) "capture-request.v2" || val_eq_str (dgetN "mode" d) "preserve".
(** A directive of the arm topic; what raises ends the process. *)
Definition on_directive (v : val) (s : agent) : agent :=
  match v with
  | VDict d =>
      if negb (for_this_sensor d SENSOR_ID) then s
      else if preserve_word d then on_audit [("action", VStr "pcap.preserve.refused"); ("reason", VStr "wrong topic")] s
      else
        match ObjectKeys.validate d with
        | Raise _ => go_down s
        | Ok (false, why) => on_bus None [refusal d "rejected" why] s
        | Ok (true, _) =>
            match wants_lookback d with
            | Raise _ => go_down s
            | Ok back =>
                let s := if back : bool then look_back d s else s in
                match budget_ok env (g_active s) with
                | (false, why) => on_bus None [refusal d "refused" why] s
                | (true, _) => start_capture d s
                end
            end
        end
  | _ => on_audit [("action", VStr "pcap.request.refused"); ("reason", VStr "invalid object")] s
  end.
(** The loop admits directives until one raises or a signal stops it, the threads go on
    until the process ends, and a new process starts over the same sensor. *)
Inductive agent_step (s : agent) : agent → Prop :=
| admits v : g_up s = true → agent_step s (on_directive v s)
| runs s' : g_alive s = true → capture_step s s' → agent_step s s'
| stops : g_up s = true → agent_step s (go_down s)
| exits : g_alive s = true → g_up s = false → agent_step s (exit s)
| restarts : g_alive s = false → agent_step s (restarted s).

(** *** Look-back and preservation *)

(** A look-back's outcome: nothing in the ring, what was shipped, or why it was not. *)
Inductive back_outcome := no_data | back_shipped (size covered requested : Z) | back_failed (why : string).
Definition lookback_messages (d : dict) (o : back_outcome) : list message :=
  let base := [("finding_id", fid_of d); ("sensor_id", VStr SENSOR_ID); ("kind", VStr "lookback")] in
  match o with
  | no_data => [status (base ++ [("state", VStr "no_data"); ("covered_secs", VInt 0); ("armed", VBool false)])]
  | back_shipped size covered requested =>
      let key := VStr (lookback_key sha256 repr d) in
      [enrichment [("finding_id", fid_of d); ("sensor_id", VStr SENSOR_ID); ("pcap_ref", key)];
       status (base ++ [("state", VStr "completed"); ("bytes", VInt size); ("pcap_ref", key); ("covered_secs", VInt covered);
                        ("requested_secs", VInt requested); ("armed", VBool false)])]
  | back_failed why => [status (base ++ [("state", VStr "failed"); ("error", VStr why); ("armed", VBool false)])]
  end.

(** The request's identity, and the messages its preservation ends in. *)
Definition request_event (d : dict) : dict := (λ k, (k, dgetN k d)) <$> ["tenant_id"; "sensor_id"; "finding_id"; "request_id"].
Definition preserve_failed (d : dict) (why : string) : message :=
  status (request_event d ++ [("kind", VStr "preserve"); ("state", VStr "failed"); ("armed", VBool false); ("reason", VStr why)]).
Definition preserve_result (d st : dict) : res dict :=
  ref ← dindex "pcap_ref" st;
  coverage ← dindex "coverage" st; c ← match coverage with VDict c => Ok c | _ => Raise TypeError end;
  sha ← dindex "sha256" st; expires ← dindex "expires_at" st;
  Ok (request_event d ++ [("status", VStr "ok"); ("evidence_refs", VList [ref]);
       ("summary", VDict [("pcap_preservation", VDict (dset "expires_at" expires (dset "sha256" sha c)))])]).
Definition _preserve_capture (reason : exn → string) (run : option (M world dict)) (d : dict) (w : world) : world * list message :=
  match run with
  | None => (w, [preserve_failed d (reason PermissionError)])
  | Some run =>
      match run w with
      | (w, Ok st) =>
          match preserve_result d st with
          | Ok r => (w, [status st; capture_result r])
          | Raise e => (w, [status st; preserve_failed d (reason e)])
          end
      | (w, Raise e) => (w, [preserve_failed d (reason e)])
      end
  end.

(** ** Carved files ([_file_ship_loop]) *)

(** The digests remembered, and those announced. *)
Record shipper := { sh_seen : list string; sh_out : list string }.
Definition ship_entry (uploads : string → bool) (e : string * Z) (s : shipper) : shipper :=
  match sha_from_name e.1 with
  | Some sha =>
      if should_ship_file env e.2 (Some sha) (sh_seen s) && uploads sha
      then {| sh_seen := sh_seen s ++ [sha]; sh_out := sh_out s ++ [sha] |} else s
  | None => s
  end.
Definition ship_pass (entries : list (string * Z)) (uploads : string → bool) (s : shipper) : shipper :=
  let s := foldl (λ s e, ship_entry uploads e s) s entries in
  {| sh_seen := List.filter (λ x, mem x (omap (λ e : string * Z, sha_from_name e.1) entries)) (sh_seen s); sh_out := sh_out s |}.

(** ** Downloads (retrieval.py) *)

Definition do_GET (run : M world string) (w : world) : world * (Z * string) :=
  match run w with
  | (w, Ok data) => (w, (200, data))
  | (w, Raise PermissionError) => (w, (403, "PCAP access denied"))
  | (w, Raise _) => (w, (503, "PCAP unavailable"))
  end.
End process.

(** ** Facts *)

Definition unfinished (j : job) : bool := negb (bool_decide (j_phase j = finished)).
Definition running (js : list job) : Z := Z.of_nat (length (List.filter unfinished js)).
Definition reported (p : phase) : bool := match p with closing | finished => true | _ => false end.
Definition is_status (i : nat) (m : option nat * message) : bool :=
  match m with (Some j, status _) => (i =? j)%nat | _ => false end.
Definition reports (i : nat) (s : agent) : nat := length (List.filter (is_status i) (g_bus s)).

Lemma running_app js ks : running (js ++ ks) = running js + running ks.
Proof. unfold running. rewrite List.filter_app, length_app. lia. Qed.
Lemma running_insert js i j j' :
  js !! i = Some j → running (<[i := j']> js) = running js - (if unfinished j then 1 else 0) + (if unfinished j' then 1 else 0).
Proof.
  intros H. rewrite insert_take_drop by (by eapply lookup_lt_Some). rewrite <- (take_drop_middle _ _ _ H) at 3. rewrite !running_app.
  change (j' :: drop (S i) js) with ([j'] ++ drop (S i) js). change (j :: drop (S i) js) with ([j] ++ drop (S i) js). rewrite !running_app.
  unfold running at 2 5. cbn [List.filter]. destruct (unfinished j), (unfinished j'); cbn [length]; lia.
Qed.
Lemma reports_bus i who ms s : reports i (on_bus who ms s) = (reports i s + length (List.filter (is_status i) (pair who <$> ms)))%nat.
Proof. unfold reports, on_bus. cbn. by rewrite List.filter_app, length_app. Qed.

Section facts.
Context (env : agent_env) (SENSOR_ID : string) (sha256 : string → string) (repr : val → string).
Abbreviation capture_step := (capture_step env SENSOR_ID sha256 repr).
Abbreviation agent_step := (agent_step env SENSOR_ID sha256 repr).

(** Every capture in flight holds one slot and no other does, within the limit; a thread has
    reported once when it is past its report and never before; what is armed has a thread of
    the running process that waits to disarm it, or a command failed or an earlier process
    ended meanwhile; only a directive whose limits are no numbers
    that can be read kills its thread. *)
Record accounted (s : agent) : Prop := {
  acc_active : g_active s = running (g_jobs s);
  acc_limit : g_active s <= Z.max 0 (LOCAL_MAX_CONCURRENT env);
  acc_reports : ∀ i, reports i s = match g_jobs s !! i with Some j => if reported (j_phase j) then 1%nat else 0%nat | None => 0%nat end;
  acc_armed : ∀ t, t ∈ g_armed s → t ∈ g_stuck s ∨ g_alive s = true ∧ ∃ i d, g_jobs s !! i = Some (Job d waiting) ∧ prepare env d = Ok t;
  acc_dead : ∀ i d, g_jobs s !! i = Some (Job d dead) → ∃ e, prepare env d = Raise e
}.

(** A thread of a capture moves: what is kept when it does. *)
Lemma moved s i d p p' active armed stuck ms :
  g_jobs s !! i = Some (Job d p) → g_alive s = true → accounted s →
  active = g_active s - (if unfinished (Job d p) then 1 else 0) + (if unfinished (Job d p') then 1 else 0) → active <= g_active s →
  length (List.filter (is_status i) (pair (Some i) <$> ms)) = (if reported p then 0 else if reported p' then 1 else 0)%nat → (reported p = true → reported p' = true) →
  (∀ t, t ∈ armed → t ∈ stuck ∨ (p' = waiting ∧ prepare env d = Ok t) ∨ (t ∈ g_armed s ∧ (p = waiting → prepare env d ≠ Ok t))) → g_stuck s ⊆ stuck →
  (p' = dead → ∃ e, prepare env d = Raise e) →
  accounted (on_bus (Some i) ms (move i d p' active armed stuck s)).
Proof.
  intros Hi Hal [Ha Hl Hr Hm Hd] Hact Hle Hms Hrep Harm Hst Hdead. pose proof (lookup_lt_Some _ _ _ Hi) as Hlt.
  split; [cbn|cbn|intros k; rewrite reports_bus; cbn [on_bus move g_jobs]|cbn|cbn].
  - by rewrite (running_insert _ _ _ _ Hi), <- Ha.
  - lia.
  - change (reports k (move i d p' active armed stuck s)) with (reports k s). rewrite (Hr k). destruct (decide (k = i)) as [->|Hk].
    + rewrite list_lookup_insert_eq by done. rewrite Hi, Hms. cbn [j_phase]. destruct (reported p) eqn:Ep; [by rewrite Hrep|by destruct (reported p')].
    + rewrite list_lookup_insert_ne by done. assert (E : List.filter (is_status k) (pair (Some i) <$> ms) = []); [|by rewrite E, Nat.add_0_r].
      clear -Hk. induction ms as [|m ms IH]; [done|]. cbn. destruct m; [|done..]. by rewrite (proj2 (Nat.eqb_neq _ _) Hk).
  - intros t Ht. destruct (Harm t Ht) as [|[[-> Hp]|[Hin Hn]]]; [by left|right; split; [done|]; exists i, d; by rewrite list_lookup_insert_eq|].
    destruct (Hm t Hin) as [|(_ & k & e & Hk & Hp)]; [left; by apply Hst|]. destruct (decide (k = i)) as [->|Hne].
    + rewrite Hi in Hk. injection Hk as <- ->. by destruct (Hn eq_refl).
    + right. split; [done|]. exists k, e. by rewrite list_lookup_insert_ne.
  - intros k e Hk. destruct (decide (k = i)) as [->|Hne].
    + rewrite list_lookup_insert_eq in Hk by done. injection Hk as <- ->. by apply Hdead.
    + rewrite list_lookup_insert_ne in Hk by done. by eapply Hd.
Qed.
Lemma on_bus_nil who s : on_bus who [] s = s.
Proof. destruct s. unfold on_bus. cbn. by rewrite app_nil_r. Qed.
Lemma capture_step_ok s s' : capture_step s s' → g_alive s = true → accounted s → accounted s'.
Proof.
  intros H Hal Hs. destruct H as [i d e Hi Hp|i d t Hi Hp|i d t why Hi Hp|i d t why Hi Hp|i d t raised Hi Hp|i d t raised Hi Hp|i d size Hi|i d raised why Hi|i d Hi];
    [rewrite <- (on_bus_nil (Some i) (move _ _ _ _ _ _ _))|rewrite <- (on_bus_nil (Some i) (move _ _ _ _ _ _ _))| | |
     rewrite <- (on_bus_nil (Some i) (move _ _ _ _ _ _ _))|rewrite <- (on_bus_nil (Some i) (move _ _ _ _ _ _ _))| | |rewrite <- (on_bus_nil (Some i) (move _ _ _ _ _ _ _))];
    (eapply moved; [exact Hi|exact Hal|done|unfold unfinished; cbn [j_phase]; repeat case_bool_decide; try done; cbn; lia|lia|cbn; by rewrite ?Nat.eqb_refl|done|intros t' Ht'|set_solver|try done]).
  all: try (right; right; split; [exact Ht'|done]).
  - intros _. by exists e.
  - apply elem_of_union in Ht' as [->%elem_of_singleton|Ht']; [right; left; by split|right; right; by split].
  - apply elem_of_union in Ht' as [->%elem_of_singleton|Ht']; [left; set_solver|]. right. right. by split.
  - apply elem_of_difference in Ht' as [Ht' Hn]. right. right. split; [done|]. intros _ E. rewrite Hp in E. injection E as ->. set_solver.
  - destruct (decide (t' = t)) as [->|Hne]; [left; set_solver|]. right. right. split; [done|]. intros _ E. rewrite Hp in E. by injection E.
Qed.
Lemma none_bus s ms : accounted s → accounted (on_bus None ms s).
Proof.
  intros [Ha Hl Hr Hm Hd]. split; [done|done| |done|done]. intros i. rewrite reports_bus, Hr. cbn [on_bus g_jobs].
  assert (E : List.filter (is_status i) (pair None <$> ms) = []); [|by rewrite E, Nat.add_0_r]. induction ms as [|m ms IH]; [done|exact IH].
Qed.
Lemma admitted_start d s : g_active s < LOCAL_MAX_CONCURRENT env → accounted s → accounted (start_capture d s).
Proof.
  intros Hlim [Ha Hl Hr Hm Hd]. split; [cbn|cbn|intros i; change (reports i (start_capture d s)) with (reports i s); cbn [start_capture g_jobs]|cbn|cbn].
  - rewrite running_app, <- Ha. done.
  - lia.
  - rewrite Hr. destruct (decide (i < length (g_jobs s))%nat) as [Hi|Hi].
    + by rewrite lookup_app_l.
    + rewrite lookup_app_r, (lookup_ge_None_2 (g_jobs s)) by lia. destruct (i - length (g_jobs s))%nat as [|[|n]]; done.
  - intros t Ht. destruct (Hm t Ht) as [|(Hal & i & e & Hi & Hp)]; [by left|]. right. split; [done|]. exists i, e. split; [by apply lookup_app_l_Some|done].
  - intros i e Hi. apply lookup_app_Some in Hi as [Hi|[_ Hi]]; [by eapply Hd|]. apply list_lookup_singleton_Some in Hi as [_ Hi]. discriminate.
Qed.
Lemma same_accounted s s' :
  g_active s' = g_active s → g_jobs s' = g_jobs s → g_armed s' = g_armed s → g_stuck s' = g_stuck s → g_bus s' = g_bus s →
  g_alive s' = g_alive s → accounted s → accounted s'.
Proof.
  intros E1 E2 E3 E4 E5 E6 [Ha Hl Hr Hm Hd]. split; rewrite ?E1, ?E2, ?E3, ?E4, ?E6; try done. intros i. unfold reports. rewrite E5. apply Hr.
Qed.
Lemma exit_ok s : accounted s → accounted (exit s).
Proof. intros [Ha Hl Hr Hm Hd]. split; try done. intros t Ht. left. cbn in *. apply elem_of_union. by right. Qed.
Lemma restarted_ok s : g_alive s = false → accounted s → accounted (restarted s).
Proof.
  intros Hal [Ha Hl Hr Hm Hd]. split; [done|cbn; lia|done| |by intros i d].
  intros t Ht. destruct (Hm t Ht) as [|[E _]]; [by left|congruence].
Qed.
Lemma admit_ok v s : accounted s → accounted (on_directive env SENSOR_ID v s).
Proof.
  pose proof same_accounted as Same. intros Hs. destruct v as [| | | | | |d]; try (by apply (Same s)). cbn [on_directive]. destruct (negb _); [done|]. destruct (preserve_word d); [by apply (Same s)|].
  destruct (ObjectKeys.validate d) as [[[] why]|]; [|by apply none_bus|by apply (Same s)]. destruct (wants_lookback d) as [back|]; [|by apply (Same s)].
  assert (Hb : accounted (if back then look_back d s else s)) by (destruct back; [by apply (Same s)|done]).
  set (s1 := if back then look_back d s else s) in *. unfold budget_ok. destruct (LOCAL_MAX_CONCURRENT env <=? g_active s1) eqn:E; [by apply none_bus|].
  apply admitted_start; [|done]. apply Z.leb_gt in E. lia.
Qed.
(** C15. Captures are accounted for.  Whatever directives arrive, however the threads
    interleave, whatever fails, and wherever the process is stopped, ends with its threads
    and is started again, in every state the agent can reach: the counter is the number of
    this process's captures that have not ended and stays within the limit; every capture
    that is past its report has sent exactly one status, every other none; what the sensor
    has armed belongs to a capture of the running process that waits to disarm it, unless a
    command of the socket failed or a process ended while it was armed; and a thread dies
    before its guarded part only for a directive it cannot read. *)
Theorem captures_accounted s : rtc agent_step fresh_agent s → accounted s.
Proof.
  intros H. assert (H0 : accounted fresh_agent).
  { split; [done|cbn; lia|done|cbn; set_solver|]. intros i d Hi. discriminate Hi. }
  revert H0. induction H as [|x y z Hxy _ IH]; [done|]. intros Hx. apply IH. destruct Hxy as [v _|y Hal Hy| |_ _|Hal].
  - by apply admit_ok.
  - by eapply capture_step_ok.
  - by apply (same_accounted x).
  - by apply exit_ok.
  - by apply restarted_ok.
Qed.
(** How many actions a thread has left. *)
Definition left_of (p : phase) : nat :=
  match p with starting => 4 | waiting => 3 | disarmed _ => 2 | closing => 1 | finished | dead => 0 end.
(** A capture whose directive can be read always ends: its thread can move until it has, and
    every move brings it closer. *)
Theorem captures_end s i d p :
  g_jobs s !! i = Some (Job d p) → is_ok (prepare env d) = true → p ≠ dead →
  ∃ s', rtc capture_step s s' ∧ g_jobs s' !! i = Some (Job d finished).
Proof.
  intros Hi Hok Hp. destruct (prepare env d) as [t|] eqn:Ht; [clear Hok|done].
  assert (Hlt : ∀ s, g_jobs s !! i = Some (Job d p) → (i < length (g_jobs s))%nat) by (intros x; apply lookup_lt_Some).
  assert (Go : ∀ n s p, left_of p = n → p ≠ dead → g_jobs s !! i = Some (Job d p) → ∃ s', rtc capture_step s s' ∧ g_jobs s' !! i = Some (Job d finished)); [|by eapply (Go _ s p)].
  clear s Hi Hlt Hp. intros n. induction n as [n IH] using lt_wf_ind. intros s q Hn Hd Hi.
  assert (Step : ∀ s' q', capture_step s s' → (left_of q' < n)%nat → q' ≠ dead → g_jobs s' !! i = Some (Job d q') → ∃ s', rtc capture_step s s' ∧ g_jobs s' !! i = Some (Job d finished)).
  { intros s' q' Hst Hlt Hq Hi'. destruct (IH _ Hlt s' q' eq_refl Hq Hi') as (s2 & Hr & Hf). exists s2. split; [by eapply rtc_l|done]. }
  pose proof (lookup_lt_Some _ _ _ Hi) as Hlen. destruct q as [| |raised| | |]; try done.
  - eapply (Step _ waiting); [by eapply (arms _ _ _ _ _ i d t)|cbn in *; lia|done|by apply list_lookup_insert_eq].
  - eapply (Step _ (disarmed false)); [by eapply (disarms _ _ _ _ _ i d t false)|cbn in *; lia|done|by apply list_lookup_insert_eq].
  - eapply (Step _ closing); [by eapply (shipping_fails _ _ _ _ _ i d raised "")|cbn in *; lia|done|by apply list_lookup_insert_eq].
  - eapply (Step _ finished); [by eapply (closes _ _ _ _ _ i d)|cbn in *; lia|done|by apply list_lookup_insert_eq].
  - exists s. split; [apply rtc_refl|done].
Qed.
End facts.

(** *** Carved files are announced once *)

Section shipping.
Context (env : agent_env).
Abbreviation pass := (list (string * Z) * (string → bool))%type.
Definition run_passes (ps : list pass) (s : shipper) : shipper := foldl (λ s p, ship_pass env p.1 p.2 s) s ps.
Definition on_disk (p : pass) (x : string) : Prop := ∃ e, e ∈ p.1 ∧ sha_from_name e.1 = Some x.
Definition announced (x : string) (s : shipper) : nat := length (List.filter (String.eqb x) (sh_out s)).
(** A digest is remembered exactly when it was announced, which it was once. *)
Definition shipped_once (x : string) (s : shipper) : Prop := (x ∈ sh_seen s ∧ announced x s = 1%nat) ∨ (x ∉ sh_seen s ∧ announced x s = 0%nat).
Lemma announced_snoc x y seen out : announced x {| sh_seen := seen; sh_out := out ++ [y] |} = (announced x {| sh_seen := seen; sh_out := out |} + (if String.eqb x y then 1 else 0))%nat.
Proof. unfold announced. cbn. rewrite List.filter_app, length_app. cbn. by destruct (String.eqb x y). Qed.
Lemma ship_entry_once x up e s : shipped_once x s → shipped_once x (ship_entry env up e s).
Proof.
  intros H. unfold ship_entry. destruct (sha_from_name e.1) as [y|]; [|done]. destruct (should_ship_file env e.2 (Some y) (sh_seen s) && up y) eqn:E; [|done].
  apply andb_prop in E as [E _]. unfold should_ship_file in E. destruct (negb (str_truthy y) || mem y (sh_seen s)) eqn:Em; [discriminate|].
  apply orb_false_iff in Em as [_ Em]. apply mem_false in Em. unfold shipped_once. rewrite announced_snoc. cbn [sh_seen].
  change (announced x {| sh_seen := _; sh_out := sh_out s |}) with (announced x s). destruct (String.eqb_spec x y) as [->|Hne].
  - destruct H as [[Hin _]|[_ ->]]; [done|]. left. split; [set_solver|done].
  - destruct H as [[Hin ->]|[Hn ->]]; [left|right]; (split; [set_solver|done]).
Qed.
Lemma pass_once x p s : on_disk p x → shipped_once x s → shipped_once x (ship_pass env p.1 p.2 s).
Proof.
  intros (e & He & Hx) H. unfold ship_pass. assert (H1 : shipped_once x (foldl (λ s e, ship_entry env p.2 e s) s p.1)).
  { clear He. revert s H. induction p.1 as [|f fs IH]; intros s H; [done|]. cbn. by apply IH, ship_entry_once. }
  destruct H1 as [[Hin Ha]|[Hn Ha]]; [left|right]; (split; [|exact Ha]); cbn [sh_seen]; rewrite elem_filter.
  - split; [done|]. apply mem_true, list_elem_of_omap. by exists e.
  - by intros [? _].
Qed.
(** A carved file that stays on the sensor's disk is announced at most once, however many
    passes see it, however often its upload fails before one succeeds. *)
Theorem files_announced_once ps x : Forall (λ p, on_disk p x) ps → (announced x (run_passes ps {| sh_seen := []; sh_out := [] |}) <= 1)%nat.
Proof.
  intros H. assert (G : shipped_once x (run_passes ps {| sh_seen := []; sh_out := [] |})).
  { unfold run_passes. assert (H0 : shipped_once x {| sh_seen := []; sh_out := [] |}) by (right; split; [set_solver|done]). revert H0.
    generalize {| sh_seen := []; sh_out := [] |}. induction H as [|p ps Hp _ IH]; intros s H0; [done|]. cbn. by apply IH, pass_once. }
  destruct G as [[_ ->]|[_ ->]]; lia.
Qed.
End shipping.

(** *** Commands and preservation *)

(** A command returns only a reply that says OK, after a greeting that does. *)
Lemma command_ok loads chunks v : command loads chunks = Ok v → said_ok v = Ok true.
Proof.
  unfold command. intros H. apply bind_ok_inv in H as ([hello rest] & _ & H). apply bind_ok_inv in H as (ok & _ & H).
  apply bind_ok_inv in H as (u & _ & H). apply bind_ok_inv in H as ([reply rest'] & _ & H). apply bind_ok_inv in H as (ok' & Hok & H).
  apply bind_ok_inv in H as (u' & Hc & [= <-]). apply check_ok_inv in Hc. by rewrite <- Hc.
Qed.
(** A preservation reports once more than it completes: what completed is reported as it is,
    and a result goes out only for it. *)
Theorem preservation_reported reason run d w w' ms :
  _preserve_capture reason run d w = (w', ms) →
  (∃ st r, run ≫= (λ m, Some (m w)) = Some (w', Ok st) ∧ preserve_result d st = Ok r ∧ ms = [status st; capture_result r]) ∨
  (∃ st why, ms = [status st; preserve_failed d why] ∧ ∃ e, preserve_result d st = Raise e) ∨ ∃ why, ms = [preserve_failed d why].
Proof.
  unfold _preserve_capture. destruct run as [m|]; [|intros [= <- <-]; right; right; eauto]. cbn. destruct (m w) as [w1 [st|e]] eqn:Em; [|intros [= <- <-]; right; right; eauto].
  destruct (preserve_result d st) as [r|e] eqn:Er; intros [= <- <-]; [left; eauto|right; left; eauto 10].
Qed.

(** ** Examples *)

Definition directive (fields : dict) : val := VDict ([("sensor_id", VStr "s1"); ("value", VStr "10.0.0.5"); ("finding_id", VStr "f1")] ++ fields).
Definition admit_all (vs : list val) : agent := foldl (λ s v, on_directive default_env "s1" v s) fresh_agent vs.
(** An infinite limit, which the bus's JSON can carry, kills the thread before its guarded
    part: its slot is never given back, and two of them stop the sensor from capturing. *)
Definition infinite : val := VFloat (S754_infinity false).
Example infinite_ttl_leaks_the_slot :
  prepare default_env [("sensor_id", VStr "s1"); ("value", VStr "10.0.0.5"); ("finding_id", VStr "f1"); ("ttl_secs", infinite)] = Raise OverflowError ∧
  let s := admit_all [directive [("ttl_secs", infinite)]; directive [("ttl_secs", infinite)]; directive []] in
  g_active s = 2 ∧ (λ m : option nat * message, match m.2 with status d => dgetN "reason" d | _ => VNone end) <$> g_bus s = [VStr "agent_max_concurrent"].
Proof. vm_compute. done. Qed.
(** A value that is no text, or an infinite look-back, ends the process. *)
Example malformed_directive_ends_the_agent :
  g_up (admit_all [VDict [("sensor_id", VStr "s1"); ("value", VInt 5)]]) = false ∧ g_up (admit_all [directive [("lookback_secs", infinite)]]) = false.
Proof. vm_compute. done. Qed.
(** Two captures of one target share its place in the dataset: the first to end disarms both. *)
Definition same_target : dict := [("sensor_id", VStr "s1"); ("value", VStr "10.0.0.5"); ("finding_id", VStr "f1")].
Example shared_target_disarmed_early :
  ∃ s, rtc (agent_step default_env "s1" (λ s, s) no_repr) fresh_agent s ∧ g_armed s = ∅ ∧ g_jobs s !! 1%nat = Some (Job same_target waiting).
Proof.
  eexists. split; [|split].
  - eapply rtc_l; [apply (admits _ _ _ _ fresh_agent (directive [])); done|]. eapply rtc_l; [apply (admits _ _ _ _ _ (directive [])); reflexivity|].
    eapply rtc_l; [apply runs; [reflexivity|apply (arms _ _ _ _ _ 0%nat same_target ("ndr-capture-ip", "10.0.0.5")); vm_compute; reflexivity]|].
    eapply rtc_l; [apply runs; [reflexivity|apply (arms _ _ _ _ _ 1%nat same_target ("ndr-capture-ip", "10.0.0.5")); vm_compute; reflexivity]|].
    eapply rtc_l; [apply runs; [reflexivity|apply (disarms _ _ _ _ _ 0%nat same_target ("ndr-capture-ip", "10.0.0.5") false); vm_compute; reflexivity]|]. apply rtc_refl.
  - vm_compute. reflexivity.
  - vm_compute. reflexivity.
Qed.
(** An agent that is stopped while it captures leaves the sensor capturing: its threads end
    with it, and the next process knows nothing of what is armed. *)
Example stopped_agent_leaves_armed :
  ∃ s, rtc (agent_step default_env "s1" (λ s, s) no_repr) fresh_agent s ∧
    g_alive s = true ∧ g_jobs s = [] ∧ g_armed s = {[ ("ndr-capture-ip", "10.0.0.5") ]}.
Proof.
  eexists. split; [|split; [|split]].
  - eapply rtc_l; [apply (admits _ _ _ _ fresh_agent (directive [])); done|].
    eapply rtc_l; [apply runs; [reflexivity|apply (arms _ _ _ _ _ 0%nat same_target ("ndr-capture-ip", "10.0.0.5")); vm_compute; reflexivity]|].
    eapply rtc_l; [apply stops; reflexivity|]. eapply rtc_l; [apply exits; reflexivity|]. eapply rtc_l; [apply restarts; reflexivity|]. apply rtc_refl.
  - reflexivity.
  - reflexivity.
  - vm_compute. reflexivity.
Qed.
Lemma captures_accounted_witness :
  ∃ s, rtc (agent_step default_env "s1" (λ s, s) no_repr) fresh_agent s ∧ accounted default_env s ∧ length (g_bus s) = 2%nat ∧ g_active s = 0.
Proof.
  pose (s1 := on_directive default_env "s1" (directive []) fresh_agent). pose (t := ("ndr-capture-ip", "10.0.0.5")).
  pose (s2 := move 0 same_target waiting (g_active s1) ({[t]} ∪ g_armed s1) (g_stuck s1) s1).
  pose (s3 := move 0 same_target (disarmed false) (g_active s2) (g_armed s2 ∖ {[t]}) (g_stuck s2) s2).
  pose (s4 := on_bus (Some 0%nat) (shipped_messages "s1" (λ s, s) no_repr same_target 100) (move 0 same_target closing (g_active s3) (g_armed s3) (g_stuck s3) s3)).
  pose (s5 := move 0 same_target finished (g_active s4 - 1) (g_armed s4) (g_stuck s4) s4).
  assert (H : rtc (agent_step default_env "s1" (λ s, s) no_repr) fresh_agent s5).
  { eapply rtc_l; [apply (admits _ _ _ _ _ (directive [])); reflexivity|].
    eapply rtc_l; [apply runs; [reflexivity|apply (arms _ _ _ _ s1 0%nat same_target t); vm_compute; reflexivity]|].
    eapply rtc_l; [apply runs; [reflexivity|apply (disarms _ _ _ _ s2 0%nat same_target t false); vm_compute; reflexivity]|].
    eapply rtc_l; [apply runs; [reflexivity|apply (ships _ _ _ _ s3 0%nat same_target 100); vm_compute; reflexivity]|].
    eapply rtc_l; [apply runs; [reflexivity|apply (closes _ _ _ _ s4 0%nat same_target); vm_compute; reflexivity]|]. apply rtc_refl. }
  exists s5. split; [exact H|]. split; [exact (captures_accounted _ _ _ _ _ H)|]. split; vm_compute; reflexivity.
Defined.
