(* ===== verification/FindingEnrichment.v ===== *)
(** * Enrichment of findings (services/finding-service/geoenrich.py and intel.py)

    Before a finding is delivered it gets a country and network for every external address
    of its entities, from local databases, and optionally what remote services say of its
    addresses, names and fingerprints.  The remote services sit behind a cache with expiry
    times.

    The world of the remote adapters is the number of readings of the clock made so far, the
    cache and the log of the questions asked, each with the clock reading its cache lookup
    made; [reply n a] is what the [n]-th question [a] gets, [None] when the call raises.
    Instants are in microseconds.  [is_external] is the address library's test of a value,
    [repr] the text of containers and floats, [loads] the parser of JSON texts. *)

From S2P Require Import Prelude Order PyVal PyString OrderedMap PyTime IsoTime.
Set Default Proof Using "Type".

(** ** Dictionaries keyed by JSON values

    Entity values are keys of the blocks; lists and objects cannot be. *)

Definition hashable (v : val) : bool := negb (is_list v || is_dict v).
Abbreviation block := (list (val * val)).
Fixpoint vput (k v : val) (b : block) : block :=
  match b with
  | [] => [(k, v)]
  | (k', v') :: b => if py_eqb k' k then (k', v) :: b else (k', v') :: vput k v b
  end.
Definition vhas (k : val) (b : block) : bool := existsb (λ kv, py_eqb kv.1 k) b.
(** What the JSON encoder writes for a key. *)
Definition json_key (repr : val → string) (k : val) : string :=
  match k with VNone => "null" | VBool b => if b then "true" else "false" | k => py_str repr k end.
Definition block_val (repr : val → string) (b : block) : val := VDict ((λ kv, (json_key repr kv.1, kv.2)) <$> b).

(** ** Countries and networks (geoenrich.py) *)

Record geo_reader := { g_city : val → option val; g_country : val → option val }.
Abbreviation asn_reader := (val → option (val * val))%type.
Record readers := { rd_geo : option geo_reader; rd_asn : option asn_reader }.
Definition no_readers : readers := {| rd_geo := None; rd_asn := None |}.
(** [lib] opens databases, when the library is installed; [on_disk] is the test of a path. *)
Definition open_readers (lib : option ((string → option geo_reader) * (string → option asn_reader))) (on_disk : string → bool)
    (geo_db asn_db : string) : readers :=
  match lib with
  | None => no_readers
  | Some (open_geo, open_asn) =>
      let usable p := str_truthy p && on_disk p in
      {| rd_geo := if usable geo_db then open_geo geo_db else None;
         rd_asn := if usable asn_db then open_asn asn_db else None |}
  end.
Definition any_reader (rd : readers) : bool :=
  match rd_geo rd, rd_asn rd with None, None => false | _, _ => true end.

Section geo.
Context (loads : string → option val) (repr : val → string) (is_external : val → bool) (rd : readers).

Definition country_of (ip : val) : option val :=
  g ← rd_geo rd; match g_city g ip with Some c => Some c | None => g_country g ip end.
Definition known (kv : string * val) : bool := negb (py_eqb kv.2 VNone).
Definition _lookup (ip : val) : dict :=
  List.filter known
    ((match country_of ip with Some c => [("country", c)] | None => [] end) ++
     match rd_asn rd ≫= (λ asn, asn ip) with Some (n, org) => [("asn", n); ("as_org", org)] | None => [] end).

Definition geo_items (f : dict) : list val :=
  let items := match dgetN "entities" f with
               | VStr s => default (VList []) (loads s)
               | v => py_or v (VList [])
               end in
  match items with VList l => l | _ => [] end.
Definition lift_community (it f : dict) : dict :=
  if val_eq_str (dgetN "type" it) "community_id" && truthy (dgetN "value" it) && negb (dhas "community_id" f)
  then dset "community_id" (dgetN "value" it) f else f.
Definition geo_of (it : dict) (g : block) : res block :=
  let ip := dgetN "value" it in
  if negb (val_eq_str (dgetN "type" it) "ip") || negb (truthy ip) then Ok g
  else if negb (hashable ip) then Raise TypeError
  else if vhas ip g || negb (is_external ip) || negb (any_reader rd) then Ok g
  else match _lookup ip with [] => Ok g | info => Ok (vput ip (VDict info) g) end.
Fixpoint geo_loop (items : list val) (f : dict) (g : block) : res (dict * block) :=
  match items with
  | [] => Ok (f, g)
  | VDict it :: items => let f := lift_community it f in g ← geo_of it g; geo_loop items f g
  | _ :: items => geo_loop items f g
  end.
Definition enrich_finding (f : dict) : res dict :=
  r ← geo_loop (geo_items f) f [];
  Ok (match r.2 with [] => r.1 | g => dset "geo" (block_val repr g) r.1 end).
End geo.

(** ** Remote lookups (intel.py) *)

Inductive ask := a_ptr (ip : val) | a_greynoise (ip : val) | a_virustotal (ip : val) | a_rdap (domain : string).
Record net := { n_reads : nat; n_cache : gmap string (Z * val); n_asked : list (Z * ask) }.
Definition fresh_net : net := {| n_reads := 0; n_cache := ∅; n_asked := [] |}.
Definition hour : Z := 3600000000.
Definition day : Z := 24 * hour.

Definition _MULTI_SUFFIX : list string :=
  ["co.uk"; "org.uk"; "gov.uk"; "ac.uk"; "me.uk"; "ltd.uk"; "plc.uk"; "net.uk";
   "com.au"; "net.au"; "org.au"; "gov.au"; "edu.au"; "co.nz"; "org.nz"; "govt.nz";
   "co.jp"; "or.jp"; "ne.jp"; "ac.jp"; "go.jp"; "co.za"; "org.za"; "gov.za";
   "com.br"; "net.br"; "gov.br"; "com.cn"; "net.cn"; "gov.cn"; "co.in"; "gov.in";
   "co.kr"; "or.kr"; "com.mx"; "com.sg"; "com.tr"; "gov.tr"; "com.hk"; "com.tw"].
Definition last_parts (n : nat) (parts : list string) : list string := drop (length parts - n) parts.
Definition registrable (domain : string) : string :=
  let parts := split_char "." (lower (strip_by (Ascii.eqb ".") domain)) in
  if (length parts <=? 2)%nat then join "." parts
  else if mem (join "." (last_parts 2 parts)) _MULTI_SUFFIX then join "." (last_parts 3 parts)
  else join "." (last_parts 2 parts).

Record intel_settings := { RDNS_ON : bool; RDAP_ON : bool; NRD_DAYS : Z; GREYNOISE_KEY : string; VT_KEY : string }.
(** The five blocks, in the order they were made. *)
Abbreviation intel_blocks := (list (string * block)).
Fixpoint put_block (s : string) (k v : val) (i : intel_blocks) : intel_blocks :=
  match i with
  | [] => [(s, [(k, v)])]
  | (s', b) :: i => if String.eqb s' s then (s', vput k v b) :: i else (s', b) :: put_block s k v i
  end.

Section intel.
Context (cfg : intel_settings) (clock : nat → Z) (reply : nat → ask → option val)
  (loads : string → option val) (repr : val → string) (is_external : val → bool) (fp_file : option val).

Definition tick : M net Z := λ w,
  ({| n_reads := S (n_reads w); n_cache := n_cache w; n_asked := n_asked w |}, Ok (clock (n_reads w))).
(** A question is logged with the last reading of the clock. *)
Definition ask_now (a : ask) : M net (option val) := λ w,
  ({| n_reads := n_reads w; n_cache := n_cache w; n_asked := n_asked w ++ [(clock (pred (n_reads w)), a)] |},
   Ok (reply (length (n_asked w)) a)).
Definition remember (key : string) (e : Z * val) (w : net) : net :=
  {| n_reads := n_reads w; n_cache := <[key := e]> (n_cache w); n_asked := n_asked w |}.
Definition _cached (key : string) (ttl : Z) (produce : M net val) : M net val :=
  let* now := tick in
  let* hit := read (λ w, n_cache w !! key) in
  match hit with
  | Some (expiry, v) =>
      if now <? expiry then ret v
      else let* v := produce in modify (remember key (now + ttl, v));* ret v
  | None => let* v := produce in modify (remember key (now + ttl, v));* ret v
  end.

Definition reverse_dns (ip : val) : M net val :=
  _cached ("rdns:" +:+ py_str repr ip) hour (let* r := ask_now (a_ptr ip) in ret (default VNone r)).

(** The registration among the events, as its local reading and offset. *)
Fixpoint registration_of (evs : list val) : res (option (Z * option Z)) :=
  match evs with
  | [] => Ok None
  | ev :: evs =>
      e ← as_dict ev;
      if val_eq_str (dgetN "eventAction" e) "registration" && truthy (dgetN "eventDate" e)
      then Ok (fromisoformat (replace_zulu (py_str repr (dgetN "eventDate" e))))
      else registration_of evs
  end.
Definition _registration_date (rdap : val) : res (option (Z * option Z)) :=
  d ← as_dict (py_or rdap (VDict []));
  evs ← as_list (py_or (dget_or "events" (VList []) d) (VList []));
  registration_of evs.
(** A date without an offset cannot be subtracted from the current time. *)
Definition age_of (r : option val) : M net val :=
  match r with
  | None => ret VNone
  | Some rdap =>
      match _registration_date rdap with
      | Raise _ | Ok None => ret VNone
      | Ok (Some (_, None)) => raise TypeError
      | Ok (Some (local, Some o)) => let* now := tick in ret (VInt ((now - (local - o)) / day))
      end
  end.
Definition domain_age_days (domain : val) : M net val :=
  match domain with
  | VStr s =>
      let reg := registrable s in
      _cached ("age:" +:+ reg) day (let* r := ask_now (a_rdap reg) in age_of r)
  | _ => raise AttributeError
  end.

Definition fp_map : dict :=
  match fp_file with Some (VDict d) => foldl (λ m kv, dset (lower kv.1) kv.2 m) [] d | _ => [] end.
Definition fingerprint_name (fp : val) : val :=
  if truthy fp then dgetN (lower (py_str repr fp)) fp_map else VNone.

Definition noise_of (r : option val) : val :=
  match r with
  | Some (VDict d) =>
      VDict ([("noise", VBool (truthy (dgetN "noise" d))); ("riot", VBool (truthy (dgetN "riot" d)))] ++
             List.filter (λ kv : string * val, truthy kv.2) ((λ k, (k, dgetN k d)) <$> ["classification"; "name"; "last_seen"]))
  | _ => VNone
  end.
Definition greynoise (ip : val) : M net val :=
  if negb (str_truthy (GREYNOISE_KEY cfg)) then ret VNone
  else _cached ("gn:" +:+ py_str repr ip) hour (let* r := ask_now (a_greynoise ip) in ret (noise_of r)).
(** The parts of the answer are read outside the guarded call. *)
Definition stats_of (data : val) : res val :=
  d ← as_dict (py_or data (VDict []));
  d ← as_dict (py_or (dgetN "data" d) (VDict []));
  d ← as_dict (py_or (dgetN "attributes" d) (VDict []));
  match dgetN "last_analysis_stats" d with
  | VDict s => Ok (VDict ((λ k, (k, dget_or k (VInt 0) s)) <$> ["malicious"; "suspicious"; "harmless"]))
  | _ => Ok VNone
  end.
Definition virustotal (ip : val) : M net val :=
  if negb (str_truthy (VT_KEY cfg)) then ret VNone
  else _cached ("vt:" +:+ py_str repr ip) hour
         (let* r := ask_now (a_virustotal ip) in match r with None => ret VNone | Some data => lift (stats_of data) end).

(** *** The orchestrator *)

Definition put_if (b : bool) (s : string) (k v : val) (i : intel_blocks) : res intel_blocks :=
  if negb b then Ok i else if hashable k then Ok (put_block s k v i) else Raise TypeError.
Definition enrich_ip (v : val) (i : intel_blocks) : M net intel_blocks :=
  let* i := (if RDNS_ON cfg then let* name := reverse_dns v in lift (put_if (truthy name) "rdns" v name i) else ret i) in
  if negb (is_external v) then ret i
  else
    let* gn := greynoise v in
    let* i := lift (put_if (truthy gn) "reputation" v gn i) in
    let* vt := virustotal v in
    lift (put_if (truthy vt) "virustotal" v vt i).
Definition enrich_domain (v : val) (i : intel_blocks) : M net intel_blocks :=
  if negb (RDAP_ON cfg) then ret i
  else
    let* age := domain_age_days v in
    ret (match age with
         | VNone => i
         | age => put_block "domains" v (VDict [("age_days", age); ("nrd", VBool (num_le age (VInt (NRD_DAYS cfg))))]) i
         end).
Definition enrich_item (it : val) (i : intel_blocks) : M net intel_blocks :=
  match it with
  | VDict d =>
      let t := dgetN "type" d in
      let v := dgetN "value" d in
      if negb (truthy v) then ret i
      else if val_eq_str t "ip" then enrich_ip v i
      else if val_in_strs t ["domain"; "sni"] then enrich_domain v i
      else if val_in_strs t ["ja3"; "ja4"] then
        lift (put_if (truthy (fingerprint_name v)) "fingerprints" v (fingerprint_name v) i)
      else ret i
  | _ => ret i
  end.
Fixpoint enrich_items (items : list val) (i : intel_blocks) : M net intel_blocks :=
  match items with
  | [] => ret i
  | it :: items => let* i := enrich_item it i in enrich_items items i
  end.
Definition intel_items (f : dict) : res (list val) :=
  match dgetN "entities" f with
  | VStr s => as_list (default (VList []) (loads s))
  | VList l => Ok l
  | _ => Ok []
  end.
Definition enrich (f : dict) : M net dict :=
  let* items := lift (intel_items f) in
  let* i := enrich_items items [] in
  ret (match i with [] => f | _ => dset "intel" (VDict ((λ sb : string * block, (sb.1, block_val repr sb.2)) <$> i)) f end).

(** What [_deliver_now] does to a finding before it is sent (app.py). *)
Definition enriched (rd : readers) (f : dict) : M net dict :=
  let* f := lift (enrich_finding loads repr is_external rd f) in enrich f.
End intel.

(** ** What is asked of whom *)

Section confined.
Context (cfg : intel_settings) (clock : nat → Z) (reply : nat → ask → option val)
  (loads : string → option val) (repr : val → string) (is_external : val → bool) (fp_file : option val).

(** An entity of a list, by one of its types. *)
Definition entity_in (items : list val) (ts : list string) (v : val) : Prop :=
  ∃ d, VDict d ∈ items ∧ val_in_strs (dgetN "type" d) ts = true ∧ dgetN "value" d = v ∧ truthy v = true.
(** The questions the settings and the entities allow. *)
Definition allowed (items : list val) (a : ask) : Prop :=
  match a with
  | a_ptr ip => RDNS_ON cfg = true ∧ entity_in items ["ip"] ip
  | a_greynoise ip => str_truthy (GREYNOISE_KEY cfg) = true ∧ is_external ip = true ∧ entity_in items ["ip"] ip
  | a_virustotal ip => str_truthy (VT_KEY cfg) = true ∧ is_external ip = true ∧ entity_in items ["ip"] ip
  | a_rdap d => RDAP_ON cfg = true ∧ ∃ s, d = registrable s ∧ entity_in items ["domain"; "sni"] (VStr s)
  end.
(** The log grows, by questions of a kind. *)
Definition asks (P : ask → Prop) (w w' : net) : Prop := ∃ new, n_asked w' = n_asked w ++ new ∧ Forall (λ q, P q.2) new.
#[local] Instance asks_preorder P : PreOrder (asks P).
Proof.
  split.
  - intros w. exists []. by rewrite app_nil_r.
  - intros x y z (n1 & E1 & F1) (n2 & E2 & F2). exists (n1 ++ n2). rewrite E2, E1, app_assoc. split; [done|by apply Forall_app].
Qed.
Lemma asks_still P (w w' : net) : n_asked w' = n_asked w → asks P w w'.
Proof. intros E. exists []. by rewrite E, app_nil_r. Qed.
Lemma asks_weaken (P Q : ask → Prop) {A} (m : M net A) : (∀ a, P a → Q a) → frames (asks P) m → frames (asks Q) m.
Proof. intros H Hm w. destruct (Hm w) as (new & E & F). exists new. split; [done|]. rewrite Forall_forall in *. intros q Hq. apply H, F, Hq. Qed.
Lemma frames_tick P : frames (asks P) (tick clock).
Proof. intros w. by apply asks_still. Qed.
Lemma frames_ask (P : ask → Prop) a : P a → frames (asks P) (ask_now clock reply a).
Proof. intros H w. exists [(clock (pred (n_reads w)), a)]. split; [done|]. by repeat constructor. Qed.
Lemma frames_cached P key ttl produce : frames (asks P) produce → frames (asks P) (_cached clock key ttl produce).
Proof.
  intros Hp. assert (Hgo : ∀ e : Z, frames (asks P) (let* v := produce in modify (remember key (e, v));* ret v)).
  { intros e. apply frames_bind; [exact _|done|]. intros v. apply frames_bind; [exact _|apply frames_modify; [exact _|intros w; by apply asks_still]|].
    intros u. apply frames_ret. exact _. }
  unfold _cached. apply frames_bind; [exact _|apply frames_tick|]. intros now. apply frames_bind; [exact _|apply frames_read; exact _|].
  intros [[e v]|]; [|done]. destruct (now <? e); [apply frames_ret; exact _|done].
Qed.
Lemma frames_age P r : frames (asks P) (age_of clock repr r).
Proof.
  unfold age_of. destruct r as [rdap|]; [|apply frames_ret; exact _]. destruct (_registration_date repr rdap) as [[[l [o|]]|]|].
  - apply frames_bind; [exact _|apply frames_tick|]. intros now. apply frames_ret. exact _.
  - apply frames_raise. exact _.
  - apply frames_ret. exact _.
  - apply frames_ret. exact _.
Qed.
#[local] Hint Resolve frames_tick frames_ask frames_cached frames_age asks_preorder : asks.
#[local] Hint Extern 1 (frames _ (ret _)) => (apply frames_ret; exact _) : asks.
#[local] Hint Extern 1 (frames _ (lift _)) => (apply frames_lift; exact _) : asks.
#[local] Hint Extern 1 (frames _ (raise _)) => (apply frames_raise; exact _) : asks.
#[local] Hint Extern 2 (frames _ (bind _ _)) => (apply frames_bind; [exact _| |intros ?]) : asks.

Lemma frames_ip (P : ask → Prop) v i :
  (RDNS_ON cfg = true → P (a_ptr v)) →
  (is_external v = true → str_truthy (GREYNOISE_KEY cfg) = true → P (a_greynoise v)) →
  (is_external v = true → str_truthy (VT_KEY cfg) = true → P (a_virustotal v)) →
  frames (asks P) (enrich_ip cfg clock reply repr is_external v i).
Proof.
  intros Hr Hg Hv. unfold enrich_ip. apply frames_bind; [exact _| |intros j].
  - destruct (RDNS_ON cfg); [|auto with asks]. unfold reverse_dns. auto 10 with asks.
  - destruct (is_external v); cbn [negb]; [|auto with asks]. apply frames_bind; [exact _| |intros gn].
    + unfold greynoise. destruct (str_truthy (GREYNOISE_KEY cfg)); cbn [negb]; auto 10 with asks.
    + apply frames_bind; [exact _|auto with asks|intros k]. apply frames_bind; [exact _| |intros vt; auto with asks].
      unfold virustotal. destruct (str_truthy (VT_KEY cfg)); cbn [negb]; [|auto with asks]. apply frames_cached.
      apply frames_bind; [exact _|auto with asks|]. intros [data|]; auto with asks.
Qed.
Lemma frames_domain (P : ask → Prop) v i :
  (∀ s, RDAP_ON cfg = true → v = VStr s → P (a_rdap (registrable s))) →
  frames (asks P) (enrich_domain cfg clock reply repr v i).
Proof.
  intros H. unfold enrich_domain. destruct (RDAP_ON cfg); cbn [negb]; [|auto with asks]. apply frames_bind; [exact _| |intros age; auto with asks].
  destruct v; cbn [domain_age_days]; auto with asks.
Qed.
Lemma frames_item items it i : it ∈ items → frames (asks (allowed items)) (enrich_item cfg clock reply repr is_external fp_file it i).
Proof.
  intros Hin. destruct it as [| | | | | |d]; try (apply frames_ret; exact _). cbn [enrich_item].
  destruct (truthy (dgetN "value" d)) eqn:Ht; cbn [negb]; [|auto with asks].
  assert (He : ∀ ts, val_in_strs (dgetN "type" d) ts = true → entity_in items ts (dgetN "value" d)) by (intros ts Hts; by exists d).
  destruct (val_eq_str (dgetN "type" d) "ip") eqn:Hip.
  { assert (Hi : entity_in items ["ip"] (dgetN "value" d)) by (apply He; cbn; by rewrite Hip). by apply frames_ip. }
  destruct (val_in_strs (dgetN "type" d) ["domain"; "sni"]) eqn:Hd.
  { apply frames_domain. intros s Hon Hv. split; [done|]. exists s. split; [done|]. rewrite <- Hv. by apply He. }
  destruct (val_in_strs (dgetN "type" d) ["ja3"; "ja4"]); auto with asks.
Qed.
Lemma frames_items items rest i :
  (∀ it, it ∈ rest → it ∈ items) → frames (asks (allowed items)) (enrich_items cfg clock reply repr is_external fp_file rest i).
Proof.
  revert i. induction rest as [|it rest IH]; intros i Hin; cbn; [auto with asks|]. apply frames_bind; [exact _| |intros j].
  - apply frames_item, Hin. by left.
  - apply IH. intros x Hx. apply Hin. by right.
Qed.

(** C32. Lookups stay within what is switched on and public.  Whatever a finding holds, and
    whether its enrichment returns or raises: the questions it adds are only those of
    adapters that are enabled, about truthy values of its own entities of the right type;
    the reputation services are asked about addresses outside the local network only; and a
    registration is asked for a registrable domain, not for the name itself. *)
Theorem lookups_confined rd f w :
  let w' := (enriched cfg clock reply loads repr is_external fp_file rd f w).1 in
  ∃ new, n_asked w' = n_asked w ++ new ∧
    ∀ t a, (t, a) ∈ new → ∃ f' items, enrich_finding loads repr is_external rd f = Ok f' ∧ intel_items loads f' = Ok items ∧ allowed items a.
Proof.
  cbv zeta. unfold enriched, bind at 1, lift at 1. destruct (enrich_finding _ _ _ _ f) as [f'|e]; [|exists []; split; [by rewrite app_nil_r|by intros t a ?%elem_of_nil]].
  unfold enrich, bind at 1, lift at 1. destruct (intel_items loads f') as [items|e] eqn:Hi; [|exists []; split; [by rewrite app_nil_r|by intros t a ?%elem_of_nil]].
  destruct (frames_bind (asks (allowed items)) (enrich_items cfg clock reply repr is_external fp_file items []) (λ i,
    ret (match i with [] => f' | _ => dset "intel" (VDict ((λ sb : string * block, (sb.1, block_val repr sb.2)) <$> i)) f' end))
    (frames_items items items [] (λ _ H, H)) (λ i, frames_ret _ _) w) as (new & E & F).
  exists new. split; [exact E|]. intros t a Hin. exists f', items. rewrite Forall_forall in F. by specialize (F _ Hin).
Qed.
End confined.

(** ** How often a service is asked *)

Section rate.
Context (cfg : intel_settings) (clock : nat → Z) (reply : nat → ask → option val)
  (loads : string → option val) (repr : val → string) (is_external : val → bool) (fp_file : option val).

Definition cache_key (a : ask) : string :=
  match a with
  | a_ptr ip => "rdns:" +:+ py_str repr ip
  | a_greynoise ip => "gn:" +:+ py_str repr ip
  | a_virustotal ip => "vt:" +:+ py_str repr ip
  | a_rdap d => "age:" +:+ d
  end.
Definition ttl_of (a : ask) : Z := match a with a_rdap _ => day | _ => hour end.
(** Whether the reply to a question makes its adapter raise, and so is not remembered. *)
Definition lost (n : nat) (a : ask) : bool :=
  match a, reply n a with
  | a_virustotal _, Some data => negb (is_ok (stats_of data))
  | a_rdap _, Some rdap => match _registration_date repr rdap with Ok (Some (_, None)) => true | _ => false end
  | _, _ => false
  end.
(** An answered question is in the cache, or a later one of its key is, until its time. *)
Definition cached_until (w : net) : Prop :=
  ∀ n t a, n_asked w !! n = Some (t, a) → lost n a = false → ∃ e v, n_cache w !! cache_key a = Some (e, v) ∧ t + ttl_of a <= e.
Definition spaced (w : net) : Prop :=
  ∀ n m t t' a a', (n < m)%nat → n_asked w !! n = Some (t, a) → n_asked w !! m = Some (t', a') →
    cache_key a = cache_key a' → lost n a = false → t + ttl_of a <= t'.
Definition thrifty (w : net) : Prop := cached_until w ∧ spaced w.
Definition keeps {A} (m : M net A) : Prop := ∀ w, thrifty w → thrifty (m w).1.

Lemma keeps_ret {A} (a : A) : keeps (ret a). Proof. by intros w. Qed.
Lemma keeps_raise {A} e : keeps (@raise net A e). Proof. by intros w. Qed.
Lemma keeps_lift {A} (r : res A) : keeps (@lift net A r). Proof. by intros w. Qed.
Lemma keeps_bind {A B} (m : M net A) (k : A → M net B) : keeps m → (∀ a, keeps (k a)) → keeps (bind m k).
Proof. intros Hm Hk w Hw. unfold bind. specialize (Hm w Hw). destruct (m w) as [w1 [a|e]]; [by apply Hk|done]. Qed.
Lemma keeps_tick : keeps (tick clock). Proof. by intros w. Qed.

(** A production that asks one question and is remembered unless its reply is lost. *)
Definition asks_once (a : ask) (produce : M net val) : Prop :=
  ∀ w, ∃ n c, (produce w).1 = {| n_reads := n; n_cache := n_cache w; n_asked := n_asked w ++ [(clock (pred (n_reads w)), a)] |} ∧
    (produce w).2 = c ∧ (is_ok c = false → lost (length (n_asked w)) a = true).
Lemma keeps_cached a produce : asks_once a produce → keeps (_cached clock (cache_key a) (ttl_of a) produce).
Proof.
  intros Ha w [Hc Hs]. unfold _cached, bind at 1, tick at 1.
  set (w1 := {| n_reads := S (n_reads w); n_cache := n_cache w; n_asked := n_asked w |}). cbn [n_reads n_cache n_asked].
  unfold bind at 1, read at 1. cbn [n_cache w1].
  assert (Hw1 : thrifty w1) by (split; [exact Hc|exact Hs]).
  assert (Go : (∀ e v, n_cache w !! cache_key a = Some (e, v) → e <= clock (n_reads w)) →
    thrifty ((let* v := produce in modify (remember (cache_key a) (clock (n_reads w) + ttl_of a, v));* ret v) w1).1).
  { intros Hold. unfold bind at 1. destruct (Ha w1) as (n & c & Hw & Hr & Hl). destruct (produce w1) as [w2 r] eqn:E.
    cbn [fst snd] in Hw, Hr. subst w2 c. cbn [n_reads n_cache n_asked w1] in *.
    assert (Hlast : ∀ j x, (n_asked w ++ [(clock (pred (S (n_reads w))), a)]) !! j = Some x →
      n_asked w !! j = Some x ∨ j = length (n_asked w) ∧ x = (clock (n_reads w), a)).
    { intros j x Hj. apply lookup_app_Some in Hj as [Hj|[Hle Hj]]; [by left|right]. cbn [pred] in Hj.
      apply list_lookup_singleton_Some in Hj as [Hz <-]. split; [lia|done]. }
    assert (Hsp : spaced {| n_reads := n; n_cache := n_cache w; n_asked := n_asked w ++ [(clock (pred (S (n_reads w))), a)] |}).
    { intros i j t t' b b' Hlt Hi Hj Hk Hb. cbn [n_asked] in *. apply Hlast in Hi as [Hi|[-> [= -> ->]]].
      - apply Hlast in Hj as [Hj|[-> [= -> ->]]]; [by eapply Hs|]. destruct (Hc _ _ _ Hi Hb) as (e & v & He & Hte).
        rewrite Hk in He. specialize (Hold _ _ He). lia.
      - apply Hlast in Hj as [Hj|[-> _]]; [apply lookup_lt_Some in Hj; lia|lia]. }
    destruct r as [v|x]; cbn [fst].
    - split; [|exact Hsp]. intros i t b Hi Hb. cbn. apply Hlast in Hi as [Hi|[-> [= -> ->]]].
      + destruct (Hc _ _ _ Hi Hb) as (e & u & He & Hte). destruct (decide (cache_key a = cache_key b)) as [Ek|Ek].
        * rewrite Ek, lookup_insert_eq. eexists _, _. split; [done|]. rewrite <- Ek in He. specialize (Hold _ _ He).
          assert (0 <= ttl_of a) by (destruct a; done). lia.
        * rewrite lookup_insert_ne by done. eauto.
      + rewrite lookup_insert_eq. eexists _, _. split; [done|lia].
    - split; [|exact Hsp]. intros i t b Hi Hb. cbn. apply Hlast in Hi as [Hi|[-> [= -> ->]]]; [by eapply Hc|].
      by rewrite (Hl eq_refl) in Hb. }
  destruct (n_cache w !! cache_key a) as [[e v]|] eqn:Hit; [|by apply Go].
  destruct (Z.ltb_spec (clock (n_reads w)) e) as [Hlt|Hge]; [exact Hw1|]. apply Go. intros e' v' [= <- <-]. lia.
Qed.
Lemma keeps_rdns ip : keeps (reverse_dns clock reply repr ip).
Proof. apply (keeps_cached (a_ptr ip)). intros w. by eexists _, _. Qed.
Lemma keeps_greynoise ip : keeps (greynoise cfg clock reply repr ip).
Proof.
  unfold greynoise. destruct (negb _); [apply keeps_ret|]. apply (keeps_cached (a_greynoise ip)). intros w. by eexists _, _.
Qed.
Lemma keeps_virustotal ip : keeps (virustotal cfg clock reply repr ip).
Proof.
  unfold virustotal. destruct (negb _); [apply keeps_ret|]. apply (keeps_cached (a_virustotal ip)). intros w.
  unfold lost, bind, ask_now. destruct (reply _ _) as [data|]; [|by eexists _, _]. unfold lift.
  eexists _, _. split; [reflexivity|]. split; [reflexivity|]. cbn [snd]. by intros ->.
Qed.
Lemma keeps_rdap s : keeps (domain_age_days clock reply repr (VStr s)).
Proof.
  apply (keeps_cached (a_rdap (registrable s))). intros w. unfold lost, age_of, bind, ask_now. destruct (reply _ _) as [rdap|]; [|by eexists _, _].
  destruct (_registration_date repr rdap) as [[[l [o|]]|]|]; eexists _, _; (split; [reflexivity|split; [reflexivity|done]]).
Qed.
#[local] Hint Resolve keeps_ret keeps_raise keeps_lift keeps_bind keeps_tick keeps_rdns keeps_greynoise keeps_virustotal keeps_rdap : keeps.
Lemma keeps_item it i : keeps (enrich_item cfg clock reply repr is_external fp_file it i).
Proof.
  destruct it as [| | | | | |d]; auto with keeps. cbn [enrich_item]. destruct (negb _); auto with keeps.
  destruct (val_eq_str _ _).
  - unfold enrich_ip. apply keeps_bind; [destruct (RDNS_ON cfg); auto with keeps|]. intros j. destruct (negb _); auto 10 with keeps.
  - destruct (val_in_strs _ _); [|destruct (val_in_strs _ _); auto with keeps]. unfold enrich_domain. destruct (negb _); auto with keeps.
    apply keeps_bind; [destruct (dgetN "value" d); auto with keeps|]. intros age. apply keeps_ret.
Qed.
Lemma keeps_items items i : keeps (enrich_items cfg clock reply repr is_external fp_file items i).
Proof. revert i. induction items as [|it items IH]; intros i; cbn; auto using keeps_item with keeps. Qed.
Lemma keeps_enriched rd f : keeps (enriched cfg clock reply loads repr is_external fp_file rd f).
Proof.
  unfold enriched, enrich. apply keeps_bind; [auto with keeps|]. intros f'. apply keeps_bind; [auto with keeps|]. intros items.
  apply keeps_bind; [apply keeps_items|auto with keeps].
Qed.

(** Findings enriched one after the other, each whether or not the one before raised. *)
Definition enrich_all (rd : readers) (fs : list dict) (w : net) : net :=
  foldl (λ w f, (enriched cfg clock reply loads repr is_external fp_file rd f w).1) w fs.

(** A service is not asked the same thing again before its answer expires.  Over any
    sequence of findings, with any replies and any clock, even one that goes back: when one
    question of a cache key was asked and its reply did not make the adapter raise, the
    next question of that key was asked at a reading of the clock at least an hour later, a
    day later for registrations. *)
Theorem lookups_rate_limited rd fs n m t t' a a' :
  let w := enrich_all rd fs fresh_net in
  (n < m)%nat → n_asked w !! n = Some (t, a) → n_asked w !! m = Some (t', a') → cache_key a = cache_key a' → lost n a = false →
  t + ttl_of a <= t'.
Proof.
  cbv zeta. assert (H : ∀ w, thrifty w → thrifty (enrich_all rd fs w)).
  { induction fs as [|f fs IH]; intros w Hw; [done|]. apply IH. by apply keeps_enriched. }
  assert (H0 : thrifty fresh_net) by (split; [intros i u b Hi; discriminate Hi|intros i j u u' b b' _ Hi; discriminate Hi]).
  apply (H _ H0).
Qed.
End rate.

(** ** What a finding is given *)

Section given.
Context (loads : string → option val) (repr : val → string) (is_external : val → bool) (rd : readers).

(** The community of a finding: its own, or that of the first entity that has one. *)
Definition community_entity (it : val) : option val :=
  match it with
  | VDict d => if val_eq_str (dgetN "type" d) "community_id" && truthy (dgetN "value" d) then Some (dgetN "value" d) else None
  | _ => None
  end.
Definition community (f : dict) : option val :=
  match dget "community_id" f with Some v => Some v | None => head (omap community_entity (geo_items loads f)) end.
Definition located (items : list val) (ip : val) (info : dict) : Prop :=
  entity_in items ["ip"] ip ∧ is_external ip = true ∧ any_reader rd = true ∧ info = _lookup rd ip ∧ info ≠ [].

Lemma vhas_vput k v b : vhas k b = false → vput k v b = b ++ [(k, v)].
Proof. induction b as [|[k' v'] b IH]; cbn; [done|]. intros [E H]%orb_false_iff. by rewrite E, IH. Qed.
Lemma dhas_dget k f : dhas k f = match dget k f with Some _ => true | None => false end.
Proof. unfold dhas. by destruct (dget k f). Qed.
Lemma lift_community_get it f :
  dget "community_id" (lift_community it f) = match dget "community_id" f with Some v => Some v | None => community_entity (VDict it) end.
Proof.
  unfold lift_community. cbn [community_entity]. rewrite dhas_dget. destruct (dget "community_id" f) eqn:E; cbn [negb].
  - by rewrite andb_false_r.
  - rewrite andb_true_r. destruct (_ && _); [apply dget_dset_eq|done].
Qed.
Lemma lift_community_other it f k : k ≠ "community_id" → dget k (lift_community it f) = dget k f.
Proof. intros H. unfold lift_community. destruct (_ && _); [by rewrite dget_dset_ne|done]. Qed.

(** One entity adds at most its own address, and only when it is not there. *)
Lemma geo_of_spec it g g' :
  geo_of is_external rd it g = Ok g' →
  (g' = g ∧ (∀ info, located [VDict it] (dgetN "value" it) info → vhas (dgetN "value" it) g = true)) ∨
  ∃ info, located [VDict it] (dgetN "value" it) info ∧ vhas (dgetN "value" it) g = false ∧ g' = g ++ [(dgetN "value" it, VDict info)].
Proof.
  unfold geo_of. set (ip := dgetN "value" it).
  assert (Hn : ∀ info, located [VDict it] ip info → val_eq_str (dgetN "type" it) "ip" = true ∧ truthy ip = true).
  { intros info [(d & Hd & Ht & _ & Htr) _]. apply list_elem_of_singleton in Hd. injection Hd as ->. split; [|done]. cbn in Ht. by rewrite orb_false_r in Ht. }
  destruct (val_eq_str (dgetN "type" it) "ip") eqn:Hip; cbn [negb orb];
    [|intros [= <-]; left; split; [done|]; intros info Hl; by destruct (Hn _ Hl)].
  destruct (truthy ip) eqn:Htr; cbn [negb]; [|intros [= <-]; left; split; [done|]; intros info Hl; by destruct (Hn _ Hl)].
  destruct (hashable ip); cbn [negb]; [|discriminate].
  destruct (vhas ip g) eqn:Hv; cbn [orb]; [intros [= <-]; by left|].
  destruct (is_external ip) eqn:He; cbn [negb orb]; [|intros [= <-]; left; split; [done|]; intros info (_ & E & _); congruence].
  destruct (any_reader rd) eqn:Hr; cbn [negb]; [|intros [= <-]; left; split; [done|]; intros info (_ & _ & E & _); congruence].
  destruct (_lookup rd ip) as [|kv info] eqn:Hl; [intros [= <-]; left; split; [done|]; intros info (_ & _ & _ & -> & E); congruence|].
  intros [= <-]. right. exists (kv :: info). split; [|split; [done|by apply vhas_vput]]. split; [|done].
  exists it. split; [by apply list_elem_of_singleton|]. cbn. by rewrite Hip.
Qed.
Lemma located_incl items items' ip info : (∀ it, it ∈ items → it ∈ items') → located items ip info → located items' ip info.
Proof. intros H [(d & Hd & Ht) Hr]. split; [|done]. exists d. split; [by apply H|done]. Qed.

Definition distinct (g : block) : Prop := ∀ pre k v post, g = pre ++ (k, v) :: post → vhas k pre = false.
Definition sound (all : list val) (g : block) : Prop := ∀ ip v, (ip, v) ∈ g → ∃ info, v = VDict info ∧ located all ip info.
Definition given (g : block) (ip : val) : Prop := vhas ip g = true ∨ ip ∈ g.*1.
Lemma distinct_snoc g k v : distinct g → vhas k g = false → distinct (g ++ [(k, v)]).
Proof.
  clear. intros H Hv pre k' v' post. destruct post as [|x post _] using rev_ind.
  - intros [-> [= -> ->]]%app_inj_tail. done.
  - rewrite app_comm_cons, app_assoc. intros [-> _]%app_inj_tail. by eapply H.
Qed.
Lemma given_more g ext ip : given g ip → given (g ++ ext) ip.
Proof.
  clear. intros [H|H]; [left; unfold vhas in *; by rewrite existsb_app, H|right; rewrite fmap_app, elem_of_app; by left].
Qed.

Lemma geo_loop_block all items f g f' g' :
  (∀ it, it ∈ items → it ∈ all) → geo_loop is_external rd items f g = Ok (f', g') → distinct g → sound all g →
  (distinct g' ∧ sound all g') ∧ (∃ ext, g' = g ++ ext) ∧ ∀ ip info, located items ip info → given g' ip.
Proof.
  revert f g. induction items as [|it items IH]; intros f g Hall H Hd Hs.
  { cbn in H. injection H as <- <-. split; [done|]. split; [exists []; by rewrite app_nil_r|]. intros ip info [(d & Hin & _) _]. by apply elem_of_nil in Hin. }
  assert (Hall' : ∀ x, x ∈ items → x ∈ all) by (intros x Hx; apply Hall; by right).
  assert (Skip : geo_loop is_external rd items f g = Ok (f', g') → is_dict it = false →
    (distinct g' ∧ sound all g') ∧ (∃ ext, g' = g ++ ext) ∧ ∀ ip info, located (it :: items) ip info → given g' ip).
  { intros H' Hnd. destruct (IH f g Hall' H' Hd Hs) as (Hi & He & Hl). split; [done|]. split; [done|]. intros ip info [(d & Hin & Ht) Hr].
    apply elem_of_cons in Hin as [<-|Hin]; [discriminate Hnd|]. apply (Hl ip info). split; [by exists d|done]. }
  destruct it as [| | | | | |d]; try (by apply Skip). clear Skip. cbn [geo_loop] in H. apply bind_ok_inv in H as (g1 & Hg1 & H).
  assert (Hone : (distinct g1 ∧ sound all g1) ∧ (∃ ext, g1 = g ++ ext) ∧ ∀ info, located [VDict d] (dgetN "value" d) info → given g1 (dgetN "value" d)).
  { destruct (geo_of_spec _ _ _ Hg1) as [[-> Hv]|(info & Hl & Hv & ->)].
    - split; [done|]. split; [exists []; by rewrite app_nil_r|]. intros info Hl. left. by apply (Hv info).
    - split; [split; [by apply distinct_snoc|]|split; [by eexists|]].
      + intros ip v [Hin|Hin]%elem_of_app; [by apply Hs|]. apply list_elem_of_singleton in Hin. injection Hin as -> ->.
        exists info. split; [done|]. eapply located_incl; [|exact Hl]. intros it ->%list_elem_of_singleton. apply Hall. by left.
      + intros _ _. right. rewrite fmap_app. set_solver. }
  destruct Hone as ([Hd1 Hs1] & (e1 & ->) & Hgot). destruct (IH _ _ Hall' H Hd1 Hs1) as (Hi & (e2 & ->) & Hl). split; [done|].
  split; [exists (e1 ++ e2); by rewrite app_assoc|]. intros ip info [(e & Hin & Ht & Hv & Htr) Hr]. apply elem_of_cons in Hin as [[= ->]|Hin].
  - subst ip. apply given_more. apply (Hgot info). split; [|done]. exists d. split; [by apply list_elem_of_singleton|done].
  - apply (Hl ip info). split; [by exists e|done].
Qed.
Lemma geo_loop_fields items f g f' g' :
  geo_loop is_external rd items f g = Ok (f', g') →
  dget "community_id" f' = (match dget "community_id" f with Some v => Some v | None => head (omap community_entity items) end) ∧
  ∀ k, k ≠ "community_id" → dget k f' = dget k f.
Proof.
  revert f g. induction items as [|it items IH]; intros f g H; [cbn in H; injection H as <- <-; split; [by destruct (dget _ f)|done]|].
  destruct it as [| | | | | |d]; try (by apply (IH f g H)). cbn [geo_loop] in H. apply bind_ok_inv in H as (g1 & _ & H).
  destruct (IH _ _ H) as [Hc Ho]. split; [|intros k Hk; by rewrite Ho, lift_community_other].
  rewrite Hc, lift_community_get. cbn [omap list_omap]. destruct (dget "community_id" f); [done|]. by destruct (community_entity (VDict d)).
Qed.

(** A finding is given what the databases know of its addresses, and its community.  Of an
    enriched finding: the community is its own or that of the first entity that has one;
    the geo block has an entry for every external address of the entities the databases know
    anything of and only for those, with exactly what they know, each address once; there is
    no block when there is no such address; and no other field changes. *)
Theorem findings_located f f' :
  enrich_finding loads repr is_external rd f = Ok f' →
  dget "community_id" f' = community f ∧ (∀ k, k ∉ ["community_id"; "geo"] → dget k f' = dget k f) ∧
  ∃ g, dget "geo" f' = (match g with [] => dget "geo" f | _ => Some (block_val repr g) end) ∧ distinct g ∧
    (∀ ip v, (ip, v) ∈ g → ∃ info, v = VDict info ∧ located (geo_items loads f) ip info) ∧
    ∀ ip info, located (geo_items loads f) ip info → given g ip.
Proof.
  unfold enrich_finding. intros H. apply bind_ok_inv in H as ([f1 g] & Hl & H). cbn [fst snd] in H.
  destruct (geo_loop_fields _ _ _ _ _ Hl) as [Hc Ho].
  destruct (geo_loop_block _ _ _ _ _ _ (λ _ H, H) Hl) as ([Hd Hs] & _ & Hall).
  { intros pre k v post E. by destruct pre. }
  { by intros ip v ?%elem_of_nil. }
  assert (E : f' = match g with [] => f1 | _ => dset "geo" (block_val repr g) f1 end) by (destruct g; by injection H). subst f'. clear H.
  split; [|split].
  - transitivity (dget "community_id" f1); [|exact Hc]. destruct g; [done|]. by rewrite dget_dset_ne.
  - intros k Hk. assert (k ≠ "community_id" ∧ k ≠ "geo") as [H1 H2] by (split; intros ->; apply Hk; set_solver).
    rewrite <- (Ho k H1). destruct g; [done|]. by rewrite dget_dset_ne.
  - exists g. split; [|done]. destruct g; [by apply Ho|apply dget_dset_eq].
Qed.
End given.

(** ** When enrichment returns *)

Section returning.
Context (cfg : intel_settings) (clock : nat → Z) (reply : nat → ask → option val)
  (loads : string → option val) (repr : val → string) (is_external : val → bool) (fp_file : option val).

Definition returns {A} (m : M net A) : Prop := ∀ w, is_ok (m w).2 = true.
Lemma returns_ret {A} (a : A) : returns (ret a). Proof. by intros w. Qed.
Lemma returns_lift {A} (r : res A) : is_ok r = true → returns (@lift net A r). Proof. by intros H w. Qed.
Lemma returns_bind {A B} (m : M net A) (k : A → M net B) : returns m → (∀ a, returns (k a)) → returns (bind m k).
Proof. intros Hm Hk w. unfold bind. specialize (Hm w). destruct (m w) as [w1 [a|e]]; [apply Hk|discriminate Hm]. Qed.
Lemma returns_tick : returns (tick clock). Proof. by intros w. Qed.
Lemma returns_cached key ttl produce : returns produce → returns (_cached clock key ttl produce).
Proof.
  intros Hp. unfold _cached. apply returns_bind; [apply returns_tick|]. intros now. apply returns_bind; [by intros w|].
  assert (Go : ∀ e : Z, returns (let* v := produce in modify (remember key (e, v));* ret v)).
  { intros e. apply returns_bind; [done|]. intros v. apply returns_bind; [by intros w|by intros _ w]. }
  intros [[e v]|]; [destruct (now <? e); [apply returns_ret|]|]; apply Go.
Qed.
Lemma returns_put b s k v i : is_str k = true → returns (@lift net _ (put_if b s k v i)).
Proof. intros H. apply returns_lift. unfold put_if. by destruct b, k. Qed.

(** Every value is a text, and no reply makes its adapter raise. *)
Definition texts_only (items : list val) : Prop := ∀ d, VDict d ∈ items → truthy (dgetN "value" d) = true → is_str (dgetN "value" d) = true.
Hypothesis settled : ∀ n a, lost reply repr n a = false.

Lemma returns_item it i : (∀ d, it = VDict d → truthy (dgetN "value" d) = true → is_str (dgetN "value" d) = true) →
  returns (enrich_item cfg clock reply repr is_external fp_file it i).
Proof using settled.
  intros Ht. destruct it as [| | | | | |d]; try apply returns_ret. cbn [enrich_item]. specialize (Ht d eq_refl).
  destruct (truthy (dgetN "value" d)); cbn [negb]; [|apply returns_ret]. specialize (Ht eq_refl).
  destruct (val_eq_str _ _); [|destruct (val_in_strs _ _); [|destruct (val_in_strs _ _); [by apply returns_put|apply returns_ret]]].
  - unfold enrich_ip. apply returns_bind.
    { destruct (RDNS_ON cfg); [|apply returns_ret]. apply returns_bind; [|intros name; by apply returns_put]. apply returns_cached. by intros w. }
    intros j. destruct (negb _); [apply returns_ret|]. apply returns_bind.
    { unfold greynoise. destruct (negb _); [apply returns_ret|]. apply returns_cached. by intros w. }
    intros gn. apply returns_bind; [by apply returns_put|]. intros k. apply returns_bind; [|intros vt; by apply returns_put].
    unfold virustotal. destruct (negb _); [apply returns_ret|]. apply returns_cached. intros w. unfold bind, ask_now.
    pose proof (settled (length (n_asked w)) (a_virustotal (dgetN "value" d))) as Hs. unfold lost in Hs.
    destruct (reply _ _) as [data|]; [|done]. by apply negb_false_iff in Hs.
  - unfold enrich_domain. destruct (negb _); [apply returns_ret|]. apply returns_bind; [|intros age; apply returns_ret].
    destruct (dgetN "value" d) as [| | | |s| |]; try discriminate Ht. apply returns_cached. intros w. unfold bind, ask_now, age_of.
    pose proof (settled (length (n_asked w)) (a_rdap (registrable s))) as Hs. unfold lost in Hs.
    destruct (reply _ _) as [rdap|]; [|done]. by destruct (_registration_date repr rdap) as [[[l [o|]]|]|].
Qed.
Lemma returns_items items i : texts_only items → returns (enrich_items cfg clock reply repr is_external fp_file items i).
Proof using settled.
  revert i. induction items as [|it items IH]; intros i Ht; cbn; [apply returns_ret|]. apply returns_bind.
  - apply returns_item. intros d ->. apply Ht. by left.
  - intros j. apply IH. intros d Hd. apply Ht. by right.
Qed.
Lemma geo_loop_returns rd items f g : texts_only items → is_ok (geo_loop is_external rd items f g) = true.
Proof using Type.
  clear settled. revert f g. induction items as [|it items IH]; intros f g Ht; [done|].
  assert (Ht' : texts_only items) by (intros d Hd; apply Ht; by right).
  destruct it as [| | | | | |d]; try (by apply IH). cbn [geo_loop]. assert (Hg : is_ok (geo_of is_external rd d g) = true); [|by destruct (geo_of _ _ d g); [apply IH|]].
  unfold geo_of. specialize (Ht d (list_elem_of_here _ _)). destruct (negb (val_eq_str _ _)); [done|].
  destruct (truthy (dgetN "value" d)); [|done]. specialize (Ht eq_refl). destruct (dgetN "value" d); try discriminate Ht. cbn.
  destruct (_ || _); [done|]. by destruct (_lookup _ _).
Qed.

(** A finding whose entities are a list with texts as values is always enriched, when no
    reply is one its adapter raises on; and only three fields can change. *)
Theorem enrichment_returns rd f items w :
  geo_items loads f = items → intel_items loads f = Ok items → texts_only items →
  ∃ w' f', enriched cfg clock reply loads repr is_external fp_file rd f w = (w', Ok f') ∧
    ∀ k, k ∉ ["community_id"; "geo"; "intel"] → dget k f' = dget k f.
Proof using settled.
  intros Hg Hi Ht. unfold enriched. destruct (enrich_finding loads repr is_external rd f) as [f1|e] eqn:E1.
  2: { exfalso. unfold enrich_finding in E1. pose proof (geo_loop_returns rd (geo_items loads f) f []) as Hr. rewrite Hg in Hr, E1.
       specialize (Hr Ht). by destruct (geo_loop _ _ _ _ _). }
  destruct (findings_located _ _ _ _ _ _ E1) as (_ & Ho & _).
  assert (Hi1 : intel_items loads f1 = Ok items).
  { unfold intel_items, dgetN, dget_or in *. rewrite (Ho "entities") by set_solver. done. }
  unfold enrich, bind at 1, lift at 1. unfold bind at 1, lift at 1. rewrite Hi1. unfold bind.
  pose proof (returns_items items [] Ht w) as Hr. destruct (enrich_items _ _ _ _ _ _ _ _ _) as [w' [i|e]]; [|discriminate Hr].
  eexists w', _. split; [reflexivity|]. intros k Hk. rewrite <- (Ho k) by set_solver. destruct i; [done|]. rewrite dget_dset_ne; [done|set_solver].
Qed.
End returning.

(** ** Concrete enrichments *)

Definition no_text (v : val) : string := "?".
Definition all_on : intel_settings := {| RDNS_ON := true; RDAP_ON := true; NRD_DAYS := 30; GREYNOISE_KEY := "k"; VT_KEY := "k" |}.
Definition entity (t : string) (v : val) : val := VDict [("type", VStr t); ("value", v)].
Definition about (items : list val) : dict := [("finding_id", VStr "f1"); ("entities", VList items)].
(** A clock that reads twenty minutes more each time, and services that answer in kind. *)
Definition twenty_minutes (n : nat) : Z := Z.of_nat n * (hour / 3).
Definition answering (vt rdap : val) (n : nat) (a : ask) : option val :=
  match a with
  | a_ptr _ => Some (VStr "host.example")
  | a_greynoise _ => Some (VDict [("noise", VBool true)])
  | a_virustotal _ => Some vt
  | a_rdap _ => Some rdap
  end.
Definition run_with (vt rdap : val) (f : dict) : net * res dict :=
  enriched all_on twenty_minutes (answering vt rdap) (λ _, None) no_text (λ _, true) None no_readers f fresh_net.
Definition registered (date : string) : val :=
  VDict [("events", VList [VDict [("eventAction", VStr "registration"); ("eventDate", VStr date)]])].

Lemma lookups_rate_limited_witness :
  let rdns_only := {| RDNS_ON := true; RDAP_ON := false; NRD_DAYS := 30; GREYNOISE_KEY := ""; VT_KEY := "" |} in
  let f := about [entity "ip" (VStr "10.0.0.5")] in
  (∃ w, w = enrich_all rdns_only twenty_minutes (answering VNone VNone) (λ _, None) no_text (λ _, false) None no_readers [f; f; f; f] fresh_net ∧
     n_asked w = [(0, a_ptr (VStr "10.0.0.5")); (hour, a_ptr (VStr "10.0.0.5"))]) ∧
  0 + ttl_of (a_ptr (VStr "10.0.0.5")) <= hour.
Proof.
  split; [eexists; split; [reflexivity|vm_compute; reflexivity]|].
  apply (lookups_rate_limited {| RDNS_ON := true; RDAP_ON := false; NRD_DAYS := 30; GREYNOISE_KEY := ""; VT_KEY := "" |}
    twenty_minutes (answering VNone VNone) (λ _, None) no_text (λ _, false) None no_readers
    (let f := about [entity "ip" (VStr "10.0.0.5")] in [f; f; f; f]) 0%nat 1%nat 0 hour (a_ptr (VStr "10.0.0.5")) (a_ptr (VStr "10.0.0.5")));
    [lia|vm_compute; reflexivity|vm_compute; reflexivity|reflexivity|reflexivity].
Defined.

(** A registration ten days old makes a new domain, asked for under its registrable name. *)
Example new_domain :
  run_with VNone (registered "1969-12-22T00:00:00Z") (about [entity "sni" (VStr "a.b.shop.co.uk.")]) =
  ({| n_reads := 2; n_cache := {["age:shop.co.uk" := (day, VInt 10)]}; n_asked := [(0, a_rdap "shop.co.uk")] |},
   Ok (about [entity "sni" (VStr "a.b.shop.co.uk.")] ++
       [("intel", VDict [("domains", VDict [("a.b.shop.co.uk.", VDict [("age_days", VInt 10); ("nrd", VBool true)])])])])).
Proof. vm_compute. reflexivity. Qed.
(** The four ways the enrichment raises, and with it the service that runs it unguarded: an
    address that is a list, a domain that is a number, a registration date without an offset,
    a reputation answer that is no object. *)
Example address_list_raises : (run_with VNone VNone (about [entity "ip" (VList [VStr "10.0.0.5"])])).2 = Raise TypeError.
Proof. vm_compute. reflexivity. Qed.
Example domain_number_raises : (run_with VNone VNone (about [entity "domain" (VInt 7)])).2 = Raise AttributeError.
Proof. vm_compute. reflexivity. Qed.
Example naive_date_raises : (run_with VNone (registered "2020-01-01T00:00:00") (about [entity "domain" (VStr "a.example")])).2 = Raise TypeError.
Proof. vm_compute. reflexivity. Qed.
Example reputation_list_raises : (run_with (VList [VInt 1]) VNone (about [entity "ip" (VStr "8.8.8.8")])).2 = Raise AttributeError.
Proof. vm_compute. reflexivity. Qed.
