(* ===== verification/YaraScan.v ===== *)
(** * Isolated scans (services/file-yara/workers.py, scan.py, fileforensics.py)

    A carved file is scanned with every served ruleset, each scan in a child process with
    limits.  The child writes one report; the parent judges the report by how the child
    ended, and the service makes a finding of the matches that count.

    The YARA engine, the archive gate's ZIP reader, the PE parser, SHA-256, the logarithm
    and float sums are parameters.  A report is the value its JSON text stands for.  How a
    child ended is a record: the report that can be read back, if any, the exit code,
    whether the watchdog fired and whether the processor time reached the limit. *)

From S2P Require Import Prelude Order PyVal PyString OrderedMap IsoTime BehavioralScores ObjectKeys FileArtifact YaraRegistry DnsDetector.
Set Default Proof Using "Type".

(** ** Forensics (fileforensics.py) *)

Section forensics.
Context (round3 : float → float) (fsum : list float → float) (log2 : float → float) (pe_parse : string → option dict).
Definition PACKED_ENTROPY : float := lit "7.2".
Definition shannon_entropy (data : string) : float := if str_truthy data then round3 (_shannon fsum log2 data) else f0.
Definition is_pe (data : string) : bool := starts_with "MZ" data.
(** [pe_parse] is [None] when the library is missing or the file cannot be parsed. *)
Definition pe_metadata (data : string) : dict := if is_pe data then default [] (pe_parse data) else [].
Definition forensics (data : string) : dict :=
  let ent := shannon_entropy data in
  [("size", VInt (len data)); ("entropy", VFloat ent)] ++
  (if SFleb PACKED_ENTROPY ent then [("packed_or_encrypted", VBool true)] else []) ++
  match pe_metadata data with [] => [] | pe => [("pe", VDict pe)] end.
End forensics.

(** ** The child (workers.py) *)

Record limits := { memory_bytes : Z; cpu_seconds : Z; wall_us : Z; max_bytes : Z; archive_depth : Z }.
Definition default_limits : limits :=
  {| memory_bytes := 1024 * 1024 * 1024; cpu_seconds := 5; wall_us := 10000000; max_bytes := 64 * 1024 * 1024; archive_depth := 4 |}.
Definition STRING_BYTES : nat := 64.
Definition MAX_STRINGS : nat := 16.
Definition MAX_MATCHES : nat := 128.

Definition hex_digit_char (n : Z) : ascii := ascii_of_N (Z.to_N (if n <? 10 then 48 + n else 87 + n)).
Definition escape_byte (c : ascii) : string :=
  String "092" (String "x" (String (hex_digit_char (code c / 16)) (String (hex_digit_char (code c mod 16)) ""))).
Definition escaped_preview (data : string) : string := String.concat "" (escape_byte <$> list_ascii_of_string (take_chars STRING_BYTES data)).

Section worker.
Context (is_zipfile : string → bool) (infolist : string → res (list member)) (forensic : string → dict).

Definition text_byte (c : ascii) : bool := val_in (VInt (code c)) [VInt 9; VInt 10; VInt 13] || between 32 126 (code c).
Definition sniff_mime (data : string) : string :=
  if starts_with "MZ" data then "application/x-dosexec"
  else if starts_with (String "127" "ELF") data then "application/x-elf"
  else if starts_with "%PDF-" data then "application/pdf"
  else if is_zip is_zipfile data then "application/zip"
  else if str_truthy data && string_forallb text_byte (take_chars 4096 data) then "text/plain"
  else "application/octet-stream".

(** What the engine tells of a rule: whether it matched, and the instances of its strings. *)
Record instance_ := { i_offset : Z; i_data : string; i_length : Z }.
Record engine_rule := { e_name : string; e_matches : bool; e_strings : list (string * list instance_) }.
Definition string_entry (identifier : string) (i : instance_) : val :=
  VDict [("identifier", VStr (take_chars 128 identifier)); ("offset", VInt (i_offset i)); ("data", VStr (escaped_preview (i_data i)));
         ("truncated", VBool (Z.of_nat STRING_BYTES <? i_length i))].
(** The strings of a match and how many instances there were. *)
Definition add_instance (acc : list val * nat) (si : string * instance_) : list val * nat :=
  let '(strings, count) := acc in
  (if (length strings <? MAX_STRINGS)%nat then strings ++ [string_entry si.1 si.2] else strings, S count).
Definition instances_of (m : engine_rule) : list (string * instance_) := e_strings m ≫= λ s, (λ i, (s.1, i)) <$> s.2.
Definition match_entry (m : engine_rule) : val :=
  let '(strings, count) := foldl add_instance ([], 0%nat) (instances_of m) in
  VDict [("rule", VStr (take_chars 256 (e_name m))); ("strings", VList strings); ("strings_truncated", VBool (MAX_STRINGS <? count)%nat)].
(** The callback over the rules in order; an abort ends the scan. *)
Fixpoint collect (ms : list engine_rule) (matches : list val) : list val * bool :=
  match ms with
  | [] => (matches, false)
  | m :: ms =>
      if negb (e_matches m) then collect ms matches
      else if (MAX_MATCHES <=? length matches)%nat then (matches, true)
      else collect ms (matches ++ [match_entry m])
  end.

(** What goes wrong inside the child. *)
Inductive fault := out_of_memory | engine_memory | other_fault.
Context (engine : string → string → list engine_rule + fault).
Definition _match (source data : string) : dict + fault :=
  match engine source data with
  | inr f => inr f
  | inl ms => let '(matches, overflow) := collect ms [] in
              inl [("matches", VList matches); ("matches_truncated", VBool overflow)]
  end.

(** A report written before exiting, or the marker left by a child that kills itself. *)
Inductive child_end := reports (r : dict) | kills_itself (reason : string).
Definition scan_error (e : string) : dict := [("scan_error", VStr e)].
Definition on_fault (f : fault) : child_end :=
  match f with out_of_memory | engine_memory => kills_itself "oom" | other_fault => reports (scan_error "worker_error") end.
Definition match_report (source data mime : string) : child_end :=
  match _match source data with
  | inr f => on_fault f
  | inl r =>
      let r := r ++ [("mime", VStr mime); ("scan_error", VNone)] in
      reports (if truthy (dgetN "matches" r) then r ++ [("file_forensics", VDict (forensic data))] else r)
  end.
(** [archive_memory]: the archive check runs out of memory. *)
Definition _child (archive_memory : bool) (source data : string) (row : ruleset) (lim : limits) : child_end :=
  if negb (str_truthy data) || (Z.min (max_bytes lim) (g_max_size (r_reg row)) <? len data) then reports (scan_error "size_limit")
  else
    let mime := sniff_mime data in
    if archive_memory then on_fault out_of_memory
    else
      match validate_archive is_zipfile infolist (Z.to_nat (archive_depth lim)) (max_bytes lim) data with
      | Raise PolicyError => reports (scan_error "archive_policy")
      | Raise _ => on_fault other_fault
      | Ok _ =>
          match g_mimes (r_reg row) with
          | [] => match_report source data mime
          | targets =>
              if mem mime targets then match_report source data mime
              else reports (scan_error "mime_not_targeted" ++ [("mime", VStr mime)])
          end
      end.
End worker.

(** ** The parent *)

Record ending := { e_output : option dict; e_exit : Z; e_timed_out : bool; e_cpu_over : bool }.
(** How a child can end: by itself, its report or its marker written; by the handler of the
    processor limit; killed at any point, its report written or not; or without a report. *)
Inductive ends (c : child_end) : ending → Prop :=
| exited r timed over : c = reports r → ends c {| e_output := Some r; e_exit := 0; e_timed_out := timed; e_cpu_over := over |}
| marked reason timed over : c = kills_itself reason →
    ends c {| e_output := Some (scan_error reason); e_exit := -9; e_timed_out := timed; e_cpu_over := over |}
| cpu_handler timed over : ends c {| e_output := Some (scan_error "timeout"); e_exit := -9; e_timed_out := timed; e_cpu_over := over |}
| killed out code timed over : code < 0 → (out = None ∨ ∃ r, c = reports r ∧ out = Some r) →
    ends c {| e_output := out; e_exit := code; e_timed_out := timed; e_cpu_over := over |}
| unreported code timed over : 0 <= code → ends c {| e_output := None; e_exit := code; e_timed_out := timed; e_cpu_over := over |}.

Definition limits_ok (lim : limits) : bool :=
  negb ((memory_bytes lim <=? 0) || (cpu_seconds lim <? 1) || (wall_us lim <=? 0) || (max_bytes lim <? 1) || (archive_depth lim <? 0)).
Definition cpu_exhausted (e : ending) : bool := ((e_exit e =? -9) || (e_exit e =? -24)) && e_cpu_over e.
Definition judged (e : ending) : dict :=
  let result := default (scan_error "worker_exit") (e_output e) in
  if e_timed_out e || cpu_exhausted e then scan_error "timeout"
  else if negb (e_exit e =? 0) && negb (val_in_strs (dgetN "scan_error" result) ["timeout"; "oom"])
  then scan_error (if e_exit e <? 0 then "worker_killed" else "worker_exit")
  else result.
Definition run_scan (lim : limits) (e : ending) : res dict :=
  check (limits_ok lim) ValueError;;
  let result := dset "exitcode" (VInt (e_exit e)) (dset "watchdog_killed" (VBool (e_timed_out e)) (judged e)) in
  Ok (if truthy (dgetN "scan_error" result) then dset "matches" (VList []) result else result).

(** ** Results and findings (scan.py) *)

Definition DETECTOR : string := "file_yara".
Definition should_scan (event : dict) (max : Z) : res bool :=
  size ← py_int (py_or (dget_or "size" (VInt 0) event) (VInt 0)); Ok ((0 <? size) && (size <=? max)).

Section results.
Context (sha256 : string → string) (dumps : val → string) (repr : val → string) (engine_version : string) (lim : limits).

(** What one scan is told by the clock and the process table. *)
Record run := { u_time : Z; u_end : ending }.
Definition base_result (pcap : val) (u : run) (row : ruleset) : dict :=
  [("ruleset_id", VStr (r_id row)); ("ruleset_version", VStr (g_version (r_reg row))); ("ruleset_sha256", VStr (r_sha256 row));
   ("engine_version", VStr engine_version); ("status", VStr (r_status row)); ("scanned_at", VStr (emitted_text (u_time u)))] ++
  (if truthy pcap then [("pcap_evidence_id", pcap)] else []).
Definition acted_on (row : ruleset) (r : dict) : res bool :=
  if negb (String.eqb (r_status row) "active") || truthy (dgetN "scan_error" r) then Ok false
  else m ← dindex "matches" r; Ok (truthy m).
Definition scan_row (g : registry) (pcap : val) (u : run) (row : ruleset) : res dict :=
  let base := base_result pcap u row in
  r ← match load_bytes sha256 g (r_id row) with
      | Raise KeyError | Raise IntegrityError => Ok (dupdate base [("scan_error", VStr "ruleset_integrity"); ("matches", VList [])])
      | Raise e => Raise e
      | Ok _ => r ← run_scan lim (u_end u); Ok (dupdate base r)
      end;
  a ← acted_on row r;
  Ok (dset "acted" (VBool a) r).
Fixpoint scan_rows (g : registry) (pcap : val) (runs : nat → run) (n : nat) (rows : list ruleset) : res (list dict) :=
  match rows with
  | [] => Ok []
  | row :: rows => r ← scan_row g pcap (runs n) row; rs ← scan_rows g pcap runs (S n) rows; Ok (r :: rs)
  end.
(** [None]: the service runs without a registry. *)
Definition scan_bytes (g : option registry) (pcap : val) (runs : nat → run) : res (list dict) :=
  match g with None => Ok [] | Some g => scan_rows g pcap runs 0 (active_for_scan g None) end.

Definition text_of (v : val) : option string := match v with VStr s => Some s | _ => None end.
(** The rules of a result's matches; every match carries its rule's name. *)
Definition rules_of (r : dict) : list string :=
  match dgetN "matches" r with
  | VList ms => omap (λ m, match m with VDict d => text_of (dgetN "rule" d) | _ => None end) ms
  | _ => []
  end.
Definition acted (r : dict) : bool := truthy (dgetN "acted" r).
Definition acted_rules (results : list dict) : list string := isort (λ x, x) (dedup_onto [] (List.filter acted results ≫= rules_of)).
(** The digest is a text by then: the reference check of the caller made sure. *)
Definition first_digits (n : nat) (v : val) : string := match v with VStr s => take_chars n s | _ => "" end.
Definition finding_from_matches (event : dict) (rules : list string) (tenant : string) (now : Z) : option dict :=
  match rules with
  | [] => None
  | _ =>
      let sha := dget_or "sha256" (VStr "") event in
      let ref := dget_or "object_ref" (VStr "") event in
      let stem := first_digits 16 sha in
      let seen := VStr (emitted_text now) in
      Some [("finding_id", VStr (DETECTOR +:+ "-" +:+ (if str_truthy stem then stem else "nohash"))); ("tenant_id", VStr tenant);
            ("detector_id", VStr DETECTOR); ("detector_version", VStr "1.0"); ("category", VStr "malware"); ("severity", VInt 9);
            ("confidence", VFloat (lit "0.9")); ("first_seen", seen); ("last_seen", seen);
            ("entities", VStr (dumps (VList [
               VDict [("type", VStr "ip"); ("role", VStr "sensor"); ("value", dget_or "sensor_id" (VStr "") event)];
               VDict [("type", VStr "file_sha256"); ("value", sha)];
               VDict [("type", VStr "yara_rules"); ("value", VList (VStr <$> rules))];
               VDict [("type", VStr "mime"); ("value", dget_or "mime" (VStr "") event)]])));
            ("evidence_refs", VList (if truthy ref then [VStr ("minio://" +:+ py_str repr ref)] else []));
            ("mitre", VList [VStr "T1204"]); ("state", VStr "CANDIDATE")]
  end.
Definition forensics_of (r : dict) : option val := if acted r then dget "file_forensics" r else None.
Definition finding_from_results (event : dict) (results : list dict) (tenant : string) (now : Z) : option dict :=
  f ← finding_from_matches event (acted_rules results) tenant now;
  Some (f ++ [("yara_results", VList (VDict <$> results)); ("file_forensics", default (VDict []) (head (omap forensics_of results)))]).
End results.

(** ** What a report holds *)

Lemma add_instances_spec l acc n :
  (length acc <= MAX_STRINGS)%nat →
  foldl add_instance (acc, n) l = (acc ++ take (MAX_STRINGS - length acc) ((λ si, string_entry si.1 si.2) <$> l), (n + length l)%nat).
Proof.
  revert acc n. induction l as [|si l IH]; intros acc n Hl; cbn [foldl fmap list_fmap length]; [by rewrite take_nil, app_nil_r, Nat.add_0_r|].
  cbn [add_instance]. destruct (Nat.ltb_spec (length acc) MAX_STRINGS).
  - rewrite IH by (rewrite length_app; cbn; lia). rewrite length_app, <- app_assoc. cbn [length]. f_equal; [|lia]. f_equal.
    destruct (MAX_STRINGS - length acc)%nat eqn:E; [lia|]. cbn [take app]. do 2 f_equal. lia.
  - rewrite IH by done. replace (MAX_STRINGS - length acc)%nat with 0%nat by lia. cbn [take]. f_equal. lia.
Qed.
(** The first strings of a match, bounded, and whether there were more. *)
Lemma match_entry_spec m :
  match_entry m = VDict [("rule", VStr (take_chars 256 (e_name m)));
    ("strings", VList (take MAX_STRINGS ((λ si, string_entry si.1 si.2) <$> instances_of m)));
    ("strings_truncated", VBool (MAX_STRINGS <? length (instances_of m))%nat)].
Proof. unfold match_entry. rewrite add_instances_spec by (cbn; lia). done. Qed.
Lemma collect_spec ms acc :
  (length acc <= MAX_MATCHES)%nat →
  let hits := List.filter e_matches ms in
  collect ms acc = (acc ++ take (MAX_MATCHES - length acc) (match_entry <$> hits), (MAX_MATCHES <? length acc + length hits)%nat).
Proof.
  cbv zeta. revert acc. induction ms as [|m ms IH]; intros acc Hl; cbn [collect List.filter].
  { cbn [fmap list_fmap]. rewrite take_nil, app_nil_r. cbn [length]. rewrite Nat.add_0_r. f_equal. symmetry. by apply Nat.ltb_ge. }
  destruct (e_matches m); cbn [negb]; [|by apply IH]. destruct (Nat.leb_spec MAX_MATCHES (length acc)).
  - replace (MAX_MATCHES - length acc)%nat with 0%nat by lia. cbn [take fmap list_fmap]. rewrite app_nil_r. f_equal. symmetry. apply Nat.ltb_lt. cbn [length]. lia.
  - rewrite IH by (rewrite length_app; cbn; lia). rewrite length_app, <- app_assoc. cbn [length fmap list_fmap app]. f_equal; [|f_equal; lia]. f_equal.
    destruct (MAX_MATCHES - length acc)%nat eqn:E; [lia|]. cbn [take]. do 2 f_equal. lia.
Qed.
(** A preview shows each of the first bytes as its code, so nothing of the content is left
    as text, and its length is bounded. *)
Lemma preview_length data : (String.length (escaped_preview data) <= 4 * STRING_BYTES)%nat.
Proof.
  assert (H : ∀ l, String.length (String.concat "" (escape_byte <$> l)) = (4 * length l)%nat).
  { induction l as [|c l IH]; [done|]. cbn [fmap list_fmap]. destruct l as [|d l]; [done|].
    change (String.concat "" (escape_byte c :: (escape_byte <$> d :: l))) with (escape_byte c +:+ "" +:+ String.concat "" (escape_byte <$> d :: l)).
    cbn [append escape_byte String.length] in *. rewrite IH. cbn [length]. lia. }
  unfold escaped_preview. rewrite H. enough (length (list_ascii_of_string (take_chars STRING_BYTES data)) <= STRING_BYTES)%nat by lia.
  generalize STRING_BYTES as n. clear H. revert data. induction data as [|c s IH]; intros [|n]; cbn; try lia. specialize (IH n). lia.
Qed.

(** ** What counts *)

(** The child ended by itself with this report. *)
Definition finished (c : child_end) (e : ending) (r : dict) : Prop :=
  c = reports r ∧ e_output e = Some r ∧ e_exit e = 0 ∧ e_timed_out e = false.
(** A nonzero exit, a watchdog and a missing report are always an error. *)
Lemma judged_failed e : e_exit e ≠ 0 ∨ e_timed_out e = true ∨ e_output e = None → truthy (dgetN "scan_error" (judged e)) = true.
Proof.
  intros H. unfold judged. destruct (e_timed_out e) eqn:Et; [done|]. destruct (cpu_exhausted e); [done|]. cbn [orb].
  destruct (Z.eqb_spec (e_exit e) 0) as [Hz|Hz]; cbn [negb andb].
  - destruct H as [H|[H|H]]; [congruence|done|by rewrite H].
  - destruct (val_in_strs _ _) eqn:Ev; cbn [negb]; [|by destruct (e_exit e <? 0)].
    apply val_in_strs_true in Ev as (s & -> & Hs). by repeat (apply elem_of_cons in Hs as [->|Hs]; [done|]); apply elem_of_nil in Hs.
Qed.
(** A result without an error is the report of a child that ended by itself. *)
Lemma run_scan_clean lim c e r :
  ends c e → run_scan lim e = Ok r → truthy (dgetN "scan_error" r) = false →
  ∃ r0, finished c e r0 ∧ truthy (dgetN "scan_error" r0) = false ∧
    r = dset "exitcode" (VInt 0) (dset "watchdog_killed" (VBool false) r0).
Proof.
  intros He H Hclean. unfold run_scan in H. apply bind_ok_inv in H as ([] & _ & H).
  set (r1 := dset "exitcode" _ _) in H. apply Ok_inj in H. subst r.
  destruct (truthy (dgetN "scan_error" r1)) eqn:Hr1; [rewrite dgetN_dset_ne, Hr1 in Hclean by done; discriminate Hclean|].
  unfold r1 in *. clear r1 Hclean. rewrite !dgetN_dset_ne in Hr1 by done.
  destruct (decide (e_exit e = 0)) as [Hz|Hz]; [|by rewrite judged_failed in Hr1 by auto].
  destruct (e_timed_out e) eqn:Et; [by rewrite judged_failed in Hr1 by auto|].
  destruct (e_output e) as [r0|] eqn:Eo; [|by rewrite judged_failed in Hr1 by auto].
  assert (Hj : judged e = r0) by (unfold judged, cpu_exhausted; by rewrite Et, Eo, Hz). rewrite Hj, Hz in *.
  exists r0. split; [|done]. split; [|done]. destruct He; cbn in *; try congruence; lia.
Qed.
Lemma run_scan_finished lim c e r0 :
  limits_ok lim = true → finished c e r0 → truthy (dgetN "scan_error" r0) = false →
  run_scan lim e = Ok (dset "exitcode" (VInt 0) (dset "watchdog_killed" (VBool false) r0)).
Proof.
  intros Hl (_ & Ho & Hz & Ht) Hr. unfold run_scan. rewrite Hl. cbn [check mbind res_bind].
  assert (Hj : judged e = r0) by (unfold judged, cpu_exhausted; by rewrite Ht, Ho, Hz). rewrite Hj, Hz, Ht, !dgetN_dset_ne, Hr by done. done.
Qed.

Section grounded.
Context (is_zipfile : string → bool) (infolist : string → res (list member)) (forensic : string → dict)
  (engine : string → string → list engine_rule + fault) (lim : limits).
Abbreviation child := (_child is_zipfile infolist forensic engine).
Abbreviation archive_ok := (validate_archive is_zipfile infolist).

(** A clean report comes of a file within the limits, an archive that passed, a targeted
    type, and holds the first matches of the engine. *)
Lemma child_clean memory source data row r :
  child memory source data row lim = reports r → truthy (dgetN "scan_error" r) = false →
  0 < len data <= Z.min (max_bytes lim) (g_max_size (r_reg row)) ∧
  archive_ok (Z.to_nat (archive_depth lim)) (max_bytes lim) data = Ok tt ∧
  (g_mimes (r_reg row) = [] ∨ sniff_mime is_zipfile data ∈ g_mimes (r_reg row)) ∧
  ∃ ms, engine source data = inl ms ∧ dgetN "matches" r = VList (take MAX_MATCHES (match_entry <$> List.filter e_matches ms)).
Proof.
  unfold _child. destruct (negb (str_truthy data) || _) eqn:Hsize; [intros [= <-]; discriminate|].
  apply orb_false_iff in Hsize as [Hne Hle]. destruct memory; [discriminate|].
  destruct (archive_ok _ _ data) as [[]|e] eqn:Ha; [|destruct e; intros [= <-]; discriminate].
  assert (Hr : match_report forensic engine source data (sniff_mime is_zipfile data) = reports r → truthy (dgetN "scan_error" r) = false →
    ∃ ms, engine source data = inl ms ∧ dgetN "matches" r = VList (take MAX_MATCHES (match_entry <$> List.filter e_matches ms))).
  { unfold match_report, _match. destruct (engine source data) as [ms|f]; [|destruct f; intros [= <-]; discriminate].
    rewrite collect_spec by (cbn; lia). intros E _. exists ms. split; [done|]. injection E as <-. by case_match. }
  assert (Hlen : 0 < len data <= Z.min (max_bytes lim) (g_max_size (r_reg row))).
  { apply Z.ltb_ge in Hle. split; [|done]. apply negb_false_iff in Hne. unfold str_truthy in Hne. apply negb_true_iff, String.eqb_neq in Hne.
    unfold len. destruct data; [done|]. cbn [String.length]. lia. }
  intros H Hc. split; [done|]. split; [done|]. destruct (g_mimes (r_reg row)) as [|m l] eqn:Em; [split; [by left|by apply Hr]|].
  destruct (mem _ _) eqn:Hm; [|injection H as <-; discriminate Hc]. split; [right; by apply mem_true|by apply Hr].
Qed.
Lemma child_nodup memory source data row r : child memory source data row lim = reports r → NoDup r.*1.
Proof.
  assert (H : ∀ r, match_report forensic engine source data (sniff_mime is_zipfile data) = reports r → NoDup r.*1).
  { intros r'. unfold match_report, _match. destruct (engine source data) as [ms|f]; [|destruct f; intros [= <-]; apply (bool_decide_unpack _); exact I].
    destruct (collect ms []) as [l o]. intros E. injection E as <-. case_match; apply (bool_decide_unpack _); exact I. }
  unfold _child. destruct (_ || _); [intros [= <-]; apply (bool_decide_unpack _); exact I|]. destruct memory; [discriminate|].
  destruct (archive_ok _ _ data) as [[]|e]; [|destruct e; intros [= <-]; apply (bool_decide_unpack _); exact I].
  destruct (g_mimes (r_reg row)); [apply H|]. destruct (mem _ _); [apply H|]. intros [= <-]. apply (bool_decide_unpack _); exact I.
Qed.
Lemma run_scan_nodup memory source data row e r :
  ends (child memory source data row lim) e → run_scan lim e = Ok r → NoDup r.*1.
Proof.
  intros He H. unfold run_scan in H. apply bind_ok_inv in H as ([] & _ & H). set (r1 := dset "exitcode" _ _) in H. apply Ok_inj in H. subst r.
  assert (H1 : NoDup r1.*1); [|destruct (truthy _); [by apply NoDup_dset|done]]. do 2 apply NoDup_dset. unfold judged.
  destruct (_ || _); [apply (bool_decide_unpack _); exact I|]. destruct (_ && _); [destruct (_ <? _); apply (bool_decide_unpack _); exact I|].
  destruct He as [r0 t o Hc|reason t o Hc|t o|out code t o Hz Hout|code t o Hz]; cbn; try (apply (bool_decide_unpack _); exact I).
  - by eapply child_nodup.
  - destruct Hout as [->|(r0 & Hc & ->)]; cbn; [apply (bool_decide_unpack _); exact I|by eapply child_nodup].
Qed.

Context (sha256 : string → string) (dumps repr : val → string) (engine_version : string).
Abbreviation results_of := (scan_rows sha256 engine_version lim).

Lemma scan_rows_spec g pcap runs n rows results :
  results_of g pcap runs n rows = Ok results →
  length results = length rows ∧
  ∀ i row, rows !! i = Some row → ∃ r, results !! i = Some r ∧ scan_row sha256 engine_version lim g pcap (runs (n + i)%nat) row = Ok r.
Proof.
  revert n results. induction rows as [|row rows IH]; intros n results H; cbn in H; [injection H as <-; by split|].
  apply bind_ok_inv in H as (r & Hr & H). apply bind_ok_inv in H as (rs & Hrs & H). apply Ok_inj in H. subst results.
  destruct (IH _ _ Hrs) as [Hl Hi]. split; [cbn; by rewrite Hl|]. intros [|i] row' Hrow; cbn in Hrow.
  - injection Hrow as <-. exists r. by rewrite Nat.add_0_r.
  - destruct (Hi i row' Hrow) as (r' & Hr' & Hs). exists r'. by rewrite Nat.add_succ_r.
Qed.
Lemma rules_of_entries ms :
  omap (λ m, match m with VDict d => text_of (dgetN "rule" d) | _ => None end) (take MAX_MATCHES (match_entry <$> ms)) =
  take MAX_MATCHES ((λ m, take_chars 256 (e_name m)) <$> ms).
Proof.
  clear. generalize MAX_MATCHES as n. induction ms as [|m ms IH]; intros [|n]; cbn [take fmap list_fmap omap list_omap]; try done.
  rewrite match_entry_spec. cbn. by rewrite <- IH.
Qed.
Lemma run_scan_limits e r : run_scan lim e = Ok r → limits_ok lim = true.
Proof. unfold run_scan. intros H. apply bind_ok_inv in H as (u & Hu & _). by apply check_ok_inv in Hu. Qed.
(** A result is acted on when its ruleset is active, could be loaded, and its scan ended
    cleanly with a match. *)
Lemma scan_row_acted memory g pcap u row data r :
  (∀ source, load_bytes sha256 g (r_id row) = Ok source → ends (child memory source data row lim) (u_end u)) →
  scan_row sha256 engine_version lim g pcap u row = Ok r →
  (acted r = true → ∃ source r0 ms, r_status row = "active" ∧ load_bytes sha256 g (r_id row) = Ok source ∧
     finished (child memory source data row lim) (u_end u) r0 ∧ truthy (dgetN "scan_error" r0) = false ∧
     engine source data = inl ms ∧ rules_of r = take MAX_MATCHES ((λ m, take_chars 256 (e_name m)) <$> List.filter e_matches ms)) ∧
  (∀ source r0 ms m, r_status row = "active" → load_bytes sha256 g (r_id row) = Ok source →
     finished (child memory source data row lim) (u_end u) r0 → truthy (dgetN "scan_error" r0) = false →
     engine source data = inl ms → m ∈ List.filter e_matches ms → acted r = true).
Proof.
  intros He H. unfold scan_row in H. apply bind_ok_inv in H as (r1 & Hr1 & H). apply bind_ok_inv in H as (a & Ha & H). apply Ok_inj in H. subst r.
  assert (Hacted : acted (dset "acted" (VBool a) r1) = a) by (unfold acted; by rewrite dgetN_dset_eq). rewrite Hacted.
  assert (Hrules : rules_of (dset "acted" (VBool a) r1) = rules_of r1) by (unfold rules_of; by rewrite dgetN_dset_ne). rewrite Hrules. clear Hacted Hrules.
  unfold acted_on in Ha. destruct (load_bytes sha256 g (r_id row)) as [source|x] eqn:Hload.
  - apply bind_ok_inv in Hr1 as (r & Hrun & Hr1). apply Ok_inj in Hr1. subst r1. specialize (He source eq_refl).
    pose proof (run_scan_nodup _ _ _ _ _ _ He Hrun) as Hnd.
    assert (Hsame : ∀ k, dget k (base_result engine_version pcap u row) = None → dget k (dupdate (base_result engine_version pcap u row) r) = dget k r).
    { intros k Hk. rewrite dget_dupdate, Hk by done. by destruct (dget k r). }
    assert (Hbase : ∀ k, k ∈ ["scan_error"; "matches"] → dget k (base_result engine_version pcap u row) = None).
    { intros k Hk. unfold base_result. repeat (apply elem_of_cons in Hk as [->|Hk]; [by destruct (truthy pcap)|]). by apply elem_of_nil in Hk. }
    assert (Herr : dgetN "scan_error" (dupdate (base_result engine_version pcap u row) r) = dgetN "scan_error" r)
      by (unfold dgetN, dget_or; by rewrite (Hsame _ (Hbase _ (list_elem_of_here _ _)))).
    assert (Hmat : dget "matches" (dupdate (base_result engine_version pcap u row) r) = dget "matches" r)
      by (apply Hsame, Hbase; right; left).
    rewrite Herr in Ha. clear Hsame Hbase Herr. assert (Hr2 : rules_of (dupdate (base_result engine_version pcap u row) r) = rules_of r)
      by (unfold rules_of, dgetN, dget_or; by rewrite Hmat). rewrite Hr2. clear Hr2.
    unfold dindex in Ha. rewrite Hmat in Ha. clear Hmat. split.
    + intros ->. destruct (String.eqb_spec (r_status row) "active") as [Hst|]; [|discriminate Ha]. cbn [negb orb] in Ha.
      destruct (truthy (dgetN "scan_error" r)) eqn:Hc; [discriminate Ha|].
      destruct (run_scan_clean _ _ _ _ He Hrun Hc) as (r0 & Hf & Hc0 & ->).
      destruct (child_clean _ _ _ _ _ (proj1 Hf) Hc0) as (_ & _ & _ & ms & Hms & Hm). exists source, r0, ms. do 5 (split; [done|]).
      unfold rules_of. rewrite !dgetN_dset_ne, Hm by done. apply rules_of_entries.
    + intros source' r0 ms m Hst [= <-] Hf Hc0 Hms Hin. rewrite (run_scan_finished _ _ _ _ (run_scan_limits _ _ Hrun) Hf Hc0) in Hrun.
      apply Ok_inj in Hrun. subst r. rewrite !dgetN_dset_ne, Hc0, Hst in Ha by done. cbn [negb orb String.eqb] in Ha.
      destruct (child_clean _ _ _ _ _ (proj1 Hf) Hc0) as (_ & _ & _ & ms' & Hms' & Hm). rewrite Hms in Hms'. injection Hms' as <-.
      unfold dgetN, dget_or in Hm. rewrite !dget_dset_ne in Ha by done. destruct (dget "matches" r0) as [v|]; [|discriminate Hm]. cbn in Hm. subst v.
      cbn in Ha. injection Ha as <-. destruct (List.filter e_matches ms); [by apply elem_of_nil in Hin|done].
  - revert Hr1. generalize (base_result engine_version pcap u row) as base. intros base Hr1.
    destruct x; try discriminate Hr1; apply Ok_inj in Hr1; subst r1; (split; [|intros source r0 ms m _ [=]]);
      intros ->; destruct (negb _); cbn [orb] in Ha; try discriminate Ha; unfold dgetN, dget_or in Ha;
      rewrite dget_dupdate in Ha by (apply (bool_decide_unpack _); exact I); discriminate Ha.
Qed.

(** A rule counts: an active ruleset whose stored bytes verified, whose child ended by itself
    with a report without an error, matched it among the first matches. *)
Definition counts (g : registry) (memory : nat → bool) (data : string) (runs : nat → run) (name : string) : Prop :=
  ∃ n row source r0 ms m, active_for_scan g None !! n = Some row ∧ r_status row = "active" ∧ load_bytes sha256 g (r_id row) = Ok source ∧
    finished (child (memory n) source data row lim) (u_end (runs n)) r0 ∧ truthy (dgetN "scan_error" r0) = false ∧
    engine source data = inl ms ∧ m ∈ take MAX_MATCHES (List.filter e_matches ms) ∧ name = take_chars 256 (e_name m).

Lemma acted_rules_elem results name :
  name ∈ acted_rules results ↔ ∃ i r, results !! i = Some r ∧ acted r = true ∧ name ∈ rules_of r.
Proof.
  clear. unfold acted_rules. rewrite elem_of_isort, elem_of_dedup_onto, elem_of_nil, list_elem_of_bind. split.
  - intros [[]|(r & Hn & Hr)]. apply elem_filter in Hr as [Hr Ha]. apply list_elem_of_lookup in Hr as [i Hi]. eauto.
  - intros (i & r & Hi & Ha & Hn). right. exists r. split; [done|]. apply elem_filter. split; [by eapply list_elem_of_lookup_2|done].
Qed.
Lemma finding_none event results tenant now :
  finding_from_results dumps repr event results tenant now = None ↔ acted_rules results = [].
Proof. clear. unfold finding_from_results, finding_from_matches. by destruct (acted_rules results). Qed.

(** C20. A malware finding rests on matches that count, and on nothing else.  However the
    children of a scan ended (out of memory, out of time, killed, crashed, their report
    written or not): every served ruleset has one result; the rules of the finding are
    exactly those an active ruleset matched whose bytes verified against the registered
    digest and whose child ended by itself without an error, never those of a shadow
    ruleset or a failed scan (of each ruleset the first 128 matches, a name cut after 256
    characters); there is a finding exactly when there is such a rule; and the
    file was then within the size limits and its archives passed the policy. *)
Theorem yara_findings_grounded g memory data pcap runs results event tenant now :
  scan_bytes sha256 engine_version lim (Some g) pcap runs = Ok results →
  (∀ n row source, active_for_scan g None !! n = Some row → load_bytes sha256 g (r_id row) = Ok source →
     ends (child (memory n) source data row lim) (u_end (runs n))) →
  length results = length (active_for_scan g None) ∧
  (∀ name, name ∈ acted_rules results ↔ counts g memory data runs name) ∧
  (finding_from_results dumps repr event results tenant now = None ↔ ∀ name, ¬ counts g memory data runs name) ∧
  ∀ name, counts g memory data runs name →
    0 < len data <= max_bytes lim ∧ archive_ok (Z.to_nat (archive_depth lim)) (max_bytes lim) data = Ok tt.
Proof.
  intros H He. cbn [scan_bytes] in H. destruct (scan_rows_spec _ _ _ _ _ _ H) as [Hlen Hres].
  assert (Hrow : ∀ i row, active_for_scan g None !! i = Some row →
    ∃ r, results !! i = Some r ∧ scan_row sha256 engine_version lim g pcap (runs i) row = Ok r) by (intros i row Hi; apply (Hres i row Hi)).
  assert (Hiff : ∀ name, name ∈ acted_rules results ↔ counts g memory data runs name).
  { intros name. rewrite acted_rules_elem. split.
    - intros (i & r & Hi & Ha & Hn). destruct (lookup_lt_is_Some_2 (active_for_scan g None) i) as [row Hrw].
      { rewrite <- Hlen. by eapply lookup_lt_Some. }
      destruct (Hrow i row Hrw) as (r' & Hr' & Hs). rewrite Hi in Hr'. injection Hr' as <-.
      destruct (scan_row_acted (memory i) g pcap (runs i) row data r (λ source, He i row source Hrw) Hs) as [Hact _].
      destruct (Hact Ha) as (source & r0 & ms & Hst & Hl & Hf & Hc & Hms & Hru). rewrite Hru, <- fmap_take in Hn.
      apply list_elem_of_fmap in Hn as (m & -> & Hm). by exists i, row, source, r0, ms, m.
    - intros (i & row & source & r0 & ms & m & Hrw & Hst & Hl & Hf & Hc & Hms & Hm & ->).
      destruct (Hrow i row Hrw) as (r & Hi & Hs). exists i, r. split; [done|].
      destruct (scan_row_acted (memory i) g pcap (runs i) row data r (λ source, He i row source Hrw) Hs) as [Hact Hback].
      pose proof (Hback source r0 ms m Hst Hl Hf Hc Hms (elem_take _ _ _ Hm)) as Ha. split; [done|].
      destruct (Hact Ha) as (source' & r1 & ms' & _ & Hl' & Hf' & _ & Hms' & Hru). rewrite Hl in Hl'. injection Hl' as <-.
      rewrite Hms in Hms'. injection Hms' as <-. rewrite Hru, <- fmap_take. apply list_elem_of_fmap. by exists m. }
  split; [done|]. split; [done|]. split.
  - rewrite finding_none. split.
    + intros E name Hn. apply Hiff in Hn. rewrite E in Hn. by apply elem_of_nil in Hn.
    + intros Hno. destruct (acted_rules results) as [|name l] eqn:E; [done|]. exfalso. apply (Hno name), (proj1 (Hiff name)). by left.
  - intros name (i & row & source & r0 & ms & m & _ & _ & _ & Hf & Hc & _). destruct (child_clean _ _ _ _ _ (proj1 Hf) Hc) as (Hsz & Har & _). split; [lia|done].
Qed.
End grounded.

(** ** A concrete scan *)

Definition no_zip (s : string) : bool := false.
Definition no_members (s : string) : res (list member) := Ok [].
Definition demo_engine (source data : string) : list engine_rule + fault :=
  inl [{| e_name := "evil"; e_matches := true; e_strings := [("$a", [{| i_offset := 0; i_data := "MZ"; i_length := 2 |}])] |}].
Definition active_one : registry := promote_now "active" "secops" (promote_now "shadow" "secops" drafted).
Definition demo_child (g : registry) : child_end :=
  match active_for_scan g None with
  | row :: _ => match load_bytes plain_digest g (r_id row) with
                | Ok source => _child no_zip no_members (λ _, []) demo_engine false source "MZ" row default_limits
                | Raise _ => kills_itself ""
                end
  | [] => kills_itself ""
  end.
(** The child of [g] that ends by itself, and one killed after it wrote its report. *)
Definition ending_of (g : registry) (code : Z) : ending :=
  {| e_output := match demo_child g with reports r => Some r | _ => None end; e_exit := code; e_timed_out := false; e_cpu_over := false |}.
Definition demo_results (g : registry) (code : Z) : res (list dict) :=
  scan_bytes plain_digest "4.5" default_limits (Some g) VNone (λ _, {| u_time := 0; u_end := ending_of g code |}).
Definition demo_rules (g : registry) (code : Z) : res (list string) := rs ← demo_results g code; Ok (acted_rules rs).

Example active_match_counts : demo_rules active_one 0 = Ok ["evil"].
Proof. vm_compute. reflexivity. Qed.
(** A killed child's report does not count, and neither does a shadow ruleset's. *)
Example killed_scan_does_not_count : demo_rules active_one (-9) = Ok [].
Proof. vm_compute. reflexivity. Qed.
Example shadow_match_does_not_count : demo_rules (promote_now "shadow" "secops" drafted) 0 = Ok [].
Proof. vm_compute. reflexivity. Qed.

Lemma yara_findings_grounded_witness :
  ∃ results, demo_results active_one 0 = Ok results ∧
    counts no_zip no_members (λ _, []) demo_engine default_limits plain_digest active_one (λ _, false) "MZ"
      (λ _, {| u_time := 0; u_end := ending_of active_one 0 |}) "evil".
Proof.
  destruct (demo_results active_one 0) as [results|e] eqn:E; [|vm_compute in E; discriminate E]. exists results. split; [reflexivity|].
  apply (yara_findings_grounded no_zip no_members (λ _, []) demo_engine default_limits plain_digest (λ _, "") (λ _, "") "4.5" active_one (λ _, false) "MZ"
    VNone (λ _, {| u_time := 0; u_end := ending_of active_one 0 |}) results [] "acme" 0 E).
  - intros n row source Hrow Hl. assert (n = 0%nat) as -> by (destruct n as [|n]; [done|vm_compute in Hrow; discriminate Hrow]).
    assert (Ec : _child no_zip no_members (λ _, []) demo_engine false source "MZ" row default_limits = demo_child active_one).
    { unfold demo_child. destruct (active_for_scan active_one None) as [|r l]; [discriminate Hrow|]. injection Hrow as ->. by rewrite Hl. }
    rewrite Ec. unfold ending_of. destruct (demo_child active_one) as [r|reason] eqn:Ed; [by apply exited|vm_compute in Ed; discriminate Ed].
  - assert (Er : demo_rules active_one 0 = Ok (acted_rules results)) by (unfold demo_rules; by rewrite E). rewrite active_match_counts in Er.
    apply Ok_inj in Er. rewrite <- Er. by left.
Defined.
