(* ===== verification/ArtifactConsumer.v ===== *)
(** * The artifact service (services/file-artifact/app.py)

    What the service does with a record of the carved-file stream: the gate of FileArtifact
    stores it or rejects it for good, and the linkage of a stored artifact is published and
    acknowledged before the offset can be committed.  The loop, which the YARA service shares, is
    generic in what is done with a record and comes first.

    A record's failures are what its fetch returns (the bytes, or nothing when the fetch
    raises), whether the head and put calls and the acknowledgement succeed, whether an unacknowledged linkage reached the broker all the
    same, and the time of the put. *)

From stdpp Require Import relations.
From S2P Require Import Prelude Order PyVal PyString OrderedMap ObjectKeys FileArtifact.
Set Default Proof Using "Type".

(** ** A consumer that processes a poll and then commits

    The loop the artifact service and the YARA service share
    (services/file-artifact/app.py and services/file-yara/app.py, [main]): every record of a
    poll is processed to its end, permanent rejections included, and the offsets are
    committed once after the last.  An exception leaves the loop, the process ends, and the
    next one reads again from the committed offset, or from the end of the log when there is
    none ([auto_offset_reset="latest"]).

    What a service does with a record, and what it means for a record to be settled, are an
    interface; its laws give the theorem both services use.  One partition, no rebalances. *)

(** [process f i v]: the record at offset [i] holding [v], under the failures [f]; [Ok] also
    for a record that is rejected for good.  [settled f i v w0 w]: the record that was
    processed under the failures [f] in the world [w0] is dealt with in the world [w]. *)
Class Processor (W F : Type) := { process : F → nat → val → W → W * res unit }.
Class ProcessorLaws (W F : Type) `{Processor W F} := {
  settled : F → nat → val → W → W → Prop;
  process_settles f i v w w' : process f i v w = (w', Ok tt) → settled f i v w w';
  process_keeps g j u f i v w0 w : settled f i v w0 w → settled f i v w0 (process g j u w).1
}.

Section loop.
Context {W F : Type} `{Processor W F}.

(** The log, the committed offset and where the group's reading began, and the position of
    the running process.  [c_history] is not state of the program: it lists the calls of
    [process] that were made, each with its offset, its failures and the world it met. *)
Record consumer := {
  c_world : W; c_log : list val; c_from : nat; c_committed : option nat; c_run : option nat; c_history : list (nat * F * W)
}.
(** The records in order, up to the first that raises, and the calls made. *)
Fixpoint process_all (rs : list (F * val)) (i : nat) (w : W) : W * res unit * list (nat * F * W) :=
  match rs with
  | [] => (w, Ok tt, [])
  | (f, v) :: rs =>
      match process f i v w with
      | (w', Ok _) => let '(w'', r, calls) := process_all rs (S i) w' in (w'', r, (i, f, w) :: calls)
      | (w', Raise e) => (w', Raise e, [(i, f, w)])
      end
  end.
(** A poll from position [p] of as many records as there are failures given. *)
Definition polled (p : nat) (fs : list F) (c : consumer) : consumer :=
  match process_all (zip fs (drop p (c_log c))) p (c_world c) with
  | (w, Ok _, calls) =>
      let p' := (p + length (zip fs (drop p (c_log c))))%nat in
      {| c_world := w; c_log := c_log c; c_from := c_from c; c_committed := Some p'; c_run := Some p'; c_history := c_history c ++ calls |}
  | (w, Raise _, calls) =>
      {| c_world := w; c_log := c_log c; c_from := c_from c; c_committed := c_committed c; c_run := None; c_history := c_history c ++ calls |}
  end.
Definition started (c : consumer) : consumer :=
  match c_committed c with
  | Some p =>
      {| c_world := c_world c; c_log := c_log c; c_from := c_from c; c_committed := Some p; c_run := Some p; c_history := c_history c |}
  | None =>
      {| c_world := c_world c; c_log := c_log c; c_from := length (c_log c); c_committed := None; c_run := Some (length (c_log c));
         c_history := c_history c |}
  end.
Definition produced (v : val) (c : consumer) : consumer :=
  {| c_world := c_world c; c_log := c_log c ++ [v]; c_from := c_from c; c_committed := c_committed c; c_run := c_run c;
     c_history := c_history c |}.
Definition crashed (c : consumer) : consumer :=
  {| c_world := c_world c; c_log := c_log c; c_from := c_from c; c_committed := c_committed c; c_run := None; c_history := c_history c |}.
Inductive consumer_step (c : consumer) : consumer → Prop :=
| produces v : consumer_step c (produced v c)
| starts : c_run c = None → consumer_step c (started c)
| polls p fs : c_run c = Some p → consumer_step c (polled p fs c)
| crashes : consumer_step c (crashed c).
Definition idle (w : W) : consumer :=
  {| c_world := w; c_log := []; c_from := 0; c_committed := None; c_run := None; c_history := [] |}.

(** What was read since the group began is settled up to the committed offset, each record
    by a call that was made. *)
Context `{!ProcessorLaws W F}.
Definition settled_by_call (calls : list (nat * F * W)) (i : nat) (v : val) (w : W) : Prop :=
  ∃ f w0, (i, f, w0) ∈ calls ∧ settled f i v w0 w.
Definition all_settled (c : consumer) : Prop :=
  (∀ p, c_committed c = Some p → (p <= length (c_log c))%nat ∧
     ∀ i v, (c_from c <= i < p)%nat → c_log c !! i = Some v → settled_by_call (c_history c) i v (c_world c)) ∧
  (∀ p, c_run c = Some p → (p <= length (c_log c))%nat ∧ match c_committed c with Some q => p = q | None => p = c_from c end).

Lemma process_all_keeps rs j f i v w0 w : settled f i v w0 w → settled f i v w0 (process_all rs j w).1.1.
Proof.
  revert j w. induction rs as [|[g u] rs IH]; intros j w Hw; [done|]. cbn [process_all].
  pose proof (process_keeps g j u f i v w0 w Hw) as Hk. destruct (process g j u w) as [w' [[]|e]]; [|done].
  specialize (IH (S j) w' Hk). by destruct (process_all rs (S j) w') as [[w'' r] calls].
Qed.
Lemma settled_later calls more rs j i v w :
  settled_by_call calls i v w → settled_by_call (calls ++ more) i v (process_all rs j w).1.1.
Proof. intros (f & w0 & Hin & Hs). exists f, w0. split; [apply elem_of_app; by left|by apply process_all_keeps]. Qed.
Lemma process_all_settles rs j w w' calls :
  process_all rs j w = (w', Ok tt, calls) → ∀ i f v, rs !! i = Some (f, v) → settled_by_call calls (j + i)%nat v w'.
Proof.
  revert j w calls. induction rs as [|[f u] rs IH]; intros j w calls Hp i f' v Hi; [by rewrite lookup_nil in Hi|]. cbn [process_all] in Hp.
  destruct (process f j u w) as [w1 [[]|e]] eqn:E; [|discriminate Hp].
  destruct (process_all rs (S j) w1) as [[w2 r] calls'] eqn:E2. injection Hp as -> -> <-. destruct i as [|i]; cbn in Hi.
  - injection Hi as -> ->. rewrite Nat.add_0_r. exists f', w. split; [by left|]. apply process_settles in E.
    pose proof (process_all_keeps rs (S j) f' j v w w1 E) as Hk. by rewrite E2 in Hk.
  - rewrite Nat.add_succ_r. destruct (IH (S j) w1 calls' E2 i f' v Hi) as (g & w0 & Hin & Hs). exists g, w0. split; [by right|done].
Qed.
Lemma step_settled c c' : consumer_step c c' → all_settled c → all_settled c'.
Proof.
  intros [v|Hr|p fs Hr|] [Hc Hrun].
  - split; cbn; intros p Hp; rewrite length_app.
    + destruct (Hc p Hp) as [Hl Hs]. split; [cbn; lia|]. intros i u Hi Hu. apply (Hs i u Hi). rewrite lookup_app_l in Hu; [done|lia].
    + destruct (Hrun p Hp) as [Hl Hs]. split; [cbn; lia|done].
  - unfold started. destruct (c_committed c) as [q|] eqn:E; split; cbn; intros p.
    + apply Hc.
    + intros [= <-]. split; [by apply Hc|done].
    + discriminate.
    + intros [= <-]. by split.
  - destruct (Hrun p Hr) as [Hl Hp]. unfold polled. set (rs := zip fs (drop p (c_log c))).
    assert (Hold : ∀ q more, c_committed c = Some q → ∀ i v, (c_from c <= i < q)%nat → c_log c !! i = Some v →
      settled_by_call (c_history c ++ more) i v (process_all rs p (c_world c)).1.1)
      by (intros q more Hq i v Hi Hv; by apply settled_later, (proj2 (Hc q Hq))).
    destruct (process_all rs p (c_world c)) as [[w [[]|e]] calls] eqn:E; cbn in Hold.
    + assert (Hlen : (p + length rs <= length (c_log c))%nat) by (unfold rs; rewrite length_zip, length_drop; lia).
      split; cbn; intros q [= <-]; [|done]. split; [done|]. intros i v Hi Hv. destruct (decide (i < p)%nat) as [Hlt|Hge].
      * destruct (c_committed c) as [q|] eqn:Eq; [|lia]. subst q. by apply (Hold p); [|lia|].
      * destruct (lookup_lt_is_Some_2 rs (i - p)%nat) as [[f u] Hu]; [lia|].
        destruct (process_all_settles _ _ _ _ _ E _ _ _ Hu) as (g & w0 & Hin & Hs).
        unfold rs in Hu. apply lookup_zip_Some in Hu as [_ Hu]. rewrite lookup_drop in Hu.
        replace (p + (i - p))%nat with i in Hin, Hs, Hu by lia. assert (u = v) as -> by congruence.
        exists g, w0. split; [apply elem_of_app; by right|done].
    + split; cbn; [|discriminate]. intros q Hq. split; [by apply Hc|]. by apply Hold.
  - split; cbn; [done|discriminate].
Qed.
Lemma committed_settled w c : rtc consumer_step (idle w) c → all_settled c.
Proof.
  intros Hr. assert (H0 : all_settled (idle w)) by (split; discriminate). revert H0. induction Hr as [|x y z Hxy _ IH]; [done|].
  intros Hx. apply IH. by eapply step_settled.
Qed.
End loop.
Arguments consumer : clear implicits.

(** ** Where an exception came from *)

Lemma bind_raise_inv {W A B} (m : M W A) (k : A → M W B) w w' e :
  bind m k w = (w', Raise e) → m w = (w', Raise e) ∨ ∃ a w1, m w = (w1, Ok a) ∧ k a w1 = (w', Raise e).
Proof. unfold bind. destruct (m w) as [w1 [a|x]]; [eauto|]. intros [= -> ->]. by left. Qed.
Lemma lift_raise_inv {W A} (r : res A) (w w' : W) e : lift r w = (w', Raise e) → w' = w ∧ r = Raise e.
Proof. by intros [= <- <-]. Qed.
Lemma check_raise_inv b x e : check b x = Raise e → b = false ∧ e = x.
Proof. unfold check. destruct b; [discriminate|]. by intros [= ->]. Qed.

(** ** The artifact service (services/file-artifact/app.py) *)

Record faults := { t_fetch : val → option string; t_heads : bool; t_uploads : bool; t_now : Z; t_acked : bool; t_reached : bool }.
(** The bucket with its audit log, and the linkages sent. *)
Record aworld := { w_bucket : fworld; w_links : list dict }.

Section service.
Context (is_zipfile : string → bool) (infolist : string → res (list member)) (sha256 : string → string)
  (repr : val → string) (sink : dict → bool) (env : artifact_env).

Definition _linkage (record : dict) : res dict :=
  aid ← dindex "artifact_id" record;
  ref ← dindex "object_ref" record;
  sha ← dindex "sha256" record;
  tseg ← dindex "tenant_segment" record;
  sensor ← dindex "sensor_id" record;
  mime ← dindex "mime" record;
  size ← dindex "size" record;
  Ok [("state", VStr "bytes_available"); ("file_artifact_id", aid); ("object_ref", ref); ("sha256", sha);
      ("tenant_segment", tseg); ("sensor_id", sensor); ("mime", mime); ("size", size)].
Definition fetch (t : faults) (ref : val) : res string := match t_fetch t ref with Some data => Ok data | None => Raise OtherError end.
Definition stored_by (t : faults) (ev : val) (b : fworld) : fworld * res (option dict) :=
  match ev with
  | VDict d => store is_zipfile infolist sha256 repr sink env d (fetch t) (t_heads t) (t_uploads t) (t_now t) b
  | _ => (b, Raise AttributeError)
  end.
Definition process_one (t : faults) (ev : val) (w : aworld) : aworld * res (option dict) :=
  match stored_by t ev (w_bucket w) with
  | (b, Raise PolicyError) => ({| w_bucket := b; w_links := w_links w |}, Ok None)
  | (b, Raise e) => ({| w_bucket := b; w_links := w_links w |}, Raise e)
  | (b, Ok None) => ({| w_bucket := b; w_links := w_links w |}, Ok None)
  | (b, Ok (Some record)) =>
      match _linkage record with
      | Raise e => ({| w_bucket := b; w_links := w_links w |}, Raise e)
      | Ok l => ({| w_bucket := b; w_links := w_links w ++ (if t_acked t || t_reached t then [l] else []) |}, if t_acked t then Ok (Some record) else Raise OtherError)
      end
  end.
#[export] Instance artifact_processor : Processor aworld faults :=
  {| process t _ ev w := match process_one t ev w with (w', Ok _) => (w', Ok tt) | (w', Raise e) => (w', Raise e) end |}.

(** The download handler: the bytes and what the caller is told. *)
Definition do_GET (run : M fworld string) (b : fworld) : fworld * (Z * string) :=
  match run b with
  | (b, Ok data) => (b, (200, data))
  | (b, Raise PermissionError) => (b, (403, "file artifact access denied"))
  | (b, Raise _) => (b, (503, "file artifact unavailable"))
  end.

(** ** Facts *)

(** The call stored the record's artifact and its linkage is out, or the gate refused the
    record for good. *)
Definition linked (t : faults) (ev : val) (w0 w : aworld) : Prop :=
  (∃ b record l, stored_by t ev (w_bucket w0) = (b, Ok (Some record)) ∧ _linkage record = Ok l ∧ l ∈ w_links w) ∨
  ∃ b, stored_by t ev (w_bucket w0) = (b, Ok None) ∨ stored_by t ev (w_bucket w0) = (b, Raise PolicyError).
Lemma process_links_grow t ev w : ∃ more, w_links (process_one t ev w).1 = w_links w ++ more.
Proof.
  unfold process_one. destruct (stored_by t ev (w_bucket w)) as [b [[record|]|e]].
  - destruct (_linkage record) as [l|e]; [cbn; by eexists|exists []; by rewrite app_nil_r].
  - exists []. by rewrite app_nil_r.
  - exists []. rewrite app_nil_r. by destruct e.
Qed.
Lemma process_one_links t ev w w' o : process_one t ev w = (w', Ok o) → linked t ev w w'.
Proof.
  unfold process_one, linked. intros H. destruct (stored_by t ev (w_bucket w)) as [b [[record|]|e]] eqn:E.
  - destruct (_linkage record) as [l|e] eqn:El; [|discriminate H]. left. exists b, record, l. split; [done|]. split; [done|].
    destruct (t_acked t); [|discriminate H]. injection H as <- _. cbn. set_solver.
  - right. exists b. by left.
  - right. exists b. right. by destruct e; try discriminate H.
Qed.
#[export] Instance artifact_laws : ProcessorLaws aworld faults.
Proof.
  refine {| settled := λ t _ ev w0 w, linked t ev w0 w |}.
  - intros t i ev w w' H. cbn in H. destruct (process_one t ev w) as [w1 [o|e]] eqn:E; [|discriminate H]. injection H as <-. by eapply process_one_links.
  - intros g j u t i ev w0 w Hl. cbn. destruct (process_links_grow g u w) as [more Hm].
    assert (Hw : ∀ w1, w_links w1 = w_links w ++ more → linked t ev w0 w1).
    { intros w1 E. destruct Hl as [(b & record & l & Hs & Hk & Hin)|Hl]; [|by right]. left. exists b, record, l. rewrite E. set_solver. }
    destruct (process_one g u w) as [w1 [o|e]]; by apply Hw.
Defined.

(** A stored record's artifact is in the bucket, and its linkage names its key and digest. *)
Lemma store_linkage t ev b b' record :
  stored_by t ev b = (b', Ok (Some record)) →
  ∃ d data tseg, ev = VDict d ∧ t_fetch t (dgetN "object_ref" d) = Some data ∧
    is_Some (f_objects b' !! partition_at "/" (accepted_key tseg (sha256 data) (BUCKET env))) ∧
    _linkage record = Ok [("state", VStr "bytes_available"); ("file_artifact_id", VStr (sha256 data));
      ("object_ref", VStr (accepted_key tseg (sha256 data) (BUCKET env))); ("sha256", VStr (sha256 data)); ("tenant_segment", VStr tseg);
      ("sensor_id", dgetN "sensor_id" d); ("mime", py_or (dgetN "mime" d) VNone); ("size", VInt (len data))].
Proof.
  destruct ev as [| | | | | |d]; try discriminate. cbn [stored_by]. unfold store. intros H. exists d.
  destruct (creates_object d); cbn [negb] in H; [|apply bind_inv in H as (? & ? & _ & H); discriminate H].
  destruct (key_tenant_segment _ _) as [tseg|]; [|apply bind_inv in H as (? & ? & _ & H); discriminate H].
  apply bind_inv in H as (? & w1 & _ & H). apply bind_inv in H as (rec & w2 & Hrec & H). injection H as -> ->.
  unfold try_audit in Hrec. destruct (promote_bytes _ _ _ _ _ _ _ _ _ _ _ _ w1) as [w3 [r|e]] eqn:Hp.
  2:{ unfold bind in Hrec. by destruct (fnote sink _ w3) as [? [?|?]]. }
  injection Hrec as -> ->. unfold promote_bytes in Hp. apply bind_inv in Hp as (data & w4 & Hdata & Hp). apply lift_inv in Hdata as [-> Hdata].
  unfold fetch in Hdata. destruct (t_fetch t _) as [data'|] eqn:Hfetch; [|discriminate Hdata]. apply Ok_inj in Hdata. subst data'.
  exists data, tseg. split; [done|]. split; [done|].
  apply bind_inv in Hp as (? & ? & _ & Hp). apply bind_inv in Hp as (? & ? & _ & Hp). apply bind_inv in Hp as (claim & ? & _ & Hp).
  apply bind_inv in Hp as (? & w5 & _ & Hp). unfold artifact_id in Hp. destruct (partition_at "/" _) as [bucket okey].
  apply bind_inv in Hp as (old & w6 & Hold & Hp). unfold read in Hold. injection Hold as -> Hold. destruct old as [o|].
  - apply bind_inv in Hp as (? & w7 & Hn & Hp). injection Hp as -> <-. split; [|done].
    pose proof (fnote_objects sink (outcome "idempotent" [("artifact_id", VStr (sha256 data)); ("resource_id", VStr (accepted_key tseg (sha256 data) (BUCKET env)))] (store_base repr d)) w6) as Ho.
    rewrite Hn in Ho. cbn in Ho. rewrite Ho. destruct (t_heads t); [by exists o|discriminate Hold].
  - apply bind_inv in Hp as (? & w7 & Hput & Hp). apply bind_inv in Hp as (? & w8 & Hn & Hp). injection Hp as -> <-. split; [|done].
    destruct (t_uploads t); [|discriminate Hput]. injection Hput as <- _.
    match type of Hn with fnote sink ?e ?x = _ => pose proof (fnote_objects sink e x) as Ho end. rewrite Hn in Ho. cbn in Ho. rewrite Ho.
    eexists. apply lookup_insert_eq.
Qed.
(** Why the gate refuses a record for good: it has no object, its key is not under a
    tenant, or the fetched bytes are too large, fail the archive check, or do not have the
    announced digest.  No failing call is among the reasons. *)
Inductive refusal (t : faults) (d : dict) : Prop :=
| no_bytes : creates_object d = false → refusal t d
| no_tenant : key_tenant_segment (dgetN "object_ref" d) (BUCKET env) = None → refusal t d
| too_large data : t_fetch t (dgetN "object_ref" d) = Some data → MAX_FILE_SIZE env < len data → refusal t d
| bad_archive data : t_fetch t (dgetN "object_ref" d) = Some data →
    validate_archive is_zipfile infolist (MAX_ARCHIVE_DEPTH env) (MAX_FILE_SIZE env) data = Raise PolicyError → refusal t d
| other_digest data claim : t_fetch t (dgetN "object_ref" d) = Some data → announced d = Ok claim → str_truthy claim = true →
    claim ≠ sha256 data → refusal t d.
Lemma fnote_raises e w w' x : fnote sink e w = (w', Raise x) → x = OtherError.
Proof. unfold fnote. destruct (sink e); [discriminate|]. by intros [= _ <-]. Qed.
Lemma promote_refuses t d tseg b b' :
  promote_bytes is_zipfile infolist sha256 repr sink env d tseg (fetch t (dgetN "object_ref" d)) (t_heads t) (t_uploads t) (t_now t) b =
    (b', Raise PolicyError) → refusal t d.
Proof.
  unfold promote_bytes. intros H. apply bind_raise_inv in H as [H|(data & w1 & Hd & H)].
  { apply lift_raise_inv in H as [_ H]. unfold fetch in H. by destruct (t_fetch t _). }
  apply lift_inv in Hd as [-> Hd]. unfold fetch in Hd. destruct (t_fetch t _) as [data'|] eqn:Hf; [|discriminate Hd].
  apply Ok_inj in Hd. subst data'. apply bind_raise_inv in H as [H|(u1 & w2 & _ & H)].
  { apply lift_raise_inv in H as [_ H]. apply check_raise_inv in H as [H _]. apply (too_large t d data); [done|]. by apply Z.leb_gt. }
  apply bind_raise_inv in H as [H|(u2 & w3 & _ & H)]; [apply lift_raise_inv in H as [_ H]; by apply (bad_archive t d data)|].
  apply bind_raise_inv in H as [H|(claim & w4 & Hc & H)].
  { apply lift_raise_inv in H as [_ H]. unfold announced in H. by destruct (py_or _ _). }
  apply lift_inv in Hc as [-> Hc]. apply bind_raise_inv in H as [H|(u3 & w5 & _ & H)].
  { apply lift_raise_inv in H as [_ H]. apply check_raise_inv in H as [H _]. apply negb_false_iff, andb_true_iff in H as [H1 H2].
    apply (other_digest t d data claim); [done..|]. intros ->. by rewrite String.eqb_refl in H2. }
  destruct (partition_at "/" _) as [bucket okey]. apply bind_raise_inv in H as [H|(old & w6 & _ & H)]; [discriminate H|].
  destruct old as [o|].
  - apply bind_raise_inv in H as [H%fnote_raises|(? & ? & _ & H)]; discriminate H.
  - apply bind_raise_inv in H as [H|(? & ? & _ & H)]; [by destruct (t_uploads t)|].
    apply bind_raise_inv in H as [H%fnote_raises|(? & ? & _ & H)]; discriminate H.
Qed.
Lemma store_refuses t ev b b' r :
  stored_by t ev b = (b', r) → r = Ok None ∨ r = Raise PolicyError → ∃ d, ev = VDict d ∧ refusal t d.
Proof.
  destruct ev as [| | | | | |d]; try (intros [= _ <-] [E|E]; discriminate E). cbn [stored_by]. intros H Hr. exists d. split; [done|]. unfold store in H.
  destruct (creates_object d) eqn:Ec; cbn [negb] in H; [|by apply no_bytes].
  destruct (key_tenant_segment _ _) as [tseg|] eqn:Et; [|by apply no_tenant]. destruct Hr as [-> | ->].
  { apply bind_inv in H as (? & w1 & _ & H). apply bind_inv in H as (rec & w2 & _ & H). discriminate H. }
  apply bind_raise_inv in H as [H%fnote_raises|(? & w1 & _ & H)]; [discriminate H|].
  apply bind_raise_inv in H as [H|(? & ? & _ & H)]; [|discriminate H]. unfold try_audit in H.
  destruct (promote_bytes _ _ _ _ _ _ _ _ _ _ _ _ w1) as [w3 [r|e]] eqn:Hp; [discriminate H|].
  apply bind_raise_inv in H as [H%fnote_raises|(? & ? & _ & H)]; [discriminate H|]. injection H as _ ->. by eapply promote_refuses.
Qed.
End service.

(** ** A concrete run: a carved file is stored after a poll that failed half-way *)

Definition demo_faults (acked : bool) : faults :=
  {| t_fetch := λ _, Some "MZ"; t_heads := true; t_uploads := true; t_now := 100; t_acked := acked; t_reached := false |}.
Definition demo_event : val :=
  VDict [("object_ref", VStr ("ndr-files/" +:+ demo_segment +:+ "/incoming/" +:+ zeros)); ("sensor_id", VStr "s1"); ("mime", VStr "application/x-dosexec")].
Definition demo_zip_free (s : string) : bool := false.
Definition demo_members (s : string) : res (list member) := Ok [].
Definition demo_sha (s : string) : string := zeros.
Definition quiet (e : dict) : bool := true.
Definition demo_processor : Processor aworld faults := artifact_processor demo_zip_free demo_members demo_sha no_repr quiet artifact_defaults.
Definition empty_world : aworld := {| w_bucket := {| f_objects := ∅; f_log := [] |}; w_links := [] |}.
Definition demo_poll (fs : list faults) (p : nat) (c : consumer aworld faults) : consumer aworld faults := @polled aworld faults demo_processor p fs c.
(** The first poll commits its empty batch, the second dies before the acknowledgement. *)
Definition demo_run : consumer aworld faults :=
  demo_poll [demo_faults true] 0 (started (demo_poll [demo_faults false] 0 (produced demo_event (demo_poll [] 0 (started (idle empty_world)))))).
