(* ===== verification/YaraService.v ===== *)
(** * The YARA service (services/file-yara/app.py, rules_refresh.py)

    The service scans announced artifacts with the rulesets its registry serves: it checks
    the reference, reads the accepted bytes through the audited download, scans them,
    stores and sends one observation per result and sends the finding, if any.  The loop is
    that of ArtifactConsumer; where the rulesets come from is at the end.

    A record's failures ([doing]) are the registry as it is then, the audit sink, the clock
    readings, what each scan's child does, and which of the calls to the outside succeed.
    SHA-256, JSON texts and the contract's validator are parameters. *)

From stdpp Require Import relations.
From S2P Require Import Prelude Order PyVal PyString OrderedMap YaraRegistry ObjectKeys FileArtifact IsoTime YaraScan ArtifactConsumer.
Set Default Proof Using "Type".

(** ** Observations and processing (app.py) *)

(** What was stored, sent as observations, and sent as findings. *)
Record yworld := { y_bucket : fworld; y_rows : list (dict * string); y_observations : list dict; y_findings : list dict }.
(** A call to the outside succeeds, is lost, or has its effect and still raises. *)
Inductive call := c_done | c_lost | c_unacked.
(** [g_stamped]: the broker stamped the record with its append time; [g_instant]: that time
    as a datetime. *)
Record doing := {
  g_registry : option registry; g_sink : dict → bool; g_read_at : Z; g_runs : nat → run; g_finding_at : Z;
  g_stamped : bool; g_instant : res Z; g_inserts : nat → call; g_sends : nat → call; g_finding_sent : call
}.

Section service.
Context (sha256 : string → string) (dumps repr : val → string) (compact : val → res string) (valid : dict → bool)
  (engine_version : string) (lim : limits) (env : artifact_env) (TENANT : string).

Definition identity_of (event result : dict) (topic : string) (partition offset : Z) : res val :=
  sensor ← dindex "sensor_id" event;
  Ok (VList [VStr TENANT; sensor; VStr topic; VInt partition; VInt offset; dgetN "ruleset_id" result; dgetN "ruleset_sha256" result]).
Definition matched_rules (result : dict) : list string := isort (λ x, x) (dedup_onto [] (rules_of result)).
Definition scan_verdict (result : dict) : res dict :=
  if val_eq_str (dgetN "status" result) "active" && negb (truthy (dgetN "scan_error" result)) then
    version ← dindex "engine_version" result;
    sha ← dindex "ruleset_sha256" result;
    _ ← dindex "matches" result;
    at_ ← dindex "scanned_at" result;
    Ok [("scan_verdict", VDict [("engine", VStr ("yara/" +:+ py_str repr version)); ("ruleset_sha256", sha);
                                ("matched_rules", VList (VStr <$> matched_rules result)); ("scanned_at", at_)])]
  else Ok [].
(** The document and the raw record it refers to. *)
Definition observation (event result : dict) (topic : string) (partition offset : Z) (ingested : string) : res (dict * string) :=
  raw ← compact (VDict [("event", VDict event); ("yara_result", VDict result)]);
  identity ← identity_of event result topic partition offset;
  let oid := "obs:" +:+ sha256 (dumps identity) in
  size ← dindex "size" event;
  sha ← dindex "sha256" event;
  verdict ← scan_verdict result;
  sensor ← dindex "sensor_id" event;
  let file := [("state", VStr "bytes_available"); ("first_seen", VStr ingested); ("last_seen", VStr ingested); ("mime", dgetN "mime" result);
               ("size", size); ("filename", VNone); ("transfer_ref", VNone); ("session_ref", VNone);
               ("source_obs_ref", dgetN "source_obs_ref" event); ("file_artifact_id", sha); ("sha256", sha)] ++ verdict in
  Ok ([("schema", VStr "cernity.observation.v1"); ("obs_id", VStr oid); ("tenant", VStr TENANT); ("sensor_id", sensor);
       ("type", VStr "file"); ("entities", VList []);
       ("ts", VDict [("sensor", VStr ingested); ("normalized", VStr ingested); ("ingested", VStr ingested);
                     ("method", VStr "ingest-fallback"); ("clock_offset_ms", VNone)]);
       ("fields", VDict [("file", VDict file)]); ("capabilities", VList []);
       ("source_ref", VDict [("kind", VStr "clickhouse-row"); ("table", VStr "ndr.file_observation"); ("tenant", VStr TENANT);
                             ("obs_id", VStr oid); ("sha256", VStr (sha256 raw)); ("topic", VStr topic);
                             ("partition", VInt partition); ("offset", VInt offset)])], raw).

Definition on_row (x : dict * string) (w : yworld) : yworld :=
  {| y_bucket := y_bucket w; y_rows := y_rows w ++ [x]; y_observations := y_observations w; y_findings := y_findings w |}.
Definition on_observation (x : dict) (w : yworld) : yworld :=
  {| y_bucket := y_bucket w; y_rows := y_rows w; y_observations := y_observations w ++ [x]; y_findings := y_findings w |}.
Definition on_finding (x : dict) (w : yworld) : yworld :=
  {| y_bucket := y_bucket w; y_rows := y_rows w; y_observations := y_observations w; y_findings := y_findings w ++ [x] |}.
Definition on_bucket (b : fworld) (w : yworld) : yworld :=
  {| y_bucket := b; y_rows := y_rows w; y_observations := y_observations w; y_findings := y_findings w |}.
Definition calling (c : call) (f : yworld → yworld) : M yworld unit :=
  match c with c_done => modify f | c_lost => raise OtherError | c_unacked => modify f ;* raise OtherError end.

(** The accepted reference of the tenant, by the announced digest. *)
Definition full_digest (v : val) : bool := match v with VStr s => _SHA256 s | _ => false end.
Definition reference_ok (event : dict) : bool :=
  let ref := dgetN "object_ref" event in
  let digest := dgetN "sha256" event in
  full_digest digest
  && py_eqb ref (VStr (accepted_key (tenant_segment sha256 repr (VStr TENANT)) (py_str repr digest) (BUCKET env)))
  && valid_key ref.
Definition own_grant : list (string * val) :=
  [("internal", VDict [("actor", VStr "file-yara"); ("tenant_id", VStr TENANT); ("file_read", VBool true)])].
Definition read_bytes (d : doing) (ref : val) : M yworld string := λ w,
  match retrieve sha256 repr (g_sink d) env ref (VStr "Bearer internal") own_grant (g_read_at d) (y_bucket w) with
  | (b, r) => (on_bucket b w, r)
  end.
Fixpoint publish (d : doing) (event : dict) (results : list dict) (n : nat) (topic : string) (partition offset : Z) (ingested : string) :
    M yworld unit :=
  match results with
  | [] => ret tt
  | r :: results =>
      let* dr := lift (observation event r topic partition offset ingested) in
      lift (check (valid dr.1) ValidationError) ;*
      calling (g_inserts d n) (on_row dr) ;*
      calling (g_sends d n) (on_observation dr.1) ;*
      publish d event results (S n) topic partition offset ingested
  end.
Definition unscanned : dict := [("scan_error", VStr "no_rules"); ("acted", VBool false)].
Definition or_unscanned (results : list dict) : list dict := match results with [] => [unscanned] | _ => results end.
Definition process_one (d : doing) (event : dict) (topic : string) (partition offset : Z) (ingested : string) : M yworld unit :=
  lift (check (reference_ok event) ValueError) ;*
  let* data := read_bytes d (dgetN "object_ref" event) in
  let event := dset "size" (VInt (len data)) (dset "object_ref" (dgetN "object_ref" event) event) in
  let* results := lift (scan_bytes sha256 engine_version lim (g_registry d) (dgetN "pcap_evidence_id" event) (g_runs d)) in
  publish d event (or_unscanned results) 0 topic partition offset ingested ;*
  match finding_from_results dumps repr event results TENANT (g_finding_at d) with
  | Some f => calling (g_finding_sent d) (on_finding f)
  | None => ret tt
  end.

(** Rejections are value and permission errors; policy and quarantine errors are among them. *)
Definition permanent (e : exn) : bool :=
  match e with ValueError | PermissionError | PolicyError => true | _ => false end.
Definition as_event (v : val) : res dict := match v with VDict d => Ok d | _ => Raise AttributeError end.
Definition guarded (topic : string) (partition : Z) (d : doing) (i : nat) (v : val) : M yworld unit :=
  let* t := lift (g_instant d) in
  let* event := lift (as_event v) in
  process_one d event topic partition (Z.of_nat i) (isoformat t).
Definition process_record (topic : string) (partition : Z) (d : doing) (i : nat) (v : val) : M yworld unit := λ w,
  if negb (g_stamped d) then (w, Raise OtherError)
  else
    match guarded topic partition d i v w with
    | (w, Raise e) => (w, if permanent e then Ok tt else Raise e)
    | r => r
    end.
#[export] Instance yara_processor (topic : string) (partition : Z) : Processor yworld doing := {| process := process_record topic partition |}.

(** ** Facts *)

(** What an event becomes once its bytes were read. *)
Definition sized (event : dict) (data : string) : dict := dset "size" (VInt (len data)) (dset "object_ref" (dgetN "object_ref" event) event).
(** Every result's row is stored and its observation sent; the finding, if any, is sent. *)
Definition published (d : doing) (event : dict) (results : list dict) (topic : string) (partition offset : Z) (ingested : string) (w : yworld) : Prop :=
  (∀ r, r ∈ or_unscanned results → ∃ x, observation event r topic partition offset ingested = Ok x ∧ valid x.1 = true ∧
     x ∈ y_rows w ∧ x.1 ∈ y_observations w) ∧
  ∀ f, finding_from_results dumps repr event results TENANT (g_finding_at d) = Some f → f ∈ y_findings w.
(** What the audited download gives for an event, under the failures [d] and over the bucket [b]. *)
Definition read_from (d : doing) (event : dict) (b : fworld) : res string :=
  (retrieve sha256 repr (g_sink d) env (dgetN "object_ref" event) (VStr "Bearer internal") own_grant (g_read_at d) b).2.
Definition scan_of (d : doing) (event : dict) (data : string) : res (list dict) :=
  scan_bytes sha256 engine_version lim (g_registry d) (dgetN "pcap_evidence_id" (sized event data)) (g_runs d).
Definition scanned (topic : string) (partition : Z) (d : doing) (i : nat) (v : val) (w0 w : yworld) : Prop :=
  ∃ event data results t, v = VDict event ∧ g_instant d = Ok t ∧ reference_ok event = true ∧
    read_from d event (y_bucket w0) = Ok data ∧ scan_of d event data = Ok results ∧
    published d (sized event data) results topic partition (Z.of_nat i) (isoformat t) w.
(** Why a record is refused for good: its append time is no datetime, its reference is not
    the tenant's accepted key of its digest, the download refuses the object, the scan
    refuses it, or a result has no observation.  No failing call is among the reasons. *)
Inductive refusal (topic : string) (partition : Z) (d : doing) (i : nat) (v : val) (b : fworld) : Prop :=
| no_instant e : g_instant d = Raise e → permanent e = true → refusal topic partition d i v b
| bad_reference event : v = VDict event → reference_ok event = false → refusal topic partition d i v b
| bad_object event e : v = VDict event → reference_ok event = true → read_from d event b = Raise e → permanent e = true →
    refusal topic partition d i v b
| bad_scan event data e : v = VDict event → read_from d event b = Ok data → scan_of d event data = Raise e → permanent e = true →
    refusal topic partition d i v b
| bad_result event data results r t e : v = VDict event → read_from d event b = Ok data → scan_of d event data = Ok results →
    r ∈ or_unscanned results → g_instant d = Ok t →
    observation (sized event data) r topic partition (Z.of_nat i) (isoformat t) = Raise e → permanent e = true →
    refusal topic partition d i v b.

(** Nothing stored or sent is taken back. *)
Definition grows (w w' : yworld) : Prop :=
  (∃ l, y_rows w' = y_rows w ++ l) ∧ (∃ l, y_observations w' = y_observations w ++ l) ∧ ∃ l, y_findings w' = y_findings w ++ l.
#[export] Instance grows_preorder : PreOrder grows.
Proof.
  split.
  - intros w. split_and!; exists []; by rewrite app_nil_r.
  - intros w1 w2 w3 ([l1 E1] & [l2 E2] & [l3 E3]) ([m1 F1] & [m2 F2] & [m3 F3]).
    split_and!; [exists (l1 ++ m1); by rewrite F1, E1, app_assoc|exists (l2 ++ m2); by rewrite F2, E2, app_assoc|exists (l3 ++ m3); by rewrite F3, E3, app_assoc].
Qed.
Lemma calling_grows c f : (∀ w, grows w (f w)) → frames grows (calling c f).
Proof. intros Hf w. destruct c; cbn; [apply Hf|done|apply Hf]. Qed.
Lemma calling_ok c f w w' : calling c f w = (w', Ok tt) → w' = f w.
Proof. by destruct c; intros [= <-]. Qed.
Lemma calling_raises c f w w' e : calling c f w = (w', Raise e) → e = OtherError.
Proof. by destruct c; intros [= _ <-]. Qed.
Lemma grows_row x w : grows w (on_row x w).
Proof. split_and!; cbn; [by eexists|exists []; by rewrite app_nil_r..]. Qed.
Lemma grows_observation x w : grows w (on_observation x w).
Proof. split_and!; cbn; [exists []; by rewrite app_nil_r|by eexists|exists []; by rewrite app_nil_r]. Qed.
Lemma grows_finding x w : grows w (on_finding x w).
Proof. split_and!; cbn; [exists []; by rewrite app_nil_r..|by eexists]. Qed.
#[local] Hint Resolve calling_grows grows_row grows_observation grows_finding : cernity.
Lemma publish_grows d event results n topic partition offset ingested : frames grows (publish d event results n topic partition offset ingested).
Proof. revert n. induction results as [|r results IH]; intros n; cbn [publish]; auto 12 with cernity typeclass_instances. Qed.
Lemma read_grows d ref : frames grows (read_bytes d ref).
Proof. intros w. unfold read_bytes. destruct (retrieve _ _ _ _ _ _ _ _ _) as [b r]. split_and!; cbn; exists []; by rewrite app_nil_r. Qed.
#[local] Hint Resolve publish_grows read_grows : cernity.
Lemma process_one_grows d event topic partition offset ingested : frames grows (process_one d event topic partition offset ingested).
Proof.
  repeat (apply frames_bind; [apply _|auto with cernity typeclass_instances|intros ?; cbv zeta]).
  destruct (finding_from_results _ _ _ _ _ _); auto with cernity typeclass_instances.
Qed.
#[local] Hint Resolve process_one_grows : cernity.
Lemma process_record_grows topic partition d i v w : grows w (process_record topic partition d i v w).1.
Proof.
  assert (H : frames grows (guarded topic partition d i v)) by (unfold guarded; auto 8 with cernity typeclass_instances). specialize (H w).
  unfold process_record. destruct (g_stamped d); cbn [negb]; [|done]. by destruct (guarded topic partition d i v w) as [w' [u|e]].
Qed.
Lemma publish_ok d event results n topic partition offset ingested w w' :
  publish d event results n topic partition offset ingested w = (w', Ok tt) →
  ∀ r, r ∈ results → ∃ x, observation event r topic partition offset ingested = Ok x ∧ valid x.1 = true ∧ x ∈ y_rows w' ∧ x.1 ∈ y_observations w'.
Proof.
  revert n w. induction results as [|r results IH]; intros n w H r' Hr; [by apply elem_of_nil in Hr|]. cbn [publish] in H.
  apply bind_inv in H as (x & w1 & Hx & H). apply lift_inv in Hx as [-> Hx].
  apply bind_inv in H as (u & w2 & Hv & H). apply lift_inv in Hv as [-> Hv%check_ok_inv].
  apply bind_inv in H as ([] & w3 & H3%calling_ok & H). apply bind_inv in H as ([] & w4 & H4%calling_ok & H).
  apply elem_of_cons in Hr as [->|Hr]; [|by eapply IH].
  exists x. split; [done|]. split; [done|]. pose proof (publish_grows d event results (S n) topic partition offset ingested w4) as G.
  rewrite H in G. subst w3 w4. destruct G as ([l1 E1] & [l2 E2] & _). cbn in E1, E2. rewrite E1, E2. set_solver.
Qed.
Lemma publish_raises d event results n topic partition offset ingested w w' e :
  publish d event results n topic partition offset ingested w = (w', Raise e) → permanent e = true →
  ∃ r, r ∈ results ∧ observation event r topic partition offset ingested = Raise e.
Proof.
  intros H He. revert n w H. induction results as [|r results IH]; intros n w H; [discriminate H|]. cbn [publish] in H.
  apply bind_raise_inv in H as [[_ H]%lift_raise_inv|(x & w1 & _ & H)]; [exists r; split; [by left|done]|].
  apply bind_raise_inv in H as [[_ [_ ->]%check_raise_inv]%lift_raise_inv|(u & w2 & _ & H)]; [discriminate He|].
  apply bind_raise_inv in H as [->%calling_raises|(u1 & w3 & _ & H)]; [discriminate He|].
  apply bind_raise_inv in H as [->%calling_raises|(u2 & w4 & _ & H)]; [discriminate He|].
  destruct (IH _ _ H) as (r' & Hr & Ho). exists r'. split; [by right|done].
Qed.
Lemma read_bytes_spec d event w w' r :
  read_bytes d (dgetN "object_ref" event) w = (w', r) → read_from d event (y_bucket w) = r.
Proof. unfold read_bytes, read_from. destruct (retrieve _ _ _ _ _ _ _ _ _) as [b r']. by intros [= _ <-]. Qed.
Lemma process_one_refuses d event topic partition i t w w' e :
  g_instant d = Ok t → process_one d event topic partition (Z.of_nat i) (isoformat t) w = (w', Raise e) → permanent e = true →
  refusal topic partition d i (VDict event) (y_bucket w).
Proof.
  intros Ht H He. apply bind_raise_inv in H as [[_ [H _]%check_raise_inv]%lift_raise_inv|(u & w1 & Hr & H)]; [by eapply bad_reference|].
  apply lift_inv in Hr as [-> Hr%check_ok_inv].
  apply bind_raise_inv in H as [H%read_bytes_spec|(data & w2 & Hd%read_bytes_spec & H)]; [by eapply bad_object|]. cbv zeta in H.
  apply bind_raise_inv in H as [[_ H]%lift_raise_inv|(results & w3 & Hs & H)]; [by eapply bad_scan|]. apply lift_inv in Hs as [-> Hs].
  apply bind_raise_inv in H as [H|(u1 & w4 & _ & H)].
  - destruct (publish_raises _ _ _ _ _ _ _ _ _ _ _ H He) as (r & Hin & Ho). by eapply bad_result.
  - destruct (finding_from_results _ _ _ _ _ _); [|discriminate H]. apply calling_raises in H as ->. discriminate He.
Qed.
Lemma process_one_scanned d event topic partition i t w w' :
  g_instant d = Ok t → process_one d event topic partition (Z.of_nat i) (isoformat t) w = (w', Ok tt) →
  scanned topic partition d i (VDict event) w w'.
Proof.
  intros Ht H. apply bind_inv in H as (u & w1 & Hr & H). apply lift_inv in Hr as [-> Hr%check_ok_inv].
  apply bind_inv in H as (data & w2 & Hd%read_bytes_spec & H). cbv zeta in H. apply bind_inv in H as (results & w3 & Hs & H). apply lift_inv in Hs as [-> Hs].
  apply bind_inv in H as ([] & w4 & Hp & H). exists event, data, results, t. split_and!; [done..|]. split.
  - intros r Hin. destruct (publish_ok _ _ _ _ _ _ _ _ _ _ Hp r Hin) as (x & Hx & Hv & H1 & H2). exists x. split; [done|]. split; [done|].
    assert (G : grows w4 w'); [|destruct G as ([l1 E1] & [l2 E2] & _); rewrite E1, E2; set_solver].
    destruct (finding_from_results _ _ _ _ _ _) as [f|]; [|by injection H as <-]. apply calling_ok in H as ->. apply grows_finding.
  - intros f Hf. fold (sized event data) in H. rewrite Hf in H. apply calling_ok in H as ->. cbn. set_solver.
Qed.
Lemma scanned_grows topic partition d i v w0 w w' :
  grows w w' → scanned topic partition d i v w0 w → scanned topic partition d i v w0 w'.
Proof.
  intros ([l1 E1] & [l2 E2] & [l3 E3]) (event & data & results & t & -> & Ht & Hr & Hd & Hs & Hp & Hf).
  exists event, data, results, t. split_and!; [done..|]. split.
  - intros r Hin. destruct (Hp r Hin) as (x & Hx & Hv & H1 & H2). exists x. rewrite E1, E2. set_solver.
  - intros f Hin. rewrite E3. apply elem_of_app. left. by apply Hf.
Qed.
#[export] Instance yara_laws (topic : string) (partition : Z) : ProcessorLaws (H := yara_processor topic partition) yworld doing.
Proof.
  refine {| settled := λ d i v w0 w, refusal topic partition d i v (y_bucket w0) ∨ scanned topic partition d i v w0 w |}.
  - intros d i v w w' H. cbn in H. unfold process_record in H. destruct (negb (g_stamped d)); [discriminate H|].
    destruct (guarded topic partition d i v w) as [w1 [[]|e]] eqn:E.
    + injection H as ->. right. apply bind_inv in E as (t & w2 & Ht & E). apply lift_inv in Ht as [-> Ht].
      apply bind_inv in E as (event & w3 & He & E). apply lift_inv in He as [-> He]. destruct v; try discriminate He. injection He as ->.
      by eapply process_one_scanned.
    + left. destruct (permanent e) eqn:He; [|discriminate H].
      apply bind_raise_inv in E as [[_ E]%lift_raise_inv|(t & w2 & Ht & E)]; [by eapply no_instant|]. apply lift_inv in Ht as [-> Ht].
      apply bind_raise_inv in E as [[_ E]%lift_raise_inv|(event & w3 & Hv & E)]; [destruct v; try discriminate E; injection E as <-; discriminate He|].
      apply lift_inv in Hv as [-> Hv]. destruct v; try discriminate Hv. injection Hv as ->. by eapply process_one_refuses.
  - intros g j u d i v w0 w [H|H]; [by left|right]. eapply scanned_grows; [apply process_record_grows|exact H].
Defined.

(** One result has one observation id, whatever the time, the size or the row it is given:
    a replay of the record repeats it. *)
Lemma observation_id event r topic partition offset ingested x :
  observation event r topic partition offset ingested = Ok x →
  ∃ identity, identity_of event r topic partition offset = Ok identity ∧ dget "obs_id" x.1 = Some (VStr ("obs:" +:+ sha256 (dumps identity))).
Proof.
  clear. unfold observation. intros H. apply bind_ok_inv in H as (raw & _ & H). apply bind_ok_inv in H as (identity & Hi & H).
  apply bind_ok_inv in H as (size & _ & H). apply bind_ok_inv in H as (sha & _ & H). apply bind_ok_inv in H as (verdict & _ & H).
  apply bind_ok_inv in H as (sensor & _ & H). apply Ok_inj in H. subst x. by exists identity.
Qed.
(** A result that is not an active ruleset's, or that failed, gives no verdict. *)
Lemma verdict_active r verdict :
  scan_verdict r = Ok verdict → verdict ≠ [] → dgetN "status" r = VStr "active" ∧ truthy (dgetN "scan_error" r) = false.
Proof.
  clear. unfold scan_verdict. destruct (val_eq_str _ _) eqn:Es; cbn [andb]; [|by intros [= <-]].
  destruct (truthy (dgetN "scan_error" r)); cbn [negb]; [by intros [= <-]|]. intros _ _. split; [|done].
  destruct (dgetN "status" r); try discriminate Es. apply String.eqb_eq in Es. by subst.
Qed.

(** The bytes read are those announced. *)
Context (sha_length : ∀ s, String.length (sha256 s) = 64%nat) (sha_hex : ∀ s, string_forallb is_hex (sha256 s) = true)
  (bucket_ok : no_slash (BUCKET env) = true).
Lemma reference_digest event d b data :
  reference_ok event = true → read_from d event b = Ok data → dgetN "sha256" event = VStr (sha256 data).
Proof using bucket_ok sha_length sha_hex.
  unfold reference_ok, read_from. destruct (retrieve _ _ _ _ _ _ _ _ _) as [b' r] eqn:Hret. cbn [snd]. intros H ->. apply andb_true_iff in H as [H _]. apply andb_true_iff in H as [Hd Hk].
  destruct (dgetN "sha256" event) as [| | | |digest| |]; try discriminate Hd. cbn [full_digest py_str] in Hd, Hk.
  destruct (dgetN "object_ref" event) as [| | | |ref| |]; try discriminate Hk. apply String.eqb_eq in Hk. subst ref.
  apply retrieve_ok in Hret as (g & full & o & _ & [= <-] & _ & _ & Hr). rewrite accepted_key_partition in Hr by done.
  unfold read_artifact in Hr. apply bind_ok_inv in Hr as (u1 & _ & Hr). apply bind_ok_inv in Hr as (u2 & _ & Hr).
  apply bind_ok_inv in Hr as (u3 & H3 & Hr). apply Ok_inj in Hr. subst data. apply check_ok_inv, String.eqb_eq in H3. rewrite H3.
  pose proof (tenant_no_slash sha256 repr sha_length sha_hex (VStr TENANT)) as Ht. unfold no_slash in Ht.
  apply sha_chars in Hd as [Hd _]. unfold last_segment. cbn [snd]. rewrite split_app by done.
  change (ARTIFACT_PREFIX +:+ String "/" digest) with ("artifacts" +:+ String "/" digest). rewrite split_app by done. rewrite split_none; [done|].
  eapply forallb_weaken; [|exact Hd]. intros [[] [] [] [] [] [] [] []]; vm_compute; intros Hc; done.
Qed.
(** C14. Every announced artifact is scanned and accounted for.  Whatever is on the stream,
    whichever calls fail, wherever the process crashes and restarts: every record read since
    the group began and below the committed offset went through a call that either refused it
    for good (its append time is no datetime, its reference is not the accepted key of its
    digest, or the download, the scan or an observation of it raised a value, policy or
    permission error), or read from the bucket the bytes that hash to the announced digest
    and scanned them: every served ruleset's result (or, with none, the "unscanned" one) has
    a valid observation that is stored and sent, and the finding, if the results make one,
    is sent.  A call to the outside that fails is never a reason to go on. *)
Theorem committed_artifacts_scanned topic partition w c i v :
  rtc (consumer_step (H := yara_processor topic partition)) (idle w) c →
  (∃ p, c_committed c = Some p ∧ (c_from c <= i < p)%nat) → c_log c !! i = Some v →
  ∃ d w0, (i, d, w0) ∈ c_history c ∧
    (refusal topic partition d i v (y_bucket w0) ∨
     ∃ event data results t, v = VDict event ∧ g_instant d = Ok t ∧ read_from d event (y_bucket w0) = Ok data ∧
       dgetN "sha256" event = VStr (sha256 data) ∧ scan_of d event data = Ok results ∧
       published d (sized event data) results topic partition (Z.of_nat i) (isoformat t) (c_world c)).
Proof using bucket_ok sha_length sha_hex.
  intros Hr (p & Hp & Hi) Hv. destruct (committed_settled _ _ Hr) as [Hc _]. destruct (Hc p Hp) as [_ Hs].
  destruct (Hs i v Hi Hv) as (d & w0 & Hin & [Href|(event & data & results & t & -> & Ht & Hok & Hret & Hsc & Hpub)]);
    exists d, w0; (split; [done|]); [by left|right].
  exists event, data, results, t. split_and!; [done..| |done|done]. by eapply reference_digest.
Qed.
End service.

(** ** A concrete run: an artifact is scanned after a poll that failed half-way *)

Definition constant_digest (s : string) : string := zeros.
Definition served_registry : registry :=
  promote_now "active" "secops" (promote_now "shadow" "secops"
    (register_draft constant_digest (VStr "base") (VStr "1") (Some "rule a") (VStr "unit") VNone (VInt 64) VNone VNone
       "*" (VStr "r-1") VNone "f00" "2026-01-01T00:00:00Z" empty_registry).1).
Definition matched_report : dict :=
  [("scan_error", VNone); ("mime", VStr "application/x-dosexec"); ("matches", VList [match_entry {| e_name := "evil"; e_matches := true; e_strings := [] |}]);
   ("file_forensics", VDict [])].
Definition demo_doing (reads : bool) (sends : nat → call) : doing :=
  {| g_registry := Some served_registry; g_sink := λ _, reads; g_read_at := 100;
     g_runs := λ _, {| u_time := 0; u_end := {| e_output := Some matched_report; e_exit := 0; e_timed_out := false; e_cpu_over := false |} |};
     g_finding_at := 0; g_stamped := true; g_instant := Ok 0; g_inserts := λ _, c_done; g_sends := sends; g_finding_sent := c_done |}.
Definition accepted : string := accepted_key (tenant_segment constant_digest no_repr (VStr "acme")) zeros "ndr-files".
Definition announced : val :=
  VDict [("object_ref", VStr accepted); ("sha256", VStr zeros); ("sensor_id", VStr "s1"); ("mime", VStr "application/x-dosexec")].
Definition stored_world : yworld :=
  {| y_bucket := {| f_objects := {[ partition_at "/" accepted := {| f_data := "MZ"; f_modified := Some 50; f_metadata := [] |} ]}; f_log := [] |};
     y_rows := []; y_observations := []; y_findings := [] |}.
Definition demo_yara : Processor yworld doing :=
  yara_processor constant_digest no_repr no_repr (λ _, Ok "{}") (λ _, true) "4.5" default_limits artifact_defaults "acme" "artifacts" 0.
Definition yara_polled (fs : list doing) (p : nat) (c : consumer yworld doing) : consumer yworld doing := @polled yworld doing demo_yara p fs c.
(** The first send is lost; the next process reads the record again. *)
Definition yara_run : consumer yworld doing :=
  yara_polled [demo_doing true (λ _, c_done)] 0 (started (yara_polled [demo_doing true (λ _, c_unacked)] 0
    (produced announced (yara_polled [] 0 (started (idle stored_world)))))).

Lemma committed_artifacts_scanned_witness :
  c_committed yara_run = Some 1%nat ∧ length (y_findings (c_world yara_run)) = 1%nat ∧
  (dget "obs_id" <$> y_observations (c_world yara_run)) = [Some (VStr ("obs:" +:+ zeros)); Some (VStr ("obs:" +:+ zeros))] ∧
  ∃ d w0, (0%nat, d, w0) ∈ c_history yara_run ∧
    (refusal constant_digest no_repr no_repr (λ _, Ok "{}") "4.5" default_limits artifact_defaults "acme" "artifacts" 0 d 0 announced (y_bucket w0) ∨
     ∃ event data results t, announced = VDict event ∧ g_instant d = Ok t ∧
       read_from constant_digest no_repr artifact_defaults "acme" d event (y_bucket w0) = Ok data ∧
       dgetN "sha256" event = VStr (constant_digest data) ∧ scan_of constant_digest "4.5" default_limits d event data = Ok results ∧
       published constant_digest no_repr no_repr (λ _, Ok "{}") (λ _, true) "acme" d (sized event data) results "artifacts" 0 0 (isoformat t) (c_world yara_run)).
Proof.
  split; [vm_compute; reflexivity|]. split; [vm_compute; reflexivity|]. split; [vm_compute; reflexivity|].
  apply (committed_artifacts_scanned constant_digest no_repr no_repr (λ _, Ok "{}") (λ _, true) "4.5" default_limits artifact_defaults "acme"
    (λ _, eq_refl) (λ _, eq_refl) eq_refl "artifacts" 0 stored_world yara_run 0 announced).
  - eapply rtc_l; [apply (@starts yworld doing demo_yara); reflexivity|].
    eapply rtc_l; [apply (@polls yworld doing demo_yara _ 0 []); reflexivity|].
    eapply rtc_l; [apply (@produces yworld doing demo_yara _ announced)|].
    eapply rtc_l; [apply (@polls yworld doing demo_yara _ 0 [demo_doing true (λ _, c_unacked)]); reflexivity|].
    eapply rtc_l; [apply (@starts yworld doing demo_yara); vm_compute; reflexivity|].
    eapply rtc_l; [apply (@polls yworld doing demo_yara _ 0 [demo_doing true (λ _, c_done)]); vm_compute; reflexivity|]. reflexivity.
  - exists 1%nat. split; [vm_compute; reflexivity|]. split; [vm_compute; lia|lia].
  - vm_compute. reflexivity.
Defined.

(** A record whose object is gone is not refused: the process dies of it, whatever else
    succeeds, and reads it again. *)
Definition empty_bucket : yworld := {| y_bucket := {| f_objects := ∅; f_log := [] |}; y_rows := []; y_observations := []; y_findings := [] |}.
Example swept_artifact_raises : (process (Processor := demo_yara) (demo_doing true (λ _, c_done)) 0 announced empty_bucket).2 = Raise OtherError.
Proof. vm_compute. reflexivity. Qed.
(** So does one without a sensor. *)
Example sensorless_artifact_raises :
  (process (Processor := demo_yara) (demo_doing true (λ _, c_done)) 0 (VDict [("object_ref", VStr accepted); ("sha256", VStr zeros)]) stored_world).2 = Raise KeyError.
Proof. vm_compute. reflexivity. Qed.

(** ** Where rulesets come from (services/file-yara/rules_refresh.py and app.py)

    Remote rulesets are fetched and staged as drafts of the registry; the rulesets of the
    image are brought into the registry and promoted by the service itself; and a list of
    rule files to compile can be made of the served rulesets and the image's own.

    What a fetch returns (its body, or nothing on an error), the generated ids, the clock
    readings and SHA-256 are parameters.  A directory is a finite map from names to bytes. *)

(** ** Staging (refresh_to_registry) *)

Definition MAX_RULE_BYTES : Z := 8 * 1024 * 1024.
Definition _remote_urls (raw : string) : list string := List.filter str_truthy (strip <$> split_char "," (strip raw)).
(** At most one byte past the cap is read. *)
Definition _fetch_remote (body : option string) (url : string) : option string :=
  if negb (starts_with "https://" url) then None
  else data ← body; if MAX_RULE_BYTES <? len data then None else Some data.

Abbreviation directory := (gmap string string).

Section rules.
Context (sha256 : string → string).

(** The [i]-th url's body, and the id and the time its draft gets. *)
Record fetches := { h_body : nat → option string; h_id : nat → string; h_now : nat → string }.
Fixpoint stage_urls (f : fetches) (source : string) (mimes : val) (max_size : Z) (i : nat) (urls : list string) (existing : list string) :
    M registry (list string) :=
  match urls with
  | [] => ret []
  | url :: urls =>
      match _fetch_remote (h_body f i) url with
      | None => stage_urls f source mimes max_size (S i) urls existing
      | Some data =>
          if mem (sha256 data) existing then stage_urls f source mimes max_size (S i) urls existing
          else
            let* row := register_draft sha256 (VStr ("remote_" +:+ pretty (Z.of_nat i) +:+ ":" +:+ url)) (VStr (take_chars 12 (sha256 data)))
                          (Some data) (VStr source) mimes (VInt max_size) VNone VNone "*" VNone VNone (h_id f i) (h_now f i) in
            let* ids := stage_urls f source mimes max_size (S i) urls (sha256 data :: existing) in
            ret (r_id row :: ids)
      end
  end.
Definition refresh_to_registry (f : fetches) (urls : list string) (source : string) (mimes : val) (max_size : Z) : M registry (list string) :=
  let* existing := read (λ g, r_sha256 <$> list_rulesets g None) in
  stage_urls f source mimes max_size 0 urls existing.
(** Whatever staging raises is logged. *)
Definition _stage_remote (f : fetches) (urls : list string) (g : registry) : registry :=
  (refresh_to_registry f urls "rules-refresh" VNone (64 * 1024 * 1024) g).1.
Definition _refresh_once (f : fetches) (urls : list string) (g : registry) : registry * nat :=
  let g := _stage_remote f urls g in (g, length (active_for_scan g None)).

(** ** The image's rulesets (_bootstrap_baseline) *)

Definition yar_files (dir : directory) : list (string * string) := isort fst (List.filter (λ nd, ends_with ".yar" nd.1) (map_to_list dir)).
(** [path.stem] of a name that ends in [.yar]. *)
Definition path_stem (name : string) : string := if String.eqb name ".yar" then name else take_chars (String.length name - 4) name.
Definition BASELINE : string := "file-yara-baseline".
Definition baseline_auth : string → string → string → bool := allow_actors [BASELINE].
Definition bundled_id (digest : string) : string := "bundled-" +:+ digest.
Definition governs (digest : string) (r : ruleset) : bool := String.eqb (r_sha256 r) digest && negb (String.eqb (r_status r) "draft").
Definition ensure_draft (now : string) (name digest data : string) : M registry unit :=
  let* old := read (λ g, get g (bundled_id digest)) in
  match old with
  | Some _ => ret tt
  | None =>
      let* _ := register_draft sha256 (VStr (path_stem name)) (VStr digest) (Some data) (VStr "bundled-image") VNone (VInt (64 * 1024 * 1024))
                  VNone VNone "*" (VStr (bundled_id digest)) VNone "" now in
      ret tt
  end.
(** [clock]: the readings a ruleset's registration and its two promotions take. *)
Definition bootstrap_one (clock : string → nat → string) (file : string * string) : M registry unit :=
  let '(name, data) := file in
  let digest := sha256 data in
  let rid := bundled_id digest in
  let* rows := read (λ g, list_rulesets g None) in
  if existsb (governs digest) rows then ret tt
  else
    ensure_draft (clock rid 0%nat) name digest data ;*
    let* row := read (λ g, get g rid) in
    match row with
    | None => raise TypeError
    | Some row =>
        if negb (String.eqb (r_sha256 row) digest && String.eqb (g_source (r_reg row)) "bundled-image") then raise ValueError
        else if String.eqb (r_status row) "draft" then
          let* _ := promote rid "shadow" (VStr BASELINE) baseline_auth VNone (clock rid 1%nat) in
          let* _ := promote rid "active" (VStr BASELINE) baseline_auth VNone (clock rid 2%nat) in
          ret tt
        else ret tt
    end.
Definition _bootstrap_baseline (clock : string → nat → string) (dir : directory) : M registry unit :=
  for_each (bootstrap_one clock) (yar_files dir).

(** ** The files to compile (ensure_rules) *)

(** A path is a name in the cache or in the image's directory. *)
Inductive rule_path := in_cache (name : string) | in_bundle (name : string).
Definition served_name (id : string) : string := "served_" +:+ id +:+ ".yar".
Definition purged (cache : directory) : directory := filter (λ nd : string * string, ends_with ".yar" nd.1 = false) cache.
Fixpoint materialized (g : registry) (rows : list ruleset) : M directory (list rule_path) :=
  match rows with
  | [] => ret []
  | row :: rows =>
      let* data := lift (load_bytes sha256 g (r_id row)) in
      modify <[served_name (r_id row) := data]> ;*
      let* paths := materialized g rows in
      ret (in_cache (served_name (r_id row)) :: paths)
  end.
Definition governed (g : option registry) : list string :=
  match g with
  | None => []
  | Some g => r_sha256 <$> List.filter (λ r, negb (String.eqb (r_status r) "draft")) (list_rulesets g None)
  end.
(** [bundle] is [None] when there is no such directory. *)
Definition ensure_rules (g : option registry) (bundle : option directory) : M directory (list rule_path) :=
  modify purged ;*
  let* served := match g with None => ret [] | Some g => materialized g (active_for_scan g None) end in
  ret (served ++ match bundle with
                 | None => []
                 | Some dir => (λ nd, in_bundle nd.1) <$> List.filter (λ nd, negb (mem (sha256 nd.2) (governed g))) (yar_files dir)
                 end).

(** ** Facts *)

Lemma elem_of_rows g r : r ∈ list_rulesets g None ↔ ∃ id, get g id = Some r.
Proof.
  clear. cbn [list_rulesets]. unfold rows_by_id, get. rewrite elem_of_isort, list_elem_of_fmap. split.
  - intros ([id r'] & -> & H). exists id. by apply elem_of_map_to_list in H.
  - intros [id H]. exists (id, r). split; [done|]. by apply elem_of_map_to_list.
Qed.
Lemma elem_of_served g mime r :
  r ∈ active_for_scan g mime ↔ (∃ id, get g id = Some r) ∧ mem (r_status r) _SERVED_STATUSES = true ∧ applies_to mime r = true.
Proof. clear. unfold active_for_scan. rewrite !elem_filter. rewrite (elem_of_rows g r). tauto. Qed.

(** Nothing of the registry changes but for new drafts, each of bytes it had no row for. *)
Definition only_drafts (g g' : registry) : Prop :=
  (∀ id r, get g id = Some r → get g' id = Some r) ∧
  (∀ id r, get g' id = Some r → get g id = Some r ∨ get g id = None ∧ r_status r = "draft").
#[export] Instance only_drafts_preorder : PreOrder only_drafts.
Proof.
  split.
  - intros g. split; [done|by left].
  - intros g1 g2 g3 [H1 K1] [H2 K2]. split; [by auto|]. intros id r H. destruct (K2 _ _ H) as [Hr|[Hn Hd]]; [by apply K1|].
    right. split; [|done]. destruct (get g1 id) as [x|] eqn:E; [|done]. apply H1 in E. congruence.
Qed.
Lemma registered_get r data ts g id : get (registered r data ts g) id = if decide (r_id r = id) then Some r else get g id.
Proof. unfold get, registered. cbn. case_decide as E; [subst; apply lookup_insert_eq|by apply lookup_insert_ne]. Qed.
Lemma register_only_drafts name version data source mimes size notes corpus tenant rid ts fresh now :
  frames only_drafts (register_draft sha256 name version data source mimes size notes corpus tenant rid ts fresh now).
Proof.
  intros g. destruct (register_draft _ _ _ _ _ _ _ _ _ _ _ _ _ _ g) as [g' o] eqn:E.
  apply register_draft_inv in E as [[-> _]|(r & d & t & _ & _ & Hn & -> & Hs & _)]; [done|]. cbn [fst].
  injection Hs as Hs _ _. split; intros id x; rewrite registered_get; case_decide as Ei; subst; [congruence|done| |by left].
  intros [= <-]. by right.
Qed.
#[local] Hint Resolve register_only_drafts : cernity.
Lemma stage_only_drafts f source mimes size i urls existing : frames only_drafts (stage_urls f source mimes size i urls existing).
Proof.
  revert i existing. induction urls as [|url urls IH]; intros i existing; cbn [stage_urls]; [auto with cernity typeclass_instances|].
  destruct (_fetch_remote _ _); [|done]. destruct (mem _ _); auto 8 with cernity typeclass_instances.
Qed.
Lemma only_drafts_served g g' mime r : only_drafts g g' → r ∈ active_for_scan g' mime ↔ r ∈ active_for_scan g mime.
Proof.
  intros [H1 H2]. rewrite !elem_of_served. split; intros [[id Hr] Hs]; (split; [|done]); exists id; [|by auto].
  destruct (H2 _ _ Hr) as [|[_ Hd]]; [done|]. rewrite Hd in Hs. by destruct Hs.
Qed.

(** The digests that have a row after staging, and that a second staging of the same bodies
    finds nothing new. *)
Definition covered (f : fetches) (i : nat) (urls : list string) (known : string → Prop) : Prop :=
  ∀ k url data, urls !! k = Some url → _fetch_remote (h_body f (i + k)%nat) url = Some data → known (sha256 data).
Lemma stage_covers f source mimes size i urls existing g g' ids :
  stage_urls f source mimes size i urls existing g = (g', Ok ids) →
  covered f i urls (λ sha, sha ∈ existing ∨ ∃ id r, get g' id = Some r ∧ r_sha256 r = sha).
Proof.
  revert i existing g ids. induction urls as [|url urls IH]; intros i existing g ids H k url' data Hk Hf; [by rewrite lookup_nil in Hk|].
  cbn [stage_urls] in H. destruct k as [|k]; cbn in Hk.
  - injection Hk as <-. rewrite Nat.add_0_r in Hf. rewrite Hf in H. destruct (mem (sha256 data) existing) eqn:Em; [left; by apply mem_true|right].
    apply bind_inv in H as (row & g1 & Hr & H). apply bind_inv in H as (ids' & g2 & Hs & H). injection H as -> _.
    apply register_draft_inv in Hr as [[_ [e [=]]]|(r & d & t & [= <-] & [= <-] & _ & -> & _ & Hsha)].
    exists (r_id row), row. split; [|done]. pose proof (stage_only_drafts f source mimes size (S i) urls (sha256 data :: existing) (registered row data t g)) as [Hd _].
    rewrite Hs in Hd. apply Hd. rewrite registered_get. by rewrite decide_True.
  - rewrite Nat.add_succ_r in Hf. destruct (_fetch_remote (h_body f i) url) as [d|]; [|by eapply (IH (S i))].
    destruct (mem (sha256 d) existing); [by eapply (IH (S i))|]. apply bind_inv in H as (row & g1 & Hr & H).
    apply bind_inv in H as (ids' & g2 & Hs & H). injection H as -> _.
    destruct (IH (S i) _ _ _ Hs k url' data Hk Hf) as [[->|Hin]%elem_of_cons|Hex]; [|by left|by right]. right.
    apply register_draft_inv in Hr as [[_ [e [=]]]|(r & d' & t & [= <-] & [= <-] & _ & -> & _ & Hsha)].
    exists (r_id row), row. split; [|congruence]. pose proof (stage_only_drafts f source mimes size (S i) urls (sha256 d :: existing) (registered row d t g)) as [Hd _].
    rewrite Hs in Hd. apply Hd. rewrite registered_get. by rewrite decide_True.
Qed.
Lemma stage_nothing f source mimes size i urls existing g :
  covered f i urls (λ sha, sha ∈ existing) → stage_urls f source mimes size i urls existing g = (g, Ok []).
Proof.
  revert i. induction urls as [|url urls IH]; intros i H; cbn [stage_urls]; [done|].
  assert (H' : covered f (S i) urls (λ sha, sha ∈ existing)).
  { intros k url' data Hk Hf. apply (H (S k) url' data Hk). by rewrite Nat.add_succ_r. }
  destruct (_fetch_remote (h_body f i) url) as [d|] eqn:Ef; [|by apply IH].
  assert (Hd : sha256 d ∈ existing) by (apply (H 0%nat url d); [done|by rewrite Nat.add_0_r]).
  apply mem_true in Hd. rewrite Hd. by apply IH.
Qed.
(** C0. Nothing remote is served without a promotion.  Whatever the remote rule servers
    answer and however staging ends: the rows there were keep their content and status, every
    new row is a draft, so the rulesets served to scans are the same as before; and when
    staging ended without an error, doing it again on the same answers changes nothing. *)
Theorem refresh_stages_drafts f urls source mimes size g g' o :
  refresh_to_registry f urls source mimes size g = (g', o) →
  (∀ id r, get g id = Some r → get g' id = Some r) ∧
  (∀ id r, get g' id = Some r → get g id = Some r ∨ get g id = None ∧ r_status r = "draft") ∧
  (∀ mime r, r ∈ active_for_scan g' mime ↔ r ∈ active_for_scan g mime) ∧
  ∀ ids f', o = Ok ids → h_body f' = h_body f → refresh_to_registry f' urls source mimes size g' = (g', Ok []).
Proof.
  intros H. change (stage_urls f source mimes size 0 urls (r_sha256 <$> list_rulesets g None) g = (g', o)) in H.
  pose proof (stage_only_drafts f source mimes size 0 urls (r_sha256 <$> list_rulesets g None) g) as Hd. rewrite H in Hd.
  split; [apply Hd|]. split; [apply Hd|]. split; [intros mime r; by apply only_drafts_served|]. intros ids f' -> Hb. apply stage_nothing.
  intros k url data Hk Hf. rewrite Hb in Hf. apply list_elem_of_fmap.
  destruct (stage_covers _ _ _ _ _ _ _ _ _ _ H k url data Hk Hf) as [Hold|(id & r & Hr & E)].
  - apply list_elem_of_fmap in Hold as (r & -> & [id Hr]%elem_of_rows). exists r. split; [done|]. apply elem_of_rows. exists id. by apply Hd.
  - exists r. split; [done|]. apply elem_of_rows. by exists id.
Qed.

(** *** The image's rulesets *)

(** A row the service brought in and promoted itself. *)
Definition baseline_row (id : string) (r : ruleset) : Prop :=
  id = bundled_id (r_sha256 r) ∧ r_status r = "active" ∧ g_source (r_reg r) = "bundled-image" ∧ r_promoted_by r = Some BASELINE.
(** Rows stay, but for drafts of the image's own bytes; what is new is a baseline row. *)
Definition only_baseline (g g' : registry) : Prop :=
  (∀ id r, get g id = Some r → get g' id = Some r ∨
     r_status r = "draft" ∧ id = bundled_id (r_sha256 r) ∧ g_source (r_reg r) = "bundled-image") ∧
  (∀ id r, get g' id = Some r → get g id = Some r ∨ baseline_row id r).
#[export] Instance only_baseline_preorder : PreOrder only_baseline.
Proof.
  split.
  - intros g. by split; left.
  - intros g1 g2 g3 [H1 K1] [H2 K2]. split; intros id r H.
    + destruct (H1 _ _ H) as [H'|Hd]; [by apply H2|by right].
    + destruct (K2 _ _ H) as [H'|Hb]; [by apply K1|by right].
Qed.
Definition governed_in (g : registry) (digest : string) : Prop := ∃ id r, get g id = Some r ∧ r_sha256 r = digest ∧ r_status r ≠ "draft".
Lemma governs_true digest r : governs digest r = true ↔ r_sha256 r = digest ∧ r_status r ≠ "draft".
Proof. clear. unfold governs. by rewrite andb_true_iff, negb_true_iff, String.eqb_eq, String.eqb_neq. Qed.
Lemma only_baseline_governed g g' digest : only_baseline g g' → governed_in g digest → governed_in g' digest.
Proof. intros [H _] (id & r & Hr & Hs & Hd). destruct (H _ _ Hr) as [H'|[Hx _]]; [by exists id, r|done]. Qed.

Lemma promoted_get r id to actor ts g i : get (promoted r id to actor ts g) i = if decide (id = i) then Some (moved to actor ts r) else get g i.
Proof. unfold get, promoted. cbn. case_decide as E; [subst; apply lookup_insert_eq|by apply lookup_insert_ne]. Qed.
(** The two promotions of a draft of the image's bytes. *)
Lemma promoted_twice rid r g g1 g2 r1 r2 t1 t2 :
  get g rid = Some r → promote rid "shadow" (VStr BASELINE) baseline_auth VNone t1 g = (g1, Ok r1) →
  promote rid "active" (VStr BASELINE) baseline_auth VNone t2 g1 = (g2, Ok r2) →
  ∃ u1 u2, ∀ i, get g2 i = if decide (rid = i) then Some (moved "active" BASELINE u2 (moved "shadow" BASELINE u1 r)) else get g i.
Proof.
  intros Hr H1 H2.
  assert (Ha : ∀ to t g g' x y, get g rid = Some x → promote rid to (VStr BASELINE) baseline_auth VNone t g = (g', Ok y) →
    ∃ u, g' = promoted x rid to BASELINE u g).
  { clear. intros to t g g' x y Hx H. apply promote_inv in H as [[_ [e [=]]]|(r & a & u & Hr & _ & [(_ & _ & [=])|(Ha & -> & _)])].
    assert (r = x) as -> by congruence. unfold baseline_auth, allow_actors in Ha. apply mem_true, list_elem_of_singleton in Ha as ->. by exists u. }
  destruct (Ha _ _ _ _ _ _ Hr H1) as [u1 ->]. assert (Hr1 : get (promoted r rid "shadow" BASELINE u1 g) rid = Some (moved "shadow" BASELINE u1 r))
    by (rewrite promoted_get; by rewrite decide_True).
  destruct (Ha _ _ _ _ _ _ Hr1 H2) as [u2 ->]. exists u1, u2. intros i. rewrite promoted_get. case_decide; [done|]. rewrite promoted_get. by rewrite decide_False.
Qed.
Lemma ensure_draft_get now name data g g1 u :
  ensure_draft now name (sha256 data) data g = (g1, Ok u) →
  g1 = g ∧ is_Some (get g (bundled_id (sha256 data))) ∨
  get g (bundled_id (sha256 data)) = None ∧ ∃ r d t, g1 = registered r d t g ∧ get g (r_id r) = None ∧ r_status r = "draft" ∧ r_sha256 r = sha256 data.
Proof.
  unfold ensure_draft. intros H. apply bind_inv in H as (old & g0 & Ho & H). injection Ho as <- <-.
  destruct (get g (bundled_id (sha256 data))) as [r|]; [injection H as ->; left; split; [done|by exists r]|].
  apply bind_inv in H as (row & g2 & Hr & H). injection H as ->. right. split; [done|].
  apply register_draft_inv in Hr as [[_ [e [=]]]|(r & d & t & _ & [= <-] & Hn & -> & Hs & Hsha)]. injection Hs as Hs _ _. by exists r, data, t.
Qed.
Lemma bootstrap_one_ok clock name data g g' :
  bootstrap_one clock (name, data) g = (g', Ok tt) → only_baseline g g' ∧ governed_in g' (sha256 data).
Proof.
  unfold bootstrap_one. intros H. apply bind_inv in H as (rows & g0 & Ho & H). injection Ho as <- <-.
  destruct (existsb _ _) eqn:Ee.
  { injection H as ->. split; [done|]. apply existsb_exists in Ee as (r & Hr%list_elem_of_In & Hg%governs_true).
    apply elem_of_rows in Hr as [id Hr]. exists id, r. tauto. }
  apply bind_inv in H as (u & g1 & Hd & H). apply bind_inv in H as (row & g2 & Hrow & H). injection Hrow as <- Hrow.
  set (rid := bundled_id (sha256 data)) in *. assert (Erid : rid = bundled_id (sha256 data)) by done. clearbody rid.
  subst row. destruct (get g1 rid) as [r|] eqn:Hr; [|discriminate H].
  destruct (String.eqb_spec (r_sha256 r) (sha256 data)) as [Hsha|]; [|discriminate H].
  destruct (String.eqb_spec (g_source (r_reg r)) "bundled-image") as [Hsrc|]; [|discriminate H]. cbn [negb andb] in H.
  assert (Hbefore : ∀ i, i ≠ rid → get g1 i = get g i).
  { destruct (ensure_draft_get _ _ _ _ _ _ Hd) as [[-> _]|(Hn & r0 & d & t & -> & Hn0 & _)]; [done|]. intros i Hi.
    rewrite registered_get in Hr |- *. destruct (decide (r_id r0 = rid)); [by rewrite decide_False by congruence|]. rewrite <- Erid in Hn. by rewrite Hn in Hr. }
  destruct (String.eqb_spec (r_status r) "draft") as [Hst|Hst].
  2:{ injection H as ->. destruct (ensure_draft_get _ _ _ _ _ _ Hd) as [[-> _]|(Hn & r0 & d & t & -> & Hn0 & Hdr & _)].
      - split; [done|]. by exists rid, r.
      - rewrite registered_get in Hr. rewrite <- Erid in Hn. case_decide; [|by rewrite Hn in Hr]. by injection Hr as <-. }
  apply bind_inv in H as (r1 & g3 & H1 & H). apply bind_inv in H as (r2 & g4 & H2 & H). injection H as ->.
  destruct (promoted_twice _ _ _ _ _ _ _ _ _ Hr H1 H2) as (u1 & u2 & Hget). clear H1 H2. split.
  - split; intros i x Hx.
    + rewrite Hget. destruct (decide (rid = i)) as [<-|Hi]; [right|left; by rewrite Hbefore].
      destruct (ensure_draft_get _ _ _ _ _ _ Hd) as [[-> _]|(Hn & _)]; [|rewrite <- Erid in Hn; by rewrite Hn in Hx].
      rewrite Hr in Hx. injection Hx as <-. by rewrite Hsha.
    + rewrite Hget in Hx. destruct (decide (rid = i)) as [<-|Hi]; [right|left; by rewrite <- Hbefore]. injection Hx as <-. unfold baseline_row. cbn.
      by rewrite Hsha.
  - exists rid, (moved "active" BASELINE u2 (moved "shadow" BASELINE u1 r)). rewrite Hget. by rewrite decide_True.
Qed.
Lemma bootstrap_all_ok clock files g g' :
  for_each (bootstrap_one clock) files g = (g', Ok tt) → only_baseline g g' ∧ ∀ f, f ∈ files → governed_in g' (sha256 f.2).
Proof.
  revert g. induction files as [|[name data] files IH]; intros g H; cbn [for_each] in H; [injection H as <-; split; [done|]; by intros f Hf%elem_of_nil|].
  apply bind_inv in H as ([] & g1 & H1 & H). destruct (bootstrap_one_ok _ _ _ _ _ H1) as [Hb Hg]. destruct (IH _ H) as [Hb' Hg'].
  split; [by etrans|]. intros f [->|Hf]%elem_of_cons; [by eapply only_baseline_governed|by apply Hg'].
Qed.
Lemma bootstrap_nothing clock files g : (∀ f, f ∈ files → governed_in g (sha256 f.2)) → for_each (bootstrap_one clock) files g = (g, Ok tt).
Proof.
  induction files as [|[name data] files IH]; intros H; cbn [for_each]; [done|]. unfold bind at 1.
  assert (E : bootstrap_one clock (name, data) g = (g, Ok tt)); [|rewrite E; apply IH; intros f Hf; apply H; by right].
  unfold bootstrap_one, bind, read. destruct (H (name, data)) as (id & r & Hr & Hs & Hd); [by left|].
  assert (Ex : existsb (governs (sha256 data)) (list_rulesets g None) = true); [|by rewrite Ex].
  apply existsb_exists. exists r. rewrite <- list_elem_of_In, elem_of_rows. split; [by exists id|by apply governs_true].
Qed.
Lemma elem_of_yar_files dir name data : (name, data) ∈ yar_files dir ↔ dir !! name = Some data ∧ ends_with ".yar" name = true.
Proof. clear. unfold yar_files. rewrite elem_of_isort, elem_filter, elem_of_map_to_list. done. Qed.
(** C30. The image's rulesets are served unless someone decided otherwise.  When the start-up
    step ends without an error: every ruleset of the image either already had a row that had
    left the draft status (shadow, active or retired), or is now active under the id of its
    digest, promoted by the service; every row there was is kept as it was, but for drafts of
    the image's own bytes; the only new rows are such active ones; and another start changes
    nothing. *)
Theorem baseline_respects_decisions clock dir g g' :
  _bootstrap_baseline clock dir g = (g', Ok tt) →
  (∀ name data, dir !! name = Some data → ends_with ".yar" name = true →
     governed_in g (sha256 data) ∨ ∃ r, get g' (bundled_id (sha256 data)) = Some r ∧ r_sha256 r = sha256 data ∧ r_status r = "active" ∧ r_promoted_by r = Some BASELINE) ∧
  only_baseline g g' ∧ ∀ clock', _bootstrap_baseline clock' dir g' = (g', Ok tt).
Proof.
  intros H. destruct (bootstrap_all_ok _ _ _ _ H) as [Hb Hg]. split; [|split; [done|intros clock'; by apply bootstrap_nothing]].
  intros name data Hn Hy. destruct (Hg (name, data)) as (id & r & Hr & Hs & Hd); [by apply elem_of_yar_files|]. cbn [snd] in Hs.
  destruct Hb as [_ Hb]. destruct (Hb _ _ Hr) as [Hold|(-> & Ha & _ & Hp)]; [left; by exists id, r|right]. rewrite Hs in Hr. by exists r.
Qed.

(** *** What is compiled *)

Lemma materialized_ok g rows cache cache' paths :
  materialized g rows cache = (cache', Ok paths) →
  paths = (λ row, in_cache (served_name (r_id row))) <$> rows ∧
  (∀ row, row ∈ rows → ∃ data, load_bytes sha256 g (r_id row) = Ok data ∧ cache' !! served_name (r_id row) = Some data) ∧
  ∀ name, (∀ row, row ∈ rows → name ≠ served_name (r_id row)) → cache' !! name = cache !! name.
Proof.
  revert cache paths. induction rows as [|row rows IH]; intros cache paths H; cbn [materialized] in H.
  { injection H as <- <-. split; [done|]. split; [by intros ? ?%elem_of_nil|done]. }
  apply bind_inv in H as (data & c1 & Hl & H). apply lift_inv in Hl as [-> Hl]. apply bind_inv in H as (u & c2 & Hm & H). injection Hm as <- _.
  apply bind_inv in H as (ps & c3 & Hr & H). injection H as -> <-. destruct (IH _ _ Hr) as (-> & Hin & Hout). split; [done|]. split.
  - intros row' [->|Hr']%elem_of_cons; [|by apply Hin]. exists data. split; [done|].
    destruct (existsb (λ x, String.eqb (served_name (r_id row)) (served_name (r_id x))) rows) eqn:Ex.
    + apply existsb_exists in Ex as (x & Hx%list_elem_of_In & Heq%String.eqb_eq). destruct (Hin x Hx) as (d & Hd & Hc). rewrite Heq, Hc.
      f_equal. assert (r_id row = r_id x) as E; [|congruence]. unfold served_name in Heq. injection Heq as Heq.
      apply (f_equal String.rev) in Heq. rewrite !rev_sapp in Heq. apply (inj (String.append _)), (f_equal String.rev) in Heq. by rewrite !rev_rev in Heq.
    + rewrite Hout; [apply lookup_insert_eq|]. intros x Hx E. rewrite <- not_true_iff_false in Ex. apply Ex, existsb_exists. exists x.
      rewrite <- list_elem_of_In. split; [done|by apply String.eqb_eq].
  - intros name Hn. rewrite Hout; [apply lookup_insert_ne; intros E; by apply (Hn row); [left|]|]. intros x Hx. apply Hn. by right.
Qed.
Lemma governed_false g digest :
  mem digest (governed (Some g)) = false ↔ ∀ id r, get g id = Some r → r_sha256 r = digest → r_status r = "draft".
Proof.
  clear. rewrite mem_false. cbn [governed]. rewrite list_elem_of_fmap. split.
  - intros H id r Hr Hs. destruct (String.eqb_spec (r_status r) "draft") as [|Hd]; [done|]. exfalso. apply H. exists r. split; [done|].
    rewrite elem_filter, elem_of_rows. split; [by exists id|by apply negb_true_iff, String.eqb_neq].
  - intros H (r & -> & Hr). rewrite elem_filter, elem_of_rows in Hr. destruct Hr as [[id Hr] Hd]. rewrite (H id r Hr eq_refl) in Hd. discriminate Hd.
Qed.
(** C29. Only what was promoted, or what the image ships and nobody governs, is compiled.
    When the list of files is made: its cached files are exactly the served rulesets', each
    holding bytes that verified against the registered digest; its files of the image are
    exactly those for whose bytes every row, if any, is a draft (so an anonymous draft cannot
    switch off a rule of the image, and a retired one stays off); and no other rule file is
    left in the cache. *)
Theorem compiled_rules_governed g bundle cache cache' paths :
  ensure_rules (Some g) bundle cache = (cache', Ok paths) →
  (∀ name, in_cache name ∈ paths ↔ ∃ row, row ∈ active_for_scan g None ∧ name = served_name (r_id row)) ∧
  (∀ row, row ∈ active_for_scan g None → ∃ data, load_bytes sha256 g (r_id row) = Ok data ∧ cache' !! served_name (r_id row) = Some data) ∧
  (∀ name, in_bundle name ∈ paths ↔ ∃ dir data, bundle = Some dir ∧ dir !! name = Some data ∧ ends_with ".yar" name = true ∧
     ∀ id r, get g id = Some r → r_sha256 r = sha256 data → r_status r = "draft") ∧
  (∀ name, is_Some (cache' !! name) → ends_with ".yar" name = true → in_cache name ∈ paths).
Proof.
  intros H. apply bind_inv in H as (u & c1 & Hm & H). injection Hm as <- _. apply bind_inv in H as (served & c2 & Hs & H). injection H as -> <-.
  destruct (materialized_ok _ _ _ _ _ Hs) as (-> & Hin & Hout).
  assert (Hcache : ∀ name, in_cache name ∈ (λ row, in_cache (served_name (r_id row))) <$> active_for_scan g None ↔
    ∃ row, row ∈ active_for_scan g None ∧ name = served_name (r_id row)).
  { intros name. rewrite list_elem_of_fmap. split; intros (row & A & B); exists row; [by injection A as ->|by subst]. }
  assert (Hb : ∀ p, p ∈ match bundle with None => [] | Some dir =>
      (λ nd, in_bundle nd.1) <$> List.filter (λ nd, negb (mem (sha256 nd.2) (governed (Some g)))) (yar_files dir) end ↔
    ∃ dir name data, bundle = Some dir ∧ p = in_bundle name ∧ dir !! name = Some data ∧ ends_with ".yar" name = true ∧ mem (sha256 data) (governed (Some g)) = false).
  { intros p. destruct bundle as [dir|]; [|split; [by intros ?%elem_of_nil|by intros (? & ? & ? & [=] & _)]]. rewrite list_elem_of_fmap. split.
    - intros ([name data] & -> & Hf). rewrite elem_filter, elem_of_yar_files, negb_true_iff in Hf. exists dir, name, data. naive_solver.
    - intros (? & name & data & [= <-] & -> & Hd & Hy & Hm). exists (name, data). split; [done|]. by rewrite elem_filter, elem_of_yar_files, negb_true_iff. }
  split; [|split; [done|split]].
  - intros name. rewrite elem_of_app, Hcache, Hb. split; [|by left]. intros [?|(? & ? & ? & _ & [=] & _)]; done.
  - intros name. rewrite elem_of_app, Hb. split.
    + intros [Hl|(dir & n & data & -> & [= <-] & Hd & Hy & Hm)]; [by apply list_elem_of_fmap in Hl as (? & [=] & _)|].
      exists dir, data. split_and!; [done..|]. by apply governed_false.
    + intros (dir & data & -> & Hd & Hy & Hr). right. exists dir, name, data. split_and!; [done..|]. by apply governed_false.
  - intros name Hs' Hy. apply elem_of_app. left. rewrite Hcache.
    destruct (existsb (λ x, String.eqb name (served_name (r_id x))) (active_for_scan g None)) eqn:Ex.
    + apply existsb_exists in Ex as (x & Hx%list_elem_of_In & ->%String.eqb_eq). by exists x.
    + rewrite Hout in Hs'; [|intros x Hx ->; rewrite <- not_true_iff_false in Ex; apply Ex, existsb_exists; exists x;
        rewrite <- list_elem_of_In; split; [done|apply String.eqb_refl]].
      destruct Hs' as [data Hd]. apply map_lookup_filter_Some in Hd as [_ Hd]. change (ends_with ".yar" name = false) in Hd. by rewrite Hy in Hd.
Qed.
End rules.

(** ** Concrete runs *)

Definition demo_clock (rid : string) (n : nat) : string := "2026-01-01T00:00:00Z".
Definition image_rules : directory := {[ "eicar.yar" := "rule eicar"; "readme.txt" := "text" ]}.
Definition demo_digest (s : string) : string := take_chars 4 (rev_string s).
Definition booted : registry := (_bootstrap_baseline demo_digest demo_clock image_rules empty_registry).1.
Definition statuses (g : registry) : list (string * string) := (λ r, (r_id r, r_status r)) <$> list_rulesets g None.

Definition demo_fetches (from : nat) : fetches :=
  {| h_body := λ i, if (i =? 1)%nat then None else Some "rule remote"; h_id := λ i, "d" +:+ pretty (Z.of_nat (i + from)); h_now := λ _, "2026-01-02T00:00:00Z" |}.
Definition demo_urls : list string := _remote_urls "https://a/x.yar, https://b/y.yar,https://c/z.yar,http://d/w.yar".
Definition staged : registry := (refresh_to_registry demo_digest (demo_fetches 0) demo_urls "rules-refresh" VNone 64 booted).1.

Lemma refresh_stages_drafts_witness :
  statuses staged = [("bundled-raci", "active"); ("d0", "draft")] ∧
  refresh_to_registry demo_digest (demo_fetches 7) demo_urls "rules-refresh" VNone 64 staged = (staged, Ok []).
Proof.
  split; [vm_compute; reflexivity|].
  destruct (refresh_stages_drafts demo_digest (demo_fetches 0) demo_urls "rules-refresh" VNone 64 booted staged
    (refresh_to_registry demo_digest (demo_fetches 0) demo_urls "rules-refresh" VNone 64 booted).2 (surjective_pairing _)) as (_ & _ & _ & H).
  apply (H ["d0"]); vm_compute; reflexivity.
Defined.
Lemma baseline_respects_decisions_witness :
  statuses booted = [("bundled-raci", "active")] ∧ _bootstrap_baseline demo_digest demo_clock image_rules booted = (booted, Ok tt).
Proof.
  split; [vm_compute; reflexivity|].
  destruct (baseline_respects_decisions demo_digest demo_clock image_rules empty_registry booted) as (_ & _ & H).
  - assert (E : (_bootstrap_baseline demo_digest demo_clock image_rules empty_registry).2 = Ok tt) by (vm_compute; reflexivity).
    rewrite <- E. apply surjective_pairing.
  - apply H.
Defined.
(** A start that ended between the two promotions leaves the ruleset in shadow, and no later
    start takes it further. *)
Definition half_booted : registry :=
  (promote "bundled-raci" "shadow" (VStr BASELINE) baseline_auth VNone "2026-01-01T00:00:00Z"
    (ensure_draft demo_digest "2026-01-01T00:00:00Z" "eicar.yar" "raci" "rule eicar" empty_registry).1).1.
Example interrupted_baseline_stays_shadow :
  statuses half_booted = [("bundled-raci", "shadow")] ∧ _bootstrap_baseline demo_digest demo_clock image_rules half_booted = (half_booted, Ok tt).
Proof. split; vm_compute; reflexivity. Qed.

Definition old_cache : directory := {[ "remote_0.yar" := "rule poisoned"; "notes" := "n" ]}.
Lemma compiled_rules_governed_witness :
  ∃ cache' paths, ensure_rules demo_digest (Some booted) (Some image_rules) old_cache = (cache', Ok paths) ∧
    paths = [in_cache "served_bundled-raci.yar"] ∧ cache' !! "remote_0.yar" = None ∧ in_bundle "eicar.yar" ∉ paths.
Proof.
  destruct (ensure_rules demo_digest (Some booted) (Some image_rules) old_cache) as [cache' [paths|e]] eqn:E; [|vm_compute in E; discriminate E].
  exists cache', paths. destruct (compiled_rules_governed _ _ _ _ _ _ E) as (_ & _ & Hb & Hc). split; [done|].
  assert (Hp : paths = [in_cache "served_bundled-raci.yar"]) by (vm_compute in E; by injection E as _ <-). split; [done|]. split.
  - destruct (cache' !! "remote_0.yar") as [d|] eqn:Ed; [|done]. exfalso. assert (Hi : in_cache "remote_0.yar" ∈ paths) by (by apply Hc).
    rewrite Hp in Hi. apply list_elem_of_singleton in Hi. discriminate Hi.
  - rewrite Hp. intros Hi%list_elem_of_singleton. discriminate Hi.
Defined.
