(* ===== verification/SensorAgent.v ===== *)
(** * The sensor agent (services/sensor-agent/agent.py)

    Every sensor reports its health: what its clock, processor, memory and disk say, how
    fast the Suricata log grows, and what an optional exporter adds.  The parts that decide
    are here: the clock's acceptance, the tail of the log, the exporter's snapshot, the
    heartbeat and its schedule.

    What is read from the host is an argument: the fields of chrony's line, the numbers of
    [/proc], the log's identity and content at the time it is looked at, the exporter's
    document.  The schedule's clock is in microseconds. *)

From S2P Require Import Prelude Order PyVal PyString IsoTime BehavioralScores.
Set Default Proof Using "Type".

(** ** The clock (clock_measurement) *)

Definition unavailable : dict := [("clock_offset_ms", VNone); ("time_source", VNone); ("clock_status", VStr "unavailable")].
Definition at_field (n : nat) (fields : list string) : res string := match fields !! n with Some s => Ok s | None => Raise IndexError end.
Definition measured (fields : list string) : res dict :=
  if negb (length fields =? 14)%nat then Ok unavailable
  else
    f2 ← at_field 2 fields; stratum ← py_int (VStr f2);
    leap ← at_field 13 fields; refid ← at_field 0 fields; source ← at_field 1 fields;
    if negb (between 1 15 stratum) || negb (mem leap ["Normal"; "Insert second"; "Delete second"])
       || mem refid ["00000000"; "7F7F0101"] || negb (str_truthy source)
    then Ok unavailable
    else
      f4 ← at_field 4 fields; correction ← py_float (VStr f4);
      let offset := fmul (SFopp correction) (lit "1000") in
      if negb (is_finite offset) then Ok unavailable
      else
        f3 ← at_field 3 fields; reference ← py_float (VStr f3);
        if SFleb reference f0 then Ok unavailable
        else Ok [("clock_offset_ms", VFloat offset); ("time_source", VStr source); ("clock_status", VStr "synchronized")].
(** [None]: chrony did not answer. *)
Definition clock_measurement (fields : option (list string)) : dict :=
  match fields with
  | None => unavailable
  | Some fields => match measured fields with Ok d => d | Raise _ => unavailable end
  end.

(** ** Resources *)

Definition percent (part whole : Z) : float := fmul (lit "100") (fsub f1 (ratio part whole)).
(** [max(0, min(100, x))] *)
Definition clamped (x : float) : val :=
  if SFltb x (lit "100") then (if SFltb f0 x then VFloat x else VInt 0) else VInt 100.
(** The counters of the first line, [None] when they cannot be read; total and idle before. *)
Definition cpu_sample (ticks : option (list Z)) (previous : option (Z * Z)) : val * option (Z * Z) :=
  match ticks with
  | Some ((_ :: _ :: _ :: t3 :: t4 :: _) as ts) =>
      let total := foldr Z.add 0 ts in
      let idle := t3 + t4 in
      (match previous with
       | Some (total0, idle0) => if (total0 <? total) && (idle0 <=? idle) then clamped (percent (idle - idle0) (total - total0)) else VNone
       | None => VNone
       end, Some (total, idle))
  | _ => (VNone, None)
  end.

(** ** The log's growth (EveRates) *)

Fixpoint count_lines (s : string) : nat :=
  match s with EmptyString => 0 | String c s => if Ascii.eqb c "010" then S (count_lines s) else count_lines s end.
(** [data[:data.rfind(b"\n") + 1]], and what follows the first newline. *)
Fixpoint whole_part (s : string) : string :=
  match s with
  | EmptyString => ""
  | String c s => if Ascii.eqb c "010" then String c (whole_part s)
                  else match whole_part s with EmptyString => "" | w => String c w end
  end.
Fixpoint after_line (s : string) : string :=
  match s with EmptyString => "" | String c s => if Ascii.eqb c "010" then s else after_line s end.

Record mark := { k_identity : Z * Z; k_pos : nat; k_at : float; k_partial : bool }.
Definition _baseline (identity : Z * Z) (content : string) (now : float) : mark :=
  {| k_identity := identity; k_pos := String.length content; k_at := now;
     k_partial := str_truthy content && negb (ends_with newline content) |}.

Section rates.
Context (max_bytes : Z).
(** A log as it is opened: its device and inode, and its bytes; [None] when it cannot be. *)
Abbreviation view := (option ((Z * Z) * string)).
(** The mark kept, and the whole lines counted with the time they took. *)
Definition sample_log (now : float) (v : view) (prior : option mark) : option mark * option (string * float) :=
  match v with
  | None => (None, None)
  | Some (identity, content) =>
      match prior with
      | None => (Some (_baseline identity content now), None)
      | Some k =>
          let elapsed := fsub now (k_at k) in
          if negb (bool_decide (k_identity k = identity)) || (len content <? Z.of_nat (k_pos k))
             || SFleb elapsed f0 || (max_bytes <? len content - Z.of_nat (k_pos k))
          then (Some (_baseline identity content now), None)
          else
            let data := whole_part (drop_chars (k_pos k) content) in
            (Some {| k_identity := identity; k_pos := (k_pos k + String.length data)%nat; k_at := now;
                     k_partial := k_partial k && negb (str_truthy data) |},
             Some (if k_partial k && str_truthy data then after_line data else data, elapsed))
      end
  end.
Definition rate (n : nat) (elapsed : float) : float := fdiv (of_int (Z.of_nat n)) elapsed.
Fixpoint sample_logs (now : float) (logs : list (string * view)) (marks : gmap string mark) (complete : bool) (events size : float) :
    gmap string mark * (bool * (float * float)) :=
  match logs with
  | [] => (marks, (complete, (events, size)))
  | (path, v) :: logs =>
      let '(k, counted) := sample_log now v (marks !! path) in
      let marks := partial_alter (λ _, k) path marks in
      match counted with
      | None => sample_logs now logs marks false events size
      | Some (data, elapsed) =>
          sample_logs now logs marks complete (fadd events (rate (count_lines data) elapsed)) (fadd size (rate (String.length data) elapsed))
      end
  end.
Definition eve_sample (now : float) (logs : list (string * view)) (marks : gmap string mark) : gmap string mark * dict :=
  let '(marks, (complete, (events, size))) := sample_logs now logs marks (match logs with [] => false | _ => true end) f0 f0 in
  (marks, [("events_per_second", if complete then VFloat events else VNone); ("bytes_per_second", if complete then VFloat size else VNone)]).
End rates.

(** ** The exporter's snapshot (supplemental_metrics) *)

Definition empty_metrics : list (string * dict) :=
  [("capture", [("kernel_drops_total", VNone); ("suricata_capture_drops_total", VNone)]);
   ("eve", [("events_per_second", VNone); ("bytes_per_second", VNone)]);
   ("shipper", [("queue_depth", VNone); ("oldest_unsent_age_s", VNone)])].
Definition wanted_metrics : list (string * string) :=
  [("capture", "kernel_drops_total"); ("capture", "suricata_capture_drops_total"); ("shipper", "queue_depth"); ("shipper", "oldest_unsent_age_s")].
Definition is_counter (key : string) : bool := ends_with "_total" key || String.eqb key "queue_depth".
(** A number that is none of the Booleans, finite, not negative, and an integer for a counter. *)
Definition good_metric (key : string) (v : val) : res bool :=
  match v with
  | VInt z => _ ← float_of_Z z; Ok (0 <=? z)
  | VFloat f => Ok (is_finite f && SFleb f0 f && negb (is_counter key))
  | _ => Ok false
  end.
Definition metric_of (doc : dict) (section key : string) : res val :=
  d ← as_dict (dget_or section (VDict []) doc); Ok (dgetN key d).
Definition read_metric (doc : dict) (section key : string) : res (val * bool) :=
  v ← metric_of doc section key; g ← good_metric key v; Ok (v, g).
Definition put_metric (section key : string) (v : val) (m : list (string * dict)) : list (string * dict) :=
  (λ sd : string * dict, if String.eqb sd.1 section then (sd.1, dset key v sd.2) else sd) <$> m.
(** What was taken before an exception stays. *)
Fixpoint take_metrics (doc : dict) (todo : list (string * string)) (m : list (string * dict)) : list (string * dict) :=
  match todo with
  | [] => m
  | (section, key) :: todo =>
      match read_metric doc section key with
      | Raise _ => m
      | Ok (v, g) => take_metrics doc todo (if g then put_metric section key v m else m)
      end
  end.
Definition fresh_doc (loads : string → res val) (raw : string) (now : float) (max_age : float) : res (option dict) :=
  if 16384 <? len raw then Ok None
  else
    v ← loads raw;
    doc ← match v with VDict d => Ok d | _ => Raise TypeError end;
    t ← dindex "observed_at_unix" doc; f ← py_float t;
    let age := fsub now f in
    if negb (is_finite age) || negb (SFleb f0 age && SFleb age max_age) then Ok None else Ok (Some doc).
(** [raw] is [None] when the file cannot be read, or none is configured. *)
Definition supplemental_metrics (loads : string → res val) (raw : option string) (now : float) : list (string * dict) :=
  match raw with
  | None => empty_metrics
  | Some raw => match fresh_doc loads raw now (lit "60") with Ok (Some doc) => take_metrics doc wanted_metrics empty_metrics | _ => empty_metrics end
  end.

(** ** Heartbeats and their schedule (Agent) *)

Record identity_ := { a_uuid : string; a_tenant : string; a_site : string; a_versions : dict }.
Definition heartbeat (a : identity_) (bus : string) (observed_at : Z) (resources clock eve : dict) (extra : list (string * dict)) : dict :=
  dset "eve" (VDict eve)
    ([("schema_version", VStr "sensor-health.v1"); ("sensor_uuid", VStr (a_uuid a)); ("tenant", VStr (a_tenant a)); ("site", VStr (a_site a));
      ("versions", VDict (a_versions a)); ("observed_at", VStr (isoformat observed_at)); ("resources", VDict resources);
      ("connectivity", VDict [("bus", VStr bus)])] ++ ((λ sd : string * dict, (sd.1, VDict sd.2)) <$> extra) ++ clock).
(** The next heartbeat's time, once this one ended [now]. *)
Definition next_deadline (interval deadline now : Z) : Z :=
  let d := deadline + interval in
  if d <? now then d + ((now - d) / interval + 1) * interval else d.
(** The loop: when a heartbeat begins, the time it was due, and what the bus is said to be.
    A heartbeat takes time, and a wait lasts at least as long as it should. *)
Record loop := { l_at : Z; l_deadline : Z; l_bus : string }.
Inductive turn (interval : Z) (l : loop) : loop → Prop :=
| beats now sent at_ : l_at l <= now → now + Z.max 0 (next_deadline interval (l_deadline l) now - now) <= at_ →
    turn interval l {| l_at := at_; l_deadline := next_deadline interval (l_deadline l) now;
                       l_bus := if (sent : bool) then "connected" else "disconnected" |}.
Definition begun (t0 : Z) : loop := {| l_at := t0; l_deadline := t0; l_bus := "unknown" |}.

(** ** Facts: the log *)

Lemma count_app a b : count_lines (a +:+ b) = (count_lines a + count_lines b)%nat.
Proof. induction a as [|c a IH]; [done|]. cbn. destruct (Ascii.eqb c "010"); rewrite IH; lia. Qed.
Lemma whole_part_count s : whole_part s ≠ "" → (0 < count_lines (whole_part s))%nat.
Proof.
  induction s as [|c s IH]; [done|]. cbn. destruct (Ascii.eqb c "010") eqn:E; [cbn; rewrite E; lia|].
  destruct (whole_part s) as [|d w]; [done|]. intros _. change (0 < count_lines (String c (String d w)))%nat. cbn [count_lines].
  rewrite E. apply IH. done.
Qed.
Lemma whole_part_spec s : ∃ r, s = whole_part s +:+ r ∧ count_lines r = 0%nat.
Proof.
  induction s as [|c s (r & Hs & Hr)]; [by exists ""|]. cbn. destruct (Ascii.eqb c "010") eqn:E; [exists r; by rewrite Hs at 1|].
  destruct (whole_part s) as [|d w]; [exists (String c s); cbn; by rewrite E, Hs|]. exists r. by rewrite Hs at 1.
Qed.
Lemma after_line_spec s : (0 < count_lines s)%nat → ∃ u, s = u +:+ newline +:+ after_line s ∧ count_lines u = 0%nat.
Proof.
  induction s as [|c s IH]; cbn; [lia|]. destruct (Ascii.eqb_spec c "010") as [->|E]; intros H; [by exists ""|].
  destruct (IH H) as (u & Hs & Hu). exists (String c u). cbn. rewrite (proj2 (Ascii.eqb_neq c "010") E). by rewrite Hs at 1.
Qed.
Lemma after_line_app a b : (0 < count_lines a)%nat → after_line (a +:+ b) = after_line a +:+ b.
Proof. induction a as [|c a IH]; cbn; [lia|]. destruct (Ascii.eqb c "010"); [done|]. apply IH. Qed.
(** What is appended completes what was left, and only that is read again. *)
Lemma whole_part_app a x : whole_part (a +:+ x) = whole_part a +:+ whole_part (drop_chars (String.length (whole_part a)) (a +:+ x)).
Proof.
  induction a as [|c a IH]; [by destruct x|]. cbn. destruct (Ascii.eqb c "010") eqn:E; [cbn; by rewrite IH|].
  destruct (whole_part a) as [|d w] eqn:Ew; [cbn; rewrite E; done|]. rewrite IH. done.
Qed.

(** A log that is only appended to, looked at again and again without a gap: its content
    now, the mark kept, and all that was counted since the first look at [c0]. *)
Inductive tailed (max_bytes : Z) (identity : Z * Z) (c0 : string) (t0 : float) : string → mark → string → Prop :=
| tail_starts : tailed max_bytes identity c0 t0 c0 (_baseline identity c0 t0) ""
| tail_samples c k counted x now k' data elapsed :
    tailed max_bytes identity c0 t0 c k counted →
    sample_log max_bytes now (Some (identity, c +:+ x)) (Some k) = (Some k', Some (data, elapsed)) →
    tailed max_bytes identity c0 t0 (c +:+ x) k' (counted +:+ data).

Lemma sample_counts max_bytes now identity content k k' data elapsed :
  sample_log max_bytes now (Some (identity, content)) (Some k) = (Some k', Some (data, elapsed)) →
  let w := whole_part (drop_chars (k_pos k) content) in
  k_pos k' = (k_pos k + String.length w)%nat ∧ k_partial k' = k_partial k && negb (str_truthy w) ∧
  data = if k_partial k && str_truthy w then after_line w else w.
Proof. cbn [sample_log]. destruct (_ || _); [discriminate|]. by intros [= <- <- _]. Qed.
Lemma truthy_string s : str_truthy s = true ↔ s ≠ "".
Proof. unfold str_truthy. by rewrite negb_true_iff, String.eqb_neq. Qed.
Lemma tailed_inv max_bytes identity c0 t0 c k counted :
  tailed max_bytes identity c0 t0 c k counted →
  let partial := k_partial (_baseline identity c0 t0) in
  ∃ t, c = c0 +:+ t ∧ k_pos k = (String.length c0 + String.length (whole_part t))%nat ∧
    k_partial k = partial && negb (str_truthy (whole_part t)) ∧
    counted = if partial then after_line (whole_part t) else whole_part t.
Proof.
  cbv zeta. set (partial := k_partial (_baseline identity c0 t0)). induction 1 as [|c k counted x now k' data elapsed Ht IH Hs].
  { exists "". cbn. rewrite sapp_nil_r, Nat.add_0_r, andb_true_r. split_and!; [done..|]. by case_match. }
  destruct IH as (t & -> & Hpos & Hpart & ->). apply sample_counts in Hs as (Hp' & Hq' & Hd).
  assert (Hw : drop_chars (k_pos k) ((c0 +:+ t) +:+ x) = drop_chars (String.length (whole_part t)) (t +:+ x)).
  { rewrite Hpos, sapp_assoc. generalize (t +:+ x) as s, (String.length (whole_part t)) as n. clear. induction c0 as [|c s IH]; [done|]. apply IH. }
  rewrite Hw in *. set (w := whole_part (drop_chars _ (t +:+ x))) in *. assert (E : whole_part (t +:+ x) = whole_part t +:+ w) by apply whole_part_app.
  exists (t +:+ x). rewrite sapp_assoc, E, slength_app, Hp', Hpos, Hq', Hpart. split; [done|]. split; [lia|].
  destruct partial; cbn [andb].
  - destruct (str_truthy (whole_part t)) eqn:Et; cbn [negb andb] in *.
    + apply truthy_string, whole_part_count in Et. rewrite after_line_app by done. split; [|by rewrite Hd, Hpart].
      symmetry. apply negb_false_iff, truthy_string. intros E0. apply (f_equal count_lines) in E0. rewrite count_app in E0. cbn in E0. lia.
    + assert (E0 : whole_part t = "") by (destruct (whole_part t); [done|discriminate Et]). rewrite E0. cbn. split; [done|].
      rewrite Hd, Hpart. cbn. destruct (str_truthy w) eqn:Ew; [done|]. by destruct w.
  - split; [done|]. rewrite Hpart in Hd. cbn in Hd. by rewrite Hd.
Qed.
(** C28. Every line of the log is counted once.  While the log is only appended to and every
    look is soon enough, what was counted since the first look, put together, is the text
    that came after it, up to the last newline: nothing twice, nothing skipped, no line before
    it is whole; but when the log ended inside a line at the first look, the rest of that line
    is left out. *)
Theorem log_lines_counted_once max_bytes identity c0 t0 c k counted :
  tailed max_bytes identity c0 t0 c k counted →
  ∃ skipped rest, c = c0 +:+ skipped +:+ counted +:+ rest ∧
    if str_truthy c0 && negb (ends_with newline c0)
    then (∃ u, count_lines u = 0%nat ∧ skipped = u +:+ newline ∧ count_lines rest = 0%nat) ∨ (skipped = "" ∧ counted = "" ∧ count_lines rest = 0%nat)
    else skipped = "" ∧ count_lines rest = 0%nat.
Proof.
  intros (t & -> & _ & _ & ->)%tailed_inv. cbn [_baseline k_partial]. destruct (whole_part_spec t) as (r & Ht & Hr).
  destruct (_ && _).
  - destruct (decide (whole_part t = "")) as [E|E].
    + exists "", r. rewrite E in *. cbn in Ht |- *. split; [by rewrite Ht at 1|by right].
    + apply whole_part_count in E. destruct (after_line_spec _ E) as (u & Hw & Hu). exists (u +:+ newline), r. split; [|left; by exists u].
      f_equal. rewrite Ht at 1. rewrite Hw at 1. by rewrite !sapp_assoc.
  - exists "", r. split; [by rewrite Ht at 1|done].
Qed.

(** ** Facts: the exporter and the clock *)

Definition well_formed_metrics (m : list (string * dict)) : Prop :=
  (λ sd : string * dict, (sd.1, sd.2.*1)) <$> m = (λ sd : string * dict, (sd.1, sd.2.*1)) <$> empty_metrics ∧
  ∀ section d key v, (section, d) ∈ m → (key, v) ∈ d → v = VNone ∨ good_metric key v = Ok true.
Lemma dset_member k v d k' v' : (k', v') ∈ dset k v d → (k', v') = (k, v) ∨ (k', v') ∈ d.
Proof.
  induction d as [|[k0 v0] d IH]; cbn; [intros ->%list_elem_of_singleton; by left|].
  destruct (String.eqb_spec k k0) as [->|]; intros [->|H]%elem_of_cons; rewrite ?elem_of_cons; [by left|by right; right|by right; left|].
  destruct (IH H); [by left|by right; right].
Qed.
Lemma put_metric_shape section key v m :
  well_formed_metrics m → (section, key) ∈ wanted_metrics → good_metric key v = Ok true → well_formed_metrics (put_metric section key v m).
Proof.
  intros [Hs Hv] Hw Hg. split.
  - rewrite <- Hs. unfold put_metric. rewrite <- list_fmap_compose. apply list_fmap_ext. intros i [s d] Hi. cbn.
    destruct (String.eqb_spec s section) as [->|]; [|done]. cbn. f_equal.
    assert (Hin : (section, d.*1) ∈ (λ sd : string * dict, (sd.1, sd.2.*1)) <$> empty_metrics).
    { rewrite <- Hs. apply list_elem_of_fmap. exists (section, d). split; [done|by eapply list_elem_of_lookup_2]. }
    assert (Hk : key ∈ d.*1).
    { cbn in Hin. unfold wanted_metrics in Hw. rewrite !elem_of_cons, elem_of_nil in Hin. rewrite !elem_of_cons, elem_of_nil in Hw.
      destruct_or! Hin; try done; injection Hin as E1 E2; destruct_or! Hw; try done; injection Hw as E3 ->; subst; try discriminate; rewrite E2; set_solver. }
    clear -Hk. induction d as [|[k0 v0] d IH]; [by apply elem_of_nil in Hk|]. cbn. destruct (String.eqb_spec key k0) as [->|]; [done|].
    cbn. f_equal. apply IH. cbn in Hk. by apply elem_of_cons in Hk as [?|?].
  - intros s d k' v' Hin Hd. unfold put_metric in Hin. apply list_elem_of_fmap in Hin as ([s0 d0] & E & Hin). cbn in E.
    destruct (String.eqb s0 section); injection E as -> ->; [|by eapply Hv]. apply dset_member in Hd as [[= -> ->]|Hd]; [by right|by eapply Hv].
Qed.
Lemma take_metrics_shape doc todo m :
  todo ⊆ wanted_metrics → well_formed_metrics m → well_formed_metrics (take_metrics doc todo m).
Proof.
  revert m. induction todo as [|[section key] todo IH]; intros m Hsub Hm; [done|]. cbn [take_metrics].
  destruct (read_metric doc section key) as [[v g]|e] eqn:E; [|done]. unfold read_metric in E.
  apply bind_ok_inv in E as (v' & _ & E). apply bind_ok_inv in E as (g' & Hg & E). apply Ok_inj in E. injection E as -> ->.
  apply IH; [set_solver|]. destruct g; [|done]. apply put_metric_shape; [done|set_solver|done].
Qed.
Lemma empty_metrics_shape : well_formed_metrics empty_metrics.
Proof.
  split; [done|]. intros section d key v H Hd. left. unfold empty_metrics in H. rewrite !elem_of_cons, elem_of_nil in H.
  destruct_or! H; try done; injection H as -> ->; rewrite !elem_of_cons, elem_of_nil in Hd; destruct_or! Hd; try done; by injection Hd.
Qed.
(** Whatever the exporter writes, the heartbeat keeps its form, and what it takes over is
    numbers that pass the test for their key. *)
Theorem exporter_confined loads raw now : well_formed_metrics (supplemental_metrics loads raw now).
Proof.
  unfold supplemental_metrics. destruct raw as [raw|]; [|apply empty_metrics_shape]. destruct (fresh_doc _ _ _ _) as [[doc|]|e]; try apply empty_metrics_shape.
  apply take_metrics_shape; [done|apply empty_metrics_shape].
Qed.
(** A clock is called synchronized only with a finite offset from a named source. *)
Lemma clock_synchronized fields :
  dgetN "clock_status" (clock_measurement fields) = VStr "synchronized" →
  ∃ fs offset source, fields = Some fs ∧ clock_measurement fields = [("clock_offset_ms", VFloat offset); ("time_source", VStr source); ("clock_status", VStr "synchronized")] ∧
    is_finite offset = true ∧ source ≠ "" ∧ fs !! 1%nat = Some source.
Proof.
  unfold clock_measurement. destruct fields as [fs|]; [|discriminate]. destruct (measured fs) as [d|e] eqn:E; [|discriminate]. intros Hd. exists fs.
  unfold measured in E. destruct (negb _); [injection E as <-; discriminate Hd|].
  do 5 (apply bind_ok_inv in E as (? & ? & E)). destruct (_ || _) eqn:Hc; [injection E as <-; discriminate Hd|].
  apply bind_ok_inv in E as (? & ? & E). apply bind_ok_inv in E as (corr & ? & E). destruct (is_finite _) eqn:Hf; cbn [negb] in E; [|injection E as <-; discriminate Hd].
  do 2 (apply bind_ok_inv in E as (? & ? & E)). destruct (SFleb _ _); [injection E as <-; discriminate Hd|]. apply Ok_inj in E. subst d.
  apply orb_false_iff in Hc as [_ Hs]. apply negb_false_iff, truthy_string in Hs. do 2 eexists. split; [done|]. split; [done|].
  split; [done|]. split; [done|]. match goal with H : at_field 1 fs = Ok ?x |- _ => unfold at_field in H; destruct (fs !! 1%nat); by inversion H end.
Qed.

(** ** Facts: the schedule *)

Lemma next_deadline_spec interval deadline now :
  0 < interval → deadline <= now →
  let d := next_deadline interval deadline now in
  deadline + interval <= d ∧ now <= d <= now + interval ∧ (interval | d - deadline).
Proof.
  intros Hi Hn. unfold next_deadline. destruct (Z.ltb_spec (deadline + interval) now) as [Hlt|Hge]; cbn.
  - pose proof (Z.div_mod (now - (deadline + interval)) interval ltac:(lia)) as Hd.
    pose proof (Z.mod_pos_bound (now - (deadline + interval)) interval Hi) as Hm. pose proof (Z.div_pos (now - (deadline + interval)) interval ltac:(lia) Hi).
    split; [nia|]. split; [nia|]. exists ((now - (deadline + interval)) / interval + 2). lia.
  - split; [lia|]. split; [lia|]. exists 1. lia.
Qed.
(** C0. Heartbeats never come in bursts.  However long a heartbeat or a wait takes and
    whether the bus answers: after [n] turns at least [n] intervals have gone by since the
    start; a turn begins no earlier than it was due and every due time is a whole number of
    intervals after the start; and at the end of a heartbeat the next one is due within one
    interval. *)
Theorem heartbeats_never_burst interval t0 n l :
  0 < interval → nsteps (turn interval) n (begun t0) l →
  t0 + Z.of_nat n * interval <= l_deadline l <= l_at l ∧ (interval | l_deadline l - t0) ∧
  ∀ now, l_at l <= now → now <= next_deadline interval (l_deadline l) now <= now + interval.
Proof.
  intros Hi H. assert (Hinv : ∀ l0 k, t0 + Z.of_nat k * interval <= l_deadline l0 <= l_at l0 ∧ (interval | l_deadline l0 - t0) → nsteps (turn interval) n l0 l →
    t0 + Z.of_nat (k + n) * interval <= l_deadline l <= l_at l ∧ (interval | l_deadline l - t0)).
  { clear H. induction n as [|n IH]; intros l0 k H0 H.
    - inversion H; subst. by rewrite Nat.add_0_r.
    - inversion H as [|? ? l1 ? Hs Hr]; subst. replace (k + S n)%nat with (S k + n)%nat by lia. apply (IH l1); [|done].
      destruct Hs as [now sent at_ Hnow Hat]. cbn. destruct H0 as [Hle Hdiv].
      destruct (next_deadline_spec interval (l_deadline l0) now Hi ltac:(lia)) as (H1 & H2 & H3). split; [lia|].
      replace (next_deadline interval (l_deadline l0) now - t0) with (next_deadline interval (l_deadline l0) now - l_deadline l0 + (l_deadline l0 - t0)) by lia.
      by apply Z.divide_add_r. }
  destruct (Hinv (begun t0) 0%nat) as [H1 H2]; [cbn; split; [lia|exists 0; lia]|done|].
  split; [done|]. split; [done|]. intros now Hn. destruct (next_deadline_spec interval (l_deadline l) now Hi ltac:(lia)) as (_ & H3 & _). lia.
Qed.

(** ** Concrete runs *)

(** A log that ended inside a line; two whole lines come after the rest of it. *)
Definition looked (now : float) (content : string) (k : mark) : mark * string :=
  match sample_log 4194304 now (Some ((1, 2), content)) (Some k) with (Some k, Some (d, _)) => (k, d) | _ => (k, "") end.
Definition log_start : string := "{a}" +:+ newline +:+ "{b".
Definition log_more : string := "}" +:+ newline +:+ "{c}" +:+ newline +:+ "{d".
Definition log_end : string := "}" +:+ newline.
Definition mark0 : mark := _baseline (1, 2) log_start (lit "0").
Definition mark1 : mark := (looked (lit "30") (log_start +:+ log_more) mark0).1.
Lemma log_lines_counted_once_witness :
  (looked (lit "30") (log_start +:+ log_more) mark0).2 = "{c}" +:+ newline ∧
  (looked (lit "60") ((log_start +:+ log_more) +:+ log_end) mark1).2 = "{d}" +:+ newline ∧
  ∃ skipped rest, (log_start +:+ log_more) +:+ log_end = log_start +:+ skipped +:+ (("" +:+ ("{c}" +:+ newline)) +:+ ("{d}" +:+ newline)) +:+ rest ∧
    if str_truthy log_start && negb (ends_with newline log_start)
    then (∃ u, count_lines u = 0%nat ∧ skipped = u +:+ newline ∧ count_lines rest = 0%nat) ∨
      (skipped = "" ∧ ("" +:+ ("{c}" +:+ newline)) +:+ ("{d}" +:+ newline) = "" ∧ count_lines rest = 0%nat)
    else skipped = "" ∧ count_lines rest = 0%nat.
Proof.
  split; [vm_compute; reflexivity|]. split; [vm_compute; reflexivity|].
  apply (log_lines_counted_once 4194304 (1, 2) log_start (lit "0") _ (looked (lit "60") ((log_start +:+ log_more) +:+ log_end) mark1).1).
  eapply (tail_samples _ _ _ _ _ mark1 _ _ (lit "60")); [|vm_compute; reflexivity].
  eapply (tail_samples _ _ _ _ _ mark0 _ _ (lit "30")); [apply tail_starts|vm_compute; reflexivity].
Defined.
(** The second heartbeat takes more than two intervals; the ticks it missed are skipped. *)
Lemma heartbeats_never_burst_witness :
  next_deadline 30 30 95 = 120 ∧ 0 + Z.of_nat 2 * 30 <= 120 <= 121.
Proof.
  split; [reflexivity|]. apply (heartbeats_never_burst 30 0 2 {| l_at := 121; l_deadline := 120; l_bus := "disconnected" |}); [lia|].
  eapply nsteps_l; [apply (beats 30 (begun 0) 2 true 30); vm_compute; discriminate|].
  eapply nsteps_l; [|apply nsteps_O]. apply (beats 30 {| l_at := 30; l_deadline := 30; l_bus := "connected" |} 95 false 121); vm_compute; discriminate.
Defined.
