(* ===== verification/NetboxConnector.v ===== *)
(** * The NetBox connector (services/connector-service/netbox.py)

    A CMDB's devices become asset facts, one way: the pages of its device list are fetched
    with the connector's token, owners and criticalities are mapped, and each fact is sent
    and acknowledged before the next.

    [urlsplit] gives the scheme and the network location of what is asked for, or raises,
    and [hostname] the host of a network location; [page] is the answer to the [n]-th
    request: the redirects that the requests library follows by itself, and what is found
    at their end.  [keeps] tells whether the library sends the Authorization header on when
    it follows a redirect; its documentation says that the header is removed on a redirect
    to another host ([stays_on_host]).  [repr] is the text of floats and containers.  A list of devices whose pages never end is never finished, so reading them takes fuel. *)

From S2P Require Import Prelude PyVal PyString OrderedMap.
Set Default Proof Using "Type".

Definition SOURCE : string := "netbox-cmdb".

Section mapping.
Context (repr : val → string).

Fixpoint first_address (device : dict) (fields : list string) : option val :=
  match fields with
  | [] => None
  | field :: fields =>
      match dgetN field device with
      | VDict ip => if truthy (dgetN "address" ip) then Some (dgetN "address" ip) else first_address device fields
      | _ => first_address device fields
      end
  end.
Definition _entity_ref (device : dict) : option string :=
  a ← first_address device ["primary_ip"; "primary_ip4"; "primary_ip6"]; Some (hd "" (split_char "/" (py_str repr a))).
Definition custom_field (key : string) (device : dict) : res (option string) :=
  cf ← as_dict (py_or (dgetN "custom_fields" device) (VDict []));
  Ok (if truthy (dgetN key cf) then Some (py_str repr (dgetN key cf)) else None).
Definition _owner (device : dict) : res (option string) :=
  match dgetN "tenant" device with
  | VDict tenant => if truthy (dgetN "name" tenant) then Ok (Some (py_str repr (dgetN "name" tenant))) else custom_field "owner" device
  | _ => custom_field "owner" device
  end.
Definition _criticality (device : dict) : res (option string) := custom_field "criticality" device.
Definition fact (tenant ref predicate value synced_at : string) : dict :=
  [("tenant_id", VStr tenant); ("entity_ref", VStr ref); ("predicate", VStr predicate); ("value", VStr value); ("source", VStr SOURCE);
   ("authority", VBool true); ("synced_at", VStr synced_at)].
(** A missing value and an empty text give no fact. *)
Definition stated (v : option string) : option string := s ← v; if str_truthy s then Some s else None.
Definition device_facts (tenant synced_at : string) (device : val) : res (list dict) :=
  d ← as_dict device;
  match stated (_entity_ref d) with
  | None => Ok []
  | Some ref =>
      owner ← _owner d;
      criticality ← _criticality d;
      Ok (omap (λ pv : string * option string, value ← stated pv.2; Some (fact tenant ref pv.1 value synced_at))
            [("owner", owner); ("criticality", criticality)])
  end.
Definition netbox_to_facts (devices : list val) (tenant synced_at : string) : res (list dict) :=
  l ← mapM (device_facts tenant synced_at) devices; Ok (concat l).
End mapping.

(** An answer: the redirects followed, and the body at their end or the exception. *)
Record answer := { a_hops : list val; a_body : res val }.
(** A request: where to, whether the token goes with it, whether it follows a redirect. *)
Record request := Request { q_url : val; q_token : bool; q_redirect : bool }.
(** What is asked, what is sent and acknowledged, and whether a producer was made and
    closed. *)
Record nworld := { n_asked : list request; n_sent : list dict; n_made : bool; n_closed : bool }.
Fixpoint follow (keeps : val → val → bool) (token : bool) (u : val) (hops : list val) : list request :=
  match hops with
  | [] => []
  | v :: hops => let token := token && keeps u v in Request v token true :: follow keeps token v hops
  end.

Section sync.
Context (repr : val → string) (urlsplit : val → res (string * string)) (hostname : string → string).
Context (page : nat → val → answer) (keeps : val → val → bool).

Definition asking (u : val) (hops : list val) (w : nworld) : nworld :=
  {| n_asked := n_asked w ++ Request u true false :: follow keeps true u hops; n_sent := n_sent w; n_made := n_made w; n_closed := n_closed w |}.
Definition sending (f : dict) (w : nworld) : nworld :=
  {| n_asked := n_asked w; n_sent := n_sent w ++ [f]; n_made := n_made w; n_closed := n_closed w |}.
Definition making (w : nworld) : nworld := {| n_asked := n_asked w; n_sent := n_sent w; n_made := true; n_closed := n_closed w |}.
Definition closing (w : nworld) : nworld := {| n_asked := n_asked w; n_sent := n_sent w; n_made := n_made w; n_closed := true |}.

(** [url.rstrip("/")] *)
Definition base_of (url : string) : string := rev_string (lstrip (Ascii.eqb "/") (rev_string url)).
Definition first_page (url : string) : val := VStr (base_of url +:+ "/api/dcim/devices/").
(** [None]: out of fuel. *)
Fixpoint fetch_pages (fuel : nat) (origin : string * string) (n : nat) (next : val) (devices : list val) : M nworld (option (list val)) :=
  match fuel with
  | O => ret None
  | S fuel =>
      if negb (truthy next) then ret (Some devices)
      else
        let* cur := lift (urlsplit next) in
        if negb (bool_decide (cur = origin)) then ret (Some devices)
        else
          let answer := page n next in
          modify (asking next (a_hops answer)) ;*
          let* body := lift (a_body answer) in
          let* b := lift (as_dict body) in
          let* results := lift (as_list (dget_or "results" (VList []) b)) in
          fetch_pages fuel origin (S n) (dgetN "next" b) (devices ++ results)
  end.
Definition _fetch_devices (fuel : nat) (url : string) : M nworld (option (list val)) :=
  let* origin := lift (urlsplit (VStr (base_of url))) in
  fetch_pages fuel origin 0 (first_page url) [].
(** [acked n]: the [n]-th send is acknowledged in time; when it is not, it may have arrived. *)
Fixpoint send_all (acked arrives : nat → bool) (n : nat) (facts : list dict) : M nworld unit :=
  match facts with
  | [] => ret tt
  | f :: facts =>
      if acked n then modify (sending f) ;* send_all acked arrives (S n) facts
      else (if arrives n then modify (sending f) else ret tt) ;* raise OtherError
  end.
Definition sync (fuel : nat) (url tenant now : string) (acked arrives : nat → bool) : M nworld (option unit) :=
  let* devices := _fetch_devices fuel url in
  match devices with
  | None => ret None
  | Some devices =>
      let* facts := lift (netbox_to_facts repr devices tenant now) in
      send_all acked arrives 0 facts ;* ret (Some tt)
  end.
(** [finally] closes the producer. *)
Definition run (fuel : nat) (url token : string) (tenant now : string) (acked arrives : nat → bool) : M nworld (option unit) := λ w,
  if negb (str_truthy url) || negb (str_truthy token) then (w, Ok (Some tt))
  else match sync fuel url tenant now acked arrives (making w) with (w, r) => (closing w, r) end.

(** ** Facts *)

(** The pages that follow one another from the same origin, and the devices on them. *)
Inductive paged (origin : string * string) : nat → val → list val → Prop :=
| paged_end n next : truthy next = false ∨ (∃ o, urlsplit next = Ok o ∧ o ≠ origin) → paged origin n next []
| paged_more n next b results rest :
    truthy next = true → urlsplit next = Ok origin → a_body (page n next) = Ok (VDict b) → as_list (dget_or "results" (VList []) b) = Ok results →
    paged origin (S n) (dgetN "next" b) rest → paged origin n next (results ++ rest).

(** A header that is sent on stays on the host. *)
Context (stays_on_host : ∀ u v o, keeps u v = true → urlsplit u = Ok o → ∃ o', urlsplit v = Ok o' ∧ hostname o'.2 = hostname o.2).
(** A request of the connector goes to the origin; the token of one that follows a redirect
    stays on its host. *)
Definition confined (origin : string * string) (q : request) : Prop :=
  (q_redirect q = false → urlsplit (q_url q) = Ok origin) ∧
  (q_token q = true → ∃ o, urlsplit (q_url q) = Ok o ∧ hostname o.2 = hostname origin.2).
Lemma follow_confined origin token u hops :
  (token = true → ∃ o, urlsplit u = Ok o ∧ hostname o.2 = hostname origin.2) →
  Forall (confined origin) (follow keeps token u hops).
Proof using stays_on_host.
  revert token u. induction hops as [|v hops IH]; intros token u H; constructor.
  - split; [discriminate|]. cbn. intros [Ht Hk]%andb_true_iff. destruct (H Ht) as (o & Ho & Hh).
    destruct (stays_on_host u v o Hk Ho) as (o' & Ho' & Hh'). exists o'. split; [done|congruence].
  - apply IH. intros [Ht Hk]%andb_true_iff. destruct (H Ht) as (o & Ho & Hh).
    destruct (stays_on_host u v o Hk Ho) as (o' & Ho' & Hh'). exists o'. split; [done|congruence].
Qed.
(** Only such requests are made, and nothing is sent while pages are read. *)
Definition asks_only (origin : string * string) (w w' : nworld) : Prop :=
  n_sent w' = n_sent w ∧ n_made w' = n_made w ∧ n_closed w' = n_closed w ∧
  ∃ l, n_asked w' = n_asked w ++ l ∧ Forall (confined origin) l.
#[local] Instance asks_only_preorder origin : PreOrder (asks_only origin).
Proof.
  split.
  - intros w. split_and!; [done..|]. exists []. rewrite app_nil_r. by split.
  - intros w1 w2 w3 (E1 & E2 & E3 & l & E4 & Hl) (F1 & F2 & F3 & m & F4 & Hm). split_and!; [congruence..|]. exists (l ++ m).
    split; [by rewrite F4, E4, app_assoc|]. by apply Forall_app.
Qed.
Lemma fetch_pages_asks fuel origin n next devices : frames (asks_only origin) (fetch_pages fuel origin n next devices).
Proof using stays_on_host.
  revert n next devices. induction fuel as [|fuel IH]; intros n next devices w; cbn [fetch_pages]; [done|].
  destruct (truthy next); cbn [negb]; [|done]. unfold bind at 1, lift at 1. destruct (urlsplit next) as [cur|e] eqn:Eu; [|done].
  case_bool_decide as Ho; cbn [negb]; [|done]. subst cur. unfold bind at 1, modify at 1.
  assert (Hs : asks_only origin w (asking next (a_hops (page n next)) w)).
  { split_and!; [done..|]. eexists. split; [reflexivity|]. constructor; [|apply follow_confined; eauto].
    split; [done|]. intros _. eauto. }
  etrans; [exact Hs|]. generalize (asking next (a_hops (page n next)) w). clear w Hs. intros w.
  unfold bind at 1, lift at 1. destruct (a_body (page n next)) as [body|e]; [|done]. unfold bind at 1, lift at 1. destruct (as_dict body) as [b|e]; [|done].
  unfold bind at 1, lift at 1. destruct (as_list _) as [results|e]; [|done]. apply IH.
Qed.
Lemma fetch_pages_ok fuel origin n next devices w w' all :
  fetch_pages fuel origin n next devices w = (w', Ok (Some all)) → ∃ rest, paged origin n next rest ∧ all = devices ++ rest.
Proof.
  revert n next devices w. induction fuel as [|fuel IH]; intros n next devices w; cbn [fetch_pages]; [discriminate|].
  destruct (truthy next) eqn:Et; cbn [negb]; [|intros [= _ <-]; exists []; rewrite app_nil_r; split; [by apply paged_end; left|done]].
  intros H. apply bind_inv in H as (cur & w1 & Hu & H). apply lift_inv in Hu as [-> Hu]. case_bool_decide as Ho; cbn [negb] in H.
  2:{ injection H as _ <-. exists []. rewrite app_nil_r. split; [|done]. apply paged_end. right. by exists cur. }
  subst cur. apply bind_inv in H as (u & w2 & _ & H). apply bind_inv in H as (body & w3 & Hb & H). apply lift_inv in Hb as [_ Hb].
  apply bind_inv in H as (b & w4 & Hd & H). apply lift_inv in Hd as [_ Hd]. apply bind_inv in H as (results & w5 & Hr & H). apply lift_inv in Hr as [_ Hr].
  destruct body; try discriminate Hd. injection Hd as ->. destruct (IH _ _ _ _ H) as (rest & Hp & ->). exists (results ++ rest).
  split; [by eapply paged_more|by rewrite app_assoc].
Qed.
(** When the pages end, they are all read, given the fuel to ask for them. *)
Lemma fetch_pages_total origin n next rest :
  paged origin n next rest → ∃ k, ∀ fuel devices w, (k <= fuel)%nat → ∃ w', fetch_pages fuel origin n next devices w = (w', Ok (Some (devices ++ rest))).
Proof.
  induction 1 as [n next H|n next b results rest Ht Hu Hp Hr _ (k & IH)].
  - exists 1%nat. intros [|fuel] devices w Hk; [lia|]. exists w. cbn [fetch_pages]. rewrite app_nil_r. destruct (truthy next); cbn [negb]; [|done].
    destruct H as [H|(o & Ho & Hne)]; [discriminate H|]. unfold bind, lift. rewrite Ho. by rewrite bool_decide_eq_false_2.
  - exists (S k). intros [|fuel] devices w Hk; [lia|]. destruct (IH fuel (devices ++ results) (asking next (a_hops (page n next)) w) ltac:(lia)) as (w' & E). exists w'.
    cbn [fetch_pages]. rewrite Ht. cbn [negb]. unfold bind at 1, lift at 1. rewrite Hu. rewrite bool_decide_eq_true_2 by done. cbn [negb].
    unfold bind at 1, modify at 1. unfold bind at 1, lift at 1. rewrite Hp. unfold bind at 1, lift at 1. cbn [as_dict].
    unfold bind at 1, lift at 1. rewrite Hr, E. by rewrite app_assoc.
Qed.
(** Sending: a prefix of the facts, and all of them when every send is acknowledged. *)
Lemma send_all_spec acked arrives n facts w w' o :
  send_all acked arrives n facts w = (w', o) →
  n_asked w' = n_asked w ∧ n_made w' = n_made w ∧ ∃ l, n_sent w' = n_sent w ++ l ∧ l `prefix_of` facts ∧ (o = Ok tt → l = facts).
Proof.
  revert n w. induction facts as [|f facts IH]; intros n w; cbn [send_all].
  { intros [= <- <-]. split_and!; [done..|]. exists []. by rewrite app_nil_r. }
  destruct (acked n).
  - unfold bind at 1, modify at 1. intros H. destruct (IH _ _ H) as (Ha & Hm & l & Hs & Hp & Ho). split; [done|]. split; [done|].
    exists (f :: l). rewrite Hs. cbn. rewrite <- app_assoc. split; [done|]. split; [by apply prefix_cons|]. intros E. by rewrite Ho.
  - destruct (arrives n); intros [= <- <-]; cbn; (split; [done|split; [done|]]); [exists [f]|exists []]; rewrite ?app_nil_r.
    + split; [done|]. split; [apply prefix_cons, prefix_nil|discriminate].
    + split; [done|]. split; [apply prefix_nil|discriminate].
Qed.
(** What a fact says, and of what it is made. *)
Definition grounded (tenant now : string) (devices : list val) (f : dict) : Prop :=
  ∃ d ref predicate value, VDict d ∈ devices ∧ _entity_ref repr d = Some ref ∧ f = fact tenant ref predicate value now ∧ value ≠ "" ∧
    (predicate = "owner" ∧ _owner repr d = Ok (Some value) ∨ predicate = "criticality" ∧ _criticality repr d = Ok (Some value)).
Lemma stated_some v s : stated v = Some s → v = Some s ∧ s ≠ "".
Proof.
  unfold stated. destruct v as [t|]; [|discriminate]. cbn. destruct (str_truthy t) eqn:E; [|discriminate]. intros [= ->].
  unfold str_truthy in E. by apply negb_true_iff, String.eqb_neq in E.
Qed.
Lemma facts_grounded devices tenant now facts :
  netbox_to_facts repr devices tenant now = Ok facts → ∀ f, f ∈ facts → grounded tenant now devices f.
Proof.
  unfold netbox_to_facts. intros H. apply bind_ok_inv in H as (l & Hl & H). apply Ok_inj in H. subst facts.
  intros f Hf. apply list_elem_of_In, in_concat in Hf as (fs & Hfs%list_elem_of_In & Hf%list_elem_of_In). revert l Hl Hfs. induction devices as [|device devices IH]; intros l Hl Hfs; cbn in Hl.
  { injection Hl as <-. by apply elem_of_nil in Hfs. }
  apply bind_ok_inv in Hl as (fs0 & H0 & Hl). apply bind_ok_inv in Hl as (l' & Hl' & Hl). apply Ok_inj in Hl. subst l.
  apply elem_of_cons in Hfs as [->|Hfs]; [|destruct (IH _ Hl' Hfs) as (d & ref & predicate & value & Hin & Hrest); exists d, ref, predicate, value; split; [by right|done]].
  unfold device_facts in H0. apply bind_ok_inv in H0 as (d & Hd & H0). destruct device; try discriminate Hd. injection Hd as ->.
  destruct (stated (_entity_ref repr d)) as [ref|] eqn:Er; [|injection H0 as <-; by apply elem_of_nil in Hf]. apply stated_some in Er as [Er _].
  apply bind_ok_inv in H0 as (owner & Ho & H0). apply bind_ok_inv in H0 as (crit & Hc & H0). apply Ok_inj in H0. subst fs0.
  apply list_elem_of_omap in Hf as ([predicate v] & Hin & Hv). cbn [fst snd] in Hv. destruct (stated v) as [value|] eqn:Es; cbn in Hv; [|discriminate Hv].
  injection Hv as <-. apply stated_some in Es as [-> Hne]. exists d, ref, predicate, value. split; [by left|]. split; [done|]. split; [done|]. split; [done|].
  rewrite !elem_of_cons, elem_of_nil in Hin. destruct Hin as [[= -> ->]|[[= -> ->]|[]]]; auto.
Qed.
End sync.

(** ** A concrete run: two pages, and a link to another host that is not followed *)

Definition demo_split (v : val) : res (string * string) :=
  match v with
  | VStr s => if starts_with "https://cmdb/" s || String.eqb "https://cmdb" s then Ok ("https", "cmdb") else Ok ("https", "evil")
  | _ => Raise AttributeError
  end.
Definition demo_device (ip owner : string) : val :=
  VDict [("primary_ip", VDict [("address", VStr ip)]); ("tenant", VDict [("name", VStr owner)]); ("custom_fields", VDict [("criticality", VStr "high")])].
(** The second page is behind a redirect on the host, from there to another host. *)
Definition demo_pages (n : nat) (u : val) : answer :=
  match n with
  | O => {| a_hops := []; a_body := Ok (VDict [("results", VList [demo_device "10.0.0.5/24" "ops"]);
                                               ("next", VStr "https://cmdb/api/dcim/devices/?offset=1")]) |}
  | _ => {| a_hops := [VStr "https://cmdb/moved"; VStr "https://evil/moved"];
            a_body := Ok (VDict [("results", VList [VDict [("name", VStr "no address")]]); ("next", VStr "https://evil/collect")]) |}
  end.
Definition demo_keeps (u v : val) : bool :=
  match demo_split u, demo_split v with Ok o, Ok o' => bool_decide (o = o') | _, _ => false end.
Definition demo_host (netloc : string) : string := netloc.
Lemma demo_stays u v o : demo_keeps u v = true → demo_split u = Ok o → ∃ o', demo_split v = Ok o' ∧ demo_host o'.2 = demo_host o.2.
Proof.
  unfold demo_keeps. intros H E. rewrite E in H. destruct (demo_split v) as [o'|] eqn:E'; [|discriminate H].
  apply bool_decide_eq_true in H as ->. eauto.
Qed.
Definition idle_sync : nworld := {| n_asked := []; n_sent := []; n_made := false; n_closed := false |}.
Definition demo_sync : nworld * res (option unit) :=
  run (λ _, "") demo_split demo_pages demo_keeps 5 "https://cmdb/" "secret" "acme" "2026-01-01T00:00:00Z" (λ _, true) (λ _, true) idle_sync.
