(* ===== verification/Reconstruction.v ===== *)
(** * Reconstruction by source (services/reconstruction/reconstruct.py and app.py)

    For an asset, the flows, sessions and findings that concern it become one timeline and
    one graph.  A row holds the columns its query selects, typed as the tables declare them;
    times are instants in microseconds.  The queries are functions of the tables.

    [sql_now] is the database's clock.  The sessions come from a topic; what its consumer
    writes is here too. *)

From S2P Require Import Prelude Order PyVal PyString PyTime IsoTime.
Set Default Proof Using "Type".

(** ** Parameters (safe_param) *)

Definition safe_char (c : ascii) : bool := is_alnum c || one_of "_.:%-" c.
Definition fits (s : string) : bool := str_truthy s && (len s <=? 128) && string_forallb safe_char s.
(** [_SAFE.match]: [$] also matches before a newline at the end. *)
Definition _SAFE (s : string) : bool := fits s || (ends_with newline s && fits (take_chars (String.length s - 1) s)).
Definition safe_param (v : string) : res string := if negb (_SAFE v) then Raise ValueError else Ok v.

(** ** Rows, the timeline and the graph (reconstruct.py) *)

Record flow_row := { w_time : Z; w_src : string; w_dst : string; w_port : Z; w_app : string; w_ndpi : string }.
Record session_row := { s_type : string; s_src : string; s_dst : string; s_app : string; s_started : Z; s_flows : Z }.
Record finding_row := { f_id : string; f_category : string; f_detector : string; f_severity : Z; f_state : string; f_first : Z }.
(** [str] of a datetime without a zone. *)
Definition str_time (t : Z) : string := string_map (λ c, if Ascii.eqb c "T" then " "%char else c) (hd "" (split_char "Z" (_iso t))).

Record entry := { e_t : string; e_kind : string; e_detail : string }.
Definition str_or (a b : string) : string := if str_truthy a then a else b.
Definition flow_entry (f : flow_row) : entry :=
  {| e_t := str_time (w_time f); e_kind := "flow";
     e_detail := w_src f +:+ " -> " +:+ w_dst f +:+ ":" +:+ pretty (w_port f) +:+ " " +:+ str_or (w_app f) (w_ndpi f) |}.
Definition session_entry (s : session_row) : entry :=
  {| e_t := str_time (s_started s); e_kind := "session";
     e_detail := s_type s +:+ " " +:+ s_src s +:+ "<->" +:+ s_dst s +:+ " " +:+ s_app s +:+ " (" +:+ pretty (s_flows s) +:+ " flows)" |}.
Definition finding_entry (f : finding_row) : entry :=
  {| e_t := str_time (f_first f); e_kind := "finding";
     e_detail := f_category f +:+ "/" +:+ f_detector f +:+ " sev=" +:+ pretty (f_severity f) +:+ " state=" +:+ f_state f |}.
Definition build_timeline (flows : list flow_row) (sessions : list session_row) (findings : list finding_row) : list entry :=
  isort e_t ((flow_entry <$> flows) ++ (session_entry <$> sessions) ++ (finding_entry <$> findings)).

Inductive node := source_node | dest_node | finding_node (category : string).
#[export] Instance node_eq : EqDecision node.
Proof. solve_decision. Defined.
(** [g_label] is [None] where the edge has none. *)
Record edge := { g_from : string; g_to : string; g_rel : string; g_label : option string }.
#[export] Instance edge_eq : EqDecision edge.
Proof. solve_decision. Defined.
Abbreviation nodes := (list (string * node)).
Fixpoint set_node (k : string) (n : node) (ns : nodes) : nodes :=
  match ns with
  | [] => [(k, n)]
  | (k', n') :: ns => if String.eqb k k' then (k', n) :: ns else (k', n') :: set_node k n ns
  end.
Definition add_node (k : string) (n : node) (ns : nodes) : nodes := if mem k ns.*1 then ns else set_node k n ns.
Definition key_of (e : edge) : string * string * string * string := (g_from e, g_to e, g_rel e, default "" (g_label e)).
Fixpoint unique_edges (seen : list (string * string * string * string)) (es : list edge) : list edge :=
  match es with
  | [] => []
  | e :: es => if mem (key_of e) seen then unique_edges seen es else e :: unique_edges (key_of e :: seen) es
  end.
Definition add_flow (asset : string) (ge : nodes * list edge) (f : flow_row) : nodes * list edge :=
  if str_truthy (w_dst f) && negb (String.eqb (w_dst f) asset)
  then (add_node (w_dst f) dest_node ge.1,
        ge.2 ++ [{| g_from := asset; g_to := w_dst f; g_rel := "flow"; g_label := Some (str_or (w_app f) (w_ndpi f)) |}])
  else ge.
Definition add_finding (asset : string) (ge : nodes * list edge) (f : finding_row) : nodes * list edge :=
  (set_node (f_id f) (finding_node (f_category f)) ge.1, ge.2 ++ [{| g_from := asset; g_to := f_id f; g_rel := "finding"; g_label := None |}]).
Definition build_graph (asset : string) (flows : list flow_row) (findings : list finding_row) : nodes * list edge :=
  let ge := foldl (add_finding asset) (foldl (add_flow asset) ([(asset, source_node)], []) flows) findings in
  (ge.1, unique_edges [] ge.2).

(** ** The queries (gather) *)

(** [LIKE]: [%] for any text, [_] for one character. *)
Fixpoint like (p : string) : string → bool :=
  match p with
  | EmptyString => λ s, String.eqb s ""
  | String c p =>
      if Ascii.eqb c "%" then
        fix any s := like p s || match s with EmptyString => false | String _ s => any s end
      else λ s, match s with
                | EmptyString => false
                | String d s => (Ascii.eqb c "_" || Ascii.eqb c d) && like p s
                end
  end.
Record tables := {
  t_flows : list (string * flow_row); t_sessions : list (string * session_row); t_findings : list (string * (string * finding_row))
}.
Definition of_tenant {A} (tenant : string) (rows : list (string * A)) : list A := omap (λ r : string * A, if String.eqb r.1 tenant then Some r.2 else None) rows.
Definition MINUTE : Z := 60000000.
Definition flows_of (db : tables) (tenant asset : string) (win sql_now : Z) : list flow_row :=
  take 500 (isort w_time (List.filter (λ f, (String.eqb (w_src f) asset || String.eqb (w_dst f) asset) && (sql_now - win * MINUTE <? w_time f))
    (of_tenant tenant (t_flows db)))).
Definition sessions_of (db : tables) (tenant asset : string) : list session_row :=
  take 200 (isort s_started (List.filter (λ s, String.eqb (s_src s) asset || String.eqb (s_dst s) asset) (of_tenant tenant (t_sessions db)))).
(** The text of a finding's entities, and its row. *)
Definition findings_of (db : tables) (tenant asset : string) : list finding_row :=
  take 200 (isort f_first (snd <$> List.filter (λ ef : string * finding_row, like ("%" +:+ asset +:+ "%") ef.1) (of_tenant tenant (t_findings db)))).
Definition gather (db : tables) (tenant asset : string) (win sql_now : Z) : res (list flow_row * list session_row * list finding_row) :=
  _ ← safe_param tenant; _ ← safe_param asset;
  Ok (flows_of db tenant asset win sql_now, sessions_of db tenant asset, findings_of db tenant asset).

(** ** Requests (Handler) *)

Inductive reply :=
| healthy | unsafe | unknown_path
| timeline (asset : string) (window_min : Z) (t : list entry)
| graph (root : string) (g : nodes * list edge).
(** The first value of each parameter, if there is one. *)
Definition do_GET (db : tables) (path : string) (tenant asset window_min : option string) (sql_now : Z) : res reply :=
  if String.eqb path "/health" then Ok healthy
  else
    let tenant := default "default" tenant in
    let asset := default "" asset in
    win ← py_int (VStr (default "60" window_min));
    match gather db tenant asset win sql_now with
    | Raise ValueError => Ok unsafe
    | Raise e => Raise e
    | Ok (flows, sessions, findings) =>
        if String.eqb path "/reconstruct" then Ok (timeline asset win (build_timeline flows sessions findings))
        else if String.eqb path "/graph" then Ok (graph asset (build_graph asset flows findings))
        else Ok unknown_path
    end.

(** ** Sessions from the topic (session_consumer) *)

(** A time that cannot be read is the time of the reading. *)
Definition _dt (repr : val → string) (v : val) (now : Z * option Z) : Z * option Z := default now (fromisoformat (replace_zulu (py_str repr v))).
Record session_values := {
  v_id : val; v_tenant : string; v_type : val; v_src : val; v_dst : val; v_app : val; v_started : Z * option Z; v_ended : Z * option Z;
  v_cids : list string; v_flows : Z; v_bytes : Z
}.
Definition session_of (repr : val → string) (NDR_TENANT : string) (s : dict) (now : Z * option Z) : res session_values :=
  cids ← match py_or (dgetN "community_ids" s) (VStr "") with VStr t => Ok (List.filter str_truthy (split_char "," t)) | _ => Raise AttributeError end;
  flows ← py_int (py_or (dget_or "flows" (VInt 0) s) (VInt 0));
  bytes ← py_int (py_or (dget_or "bytes" (VInt 0) s) (VInt 0));
  Ok {| v_id := dgetN "session_id" s; v_tenant := NDR_TENANT; v_type := dget_or "session_type" (VStr "host_pair") s;
        v_src := dget_or "src_ip" (VStr "") s; v_dst := dget_or "dst_ip" (VStr "") s; v_app := dget_or "app_proto" (VStr "") s;
        v_started := _dt repr (dgetN "started" s) now; v_ended := _dt repr (dgetN "ended" s) now;
        v_cids := cids; v_flows := flows; v_bytes := bytes |}.
(** The thread inserts row after row and ends at the first message that raises. *)
Fixpoint session_consumer (repr : val → string) (NDR_TENANT : string) (msgs : list (val * (Z * option Z))) : list session_values * option exn :=
  match msgs with
  | [] => ([], None)
  | (m, now) :: msgs =>
      match (d ← as_dict m; session_of repr NDR_TENANT d now) with
      | Raise e => ([], Some e)
      | Ok row => let '(rows, e) := session_consumer repr NDR_TENANT msgs in (row :: rows, e)
      end
  end.

(** ** Facts: the graph *)

Lemma set_node_keys k n ns : (set_node k n ns).*1 = if decide (k ∈ ns.*1) then ns.*1 else ns.*1 ++ [k].
Proof.
  induction ns as [|[k' n'] ns IH]; [done|]. cbn. destruct (String.eqb_spec k k') as [->|Hne]; cbn.
  - rewrite decide_True; [done|by left].
  - rewrite IH. repeat case_decide; try done; rewrite elem_of_cons in *; naive_solver.
Qed.
Lemma add_node_keys k n ns : (add_node k n ns).*1 = if decide (k ∈ ns.*1) then ns.*1 else ns.*1 ++ [k].
Proof.
  unfold add_node. destruct (mem k ns.*1) eqn:E.
  - rewrite decide_True; [done|by apply mem_true].
  - apply set_node_keys.
Qed.
Lemma unique_edges_spec seen es :
  NoDup (key_of <$> unique_edges seen es) ∧ (∀ e, e ∈ unique_edges seen es → e ∈ es ∧ key_of e ∉ seen) ∧
  ∀ e, e ∈ es → key_of e ∈ seen ∨ ∃ e', e' ∈ unique_edges seen es ∧ key_of e' = key_of e.
Proof.
  revert seen. induction es as [|e es IH]; intros seen; cbn [unique_edges].
  { split; [constructor|]. split; by intros ? ?%elem_of_nil. }
  destruct (mem (key_of e) seen) eqn:Em.
  - apply mem_true in Em. destruct (IH seen) as (H1 & H2 & H3). split; [done|]. split; [intros x Hx; destruct (H2 x Hx); by split; [right|]|].
    intros x [->|Hx]%elem_of_cons; [by left|by apply H3].
  - apply mem_false in Em. destruct (IH (key_of e :: seen)) as (H1 & H2 & H3). split; [|split].
    + cbn. constructor; [|done]. intros (x & Hk & Hx)%list_elem_of_fmap. destruct (H2 x Hx) as [_ Hn]. apply Hn. rewrite Hk. by left.
    + intros x [->|Hx]%elem_of_cons; [by split; [left|]|]. destruct (H2 x Hx) as [Hi Hn]. split; [by right|]. intros Hs. apply Hn. by right.
    + intros x [->|Hx]%elem_of_cons; [right; exists e; by split; [left|]|]. destruct (H3 x Hx) as [Hs|(x' & Hx' & Hk)].
      * apply elem_of_cons in Hs as [Hs|Hs]; [right; exists e; by split; [left|]|by left].
      * right. exists x'. by split; [right|].
Qed.

(** While it is built: distinct nodes, and edges from the asset to nodes. *)
Definition rooted (asset : string) (ge : nodes * list edge) : Prop :=
  NoDup ge.1.*1 ∧ asset ∈ ge.1.*1 ∧ ∀ e, e ∈ ge.2 → g_from e = asset ∧ g_to e ∈ ge.1.*1.
Lemma grown_rooted asset ns' (ge : nodes * list edge) k (e : edge) :
  rooted asset ge → ns'.*1 = (if decide (k ∈ ge.1.*1) then ge.1.*1 else ge.1.*1 ++ [k]) → g_from e = asset → g_to e = k →
  rooted asset (ns', ge.2 ++ [e]).
Proof.
  intros (Hn & Ha & He) Hk Hf Ht. assert (Hsub : ∀ x, x ∈ ge.1.*1 → x ∈ ns'.*1) by (intros x Hx; rewrite Hk; case_decide; set_solver).
  assert (Hin : k ∈ ns'.*1) by (rewrite Hk; case_decide; set_solver).
  split; [|split; [by apply Hsub|]].
  - cbn [fst]. rewrite Hk. case_decide; [done|]. apply NoDup_app. split; [done|]. split; [set_solver|apply NoDup_singleton].
  - cbn [fst snd]. intros x [Hx|Hx]%elem_of_app; [destruct (He x Hx); auto|]. apply list_elem_of_singleton in Hx. by subst.
Qed.
Lemma flows_rooted asset flows ge :
  rooted asset ge → rooted asset (foldl (add_flow asset) ge flows) ∧
  (∀ e, e ∈ ge.2 → e ∈ (foldl (add_flow asset) ge flows).2) ∧
  ∀ f, f ∈ flows → w_dst f ≠ "" → w_dst f ≠ asset →
    {| g_from := asset; g_to := w_dst f; g_rel := "flow"; g_label := Some (str_or (w_app f) (w_ndpi f)) |} ∈ (foldl (add_flow asset) ge flows).2.
Proof.
  revert ge. induction flows as [|f flows IH]; intros ge H; cbn [foldl]; [split; [done|split; [done|by intros ? ?%elem_of_nil]]|].
  assert (Hr : rooted asset (add_flow asset ge f)).
  { unfold add_flow. destruct (_ && _); [|done]. eapply grown_rooted; [done|apply add_node_keys|done|done]. }
  destruct (IH _ Hr) as (H1 & H2 & H3). split; [done|]. split.
  - intros e He. apply H2. unfold add_flow. destruct (_ && _); [|done]. cbn. apply elem_of_app. by left.
  - intros g [->|Hg]%elem_of_cons Hd Hne; [|by apply H3]. apply H2. unfold add_flow. apply String.eqb_neq in Hd, Hne. unfold str_truthy.
    rewrite Hd, Hne. cbn. apply elem_of_app. right. by left.
Qed.
Lemma findings_rooted asset findings ge :
  rooted asset ge → rooted asset (foldl (add_finding asset) ge findings) ∧
  (∀ e, e ∈ ge.2 → e ∈ (foldl (add_finding asset) ge findings).2) ∧
  ∀ f, f ∈ findings → {| g_from := asset; g_to := f_id f; g_rel := "finding"; g_label := None |} ∈ (foldl (add_finding asset) ge findings).2.
Proof.
  revert ge. induction findings as [|f findings IH]; intros ge H; cbn [foldl]; [split; [done|split; [done|by intros ? ?%elem_of_nil]]|].
  assert (Hr : rooted asset (add_finding asset ge f)) by (eapply grown_rooted; [done|apply set_node_keys|done|done]).
  destruct (IH _ Hr) as (H1 & H2 & H3). split; [done|]. split.
  - intros e He. apply H2. cbn. apply elem_of_app. by left.
  - intros g [->|Hg]%elem_of_cons; [|by apply H3]. apply H2. cbn. apply elem_of_app. right. by left.
Qed.
(** C0. The graph is one connected picture.  Its nodes are distinct and hold the asset;
    its edges are distinct and lead from the asset to its nodes; every flow to another host
    and every finding has its edge. *)
Theorem graph_connected asset flows findings :
  let '(ns, es) := build_graph asset flows findings in
  NoDup ns.*1 ∧ asset ∈ ns.*1 ∧ NoDup (key_of <$> es) ∧
  (∀ e, e ∈ es → g_from e = asset ∧ g_to e ∈ ns.*1) ∧
  (∀ f, f ∈ flows → w_dst f ≠ "" → w_dst f ≠ asset →
     ∃ e, e ∈ es ∧ key_of e = (asset, w_dst f, "flow", str_or (w_app f) (w_ndpi f))) ∧
  ∀ f, f ∈ findings → ∃ e, e ∈ es ∧ key_of e = (asset, f_id f, "finding", "").
Proof.
  unfold build_graph. set (ge1 := foldl (add_flow asset) _ flows). set (ge2 := foldl (add_finding asset) ge1 findings).
  assert (H0 : rooted asset ([(asset, source_node)], [])).
  { split; [apply NoDup_singleton|]. split; [by left|]. by intros e ?%elem_of_nil. }
  destruct (flows_rooted asset flows _ H0) as (H1 & _ & Hf). destruct (findings_rooted asset findings _ H1) as ((Hn & Ha & He) & Hk & Hg).
  fold ge1 in Hf, Hk, Hg, He, Hn, Ha. fold ge2 in Hk, Hg, He, Hn, Ha. destruct (unique_edges_spec [] ge2.2) as (U1 & U2 & U3).
  split_and!; [done|done|done|intros e E; by apply He, (U2 e E)| |].
  - intros f Hin Hd Hne. destruct (U3 _ (Hk _ (Hf f Hin Hd Hne))) as [Hx|(e & Hin' & E)]; [by apply elem_of_nil in Hx|by exists e].
  - intros f Hin. destruct (U3 _ (Hg f Hin)) as [Hx|(e & Hin' & E)]; [by apply elem_of_nil in Hx|by exists e].
Qed.

(** ** Facts: the timeline *)

(** Time order, nothing added and nothing lost. *)
Theorem timeline_ordered flows sessions findings :
  StronglySorted (λ a b, leb (e_t a) (e_t b) = true) (build_timeline flows sessions findings) ∧
  build_timeline flows sessions findings ≡ₚ (flow_entry <$> flows) ++ (session_entry <$> sessions) ++ (finding_entry <$> findings).
Proof. split; [apply isort_sorted|apply isort_perm]. Qed.

Definition plain_char (c : ascii) : bool := negb (Ascii.eqb c "%") && negb (Ascii.eqb c "_").
Lemma like_any p s : like (String "%" p) s = true ↔ ∃ a b, s = a +:+ b ∧ like p b = true.
Proof.
  assert (E : ∀ s, like (String "%" p) s = like p s || match s with EmptyString => false | String _ s => like (String "%" p) s end) by (intros []; done).
  induction s as [|c s IH]; rewrite E; clear E.
  - rewrite orb_false_r. split; [intros H; by exists "", ""|]. intros (a & b & Hs & Hb). destruct a; [|discriminate Hs]. cbn in Hs. by subst.
  - rewrite orb_true_iff, IH. split.
    + intros [H|(a & b & -> & Hb)]; [by exists "", (String c s)|by exists (String c a), b].
    + intros (a & b & Hs & Hb). destruct a as [|d a]; cbn in Hs; [subst; by left|]. injection Hs as -> ->. right. by exists a, b.
Qed.
Lemma like_plain a p s : string_forallb plain_char a = true → like (a +:+ p) s = true ↔ ∃ b, s = a +:+ b ∧ like p b = true.
Proof.
  revert s. induction a as [|c a IH]; intros s Ha; [cbn; split; [intros H; by exists s|by intros (b & -> & H)]|].
  cbn in Ha. apply andb_true_iff in Ha as [Hc Ha]. unfold plain_char in Hc. apply andb_true_iff in Hc as [H1 H2]. apply negb_true_iff in H1, H2.
  cbn. rewrite H1. destruct s as [|d s]; [split; [discriminate|by intros (b & [=] & _)]|]. rewrite H2. cbn. rewrite andb_true_iff, IH by done. split.
  - intros [->%Ascii.eqb_eq (b & -> & H)]. by exists b.
  - intros (b & [= -> ->] & H). split; [apply Ascii.eqb_refl|by exists b].
Qed.
(** An asset without wildcards is looked for as a part of the text. *)
Lemma like_asset asset s : string_forallb plain_char asset = true → like ("%" +:+ asset +:+ "%") s = true ↔ substring_of asset s.
Proof.
  intros Ha. change ("%" +:+ asset +:+ "%") with (String "%" (asset +:+ "%")). rewrite like_any. split.
  - intros (a & b & -> & H). rewrite like_plain in H by done. destruct H as (c & -> & _). by exists a, c.
  - intros (a & b & ->). exists a, (asset +:+ b). split; [done|]. rewrite like_plain by done. exists b. split; [done|].
    change "%" with (String "%" ""). apply like_any. exists b, "". by rewrite sapp_nil_r.
Qed.

(** What a row has to do with an asset. *)
Definition concerns (db : tables) (tenant asset : string) (win sql_now : Z) (e : entry) : Prop :=
  (∃ f, e = flow_entry f ∧ (tenant, f) ∈ t_flows db ∧ (w_src f = asset ∨ w_dst f = asset) ∧ sql_now - win * MINUTE < w_time f) ∨
  (∃ s, e = session_entry s ∧ (tenant, s) ∈ t_sessions db ∧ (s_src s = asset ∨ s_dst s = asset)) ∨
  (∃ f entities, e = finding_entry f ∧ (tenant, (entities, f)) ∈ t_findings db ∧ like ("%" +:+ asset +:+ "%") entities = true).
Lemma elem_of_tenant {A} tenant (rows : list (string * A)) (r : A) : r ∈ of_tenant tenant rows ↔ (tenant, r) ∈ rows.
Proof.
  unfold of_tenant. rewrite list_elem_of_omap. split.
  - intros ([t x] & Hin & E). cbn in E. destruct (String.eqb_spec t tenant) as [->|]; [|discriminate E]. by injection E as ->.
  - intros H. exists (tenant, r). split; [done|]. cbn. by rewrite String.eqb_refl.
Qed.
(** C27. A timeline is about its tenant and its asset.  An answer is in time order; its
    tenant and asset passed the check of characters; every entry is a row of that tenant:
    a flow of the asset within the window, a session of the asset, or a finding whose
    entities mention it, by the meaning of [LIKE]. *)
Theorem timeline_grounded db path tenant asset window_min sql_now a win t :
  do_GET db path tenant asset window_min sql_now = Ok (timeline a win t) →
  a = default "" asset ∧ _SAFE (default "default" tenant) = true ∧ _SAFE a = true ∧
  StronglySorted (λ x y, leb (e_t x) (e_t y) = true) t ∧
  ∀ e, e ∈ t → concerns db (default "default" tenant) a win sql_now e.
Proof.
  unfold do_GET. destruct (String.eqb path "/health"); [discriminate|]. intros H. apply bind_ok_inv in H as (w & _ & H). unfold gather in H.
  unfold safe_param in H. destruct (_SAFE (default "default" tenant)) eqn:Et; [|discriminate H]. destruct (_SAFE (default "" asset)) eqn:Ea; [|discriminate H].
  cbn in H. destruct (String.eqb path "/reconstruct"); [|destruct (String.eqb path "/graph"); discriminate H]. injection H as <- <- <-.
  destruct (timeline_ordered (flows_of db (default "default" tenant) (default "" asset) w sql_now) (sessions_of db (default "default" tenant) (default "" asset))
    (findings_of db (default "default" tenant) (default "" asset))) as [Hs Hp]. split_and!; [done..|]. intros e He. rewrite Hp, !elem_of_app, !list_elem_of_fmap in He.
  destruct He as [(f & -> & Hf)|[(s & -> & Hf)|(f & -> & Hf)]].
  - left. exists f. split; [done|]. apply elem_take in Hf. rewrite elem_of_isort, elem_filter, elem_of_tenant, andb_true_iff, orb_true_iff, !String.eqb_eq, Z.ltb_lt in Hf. tauto.
  - right. left. exists s. split; [done|]. apply elem_take in Hf. rewrite elem_of_isort, elem_filter, elem_of_tenant, orb_true_iff, !String.eqb_eq in Hf. tauto.
  - right. right. apply elem_take in Hf. rewrite elem_of_isort, list_elem_of_fmap in Hf. destruct Hf as ([entities f'] & -> & Hf).
    rewrite elem_filter, elem_of_tenant in Hf. exists f', entities. tauto.
Qed.

(** ** Concrete answers *)

Definition demo_row (id : string) (at_ : Z) : finding_row :=
  {| f_id := id; f_category := "recon"; f_detector := "scan"; f_severity := 5; f_state := "FINAL"; f_first := at_ |}.
Definition demo_db : tables :=
  {| t_flows := [("acme", {| w_time := 1772366400000000; w_src := "10.0.0.1"; w_dst := "10.9.9.9"; w_port := 443; w_app := ""; w_ndpi := "TLS" |});
                 ("other", {| w_time := 1772366400000000; w_src := "10.0.0.1"; w_dst := "10.9.9.8"; w_port := 443; w_app := ""; w_ndpi := "TLS" |})];
     t_sessions := [];
     t_findings := [("acme", ("[{type: ip, value: 10.0.0.10}]", demo_row "F-10" 1772366300000000))] |}.
Definition demo_timeline : list entry :=
  [finding_entry (demo_row "F-10" 1772366300000000);
   flow_entry {| w_time := 1772366400000000; w_src := "10.0.0.1"; w_dst := "10.9.9.9"; w_port := 443; w_app := ""; w_ndpi := "TLS" |}].
(** Asked for one host, it answers with the finding of another whose address begins like it. *)
Lemma timeline_grounded_witness :
  do_GET demo_db "/reconstruct" (Some "acme") (Some "10.0.0.1") None 1772366500000000 = Ok (timeline "10.0.0.1" 60 demo_timeline) ∧
  ∀ e, e ∈ demo_timeline → concerns demo_db "acme" "10.0.0.1" 60 1772366500000000 e.
Proof.
  assert (E : do_GET demo_db "/reconstruct" (Some "acme") (Some "10.0.0.1") None 1772366500000000 = Ok (timeline "10.0.0.1" 60 demo_timeline))
    by (vm_compute; reflexivity).
  split; [exact E|]. exact (proj2 (proj2 (proj2 (proj2 (timeline_grounded _ _ _ _ _ _ _ _ _ E))))).
Defined.
Example wildcard_asset_matches_all : findings_of demo_db "acme" "%" = [demo_row "F-10" 1772366300000000].
Proof. vm_compute. reflexivity. Qed.
(** A window that is no number raises past the handler's check. *)
Example window_text_raises : do_GET demo_db "/reconstruct" (Some "acme") (Some "10.0.0.1") (Some "1h") 0 = Raise ValueError.
Proof. vm_compute. reflexivity. Qed.
(** One session whose flows are no number ends the thread that stores sessions. *)
Definition demo_session (flows : val) : val * (Z * option Z) := (VDict [("session_id", VStr "s"); ("flows", flows)], (0, None)).
Example bad_session_ends_thread :
  let '(rows, e) := session_consumer (λ _, "") "acme" [demo_session (VInt 1); demo_session (VStr "many"); demo_session (VInt 2)] in
  (length rows, e) = (1%nat, Some ValueError).
Proof. vm_compute. reflexivity. Qed.
